(* ===== verification/_CoqProject ===== *)
-Q . S2P
Prelude.v
Threads.v
Kernel.v
SoftCard.v
Mixer.v
MixerFacts.v
CStrings.v
ConfigData.v
Expat.v
Routing.v
RefCount.v
RouteInv.v
RoutingFacts.v
StreamFacts.v
ParseState.v
Parser.v
SoftXml.v
ParserStack.v
ParserObjs.v
ParserHandlers.v
ParserFacts.v
ParserSound.v
PcmKernel.v
Pcm.v
SoftPcm.v
PcmFacts.v
PcmSpec.v
VoiceTrigger.v
VoiceFacts.v
HalOut.v
HalIn.v
HalDev.v
SoftHal.v
InResampler.v
HalOutFacts.v
HalOutSafe.v
HalKeeps.v
HalInFacts.v
HalAsync.v
HalSystem.v
HalParams.v
SensorQueue.v
MultiHal.v
PollFacts.v
SensorSystem.v
MultiHalDev.v
SoftSensors.v
SensorSysInv.v
SensorSpec.v
MultiHalFacts.v
Lights.v
CameraH.v
LegacyMeta.v
LegacyMetaFacts.v
CameraWrap.v
Camera3.v
CameraInv.v
CameraSystem.v
CameraCapture.v
CameraSubmit.v
CameraRuns.v
SoftCamera.v
CameraReturns.v
CameraOps.v
CameraFrames.v
CameraLink.v
CameraFacts.v
Parcels.v
CameraMeta.v
CameraMetaFacts.v
CameraMetaSystem.v
SoftMeta.v
CondVar.v
CondVarFacts.v
CameraParams.v
VendorTags.v
CameraRpc.v
CameraRpcFacts.v
CameraService.v
CameraClient.v
