(* ===== verification/Prelude.v ===== *)
(** * The hardware abstraction layers of the Xiaomi MiPad (mocha)

    The device tree's own programs are its hardware abstraction layers.  The
    largest is the audio stack: an Android audio HAL (src/audio/audio_hw.c) on
    top of a configuration manager that reads an XML description of the sound
    card and routes audio streams (src/configmgr/audio_config.c), on top of the
    TinyALSA mixer and PCM libraries (src/tinyalsa/mixer.c, src/tinyalsa/pcm.c).
    The sensors HAL (src/sensors) loads the stock sensor libraries and merges
    their events behind the newer interface the framework expects; the lights
    HAL (src/liblights) sets the backlight; the camera HAL (src/camera) adapts
    the stock camera library to a newer interface.  src/libmocha keeps platform
    classes and functions that the proprietary libraries link to.  This
    development models them as functions on explicit state and proves what makes
    them correct.  These parts do not call each other; beside Prelude.v they
    share Threads.v, CameraH.v and CStrings.v.

    ** Conventions

    - Machine integers are [Z] with their wrap-around written out ([u32],
      [s32], ... below); the target is 32-bit ARM.
    - A C function that changes state is a function in the state monad [M] on
      [world K] (Kernel.v): [K] is the state of the kernel driver behind the
      system calls, a parameter with an interface ([AlsaCtl], [AlsaPcm]) and
      laws that state what the driver's C types or the ALSA documentation
      guarantee; the other parts are a script of the outcomes of the coming
      allocations and a log of the undefined behaviour executed.  A function
      that cannot run undefined behaviour [yields] a result; one that can run
      only certain kinds [limits] them.  Theorems quantify over the world, so
      they hold for every driver and every allocation failure.
    - Objects reached through pointers are passed and returned; pointers into
      the parser's growing arrays are indices that are looked up at each use,
      as the arrays move when they grow.
    - Loops are structural where the code walks a list.  [Hang] is recorded
      when the fuel of another loop runs out: the read loop of the parser has
      fuel for the length of its file, and the callbacks of one [XML_Parse]
      are bounded by the parser's interface (both are proved never to run
      out); waiting for the codec probe file and following redirections are
      unbounded in the code and have their bound as a parameter, and so have
      the waiting loops of the PCM library.  The boundary of a stream doubles
      at most 32 times (proved), [pcm_write] turns at most twice (proved).

    ** Files

    - Prelude.v: machine integers, the state monad, generic list lemmas.
    - Kernel.v: little-endian memory, the ALSA control structures of
      src/tinyalsa/include/sound/asound.h, the control device's interface
      [AlsaCtl], the world and the logic of [yields] and [limits].
    - SoftCard.v: a software sound card, an instance of every interface of the
      control device; witnesses run on it.
    - Mixer.v, MixerFacts.v: src/tinyalsa/mixer.c.  Opening is safe and
      complete; values and names round trip; percentages.
    - CStrings.v: the C library's number and string functions the
      configuration uses, [string_to_uint], [probe_trim_spaces].
    - Expat.v: the expat XML parser and the file system, as parameters with
      their documented laws.
    - ConfigData.v: Android's audio header (a parameter) and the data of
      audio_config.c (devices, paths, controls, streams, use cases, dynamic
      arrays).
    - Routing.v: the functions of src/include/tinyhal/audio_config.h
      ([get_stream], [release_stream], [apply_route], [set_hw_volume],
      [apply_use_case], ...), with the lazy opening of controls.  The lock of
      the manager is held over each of them: a call is one step.  The masks of
      [apply_route] are computed before the lock is taken ([route_masks]);
      RouteInv.v shows that calls on other streams in between do not change them.
    - RefCount.v, RouteInv.v: the reference-counting of devices; the invariant
      that use counts are the numbers of users, over all reachable states of a
      step relation whose steps are the interface's calls.
    - RoutingFacts.v: no call of the interface executes undefined behaviour on
      a configuration in order ([cm_ok]).
    - StreamFacts.v: functional specifications of the choice of streams, the
      walk over paths, volumes and use cases.
    - ParseState.v, Parser.v: the XML handlers, tables, parse stack and driver
      of audio_config.c, up to [init_audio_config].
    - SoftXml.v: a scripted instance of the XML parser, for witnesses.
    - ParserStack.v, ParserObjs.v, ParserHandlers.v,
      ParserFacts.v: the invariant of the parser (the place in the element
      tree, the stack, the pointers in [current], the objects built so far),
      preserved by every handler and callback.
    - ParserSound.v: [init_audio_config] end to end, and the safety of every
      call made later on the configuration it returns; the array that is freed
      twice after a control with a bad index.

    - PcmKernel.v, Pcm.v: src/tinyalsa/pcm.c over the interface [AlsaPcm] of a
      PCM device: hardware parameters, opening, both kinds of transfers and
      the arithmetic of the ring buffer's pointers.  The pages shared with the
      kernel are read and written through the interface, so the kernel may
      move its pointer between any two accesses.
    - SoftPcm.v: a software PCM device.
    - PcmFacts.v, PcmSpec.v: opening gives a consistent stream, the pointers
      of the ring, safety of the transfers, termination of [pcm_write].

    - VoiceTrigger.v: the voice trigger state machine of src/audio/audio_hw.c,
      a client of the configuration manager inside the HAL.
    - VoiceFacts.v: the HAL's other clients and the voice trigger as one system
      of events with a ledger of references: reference counts, safety, the
      command that wins.

    The audio HAL, src/audio/audio_hw.c:

    - HalOut.v: its surroundings as parameters (Android's headers and parameter
      strings, the tinycompress library, the clock), pointers that may be null
      or freed, parameter strings ([stream_invoke_usecases]); PCM and compressed
      output streams.
    - HalIn.v: input streams: PCM, resampled PCM (the resampler of audio_utils
      is a parameter whose calls back into its provider are a tree of requests
      and releases), PCM over a compressed channel; the input source.
    - HalDev.v: the device: opening, opening and closing streams, parameters.
      The constructor of an output object is whose functions were installed in
      it; that it has the size for that is checked where it is initialised.
    - SoftHal.v: all of the surroundings in software.
    - InResampler.v: the provider of the resampler refines a queue of samples.
    - HalOutFacts.v, HalOutSafe.v: an output stream from opening to closing:
      safety of every call, the outcomes of a write.
    - HalKeeps.v: what every call leaves alone, whatever happens.
    - HalInFacts.v: an input stream from opening to closing; reads never fail.
    - HalAsync.v: the thread of asynchronous output and the client's calls as
      the events of a transition system: which requests are served and when a
      close returns.  One event of the thread is what it does between two
      accesses to what it shares; a wake-up without a signal, which POSIX
      allows, is an event of its own.
    - HalSystem.v: the whole HAL as a system of device, streams and voice
      trigger; reference counts are the numbers of users.
    - HalParams.v: parameter strings round trip.

    Everywhere else each call of the HAL is one step: the code holds the lock
    of the stream or the device over it, but for the write and the drain of a
    compressed stream, which take what other threads do at the points at which
    they do not hold it.  A call returns the object it changes;
    a union is an inductive type, and reading the member that was not written
    is recorded as a fault.

    The sensors HAL, src/sensors:

    - SensorQueue.v: the data of hardware/sensors.h, whose constants are a
      parameter, and src/sensors/SensorEventQueue.cpp, the ring of events
      between the thread of a sensor library and [poll], and what its
      operations do to the list of the events it holds.
    - MultiHal.v: the tables of handles of src/sensors/multihal.cpp and the
      parts of it that hold [queue_mutex] ([poll], [flush]), as functions that
      give [None] for an access outside a vector or array.  The fuel of [poll]'s
      inner loop is a round of the queues for every event in them and one more,
      proved to be enough.
    - PollFacts.v: a section of [poll] is explained by a log of the events it
      took and the flushes it completed.
    - SensorSystem.v: the writer threads, [poll], [flush] and [activate] as the
      events of a transition system; an event is what a thread does between two
      points at which the mutex is free.  The state keeps, beside the program's,
      what each module has given, the flushes accepted and what [poll] returned.
    - SensorSysInv.v: its invariant, over all runs.
    - SensorSpec.v: events are delivered once and in order,
      flushes are completed after the events before them, no wake-up is lost,
      pending flushes progress; the ring refines a bounded queue with one
      writer.  The counters are 64 bits wide; the theorems on
      flushes are about fewer than 2^64 events of each module.
    - MultiHalDev.v: loading the libraries, the list of sensors, opening, and
      the calls on devices.
    - MultiHalFacts.v: the handles of the sensors; opening is
      all or nothing and gives the state the system starts from.
    - SoftSensors.v: two sensor libraries in software.

    Lights.v: the backlight of src/liblights/lights.c.

    The camera HAL, src/camera:

    - Threads.v: threads over a shared state as trees of atomic actions, pools of
      them that run in any interleaving, and a rely-guarantee logic for what a
      thread maintains whatever the others do.
    - CameraH.v: the platform's headers, metadata packets, and the interface
      [CameraMetadataApi] of the platform's class CameraMetadata with its laws.
    - LegacyMeta.v, LegacyMetaFacts.v: src/camera/LegacyMetadata.cpp and what its translations of requests,
      results and characteristics give, over any such class.
    - CameraWrap.v: the module, src/camera/CameraWrapper.cpp.
    - Camera3.v: the device, src/camera/Camera3Wrapper.cpp.  A method is a thread
      of actions: a section under [stateMutex] is one, and so is a call of the
      stock library; [requestMutex] and [callbackMutex] are taken and released
      by actions of their own.  The time-out of the drain, a wake-up without a
      signal and a busy mutex in [dump] are choices of the scheduler.  The state
      keeps a log of what the adapter does to its surroundings and of when the
      stock library has ended a frame's metadata and its shutter, serial numbers
      of the frames, and what a callback has taken from a frame and not yet
      given to the client; these are not in the code.
    - CameraInv.v: the contract with the client as a law on logs, and the
      accounts of the buffers of all requests, kept by every change of a frame.
    - CameraSystem.v: the invariant of the shared state, what each thread
      guarantees, and the rules for threads that hold [requestMutex].
    - CameraCapture.v, CameraSubmit.v, CameraRuns.v: every call of the client
      and every callback keeps them.  CameraRuns.v has the pool of all calls and callbacks, started at any moment.
      The streams named by a configuration exist, the number of buffers is an
      [unsigned], and the stock library notifies only once it has been given a
      request; nothing else is assumed of the client or the stock library.
    - CameraFacts.v: what every run guarantees: the contract, the buffers,
      draining, references to handles, templates, no null dereference.
    - CameraReturns.v: every call returns.
    - CameraOps.v, CameraFrames.v: what configurations, requests and results are
      made into, and which calls are refused.
    - CameraLink.v: the module's answers last; the module is the implementation
      of what Camera3.v expects of it, and a device is opened over its state.
    - SoftCamera.v, CameraFacts.v: a camera, its metadata class and its
      module in software, a run on it, and the theorems applied to it.

    The libraries for proprietary blobs, src/libmocha:

    - Parcels.v: binder's parcels as a parameter: a queue of typed values; one
      in software.
    - CameraMeta.v: the class CameraMetadata of src/libmocha/camera.  An object
      owns a packet of the platform's metadata library or none; what is in a
      packet is kept with its owner, and a heap says which packets are
      allocated, so that a use after a free is visible; the caller's array has an
      address and is read after the packet was resized.
    - CameraMetaFacts.v: what an update can end in, an object as a map from tags
      to values, packets through parcels.
    - CameraMetaSystem.v: a program's objects and packets and all calls on them
      as the steps of a system: every packet is owned once.
    - SoftMeta.v: a metadata library in software, the theorems applied to it,
      and the cases in which packets are lost.
    - CameraParams.v: the class CameraParameters: text and map, sizes and lists;
      and the class CameraParameters2, which keeps the order of the settings and
      is proved to hold what CameraParameters holds after the same calls.
    - VendorTags.v: the class VendorTagDescriptor, from a library's functions
      and from parcels, what every descriptor guarantees, and descriptors
      through parcels.  A read outside a vector and an abort are outcomes of
      making a descriptor, and the theorem says when they happen.
    - CameraRpc.v: both ends of binder's interface of a camera device
      (src/libmocha/camera/camera2/ICameraDeviceUser.cpp) and the requests,
      results and outputs it carries, over any transport and any service.
    - CameraRpcFacts.v: the objects come through parcels; a call of the proxy on
      a living service is the service's own call, also where there is no memory
      for the metadata sent; what it reports of a dead one.
    - CameraService.v: both ends of binder's interface of the camera service
      (ICameraService.cpp) and of those it calls back, whose calls do not wait
      for a reply (camera2/ICameraDeviceCallbacks.cpp,
      ICameraServiceListener.cpp, ICameraServiceProxy.cpp).  An interface of the
      latter kind is a record [oneway] whose laws say that a call gives binder
      one message that the other end understands.  Binder's line of such calls
      is a parameter, the class [Channel]: its documented law is that calls it
      takes are delivered in their order, and it may refuse a call.  From these
      alone it follows that the receiver performs the calls taken in their order,
      whatever the interleaving of calls and deliveries, and each interface is an
      instance.  Two answers
      of the service never reach its callers.
    - CameraClient.v: both ends of the interfaces between a camera and its
      client (ICamera.cpp, ICameraClient.cpp, ICameraRecordingProxy.cpp,
      ICameraRecordingProxyListener.cpp), and a client program with its objects
      of the class Camera (Camera.cpp, CameraBase.cpp): the service it knows,
      who is linked to the death of which binder, what the listeners are told.
      A run interleaves calls, messages and deaths, and a call takes the deaths
      that happen inside it, before and after a binder is linked; polls of the
      service manager are bounded by an argument of the call, and a call is still
      waiting when they are used up.  Also CameraUtils.cpp.
    - CondVar.v, CondVarFacts.v: bionic's condition variables, src/libmocha/bionic,
      over the kernel's futexes as a parameter, with the threads of Threads.v.
      The word, the mutex and the queue of sleeping threads are the code's state;
      the counts of pulses and what each thread has read are a record of the
      run.  Clients wait for a flag as the comment on the pulse asks.

    ** What is not modelled

    The debug log (print_ctls, ALOGV/ALOGE), the release of memory at the end
    of the parse and at shutdown (the tables of strings that cleanup_parser
    releases, free_audio_config, adev_close), and the content of memory no longer referenced.  [strdup],
    [calloc] and [realloc] may fail; [free] is modelled where it can go wrong.
    The uninitialised card and device of a hardware stream are a parameter
    ([indeterminate]).  Of audio_hw.c: out_set_volume, whose volumes are
    floating-point numbers; the decoder under COMPRESS_PCM_USE_UNSHORTEN, which
    is not defined; the stubs for dumps, effects and timestamps.  Of multihal.cpp:
    the entry points that only cast and call, and the threads of a device that
    has been closed.  Of lights.c: the allocation of its device object.
    Of the camera: log messages, the tables of pointers to functions, and what
    a callback does that comes after the device has been deleted.
    Of the camera client library: floating-point parameters and everything that
    only prints; objects are not counted: one that is cleared is gone.  The command
    line tools and the platform shims of src/libmocha are left out. *)

From stdpp Require Export base list list_numbers numbers option sets strings.

From stdpp Require Export base list list_numbers numbers option sets strings.

From stdpp Require Export base list list_numbers numbers option sets strings.
From stdpp Require Import options.

#[global] Open Scope Z_scope.

(** Proves a closed decidable proposition by evaluating its decision. *)
Ltac by_decide := refine (bool_decide_unpack _ _); vm_compute; exact I.

(** ** Machine integers

    The target is 32-bit ARM ([TARGET_ARCH := arm] in src/BoardConfig.mk):
    [int], [long], [unsigned] and [size_t] are 32 bits wide. *)

Definition wrap (w z : Z) : Z := z mod 2 ^ w.
Definition swrap (w z : Z) : Z := (z + 2 ^ (w - 1)) mod 2 ^ w - 2 ^ (w - 1).

Definition u8 (z : Z) : Z := wrap 8 z.
Definition u16 (z : Z) : Z := wrap 16 z.
Definition u32 (z : Z) : Z := wrap 32 z.
Definition s32 (z : Z) : Z := swrap 32 z.

Definition UINT_MAX : Z := 0xFFFFFFFF.
Definition INT_MAX : Z := 0x7FFFFFFF.

(** Complement of an unsigned 32-bit word. *)
Definition not32 (z : Z) : Z := u32 (Z.lnot z).

(** errno values (asm-generic/errno.h) *)
Definition ENOENT : Z := 2.
Definition EINTR : Z := 4.
Definition EIO : Z := 5.
Definition ENOMEM : Z := 12.
Definition EBUSY : Z := 16.
Definition ENODEV : Z := 19.
Definition EINVAL : Z := 22.
Definition EPIPE : Z := 32.
Definition ENOSYS : Z := 38.
Definition EBADFD : Z := 77.
Definition ESTRPIPE : Z := 86.
Definition ENOTSUP : Z := 95.

(** Linear arithmetic through the error codes. *)
Ltac errno_lia :=
  unfold ENOENT, EINTR, EIO, ENOMEM, EBUSY, ENODEV, EINVAL, EPIPE, ENOSYS, EBADFD,
    ESTRPIPE, ENOTSUP in *; lia.

(** [is_u32 z] / [is_s32 z]: [z] is the value of an [unsigned] / [int] object. *)
Definition is_u32 (z : Z) : Prop := 0 <= z < 2 ^ 32.
Definition is_s32 (z : Z) : Prop := - 2 ^ 31 <= z < 2 ^ 31.

Create HintDb width discriminated.
Create Rewrite HintDb width.
Create Rewrite HintDb monad.

Lemma wrap_range w z : 0 <= w -> 0 <= wrap w z < 2 ^ w.
Proof. intros. unfold wrap. apply Z.mod_pos_bound. lia. Qed.

Lemma u32_range z : is_u32 (u32 z).
Proof. apply (wrap_range 32). lia. Qed.

Lemma u8_range z : 0 <= u8 z < 256.
Proof. apply (wrap_range 8). lia. Qed.

Lemma u32_small z : is_u32 z -> u32 z = z.
Proof. unfold u32, wrap, is_u32. intros. apply Z.mod_small. lia. Qed.

Lemma u8_small z : 0 <= z < 256 -> u8 z = z.
Proof. unfold u8, wrap. intros. apply Z.mod_small. lia. Qed.

Lemma s32_range z : is_s32 (s32 z).
Proof.
  unfold s32, swrap, is_s32.
  pose proof (Z.mod_pos_bound (z + 2 ^ (32 - 1)) (2 ^ 32)). lia.
Qed.

Lemma s32_small z : is_s32 z -> s32 z = z.
Proof.
  unfold s32, swrap, is_s32. intros.
  rewrite Z.mod_small; lia.
Qed.

Lemma s32_u32 z : s32 (u32 z) = s32 z.
Proof.
  unfold s32, u32, swrap, wrap. f_equal.
  rewrite Zplus_mod_idemp_l. done.
Qed.

Lemma u32_s32 z : u32 (s32 z) = u32 z.
Proof.
  unfold s32, u32, swrap, wrap. rewrite Zminus_mod_idemp_l. f_equal. lia.
Qed.

Lemma u32_u32 z : u32 (u32 z) = u32 z.
Proof. apply u32_small, u32_range. Qed.

#[export] Hint Resolve u32_range u8_range s32_range : width.
#[export] Hint Rewrite u32_u32 s32_u32 : width.

(** ** Bit masks *)

(** [BIT(x)] of audio_config.c. *)
Definition BIT (x : Z) : Z := Z.shiftl 1 x.

Lemma not32_testbit z n :
  0 <= n -> Z.testbit (not32 z) n = bool_decide (n < 32) && negb (Z.testbit z n).
Proof.
  intros. unfold not32, u32, wrap. case_bool_decide.
  - rewrite Z.mod_pow2_bits_low by lia. by rewrite Z.lnot_spec.
  - by rewrite Z.mod_pow2_bits_high by lia.
Qed.

Lemma u32_testbit_high z n : is_u32 z -> 32 <= n -> Z.testbit z n = false.
Proof.
  intros Hz Hn. rewrite <- (u32_small z Hz).
  unfold u32, wrap. by rewrite Z.mod_pow2_bits_high by lia.
Qed.

Lemma land_not32_self z : Z.land z (not32 z) = 0.
Proof.
  apply Z.bits_inj'. intros n Hn.
  rewrite Z.land_spec, not32_testbit, Z.bits_0 by done.
  case_bool_decide; destruct (Z.testbit z n); done.
Qed.

Lemma land_disjoint_ldiff z m d :
  Z.land d m = 0 -> is_u32 z -> Z.land (Z.land z (not32 m)) d = Z.land z d.
Proof.
  intros Hd Hz. apply Z.bits_inj'. intros n Hn.
  assert (Hb : Z.testbit d n && Z.testbit m n = false)
    by (by rewrite <- Z.land_spec, Hd, Z.bits_0).
  rewrite !Z.land_spec, not32_testbit by done.
  case_bool_decide.
  - destruct (Z.testbit z n), (Z.testbit d n), (Z.testbit m n); done.
  - rewrite (u32_testbit_high z n) by (done || lia). done.
Qed.

Lemma land_bound n a b : 0 <= n -> 0 <= a < 2 ^ n -> 0 <= Z.land a b < 2 ^ n.
Proof.
  intros Hn Ha.
  assert (Hmod : Z.land a b = Z.land a b mod 2 ^ n).
  { apply Z.bits_inj'. intros k Hk. destruct (decide (k < n)).
    - by rewrite Z.mod_pow2_bits_low by lia.
    - rewrite Z.mod_pow2_bits_high, Z.land_spec by lia.
      rewrite <- (Z.mod_small a (2 ^ n)) by done.
      by rewrite Z.mod_pow2_bits_high by lia. }
  rewrite Hmod. apply Z.mod_pos_bound. lia.
Qed.

Lemma land_is_u32 a b : is_u32 a -> is_u32 (Z.land a b).
Proof. apply (land_bound 32). lia. Qed.

#[export] Hint Resolve land_is_u32 : width.

(** ** The state monad of effectful C code *)

Definition M (S A : Type) : Type := S → A * S.

#[export] Instance M_ret S : MRet (M S) := λ A a s, (a, s).
#[export] Instance M_bind S : MBind (M S) :=
  λ A B f m s, let '(a, s') := m s in f a s'.

(** [triple P m Q]: from a state satisfying [P], [m] returns a value and a
    state satisfying [Q]. *)
Definition triple {S A} (P : S → Prop) (m : M S A) (Q : A → S → Prop) : Prop :=
  ∀ s, P s → Q (m s).1 (m s).2.

Section triple.
  Context {S : Type}.

Lemma bind_run {A B} (m : M S A) (f : A → M S B) s :
  (m ≫= f) s = f (m s).1 (m s).2.
Proof. unfold mbind, M_bind. by destruct (m s). Qed.

Lemma triple_ret {A} (P : S → Prop) (a : A) (Q : A → S → Prop) :
  (∀ s, P s → Q a s) → triple P (mret a) Q.
Proof. intros H s Hs. by apply H. Qed.

Lemma triple_bind {A B} P (m : M S A) R (f : A → M S B) Q :
  triple P m R → (∀ a, triple (R a) (f a) Q) → triple P (m ≫= f) Q.
Proof. intros Hm Hf s Hs. rewrite bind_run. by apply Hf, Hm. Qed.

Lemma triple_conseq {A} (P P' : S → Prop) (m : M S A) (Q Q' : A → S → Prop) :
  triple P' m Q' → (∀ s, P s → P' s) → (∀ a s, Q' a s → Q a s) → triple P m Q.
Proof. intros H HP HQ s Hs. by apply HQ, H, HP. Qed.

Lemma triple_post {A} (P : S → Prop) (m : M S A) (Q Q' : A → S → Prop) :
  triple P m Q' → (∀ a s, Q' a s → Q a s) → triple P m Q.
Proof. intros H HQ. by eapply triple_conseq. Qed.

Lemma triple_if {A} (b : bool) P (m1 m2 : M S A) Q :
  (b = true → triple P m1 Q) → (b = false → triple P m2 Q) →
  triple P (if b then m1 else m2) Q.
Proof. destruct b; auto. Qed.

End triple.

#[export] Hint Rewrite @bind_run : monad.

(** [returns m Q]: the value [m] returns satisfies [Q], in every state. *)
Definition returns {S A} (m : M S A) (Q : A → Prop) : Prop := ∀ s, Q (m s).1.

Section returns.
  Context {S : Type}.

Lemma returns_ret {A} (a : A) (Q : A → Prop) : Q a → returns (S:=S) (mret a) Q.
Proof. by intros H s. Qed.

Lemma returns_bind {A B} (m : M S A) (f : A → M S B) R Q :
  returns m R → (∀ a, R a → returns (f a) Q) → returns (m ≫= f) Q.
Proof. intros Hm Hf s. rewrite bind_run. apply Hf, Hm. Qed.

Lemma returns_post {A} (m : M S A) (R Q : A → Prop) :
  returns m R → (∀ a, R a → Q a) → returns m Q.
Proof. intros Hm H s. apply H, Hm. Qed.

Lemma returns_true {A} (m : M S A) : returns m (λ _, True).
Proof. by intros s. Qed.

End returns.

(** ** Counting the elements of a list that pass a test *)

Definition count {A} (f : A → bool) (l : list A) : Z :=
  Z.of_nat (length (List.filter f l)).

Section count.
  Context {A : Type}.

Lemma count_cons (f : A → bool) x l : count f (x :: l) = Z.b2z (f x) + count f l.
Proof. unfold count. cbn. destruct (f x); cbn; lia. Qed.

Lemma count_app (f : A → bool) l l' : count f (l ++ l') = count f l + count f l'.
Proof. unfold count. rewrite List.filter_app, length_app. lia. Qed.

Lemma count_bounds (f : A → bool) l : 0 <= count f l <= Z.of_nat (length l).
Proof.
  induction l as [|x l IH]; [done|]. rewrite count_cons. cbn [length].
  pose proof (Z.b2z_bit0 (f x)). destruct (f x); cbn [Z.b2z]; lia.
Qed.

Lemma count_insert (f : A → bool) l i x y :
  l !! i = Some x → count f (<[i := y]> l) = count f l - Z.b2z (f x) + Z.b2z (f y).
Proof.
  revert i. induction l as [|z l IH]; intros [|i] Hi; cbn in Hi; try done.
  - injection Hi as ->. change (<[0%nat := y]> (x :: l)) with (y :: l). rewrite !count_cons. lia.
  - change (<[S i := y]> (z :: l)) with (z :: <[i := y]> l).
    rewrite !count_cons, (IH i) by done. lia.
Qed.

Lemma count_alter (f : A → bool) g i l x :
  l !! i = Some x →
  count f (alter g i l) = count f l - Z.b2z (f x) + Z.b2z (f (g x)).
Proof.
  revert i. induction l as [|y l IH]; intros [|i]; cbn; [done..| |].
  - intros [= ->]. change (alter g 0%nat (x :: l)) with (g x :: l).
    rewrite !count_cons. lia.
  - intros Hi. change (alter g (S i) (y :: l)) with (y :: alter g i l).
    rewrite !count_cons, (IH i Hi). lia.
Qed.

Lemma count_ext (f g : A → bool) l : (∀ x, x ∈ l → f x = g x) → count f l = count g l.
Proof.
  induction l as [|x l IH]; intros H; [done|]. rewrite !count_cons, IH by set_solver.
  by rewrite H by set_solver.
Qed.

End count.
