(* ===== verification/Threads.v ===== *)
(** * Threads over a shared state

    A thread is a tree of atomic actions on the state it shares with the other
    threads: a critical section, a call of another component, taking a lock.
    The events of a pool of threads are the actions of its threads, in any
    order, and the start of new threads.  The rely-guarantee logic proves what
    a thread maintains whatever the others do. *)

From S2P Require Import Prelude.

#[global] Open Scope Z_scope.

(** [Act f k]: the action [f], whose boolean is a choice the scheduler makes (a
    time-out that has passed, an attempt that fails).  An action that gives no
    value blocks: the thread stays where it is and tries again. *)
Inductive proc (W A : Type) : Type :=
  | Ret (a : A)
  | Act {B : Type} (f : bool → W → option B * W) (k : B → proc W A).
Arguments Ret {W A}.
Arguments Act {W A B}.

Fixpoint proc_bind {W A B} (p : proc W A) (g : A → proc W B) : proc W B :=
  match p with
  | Ret a => g a
  | Act f k => Act f (λ b, proc_bind (k b) g)
  end.

#[export] Instance proc_ret W : MRet (proc W) := λ A, Ret.
#[export] Instance proc_mbind W : MBind (proc W) := λ A B g p, proc_bind p g.

(** An action that never blocks. *)
Definition atomic {W A} (m : M W A) : proc W A :=
  Act (λ _ w, let '(a, w') := m w in (Some a, w')) Ret.

(** ** One thread by itself

    An action that blocks is tried once more with the scheduler's choice; [None]
    is a thread that can go on only with the help of another one. *)
Fixpoint alone {W A} (p : proc W A) (w : W) : option (A * W) :=
  match p with
  | Ret a => Some (a, w)
  | Act f k =>
      match f false w with
      | (Some b, w') => alone (k b) w'
      | (None, w') =>
          match f true w' with (Some b, w') => alone (k b) w' | (None, _) => None end
      end
  end.

Lemma alone_act {W A B} (f : bool → W → option B * W) (k : B → proc W A) w :
  alone (Act f k) w =
    match f false w with
    | (Some b, w') => alone (k b) w'
    | (None, w') =>
        match f true w' with (Some b, w'') => alone (k b) w'' | (None, _) => None end
    end.
Proof. done. Qed.

Lemma alone_bind {W A B} (p : proc W A) (g : A → proc W B) w :
  alone (p ≫= g) w = match alone p w with Some (a, w') => alone (g a) w' | None => None end.
Proof.
  revert w. change (p ≫= g) with (proc_bind p g).
  induction p as [a|C f k IH]; intros w; [done|]. cbn [proc_bind].
  rewrite !alone_act. destruct (f false w) as [[b|] w']; [apply IH|].
  destruct (f true w') as [[b|] w'']; [apply IH|done].
Qed.

Lemma alone_atomic {W A} (m : M W A) w : alone (atomic m) w = Some (m w).
Proof. unfold atomic. rewrite alone_act. by destruct (m w). Qed.

Lemma alone_then {W A B} (m : M W A) (g : A → proc W B) w :
  alone (atomic m ≫= g) w = alone (g (m w).1) (m w).2.
Proof. rewrite alone_bind, alone_atomic. by destruct (m w). Qed.

(** ** A pool of threads *)

Record pool (W : Type) := Pool { po_threads : list (proc W unit); po_state : W }.
Arguments Pool {W}.
Arguments po_threads {W}.
Arguments po_state {W}.

Inductive pool_event (W : Type) :=
  | Step (i : nat) (choice : bool)  (** the next action of thread [i] *)
  | Spawn (p : proc W unit).  (** a thread that starts *)
Arguments Step {W}.
Arguments Spawn {W}.

Definition pool_step {W} (s : pool W) (ev : pool_event W) : pool W :=
  match ev with
  | Step i choice =>
      match po_threads s !! i with
      | Some (Act f k) =>
          match f choice (po_state s) with
          | (Some b, w') => Pool (<[i := k b]> (po_threads s)) w'
          | (None, w') => Pool (po_threads s) w'
          end
      | _ => s
      end
  | Spawn p => Pool (po_threads s ++ [p]) (po_state s)
  end.

Definition pool_run {W} (s : pool W) (evs : list (pool_event W)) : pool W :=
  foldl pool_step s evs.

(** ** The rely-guarantee logic *)

(** [Inv]: what holds between any two actions; [R]: what the other threads may
    do; [G]: what this one does. *)
Section sat.
  Context {W : Type} (Inv : W → Prop) (R G : W → W → Prop).

Definition stable (P : W → Prop) : Prop := ∀ w w', Inv w → Inv w' → P w → R w w' → P w'.

(** What an action does from a state of [J]; a blocked one stays in [J]. *)
Definition action_ok {B} (J : W → Prop) (f : bool → W → option B * W) (P : B → W → Prop) : Prop :=
  ∀ choice w, Inv w → J w →
    Inv (f choice w).2 ∧ G w (f choice w).2 ∧
    match (f choice w).1 with Some b => P b (f choice w).2 | None => J (f choice w).2 end.

(** [sat P p Q]: started in [P], every action of [p] keeps the invariant and the
    guarantee, and [p] ends in [Q]. *)
Fixpoint sat {A} (P : W → Prop) (p : proc W A) (Q : A → W → Prop) : Prop :=
  ∃ J : W → Prop, (∀ w, Inv w → P w → J w) ∧ stable J ∧
    match p with
    | Ret a => ∀ w, Inv w → J w → Q a w
    | Act f k => ∃ P', action_ok J f P' ∧ ∀ b, sat (P' b) (k b) Q
    end.

Lemma sat_pre {A} P P' (p : proc W A) Q :
  sat P' p Q → (∀ w, Inv w → P w → P' w) → sat P p Q.
Proof.
  intros Hp HP. destruct p; destruct Hp as (J & HJ & Hp); exists J; (split; [|exact Hp]); auto.
Qed.

Lemma sat_post {A} P (p : proc W A) (Q Q' : A → W → Prop) :
  sat P p Q' → (∀ a w, Inv w → Q' a w → Q a w) → sat P p Q.
Proof.
  intros Hp HQ. revert P Hp.
  induction p as [a|B f k IH]; intros P (J & HJ & HS & Hp); exists J; split_and!; try done.
  - intros w Hw HJw. by apply HQ, Hp.
  - destruct Hp as (P' & Hf & Hk). exists P'. split; [done|]. intros b. by apply IH.
Qed.

(** From an assertion that never holds anything follows. *)
Lemma sat_false {A} (P : W → Prop) (p : proc W A) Q : (∀ w, ¬ P w) → sat P p Q.
Proof.
  revert P. induction p as [a|B f k IH]; intros P HP; exists (λ _, False);
    (split_and!; [intros w _ Hw; by apply (HP w)|by intros w w' _ _ []|]); [by intros w _ []|].
  exists (λ _ _, False). split; [by intros choice w _ []|]. intros b. apply IH. by intros w [].
Qed.

(** A fact about what was read is available to the rest of the thread. *)
Lemma sat_pure {A} (φ : Prop) `{!Decision φ} P (p : proc W A) Q :
  (φ → sat P p Q) → sat (λ w, P w ∧ φ) p Q.
Proof.
  intros Hp. destruct (decide φ) as [Hφ|Hφ].
  - eapply sat_pre; [by apply Hp|]. by intros w _ [].
  - apply sat_false. by intros w [].
Qed.

Lemma sat_ret {A} (P : W → Prop) (a : A) (Q : A → W → Prop) :
  stable P → (∀ w, Inv w → P w → Q a w) → sat P (Ret a) Q.
Proof. intros HS HQ. by exists P. Qed.

Lemma sat_bind {A B} P (p : proc W A) Mid (g : A → proc W B) Q :
  sat P p Mid → (∀ a, sat (Mid a) (g a) Q) → sat P (p ≫= g) Q.
Proof.
  intros Hp Hg. revert P Hp.
  induction p as [a|B' f k IH]; intros P (J & HJ & HS & Hp).
  - cbn. eapply sat_pre; [apply Hg|]. auto.
  - exists J. split_and!; [done|done|]. destruct Hp as (P' & Hf & Hk).
    exists P'. split; [done|]. intros b. by apply IH.
Qed.

Lemma sat_act {A B} P (f : bool → W → option B * W) (k : B → proc W A) P' Q :
  stable P → action_ok P f P' → (∀ b, sat (P' b) (k b) Q) → sat P (Act f k) Q.
Proof. intros HS Hf Hk. exists P. split_and!; [auto|done|]. by exists P'. Qed.

(** An action that does not block, and what it establishes once the others have
    interfered. *)
Lemma sat_atomic {A} P (m : M W A) (Q : A → W → Prop) :
  stable P → (∀ a, stable (Q a)) →
  (∀ w, Inv w → P w → Inv (m w).2 ∧ G w (m w).2 ∧ Q (m w).1 (m w).2) →
  sat P (atomic m) Q.
Proof.
  intros HS HQ Hm. apply (sat_act _ _ _ Q); [done| |].
  - intros choice w Hw HP. specialize (Hm w Hw HP). by destruct (m w).
  - intros a. by apply sat_ret.
Qed.

Lemma sat_if {A} (b : bool) P (p1 p2 : proc W A) Q :
  (b = true → sat P p1 Q) → (b = false → sat P p2 Q) → sat P (if b then p1 else p2) Q.
Proof. destruct b; auto. Qed.

(** An assertion every thread keeps can be carried along. *)
Lemma stable_and (P Q : W → Prop) : stable P → stable Q → stable (λ w, P w ∧ Q w).
Proof. intros HP HQ w w' Hw Hw' [Hp Hq] HR. split; eauto. Qed.

Lemma stable_true : stable (λ _, True).
Proof. by intros w w'. Qed.

End sat.

(** A thread of a pool that keeps the guarantees [G] keeps its assertion and the
    invariant along every run. *)
Section pool_sound.
  Context {W : Type} (Inv : W → Prop) (G : nat → W → W → Prop).

(** What the threads other than [i] do. *)
Definition others (i : nat) (w w' : W) : Prop := ∃ j, j ≠ i ∧ G j w w'.

Definition thread_ok (w : W) (i : nat) (p : proc W unit) : Prop :=
  ∃ P, P w ∧ sat Inv (others i) (G i) P p (λ _ _, True).

Definition pool_ok (s : pool W) : Prop :=
  Inv (po_state s) ∧ ∀ i p, po_threads s !! i = Some p → thread_ok (po_state s) i p.

Lemma thread_ok_other w w' i j p :
  i ≠ j → Inv w → Inv w' → G j w w' → thread_ok w i p → thread_ok w' i p.
Proof.
  intros Hij Hw Hw' HG (P & HP & Hp).
  assert (Hsat : ∃ J, J w ∧ stable Inv (others i) J ∧ sat Inv (others i) (G i) J p (λ _ _, True)).
  { destruct p; destruct Hp as (J & HJ & HS & Hp); exists J; (split_and!; [auto|done|]);
      by exists J. }
  destruct Hsat as (J & HJw & HS & HJ). exists J. split; [|done].
  eapply HS; [exact Hw|exact Hw'|done|]. by exists j.
Qed.

Definition event_allowed (s : pool W) (ev : pool_event W) : Prop :=
  match ev with
  | Step _ _ => True
  | Spawn p => thread_ok (po_state s) (length (po_threads s)) p
  end.

Lemma pool_step_ok s ev : event_allowed s ev → pool_ok s → pool_ok (pool_step s ev).
Proof.
  intros Hev [HI HT]. destruct ev as [i choice|p]; cbn [pool_step].
  - destruct (po_threads s !! i) as [[a|B f k]|] eqn:Hi; [by split..| |by split].
    pose proof (HT i _ Hi) as (P & HP & J & HJ & HS & P' & Hf & Hk).
    pose proof (Hf choice (po_state s) HI (HJ _ HI HP)) as (HI' & HG & Hres).
    destruct (f choice (po_state s)) as [[b|] w']; cbn in HI', HG, Hres.
    + split; cbn; [done|]. intros j p Hj.
      destruct (decide (i = j)) as [<-|Hij].
      * rewrite list_lookup_insert_eq in Hj by by eapply lookup_lt_Some.
        injection Hj as <-. by exists (P' b).
      * rewrite list_lookup_insert_ne in Hj by done.
        by eapply thread_ok_other; [symmetry; exact Hij|exact HI| |exact HG|apply HT].
    + split; cbn; [done|]. intros j p Hj.
      destruct (decide (i = j)) as [<-|Hij].
      * rewrite Hi in Hj. injection Hj as <-. exists J. split; [done|].
        exists J. split_and!; [auto|done|]. by exists P'.
      * by eapply thread_ok_other; [symmetry; exact Hij|exact HI| |exact HG|apply HT].
  - cbn in Hev. split; cbn; [done|]. intros i q Hq.
    apply lookup_app_Some in Hq as [Hq|[Hlen Hq]]; [by apply HT|].
    apply list_lookup_singleton_Some in Hq as [Hz <-].
    by replace i with (length (po_threads s)) by lia.
Qed.

(** What an event does to the state is what its thread guarantees. *)
Lemma pool_step_guar s ev :
  pool_ok s → po_state (pool_step s ev) = po_state s ∨
              ∃ i, G i (po_state s) (po_state (pool_step s ev)).
Proof.
  intros [HI HT]. destruct ev as [i choice|p]; [|by left]. cbn [pool_step].
  destruct (po_threads s !! i) as [[a|B f k]|] eqn:Hi; [by left| |by left].
  pose proof (HT i _ Hi) as (P & HP & J & HJ & HS & P' & Hf & Hk).
  pose proof (Hf choice (po_state s) HI (HJ _ HI HP)) as (HI' & HG & Hres).
  destruct (f choice (po_state s)) as [[b|] w']; right; by exists i.
Qed.

(** The states a pool can reach by events that are allowed. *)
Inductive reaches : pool W → list (pool_event W) → pool W → Prop :=
  | reaches_nil s : reaches s [] s
  | reaches_cons s ev evs s' :
      event_allowed s ev → reaches (pool_step s ev) evs s' → reaches s (ev :: evs) s'.

Lemma reaches_ok s evs s' : reaches s evs s' → pool_ok s → pool_ok s'.
Proof. induction 1 as [|s ev evs s' Hev Hs IH]; [done|]. intros. by apply IH, pool_step_ok. Qed.

Lemma reaches_related (S : W → W → Prop) s evs s' :
  (∀ w, S w w) → (∀ w1 w2 w3, S w1 w2 → S w2 w3 → S w1 w3) → (∀ i w w', G i w w' → S w w') →
  reaches s evs s' → pool_ok s → S (po_state s) (po_state s').
Proof.
  intros Hrefl Htrans HG. induction 1 as [|s ev evs s' Hev Hs IH]; [by auto|]. intros Hok.
  eapply Htrans; [|apply IH; by apply pool_step_ok].
  destruct (pool_step_guar s ev Hok) as [->|[i Hi]]; [apply Hrefl|by eapply HG].
Qed.

End pool_sound.

Arguments alone : simpl nomatch.
