(* ===== verification/Kernel.v ===== *)
(** * The environment of the audio libraries

    The data types of the ALSA control interface (src/tinyalsa/include/sound/asound.h),
    the interface of the kernel driver behind the [ioctl] calls (a parameter of
    the development), the allocator and the log of memory faults. *)

From S2P Require Import Prelude.

(** ** Little-endian memory

    The [value] union of [struct snd_ctl_elem_value] is 512 bytes that
    mixer.c reads and writes through three views. *)

Definition rd8 (b : list Z) (off : nat) : Z := default 0 (b !! off).
Definition wr8 (b : list Z) (off : nat) (v : Z) : list Z := <[off := u8 v]> b.

Definition rd32 (b : list Z) (off : nat) : Z :=
  rd8 b off + 256 * rd8 b (off + 1)
  + 65536 * rd8 b (off + 2) + 16777216 * rd8 b (off + 3).

Definition wr32 (b : list Z) (off : nat) (v : Z) : list Z :=
  wr8 (wr8 (wr8 (wr8 b off v) (off + 1) (v / 256)) (off + 2) (v / 65536))
      (off + 3) (v / 16777216).

(** [memcpy(dst + off, src, n)] with [n] the length of [src]. *)
Definition splice (dst : list Z) (off : nat) (src : list Z) : list Z :=
  take off dst ++ src ++ drop (off + length src) dst.

#[global] Arguments rd8 : simpl never.
#[global] Arguments wr8 : simpl never.
#[global] Arguments rd32 : simpl never.
#[global] Arguments wr32 : simpl never.
#[global] Arguments splice : simpl never.

Lemma wr8_length b off v : length (wr8 b off v) = length b.
Proof. apply length_insert. Qed.

Lemma wr32_length b off v : length (wr32 b off v) = length b.
Proof. unfold wr32. by rewrite !wr8_length. Qed.

Lemma rd8_wr8_eq b off v : (off < length b)%nat → rd8 (wr8 b off v) off = u8 v.
Proof. intros. unfold rd8, wr8. by rewrite list_lookup_insert_eq. Qed.

Lemma rd8_wr8_ne b off off' v : off ≠ off' → rd8 (wr8 b off v) off' = rd8 b off'.
Proof. intros. unfold rd8, wr8. by rewrite list_lookup_insert_ne. Qed.

Lemma split_u32 v :
  u8 v + 256 * u8 (v / 256) + 65536 * u8 (v / 65536)
  + 16777216 * u8 (v / 16777216) = u32 v.
Proof.
  unfold u8, u32, wrap.
  change (2 ^ 8) with 256. change (2 ^ 32) with (256 * (256 * (256 * 256))).
  rewrite !Z.rem_mul_r by lia. rewrite !Z.div_div by lia.
  change (256 * 256) with 65536. change (65536 * 256) with 16777216. lia.
Qed.

Lemma rd32_wr32_eq b off v :
  (off + 4 <= length b)%nat → rd32 (wr32 b off v) off = u32 v.
Proof.
  intros. unfold rd32, wr32.
  repeat first [ rewrite rd8_wr8_eq by (rewrite ?wr8_length; lia)
               | rewrite rd8_wr8_ne by lia ].
  apply split_u32.
Qed.

Lemma rd32_wr32_ne b off off' v :
  (off + 4 <= off' ∨ off' + 4 <= off)%nat → rd32 (wr32 b off v) off' = rd32 b off'.
Proof.
  intros. unfold rd32, wr32. repeat rewrite rd8_wr8_ne by lia. done.
Qed.

Lemma rd8_splice_in dst off src i :
  (off <= length dst)%nat → (i < length src)%nat →
  rd8 (splice dst off src) (off + i) = rd8 src i.
Proof.
  intros. unfold rd8, splice.
  rewrite lookup_app_r by (rewrite length_take; lia).
  rewrite length_take, lookup_app_l by lia.
  by replace (off + i - off `min` length dst)%nat with i by lia.
Qed.

Lemma rd8_splice_out dst off src i :
  (off + length src <= length dst)%nat → (i < off ∨ off + length src <= i)%nat →
  rd8 (splice dst off src) i = rd8 dst i.
Proof.
  intros ? [?|?]; unfold rd8, splice.
  - rewrite lookup_app_l by (rewrite length_take; lia).
    by rewrite lookup_take_lt by lia.
  - rewrite lookup_app_r by (rewrite length_take; lia).
    rewrite length_take, lookup_app_r by lia. rewrite lookup_drop.
    do 2 f_equal. lia.
Qed.

Lemma splice_length dst off src :
  (off + length src <= length dst)%nat → length (splice dst off src) = length dst.
Proof. intros. unfold splice. rewrite !length_app, length_take, length_drop. lia. Qed.

(** ** ALSA control data (asound.h) *)

Definition SNDRV_CTL_ELEM_TYPE_BOOLEAN : Z := 1.
Definition SNDRV_CTL_ELEM_TYPE_INTEGER : Z := 2.
Definition SNDRV_CTL_ELEM_TYPE_ENUMERATED : Z := 3.
Definition SNDRV_CTL_ELEM_TYPE_BYTES : Z := 4.
Definition SNDRV_CTL_ELEM_TYPE_IEC958 : Z := 5.
Definition SNDRV_CTL_ELEM_TYPE_INTEGER64 : Z := 6.

(** [struct snd_ctl_elem_info]. The union [value] overlays
    [integer.min]/[integer.max] (two 32-bit longs) with
    [enumerated.items]/[enumerated.item] (two unsigned ints): its first two
    words are kept as they stand in memory. *)
Record snd_ctl_elem_info := ElemInfo {
  ei_numid : Z;
  ei_name : string;
  ei_type : Z;
  ei_count : Z;
  ei_word0 : Z;
  ei_word1 : Z;
  ei_ename : string
}.

Definition ei_int_min (ei : snd_ctl_elem_info) : Z := s32 (ei_word0 ei).
Definition ei_int_max (ei : snd_ctl_elem_info) : Z := s32 (ei_word1 ei).
Definition ei_items (ei : snd_ctl_elem_info) : Z := u32 (ei_word0 ei).

(** An all-zero [struct snd_ctl_elem_info]. *)
Definition elem_info0 : snd_ctl_elem_info := ElemInfo 0 "" 0 0 0 0 "".

(** [struct snd_ctl_elem_value]: the element id and the 512 bytes of the union. *)
Record snd_ctl_elem_value := ElemValue {
  ev_numid : Z;
  ev_bytes : list Z
}.

Definition EV_SIZE : nat := 512.

(** [memset(&ev, 0, sizeof(ev)); ev.id.numid = numid] *)
Definition elem_value0 (numid : Z) : snd_ctl_elem_value :=
  ElemValue numid (replicate EV_SIZE 0).

(** ** The control device of a sound card

    One operation per system call mixer.c issues on [/dev/snd/controlC<n>].
    Return codes are those of [open] and [ioctl]: negative on error. *)
Class AlsaCtl (K : Type) := {
  sys_open_ctl : Z → M K Z;
  sys_close_ctl : Z → M K unit;
  ioctl_card_info : Z → M K (Z * string);
  (** fd, offset and space; return code, [count] and the numids filled in *)
  ioctl_elem_list : Z → Z → Z → M K (Z * (Z * list Z));
  (** fd, numid and enumeration item *)
  ioctl_elem_info : Z → Z → Z → M K (Z * snd_ctl_elem_info);
  ioctl_elem_read : Z → snd_ctl_elem_value → M K (Z * snd_ctl_elem_value);
  ioctl_elem_write : Z → snd_ctl_elem_value → M K Z
}.

(** ** World: kernel, allocator and fault log

    [w_heap] scripts the outcome of the coming allocations ([true]: the call
    returns memory; an exhausted script always does).  [w_faults] records
    every undefined behaviour executed. *)

Inductive fault :=
  | OutOfBounds   (** access outside an array *)
  | NullDeref     (** access through a null pointer *)
  | BadFree       (** free of a pointer no allocation returned *)
  | DoubleFree    (** free of memory that has been freed *)
  | BadUnion      (** read of a union member other than the one stored *)
  | BadAlloc      (** use of the null pointer a failed allocation returned *)
  | Hang          (** the fuel of a loop ran out *)
  | DivByZero
  | SignedOverflow (** result of a signed operation outside its type *)
  | UseAfterFree. (** access through a pointer whose object was freed *)

#[export] Instance fault_eq_dec : EqDecision fault.
Proof. solve_decision. Defined.

Record world (K : Type) := World {
  w_kern : K;
  w_heap : list bool;
  w_faults : list fault
}.
Arguments World {K} _ _ _.
Arguments w_kern {K} _.
Arguments w_heap {K} _.
Arguments w_faults {K} _.

Section world.
  Context {K : Type}.

Definition sys {A} (m : M K A) : M (world K) A := λ w,
  let '(a, k) := m (w_kern w) in (a, World k (w_heap w) (w_faults w)).

(** Whether the next [malloc]/[calloc]/[realloc]/[strdup] returns memory. *)
Definition alloc : M (world K) bool := λ w,
  match w_heap w with
  | [] => (true, w)
  | b :: h => (b, World (w_kern w) h (w_faults w))
  end.

Definition raise (f : fault) : M (world K) unit := λ w,
  (tt, World (w_kern w) (w_heap w) (w_faults w ++ [f])).

(** Log [f] unless the access is in range. *)
Definition check (ok : bool) (f : fault) : M (world K) unit :=
  if ok then mret tt else raise f.

End world.

(** ** Laws of the control device

    What the C types of the [ioctl] arguments guarantee: [count] is an
    [unsigned int], and [ELEM_READ] fills the structure it is given. *)
Class AlsaCtlLaws (K : Type) `{!AlsaCtl K} : Prop := {
  elem_list_count fd offset space k :
    is_u32 (fst (snd (fst (ioctl_elem_list fd offset space k))));
  elem_read_shape fd ev k :
    length (ev_bytes ev) = EV_SIZE →
    length (ev_bytes (snd (fst (ioctl_elem_read fd ev k)))) = EV_SIZE
    ∧ ev_numid (snd (fst (ioctl_elem_read fd ev k))) = ev_numid ev
}.

(** ** Fault-free computations

    [yields m Q]: whatever the kernel and the allocator do, [m] executes no
    undefined behaviour and returns a value satisfying [Q]. *)
Definition yields {K A} (m : M (world K) A) (Q : A → Prop) : Prop :=
  ∀ w, w_faults (m w).2 = w_faults w ∧ Q (m w).1.

Create HintDb yields discriminated.

Section yields.
  Context {K : Type}.

Lemma yields_ret {A} (a : A) (Q : A → Prop) : Q a → yields (K:=K) (mret a) Q.
Proof. by intros H w. Qed.

Lemma yields_bind {A B} (m : M (world K) A) (f : A → M (world K) B) R Q :
  yields m R → (∀ a, R a → yields (f a) Q) → yields (m ≫= f) Q.
Proof.
  intros Hm Hf w. rewrite bind_run. destruct (Hm w) as [Hw HR].
  destruct (Hf _ HR (m w).2) as [Hw' HQ]. by rewrite Hw', Hw.
Qed.

Lemma yields_post {A} (m : M (world K) A) (R Q : A → Prop) :
  yields m R → (∀ a, R a → Q a) → yields m Q.
Proof. intros Hm H w. destruct (Hm w). auto. Qed.

Lemma yields_sys {A} (m : M K A) (Q : A → Prop) :
  (∀ k, Q (m k).1) → yields (sys m) Q.
Proof.
  intros H w. unfold sys. specialize (H (w_kern w)). by destruct (m (w_kern w)).
Qed.

Lemma yields_sys_true {A} (m : M K A) : yields (sys m) (λ _, True).
Proof. by apply yields_sys. Qed.

Lemma yields_alloc : yields (K:=K) alloc (λ _, True).
Proof. intros w. unfold alloc. by destruct (w_heap w). Qed.

Lemma yields_check ok f : ok = true → yields (K:=K) (check ok f) (λ _, True).
Proof. by intros -> w. Qed.

Lemma yields_if {A} (b : bool) (m1 m2 : M (world K) A) Q :
  (b = true → yields m1 Q) → (b = false → yields m2 Q) →
  yields (if b then m1 else m2) Q.
Proof. destruct b; auto. Qed.

End yields.

(** [limits allowed m Q]: every undefined behaviour [m] executes is one of
    those allowed, and its value satisfies [Q]. *)
Definition limits {K A} (allowed : fault → Prop) (m : M (world K) A) (Q : A → Prop) : Prop :=
  ∀ w, (∃ fs, w_faults (m w).2 = w_faults w ++ fs ∧ Forall allowed fs) ∧ Q (m w).1.

Section limits.
  Context {K : Type} (allowed : fault → Prop).

Lemma limits_yields {A} (m : M (world K) A) Q : yields m Q → limits allowed m Q.
Proof.
  intros Hm w. destruct (Hm w) as [Hf HQ]. split; [|done].
  exists []. by rewrite app_nil_r.
Qed.

Lemma limits_ret {A} (a : A) (Q : A → Prop) : Q a → limits (K:=K) allowed (mret a) Q.
Proof. intros HQ. by apply limits_yields, yields_ret. Qed.

Lemma limits_bind {A B} (m : M (world K) A) (f : A → M (world K) B) R Q :
  limits allowed m R → (∀ a, R a → limits allowed (f a) Q) → limits allowed (m ≫= f) Q.
Proof.
  intros Hm Hf w. rewrite bind_run. destruct (Hm w) as [(fs & Hw & Hfs) HR].
  destruct (Hf _ HR (m w).2) as [(fs' & Hw' & Hfs') HQ]. split; [|done].
  exists (fs ++ fs'). rewrite Hw', Hw, app_assoc. split; [done|by apply Forall_app].
Qed.

Lemma limits_post {A} (m : M (world K) A) (R Q : A → Prop) :
  limits allowed m R → (∀ a, R a → Q a) → limits allowed m Q.
Proof. intros Hm HRQ w. destruct (Hm w). auto. Qed.

Lemma limits_raise f (Q : unit → Prop) : allowed f → Q tt → limits (K:=K) allowed (raise f) Q.
Proof.
  intros Ha HQ w. split; [|done]. exists [f]. split; [done|].
  by apply Forall_singleton.
Qed.

Lemma limits_if {A} (b : bool) (m1 m2 : M (world K) A) Q :
  (b = true → limits allowed m1 Q) → (b = false → limits allowed m2 Q) →
  limits allowed (if b then m1 else m2) Q.
Proof. destruct b; auto. Qed.

End limits.

#[export] Hint Resolve yields_alloc yields_sys_true : yields.

(** Steps through binds, tests and returns; leaves the side conditions. *)
Ltac yields_step :=
  lazymatch goal with
  | |- yields (mret _) _ => apply yields_ret
  | |- yields (check _ _ ≫= _) _ =>
      eapply yields_bind; [apply yields_check|intros _ _]
  | |- yields (sys _ ≫= _) _ =>
      eapply yields_bind; [apply yields_sys_true|intros [] _]
  | |- yields (alloc ≫= _) _ => eapply yields_bind; [apply yields_alloc|intros [] _]
  | |- yields (if _ then _ else _) _ => apply yields_if; intros
  | |- yields (let _ := _ in _) _ => cbv zeta
  | |- yields (match ?p with pair _ _ => _ end) _ => destruct p
  end.
