(* ===== verification/SoftCard.v ===== *)
(** * A software sound card

    A complete instance of the control-device interface: an array of controls
    kept in memory.  The theorems are stated for every card; their witnesses
    run on this one. *)

From S2P Require Import Prelude Kernel.

Record soft_ctl := SoftCtl {
  sc_info : snd_ctl_elem_info;
  sc_names : list string;
  sc_value : list Z
}.

(** [sd_log] lists the numids written, [sd_closed] the descriptors closed. *)
Record soft_card := SoftCard {
  sd_card : Z;
  sd_info_rc : Z;
  sd_visible : nat;
  sd_ctls : list soft_ctl;
  sd_log : list Z;
  sd_closed : list Z
}.

Definition numid_of (k : soft_card) (numid : Z) : option soft_ctl :=
  if numid <? 1 then None else sd_ctls k !! Z.to_nat (numid - 1).

(** The card numbers its controls itself and cuts their element counts to what
    the value union holds. *)
Definition sc_describe (numid : Z) (c : soft_ctl) (item : Z) : snd_ctl_elem_info :=
  let i := sc_info c in
  let limit := if ei_type i =? SNDRV_CTL_ELEM_TYPE_BYTES then 512 else 128 in
  ElemInfo numid (ei_name i) (ei_type i) (Z.max 0 (Z.min limit (ei_count i)))
           (ei_word0 i) (ei_word1 i) (default EmptyString (sc_names c !! Z.to_nat item)).

Definition store (numid : Z) (b : list Z) (k : soft_card) : soft_card :=
  SoftCard (sd_card k) (sd_info_rc k) (sd_visible k)
    (alter (λ c, SoftCtl (sc_info c) (sc_names c) b) (Z.to_nat (numid - 1)) (sd_ctls k))
    (sd_log k ++ [numid]) (sd_closed k).

#[export] Instance soft_alsa_ctl : AlsaCtl soft_card := {
  sys_open_ctl card k := (if card =? sd_card k then 3 else - ENOENT, k);
  sys_close_ctl fd k :=
    (tt, SoftCard (sd_card k) (sd_info_rc k) (sd_visible k) (sd_ctls k) (sd_log k)
                  (sd_closed k ++ [fd]));
  ioctl_card_info fd k := ((sd_info_rc k, "soft"), k);
  ioctl_elem_list fd offset space k :=
    ((0, (u32 (Z.of_nat (sd_visible k)),
          take (Z.to_nat space)
               (drop (Z.to_nat offset) (seqZ 1 (Z.of_nat (sd_visible k)))))), k);
  ioctl_elem_info fd numid item k :=
    match numid_of k numid with
    | None => ((- ENOENT, elem_info0), k)
    | Some c => ((0, sc_describe numid c item), k)
    end;
  ioctl_elem_read fd ev k :=
    match numid_of k (ev_numid ev) with
    | None => ((- ENOENT, ev), k)
    | Some c => ((0, ElemValue (ev_numid ev) (resize EV_SIZE 0 (sc_value c))), k)
    end;
  ioctl_elem_write fd ev k :=
    match numid_of k (ev_numid ev) with
    | None => (- ENOENT, k)
    | Some _ => (0, store (ev_numid ev) (ev_bytes ev) k)
    end
}.

#[export] Instance soft_alsa_ctl_laws : AlsaCtlLaws soft_card.
Proof.
  split; intros; cbn.
  - apply u32_range.
  - destruct (numid_of k (ev_numid ev)); cbn; [|done]. by rewrite length_resize.
Qed.

(** ** A small card with one control of each kind *)

Definition zeros : list Z := replicate EV_SIZE 0.

Definition vol_info : snd_ctl_elem_info :=
  ElemInfo 1 "Volume" SNDRV_CTL_ELEM_TYPE_INTEGER 2 0 175 "".
Definition switch_info : snd_ctl_elem_info :=
  ElemInfo 2 "Switch" SNDRV_CTL_ELEM_TYPE_BOOLEAN 1 0 1 "".
Definition mux_info : snd_ctl_elem_info :=
  ElemInfo 3 "Mux" SNDRV_CTL_ELEM_TYPE_ENUMERATED 1 2 0 "".
Definition coef_info : snd_ctl_elem_info :=
  ElemInfo 4 "Coef" SNDRV_CTL_ELEM_TYPE_BYTES 8 0 0 "".

Definition demo_card : soft_card :=
  SoftCard 1 0 4
    [ SoftCtl vol_info [] zeros; SoftCtl switch_info [] zeros;
      SoftCtl mux_info ["DSP"; "Bypass"] zeros; SoftCtl coef_info [] zeros ] [] [].

Definition demo_world : world soft_card := World demo_card [] [].
