(* ===== verification/Mixer.v ===== *)
(** * tinyalsa mixer (src/tinyalsa/mixer.c)

    The mixer object, the discovery of its controls and the reading and
    writing of control values through the ALSA control device. *)

From S2P Require Import Prelude Kernel.

(** [enum mixer_ctl_type] of asoundlib.h *)
Inductive mixer_ctl_type :=
  | MIXER_CTL_TYPE_BOOL
  | MIXER_CTL_TYPE_INT
  | MIXER_CTL_TYPE_ENUM
  | MIXER_CTL_TYPE_BYTE
  | MIXER_CTL_TYPE_IEC958
  | MIXER_CTL_TYPE_INT64
  | MIXER_CTL_TYPE_UNKNOWN.

#[export] Instance mixer_ctl_type_eq_dec : EqDecision mixer_ctl_type.
Proof. solve_decision. Defined.

(** [struct mixer_ctl]: [mc_fd] is [ctl->mixer->fd]; [mc_ename] is the array of
    enumeration names, [None] for a null pointer. *)
Record mixer_ctl := MixerCtl {
  mc_fd : Z;
  mc_info : snd_ctl_elem_info;
  mc_ename : option (list (option string))
}.

(** A [struct mixer_ctl] cleared by [mixer_realloc_z]. *)
Definition mixer_ctl0 : mixer_ctl := MixerCtl 0 elem_info0 None.

(** [struct mixer]: [mx_ctl] is the allocated array, of which the first
    [mx_count] entries are controls. *)
Record mixer := Mixer {
  mx_fd : Z;
  mx_name : string;
  mx_ctl : list mixer_ctl;
  mx_count : Z
}.

Definition set_mx_ctl (m : mixer) (l : list mixer_ctl) : mixer :=
  Mixer (mx_fd m) (mx_name m) l (mx_count m).
Definition set_mx_count (m : mixer) (n : Z) : mixer :=
  Mixer (mx_fd m) (mx_name m) (mx_ctl m) n.

Section mixer.
  Context {K : Type} `{!AlsaCtl K}.

(** ** Opening and closing *)

(** Releases the memory of the mixer, after closing its descriptor. *)
Definition mixer_close (m : option mixer) : M (world K) unit :=
  match m with
  | None => mret tt
  | Some m => if 0 <=? mx_fd m then sys (sys_close_ctl (mx_fd m)) else mret tt
  end.

Definition mixer_realloc_z (ptr : list mixer_ctl) (curnum newnum : Z)
  : M (world K) (option (list mixer_ctl)) :=
  ok ← alloc;
  if negb ok then mret None
  else
    _ ← check (curnum <=? newnum) OutOfBounds;
    mret (Some (take (Z.to_nat curnum) ptr
                ++ replicate (Z.to_nat newnum - Z.to_nat curnum) mixer_ctl0)).

Definition set_info (fd : Z) (ei : snd_ctl_elem_info) (c : mixer_ctl) : mixer_ctl :=
  MixerCtl fd ei (mc_ename c).
Definition set_ename (names : list (option string)) (c : mixer_ctl) : mixer_ctl :=
  MixerCtl (mc_fd c) (mc_info c) (Some names).

(** The loop that reads the names of an enumerated control: [todo] names to
    go, [item] the next one, [names] the array filled so far.  The flag tells
    whether it ran to its end. *)
Fixpoint read_enames (fd numid : Z) (todo : nat) (item : nat)
  (names : list (option string)) : M (world K) (bool * list (option string)) :=
  match todo with
  | O => mret (true, names)
  | S todo =>
    '(r, tmp) ← sys (ioctl_elem_info fd numid (Z.of_nat item));
    if r <? 0 then mret (false, names)
    else
      ok ← alloc;
      if negb ok then mret (false, names)
      else read_enames fd numid todo (S item) (<[item := Some (ei_ename tmp)]> names)
  end.

(** The loop of [add_controls]: [todo] controls to go, [n] the index of the
    next one.  Returns the controls and the index at which it stopped. *)
Fixpoint add_controls_loop (fd old_count : Z) (eid : list Z) (todo : nat) (n : Z)
  (ctl : list mixer_ctl) : M (world K) (bool * Z * list mixer_ctl) :=
  match todo with
  | O => mret (true, n, ctl)
  | S todo =>
    '(r, ei) ← sys (ioctl_elem_info fd (default 0 (eid !! Z.to_nat (n - old_count))) 0);
    if r <? 0 then mret (false, n, ctl)
    else
      _ ← check (Z.to_nat n <? length ctl)%nat OutOfBounds;
      let ctl := alter (set_info fd ei) (Z.to_nat n) ctl in
      if ei_type ei =? SNDRV_CTL_ELEM_TYPE_ENUMERATED then
        ok ← alloc;
        if negb ok then mret (false, n, ctl)
        else
          _ ← check (Z.to_nat (old_count + n) <? length ctl)%nat OutOfBounds;
          '(done, names) ← read_enames fd (ei_numid ei) (Z.to_nat (ei_items ei)) 0
                             (replicate (Z.to_nat (ei_items ei)) None);
          let ctl := alter (set_ename names) (Z.to_nat (old_count + n)) ctl in
          if negb done then mret (false, n, ctl)
          else add_controls_loop fd old_count eid todo (n + 1) ctl
      else add_controls_loop fd old_count eid todo (n + 1) ctl
  end.

Definition add_controls (m : mixer) : M (world K) (Z * mixer) :=
  let fd := mx_fd m in
  let old_count := mx_count m in
  '(r, elist) ← sys (ioctl_elem_list fd 0 0);
  if r <? 0 then mret (-1, m)
  else if old_count =? fst elist then mret (0, m)
  else
    ctl ← mixer_realloc_z (mx_ctl m) old_count (fst elist);
    match ctl with
    | None => mret (-1, m)
    | Some ctl =>
      let m := set_mx_ctl m ctl in
      let extra_count := u32 (fst elist - old_count) in
      ok ← alloc;
      if negb ok then mret (-1, m)
      else
        '(r, elist) ← sys (ioctl_elem_list fd old_count extra_count);
        if r <? 0 then mret (-1, m)
        else
          '(done, n, ctl) ← add_controls_loop fd old_count (snd elist)
            (Z.to_nat (u32 (old_count + extra_count) - old_count)) old_count ctl;
          let m := set_mx_ctl m ctl in
          if (done : bool)
          then mret (0, set_mx_count m (u32 (old_count + extra_count)))
          else mret (-1, set_mx_count m n)
    end.

(** [mixer->fd] is still 0 when the card info cannot be read. *)
Definition mixer_open (card : Z) : M (world K) (option mixer) :=
  fd ← sys (sys_open_ctl card);
  if fd <? 0 then mret None
  else
    ok ← alloc;
    if negb ok then _ ← sys (sys_close_ctl fd); mret None
    else
      '(r, name) ← sys (ioctl_card_info fd);
      if r <? 0 then _ ← mixer_close (Some (Mixer 0 "" [] 0)); mret None
      else
        '(rc, m) ← add_controls (Mixer fd name [] 0);
        if negb (rc =? 0) then _ ← mixer_close (Some m); mret None
        else mret (Some m).

Definition mixer_update_ctls (m : option mixer) : M (world K) (Z * option mixer) :=
  match m with
  | None => mret (0, None)
  | Some m => '(rc, m) ← add_controls m; mret (rc, Some m)
  end.

(** ** Looking controls up *)

Definition mixer_get_num_ctls (m : option mixer) : Z :=
  match m with None => 0 | Some m => mx_count m end.

Definition mixer_get_ctl (m : option mixer) (id : Z) : option mixer_ctl :=
  match m with
  | Some m => if id <? mx_count m then mx_ctl m !! Z.to_nat id else None
  | None => None
  end.

Fixpoint find_ctl (name : string) (n : nat) (ctl : list mixer_ctl) : option mixer_ctl :=
  match n, ctl with
  | S n, c :: ctl =>
    if bool_decide (name = ei_name (mc_info c)) then Some c else find_ctl name n ctl
  | _, _ => None
  end.

(** [mixer->ctl] is read before the test for a null [mixer]. *)
Definition mixer_get_ctl_by_name (m : option mixer) (name : string)
  : M (world K) (option mixer_ctl) :=
  match m with
  | None => _ ← raise NullDeref; mret None
  | Some m => mret (find_ctl name (Z.to_nat (mx_count m)) (mx_ctl m))
  end.

Definition mixer_ctl_get_id (ctl : option mixer_ctl) : Z :=
  match ctl with
  | None => UINT_MAX
  | Some c => u32 (ei_numid (mc_info c) - 1)
  end.

Definition mixer_ctl_get_name (ctl : option mixer_ctl) : option string :=
  c ← ctl; Some (ei_name (mc_info c)).

Definition mixer_ctl_get_type (ctl : option mixer_ctl) : mixer_ctl_type :=
  match ctl with
  | None => MIXER_CTL_TYPE_UNKNOWN
  | Some c =>
    let t := ei_type (mc_info c) in
    if t =? SNDRV_CTL_ELEM_TYPE_BOOLEAN then MIXER_CTL_TYPE_BOOL
    else if t =? SNDRV_CTL_ELEM_TYPE_INTEGER then MIXER_CTL_TYPE_INT
    else if t =? SNDRV_CTL_ELEM_TYPE_ENUMERATED then MIXER_CTL_TYPE_ENUM
    else if t =? SNDRV_CTL_ELEM_TYPE_BYTES then MIXER_CTL_TYPE_BYTE
    else if t =? SNDRV_CTL_ELEM_TYPE_IEC958 then MIXER_CTL_TYPE_IEC958
    else if t =? SNDRV_CTL_ELEM_TYPE_INTEGER64 then MIXER_CTL_TYPE_INT64
    else MIXER_CTL_TYPE_UNKNOWN
  end.

Definition mixer_ctl_get_type_string (ctl : option mixer_ctl) : string :=
  match ctl with
  | None => EmptyString
  | Some c =>
    let t := ei_type (mc_info c) in
    if t =? SNDRV_CTL_ELEM_TYPE_BOOLEAN then "BOOL"
    else if t =? SNDRV_CTL_ELEM_TYPE_INTEGER then "INT"
    else if t =? SNDRV_CTL_ELEM_TYPE_ENUMERATED then "ENUM"
    else if t =? SNDRV_CTL_ELEM_TYPE_BYTES then "BYTE"
    else if t =? SNDRV_CTL_ELEM_TYPE_IEC958 then "IEC958"
    else if t =? SNDRV_CTL_ELEM_TYPE_INTEGER64 then "INT64"
    else "Unknown"
  end.

Definition mixer_ctl_get_num_values (ctl : option mixer_ctl) : Z :=
  match ctl with None => 0 | Some c => ei_count (mc_info c) end.

Definition mixer_ctl_get_range_min (ctl : option mixer_ctl) : Z :=
  match ctl with
  | Some c => if ei_type (mc_info c) =? SNDRV_CTL_ELEM_TYPE_INTEGER
              then ei_int_min (mc_info c) else - EINVAL
  | None => - EINVAL
  end.

Definition mixer_ctl_get_range_max (ctl : option mixer_ctl) : Z :=
  match ctl with
  | Some c => if ei_type (mc_info c) =? SNDRV_CTL_ELEM_TYPE_INTEGER
              then ei_int_max (mc_info c) else - EINVAL
  | None => - EINVAL
  end.

Definition mixer_ctl_get_num_enums (ctl : option mixer_ctl) : Z :=
  match ctl with None => 0 | Some c => ei_items (mc_info c) end.

(** ** Values *)

(** Offset of entry [id] of an array of 32-bit elements in the value union. *)
Definition long_off (id : Z) : nat := (4 * Z.to_nat id)%nat.

Definition mixer_ctl_get_value (ctl : option mixer_ctl) (id : Z) : M (world K) Z :=
  match ctl with
  | None => mret (- EINVAL)
  | Some c =>
    let info := mc_info c in
    if ei_count info <=? id then mret (- EINVAL)
    else
      '(ret, ev) ← sys (ioctl_elem_read (mc_fd c) (elem_value0 (ei_numid info)));
      if ret <? 0 then mret ret
      else if ei_type info =? SNDRV_CTL_ELEM_TYPE_BOOLEAN then
        _ ← check (id <? 128) OutOfBounds;
        mret (if rd32 (ev_bytes ev) (long_off id) =? 0 then 0 else 1)
      else if ei_type info =? SNDRV_CTL_ELEM_TYPE_INTEGER then
        _ ← check (id <? 128) OutOfBounds;
        mret (s32 (rd32 (ev_bytes ev) (long_off id)))
      else if ei_type info =? SNDRV_CTL_ELEM_TYPE_ENUMERATED then
        _ ← check (id <? 128) OutOfBounds;
        mret (s32 (rd32 (ev_bytes ev) (long_off id)))
      else if ei_type info =? SNDRV_CTL_ELEM_TYPE_BYTES then
        _ ← check (id <? 512) OutOfBounds;
        mret (rd8 (ev_bytes ev) (Z.to_nat id))
      else mret (- EINVAL)
  end.

Definition mixer_ctl_set_value (ctl : option mixer_ctl) (id value : Z) : M (world K) Z :=
  match ctl with
  | None => mret (- EINVAL)
  | Some c =>
    let info := mc_info c in
    if ei_count info <=? id then mret (- EINVAL)
    else
      '(ret, ev) ← sys (ioctl_elem_read (mc_fd c) (elem_value0 (ei_numid info)));
      let write32 v :=
        _ ← check (id <? 128) OutOfBounds;
        sys (ioctl_elem_write (mc_fd c)
               (ElemValue (ev_numid ev) (wr32 (ev_bytes ev) (long_off id) v))) in
      if ret <? 0 then mret ret
      else if ei_type info =? SNDRV_CTL_ELEM_TYPE_BOOLEAN then
        write32 (if value =? 0 then 0 else 1)
      else if ei_type info =? SNDRV_CTL_ELEM_TYPE_INTEGER then
        if (value <? mixer_ctl_get_range_min ctl) || (mixer_ctl_get_range_max ctl <? value)
        then mret (- EINVAL)
        else write32 value
      else if ei_type info =? SNDRV_CTL_ELEM_TYPE_ENUMERATED then write32 value
      else if ei_type info =? SNDRV_CTL_ELEM_TYPE_BYTES then
        _ ← check (id <? 512) OutOfBounds;
        sys (ioctl_elem_write (mc_fd c)
               (ElemValue (ev_numid ev) (wr8 (ev_bytes ev) (Z.to_nat id) value)))
      else mret (- EINVAL)
  end.

(** Width in bytes of the elements a control's array is copied with. *)
Definition array_elem_size (info : snd_ctl_elem_info) : option Z :=
  if (ei_type info =? SNDRV_CTL_ELEM_TYPE_BOOLEAN)
     || (ei_type info =? SNDRV_CTL_ELEM_TYPE_INTEGER) then Some 4
  else if ei_type info =? SNDRV_CTL_ELEM_TYPE_BYTES then Some 1
  else None.

(** Return code and the bytes copied to [array]. *)
Definition mixer_ctl_get_array (ctl : option mixer_ctl) (count : Z)
  : M (world K) (Z * list Z) :=
  match ctl with
  | None => mret (- EINVAL, [])
  | Some c =>
    let info := mc_info c in
    if (ei_count info <? count) || (count =? 0) then mret (- EINVAL, [])
    else
      '(ret, ev) ← sys (ioctl_elem_read (mc_fd c) (elem_value0 (ei_numid info)));
      if ret <? 0 then mret (ret, [])
      else match array_elem_size info with
           | None => mret (- EINVAL, [])
           | Some size =>
             _ ← check (size * count <=? 512) OutOfBounds;
             mret (0, take (Z.to_nat (size * count)) (ev_bytes ev))
           end
  end.

(** [array] holds the bytes of the object passed, [None] a null pointer. *)
Definition mixer_ctl_set_array (ctl : option mixer_ctl) (array : option (list Z))
  (count : Z) : M (world K) Z :=
  match ctl, array with
  | Some c, Some src =>
    let info := mc_info c in
    if (ei_count info <? count) || (count =? 0) then mret (- EINVAL)
    else match array_elem_size info with
         | None => mret (- EINVAL)
         | Some size =>
           _ ← check ((size * count <=? 512) && (size * count <=? Z.of_nat (length src)))
                 OutOfBounds;
           sys (ioctl_elem_write (mc_fd c)
                  (ElemValue (ei_numid info)
                     (splice (replicate EV_SIZE 0) 0 (take (Z.to_nat (size * count)) src))))
         end
  | _, _ => mret (- EINVAL)
  end.

Definition mixer_ctl_get_enum_string (ctl : option mixer_ctl) (enum_id : Z)
  : M (world K) (option string) :=
  match ctl with
  | None => mret None
  | Some c =>
    if negb (ei_type (mc_info c) =? SNDRV_CTL_ELEM_TYPE_ENUMERATED)
       || (ei_items (mc_info c) <=? enum_id) then mret None
    else match mc_ename c with
         | None => _ ← raise NullDeref; mret None
         | Some names =>
           _ ← check (enum_id <? Z.of_nat (length names)) OutOfBounds;
           mret (mjoin (names !! Z.to_nat enum_id))
         end
  end.

(** The loop of [mixer_ctl_set_enum_by_string] from item [i] on. *)
Fixpoint set_enum_loop (c : mixer_ctl) (str : string) (todo : nat) (i : nat)
  : M (world K) Z :=
  match todo with
  | O => mret (- EINVAL)
  | S todo =>
    match mc_ename c ≫= (.!! i) with
    | None => _ ← raise (match mc_ename c with Some _ => OutOfBounds | None => NullDeref end); mret (- EINVAL)
    | Some None => _ ← raise NullDeref; mret (- EINVAL)
    | Some (Some name) =>
      if bool_decide (str = name) then
        ret ← sys (ioctl_elem_write (mc_fd c)
                     (ElemValue (ei_numid (mc_info c))
                        (wr32 (replicate EV_SIZE 0) 0 (Z.of_nat i))));
        mret (if ret <? 0 then ret else 0)
      else set_enum_loop c str todo (S i)
    end
  end.

Definition mixer_ctl_set_enum_by_string (ctl : option mixer_ctl) (str : string)
  : M (world K) Z :=
  match ctl with
  | None => mret (- EINVAL)
  | Some c =>
    if negb (ei_type (mc_info c) =? SNDRV_CTL_ELEM_TYPE_ENUMERATED)
    then mret (- EINVAL)
    else set_enum_loop c str (Z.to_nat (ei_items (mc_info c))) 0
  end.

(** ** Percentages *)

(** [/] of C truncates: [Z.quot].  Signed results are taken at their width. *)
Definition percent_to_int (ei : snd_ctl_elem_info) (percent : Z) : Z :=
  if (100 <? percent) || (percent <? 0) then - EINVAL
  else
    let range := s32 (ei_int_max ei - ei_int_min ei) in
    s32 (ei_int_min ei + Z.quot (s32 (range * percent)) 100).

Definition int_to_percent (ei : snd_ctl_elem_info) (value : Z) : Z :=
  let range := s32 (ei_int_max ei - ei_int_min ei) in
  if range =? 0 then 0
  else s32 (Z.quot (s32 (value - ei_int_min ei)) range * 100).

Definition mixer_ctl_get_percent (ctl : option mixer_ctl) (id : Z) : M (world K) Z :=
  match ctl with
  | None => mret (- EINVAL)
  | Some c =>
    if negb (ei_type (mc_info c) =? SNDRV_CTL_ELEM_TYPE_INTEGER) then mret (- EINVAL)
    else v ← mixer_ctl_get_value ctl id; mret (int_to_percent (mc_info c) v)
  end.

Definition mixer_ctl_set_percent (ctl : option mixer_ctl) (id percent : Z)
  : M (world K) Z :=
  match ctl with
  | None => mret (- EINVAL)
  | Some c =>
    if negb (ei_type (mc_info c) =? SNDRV_CTL_ELEM_TYPE_INTEGER) then mret (- EINVAL)
    else mixer_ctl_set_value ctl id (percent_to_int (mc_info c) percent)
  end.

End mixer.

#[global] Arguments long_off : simpl never.
#[global] Arguments mixer_ctl_get_value : simpl never.
#[global] Arguments mixer_ctl_set_value : simpl never.
#[global] Arguments mixer_ctl_get_array : simpl never.
#[global] Arguments mixer_ctl_set_array : simpl never.
#[global] Arguments mixer_open : simpl never.
#[global] Arguments add_controls : simpl never.
