(* ===== verification/MixerFacts.v ===== *)
(** * Properties of the tinyalsa mixer *)

From S2P Require Import Prelude Kernel SoftCard Mixer.

(** ** Discovery of the controls *)

Section discovery.
  Context {K : Type} `{!AlsaCtl K}.

(** An enumerated control has the names of all its items. *)
Definition enum_ready (c : mixer_ctl) : Prop :=
  ei_type (mc_info c) = SNDRV_CTL_ELEM_TYPE_ENUMERATED →
  ∃ names, mc_ename c = Some names ∧ length names = Z.to_nat (ei_items (mc_info c))
           ∧ ∀ j, (j < length names)%nat → ∃ s, names !! j = Some (Some s).

Lemma read_enames_ok fd numid todo item names :
  (item + todo = length names)%nat →
  (∀ j, (j < item)%nat → ∃ s, names !! j = Some (Some s)) →
  yields (read_enames fd numid todo item names) (λ r,
    length r.2 = length names
    ∧ (r.1 = true → ∀ j, (j < length names)%nat → ∃ s, r.2 !! j = Some (Some s))).
Proof.
  revert item names. induction todo as [|todo IH]; intros item names Hlen Hset;
    cbn [read_enames].
  - apply yields_ret. split; [done|]. intros _ j Hj. apply Hset. lia.
  - eapply yields_bind; [apply yields_sys_true|intros [r tmp] _].
    apply yields_if; intros; [by apply yields_ret|].
    eapply yields_bind; [apply yields_alloc|intros ok _].
    apply yields_if; intros; [by apply yields_ret|].
    eapply yields_post; [apply IH; [rewrite length_insert; lia|]|by rewrite length_insert].
    intros j Hj. destruct (decide (j = item)) as [->|].
    + rewrite list_lookup_insert_eq by lia. eauto.
    + rewrite list_lookup_insert_ne by done. apply Hset. lia.
Qed.

(** What the caller knows of the description of the control at an index. *)
Variable good : nat → snd_ctl_elem_info → Prop.

Definition ready (i : nat) (c : mixer_ctl) : Prop := enum_ready c ∧ good i (mc_info c).

(** The first [n] controls of the array are ready. *)
Definition ready_upto (n : Z) (ctl : list mixer_ctl) : Prop :=
  ∀ i c, (i < Z.to_nat n)%nat → ctl !! i = Some c → ready i c.

Lemma ready_upto_set n ctl c :
  0 <= n → ready_upto n ctl → ready (Z.to_nat n) c →
  ready_upto (n + 1) (<[Z.to_nat n := c]> ctl).
Proof.
  intros Hn Hr Hc i c' Hi. destruct (decide (i = Z.to_nat n)) as [->|].
  - intros Hl. apply list_lookup_insert_Some in Hl as [(_ & <- & _)|[? _]]; done.
  - rewrite list_lookup_insert_ne by done. apply Hr. lia.
Qed.

(** With no earlier controls the loop stays inside the array. *)
Lemma add_controls_loop_ok fd eid todo n ctl :
  (∀ i k, let r := (ioctl_elem_info fd (default 0 (eid !! i)) 0 k).1 in
     0 <= r.1 → good i r.2) →
  0 <= n → (Z.to_nat n + todo = length ctl)%nat → ready_upto n ctl →
  yields (add_controls_loop fd 0 eid todo n ctl)
    (λ r, length r.2 = length ctl ∧ n <= r.1.2 <= Z.of_nat (length ctl)
          ∧ (r.1.1 = true → r.1.2 = Z.of_nat (length ctl)
                             ∧ ready_upto (Z.of_nat (length ctl)) r.2)).
Proof.
  intros Hgood. revert n ctl. induction todo as [|todo IH]; intros n ctl Hn Hlen Hr;
    cbn [add_controls_loop].
  - apply yields_ret. cbn. replace (Z.of_nat (length ctl)) with n by lia.
    split_and!; [lia..|]. by intros _.
  - eapply (yields_bind _ _ (λ r, 0 <= r.1 → good (Z.to_nat (n - 0)) r.2)).
    { apply yields_sys. intros k. apply Hgood. }
    intros [r ei] Hei. cbn [fst snd] in Hei.
    apply yields_if; intros Hr0; [apply yields_ret; cbn; repeat split; lia || done|].
    apply Z.ltb_ge in Hr0. specialize (Hei Hr0). rewrite Z.sub_0_r in Hei.
    yields_step; [by apply Nat.ltb_lt; lia|]. cbv zeta. rewrite Z.add_0_l.
    destruct (lookup_lt_is_Some_2 ctl (Z.to_nat n)) as [c0 Hc0]; [lia|].
    assert (Hloop : ∀ f, ready (Z.to_nat n) (f c0) →
      yields (add_controls_loop fd 0 eid todo (n + 1) (alter f (Z.to_nat n) ctl))
        (λ r, length r.2 = length ctl ∧ n <= r.1.2 <= Z.of_nat (length ctl)
              ∧ (r.1.1 = true → r.1.2 = Z.of_nat (length ctl)
                                 ∧ ready_upto (Z.of_nat (length ctl)) r.2))).
    { intros f Hf. eapply yields_post; [apply IH|].
      - lia.
      - rewrite length_alter. lia.
      - assert (alter f (Z.to_nat n) ctl = <[Z.to_nat n := f c0]> ctl) as ->.
        { apply list_eq. intros i. destruct (decide (i = Z.to_nat n)) as [->|].
          - by rewrite list_lookup_alter_eq, list_lookup_insert_eq, Hc0 by lia.
          - by rewrite list_lookup_alter_ne, list_lookup_insert_ne. }
        by apply ready_upto_set.
      - cbn. intros ?. rewrite length_alter. intuition lia. }
    apply yields_if; intros Htype.
    2:{ apply Hloop. split; [|done]. intros Ht. cbn in Ht. by rewrite Ht in Htype. }
    eapply yields_bind; [apply yields_alloc|intros ok _].
    apply yields_if; intros.
    { apply yields_ret; cbn. rewrite length_alter. repeat split; lia || done. }
    yields_step; [apply Nat.ltb_lt; rewrite length_alter; lia|].
    eapply yields_bind; [apply read_enames_ok|].
    { by rewrite length_replicate. }
    { lia. }
    rewrite length_replicate. intros [fin names] [Hnl Hnames]. cbn [fst snd] in Hnl, Hnames.
    apply yields_if; intros Hfin.
    { apply yields_ret; cbn. rewrite !length_alter. repeat split; lia || done. }
    rewrite list_alter_alter_eq. apply Hloop. split; [|done]. intros _. exists names.
    split_and!; [done..|]. rewrite Hnl. apply Hnames. by apply negb_false_iff.
Qed.

Lemma mixer_realloc_z_ok ptr newnum :
  0 <= newnum →
  yields (K:=K) (mixer_realloc_z ptr 0 newnum)
    (λ r, ∀ l, r = Some l → length l = Z.to_nat newnum).
Proof.
  intros Hn. unfold mixer_realloc_z.
  eapply yields_bind; [apply yields_alloc|intros ok _].
  apply yields_if; intros; [by apply yields_ret|].
  yields_step; [by apply Z.leb_le|].
  apply yields_ret. intros l [= <-]. rewrite length_replicate. lia.
Qed.

Context `{!AlsaCtlLaws K}.

(** The descriptions the driver gives of the controls it lists are good. *)
Hypothesis Hgood : ∀ fd space k0 i k,
  let ids := (ioctl_elem_list fd 0 space k0).1.2.2 in
  let r := (ioctl_elem_info fd (default 0 (ids !! i)) 0 k).1 in
  0 <= r.1 → good i r.2.

Definition all_ready (m : mixer) : Prop :=
  mx_count m = Z.of_nat (length (mx_ctl m)) ∧ is_u32 (mx_count m)
  ∧ ∀ i c, mx_ctl m !! i = Some c → ready i c.

Lemma add_controls_ok fd name :
  yields (add_controls (Mixer fd name [] 0))
    (λ r, r.1 = 0 → mx_fd r.2 = fd ∧ all_ready r.2).
Proof.
  unfold add_controls; cbn [mx_fd mx_count mx_ctl].
  eapply yields_bind.
  { eapply (yields_sys _ (λ r, is_u32 r.2.1)). intros k. apply elem_list_count. }
  intros [r [cnt ids]] Hu; cbn in Hu |- *.
  apply yields_if; intros; [by apply yields_ret|].
  apply yields_if; intros Hz; [apply yields_ret; intros _; split; [done|]; split_and!; done|].
  eapply yields_bind; [apply mixer_realloc_z_ok, Hu|].
  intros [ctl|] Hl; [|by apply yields_ret]. specialize (Hl _ eq_refl).
  eapply yields_bind; [apply yields_alloc|intros ok _].
  apply yields_if; intros; [by apply yields_ret|].
  eapply yields_bind.
  { eapply (yields_sys _ (λ r, ∀ i k,
      let r' := (ioctl_elem_info fd (default 0 (r.2.2 !! i)) 0 k).1 in
      0 <= r'.1 → good i r'.2)). intros k0 i k. apply Hgood. }
  intros [r2 elist] Hids. cbn [fst snd] in Hids.
  apply yields_if; intros; [by apply yields_ret|].
  rewrite Z.sub_0_r, Z.sub_0_r, Z.add_0_l, u32_u32, (u32_small cnt) by done.
  eapply yields_bind; [apply add_controls_loop_ok; [done|lia|lia|intros ??; lia]|].
  intros [[fin n] ctl'] (Hl' & Hn & Hfin); cbn [fst snd] in *.
  destruct fin; apply yields_ret; cbn [fst snd]; [|done].
  intros _. split; [done|]. unfold all_ready. cbn [mx_fd mx_count mx_ctl set_mx_ctl set_mx_count].
  rewrite Hl', Hl, Z2Nat.id by apply Hu. split_and!; [done..|].
  intros i c Hi. eapply (proj2 (Hfin eq_refl)); [|exact Hi].
  apply lookup_lt_Some in Hi. lia.
Qed.

Lemma mixer_open_ok card :
  yields (mixer_open card)
    (λ r, ∀ m, r = Some m → 0 <= mx_fd m ∧ all_ready m).
Proof.
  unfold mixer_open.
  eapply yields_bind; [apply yields_sys_true|intros fd _].
  apply yields_if; intros Hfd; [by apply yields_ret|].
  eapply yields_bind; [apply yields_alloc|intros ok _].
  apply yields_if; intros.
  { eapply yields_bind; [apply yields_sys_true|intros [] _]. by apply yields_ret. }
  eapply yields_bind; [apply yields_sys_true|intros [r name] _].
  apply yields_if; intros.
  { eapply yields_bind; [apply yields_sys_true|intros ? _]. by apply yields_ret. }
  eapply yields_bind; [apply add_controls_ok|intros [rc m] Hm].
  apply yields_if; intros Hrc; cbn in *.
  - eapply (yields_bind _ _ (λ _, True)); [|intros; by apply yields_ret].
    apply yields_if; intros; [apply yields_sys_true|by apply yields_ret].
  - apply negb_false_iff, Z.eqb_eq in Hrc. apply Z.ltb_ge in Hfd.
    apply yields_ret. intros ? [= <-]. destruct (Hm Hrc) as (-> & ?). done.
Qed.

End discovery.

Section opening.
  Context {K : Type} `{!AlsaCtl K, !AlsaCtlLaws K}.

(** Opening a mixer executes no undefined behaviour whatever the driver
    answers and whichever allocation fails; when it succeeds the object holds
    an open descriptor and exactly [count] controls, and every enumerated
    control has the names of all its items. *)
Theorem mixer_open_safe card w :
  w_faults (mixer_open card w).2 = w_faults w
  ∧ (∀ m, (mixer_open card w).1 = Some m →
       0 <= mx_fd m ∧ mx_count m = Z.of_nat (length (mx_ctl m))
       ∧ is_u32 (mx_count m) ∧ Forall enum_ready (mx_ctl m)).
Proof.
  destruct (mixer_open_ok (λ _ _, True) (λ _ _ _ _ _ _, I) card w) as [Hf Hm].
  split; [done|]. intros m Hopen. destruct (Hm m Hopen) as (Hfd & Hc & Hu & Hr).
  split_and!; [done..|]. apply Forall_lookup_2. intros i c Hi. by eapply Hr.
Qed.

End opening.

(** ** Reading and writing values *)

Section values.
  Context {K : Type} `{!AlsaCtl K, !AlsaCtlLaws K}.

(** The first [n] bytes of control [numid] behave as memory: what was written
    successfully is read back. *)
Definition stores (fd numid : Z) (n : nat) : Prop :=
  ∀ ev ev0 k, ev_numid ev = numid → ev_numid ev0 = numid →
    length (ev_bytes ev) = EV_SIZE →
    0 <= (ioctl_elem_write fd ev k).1 →
    0 <= (ioctl_elem_read fd ev0 (ioctl_elem_write fd ev k).2).1.1
    ∧ take n (ev_bytes (ioctl_elem_read fd ev0 (ioctl_elem_write fd ev k).2).1.2)
      = take n (ev_bytes ev).

Lemma rd8_take b n off : (off < n)%nat → rd8 (take n b) off = rd8 b off.
Proof. intros. unfold rd8. by rewrite lookup_take_lt. Qed.

Lemma rd32_take b n off : (off + 4 <= n)%nat → rd32 (take n b) off = rd32 b off.
Proof. intros. unfold rd32. by rewrite !rd8_take by lia. Qed.

(** How many elements of a type a [snd_ctl_elem_value] has room for, and their
    width in bytes. *)
Definition elem_capacity (type : Z) : Z :=
  if type =? SNDRV_CTL_ELEM_TYPE_BYTES then 512 else 128.

Definition elem_width (type : Z) : nat :=
  if type =? SNDRV_CTL_ELEM_TYPE_BYTES then 1 else 4.

(** What an element of a type keeps of a value: a switch is on or off, a byte
    is a byte. *)
Definition elem_keeps (type v : Z) : Z :=
  if type =? SNDRV_CTL_ELEM_TYPE_BOOLEAN then (if v =? 0 then 0 else 1)
  else if type =? SNDRV_CTL_ELEM_TYPE_BYTES then u8 v
  else v.

(** The types whose elements have a value. *)
Definition has_value (type : Z) : bool :=
  (type =? SNDRV_CTL_ELEM_TYPE_BOOLEAN) || (type =? SNDRV_CTL_ELEM_TYPE_INTEGER)
  || (type =? SNDRV_CTL_ELEM_TYPE_ENUMERATED) || (type =? SNDRV_CTL_ELEM_TYPE_BYTES).

(** Element [id] among the bytes of a control, and the bytes with that element
    changed. *)
Definition elem_get (type : Z) (b : list Z) (id : Z) : Z :=
  if type =? SNDRV_CTL_ELEM_TYPE_BYTES then rd8 b (Z.to_nat id)
  else if type =? SNDRV_CTL_ELEM_TYPE_BOOLEAN
       then (if rd32 b (long_off id) =? 0 then 0 else 1)
  else s32 (rd32 b (long_off id)).

Definition elem_set (type : Z) (b : list Z) (id v : Z) : list Z :=
  if type =? SNDRV_CTL_ELEM_TYPE_BYTES then wr8 b (Z.to_nat id) v
  else wr32 b (long_off id) (elem_keeps type v).

Lemma has_value_cases type :
  has_value type = true →
  type = SNDRV_CTL_ELEM_TYPE_BOOLEAN ∨ type = SNDRV_CTL_ELEM_TYPE_INTEGER
  ∨ type = SNDRV_CTL_ELEM_TYPE_ENUMERATED ∨ type = SNDRV_CTL_ELEM_TYPE_BYTES.
Proof. unfold has_value. rewrite !orb_true_iff, !Z.eqb_eq. tauto. Qed.

Lemma elem_set_length type b id v : length (elem_set type b id v) = length b.
Proof. unfold elem_set. destruct (type =? _); [apply wr8_length|apply wr32_length]. Qed.

(** An element that is set has the value kept; the others are as they were. *)
Lemma elem_get_set type b id v :
  has_value type = true → 0 <= id < elem_capacity type → length b = EV_SIZE → is_s32 v →
  elem_get type (elem_set type b id v) id = elem_keeps type v.
Proof.
  intros Ht Hid Hlen Hv. unfold elem_get, elem_set, elem_keeps, elem_capacity, long_off, EV_SIZE in *.
  destruct (has_value_cases type Ht) as [->|[->|[->| ->]]]; cbn in Hid |- *.
  - rewrite rd32_wr32_eq by lia. by destruct (v =? 0).
  - rewrite rd32_wr32_eq by lia. by rewrite s32_u32, s32_small.
  - rewrite rd32_wr32_eq by lia. by rewrite s32_u32, s32_small.
  - rewrite rd8_wr8_eq by lia. done.
Qed.

Lemma elem_get_other type b id id' v :
  0 <= id → 0 <= id' → id' ≠ id → elem_get type (elem_set type b id v) id' = elem_get type b id'.
Proof.
  intros Hid Hid' Hne. unfold elem_get, elem_set, long_off. destruct (type =? _).
  - rewrite rd8_wr8_ne by lia. done.
  - rewrite rd32_wr32_ne by lia. done.
Qed.

(** An element is read from the bytes of the elements of its control only. *)
Lemma elem_get_take type b n id :
  0 <= id → (elem_width type * (Z.to_nat id + 1) <= n)%nat →
  elem_get type (take n b) id = elem_get type b id.
Proof.
  intros Hid Hn. unfold elem_get, elem_width, long_off in *. destruct (type =? _).
  - by rewrite rd8_take by lia.
  - by rewrite rd32_take by lia.
Qed.

Lemma mixer_get_elem c id w :
  has_value (ei_type (mc_info c)) = true → 0 <= id < ei_count (mc_info c) →
  ei_count (mc_info c) <= elem_capacity (ei_type (mc_info c)) →
  (mixer_ctl_get_value (Some c) id w).1 =
    (let r := (ioctl_elem_read (mc_fd c) (elem_value0 (ei_numid (mc_info c)))
                 (w_kern w)).1 in
     if r.1 <? 0 then r.1 else elem_get (ei_type (mc_info c)) (ev_bytes r.2) id).
Proof.
  intros Ht Hid Hc. unfold mixer_ctl_get_value; cbv zeta.
  rewrite (proj2 (Z.leb_gt (ei_count (mc_info c)) id)) by lia.
  rewrite bind_run. unfold sys.
  destruct (ioctl_elem_read _ _ _) as [[ret ev] k]; cbn.
  destruct (ret <? 0); [done|]. unfold check, elem_capacity in *.
  destruct (has_value_cases _ Ht) as [He|[He|[He|He]]]; rewrite He in *; cbn in Hc |- *;
    by rewrite (proj2 (Z.ltb_lt id _)) by lia.
Qed.

Lemma mixer_set_elem c id v w :
  0 <= id < ei_count (mc_info c) →
  ei_count (mc_info c) <= elem_capacity (ei_type (mc_info c)) →
  mixer_ctl_set_value (Some c) id v w =
    (let '(r, w1) := sys (ioctl_elem_read (mc_fd c) (elem_value0 (ei_numid (mc_info c)))) w in
     if r.1 <? 0 then (r.1, w1)
     else if negb (has_value (ei_type (mc_info c)))
             || (ei_type (mc_info c) =? SNDRV_CTL_ELEM_TYPE_INTEGER)
                && ((v <? ei_int_min (mc_info c)) || (ei_int_max (mc_info c) <? v))
     then (- EINVAL, w1)
     else sys (ioctl_elem_write (mc_fd c)
                 (ElemValue (ev_numid r.2)
                    (elem_set (ei_type (mc_info c)) (ev_bytes r.2) id v))) w1).
Proof.
  intros Hid Hc. unfold mixer_ctl_set_value, mixer_ctl_get_range_min,
    mixer_ctl_get_range_max; cbv zeta.
  rewrite (proj2 (Z.leb_gt (ei_count (mc_info c)) id)) by lia. rewrite bind_run.
  destruct (sys _ w) as [[ret ev] w1] eqn:E; cbn.
  destruct (ret <? 0); [done|].
  destruct (has_value (ei_type (mc_info c))) eqn:Ht; cbn [negb orb].
  - unfold check, elem_capacity, elem_set, elem_keeps in *.
    destruct (has_value_cases _ Ht) as [He|[He|[He|He]]]; rewrite He in *; cbn in Hc |- *;
      [..|by rewrite (proj2 (Z.ltb_lt id _)) by lia];
      try destruct ((v <? _) || _); try done;
      by rewrite (proj2 (Z.ltb_lt id _)) by lia.
  - unfold has_value in Ht. apply orb_false_iff in Ht as [Ht H4].
    apply orb_false_iff in Ht as [Ht H3]. apply orb_false_iff in Ht as [H1 H2].
    by rewrite H1, H2, H3, H4.
Qed.

(** C39: Setting an element of a control of any type to an [int], where it
    succeeds, sets a control of a type that has values to a value in its range,
    if it is an integer control; reading the element back gives the value, of a
    switch whether it is on, of a byte its low eight bits, and every other
    element of the control is as it was. The control has at most as many
    elements as a [snd_ctl_elem_value] has room for, and its driver keeps what
    it has accepted. *)
Theorem mixer_set_get_value c id v w :
  let type := ei_type (mc_info c) in
  0 <= id < ei_count (mc_info c) → ei_count (mc_info c) <= elem_capacity type → is_s32 v →
  stores (mc_fd c) (ei_numid (mc_info c)) (elem_width type * Z.to_nat (ei_count (mc_info c))) →
  0 <= (mixer_ctl_set_value (Some c) id v w).1 →
  let w' := (mixer_ctl_set_value (Some c) id v w).2 in
  has_value type = true
  ∧ (type = SNDRV_CTL_ELEM_TYPE_INTEGER → ei_int_min (mc_info c) <= v <= ei_int_max (mc_info c))
  ∧ (mixer_ctl_get_value (Some c) id w').1 = elem_keeps type v
  ∧ ∀ id', 0 <= id' < ei_count (mc_info c) → id' ≠ id →
      (mixer_ctl_get_value (Some c) id' w').1 = (mixer_ctl_get_value (Some c) id' w).1.
Proof.
  intros type Hid Hc Hv Hst. cbv zeta. fold type.
  rewrite (mixer_set_elem c id v w) by done. fold type. unfold sys at 1 3 5.
  pose proof (elem_read_shape (mc_fd c) (elem_value0 (ei_numid (mc_info c))) (w_kern w)
                (length_replicate _ _)) as [Hlen Hnum].
  destruct (ioctl_elem_read (mc_fd c) _ (w_kern w)) as [[ret ev] k1] eqn:Er; cbn in Hlen, Hnum |- *.
  destruct (ret <? 0) eqn:Eneg; [apply Z.ltb_lt in Eneg; cbn; lia|].
  destruct (has_value type) eqn:Ht; cbn [negb orb]; [|cbn; errno_lia].
  destruct ((type =? _) && _) eqn:Erng; [cbn; errno_lia|].
  set (ev' := ElemValue (ev_numid ev) (elem_set type (ev_bytes ev) id v)).
  intros Hret.
  assert (Hw : 0 <= (ioctl_elem_write (mc_fd c) ev' k1).1)
    by (unfold sys in Hret; cbn in Hret; by destruct (ioctl_elem_write _ _ _)).
  destruct (Hst ev' (elem_value0 (ei_numid (mc_info c))) k1 Hnum eq_refl
    (eq_trans (elem_set_length _ _ _ _) Hlen) Hw) as [Hr0 Hbytes].
  assert (Hread : ∀ i, 0 <= i < ei_count (mc_info c) →
    (mixer_ctl_get_value (Some c) i
       (sys (ioctl_elem_write (mc_fd c) ev') (World k1 (w_heap w) (w_faults w))).2).1
    = elem_get type (ev_bytes ev') i).
  { intros i Hi. rewrite mixer_get_elem by done. unfold sys; cbn [fst snd w_kern].
    destruct (ioctl_elem_write _ _ k1) as [rw k2] eqn:Ew; cbn [fst snd w_kern] in *.
    rewrite (proj2 (Z.ltb_ge _ _)) by done. fold type.
    assert (Hn : (elem_width type * (Z.to_nat i + 1)
                  <= elem_width type * Z.to_nat (ei_count (mc_info c)))%nat)
      by (apply Nat.mul_le_mono_l; lia).
    rewrite <- (elem_get_take _ _ _ i ltac:(lia) Hn), Hbytes.
    by apply elem_get_take; [lia|]. }
  split_and!; [done| | |].
  - intros Hi. rewrite Hi, Z.eqb_refl in Erng. cbn [andb] in Erng.
    apply orb_false_iff in Erng as [?%Z.ltb_ge ?%Z.ltb_ge]. lia.
  - rewrite Hread by done. apply elem_get_set; [done|lia|done..].
  - intros id' Hid' Hne. rewrite Hread by done. cbn [ev' ev_bytes].
    rewrite elem_get_other by (done || lia).
    rewrite mixer_get_elem, Er by done. cbn. by rewrite Eneg.
Qed.

End values.

(** ** Looking controls up *)

(** The controls of the mixer are numbered 1, 2, ... in their order, as ALSA
    numbers the controls of a card. *)
Definition numbered (m : mixer) : Prop :=
  ∀ i c, mx_ctl m !! i = Some c → ei_numid (mc_info c) = Z.of_nat i + 1.

Lemma find_ctl_Some name n ctl c :
  find_ctl name n ctl = Some c ↔
  ∃ i, (i < n)%nat ∧ ctl !! i = Some c ∧ ei_name (mc_info c) = name
       ∧ ∀ j c', (j < i)%nat → ctl !! j = Some c' → ei_name (mc_info c') ≠ name.
Proof.
  revert ctl. induction n as [|n IH]; intros [|c0 ctl]; cbn.
  - split; [done|]. intros (i & ? & ?). lia.
  - split; [done|]. intros (i & ? & ?). lia.
  - split; [done|]. by intros (i & ? & [=] & ?).
  - case_bool_decide as Hname.
    + split.
      * intros [= <-]. exists 0%nat. split_and!; [lia|done..|]. lia.
      * intros ([|i] & Hi & Hc & Hn & Hmin); cbn in *; [done|].
        destruct (Hmin 0%nat c0); [lia|done..].
    + rewrite IH. split.
      * intros (i & Hi & Hc & Hn & Hmin). exists (S i). split_and!; [lia|done..|].
        intros [|j] c' Hj Hc'; cbn in *; [congruence|]. eapply Hmin; [|done]. lia.
      * intros ([|i] & Hi & Hc & Hn & Hmin); cbn in *; [congruence|].
        exists i. split_and!; [lia|done..|].
        intros j c' Hj Hc'. apply (Hmin (S j) c'); [lia|done].
Qed.

(** Looking a control up by name returns the first control of that name,
    and its id leads back to it: [mixer_get_ctl] with the id [ctl_open] stores
    finds the same control again. *)
Theorem mixer_name_id_roundtrip {K} `{!AlsaCtl K} m name c (w w' : world K) :
  numbered m → mx_count m = Z.of_nat (length (mx_ctl m)) → is_u32 (mx_count m) →
  mixer_get_ctl_by_name (Some m) name w = (Some c, w') →
  w' = w ∧ ei_name (mc_info c) = name
  ∧ mixer_get_ctl (Some m) (mixer_ctl_get_id (Some c)) = Some c
  ∧ ∀ j c', 0 <= j < mixer_ctl_get_id (Some c) →
      mixer_get_ctl (Some m) j = Some c' → ei_name (mc_info c') ≠ name.
Proof.
  intros Hnum Hcnt Hu [= Hfind <-].
  apply find_ctl_Some in Hfind as (i & Hi & Hc & Hn & Hmin).
  assert (Hid : mixer_ctl_get_id (Some c) = Z.of_nat i).
  { unfold mixer_ctl_get_id. rewrite (Hnum i c Hc).
    apply lookup_lt_Some in Hc. rewrite u32_small; unfold is_u32 in *; lia. }
  rewrite Hid. unfold mixer_get_ctl. apply lookup_lt_Some in Hc as Hlt.
  rewrite (proj2 (Z.ltb_lt (Z.of_nat i) _)), Nat2Z.id by lia.
  split_and!; [done..|]. intros j c' Hj.
  destruct (Z.ltb_spec j (mx_count m)); [|done].
  intros Hc'. apply (Hmin (Z.to_nat j) c'); [lia|done].
Qed.

(** ** Percentages *)

(** A percentage between 0 and 100 is mapped into the control's range,
    monotonically and with both ends exact, as long as a hundred times the
    range fits an [int]. *)
Theorem percent_to_int_spec ei p q :
  ei_int_min ei <= ei_int_max ei → 100 * (ei_int_max ei - ei_int_min ei) <= INT_MAX →
  0 <= p <= q → q <= 100 →
  ei_int_min ei <= percent_to_int ei p <= percent_to_int ei q
  ∧ percent_to_int ei q <= ei_int_max ei
  ∧ percent_to_int ei 0 = ei_int_min ei ∧ percent_to_int ei 100 = ei_int_max ei.
Proof.
  intros Hle Hr Hpq Hq. unfold INT_MAX in Hr.
  assert (Hmin : is_s32 (ei_int_min ei)) by apply s32_range.
  assert (Hmax : is_s32 (ei_int_max ei)) by apply s32_range.
  assert (Hval : ∀ x, 0 <= x <= 100 →
    percent_to_int ei x =
    ei_int_min ei + ((ei_int_max ei - ei_int_min ei) * x) / 100
    ∧ 0 <= ((ei_int_max ei - ei_int_min ei) * x) / 100 <= ei_int_max ei - ei_int_min ei).
  { intros x Hx. unfold percent_to_int, is_s32 in *.
    rewrite (proj2 (Z.ltb_ge 100 x)), (proj2 (Z.ltb_ge x 0)) by lia. cbn [orb].
    rewrite (s32_small (ei_int_max ei - ei_int_min ei)) by (unfold is_s32; lia).
    rewrite (s32_small (_ * x)) by (unfold is_s32; nia).
    rewrite Z.quot_div_nonneg by nia.
    assert (0 <= ((ei_int_max ei - ei_int_min ei) * x) / 100
            <= ei_int_max ei - ei_int_min ei).
    { split; [apply Z.div_pos; nia|]. apply Z.div_le_upper_bound; nia. }
    rewrite s32_small by (unfold is_s32; lia). lia. }
  destruct (Hval p), (Hval q), (Hval 0) as [Hv0 _], (Hval 100) as [Hv100 _]; try lia.
  rewrite Hv0, Hv100, Z.mul_0_r, Z.div_mul by lia. change (0 / 100) with 0.
  assert ((ei_int_max ei - ei_int_min ei) * p / 100
          <= (ei_int_max ei - ei_int_min ei) * q / 100) by (apply Z.div_le_mono; nia).
  lia.
Qed.

Lemma percent_to_int_spec_witness :
  ei_int_min vol_info <= percent_to_int vol_info 30 <= percent_to_int vol_info 60
  ∧ percent_to_int vol_info 60 <= ei_int_max vol_info
  ∧ percent_to_int vol_info 0 = ei_int_min vol_info
  ∧ percent_to_int vol_info 100 = ei_int_max vol_info.
Proof.
  apply (percent_to_int_spec vol_info 30 60); vm_compute; intuition discriminate.
Defined.

(** The conversion back divides before it multiplies: every value below
    the maximum of the range reads as 0 percent. *)
Theorem int_to_percent_truncates ei v :
  ei_int_min ei <= v < ei_int_max ei → ei_int_max ei - ei_int_min ei <= INT_MAX →
  int_to_percent ei v = 0.
Proof.
  intros Hv Hr. unfold int_to_percent, INT_MAX in *.
  rewrite (s32_small (ei_int_max ei - _)), (s32_small (v - _)) by (unfold is_s32; lia).
  destruct (Z.eqb_spec (ei_int_max ei - ei_int_min ei) 0); [done|].
  by rewrite Z.quot_small by lia.
Qed.

Lemma int_to_percent_truncates_witness : int_to_percent vol_info 174 = 0.
Proof.
  apply (int_to_percent_truncates vol_info 174); vm_compute; intuition discriminate.
Defined.

(** ** Witnesses on the demo card *)

Definition demo_vol : mixer_ctl := MixerCtl 3 vol_info None.

Lemma soft_stores fd numid n :
  (n <= EV_SIZE)%nat → stores (K:=soft_card) fd numid n.
Proof.
  intros Hn ev ev0 k <- Heq Hlen. cbn. rewrite Heq.
  destruct (numid_of k (ev_numid ev)) eqn:E; cbn; [|errno_lia]. intros _.
  unfold numid_of in *. cbn [store sd_ctls].
  destruct (ev_numid ev <? 1); [done|].
  rewrite list_lookup_alter_eq, E. cbn. split; [done|].
  f_equal. by apply resize_all_alt.
Qed.

Lemma mixer_set_get_value_witness :
  let w' := (mixer_ctl_set_value (Some demo_vol) 1 100 demo_world).2 in
  has_value SNDRV_CTL_ELEM_TYPE_INTEGER = true
  ∧ (ei_type vol_info = SNDRV_CTL_ELEM_TYPE_INTEGER →
     ei_int_min vol_info <= 100 <= ei_int_max vol_info)
  ∧ (mixer_ctl_get_value (Some demo_vol) 1 w').1 = 100
  ∧ ∀ id', 0 <= id' < 2 → id' ≠ 1 →
      (mixer_ctl_get_value (Some demo_vol) id' w').1
      = (mixer_ctl_get_value (Some demo_vol) id' demo_world).1.
Proof.
  apply (mixer_set_get_value demo_vol 1 100 demo_world);
    [cbn; lia | cbn; lia | unfold is_s32; lia | | vm_compute; discriminate].
  apply soft_stores. vm_compute. lia.
Defined.

Definition demo_mixer : mixer :=
  Mixer 3 "soft" [ demo_vol; MixerCtl 3 switch_info None;
                   MixerCtl 3 mux_info (Some [Some "DSP"; Some "Bypass"]);
                   MixerCtl 3 coef_info None ] 4.

Lemma demo_numbered : numbered demo_mixer.
Proof. intros [|[|[|[|i]]]] c; cbn; by intros [= <-]. Qed.

Lemma mixer_name_id_roundtrip_witness :
  let c := MixerCtl 3 coef_info None in
  demo_world = demo_world ∧ ei_name (mc_info c) = "Coef"
  ∧ mixer_get_ctl (Some demo_mixer) (mixer_ctl_get_id (Some c)) = Some c
  ∧ ∀ j c', 0 <= j < mixer_ctl_get_id (Some c) →
      mixer_get_ctl (Some demo_mixer) j = Some c' → ei_name (mc_info c') ≠ "Coef".
Proof.
  apply (mixer_name_id_roundtrip (K:=soft_card) demo_mixer "Coef" _ demo_world demo_world
           demo_numbered); [reflexivity|split; vm_compute; congruence|reflexivity].
Defined.

Lemma mixer_open_safe_witness :
  w_faults (mixer_open 1 demo_world).2 = []
  ∧ (∀ m, (mixer_open 1 demo_world).1 = Some m →
       0 <= mx_fd m ∧ mx_count m = Z.of_nat (length (mx_ctl m))
       ∧ is_u32 (mx_count m) ∧ Forall enum_ready (mx_ctl m))
  ∧ is_Some (mixer_open 1 demo_world).1.
Proof.
  destruct (mixer_open_safe (K:=soft_card) 1 demo_world) as [Hf Hm].
  split_and!; [done..|]. vm_compute. eauto.
Defined.
