(* ===== verification/CStrings.v ===== *)
(** * C strings and numbers

    The parts of the C library the configuration manager parses attribute
    values with ([strtoul], [strtok], [isspace]) and the helpers of
    src/configmgr/audio_config.c built on them. *)

From S2P Require Import Prelude.
From Stdlib Require Import Ascii String.

#[global] Open Scope Z_scope.

(** A C string without its terminating NUL. *)
Abbreviation chars := (list ascii).

Definition to_chars (s : string) : chars := list_ascii_of_string s.
Definition of_chars (l : chars) : string := string_of_list_ascii l.

(** A string that fits the address space. *)
Definition short (s : string) : Prop := Z.of_nat (String.length s) < 2 ^ 31.

Definition code (c : ascii) : Z := Z.of_N (N_of_ascii c).

Definition isspace (c : ascii) : bool :=
  ((9 <=? code c) && (code c <=? 13)) || (code c =? 32).

Fixpoint skip_spaces (l : chars) : chars :=
  match l with
  | c :: l' => if isspace c then skip_spaces l' else l
  | [] => []
  end.

(** ** [strtoul(str, &end, 0)] *)

Definition digit_value (c : ascii) : Z :=
  let x := code c in
  if (48 <=? x) && (x <=? 57) then x - 48
  else if (97 <=? x) && (x <=? 122) then x - 87
  else if (65 <=? x) && (x <=? 90) then x - 55
  else 36.

(** Accumulates the digits of [base]; returns the value and the rest. *)
Fixpoint scan_digits (base acc : Z) (l : chars) : Z * chars :=
  match l with
  | c :: l' =>
    if digit_value c <? base then scan_digits base (acc * base + digit_value c) l'
    else (acc, l)
  | [] => (acc, [])
  end.

Definition ULONG_MAX : Z := 0xFFFFFFFF.

(** Base 0: [0x] and a hexadecimal digit select 16, a leading [0] selects 8. *)
Definition scan_number (l : chars) : option (Z * chars) :=
  match l with
  | "0"%char :: x :: h :: l' =>
    if ((code x =? 120) || (code x =? 88)) && (digit_value h <? 16)
    then Some (scan_digits 16 0 (h :: l'))
    else Some (scan_digits 8 0 l)
  | "0"%char :: _ => Some (scan_digits 8 0 l)
  | c :: _ => if digit_value c <? 10 then Some (scan_digits 10 0 l) else None
  | [] => None
  end.

(** [None]: no conversion was performed ([*end == str]). *)
Definition strtoul (str : chars) : option (Z * chars) :=
  let l := skip_spaces str in
  let '(neg, l) := match l with
                   | "-"%char :: l' => (true, l')
                   | "+"%char :: l' => (false, l')
                   | _ => (false, l)
                   end in
  match scan_number l with
  | None => None
  | Some (v, rest) =>
    Some (if ULONG_MAX <? v then ULONG_MAX else if (neg : bool) then u32 (- v) else v, rest)
  end.

(** Return code and the new value of [*result]. *)
Definition string_to_uint (result : Z) (str : option string) : Z * Z :=
  match str with
  | None => (- ENOENT, result)
  | Some str =>
    match strtoul (to_chars str) with
    | Some (v, []) => if v <=? 0xFFFFFFFF then (0, v) else (- EINVAL, result)
    | _ => (- EINVAL, result)
    end
  end.

(** ** [strtok(str, ",")] *)

(** The tokens of [l]: its maximal non-empty runs without a comma;
    [cur] is the run being read, reversed. *)
Fixpoint tokens (cur : chars) (l : chars) : list chars :=
  match l with
  | [] => match cur with [] => [] | _ => [rev cur] end
  | c :: l' =>
    if bool_decide (c = ","%char)
    then match cur with [] => tokens [] l' | _ => rev cur :: tokens [] l' end
    else tokens (c :: cur) l'
  end.

Definition strtok_commas (s : string) : list string :=
  of_chars <$> tokens [] (to_chars s).

(** ** [probe_trim_spaces] *)

Fixpoint drop_trailing (l : chars) : chars :=
  match l with
  | [] => []
  | c :: l' =>
    match drop_trailing l' with
    | [] => if isspace c then [] else [c]
    | r => c :: r
    end
  end.

Definition probe_trim_spaces (str : chars) : chars := drop_trailing (skip_spaces str).

(** [snprintf(buf, size, ...)]: what fits before the terminating NUL. *)
Definition snprintf (size : nat) (s : string) : string :=
  of_chars (take (size - 1) (to_chars s)).

(** [strcmp a b <= 0]; characters are compared as unsigned. *)
Fixpoint strcmp_le (a b : chars) : bool :=
  match a, b with
  | [], _ => true
  | _, [] => false
  | c :: a, d :: b =>
      if decide (code c < code d) then true
      else if decide (code d < code c) then false
      else strcmp_le a b
  end.

(** ** Decimal numerals *)

Definition dec_digit (n : Z) : ascii := ascii_of_N (Z.to_N (48 + n)).

Fixpoint dec_go (fuel : nat) (n : Z) (acc : chars) : chars :=
  match fuel with
  | O => acc
  | S fuel =>
    if n <? 10 then dec_digit n :: acc
    else dec_go fuel (n / 10) (dec_digit (n mod 10) :: acc)
  end.

(** The decimal numeral of [n]. *)
Definition decimal (n : Z) : string := of_chars (dec_go (S (Z.to_nat (Z.log2 n))) n []).

Lemma dec_digit_value n : 0 <= n < 10 → digit_value (dec_digit n) = n.
Proof.
  intros. assert (n ∈ seqZ 0 10) as Hin by (apply elem_of_seqZ; lia).
  revert n H Hin. assert (Forall (λ n, digit_value (dec_digit n) = n) (seqZ 0 10)) as HF
    by (vm_compute; repeat constructor).
  rewrite Forall_forall in HF. auto.
Qed.

Lemma log2_div10 n : 10 <= n → Z.log2 (n / 10) < Z.log2 n.
Proof.
  intros. assert (n / 10 <= n / 2) by (apply Z.div_le_compat_l; lia).
  pose proof (Z.log2_le_mono (n / 10) (n / 2)).
  assert (Z.log2 (n / 2) = Z.max 0 (Z.log2 n - 1)) as Hl.
  { change 2 with (2 ^ 1) at 1. rewrite <- Z.shiftr_div_pow2 by lia.
    apply Z.log2_shiftr. lia. }
  assert (1 <= Z.log2 n) by (change 1 with (Z.log2 2); apply Z.log2_le_mono; lia).
  lia.
Qed.

Lemma scan_dec_go fuel n acc :
  0 <= n → (Z.to_nat (Z.log2 n) < fuel)%nat →
  scan_digits 10 0 (dec_go fuel n acc) = scan_digits 10 n acc.
Proof.
  revert n acc. induction fuel as [|fuel IH]; intros n acc Hn Hf; [lia|].
  cbn [dec_go]. destruct (Z.ltb_spec n 10).
  - cbn [scan_digits]. rewrite dec_digit_value by lia.
    by rewrite (proj2 (Z.ltb_lt n 10)) by lia.
  - pose proof (log2_div10 n). pose proof (Z.log2_nonneg (n / 10)).
    rewrite IH by (apply Z.div_pos || idtac; lia).
    cbn [scan_digits]. pose proof (Z.mod_pos_bound n 10).
    rewrite dec_digit_value by lia.
    rewrite (proj2 (Z.ltb_lt (n mod 10) 10)) by lia. f_equal.
    pose proof (Z.div_mod n 10). lia.
Qed.

(** The numeral of a positive number starts with a non-zero digit. *)
Lemma dec_go_head fuel n acc :
  0 < n → (Z.to_nat (Z.log2 n) < fuel)%nat →
  ∃ d l, 1 <= d <= 9 ∧ dec_go fuel n acc = dec_digit d :: l.
Proof.
  revert n acc. induction fuel as [|fuel IH]; intros n acc Hn Hf; [lia|].
  cbn [dec_go]. destruct (Z.ltb_spec n 10); [exists n; eexists; split; [lia|done]|].
  pose proof (log2_div10 n). pose proof (Z.log2_nonneg (n / 10)).
  apply IH; [apply Z.div_str_pos|]; lia.
Qed.

Lemma scan_number_head d l :
  1 <= d <= 9 → scan_number (dec_digit d :: l) = Some (scan_digits 10 0 (dec_digit d :: l)).
Proof.
  intros Hd.
  assert (d = 1 ∨ d = 2 ∨ d = 3 ∨ d = 4 ∨ d = 5 ∨ d = 6 ∨ d = 7 ∨ d = 8 ∨ d = 9) by lia.
  repeat (destruct_or! || subst); reflexivity.
Qed.

Lemma strtoul_head d l :
  1 <= d <= 9 → strtoul (dec_digit d :: l) =
    let r := scan_digits 10 0 (dec_digit d :: l) in
    Some (if ULONG_MAX <? r.1 then ULONG_MAX else r.1, r.2).
Proof.
  intros Hd. unfold strtoul.
  assert (Hp : skip_spaces (dec_digit d :: l) = dec_digit d :: l
    ∧ match dec_digit d :: l with
      | "-"%char :: l' => (true, l')
      | "+"%char :: l' => (false, l')
      | _ => (false, dec_digit d :: l)
      end = (false, dec_digit d :: l)).
  { assert (d = 1 ∨ d = 2 ∨ d = 3 ∨ d = 4 ∨ d = 5 ∨ d = 6 ∨ d = 7 ∨ d = 8 ∨ d = 9)
      by lia.
    repeat (destruct_or! || subst); done. }
  destruct Hp as [-> ->]. rewrite scan_number_head by done.
  by destruct (scan_digits _ _ _).
Qed.

(** A decimal numeral is read as its value, saturated at [ULONG_MAX]. *)
Lemma string_to_uint_numeral n r :
  0 <= n → string_to_uint r (Some (decimal n)) = (0, Z.min n 0xFFFFFFFF).
Proof.
  intros Hn. unfold string_to_uint, decimal, to_chars, of_chars.
  rewrite list_ascii_of_string_of_list_ascii.
  destruct (decide (n = 0)) as [->|Hne]; [done|].
  destruct (dec_go_head (S (Z.to_nat (Z.log2 n))) n []) as (d & l & Hd & Heq); [lia..|].
  pose proof (scan_dec_go (S (Z.to_nat (Z.log2 n))) n [] Hn) as Hs.
  rewrite Heq in Hs |- *. rewrite strtoul_head, Hs by (done || lia). cbn [scan_digits fst snd].
  unfold ULONG_MAX. destruct (Z.ltb_spec 0xFFFFFFFF n).
  - by rewrite Z.min_r by lia.
  - rewrite (proj2 (Z.leb_le n _)) by lia. by rewrite Z.min_l by lia.
Qed.

(** ** The order of strings *)

Lemma code_inj c d : code c = code d → c = d.
Proof. unfold code. intros Hc. rewrite <- (ascii_N_embedding c), <- (ascii_N_embedding d). f_equal. lia. Qed.

Lemma strcmp_le_refl a : strcmp_le a a = true.
Proof. induction a as [|c a IH]; cbn; [done|]. rewrite !decide_False by lia. exact IH. Qed.

Lemma strcmp_le_antisym a b : strcmp_le a b = true → strcmp_le b a = true → a = b.
Proof.
  revert b. induction a as [|c a IH]; intros [|d b]; cbn; try done.
  destruct (decide (code c < code d)), (decide (code d < code c)); try (done || lia).
  intros Hab Hba. f_equal; [apply code_inj; lia|by apply IH].
Qed.

Lemma strcmp_le_total a b : strcmp_le a b = true ∨ strcmp_le b a = true.
Proof.
  revert b. induction a as [|c a IH]; intros [|d b]; cbn; try (by left); try (by right).
  destruct (decide (code c < code d)), (decide (code d < code c)); by auto.
Qed.

Lemma strcmp_le_trans a b c : strcmp_le a b = true → strcmp_le b c = true → strcmp_le a c = true.
Proof.
  revert b c. induction a as [|x a IH]; intros [|y b] [|z c]; cbn; try done.
  destruct (decide (code x < code y)), (decide (code y < code x)), (decide (code y < code z)),
    (decide (code z < code y)), (decide (code x < code z)), (decide (code z < code x)); try (done || lia).
  apply IH.
Qed.

(** [a] comes before [b]. *)
Definition strcmp_lt (a b : chars) : Prop := strcmp_le a b = true ∧ a ≠ b.

Lemma strcmp_lt_trans a b c : strcmp_lt a b → strcmp_lt b c → strcmp_lt a c.
Proof.
  intros [Hab Hn] [Hbc _]. split; [by apply (strcmp_le_trans a b c)|].
  intros ->. apply Hn. by apply strcmp_le_antisym.
Qed.

Lemma strcmp_not_le a b : strcmp_le a b = false → strcmp_lt b a.
Proof.
  intros Hab. destruct (strcmp_le_total a b) as [|Hba]; [congruence|]. split; [done|].
  intros ->. by rewrite strcmp_le_refl in Hab.
Qed.
