(* ===== verification/ConfigData.v ===== *)
(** * The platform's audio header

    [system/audio.h] belongs to the Android platform: its constants and its
    format predicate are parameters of the development.  [AudioHLaws] states
    what the header documents of them; [android_audio] is an instance with
    the bit layout of Android's header. *)

From S2P Require Import Prelude Kernel Mixer.

Class AudioH := {
  AUDIO_DEVICE_BIT_IN : Z;
  AUDIO_DEVICE_OUT_ALL : Z;
  AUDIO_DEVICE_IN_ALL : Z;
  AUDIO_DEVICE_OUT_SPEAKER : Z;
  AUDIO_DEVICE_OUT_EARPIECE : Z;
  AUDIO_DEVICE_OUT_WIRED_HEADSET : Z;
  AUDIO_DEVICE_OUT_WIRED_HEADPHONE : Z;
  AUDIO_DEVICE_OUT_ALL_SCO : Z;
  AUDIO_DEVICE_OUT_ALL_A2DP : Z;
  AUDIO_DEVICE_OUT_ALL_USB : Z;
  AUDIO_DEVICE_IN_WIRED_HEADSET : Z;
  AUDIO_DEVICE_IN_ALL_SCO : Z;
  AUDIO_DEVICE_IN_BUILTIN_MIC : Z;
  AUDIO_DEVICE_IN_BACK_MIC : Z;
  AUDIO_DEVICE_IN_VOICE_CALL : Z;
  AUDIO_DEVICE_IN_AUX_DIGITAL : Z;
  audio_is_linear_pcm : Z → bool
}.

(** [within d all]: every bit of [d] is a bit of [all]. *)
Definition within (d all : Z) : Prop := Z.land d all = d.

#[export] Instance within_dec d all : Decision (within d all) :=
  Z.eq_dec (Z.land d all) d.

Section devices.
  Context `{!AudioH}.

Definition out_devices : list Z :=
  [ AUDIO_DEVICE_OUT_SPEAKER; AUDIO_DEVICE_OUT_EARPIECE; AUDIO_DEVICE_OUT_WIRED_HEADSET;
    AUDIO_DEVICE_OUT_WIRED_HEADPHONE; AUDIO_DEVICE_OUT_ALL_SCO; AUDIO_DEVICE_OUT_ALL_A2DP;
    AUDIO_DEVICE_OUT_ALL_USB ].

Definition in_devices : list Z :=
  [ AUDIO_DEVICE_IN_WIRED_HEADSET; AUDIO_DEVICE_IN_ALL_SCO; AUDIO_DEVICE_IN_BUILTIN_MIC;
    AUDIO_DEVICE_IN_BACK_MIC; AUDIO_DEVICE_IN_VOICE_CALL; AUDIO_DEVICE_IN_AUX_DIGITAL ].

End devices.

(** The direction bit is bit 31; the [_ALL] masks contain the devices; an
    output device has no direction bit, an input device has it. *)
Class AudioHLaws `{!AudioH} : Prop := {
  bit_in_31 : AUDIO_DEVICE_BIT_IN = 2 ^ 31;
  out_all_low : 0 <= AUDIO_DEVICE_OUT_ALL < 2 ^ 31;
  in_all_u32 : is_u32 AUDIO_DEVICE_IN_ALL;
  out_devices_low : Forall (λ d, within d AUDIO_DEVICE_OUT_ALL ∧ d ≠ 0) out_devices;
  in_devices_in : Forall (λ d, is_u32 d ∧ Z.testbit d 31 = true
                     ∧ within d (Z.lor AUDIO_DEVICE_IN_ALL (2 ^ 31))) in_devices
}.

#[export] Instance android_audio : AudioH := {
  AUDIO_DEVICE_BIT_IN := 0x80000000;
  AUDIO_DEVICE_OUT_ALL := 0x407FFFFF;
  AUDIO_DEVICE_IN_ALL := 0xC01FFFFF;
  AUDIO_DEVICE_OUT_SPEAKER := 0x2;
  AUDIO_DEVICE_OUT_EARPIECE := 0x1;
  AUDIO_DEVICE_OUT_WIRED_HEADSET := 0x4;
  AUDIO_DEVICE_OUT_WIRED_HEADPHONE := 0x8;
  AUDIO_DEVICE_OUT_ALL_SCO := 0x70;
  AUDIO_DEVICE_OUT_ALL_A2DP := 0x380;
  AUDIO_DEVICE_OUT_ALL_USB := 0x6000;
  AUDIO_DEVICE_IN_WIRED_HEADSET := 0x80000010;
  AUDIO_DEVICE_IN_ALL_SCO := 0x80000008;
  AUDIO_DEVICE_IN_BUILTIN_MIC := 0x80000004;
  AUDIO_DEVICE_IN_BACK_MIC := 0x80000080;
  AUDIO_DEVICE_IN_VOICE_CALL := 0x80000040;
  AUDIO_DEVICE_IN_AUX_DIGITAL := 0x80000020;
  audio_is_linear_pcm f := Z.land f 0xFF000000 =? 0
}.

#[export] Instance android_audio_laws : AudioHLaws.
Proof.
  split.
  1-3: vm_compute; intuition congruence.
  - unfold out_devices; repeat constructor; vm_compute; congruence.
  - unfold in_devices; repeat constructor; vm_compute; congruence.
Qed.

(** * Data of the configuration manager

    The structures of src/configmgr/audio_config.c and
    src/include/tinyhal/audio_config.h, and the dynamically extended arrays
    they are kept in. *)


Definition DYN_ARRAY_GRANULE : Z := 16.
Definition BYTE_ARRAY_MAX_SIZE : Z := 512.
Definition INVALID_CTL_INDEX : Z := 0xFFFFFFFF.

Definition e_path_id_off : Z := 0.
Definition e_path_id_on : Z := 1.

(** ** Dynamic arrays

    [struct dyn_array]: the objects in use ([count] of them) and the number
    the allocation has room for.  Cells past [count] hold zero bytes. *)
Record dyn_array (A : Type) := DynArray {
  da_items : list A;
  da_max_count : Z
}.
Arguments DynArray {A} _ _.
Arguments da_items {A} _.
Arguments da_max_count {A} _.

Definition da_count {A} (a : dyn_array A) : Z := Z.of_nat (length (da_items a)).
Definition da_empty {A} : dyn_array A := DynArray [] 0.

Definition da_update {A} (i : nat) (f : A → A) (a : dyn_array A) : dyn_array A :=
  DynArray (alter f i (da_items a)) (da_max_count a).

Section dyn_array.
  Context {K A : Type}.

(** [zero] is an object of zero bytes, which the new cell holds. *)
Definition dyn_array_extend (zero : A) (a : dyn_array A)
  : M (world K) (Z * dyn_array A) :=
  let new_count := da_count a + 1 in
  if da_max_count a <? new_count then
    if 0xFFFF - DYN_ARRAY_GRANULE <? da_max_count a then mret (- ENOMEM, a)
    else
      ok ← alloc;
      if negb ok then mret (- ENOMEM, a)
      else mret (0, DynArray (da_items a ++ [zero])
                             (u16 (da_max_count a + DYN_ARRAY_GRANULE)))
  else mret (0, DynArray (da_items a ++ [zero]) (da_max_count a)).

(** Shrinks the allocation to the objects in use. *)
Definition dyn_array_fix (a : dyn_array A) : M (world K) (dyn_array A) :=
  ok ← alloc;
  if (ok : bool) then mret (DynArray (da_items a) (u16 (da_count a))) else mret a.

End dyn_array.

(** ** Controls, paths and devices *)

(** The union [value] of [struct ctl]. *)
Inductive ctl_value :=
  | VUint (n : Z)
  | VData (bytes : list Z)
  | VString (s : string).

Record ctl := Ctl {
  c_id : Z;
  c_name : string;
  c_index : Z;
  c_array_count : Z;
  c_type : mixer_ctl_type;
  c_value : ctl_value
}.

Record path := Path {
  p_id : Z;
  p_ctls : dyn_array ctl
}.

(** [None]: the null pointer of a failed [strdup]. *)
Record codec_case := CodecCase {
  cc_codec_name : option string;
  cc_file : option string
}.

Record codec_probe := CodecProbe {
  cp_file : option string;
  cp_new_xml_file : option string;
  cp_cases : dyn_array codec_case
}.

(** [d_type] 0 is the global device. *)
Record device := Device {
  d_type : Z;
  d_use_count : Z;
  d_paths : dyn_array path
}.

(** ** Use-cases and streams *)

Record scase := Scase {
  sc_name : string;
  sc_ctls : dyn_array ctl
}.

Record usecase := Usecase {
  uc_name : string;
  uc_cases : dyn_array scase
}.

Record stream_control := StreamControl {
  sctl_id : Z;
  sctl_index : Z;
  sctl_min : Z;
  sctl_max : Z
}.

Inductive stream_type :=
  | e_stream_out_pcm
  | e_stream_in_pcm
  | e_stream_out_compress
  | e_stream_in_compress
  | e_stream_out_hw
  | e_stream_in_hw
  | e_stream_global.

#[export] Instance stream_type_eq_dec : EqDecision stream_type.
Proof. solve_decision. Defined.

Record hw_stream := HwStream {
  hw_type : stream_type;
  hw_card_number : Z;
  hw_device_number : Z;
  hw_rate : Z;
  hw_period_size : Z;
  hw_period_count : Z
}.

Definition stream_is_input (s : hw_stream) : bool :=
  match hw_type s with
  | e_stream_in_pcm | e_stream_in_compress | e_stream_in_hw => true
  | _ => false
  end.

Definition stream_is_pcm (s : hw_stream) : bool :=
  match hw_type s with e_stream_out_pcm | e_stream_in_pcm => true | _ => false end.

Definition stream_is_compressed (s : hw_stream) : bool :=
  match hw_type s with
  | e_stream_out_compress | e_stream_in_compress => true
  | _ => false
  end.

Definition stream_is_compressed_in (s : hw_stream) : bool :=
  match hw_type s with e_stream_in_compress => true | _ => false end.

Definition stream_is_hardware (s : hw_stream) : bool :=
  match hw_type s with e_stream_out_hw | e_stream_in_hw => true | _ => false end.

Record stream := Stream {
  s_info : hw_stream;
  s_name : option string;
  s_ref_count : Z;
  s_max_ref_count : Z;
  s_enable_path : Z;
  s_disable_path : Z;
  s_current_devices : Z;
  s_volume_left : stream_control;
  s_volume_right : stream_control;
  s_usecases : dyn_array usecase
}.

Record config_mgr := ConfigMgr {
  cm_mixer : option mixer;
  cm_supported_output_devices : Z;
  cm_supported_input_devices : Z;
  cm_devices : dyn_array device;
  cm_streams : dyn_array stream
}.

(** ** Field updates *)

Definition set_p_ctls (p : path) (l : dyn_array ctl) : path := Path (p_id p) l.
Definition set_use_count (d : device) (n : Z) : device := Device (d_type d) n (d_paths d).
Definition set_d_paths (d : device) (l : dyn_array path) : device :=
  Device (d_type d) (d_use_count d) l.
Definition set_sc_ctls (c : scase) (l : dyn_array ctl) : scase := Scase (sc_name c) l.
Definition set_uc_cases (u : usecase) (l : dyn_array scase) : usecase :=
  Usecase (uc_name u) l.

Definition set_s_info (s : stream) (i : hw_stream) : stream :=
  Stream i (s_name s) (s_ref_count s) (s_max_ref_count s) (s_enable_path s)
    (s_disable_path s) (s_current_devices s) (s_volume_left s) (s_volume_right s)
    (s_usecases s).
Definition set_ref_count (s : stream) (n : Z) : stream :=
  Stream (s_info s) (s_name s) n (s_max_ref_count s) (s_enable_path s)
    (s_disable_path s) (s_current_devices s) (s_volume_left s) (s_volume_right s)
    (s_usecases s).
Definition set_current_devices (s : stream) (d : Z) : stream :=
  Stream (s_info s) (s_name s) (s_ref_count s) (s_max_ref_count s) (s_enable_path s)
    (s_disable_path s) d (s_volume_left s) (s_volume_right s) (s_usecases s).
Definition set_enable_path (s : stream) (p : Z) : stream :=
  Stream (s_info s) (s_name s) (s_ref_count s) (s_max_ref_count s) p
    (s_disable_path s) (s_current_devices s) (s_volume_left s) (s_volume_right s)
    (s_usecases s).
Definition set_disable_path (s : stream) (p : Z) : stream :=
  Stream (s_info s) (s_name s) (s_ref_count s) (s_max_ref_count s) (s_enable_path s)
    p (s_current_devices s) (s_volume_left s) (s_volume_right s) (s_usecases s).
Definition set_volume_left (s : stream) (v : stream_control) : stream :=
  Stream (s_info s) (s_name s) (s_ref_count s) (s_max_ref_count s) (s_enable_path s)
    (s_disable_path s) (s_current_devices s) v (s_volume_right s) (s_usecases s).
Definition set_volume_right (s : stream) (v : stream_control) : stream :=
  Stream (s_info s) (s_name s) (s_ref_count s) (s_max_ref_count s) (s_enable_path s)
    (s_disable_path s) (s_current_devices s) (s_volume_left s) v (s_usecases s).
Definition set_s_usecases (s : stream) (u : dyn_array usecase) : stream :=
  Stream (s_info s) (s_name s) (s_ref_count s) (s_max_ref_count s) (s_enable_path s)
    (s_disable_path s) (s_current_devices s) (s_volume_left s) (s_volume_right s) u.

Definition set_cm_mixer (cm : config_mgr) (m : option mixer) : config_mgr :=
  ConfigMgr m (cm_supported_output_devices cm) (cm_supported_input_devices cm)
    (cm_devices cm) (cm_streams cm).
Definition set_supported_output (cm : config_mgr) (d : Z) : config_mgr :=
  ConfigMgr (cm_mixer cm) d (cm_supported_input_devices cm) (cm_devices cm)
    (cm_streams cm).
Definition set_supported_input (cm : config_mgr) (d : Z) : config_mgr :=
  ConfigMgr (cm_mixer cm) (cm_supported_output_devices cm) d (cm_devices cm)
    (cm_streams cm).
Definition set_cm_devices (cm : config_mgr) (l : dyn_array device) : config_mgr :=
  ConfigMgr (cm_mixer cm) (cm_supported_output_devices cm)
    (cm_supported_input_devices cm) l (cm_streams cm).
Definition set_cm_streams (cm : config_mgr) (l : dyn_array stream) : config_mgr :=
  ConfigMgr (cm_mixer cm) (cm_supported_output_devices cm)
    (cm_supported_input_devices cm) (cm_devices cm) l.

(** ** The array invariant *)

(** The objects fit the allocation and the 16-bit counter. *)
Definition da_wf {A} (a : dyn_array A) : Prop :=
  da_count a <= da_max_count a <= 0xFFFF.

Section dyn_array_facts.
  Context {K A : Type}.

Lemma dyn_array_extend_spec (zero : A) (a : dyn_array A) :
  da_wf a →
  yields (K:=K) (dyn_array_extend zero a) (λ r,
    da_wf r.2 ∧
    (r.1 = 0 ∧ da_items r.2 = da_items a ++ [zero]
     ∨ r = (- ENOMEM, a) ∧ da_max_count a = da_count a)).
Proof.
  unfold da_wf, dyn_array_extend, da_count, DYN_ARRAY_GRANULE. intros Hwf.
  assert (Hsnoc : Z.of_nat (length (da_items a ++ [zero]))
                  = Z.of_nat (length (da_items a)) + 1)
    by (rewrite length_app; cbn; lia).
  repeat (yields_step || match goal with H : context [Z.ltb] |- _ => revert H end);
    cbn [fst snd da_items da_max_count]; rewrite ?Hsnoc;
    repeat match goal with |- context [Z.ltb ?x ?y] => destruct (Z.ltb_spec x y) end;
    intros; simplify_eq; try (split; [lia|]; first [left; done | right; split; [done|lia]]).
  unfold u16, wrap. rewrite Z.mod_small by lia. split; [lia|by left].
Qed.

Lemma dyn_array_fix_spec (a : dyn_array A) :
  da_wf a →
  yields (K:=K) (dyn_array_fix a) (λ r, da_wf r ∧ da_items r = da_items a).
Proof.
  unfold da_wf, dyn_array_fix. intros Hwf.
  eapply yields_bind; [apply yields_alloc|intros ok _].
  apply yields_if; intros; apply yields_ret; [|done].
  cbn. unfold da_count, u16, wrap in *. cbn.
  rewrite Z.mod_small by lia. lia || (split; [lia|done]).
Qed.

End dyn_array_facts.
