(* ===== verification/Expat.v ===== *)
(** * The XML parser and the files it reads

    The configuration is read through the expat library and the C library's
    streams, neither of which is part of the repository: both are parameters.
    [ExpatLaws] states what expat.h documents and the parser of
    src/configmgr/audio_config.c relies on. *)

From S2P Require Import Prelude CStrings.
From Stdlib Require Import Ascii String.

#[global] Open Scope Z_scope.

(** The two callbacks [XML_SetElementHandler] installs, with their arguments. *)
Inductive xml_event :=
  | XStart (name : string) (attribs : list (string * string))
  | XEnd (name : string).

(** [XML_Parse] is split at its callbacks: [XML_feed buf final] starts the
    call, [XML_callback] is the next callback it makes, or [None] when it
    returns.  [XML_budget] bounds the callbacks the call still makes. *)
Class Expat (P : Type) := {
  XML_ParserCreate : P;
  XML_ParserReset : P → P;
  XML_feed : list ascii → bool → P → P;
  XML_callback : P → option (xml_event * P);
  XML_budget : P → nat;
  XML_StopParser : bool → P → P;
  XML_stopped : P → bool;
  XML_GetErrorCode : P → Z;
  XML_GetCurrentLineNumber : P → Z
}.

Definition XML_ERROR_NONE : Z := 0.

(** The elements open at a point of the parse: start and end callbacks are
    properly nested, a new document has none open, and feeding or stopping
    changes nothing.  A document has one root element ([XML_rooted]: it has
    been started).  A stopped parser makes no callbacks (those expat.h lists
    as exceptions need a handler the code does not install, or a stop in a
    start handler) until it is reset.  Attribute values fit the address
    space. *)
Class ExpatLaws (P : Type) `{!Expat P} := {
  XML_open : P → nat;
  XML_rooted : P → bool;
  stopped_create : XML_stopped XML_ParserCreate = false;
  stopped_reset p : XML_stopped (XML_ParserReset p) = false;
  open_create : XML_open XML_ParserCreate = 0%nat;
  open_reset p : XML_open (XML_ParserReset p) = 0%nat;
  open_feed buf final p : XML_open (XML_feed buf final p) = XML_open p;
  open_stop b p : XML_open (XML_StopParser b p) = XML_open p;
  open_start p name attribs p' :
    XML_callback p = Some (XStart name attribs, p') → XML_open p' = S (XML_open p);
  open_end p name p' :
    XML_callback p = Some (XEnd name, p') → XML_open p = S (XML_open p');
  rooted_create : XML_rooted XML_ParserCreate = false;
  rooted_reset p : XML_rooted (XML_ParserReset p) = false;
  rooted_feed buf final p : XML_rooted (XML_feed buf final p) = XML_rooted p;
  rooted_stop b p : XML_rooted (XML_StopParser b p) = XML_rooted p;
  rooted_start p name attribs p' :
    XML_callback p = Some (XStart name attribs, p') →
    XML_rooted p' = true ∧ (XML_open p = 0%nat → XML_rooted p = false);
  rooted_end p name p' :
    XML_callback p = Some (XEnd name, p') → XML_rooted p' = XML_rooted p;
  stopped_stop b p : XML_stopped (XML_StopParser b p) = true;
  stopped_feed buf final p : XML_stopped p = true → XML_stopped (XML_feed buf final p) = true;
  stopped_callback p : XML_stopped p = true → XML_callback p = None;
  attribs_short p name attribs p' :
    XML_callback p = Some (XStart name attribs, p') → Forall (λ a, short a.2) attribs;
  budget_callback p e p' :
    XML_callback p = Some (e, p') → (XML_budget p' < XML_budget p)%nat
}.

(** ** Files *)

(** A stream open for reading: what is left of its data, and whether a device
    error follows it. *)
Record file := File {
  f_data : list ascii;
  f_ioerr : bool
}.

(** [sys_fopen name n]: the outcome of opening a file after [n] failed
    attempts; [ro_product_device]: the property of that name. *)
Class Platform := {
  sys_fopen : string → nat → option file;
  ro_product_device : string
}.
