(* ===== verification/Routing.v ===== *)
(** * Routing, stream and use-case control

    The run-time half of src/configmgr/audio_config.c: opening and applying
    controls, the paths of a device, routes, stream reference counts, volume
    and use-cases.  A pointer into one of the arrays of the configuration is
    an index; the functions return the updated objects. *)

From S2P Require Import Prelude Kernel Mixer ConfigData CStrings.

(** ** Views of the union of [struct ctl] *)

Definition set_c_index (c : ctl) (i : Z) : ctl :=
  Ctl (c_id c) (c_name c) i (c_array_count c) (c_type c) (c_value c).
Definition set_c_array_count (c : ctl) (n : Z) : ctl :=
  Ctl (c_id c) (c_name c) (c_index c) n (c_type c) (c_value c).
Definition set_c_value (c : ctl) (v : ctl_value) : ctl :=
  Ctl (c_id c) (c_name c) (c_index c) (c_array_count c) (c_type c) v.
Definition set_c_opened (c : ctl) (t : mixer_ctl_type) (id : Z) : ctl :=
  Ctl id (c_name c) (c_index c) (c_array_count c) t (c_value c).

Section routing.
  Context {K : Type} `{!AlsaCtl K, !AudioH}.

Definition value_string (c : ctl) : M (world K) string :=
  match c_value c with
  | VString s => mret s
  | _ => _ ← raise BadUnion; mret EmptyString
  end.

Definition value_uinteger (c : ctl) : M (world K) Z :=
  match c_value c with
  | VUint n => mret n
  | _ => _ ← raise BadUnion; mret 0
  end.

Definition value_data (c : ctl) : M (world K) (list Z) :=
  match c_value c with
  | VData d => mret d
  | _ => _ ← raise BadUnion; mret []
  end.

(** ** Opening a control *)

(** The conversion loop of [make_byte_array]: the error code of the first
    invalid token, or the bytes. *)
Fixpoint parse_bytes (toks : list string) : Z + list Z :=
  match toks with
  | [] => inr []
  | t :: toks =>
    let '(ret, v) := string_to_uint 0 (Some t) in
    if negb (ret =? 0) then inl ret
    else match parse_bytes toks with
         | inl e => inl e
         | inr l => inr (u8 v :: l)
         end
  end.

Definition make_byte_array (c : ctl) (mctl : mixer_ctl) : M (world K) (Z * ctl) :=
  val_str ← value_string c;
  let vnum := mixer_ctl_get_num_values (Some mctl) in
  ok ← alloc;
  if negb ok then mret (- ENOMEM, c)
  else if BYTE_ARRAY_MAX_SIZE <? vnum then mret (- EINVAL, c)
  else if vnum <=? c_index c then mret (- EINVAL, c)
  else
    let toks := strtok_commas val_str in
    let count := Z.of_nat (length toks) in
    if vnum <? u32 (c_index c + count) then mret (- EINVAL, c)
    else
      let c := set_c_array_count c count in
      ok ← alloc;
      if negb ok then mret (- ENOMEM, c)
      else match parse_bytes toks with
           | inl ret => mret (ret, c)
           | inr bytes => mret (0, set_c_value c (VData bytes))
           end.

Definition ctl_open (mx : option mixer) (c : ctl) : M (world K) (Z * ctl) :=
  if negb (c_id c =? UINT_MAX) then mret (0, c)
  else
    found ← mixer_get_ctl_by_name mx (c_name c);
    found ← match found with
            | Some m => mret (Some m)
            | None => mixer_get_ctl_by_name mx (c_name c)
            end;
    match found with
    | None => mret (- ENOENT, c)
    | Some mctl =>
      let ctl_type := mixer_ctl_get_type (Some mctl) in
      let opened c := mret (0, set_c_opened c ctl_type (mixer_ctl_get_id (Some mctl))) in
      match ctl_type with
      | MIXER_CTL_TYPE_BYTE =>
        let c := if c_index c =? INVALID_CTL_INDEX then set_c_index c 0 else c in
        '(ret, c) ← make_byte_array c mctl;
        if negb (ret =? 0) then mret (ret, c) else opened c
      | MIXER_CTL_TYPE_BOOL | MIXER_CTL_TYPE_INT =>
        val_str ← value_string c;
        let '(ret, v) := string_to_uint 0 (Some val_str) in
        if ret =? - EINVAL then mret (- EINVAL, c)
        else opened (set_c_value c (VUint v))
      | MIXER_CTL_TYPE_ENUM => opened c
      | _ => mret (- EINVAL, c)
      end
    end.

(** ** Applying controls *)

(** Sets elements [vnum], [vnum + 1], ... until an error. *)
Fixpoint set_all_values (mctl : option mixer_ctl) (todo : nat) (vnum v : Z)
  : M (world K) Z :=
  match todo with
  | O => mret 0
  | S todo =>
    err ← mixer_ctl_set_value mctl vnum v;
    if err <? 0 then mret err else set_all_values mctl todo (vnum + 1) v
  end.

(** The [switch] of [apply_ctls_l], on a control that is open. *)
Definition apply_ctl (mx : option mixer) (c : ctl) : M (world K) Z :=
  let mctl := mixer_get_ctl mx (c_id c) in
  let vnum := mixer_ctl_get_num_values mctl in
  match mixer_ctl_get_type mctl with
  | MIXER_CTL_TYPE_BOOL | MIXER_CTL_TYPE_INT =>
    v ← value_uinteger c;
    if c_index c =? INVALID_CTL_INDEX
    then set_all_values mctl (Z.to_nat vnum) 0 (s32 v)
    else mixer_ctl_set_value mctl (c_index c) (s32 v)
  | MIXER_CTL_TYPE_BYTE =>
    data ← value_data c;
    if (c_index c =? 0) && (c_array_count c =? vnum)
    then mixer_ctl_set_array mctl (Some data) (c_array_count c)
    else
      '(err, bytes) ← mixer_ctl_get_array mctl vnum;
      if err <? 0 then mret err
      else
        _ ← check ((c_index c + c_array_count c <=? BYTE_ARRAY_MAX_SIZE)
                   && (c_array_count c <=? Z.of_nat (length data))) OutOfBounds;
        let ctl_data := resize (Z.to_nat BYTE_ARRAY_MAX_SIZE) 0 bytes in
        mixer_ctl_set_array mctl
          (Some (splice ctl_data (Z.to_nat (c_index c))
                   (take (Z.to_nat (c_array_count c)) data))) vnum
  | MIXER_CTL_TYPE_ENUM =>
    s ← value_string c;
    mixer_ctl_set_enum_by_string mctl s
  | _ => mret 0
  end.

(** Stops at the first control that cannot be opened. *)
Fixpoint apply_ctls_l (mx : option mixer) (pctl : list ctl) : M (world K) (list ctl) :=
  match pctl with
  | [] => mret []
  | c :: rest =>
    '(ret, c) ← ctl_open mx c;
    if negb (ret =? 0) then mret (c :: rest)
    else
      _ ← apply_ctl mx c;
      rest ← apply_ctls_l mx rest;
      mret (c :: rest)
  end.

Definition apply_path_l (mx : option mixer) (p : path) : M (world K) path :=
  l ← apply_ctls_l mx (da_items (p_ctls p));
  mret (set_p_ctls p (DynArray l (da_max_count (p_ctls p)))).

(** ** Paths of a device *)

(** Applies path number [i] of [pdev]. *)
Definition apply_path_at (mx : option mixer) (pdev : device) (i : nat) (p : path)
  : M (world K) device :=
  p' ← apply_path_l mx p;
  mret (set_d_paths pdev (da_update i (λ _, p') (d_paths pdev))).

(** The on and off paths are reference-counted. *)
Definition apply_device_path_l (mx : option mixer) (pdev : device) (i : nat) (p : path)
  : M (world K) device :=
  if p_id p =? e_path_id_off then
    let pdev := set_use_count pdev (s32 (d_use_count pdev - 1)) in
    if 0 <? d_use_count pdev then mret pdev else apply_path_at mx pdev i p
  else if p_id p =? e_path_id_on then
    let pdev := set_use_count pdev (s32 (d_use_count pdev + 1)) in
    if 1 <? d_use_count pdev then mret pdev else apply_path_at mx pdev i p
  else apply_path_at mx pdev i p.

(** Finds both paths in a single walk of the list, from index [i] on;
    [f0] and [f1] are [found_paths[0]] and [found_paths[1]]. *)
Fixpoint find_paths (first_id second_id : Z) (i : nat) (ppath : list path)
  (f0 f1 : option (nat * path)) : option (nat * path) * option (nat * path) :=
  match ppath with
  | [] => (f0, f1)
  | p :: rest =>
    if p_id p =? first_id then
      if bool_decide (is_Some f1) || (first_id =? second_id)
      then (Some (i, p), f1)
      else find_paths first_id second_id (S i) rest (Some (i, p)) f1
    else if p_id p =? second_id then
      if bool_decide (is_Some f0) then (f0, Some (i, p))
      else find_paths first_id second_id (S i) rest f0 (Some (i, p))
    else find_paths first_id second_id (S i) rest f0 f1
  end.

Definition apply_found (mx : option mixer) (pdev : device) (f : option (nat * path))
  : M (world K) device :=
  match f with
  | None => mret pdev
  | Some (i, p) => apply_device_path_l mx pdev i p
  end.

Definition apply_paths_by_id_l (mx : option mixer) (pdev : device)
  (first_id second_id : Z) : M (world K) device :=
  let '(f0, f1) := find_paths first_id second_id 0 (da_items (d_paths pdev)) None None in
  pdev ← apply_found mx pdev f0;
  apply_found mx pdev f1.

(** ** Paths of all the devices of a route *)

Definition device_matches (input_flag devices : Z) (pdev : device) : bool :=
  (Z.land (d_type pdev) input_flag =? input_flag)
  && negb (Z.land (d_type pdev) devices =? 0).

Fixpoint apply_paths_loop (mx : option mixer) (pdevs : list device)
  (input_flag devices first_id second_id : Z) : M (world K) (list device) :=
  match pdevs with
  | [] => mret []
  | pdev :: rest =>
    if devices =? 0 then mret (pdev :: rest)
    else if device_matches input_flag devices pdev then
      pdev' ← apply_paths_by_id_l mx pdev first_id second_id;
      rest ← apply_paths_loop mx rest input_flag (Z.land devices (not32 (d_type pdev)))
               first_id second_id;
      mret (pdev' :: rest)
    else
      rest ← apply_paths_loop mx rest input_flag devices first_id second_id;
      mret (pdev :: rest)
  end.

Definition apply_paths_to_devices_l (cm : config_mgr) (devices first_id second_id : Z)
  : M (world K) config_mgr :=
  let input_flag := Z.land devices AUDIO_DEVICE_BIT_IN in
  let devices := Z.land devices (not32 AUDIO_DEVICE_BIT_IN) in
  l ← apply_paths_loop (cm_mixer cm) (da_items (cm_devices cm)) input_flag devices
        first_id second_id;
  mret (set_cm_devices cm (DynArray l (da_max_count (cm_devices cm)))).

Fixpoint apply_global_loop (mx : option mixer) (pdevs : list device)
  (first_id second_id : Z) : M (world K) (list device) :=
  match pdevs with
  | [] => mret []
  | pdev :: rest =>
    if d_type pdev =? 0 then
      pdev ← apply_paths_by_id_l mx pdev first_id second_id; mret (pdev :: rest)
    else rest ← apply_global_loop mx rest first_id second_id; mret (pdev :: rest)
  end.

Definition apply_paths_to_global_l (cm : config_mgr) (first_id second_id : Z)
  : M (world K) config_mgr :=
  l ← apply_global_loop (cm_mixer cm) (da_items (cm_devices cm)) first_id second_id;
  mret (set_cm_devices cm (DynArray l (da_max_count (cm_devices cm)))).

(** ** Routes *)

Definition get_stream_at (cm : config_mgr) (i : nat) : option stream :=
  da_items (cm_streams cm) !! i.
Definition upd_stream (i : nat) (f : stream → stream) (cm : config_mgr) : config_mgr :=
  set_cm_streams cm (da_update i f (cm_streams cm)).

Definition get_current_routes (cm : config_mgr) (i : nat) : Z :=
  match get_stream_at cm i with Some s => s_current_devices s | None => 0 end.

Definition get_routed_devices (cm : config_mgr) (i : nat) : Z :=
  match get_stream_at cm i with Some s => s_current_devices s | None => 0 end.

(** The devices [apply_route] saves, or [None] when it refuses the request. *)
Definition route_devices (info : hw_stream) (devices : Z) : option Z :=
  if devices =? 0 then Some 0
  else if negb (Z.land devices AUDIO_DEVICE_BIT_IN =? 0) then
    if negb (stream_is_input info) then None
    else Some (Z.lor (Z.land devices AUDIO_DEVICE_IN_ALL) AUDIO_DEVICE_BIT_IN)
  else
    if stream_is_input info then None
    else Some (Z.land devices AUDIO_DEVICE_OUT_ALL).

(** The masks, which are computed before the lock is taken: the devices to
    enable and those to disable. *)
Definition route_masks (s : stream) (devices : Z) : Z * Z :=
  (Z.land devices (not32 (s_current_devices s)), Z.land (not32 devices) (s_current_devices s)).

(** What is done with the lock held, for masks computed before. *)
Definition apply_masks_l (cm : config_mgr) (i : nat) (s : stream) (masks : Z * Z) (devices : Z)
  : M (world K) config_mgr :=
  let '(enabling, disabling) := masks in
  cm ← apply_paths_to_devices_l cm disabling (s_disable_path s) e_path_id_off;
  cm ← apply_paths_to_devices_l cm enabling e_path_id_on (s_enable_path s);
  mret (upd_stream i (λ s, set_current_devices s devices) cm).

(** The masks depend on the stream's own routes only, so that calls on other
    streams between the two parts make no difference (RouteInv.v). *)
Definition apply_route (cm : config_mgr) (i : nat) (devices : Z)
  : M (world K) config_mgr :=
  match get_stream_at cm i with
  | None => _ ← raise NullDeref; mret cm
  | Some s =>
    let masks := route_masks s devices in
    match route_devices (s_info s) devices with
    | None => mret cm
    | Some devices => apply_masks_l cm i s masks devices
    end
  end.

(** ** Volume *)

Definition vol_value (v : stream_control) (percent : Z) : Z :=
  if percent =? 0 then sctl_min v
  else if percent =? 100 then sctl_max v
  else
    let range := u32 (sctl_max v - sctl_min v) in
    u32 (sctl_min v + u32 (percent * range) / 100).

Definition set_vol_ctl (cm : config_mgr) (volctl : stream_control) (percent : Z)
  : M (world K) Z :=
  _ ← mixer_ctl_set_value (mixer_get_ctl (cm_mixer cm) (sctl_id volctl))
        (sctl_index volctl) (s32 (vol_value volctl (u32 percent)));
  mret 0.

Definition set_hw_volume (cm : config_mgr) (i : nat) (left_pc right_pc : Z)
  : M (world K) Z :=
  match get_stream_at cm i with
  | None => _ ← raise NullDeref; mret 0
  | Some s =>
    let has_left := negb (sctl_id (s_volume_left s) =? UINT_MAX) in
    let has_right := negb (sctl_id (s_volume_right s) =? UINT_MAX) in
    ret ← (if has_left then
             left_pc ← (if has_right then mret left_pc
                        else
                          _ ← check (bool_decide (is_s32 (left_pc + right_pc))) SignedOverflow;
                          mret (Z.quot (left_pc + right_pc) 2));
             set_vol_ctl cm (s_volume_left s) left_pc
           else mret (- ENOSYS));
    if has_right then set_vol_ctl cm (s_volume_right s) right_pc else mret ret
  end.

(** ** Streams *)

Fixpoint find_named (name : string) (i : nat) (l : list stream) : option nat :=
  match l with
  | [] => None
  | s :: l =>
    if bool_decide (s_name s = Some name) then Some i else find_named name (S i) l
  end.

Definition find_named_stream (cm : config_mgr) (name : string) : option nat :=
  find_named name 0 (da_items (cm_streams cm)).

Definition open_stream_l (cm : config_mgr) (i : nat) : M (world K) (bool * config_mgr) :=
  match get_stream_at cm i with
  | None => _ ← raise NullDeref; mret (false, cm)
  | Some s =>
    if s_ref_count s <? s_max_ref_count s then
      let n := s32 (s_ref_count s + 1) in
      let cm := upd_stream i (λ s, set_ref_count s n) cm in
      if n =? 1 then
        cm ← apply_paths_to_global_l cm e_path_id_on (s_enable_path s);
        mret (true, cm)
      else mret (true, cm)
    else mret (false, cm)
  end.

Definition wanted_type (devices format : Z) : stream_type :=
  let pcm := audio_is_linear_pcm format in
  if negb (Z.land devices AUDIO_DEVICE_BIT_IN =? 0)
  then if pcm then e_stream_in_pcm else e_stream_in_compress
  else if pcm then e_stream_out_pcm else e_stream_out_compress.

(** Tries the streams [i - 1], ..., 0. *)
Fixpoint get_stream_loop (cm : config_mgr) (type : stream_type) (i : nat)
  : M (world K) (option nat * config_mgr) :=
  match i with
  | O => mret (None, cm)
  | S i =>
    match get_stream_at cm i with
    | None => _ ← raise OutOfBounds; mret (None, cm)
    | Some s =>
      if bool_decide (hw_type (s_info s) = type) then
        '(ok, cm) ← open_stream_l cm i;
        if (ok : bool) then mret (Some i, cm) else get_stream_loop cm type i
      else get_stream_loop cm type i
    end
  end.

(** [format] is the format of the [struct audio_config]. *)
Definition get_stream (cm : config_mgr) (devices format : Z)
  : M (world K) (option nat * config_mgr) :=
  get_stream_loop cm (wanted_type devices format) (length (da_items (cm_streams cm))).

Definition get_named_stream (cm : config_mgr) (name : string)
  : M (world K) (option nat * config_mgr) :=
  match find_named_stream cm name with
  | None => mret (None, cm)
  | Some i =>
    '(ok, cm) ← open_stream_l cm i;
    mret (if (ok : bool) then Some i else None, cm)
  end.

Definition is_named_stream_defined (cm : config_mgr) (name : string) : bool :=
  bool_decide (is_Some (find_named_stream cm name)).

(** [None]: a null stream. *)
Definition release_stream (cm : config_mgr) (stream : option nat)
  : M (world K) config_mgr :=
  match stream with
  | None => mret cm
  | Some i =>
    match get_stream_at cm i with
    | None => _ ← raise NullDeref; mret cm
    | Some s =>
      let n := s32 (s_ref_count s - 1) in
      let cm := upd_stream i (λ s, set_ref_count s n) cm in
      if n =? 0 then
        cm ← apply_paths_to_devices_l cm (s_current_devices s) e_path_id_off
               (s_disable_path s);
        cm ← apply_paths_to_global_l cm (s_disable_path s) e_path_id_off;
        mret (upd_stream i (λ s, set_current_devices s 0) cm)
      else mret cm
    end
  end.

Definition get_supported_output_devices (cm : config_mgr) : Z :=
  cm_supported_output_devices cm.
Definition get_supported_input_devices (cm : config_mgr) : Z :=
  cm_supported_input_devices cm.

(** ** Use-cases *)

Fixpoint find_case (case_name : string) (j : nat) (l : list scase) : option (nat * scase) :=
  match l with
  | [] => None
  | c :: l =>
    if bool_decide (sc_name c = case_name) then Some (j, c) else find_case case_name (S j) l
  end.

(** The case found by the two nested loops: use-case, case and its index. *)
Fixpoint find_use_case (setting case_name : string) (i : nat) (l : list usecase)
  : option (nat * nat * scase) :=
  match l with
  | [] => None
  | u :: l =>
    match (if bool_decide (uc_name u = setting)
           then find_case case_name 0 (da_items (uc_cases u)) else None) with
    | Some (j, c) => Some (i, j, c)
    | None => find_use_case setting case_name (S i) l
    end
  end.

Definition store_case_ctls (i j : nat) (l : list ctl) (s : stream) : stream :=
  set_s_usecases s
    (da_update i (λ u, set_uc_cases u
       (da_update j (λ c, set_sc_ctls c (DynArray l (da_max_count (sc_ctls c))))
          (uc_cases u))) (s_usecases s)).

Definition apply_use_case (cm : config_mgr) (stream : nat) (setting case_name : string)
  : M (world K) (Z * config_mgr) :=
  match get_stream_at cm stream with
  | None => _ ← raise NullDeref; mret (- ENOSYS, cm)
  | Some s =>
    match find_use_case setting case_name 0 (da_items (s_usecases s)) with
    | None => mret (- ENOSYS, cm)
    | Some (i, j, c) =>
      l ← apply_ctls_l (cm_mixer cm) (da_items (sc_ctls c));
      mret (0, upd_stream stream (store_case_ctls i j l) cm)
    end
  end.

End routing.
