(* ===== verification/RefCount.v ===== *)
(** * Reference counting of devices

    [apply_device_path_l] counts the uses of a device by its on and off paths.
    This file proves that the counts agree with the routes of the streams. *)

From S2P Require Import Prelude Kernel SoftCard Mixer ConfigData Routing.

(** ** What applying paths does to a device *)

Definition path_ids (d : device) : list Z := p_id <$> da_items (d_paths d).
Definition has_path (d : device) (id : Z) : bool := bool_decide (id ∈ path_ids d).

(** The device is the same up to its use count and the state of its controls. *)
Definition same_shape (d d' : device) : Prop :=
  d_type d' = d_type d ∧ path_ids d' = path_ids d.

Definition id_delta (id : Z) : Z :=
  if id =? e_path_id_off then -1 else if id =? e_path_id_on then 1 else 0.

(** Change of the use count by applying the paths [first] and [second]. *)
Definition paths_delta (d : device) (first second : Z) : Z :=
  (if has_path d first then id_delta first else 0)
  + (if has_path d second && negb (second =? first) then id_delta second else 0).

(** Far from the limits of [int]. *)
Definition small (n : Z) : Prop := - 2 ^ 30 < n < 2 ^ 30.

Lemma id_delta_bound id : -1 <= id_delta id <= 1.
Proof. unfold id_delta. repeat case_match; lia. Qed.

Section shape.
  Context {K : Type} `{!AlsaCtl K, !AudioH}.

Lemma apply_path_l_id mx p :
  returns (S:=world K) (apply_path_l mx p) (λ p', p_id p' = p_id p).
Proof.
  unfold apply_path_l. eapply returns_bind; [apply returns_true|].
  intros l _. by apply returns_ret.
Qed.

Lemma apply_path_at_shape mx d i p :
  path_ids d !! i = Some (p_id p) →
  returns (S:=world K) (apply_path_at mx d i p)
    (λ d', same_shape d d' ∧ d_use_count d' = d_use_count d).
Proof.
  intros Hp. unfold apply_path_at.
  eapply returns_bind; [apply apply_path_l_id|]. intros p' Hid.
  apply returns_ret. split; [split|done]; [done|].
  unfold path_ids, set_d_paths, da_update in *; cbn.
  apply list_eq. intros j. rewrite list_lookup_fmap in Hp |- *. rewrite list_lookup_fmap.
  destruct (decide (i = j)) as [<-|].
  - rewrite list_lookup_alter_eq. destruct (_ !! i); [|done].
    cbn in *. by rewrite Hid.
  - by rewrite list_lookup_alter_ne.
Qed.

Lemma apply_device_path_l_shape mx d i p :
  path_ids d !! i = Some (p_id p) →
  returns (S:=world K) (apply_device_path_l mx d i p)
    (λ d', same_shape d d' ∧ d_use_count d' = s32 (d_use_count d + id_delta (p_id p))
           ∨ same_shape d d' ∧ d_use_count d' = d_use_count d ∧ id_delta (p_id p) = 0).
Proof.
  intros Hp. unfold apply_device_path_l, id_delta.
  assert (Hat : ∀ n, returns (S:=world K) (apply_path_at mx (set_use_count d n) i p)
            (λ d', same_shape d d' ∧ d_use_count d' = n)).
  { intros n. eapply returns_post; [by apply apply_path_at_shape|].
    intros d' [[? ?] ?]. by split. }
  destruct (p_id p =? e_path_id_off); [|destruct (p_id p =? e_path_id_on)].
  - cbv zeta. case_match; [apply returns_ret; left; by split|].
    eapply returns_post; [apply Hat|]. intros d' [? ?]. by left.
  - cbv zeta. case_match; [apply returns_ret; left; by split|].
    eapply returns_post; [apply Hat|]. intros d' [? ?]. by left.
  - eapply returns_post; [by apply apply_path_at_shape|]. intros d' [? ?]. by right.
Qed.

(** [found l i id f r]: the walk over [l], whose indices start at [i], left
    with [r] for the path [id] after it entered with [f]. *)
Definition found (l : list path) (i : nat) (id : Z) (f r : option (nat * path)) : Prop :=
  r = f ∧ (id ∉ p_id <$> l ∨ is_Some f)
  ∨ ∃ j p, r = Some ((i + j)%nat, p) ∧ l !! j = Some p ∧ p_id p = id.

Lemma found_here p l i id f : p_id p = id → found (p :: l) i id f (Some (i, p)).
Proof. intros. right. exists 0%nat, p. by rewrite Nat.add_0_r. Qed.

Lemma found_skip p l i id f r :
  p_id p ≠ id → found l (S i) id f r → found (p :: l) i id f r.
Proof.
  intros Hp [[-> Hn]|(j & q & -> & Hj & Hq)].
  - left. split; [done|]. destruct Hn as [Hn|Hn]; [left|by right].
    rewrite fmap_cons, not_elem_of_cons. auto.
  - right. exists (S j), q. by rewrite Nat.add_succ_r.
Qed.

Lemma found_set p l i id f r :
  p_id p = id → found l (S i) id (Some (i, p)) r → found (p :: l) i id f r.
Proof.
  intros Hp [[-> _]|(j & q & -> & Hj & Hq)]; [by apply found_here|].
  right. exists (S j), q. by rewrite Nat.add_succ_r.
Qed.

(** The walk finds a path exactly when the device has one of that id. *)
Lemma find_paths_spec first second i l f0 f1 :
  let r := find_paths first second i l f0 f1 in
  found l i first f0 r.1
  ∧ (if second =? first then r.2 = f1 else found l i second f1 r.2).
Proof.
  revert i f0 f1. induction l as [|p l IH]; intros i f0 f1; cbn [find_paths].
  - split; [|case_match; [done|]]; left; (split; [done|left; set_solver]).
  - cbv zeta. specialize (IH (S i)).
    destruct (Z.eqb_spec (p_id p) first) as [H1|H1];
      [|destruct (Z.eqb_spec (p_id p) second) as [H2|H2]].
    + destruct (bool_decide (is_Some f1) || (first =? second)) eqn:Hstop; cbn [fst snd].
      * split; [by apply found_here|]. destruct (Z.eqb_spec second first) as [|Hne]; [done|].
        left. split; [done|]. right.
        apply orb_prop in Hstop as [?%bool_decide_eq_true|?%Z.eqb_eq]; [done|congruence].
      * destruct (IH (Some (i, p)) f1) as [Ha Hb]. split; [by apply found_set|].
        destruct (Z.eqb_spec second first); [done|]. apply found_skip; [congruence|done].
    + destruct (bool_decide (is_Some f0)) eqn:Hstop; cbn [fst snd].
      * apply bool_decide_eq_true in Hstop. split; [left; by auto|].
        destruct (Z.eqb_spec second first); [congruence|]. by apply found_here.
      * destruct (IH f0 (Some (i, p))) as [Ha Hb]. split; [by apply found_skip|].
        destruct (Z.eqb_spec second first); [congruence|]. by apply found_set.
    + destruct (IH f0 f1) as [Ha Hb]. split; [by apply found_skip|].
      destruct (Z.eqb_spec second first); [done|]. by apply found_skip.
Qed.

(** [d'] is [d] after paths that change its use count by [delta]. *)
Definition stepped (d d' : device) (delta : Z) : Prop :=
  same_shape d d' ∧ (small (d_use_count d) → d_use_count d' = d_use_count d + delta).

Lemma apply_found_step mx d d0 id f :
  same_shape d0 d → found (da_items (d_paths d0)) 0 id None f →
  returns (S:=world K) (apply_found mx d f)
    (λ d', same_shape d d' ∧
       (- 2 ^ 31 < d_use_count d < 2 ^ 31 - 1 →
        d_use_count d' = d_use_count d + if has_path d0 id then id_delta id else 0)).
Proof.
  intros [_ Hids] Hf. unfold has_path.
  destruct Hf as [[-> Hno]|(j & p & -> & Hj & Hid)]; cbn [apply_found Nat.add].
  - destruct Hno as [Hno|[? [=]]]. rewrite bool_decide_eq_false_2 by done.
    apply returns_ret. split; [done|]. lia.
  - assert (Hlook : path_ids d0 !! j = Some (p_id p))
      by (unfold path_ids; by rewrite list_lookup_fmap, Hj).
    rewrite bool_decide_eq_true_2.
    2:{ rewrite <- Hid. by eapply list_elem_of_lookup_2. }
    eapply returns_post; [apply apply_device_path_l_shape; by rewrite Hids|].
    rewrite Hid. pose proof (id_delta_bound id).
    intros d' [[Hs Hu]|(Hs & Hu & Hz)]; (split; [done|]); intros Hb; [|lia].
    rewrite Hu, s32_small; [done|]. unfold is_s32. lia.
Qed.

Lemma apply_paths_by_id_step mx d first second :
  returns (S:=world K) (apply_paths_by_id_l mx d first second)
    (λ d', stepped d d' (paths_delta d first second)).
Proof.
  unfold apply_paths_by_id_l.
  pose proof (find_paths_spec first second 0 (da_items (d_paths d)) None None) as Hf.
  destruct (find_paths _ _ _ _ _ _) as [f0 f1]; cbn in Hf. destruct Hf as [Hf0 Hf1].
  eapply returns_bind; [by eapply (apply_found_step mx d d)|].
  intros d1 [Hs1 Hu1]. unfold stepped, paths_delta, small.
  pose proof (id_delta_bound first).
  destruct (second =? first).
  - subst f1. apply returns_ret. split; [done|]. intros Hb.
    rewrite Hu1 by lia. rewrite andb_false_r. lia.
  - eapply returns_post; [by eapply (apply_found_step mx d1 d)|].
    intros d2 [[Ht2 Hi2] Hu2]. destruct Hs1 as [Ht1 Hi1].
    split; [split; congruence|]. intros Hb. rewrite andb_true_r.
    pose proof (Hu1 ltac:(lia)) as He1. rewrite Hu2; [lia|].
    rewrite He1. destruct (has_path d first); lia.
Qed.

End shape.

(** ** Layouts whose devices can be told apart

    The direction bit (bit 31) aside, every device of the configuration is one
    bit.  An output and an input device may have the same bit (the wired
    headset and the built-in microphone do), with the output device first. *)

Definition low (t : Z) : Z := Z.land t 0x7FFFFFFF.
Definition is_in (t : Z) : bool := Z.testbit t 31.

Definition ty_ok (t : Z) : Prop :=
  t = 0 ∨ ∃ b, 0 <= b < 31 ∧ low t = 2 ^ b ∧ is_u32 t.

Fixpoint layout (ts : list Z) : Prop :=
  match ts with
  | [] => True
  | t :: ts =>
    ty_ok t ∧ (t ∉ ts) ∧ (is_in t = true → ¬ low t ∈ (low <$> ts)) ∧ layout ts
  end.

(** The device is among the devices of the mask. *)
Definition hit (devices : Z) (t : Z) : bool := negb (Z.land t devices =? 0).

(** ... and has the direction [dir] ([true]: input). *)
Definition wanted (dir : bool) (devices t : Z) : bool :=
  hit devices t && Bool.eqb (is_in t) dir.

Lemma low_testbit t n : 0 <= n < 31 → Z.testbit (low t) n = Z.testbit t n.
Proof.
  intros. unfold low. rewrite Z.land_spec. change 0x7FFFFFFF with (Z.ones 31).
  rewrite Z.ones_spec_low by lia. by rewrite andb_true_r.
Qed.

Lemma ty_testbit t b n : low t = 2 ^ b → 0 <= b → 0 <= n < 31 →
  Z.testbit t n = bool_decide (b = n).
Proof.
  intros Ht Hb Hn. rewrite <- low_testbit, Ht, Z.pow2_bits_eqb by lia.
  case_bool_decide; [by apply Z.eqb_eq|by apply Z.eqb_neq].
Qed.

Lemma hit_testbit t b devices :
  low t = 2 ^ b → 0 <= b < 31 → 0 <= devices < 2 ^ 31 →
  hit devices t = Z.testbit devices b.
Proof.
  intros Ht Hb Hd. unfold hit.
  assert (Hland : Z.land t devices = if Z.testbit devices b then 2 ^ b else 0).
  { apply Z.bits_inj'. intros n Hn. rewrite Z.land_spec.
    destruct (decide (n < 31)).
    - rewrite (ty_testbit t b) by (done || lia). case_bool_decide as Hbn; [subst n|].
      + destruct (Z.testbit devices b); [by rewrite Z.pow2_bits_true by lia|].
        by rewrite Z.bits_0.
      + destruct (Z.testbit devices b); [|by rewrite Z.bits_0].
        by rewrite Z.pow2_bits_false.
    - assert (Z.testbit devices n = false) as ->.
      { rewrite <- (Z.mod_small devices (2 ^ 31)) by done.
        apply Z.mod_pow2_bits_high. lia. }
      rewrite andb_false_r. destruct (Z.testbit devices b); [|by rewrite Z.bits_0].
      rewrite Z.pow2_bits_false by lia. done. }
  rewrite Hland. destruct (Z.testbit devices b); [|done].
  pose proof (Z.pow_pos_nonneg 2 b). destruct (Z.eqb_spec (2 ^ b) 0); [lia|done].
Qed.

Lemma hit_zero devices : hit devices 0 = false.
Proof. done. Qed.

(** Removing the bits of one device leaves the other devices of the mask. *)
Lemma hit_remove t t' devices :
  ty_ok t → ty_ok t' → low t ≠ low t' → 0 <= devices < 2 ^ 31 →
  hit (Z.land devices (not32 t)) t' = hit devices t'.
Proof.
  intros Ht Ht' Hne Hd. destruct Ht' as [->|(b' & Hb' & Hl' & Hu')]; [done|].
  pose proof (land_bound 31 devices (not32 t) ltac:(lia) Hd) as Hr.
  rewrite !(hit_testbit t' b') by done. rewrite Z.land_spec, not32_testbit by lia.
  rewrite bool_decide_eq_true_2 by lia.
  assert (Z.testbit t b' = false) as ->; [|by rewrite andb_true_r].
  destruct Ht as [->|(b & Hb & Hl & Hu)]; [by rewrite Z.bits_0|].
  rewrite (ty_testbit t b) by (done || lia). apply bool_decide_eq_false_2.
  intros ->. congruence.
Qed.

Lemma layout_ty ts t : layout ts → t ∈ ts → ty_ok t.
Proof.
  induction ts as [|t' ts IH]; [by intros _ ?%elem_of_nil|].
  intros (? & _ & _ & ?) [->|?]%elem_of_cons; auto.
Qed.

Lemma low_is_in_inj t t' :
  ty_ok t → ty_ok t' → low t = low t' → is_in t = is_in t' → t = t'.
Proof.
  intros Ht Ht' Hl Hi.
  assert (Hu : ∀ x, ty_ok x → is_u32 x) by (intros x [->|(? & _ & _ & ?)]; done).
  apply Z.bits_inj'. intros n Hn. destruct (decide (n < 31)).
  - rewrite <- (low_testbit t), <- (low_testbit t') by lia. by rewrite Hl.
  - destruct (decide (n = 31)) as [->|]; [exact Hi|].
    rewrite !u32_testbit_high by (auto || lia). done.
Qed.

Lemma ty_zero t : ty_ok t → low t = 0 → t = 0.
Proof.
  intros [->|(b & Hb & Hl & _)]; [done|]. rewrite Hl.
  pose proof (Z.pow_pos_nonneg 2 b). lia.
Qed.

(** Whether a device is hit depends on its bit alone. *)
Lemma hit_low t t' devices :
  ty_ok t → ty_ok t' → low t = low t' → 0 <= devices < 2 ^ 31 →
  hit devices t = hit devices t'.
Proof.
  intros Ht Ht' Hl Hd.
  destruct Ht as [->|(b & Hb & Hlt & _)], Ht' as [->|(b' & Hb' & Hlt' & _)]; [done|..].
  - pose proof (Z.pow_pos_nonneg 2 b'). change (low 0) with 0 in Hl. lia.
  - pose proof (Z.pow_pos_nonneg 2 b). change (low 0) with 0 in Hl. lia.
  - rewrite (hit_testbit t b), (hit_testbit t' b') by done. f_equal.
    apply (Z.pow_inj_r 2); lia || congruence.
Qed.

Lemma hit_removed t t' devices :
  ty_ok t → ty_ok t' → low t = low t' → 0 <= devices < 2 ^ 31 →
  hit (Z.land devices (not32 t)) t' = false.
Proof.
  intros Ht Ht' Hl Hd. rewrite <- (hit_low t t') by (try apply (land_bound 31); done || lia).
  unfold hit. rewrite (Z.land_comm devices), Z.land_assoc, land_not32_self. done.
Qed.

(** ** The loop over the devices *)

(** The direction flag lets the loop reach the devices of direction [dir] in
    the mask and no others: the flag of input devices is set; or it is clear,
    and an output device precedes every input device with a bit of the mask;
    or it is clear, and no output device has a bit of the mask. *)
Definition reach (flag : Z) (dir : bool) (devices : Z) (ts : list Z) : Prop :=
  flag = 2 ^ 31 ∧ dir = true
  ∨ flag = 0 ∧ dir = false ∧ (∀ t, t ∈ ts → is_in t = true → hit devices t = true →
      ∃ t', t' ∈ ts ∧ is_in t' = false ∧ low t' = low t)
  ∨ flag = 0 ∧ dir = true ∧ (∀ t, t ∈ ts → is_in t = false → hit devices t = false).

Lemma flag_match flag t :
  flag = 0 ∨ flag = 2 ^ 31 → (Z.land t flag =? flag) = (flag =? 0) || is_in t.
Proof.
  intros [->| ->]; [by rewrite Z.land_0_r|].
  change (2 ^ 31 =? 0) with false. cbn [orb]. unfold is_in.
  assert (Z.land t (2 ^ 31) = if Z.testbit t 31 then 2 ^ 31 else 0) as ->.
  { apply Z.bits_inj'. intros n Hn. rewrite Z.land_spec, Z.pow2_bits_eqb by lia.
    destruct (Z.eqb_spec 31 n) as [<-|].
    - rewrite andb_true_r. destruct (Z.testbit t 31) eqn:E; [done|by rewrite Z.bits_0].
    - rewrite andb_false_r. destruct (Z.testbit t 31); [|by rewrite Z.bits_0].
      by rewrite Z.pow2_bits_false by lia. }
  by destruct (Z.testbit t 31).
Qed.

(** At the head of the list the loop takes exactly a wanted device. *)
Lemma reach_head flag dir devices t ts :
  layout (t :: ts) → reach flag dir devices (t :: ts) →
  (Z.land t flag =? flag) && hit devices t = wanted dir devices t.
Proof.
  intros (Ht & Hn & Hin & Hl) Hr. unfold wanted.
  rewrite flag_match by (destruct Hr as [[-> _]|[[-> _]|[-> _]]]; auto).
  destruct (hit devices t) eqn:Hh; [|by rewrite andb_false_r]. rewrite andb_true_r.
  destruct Hr as [[-> ->]|[(-> & -> & Hr)|(-> & -> & Hr)]]; cbn [Z.eqb orb andb].
  - by destruct (is_in t).
  - destruct (is_in t) eqn:Hi; [|done]. exfalso.
    destruct (Hr t) as (t' & [->|Ht']%elem_of_cons & Hi' & Hlo); [by left|done|done|congruence|].
    apply Hin; [done|]. rewrite <- Hlo. by apply list_elem_of_fmap_2.
  - destruct (is_in t) eqn:Hi; [done|]. rewrite Hr in Hh; [done|by left|done].
Qed.

(** A device that is not taken leaves the rest reachable. *)
Lemma reach_skip flag dir devices t ts :
  layout (t :: ts) → 0 <= devices < 2 ^ 31 → reach flag dir devices (t :: ts) →
  wanted dir devices t = false → reach flag dir devices ts.
Proof.
  intros (Ht & Hn & Hin & Hl) Hd Hr Hw.
  destruct Hr as [Hr|[(-> & -> & Hr)|(-> & -> & Hr)]]; [by left|right; left|right; right].
  - split_and!; [done..|]. intros t1 H1 Hi1 Hh1.
    destruct (Hr t1) as (t' & [->|Ht']%elem_of_cons & Hi' & Hlo);
      [by right|done|done| |by exists t'].
    exfalso. unfold wanted in Hw. rewrite Hi', andb_true_r in Hw.
    rewrite (hit_low t t1) in Hw; [congruence|done|by eapply layout_ty|done|done].
  - split_and!; [done..|]. intros t1 H1. apply Hr. by right.
Qed.

(** So does a device that is taken, whose bit leaves the mask. *)
Lemma reach_take flag dir devices t ts :
  layout (t :: ts) → 0 <= devices < 2 ^ 31 → reach flag dir devices (t :: ts) →
  reach flag dir (Z.land devices (not32 t)) ts.
Proof.
  intros (Ht & Hn & Hin & Hl) Hd Hr.
  assert (Hmono : ∀ t1, t1 ∈ ts → hit (Z.land devices (not32 t)) t1 = true →
            hit devices t1 = true ∧ low t ≠ low t1).
  { intros t1 H1 Hh. pose proof (layout_ty _ _ Hl H1) as Ht1.
    destruct (decide (low t = low t1)) as [He|He].
    - by rewrite hit_removed in Hh.
    - by rewrite hit_remove in Hh. }
  destruct Hr as [Hr|[(-> & -> & Hr)|(-> & -> & Hr)]]; [by left|right; left|right; right].
  - split_and!; [done..|]. intros t1 H1 Hi1 Hh1.
    destruct (Hmono t1 H1 Hh1) as [Hh2 Hlo2].
    destruct (Hr t1) as (t' & [->|Ht']%elem_of_cons & Hi' & Hlo);
      [by right|done|done|congruence|by exists t'].
  - split_and!; [done..|]. intros t1 H1 Hi1.
    destruct (hit (Z.land devices (not32 t)) t1) eqn:Hh1; [|done].
    destruct (Hmono t1 H1 Hh1) as [Hh2 _]. rewrite Hr in Hh2; [done|by right|done].
Qed.

(** Taking a wanted device out of the mask does not change which of the
    others are wanted. *)
Lemma wanted_rest dir devices t ts t1 :
  layout (t :: ts) → 0 <= devices < 2 ^ 31 → wanted dir devices t = true → t1 ∈ ts →
  wanted dir (Z.land devices (not32 t)) t1 = wanted dir devices t1.
Proof.
  intros (Ht & Hn & Hin & Hl) Hd Hw H1. pose proof (layout_ty _ _ Hl H1) as Ht1.
  unfold wanted in *. destruct (decide (low t = low t1)) as [He|He]; [|by rewrite hit_remove].
  rewrite hit_removed by done. apply andb_prop in Hw as [_ Hdir%eqb_prop].
  destruct (eqb (is_in t1) dir) eqn:Hd1; [|by rewrite !andb_false_r].
  apply eqb_prop in Hd1. destruct Hn. by rewrite (low_is_in_inj t t1) by congruence.
Qed.

Section loop.
  Context {K : Type} `{!AlsaCtl K, !AudioH}.

(** Every wanted device, and no other, is stepped. *)
Definition pass (dir : bool) (devices first second : Z) : list device → list device → Prop :=
  Forall2 (λ d d', if wanted dir devices (d_type d)
                   then stepped d d' (paths_delta d first second) else d' = d).

Lemma pass_refl dir devices first second l :
  (∀ d, d ∈ l → wanted dir devices (d_type d) = false) → pass dir devices first second l l.
Proof.
  intros Hl. apply Forall2_same_length_lookup_2; [done|]. intros i x y Hx Hy.
  rewrite Hl by (by eapply list_elem_of_lookup_2). congruence.
Qed.

Lemma apply_paths_loop_step mx l flag dir devices first second :
  layout (d_type <$> l) → 0 <= devices < 2 ^ 31 →
  reach flag dir devices (d_type <$> l) →
  returns (S:=world K) (apply_paths_loop mx l flag devices first second)
    (pass dir devices first second l).
Proof.
  revert devices. induction l as [|d l IH]; intros devices Hlay Hd Hreach;
    cbn [apply_paths_loop].
  { apply returns_ret. constructor. }
  rewrite fmap_cons in Hlay, Hreach.
  destruct (Z.eqb_spec devices 0) as [->|Hnz].
  { apply returns_ret, pass_refl. intros x _. unfold wanted, hit. by rewrite Z.land_0_r. }
  pose proof (reach_head _ _ _ _ _ Hlay Hreach) as Hm.
  fold (hit devices (d_type d)) in Hm. unfold device_matches.
  fold (hit devices (d_type d)). rewrite Hm.
  destruct (wanted dir devices (d_type d)) eqn:Hw.
  - eapply returns_bind; [apply apply_paths_by_id_step|]. intros d' Hd'.
    eapply returns_bind.
    + apply IH; [by destruct Hlay as (_ & _ & _ & ?)|by apply (land_bound 31)|].
      by apply reach_take.
    + intros l' Hl'. apply returns_ret. constructor; [by rewrite Hw|].
      apply Forall2_same_length_lookup in Hl' as [Hlen Hl'].
      apply Forall2_same_length_lookup_2; [done|]. intros i x y Hx Hy.
      specialize (Hl' i x y Hx Hy). rewrite (wanted_rest _ _ _ (d_type <$> l)) in Hl'; try done.
      by eapply list_elem_of_fmap_2, list_elem_of_lookup_2.
  - eapply returns_bind.
    + apply IH; [by destruct Hlay as (_ & _ & _ & ?)|done|by eapply reach_skip].
    + intros l' Hl'. apply returns_ret. constructor; [by rewrite Hw|done].
Qed.

End loop.
