(* ===== verification/RouteInv.v ===== *)
(** * The use counts agree with the routes

    The configuration manager changes its state under [cm->lock] only, so a
    run of its clients is a sequence of operations.  This file proves that
    after every such sequence the use count of a device is the number of
    streams routed to it. *)

From S2P Require Import Prelude Kernel SoftCard Mixer ConfigData Routing RefCount.

(** ** Passes over all the devices *)

(** A device whose uses are counted has an on and an off path. *)
Definition counted (d : device) : Prop :=
  has_path d e_path_id_on = true ∧ has_path d e_path_id_off = true.

Lemma has_path_shape d d' id : same_shape d d' → has_path d' id = has_path d id.
Proof. intros [_ Hp]. unfold has_path. by rewrite Hp. Qed.

Lemma counted_shape d d' : same_shape d d' → counted d' → counted d.
Proof. intros Hs. unfold counted. by rewrite !(has_path_shape d d') by done. Qed.

(** The use counts of the counted devices changed by [f] of their type, if
    they were less than [b] away from 0. *)
Definition bumped (b : Z) (f : Z → Z) : list device → list device → Prop :=
  Forall2 (λ d d', same_shape d d' ∧
    (counted d → Z.abs (d_use_count d) < b →
     d_use_count d' = d_use_count d + f (d_type d))).

Lemma bumped_types b f l l' : bumped b f l l' → d_type <$> l' = d_type <$> l.
Proof.
  induction 1 as [|d d' l l' [[Ht _] _] _ IH]; [done|]. rewrite !fmap_cons. congruence.
Qed.

Lemma bumped_trans b f g l1 l2 l3 :
  bumped b f l1 l2 → bumped b g l2 l3 → (∀ t, -1 <= f t <= 1) →
  bumped (b - 1) (λ t, f t + g t) l1 l3.
Proof.
  intros H12 H23 Hf. revert l3 H23.
  induction H12 as [|d1 d2 l1 l2 [Hs12 H12] _ IH]; intros l3 H23; inversion H23 as [|? d3 ? l3' [Hs23 H23d] H23l]; subst.
  { constructor. }
  constructor; [|by apply IH].
  pose proof Hs12 as [Ht12 Hp12]. pose proof Hs23 as [Ht23 Hp23].
  split; [split; congruence|]. intros Hc Hb. specialize (Hf (d_type d1)).
  rewrite H23d, H12, Ht12; [lia|done|lia| |].
  - unfold counted. by rewrite !(has_path_shape d1 d2).
  - rewrite H12; [lia|done|lia].
Qed.

Lemma bumped_mono b b' f g l l' :
  bumped b f l l' → b' <= b → (∀ d, d ∈ l → f (d_type d) = g (d_type d)) →
  bumped b' g l l'.
Proof.
  intros HF Hb Hfg. apply Forall2_same_length_lookup in HF as [Hlen HF].
  apply Forall2_same_length_lookup_2; [done|]. intros i x y Hx Hy.
  destruct (HF i x y Hx Hy) as [Hs Hu]. split; [done|]. intros Hc Hsm.
  rewrite <- Hfg by (by eapply list_elem_of_lookup_2). apply Hu; [done|lia].
Qed.

Lemma bumped_refl b l : bumped b (λ _, 0) l l.
Proof.
  apply Forall2_same_length_lookup_2; [done|]. intros i x y Hx Hy.
  assert (y = x) as -> by congruence. split; [done|]. intros. lia.
Qed.

Lemma if_bound (p : Z → bool) n :
  -1 <= n <= 1 → ∀ t, -1 <= (if p t then n else 0) <= 1.
Proof. intros Hn t. destruct (p t); lia. Qed.

(** The change a pass with these two paths makes to a counted device. *)
Definition delta_is (first second n : Z) : Prop :=
  ∀ d, counted d → paths_delta d first second = n.

Lemma delta_on ep : ep ≠ e_path_id_off → delta_is e_path_id_on ep 1.
Proof.
  intros He d [Hon Hoff]. unfold paths_delta, id_delta. rewrite Hon.
  destruct (Z.eqb_spec ep e_path_id_on) as [->|Hne]; [by rewrite andb_false_r|].
  rewrite (proj2 (Z.eqb_neq ep e_path_id_off)) by done.
  by destruct (has_path d ep).
Qed.

Lemma delta_off dp : dp ≠ e_path_id_on → delta_is e_path_id_off dp (-1).
Proof.
  intros He d [Hon Hoff]. unfold paths_delta, id_delta. rewrite Hoff.
  destruct (Z.eqb_spec dp e_path_id_off) as [->|Hne]; [by rewrite andb_false_r|].
  rewrite (proj2 (Z.eqb_neq dp e_path_id_on)) by done. cbn.
  by destruct (has_path d dp).
Qed.

Lemma delta_off_second dp : dp ≠ e_path_id_on → delta_is dp e_path_id_off (-1).
Proof.
  intros He d [Hon Hoff]. unfold paths_delta, id_delta. rewrite Hoff.
  destruct (Z.eqb_spec dp e_path_id_off) as [->|Hne]; [by rewrite Hoff|].
  rewrite (proj2 (Z.eqb_neq dp e_path_id_on)) by done.
  rewrite (proj2 (Z.eqb_neq e_path_id_off dp)) by done. cbn.
  by destruct (has_path d dp).
Qed.

Lemma stepped_bump d d' first second n b :
  delta_is first second n → b <= 2 ^ 30 → stepped d d' (paths_delta d first second) →
  same_shape d d' ∧ (counted d → Z.abs (d_use_count d) < b →
    d_use_count d' = d_use_count d + n).
Proof.
  intros Hn Hb [Hs Hu]. split; [done|]. intros Hc Hsm.
  rewrite Hu, Hn; [done..|]. unfold small. lia.
Qed.

Lemma pass_bumped dir devices first second n l l' :
  delta_is first second n → pass dir devices first second l l' →
  bumped (2 ^ 30) (λ t, if wanted dir devices t then n else 0) l l'.
Proof.
  intros Hn HF. eapply Forall2_impl; [exact HF|]. intros d d'. cbn beta.
  destruct (wanted dir devices (d_type d)).
  - by apply stepped_bump.
  - intros ->. split; [done|]. intros. lia.
Qed.

Section passes.
  Context {K : Type} `{!AlsaCtl K, !AudioH, !AudioHLaws}.

Lemma low_flag devices : is_u32 devices → Z.land devices (not32 AUDIO_DEVICE_BIT_IN) = low devices.
Proof.
  intros Hd. rewrite bit_in_31. unfold low. apply Z.bits_inj'. intros n Hn.
  rewrite !Z.land_spec, not32_testbit, Z.pow2_bits_eqb by lia.
  change 0x7FFFFFFF with (Z.ones 31).
  destruct (decide (n < 31)).
  - rewrite Z.ones_spec_low, bool_decide_eq_true_2 by lia.
    by rewrite (proj2 (Z.eqb_neq 31 n)) by lia.
  - rewrite Z.ones_spec_high by lia. destruct (Z.eqb_spec 31 n) as [<-|].
    + cbn [negb]. by rewrite !andb_false_r.
    + by rewrite u32_testbit_high by (done || lia).
Qed.

Lemma flag_value devices :
  Z.land devices AUDIO_DEVICE_BIT_IN = if is_in devices then 2 ^ 31 else 0.
Proof.
  rewrite bit_in_31. unfold is_in. apply Z.bits_inj'. intros n Hn.
  rewrite Z.land_spec, Z.pow2_bits_eqb by lia. destruct (Z.eqb_spec 31 n) as [<-|].
  - rewrite andb_true_r. destruct (Z.testbit devices 31) eqn:E; [done|by rewrite Z.bits_0].
  - rewrite andb_false_r. destruct (Z.testbit devices 31); [|by rewrite Z.bits_0].
    by rewrite Z.pow2_bits_false by lia.
Qed.

Lemma low_range t : 0 <= low t < 2 ^ 31.
Proof. unfold low. rewrite Z.land_comm. apply (land_bound 31); lia. Qed.

Definition types (cm : config_mgr) : list Z := d_type <$> da_items (cm_devices cm).

(** A mask of devices of direction [dir] that the loop resolves correctly. *)
Definition mask_ok (dir : bool) (devices : Z) (ts : list Z) : Prop :=
  reach (if is_in devices then 2 ^ 31 else 0) dir (low devices) ts.

Lemma apply_paths_to_devices_bumped cm dir devices first second n :
  layout (types cm) → is_u32 devices → mask_ok dir devices (types cm) →
  delta_is first second n →
  returns (S:=world K) (apply_paths_to_devices_l cm devices first second) (λ cm',
    cm_streams cm' = cm_streams cm ∧
    bumped (2 ^ 30) (λ t, if wanted dir (low devices) t then n else 0)
      (da_items (cm_devices cm)) (da_items (cm_devices cm'))).
Proof.
  intros Hl Hd Hm Hn. unfold apply_paths_to_devices_l.
  rewrite flag_value, low_flag by done.
  eapply returns_bind; [by apply apply_paths_loop_step; [|apply low_range|]|].
  intros l' Hp. apply returns_ret. split; [done|]. by eapply pass_bumped.
Qed.

Lemma apply_global_loop_bumped mx l first second n :
  delta_is first second n → NoDup (d_type <$> l) →
  returns (S:=world K) (apply_global_loop mx l first second)
    (bumped (2 ^ 30) (λ t, if t =? 0 then n else 0) l).
Proof.
  intros Hn. induction l as [|d l IH]; cbn [apply_global_loop]; intros Hnd.
  { apply returns_ret. constructor. }
  rewrite fmap_cons, NoDup_cons in Hnd. destruct Hnd as [Hni Hnd].
  destruct (Z.eqb_spec (d_type d) 0) as [Hz|Hz].
  - eapply returns_bind; [apply apply_paths_by_id_step|]. intros d' Hd'.
    apply returns_ret. constructor.
    + rewrite Hz, Z.eqb_refl. by eapply stepped_bump.
    + apply Forall2_same_length_lookup_2; [done|]. intros i x y Hx Hy.
      assert (y = x) as -> by congruence. split; [done|]. intros _ _.
      destruct (Z.eqb_spec (d_type x) 0) as [Hy0|]; [|lia].
      destruct Hni. rewrite Hz, <- Hy0. by eapply list_elem_of_fmap_2, list_elem_of_lookup_2.
  - eapply returns_bind; [by apply IH|]. intros l' Hl'. apply returns_ret.
    constructor; [|done]. rewrite (proj2 (Z.eqb_neq _ _) Hz). split; [done|]. intros. lia.
Qed.

Lemma layout_nodup ts : layout ts → NoDup ts.
Proof.
  induction ts as [|t ts IH]; [constructor|]. intros (_ & Hn & _ & Hl).
  constructor; auto.
Qed.

Lemma apply_paths_to_global_bumped cm first second n :
  layout (types cm) → delta_is first second n →
  returns (S:=world K) (apply_paths_to_global_l cm first second) (λ cm',
    cm_streams cm' = cm_streams cm ∧
    bumped (2 ^ 30) (λ t, if t =? 0 then n else 0)
      (da_items (cm_devices cm)) (da_items (cm_devices cm'))).
Proof.
  intros Hl Hn. unfold apply_paths_to_global_l.
  eapply returns_bind; [apply apply_global_loop_bumped; [done|by apply layout_nodup]|].
  intros l' Hp. by apply returns_ret.
Qed.

End passes.

(** ** The invariant *)

Section invariant.
  Context {K : Type} `{!AlsaCtl K, !AudioH, !AudioHLaws}.

Definition dir_of (s : stream) : bool := stream_is_input (s_info s).

(** The stream uses the device of type [t]: it is routed to it, or, for the
    global device, it is open. *)
Definition uses (t : Z) (s : stream) : bool :=
  if t =? 0 then 0 <? s_ref_count s
  else wanted (dir_of s) (low (s_current_devices s)) t.

Record stream_ok (ts : list Z) (s : stream) : Prop := {
  so_ref : 0 <= s_ref_count s <= Z.max 0 (s_max_ref_count s);
  so_max : is_s32 (s_max_ref_count s);
  so_enable : s_enable_path s ≠ e_path_id_off;
  so_disable : s_disable_path s ≠ e_path_id_on;
  so_u32 : is_u32 (s_current_devices s);
  so_dir : s_current_devices s = 0 ∨ is_in (s_current_devices s) = dir_of s;
  so_mask : mask_ok (dir_of s) (s_current_devices s) ts
}.

Definition all_devices (t : Z) : Z :=
  if is_in t then Z.lor AUDIO_DEVICE_IN_ALL (2 ^ 31) else AUDIO_DEVICE_OUT_ALL.

Record cm_inv (cm : config_mgr) : Prop := {
  ci_layout : layout (types cm);
  ci_supported : Forall (λ t, within t (all_devices t)) (types cm);
  ci_size : Z.of_nat (length (da_items (cm_streams cm))) < 2 ^ 29;
  ci_streams : Forall (stream_ok (types cm)) (da_items (cm_streams cm));
  ci_counts : Forall (λ d, counted d →
      d_use_count d = count (uses (d_type d)) (da_items (cm_streams cm)))
    (da_items (cm_devices cm))
}.

(** One stream and the counts of the devices it starts or stops to use
    change together. *)
Lemma cm_inv_update cm cm' i s g f :
  cm_inv cm → get_stream_at cm i = Some s →
  da_items (cm_streams cm') = alter g i (da_items (cm_streams cm)) →
  bumped (2 ^ 29) f (da_items (cm_devices cm)) (da_items (cm_devices cm')) →
  stream_ok (types cm) (g s) →
  (∀ t, t ∈ types cm → f t = Z.b2z (uses t (g s)) - Z.b2z (uses t s)) →
  cm_inv cm'.
Proof.
  intros [Hl Hsu Hsz Hss Hc] Hs Hst Hb Hg Hf.
  assert (Hty : types cm' = types cm) by (by eapply bumped_types).
  split; rewrite ?Hty, ?Hst; [done..|by rewrite length_alter| |].
  - apply Forall_alter; [done|]. intros x Hx _. unfold get_stream_at in Hs. congruence.
  - apply Forall_lookup_2. intros j d' Hd'.
    destruct (Forall2_lookup_r _ _ _ _ _ Hb Hd') as (d & Hd & Hsh & Hu).
    intros Hcd'. pose proof (counted_shape _ _ Hsh Hcd') as Hcd.
    rewrite Forall_lookup in Hc. specialize (Hc j d Hd Hcd).
    assert (Hin : d_type d ∈ types cm)
      by (by eapply list_elem_of_fmap_2, list_elem_of_lookup_2).
    destruct Hsh as [-> _].
    pose proof (count_bounds (uses (d_type d)) (da_items (cm_streams cm))).
    rewrite (count_alter _ g i _ s) by done. rewrite Hu by (done || lia).
    rewrite Hf by done. lia.
Qed.

(** ** Masks of a request *)

Lemma hit_bit t b m :
  low t = 2 ^ b → 0 <= b < 31 → hit (low m) t = Z.testbit m b.
Proof.
  intros. rewrite (hit_testbit t b), low_testbit by (done || apply low_range). done.
Qed.

Lemma hit_sub m m' t :
  ty_ok t → (∀ n, 0 <= n < 31 → Z.testbit m n = true → Z.testbit m' n = true) →
  hit (low m) t = true → hit (low m') t = true.
Proof.
  intros [->|(b & Hb & Hl & _)] Hsub; [done|].
  rewrite !(hit_bit t b) by done. by apply Hsub.
Qed.

(** A mask with fewer devices and the same direction flag. *)
Lemma mask_sub dir m m' ts :
  layout ts → mask_ok dir m' ts → is_in m = is_in m' →
  (∀ n, 0 <= n < 31 → Z.testbit m n = true → Z.testbit m' n = true) →
  mask_ok dir m ts.
Proof.
  intros Hl Hm Hi Hsub. unfold mask_ok in *. rewrite Hi.
  destruct Hm as [Hm|[(Hfl & Hdir & Hm)|(Hfl & Hdir & Hm)]];
    [by left|right; left|right; right]; (split_and!; [done..|]); intros t Ht Hit.
  - intros Hh. apply Hm; [done..|]. eapply hit_sub; [by eapply layout_ty|done..].
  - destruct (hit (low m) t) eqn:Hh; [|done]. apply (Hm t) in Hit; [|done].
    rewrite <- Hit. symmetry. eapply hit_sub; [by eapply layout_ty|done..].
Qed.

Lemma mask_zero dir ts : mask_ok dir 0 ts.
Proof.
  right. destruct dir; [right|left]; (split_and!; [done..|]); intros t Ht Hi.
  - unfold hit, low. by rewrite Z.land_0_l, Z.land_0_r.
  - unfold hit, low. by rewrite Z.land_0_l, Z.land_0_r.
Qed.

(** A request [devices] for a stream: the devices have the stream's direction
    and are resolved by the loop, and an input stream is not moved between
    devices one of which has the bit of an output device. *)
Record request_ok (ts : list Z) (s : stream) (devices : Z) : Prop := {
  rq_u32 : is_u32 devices;
  rq_mask : mask_ok (dir_of s) devices ts;
  rq_move : dir_of s = true → s_current_devices s = 0 ∨ devices = 0 ∨
    (∀ t, t ∈ ts → is_in t = false →
       hit (low (Z.lxor devices (s_current_devices s))) t = false)
}.

Definition enabling (s : stream) (devices : Z) : Z :=
  Z.land devices (not32 (s_current_devices s)).
Definition disabling (s : stream) (devices : Z) : Z :=
  Z.land (not32 devices) (s_current_devices s).

Lemma enabling_bit s devices n : 0 <= n < 32 →
  Z.testbit (enabling s devices) n
  = Z.testbit devices n && negb (Z.testbit (s_current_devices s) n).
Proof.
  intros. unfold enabling. rewrite Z.land_spec, not32_testbit by lia.
  by rewrite bool_decide_eq_true_2 by lia.
Qed.

Lemma disabling_bit s devices n : 0 <= n < 32 →
  Z.testbit (disabling s devices) n
  = negb (Z.testbit devices n) && Z.testbit (s_current_devices s) n.
Proof.
  intros. unfold disabling. rewrite Z.land_spec, not32_testbit by lia.
  by rewrite bool_decide_eq_true_2 by lia.
Qed.

Lemma disabling_u32 s devices : is_u32 (disabling s devices).
Proof. apply land_is_u32, u32_range. Qed.

(** A mask of the bits that change, of a stream that moves between devices
    without going through the empty route. *)
Lemma mask_moved ts s devices m :
  layout ts → (∀ t, t ∈ ts → is_in t = false →
    hit (low (Z.lxor devices (s_current_devices s))) t = false) →
  (∀ n, 0 <= n < 31 → Z.testbit m n = true →
     Z.testbit (Z.lxor devices (s_current_devices s)) n = true) →
  is_in m = false → mask_ok true m ts.
Proof.
  intros Hl Hno Hsub Hi. right; right. rewrite Hi. split_and!; [done..|].
  intros t Ht Hit. destruct (hit (low m) t) eqn:Hh; [|done].
  rewrite <- (Hno t) by done. symmetry.
  eapply hit_sub; [by eapply layout_ty|done..].
Qed.

Lemma request_masks ts s devices :
  layout ts → stream_ok ts s → request_ok ts s devices →
  devices = 0 ∨ is_in devices = dir_of s →
  mask_ok (dir_of s) (enabling s devices) ts
  ∧ mask_ok (dir_of s) (disabling s devices) ts.
Proof.
  intros Hl [_ _ _ _ Hcu Hcd Hcm] [Hu Hm Hmv] Hdd.
  assert (Hen : enabling s 0 = 0) by apply Z.land_0_l.
  destruct (decide (s_current_devices s = 0)) as [Hc0|Hc0].
  { assert (enabling s devices = devices) as ->.
    { unfold enabling. rewrite Hc0. apply Z.bits_inj'. intros n Hn.
      rewrite Z.land_spec, not32_testbit, Z.bits_0, andb_true_r by done.
      case_bool_decide; [by rewrite andb_true_r|].
      rewrite (u32_testbit_high devices) by (done || lia). done. }
    assert (disabling s devices = 0) as -> by (unfold disabling; by rewrite Hc0, Z.land_0_r).
    split; [done|apply mask_zero]. }
  destruct (decide (devices = 0)) as [->|Hd0].
  { rewrite Hen. split; [apply mask_zero|]. eapply mask_sub; [done|exact Hcm|..].
    - unfold is_in. by rewrite disabling_bit, Z.bits_0 by lia.
    - intros n Hn. rewrite disabling_bit by lia. by rewrite andb_true_iff; intros [_ ?]. }
  destruct Hdd as [|Hdd]; [done|]. destruct Hcd as [|Hcd]; [done|].
  assert (Hie : is_in (enabling s devices) = false ∧ is_in (disabling s devices) = false).
  { unfold is_in in *. rewrite enabling_bit, disabling_bit, Hdd, Hcd by lia.
    by destruct (dir_of s). }
  destruct Hie as [Hie Hid].
  destruct (dir_of s) eqn:Hdir.
  - destruct (Hmv eq_refl) as [|[|Hno]]; [done..|].
    split; (eapply mask_moved; [done|exact Hno| |done]); intros n Hn; rewrite Z.lxor_spec.
    + rewrite enabling_bit by lia.
      by destruct (Z.testbit devices n), (Z.testbit (s_current_devices s) n).
    + rewrite disabling_bit by lia.
      by destruct (Z.testbit devices n), (Z.testbit (s_current_devices s) n).
  - split.
    + eapply mask_sub; [done|exact Hm|congruence|]. intros n Hn.
      rewrite enabling_bit by lia. by rewrite andb_true_iff; intros [? _].
    + eapply mask_sub; [done|exact Hcm|congruence|]. intros n Hn.
      rewrite disabling_bit by lia. by rewrite andb_true_iff; intros [_ ?].
Qed.

(** The devices [apply_route] saves are those of the request. *)
Lemma route_devices_bits info devices d' :
  is_u32 devices → route_devices info devices = Some d' →
  (devices = 0 ∨ is_in devices = stream_is_input info)
  ∧ is_u32 d' ∧ (d' = 0 ∨ is_in d' = stream_is_input info)
  ∧ (is_in d' = is_in devices)
  ∧ (∀ n, 0 <= n < 31 → Z.testbit d' n = true → Z.testbit devices n = true)
  ∧ (∀ t b, low t = 2 ^ b → 0 <= b < 31 → is_in t = is_in devices →
       within t (all_devices t) → Z.testbit d' b = Z.testbit devices b).
Proof.
  intros Hu. unfold route_devices. destruct (Z.eqb_spec devices 0) as [->|Hnz].
  { intros [= <-]. unfold is_in. rewrite Z.bits_0. split_and!; auto. }
  rewrite flag_value.
  assert (Hbit : ∀ t b all, low t = 2 ^ b → 0 <= b < 31 → within t all → Z.testbit all b = true).
  { intros t b all Hl Hb Hw. assert (Z.testbit t b = true) as Ht.
    { rewrite <- low_testbit, Hl by lia. apply Z.pow2_bits_true. lia. }
    rewrite <- Hw, Z.land_spec in Ht. by apply andb_prop in Ht as [_ ?]. }
  destruct (is_in devices) eqn:Hi; cbn [negb Z.eqb].
  - change (2 ^ 31 =? 0) with false. cbn [negb].
    destruct (stream_is_input info) eqn:Hin; [|done]. cbn [negb]. intros [= <-].
    rewrite bit_in_31.
    assert (Hi' : is_in (Z.lor (Z.land devices AUDIO_DEVICE_IN_ALL) (2 ^ 31)) = true).
    { unfold is_in. rewrite Z.lor_spec, Z.pow2_bits_true by lia. apply orb_true_r. }
    split_and!; auto.
    + unfold is_u32. pose proof (land_is_u32 devices AUDIO_DEVICE_IN_ALL Hu) as [Hlo Hhi].
      assert (Hlor : Z.lor (Z.land devices AUDIO_DEVICE_IN_ALL) (2 ^ 31)
        = u32 (Z.lor (Z.land devices AUDIO_DEVICE_IN_ALL) (2 ^ 31))).
      { apply Z.bits_inj'. intros n Hn. unfold u32, wrap. destruct (decide (n < 32)).
        - by rewrite Z.mod_pow2_bits_low by lia.
        - rewrite Z.mod_pow2_bits_high, Z.lor_spec, Z.pow2_bits_false by lia.
          by rewrite u32_testbit_high by (done || lia). }
      rewrite Hlor. apply u32_range.
    + intros n Hn. rewrite Z.lor_spec, Z.pow2_bits_false, orb_false_r, Z.land_spec by lia.
      by intros [? _]%andb_prop.
    + intros t b Hl Hb Ht Hw. rewrite Z.lor_spec, Z.pow2_bits_false, orb_false_r, Z.land_spec by lia.
      unfold all_devices in Hw. rewrite Ht in Hw.
      pose proof (Hbit t b _ Hl Hb Hw) as Hall.
      rewrite Z.lor_spec, Z.pow2_bits_false, orb_false_r in Hall by lia.
      by rewrite Hall, andb_true_r.
  - destruct (stream_is_input info) eqn:Hin; [done|]. intros [= <-].
    assert (Hi' : is_in (Z.land devices AUDIO_DEVICE_OUT_ALL) = false).
    { unfold is_in in *. by rewrite Z.land_spec, Hi. }
    split_and!; auto with width.
    + intros n Hn. rewrite Z.land_spec. by intros [? _]%andb_prop.
    + intros t b Hl Hb Ht Hw. rewrite Z.land_spec.
      unfold all_devices in Hw. rewrite Ht in Hw.
      by rewrite (Hbit t b _ Hl Hb Hw), andb_true_r.
Qed.

(** The change of the use of a device, from the masks. *)
Lemma route_delta s devices d' t :
  is_u32 devices → ty_ok t → within t (all_devices t) →
  route_devices (s_info s) devices = Some d' →
  (if wanted (dir_of s) (low (disabling s devices)) t then -1 else 0)
  + (if wanted (dir_of s) (low (enabling s devices)) t then 1 else 0)
  = Z.b2z (uses t (set_current_devices s d')) - Z.b2z (uses t s).
Proof.
  intros Hu Ht Hw Hr. unfold uses.
  destruct (Z.eqb_spec t 0) as [->|Hnz].
  { unfold wanted. rewrite !hit_zero. cbn [andb s_ref_count set_current_devices]. lia. }
  destruct (route_devices_bits _ _ _ Hu Hr) as (Hdd & _ & _ & Hid & Hsub & Hkeep).
  destruct Ht as [|(b & Hb & Hl & _)]; [done|]. unfold wanted, dir_of.
  cbn [s_current_devices s_info set_current_devices].
  rewrite !(hit_bit t b), enabling_bit, disabling_bit by (done || lia).
  destruct (eqb (is_in t) (stream_is_input (s_info s))) eqn:Hdir.
  2:{ rewrite !andb_false_r. done. }
  apply eqb_prop in Hdir. rewrite !andb_true_r.
  assert (Z.testbit d' b = Z.testbit devices b) as ->.
  { destruct Hdd as [Hz|Hdd]; [|by apply (Hkeep t); [..|congruence|]].
    destruct (Z.testbit d' b) eqn:Hb'; [|by rewrite Hz, Z.bits_0].
    symmetry. by apply Hsub. }
  by destruct (Z.testbit devices b), (Z.testbit (s_current_devices s) b).
Qed.

End invariant.

(** ** Every operation preserves the invariant *)

Section operations.
  Context {K : Type} `{!AlsaCtl K, !AudioH, !AudioHLaws}.

Lemma types_bumped cm cm' b f :
  bumped b f (da_items (cm_devices cm)) (da_items (cm_devices cm')) →
  types cm' = types cm.
Proof. apply bumped_types. Qed.

Lemma inv_stream cm i s :
  cm_inv cm → get_stream_at cm i = Some s → stream_ok (types cm) s.
Proof. intros [_ _ _ Hs _] Hi. rewrite Forall_lookup in Hs. eauto. Qed.

Lemma inv_type cm t :
  cm_inv cm → t ∈ types cm → ty_ok t ∧ within t (all_devices t).
Proof.
  intros [Hl Hs _ _ _] Ht. split; [by eapply layout_ty|].
  rewrite Forall_forall in Hs. auto.
Qed.

Lemma apply_route_inv cm i s devices :
  cm_inv cm → get_stream_at cm i = Some s →
  route_devices (s_info s) devices = None ∨ request_ok (types cm) s devices →
  returns (S:=world K) (apply_route cm i devices) cm_inv.
Proof.
  intros Hinv Hi Hrq. unfold apply_route, apply_masks_l, route_masks. rewrite Hi. cbv zeta.
  fold (enabling s devices). fold (disabling s devices).
  destruct (route_devices (s_info s) devices) as [d'|] eqn:Hr; [|by apply returns_ret].
  destruct Hrq as [|Hrq]; [done|].
  pose proof (inv_stream _ _ _ Hinv Hi) as Hok. pose proof (ci_layout _ Hinv) as Hl.
  destruct (route_devices_bits _ _ _ (rq_u32 _ _ _ Hrq) Hr)
    as (Hdd & Hu' & Hd' & Hid & Hsub & _).
  destruct (request_masks _ _ _ Hl Hok Hrq Hdd) as [Hme Hmd].
  eapply returns_bind.
  { apply (apply_paths_to_devices_bumped cm (dir_of s) _ _ _ (-1)); [done| |done|].
    - apply disabling_u32.
    - by apply delta_off_second, Hok. }
  intros cm1 [Hs1 Hb1]. eapply returns_bind.
  { apply (apply_paths_to_devices_bumped cm1 (dir_of s) _ _ _ 1).
    1, 3: by rewrite (types_bumped _ _ _ _ Hb1).
    - apply land_is_u32, Hrq.
    - apply delta_on, Hok. }
  intros cm2 [Hs2 Hb2]. apply returns_ret.
  eapply (cm_inv_update cm _ i s (λ s, set_current_devices s d')); [done|done| | | |].
  - cbn. by rewrite Hs2, Hs1.
  - eapply bumped_mono; [eapply bumped_trans; [exact Hb1|exact Hb2|]|lia|done].
    apply if_bound; lia.
  - destruct Hok as [Href Hmax Hen Hdi _ _ _]. split; [done..|].
    eapply mask_sub; [done|apply Hrq|done|done].
  - intros t Ht. destruct (inv_type cm t Hinv Ht).
    by apply route_delta; [apply Hrq|..].
Qed.

Lemma mask_current cm i s :
  cm_inv cm → get_stream_at cm i = Some s →
  mask_ok (dir_of s) (s_current_devices s) (types cm).
Proof. intros Hinv Hi. apply (inv_stream _ _ _ Hinv Hi). Qed.

Lemma open_stream_inv cm i s :
  cm_inv cm → get_stream_at cm i = Some s →
  returns (S:=world K) (open_stream_l cm i) (λ r,
    cm_inv r.2
    ∧ length (da_items (cm_streams r.2)) = length (da_items (cm_streams cm))).
Proof.
  intros Hinv Hi. unfold open_stream_l. rewrite Hi.
  destruct (Z.ltb_spec (s_ref_count s) (s_max_ref_count s)) as [Hlt|]; [|by apply returns_ret].
  pose proof (inv_stream _ _ _ Hinv Hi) as [Href Hmax Hen Hdi Hcu Hcd Hcm].
  unfold is_s32 in Hmax. rewrite s32_small by (unfold is_s32; lia). cbv zeta.
  set (g := λ s0, set_ref_count s0 (s_ref_count s + 1)).
  assert (Hg : stream_ok (types cm) (g s)).
  { split; cbn; try done. lia. }
  assert (Hlen : length (da_items (cm_streams (upd_stream i g cm)))
                 = length (da_items (cm_streams cm))) by apply length_alter.
  destruct (Z.eqb_spec (s_ref_count s + 1) 1) as [H1|H1].
  - eapply returns_bind.
    { apply (apply_paths_to_global_bumped _ _ _ 1); [apply Hinv|by apply delta_on]. }
    intros cm1 [Hs1 Hb1]. apply returns_ret. cbn [fst snd]. rewrite Hs1. split; [|done].
    eapply (cm_inv_update cm _ i s g); [done|done| | | |].
    + by rewrite Hs1.
    + eapply bumped_mono; [exact Hb1|lia|done].
    + done.
    + intros t _. unfold uses, g. destruct (Z.eqb_spec t 0).
      * cbn [s_ref_count set_ref_count].
        destruct (Z.ltb_spec 0 (s_ref_count s + 1)), (Z.ltb_spec 0 (s_ref_count s)); lia || done.
      * symmetry. apply Z.sub_diag.
  - apply returns_ret. split; [|done].
    eapply (cm_inv_update cm _ i s g (λ _, 0)); [done|done|done| | |].
    + apply bumped_refl.
    + done.
    + intros t _. unfold uses, g. destruct (Z.eqb_spec t 0); [|symmetry; apply Z.sub_diag].
      cbn [s_ref_count set_ref_count].
      destruct (Z.ltb_spec 0 (s_ref_count s + 1)), (Z.ltb_spec 0 (s_ref_count s)); lia || done.
Qed.

Lemma release_stream_inv cm i s :
  cm_inv cm → get_stream_at cm i = Some s → 0 < s_ref_count s →
  returns (S:=world K) (release_stream cm (Some i)) cm_inv.
Proof.
  intros Hinv Hi Hpos. unfold release_stream. rewrite Hi.
  pose proof (inv_stream _ _ _ Hinv Hi) as [Href Hmax Hen Hdi Hcu Hcd Hcm].
  unfold is_s32 in Hmax. rewrite s32_small by (unfold is_s32; lia). cbv zeta.
  set (g := λ s0, set_ref_count s0 (s_ref_count s - 1)).
  destruct (Z.eqb_spec (s_ref_count s - 1) 0) as [H1|H1].
  - eapply returns_bind.
    { apply (apply_paths_to_devices_bumped _ (dir_of s) _ _ _ (-1)); [apply Hinv|done|done|].
      by apply delta_off. }
    intros cm1 [Hs1 Hb1]. eapply returns_bind.
    { apply (apply_paths_to_global_bumped _ _ _ (-1)); [|by apply delta_off_second].
      unfold types. rewrite (bumped_types _ _ _ _ Hb1). apply Hinv. }
    intros cm2 [Hs2 Hb2]. apply returns_ret.
    eapply (cm_inv_update cm _ i s (λ s0, set_current_devices (g s0) 0)); [done|done| | | |].
    + cbn. rewrite Hs2, Hs1. cbn. apply list_alter_alter_eq.
    + eapply bumped_mono; [eapply bumped_trans; [exact Hb1|exact Hb2|]|lia|done].
      apply if_bound; lia.
    + split; cbn; try done; [lia|by left|apply mask_zero].
    + intros t _. unfold uses, g. destruct (Z.eqb_spec t 0) as [->|Hnz].
      * cbn [s_ref_count set_ref_count set_current_devices].
        rewrite H1. destruct (Z.ltb_spec 0 (s_ref_count s)); [|lia].
        unfold wanted. by rewrite hit_zero.
      * cbn [s_ref_count set_ref_count set_current_devices s_current_devices s_info dir_of].
        assert (∀ dir, wanted dir (low 0) t = false) as ->.
        { intros dir. unfold wanted, hit, low. by rewrite Z.land_0_l, Z.land_0_r. }
        cbn [Z.b2z]. by destruct (wanted _ _ _).
  - apply returns_ret. eapply (cm_inv_update cm _ i s g (λ _, 0)); [done|done|done| | |].
    + apply bumped_refl.
    + split; cbn; try done. lia.
    + intros t _. unfold uses, g. destruct (Z.eqb_spec t 0); [|symmetry; apply Z.sub_diag].
      cbn [s_ref_count set_ref_count].
      destruct (Z.ltb_spec 0 (s_ref_count s - 1)), (Z.ltb_spec 0 (s_ref_count s)); lia || done.
Qed.

End operations.

(** ** Runs of the clients *)

Section runs.
  Context {K : Type} `{!AlsaCtl K, !AudioH, !AudioHLaws}.

Lemma get_stream_loop_inv cm type i :
  cm_inv cm → (i <= length (da_items (cm_streams cm)))%nat →
  returns (S:=world K) (get_stream_loop cm type i) (λ r, cm_inv r.2).
Proof.
  revert cm. induction i as [|i IH]; intros cm Hinv Hi; cbn [get_stream_loop].
  { by apply returns_ret. }
  destruct (lookup_lt_is_Some_2 (da_items (cm_streams cm)) i) as [s Hs]; [lia|].
  unfold get_stream_at. rewrite Hs. case_bool_decide; [|apply IH; [done|lia]].
  eapply returns_bind; [by eapply open_stream_inv|].
  intros [ok cm'] [Hinv' Hlen]. cbn [snd] in Hinv', Hlen.
  destruct ok; [by apply returns_ret|]. apply IH; [done|lia].
Qed.

Lemma find_named_bound name i l j :
  find_named name i l = Some j → (j < i + length l)%nat.
Proof.
  revert i. induction l as [|s l IH]; intros i; cbn [find_named length]; [done|].
  case_bool_decide; [intros [= <-]; lia|]. intros ?%IH. lia.
Qed.

Lemma get_named_stream_inv cm name :
  cm_inv cm → returns (S:=world K) (get_named_stream cm name) (λ r, cm_inv r.2).
Proof.
  intros Hinv. unfold get_named_stream.
  destruct (find_named_stream cm name) as [i|] eqn:Hf; [|by apply returns_ret].
  apply find_named_bound in Hf.
  destruct (lookup_lt_is_Some_2 (da_items (cm_streams cm)) i) as [s Hs]; [done|].
  eapply returns_bind; [by eapply open_stream_inv|].
  intros [ok cm'] [Hinv' _]. by apply returns_ret.
Qed.

Lemma apply_use_case_inv cm i setting case_name :
  cm_inv cm →
  returns (S:=world K) (apply_use_case cm i setting case_name) (λ r, cm_inv r.2).
Proof.
  intros Hinv. unfold apply_use_case. destruct (get_stream_at cm i) as [s|] eqn:Hs.
  2:{ eapply returns_bind; [apply returns_true|]. intros ? _. by apply returns_ret. }
  destruct (find_use_case _ _ _ _) as [[[a b] c]|]; [|by apply returns_ret].
  eapply returns_bind; [apply returns_true|]. intros l _. apply returns_ret.
  eapply (cm_inv_update cm _ i s _ (λ _, 0)); [done|done|done| | |].
  - apply bumped_refl.
  - destruct (inv_stream _ _ _ Hinv Hs). by split.
  - intros t _. symmetry. apply Z.sub_diag.
Qed.

(** A call of the interface in src/include/tinyhal/audio_config.h. *)
Inductive op :=
  | OpGetStream (devices format : Z)
  | OpGetNamedStream (name : string)
  | OpRelease (i : nat)
  | OpRoute (i : nat) (devices : Z)
  | OpVolume (i : nat) (left_pc right_pc : Z)
  | OpUseCase (i : nat) (setting case_name : string).

Definition run_op (o : op) (cm : config_mgr) : M (world K) config_mgr :=
  match o with
  | OpGetStream devices format => r ← get_stream cm devices format; mret r.2
  | OpGetNamedStream name => r ← get_named_stream cm name; mret r.2
  | OpRelease i => release_stream cm (Some i)
  | OpRoute i devices => apply_route cm i devices
  | OpVolume i l r => _ ← set_hw_volume cm i l r; mret cm
  | OpUseCase i setting case_name => r ← apply_use_case cm i setting case_name; mret r.2
  end.

(** [apply_route] computes its masks before it takes the lock.  They depend on
    the routes of its own stream only, which no other call changes but one on
    the same stream: with the calls on a stream made one at a time, as the HAL
    makes them under the lock of its stream object, the two parts are one
    operation. *)
Definition calls_on (o : op) (i : nat) : Prop :=
  match o with OpRelease j | OpRoute j _ => j = i | _ => False end.

Definition routes (cm : config_mgr) : list Z := s_current_devices <$> da_items (cm_streams cm).

Lemma routes_upd i f cm :
  (∀ s, s_current_devices (f s) = s_current_devices s) → routes (upd_stream i f cm) = routes cm.
Proof.
  intros Hf. unfold routes. cbn. apply list_eq. intros j.
  rewrite !list_lookup_fmap. destruct (decide (i = j)) as [<-|Hne].
  - rewrite list_lookup_alter_eq. destruct (_ !! i); cbn; [by rewrite Hf|done].
  - by rewrite list_lookup_alter_ne.
Qed.

Lemma routes_upd_other i j f cm : i ≠ j → routes (upd_stream i f cm) !! j = routes cm !! j.
Proof. intros Hne. unfold routes. cbn. by rewrite !list_lookup_fmap, list_lookup_alter_ne. Qed.

Lemma devices_routes cm devices first second :
  returns (S:=world K) (apply_paths_to_devices_l cm devices first second) (λ cm', routes cm' = routes cm).
Proof.
  unfold apply_paths_to_devices_l. eapply returns_bind; [apply returns_true|]. intros l _.
  by apply returns_ret.
Qed.

Lemma global_routes cm first second :
  returns (S:=world K) (apply_paths_to_global_l cm first second) (λ cm', routes cm' = routes cm).
Proof.
  unfold apply_paths_to_global_l. eapply returns_bind; [apply returns_true|]. intros l _.
  by apply returns_ret.
Qed.

Lemma open_routes cm i :
  returns (S:=world K) (open_stream_l cm i) (λ r, routes r.2 = routes cm).
Proof.
  unfold open_stream_l. destruct (get_stream_at cm i) as [s|].
  2:{ eapply returns_bind; [apply returns_true|]. intros ? _. by apply returns_ret. }
  destruct (_ <? _); [|by apply returns_ret]. cbv zeta.
  assert (Hu : routes (upd_stream i (λ s0, set_ref_count s0 (s32 (s_ref_count s + 1))) cm) = routes cm)
    by by apply routes_upd.
  destruct (_ =? 1); [|by apply returns_ret].
  eapply returns_bind; [apply global_routes|]. intros cm' H'. apply returns_ret. cbn. congruence.
Qed.

Lemma get_stream_loop_routes cm type n :
  returns (S:=world K) (get_stream_loop cm type n) (λ r, routes r.2 = routes cm).
Proof.
  revert cm. induction n as [|n IH]; intros cm; cbn [get_stream_loop]; [by apply returns_ret|].
  destruct (get_stream_at cm n) as [s|].
  2:{ eapply returns_bind; [apply returns_true|]. intros ? _. by apply returns_ret. }
  case_bool_decide; [|apply IH].
  eapply returns_bind; [apply open_routes|]. intros [ok cm'] H'. cbn [snd] in H'.
  destruct ok; [by apply returns_ret|]. rewrite <- H'. apply IH.
Qed.

Lemma release_routes cm i j :
  i ≠ j → returns (S:=world K) (release_stream cm (Some i)) (λ cm', routes cm' !! j = routes cm !! j).
Proof.
  intros Hne. unfold release_stream. destruct (get_stream_at cm i) as [s|].
  2:{ eapply returns_bind; [apply returns_true|]. intros ? _. by apply returns_ret. }
  cbv zeta. destruct (_ =? 0); [|apply returns_ret; by apply routes_upd_other].
  eapply returns_bind; [apply devices_routes|]. intros cm1 H1.
  eapply returns_bind; [apply global_routes|]. intros cm2 H2. apply returns_ret.
  rewrite routes_upd_other, H2, H1 by done. by apply routes_upd_other.
Qed.

Lemma other_calls_keep_masks cm o i s devices (w : world K) :
  ¬ calls_on o i → get_stream_at cm i = Some s →
  ∃ s', get_stream_at (run_op o cm w).1 i = Some s' ∧ route_masks s' devices = route_masks s devices.
Proof.
  intros Ho Hs.
  enough (routes (run_op o cm w).1 !! i = routes cm !! i) as Hr.
  { unfold routes in Hr. rewrite !list_lookup_fmap in Hr. unfold get_stream_at in *. rewrite Hs in Hr. cbn in Hr.
    apply fmap_Some in Hr as (s' & Hs' & Hr). exists s'. split; [done|].
    unfold route_masks. by rewrite <- Hr. }
  clear Hs. revert w. change (returns (S:=world K) (run_op o cm) (λ cm', routes cm' !! i = routes cm !! i)).
  destruct o as [devs format|name|j|j devs|j l r|j se c]; cbn [run_op calls_on] in *.
  - eapply returns_bind; [apply get_stream_loop_routes|]. intros r Hr. apply returns_ret. by rewrite Hr.
  - unfold get_named_stream. destruct (find_named_stream cm name) as [j|]; cbn [mbind].
    2:{ by eapply returns_bind; [by apply (returns_ret _ (λ r, r = (None, cm)))|intros ? ->; apply returns_ret]. }
    eapply (returns_bind _ _ (λ r, routes r.2 = routes cm)).
    + eapply returns_bind; [apply open_routes|]. intros [ok cm'] H'. by apply returns_ret.
    + intros r Hr. apply returns_ret. by rewrite Hr.
  - by apply release_routes.
  - unfold apply_route, apply_masks_l, route_masks. destruct (get_stream_at cm j) as [s'|].
    2:{ eapply returns_bind; [apply returns_true|]. intros ? _. by apply returns_ret. }
    cbv zeta. destruct (route_devices _ _); [|by apply returns_ret].
    eapply returns_bind; [apply devices_routes|]. intros cm1 H1.
    eapply returns_bind; [apply devices_routes|]. intros cm2 H2. apply returns_ret.
    by rewrite routes_upd_other, H2, H1.
  - eapply returns_bind; [apply returns_true|]. intros ? _. by apply returns_ret.
  - unfold apply_use_case. eapply (returns_bind _ _ (λ r, routes r.2 = routes cm)).
    + destruct (get_stream_at cm j) as [s'|].
      2:{ eapply returns_bind; [apply returns_true|]. intros ? _. by apply returns_ret. }
      destruct (find_use_case _ _ _ _) as [[[a b] k]|]; [|by apply returns_ret].
      eapply returns_bind; [apply returns_true|]. intros ? _. apply returns_ret. by apply routes_upd.
    + intros r Hr. apply returns_ret. by rewrite Hr.
Qed.

(** What a client has to respect: it releases only streams it holds, and its
    routing requests are refused or resolved correctly. *)
Definition op_ok (cm : config_mgr) (o : op) : Prop :=
  match o with
  | OpRelease i => ∃ s, get_stream_at cm i = Some s ∧ 0 < s_ref_count s
  | OpRoute i devices => ∃ s, get_stream_at cm i = Some s ∧
      (route_devices (s_info s) devices = None ∨ request_ok (types cm) s devices)
  | _ => True
  end.

Lemma run_op_inv cm o :
  cm_inv cm → op_ok cm o → returns (S:=world K) (run_op o cm) cm_inv.
Proof.
  intros Hinv Hok. destruct o as [devices format|name|i|i devices|i l r|i se c];
    cbn [run_op op_ok] in *.
  - eapply returns_bind; [by apply get_stream_loop_inv|]. intros. by apply returns_ret.
  - eapply returns_bind; [by apply get_named_stream_inv|]. intros. by apply returns_ret.
  - destruct Hok as (s & Hs & Hp). by eapply release_stream_inv.
  - destruct Hok as (s & Hs & Hr). by eapply apply_route_inv.
  - eapply returns_bind; [apply returns_true|]. intros. by apply returns_ret.
  - eapply returns_bind; [by apply apply_use_case_inv|]. intros. by apply returns_ret.
Qed.

(** States of the configuration after calls from [cm0], the kernel and the
    allocator behaving in any way in each call. *)
Inductive reachable (cm0 : config_mgr) : config_mgr → Prop :=
  | reachable_start : reachable cm0 cm0
  | reachable_step cm o (w : world K) :
      reachable cm0 cm → op_ok cm o → reachable cm0 (run_op o cm w).1.

(** A configuration as the parser leaves it: no stream open or routed, no
    device in use. *)
Record fresh (cm : config_mgr) : Prop := {
  fr_layout : layout (types cm);
  fr_supported : Forall (λ t, within t (all_devices t)) (types cm);
  fr_size : Z.of_nat (length (da_items (cm_streams cm))) <= 0xFFFF;
  fr_streams : Forall (λ s, s_ref_count s = 0 ∧ s_current_devices s = 0
      ∧ is_s32 (s_max_ref_count s) ∧ s_enable_path s ≠ e_path_id_off
      ∧ s_disable_path s ≠ e_path_id_on) (da_items (cm_streams cm));
  fr_devices : Forall (λ d, d_use_count d = 0) (da_items (cm_devices cm))
}.

Lemma count_none {A} (f : A → bool) l : Forall (λ x, f x = false) l → count f l = 0.
Proof. induction 1 as [|x l Hx _ IH]; [done|]. by rewrite count_cons, Hx, IH. Qed.

Lemma fresh_inv cm : fresh cm → cm_inv cm.
Proof.
  intros [Hl Hs Hsz Hst Hd]. split; [done|done|lia| |].
  - eapply Forall_impl; [exact Hst|]. intros s (Hr & Hc & Hm & He & Hdi).
    split; rewrite ?Hr, ?Hc; try done; [lia|by left|apply mask_zero].
  - eapply Forall_impl; [exact Hd|]. intros d Hu _. rewrite Hu. symmetry.
    apply count_none. eapply Forall_impl; [exact Hst|].
    intros s (Hr & Hc & _). unfold uses, wanted, hit. rewrite Hr, Hc.
    change (low 0) with 0. rewrite Z.land_0_r. by destruct (d_type d =? 0).
Qed.

Lemma reachable_inv cm0 cm : fresh cm0 → reachable cm0 cm → cm_inv cm.
Proof.
  intros Hf. induction 1 as [|cm o w _ IH Hok]; [by apply fresh_inv|].
  by apply run_op_inv.
Qed.


End runs.

(** ** A configuration with the device layout of audio.mocha.xml *)

Definition mute_path (id : Z) : path := Path id da_empty.
Definition demo_device (t : Z) (ids : list Z) : device :=
  Device t 0 (DynArray (mute_path <$> ids) (Z.of_nat (length ids))).
Definition no_volume : stream_control := StreamControl UINT_MAX 0 0 0.
Definition demo_stream (type : stream_type) (name : option string) (max ep dp : Z) : stream :=
  Stream (HwStream type 1 0 48000 0 0) name 0 max ep dp 0 no_volume no_volume da_empty.

(** Global device, speaker, headset, headset microphone, microphone; the
    path ids 2 to 5 are on_pcm, off_pcm, on_pcm_rec and off_pcm_rec. *)
Definition demo_cm : config_mgr :=
  ConfigMgr None 0x6 0x80000014
    (DynArray [ demo_device 0 [1; 0]; demo_device 0x2 [1; 0; 2; 3];
                demo_device 0x4 [1; 0; 2; 3]; demo_device 0x80000010 [1; 0; 4; 5];
                demo_device 0x80000004 [1; 0; 4; 5] ] 5)
    (DynArray [ demo_stream e_stream_out_pcm None 1 2 3;
                demo_stream e_stream_in_pcm None 1 4 5;
                demo_stream e_stream_out_hw (Some "voice") 2 (-1) (-1) ] 3).

Definition run_ops (l : list (op)) (cm : config_mgr) : config_mgr :=
  foldl (λ cm o, (run_op o cm demo_world).1) cm l.

Definition use_counts (cm : config_mgr) : list Z := d_use_count <$> da_items (cm_devices cm).

Lemma demo_layout : layout (types demo_cm).
Proof.
  change (types demo_cm) with [0; 0x2; 0x4; 0x80000010; 0x80000004].
  assert (Hbit : ∀ b t, 0 <= b < 31 → low t = 2 ^ b → is_u32 t → ty_ok t)
    by (intros b t ???; right; by exists b).
  cbn [layout]. split_and!; try by_decide.
  - by left.
  - by apply (Hbit 1).
  - by apply (Hbit 2).
  - by apply (Hbit 4).
  - by apply (Hbit 2).
Qed.

Lemma demo_fresh : fresh demo_cm.
Proof.
  split; [apply demo_layout|repeat constructor|done|..].
  - repeat constructor; vm_compute; congruence.
  - repeat constructor.
Qed.

(** Opens the output stream and routes it to speaker and headset, then opens
    the input stream and routes it to the microphone. *)
Definition demo_open : config_mgr := run_ops [OpGetStream 0x2 0] demo_cm.
Definition demo_playing : config_mgr := run_ops [OpRoute 0 0x6] demo_open.
Definition demo_recording : config_mgr := run_ops [OpGetStream 0x80000004 0] demo_playing.
Definition demo_both : config_mgr := run_ops [OpRoute 1 0x80000004] demo_recording.

Lemma mask_ok_eval dir devices ts :
  bool_decide (is_in devices = true ∧ dir = true
   ∨ is_in devices = false ∧ dir = false ∧
     Forall (λ t, is_in t = true → hit (low devices) t = true →
       Exists (λ t', is_in t' = false ∧ low t' = low t) ts) ts) = true →
  mask_ok dir devices ts.
Proof.
  intros [[Hi ->]|(Hi & -> & HF)]%bool_decide_eq_true; unfold mask_ok; rewrite Hi; [by left|].
  right; left. split_and!; [done..|]. rewrite Forall_forall in HF. intros t Ht Hit Hh.
  by apply Exists_exists, HF.
Qed.


(** Moving an input stream from the microphone straight to the headset
    microphone loses the direction bit: the headset output, whose type shares
    a bit with the microphone, is counted down and off while a playback stream
    is routed to it, and the microphone stays counted as in use. *)
Theorem input_move_switches_off_output :
  let cm := run_ops [OpRoute 1 0x80000010] demo_both in
  use_counts cm = [2; 1; 0; 1; 1]
  ∧ (s_current_devices <$> da_items (cm_streams cm)) = [0x6; 0x80000010; 0]
  ∧ (λ d, count (uses (d_type d)) (da_items (cm_streams cm)))
      <$> da_items (cm_devices cm) = [2; 1; 1; 1; 0].
Proof. split_and!; vm_compute; reflexivity. Qed.
