(* ===== verification/RoutingFacts.v ===== *)
(** * Safety of the routing layer

    No call of the configuration manager's interface executes undefined
    behaviour: every access to the union of a control reads the member stored
    there, and every byte array stays inside its bounds. *)

From S2P Require Import Prelude Kernel SoftCard Mixer MixerFacts ConfigData CStrings.
From S2P Require Import Routing RefCount RouteInv.

(** ** Value accesses of the mixer *)

(** The element count fits the value union, as in every ALSA driver. *)
Definition info_sized (i : snd_ctl_elem_info) : Prop :=
  0 <= ei_count i
  ∧ (if ei_type i =? SNDRV_CTL_ELEM_TYPE_BYTES then ei_count i <= 512 else ei_count i <= 128).

Definition ctl_sized (c : mixer_ctl) : Prop := info_sized (mc_info c).

Record mixer_ok (m : mixer) : Prop := {
  mo_numbered : numbered m;
  mo_count : mx_count m = Z.of_nat (length (mx_ctl m));
  mo_u32 : is_u32 (mx_count m);
  mo_enums : Forall enum_ready (mx_ctl m);
  mo_sized : Forall ctl_sized (mx_ctl m)
}.

(** ALSA numbers the controls of a card from 1 on; the list leaves out none, as
    long as no control has been removed, and a description carries the number
    asked for and a count that fits. *)
Class CardLaws (K : Type) `{!AlsaCtl K} : Prop := {
  list_numids fd offset space k i x :
    0 <= offset → (ioctl_elem_list fd offset space k).1.2.2 !! i = Some x →
    x = offset + Z.of_nat i + 1;
  info_numid fd numid item k :
    0 <= (ioctl_elem_info fd numid item k).1.1 →
    1 <= numid ∧ ei_numid (ioctl_elem_info fd numid item k).1.2 = numid
    ∧ info_sized (ioctl_elem_info fd numid item k).1.2
}.

#[export] Instance soft_card_laws : CardLaws soft_card.
Proof.
  split; cbn.
  - intros _ offset space k i x Ho Hl.
    rewrite lookup_take in Hl. destruct (decide _); [|done].
    rewrite lookup_drop in Hl. apply lookup_seqZ in Hl as [-> _]. lia.
  - intros _ numid item k. unfold numid_of.
    destruct (Z.ltb_spec numid 1); [cbn; errno_lia|].
    destruct (sd_ctls k !! _) as [c|]; cbn; [|errno_lia].
    intros _. split_and!; [lia|done|]. unfold info_sized. cbn.
    destruct (_ =? _); lia.
Qed.

(** What a card that keeps the laws gives [mixer_open]. *)
Lemma mixer_open_mixer_ok {K} `{!AlsaCtl K, !AlsaCtlLaws K, !CardLaws K} card :
  yields (K:=K) (mixer_open card) (λ r, ∀ m, r = Some m → mixer_ok m).
Proof.
  eapply yields_post.
  - eapply (mixer_open_ok (λ i ei, ei_numid ei = Z.of_nat i + 1 ∧ info_sized ei)).
    intros fd space k0 i k. cbv zeta. intros Hr.
    destruct (info_numid _ _ _ _ Hr) as (Hpos & Hnum & Hs). split; [|done].
    rewrite Hnum. destruct (_ !! i) as [x|] eqn:Hi; cbn in *; [|lia].
    apply list_numids in Hi; lia.
  - intros r Hr m ->. destruct (Hr m eq_refl) as (_ & Hc & Hu & Hall).
    split; [|done|done| |].
    + intros i c Hi. apply (Hall i c Hi).
    + apply Forall_lookup_2. intros i c Hi. apply (Hall i c Hi).
    + apply Forall_lookup_2. intros i c Hi. apply (Hall i c Hi).
Qed.

Section mixer_access.
  Context {K : Type} `{!AlsaCtl K}.

Lemma yields_sys_any {A} (m : M K A) : yields (sys m) (λ _, True).
Proof. apply yields_sys_true. Qed.

Lemma set_value_safe c id v :
  ctl_sized c → yields (K:=K) (mixer_ctl_set_value (Some c) id v) (λ _, True).
Proof.
  intros [_ Hs]. unfold mixer_ctl_set_value. cbv zeta.
  apply yields_if; intros Hid; [by apply yields_ret|]. apply Z.leb_gt in Hid.
  eapply yields_bind; [apply yields_sys_true|intros [ret ev] _].
  assert (H32 : ∀ x, ei_count (mc_info c) <= 128 → yields (K:=K)
    (_ ← check (id <? 128) OutOfBounds; sys (ioctl_elem_write (mc_fd c)
       (ElemValue (ev_numid ev) (wr32 (ev_bytes ev) (long_off id) x)))) (λ _, True)).
  { intros x Hle. yields_step; [apply Z.ltb_lt; lia|]. apply yields_sys_true. }
  apply yields_if; intros; [by apply yields_ret|].
  apply yields_if; intros Ht1.
  { apply Z.eqb_eq in Ht1. rewrite Ht1 in Hs. by apply H32. }
  apply yields_if; intros Ht2.
  { apply yields_if; intros; [by apply yields_ret|].
    apply Z.eqb_eq in Ht2. rewrite Ht2 in Hs. by apply H32. }
  apply yields_if; intros Ht3.
  { apply Z.eqb_eq in Ht3. rewrite Ht3 in Hs. by apply H32. }
  apply yields_if; intros Ht4; [|by apply yields_ret].
  rewrite Ht4 in Hs. yields_step; [apply Z.ltb_lt; lia|]. apply yields_sys_true.
Qed.

Lemma array_size_ok c size n :
  ctl_sized c → array_elem_size (mc_info c) = Some size → n <= ei_count (mc_info c) →
  1 <= size ∧ size * n <= 512.
Proof.
  intros [_ Hs] Hsz Hn. unfold array_elem_size in Hsz.
  destruct (Z.eqb_spec (ei_type (mc_info c)) SNDRV_CTL_ELEM_TYPE_BYTES) as [->|].
  - cbn in Hsz. simplify_eq. lia.
  - destruct (_ || _); simplify_eq. lia.
Qed.

Lemma get_array_safe c n :
  ctl_sized c → yields (K:=K) (mixer_ctl_get_array (Some c) n) (λ _, True).
Proof.
  intros Hs. unfold mixer_ctl_get_array. cbv zeta.
  apply yields_if; intros Hn; [by apply yields_ret|].
  apply orb_false_iff in Hn as [Hn%Z.ltb_ge _].
  eapply yields_bind; [apply yields_sys_true|intros [ret ev] _].
  apply yields_if; intros; [by apply yields_ret|].
  destruct (array_elem_size (mc_info c)) as [size|] eqn:Hsz; [|by apply yields_ret].
  yields_step; [|by apply yields_ret]. apply Z.leb_le. by eapply array_size_ok.
Qed.

Lemma set_array_safe c src n :
  ctl_sized c →
  (∀ size, array_elem_size (mc_info c) = Some size → size * n <= Z.of_nat (length src)) →
  yields (K:=K) (mixer_ctl_set_array (Some c) (Some src) n) (λ _, True).
Proof.
  intros Hs Hlen. unfold mixer_ctl_set_array. cbv zeta.
  apply yields_if; intros Hn; [by apply yields_ret|].
  apply orb_false_iff in Hn as [Hn%Z.ltb_ge _].
  destruct (array_elem_size (mc_info c)) as [size|] eqn:Hsz; [|by apply yields_ret].
  yields_step; [|apply yields_sys_true]. apply andb_true_iff.
  split; apply Z.leb_le; [by eapply array_size_ok|by apply Hlen].
Qed.

Lemma set_enum_loop_safe c str todo i names :
  mc_ename c = Some names → (i + todo <= length names)%nat →
  (∀ j, (j < length names)%nat → ∃ s, names !! j = Some (Some s)) →
  yields (K:=K) (set_enum_loop c str todo i) (λ _, True).
Proof.
  intros Hn. revert i. induction todo as [|todo IH]; intros i Hi Hall;
    cbn [set_enum_loop]; [by apply yields_ret|].
  destruct (Hall i) as [s Hs]; [lia|]. rewrite Hn. cbn [mbind option_bind]. rewrite Hs.
  apply yields_if; intros; [|apply IH; [lia|done]].
  eapply yields_bind; [apply yields_sys_true|intros ret _]. by apply yields_ret.
Qed.

Lemma set_enum_safe c str :
  enum_ready c → yields (K:=K) (mixer_ctl_set_enum_by_string (Some c) str) (λ _, True).
Proof.
  intros He. unfold mixer_ctl_set_enum_by_string.
  apply yields_if; intros Ht; [by apply yields_ret|].
  apply negb_false_iff, Z.eqb_eq in Ht. destruct (He Ht) as (names & Hn & Hl & Hall).
  eapply set_enum_loop_safe; [done| |done]. lia.
Qed.

End mixer_access.

(** ** Controls *)

Lemma tokens_length l cur :
  (length (tokens cur l) <= length l + Nat.min 1 (length cur))%nat.
Proof.
  revert cur. induction l as [|c l IH]; intros cur; cbn [tokens length].
  - destruct cur; cbn; lia.
  - case_bool_decide.
    + pose proof (IH []) as Hn. cbn in Hn. destruct cur; cbn in *; lia.
    + pose proof (IH (c :: cur)) as Hn. cbn [length] in *. lia.
Qed.

Lemma length_to_chars s : length (to_chars s) = String.length s.
Proof. induction s as [|a s IH]; [done|]. cbn. by f_equal. Qed.

Lemma strtok_length s : (length (strtok_commas s) <= String.length s)%nat.
Proof.
  unfold strtok_commas. rewrite length_fmap, <- length_to_chars.
  pose proof (tokens_length (to_chars s) []) as Hn. cbn in Hn. lia.
Qed.

Lemma parse_bytes_length toks l : parse_bytes toks = inr l → length l = length toks.
Proof.
  revert l. induction toks as [|t toks IH]; intros l; cbn [parse_bytes]; [by intros [= <-]|].
  destruct (string_to_uint 0 (Some t)) as [ret v]. destruct (negb (ret =? 0)); [done|].
  destruct (parse_bytes toks) as [|l']; [done|]. intros [= <-]. cbn. by rewrite (IH l').
Qed.

(** The value of an open control is of the control's type. *)
Definition opened_value (mc : mixer_ctl) (c : ctl) : Prop :=
  match mixer_ctl_get_type (Some mc), c_value c with
  | (MIXER_CTL_TYPE_BOOL | MIXER_CTL_TYPE_INT), VUint _ => True
  | MIXER_CTL_TYPE_BYTE, VData d =>
    0 <= c_index c ∧ c_array_count c = Z.of_nat (length d)
    ∧ c_index c + c_array_count c <= mixer_ctl_get_num_values (Some mc)
  | MIXER_CTL_TYPE_ENUM, VString _ => True
  | _, _ => False
  end.

(** A control holds the string of the configuration file until it is open. *)
Definition ctl_ok (m : mixer) (c : ctl) : Prop :=
  (c_id c = UINT_MAX ∧ is_u32 (c_index c) ∧ ∃ s, c_value c = VString s ∧ short s)
  ∨ c_id c ≠ UINT_MAX ∧
    ∃ mc, mixer_get_ctl (Some m) (c_id c) = Some mc ∧ mc ∈ mx_ctl m ∧ opened_value mc c.

Section ctl_safety.
  Context {K : Type} `{!AlsaCtl K, !AudioH}.

Lemma find_ctl_id m name mc :
  mixer_ok m → find_ctl name (Z.to_nat (mx_count m)) (mx_ctl m) = Some mc →
  mc ∈ mx_ctl m ∧ mixer_ctl_get_id (Some mc) ≠ UINT_MAX
  ∧ mixer_get_ctl (Some m) (mixer_ctl_get_id (Some mc)) = Some mc.
Proof.
  intros [Hnum Hcnt Hu _ _] Hf. apply find_ctl_Some in Hf as (i & Hi & Hc & _ & _).
  pose proof (lookup_lt_Some _ _ _ Hc) as Hlt. unfold is_u32 in Hu.
  assert (Hid : mixer_ctl_get_id (Some mc) = Z.of_nat i).
  { unfold mixer_ctl_get_id. rewrite (Hnum i mc Hc). rewrite u32_small; unfold is_u32; lia. }
  rewrite Hid. split; [by eapply list_elem_of_lookup_2|]. split; [unfold UINT_MAX; lia|].
  unfold mixer_get_ctl. rewrite (proj2 (Z.ltb_lt (Z.of_nat i) _)), Nat2Z.id by lia. done.
Qed.

(** The fields the byte array conversion leaves alone, and its result. *)
Lemma make_byte_array_safe c mc s :
  c_value c = VString s → short s → is_u32 (c_index c) → ctl_sized mc →
  yields (K:=K) (make_byte_array c mc) (λ r,
    c_id r.2 = c_id c ∧ c_index r.2 = c_index c
    ∧ (r.1 ≠ 0 ∧ c_value r.2 = VString s
       ∨ r.1 = 0 ∧ ∃ d, c_value r.2 = VData d ∧ c_array_count r.2 = Z.of_nat (length d)
           ∧ c_index c + Z.of_nat (length d) <= mixer_ctl_get_num_values (Some mc))).
Proof.
  intros Hv Hs Hu [Hc0 Hsz]. unfold make_byte_array, value_string. rewrite Hv.
  eapply yields_bind; [by apply (yields_ret s (λ x, x = s))|intros ? ->]. cbv zeta.
  eapply yields_bind; [apply yields_alloc|intros ok _].
  assert (Hfail : ∀ e c', e ≠ 0 → c_id c' = c_id c → c_index c' = c_index c →
    c_value c' = VString s → yields (K:=K) (mret (e, c')) (λ r,
      c_id r.2 = c_id c ∧ c_index r.2 = c_index c
      ∧ (r.1 ≠ 0 ∧ c_value r.2 = VString s
         ∨ r.1 = 0 ∧ ∃ d, c_value r.2 = VData d ∧ c_array_count r.2 = Z.of_nat (length d)
             ∧ c_index c + Z.of_nat (length d) <= mixer_ctl_get_num_values (Some mc)))).
  { intros. apply yields_ret. cbn [fst snd]. auto. }
  apply yields_if; intros; [by apply Hfail|].
  apply yields_if; intros; [by apply Hfail|].
  apply yields_if; intros Hidx; [by apply Hfail|]. apply Z.leb_gt in Hidx.
  apply yields_if; intros Hov; [by apply Hfail|]. apply Z.ltb_ge in Hov.
  eapply yields_bind; [apply yields_alloc|intros ok' _].
  apply yields_if; intros; [by apply Hfail|].
  destruct (parse_bytes (strtok_commas s)) as [e|d] eqn:Hp.
  - apply Hfail; try done. intros ->. clear -Hp. exfalso.
    induction (strtok_commas s) as [|t l IH]; cbn [parse_bytes] in Hp; [done|].
    destruct (string_to_uint 0 (Some t)) as [ret v].
    destruct (Z.eqb_spec ret 0); cbn [negb] in Hp; [|congruence].
    destruct (parse_bytes l); [|done]. apply IH. congruence.
  - apply yields_ret. cbn [fst snd c_id c_index c_value c_array_count set_c_value set_c_array_count].
    apply parse_bytes_length in Hp as Hl. pose proof (strtok_length s) as Hle.
    unfold short, mixer_ctl_get_num_values in *.
    assert (Hc512 : ei_count (mc_info mc) <= 512) by (destruct (_ =? _) in Hsz; lia).
    rewrite u32_small in Hov by (unfold is_u32 in *; lia).
    split_and!; [done..|]. right. split; [done|]. exists d. rewrite Hl. done.
Qed.

Lemma ctl_open_safe m c :
  mixer_ok m → ctl_ok m c →
  yields (K:=K) (ctl_open (Some m) c) (λ r,
    ctl_ok m r.2 ∧ (r.1 = 0 → c_id r.2 ≠ UINT_MAX)).
Proof.
  intros Hm Hc. unfold ctl_open.
  destruct Hc as [(Hid & Hix & s & Hv & Hs)|(Hid & mc & Hmc)].
  2:{ rewrite (proj2 (Z.eqb_neq _ _) Hid). apply yields_ret. split; [|done].
      right. split; [done|]. by exists mc. }
  rewrite Hid. cbn [negb]. change (UINT_MAX =? UINT_MAX) with true. cbn [negb].
  unfold mixer_get_ctl_by_name.
  set (f := find_ctl (c_name c) (Z.to_nat (mx_count m)) (mx_ctl m)).
  eapply yields_bind; [by apply (yields_ret f (λ x, x = f))|intros ? ->].
  eapply (yields_bind _ _ (λ x, x = f)).
  { destruct f as [mc|] eqn:Hf; by apply yields_ret. }
  intros ? ->. assert (Hun : ∀ e c', e ≠ 0 → c_id c' = UINT_MAX → is_u32 (c_index c') →
    c_value c' = VString s → yields (K:=K) (mret (e, c'))
      (λ r, ctl_ok m r.2 ∧ (r.1 = 0 → c_id r.2 ≠ UINT_MAX))).
  { intros. apply yields_ret. split; [|done]. left. eauto. }
  destruct f as [mc|] eqn:Hf; [|by apply Hun].
  destruct (find_ctl_id _ _ _ Hm Hf) as (Hin & Hne & Hget).
  assert (Hop : ∀ c', opened_value mc c' → yields (K:=K)
    (mret (0, set_c_opened c' (mixer_ctl_get_type (Some mc)) (mixer_ctl_get_id (Some mc))))
      (λ r, ctl_ok m r.2 ∧ (r.1 = 0 → c_id r.2 ≠ UINT_MAX))).
  { intros c' Hc'. apply yields_ret. cbn [fst snd]. split; [|done]. right.
    split; [done|]. exists mc. split_and!; done. }
  cbv zeta. destruct (mixer_ctl_get_type (Some mc)) eqn:Ht.
  - unfold value_string. rewrite Hv.
    eapply yields_bind; [by apply (yields_ret s (λ x, x = s))|intros ? ->].
    destruct (string_to_uint 0 (Some s)) as [ret v].
    apply yields_if; intros; [by apply Hun|]. apply Hop. unfold opened_value. by rewrite Ht.
  - unfold value_string. rewrite Hv.
    eapply yields_bind; [by apply (yields_ret s (λ x, x = s))|intros ? ->].
    destruct (string_to_uint 0 (Some s)) as [ret v].
    apply yields_if; intros; [by apply Hun|]. apply Hop. unfold opened_value. by rewrite Ht.
  - apply Hop. unfold opened_value. by rewrite Ht, Hv.
  - set (c0 := if c_index c =? INVALID_CTL_INDEX then set_c_index c 0 else c).
    assert (Hc0 : c_value c0 = VString s ∧ is_u32 (c_index c0) ∧ c_id c0 = UINT_MAX).
    { unfold c0. destruct (c_index c =? INVALID_CTL_INDEX); [|done]. cbn. done. }
    destruct Hc0 as (Hv0 & Hix0 & Hid0).
    eapply yields_bind.
    { eapply make_byte_array_safe; [done..|].
      pose proof (mo_sized _ Hm) as Hsz. rewrite Forall_forall in Hsz. by apply Hsz. }
    intros [ret c'] (Hid' & Hix' & Hr). cbn [fst snd] in *.
    destruct Hr as [[Hr Hv']|(-> & d & Hv' & Hcnt & Hle)].
    + rewrite (proj2 (Z.eqb_neq _ _) Hr). apply Hun; congruence.
    + apply Hop. unfold opened_value. rewrite Ht, Hv', Hix'.
      split_and!; [apply Hix0|done|lia].
  - by apply Hun.
  - by apply Hun.
  - by apply Hun.
Qed.

End ctl_safety.

(** ** Applying controls *)

Definition path_ok (m : mixer) (p : path) : Prop := Forall (ctl_ok m) (da_items (p_ctls p)).
Definition device_ok (m : mixer) (d : device) : Prop :=
  Forall (path_ok m) (da_items (d_paths d)).
Definition case_ok (m : mixer) (c : scase) : Prop := Forall (ctl_ok m) (da_items (sc_ctls c)).
Definition usecase_ok (m : mixer) (u : usecase) : Prop :=
  Forall (case_ok m) (da_items (uc_cases u)).
Definition usecases_ok (m : mixer) (s : stream) : Prop :=
  Forall (usecase_ok m) (da_items (s_usecases s)).

(** The configuration's mixer is open and its controls are in order. *)
Record cm_ok (m : mixer) (cm : config_mgr) : Prop := {
  co_mixer : cm_mixer cm = Some m;
  co_mixer_ok : mixer_ok m;
  co_devices : Forall (device_ok m) (da_items (cm_devices cm));
  co_streams : Forall (usecases_ok m) (da_items (cm_streams cm))
}.

Section apply_safety.
  Context {K : Type} `{!AlsaCtl K, !AudioH}.
  Variable m : mixer.
  Hypothesis Hm : mixer_ok m.

Lemma set_all_values_safe mc todo vnum v :
  ctl_sized mc → yields (K:=K) (set_all_values (Some mc) todo vnum v) (λ _, True).
Proof.
  intros Hs. revert vnum. induction todo as [|todo IH]; intros vnum; cbn [set_all_values];
    [by apply yields_ret|].
  eapply yields_bind; [by apply set_value_safe|intros err _].
  apply yields_if; intros; [by apply yields_ret|apply IH].
Qed.

(** The read-modify-write of a byte control stays in its buffer. *)
Lemma apply_bytes_safe mc c d :
  mixer_ctl_get_type (Some mc) = MIXER_CTL_TYPE_BYTE → ctl_sized mc →
  c_value c = VData d → 0 <= c_index c → c_array_count c = Z.of_nat (length d) →
  c_index c + c_array_count c <= mixer_ctl_get_num_values (Some mc) →
  mixer_get_ctl (Some m) (c_id c) = Some mc →
  yields (K:=K) (apply_ctl (Some m) c) (λ _, True).
Proof.
  intros Ht Hs Hv Hi Hn Hle Hget. unfold apply_ctl. rewrite Hget. cbv zeta. rewrite Ht.
  unfold value_data. rewrite Hv.
  eapply yields_bind; [by apply (yields_ret d (λ x, x = d))|intros ? ->].
  assert (Hsize : array_elem_size (mc_info mc) = Some 1 ∧ ei_count (mc_info mc) <= 512).
  { unfold mixer_ctl_get_type in Ht. unfold array_elem_size. destruct Hs as [_ Hs].
    destruct (Z.eqb_spec (ei_type (mc_info mc)) SNDRV_CTL_ELEM_TYPE_BOOLEAN); [done|].
    destruct (Z.eqb_spec (ei_type (mc_info mc)) SNDRV_CTL_ELEM_TYPE_INTEGER); [done|].
    destruct (Z.eqb_spec (ei_type (mc_info mc)) SNDRV_CTL_ELEM_TYPE_ENUMERATED); [done|].
    destruct (Z.eqb_spec (ei_type (mc_info mc)) SNDRV_CTL_ELEM_TYPE_BYTES); [done|].
    by repeat (destruct (_ =? _)). }
  destruct Hsize as [Hsize H512]. unfold mixer_ctl_get_num_values in *.
  apply yields_if; intros Hwhole.
  - apply set_array_safe; [done|]. intros size Hsz. rewrite Hsize in Hsz. simplify_eq. lia.
  - eapply yields_bind; [by apply get_array_safe|intros [err bytes] _].
    apply yields_if; intros; [by apply yields_ret|].
    yields_step; [apply andb_true_iff; unfold BYTE_ARRAY_MAX_SIZE; split; apply Z.leb_le; lia|].
    apply set_array_safe; [done|]. intros size Hsz. rewrite Hsize in Hsz. simplify_eq.
    rewrite splice_length; rewrite length_resize; unfold BYTE_ARRAY_MAX_SIZE in *; [lia|].
    rewrite length_take. lia.
Qed.

Lemma apply_ctl_safe c :
  ctl_ok m c → c_id c ≠ UINT_MAX → yields (K:=K) (apply_ctl (Some m) c) (λ _, True).
Proof.
  intros [(Hid & _)|(_ & mc & Hget & Hin & Hop)] Hne; [done|].
  pose proof (mo_sized _ Hm) as Hsz. rewrite Forall_forall in Hsz. specialize (Hsz mc Hin).
  pose proof (mo_enums _ Hm) as Hen. rewrite Forall_forall in Hen. specialize (Hen mc Hin).
  unfold opened_value in Hop.
  destruct (mixer_ctl_get_type (Some mc)) eqn:Ht; destruct (c_value c) as [n|d|s] eqn:Hv;
    try done.
  4:{ destruct Hop as (? & ? & ?). by eapply apply_bytes_safe. }
  all: unfold apply_ctl; rewrite Hget; cbv zeta; rewrite Ht.
  1, 2: unfold value_uinteger; rewrite Hv;
    (eapply yields_bind; [by apply (yields_ret n (λ x, x = n))|intros ? ->]);
    (apply yields_if; intros; [by apply set_all_values_safe|by apply set_value_safe]).
  unfold value_string. rewrite Hv.
  eapply yields_bind; [by apply (yields_ret s (λ x, x = s))|intros ? ->].
  by apply set_enum_safe.
Qed.

Lemma apply_ctls_l_safe l :
  Forall (ctl_ok m) l → yields (K:=K) (apply_ctls_l (Some m) l) (Forall (ctl_ok m)).
Proof.
  induction 1 as [|c l Hc Hl IH]; cbn [apply_ctls_l]; [by apply yields_ret|].
  eapply yields_bind; [by apply ctl_open_safe|]. intros [ret c'] [Hc' Hid].
  cbn [fst snd] in Hc', Hid. apply yields_if; intros Hret.
  { apply yields_ret. by constructor. }
  apply negb_false_iff, Z.eqb_eq in Hret.
  eapply yields_bind; [apply apply_ctl_safe; auto|intros _ _].
  eapply yields_bind; [apply IH|]. intros l' Hl'. apply yields_ret. by constructor.
Qed.

Lemma apply_path_at_safe d i p :
  device_ok m d → path_ok m p → yields (K:=K) (apply_path_at (Some m) d i p) (device_ok m).
Proof.
  intros Hd Hp. unfold apply_path_at, apply_path_l.
  eapply (yields_bind _ _ (path_ok m)).
  { eapply yields_bind; [by apply apply_ctls_l_safe|]. intros l Hl. by apply yields_ret. }
  intros p' Hp'. apply yields_ret. unfold device_ok. cbn.
  by apply Forall_alter.
Qed.

Lemma apply_found_safe d f :
  device_ok m d → (∀ i p, f = Some (i, p) → path_ok m p) →
  yields (K:=K) (apply_found (Some m) d f) (device_ok m).
Proof.
  intros Hd Hf. destruct f as [[i p]|]; cbn [apply_found]; [|by apply yields_ret].
  specialize (Hf i p eq_refl). unfold apply_device_path_l. cbv zeta.
  apply yields_if; intros.
  { apply yields_if; intros; [by apply yields_ret|by apply apply_path_at_safe]. }
  apply yields_if; intros; [|by apply apply_path_at_safe].
  apply yields_if; intros; [by apply yields_ret|by apply apply_path_at_safe].
Qed.

Lemma found_path l id i p :
  found l 0 id None (Some (i, p)) → Forall (path_ok m) l → path_ok m p.
Proof.
  intros [[[=] _]|(j & q & [= -> ->] & Hj & _)] HF.
  rewrite Forall_lookup in HF. eauto.
Qed.

Lemma apply_paths_by_id_safe d first second :
  device_ok m d → yields (K:=K) (apply_paths_by_id_l (Some m) d first second) (device_ok m).
Proof.
  intros Hd. unfold apply_paths_by_id_l.
  pose proof (find_paths_spec first second 0 (da_items (d_paths d)) None None) as Hf.
  destruct (find_paths _ _ _ _ _ _) as [f0 f1]. cbn in Hf. destruct Hf as [Hf0 Hf1].
  eapply yields_bind.
  { apply apply_found_safe; [done|]. intros i p ->. by eapply found_path. }
  intros d1 Hd1. apply apply_found_safe; [done|]. intros i p ->.
  destruct (second =? first); [done|]. by eapply found_path.
Qed.

Lemma apply_paths_loop_safe l flag devices first second :
  Forall (device_ok m) l →
  yields (K:=K) (apply_paths_loop (Some m) l flag devices first second) (Forall (device_ok m)).
Proof.
  intros HF. revert devices. induction HF as [|d l Hd Hl IH]; intros devices;
    cbn [apply_paths_loop]; [by apply yields_ret|].
  apply yields_if; intros; [apply yields_ret; by constructor|].
  apply yields_if; intros.
  - eapply yields_bind; [by apply apply_paths_by_id_safe|intros d' Hd'].
    eapply yields_bind; [apply IH|intros l' Hl']. apply yields_ret. by constructor.
  - eapply yields_bind; [apply IH|intros l' Hl']. apply yields_ret. by constructor.
Qed.

Lemma apply_global_loop_safe l first second :
  Forall (device_ok m) l →
  yields (K:=K) (apply_global_loop (Some m) l first second) (Forall (device_ok m)).
Proof.
  induction 1 as [|d l Hd Hl IH]; cbn [apply_global_loop]; [by apply yields_ret|].
  apply yields_if; intros.
  - eapply yields_bind; [by apply apply_paths_by_id_safe|intros d' Hd'].
    apply yields_ret. by constructor.
  - eapply yields_bind; [apply IH|intros l' Hl']. apply yields_ret. by constructor.
Qed.

End apply_safety.

(** ** The calls of the interface *)

Section call_safety.
  Context {K : Type} `{!AlsaCtl K, !AudioH}.
  Variable m : mixer.

(** The configuration stays in order, with the same streams up to their state. *)
Definition kept (cm cm' : config_mgr) : Prop :=
  cm_ok m cm' ∧ length (da_items (cm_streams cm')) = length (da_items (cm_streams cm)).

Lemma kept_refl cm : cm_ok m cm → kept cm cm.
Proof. done. Qed.

Lemma apply_paths_to_devices_safe cm devices first second :
  cm_ok m cm → yields (K:=K) (apply_paths_to_devices_l cm devices first second) (kept cm).
Proof.
  intros [Hx Hm Hd Hs]. unfold apply_paths_to_devices_l. rewrite Hx.
  eapply yields_bind; [by apply apply_paths_loop_safe|]. intros l Hl.
  apply yields_ret. by split.
Qed.

Lemma apply_paths_to_global_safe cm first second :
  cm_ok m cm → yields (K:=K) (apply_paths_to_global_l cm first second) (kept cm).
Proof.
  intros [Hx Hm Hd Hs]. unfold apply_paths_to_global_l. rewrite Hx.
  eapply yields_bind; [by apply apply_global_loop_safe|]. intros l Hl.
  apply yields_ret. by split.
Qed.

Lemma upd_stream_kept cm cm' i f :
  kept cm cm' → (∀ s, usecases_ok m s → usecases_ok m (f s)) → kept cm (upd_stream i f cm').
Proof.
  intros [[Hx Hm Hd Hs] Hl] Hf. split; [|by cbn; rewrite length_alter].
  split; [done..|]. cbn. apply Forall_alter; auto.
Qed.

Lemma kept_trans cm cm1 cm2 : kept cm cm1 → kept cm1 cm2 → kept cm cm2.
Proof. intros [_ Hk1] [? Hk2]. split; [done|congruence]. Qed.

Definition valid_stream (cm : config_mgr) (i : nat) : Prop :=
  (i < length (da_items (cm_streams cm)))%nat.

Lemma valid_stream_at cm i : valid_stream cm i → ∃ s, get_stream_at cm i = Some s.
Proof. apply lookup_lt_is_Some_2. Qed.

Lemma apply_route_safe cm i devices :
  cm_ok m cm → valid_stream cm i → yields (K:=K) (apply_route cm i devices) (kept cm).
Proof.
  intros Hcm [s Hs]%valid_stream_at. unfold apply_route, apply_masks_l, route_masks. rewrite Hs. cbv zeta.
  destruct (route_devices (s_info s) devices); [|by apply yields_ret].
  eapply yields_bind; [by apply apply_paths_to_devices_safe|intros cm1 Hk1].
  eapply yields_bind; [by apply apply_paths_to_devices_safe, Hk1|intros cm2 Hk2].
  apply yields_ret, upd_stream_kept; [by eapply kept_trans|done].
Qed.

Lemma open_stream_safe cm i :
  cm_ok m cm → valid_stream cm i →
  yields (K:=K) (open_stream_l cm i) (λ r, kept cm r.2).
Proof.
  intros Hcm [s Hs]%valid_stream_at. unfold open_stream_l. rewrite Hs. cbv zeta.
  apply yields_if; intros; [|by apply yields_ret].
  set (cm1 := upd_stream i _ cm).
  assert (Hk1 : kept cm cm1) by (by apply upd_stream_kept).
  apply yields_if; intros; [|by apply yields_ret].
  eapply yields_bind; [apply apply_paths_to_global_safe, Hk1|intros cm2 Hk2].
  apply yields_ret. cbn [snd]. by eapply kept_trans.
Qed.

Lemma release_stream_safe cm i :
  cm_ok m cm → valid_stream cm i → yields (K:=K) (release_stream cm (Some i)) (kept cm).
Proof.
  intros Hcm [s Hs]%valid_stream_at. unfold release_stream. rewrite Hs. cbv zeta.
  set (cm1 := upd_stream i _ cm).
  assert (Hk1 : kept cm cm1) by (by apply upd_stream_kept).
  apply yields_if; intros; [|by apply yields_ret].
  eapply yields_bind; [apply apply_paths_to_devices_safe, Hk1|intros cm2 Hk2].
  eapply yields_bind; [apply apply_paths_to_global_safe, Hk2|intros cm3 Hk3].
  apply yields_ret, upd_stream_kept; [|done].
  eapply kept_trans; [exact Hk1|]. by eapply kept_trans.
Qed.

Lemma get_stream_loop_safe cm type i :
  cm_ok m cm → (i <= length (da_items (cm_streams cm)))%nat →
  yields (K:=K) (get_stream_loop cm type i) (λ r, kept cm r.2).
Proof.
  revert cm. induction i as [|i IH]; intros cm Hcm Hi; cbn [get_stream_loop].
  { by apply yields_ret. }
  assert (Hv : valid_stream cm i) by (unfold valid_stream; lia).
  destruct (valid_stream_at cm i Hv) as [s Hs]. rewrite Hs.
  apply yields_if; intros; [|apply IH; [done|lia]].
  eapply yields_bind; [by apply open_stream_safe|]. intros [ok cm'] [Hcm' Hl].
  cbn [snd] in Hcm', Hl. apply yields_if; intros; [by apply yields_ret|].
  eapply yields_post; [apply IH; [done|lia]|]. intros r [? ?]. split; [done|congruence].
Qed.

Lemma get_named_stream_safe cm name :
  cm_ok m cm → yields (K:=K) (get_named_stream cm name) (λ r, kept cm r.2).
Proof.
  intros Hcm. unfold get_named_stream.
  destruct (find_named_stream cm name) as [i|] eqn:Hf; [|by apply yields_ret].
  apply find_named_bound in Hf.
  eapply yields_bind; [by apply open_stream_safe|]. intros [ok cm'] Hk. by apply yields_ret.
Qed.

Lemma set_vol_ctl_safe cm volctl pc :
  cm_ok m cm → yields (K:=K) (set_vol_ctl cm volctl pc) (λ _, True).
Proof.
  intros [Hx Hm _ _]. unfold set_vol_ctl. rewrite Hx.
  eapply (yields_bind _ _ (λ _, True)); [|intros; by apply yields_ret].
  unfold mixer_get_ctl. destruct (sctl_id volctl <? mx_count m); [|by apply yields_ret].
  destruct (mx_ctl m !! Z.to_nat (sctl_id volctl)) as [mc|] eqn:Hmc; [|by apply yields_ret].
  apply set_value_safe. pose proof (mo_sized _ Hm) as Hsz.
  rewrite Forall_lookup in Hsz. eauto.
Qed.

Lemma set_hw_volume_safe cm i l r :
  cm_ok m cm → valid_stream cm i → is_s32 (l + r) →
  yields (K:=K) (set_hw_volume cm i l r) (λ _, True).
Proof.
  intros Hcm [s Hs]%valid_stream_at Hlr. unfold set_hw_volume. rewrite Hs. cbv zeta.
  eapply (yields_bind _ _ (λ _, True)).
  - apply yields_if; intros; [|by apply yields_ret].
    eapply (yields_bind _ _ (λ _, True)); [|intros; by apply set_vol_ctl_safe].
    apply yields_if; intros; [by apply yields_ret|].
    eapply yields_bind; [apply yields_check; by apply bool_decide_eq_true|]. intros. by apply yields_ret.
  - intros ret _. apply yields_if; intros; [by apply set_vol_ctl_safe|by apply yields_ret].
Qed.

Lemma find_case_ok name j l k c :
  find_case name j l = Some (k, c) → Forall (case_ok m) l → case_ok m c.
Proof.
  revert j. induction l as [|c0 l IH]; intros j; cbn [find_case]; [done|].
  rewrite Forall_cons. case_bool_decide; [by intros [= _ <-] [? _]|]. intros ? [_ ?].
  by eapply IH.
Qed.

Lemma find_use_case_ok setting name i l a b c :
  find_use_case setting name i l = Some (a, b, c) → Forall (usecase_ok m) l → case_ok m c.
Proof.
  revert i. induction l as [|u l IH]; intros i; cbn [find_use_case]; [done|].
  rewrite Forall_cons. case_bool_decide; [|by intros ? [_ ?]; eapply IH].
  destruct (find_case name 0 (da_items (uc_cases u))) as [[j c0]|] eqn:Hf;
    [|by intros ? [_ ?]; eapply IH].
  intros [= _ _ <-] [? _]. by eapply find_case_ok.
Qed.

Lemma apply_use_case_safe cm i setting name :
  cm_ok m cm → valid_stream cm i →
  yields (K:=K) (apply_use_case cm i setting name) (λ r, kept cm r.2).
Proof.
  intros Hcm [s Hs]%valid_stream_at. unfold apply_use_case. rewrite Hs.
  pose proof Hcm as [Hx Hm Hd Hst].
  assert (Hus : usecases_ok m s).
  { rewrite Forall_lookup in Hst. by eapply Hst. }
  destruct (find_use_case _ _ _ _) as [[[a b] c]|] eqn:Hf; [|by apply yields_ret].
  rewrite Hx. eapply yields_bind.
  { apply apply_ctls_l_safe; [done|]. by eapply find_use_case_ok. }
  intros l Hl. apply yields_ret. cbn [snd]. apply upd_stream_kept; [done|].
  intros s0 Hs0. unfold usecases_ok, store_case_ctls. cbn.
  apply Forall_alter; [done|]. intros u _ Hu. unfold usecase_ok. cbn.
  by apply Forall_alter.
Qed.

(** The calls take the pointer of a stream of the configuration; the sum of the
    two volumes is an [int]. *)
Definition op_valid (cm : config_mgr) (o : op) : Prop :=
  match o with
  | OpRelease i | OpRoute i _ | OpUseCase i _ _ => valid_stream cm i
  | OpVolume i l r => valid_stream cm i ∧ is_s32 (l + r)
  | _ => True
  end.

Lemma run_op_safe cm o :
  cm_ok m cm → op_valid cm o → yields (K:=K) (run_op o cm) (kept cm).
Proof.
  intros Hcm Hv. destruct o as [devices format|name|i|i devices|i l r|i se c];
    cbn [run_op op_valid] in *.
  - eapply yields_bind; [by apply get_stream_loop_safe|]. intros. by apply yields_ret.
  - eapply yields_bind; [by apply get_named_stream_safe|]. intros. by apply yields_ret.
  - by apply release_stream_safe.
  - by apply apply_route_safe.
  - destruct Hv. eapply yields_bind; [by apply set_hw_volume_safe|]. intros. by apply yields_ret.
  - eapply yields_bind; [by apply apply_use_case_safe|]. intros. by apply yields_ret.
Qed.

(** no call of the interface executes undefined behaviour, whatever the
    driver answers and whichever allocation fails: controls are read through
    the union member stored in them and byte arrays stay inside their buffer.
    The configuration stays in order, so this holds for every sequence of
    calls. *)
Theorem interface_calls_safe cm o (w : world K) :
  cm_ok m cm → op_valid cm o →
  w_faults (run_op o cm w).2 = w_faults w
  ∧ cm_ok m (run_op o cm w).1
  ∧ (∀ o', op_valid cm o' → op_valid (run_op o cm w).1 o').
Proof.
  intros Hcm Hv. destruct (run_op_safe cm o Hcm Hv w) as (Hf & Hk & Hl).
  split_and!; [done..|]. unfold op_valid, valid_stream. rewrite Hl. by intros [].
Qed.

End call_safety.
