(* ===== verification/StreamFacts.v ===== *)
(** * Functional behaviour of the stream interface

    The search for paths, the choice of a stream, the volume arithmetic and
    the search for use-cases of src/configmgr/audio_config.c, against
    reference definitions. *)

From S2P Require Import Prelude Kernel SoftCard Mixer ConfigData Routing RefCount RouteInv.

(** ** The walk over the paths of a device *)

(** The first path of the list with this id, and its index. *)
Definition path_of (id : Z) (l : list path) : option (nat * path) :=
  list_find (λ p, p_id p = id) l.

Lemma found_unique l id r :
  NoDup (p_id <$> l) → found l 0 id None r → r = path_of id l.
Proof.
  intros Hnd [[-> [Hno|[? [=]]]]|(j & p & -> & Hj & Hid)]; symmetry; unfold path_of.
  - apply list_find_None, Forall_forall. intros p Hp Hid. apply Hno. rewrite <- Hid.
    by apply list_elem_of_fmap_2.
  - apply list_find_Some. split_and!; [done..|]. intros k q Hk Hlt Hq.
    assert (k = j); [|lia]. eapply NoDup_lookup; [exact Hnd| |].
    + rewrite list_lookup_fmap, Hk. cbn. by rewrite Hq.
    + rewrite list_lookup_fmap, Hj. cbn. by rewrite Hid.
Qed.

(** the single walk that looks for two paths finds what two searches of
    the list would; a path asked for twice is found once. *)
Theorem find_paths_is_two_searches first second l :
  NoDup (p_id <$> l) →
  find_paths first second 0 l None None
  = (path_of first l, if second =? first then None else path_of second l).
Proof.
  intros Hnd. pose proof (find_paths_spec first second 0 l None None) as Hf.
  destruct (find_paths first second 0 l None None) as [f0 f1]. cbn in Hf.
  destruct Hf as [Hf0 Hf1]. f_equal; [by apply found_unique|].
  destruct (second =? first); [done|by apply found_unique].
Qed.

Definition demo_paths : list path := mute_path <$> [3; 1; 0; 2].

Lemma find_paths_is_two_searches_witness :
  find_paths e_path_id_on 2 0 demo_paths None None
  = (Some (1%nat, mute_path 1), Some (3%nat, mute_path 2)).
Proof.
  rewrite (find_paths_is_two_searches e_path_id_on 2 demo_paths);
    [reflexivity|by_decide].
Defined.

(** ** Volume *)

(** A volume percentage is mapped linearly into the range of the control,
    both ends exact, when a hundred times the range fits an [unsigned]. *)
Theorem vol_value_linear v p :
  0 <= sctl_min v <= sctl_max v → sctl_max v <= UINT_MAX →
  100 * (sctl_max v - sctl_min v) <= UINT_MAX → 0 <= p <= 100 →
  vol_value v p = sctl_min v + p * (sctl_max v - sctl_min v) / 100
  ∧ sctl_min v <= vol_value v p <= sctl_max v.
Proof.
  intros Hmin Hmax Hr Hp. unfold UINT_MAX, vol_value in *.
  assert (Hb : 0 <= p * (sctl_max v - sctl_min v) / 100 <= sctl_max v - sctl_min v).
  { split; [apply Z.div_pos; nia|]. apply Z.div_le_upper_bound; nia. }
  destruct (Z.eqb_spec p 0) as [->|]; [rewrite Z.mul_0_l; change (0 / 100) with 0; lia|].
  destruct (Z.eqb_spec p 100) as [->|].
  { rewrite (Z.mul_comm 100), Z.div_mul by lia. lia. }
  rewrite (u32_small (sctl_max v - sctl_min v)) by (unfold is_u32; lia).
  rewrite (u32_small (p * _)) by (unfold is_u32; nia).
  rewrite u32_small by (unfold is_u32; lia). lia.
Qed.

Lemma vol_value_linear_witness :
  vol_value (StreamControl 0 0 0 175) 50 = 87
  ∧ 0 <= vol_value (StreamControl 0 0 0 175) 50 <= 175.
Proof.
  apply (vol_value_linear (StreamControl 0 0 0 175) 50); unfold UINT_MAX; cbn; lia.
Defined.

(** ** Choosing a stream *)

(** A stream of this type that can be opened once more. *)
Definition available (type : stream_type) (s : stream) : bool :=
  bool_decide (hw_type (s_info s) = type) && (s_ref_count s <? s_max_ref_count s).

Definition acquire (s : stream) : stream := set_ref_count s (s_ref_count s + 1).

Section choice.
  Context {K : Type} `{!AlsaCtl K, !AudioH}.

Lemma global_streams cm first second :
  returns (S:=world K) (apply_paths_to_global_l cm first second)
    (λ cm', cm_streams cm' = cm_streams cm).
Proof.
  unfold apply_paths_to_global_l. eapply returns_bind; [apply returns_true|].
  intros l _. by apply returns_ret.
Qed.

Lemma open_stream_result cm i s :
  get_stream_at cm i = Some s → is_s32 (s_ref_count s) → is_s32 (s_max_ref_count s) →
  returns (S:=world K) (open_stream_l cm i) (λ r,
    if s_ref_count s <? s_max_ref_count s
    then r.1 = true ∧ da_items (cm_streams r.2) = alter acquire i (da_items (cm_streams cm))
    else r = (false, cm)).
Proof.
  intros Hs Hr Hx. unfold open_stream_l. rewrite Hs. cbv zeta.
  destruct (Z.ltb_spec (s_ref_count s) (s_max_ref_count s)); [|by apply returns_ret].
  rewrite s32_small by (unfold is_s32 in *; lia).
  assert (Hst : da_items (cm_streams (upd_stream i
            (λ s0, set_ref_count s0 (s_ref_count s + 1)) cm))
          = alter acquire i (da_items (cm_streams cm))).
  { cbn. unfold get_stream_at in Hs. apply list_eq. intros j.
    destruct (decide (i = j)) as [<-|].
    - by rewrite !list_lookup_alter_eq, Hs.
    - by rewrite !list_lookup_alter_ne. }
  destruct (s_ref_count s + 1 =? 1).
  - eapply returns_bind; [apply global_streams|]. intros cm' Hcm'.
    apply returns_ret. cbn [fst snd]. by rewrite Hcm'.
  - by apply returns_ret.
Qed.

(** Ref counts as the invariant keeps them. *)
Definition refs_ok (cm : config_mgr) : Prop :=
  Forall (λ s, is_s32 (s_ref_count s) ∧ is_s32 (s_max_ref_count s)) (da_items (cm_streams cm)).

(** [r] is the outcome of the choice among the first [n] streams. *)
Definition chosen (type : stream_type) (n : nat) (cm : config_mgr)
  (r : option nat * config_mgr) : Prop :=
  match r.1 with
  | Some i =>
    (i < n)%nat ∧ (∃ s, get_stream_at cm i = Some s ∧ available type s = true)
    ∧ (∀ j s, (i < j < n)%nat → get_stream_at cm j = Some s → available type s = false)
    ∧ da_items (cm_streams r.2) = alter acquire i (da_items (cm_streams cm))
  | None =>
    r.2 = cm ∧ ∀ j s, (j < n)%nat → get_stream_at cm j = Some s → available type s = false
  end.

Lemma get_stream_loop_chosen cm type n :
  refs_ok cm → (n <= length (da_items (cm_streams cm)))%nat →
  returns (S:=world K) (get_stream_loop cm type n) (chosen type n cm).
Proof.
  intros Hok. induction n as [|n IH]; intros Hn; cbn [get_stream_loop].
  { apply returns_ret. split; [done|]. lia. }
  destruct (lookup_lt_is_Some_2 (da_items (cm_streams cm)) n) as [s Hs]; [lia|].
  unfold get_stream_at at 1. rewrite Hs.
  assert (Hskip : available type s = false →
    returns (S:=world K) (get_stream_loop cm type n) (chosen type (S n) cm)).
  { intros Hav. eapply returns_post; [apply IH; lia|]. intros [[i|] cm']; unfold chosen;
      cbn [fst snd].
    - intros (Hi & Hex & Hmax & Hst). split_and!; [lia|done| |done].
      intros j s' Hj Hs'. destruct (decide (j = n)) as [->|]; [|apply (Hmax j); [lia|done]].
      unfold get_stream_at in Hs'. congruence.
    - intros [-> Hmax]. split; [done|]. intros j s' Hj Hs'.
      destruct (decide (j = n)) as [->|]; [|apply (Hmax j); [lia|done]].
      unfold get_stream_at in Hs'. congruence. }
  case_bool_decide as Ht.
  2:{ apply Hskip. unfold available. by rewrite bool_decide_eq_false_2. }
  destruct (proj1 (Forall_lookup _ _) Hok _ _ Hs) as [Hr Hx].
  eapply returns_bind; [by apply (open_stream_result cm n s)|].
  intros [ok cm'] Hres. cbn [fst snd] in Hres.
  destruct (s_ref_count s <? s_max_ref_count s) eqn:Hlt.
  - destruct Hres as [-> Hst]. apply returns_ret. unfold chosen. cbn [fst snd].
    split_and!; [lia| |intros; lia|done].
    exists s. split; [done|]. unfold available. by rewrite bool_decide_eq_true_2.
  - injection Hres as -> ->. apply Hskip. unfold available. by rewrite Hlt, andb_false_r.
Qed.

(** C40: [get_stream] returns the last stream of the wanted type that is not
    at its maximum, and of the streams changes only that one, whose reference
    count it raises by one; it fails only when every stream of that type is at
    its maximum, and then changes nothing. *)
Theorem get_stream_chooses_last cm devices format (w : world K) :
  refs_ok cm →
  chosen (wanted_type devices format) (length (da_items (cm_streams cm))) cm
    (get_stream cm devices format w).1.
Proof. intros Hok. by apply get_stream_loop_chosen. Qed.

End choice.

Lemma get_stream_chooses_last_witness :
  (get_stream demo_cm 0x80000004 0 demo_world).1.1 = Some 1%nat
  ∧ chosen (wanted_type 0x80000004 0) (length (da_items (cm_streams demo_cm))) demo_cm
      (get_stream demo_cm 0x80000004 0 demo_world).1.
Proof.
  split; [vm_compute; reflexivity|].
  apply (get_stream_chooses_last (K:=soft_card) demo_cm 0x80000004 0 demo_world).
  repeat (apply Forall_cons; split; [by_decide|]). apply Forall_nil_2.
Defined.

(** ** Use-cases *)

(** The stream defines this case of this setting. *)
Definition has_case (setting name : string) (s : stream) : Prop :=
  ∃ u c, u ∈ da_items (s_usecases s) ∧ uc_name u = setting
         ∧ c ∈ da_items (uc_cases u) ∧ sc_name c = name.

Lemma find_case_iff name j l :
  is_Some (find_case name j l) ↔ ∃ c, c ∈ l ∧ sc_name c = name.
Proof.
  revert j. induction l as [|c l IH]; intros j; cbn [find_case].
  - split; [by intros [? [=]]|by intros (c & ?%elem_of_nil & _)].
  - case_bool_decide as Hc; [split; [intros _; exists c; split; [by left|done]|by eauto]|].
    rewrite IH. split; intros (c' & Hin & Hn); exists c'.
    + split; [by right|done].
    + apply elem_of_cons in Hin as [->|?]; [done|by split].
Qed.

Lemma find_use_case_iff setting name i l :
  is_Some (find_use_case setting name i l) ↔
  ∃ u c, u ∈ l ∧ uc_name u = setting ∧ c ∈ da_items (uc_cases u) ∧ sc_name c = name.
Proof.
  revert i. induction l as [|u l IH]; intros i; cbn [find_use_case].
  - split; [by intros [? [=]]|by intros (u & c & ?%elem_of_nil & _)].
  - pose proof (find_case_iff name 0 (da_items (uc_cases u))) as Hfc.
    assert (Hrest : (∃ u0 c, u0 ∈ u :: l ∧ uc_name u0 = setting
              ∧ c ∈ da_items (uc_cases u0) ∧ sc_name c = name)
        ↔ (uc_name u = setting ∧ is_Some (find_case name 0 (da_items (uc_cases u))))
          ∨ is_Some (find_use_case setting name (S i) l)).
    { rewrite IH, Hfc. split.
      - intros (u0 & c & [->|Hin]%elem_of_cons & Hn & Hc & Hcn); [left|right]; eauto 8.
      - intros [(Hn & c & Hc & Hcn)|(u0 & c & Hin & Hn & Hc & Hcn)];
          [exists u, c|exists u0, c]; (split; [|done]); by (left || right). }
    rewrite Hrest. case_bool_decide as Hn.
    + destruct (find_case name 0 (da_items (uc_cases u))) as [[j c]|].
      * split; [left; eauto|by eauto].
      * split; [by right|]. intros [[_ [? [=]]]|?]; done.
    + split; [by right|]. intros [[? _]|?]; done.
Qed.

(** [apply_use_case] succeeds exactly for the cases the stream defines;
    for any other it returns [-ENOSYS] and touches neither the configuration
    nor the hardware. *)
Theorem apply_use_case_defined {K} `{!AlsaCtl K} cm i s setting name (w : world K) :
  get_stream_at cm i = Some s →
  ((apply_use_case cm i setting name w).1.1 = 0 ↔ has_case setting name s)
  ∧ (¬ has_case setting name s → apply_use_case cm i setting name w = ((- ENOSYS, cm), w)).
Proof.
  intros Hs. unfold apply_use_case. rewrite Hs. unfold has_case.
  rewrite <- (find_use_case_iff setting name 0).
  destruct (find_use_case setting name 0 (da_items (s_usecases s))) as [[[a b] c]|].
  - split; [|intros Hno; destruct Hno; eauto].
    rewrite bind_run. cbn. split; [eauto|done].
  - split; [|done]. cbn. split; [done|by intros [? [=]]].
Qed.

Definition gain_stream : stream :=
  set_s_usecases (demo_stream e_stream_out_pcm None 1 2 3)
    (DynArray [Usecase "gain" (DynArray [Scase "high" da_empty; Scase "low" da_empty] 2)] 1).
Definition gain_cm : config_mgr :=
  ConfigMgr None 0 0 da_empty (DynArray [gain_stream] 1).

Lemma apply_use_case_defined_witness :
  ((apply_use_case gain_cm 0 "gain" "low" demo_world).1.1 = 0
   ↔ has_case "gain" "low" gain_stream)
  ∧ (apply_use_case gain_cm 0 "gain" "low" demo_world).1.1 = 0
  ∧ apply_use_case gain_cm 0 "gain" "mid" demo_world = ((- ENOSYS, gain_cm), demo_world).
Proof.
  split_and!.
  - apply (apply_use_case_defined (K:=soft_card) gain_cm 0 gain_stream "gain" "low" demo_world).
    reflexivity.
  - vm_compute. reflexivity.
  - apply (apply_use_case_defined (K:=soft_card) gain_cm 0 gain_stream "gain" "mid" demo_world);
      [reflexivity|].
    intros (u & c & Hu & _ & Hc & Hn). cbn in Hu.
    apply list_elem_of_singleton in Hu as ->. cbn in Hc.
    apply elem_of_cons in Hc as [->|Hc]; [discriminate|].
    apply list_elem_of_singleton in Hc as ->. discriminate.
Defined.
