(* ===== verification/ParseState.v ===== *)
(** * State of the configuration parser

    [struct parse_state] of src/configmgr/audio_config.c, the tables of
    elements and attributes, and the objects the handlers create. *)

From S2P Require Import Prelude Kernel Mixer ConfigData CStrings Expat.

Definition MAX_PARSE_DEPTH : Z := 6.
Definition MIXER_CARD_DEFAULT : Z := 0.
Definition PCM_CARD_DEFAULT : Z := 0.
Definition PCM_DEVICE_DEFAULT : Z := 0.
Definition COMPRESS_CARD_DEFAULT : Z := 0.
Definition COMPRESS_DEVICE_DEFAULT : Z := 0.

(** ** Elements and attributes *)

(** [enum element_index] *)
Definition e_elem_ctl : nat := 0.
Definition e_elem_path : nat := 1.
Definition e_elem_device : nat := 2.
Definition e_elem_stream : nat := 3.
Definition e_elem_enable : nat := 4.
Definition e_elem_disable : nat := 5.
Definition e_elem_case : nat := 6.
Definition e_elem_usecase : nat := 7.
Definition e_elem_stream_ctl : nat := 8.
Definition e_elem_init : nat := 9.
Definition e_elem_mixer : nat := 10.
Definition e_elem_audiohal : nat := 11.
Definition e_elem_codec_probe : nat := 12.
Definition e_elem_codec_case : nat := 13.
Definition e_elem_count : nat := 14.

(** [enum attrib_index] *)
Definition e_attrib_name : nat := 0.
Definition e_attrib_val : nat := 1.
Definition e_attrib_path : nat := 2.
Definition e_attrib_function : nat := 3.
Definition e_attrib_type : nat := 4.
Definition e_attrib_index : nat := 5.
Definition e_attrib_dir : nat := 6.
Definition e_attrib_card : nat := 7.
Definition e_attrib_device : nat := 8.
Definition e_attrib_instances : nat := 9.
Definition e_attrib_rate : nat := 10.
Definition e_attrib_period_size : nat := 11.
Definition e_attrib_period_count : nat := 12.
Definition e_attrib_min : nat := 13.
Definition e_attrib_max : nat := 14.
Definition e_attrib_file : nat := 15.
Definition e_attrib_count : nat := 16.

(** A mask of the bits of these indices. *)
Definition bits (l : list nat) : Z := foldr (λ i m, Z.lor (BIT (Z.of_nat i)) m) 0 l.

Definition has_bit (i : nat) (mask : Z) : bool := negb (Z.land (BIT (Z.of_nat i)) mask =? 0).

(** [struct parse_element] without its handlers. *)
Record parse_element := ParseElement {
  pe_name : string;
  pe_valid_attribs : Z;
  pe_required_attribs : Z;
  pe_valid_subelem : Z
}.

Definition elem_table : list parse_element := [
  ParseElement "ctl" (bits [e_attrib_name; e_attrib_val; e_attrib_index])
    (bits [e_attrib_name; e_attrib_val]) 0;
  ParseElement "path" (bits [e_attrib_name]) (bits [e_attrib_name]) (bits [e_elem_ctl]);
  ParseElement "device" (bits [e_attrib_name]) (bits [e_attrib_name]) (bits [e_elem_path]);
  ParseElement "stream"
    (bits [e_attrib_name; e_attrib_type; e_attrib_dir; e_attrib_card; e_attrib_device;
           e_attrib_instances; e_attrib_rate; e_attrib_period_size; e_attrib_period_count])
    (bits [e_attrib_type])
    (bits [e_elem_stream_ctl; e_elem_enable; e_elem_disable; e_elem_usecase]);
  ParseElement "enable" (bits [e_attrib_path]) (bits [e_attrib_path]) 0;
  ParseElement "disable" (bits [e_attrib_path]) (bits [e_attrib_path]) 0;
  ParseElement "case" (bits [e_attrib_name]) (bits [e_attrib_name]) (bits [e_elem_ctl]);
  ParseElement "usecase" (bits [e_attrib_name]) (bits [e_attrib_name]) (bits [e_elem_case]);
  ParseElement "ctl"
    (bits [e_attrib_name; e_attrib_function; e_attrib_index; e_attrib_min; e_attrib_max])
    (bits [e_attrib_name; e_attrib_function]) 0;
  ParseElement "init" 0 0 (bits [e_elem_ctl]);
  ParseElement "mixer" (bits [e_attrib_card]) 0 (bits [e_elem_init]);
  ParseElement "audiohal" 0 0 (bits [e_elem_mixer; e_elem_codec_probe]);
  ParseElement "codec_probe" (bits [e_attrib_file]) (bits [e_attrib_file])
    (bits [e_elem_codec_case]);
  ParseElement "case" (bits [e_attrib_name; e_attrib_file])
    (bits [e_attrib_name; e_attrib_file]) 0 ].

Definition attrib_table : list string :=
  [ "name"; "val"; "path"; "function"; "type"; "index"; "dir"; "card"; "device";
    "instances"; "rate"; "period_size"; "period_count"; "min"; "max"; "file" ].

Definition predefined_path_name_table : list string := ["off"; "on"].

Section device_table.
  Context `{!AudioH}.

Definition device_table : list (string * Z) := [
  ("global", 0);
  ("speaker", AUDIO_DEVICE_OUT_SPEAKER);
  ("earpiece", AUDIO_DEVICE_OUT_EARPIECE);
  ("headset", AUDIO_DEVICE_OUT_WIRED_HEADSET);
  ("headset_in", AUDIO_DEVICE_IN_WIRED_HEADSET);
  ("headphone", AUDIO_DEVICE_OUT_WIRED_HEADPHONE);
  ("sco", AUDIO_DEVICE_OUT_ALL_SCO);
  ("sco_in", AUDIO_DEVICE_IN_ALL_SCO);
  ("a2dp", AUDIO_DEVICE_OUT_ALL_A2DP);
  ("usb", AUDIO_DEVICE_OUT_ALL_USB);
  ("mic", AUDIO_DEVICE_IN_BUILTIN_MIC);
  ("back mic", AUDIO_DEVICE_IN_BACK_MIC);
  ("voice", AUDIO_DEVICE_IN_VOICE_CALL);
  ("aux", AUDIO_DEVICE_IN_AUX_DIGITAL) ].

(** The device of the first entry with this name. *)
Fixpoint parse_match_device (name : string) (table : list (string * Z)) : option Z :=
  match table with
  | [] => None
  | (n, device) :: table =>
    if bool_decide (name = n) then Some device else parse_match_device name table
  end.

End device_table.

(** ** The parser state *)

(** [current.path]: the temporary <init> path, or a path of a device. *)
Inductive path_ref :=
  | InitPath
  | DevicePath (device path : nat).

#[export] Instance path_ref_eq_dec : EqDecision path_ref.
Proof. solve_decision. Defined.

(** [struct { ... } current]: the null pointer is [None]; [cur_codec_probe]
    tells whether [codec_probe] points to [init_probe]. *)
Record current := Current {
  cur_device : option nat;
  cur_stream : option nat;
  cur_path : option path_ref;
  cur_usecase : option (nat * nat);
  cur_scase : option (nat * nat * nat);
  cur_codec_probe : bool
}.

(** [struct parse_stack_entry] *)
Record stack_entry := StackEntry {
  se_elem_index : nat;
  se_valid_subelem : Z
}.

(** The attributes of the element being handled are in [ps_attribs], indexed
    by [enum attrib_index].  [ps_freed]: the arrays of controls whose memory was
    freed while the structure that has them still points to it. *)
Record parse_state (P : Type) := ParseState {
  ps_cm : config_mgr;
  ps_file : option file;
  ps_cur_xml_file : option string;
  ps_parser : P;
  ps_parse_error : Z;
  ps_error_line : Z;
  ps_attribs : list (option string);
  ps_current : current;
  ps_path_names : dyn_array string;
  ps_init_path : path;
  ps_init_probe : codec_probe;
  ps_stack_index : Z;
  ps_stack : list stack_entry;
  ps_freed : list (path_ref + nat * nat * nat)
}.
Arguments ParseState {P} _ _ _ _ _ _ _ _ _ _ _ _ _ _.
Arguments ps_cm {P} _.
Arguments ps_file {P} _.
Arguments ps_cur_xml_file {P} _.
Arguments ps_parser {P} _.
Arguments ps_parse_error {P} _.
Arguments ps_error_line {P} _.
Arguments ps_attribs {P} _.
Arguments ps_current {P} _.
Arguments ps_path_names {P} _.
Arguments ps_init_path {P} _.
Arguments ps_init_probe {P} _.
Arguments ps_stack_index {P} _.
Arguments ps_stack {P} _.
Arguments ps_freed {P} _.

Section setters.
  Context {P : Type}.
  Implicit Types st : parse_state P.

Definition set_cm cm st : parse_state P :=
  ParseState cm (ps_file st) (ps_cur_xml_file st) (ps_parser st) (ps_parse_error st)
    (ps_error_line st) (ps_attribs st) (ps_current st) (ps_path_names st)
    (ps_init_path st) (ps_init_probe st) (ps_stack_index st) (ps_stack st) (ps_freed st).
Definition set_file f st : parse_state P :=
  ParseState (ps_cm st) f (ps_cur_xml_file st) (ps_parser st) (ps_parse_error st)
    (ps_error_line st) (ps_attribs st) (ps_current st) (ps_path_names st)
    (ps_init_path st) (ps_init_probe st) (ps_stack_index st) (ps_stack st) (ps_freed st).
Definition set_cur_xml_file f st : parse_state P :=
  ParseState (ps_cm st) (ps_file st) f (ps_parser st) (ps_parse_error st)
    (ps_error_line st) (ps_attribs st) (ps_current st) (ps_path_names st)
    (ps_init_path st) (ps_init_probe st) (ps_stack_index st) (ps_stack st) (ps_freed st).
Definition set_parser p st : parse_state P :=
  ParseState (ps_cm st) (ps_file st) (ps_cur_xml_file st) p (ps_parse_error st)
    (ps_error_line st) (ps_attribs st) (ps_current st) (ps_path_names st)
    (ps_init_path st) (ps_init_probe st) (ps_stack_index st) (ps_stack st) (ps_freed st).
Definition set_error error line st : parse_state P :=
  ParseState (ps_cm st) (ps_file st) (ps_cur_xml_file st) (ps_parser st) error
    line (ps_attribs st) (ps_current st) (ps_path_names st)
    (ps_init_path st) (ps_init_probe st) (ps_stack_index st) (ps_stack st) (ps_freed st).
Definition set_attribs l st : parse_state P :=
  ParseState (ps_cm st) (ps_file st) (ps_cur_xml_file st) (ps_parser st) (ps_parse_error st)
    (ps_error_line st) l (ps_current st) (ps_path_names st)
    (ps_init_path st) (ps_init_probe st) (ps_stack_index st) (ps_stack st) (ps_freed st).
Definition set_current c st : parse_state P :=
  ParseState (ps_cm st) (ps_file st) (ps_cur_xml_file st) (ps_parser st) (ps_parse_error st)
    (ps_error_line st) (ps_attribs st) c (ps_path_names st)
    (ps_init_path st) (ps_init_probe st) (ps_stack_index st) (ps_stack st) (ps_freed st).
Definition set_path_names l st : parse_state P :=
  ParseState (ps_cm st) (ps_file st) (ps_cur_xml_file st) (ps_parser st) (ps_parse_error st)
    (ps_error_line st) (ps_attribs st) (ps_current st) l
    (ps_init_path st) (ps_init_probe st) (ps_stack_index st) (ps_stack st) (ps_freed st).
Definition set_init_path p st : parse_state P :=
  ParseState (ps_cm st) (ps_file st) (ps_cur_xml_file st) (ps_parser st) (ps_parse_error st)
    (ps_error_line st) (ps_attribs st) (ps_current st) (ps_path_names st)
    p (ps_init_probe st) (ps_stack_index st) (ps_stack st) (ps_freed st).
Definition set_init_probe p st : parse_state P :=
  ParseState (ps_cm st) (ps_file st) (ps_cur_xml_file st) (ps_parser st) (ps_parse_error st)
    (ps_error_line st) (ps_attribs st) (ps_current st) (ps_path_names st)
    (ps_init_path st) p (ps_stack_index st) (ps_stack st) (ps_freed st).
Definition set_stack index l st : parse_state P :=
  ParseState (ps_cm st) (ps_file st) (ps_cur_xml_file st) (ps_parser st) (ps_parse_error st)
    (ps_error_line st) (ps_attribs st) (ps_current st) (ps_path_names st)
    (ps_init_path st) (ps_init_probe st) index l (ps_freed st).
Definition set_freed l st : parse_state P :=
  ParseState (ps_cm st) (ps_file st) (ps_cur_xml_file st) (ps_parser st) (ps_parse_error st)
    (ps_error_line st) (ps_attribs st) (ps_current st) (ps_path_names st)
    (ps_init_path st) (ps_init_probe st) (ps_stack_index st) (ps_stack st) l.

Definition set_cur_device d st : parse_state P :=
  let c := ps_current st in
  set_current (Current d (cur_stream c) (cur_path c) (cur_usecase c) (cur_scase c)
                 (cur_codec_probe c)) st.
Definition set_cur_stream s st : parse_state P :=
  let c := ps_current st in
  set_current (Current (cur_device c) s (cur_path c) (cur_usecase c) (cur_scase c)
                 (cur_codec_probe c)) st.
Definition set_cur_path p st : parse_state P :=
  let c := ps_current st in
  set_current (Current (cur_device c) (cur_stream c) p (cur_usecase c) (cur_scase c)
                 (cur_codec_probe c)) st.
Definition set_cur_usecase u st : parse_state P :=
  let c := ps_current st in
  set_current (Current (cur_device c) (cur_stream c) (cur_path c) u (cur_scase c)
                 (cur_codec_probe c)) st.
Definition set_cur_scase s st : parse_state P :=
  let c := ps_current st in
  set_current (Current (cur_device c) (cur_stream c) (cur_path c) (cur_usecase c) s
                 (cur_codec_probe c)) st.
Definition set_cur_codec_probe b st : parse_state P :=
  let c := ps_current st in
  set_current (Current (cur_device c) (cur_stream c) (cur_path c) (cur_usecase c)
                 (cur_scase c) b) st.

(** ** Objects behind the pointers *)

Definition upd_devices (f : dyn_array device → dyn_array device) st : parse_state P :=
  set_cm (set_cm_devices (ps_cm st) (f (cm_devices (ps_cm st)))) st.
Definition upd_streams (f : dyn_array stream → dyn_array stream) st : parse_state P :=
  set_cm (set_cm_streams (ps_cm st) (f (cm_streams (ps_cm st)))) st.

Definition device_at st (d : nat) : option device := da_items (cm_devices (ps_cm st)) !! d.
Definition stream_at st (s : nat) : option stream := da_items (cm_streams (ps_cm st)) !! s.
Definition usecase_at st (r : nat * nat) : option usecase :=
  s ← stream_at st r.1; da_items (s_usecases s) !! r.2.
Definition scase_at st (r : nat * nat * nat) : option scase :=
  u ← usecase_at st r.1; da_items (uc_cases u) !! r.2.
Definition path_at st (r : path_ref) : option path :=
  match r with
  | InitPath => Some (ps_init_path st)
  | DevicePath d p => dev ← device_at st d; da_items (d_paths dev) !! p
  end.

Definition upd_device (d : nat) (f : device → device) st : parse_state P :=
  upd_devices (da_update d f) st.
Definition upd_stream_at (s : nat) (f : stream → stream) st : parse_state P :=
  upd_streams (da_update s f) st.
Definition upd_usecase (r : nat * nat) (f : usecase → usecase) st : parse_state P :=
  upd_stream_at r.1 (λ s, set_s_usecases s (da_update r.2 f (s_usecases s))) st.
Definition upd_scase (r : nat * nat * nat) (f : scase → scase) st : parse_state P :=
  upd_usecase r.1 (λ u, set_uc_cases u (da_update r.2 f (uc_cases u))) st.
Definition upd_path (r : path_ref) (f : path → path) st : parse_state P :=
  match r with
  | InitPath => set_init_path (f (ps_init_path st)) st
  | DevicePath d p => upd_device d (λ dev, set_d_paths dev (da_update p f (d_paths dev))) st
  end.

End setters.

(** ** Creating objects *)

(** Objects of zero bytes. *)
Definition ctl0 : ctl := Ctl 0 EmptyString 0 0 MIXER_CTL_TYPE_BOOL (VUint 0).
Definition path0 : path := Path 0 da_empty.
Definition scase0 : scase := Scase EmptyString da_empty.
Definition usecase0 : usecase := Usecase EmptyString da_empty.
Definition device0 : device := Device 0 0 da_empty.
Definition stream_control0 : stream_control := StreamControl 0 0 0 0.
Definition stream0 : stream :=
  Stream (HwStream e_stream_out_pcm 0 0 0 0 0) None 0 0 0 0 0 stream_control0
    stream_control0 da_empty.
Definition codec_case0 : codec_case := CodecCase None None.

Section objects.
  Context {K : Type}.

(** The last object of the array, initialised by [f]; [None] when the array
    cannot be extended. *)
Definition new_object {A} (zero : A) (f : A → A) (array : dyn_array A)
  : M (world K) (option nat * dyn_array A) :=
  '(rc, array) ← dyn_array_extend zero array;
  if rc <? 0 then mret (None, array)
  else
    let i := (length (da_items array) - 1)%nat in
    mret (Some i, da_update i f array).

Definition new_ctl (array : dyn_array ctl) (name : string) :=
  new_object ctl0 (λ c, Ctl UINT_MAX name INVALID_CTL_INDEX (c_array_count c)
                          MIXER_CTL_TYPE_UNKNOWN (c_value c)) array.

Definition new_codec_case (array : dyn_array codec_case) (codec file : option string) :=
  new_object codec_case0 (λ _, CodecCase codec file) array.

Definition new_path (array : dyn_array path) (id : Z) :=
  new_object path0 (λ p, Path id (p_ctls p)) array.

Definition new_case (array : dyn_array scase) (name : string) :=
  new_object scase0 (λ c, Scase name (sc_ctls c)) array.

Definition new_usecase (array : dyn_array usecase) (name : string) :=
  new_object usecase0 (λ u, Usecase name (uc_cases u)) array.

Definition new_device (array : dyn_array device) (type : Z) :=
  new_object device0 (λ d, Device type (d_use_count d) (d_paths d)) array.

Definition new_stream (array : dyn_array stream) :=
  new_object stream0
    (λ s, Stream (s_info s) (s_name s) (s_ref_count s) (s_max_ref_count s) (-1) (-1)
            (s_current_devices s)
            (StreamControl UINT_MAX (sctl_index (s_volume_left s))
               (sctl_min (s_volume_left s)) (sctl_max (s_volume_left s)))
            (StreamControl UINT_MAX (sctl_index (s_volume_right s))
               (sctl_min (s_volume_right s)) (sctl_max (s_volume_right s)))
            (s_usecases s)) array.

Definition new_name (array : dyn_array string) (name : string)
  : M (world K) (Z * dyn_array string) :=
  '(i, array) ← new_object EmptyString (λ _, name) array;
  match i with
  | None => mret (- ENOMEM, array)
  | Some i => mret (Z.of_nat i, array)
  end.

Definition new_config_mgr : M (world K) (option config_mgr) :=
  ok ← alloc;
  if negb ok then mret None else mret (Some (ConfigMgr None 0 0 da_empty da_empty)).

(** ** Compressing objects: the array inside shrinks to its objects *)

Definition compress_path (p : path) : M (world K) path :=
  l ← dyn_array_fix (p_ctls p); mret (set_p_ctls p l).
Definition compress_probe (cp : codec_probe) : M (world K) codec_probe :=
  l ← dyn_array_fix (cp_cases cp);
  mret (CodecProbe (cp_file cp) (cp_new_xml_file cp) l).
Definition compress_case (sc : scase) : M (world K) scase :=
  l ← dyn_array_fix (sc_ctls sc); mret (set_sc_ctls sc l).
Definition compress_usecase (u : usecase) : M (world K) usecase :=
  l ← dyn_array_fix (uc_cases u); mret (set_uc_cases u l).
Definition compress_device (d : device) : M (world K) device :=
  l ← dyn_array_fix (d_paths d); mret (set_d_paths d l).
Definition compress_stream (s : stream) : M (world K) stream :=
  l ← dyn_array_fix (s_usecases s); mret (set_s_usecases s l).
Definition compress_config_mgr (mgr : config_mgr) : M (world K) config_mgr :=
  devs ← dyn_array_fix (cm_devices mgr);
  strs ← dyn_array_fix (cm_streams mgr);
  mret (set_cm_streams (set_cm_devices mgr devs) strs).

(** ** Path names *)

(** The last index of [name] in the list, whose first index is [i]. *)
Fixpoint find_last (name : string) (i : nat) (l : list string) : option nat :=
  match l with
  | [] => None
  | n :: l =>
    match find_last name (S i) l with
    | Some j => Some j
    | None => if bool_decide (n = name) then Some i else None
    end
  end.

Definition find_path_name (array : dyn_array string) (name : string) : Z :=
  match find_last name 0 (da_items array) with
  | Some i => Z.of_nat i
  | None => - EINVAL
  end.

(** A name that is new to the array is copied and appended. *)
Definition add_path_name (array : dyn_array string) (name : string)
  : M (world K) (Z * dyn_array string) :=
  let index := find_path_name array name in
  if 0 <=? index then mret (index, array)
  else
    ok ← alloc;
    if negb ok then mret (- ENOMEM, array)
    else
      '(index, array) ← new_name array name;
      if index <? 0 then mret (- ENOMEM, array) else mret (index, array).

End objects.
