(* ===== verification/Parser.v ===== *)
(** * The configuration parser

    The handlers of the elements of the configuration file, the callbacks of
    the XML parser and the driver, from src/configmgr/audio_config.c.  A
    handler returns its error code and the new parser state. *)

From S2P Require Import Prelude Kernel Mixer ConfigData CStrings Expat Routing ParseState.
From Stdlib Require Import Ascii String.

#[global] Open Scope Z_scope.

Section parser.
  Context {P : Type} `{!Expat P}.
  Context {K : Type} `{!AlsaCtl K, !AudioH, !Platform}.

(** The value read from an automatic variable that was not initialised. *)
Variable indeterminate : Z.

(** Attempts to open the codec probe file, and redirections to another
    configuration file, before a run counts as hanging. *)
Variable probe_attempts redirections : nat.

Abbreviation state := (parse_state P).
Abbreviation handler := (state → M (world K) (Z * state)).

Definition attrib (st : state) (i : nat) : option string := mjoin (ps_attribs st !! i).

(** Attribute [i], which the code takes to be present. *)
Definition required (st : state) (i : nat) : M (world K) string :=
  match attrib st i with
  | Some s => mret s
  | None => _ ← raise NullDeref; mret EmptyString
  end.

Definition strdup (s : string) : M (world K) (option string) :=
  ok ← alloc; mret (if (ok : bool) then Some s else None).

Definition attrib_to_uint (result : Z) (st : state) (i : nat) : Z * Z :=
  string_to_uint result (attrib st i).

(** A dereference of the null pointer in a handler, which then returns. *)
Definition null_deref (st : state) : M (world K) (Z * state) :=
  _ ← raise NullDeref; mret (0, st).

(** ** <ctl> *)

(** The object whose [ctl_array] receives the control. *)
Definition ctl_parent (st : state) : option (path_ref + nat * nat * nat) :=
  match cur_path (ps_current st) with
  | Some r => Some (inl r)
  | None => inr <$> cur_scase (ps_current st)
  end.

Definition ctl_array_of (st : state) (r : path_ref + nat * nat * nat)
  : option (dyn_array ctl) :=
  match r with
  | inl r => p_ctls <$> path_at st r
  | inr r => sc_ctls <$> scase_at st r
  end.

Definition set_ctl_array (r : path_ref + nat * nat * nat) (l : dyn_array ctl) (st : state)
  : state :=
  match r with
  | inl r => upd_path r (λ p, set_p_ctls p l) st
  | inr r => upd_scase r (λ c, set_sc_ctls c l) st
  end.

(** [free(c)] for the object [i] of the array of [r].  Only the first object's
    address is one that an allocation returned: it is the array's, which is
    then freed. *)
Definition free_object (r : path_ref + nat * nat * nat) (i : nat) (st : state) : M (world K) state :=
  if Nat.eqb i 0 then mret (set_freed (r :: ps_freed st) st)
  else _ ← raise BadFree; mret st.

Definition parse_ctl_start : handler := λ st,
  name ← required st e_attrib_name;
  name ← strdup name;
  let parent := ctl_parent st in
  match name with
  | None => mret (- ENOMEM, st)
  | Some name =>
    match r ← parent; l ← ctl_array_of st r; Some (r, l) with
    | None => null_deref st
    | Some (r, array) =>
      '(i, array) ← new_ctl array name;
      match i with
      | None => mret (- ENOMEM, set_ctl_array r array st)
      | Some i =>
        let '(ret, index) := attrib_to_uint INVALID_CTL_INDEX st e_attrib_index in
        if ret =? - EINVAL then
          st ← free_object r i st; mret (- EINVAL, set_ctl_array r array st)
        else
          let array := da_update i (λ c, set_c_index c index) array in
          val ← required st e_attrib_val;
          val ← strdup val;
          match val with
          | None => st ← free_object r i st; mret (- ENOMEM, set_ctl_array r array st)
          | Some val =>
            let c := Ctl UINT_MAX name index 0 MIXER_CTL_TYPE_UNKNOWN (VString val) in
            '(ret, c) ← ctl_open (cm_mixer (ps_cm st)) c;
            let st := set_ctl_array r (da_update i (λ _, c) array) st in
            if ret =? - ENOENT then mret (0, st) else mret (ret, st)
          end
      end
    end
  end.

(** ** <init>, <codec_probe> and <case> *)

Definition parse_init_start : handler := λ st,
  mret (0, set_cur_path (Some InitPath) st).

Definition parse_codec_case_start : handler := λ st,
  codec ← required st e_attrib_name;
  codec ← strdup codec;
  file ← required st e_attrib_file;
  file ← strdup file;
  if negb (cur_codec_probe (ps_current st)) then null_deref st
  else
    let probe := ps_init_probe st in
    '(cc, array) ← new_codec_case (cp_cases probe) codec file;
    let st := set_init_probe (CodecProbe (cp_file probe) (cp_new_xml_file probe) array) st in
    match cc with
    | None => mret (- ENOMEM, st)
    | Some _ => mret (0, st)
    end.

Definition parse_codec_probe_start : handler := λ st,
  file ← required st e_attrib_file;
  file ← strdup file;
  let probe := ps_init_probe st in
  match cp_file probe with
  | None =>
    mret (0, set_cur_codec_probe true
               (set_init_probe (CodecProbe file (cp_new_xml_file probe) (cp_cases probe)) st))
  | Some _ => mret (- EINVAL, st)
  end.

(** Tries to open the probe file until it exists. *)
Fixpoint wait_fopen (todo n : nat) (name : string) : M (world K) (option file) :=
  match sys_fopen name n with
  | Some f => mret (Some f)
  | None =>
    match todo with
    | O => _ ← raise Hang; mret None
    | S todo => wait_fopen todo (S n) name
    end
  end.

(** [fgets(buf, size, fp)]: at most [size - 1] characters, up to and with the
    first newline; [None] at the end of the data. *)
Fixpoint fgets_go (n : nat) (l : chars) : chars :=
  match n, l with
  | S n, c :: l => if bool_decide (c = "010"%char) then [c] else c :: fgets_go n l
  | _, _ => []
  end.

Definition fgets (size : nat) (f : file) : option chars :=
  match f_data f with [] => None | l => Some (fgets_go (size - 1) l) end.

(** The first case whose name is [codec]. *)
Fixpoint match_codec (codec : string) (l : list codec_case) : M (world K) (option codec_case) :=
  match l with
  | [] => mret None
  | cc :: l =>
    match cc_codec_name cc with
    | None => _ ← raise BadAlloc; mret None
    | Some n => if bool_decide (codec = n) then mret (Some cc) else match_codec codec l
    end
  end.

Definition set_new_xml_file (file : option string) (st : state) : state :=
  let probe := ps_init_probe st in
  set_init_probe (CodecProbe (cp_file probe) file (cp_cases probe)) st.

Definition probe_config_file : handler := λ st,
  match cp_file (ps_init_probe st) with
  | None => _ ← raise BadAlloc; mret (0, st)
  | Some name =>
    fp ← wait_fopen probe_attempts 0 name;
    match fp with
    | None => mret (0, st)
    | Some fp =>
      match fgets 40 fp with
      | None => mret (- EIO, st)
      | Some buf =>
        let codec := of_chars (probe_trim_spaces buf) in
        let st := set_new_xml_file None st in
        found ← match_codec codec (da_items (cp_cases (ps_init_probe st)));
        match found with
        | None => mret (0, st)
        | Some cc =>
          match cc_file cc with
          | None => _ ← raise BadAlloc; mret (0, st)
          | Some file =>
            ok ← alloc;
            match (if (ok : bool) then Some file else None), ps_cur_xml_file st with
            | Some file, Some cur =>
              if bool_decide (file = cur) then
                mret (- EINVAL, set_parser (XML_StopParser false (ps_parser st)) st)
              else
                let st := set_new_xml_file (Some file) st in
                mret (0, set_parser (XML_StopParser true (ps_parser st)) st)
            | _, _ => _ ← raise BadAlloc; mret (0, st)
            end
          end
        end
      end
    end
  end.

Definition parse_codec_probe_end : handler := λ st,
  if negb (cur_codec_probe (ps_current st)) then null_deref st
  else
    probe ← compress_probe (ps_init_probe st);
    let st := set_cur_codec_probe false (set_init_probe probe st) in
    '(_, st) ← probe_config_file st;
    mret (0, st).

(** ** <path> *)

Definition parse_path_start : handler := λ st,
  name ← required st e_attrib_name;
  '(id, names) ← add_path_name (ps_path_names st) name;
  let st := set_path_names names st in
  if id <? 0 then mret (id, st)
  else
    match d ← cur_device (ps_current st); dev ← device_at st d; Some (d, dev) with
    | None => null_deref st
    | Some (d, dev) =>
      '(path, array) ← new_path (d_paths dev) id;
      let st := upd_device d (λ dev, set_d_paths dev array) st in
      match path with
      | None => mret (- ENOMEM, st)
      | Some i => mret (0, set_cur_path (Some (DevicePath d i)) st)
      end
    end.

Definition parse_path_end : handler := λ st,
  match r ← cur_path (ps_current st); p ← path_at st r; Some (r, p) with
  | None => null_deref st
  | Some (r, p) =>
    p ← compress_path p;
    mret (0, set_cur_path None (upd_path r (λ _, p) st))
  end.

(** ** <usecase> and <case> *)

Definition parse_case_start : handler := λ st,
  name ← required st e_attrib_name;
  name ← strdup name;
  match name with
  | None => mret (- ENOMEM, st)
  | Some name =>
    match r ← cur_usecase (ps_current st); u ← usecase_at st r; Some (r, u) with
    | None => null_deref st
    | Some (r, u) =>
      '(sc, array) ← new_case (uc_cases u) name;
      let st := upd_usecase r (λ u, set_uc_cases u array) st in
      match sc with
      | None => mret (- ENOMEM, st)
      | Some i => mret (0, set_cur_scase (Some (r, i)) st)
      end
    end
  end.

Definition parse_case_end : handler := λ st,
  match r ← cur_scase (ps_current st); c ← scase_at st r; Some (r, c) with
  | None => null_deref st
  | Some (r, c) =>
    c ← compress_case c;
    mret (0, set_cur_scase None (upd_scase r (λ _, c) st))
  end.

Definition parse_usecase_start : handler := λ st,
  name ← required st e_attrib_name;
  name ← strdup name;
  match name with
  | None => mret (- ENOMEM, st)
  | Some name =>
    match s ← cur_stream (ps_current st); str ← stream_at st s; Some (s, str) with
    | None => null_deref st
    | Some (s, str) =>
      '(puc, array) ← new_usecase (s_usecases str) name;
      let st := upd_stream_at s (λ str, set_s_usecases str array) st in
      match puc with
      | None => mret (- ENOMEM, st)
      | Some i => mret (0, set_cur_usecase (Some (s, i)) st)
      end
    end
  end.

Definition parse_usecase_end : handler := λ st,
  match r ← cur_usecase (ps_current st); u ← usecase_at st r; Some (r, u) with
  | None => null_deref st
  | Some (r, u) =>
    u ← compress_usecase u;
    mret (0, upd_usecase r (λ _, u) st)
  end.

(** ** <enable> and <disable> *)

Definition parse_enable_disable_start (is_enable : bool) : handler := λ st,
  path_name ← required st e_attrib_path;
  let i := find_path_name (ps_path_names st) path_name in
  if i <? 0 then mret (- EINVAL, st)
  else
    match cur_stream (ps_current st) with
    | None => null_deref st
    | Some s =>
      if is_enable then mret (0, upd_stream_at s (λ str, set_enable_path str i) st)
      else mret (0, upd_stream_at s (λ str, set_disable_path str i) st)
    end.

Definition parse_enable_start : handler := parse_enable_disable_start true.
Definition parse_disable_start : handler := parse_enable_disable_start false.

(** ** <ctl> of a stream *)

(** Which of the two volume controls of a stream. *)
Definition set_volume (left_vol : bool) (s : stream) (v : stream_control) : stream :=
  if left_vol then set_volume_left s v else set_volume_right s v.
Definition get_volume (left_vol : bool) (s : stream) : stream_control :=
  if left_vol then s_volume_left s else s_volume_right s.

(** A bound of the range: the attribute, or else the control's own ([r]); the
    error, or the bound. *)
Definition range_bound (st : state) (i : nat) (r : Z) : Z + Z :=
  let '(ret, v) := attrib_to_uint 0 st i in
  if ret =? - EINVAL then inl (- EINVAL)
  else if ret =? - ENOENT then if r <? 0 then inl r else inr (u32 r)
  else inr v.

Definition parse_stream_ctl_start : handler := λ st,
  name ← required st e_attrib_name;
  function ← required st e_attrib_function;
  ctl ← mixer_get_ctl_by_name (cm_mixer (ps_cm st)) name;
  match ctl with
  | None => mret (- EINVAL, st)
  | Some ctl =>
    let '(ret, idx_val) :=
      match attrib st e_attrib_index with
      | None => (0, 0)
      | Some _ => attrib_to_uint 0 st e_attrib_index
      end in
    if ret =? - EINVAL then mret (- EINVAL, st)
    else
      match (if bool_decide (function = "leftvol") then Some true
             else if bool_decide (function = "rightvol") then Some false else None) with
      | None => mret (- EINVAL, st)
      | Some left_vol =>
        match cur_stream (ps_current st) with
        | None => null_deref st
        | Some s =>
          let update f := upd_stream_at s
            (λ str, set_volume left_vol str (f (get_volume left_vol str))) in
          let st := update (λ v, StreamControl (sctl_id v) idx_val (sctl_min v) (sctl_max v)) st in
          match range_bound st e_attrib_min (mixer_ctl_get_range_min (Some ctl)) with
          | inl r => mret (r, st)
          | inr lo =>
            let st := update (λ v, StreamControl (sctl_id v) (sctl_index v) lo (sctl_max v)) st in
            match range_bound st e_attrib_max (mixer_ctl_get_range_max (Some ctl)) with
            | inl r => mret (r, st)
            | inr hi =>
              let id := mixer_ctl_get_id (Some ctl) in
              mret (0, update (λ v, StreamControl id (sctl_index v) (sctl_min v) hi) st)
            end
          end
        end
      end
  end.

(** ** <stream> *)

(** An attribute of the new stream [i] read into a field by [set]; the rest
    of the handler follows unless it is invalid. *)
Definition stream_attrib (a : nat) (old : Z) (i : nat) (set : Z → stream → stream)
  (st : state) (k : state → M (world K) (Z * state)) : M (world K) (Z * state) :=
  let '(ret, v) := attrib_to_uint old st a in
  if ret =? - EINVAL then mret (- EINVAL, st) else k (upd_stream_at i (set v) st).

Definition set_hw_type (t : stream_type) (s : stream) : stream :=
  let h := s_info s in
  set_s_info s (HwStream t (hw_card_number h) (hw_device_number h) (hw_rate h)
                  (hw_period_size h) (hw_period_count h)).
Definition set_hw_rate (r : Z) (s : stream) : stream :=
  let h := s_info s in
  set_s_info s (HwStream (hw_type h) (hw_card_number h) (hw_device_number h) r
                  (hw_period_size h) (hw_period_count h)).
Definition set_hw_period_size (n : Z) (s : stream) : stream :=
  let h := s_info s in
  set_s_info s (HwStream (hw_type h) (hw_card_number h) (hw_device_number h) (hw_rate h)
                  n (hw_period_count h)).
Definition set_hw_period_count (n : Z) (s : stream) : stream :=
  let h := s_info s in
  set_s_info s (HwStream (hw_type h) (hw_card_number h) (hw_device_number h) (hw_rate h)
                  (hw_period_size h) n).

(** The last assignments to a new stream; its card and device are bytes. *)
Definition finish_stream (name : option string) (card device maxref : Z) (s : stream)
  : stream :=
  let h := s_info s in
  Stream (HwStream (hw_type h) (u8 card) (u8 device) (hw_rate h) (hw_period_size h)
            (hw_period_count h))
    name (s_ref_count s) (s32 maxref) (s_enable_path s) (s_disable_path s)
    (s_current_devices s) (s_volume_left s) (s_volume_right s) (s_usecases s).

(** Direction: [None] for an invalid one, [Some None] when it is missing, which
    only the global stream may. *)
Definition stream_dir (dir : option string) (global : bool) : option (option bool) :=
  match dir with
  | None => if global then Some None else None
  | Some d =>
    if bool_decide (d = "out") then Some (Some true)
    else if bool_decide (d = "in") then Some (Some false) else None
  end.

(** Type, and default card and device, of a stream; [out] is read only when
    the stream is not global. *)
Definition stream_kind (type : string) (global named out : bool)
  : option (stream_type * Z * Z) :=
  if global then Some (e_stream_global, indeterminate, indeterminate)
  else if bool_decide (type = "hw") then
    if negb named then None
    else Some (if out then e_stream_out_hw else e_stream_in_hw, indeterminate, indeterminate)
  else if bool_decide (type = "pcm") then
    Some (if out then e_stream_out_pcm else e_stream_in_pcm, PCM_CARD_DEFAULT,
          PCM_DEVICE_DEFAULT)
  else if bool_decide (type = "compress") then
    Some (if out then e_stream_out_compress else e_stream_in_compress, COMPRESS_CARD_DEFAULT,
          COMPRESS_DEVICE_DEFAULT)
  else None.

Definition parse_stream_start : handler := λ st,
  type ← required st e_attrib_type;
  let name := attrib st e_attrib_name in
  ok ← (match name with Some _ => alloc | None => mret true end);
  if negb ok then mret (- ENOMEM, st)
  else if match name with
          | Some n => bool_decide (is_Some (find_named_stream (ps_cm st) n))
          | None => false
          end
  then mret (- EINVAL, st)
  else
    '(s, array) ← new_stream (cm_streams (ps_cm st));
    let st := set_cm (set_cm_streams (ps_cm st) array) st in
    match s with
    | None => mret (- ENOMEM, st)
    | Some i =>
      let global := bool_decide (name = Some "global") in
      match stream_dir (attrib st e_attrib_dir) global with
      | None => mret (- EINVAL, st)
      | Some out =>
        match stream_kind type global (bool_decide (is_Some name)) (default true out) with
        | None => mret (- EINVAL, st)
        | Some (t, card, device) =>
          let st := upd_stream_at i (set_hw_type t) st in
          let '(r1, card) := attrib_to_uint card st e_attrib_card in
          if r1 =? - EINVAL then mret (- EINVAL, st)
          else
            let '(r2, device) := attrib_to_uint device st e_attrib_device in
            if r2 =? - EINVAL then mret (- EINVAL, st)
            else
              let '(r3, maxref) := attrib_to_uint INT_MAX st e_attrib_instances in
              if r3 =? - EINVAL then mret (- EINVAL, st)
              else
                stream_attrib e_attrib_rate 0 i set_hw_rate st (λ st,
                stream_attrib e_attrib_period_count 0 i set_hw_period_count st (λ st,
                stream_attrib e_attrib_period_size 0 i set_hw_period_size st (λ st,
                  mret (0, set_cur_stream (Some i)
                             (upd_stream_at i (finish_stream name card device maxref) st)))))
        end
      end
    end.

Definition parse_stream_end : handler := λ st,
  match s ← cur_stream (ps_current st); str ← stream_at st s; Some (s, str) with
  | None => null_deref st
  | Some (s, str) =>
    str ← compress_stream str;
    mret (0, upd_stream_at s (λ _, str) st)
  end.

(** ** <device> *)

Definition parse_device_start : handler := λ st,
  dev_name ← required st e_attrib_name;
  match parse_match_device dev_name device_table with
  | None => mret (- EINVAL, st)
  | Some device_flag =>
    let cm := ps_cm st in
    let input := negb (Z.land device_flag AUDIO_DEVICE_BIT_IN =? 0) in
    let existing :=
      if input then cm_supported_input_devices cm else cm_supported_output_devices cm in
    if negb (device_flag =? 0) && (Z.land device_flag existing =? device_flag)
    then mret (- EINVAL, st)
    else
      let cm :=
        if device_flag =? 0 then cm
        else if input then set_supported_input cm (Z.lor existing device_flag)
        else set_supported_output cm (Z.lor existing device_flag) in
      '(d, array) ← new_device (cm_devices cm) device_flag;
      let st := set_cm (set_cm_devices cm array) st in
      match d with
      | None => mret (- ENOMEM, st)
      | Some i => mret (0, set_cur_device (Some i) st)
      end
  end.

Definition parse_device_end : handler := λ st,
  match d ← cur_device (ps_current st); dev ← device_at st d; Some (d, dev) with
  | None => null_deref st
  | Some (d, dev) =>
    dev ← compress_device dev;
    mret (0, upd_device d (λ _, dev) st)
  end.

(** ** <mixer> *)

Definition set_valid_subelem (valid : Z) (e : stack_entry) : stack_entry :=
  StackEntry (se_elem_index e) valid.

Definition parse_mixer_start : handler := λ st,
  let '(ret, card) := attrib_to_uint MIXER_CARD_DEFAULT st e_attrib_card in
  if ret =? - EINVAL then mret (- EINVAL, st)
  else
    m ← mixer_open card;
    let st := set_cm (set_cm_mixer (ps_cm st) m) st in
    match m with
    | None => mret (- EINVAL, st)
    | Some _ =>
      _ ← check ((1 <=? ps_stack_index st) && (ps_stack_index st <=? MAX_PARSE_DEPTH))
            OutOfBounds;
      mret (0, set_stack (ps_stack_index st)
                 (alter (set_valid_subelem (bits [e_elem_device; e_elem_stream]))
                    (Z.to_nat (ps_stack_index st - 1)) (ps_stack st)) st)
    end.

(** ** The tables of handlers *)

(** The [start_fn] and [end_fn] columns of [elem_table]. *)
Definition start_fns : list (option handler) := [
  Some parse_ctl_start; Some parse_path_start; Some parse_device_start;
  Some parse_stream_start; Some parse_enable_start; Some parse_disable_start;
  Some parse_case_start; Some parse_usecase_start; Some parse_stream_ctl_start;
  Some parse_init_start; Some parse_mixer_start; None;
  Some parse_codec_probe_start; Some parse_codec_case_start ].

Definition end_fns : list (option handler) := [
  None; Some parse_path_end; Some parse_device_end; Some parse_stream_end; None; None;
  Some parse_case_end; Some parse_usecase_end; None; None; None; None;
  Some parse_codec_probe_end; None ].

(** ** Attributes *)

(** The first attribute of [table], whose indices start at [i], that is valid
    and has this name. *)
Fixpoint find_attrib (valid : Z) (name : string) (i : nat) (table : list string)
  : option nat :=
  match table with
  | [] => None
  | n :: table =>
    if has_bit i valid && bool_decide (name = n) then Some i
    else find_attrib valid name (S i) table
  end.

(** Stores the attributes; [None] when one is not allowed.  Returns the
    required attributes that are missing too. *)
Fixpoint store_attribs (valid required : Z) (attribs : list (string * string))
  (values : list (option string)) : option (Z * list (option string)) :=
  match attribs with
  | [] => Some (required, values)
  | (name, value) :: attribs =>
    match find_attrib valid name 0 attrib_table with
    | None => None
    | Some i =>
      store_attribs valid (Z.land required (not32 (BIT (Z.of_nat i)))) attribs
        (<[i := Some value]> values)
    end
  end.

Definition no_attribs : list (option string) := replicate e_attrib_count None.

(** The values are left as they are at the first invalid attribute, and not
    looked at after an error. *)
Definition extract_attribs (e : parse_element) (attribs : list (string * string)) (st : state)
  : Z * state :=
  match store_attribs (pe_valid_attribs e) (pe_required_attribs e) attribs no_attribs with
  | None => (- EINVAL, set_attribs no_attribs st)
  | Some (missing, values) =>
    (if missing =? 0 then 0 else - EINVAL, set_attribs values st)
  end.

(** ** The callbacks *)

Definition parse_set_error (st : state) (error : Z) : state :=
  set_error error (XML_GetCurrentLineNumber (ps_parser st)) st.

(** The first element of [table], whose indices start at [i], that is valid
    and has this name. *)
Fixpoint find_elem (valid : Z) (name : string) (i : nat) (table : list parse_element)
  : option (nat * parse_element) :=
  match table with
  | [] => None
  | e :: table =>
    if has_bit i valid && bool_decide (name = pe_name e) then Some (i, e)
    else find_elem valid name (S i) table
  end.

(** Entry [i] of the parse stack. *)
Definition stack_at (st : state) (i : Z) : M (world K) stack_entry :=
  if i <? 0 then _ ← raise OutOfBounds; mret (StackEntry 0 0)
  else match ps_stack st !! Z.to_nat i with
       | Some e => mret e
       | None => _ ← raise OutOfBounds; mret (StackEntry 0 0)
       end.

Definition parse_section_start (name : string) (attribs : list (string * string)) (st : state)
  : M (world K) state :=
  let stack_index := ps_stack_index st in
  entry ← stack_at st stack_index;
  if negb (ps_parse_error st =? 0) then mret st
  else
    match find_elem (se_valid_subelem entry) name 0 elem_table with
    | None => mret (parse_set_error st (- EINVAL))
    | Some (i, e) =>
      if MAX_PARSE_DEPTH <=? stack_index then mret (parse_set_error st (- EINVAL))
      else
        let stack_index := stack_index + 1 in
        _ ← check (stack_index <? MAX_PARSE_DEPTH) OutOfBounds;
        let st := set_stack stack_index
                    (<[Z.to_nat stack_index := StackEntry i (pe_valid_subelem e)]>
                       (ps_stack st)) st in
        let '(ret, st) := extract_attribs e attribs st in
        if negb (ret =? 0) then mret (parse_set_error st (- EINVAL))
        else
          match mjoin (start_fns !! i) with
          | Some start_fn => '(error, st) ← start_fn st; mret (parse_set_error st error)
          | None => mret st
          end
    end.

Definition parse_section_end (st : state) : M (world K) state :=
  entry ← stack_at st (ps_stack_index st);
  if negb (ps_parse_error st =? 0) then mret st
  else
    st ← match mjoin (end_fns !! se_elem_index entry) with
         | Some end_fn =>
           '(error, st) ← end_fn st; mret (set_error error (ps_error_line st) st)
         | None => mret st
         end;
    mret (set_stack (ps_stack_index st - 1) (ps_stack st) st).

Definition handle_event (e : xml_event) (st : state) : M (world K) state :=
  match e with
  | XStart name attribs => parse_section_start name attribs st
  | XEnd _ => parse_section_end st
  end.

(** ** The driver *)

(** The callbacks of one call of [XML_Parse]. *)
Fixpoint run_callbacks (fuel : nat) (st : state) : M (world K) state :=
  match XML_callback (ps_parser st) with
  | None => mret st
  | Some (e, p) =>
    match fuel with
    | O => _ ← raise Hang; mret st
    | S fuel => st ← handle_event e (set_parser p st); run_callbacks fuel st
    end
  end.

Definition XML_Parse (buf : list ascii) (final : bool) (st : state) : M (world K) state :=
  let p := XML_feed buf final (ps_parser st) in
  run_callbacks (XML_budget p) (set_parser p st).

Definition parse_log_error (st : state) : Z :=
  if (ps_parse_error st <? 0) || negb (XML_GetErrorCode (ps_parser st) =? XML_ERROR_NONE)
  then - EINVAL else 0.

Definition READ_SIZE : nat := 256.

(** The reading loop; [eof] as the loop condition finds it. *)
Fixpoint read_loop (fuel : nat) (eof : bool) (st : state) : M (world K) (Z * state) :=
  if eof || negb (ps_parse_error st =? 0) then mret (0, st)
  else
    match ps_file st with
    | None => null_deref st
    | Some f =>
      match fuel with
      | O => _ ← raise Hang; mret (0, st)
      | S fuel =>
        let buf := take READ_SIZE (f_data f) in
        let st := set_file (Some (File (drop READ_SIZE (f_data f)) (f_ioerr f))) st in
        let eof := (List.length buf <? READ_SIZE)%nat in
        if eof && f_ioerr f then mret (- EIO, st)
        else
          st ← XML_Parse buf eof st;
          if parse_log_error st <? 0 then mret (- EINVAL, st)
          else read_loop fuel eof st
      end
    end.

Definition do_parse (st : state) : M (world K) (Z * state) :=
  let st := set_error 0 (ps_error_line st) st in
  let st := set_stack 0 (alter (set_valid_subelem (bits [e_elem_audiohal])) 0%nat (ps_stack st)) st in
  match ps_file st with
  | None => null_deref st
  | Some f => read_loop (S (Nat.div (List.length (f_data f)) READ_SIZE)) false st
  end.

Definition open_config_file (st : state) (file : option string) : M (world K) (Z * state) :=
  let '(name, cur) :=
    match file with
    | None =>
      (snprintf 80 ("/system/etc/audio." ++ ro_product_device ++ ".xml"),
       snprintf 40 ("audio." ++ ro_product_device ++ ".xml"))
    | Some f => (snprintf 80 ("/system/etc/" ++ f), f)
    end in
  cur ← strdup cur;
  let st := set_file (sys_fopen name 0) (set_cur_xml_file cur st) in
  match ps_file st with
  | Some _ => mret (0, st)
  | None => mret (- ENOSYS, st)
  end.

Definition init_state (st : state) : M (world K) (Z * state) :=
  '(ret, names) ← add_path_name (ps_path_names st) "off";
  let st := set_path_names names st in
  if ret <? 0 then mret (ret, st)
  else
    '(ret, names) ← add_path_name (ps_path_names st) "on";
    let st := set_path_names names st in
    if ret <? 0 then mret (ret, st) else mret (0, st).

(** Prepares the parser for a redirection to the file just opened. *)
Definition restart_parser (st : state) : state :=
  match cp_new_xml_file (ps_init_probe st) with
  | None => st
  | Some _ =>
    set_parser (XML_ParserReset (ps_parser st))
      (set_init_probe (CodecProbe None None (cp_cases (ps_init_probe st))) st)
  end.

(** The loop over the configuration files. *)
Fixpoint config_files (fuel : nat) (st : state) : M (world K) (Z * state) :=
  '(ret, st) ← open_config_file st (cp_new_xml_file (ps_init_probe st));
  if negb (ret =? 0) then mret (- ENOMEM, st)
  else
    '(ret, st) ← do_parse (restart_parser st);
    match cp_new_xml_file (ps_init_probe st) with
    | None => mret (ret, st)
    | Some _ =>
      match fuel with
      | O => _ ← raise Hang; mret (ret, st)
      | S fuel => config_files fuel st
      end
    end.

(** A parser state of zero bytes, with the manager and a new XML parser. *)
Definition parse_state0 (cm : config_mgr) : state :=
  ParseState cm None None XML_ParserCreate 0 0 no_attribs
    (Current None None None None None false) da_empty path0
    (CodecProbe None None da_empty) 0
    (replicate (Z.to_nat MAX_PARSE_DEPTH) (StackEntry 0 0)) [].

(** [free(array->data)], for an array of the parser whose memory may have been
    freed before. *)
Definition dyn_array_free (freed : bool) : M (world K) unit := check (negb freed) DoubleFree.

(** What the parser itself has is freed; the names, the codec cases and the file
    are freed nowhere else. *)
Definition cleanup_parser (st : state) : M (world K) unit :=
  dyn_array_free (bool_decide (inl InitPath ∈ ps_freed st)).

(** The manager is filled in place: it is returned with the error code. *)
Definition parse_config_file (cm : config_mgr) : M (world K) (Z * config_mgr) :=
  ok ← alloc;
  if negb ok then mret (- ENOMEM, cm)
  else
    '(ret, st) ← init_state (parse_state0 cm);
    '(ret, st) ← (if ret <? 0 then mret (ret, st)
                  else
                    '(ret, st) ← config_files redirections st;
                    if 0 <=? ret then
                      _ ← apply_path_l (cm_mixer (ps_cm st)) (ps_init_path st);
                      mret (ret, st)
                    else mret (ret, st));
    _ ← cleanup_parser st;
    mret (ret, ps_cm st).

(** A manager that could not be allocated is dereferenced by the parse. *)
Definition init_audio_config : M (world K) (option config_mgr) :=
  mgr ← new_config_mgr;
  match mgr with
  | None => _ ← raise BadAlloc; mret None
  | Some mgr =>
    '(ret, mgr) ← parse_config_file mgr;
    if negb (ret =? 0) then mret None
    else mgr ← compress_config_mgr mgr; mret (Some mgr)
  end.

End parser.
