(* ===== verification/SoftXml.v ===== *)
(** * A scripted XML parser

    An instance of [Expat] that satisfies [ExpatLaws]: each call of
    [XML_Parse] makes the callbacks of the next entry of a script, up to an end
    callback with no element open or to a call of [XML_StopParser].  The
    witnesses of the parser's properties run on it. *)

From S2P Require Import Prelude CStrings Expat.
From Stdlib Require Import Ascii String.

#[global] Open Scope Z_scope.

Record script_parser := ScriptParser {
  sx_feeds : list (list xml_event);
  sx_pending : list xml_event;
  sx_stopped : bool;
  sx_open : nat;
  sx_rooted : bool
}.

(** Attribute values are cut to what a buffer of 64 characters holds. *)
Definition clip (a : string * string) : string * string := (a.1, snprintf 64 a.2).

Definition script_callback (p : script_parser) : option (xml_event * script_parser) :=
  if sx_stopped p then None
  else
  match sx_pending p with
  | [] => None
  | XStart name attribs :: l =>
    if sx_rooted p && (sx_open p =? 0)%nat then None
    else Some (XStart name (clip <$> attribs),
               ScriptParser (sx_feeds p) l (sx_stopped p) (S (sx_open p)) true)
  | XEnd name :: l =>
    match sx_open p with
    | O => None
    | S n => Some (XEnd name, ScriptParser (sx_feeds p) l (sx_stopped p) n (sx_rooted p))
    end
  end.

Definition scripted (script : list (list xml_event)) : Expat script_parser := {|
  XML_ParserCreate := ScriptParser script [] false 0 false;
  XML_ParserReset p := ScriptParser (sx_feeds p) [] false 0 false;
  XML_feed _ _ p :=
    match sx_feeds p with
    | evs :: rest =>
      ScriptParser rest (if sx_stopped p then [] else evs) (sx_stopped p) (sx_open p) (sx_rooted p)
    | [] => ScriptParser [] [] (sx_stopped p) (sx_open p) (sx_rooted p)
    end;
  XML_callback := script_callback;
  XML_budget p := List.length (sx_pending p);
  XML_StopParser _ p := ScriptParser (sx_feeds p) [] true (sx_open p) (sx_rooted p);
  XML_stopped := sx_stopped;
  XML_GetErrorCode p := 0;
  XML_GetCurrentLineNumber p := 1
|}.

Lemma snprintf_short n s : Z.of_nat n < 2 ^ 31 → short (snprintf n s).
Proof.
  intros Hn. unfold short, snprintf, of_chars.
  assert (Hl : ∀ l, String.length (string_of_list_ascii l) = List.length l)
    by (induction l as [|c l IH]; cbn; [done|by f_equal]).
  rewrite Hl, length_take. lia.
Qed.

Lemma script_callback_cases p e p' :
  script_callback p = Some (e, p') →
  sx_stopped p = false ∧ List.length (sx_pending p) = S (List.length (sx_pending p'))
  ∧ match e with
    | XStart _ attribs => sx_open p' = S (sx_open p) ∧ Forall (λ a, short a.2) attribs
        ∧ sx_rooted p' = true ∧ (sx_open p = 0%nat → sx_rooted p = false)
    | XEnd _ => sx_open p = S (sx_open p') ∧ sx_rooted p' = sx_rooted p
    end.
Proof.
  unfold script_callback. destruct (sx_stopped p); [done|].
  destruct (sx_pending p) as [|[name attribs|name] l]; [done|..].
  - destruct (sx_rooted p && (sx_open p =? 0)%nat) eqn:Hr; [done|].
    intros [= <- <-]. split_and!; [done..| |done|].
    + apply Forall_fmap, Forall_forall. intros a _. by apply snprintf_short.
    + intros Ho. rewrite Ho in Hr. by rewrite andb_true_r in Hr.
  - destruct (sx_open p); [done|]. by intros [= <- <-].
Qed.

Definition scripted_laws script : @ExpatLaws script_parser (scripted script).
Proof.
  unshelve refine (@Build_ExpatLaws _ (scripted script) sx_open sx_rooted _ _ _ _ _ _ _ _ _ _ _
    _ _ _ _ _ _ _ _); cbn; try done.
  - intros _ _ p. by destruct (sx_feeds p).
  - intros p name attribs p' Hc. apply script_callback_cases in Hc. tauto.
  - intros p name p' Hc. apply script_callback_cases in Hc. tauto.
  - intros _ _ p. by destruct (sx_feeds p).
  - intros p name attribs p' Hc. apply script_callback_cases in Hc. tauto.
  - intros p name p' Hc. apply script_callback_cases in Hc. tauto.
  - intros _ _ p Hs. by destruct (sx_feeds p).
  - intros p Hs. unfold script_callback. by rewrite Hs.
  - intros p name attribs p' Hc. apply script_callback_cases in Hc. tauto.
  - intros p e p' Hc. apply script_callback_cases in Hc as (_ & -> & _). lia.
Defined.

(** Files: the codec probe file and one configuration file of a single read. *)
Definition demo_platform : Platform := {|
  sys_fopen name n :=
    if bool_decide (name = "/system/etc/audio.mocha.xml") then Some (File [] false)
    else if bool_decide (name = "/sys/codec") then
      if (n <? 2)%nat then None else Some (File (Strings.String.list_ascii_of_string " rt5671") false)
    else None;
  ro_product_device := "mocha"
|}.

(** An element with its content. *)
Definition elem (name : string) (attribs : list (string * string)) (body : list xml_event)
  : list xml_event := XStart name attribs :: body ++ [XEnd name].

Definition ctl_elem (name val : string) : list xml_event :=
  elem "ctl" [("name", name); ("val", val)] [].

(** A configuration for the demo card. *)
Definition demo_xml : list xml_event :=
  elem "audiohal" []
    (elem "mixer" [("card", "1")] (elem "init" [] (ctl_elem "Switch" "1"))
     ++ elem "device" [("name", "speaker")]
          (elem "path" [("name", "on")] (ctl_elem "Volume" "20" ++ ctl_elem "Mux" "Bypass")
           ++ elem "path" [("name", "off")] (ctl_elem "Volume" "0"))
     ++ elem "device" [("name", "headset")]
          (elem "path" [("name", "on")] (ctl_elem "Coef" "1,2,0x10")
           ++ elem "path" [("name", "play")] [])
     ++ elem "device" [("name", "mic")] []
     ++ elem "stream" [("type", "pcm"); ("dir", "out"); ("instances", "2")]
          (elem "enable" [("path", "play")] []
           ++ elem "ctl" [("name", "Volume"); ("function", "leftvol")] []
           ++ elem "usecase" [("name", "gain")]
                (elem "case" [("name", "high")] (ctl_elem "Volume" "0xAF")))
     ++ elem "stream" [("name", "voice"); ("type", "hw"); ("dir", "out")] []).
