(* ===== verification/ParserStack.v ===== *)
(** * The file is read by the driver only

    No handler touches the stream the configuration is read from. *)

From S2P Require Import Prelude Kernel Mixer ConfigData CStrings Expat Routing ParseState.
From S2P Require Import Parser.

Section keeps.
  Context {P : Type} `{!Expat P}.
  Context {K : Type} `{!AlsaCtl K, !AudioH, !Platform}.
  Implicit Types st : parse_state P.

Definition keeps_file (h : parse_state P → M (world K) (Z * parse_state P)) : Prop :=
  ∀ st, returns (h st) (λ r : Z * parse_state P, ps_file r.2 = ps_file st).

Lemma upd_path_file r f st : ps_file (upd_path r f st) = ps_file st.
Proof. by destruct r. Qed.

Lemma set_ctl_array_file r l st : ps_file (set_ctl_array r l st) = ps_file st.
Proof. destruct r as [r|r]; [apply upd_path_file|done]. Qed.

Lemma null_deref_file st0 st :
  ps_file st = ps_file st0 →
  returns (S:=world K) (null_deref st) (λ r : Z * parse_state P, ps_file r.2 = ps_file st0).
Proof.
  intros Hst. eapply returns_bind; [apply returns_true|]. intros _ _. by apply returns_ret.
Qed.

Lemma returns_file st0 e st :
  ps_file st = ps_file st0 →
  returns (S:=world K) (mret (e, st)) (λ r : Z * parse_state P, ps_file r.2 = ps_file st0).
Proof. intros. by apply returns_ret. Qed.

Lemma free_object_file r i st :
  returns (S:=world K) (free_object r i st) (λ st', ps_file st' = ps_file st).
Proof.
  unfold free_object. destruct (Nat.eqb i 0); [by apply returns_ret|].
  eapply returns_bind; [apply returns_true|]. intros _ _. by apply returns_ret.
Qed.

End keeps.

(** Steps through a handler, whose states all have the file of the first. *)
Ltac file_steps :=
  repeat match goal with
  | |- returns (mret _) _ => apply returns_file
  | |- returns (null_deref _) _ => apply null_deref_file
  | |- returns (free_object _ _ _ ≫= _) _ =>
    eapply returns_bind; [apply free_object_file|intros ? ?; apply returns_file]
  | |- returns (_ ≫= _) _ => eapply returns_bind; [apply returns_true|intros ? _]
  | |- returns (let _ := _ in _) _ => cbv zeta
  | |- returns (match ?x with _ => _ end) _ => destruct x
  end; try reflexivity; rewrite ?set_ctl_array_file; try done.

Section file_kept.
  Context {P : Type} `{!Expat P}.
  Context {K : Type} `{!AlsaCtl K, !AudioH, !Platform}.
  Variable indeterminate : Z.
  Variable probe_attempts : nat.

Lemma start_fns_file i h :
  mjoin (start_fns (P:=P) (K:=K) indeterminate !! i) = Some h → keeps_file h.
Proof.
  intros Hh st.
  do 14 (try (destruct i as [|i]; [cbn in Hh; try discriminate; injection Hh as <-|]));
    try discriminate.
  - unfold parse_ctl_start. file_steps.
  - unfold parse_path_start. file_steps.
  - unfold parse_device_start. file_steps.
  - unfold parse_stream_start, stream_attrib. file_steps.
  - unfold parse_enable_start, parse_enable_disable_start. file_steps.
  - unfold parse_disable_start, parse_enable_disable_start. file_steps.
  - unfold parse_case_start. file_steps.
  - unfold parse_usecase_start. file_steps.
  - unfold parse_stream_ctl_start. file_steps.
  - unfold parse_init_start. file_steps.
  - unfold parse_mixer_start. file_steps.
  - unfold parse_codec_probe_start. file_steps.
  - unfold parse_codec_case_start. file_steps.
Qed.

Lemma probe_config_file_file : keeps_file (probe_config_file (P:=P) (K:=K) probe_attempts).
Proof. intros st. unfold probe_config_file. file_steps. Qed.

Lemma end_fns_file i h :
  mjoin (end_fns (P:=P) (K:=K) probe_attempts !! i) = Some h → keeps_file h.
Proof.
  intros Hh st.
  do 14 (try (destruct i as [|i]; [cbn in Hh; try discriminate; injection Hh as <-|]));
    try discriminate.
  - unfold parse_path_end. file_steps. refine (upd_path_file _ _ _).
  - unfold parse_device_end. file_steps.
  - unfold parse_stream_end. file_steps.
  - unfold parse_case_end. file_steps.
  - unfold parse_usecase_end. file_steps.
  - unfold parse_codec_probe_end.
    destruct (negb _); [by apply null_deref_file|].
    eapply returns_bind; [apply returns_true|]. intros probe _. cbv zeta.
    eapply returns_bind; [apply probe_config_file_file|]. intros [e st'] Hst'.
    by apply returns_file.
Qed.

Lemma handle_event_file e (st : parse_state P) :
  returns (S:=world K) (handle_event indeterminate probe_attempts e st)
    (λ st', ps_file st' = ps_file st).
Proof.
  destruct e as [name attribs|name]; cbn [handle_event].
  - unfold parse_section_start. eapply returns_bind; [apply returns_true|]. intros entry _.
    destruct (negb _); [by apply returns_ret|].
    destruct (find_elem _ _ _ _) as [[i e]|]; [|by apply returns_ret].
    destruct (_ <=? _); [by apply returns_ret|]. cbv zeta.
    eapply returns_bind; [apply returns_true|]. intros _ _.
    unfold extract_attribs.
    destruct (store_attribs _ _ _ _) as [[missing values]|]; [|by apply returns_ret].
    destruct (negb _); [by apply returns_ret|].
    destruct (mjoin (start_fns indeterminate !! i)) as [h|] eqn:Hh; [|by apply returns_ret].
    eapply returns_bind; [exact (start_fns_file _ _ Hh _)|]. intros [error st'] Hst'.
    by apply returns_ret.
  - unfold parse_section_end. eapply returns_bind; [apply returns_true|]. intros entry _.
    destruct (negb _); [by apply returns_ret|].
    eapply (returns_bind _ _ (λ st', ps_file st' = ps_file st)); [|intros; by apply returns_ret].
    destruct (mjoin (end_fns probe_attempts !! se_elem_index entry)) as [h|] eqn:Hh;
      [|by apply returns_ret].
    eapply returns_bind; [exact (end_fns_file _ _ Hh _)|]. intros [error st'] Hst'.
    by apply returns_ret.
Qed.

Lemma run_callbacks_file fuel (st : parse_state P) :
  returns (S:=world K) (run_callbacks indeterminate probe_attempts fuel st)
    (λ st', ps_file st' = ps_file st).
Proof.
  revert st. induction fuel as [|fuel IH]; intros st; cbn [run_callbacks];
    destruct (XML_callback (ps_parser st)) as [[e p]|]; try by apply returns_ret.
  eapply returns_bind; [apply handle_event_file|]. intros st' Hst'.
  eapply returns_post; [apply IH|]. intros st2 Hst2. by rewrite Hst2, Hst'.
Qed.

End file_kept.

(** * The parse stack and the attributes

    [elem_table] allows a fixed tree of elements.  A [place] is a node of that
    tree; the parse stack always spells the way to one.  This bounds the depth
    of the stack, which [parse_section_start] itself checks one entry late. *)

(** ** Bit masks *)

Lemma BIT_testbit i n : 0 <= i → Z.testbit (BIT i) n = bool_decide (i = n).
Proof.
  intros Hi. unfold BIT. rewrite Z.shiftl_1_l.
  destruct (decide (0 <= n)).
  - rewrite Z.pow2_bits_eqb by lia. by case_bool_decide; [apply Z.eqb_eq|apply Z.eqb_neq].
  - rewrite Z.testbit_neg_r, bool_decide_eq_false_2 by lia. done.
Qed.

Lemma has_bit_testbit i m : has_bit i m = Z.testbit m (Z.of_nat i).
Proof.
  unfold has_bit. destruct (Z.testbit m (Z.of_nat i)) eqn:Hb.
  - apply negb_true_iff, Z.eqb_neq. intros Hz.
    assert (Z.testbit (Z.land (BIT (Z.of_nat i)) m) (Z.of_nat i) = false)
      by (by rewrite Hz, Z.bits_0).
    rewrite Z.land_spec, BIT_testbit, bool_decide_eq_true_2, Hb in * by lia. done.
  - apply negb_false_iff, Z.eqb_eq, Z.bits_inj'. intros n Hn.
    rewrite Z.land_spec, BIT_testbit, Z.bits_0 by lia.
    case_bool_decide as He; [by rewrite <- He, Hb|done].
Qed.

(** ** Places *)

Inductive place :=
  | PRoot | PHal | PMixer | PInit | PInitCtl | PProbe | PProbeCase
  | PDevice | PPath | PPathCtl
  | PStream | PEnable | PDisable | PVolume | PUsecase | PCase | PCaseCtl.

#[export] Instance place_eq_dec : EqDecision place.
Proof. solve_decision. Defined.

Definition parent (pl : place) : place :=
  match pl with
  | PRoot | PHal => PRoot
  | PMixer | PProbe | PDevice | PStream => PHal
  | PInit => PMixer
  | PInitCtl => PInit
  | PProbeCase => PProbe
  | PPath => PDevice
  | PPathCtl => PPath
  | PEnable | PDisable | PVolume | PUsecase => PStream
  | PCase => PUsecase
  | PCaseCtl => PCase
  end.

(** The element at a place. *)
Definition elem_at (pl : place) : nat :=
  match pl with
  | PRoot => 0
  | PHal => e_elem_audiohal
  | PMixer => e_elem_mixer
  | PInit => e_elem_init
  | PInitCtl | PPathCtl | PCaseCtl => e_elem_ctl
  | PProbe => e_elem_codec_probe
  | PProbeCase => e_elem_codec_case
  | PDevice => e_elem_device
  | PPath => e_elem_path
  | PStream => e_elem_stream
  | PEnable => e_elem_enable
  | PDisable => e_elem_disable
  | PVolume => e_elem_stream_ctl
  | PUsecase => e_elem_usecase
  | PCase => e_elem_case
  end.

(** The sub-elements allowed at a place: those of the table, except below the
    root, and in <audiohal> once the mixer is [opened]. *)
Definition valid_at (opened : bool) (pl : place) : Z :=
  match pl with
  | PRoot => bits [e_elem_audiohal]
  | PHal => if opened then bits [e_elem_device; e_elem_stream]
            else bits [e_elem_mixer; e_elem_codec_probe]
  | _ => default 0 (pe_valid_subelem <$> elem_table !! elem_at pl)
  end.

(** The entries of the stack at a place, bottom first. *)
Fixpoint way (fuel : nat) (opened : bool) (pl : place) : list stack_entry :=
  let top := StackEntry (elem_at pl) (valid_at opened pl) in
  match fuel with
  | S fuel => if decide (pl = PRoot) then [top] else way fuel opened (parent pl) ++ [top]
  | O => [top]
  end.

Definition entries (opened : bool) (pl : place) : list stack_entry := way 5 opened pl.

Definition depth (pl : place) : nat := length (entries false pl) - 1.

(** No place is deeper than the last entry of the stack. *)
Lemma entries_length opened pl : length (entries opened pl) = S (depth pl).
Proof. by destruct opened, pl. Qed.

Lemma depth_bound pl : Z.of_nat (depth pl) < MAX_PARSE_DEPTH.
Proof. by destruct pl. Qed.

Lemma entries_parent opened pl :
  pl ≠ PRoot →
  entries opened pl
  = entries opened (parent pl) ++ [StackEntry (elem_at pl) (valid_at opened pl)].
Proof. by destruct opened, pl. Qed.

Lemma depth_parent pl : pl ≠ PRoot → depth pl = S (depth (parent pl)).
Proof. by destruct pl. Qed.

Lemma entries_top opened pl :
  entries opened pl !! depth pl = Some (StackEntry (elem_at pl) (valid_at opened pl)).
Proof. by destruct opened, pl. Qed.

(** The place of a sub-element. *)
Definition child (opened : bool) (pl : place) (i : nat) : option place :=
  let kids := [PHal; PMixer; PInit; PInitCtl; PProbe; PProbeCase; PDevice; PPath; PPathCtl;
               PStream; PEnable; PDisable; PVolume; PUsecase; PCase; PCaseCtl] in
  head (filter (λ k, parent k = pl ∧ elem_at k = i) kids).

(** Every element the table allows at a place has a place of its own, and the
    entry pushed for it is that of the table. *)
Lemma child_spec opened pl i e :
  has_bit i (valid_at opened pl) = true → elem_table !! i = Some e →
  ∃ k, k ≠ PRoot ∧ parent k = pl ∧ elem_at k = i
       ∧ (k = PHal → pe_valid_subelem e = valid_at false k)
       ∧ (k ≠ PHal → pe_valid_subelem e = valid_at opened k)
       ∧ (pl = PHal → (k = PDevice ∨ k = PStream) ∧ opened = true
                      ∨ (k = PMixer ∨ k = PProbe) ∧ opened = false).
Proof.
  intros Hb He.
  assert (Hk : is_Some (child opened pl i) ∧ (i < 14)%nat).
  { apply lookup_lt_Some in He. change (length elem_table) with 14%nat in He.
    split; [|done]. revert Hb. destruct pl, opened; do 14 (destruct i as [|i]; [vm_compute; by eauto|]); lia. }
  destruct Hk as [[k Hk] Hi]. exists k.
  unfold child in Hk. apply head_Some_elem_of, list_elem_of_filter in Hk as [[Hp Hel] Hin].
  assert (k ≠ PRoot) as Hr by (intros ->; set_solver).
  split_and!; [done..| | |].
  - intros ->. cbn in Hel. subst i. vm_compute in He. by injection He as <-.
  - intros Hne. subst i.
    destruct k; try done; cbn in He |- *; by injection He as <-.
  - intros ->. destruct k; try discriminate; destruct opened; subst i;
      vm_compute in Hb; try discriminate; auto.
Qed.

(** ** Looking elements and attributes up *)

Lemma find_elem_spec valid name i table j e :
  find_elem valid name i table = Some (j, e) →
  (i <= j)%nat ∧ table !! (j - i)%nat = Some e ∧ has_bit j valid = true ∧ pe_name e = name.
Proof.
  revert i. induction table as [|e0 table IH]; intros i; cbn [find_elem]; [done|].
  destruct (has_bit i valid && bool_decide (name = pe_name e0)) eqn:Hb.
  - intros [= <- <-]. apply andb_prop in Hb as [? ->%bool_decide_eq_true].
    by rewrite Nat.sub_diag.
  - intros (Hle & Hl & ? & ?)%IH. split_and!; [lia| |done..].
    destruct (j - i)%nat eqn:Hj; [lia|]. cbn. by replace n with (j - S i)%nat by lia.
Qed.

Lemma find_attrib_spec valid name i table j :
  find_attrib valid name i table = Some j → (i <= j < i + length table)%nat.
Proof.
  revert i. induction table as [|n table IH]; intros i; cbn [find_attrib length]; [done|].
  case_match; [intros [= <-]; lia|]. intros ?%IH. lia.
Qed.

(** Every required attribute that is no longer missing has a value, and all
    values are short. *)
Definition stored (required missing : Z) (values : list (option string)) : Prop :=
  length values = e_attrib_count
  ∧ (∀ i, (i < e_attrib_count)%nat → has_bit i required = true → has_bit i missing = false →
       ∃ s, values !! i = Some (Some s))
  ∧ (∀ i s, values !! i = Some (Some s) → short s).

Lemma store_attribs_spec valid required missing attribs values missing' values' :
  stored required missing values → Forall (λ a, short a.2) attribs →
  store_attribs valid missing attribs values = Some (missing', values') →
  stored required missing' values'.
Proof.
  intros Hs Ha. revert missing values Hs.
  induction Ha as [|[name value] attribs Hv Ha IH]; intros missing values Hs;
    cbn [store_attribs]; [by intros [= <- <-]|].
  destruct (find_attrib valid name 0 attrib_table) as [i|] eqn:Hf; [|done].
  apply find_attrib_spec in Hf. change (length attrib_table) with 16%nat in Hf.
  apply IH. destruct Hs as (Hlen & Hreq & Hshort). split_and!.
  - by rewrite length_insert.
  - intros j Hlt Hj Hm. destruct (decide (i = j)) as [->|Hne].
    + exists value. apply list_lookup_insert_eq. rewrite Hlen. unfold e_attrib_count. lia.
    + rewrite list_lookup_insert_ne by done. apply Hreq; [done..|].
      rewrite has_bit_testbit in Hm |- *.
      rewrite Z.land_spec, not32_testbit, BIT_testbit in Hm by lia.
      rewrite (bool_decide_eq_false_2 (Z.of_nat i = Z.of_nat j)), andb_true_r in Hm by lia.
      apply andb_false_iff in Hm as [?|Hm]; [done|].
      apply bool_decide_eq_false in Hm. unfold e_attrib_count in Hlt. lia.
  - intros j s. destruct (decide (i = j)) as [->|Hne].
    + rewrite list_lookup_insert_eq by (rewrite Hlen; unfold e_attrib_count; lia).
      by intros [= <-].
    + rewrite list_lookup_insert_ne by done. apply Hshort.
Qed.

Lemma stored_start required : stored required required no_attribs.
Proof.
  split_and!; [done|congruence|]. intros i s Hi.
  apply lookup_replicate in Hi as [[=] _].
Qed.

Section extract.
  Context {P : Type}.

(** The attributes a handler finds: those its element requires have a value. *)
Definition attribs_ok (e : parse_element) (st : parse_state P) : Prop :=
  (∀ i, (i < e_attrib_count)%nat → has_bit i (pe_required_attribs e) = true →
     ∃ s, attrib st i = Some s ∧ short s)
  ∧ (∀ i s, attrib st i = Some s → short s).

Lemma extract_attribs_spec e attribs (st : parse_state P) :
  Forall (λ a, short a.2) attribs →
  ∃ values, (extract_attribs e attribs st).2 = set_attribs values st
  ∧ ((extract_attribs e attribs st).1 = 0 → attribs_ok e (set_attribs values st)).
Proof.
  intros Ha. unfold extract_attribs.
  destruct (store_attribs _ _ _ _) as [[missing values]|] eqn:Hs; [|by eexists].
  exists values. split; [done|]. cbn [fst].
  destruct (Z.eqb_spec missing 0) as [->|]; [intros _|errno_lia].
  apply (store_attribs_spec _ _ _ _ _ _ _ (stored_start _) Ha) in Hs as (_ & Hreq & Hshort).
  unfold attribs_ok, attrib. cbn [ps_attribs set_attribs].
  assert (Hsh : ∀ i s, mjoin (values !! i) = Some s → short s).
  { intros i s Hi. destruct (values !! i) as [[s'|]|] eqn:E; try done.
    cbn in Hi. simplify_eq. by eapply Hshort. }
  split; [|exact Hsh]. intros i Hi Hb. destruct (Hreq i Hi Hb) as [s Hs].
  - rewrite has_bit_testbit. apply Z.bits_0.
  - exists s. assert (mjoin (values !! i) = Some s) as He by (by rewrite Hs). eauto.
Qed.

End extract.
