(* ===== verification/ParserObjs.v ===== *)
(** * Objects of a configuration being parsed

    The invariant of the objects the handlers build, of the pointers to the
    object being parsed, and what updates preserve them. *)

From S2P Require Import Prelude Kernel Mixer ConfigData CStrings Expat Routing RefCount.
From S2P Require Import RouteInv RoutingFacts ParseState Parser ParserStack.

Section objs.
  Context {P : Type} `{!AudioH}.
  Implicit Types st : parse_state P.

(** ** Objects *)

(** No device is in use and no stream open, and the controls are in order for
    the mixer. *)
Definition dev_ok (m : mixer) (d : device) : Prop :=
  device_ok m d ∧ d_use_count d = 0 ∧ d_type d ∈ (device_table.*2).

Definition str_ok (m : mixer) (s : stream) : Prop :=
  usecases_ok m s ∧ s_ref_count s = 0 ∧ s_current_devices s = 0
  ∧ is_s32 (s_max_ref_count s).

Definition supported (cm : config_mgr) (t : Z) : Z :=
  if Z.land t AUDIO_DEVICE_BIT_IN =? 0 then cm_supported_output_devices cm
  else cm_supported_input_devices cm.

Record objs (m : mixer) (st : parse_state P) : Prop := {
  ob_mixer : cm_mixer (ps_cm st) = Some m;
  ob_mixer_ok : mixer_ok m;
  ob_devices : Forall (dev_ok m) (da_items (cm_devices (ps_cm st)));
  ob_streams : Forall (str_ok m) (da_items (cm_streams (ps_cm st)));
  ob_init : path_ok m (ps_init_path st);
  ob_known : Forall (λ t, t ≠ 0 → within t (supported (ps_cm st) t)) (types (ps_cm st));
  ob_nodup : NoDup (filter (λ t, t ≠ 0) (types (ps_cm st)))
}.

(** Before the mixer is opened there are no objects that need it. *)
Definition objs_ok (opened : bool) (st : parse_state P) : Prop :=
  if opened then ∃ m, objs m st
  else cm_mixer (ps_cm st) = None ∧ da_items (cm_devices (ps_cm st)) = []
       ∧ da_items (cm_streams (ps_cm st)) = [] ∧ da_items (p_ctls (ps_init_path st)) = [].

Lemma objs_ext m st st' :
  ps_cm st' = ps_cm st → ps_init_path st' = ps_init_path st → objs m st → objs m st'.
Proof. intros Hc Hi [? ? ? ? ? ? ?]. split; rewrite ?Hc, ?Hi; done. Qed.

Lemma objs_ok_ext opened st st' :
  ps_cm st' = ps_cm st → ps_init_path st' = ps_init_path st →
  objs_ok opened st → objs_ok opened st'.
Proof.
  intros Hc Hi. destruct opened; cbn.
  - intros [m Hm]. exists m. by eapply objs_ext.
  - by rewrite Hc, Hi.
Qed.

(** ** Updates *)

Lemma upd_device_objs m st d f :
  objs m st →
  (∀ dev, device_at st d = Some dev → dev_ok m dev → dev_ok m (f dev)) →
  (∀ dev, device_at st d = Some dev → d_type (f dev) = d_type dev) →
  objs m (upd_device d f st).
Proof.
  intros [? ? Hd ? ? Hk Hn] Hf Ht.
  assert (Hty : types (ps_cm (upd_device d f st)) = types (ps_cm st)).
  { unfold types. cbn. apply list_eq. intros i. rewrite !list_lookup_fmap.
    destruct (decide (d = i)) as [<-|].
    - rewrite list_lookup_alter_eq. destruct (_ !! d) as [dev|] eqn:Hdev; [|done].
      cbn. by rewrite Ht.
    - by rewrite list_lookup_alter_ne. }
  split; rewrite ?Hty; try done. cbn. apply Forall_alter; [done|]. intros. by apply Hf.
Qed.

Lemma upd_stream_objs m st s f :
  objs m st → (∀ x, stream_at st s = Some x → str_ok m x → str_ok m (f x)) →
  objs m (upd_stream_at s f st).
Proof.
  intros [? ? ? Hs ? ? ?] Hf. split; try done. cbn.
  apply Forall_alter; [done|]. intros. by apply Hf.
Qed.

Lemma upd_path_objs m st r f :
  objs m st → (∀ p, path_at st r = Some p → path_ok m p → path_ok m (f p)) →
  objs m (upd_path r f st).
Proof.
  intros Hm Hf. destruct r as [|d p]; cbn [upd_path].
  - destruct Hm as [? ? ? ? Hi ? ?]. split; try done. by apply Hf.
  - apply upd_device_objs; [done| |done].
    intros dev Hdev (Hd & Hu & Ht). split; [|done]. unfold device_ok. cbn.
    apply Forall_alter; [done|]. intros q Hq. apply Hf. cbn. by rewrite Hdev.
Qed.

Lemma upd_usecase_objs m st r f :
  objs m st → (∀ u, usecase_at st r = Some u → usecase_ok m u → usecase_ok m (f u)) →
  objs m (upd_usecase r f st).
Proof.
  intros Hm Hf. apply upd_stream_objs; [done|]. intros x Hx (Hu & ? & ? & ?).
  split; [|done]. unfold usecases_ok. cbn. apply Forall_alter; [done|].
  intros u Hu'. apply Hf. unfold usecase_at. by rewrite Hx.
Qed.

Lemma upd_scase_objs m st r f :
  objs m st → (∀ c, scase_at st r = Some c → case_ok m c → case_ok m (f c)) →
  objs m (upd_scase r f st).
Proof.
  intros Hm Hf. apply upd_usecase_objs; [done|]. intros u Hu Hok.
  unfold usecase_ok. cbn. apply Forall_alter; [done|]. intros c Hc. apply Hf.
  unfold scase_at. by rewrite Hu.
Qed.

Lemma device_at_ok m st d dev : objs m st → device_at st d = Some dev → dev_ok m dev.
Proof. intros [? ? Hd ? ? ? ?] Hl. rewrite Forall_lookup in Hd. eauto. Qed.

Lemma stream_at_ok m st s x : objs m st → stream_at st s = Some x → str_ok m x.
Proof. intros [? ? ? Hs ? ? ?] Hl. rewrite Forall_lookup in Hs. eauto. Qed.

Lemma path_at_ok m st r p : objs m st → path_at st r = Some p → path_ok m p.
Proof.
  intros Hm. destruct r as [|d i]; cbn [path_at]; [intros [= <-]; apply Hm|].
  destruct (device_at st d) as [dev|] eqn:Hd; [|done]. cbn. intros Hp.
  destruct (device_at_ok _ _ _ _ Hm Hd) as [Hok _].
  unfold device_ok in Hok. rewrite Forall_lookup in Hok. eauto.
Qed.

Lemma usecase_at_ok m st r u : objs m st → usecase_at st r = Some u → usecase_ok m u.
Proof.
  intros Hm. unfold usecase_at. destruct (stream_at st r.1) as [x|] eqn:Hx; [|done]. cbn.
  destruct (stream_at_ok _ _ _ _ Hm Hx) as [Hok _]. intros Hu.
  unfold usecases_ok in Hok. rewrite Forall_lookup in Hok. eauto.
Qed.

Lemma scase_at_ok m st r c : objs m st → scase_at st r = Some c → case_ok m c.
Proof.
  intros Hm. unfold scase_at. destruct (usecase_at st r.1) as [u|] eqn:Hu; [|done]. cbn.
  pose proof (usecase_at_ok _ _ _ _ Hm Hu) as Hok. intros Hc.
  unfold usecase_ok in Hok. rewrite Forall_lookup in Hok. eauto.
Qed.

(** ** Pointers *)

(** The objects of [st] are still there in [st']. *)
Definition str_grows (s s' : stream) : Prop :=
  ∀ u y, da_items (s_usecases s) !! u = Some y →
    ∃ y', da_items (s_usecases s') !! u = Some y'
          ∧ (length (da_items (uc_cases y)) <= length (da_items (uc_cases y')))%nat.

Definition grows st st' : Prop :=
  (∀ d dev, device_at st d = Some dev → ∃ dev', device_at st' d = Some dev'
     ∧ (length (da_items (d_paths dev)) <= length (da_items (d_paths dev')))%nat)
  ∧ (∀ s x, stream_at st s = Some x → ∃ x', stream_at st' s = Some x' ∧ str_grows x x').

Lemma str_grows_refl s : str_grows s s.
Proof. intros u y Hu. eauto. Qed.

Lemma grows_cm st st' : ps_cm st' = ps_cm st → grows st st'.
Proof.
  intros Hc. split.
  - intros d dev Hd. exists dev. unfold device_at in *. by rewrite Hc.
  - intros s x Hs. exists x. unfold stream_at in *. rewrite Hc. split; [done|].
    apply str_grows_refl.
Qed.

Lemma grows_trans st1 st2 st3 : grows st1 st2 → grows st2 st3 → grows st1 st3.
Proof.
  intros [Hd1 Hs1] [Hd2 Hs2]. split.
  - intros d dev Hd. destruct (Hd1 _ _ Hd) as (dev' & Hd' & ?).
    destruct (Hd2 _ _ Hd') as (dev'' & Hd'' & ?). exists dev''. split; [done|lia].
  - intros s x Hx. destruct (Hs1 _ _ Hx) as (x' & Hx' & Hg).
    destruct (Hs2 _ _ Hx') as (x'' & Hx'' & Hg'). exists x''. split; [done|].
    intros u y Hy. destruct (Hg u y Hy) as (y' & Hy' & ?).
    destruct (Hg' u y' Hy') as (y'' & Hy'' & ?). exists y''. split; [done|lia].
Qed.

Lemma upd_device_grows st d f :
  (∀ dev, device_at st d = Some dev →
     (length (da_items (d_paths dev)) <= length (da_items (d_paths (f dev))))%nat) →
  grows st (upd_device d f st).
Proof.
  intros Hf. split.
  - intros i dev Hi. unfold device_at. cbn. destruct (decide (d = i)) as [<-|].
    + exists (f dev). rewrite list_lookup_alter_eq. unfold device_at in Hi.
      rewrite Hi. split; [done|by apply Hf].
    + exists dev. by rewrite list_lookup_alter_ne.
  - intros s x Hs. exists x. split; [done|apply str_grows_refl].
Qed.

Lemma upd_stream_grows st s f :
  (∀ x, stream_at st s = Some x → str_grows x (f x)) → grows st (upd_stream_at s f st).
Proof.
  intros Hf. split.
  - intros d dev Hd. by exists dev.
  - intros i x Hi. unfold stream_at. cbn. destruct (decide (s = i)) as [<-|].
    + exists (f x). rewrite list_lookup_alter_eq. unfold stream_at in Hi.
      rewrite Hi. split; [done|by apply Hf].
    + exists x. rewrite list_lookup_alter_ne by done. split; [done|apply str_grows_refl].
Qed.

Lemma upd_path_grows st r f : grows st (upd_path r f st).
Proof.
  destruct r as [|d p]; cbn [upd_path]; [by apply grows_cm|].
  apply upd_device_grows. intros dev _. cbn. by rewrite length_alter.
Qed.

Lemma upd_usecase_grows st r f :
  (∀ u, (length (da_items (uc_cases u)) <= length (da_items (uc_cases (f u))))%nat) →
  grows st (upd_usecase r f st).
Proof.
  intros Hf. apply upd_stream_grows. intros x _ u y Hy. cbn.
  destruct (decide (r.2 = u)) as [<-|].
  - exists (f y). rewrite list_lookup_alter_eq, Hy. split; [done|apply Hf].
  - exists y. by rewrite list_lookup_alter_ne.
Qed.

Lemma upd_scase_grows st r f : grows st (upd_scase r f st).
Proof. apply upd_usecase_grows. intros u. cbn. by rewrite length_alter. Qed.

Lemma device_at_upd st d f dev :
  device_at st d = Some dev → device_at (upd_device d f st) d = Some (f dev).
Proof. unfold device_at. intros Hd. cbn. by rewrite list_lookup_alter_eq, Hd. Qed.

Lemma stream_at_upd st s f x :
  stream_at st s = Some x → stream_at (upd_stream_at s f st) s = Some (f x).
Proof. unfold stream_at. intros Hs. cbn. by rewrite list_lookup_alter_eq, Hs. Qed.

Lemma usecase_at_upd st r f u :
  usecase_at st r = Some u → usecase_at (upd_usecase r f st) r = Some (f u).
Proof.
  unfold usecase_at, upd_usecase. destruct (stream_at st r.1) as [x|] eqn:Hx; [|done].
  cbn [mbind option_bind]. intros Hu. erewrite stream_at_upd by done. cbn.
  by rewrite list_lookup_alter_eq, Hu.
Qed.

(** A pointer to an object that exists. *)
Definition live_device st d := is_Some (device_at st d).
Definition live_stream st s := is_Some (stream_at st s).
Definition live_path st r := is_Some (path_at st r).
Definition live_usecase st r := is_Some (usecase_at st r).
Definition live_scase st r := is_Some (scase_at st r).

Lemma grows_device st st' d : grows st st' → live_device st d → live_device st' d.
Proof. intros [Hg _] [dev Hd]. destruct (Hg _ _ Hd) as (? & ? & _). by eexists. Qed.

Lemma grows_stream st st' s : grows st st' → live_stream st s → live_stream st' s.
Proof. intros [_ Hg] [x Hx]. destruct (Hg _ _ Hx) as (? & ? & _). by eexists. Qed.

Lemma grows_path st st' d p :
  grows st st' → live_path st (DevicePath d p) → live_path st' (DevicePath d p).
Proof.
  intros [Hg _]. unfold live_path. cbn [path_at].
  destruct (device_at st d) as [dev|] eqn:Hd; [|by intros [? [=]]]. cbn.
  destruct (Hg _ _ Hd) as (dev' & -> & Hl). cbn. rewrite !lookup_lt_is_Some. lia.
Qed.

Lemma grows_usecase st st' r : grows st st' → live_usecase st r → live_usecase st' r.
Proof.
  intros [_ Hg]. unfold live_usecase, usecase_at.
  destruct (stream_at st r.1) as [x|] eqn:Hx; [|by intros [? [=]]]. cbn.
  destruct (Hg _ _ Hx) as (x' & -> & Hl). cbn. intros [y Hy].
  destruct (Hl _ _ Hy) as (y' & -> & _). by eexists.
Qed.

Lemma grows_scase st st' r : grows st st' → live_scase st r → live_scase st' r.
Proof.
  intros [_ Hg]. unfold live_scase, scase_at, usecase_at.
  destruct (stream_at st r.1.1) as [x|] eqn:Hx; [|by intros [? [=]]]. cbn.
  destruct (Hg _ _ Hx) as (x' & -> & Hl). cbn.
  destruct (da_items (s_usecases x) !! r.1.2) as [y|] eqn:Hy; [|by intros [? [=]]]. cbn.
  destruct (Hl _ _ Hy) as (y' & -> & Hle). cbn. rewrite !lookup_lt_is_Some. lia.
Qed.

(** The pointers in [current] at a place: those the handlers of the place and
    of the elements in it follow. *)
Definition cur_ok (pl : place) st : Prop :=
  let c := ps_current st in
  match pl with
  | PPath | PPathCtl => ∃ d p, cur_device c = Some d ∧ live_device st d
      ∧ cur_path c = Some (DevicePath d p) ∧ live_path st (DevicePath d p)
  | _ => cur_path c = None ∨ cur_path c = Some InitPath
  end ∧
  match pl with
  | PInit | PInitCtl => cur_path c = Some InitPath
  | PDevice => ∃ d, cur_device c = Some d ∧ live_device st d
  | PStream | PEnable | PDisable | PVolume => ∃ s, cur_stream c = Some s ∧ live_stream st s
  | PUsecase => ∃ s u, cur_stream c = Some s ∧ live_stream st s
      ∧ cur_usecase c = Some (s, u) ∧ live_usecase st (s, u)
  | PCase | PCaseCtl => ∃ s u k, cur_stream c = Some s ∧ live_stream st s
      ∧ cur_usecase c = Some (s, u) ∧ live_usecase st (s, u)
      ∧ cur_scase c = Some (s, u, k) ∧ live_scase st (s, u, k)
  | PProbe | PProbeCase => cur_codec_probe c = true
  | _ => True
  end.

Lemma cur_grows pl st st' :
  grows st st' → ps_current st' = ps_current st → cur_ok pl st → cur_ok pl st'.
Proof.
  intros Hg Hc [H1 H2]. unfold cur_ok. rewrite Hc. split.
  - destruct pl; try done; destruct H1 as (d & p & ? & ? & ? & ?); exists d, p;
      split_and!; eauto using grows_device, grows_path.
  - destruct pl; try done.
    + destruct H2 as (d & ? & ?). exists d. eauto using grows_device.
    + destruct H2 as (s & ? & ?). exists s. eauto using grows_stream.
    + destruct H2 as (s & ? & ?). exists s. eauto using grows_stream.
    + destruct H2 as (s & ? & ?). exists s. eauto using grows_stream.
    + destruct H2 as (s & ? & ?). exists s. eauto using grows_stream.
    + destruct H2 as (s & u & ? & ? & ? & ?). exists s, u.
      split_and!; eauto using grows_stream, grows_usecase.
    + destruct H2 as (s & u & k & ? & ? & ? & ? & ? & ?). exists s, u, k.
      split_and!; eauto using grows_stream, grows_usecase, grows_scase.
    + destruct H2 as (s & u & k & ? & ? & ? & ? & ? & ?). exists s, u, k.
      split_and!; eauto using grows_stream, grows_usecase, grows_scase.
Qed.

End objs.
