(* ===== verification/ParserHandlers.v ===== *)
(** * The handlers keep the objects in order

    Each handler, started at a place of the element tree with its pointers
    live, executes no undefined behaviour but the two kinds [allowed] names,
    and keeps the objects of the configuration and the pointers in order. *)

From S2P Require Import Prelude Kernel Mixer MixerFacts ConfigData CStrings Expat Routing.
From S2P Require Import RefCount RouteInv RoutingFacts ParseState Parser ParserStack ParserObjs.
From Stdlib Require Import Ascii String.

#[global] Open Scope Z_scope.

Lemma scan_digits_nonneg base acc l :
  0 <= base → 0 <= acc → 0 <= (scan_digits base acc l).1.
Proof.
  intros Hb. revert acc. induction l as [|c l IH]; intros acc Ha; cbn [scan_digits]; [done|].
  assert (0 <= digit_value c).
  { unfold digit_value.
    repeat match goal with |- context [(?a <=? ?x)] => destruct (Z.leb_spec a x) end;
      cbn [andb]; lia. }
  destruct (_ <? _); [apply IH; nia|done].
Qed.

Lemma scan_number_nonneg l v rest : scan_number l = Some (v, rest) → 0 <= v.
Proof.
  assert (Hd : ∀ b l, 0 <= b → 0 <= (scan_digits b 0 l).1)
    by (intros; by apply scan_digits_nonneg).
  unfold scan_number. intros Hs.
  assert (∃ b l', 0 <= b ∧ scan_digits b 0 l' = (v, rest)) as (b & l' & Hb & He).
  { repeat case_match; simplify_eq;
      first [by exists 16; eexists|by exists 8; eexists|by exists 10; eexists]. }
  specialize (Hd b l' Hb). by rewrite He in Hd.
Qed.

Lemma string_to_uint_result r s :
  is_u32 r → is_u32 (string_to_uint r s).2 ∧ (string_to_uint r s).1 <= 0.
Proof.
  intros Hr. unfold string_to_uint. destruct s as [s|]; cbn; [|split; [done|errno_lia]].
  destruct (strtoul (to_chars s)) as [[v l]|] eqn:Hs; cbn; [|split; [done|errno_lia]].
  destruct l; cbn; [|split; [done|errno_lia]].
  destruct (Z.leb_spec v 0xFFFFFFFF); cbn; [|split; [done|errno_lia]]. split; [|lia].
  assert (0 <= v); [|unfold is_u32; lia].
  unfold strtoul in Hs.
  set (p := match skip_spaces (to_chars s) with
            | "-"%char :: l' => (true, l') | "+"%char :: l' => (false, l')
            | _ => (false, skip_spaces (to_chars s)) end) in Hs.
  destruct p as [neg l]. destruct (scan_number l) as [[n rest]|] eqn:Hn; [|done].
  apply scan_number_nonneg in Hn. injection Hs as <- _.
  destruct (ULONG_MAX <? n); [unfold ULONG_MAX; lia|]. destruct neg; [|done].
  apply (u32_range (- n)).
Qed.

(** ** New objects *)

Lemma new_object_spec {K A} (zero : A) f array :
  yields (K:=K) (new_object zero f array) (λ r,
    match r.1 with
    | None => r.2 = array
    | Some i => i = List.length (da_items array) ∧ da_items r.2 = da_items array ++ [f zero]
    end).
Proof.
  unfold new_object, dyn_array_extend.
  assert (Hok : ∀ m, yields (K:=K) (mret (Some (List.length (da_items array ++ [zero]) - 1)%nat,
      da_update (List.length (da_items array ++ [zero]) - 1) f
        (DynArray (da_items array ++ [zero]) m))) (λ r,
    match r.1 with
    | None => r.2 = array
    | Some i => i = List.length (da_items array) ∧ da_items r.2 = da_items array ++ [f zero]
    end)).
  { intros m. apply yields_ret. cbn [fst snd da_items da_update].
    rewrite length_app. cbn [List.length]. rewrite Nat.add_sub.
    split; [done|]. clear. induction (da_items array) as [|x l IH]; [done|].
    cbn. by f_equal. }
  cbv zeta. eapply (yields_bind _ _ (λ r : Z * dyn_array A,
    r.1 < 0 ∧ r.2 = array ∨ r.1 = 0 ∧ ∃ m, r.2 = DynArray (da_items array ++ [zero]) m)).
  - repeat yields_step; cbn [fst snd];
      first [done|left; split; [errno_lia|done]|by right; split; [|eexists]].
  - intros [rc a] Hr. cbn [fst snd] in Hr.
    destruct Hr as [[Hr ->]|[-> [m ->]]].
    + rewrite (proj2 (Z.ltb_lt rc 0)) by done. by apply yields_ret.
    + apply Hok.
Qed.

(** ** The specification of a handler *)

(** [free] of an object inside an array, a second [free] of an array, and the null
    pointer of a failed [strdup], are the only undefined behaviours of the
    parser. *)
Definition allowed (f : fault) : Prop := f = BadFree ∨ f = DoubleFree ∨ f = BadAlloc.

Section handlers.
  Context {P : Type} `{!Expat P}.
  Context {K : Type} `{!AlsaCtl K, !AudioH, !Platform}.
  Implicit Types st : parse_state P.

(** What a handler leaves alone. *)
Definition frame st st' : Prop :=
  ps_stack st' = ps_stack st ∧ ps_stack_index st' = ps_stack_index st
  ∧ ps_parser st' = ps_parser st
  ∧ cp_new_xml_file (ps_init_probe st') = cp_new_xml_file (ps_init_probe st).

(** An error code, or the objects and pointers in order. *)
Definition handled (opened : bool) (pl : place) st (r : Z * parse_state P) : Prop :=
  r.1 <= 0 ∧ frame st r.2 ∧ (r.1 = 0 → objs_ok opened r.2 ∧ cur_ok pl r.2).

Lemma limits_required st i s :
  attrib st i = Some s → limits (K:=K) allowed (required st i) (λ x, x = s).
Proof. intros Hs. unfold required. rewrite Hs. by apply limits_ret. Qed.

Lemma limits_strdup s :
  limits (K:=K) allowed (strdup s) (λ x, x = Some s ∨ x = None).
Proof.
  apply limits_yields. unfold strdup. yields_step; apply yields_ret; auto.
Qed.

Lemma limits_error opened pl st st' e :
  e < 0 → frame st st' → limits (K:=K) allowed (mret (e, st')) (handled opened pl st).
Proof. intros He Hf. apply limits_ret. split_and!; [cbn; lia|done|cbn; lia]. Qed.

Lemma limits_done opened pl st st' :
  frame st st' → objs_ok opened st' → cur_ok pl st' →
  limits (K:=K) allowed (mret (0, st')) (handled opened pl st).
Proof. intros. apply limits_ret. split_and!; done. Qed.

Lemma frame_refl st : frame st st.
Proof. done. Qed.

Lemma attrib_u32 d st i :
  is_u32 d → is_u32 (attrib_to_uint d st i).2 ∧ (attrib_to_uint d st i).1 <= 0.
Proof. apply string_to_uint_result. Qed.

(** ** <ctl> *)

Definition ctl_place (pl : place) : Prop := pl = PInitCtl ∨ pl = PPathCtl ∨ pl = PCaseCtl.

(** There is an array for the control, whose controls are in order. *)
Lemma ctl_parent_live m st pl :
  ctl_place pl → objs m st → cur_ok (parent pl) st →
  ∃ r array, ctl_parent st = Some r ∧ ctl_array_of st r = Some array
             ∧ Forall (ctl_ok m) (da_items array).
Proof.
  intros Hpl Hm Hcur.
  assert (Hpath : ∀ r, cur_path (ps_current st) = Some r → live_path st r →
    ∃ r array, ctl_parent st = Some r ∧ ctl_array_of st r = Some array
               ∧ Forall (ctl_ok m) (da_items array)).
  { intros r Hr [p Hp]. exists (inl r), (p_ctls p). unfold ctl_parent. rewrite Hr.
    split; [done|]. cbn. rewrite Hp. split; [done|]. by apply (path_at_ok m st r p). }
  destruct Hpl as [-> |[-> | ->]]; destruct Hcur as [Hp1 Hp2]; cbn [parent] in *.
  - apply (Hpath InitPath); [done|by eexists].
  - destruct Hp1 as (d & p & _ & _ & Hp & Hlive). by eapply Hpath.
  - destruct Hp1 as [Hp1|Hp1]; [|by apply (Hpath InitPath); [|eexists]].
    destruct Hp2 as (s & u & k & _ & _ & _ & _ & Hk & [c Hc]).
    exists (inr (s, u, k)), (sc_ctls c). unfold ctl_parent. rewrite Hp1, Hk.
    split; [done|]. cbn [ctl_array_of]. rewrite Hc. split; [done|].
    by apply (scase_at_ok m st (s, u, k) c).
Qed.

Lemma set_ctl_array_objs m st r l :
  objs m st → Forall (ctl_ok m) (da_items l) → objs m (set_ctl_array r l st).
Proof.
  intros Hm Hl. destruct r as [r|r]; cbn [set_ctl_array].
  - by apply upd_path_objs.
  - by apply upd_scase_objs.
Qed.

Lemma set_ctl_array_frame st r l :
  frame st (set_ctl_array r l st) ∧ grows st (set_ctl_array r l st)
  ∧ ps_current (set_ctl_array r l st) = ps_current st.
Proof.
  destruct r as [[|d p]|r]; cbn [set_ctl_array]; (split; [done|split; [|done]]).
  - apply (upd_path_grows st InitPath).
  - apply (upd_path_grows st (DevicePath d p)).
  - apply upd_scase_grows.
Qed.

(** The place of a control needs the pointers of its parent. *)
Lemma ctl_place_cur pl st : ctl_place pl → cur_ok (parent pl) st → cur_ok pl st.
Proof. by intros [-> |[-> | ->]]. Qed.

Lemma ctl_open_code mx c : returns (S:=world K) (ctl_open mx c) (λ r, r.1 <= 0).
Proof.
  unfold ctl_open. destruct (negb _); [by apply returns_ret|].
  eapply returns_bind; [apply returns_true|]. intros f _.
  eapply returns_bind; [apply returns_true|]. intros f' _.
  destruct f' as [mctl|]; [|apply returns_ret; cbn; errno_lia]. cbv zeta.
  assert (Hu : returns (S:=world K) (val_str ← value_string c;
    let '(ret, v) := string_to_uint 0 (Some val_str) in
    if ret =? - EINVAL then mret (- EINVAL, c)
    else mret (0, set_c_opened (set_c_value c (VUint v)) (mixer_ctl_get_type (Some mctl))
                    (mixer_ctl_get_id (Some mctl)))) (λ r, r.1 <= 0)).
  { eapply returns_bind; [apply returns_true|]. intros s _.
    destruct (string_to_uint 0 (Some s)). destruct (_ =? _); apply returns_ret; cbn; errno_lia. }
  assert (He : returns (S:=world K) (mret (- EINVAL, c)) (λ r, r.1 <= 0))
    by (apply returns_ret; cbn; errno_lia).
  destruct (mixer_ctl_get_type (Some mctl)); try exact Hu; try exact He;
    [by apply returns_ret|].
  set (c0 := if c_index c =? INVALID_CTL_INDEX then set_c_index c 0 else c).
  eapply (returns_bind _ _ (λ r, r.1 <= 0)).
  - unfold make_byte_array. eapply returns_bind; [apply returns_true|]. intros s _. cbv zeta.
    eapply returns_bind; [apply returns_true|]. intros ok _.
    destruct (negb ok); [apply returns_ret; cbn; errno_lia|].
    destruct (_ <? _); [apply returns_ret; cbn; errno_lia|].
    destruct (_ <=? _); [apply returns_ret; cbn; errno_lia|].
    destruct (_ <? _); [apply returns_ret; cbn; errno_lia|].
    eapply returns_bind; [apply returns_true|]. intros ok' _.
    destruct (negb ok'); [apply returns_ret; cbn; errno_lia|].
    destruct (parse_bytes (strtok_commas s)) as [e|] eqn:Hp; apply returns_ret; cbn; [|lia].
    induction (strtok_commas s) as [|t l IH]; cbn [parse_bytes] in Hp; [done|].
    pose proof (string_to_uint_result 0 (Some t)) as Hr.
    destruct (string_to_uint 0 (Some t)) as [ret v]. cbn in Hr.
    destruct (negb (ret =? 0)); [injection Hp as <-; apply Hr; by apply (u32_range 0)|].
    destruct (parse_bytes l); [|done]. apply IH. congruence.
  - intros [ret c'] Hr. cbn in Hr. destruct (negb _); by apply returns_ret.
Qed.

Lemma limits_returns {A} (m : M (world K) A) Q R :
  limits allowed m Q → returns m R → limits allowed m (λ a, Q a ∧ R a).
Proof. intros Hm Hr w. destruct (Hm w) as [Hf HQ]. split; [done|]. split; [done|apply Hr]. Qed.

Lemma free_object_limits r i st :
  limits (K:=K) allowed (free_object r i st) (λ st', ∃ l, st' = set_freed l st).
Proof.
  unfold free_object. destruct (Nat.eqb i 0).
  - apply limits_ret. by eexists.
  - eapply (limits_bind _ _ _ (λ _, True)); [by apply limits_raise; [left|]|]. intros _ _.
    apply limits_ret. exists (ps_freed st). by destruct st.
Qed.

Lemma parse_ctl_start_ok pl st :
  ctl_place pl → (∃ s, attrib st e_attrib_name = Some s) →
  (∃ s, attrib st e_attrib_val = Some s ∧ short s) →
  objs_ok true st → cur_ok (parent pl) st →
  limits (K:=K) allowed (parse_ctl_start st) (handled true pl st).
Proof.
  intros Hpl [name Hname] (val & Hval & Hshort) [m Hm] Hcur. unfold parse_ctl_start.
  destruct (ctl_parent_live m st pl Hpl Hm Hcur) as (r & array & Hr & Ha & Hok).
  eapply limits_bind; [by apply limits_required|]. intros ? ->.
  eapply limits_bind; [apply limits_strdup|]. intros ? [-> | ->]; cbv zeta;
    [|by apply limits_error].
  rewrite Hr. cbn [mbind option_bind]. rewrite Ha. cbn [mbind option_bind].
  eapply limits_bind; [apply limits_yields, new_object_spec|].
  intros [i arr] Hi. cbn [fst snd] in Hi.
  assert (Hfr : ∀ l, frame st (set_ctl_array r l st)) by (intros l; apply set_ctl_array_frame).
  assert (Hfr' : ∀ l fr, frame st (set_ctl_array r l (set_freed fr st))).
  { intros l fr. apply (set_ctl_array_frame (set_freed fr st) r l). }
  destruct i as [i|]; [|by apply limits_error]. destruct Hi as [Hi Hit].
  pose proof (attrib_u32 INVALID_CTL_INDEX st e_attrib_index ltac:(done)) as [Hu _].
  destruct (attrib_to_uint INVALID_CTL_INDEX st e_attrib_index) as [ret index].
  cbn [snd] in Hu.
  apply limits_if; intros _.
  { eapply limits_bind; [apply free_object_limits|]. intros ? [l ->]. by apply limits_error. }
  eapply limits_bind; [by apply limits_required|]. intros ? ->.
  eapply limits_bind; [apply limits_strdup|]. intros ? [-> | ->].
  2:{ eapply limits_bind; [apply free_object_limits|]. intros ? [l ->]. by apply limits_error. }
  rewrite (ob_mixer m st Hm). set (c := Ctl _ _ _ _ _ _).
  eapply limits_bind.
  { apply limits_returns; [|apply ctl_open_code].
    apply limits_yields, (ctl_open_safe m); [apply Hm|].
    left. split_and!; [done..|]. by exists val. }
  intros [ret' c'] [[Hc' _] Hle]. cbn [fst snd] in Hc', Hle.
  set (st' := set_ctl_array _ _ st).
  assert (Hobj : objs m st').
  { apply set_ctl_array_objs; [done|]. cbn. rewrite Hit, list_alter_alter_eq, Hi.
    clear -Hok Hc'. induction Hok as [|x l Hx Hl IH]; cbn; constructor; try done; constructor. }
  assert (Hcur' : cur_ok pl st').
  { apply ctl_place_cur; [done|]. eapply cur_grows; [apply set_ctl_array_frame..|done]. }
  apply limits_if; intros _.
  - apply limits_done; [apply Hfr|by exists m|done].
  - apply limits_ret. split_and!; [done|apply Hfr|]. intros _. split; [by exists m|done].
Qed.

(** ** Arrays that grow or shrink to fit *)

Lemma dyn_array_fix_items {A} (a : dyn_array A) :
  yields (K:=K) (dyn_array_fix a) (λ r, da_items r = da_items a).
Proof. unfold dyn_array_fix. yields_step; by apply yields_ret. Qed.

Lemma limits_fix {A B} (a : dyn_array A) (f : dyn_array A → M (world K) B) Q :
  (∀ l, da_items l = da_items a → limits allowed (f l) Q) →
  limits allowed (dyn_array_fix a ≫= f) Q.
Proof. intros Hf. eapply limits_bind; [apply limits_yields, dyn_array_fix_items|done]. Qed.

Lemma limits_new {A B} (zero : A) g array (f : option nat * dyn_array A → M (world K) B) Q :
  (limits allowed (f (None, array)) Q) →
  (∀ l, da_items l = da_items array ++ [g zero] →
     limits allowed (f (Some (List.length (da_items array)), l)) Q) →
  limits allowed (new_object zero g array ≫= f) Q.
Proof.
  intros Hnone Hsome. eapply limits_bind; [apply limits_yields, new_object_spec|].
  intros [[i|] l]; cbn [fst snd]; [intros [-> Hl]; by apply Hsome|by intros ->].
Qed.

(** ** <init> and the codec probe *)

Lemma parse_init_start_ok st :
  objs_ok true st → limits (K:=K) allowed (parse_init_start st) (handled true PInit st).
Proof.
  intros Hobj. apply limits_done; [done| |by split; [right|]].
  by eapply objs_ok_ext; [..|exact Hobj].
Qed.

Lemma parse_codec_case_start_ok st :
  (∃ s, attrib st e_attrib_name = Some s) → (∃ s, attrib st e_attrib_file = Some s) →
  objs_ok false st → cur_ok PProbe st →
  limits (K:=K) allowed (parse_codec_case_start st) (handled false PProbeCase st).
Proof.
  intros [name Hname] [file Hfile] Hobj Hcur. unfold parse_codec_case_start.
  eapply limits_bind; [by apply limits_required|]. intros ? ->.
  eapply limits_bind; [apply limits_strdup|]. intros codec _.
  eapply limits_bind; [by apply limits_required|]. intros ? ->.
  eapply limits_bind; [apply limits_strdup|]. intros f _.
  pose proof Hcur as [_ Hc]. rewrite Hc. cbn [negb]. cbv zeta.
  apply limits_new; [by apply limits_error|]. intros l _.
  apply limits_done; [done| |].
  - by eapply objs_ok_ext; [..|exact Hobj].
  - by eapply (cur_grows PProbe st); [apply grows_cm| |].
Qed.

Lemma parse_codec_probe_start_ok st :
  (∃ s, attrib st e_attrib_file = Some s) → objs_ok false st → cur_ok PHal st →
  limits (K:=K) allowed (parse_codec_probe_start st) (handled false PProbe st).
Proof.
  intros [file Hfile] Hobj [Hcur _]. unfold parse_codec_probe_start.
  eapply limits_bind; [by apply limits_required|]. intros ? ->.
  eapply limits_bind; [apply limits_strdup|]. intros f _. cbv zeta.
  destruct (cp_file (ps_init_probe st)); [by apply limits_error|].
  apply limits_done; [done| |by split].
  by eapply objs_ok_ext; [..|exact Hobj].
Qed.

(** ** <path> *)

Lemma find_last_spec name i l :
  match find_last name i l with
  | Some j => (i <= j)%nat ∧ l !! (j - i)%nat = Some name
  | None => name ∉ l
  end.
Proof.
  revert i. induction l as [|n l IH]; intros i; cbn [find_last]; [set_solver|].
  specialize (IH (S i)). destruct (find_last name (S i) l) as [j|].
  - destruct IH as [Hle Hl]. split; [lia|]. destruct (j - i)%nat as [|d] eqn:E; [lia|].
    cbn. by replace d with (j - S i)%nat by lia.
  - case_bool_decide as Hn; [|set_solver]. rewrite Nat.sub_diag. by subst.
Qed.

(** In a list without repetitions a name is found at its index. *)
Lemma find_path_name_at names i name :
  NoDup (da_items names) → da_items names !! i = Some name →
  find_path_name names name = Z.of_nat i.
Proof.
  intros Hnd Hi. unfold find_path_name. pose proof (find_last_spec name 0 (da_items names)) as Hf.
  destruct (find_last name 0 (da_items names)) as [j|].
  - destruct Hf as [_ Hj]. rewrite Nat.sub_0_r in Hj. f_equal. by eapply NoDup_lookup.
  - destruct Hf. by eapply list_elem_of_lookup_2.
Qed.

Lemma add_path_name_yields array name :
  yields (K:=K) (add_path_name array name) (λ r,
    (0 <= r.1 ∨ r.1 = - ENOMEM)
    ∧ (0 <= r.1 → da_items r.2 !! Z.to_nat r.1 = Some name)
    ∧ (NoDup (da_items array) → NoDup (da_items r.2))
    ∧ (∃ l, da_items r.2 = da_items array ++ l)).
Proof.
  unfold add_path_name, find_path_name.
  pose proof (find_last_spec name) as Hfind.
  specialize (Hfind 0%nat (da_items array)).
  destruct (find_last name 0 (da_items array)) as [j|].
  - rewrite (proj2 (Z.leb_le 0 (Z.of_nat j))) by lia. apply yields_ret. cbn [fst snd].
    rewrite Nat2Z.id. destruct Hfind as [_ Hl]. rewrite Nat.sub_0_r in Hl.
    split_and!; [lia|done|done|]. exists []. by rewrite app_nil_r.
  - change (0 <=? - EINVAL) with false.
    assert (Hfail : ∀ a, a = array → yields (K:=K) (mret (- ENOMEM, a)) (λ r,
      (0 <= r.1 ∨ r.1 = - ENOMEM)
      ∧ (0 <= r.1 → da_items r.2 !! Z.to_nat r.1 = Some name)
      ∧ (NoDup (da_items array) → NoDup (da_items r.2))
      ∧ (∃ l, da_items r.2 = da_items array ++ l))).
    { intros a ->. apply yields_ret. cbn [fst snd]. split_and!; [by right|errno_lia|done|].
      exists []. by rewrite app_nil_r. }
    eapply yields_bind; [apply yields_alloc|intros ok _].
    apply yields_if; intros _; [by apply Hfail|].
    unfold new_name. eapply yields_bind.
    { eapply yields_bind; [apply new_object_spec|]. intros [i l] Hl.
      instantiate (1 := λ r, r = (- ENOMEM, array) ∨
        r.1 = Z.of_nat (List.length (da_items array)) ∧ da_items r.2 = da_items array ++ [name]).
      cbn [fst snd] in Hl.
      destruct i; apply yields_ret; [right; by destruct Hl as [-> ?]|left; by rewrite Hl]. }
    intros [index l] [[= -> ->]|[Hi Hl]]; [by apply Hfail|]. cbn [fst snd] in Hi, Hl.
    rewrite (proj2 (Z.ltb_ge index 0)) by lia. apply yields_ret. cbn [fst snd].
    split_and!; [lia| | |by eexists].
    + intros _. by rewrite Hl, Hi, Nat2Z.id, lookup_app_r, Nat.sub_diag by lia.
    + intros Hnd. rewrite Hl. apply NoDup_app. split_and!; [done| |apply NoDup_singleton].
      intros x Hx ->%list_elem_of_singleton. done.
Qed.

Lemma parse_path_start_ok st :
  (∃ s, attrib st e_attrib_name = Some s) → objs_ok true st → cur_ok PDevice st →
  limits (K:=K) allowed (parse_path_start st) (handled true PPath st).
Proof.
  intros [name Hname] [m Hm] [_ (d & Hd & dev & Hdev)]. unfold parse_path_start.
  eapply limits_bind; [by apply limits_required|]. intros ? ->.
  eapply limits_bind; [apply limits_yields, add_path_name_yields|].
  intros [id names] (Hid & _). cbn [fst] in Hid. cbv zeta.
  destruct (Z.ltb_spec id 0); [by apply limits_error|].
  set (st1 := set_path_names names st).
  change (ps_current st1) with (ps_current st). rewrite Hd. cbn [mbind option_bind].
  change (device_at st1 d) with (device_at st d). rewrite Hdev. cbn [mbind option_bind].
  unfold new_path. apply limits_new; [by apply limits_error|]. intros l Hl.
  set (f := λ dev, set_d_paths dev l).
  assert (Hg : grows st (upd_device d f st1)).
  { apply (upd_device_grows st1). intros x Hx. change (device_at st d = Some x) in Hx.
    cbn. rewrite Hl, length_app. simplify_eq. lia. }
  apply limits_done; [done| |].
  - exists m. eapply objs_ext with (st := upd_device d f st); [done..|].
    apply upd_device_objs; [done| |done]. intros x Hx (Hok & ? & ?). split; [|done].
    unfold device_ok. cbn. rewrite Hl. simplify_eq. apply Forall_app. split; [done|].
    constructor; [|constructor]. constructor.
  - split; [|done]. exists d, (List.length (da_items (d_paths dev))). cbn.
    split_and!; [done| |done|].
    + eapply (grows_device st); [exact Hg|by eexists].
    + exists (Path id da_empty). change (path_at (upd_device d f st1)
        (DevicePath d (List.length (da_items (d_paths dev)))) = Some (Path id da_empty)).
      cbn [path_at]. rewrite (device_at_upd st1 d f dev) by done. cbn. rewrite Hl.
      by rewrite lookup_app_r, Nat.sub_diag by lia.
Qed.

Lemma parse_path_end_ok st :
  objs_ok true st → cur_ok PPath st →
  limits (K:=K) allowed (parse_path_end st) (handled true PDevice st).
Proof.
  intros [m Hm] [(d & i & Hd & Hld & Hp & [p Hlp]) _]. unfold parse_path_end.
  rewrite Hp. cbn [mbind option_bind]. rewrite Hlp. cbn [mbind option_bind].
  eapply (limits_bind _ _ _ (path_ok m)).
  { unfold compress_path. apply limits_fix. intros l Hl. apply limits_ret.
    unfold path_ok. cbn. rewrite Hl. by apply (path_at_ok m st (DevicePath d i)). }
  intros p' Hp'. apply limits_done; [done| |].
  - exists m. eapply objs_ext with (st := upd_path (DevicePath d i) (λ _, p') st); [done..|].
    by apply upd_path_objs.
  - split; [by left|]. exists d. split; [done|].
    eapply (grows_device (upd_path (DevicePath d i) (λ _, p') st)); [by apply grows_cm|].
    eapply grows_device; [apply upd_path_grows|done].
Qed.

(** ** <usecase> and <case> *)

Lemma parse_case_start_ok st :
  (∃ s, attrib st e_attrib_name = Some s) → objs_ok true st → cur_ok PUsecase st →
  limits (K:=K) allowed (parse_case_start st) (handled true PCase st).
Proof.
  intros [name Hname] [m Hm] [Hp (s & u & Hs & Hls & Hu & [uc Huc])].
  unfold parse_case_start.
  eapply limits_bind; [by apply limits_required|]. intros ? ->.
  eapply limits_bind; [apply limits_strdup|]. intros ? [-> | ->]; [|by apply limits_error].
  rewrite Hu. cbn [mbind option_bind]. rewrite Huc. cbn [mbind option_bind].
  unfold new_case. apply limits_new; [by apply limits_error|]. intros l Hl.
  set (f := λ uc, set_uc_cases uc l). cbv zeta.
  assert (Hg : grows st (upd_usecase (s, u) f st)).
  { apply upd_stream_grows. intros x Hx v y Hy. cbn.
    destruct (decide (u = v)) as [<-|].
    - exists (f y). rewrite list_lookup_alter_eq, Hy. split; [done|]. cbn.
      rewrite Hl, length_app. unfold usecase_at in Huc. cbn [fst snd] in Huc, Hx.
      rewrite Hx in Huc. cbn in Huc. simplify_eq. lia.
    - exists y. by rewrite list_lookup_alter_ne. }
  apply limits_done; [done| |].
  - exists m. eapply objs_ext with (st := upd_usecase (s, u) f st); [done..|].
    apply upd_usecase_objs; [done|]. intros x Hx Hok. unfold usecase_ok. cbn. rewrite Hl.
    simplify_eq. apply Forall_app. split; [done|]. constructor; [|constructor]. constructor.
  - set (st' := set_cur_scase _ _).
    assert (Hg' : grows st st').
    { eapply grows_trans; [exact Hg|by apply grows_cm]. }
    split; [done|]. exists s, u, (List.length (da_items (uc_cases uc))).
    split_and!; [done|by eapply grows_stream|done| |done|].
    + eapply grows_usecase; [exact Hg'|by eexists].
    + exists (Scase name da_empty). unfold scase_at. cbn [fst snd].
      change (usecase_at st' (s, u)) with (usecase_at (upd_usecase (s, u) f st) (s, u)).
      rewrite (usecase_at_upd st (s, u) f uc) by done. cbn. rewrite Hl.
      by rewrite lookup_app_r, Nat.sub_diag by lia.
Qed.

Lemma parse_case_end_ok st :
  objs_ok true st → cur_ok PCase st →
  limits (K:=K) allowed (parse_case_end st) (handled true PUsecase st).
Proof.
  intros [m Hm] [Hp (s & u & k & Hs & Hls & Hu & Hlu & Hk & [c Hc])]. unfold parse_case_end.
  rewrite Hk. cbn [mbind option_bind]. rewrite Hc. cbn [mbind option_bind].
  eapply (limits_bind _ _ _ (case_ok m)).
  { unfold compress_case. apply limits_fix. intros l Hl. apply limits_ret.
    unfold case_ok. cbn. rewrite Hl. by apply (scase_at_ok m st (s, u, k)). }
  intros c' Hc'. set (st1 := upd_scase (s, u, k) (λ _, c') st).
  assert (Hg : grows st st1) by apply upd_scase_grows.
  apply limits_done; [done| |].
  - exists m. eapply objs_ext with (st := st1); [done..|]. by apply upd_scase_objs.
  - split; [done|]. exists s, u. split_and!; [done| |done|].
    + eapply (grows_stream st1); [by apply grows_cm|by eapply grows_stream].
    + eapply (grows_usecase st1); [by apply grows_cm|by eapply grows_usecase].
Qed.

Lemma parse_usecase_start_ok st :
  (∃ s, attrib st e_attrib_name = Some s) → objs_ok true st → cur_ok PStream st →
  limits (K:=K) allowed (parse_usecase_start st) (handled true PUsecase st).
Proof.
  intros [name Hname] [m Hm] [Hp (s & Hs & [x Hx])]. unfold parse_usecase_start.
  eapply limits_bind; [by apply limits_required|]. intros ? ->.
  eapply limits_bind; [apply limits_strdup|]. intros ? [-> | ->]; [|by apply limits_error].
  rewrite Hs. cbn [mbind option_bind]. rewrite Hx. cbn [mbind option_bind].
  unfold new_usecase. apply limits_new; [by apply limits_error|]. intros l Hl.
  set (f := λ x, set_s_usecases x l). cbv zeta.
  assert (Hg : grows st (upd_stream_at s f st)).
  { apply upd_stream_grows. intros y Hy v z Hz. simplify_eq. exists z. cbn.
    rewrite Hl, lookup_app_l by (by eapply lookup_lt_Some). done. }
  apply limits_done; [done| |].
  - exists m. eapply objs_ext with (st := upd_stream_at s f st); [done..|].
    apply upd_stream_objs; [done|]. intros y Hy (Hok & ?). simplify_eq. split; [|done].
    unfold usecases_ok. cbn. rewrite Hl. apply Forall_app. split; [done|].
    constructor; [|constructor]. constructor.
  - split; [done|]. exists s, (List.length (da_items (s_usecases x))).
    split_and!; [done| |done|].
    + eapply (grows_stream (upd_stream_at s f st)); [by apply grows_cm|].
      eapply grows_stream; [exact Hg|by eexists].
    + exists (Usecase name da_empty). unfold usecase_at. cbn [fst snd].
      change ((y ← stream_at (upd_stream_at s f st) s;
        da_items (s_usecases y) !! List.length (da_items (s_usecases x)))
        = Some (Usecase name da_empty)).
      rewrite (stream_at_upd st s f x) by done. cbn. rewrite Hl.
      by rewrite lookup_app_r, Nat.sub_diag by lia.
Qed.

Lemma parse_usecase_end_ok st :
  objs_ok true st → cur_ok PUsecase st →
  limits (K:=K) allowed (parse_usecase_end st) (handled true PStream st).
Proof.
  intros [m Hm] [Hp (s & u & Hs & Hls & Hu & [uc Huc])]. unfold parse_usecase_end.
  rewrite Hu. cbn [mbind option_bind]. rewrite Huc. cbn [mbind option_bind].
  eapply (limits_bind _ _ _ (λ uc', da_items (uc_cases uc') = da_items (uc_cases uc))).
  { unfold compress_usecase. apply limits_fix. intros l Hl. by apply limits_ret. }
  intros uc' Huc'. apply limits_done; [done| |].
  - exists m. apply upd_usecase_objs; [done|]. intros x Hx Hok. simplify_eq.
    unfold usecase_ok. by rewrite Huc'.
  - split; [done|]. exists s. split; [done|].
    eapply (grows_stream st); [|done]. apply upd_stream_grows.
    intros x Hx v y Hy. cbn. destruct (decide (u = v)) as [<-|].
    + exists uc'. rewrite list_lookup_alter_eq, Hy. split; [done|]. rewrite Huc'.
      unfold usecase_at in Huc. cbn [fst snd] in Huc, Hx. rewrite Hx in Huc. cbn in Huc.
      by simplify_eq.
    + exists y. by rewrite list_lookup_alter_ne.
Qed.

(** ** <enable>, <disable> and the volume controls of a stream *)

(** An update that leaves a stream's use-cases and counts alone. *)
Definition light (f : stream → stream) : Prop :=
  ∀ x, s_usecases (f x) = s_usecases x ∧ s_ref_count (f x) = s_ref_count x
       ∧ s_current_devices (f x) = s_current_devices x
       ∧ s_max_ref_count (f x) = s_max_ref_count x.

Lemma light_objs f s st : light f → objs_ok true st → objs_ok true (upd_stream_at s f st).
Proof.
  intros Hf [m Hm]. exists m. apply upd_stream_objs; [done|]. intros x _.
  destruct (Hf x) as (Hu & Hr & Hc & Hx). unfold str_ok, usecases_ok.
  by rewrite Hu, Hr, Hc, Hx.
Qed.

Lemma light_cur f s st pl : light f → cur_ok pl st → cur_ok pl (upd_stream_at s f st).
Proof.
  intros Hf. apply cur_grows; [|done]. apply upd_stream_grows. intros x _.
  destruct (Hf x) as (Hu & _). intros u y. rewrite Hu. eauto.
Qed.

Lemma parse_enable_disable_start_ok is_enable pl st :
  pl = PEnable ∨ pl = PDisable →
  (∃ s, attrib st e_attrib_path = Some s) → objs_ok true st → cur_ok PStream st →
  limits (K:=K) allowed (parse_enable_disable_start is_enable st) (handled true pl st).
Proof.
  intros Hpl [name Hname] Hobj Hcur. unfold parse_enable_disable_start.
  eapply limits_bind; [by apply limits_required|]. intros ? ->. cbv zeta.
  apply limits_if; intros _; [by apply limits_error|].
  pose proof Hcur as [_ (s & Hs & _)]. rewrite Hs.
  assert (Hpl' : ∀ st', cur_ok PStream st' → cur_ok pl st') by (by destruct Hpl as [-> | ->]).
  destruct is_enable; (apply limits_done; [done|by apply light_objs|]);
    apply Hpl'; by apply light_cur.
Qed.

Lemma parse_stream_ctl_start_ok st :
  (∃ s, attrib st e_attrib_name = Some s) → (∃ s, attrib st e_attrib_function = Some s) →
  objs_ok true st → cur_ok PStream st →
  limits (K:=K) allowed (parse_stream_ctl_start st) (handled true PVolume st).
Proof.
  intros [name Hname] [function Hfun] Hobj Hcur. unfold parse_stream_ctl_start.
  eapply limits_bind; [by apply limits_required|]. intros ? ->.
  eapply limits_bind; [by apply limits_required|]. intros ? ->.
  destruct Hobj as [m Hm]. rewrite (ob_mixer m st Hm).
  assert (Hobj : objs_ok true st) by (by exists m).
  eapply (limits_bind _ _ _ (λ _, True)).
  { apply limits_yields. by apply yields_ret. }
  intros [c|] _; [|by apply limits_error].
  set (idx := match attrib st e_attrib_index with
              | Some _ => attrib_to_uint 0 st e_attrib_index | None => (0, 0) end).
  destruct idx as [ret idx_val]. apply limits_if; intros _; [by apply limits_error|].
  set (left_vol := if bool_decide (function = "leftvol") then Some true
                   else if bool_decide (function = "rightvol") then Some false else None).
  destruct left_vol as [left_vol|]; [|by apply limits_error].
  pose proof Hcur as [_ (s & Hs & _)]. rewrite Hs. cbv zeta.
  assert (Hrange : ∀ st' i r e, range_bound st' i r = inl e → e < 0).
  { intros st' i r e. unfold range_bound. destruct (attrib_to_uint 0 st' i) as [ret' v].
    destruct (ret' =? - EINVAL); [intros [= <-]; errno_lia|].
    destruct (ret' =? - ENOENT); [|done]. destruct (Z.ltb_spec r 0); [|done].
    by intros [= <-]. }
  destruct (range_bound _ e_attrib_min _) as [e|lo] eqn:Hmin.
  { apply limits_error; [exact (Hrange _ _ _ _ Hmin)|done]. }
  destruct (range_bound _ e_attrib_max _) as [e|hi] eqn:Hmax.
  { apply limits_error; [exact (Hrange _ _ _ _ Hmax)|done]. }
  apply limits_done; [done| |].
  - by repeat (apply light_objs; [by intros y; destruct left_vol|]).
  - change (cur_ok PVolume) with (cur_ok (P:=P) PStream).
    by repeat (apply light_cur; [by intros y; destruct left_vol|]).
Qed.

(** ** <stream> *)

Lemma new_stream_ok m st l x :
  objs m st → da_items l = da_items (cm_streams (ps_cm st)) ++ [x] → str_ok m x →
  let st' := set_cm (set_cm_streams (ps_cm st) l) st in
  objs m st' ∧ grows st st'
  ∧ live_stream st' (List.length (da_items (cm_streams (ps_cm st)))).
Proof.
  intros Hm Hl Hx st'. split_and!.
  - destruct Hm as [? ? ? Hs ? ? ?]. split; try done. cbn. rewrite Hl.
    apply Forall_app. split; [done|]. by constructor; [|constructor].
  - split; [intros d dev Hd; by exists dev|].
    intros i y Hy. exists y. unfold stream_at in *. cbn. rewrite Hl.
    rewrite lookup_app_l by (by eapply lookup_lt_Some). split; [done|apply str_grows_refl].
  - exists x. unfold stream_at. cbn. by rewrite Hl, lookup_app_r, Nat.sub_diag by lia.
Qed.

Lemma finish_stream_ok m name card device maxref x :
  str_ok m x → str_ok m (finish_stream name card device maxref x).
Proof. intros (Hu & Hr & Hc & _). split_and!; [done..|apply s32_range]. Qed.

Variable indeterminate : Z.

Lemma parse_stream_start_ok st :
  (∃ s, attrib st e_attrib_type = Some s) → objs_ok true st → cur_ok PHal st →
  limits (K:=K) allowed (parse_stream_start indeterminate st) (handled true PStream st).
Proof.
  intros [type Htype] [m Hm] [Hp _]. unfold parse_stream_start.
  eapply limits_bind; [by apply limits_required|]. intros ? ->. cbv zeta.
  set (name := attrib st e_attrib_name).
  eapply (limits_bind _ _ _ (λ _, True)).
  { apply limits_yields. destruct name; [apply yields_alloc|by apply yields_ret]. }
  intros ok _. apply limits_if; intros _; [by apply limits_error|].
  apply limits_if; intros _; [by apply limits_error|].
  unfold new_stream. apply limits_new; [by apply limits_error|]. intros l Hl.
  set (i := List.length _).
  destruct (new_stream_ok m st l _ Hm Hl) as (Hm1 & Hg1 & Hlive).
  { split_and!; [constructor|done..]. }
  set (st1 := set_cm _ st) in *. change (attrib st1) with (attrib st).
  assert (Hf1 : frame st st1) by done.
  destruct (stream_dir _ _) as [out|]; [|by apply limits_error].
  destruct (stream_kind _ _ _ _ _) as [[[t card] device]|]; [|by apply limits_error].
  set (st2 := upd_stream_at i (set_hw_type t) st1).
  assert (Hm1' : objs_ok true st1) by (by exists m).
  destruct (attrib_to_uint card st2 e_attrib_card) as [r1 card'].
  apply limits_if; intros _; [by apply limits_error|].
  destruct (attrib_to_uint device st2 e_attrib_device) as [r2 device'].
  apply limits_if; intros _; [by apply limits_error|].
  destruct (attrib_to_uint INT_MAX st2 e_attrib_instances) as [r3 maxref].
  apply limits_if; intros _; [by apply limits_error|].
  unfold stream_attrib.
  destruct (attrib_to_uint 0 st2 e_attrib_rate) as [r4 rate].
  apply limits_if; intros _; [by apply limits_error|].
  set (st3 := upd_stream_at i (set_hw_rate rate) st2).
  destruct (attrib_to_uint 0 st3 e_attrib_period_count) as [r5 count].
  apply limits_if; intros _; [by apply limits_error|].
  set (st4 := upd_stream_at i (set_hw_period_count count) st3).
  destruct (attrib_to_uint 0 st4 e_attrib_period_size) as [r6 size].
  apply limits_if; intros _; [by apply limits_error|].
  set (st5 := upd_stream_at i (set_hw_period_size size) st4).
  assert (Hm5 : objs_ok true st5) by (by repeat (apply light_objs; [done|])).
  set (st6 := upd_stream_at i _ st5).
  apply limits_done; [done| |].
  - destruct Hm5 as [m' Hm5]. exists m'. eapply objs_ext with (st := st6); [done..|].
    apply upd_stream_objs; [done|]. intros x _. apply finish_stream_ok.
  - split; [done|]. exists i. split; [done|].
    assert (Hlight : ∀ f st', (∀ x, s_usecases (f x) = s_usecases x) →
      live_stream st' i → live_stream (upd_stream_at i f st') i).
    { intros f st' Hf. apply grows_stream, upd_stream_grows. intros x _ u y.
      rewrite Hf. eauto. }
    change (live_stream st6 i). by repeat (apply Hlight; [done|]).
Qed.

Lemma parse_stream_end_ok st :
  objs_ok true st → cur_ok PStream st →
  limits (K:=K) allowed (parse_stream_end st) (handled true PHal st).
Proof.
  intros [m Hm] [Hp (s & Hs & [x Hx])]. unfold parse_stream_end.
  rewrite Hs. cbn [mbind option_bind]. rewrite Hx. cbn [mbind option_bind].
  eapply (limits_bind _ _ _ (str_ok m)).
  { unfold compress_stream. apply limits_fix. intros l Hl. apply limits_ret.
    destruct (stream_at_ok m st s x Hm Hx) as (Hu & ?). split; [|done].
    unfold usecases_ok. cbn. by rewrite Hl. }
  intros x' Hx'. apply limits_done; [done| |].
  - exists m. by apply upd_stream_objs.
  - by split.
Qed.

(** ** <device> *)

Lemma match_device_in name flag :
  parse_match_device name device_table = Some flag → flag ∈ (device_table.*2).
Proof.
  generalize device_table. intros table. induction table as [|[n d] table IH];
    cbn [parse_match_device]; [done|].
  case_bool_decide; [intros [= ->]; by left|]. intros ?. right. by apply IH.
Qed.

Lemma within_lor t a b : within t a → within t (Z.lor a b).
Proof.
  unfold within. intros Ht. rewrite Z.land_lor_distr_r, Ht. apply Z.bits_inj'. intros n Hn.
  rewrite Z.lor_spec, Z.land_spec. by destruct (Z.testbit t n), (Z.testbit b n).
Qed.

Lemma within_lor_r t a : within t (Z.lor a t).
Proof.
  unfold within. apply Z.bits_inj'. intros n Hn. rewrite Z.land_spec, Z.lor_spec.
  by destruct (Z.testbit t n), (Z.testbit a n).
Qed.

Lemma parse_device_start_ok st :
  (∃ s, attrib st e_attrib_name = Some s) → objs_ok true st → cur_ok PHal st →
  limits (K:=K) allowed (parse_device_start st) (handled true PDevice st).
Proof.
  intros [name Hname] [m Hm] [Hp _]. unfold parse_device_start.
  eapply limits_bind; [by apply limits_required|]. intros ? ->.
  destruct (parse_match_device name device_table) as [flag|] eqn:Hflag; [|by apply limits_error].
  apply match_device_in in Hflag. cbv zeta.
  set (input := negb (Z.land flag AUDIO_DEVICE_BIT_IN =? 0)).
  set (existing := if input then cm_supported_input_devices (ps_cm st)
                   else cm_supported_output_devices (ps_cm st)).
  assert (Hex : supported (ps_cm st) flag = existing).
  { unfold supported, existing, input. by destruct (_ =? 0). }
  apply limits_if; intros Hdup; [by apply limits_error|].
  set (cm1 := if flag =? 0 then ps_cm st
              else if input then set_supported_input (ps_cm st) (Z.lor existing flag)
              else set_supported_output (ps_cm st) (Z.lor existing flag)).
  assert (Hcm1 : cm_mixer cm1 = cm_mixer (ps_cm st) ∧ cm_devices cm1 = cm_devices (ps_cm st)
                 ∧ cm_streams cm1 = cm_streams (ps_cm st)).
  { unfold cm1. by destruct (flag =? 0), input. }
  destruct Hcm1 as (Hmx & Hdv & Hst).
  unfold new_device. apply limits_new; [by apply limits_error|]. rewrite Hdv. intros l Hl.
  set (st1 := set_cm (set_cm_devices cm1 l) st).
  assert (Hsup : ∀ t, within t (supported (ps_cm st) t) → within t (supported cm1 t)).
  { intros t Ht. unfold cm1. destruct (flag =? 0); [done|].
    unfold supported, existing, input in *.
    destruct (Z.land flag AUDIO_DEVICE_BIT_IN =? 0); cbn [negb];
      destruct (Z.land t AUDIO_DEVICE_BIT_IN =? 0); cbn; try done; by apply within_lor. }
  assert (Hm1 : objs m st1).
  { destruct Hm as [Hmix ? Hdevs Hstr ? Hk Hn].
    assert (Hty : types (ps_cm st1) = types (ps_cm st) ++ [flag]).
    { unfold types. cbn. by rewrite Hl, fmap_app. }
    split; [cbn; congruence|done| |cbn; congruence|done| |].
    - cbn. rewrite Hl. apply Forall_app. split; [done|]. constructor; [|constructor].
      split_and!; [constructor|done..].
    - rewrite Hty. apply Forall_app. split.
      + eapply Forall_impl; [exact Hk|]. intros t Ht Hnz. by apply Hsup, Ht.
      + constructor; [|constructor]. intros Hnz. unfold st1, cm1. cbn.
        rewrite (proj2 (Z.eqb_neq flag 0)) by done. unfold supported, existing, input.
        destruct (Z.land flag AUDIO_DEVICE_BIT_IN =? 0); cbn [negb];
          cbn; apply within_lor_r.
    - rewrite Hty, filter_app. apply NoDup_app. split_and!; [done| |].
      + intros t [Hnz Ht]%list_elem_of_filter Hin.
        apply list_elem_of_filter in Hin as [_ ->%list_elem_of_singleton].
        rewrite Forall_forall in Hk. specialize (Hk flag Ht Hnz).
        rewrite Hex in Hk. rewrite (proj2 (Z.eqb_neq flag 0) Hnz) in Hdup. cbn in Hdup.
        apply Z.eqb_neq in Hdup. done.
      + cbn. destruct (decide _); [apply NoDup_singleton|constructor]. }
  apply limits_done; [done| |].
  - exists m. by eapply objs_ext with (st := st1).
  - split; [done|]. exists (List.length (da_items (cm_devices (ps_cm st)))). split; [done|].
    exists (Device flag 0 da_empty). unfold device_at. cbn.
    by rewrite Hl, lookup_app_r, Nat.sub_diag by lia.
Qed.

Lemma parse_device_end_ok st :
  objs_ok true st → cur_ok PDevice st →
  limits (K:=K) allowed (parse_device_end st) (handled true PHal st).
Proof.
  intros [m Hm] [Hp (d & Hd & [dev Hdev])]. unfold parse_device_end.
  rewrite Hd. cbn [mbind option_bind]. rewrite Hdev. cbn [mbind option_bind].
  eapply (limits_bind _ _ _ (λ dev', dev_ok m dev' ∧ d_type dev' = d_type dev)).
  { unfold compress_device. apply limits_fix. intros l Hl. apply limits_ret.
    destruct (device_at_ok m st d dev Hm Hdev) as (Hok & ?). split; [|done].
    split; [|done]. unfold device_ok. cbn. by rewrite Hl. }
  intros dev' [Hdev' Hty]. apply limits_done; [done| |].
  - exists m. apply upd_device_objs; [done..|]. intros x Hx. congruence.
  - by split.
Qed.

End handlers.

(** ** <mixer> and the end of <codec_probe> *)

Section special_handlers.
  Context {P : Type} `{!Expat P, !ExpatLaws P}.
  Context {K : Type} `{!AlsaCtl K, !AlsaCtlLaws K, !CardLaws K, !AudioH, !Platform}.
  Implicit Types st : parse_state P.

Lemma parse_mixer_start_ok st :
  objs_ok false st → cur_ok PHal st → ps_stack_index st = 2 →
  limits (K:=K) allowed (parse_mixer_start st) (λ r,
    r.1 <= 0 ∧ ps_stack_index r.2 = 2 ∧ ps_parser r.2 = ps_parser st
    ∧ ps_init_probe r.2 = ps_init_probe st
    ∧ (r.1 ≠ 0 → ps_stack r.2 = ps_stack st)
    ∧ (r.1 = 0 → ps_stack r.2 = alter (set_valid_subelem (bits [e_elem_device; e_elem_stream]))
                                   1%nat (ps_stack st)
                 ∧ objs_ok true r.2 ∧ cur_ok PMixer r.2)).
Proof.
  intros (Hmix & Hd & Hs & Hi) [Hp _] Hidx. unfold parse_mixer_start.
  assert (Herr : ∀ e st', e < 0 → ps_stack_index st' = 2 → ps_parser st' = ps_parser st →
    ps_init_probe st' = ps_init_probe st → ps_stack st' = ps_stack st →
    limits (K:=K) allowed (mret (e, st')) (λ r,
      r.1 <= 0 ∧ ps_stack_index r.2 = 2 ∧ ps_parser r.2 = ps_parser st
      ∧ ps_init_probe r.2 = ps_init_probe st
      ∧ (r.1 ≠ 0 → ps_stack r.2 = ps_stack st)
      ∧ (r.1 = 0 → ps_stack r.2 = alter (set_valid_subelem (bits [e_elem_device; e_elem_stream]))
                                     1%nat (ps_stack st)
                   ∧ objs_ok true r.2 ∧ cur_ok PMixer r.2))).
  { intros e st' He ? ? ? ?. apply limits_ret. cbn [fst snd]. split_and!; try done; lia. }
  destruct (attrib_to_uint MIXER_CARD_DEFAULT st e_attrib_card) as [ret card].
  apply limits_if; intros _; [by apply Herr|].
  eapply limits_bind; [apply limits_yields, mixer_open_mixer_ok|]. intros m Hm. cbv zeta.
  destruct m as [m|]; [|by apply Herr].
  set (st1 := set_cm _ st). change (ps_stack_index st1) with (ps_stack_index st).
  rewrite Hidx. change ((1 <=? 2) && (2 <=? MAX_PARSE_DEPTH)) with true.
  eapply limits_bind; [by apply limits_ret with (Q := λ _, True)|]. intros _ _.
  apply limits_ret. cbn [fst snd]. split_and!; [lia|done|done|done|done|]. intros _.
  split; [done|]. split; [|by split].
  exists m. specialize (Hm m eq_refl).
  split; [done|done| | | | |]; cbn; unfold types; cbn; rewrite ?Hd, ?Hs; try constructor.
  unfold path_ok. cbn. rewrite Hi. constructor.
Qed.

Variable probe_attempts : nat.

(** The files the code waits for turn up. *)
Definition files_appear : Prop :=
  ∀ name, ∃ n, (n <= probe_attempts)%nat ∧ is_Some (sys_fopen name n).

Lemma wait_fopen_some name todo n k :
  (n <= k <= n + todo)%nat → is_Some (sys_fopen name k) →
  yields (K:=K) (wait_fopen todo n name) (λ r, is_Some r).
Proof.
  revert n. induction todo as [|todo IH]; intros n Hk Hs; cbn [wait_fopen];
    destruct (sys_fopen name n) eqn:Hf; try (apply yields_ret; by eexists).
  - replace k with n in Hs by lia. rewrite Hf in Hs. by destruct Hs.
  - apply IH; [|done]. destruct (decide (k = n)) as [->|]; [|lia].
    rewrite Hf in Hs. by destruct Hs.
Qed.

Lemma match_codec_limits codec l :
  limits (K:=K) allowed (match_codec codec l) (λ _, True).
Proof.
  induction l as [|cc l IH]; cbn [match_codec]; [by apply limits_ret|].
  destruct (cc_codec_name cc).
  - apply limits_if; intros _; [by apply limits_ret|done].
  - eapply (limits_bind _ _ _ (λ _, True)); [by apply limits_raise; [right; right|]|].
    intros _ _. by apply limits_ret.
Qed.

(** The state after the probe: the objects are untouched, and a redirection
    is pending only when the parser has been stopped. *)
Definition probed st st' : Prop :=
  ps_cm st' = ps_cm st ∧ ps_init_path st' = ps_init_path st
  ∧ ps_current st' = ps_current st ∧ ps_stack st' = ps_stack st
  ∧ ps_stack_index st' = ps_stack_index st
  ∧ XML_open (ps_parser st') = XML_open (ps_parser st)
  ∧ ps_parse_error st' = ps_parse_error st
  ∧ (cp_new_xml_file (ps_init_probe st') = None ∨ XML_stopped (ps_parser st') = true)
  ∧ (ps_parser st' = ps_parser st ∨ XML_stopped (ps_parser st') = true).

Lemma probe_config_file_ok st :
  files_appear → cp_new_xml_file (ps_init_probe st) = None →
  limits (K:=K) allowed (probe_config_file probe_attempts st) (λ r, probed st r.2).
Proof.
  intros Hfiles Hnew. unfold probe_config_file.
  assert (Hbad : ∀ st', probed st st' →
    limits (K:=K) allowed (_ ← raise BadAlloc; mret (0, st')) (λ r, probed st r.2)).
  { intros st' Hst'. eapply (limits_bind _ _ _ (λ _, True)).
    - by apply limits_raise; [right; right|].
    - intros _ _. by apply limits_ret. }
  assert (Hsame : probed st st) by (unfold probed; by auto 12).
  destruct (cp_file (ps_init_probe st)) as [name|]; [|by apply Hbad].
  destruct (Hfiles name) as (k & Hk & Hs).
  eapply limits_bind; [by apply limits_yields, (wait_fopen_some name _ 0 k); [lia|]|].
  intros fp [f ->]. destruct (fgets 40 f) as [buf|]; [|by apply limits_ret].
  cbv zeta. set (st1 := set_new_xml_file None st).
  assert (H1 : probed st st1) by (unfold probed; by auto 12).
  eapply limits_bind; [apply match_codec_limits|]. intros found _.
  destruct found as [cc|]; [|by apply limits_ret].
  destruct (cc_file cc) as [file|]; [|by apply Hbad].
  eapply limits_bind; [apply limits_yields, yields_alloc|]. intros ok _.
  destruct (if (ok : bool) then Some file else None) as [file'|]; [|by apply Hbad].
  change (ps_cur_xml_file st1) with (ps_cur_xml_file st).
  destruct (ps_cur_xml_file st) as [cur|]; [|by apply Hbad].
  apply limits_if; intros _; apply limits_ret; cbn [fst snd];
    unfold probed; cbn; rewrite stopped_stop, open_stop; by auto 12.
Qed.

Lemma parse_codec_probe_end_ok st :
  files_appear → cp_new_xml_file (ps_init_probe st) = None → cur_ok PProbe st →
  limits (K:=K) allowed (parse_codec_probe_end probe_attempts st) (λ r,
    r.1 = 0 ∧ ∃ st1, ps_cm st1 = ps_cm st ∧ ps_init_path st1 = ps_init_path st
      ∧ ps_stack st1 = ps_stack st ∧ ps_stack_index st1 = ps_stack_index st
      ∧ ps_parser st1 = ps_parser st ∧ cur_path (ps_current st1) = cur_path (ps_current st)
      ∧ probed st1 r.2).
Proof.
  intros Hfiles Hnew [Hp Hc]. unfold parse_codec_probe_end. rewrite Hc. cbn [negb].
  eapply (limits_bind _ _ _ (λ p, cp_new_xml_file p = None)).
  { unfold compress_probe. apply limits_fix. intros l _. by apply limits_ret. }
  intros probe Hprobe. cbv zeta. set (st1 := set_cur_codec_probe false _).
  eapply limits_bind; [by apply (probe_config_file_ok st1)|].
  intros [e st2] H2. apply limits_ret. split; [done|]. by exists st1.
Qed.

End special_handlers.
