(* ===== verification/ParserFacts.v ===== *)
(** * Correctness of the configuration parser

    The callbacks keep the parse stack at a place of the element tree and the
    objects in order; a configuration that is accepted can be handed to the
    routing layer. *)

From S2P Require Import Prelude Kernel SoftCard Mixer MixerFacts ConfigData CStrings Expat.
From S2P Require Import Routing RefCount RouteInv RoutingFacts ParseState Parser SoftXml.
From S2P Require Import ParserStack ParserObjs ParserHandlers.
From Stdlib Require Import Ascii String.

#[global] Open Scope Z_scope.

Section callbacks.
  Context {P : Type} `{!Expat P, !ExpatLaws P}.
  Context {K : Type} `{!AlsaCtl K, !AlsaCtlLaws K, !CardLaws K, !AudioH, !Platform}.
  Variable indeterminate : Z.
  Variable probe_attempts : nat.
  Hypothesis Hfiles : files_appear probe_attempts.
  Implicit Types st : parse_state P.

(** Most places have the mixer open; the codec probe's have not. *)
Definition place_opened (opened : bool) (pl : place) : Prop :=
  match pl with
  | PRoot | PHal => True
  | PProbe | PProbeCase => opened = false
  | _ => opened = true
  end.

(** The parser is at a place of the element tree. *)
Record at_place (opened : bool) (pl : place) st : Prop := {
  ap_opened : place_opened opened pl;
  ap_index : ps_stack_index st = Z.of_nat (depth pl);
  ap_stack : take (S (depth pl)) (ps_stack st) = entries opened pl;
  ap_objs : objs_ok opened st;
  ap_cur : cur_ok pl st;
  ap_open : XML_open (ps_parser st) = depth pl;
  ap_rooted : XML_rooted (ps_parser st) = false → opened = false
}.

(** A redirection to another file is pending: nothing has been built yet and
    the parser is stopped. *)
Definition redirecting st : Prop :=
  XML_stopped (ps_parser st) = true ∧ ps_parse_error st = 0
  ∧ objs_ok false st ∧ cur_ok PRoot st.

(** The invariant of the callbacks.  After an error only the stack matters. *)
Record good st : Prop := {
  gd_length : List.length (ps_stack st) = Z.to_nat MAX_PARSE_DEPTH;
  gd_index : 0 <= ps_stack_index st < MAX_PARSE_DEPTH;
  gd_root : ∃ v, ps_stack st !! 0%nat = Some (StackEntry 0 v);
  gd_error : ps_parse_error st <= 0;
  gd_place : ps_parse_error st = 0 → ∃ opened pl, at_place opened pl st;
  gd_redirect : cp_new_xml_file (ps_init_probe st) = None ∨ redirecting st
}.

(** ** Entries of the stack *)

Lemma stack_at_yields st i :
  List.length (ps_stack st) = Z.to_nat MAX_PARSE_DEPTH → 0 <= i < MAX_PARSE_DEPTH →
  yields (K:=K) (stack_at st i) (λ e, ps_stack st !! Z.to_nat i = Some e).
Proof.
  intros Hl Hi. unfold stack_at. rewrite (proj2 (Z.ltb_ge i 0)) by lia.
  destruct (lookup_lt_is_Some_2 (ps_stack st) (Z.to_nat i)) as [e He]; [lia|].
  rewrite He. by apply yields_ret.
Qed.

Lemma top_entry opened pl st e :
  at_place opened pl st → ps_stack st !! Z.to_nat (ps_stack_index st) = Some e →
  e = StackEntry (elem_at pl) (valid_at opened pl).
Proof.
  intros [_ Hi Hs _ _ _ _] He. rewrite Hi, Nat2Z.id in He.
  pose proof (entries_top opened pl) as Ht. rewrite <- Hs in Ht.
  rewrite lookup_take_lt in Ht by lia. congruence.
Qed.

Lemma take_insert_top {A} (l : list A) n x top :
  (n < List.length l)%nat → take n l = top → take (S n) (<[n := x]> l) = top ++ [x].
Proof.
  intros Hn Ht. rewrite (take_S_r _ _ x) by (by apply list_lookup_insert_eq).
  by rewrite take_insert_ge, Ht by lia.
Qed.

(** ** Start of an element *)

Lemma required_attr e st i :
  attribs_ok e st → (i < e_attrib_count)%nat → has_bit i (pe_required_attribs e) = true →
  ∃ s, attrib st i = Some s ∧ short s.
Proof. intros [Hr _]. apply Hr. Qed.

(** The state a handler is called in, at the place [k] whose entry has just
    been pushed. *)
Record entered (opened : bool) (k : place) (e : parse_element) st : Prop := {
  en_elem : elem_table !! elem_at k = Some e;
  en_attribs : attribs_ok e st;
  en_objs : objs_ok opened st;
  en_cur : cur_ok (parent k) st
}.

(** Places other than <audiohal>, <mixer> and the codec probe's, which have an
    open mixer. *)
Definition inner (k : place) : Prop :=
  k ≠ PRoot ∧ k ≠ PHal ∧ k ≠ PMixer ∧ k ≠ PProbe ∧ k ≠ PProbeCase.

Lemma inner_start k e st h :
  inner k → entered true k e st → mjoin (start_fns indeterminate !! elem_at k) = Some h →
  limits (K:=K) allowed (h st) (handled true k st).
Proof.
  intros Hin [He Ha Ho Hc] Hh.
  assert (Hreq : ∀ i, (i < e_attrib_count)%nat →
    has_bit i (pe_required_attribs e) = true → ∃ s, attrib st i = Some s ∧ short s)
    by (intros; by eapply required_attr).
  assert (Hreq' : ∀ i, (i < e_attrib_count)%nat →
    has_bit i (pe_required_attribs e) = true → ∃ s, attrib st i = Some s)
    by (intros i Hi Hb; destruct (Hreq i Hi Hb) as (s & ? & _); by exists s).
  destruct k; destruct Hin as (? & ? & ? & ? & ?); try done;
    cbn in Hh; injection Hh as <-; vm_compute in He; injection He as <-; cbn [parent] in Hc.
  - by apply parse_init_start_ok.
  - by apply parse_ctl_start_ok; [left|apply Hreq'; vm_compute; auto with arith|
      apply Hreq; vm_compute; auto with arith|..].
  - apply parse_device_start_ok; [|done..]. by apply Hreq'; vm_compute; auto with arith.
  - apply parse_path_start_ok; [|done..]. by apply Hreq'; vm_compute; auto with arith.
  - apply parse_ctl_start_ok; [by right; left|..]; [| |done..].
    + by apply Hreq'; vm_compute; auto with arith.
    + by apply Hreq; vm_compute; auto with arith.
  - apply parse_stream_start_ok; [|done..]. by apply Hreq'; vm_compute; auto with arith.
  - apply parse_enable_disable_start_ok; [by left| |done..].
    by apply Hreq'; vm_compute; auto with arith.
  - apply parse_enable_disable_start_ok; [by right| |done..].
    by apply Hreq'; vm_compute; auto with arith.
  - apply parse_stream_ctl_start_ok; [| |done..]; by apply Hreq'; vm_compute; auto with arith.
  - apply parse_usecase_start_ok; [|done..]. by apply Hreq'; vm_compute; auto with arith.
  - apply parse_case_start_ok; [|done..]. by apply Hreq'; vm_compute; auto with arith.
  - apply parse_ctl_start_ok; [by right; right|..]; [| |done..].
    + by apply Hreq'; vm_compute; auto with arith.
    + by apply Hreq; vm_compute; auto with arith.
Qed.

(** What the callbacks need of the stack in every case. *)
Definition sound_stack st : Prop :=
  List.length (ps_stack st) = Z.to_nat MAX_PARSE_DEPTH
  ∧ 0 <= ps_stack_index st < MAX_PARSE_DEPTH
  ∧ (∃ v, ps_stack st !! 0%nat = Some (StackEntry 0 v)).

Lemma good_error st e :
  e < 0 → sound_stack st → cp_new_xml_file (ps_init_probe st) = None →
  good (parse_set_error st e).
Proof. intros He (Hl & Hi & Hr) Hn. split; try done; cbn; [lia|lia|by left]. Qed.

Lemma good_at opened pl st :
  sound_stack st → cp_new_xml_file (ps_init_probe st) = None → ps_parse_error st = 0 →
  at_place opened pl st → good st.
Proof.
  intros (Hl & Hi & Hr) Hn He Hat. split; try done; [lia| |by left].
  intros _. by exists opened, pl.
Qed.

Lemma good_place opened pl st line :
  sound_stack st → cp_new_xml_file (ps_init_probe st) = None → at_place opened pl st →
  good (set_error 0 line st).
Proof.
  intros (Hl & Hi & Hr) Hn [Hop Hidx Hst Hob Hcu Hxo Hrt]. split; try done; [|by left].
  intros _. exists opened, pl. split; try done.
  by eapply objs_ok_ext; [..|exact Hob].
Qed.

(** The state after the push is sound, and spells the way to the place. *)
Definition push (k : place) (e : parse_element) st : parse_state P :=
  set_stack (ps_stack_index st + 1)
    (<[Z.to_nat (ps_stack_index st + 1) := StackEntry (elem_at k) (pe_valid_subelem e)]>
       (ps_stack st)) st.

Lemma push_sound opened k e st :
  good st → at_place opened (parent k) st → k ≠ PRoot →
  pe_valid_subelem e = valid_at opened k →
  sound_stack (push k e st) ∧ ps_stack_index (push k e st) = Z.of_nat (depth k)
  ∧ take (S (depth k)) (ps_stack (push k e st)) = entries opened k.
Proof.
  intros [Hl Hi [v Hr] _ _ _] [_ Hidx Hst _ _ _ _] Hk He.
  pose proof (depth_parent k Hk) as Hd. pose proof (depth_bound k) as Hb.
  unfold push, sound_stack. cbn [ps_stack ps_stack_index set_stack].
  assert (Hnat : Z.to_nat (ps_stack_index st + 1) = depth k) by lia.
  rewrite Hnat, length_insert. split_and!; [done|lia|lia| |lia|].
  - exists v. by rewrite list_lookup_insert_ne by lia.
  - rewrite entries_parent, He by done. apply take_insert_top; [lia|].
    rewrite <- Hst. f_equal. lia.
Qed.

(** What a handler leaves behind at the place just entered. *)
Lemma handled_good opened k st r :
  sound_stack st → cp_new_xml_file (ps_init_probe st) = None →
  place_opened opened k → ps_stack_index st = Z.of_nat (depth k) →
  take (S (depth k)) (ps_stack st) = entries opened k →
  XML_open (ps_parser st) = depth k → XML_rooted (ps_parser st) = true →
  handled opened k st r →
  good (parse_set_error r.2 r.1) ∧ ps_parser r.2 = ps_parser st.
Proof.
  intros Hs Hn Hop Hidx Hst Hxo Hrt (Hle & (Hs1 & Hs2 & Hs3 & Hs4) & Hok). split; [|done].
  assert (Hs' : sound_stack r.2) by (unfold sound_stack; by rewrite Hs1, Hs2).
  destruct (decide (r.1 = 0)) as [He|He].
  - rewrite He. destruct (Hok He). eapply (good_place opened k); [done|congruence|].
    split; try done; congruence.
  - apply good_error; [lia|done|congruence].
Qed.

Lemma take_alter_lt {A} (f : A → A) n i (l : list A) :
  (i < n)%nat → take n (alter f i l) = alter f i (take n l).
Proof.
  intros Hi. apply list_eq. intros j. destruct (decide (j < n)%nat).
  - rewrite lookup_take_lt by done. destruct (decide (i = j)) as [<-|].
    + by rewrite !list_lookup_alter_eq, lookup_take_lt.
    + by rewrite !list_lookup_alter_ne, lookup_take_lt.
  - rewrite lookup_take_ge by lia. rewrite list_lookup_alter_ne by lia.
    by rewrite lookup_take_ge by lia.
Qed.

(** The place of <mixer>: its handler opens the other elements. *)
Lemma mixer_good e st :
  sound_stack st → cp_new_xml_file (ps_init_probe st) = None →
  ps_stack_index st = 2 → take 3 (ps_stack st) = entries false PMixer →
  XML_open (ps_parser st) = depth PMixer → XML_rooted (ps_parser st) = true →
  entered false PMixer e st →
  limits (K:=K) allowed (parse_mixer_start st)
    (λ r, good (parse_set_error r.2 r.1) ∧ ps_parser r.2 = ps_parser st).
Proof.
  intros Hs Hn Hidx Hst Hxo Hrt [_ _ Ho Hc]. eapply limits_post.
  { by apply parse_mixer_start_ok. }
  intros r (Hle & Hi & Hp & Hpr & Herr & Hok). split; [|done].
  destruct Hs as (Hl & Hi0 & v & Hr). destruct (decide (r.1 = 0)) as [He|He].
  - rewrite He. destruct (Hok He) as (Hst' & Hob & Hcu).
    eapply (good_place true PMixer).
    + unfold sound_stack. rewrite Hst', Hi, length_alter. split_and!; [done|lia|done|].
      exists v. by rewrite list_lookup_alter_ne.
    + congruence.
    + split; try done; [|congruence|congruence]. rewrite Hst'.
      change (S (depth PMixer)) with 3%nat. by rewrite take_alter_lt, Hst by lia.
  - apply good_error; [lia| |congruence]. unfold sound_stack. rewrite Hi, Herr by done.
    split_and!; [done|lia|done|by exists v].
Qed.

(** A child of a place other than <audiohal>'s is entered with the mixer in the
    same state. *)
Lemma child_opened opened k :
  k ≠ PRoot → k ≠ PHal → k ≠ PMixer → place_opened opened (parent k) →
  (parent k = PHal → (k = PDevice ∨ k = PStream) ∧ opened = true
                     ∨ (k = PMixer ∨ k = PProbe) ∧ opened = false) →
  place_opened opened k.
Proof.
  intros H1 H2 H3 Hp Hhal.
  destruct k; try done; cbn in *;
    destruct (Hhal eq_refl) as [[[?|?] ?]|[[?|?] ?]]; done.
Qed.

(** The handler of the place just entered. *)
Lemma start_handler_good opened k e st h :
  sound_stack st → cp_new_xml_file (ps_init_probe st) = None →
  ps_stack_index st = Z.of_nat (depth k) →
  take (S (depth k)) (ps_stack st) = entries opened k →
  XML_open (ps_parser st) = depth k → XML_rooted (ps_parser st) = true →
  entered opened k e st →
  (if decide (k = PMixer) then opened = false else place_opened opened k) →
  k ≠ PRoot → k ≠ PHal →
  mjoin (start_fns indeterminate !! elem_at k) = Some h →
  limits (K:=K) allowed (h st)
    (λ r, good (parse_set_error r.2 r.1) ∧ ps_parser r.2 = ps_parser st).
Proof.
  intros Hs Hn Hidx Hst Hxo Hrt Hen Hop Hr Hh Hfn.
  destruct (decide (k = PMixer)) as [->|Hm].
  { subst opened. cbn in Hfn. injection Hfn as <-. by eapply mixer_good. }
  assert (Hgood : ∀ m, limits (K:=K) allowed m (handled opened k st) →
    limits (K:=K) allowed m (λ r, good (parse_set_error r.2 r.1) ∧ ps_parser r.2 = ps_parser st)).
  { intros m Hm'. eapply limits_post; [exact Hm'|]. intros r. by apply handled_good. }
  apply Hgood. pose proof Hen as [He Ha Ho Hc].
  assert (Hreq : ∀ i, (i < e_attrib_count)%nat →
    has_bit i (pe_required_attribs e) = true → ∃ s, attrib st i = Some s)
    by (intros i Hi Hb; destruct (required_attr e st i Ha Hi Hb) as (s & ? & _); by exists s).
  destruct (decide (k = PProbe)) as [->|Hp1].
  { cbn in Hop, Hfn. subst opened. injection Hfn as <-. vm_compute in He. injection He as <-.
    apply parse_codec_probe_start_ok; [|done..]. by apply Hreq; vm_compute; auto with arith. }
  destruct (decide (k = PProbeCase)) as [->|Hp2].
  { cbn in Hop, Hfn. subst opened. injection Hfn as <-. vm_compute in He. injection He as <-.
    apply parse_codec_case_start_ok; [| |done..]; by apply Hreq; vm_compute; auto with arith. }
  assert (opened = true) as -> by (by destruct k).
  by eapply inner_start.
Qed.

Lemma good_unstopped st e p :
  good st → XML_callback (ps_parser st) = Some (e, p) →
  cp_new_xml_file (ps_init_probe st) = None.
Proof.
  intros [_ _ _ _ _ [Hn|[Hs _]]] Hc; [done|]. by rewrite stopped_callback in Hc.
Qed.

Lemma section_start_good name attribs st p :
  good st → XML_callback (ps_parser st) = Some (XStart name attribs, p) →
  limits (K:=K) allowed (parse_section_start indeterminate name attribs (set_parser p st))
    (λ st', good st' ∧ ps_parser st' = p).
Proof.
  intros Hg Hcb. pose proof (good_unstopped _ _ _ Hg Hcb) as Hn.
  pose proof (attribs_short _ _ _ _ Hcb) as Hshort.
  assert (Hcb' := conj (open_start _ _ _ _ Hcb) Hcb). clear Hcb. rename Hcb' into Hcb.
  pose proof Hg as [Hl Hi Hr He Hpl _]. unfold parse_section_start.
  set (st0 := set_parser p st). change (ps_stack_index st0) with (ps_stack_index st).
  assert (Hs0 : sound_stack st0) by done.
  eapply limits_bind; [by apply limits_yields, stack_at_yields|]. intros entry Hentry.
  change (ps_parse_error st0) with (ps_parse_error st).
  destruct (Z.eqb_spec (ps_parse_error st) 0) as [He0|He0]; cbn [negb].
  2:{ apply limits_ret. split; [|done]. split; try done. by left. }
  destruct (Hpl He0) as (opened & pl & Hat).
  apply (top_entry opened pl st) in Hentry as ->; [|done]. cbn [se_valid_subelem].
  destruct (find_elem _ _ _ _) as [[i e]|] eqn:Hf.
  2:{ apply limits_ret. split; [|done]. apply (good_error st0); [done..]. }
  apply find_elem_spec in Hf as (_ & Htab & Hbit & _). rewrite Nat.sub_0_r in Htab.
  destruct (child_spec opened pl i e Hbit Htab) as (k & Hkr & <- & Hki & Hhal & Hnhal & Hop).
  subst i.
  pose proof (ap_index _ _ _ Hat) as Hidx. pose proof (depth_parent k Hkr) as Hd.
  pose proof (depth_bound k) as Hb.
  rewrite (proj2 (Z.leb_gt MAX_PARSE_DEPTH (ps_stack_index st))) by lia.
  eapply limits_bind.
  { apply limits_yields, yields_check, Z.ltb_lt. lia. }
  intros _ _. cbv zeta. change (set_stack _ _ st0) with (set_parser p (push k e st)).
  set (st1 := set_parser p (push k e st)).
  set (opened' := if decide (k = PHal) then false else opened).
  assert (Hval : pe_valid_subelem e = valid_at opened' k).
  { unfold opened'. destruct (decide (k = PHal)); auto. }
  assert (Hat' : at_place opened' (parent k) st).
  { unfold opened'. destruct (decide (k = PHal)) as [->|]; [|done]. cbn [parent] in *.
    destruct Hcb as [_ [_ Hroot]%rooted_start]. 
    assert (opened = false) as <-; [|done]. by apply Hat, Hroot, (ap_open _ _ _ Hat). }
  destruct (push_sound opened' k e st Hg Hat' Hkr Hval) as (Hs1 & Hidx1 & Hst1).
  destruct (extract_attribs_spec e attribs st1 Hshort) as (values & Hval1 & Hattr).
  destruct (extract_attribs e attribs st1) as [ret st2]. cbn [fst snd] in Hval1, Hattr. subst st2.
  set (st2 := set_attribs values st1) in *.
  destruct (Z.eqb_spec ret 0) as [->|]; cbn [negb].
  2:{ apply limits_ret. split; [|done]. by apply good_error. }
  specialize (Hattr eq_refl).
  destruct Hcb as [Hopen [Hrooted _]%rooted_start].
  assert (Hopen2 : XML_open (ps_parser st2) = depth k).
  { change (XML_open p = depth k). rewrite Hopen, (ap_open _ _ _ Hat). lia. }
  assert (Hen : entered opened' k e st2).
  { split; [done|done| |].
    - eapply objs_ok_ext; [..|apply (ap_objs _ _ _ Hat')]; done.
    - eapply cur_grows; [by apply grows_cm| |apply (ap_cur _ _ _ Hat')]. done. }
  assert (Hop' : k ≠ PMixer → place_opened opened' k).
  { intros Hm. unfold opened'. destruct (decide (k = PHal)) as [->|]; [done|].
    apply child_opened; try done. apply Hat. }
  destruct (mjoin (start_fns indeterminate !! elem_at k)) as [h|] eqn:Hh.
  - assert (k ≠ PHal) as Hnh by (by intros ->).
    eapply limits_bind.
    { eapply (start_handler_good opened' k e st2 h); try done.
      assert (opened' = opened) as Heq by (unfold opened'; by rewrite decide_False).
      destruct (decide (k = PMixer)) as [->|Hm]; [|by apply Hop'].
      rewrite Heq. by destruct (Hop eq_refl) as [[[?|?] _]|[_ ?]]. }
    intros [error st3] Hst3. by apply limits_ret.
  - assert (k = PHal) as -> by (by destruct k).
    apply limits_ret. split; [|done]. apply (good_at false PHal st2); [done..|].
    change opened' with false in Hst1, Hen. pose proof Hen as [_ _ Hob Hcu].
    split; [done|done|done|done| |done|].
    + by destruct Hcu.
    + intros Hrt. cbn in Hrt. congruence.
Qed.

(** ** End of an element *)

(** [--state->stack.index], after the error code of the handler is stored. *)
Definition pop (error : Z) st : parse_state P :=
  set_stack (ps_stack_index st - 1) (ps_stack st) (set_error error (ps_error_line st) st).

Lemma take_parent opened pl st :
  pl ≠ PRoot → take (S (depth pl)) (ps_stack st) = entries opened pl →
  take (S (depth (parent pl))) (ps_stack st) = entries opened (parent pl).
Proof.
  intros Hr Ht. rewrite entries_parent in Ht by done.
  pose proof (depth_parent pl Hr). pose proof (entries_length opened (parent pl)) as Hl.
  assert (Hle : (S (depth (parent pl)) <= S (depth pl))%nat) by lia.
  rewrite <- (take_app_length (entries opened (parent pl))
                [StackEntry (elem_at pl) (valid_at opened pl)]), <- Ht, Hl, take_take.
  f_equal. lia.
Qed.

Lemma parent_opened opened pl : place_opened opened pl → place_opened opened (parent pl).
Proof. by destruct pl. Qed.

Lemma pop_sound pl st :
  pl ≠ PRoot → sound_stack st → ps_stack_index st = Z.of_nat (depth pl) →
  ∀ e, sound_stack (pop e st) ∧ ps_stack_index (pop e st) = Z.of_nat (depth (parent pl)).
Proof.
  intros Hr (Hl & Hi & Hv) Hidx e. pose proof (depth_parent pl Hr).
  unfold pop, sound_stack. cbn [ps_stack ps_stack_index set_stack set_error].
  split_and!; [done|lia|lia|done|lia].
Qed.

Lemma pop_handled opened pl st r :
  pl ≠ PRoot → sound_stack st → cp_new_xml_file (ps_init_probe st) = None →
  place_opened opened pl → ps_stack_index st = Z.of_nat (depth pl) →
  take (S (depth pl)) (ps_stack st) = entries opened pl →
  XML_open (ps_parser st) = depth (parent pl) →
  (XML_rooted (ps_parser st) = false → opened = false) →
  handled opened (parent pl) st r →
  good (pop r.1 r.2) ∧ ps_parser (pop r.1 r.2) = ps_parser st.
Proof.
  intros Hr Hs Hn Hop Hidx Hst Hxo Hrt (Hle & (Hs1 & Hs2 & Hs3 & Hs4) & Hok). split; [|done].
  assert (Hs' : sound_stack r.2) by (unfold sound_stack; by rewrite Hs1, Hs2).
  destruct (pop_sound pl r.2 Hr Hs' ltac:(congruence) r.1) as [Hp1 Hp2].
  assert (Hnew : cp_new_xml_file (ps_init_probe (pop r.1 r.2)) = None) by (cbn; congruence).
  destruct (decide (r.1 = 0)) as [He|He].
  - destruct (Hok He) as [Hob Hcu]. eapply (good_at opened (parent pl)); [done..|].
    split; [by apply parent_opened|done| | | | |].
    + cbn. rewrite Hs1. by apply take_parent.
    + eapply objs_ok_ext; [..|exact Hob]; done.
    + eapply cur_grows; [by apply grows_cm| |exact Hcu]. done.
    + change (XML_open (ps_parser r.2) = depth (parent pl)). congruence.
    + cbn. by rewrite Hs3.
  - destruct Hp1 as (Hl & Hi & Hv). split; try done. by left.
Qed.

(** Without an end handler the pointers of the parent are those of the place. *)
Lemma cur_parent pl st :
  mjoin (end_fns (P:=P) (K:=K) probe_attempts !! elem_at pl) = None → pl ≠ PRoot →
  cur_ok pl st → cur_ok (parent pl) st.
Proof.
  intros Hn Hr [Hc1 Hc2]. destruct pl; try done; cbn [parent]; split; try done; auto.
Qed.

Lemma end_handler_ok pl st h :
  objs_ok true st → cur_ok pl st → pl ≠ PProbe → pl ≠ PRoot →
  mjoin (end_fns probe_attempts !! elem_at pl) = Some h →
  limits (K:=K) allowed (h st) (handled true (parent pl) st).
Proof.
  intros Ho Hc Hp Hr Hh. destruct pl; try done; cbn in Hh; injection Hh as <-; cbn [parent].
  - by apply parse_device_end_ok.
  - by apply parse_path_end_ok.
  - by apply parse_stream_end_ok.
  - by apply parse_usecase_end_ok.
  - by apply parse_case_end_ok.
Qed.

(** The end of the codec probe may leave a redirection pending. *)
Lemma probe_end_good st :
  sound_stack st → cp_new_xml_file (ps_init_probe st) = None →
  ps_stack_index st = Z.of_nat (depth PProbe) →
  take (S (depth PProbe)) (ps_stack st) = entries false PProbe →
  XML_open (ps_parser st) = depth PHal → objs_ok false st → cur_ok PProbe st →
  limits (K:=K) allowed (parse_codec_probe_end probe_attempts st) (λ r,
    good (pop r.1 r.2)
    ∧ (ps_parser r.2 = ps_parser st ∨ XML_stopped (ps_parser r.2) = true)).
Proof.
  intros Hs Hn Hidx Hst Hxo Hob Hcu. eapply limits_post.
  { by apply parse_codec_probe_end_ok. }
  intros [e st2] (He & st1 & Hcm & Hip & Hsk & Hsi & Hpa & Hcp & Hpr). cbn [fst snd] in *.
  subst e. destruct Hpr as (Hcm2 & Hip2 & Hcu2 & Hsk2 & Hsi2 & Hxo2 & _ & Hnew2 & Hpar2).
  split; [|rewrite <- Hpa; done].
  assert (Hs2 : sound_stack st2) by (unfold sound_stack; by rewrite Hsk2, Hsi2, Hsk, Hsi).
  destruct (pop_sound PProbe st2 ltac:(done) Hs2 ltac:(congruence) 0) as [Hp1 Hp2].
  assert (Hob2 : objs_ok false (pop 0 st2)).
  { eapply objs_ok_ext; [..|exact Hob]; cbn; congruence. }
  assert (Hcp2 : cur_path (ps_current (pop 0 st2)) = None
                 ∨ cur_path (ps_current (pop 0 st2)) = Some InitPath).
  { cbn. rewrite Hcu2, Hcp. by destruct Hcu. }
  destruct Hp1 as (Hl & Hi & Hv). split; try done.
  - intros _. exists false, PHal. split; try done.
    + cbn. rewrite Hsk2, Hsk. by apply (take_parent false PProbe).
    + change (XML_open (ps_parser st2) = depth PHal). congruence.
  - destruct Hnew2 as [Hnew2|Hstop]; [by left|right]. by split_and!.
Qed.

Lemma section_end_good name st p :
  good st → XML_callback (ps_parser st) = Some (XEnd name, p) →
  limits (K:=K) allowed (parse_section_end probe_attempts (set_parser p st))
    (λ st', good st' ∧ (ps_parser st' = p ∨ XML_stopped (ps_parser st') = true)).
Proof.
  intros Hg Hcb. pose proof (good_unstopped _ _ _ Hg Hcb) as Hn.
  pose proof (open_end _ _ _ Hcb) as Hopen. pose proof (rooted_end _ _ _ Hcb) as Hroot.
  pose proof Hg as [Hl Hi Hr He Hpl _]. unfold parse_section_end.
  set (st0 := set_parser p st). change (ps_stack_index st0) with (ps_stack_index st).
  assert (Hs0 : sound_stack st0) by done.
  eapply limits_bind; [by apply limits_yields, stack_at_yields|]. intros entry Hentry.
  change (ps_parse_error st0) with (ps_parse_error st).
  destruct (Z.eqb_spec (ps_parse_error st) 0) as [He0|He0]; cbn [negb].
  2:{ apply limits_ret. split; [|by left]. split; try done. by left. }
  destruct (Hpl He0) as (opened & pl & Hat).
  apply (top_entry opened pl st) in Hentry as ->; [|done]. cbn [se_elem_index].
  pose proof Hat as [Hop Hidx Hst Hob Hcu Hxo Hrt].
  assert (Hnr : pl ≠ PRoot) by (intros ->; rewrite Hxo in Hopen; done).
  pose proof (depth_parent pl Hnr) as Hd.
  assert (Hxo0 : XML_open (ps_parser st0) = depth (parent pl))
    by (change (XML_open p = depth (parent pl)); lia).
  assert (Hob0 : objs_ok opened st0) by (eapply objs_ok_ext; [..|exact Hob]; done).
  assert (Hcu0 : cur_ok pl st0) by (eapply cur_grows; [by apply grows_cm| |exact Hcu]; done).
  destruct (mjoin (end_fns probe_attempts !! elem_at pl)) as [h|] eqn:Hh.
  - eapply limits_bind; [|intros st' Hst'; apply limits_ret; exact Hst'].
    eapply (limits_bind _ _ _ (λ r, good (pop r.1 r.2)
      ∧ (ps_parser r.2 = p ∨ XML_stopped (ps_parser r.2) = true))).
    + destruct (decide (pl = PProbe)) as [->|Hnp].
      * cbn in Hop, Hh. subst opened. injection Hh as <-. by apply (probe_end_good st0).
      * assert (opened = true) as -> by (by destruct pl).
        eapply limits_post; [by eapply end_handler_ok|].
        intros r Hr'. destruct (pop_handled true pl st0 r) as [? ?]; try done.
        -- change (XML_rooted p = false → true = false). by rewrite Hroot.
        -- split; [done|by left].
    + intros [error st'] Hst'. apply limits_ret. exact Hst'.
  - eapply limits_bind; [by apply limits_ret with (Q := λ x, x = st0)|]. intros ? ->.
    apply limits_ret. split; [|by left].
    destruct (pop_sound pl st0 Hnr Hs0 Hidx 0) as [Hp1 Hp2].
    apply (good_at opened (parent pl)); [done..|].
    split; [by apply parent_opened|done|by apply take_parent| | |done|].
    + eapply objs_ok_ext; [..|exact Hob]; done.
    + apply cur_parent in Hcu0; [|done..].
      eapply cur_grows; [by apply grows_cm| |exact Hcu0]; done.
    + change (XML_rooted p = false → opened = false). by rewrite Hroot.
Qed.

(** ** The driver *)

Lemma handle_event_good e st p :
  good st → XML_callback (ps_parser st) = Some (e, p) →
  limits (K:=K) allowed (handle_event indeterminate probe_attempts e (set_parser p st))
    (λ st', good st' ∧ (ps_parser st' = p ∨ XML_stopped (ps_parser st') = true)).
Proof.
  intros Hg Hcb. destruct e as [name attribs|name]; cbn [handle_event].
  - eapply limits_post; [by apply section_start_good|]. intros st' [? ?]. auto.
  - by eapply section_end_good.
Qed.

(** The budget of the parser is enough fuel for its callbacks. *)
Lemma run_callbacks_good fuel st :
  good st → (XML_budget (ps_parser st) <= fuel)%nat →
  limits (K:=K) allowed (run_callbacks indeterminate probe_attempts fuel st) good.
Proof.
  revert st. induction fuel as [|fuel IH]; intros st Hg Hb; cbn [run_callbacks];
    (destruct (XML_callback (ps_parser st)) as [[e p]|] eqn:Hcb; [|by apply limits_ret]);
    pose proof (budget_callback _ _ _ Hcb) as Hlt; [lia|].
  eapply limits_bind; [by apply handle_event_good|]. intros st' [Hg' [Hp|Hs]].
  - apply IH; [done|]. rewrite Hp. lia.
  - destruct fuel; cbn [run_callbacks]; rewrite stopped_callback by done; by apply limits_ret.
Qed.

Lemma good_set_parser st p :
  good st → XML_open p = XML_open (ps_parser st) → XML_rooted p = XML_rooted (ps_parser st) →
  (XML_stopped (ps_parser st) = true → XML_stopped p = true) → good (set_parser p st).
Proof.
  intros [Hl Hi Hr He Hpl Hrd] Ho Hrt Hst. split; try done.
  - intros He0. destruct (Hpl He0) as (opened & pl & [? ? ? Hob ? ? ?]).
    exists opened, pl. split; try done.
    + by eapply objs_ok_ext; [..|exact Hob].
    + change (XML_open p = depth pl). congruence.
    + change (XML_rooted p = false → opened = false). rewrite Hrt. done.
  - destruct Hrd as [?|(? & ? & ? & ?)]; [by left|right]. split_and!; try done. by apply Hst.
Qed.

Lemma XML_Parse_good buf final st :
  good st → limits (K:=K) allowed (XML_Parse indeterminate probe_attempts buf final st) good.
Proof.
  intros Hg. unfold XML_Parse. cbv zeta. apply run_callbacks_good; [|done].
  apply good_set_parser; [done|apply open_feed|apply rooted_feed|apply stopped_feed].
Qed.

Lemma good_set_file f st : good st → good (set_file f st).
Proof.
  intros [Hl Hi Hr He Hpl Hrd]. split; try done.
  intros He0. destruct (Hpl He0) as (opened & pl & [? ? ? Hob ? ? ?]).
  exists opened, pl. split; try done. by eapply objs_ok_ext; [..|exact Hob].
Qed.

(** The outcome of a parse: success means no error was recorded. *)
Definition parsed (r : Z * parse_state P) : Prop :=
  good r.2 ∧ r.1 <= 0 ∧ (r.1 = 0 → ps_parse_error r.2 = 0).

Lemma div_small_steps n : (READ_SIZE <= n)%nat →
  Nat.div n READ_SIZE = S (Nat.div (n - READ_SIZE) READ_SIZE).
Proof.
  intros Hn. replace n with (n - READ_SIZE + 1 * READ_SIZE)%nat at 1 by lia.
  rewrite Nat.div_add by done. lia.
Qed.

(** One more read than there are full buffers reaches the end of the file. *)
Lemma read_loop_good fuel eof st f :
  good st → ps_parse_error st = 0 → ps_file st = Some f →
  (eof = false → (Nat.div (List.length (f_data f)) READ_SIZE < fuel)%nat) →
  limits (K:=K) allowed (read_loop indeterminate probe_attempts fuel eof st) parsed.
Proof.
  revert eof st f. induction fuel as [|fuel IH]; intros eof st f Hg He Hf Hfuel;
    cbn [read_loop]; rewrite He; cbn [Z.eqb negb]; rewrite orb_false_r;
    (destruct eof; [by apply limits_ret|]); specialize (Hfuel eq_refl); [lia|].
  - rewrite Hf. cbv zeta.
    set (buf := take READ_SIZE (f_data f)). set (st1 := set_file _ st).
    destruct ((List.length buf <? READ_SIZE)%nat && f_ioerr f).
    { apply limits_ret. split_and!; [by apply good_set_file|cbn; errno_lia|cbn; errno_lia]. }
    eapply limits_bind.
    { apply limits_returns; [by apply XML_Parse_good, good_set_file|].
      unfold XML_Parse. apply run_callbacks_file. }
    intros st2 [Hg2 Hf2]. unfold parse_log_error.
    destruct ((ps_parse_error st2 <? 0) || _) eqn:Herr.
    + apply limits_ret. split_and!; [done|cbn; errno_lia|cbn; errno_lia].
    + apply orb_false_iff in Herr as [Herr%Z.ltb_ge _].
      pose proof (gd_error _ Hg2). eapply IH; [done|lia|exact Hf2|]. intros Hlen%Nat.ltb_ge. cbn [f_data].
      unfold buf in Hlen. rewrite length_take in Hlen.
      rewrite length_drop. rewrite div_small_steps in Hfuel by lia. lia.
Qed.

(** A state a configuration file can be parsed from: nothing built so far. *)
Record ready_to_parse st : Prop := {
  rp_length : List.length (ps_stack st) = Z.to_nat MAX_PARSE_DEPTH;
  rp_root : ∃ v, ps_stack st !! 0%nat = Some (StackEntry 0 v);
  rp_objs : objs_ok false st;
  rp_cur : cur_ok PRoot st
}.

Lemma do_parse_good st :
  ready_to_parse st → XML_open (ps_parser st) = 0%nat →
  cp_new_xml_file (ps_init_probe st) = None → is_Some (ps_file st) →
  limits (K:=K) allowed (do_parse indeterminate probe_attempts st) parsed.
Proof.
  intros [Hl [v Hr] Ho Hc] Hxo Hn [f Hf]. unfold do_parse. cbv zeta.
  set (st1 := set_stack _ _ _). change (ps_file st1) with (ps_file st). rewrite Hf.
  assert (Hst : ps_stack st1 !! 0%nat = Some (StackEntry 0 (bits [e_elem_audiohal]))).
  { cbn. by rewrite list_lookup_alter_eq, Hr. }
  assert (Hs1 : sound_stack st1).
  { split_and!; [cbn; by rewrite length_alter|done|done|by eexists]. }
  eapply read_loop_good; [|done|done|lia].
  apply (good_at false PRoot); [done..|]. split; try done.
  change (S (depth PRoot)) with 1%nat. destruct (ps_stack st1); [done|].
  cbn in Hst. by simplify_eq.
Qed.

(** A chain of redirections may be endless: its fuel may run out. *)
Definition allowed_or_hang (f : fault) : Prop := allowed f ∨ f = Hang.

Lemma limits_weaken {A} (m : M (world K) A) Q :
  limits allowed m Q → limits allowed_or_hang m Q.
Proof.
  intros Hm w. destruct (Hm w) as [(fs & Hf & Hfs) HQ]. split; [|done].
  exists fs. split; [done|]. eapply Forall_impl; [exact Hfs|]. by left.
Qed.

Definition parsed_ok (r : Z * parse_state P) : Prop :=
  r.1 <= 0 ∧ (r.1 = 0 → ∃ opened, objs_ok opened r.2).

Lemma open_config_file_ok st file :
  ready_to_parse st →
  limits (K:=K) allowed (open_config_file st file) (λ r,
    ready_to_parse r.2 ∧ ps_parser r.2 = ps_parser st
    ∧ ps_init_probe r.2 = ps_init_probe st ∧ (r.1 = 0 → is_Some (ps_file r.2))).
Proof.
  intros [Hl Hr Ho Hc]. unfold open_config_file.
  destruct file as [f|]; (eapply limits_bind; [apply limits_strdup|]); intros cur' _; cbv zeta.
  all: set (st1 := set_file _ _).
  all: assert (ready_to_parse st1) by (split; try done; by eapply objs_ok_ext; [..|exact Ho]).
  all: destruct (ps_file st1) as [g|] eqn:Hf; apply limits_ret; cbn [fst snd]; split_and!; try done.
  all: by exists g.
Qed.

Lemma config_files_ok fuel st :
  ready_to_parse st →
  (cp_new_xml_file (ps_init_probe st) = None → XML_open (ps_parser st) = 0%nat) →
  limits (K:=K) allowed_or_hang (config_files indeterminate probe_attempts fuel st) parsed_ok.
Proof.
  revert st. induction fuel as [|fuel IH]; intros st Hrp Hxo; cbn [config_files];
    (eapply limits_bind; [by apply limits_weaken, open_config_file_ok|]);
    intros [ret st1] ([Hl Hr Ho Hc] & Hp1 & Hpr1 & Hf1); cbn [fst snd] in *;
    (destruct (Z.eqb_spec ret 0) as [->|]; cbn [negb];
      [specialize (Hf1 eq_refl)|apply limits_ret; split; cbn; errno_lia]).
  all: eapply (limits_bind _ _ _ parsed);
    [apply limits_weaken, do_parse_good; unfold restart_parser;
     destruct (cp_new_xml_file (ps_init_probe st1)) as [f|] eqn:Hnew; try done|].
  all: try (split; try done; by eapply objs_ok_ext; [..|exact Ho]).
  all: try (rewrite Hp1; apply Hxo; congruence).
  all: try (cbn; apply open_reset).
  all: intros [ret2 st2] (Hg & Hle & Hok); cbn [fst snd] in *.
  all: destruct (cp_new_xml_file (ps_init_probe st2)) as [f|] eqn:Hnew.
  - eapply (limits_bind _ _ _ (λ _, True)); [by apply limits_raise; [right|]|].
    intros ? _. apply limits_ret. split; [done|]. intros He. cbn in He.
    destruct (gd_redirect _ Hg) as [?|(_ & _ & Hob & _)]; [congruence|by exists false].
  - apply limits_ret. split; [done|]. intros He. cbn in He.
    destruct (gd_place _ Hg (Hok He)) as (opened & pl & Hat). exists opened. apply Hat.
  - destruct (gd_redirect _ Hg) as [?|(_ & _ & Hob & Hcu)]; [congruence|].
    apply IH; [|congruence]. split; [apply Hg|apply Hg|done|done].
  - apply limits_ret. split; [done|]. intros He. cbn in He.
    destruct (gd_place _ Hg (Hok He)) as (opened & pl & Hat). exists opened. apply Hat.
Qed.

(** ** The configuration that is accepted *)

(** A device of an accepted configuration is one the table names, and none but
    the global device is declared twice; nothing is in use. *)
Record accepted (cm : config_mgr) : Prop := {
  ac_mixer : match cm_mixer cm with
             | Some m => cm_ok m cm
             | None => da_items (cm_devices cm) = [] ∧ da_items (cm_streams cm) = []
             end;
  ac_devices : Forall (λ d, d_use_count d = 0 ∧ d_type d ∈ (device_table.*2))
                 (da_items (cm_devices cm));
  ac_distinct : NoDup (filter (λ t, t ≠ 0) (types cm));
  ac_supported : Forall (λ t, t ≠ 0 → within t (supported cm t)) (types cm);
  ac_streams : Forall (λ s, s_ref_count s = 0 ∧ s_current_devices s = 0
                            ∧ is_s32 (s_max_ref_count s)) (da_items (cm_streams cm))
}.

Lemma objs_accepted opened st : objs_ok opened st → accepted (ps_cm st).
Proof.
  destruct opened; cbn.
  - intros [m [Hm Hok Hd Hs Hi Hk Hn]]. split; [|..|done|done|].
    + rewrite Hm. split; [done|done| |].
      * eapply Forall_impl; [exact Hd|]. by intros d [? _].
      * eapply Forall_impl; [exact Hs|]. by intros s [? _].
    + eapply Forall_impl; [exact Hd|]. by intros d [_ ?].
    + eapply Forall_impl; [exact Hs|]. by intros s [_ ?].
  - intros (Hm & Hd & Hs & _). unfold types.
    split; unfold types; rewrite ?Hm, ?Hd, ?Hs; try done; constructor.
Qed.

Lemma compress_accepted cm :
  accepted cm → yields (K:=K) (compress_config_mgr cm) accepted.
Proof.
  intros [Hm Hd Hn Hk Hs]. unfold compress_config_mgr.
  eapply yields_bind; [apply dyn_array_fix_items|]. intros devs Hdevs.
  eapply yields_bind; [apply dyn_array_fix_items|]. intros strs Hstrs.
  apply yields_ret. cbn in Hstrs.
  split; unfold types; cbn; rewrite ?Hdevs, ?Hstrs; try done.
  destruct (cm_mixer cm) as [m|]; [|done]. destruct Hm as [? ? ? ?].
  split; cbn; rewrite ?Hdevs, ?Hstrs; done.
Qed.

Variable redirections : nat.

Lemma apply_init_path st opened :
  objs_ok opened st →
  yields (K:=K) (apply_path_l (cm_mixer (ps_cm st)) (ps_init_path st)) (λ _, True).
Proof.
  intros Ho. unfold apply_path_l. eapply (yields_bind _ _ (λ _, True)).
  2:{ intros l _. by apply yields_ret. }
  destruct opened; cbn in Ho.
  - destruct Ho as [m Hm]. rewrite (ob_mixer _ _ Hm).
    eapply yields_post; [by apply apply_ctls_l_safe; apply Hm|done].
  - destruct Ho as (_ & _ & _ & ->). by apply yields_ret.
Qed.

Lemma cleanup_parser_limits st : limits (K:=K) allowed (cleanup_parser st) (λ _, True).
Proof.
  unfold cleanup_parser, dyn_array_free, check.
  destruct (negb _); [by apply limits_ret|apply limits_raise; [by right; left|done]].
Qed.

Lemma parse_config_file_ok cm :
  cm_mixer cm = None → da_items (cm_devices cm) = [] → da_items (cm_streams cm) = [] →
  limits (K:=K) allowed_or_hang
    (parse_config_file (P:=P) indeterminate probe_attempts redirections cm)
    (λ r, r.1 = 0 → accepted r.2).
Proof.
  intros Hm Hd Hs. unfold parse_config_file.
  eapply limits_bind; [apply limits_yields, yields_alloc|]. intros ok _.
  apply limits_if; intros _; [apply limits_ret; cbn; errno_lia|].
  eapply (limits_bind _ _ _ (λ r, ready_to_parse r.2 ∧ ps_parser r.2 = XML_ParserCreate)).
  { apply limits_yields. unfold init_state.
    eapply yields_bind; [apply add_path_name_yields|]. intros [r1 names] _. cbv zeta.
    assert (Hrp : ∀ names, ready_to_parse (set_path_names names (parse_state0 (P:=P) cm))).
    { intros names'. split; try done; [by eexists|]. split_and!; try done. by left. }
    apply yields_if; intros _; [apply yields_ret; by split; [apply (Hrp names)|]|].
    eapply yields_bind; [apply add_path_name_yields|]. intros [r2 names2] _. cbv zeta.
    apply yields_if; intros _; apply yields_ret; (split; [apply (Hrp names2)|done]). }
  intros [ret st] [Hrp Hpar]. cbn [snd] in Hrp, Hpar.
  eapply (limits_bind _ _ _ (λ r, r.1 = 0 → accepted (ps_cm r.2))).
  2:{ intros [ret' st'] Hr. cbn [fst snd] in Hr.
      eapply limits_bind; [apply limits_weaken, cleanup_parser_limits|]. intros _ _. by apply limits_ret. }
  apply limits_if; intros Hret; [apply limits_ret; cbn; apply Z.ltb_lt in Hret; lia|].
  eapply limits_bind.
  { apply config_files_ok; [done|]. intros _. rewrite Hpar. apply open_create. }
  intros [ret2 st2] Hok. destruct Hok as [Hle2 Hok]. cbn [fst snd] in Hle2, Hok.
  destruct (Z.leb_spec 0 ret2) as [Hle|Hlt].
  - assert (ret2 = 0) as -> by lia. destruct (Hok eq_refl) as [opened Ho].
    eapply limits_bind; [by apply limits_yields, (apply_init_path st2 opened)|].
    intros ? _. apply limits_ret. intros _. by eapply objs_accepted.
  - apply limits_ret. cbn. lia.
Qed.

End callbacks.
