(* ===== verification/ParserSound.v ===== *)
(** * Soundness of the configuration parser, end to end

    What [init_audio_config] gives for any document, file system, card and
    allocator, and that the calls made on the configuration it returns are
    safe. *)

From S2P Require Import Prelude Kernel SoftCard Mixer MixerFacts ConfigData CStrings Expat.
From S2P Require Import Routing RefCount RouteInv RoutingFacts ParseState Parser SoftXml.
From S2P Require Import ParserStack ParserObjs ParserHandlers ParserFacts.
From Stdlib Require Import Ascii String.

#[global] Open Scope Z_scope.

(** ** Calls on an accepted configuration *)

Section calls.
  Context {K : Type} `{!AlsaCtl K, !AlsaCtlLaws K, !CardLaws K, !AudioH}.

(** A sequence of calls of the interface. *)
Fixpoint run_calls (ops : list op) (cm : config_mgr) : M (world K) config_mgr :=
  match ops with
  | [] => mret cm
  | o :: ops => cm ← run_op o cm; run_calls ops cm
  end.

(** A configuration without a mixer has no streams: the only calls left fail. *)
Lemma run_op_empty cm o :
  da_items (cm_streams cm) = [] → op_valid cm o →
  yields (K:=K) (run_op o cm) (λ cm', cm' = cm).
Proof.
  intros Hs Hv. destruct o as [devices format|name|i|i devices|i l r|i se c];
    cbn [run_op op_valid] in *;
    try (unfold valid_stream in Hv; rewrite Hs in Hv; cbn in Hv; lia).
  - unfold get_stream. rewrite Hs. cbn [List.length get_stream_loop].
    eapply (yields_bind _ _ (λ r, r.2 = cm)); [by apply yields_ret|].
    intros r Hr. by apply yields_ret.
  - unfold get_named_stream, find_named_stream. rewrite Hs. cbn [find_named].
    eapply (yields_bind _ _ (λ r, r.2 = cm)); [by apply yields_ret|].
    intros r Hr. by apply yields_ret.
Qed.

Lemma op_valid_length cm cm' o :
  List.length (da_items (cm_streams cm')) = List.length (da_items (cm_streams cm)) →
  op_valid cm o → op_valid cm' o.
Proof. unfold op_valid, valid_stream. intros ->. by destruct o. Qed.

Lemma run_calls_safe ops cm :
  accepted cm → Forall (op_valid cm) ops → yields (K:=K) (run_calls ops cm) (λ _, True).
Proof.
  intros Ha. pose proof (ac_mixer _ Ha) as Hm. destruct (cm_mixer cm) as [m|]; clear Ha.
  - revert cm Hm. induction ops as [|o ops IH]; intros cm Hcm; cbn [run_calls].
    { intros _. by apply yields_ret. }
    intros [Hv Hvs]%Forall_cons.
    eapply yields_bind; [by eapply run_op_safe|]. intros cm' [Hcm' Hl]. apply IH; [done|].
    eapply Forall_impl; [exact Hvs|]. intros o'. by apply op_valid_length.
  - destruct Hm as [_ Hs]. induction ops as [|o ops IH]; cbn [run_calls].
    { intros _. by apply yields_ret. }
    intros [Hv Hvs]%Forall_cons.
    eapply yields_bind; [by apply run_op_empty|]. intros ? ->. by apply IH.
Qed.

End calls.

(** ** The whole parse *)

Section init.
  Context {P : Type} `{!Expat P, !ExpatLaws P}.
  Context {K : Type} `{!AlsaCtl K, !AlsaCtlLaws K, !CardLaws K, !AudioH, !Platform}.
  Variable indeterminate : Z.
  Variable probe_attempts redirections : nat.
  Hypothesis Hfiles : files_appear probe_attempts.

Lemma init_audio_config_ok :
  limits (K:=K) allowed_or_hang
    (init_audio_config (P:=P) indeterminate probe_attempts redirections)
    (λ r, ∀ cm, r = Some cm → accepted cm).
Proof.
  unfold init_audio_config.
  eapply (limits_bind _ _ _ (λ r, r = None ∨ r = Some (ConfigMgr None 0 0 da_empty da_empty))).
  { apply limits_yields. unfold new_config_mgr.
    eapply yields_bind; [apply yields_alloc|]. intros ok _.
    apply yields_if; intros _; apply yields_ret; auto. }
  intros mgr [->| ->].
  - eapply (limits_bind _ _ _ (λ _, True)); [by apply limits_raise; [left; right; right|]|].
    intros ? _. by apply limits_ret.
  - eapply limits_bind; [by apply parse_config_file_ok|]. intros [ret mgr] Hok. cbn [fst snd] in Hok.
    destruct (Z.eqb_spec ret 0) as [->|]; cbn [negb]; [|by apply limits_ret].
    eapply limits_bind; [by apply limits_yields, compress_accepted, Hok|].
    intros cm Hcm. apply limits_ret. by intros ? [= <-].
Qed.

End init.

(** ** The demo document *)

#[local] Instance demo_expat : Expat script_parser := scripted [demo_xml].
#[local] Instance demo_expat_laws : ExpatLaws script_parser := scripted_laws [demo_xml].

(** Every file of the platform can be opened, those other than the
    configuration at the third attempt. *)
#[local] Instance ready_platform : Platform := {|
  sys_fopen name n :=
    if bool_decide (name = "/system/etc/audio.mocha.xml") then Some (File [] false)
    else if (n <? 2)%nat then None
         else Some (File (Strings.String.list_ascii_of_string " rt5671") false);
  ro_product_device := "mocha"
|}.

Lemma ready_files : files_appear 2.
Proof.
  intros name. exists 2%nat. split; [lia|]. cbn. by destruct (bool_decide _).
Qed.

#[local] Abbreviation demo_init :=
  (init_audio_config (P:=script_parser) 0 2 1 demo_world : option config_mgr * world soft_card).

(** The configuration the demo document describes. *)
Definition demo_config : config_mgr :=
  default (ConfigMgr None 0 0 da_empty da_empty) demo_init.1.

Lemma demo_init_runs : demo_init.1 = Some demo_config.
Proof. vm_compute. reflexivity. Qed.

Lemma demo_config_types : types demo_config = [0x2; 0x4; 0x80000004].
Proof. vm_compute. reflexivity. Qed.

(** ** Properties *)


Lemma demo_init_faults : w_faults demo_init.2 = [].
Proof. vm_compute. reflexivity. Qed.


(** C2: on a configuration that [init_audio_config] returned, no sequence of
    calls of the interface in audio_config.h executes undefined behaviour,
    whatever the card and the allocator do, as long as the streams named are
    streams of the configuration and the two volumes of a call have a sum that
    is an [int]. *)
Theorem configured_calls_safe {P} `{!Expat P, !ExpatLaws P} {K}
  `{!AlsaCtl K, !AlsaCtlLaws K, !CardLaws K, !AudioH, !Platform}
  indeterminate probe_attempts redirections (w0 w : world K) cm ops :
  files_appear probe_attempts →
  (init_audio_config (P:=P) indeterminate probe_attempts redirections w0).1 = Some cm →
  Forall (op_valid cm) ops →
  w_faults (run_calls ops cm w).2 = w_faults w.
Proof.
  intros Hf Hi Hv.
  destruct (init_audio_config_ok (P:=P) (K:=K) indeterminate probe_attempts redirections Hf w0)
    as [_ Ha].
  by apply (run_calls_safe ops cm (Ha _ Hi) Hv).
Qed.

Definition demo_calls : list op :=
  [OpGetStream 0x2 0; OpRoute 0 0x6; OpVolume 0 50 100; OpUseCase 0 "gain" "high"; OpRelease 0].

Lemma demo_calls_valid : Forall (op_valid demo_config) demo_calls.
Proof.
  assert (Hl : List.length (da_items (cm_streams demo_config)) = 2%nat) by (vm_compute; reflexivity).
  unfold demo_calls, op_valid, valid_stream, is_s32. rewrite !Forall_cons, Hl. split_and!; first [lia|done].
Qed.

Lemma configured_calls_safe_witness :
  w_faults (run_calls demo_calls demo_config demo_world).2 = w_faults demo_world.
Proof.
  apply (configured_calls_safe (P:=script_parser) 0 2 1 demo_world demo_world demo_config
           demo_calls ready_files demo_init_runs demo_calls_valid).
Defined.

(** A bad index in the first control of <init> frees the array of its controls,
    which [cleanup_parser] frees again; in the second control it frees an
    address inside the array. *)
Definition bad_init (ctls : list xml_event) : list xml_event :=
  elem "audiohal" [] (elem "mixer" [("card", "1")] (elem "init" [] ctls)).

Definition bad_ctl : list xml_event := elem "ctl" [("name", "Switch"); ("val", "1"); ("index", "x")] [].

Definition init_faults (xml : list xml_event) : list fault :=
  w_faults (init_audio_config (P:=script_parser) (Expat0:=scripted [xml]) 0 2 1 demo_world :
    option config_mgr * world soft_card).2.

Example init_ctl_freed_twice :
  init_faults (bad_init bad_ctl) = [DoubleFree]
  ∧ init_faults (bad_init (ctl_elem "Switch" "1" ++ bad_ctl)) = [BadFree].
Proof. split; vm_compute; reflexivity. Qed.

(** The mixer of the demo configuration. *)
Definition demo_mixer : mixer := default (Mixer 0 EmptyString [] 0) (cm_mixer demo_config).

Lemma demo_config_ok : cm_ok demo_mixer demo_config.
Proof.
  destruct (init_audio_config_ok (P:=script_parser) (K:=soft_card) 0 2 1 ready_files demo_world)
    as [_ Ha].
  pose proof (ac_mixer _ (Ha _ demo_init_runs)) as Hm.
  assert (cm_mixer demo_config = Some demo_mixer) as Hx by (vm_compute; reflexivity).
  rewrite Hx in Hm. exact Hm.
Qed.

Lemma interface_calls_safe_witness :
  w_faults (run_op (OpGetStream 0x2 0) demo_config demo_world).2 = w_faults demo_world.
Proof.
  exact (proj1 (interface_calls_safe demo_mixer demo_config (OpGetStream 0x2 0) demo_world
           demo_config_ok I)).
Defined.

(** ** Names and numbers *)

(** A path name gets one id: after [add_path_name] the name is found under
    the id returned, names added earlier keep theirs and no name is stored
    twice; it fails only for lack of memory. *)
Theorem path_ids_stable {K} names name (w : world K) :
  NoDup (da_items names) →
  let '(id, names') := (add_path_name names name w).1 in
  w_faults (add_path_name names name w).2 = w_faults w
  ∧ NoDup (da_items names')
  ∧ (∀ i n, da_items names !! i = Some n → find_path_name names' n = Z.of_nat i)
  ∧ (id = - ENOMEM ∨ 0 <= id ∧ find_path_name names' name = id).
Proof.
  intros Hnd. destruct (add_path_name_yields (K:=K) names name w) as [Hf Hr].
  destruct (add_path_name names name w) as [[id names'] w']. cbn [fst snd] in *.
  destruct Hr as (Hid & Hat & Hnd' & l & Hl). specialize (Hnd' Hnd). split_and!; [done..| |].
  - intros i n Hi. apply find_path_name_at; [done|]. rewrite Hl. by apply lookup_app_l_Some.
  - destruct Hid as [Hid|]; [right|by left]. split; [done|].
    rewrite (find_path_name_at names' (Z.to_nat id)) by auto. lia.
Qed.

Lemma path_ids_stable_witness :
  let '(id, names') := (add_path_name (DynArray ["off"; "on"]%string 16) "on_pcm" demo_world).1 in
  id = 2 ∧ NoDup (da_items names').
Proof.
  split; [vm_compute; reflexivity|].
  exact (proj1 (proj2 (path_ids_stable (DynArray ["off"; "on"]%string 16) "on_pcm" demo_world
    ltac:(by_decide)))).
Defined.

(** A decimal numeral in an attribute is read as its value; one that does
    not fit 32 bits is not an error but read as the largest number. *)
Theorem numeral_attribute_value r n :
  0 <= n → string_to_uint r (Some (decimal n)) = (0, Z.min n 0xFFFFFFFF).
Proof. apply string_to_uint_numeral. Qed.

Lemma numeral_attribute_value_witness :
  string_to_uint 0 (Some "4294967296"%string) = (0, 4294967295).
Proof. exact (numeral_attribute_value 0 4294967296 ltac:(done)). Defined.
