(* ===== verification/PcmKernel.v ===== *)
(** * The PCM device

    The structures of src/tinyalsa/include/sound/asound.h and
    src/tinyalsa/include/tinyalsa/asoundlib.h that pcm.c exchanges with the
    kernel, and the interface of the PCM device behind its system calls (a
    parameter of the development). *)

From S2P Require Import Prelude Kernel.

(** ** Hardware parameters *)

Definition SNDRV_PCM_ACCESS_MMAP_INTERLEAVED : Z := 0.
Definition SNDRV_PCM_ACCESS_RW_INTERLEAVED : Z := 3.
Definition SNDRV_PCM_FORMAT_S8 : Z := 0.
Definition SNDRV_PCM_FORMAT_S16_LE : Z := 2.
Definition SNDRV_PCM_FORMAT_S24_LE : Z := 6.
Definition SNDRV_PCM_FORMAT_S32_LE : Z := 10.
Definition SNDRV_PCM_SUBFORMAT_STD : Z := 0.

Definition SNDRV_PCM_HW_PARAM_ACCESS : Z := 0.
Definition SNDRV_PCM_HW_PARAM_FORMAT : Z := 1.
Definition SNDRV_PCM_HW_PARAM_SUBFORMAT : Z := 2.
Definition SNDRV_PCM_HW_PARAM_FIRST_MASK : Z := SNDRV_PCM_HW_PARAM_ACCESS.
Definition SNDRV_PCM_HW_PARAM_LAST_MASK : Z := SNDRV_PCM_HW_PARAM_SUBFORMAT.
Definition SNDRV_PCM_HW_PARAM_SAMPLE_BITS : Z := 8.
Definition SNDRV_PCM_HW_PARAM_FRAME_BITS : Z := 9.
Definition SNDRV_PCM_HW_PARAM_CHANNELS : Z := 10.
Definition SNDRV_PCM_HW_PARAM_RATE : Z := 11.
Definition SNDRV_PCM_HW_PARAM_PERIOD_TIME : Z := 12.
Definition SNDRV_PCM_HW_PARAM_PERIOD_SIZE : Z := 13.
Definition SNDRV_PCM_HW_PARAM_PERIOD_BYTES : Z := 14.
Definition SNDRV_PCM_HW_PARAM_PERIODS : Z := 15.
Definition SNDRV_PCM_HW_PARAM_BUFFER_TIME : Z := 16.
Definition SNDRV_PCM_HW_PARAM_BUFFER_SIZE : Z := 17.
Definition SNDRV_PCM_HW_PARAM_BUFFER_BYTES : Z := 18.
Definition SNDRV_PCM_HW_PARAM_TICK_TIME : Z := 19.
Definition SNDRV_PCM_HW_PARAM_FIRST_INTERVAL : Z := SNDRV_PCM_HW_PARAM_SAMPLE_BITS.
Definition SNDRV_PCM_HW_PARAM_LAST_INTERVAL : Z := SNDRV_PCM_HW_PARAM_TICK_TIME.
Definition SNDRV_PCM_HW_PARAMS_NO_PERIOD_WAKEUP : Z := Z.shiftl 1 2.

Record snd_interval := SndInterval {
  iv_min : Z;
  iv_max : Z;
  iv_openmin : bool;
  iv_openmax : bool;
  iv_integer : bool;
  iv_empty : bool
}.

Definition SNDRV_MASK_MAX : Z := 256.

(** [struct snd_mask]: its 32-bit words. *)
Definition snd_mask : Type := list Z.

(** [struct snd_pcm_hw_params]: the members pcm.c uses. *)
Record snd_pcm_hw_params := HwParams {
  hw_flags : Z;
  hw_masks : list snd_mask;
  hw_intervals : list snd_interval;
  hw_rmask : Z;
  hw_cmask : Z;
  hw_info : Z
}.

Definition SNDRV_PCM_TSTAMP_ENABLE : Z := 1.
Definition SNDRV_PCM_TSTAMP_TYPE_MONOTONIC : Z := 1.

Record snd_pcm_sw_params := SwParams {
  sw_tstamp_mode : Z;
  sw_period_step : Z;
  sw_avail_min : Z;
  sw_xfer_align : Z;
  sw_start_threshold : Z;
  sw_stop_threshold : Z;
  sw_silence_threshold : Z;
  sw_silence_size : Z;
  sw_boundary : Z
}.

(** ** Stream pointers *)

(** [ms_tstamp]: seconds and nanoseconds. *)
Record snd_pcm_mmap_status := MmapStatus {
  ms_state : Z;
  ms_hw_ptr : Z;
  ms_tstamp : Z * Z
}.

Record snd_pcm_mmap_control := MmapControl {
  mm_appl_ptr : Z;
  mm_avail_min : Z
}.

Definition SNDRV_PCM_SYNC_PTR_HWSYNC : Z := Z.shiftl 1 0.
Definition SNDRV_PCM_SYNC_PTR_APPL : Z := Z.shiftl 1 1.

Record snd_pcm_sync_ptr := SyncPtr {
  sp_flags : Z;
  sp_status : snd_pcm_mmap_status;
  sp_control : snd_pcm_mmap_control
}.

(** A [struct snd_pcm_sync_ptr] of zero bytes. *)
Definition sync_ptr0 : snd_pcm_sync_ptr :=
  SyncPtr 0 (MmapStatus 0 0 (0, 0)) (MmapControl 0 0).

(** ** The constants of asoundlib.h *)

Definition PCM_OUT : Z := 0x00000000.
Definition PCM_IN : Z := 0x10000000.
Definition PCM_MMAP : Z := 0x00000001.
Definition PCM_NOIRQ : Z := 0x00000002.
Definition PCM_NORESTART : Z := 0x00000004.
Definition PCM_MONOTONIC : Z := 0x00000008.

Definition PCM_STATE_RUNNING : Z := 3.
Definition PCM_STATE_XRUN : Z := 4.
Definition PCM_STATE_DRAINING : Z := 5.
Definition PCM_STATE_SUSPENDED : Z := 7.
Definition PCM_STATE_DISCONNECTED : Z := 8.

Inductive pcm_format :=
  | PCM_FORMAT_S16_LE
  | PCM_FORMAT_S32_LE
  | PCM_FORMAT_S8
  | PCM_FORMAT_S24_LE.

Record pcm_config := PcmConfig {
  pc_channels : Z;
  pc_rate : Z;
  pc_period_size : Z;
  pc_period_count : Z;
  pc_format : pcm_format;
  pc_start_threshold : Z;
  pc_stop_threshold : Z;
  pc_silence_threshold : Z
}.

Inductive pcm_param :=
  | PCM_PARAM_ACCESS
  | PCM_PARAM_FORMAT
  | PCM_PARAM_SUBFORMAT
  | PCM_PARAM_SAMPLE_BITS
  | PCM_PARAM_FRAME_BITS
  | PCM_PARAM_CHANNELS
  | PCM_PARAM_RATE
  | PCM_PARAM_PERIOD_TIME
  | PCM_PARAM_PERIOD_SIZE
  | PCM_PARAM_PERIOD_BYTES
  | PCM_PARAM_PERIODS
  | PCM_PARAM_BUFFER_TIME
  | PCM_PARAM_BUFFER_SIZE
  | PCM_PARAM_BUFFER_BYTES
  | PCM_PARAM_TICK_TIME.

(** poll.h *)
Definition POLLIN : Z := 0x001.
Definition POLLOUT : Z := 0x004.
Definition POLLERR : Z := 0x008.
Definition POLLNVAL : Z := 0x020.

(** ** The device

    One operation per system call of pcm.c.  The state and control pages are
    shared with the kernel: reading and writing them are operations too, as
    are the accesses to the sample buffer ([ring_read], [ring_write]). *)
Class AlsaPcm (K : Type) := {
  strerror : Z → string;
  sys_errno : M K Z;
  sys_open_pcm : string → M K Z;
  sys_close_pcm : Z → M K unit;
  ioctl_pcm_info : Z → M K Z;
  ioctl_hw_refine : Z → snd_pcm_hw_params → M K (Z * snd_pcm_hw_params);
  ioctl_hw_params : Z → snd_pcm_hw_params → M K (Z * snd_pcm_hw_params);
  ioctl_sw_params : Z → snd_pcm_sw_params → M K (Z * snd_pcm_sw_params);
  ioctl_ttstamp : Z → Z → M K Z;
  ioctl_prepare : Z → M K Z;
  ioctl_start : Z → M K Z;
  ioctl_drop : Z → M K Z;
  (** fd, data and frames *)
  ioctl_writei_frames : Z → list Z → Z → M K Z;
  (** fd and frames; return code and the data filled in *)
  ioctl_readi_frames : Z → Z → M K (Z * list Z);
  ioctl_sync_ptr : Z → snd_pcm_sync_ptr → M K (Z * snd_pcm_sync_ptr);
  mmap_status_page : Z → M K bool;
  mmap_control_page : Z → M K bool;
  munmap_status_page : M K unit;
  munmap_control_page : M K unit;
  page_status : M K snd_pcm_mmap_status;
  page_control : M K snd_pcm_mmap_control;
  set_page_control : snd_pcm_mmap_control → M K unit;
  (** fd and length in bytes *)
  mmap_buffer : Z → Z → M K bool;
  munmap_buffer : Z → M K unit;
  (** offset and length in bytes *)
  ring_read : Z → Z → M K (list Z);
  ring_write : Z → list Z → M K unit;
  (** fd and timeout; return code and [revents] *)
  sys_poll : Z → Z → M K (Z * Z)
}.
