(* ===== verification/Pcm.v ===== *)
(** * tinyalsa PCM streams (src/tinyalsa/pcm.c)

    Opening and configuring a stream, the interrupt-driven transfers and the
    transfers through the memory-mapped ring buffer. *)

From S2P Require Import Prelude Kernel CStrings PcmKernel.
From Stdlib Require Import Ascii String.

#[global] Open Scope Z_scope.

(** ** Hardware parameters *)

Definition param_is_mask (p : Z) : bool :=
  (SNDRV_PCM_HW_PARAM_FIRST_MASK <=? p) && (p <=? SNDRV_PCM_HW_PARAM_LAST_MASK).

Definition param_is_interval (p : Z) : bool :=
  (SNDRV_PCM_HW_PARAM_FIRST_INTERVAL <=? p) && (p <=? SNDRV_PCM_HW_PARAM_LAST_INTERVAL).

(** The index of a parameter's interval or mask in its array. *)
Definition param_to_interval (n : Z) : nat := Z.to_nat (n - SNDRV_PCM_HW_PARAM_FIRST_INTERVAL).
Definition param_to_mask (n : Z) : nat := Z.to_nat (n - SNDRV_PCM_HW_PARAM_FIRST_MASK).

Definition upd_mask (n : Z) (f : snd_mask → snd_mask) (p : snd_pcm_hw_params)
  : snd_pcm_hw_params :=
  HwParams (hw_flags p) (alter f (param_to_mask n) (hw_masks p)) (hw_intervals p)
           (hw_rmask p) (hw_cmask p) (hw_info p).
Definition upd_interval (n : Z) (f : snd_interval → snd_interval) (p : snd_pcm_hw_params)
  : snd_pcm_hw_params :=
  HwParams (hw_flags p) (hw_masks p) (alter f (param_to_interval n) (hw_intervals p))
           (hw_rmask p) (hw_cmask p) (hw_info p).
Definition set_hw_flags (v : Z) (p : snd_pcm_hw_params) : snd_pcm_hw_params :=
  HwParams v (hw_masks p) (hw_intervals p) (hw_rmask p) (hw_cmask p) (hw_info p).

(** [1 << (bit & 31)] sets bit 31 of an [int] too: the word is unsigned. *)
Definition param_set_mask (p : snd_pcm_hw_params) (n bit : Z) : snd_pcm_hw_params :=
  if SNDRV_MASK_MAX <=? bit then p
  else if param_is_mask n then
    upd_mask n (λ m,
      alter (λ w, Z.lor w (u32 (Z.shiftl 1 (Z.land bit 31)))) (Z.to_nat (Z.shiftr bit 5))
        (<[1%nat := 0]> (<[0%nat := 0]> m))) p
  else p.

Definition param_set_min (p : snd_pcm_hw_params) (n val : Z) : snd_pcm_hw_params :=
  if param_is_interval n then
    upd_interval n (λ i, SndInterval val (iv_max i) (iv_openmin i) (iv_openmax i)
                                     (iv_integer i) (iv_empty i)) p
  else p.

Definition interval0 : snd_interval := SndInterval 0 0 false false false false.

Definition param_interval (p : snd_pcm_hw_params) (n : Z) : snd_interval :=
  default interval0 (hw_intervals p !! param_to_interval n).

Definition param_get_min (p : snd_pcm_hw_params) (n : Z) : Z :=
  if param_is_interval n then iv_min (param_interval p n) else 0.

Definition param_get_max (p : snd_pcm_hw_params) (n : Z) : Z :=
  if param_is_interval n then iv_max (param_interval p n) else 0.

Definition param_set_int (p : snd_pcm_hw_params) (n val : Z) : snd_pcm_hw_params :=
  if param_is_interval n then
    upd_interval n (λ i, SndInterval val val (iv_openmin i) (iv_openmax i) true (iv_empty i)) p
  else p.

Definition param_get_int (p : snd_pcm_hw_params) (n : Z) : Z :=
  if param_is_interval n then
    if iv_integer (param_interval p n) then iv_max (param_interval p n) else 0
  else 0.

(** The two words of each mask that are set, of eight; the intervals are
    unbounded. *)
Definition param_init : snd_pcm_hw_params :=
  HwParams 0
    (replicate 3 ([UINT_MAX; UINT_MAX] ++ replicate 6 0))
    (replicate 12 (SndInterval 0 UINT_MAX false false false false))
    UINT_MAX 0 UINT_MAX.

(** ** The stream object *)

(** [mmap_status] and [mmap_control]: null, mapped pages, or members of the
    structure [sync_ptr] points to. *)
Inductive status_page :=
  | NoPage
  | Mapped
  | Synced (sp : snd_pcm_sync_ptr).

(** [p_mmap_buffer]: the length in bytes of the buffer mapped, if it is. *)
Record pcm := Pcm {
  p_fd : Z;
  p_flags : Z;
  p_running : bool;
  p_prepared : bool;
  p_underruns : Z;
  p_buffer_size : Z;
  p_boundary : Z;
  p_error : string;
  p_config : pcm_config;
  p_page : status_page;
  p_mmap_buffer : option Z;
  p_noirq_frames_per_msec : Z
}.

Definition set_fd (v : Z) (p : pcm) : pcm :=
  Pcm v (p_flags p) (p_running p) (p_prepared p) (p_underruns p) (p_buffer_size p)
      (p_boundary p) (p_error p) (p_config p) (p_page p) (p_mmap_buffer p)
      (p_noirq_frames_per_msec p).
Definition set_run (running prepared : bool) (p : pcm) : pcm :=
  Pcm (p_fd p) (p_flags p) running prepared (p_underruns p) (p_buffer_size p)
      (p_boundary p) (p_error p) (p_config p) (p_page p) (p_mmap_buffer p)
      (p_noirq_frames_per_msec p).
Definition set_underruns (v : Z) (p : pcm) : pcm :=
  Pcm (p_fd p) (p_flags p) (p_running p) (p_prepared p) v (p_buffer_size p)
      (p_boundary p) (p_error p) (p_config p) (p_page p) (p_mmap_buffer p)
      (p_noirq_frames_per_msec p).
Definition set_buffer_size (v : Z) (p : pcm) : pcm :=
  Pcm (p_fd p) (p_flags p) (p_running p) (p_prepared p) (p_underruns p) v
      (p_boundary p) (p_error p) (p_config p) (p_page p) (p_mmap_buffer p)
      (p_noirq_frames_per_msec p).
Definition set_boundary (v : Z) (p : pcm) : pcm :=
  Pcm (p_fd p) (p_flags p) (p_running p) (p_prepared p) (p_underruns p) (p_buffer_size p)
      v (p_error p) (p_config p) (p_page p) (p_mmap_buffer p)
      (p_noirq_frames_per_msec p).
Definition set_p_error (v : string) (p : pcm) : pcm :=
  Pcm (p_fd p) (p_flags p) (p_running p) (p_prepared p) (p_underruns p) (p_buffer_size p)
      (p_boundary p) v (p_config p) (p_page p) (p_mmap_buffer p)
      (p_noirq_frames_per_msec p).
Definition set_config (v : pcm_config) (p : pcm) : pcm :=
  Pcm (p_fd p) (p_flags p) (p_running p) (p_prepared p) (p_underruns p) (p_buffer_size p)
      (p_boundary p) (p_error p) v (p_page p) (p_mmap_buffer p)
      (p_noirq_frames_per_msec p).
Definition set_page (v : status_page) (p : pcm) : pcm :=
  Pcm (p_fd p) (p_flags p) (p_running p) (p_prepared p) (p_underruns p) (p_buffer_size p)
      (p_boundary p) (p_error p) (p_config p) v (p_mmap_buffer p)
      (p_noirq_frames_per_msec p).
Definition set_mmap_buffer (v : option Z) (p : pcm) : pcm :=
  Pcm (p_fd p) (p_flags p) (p_running p) (p_prepared p) (p_underruns p) (p_buffer_size p)
      (p_boundary p) (p_error p) (p_config p) (p_page p) v
      (p_noirq_frames_per_msec p).
Definition set_noirq (v : Z) (p : pcm) : pcm :=
  Pcm (p_fd p) (p_flags p) (p_running p) (p_prepared p) (p_underruns p) (p_buffer_size p)
      (p_boundary p) (p_error p) (p_config p) (p_page p) (p_mmap_buffer p) v.

Definition has_flag (flags f : Z) : bool := negb (Z.land flags f =? 0).

Definition pcm_get_buffer_size (p : pcm) : Z := p_buffer_size p.
Definition pcm_get_error (p : pcm) : string := p_error p.
Definition pcm_is_ready (p : pcm) : bool := 0 <=? p_fd p.

(** ** Formats and sizes *)

Definition pcm_format_to_alsa (format : pcm_format) : Z :=
  match format with
  | PCM_FORMAT_S32_LE => SNDRV_PCM_FORMAT_S32_LE
  | PCM_FORMAT_S8 => SNDRV_PCM_FORMAT_S8
  | PCM_FORMAT_S24_LE => SNDRV_PCM_FORMAT_S24_LE
  | PCM_FORMAT_S16_LE => SNDRV_PCM_FORMAT_S16_LE
  end.

Definition pcm_format_to_bits (format : pcm_format) : Z :=
  match format with
  | PCM_FORMAT_S32_LE | PCM_FORMAT_S24_LE => 32
  | _ => 16
  end.

(** The divisor of [pcm_bytes_to_frames]. *)
Definition frame_bytes (c : pcm_config) : Z :=
  u32 (pc_channels c * Z.shiftr (pcm_format_to_bits (pc_format c)) 3).

Definition pcm_frames_to_bytes (p : pcm) (frames : Z) : Z :=
  u32 (u32 (frames * pc_channels (p_config p))
       * Z.shiftr (pcm_format_to_bits (pc_format (p_config p))) 3).

(** [%d] and the newline character of a message. *)
Definition decimal_int (n : Z) : string :=
  if n <? 0 then ("-" ++ decimal (- n))%string else decimal n.
Definition newline : string := String (ascii_of_nat 10) EmptyString.

Section pcm.
  Context {K : Type} `{!AlsaPcm K}.

Definition pcm_bytes_to_frames (p : pcm) (bytes : Z) : M (world K) Z :=
  _ ← check (negb (frame_bytes (p_config p) =? 0)) DivByZero;
  mret (bytes / frame_bytes (p_config p)).

(** [oops]: records the error message; the message is already formatted. *)
Definition PCM_ERROR_MAX : nat := 128.

Definition oops (p : pcm) (e : Z) (msg : string) : M (world K) (Z * pcm) :=
  errno ← sys sys_errno;
  let msg := snprintf PCM_ERROR_MAX msg in
  let msg := if errno =? 0 then msg
             else snprintf PCM_ERROR_MAX (msg ++ ": " ++ strerror e)%string in
  mret (-1, set_p_error msg p).

(** [oops(pcm, errno, ...)] *)
Definition oops_errno (p : pcm) (msg : string) : M (world K) (Z * pcm) :=
  errno ← sys sys_errno; oops p errno msg.

(** ** Status and control pages *)

Definition null_page {A} (a : A) : M (world K) A := _ ← raise NullDeref; mret a.

Definition get_status (p : pcm) : M (world K) snd_pcm_mmap_status :=
  match p_page p with
  | NoPage => null_page (sp_status sync_ptr0)
  | Mapped => sys page_status
  | Synced sp => mret (sp_status sp)
  end.

Definition get_control (p : pcm) : M (world K) snd_pcm_mmap_control :=
  match p_page p with
  | NoPage => null_page (sp_control sync_ptr0)
  | Mapped => sys page_control
  | Synced sp => mret (sp_control sp)
  end.

Definition set_control (c : snd_pcm_mmap_control) (p : pcm) : M (world K) pcm :=
  match p_page p with
  | NoPage => null_page p
  | Mapped => _ ← sys (set_page_control c); mret p
  | Synced sp => mret (set_page (Synced (SyncPtr (sp_flags sp) (sp_status sp) c)) p)
  end.

Definition pcm_sync_ptr (p : pcm) (flags : Z) : M (world K) (Z * pcm) :=
  match p_page p with
  | Synced sp =>
    '(r, sp) ← sys (ioctl_sync_ptr (p_fd p) (SyncPtr flags (sp_status sp) (sp_control sp)));
    mret (if r <? 0 then -1 else 0, set_page (Synced sp) p)
  | _ => mret (0, p)
  end.

Definition pcm_hw_mmap_status (p : pcm) : M (world K) (Z * pcm) :=
  match p_page p with
  | Synced _ => mret (0, p)
  | _ =>
    let mmap_error :=
      ok ← alloc;
      if negb ok then mret (- ENOMEM, set_page NoPage p)
      else
        let p := set_page (Synced (SyncPtr 0 (sp_status sync_ptr0) (MmapControl 0 1))) p in
        '(_, p) ← pcm_sync_ptr p 0;
        mret (0, p) in
    ok ← sys (mmap_status_page (p_fd p));
    if negb ok then mmap_error
    else
      ok ← sys (mmap_control_page (p_fd p));
      if negb ok then _ ← sys munmap_status_page; mmap_error
      else
        let p := set_page Mapped p in
        c ← get_control p;
        p ← set_control (MmapControl (mm_appl_ptr c) 1) p;
        mret (0, p)
  end.

Definition pcm_hw_munmap_status (p : pcm) : M (world K) pcm :=
  match p_page p with
  | Mapped => _ ← sys munmap_status_page; _ ← sys munmap_control_page; mret (set_page NoPage p)
  | _ => mret (set_page NoPage p)
  end.

(** ** Stream state *)

Definition pcm_prepare (p : pcm) : M (world K) (Z * pcm) :=
  if p_prepared p then mret (0, p)
  else
    r ← sys (ioctl_prepare (p_fd p));
    if r <? 0 then oops_errno p "cannot prepare channel"
    else mret (0, set_run (p_running p) true p).

Definition pcm_start (p : pcm) : M (world K) (Z * pcm) :=
  '(prepare_error, p) ← pcm_prepare p;
  if negb (prepare_error =? 0) then mret (prepare_error, p)
  else
    '(_, p) ← (if has_flag (p_flags p) PCM_MMAP then pcm_sync_ptr p 0 else mret (0, p));
    r ← sys (ioctl_start (p_fd p));
    if r <? 0 then oops_errno p "cannot start channel"
    else mret (0, set_run true (p_prepared p) p).

Definition pcm_stop (p : pcm) : M (world K) (Z * pcm) :=
  r ← sys (ioctl_drop (p_fd p));
  if r <? 0 then oops_errno p "cannot stop channel"
  else mret (0, set_run false false p).

Definition pcm_state (p : pcm) : M (world K) (Z * pcm) :=
  '(err, p) ← pcm_sync_ptr p 0;
  if err <? 0 then mret (err, p)
  else st ← get_status p; mret (ms_state st, p).

(** ** Interrupt-driven transfers *)

(** The frames of a transfer of [count] bytes. *)
Definition xfer_frames (p : pcm) (count : Z) : M (world K) Z :=
  let d := u32 (pc_channels (p_config p) * pcm_format_to_bits (pc_format (p_config p))) / 8 in
  _ ← check (negb (d =? 0)) DivByZero;
  mret (count / d).

(** The loop of [pcm_write], for [data] and [frames]. *)
Fixpoint write_loop (fuel : nat) (p : pcm) (data : list Z) (frames : Z)
  : M (world K) (Z * pcm) :=
  match fuel with
  | O => _ ← raise Hang; mret (0, p)
  | S fuel =>
    if negb (p_running p) then
      '(prepare_error, p) ← pcm_prepare p;
      if negb (prepare_error =? 0) then mret (prepare_error, p)
      else
        r ← sys (ioctl_writei_frames (p_fd p) data frames);
        if negb (r =? 0) then oops_errno p "cannot write initial data"
        else mret (0, set_run true (p_prepared p) p)
    else
      r ← sys (ioctl_writei_frames (p_fd p) data frames);
      if negb (r =? 0) then
        let p := set_run false false p in
        errno ← sys sys_errno;
        if errno =? EPIPE then
          let p := set_underruns (s32 (p_underruns p + 1)) p in
          if has_flag (p_flags p) PCM_NORESTART then mret (- EPIPE, p)
          else write_loop fuel p data frames
        else oops p errno "cannot write stream data"
      else mret (0, p)
  end.

(** Two turns are enough: the second finds the stream stopped. *)
Definition pcm_write (p : pcm) (data : list Z) (count : Z) : M (world K) (Z * pcm) :=
  if has_flag (p_flags p) PCM_IN then mret (- EINVAL, p)
  else
    frames ← xfer_frames p count;
    write_loop 2 p data frames.

(** The loop of [pcm_read]; returns the data read. *)
Fixpoint pcm_read_loop (fuel : nat) (p : pcm) (data : list Z) (frames : Z)
  : M (world K) (Z * list Z * pcm) :=
  match fuel with
  | O => _ ← raise Hang; mret (- EPIPE, data, p)
  | S fuel =>
    let transfer p :=
      '(r, got) ← sys (ioctl_readi_frames (p_fd p) frames);
      if negb (r =? 0) then
        let p := set_run false false p in
        errno ← sys sys_errno;
        if errno =? EPIPE then
          pcm_read_loop fuel (set_underruns (s32 (p_underruns p + 1)) p) got frames
        else '(r, p) ← oops p errno "cannot read stream data"; mret (r, got, p)
      else mret (0, got, p) in
    if negb (p_running p) then
      '(r, p) ← pcm_start p;
      if r <? 0 then errno ← sys sys_errno; mret (- errno, data, p)
      else transfer p
    else transfer p
  end.

(** The retries after an overrun are not bounded in the code: [retries] is. *)
Definition pcm_read (retries : nat) (p : pcm) (data : list Z) (count : Z)
  : M (world K) (Z * list Z * pcm) :=
  if negb (has_flag (p_flags p) PCM_IN) then mret (- EINVAL, data, p)
  else
    frames ← xfer_frames p count;
    pcm_read_loop retries p data frames.

(** ** Ring buffer arithmetic *)

(** [int avail = hw_ptr + buffer_size - appl_ptr], then brought into range. *)
Definition playback_avail (buffer_size boundary hw_ptr appl_ptr : Z) : Z :=
  let avail := s32 (hw_ptr + buffer_size - appl_ptr) in
  if avail <? 0 then s32 (avail + boundary)
  else if s32 boundary <? avail then s32 (avail - boundary)
  else avail.

Definition capture_avail (boundary hw_ptr appl_ptr : Z) : Z :=
  let avail := s32 (hw_ptr - appl_ptr) in
  if avail <? 0 then s32 (avail + boundary) else avail.

Definition pcm_mmap_playback_avail (p : pcm) : M (world K) Z :=
  st ← get_status p;
  c ← get_control p;
  mret (playback_avail (p_buffer_size p) (p_boundary p) (ms_hw_ptr st) (mm_appl_ptr c)).

Definition pcm_mmap_capture_avail (p : pcm) : M (world K) Z :=
  st ← get_status p;
  c ← get_control p;
  mret (capture_avail (p_boundary p) (ms_hw_ptr st) (mm_appl_ptr c)).

Definition pcm_mmap_avail (p : pcm) : M (world K) (Z * pcm) :=
  '(_, p) ← pcm_sync_ptr p SNDRV_PCM_SYNC_PTR_HWSYNC;
  avail ← (if has_flag (p_flags p) PCM_IN then pcm_mmap_capture_avail p
           else pcm_mmap_playback_avail p);
  mret (avail, p).

(** The application pointer [frames] further. *)
Definition appl_forward (boundary appl_ptr frames : Z) : Z :=
  let appl_ptr := u32 (appl_ptr + frames) in
  if boundary <? appl_ptr then u32 (appl_ptr - boundary) else appl_ptr.

Definition pcm_mmap_appl_forward (p : pcm) (frames : Z) : M (world K) pcm :=
  c ← get_control p;
  let appl_ptr := appl_forward (p_boundary p) (mm_appl_ptr c) frames in
  c ← get_control p;
  set_control (MmapControl appl_ptr (mm_avail_min c)) p.

(** The offset in the buffer and the frames that can be copied there, of
    [frames] wanted and [avail] available. *)
Definition begin_frames (buffer_size appl_ptr avail frames : Z) : Z * Z :=
  let offset := appl_ptr mod buffer_size in
  let avail := if buffer_size <? u32 avail then buffer_size else u32 avail in
  let continuous := u32 (buffer_size - offset) in
  let copy_frames := if avail <? frames then avail else frames in
  let copy_frames := if continuous <? copy_frames then continuous else copy_frames in
  (offset, copy_frames).

(** Returns the offset and the frames. *)
Definition pcm_mmap_begin (p : pcm) (frames : Z) : M (world K) (Z * Z * pcm) :=
  c ← get_control p;
  _ ← check (negb (p_buffer_size p =? 0)) DivByZero;
  '(avail, p) ← pcm_mmap_avail p;
  mret (begin_frames (p_buffer_size p) (mm_appl_ptr c) avail frames, p).

Definition pcm_mmap_commit (p : pcm) (offset frames : Z) : M (world K) (Z * pcm) :=
  p ← pcm_mmap_appl_forward p (s32 frames);
  '(_, p) ← pcm_sync_ptr p 0;
  mret (s32 frames, p).

Definition pcm_avail_update (p : pcm) : M (world K) (Z * pcm) :=
  '(_, p) ← pcm_sync_ptr p 0;
  pcm_mmap_avail p.

(** ** Transfers through the ring buffer *)

(** [memcpy] between the ring buffer and [buf]; a negative size is a huge
    [size_t]. *)
Definition pcm_areas_copy (p : pcm) (pcm_offset : Z) (buf : list Z) (src_offset frames : Z)
  : M (world K) (list Z) :=
  let size_bytes := s32 (pcm_frames_to_bytes p frames) in
  let pcm_offset_bytes := s32 (pcm_frames_to_bytes p pcm_offset) in
  let src_offset_bytes := s32 (pcm_frames_to_bytes p src_offset) in
  match p_mmap_buffer p with
  | None => null_page buf
  | Some len =>
    let ok := (0 <=? size_bytes) && (0 <=? pcm_offset_bytes) && (0 <=? src_offset_bytes)
              && (pcm_offset_bytes + size_bytes <=? len)
              && (src_offset_bytes + size_bytes <=? Z.of_nat (List.length buf)) in
    _ ← check ok OutOfBounds;
    if negb ok then mret buf
    else if has_flag (p_flags p) PCM_IN then
      data ← sys (ring_read pcm_offset_bytes size_bytes);
      mret (splice buf (Z.to_nat src_offset_bytes) (resize (Z.to_nat size_bytes) 0 data))
    else
      _ ← sys (ring_write pcm_offset_bytes
                 (take (Z.to_nat size_bytes) (drop (Z.to_nat src_offset_bytes) buf)));
      mret buf
  end.

(** The loop copies until nothing is left; [fuel] bounds its turns. *)
Fixpoint transfer_areas_loop (fuel : nat) (p : pcm) (buf : list Z) (offset size count : Z)
  : M (world K) (Z * list Z * pcm) :=
  if size =? 0 then mret (s32 count, buf, p)
  else
    match fuel with
    | O => _ ← raise Hang; mret (s32 count, buf, p)
    | S fuel =>
      '(pcm_offset, frames, p) ← pcm_mmap_begin p size;
      buf ← pcm_areas_copy p pcm_offset buf offset frames;
      '(commit, p) ← pcm_mmap_commit p pcm_offset frames;
      if commit <? 0 then
        '(_, p) ← oops p commit
                    ("failed to commit " ++ decimal_int (s32 frames) ++ " frames" ++ newline);
        mret (commit, buf, p)
      else
        transfer_areas_loop fuel p buf (u32 (offset + commit)) (u32 (size - commit))
          (u32 (count + commit))
    end.

Definition pcm_mmap_transfer_areas (fuel : nat) (p : pcm) (buf : list Z) (offset size : Z)
  : M (world K) (Z * list Z * pcm) := transfer_areas_loop fuel p buf offset size 0.

(** [errno == -EINTR] compares with a negative number. *)
Fixpoint pcm_wait (fuel : nat) (p : pcm) (timeout : Z) : M (world K) (Z * pcm) :=
  match fuel with
  | O => _ ← raise Hang; mret (0, p)
  | S fuel =>
    '(err, revents) ← sys (sys_poll (p_fd p) timeout);
    if err <? 0 then errno ← sys sys_errno; mret (- errno, p)
    else if err =? 0 then mret (0, p)
    else
      errno ← sys sys_errno;
      if (errno =? - EINTR) then
        (if has_flag revents (Z.lor POLLIN POLLOUT) then mret (1, p) else pcm_wait fuel p timeout)
      else if has_flag revents (Z.lor POLLERR POLLNVAL) then
        '(state, p) ← pcm_state p;
        mret (if state =? PCM_STATE_XRUN then - EPIPE
              else if state =? PCM_STATE_SUSPENDED then - ESTRPIPE
              else if state =? PCM_STATE_DISCONNECTED then - ENODEV
              else - EIO, p)
      else if has_flag revents (Z.lor POLLIN POLLOUT) then mret (1, p)
      else pcm_wait fuel p timeout
  end.

(** The timeout of a wait for [avail_min] frames. *)
Definition wait_time (p : pcm) (avail avail_min : Z) : M (world K) Z :=
  if has_flag (p_flags p) PCM_NOIRQ then
    _ ← check (negb (p_noirq_frames_per_msec p =? 0)) DivByZero;
    mret (s32 (u32 (p_buffer_size p - avail - avail_min) / p_noirq_frames_per_msec p))
  else mret (-1).

(** The loop of [pcm_mmap_transfer]; [err] is the result of the last wait. *)
Fixpoint transfer_loop (fuel : nat) (p : pcm) (buf : list Z) (offset count err : Z)
  : M (world K) (Z * list Z * pcm) :=
  if count =? 0 then mret (0, buf, p)
  else
    match fuel with
    | O => _ ← raise Hang; mret (0, buf, p)
    | S fuel =>
      '(avail, p) ← pcm_avail_update p;
      if avail <? 0 then mret (err, buf, p)
      else
        '(started, p) ←
          (if negb (p_running p)
              && (pc_start_threshold (p_config p) <=? u32 (p_buffer_size p - avail))
           then pcm_start p else mret (0, p));
        if started <? 0 then errno ← sys sys_errno; mret (- errno, buf, p)
        else
          c ← (if p_running p then get_control p else mret (MmapControl 0 0));
          if p_running p && (u32 avail <? mm_avail_min c) then
            time ← wait_time p avail (mm_avail_min c);
            '(err, p) ← pcm_wait fuel p time;
            if err <? 0 then
              let p := set_run false false p in
              c ← get_control p;
              p ← set_control (MmapControl 0 (mm_avail_min c)) p;
              mret (err, buf, p)
            else transfer_loop fuel p buf offset count err
          else
            let frames := if avail <? s32 count then avail else s32 count in
            if frames =? 0 then mret (0, buf, p)
            else
              '(frames, buf, p) ← pcm_mmap_transfer_areas fuel p buf offset (u32 frames);
              if frames <? 0 then mret (frames, buf, p)
              else transfer_loop fuel p buf (u32 (offset + frames)) (u32 (count - frames)) err
    end.

(** [fuel] bounds the turns of the loops, which are not bounded in the code. *)
Definition pcm_mmap_transfer (fuel : nat) (p : pcm) (buf : list Z) (bytes : Z)
  : M (world K) (Z * list Z * pcm) :=
  if bytes =? 0 then mret (0, buf, p)
  else
    count ← pcm_bytes_to_frames p bytes;
    transfer_loop fuel p buf 0 count 0.

Definition pcm_mmap_write (fuel : nat) (p : pcm) (data : list Z) (count : Z)
  : M (world K) (Z * list Z * pcm) :=
  if has_flag (not32 (p_flags p)) (Z.lor PCM_OUT PCM_MMAP) then mret (- ENOSYS, data, p)
  else pcm_mmap_transfer fuel p data count.

Definition pcm_mmap_read (fuel : nat) (p : pcm) (data : list Z) (count : Z)
  : M (world K) (Z * list Z * pcm) :=
  if has_flag (not32 (p_flags p)) (Z.lor PCM_IN PCM_MMAP) then mret (- ENOSYS, data, p)
  else pcm_mmap_transfer fuel p data count.

(** Returns the code, the timestamp if it was written and the frames
    available if they were. *)
Definition pcm_get_htimestamp (p : pcm)
  : M (world K) (Z * option (Z * Z) * option Z * pcm) :=
  if negb (pcm_is_ready p) then mret (-1, None, None, p)
  else
    '(rc, p) ← pcm_sync_ptr p (Z.lor SNDRV_PCM_SYNC_PTR_APPL SNDRV_PCM_SYNC_PTR_HWSYNC);
    if rc <? 0 then mret (-1, None, None, p)
    else
      st ← get_status p;
      st2 ← (if ms_state st =? PCM_STATE_RUNNING then mret st else get_status p);
      if negb (ms_state st =? PCM_STATE_RUNNING) && negb (ms_state st2 =? PCM_STATE_DRAINING)
      then mret (-1, None, None, p)
      else
        st ← get_status p;
        let tstamp := ms_tstamp st in
        if (tstamp.1 =? 0) && (tstamp.2 =? 0) then mret (-1, Some tstamp, None, p)
        else
          st ← get_status p;
          c ← get_control p;
          let frames :=
            if has_flag (p_flags p) PCM_IN then s32 (ms_hw_ptr st - mm_appl_ptr c)
            else s32 (ms_hw_ptr st + p_buffer_size p - mm_appl_ptr c) in
          if frames <? 0 then mret (-1, Some tstamp, None, p)
          else mret (0, Some tstamp, Some frames, p).

(** ** Closing and opening *)

(** [munmap] of the sample buffer; of a null or failed mapping it is refused. *)
Definition unmap_buffer (p : pcm) : M (world K) unit :=
  match p_mmap_buffer p with
  | Some _ => sys (munmap_buffer (pcm_frames_to_bytes p (p_buffer_size p)))
  | None => mret tt
  end.

(** [None] is the address of [bad_pcm].  The object is freed. *)
Definition pcm_close (p : option pcm) : M (world K) Z :=
  match p with
  | None => mret 0
  | Some p =>
    p ← pcm_hw_munmap_status p;
    p ← (if has_flag (p_flags p) PCM_MMAP
         then '(_, p) ← pcm_stop p; _ ← unmap_buffer p; mret p
         else mret p);
    _ ← (if 0 <=? p_fd p then sys (sys_close_pcm (p_fd p)) else mret tt);
    mret 0
  end.

Definition pcm_device_name (card device flags : Z) : string :=
  snprintf 256 ("/dev/snd/pcmC" ++ decimal card ++ "D" ++ decimal device
                ++ (if has_flag flags PCM_IN then "c" else "p"))%string.

(** The hardware parameters asked for. *)
Definition open_hw_params (flags : Z) (c : pcm_config) : snd_pcm_hw_params :=
  let bits := pcm_format_to_bits (pc_format c) in
  let params := param_init in
  let params := param_set_mask params SNDRV_PCM_HW_PARAM_FORMAT
                  (pcm_format_to_alsa (pc_format c)) in
  let params := param_set_mask params SNDRV_PCM_HW_PARAM_SUBFORMAT SNDRV_PCM_SUBFORMAT_STD in
  let params := param_set_min params SNDRV_PCM_HW_PARAM_PERIOD_SIZE (pc_period_size c) in
  let params := param_set_int params SNDRV_PCM_HW_PARAM_SAMPLE_BITS bits in
  let params := param_set_int params SNDRV_PCM_HW_PARAM_FRAME_BITS (u32 (bits * pc_channels c)) in
  let params := param_set_int params SNDRV_PCM_HW_PARAM_CHANNELS (pc_channels c) in
  let params := param_set_int params SNDRV_PCM_HW_PARAM_PERIODS (pc_period_count c) in
  let params := param_set_int params SNDRV_PCM_HW_PARAM_RATE (pc_rate c) in
  let params :=
    if has_flag flags PCM_NOIRQ then
      set_hw_flags (Z.lor (hw_flags params) SNDRV_PCM_HW_PARAMS_NO_PERIOD_WAKEUP) params
    else params in
  param_set_mask params SNDRV_PCM_HW_PARAM_ACCESS
    (if has_flag flags PCM_MMAP then SNDRV_PCM_ACCESS_MMAP_INTERLEAVED
     else SNDRV_PCM_ACCESS_RW_INTERLEAVED).

(** The configuration after the kernel has refined the parameters. *)
Definition refined_config (c : pcm_config) (params : snd_pcm_hw_params) : pcm_config :=
  PcmConfig (pc_channels c) (pc_rate c)
    (param_get_int params SNDRV_PCM_HW_PARAM_PERIOD_SIZE)
    (param_get_int params SNDRV_PCM_HW_PARAM_PERIODS)
    (pc_format c) (pc_start_threshold c) (pc_stop_threshold c) (pc_silence_threshold c).

Definition config_frames (c : pcm_config) : Z := u32 (pc_period_count c * pc_period_size c).

Definition start_threshold (flags : Z) (c : pcm_config) : Z :=
  if pc_start_threshold c =? 0 then
    if has_flag flags PCM_IN then 1 else config_frames c / 2
  else pc_start_threshold c.

Definition stop_threshold (flags : Z) (c : pcm_config) : Z :=
  if pc_stop_threshold c =? 0 then
    if has_flag flags PCM_IN then u32 (config_frames c * 10) else config_frames c
  else pc_stop_threshold c.

(** The thresholds of the stream's own configuration: the defaults are copied. *)
Definition set_thresholds (flags : Z) (c : pcm_config) (own : pcm_config) : pcm_config :=
  PcmConfig (pc_channels own) (pc_rate own) (pc_period_size own) (pc_period_count own)
    (pc_format own)
    (if pc_start_threshold c =? 0 then start_threshold flags c else pc_start_threshold own)
    (if pc_stop_threshold c =? 0 then stop_threshold flags c else pc_stop_threshold own)
    (pc_silence_threshold own).

(** The software parameters asked for, with the refined configuration. *)
Definition open_sw_params (flags buffer_size : Z) (c : pcm_config) : snd_pcm_sw_params :=
  SwParams SNDRV_PCM_TSTAMP_ENABLE 1 1 (pc_period_size c / 2) (start_threshold flags c)
    (stop_threshold flags c) (pc_silence_threshold c) 0 buffer_size.

(** The doubling of the boundary, on 32-bit unsigned numbers. *)
Fixpoint boundary_loop (fuel : nat) (boundary buffer_size : Z) : M (world K) Z :=
  if u32 (boundary * 2) <=? u32 (INT_MAX - buffer_size) then
    match fuel with
    | O => _ ← raise Hang; mret boundary
    | S fuel => boundary_loop fuel (u32 (boundary * 2)) buffer_size
    end
  else mret boundary.

(** A doubling loop that has not ended after 32 turns does not end. *)
Definition BOUNDARY_FUEL : nat := 32.

Definition fail_close (p : pcm) : M (world K) pcm :=
  _ ← sys (sys_close_pcm (p_fd p)); mret (set_fd (-1) p).

Definition fail (p : pcm) : M (world K) pcm :=
  _ ← (if has_flag (p_flags p) PCM_MMAP then unmap_buffer p else mret tt);
  fail_close p.

(** From the software parameters on. *)
Definition open_software (p : pcm) (c : pcm_config) : M (world K) pcm :=
  let flags := p_flags p in
  let sparams := open_sw_params flags (p_buffer_size p) c in
  let p := set_config (set_thresholds flags c (p_config p)) p in
  boundary ← boundary_loop BOUNDARY_FUEL (p_buffer_size p) (p_buffer_size p);
  let p := set_boundary boundary p in
  '(r, _) ← sys (ioctl_sw_params (p_fd p) sparams);
  if negb (r =? 0) then '(_, p) ← oops_errno p "cannot set sw params"; fail p
  else
    '(rc, p) ← pcm_hw_mmap_status p;
    if rc <? 0 then '(_, p) ← oops p rc "mmap status failed"; fail p
    else if has_flag flags PCM_MONOTONIC then
      rc ← sys (ioctl_ttstamp (p_fd p) SNDRV_PCM_TSTAMP_TYPE_MONOTONIC);
      if rc <? 0 then '(_, p) ← oops p rc "cannot set timestamp type"; fail p
      else mret (set_underruns 0 p)
    else mret (set_underruns 0 p).

(** From the hardware parameters on; returns the configuration as well. *)
Definition open_hardware (p : pcm) (c : pcm_config) : M (world K) (pcm * pcm_config) :=
  let flags := p_flags p in
  if has_flag flags PCM_NOIRQ && negb (has_flag flags PCM_MMAP) then
    '(_, p) ← oops p (- EINVAL) "noirq only currently supported with mmap().";
    p ← fail p; mret (p, c)
  else
    let p := if has_flag flags PCM_NOIRQ then set_noirq (pc_rate c / 1000) p else p in
    '(r, params) ← sys (ioctl_hw_params (p_fd p) (open_hw_params flags c));
    if negb (r =? 0) then
      '(_, p) ← oops_errno p "cannot set hw params"; p ← fail_close p; mret (p, c)
    else
      let c := refined_config c params in
      let p := set_buffer_size (config_frames c) p in
      if has_flag flags PCM_MMAP then
        let len := pcm_frames_to_bytes p (p_buffer_size p) in
        ok ← sys (mmap_buffer (p_fd p) len);
        if negb ok then
          errno ← sys sys_errno;
          '(_, p) ← oops p (- errno)
                      ("failed to mmap buffer " ++ decimal_int (s32 len) ++ " bytes" ++ newline);
          p ← fail_close p; mret (p, c)
        else
          p ← open_software (set_mmap_buffer (Some len) p) c; mret (p, c)
      else p ← open_software p c; mret (p, c).

(** A zeroed stream object with its configuration and flags. *)
Definition pcm0 (flags : Z) (c : pcm_config) : pcm :=
  Pcm 0 flags false false 0 0 0 EmptyString c NoPage None 0.

(** [None] is [&bad_pcm]; the caller's configuration is updated. *)
Definition pcm_open (card device flags : Z) (config : option pcm_config)
  : M (world K) (option pcm * option pcm_config) :=
  ok ← alloc;
  match config with
  | Some c =>
    if negb ok then mret (None, config)
    else
      let fn := pcm_device_name card device flags in
      fd ← sys (sys_open_pcm fn);
      let p := set_fd fd (pcm0 flags c) in
      if fd <? 0 then
        '(_, p) ← oops_errno p ("cannot open device '" ++ fn ++ "'"); mret (Some p, config)
      else
        r ← sys (ioctl_pcm_info fd);
        if negb (r =? 0) then
          '(_, p) ← oops_errno p "cannot get info"; p ← fail_close p; mret (Some p, config)
        else
          '(p, c) ← open_hardware p c; mret (Some p, Some c)
  | None => mret (None, None)
  end.

(** ** The parameters of a device *)

Definition pcm_params_get (card device flags : Z) : M (world K) (option snd_pcm_hw_params) :=
  fd ← sys (sys_open_pcm (pcm_device_name card device flags));
  if fd <? 0 then mret None
  else
    ok ← alloc;
    if negb ok then _ ← sys (sys_close_pcm fd); mret None
    else
      '(r, params) ← sys (ioctl_hw_refine fd param_init);
      _ ← sys (sys_close_pcm fd);
      mret (if negb (r =? 0) then None else Some params).

End pcm.

Definition pcm_param_to_alsa (param : pcm_param) : Z :=
  match param with
  | PCM_PARAM_ACCESS => SNDRV_PCM_HW_PARAM_ACCESS
  | PCM_PARAM_FORMAT => SNDRV_PCM_HW_PARAM_FORMAT
  | PCM_PARAM_SUBFORMAT => SNDRV_PCM_HW_PARAM_SUBFORMAT
  | PCM_PARAM_SAMPLE_BITS => SNDRV_PCM_HW_PARAM_SAMPLE_BITS
  | PCM_PARAM_FRAME_BITS => SNDRV_PCM_HW_PARAM_FRAME_BITS
  | PCM_PARAM_CHANNELS => SNDRV_PCM_HW_PARAM_CHANNELS
  | PCM_PARAM_RATE => SNDRV_PCM_HW_PARAM_RATE
  | PCM_PARAM_PERIOD_TIME => SNDRV_PCM_HW_PARAM_PERIOD_TIME
  | PCM_PARAM_PERIOD_SIZE => SNDRV_PCM_HW_PARAM_PERIOD_SIZE
  | PCM_PARAM_PERIOD_BYTES => SNDRV_PCM_HW_PARAM_PERIOD_BYTES
  | PCM_PARAM_PERIODS => SNDRV_PCM_HW_PARAM_PERIODS
  | PCM_PARAM_BUFFER_TIME => SNDRV_PCM_HW_PARAM_BUFFER_TIME
  | PCM_PARAM_BUFFER_SIZE => SNDRV_PCM_HW_PARAM_BUFFER_SIZE
  | PCM_PARAM_BUFFER_BYTES => SNDRV_PCM_HW_PARAM_BUFFER_BYTES
  | PCM_PARAM_TICK_TIME => SNDRV_PCM_HW_PARAM_TICK_TIME
  end.

(** The mask of a parameter, null for an interval. *)
Definition pcm_params_get_mask (params : option snd_pcm_hw_params) (param : pcm_param)
  : option snd_mask :=
  params ← params;
  let p := pcm_param_to_alsa param in
  if (p <? 0) || negb (param_is_mask p) then None else hw_masks params !! param_to_mask p.

Definition pcm_params_get_min (params : option snd_pcm_hw_params) (param : pcm_param) : Z :=
  match params with
  | None => 0
  | Some params =>
    let p := pcm_param_to_alsa param in
    if p <? 0 then 0 else param_get_min params p
  end.

Definition pcm_params_get_max (params : option snd_pcm_hw_params) (param : pcm_param) : Z :=
  match params with
  | None => 0
  | Some params =>
    let p := pcm_param_to_alsa param in
    if p <? 0 then 0 else param_get_max params p
  end.

(** ** What the kernel promises of the hardware parameters *)

(** The kernel settles the period size and the number of periods on one value
    each, and keeps the buffer within the range of an [int]. *)
Definition params_chosen (p q : snd_pcm_hw_params) : Prop :=
  let size := param_get_int q SNDRV_PCM_HW_PARAM_PERIOD_SIZE in
  let periods := param_get_int q SNDRV_PCM_HW_PARAM_PERIODS in
  0 < size ∧ 0 < periods
  ∧ periods * size * Z.max 1 (param_get_int p SNDRV_PCM_HW_PARAM_FRAME_BITS / 8) <= INT_MAX.

Class AlsaPcmLaws (K : Type) `{!AlsaPcm K} : Prop := {
  hw_params_chosen fd p k :
    (ioctl_hw_params fd p k).1.1 = 0 → params_chosen p (ioctl_hw_params fd p k).1.2
}.
