(* ===== verification/SoftPcm.v ===== *)
(** * A software PCM device

    An instance of [AlsaPcm] that keeps its ring buffer and its pointers in
    memory.  The witnesses of the stream properties run on it. *)

From S2P Require Import Prelude Kernel PcmKernel Pcm.
From Stdlib Require Import String.

#[global] Open Scope Z_scope.

(** [sd_script] is the errno of the coming transfers (0: success) and
    [sd_sw_rc] the result of setting software parameters; [sd_maps] and
    [sd_unmaps] count the mappings of the ring buffer. *)
Record soft_pcm := SoftPcm {
  sd_status : snd_pcm_mmap_status;
  sd_control : snd_pcm_mmap_control;
  sd_ring : list Z;
  sd_played : list Z;
  sd_script : list Z;
  sd_errno : Z;
  sd_pages : bool;
  sd_sw_rc : Z;
  sd_maps : Z;
  sd_unmaps : Z
}.

Definition with_control (c : snd_pcm_mmap_control) (k : soft_pcm) : soft_pcm :=
  SoftPcm (sd_status k) c (sd_ring k) (sd_played k) (sd_script k) (sd_errno k) (sd_pages k)
          (sd_sw_rc k) (sd_maps k) (sd_unmaps k).
Definition with_ring (l : list Z) (k : soft_pcm) : soft_pcm :=
  SoftPcm (sd_status k) (sd_control k) l (sd_played k) (sd_script k) (sd_errno k) (sd_pages k)
          (sd_sw_rc k) (sd_maps k) (sd_unmaps k).
Definition with_errno (e : Z) (k : soft_pcm) : soft_pcm :=
  SoftPcm (sd_status k) (sd_control k) (sd_ring k) (sd_played k) (sd_script k) e (sd_pages k)
          (sd_sw_rc k) (sd_maps k) (sd_unmaps k).
Definition with_maps (m u : Z) (k : soft_pcm) : soft_pcm :=
  SoftPcm (sd_status k) (sd_control k) (sd_ring k) (sd_played k) (sd_script k) (sd_errno k)
          (sd_pages k) (sd_sw_rc k) m u.

(** Frames are of 4 bytes; a capture gives the front of the ring.

    One transfer: appends the data, or fails with the errno of the script. *)
Definition transfer (data : list Z) (k : soft_pcm) : Z * soft_pcm :=
  match sd_script k with
  | [] => (0, SoftPcm (sd_status k) (sd_control k) (sd_ring k) (sd_played k ++ data) []
                (sd_errno k) (sd_pages k) (sd_sw_rc k) (sd_maps k) (sd_unmaps k))
  | e :: rest =>
    (if e =? 0 then 0 else -1,
     SoftPcm (sd_status k) (sd_control k) (sd_ring k)
       (if e =? 0 then sd_played k ++ data else sd_played k) rest e (sd_pages k)
       (sd_sw_rc k) (sd_maps k) (sd_unmaps k))
  end.

(** The period size is fixed at its minimum; a request that does not settle the
    buffer is refused. *)
Definition fix_period (p : snd_pcm_hw_params) : snd_pcm_hw_params :=
  param_set_int p SNDRV_PCM_HW_PARAM_PERIOD_SIZE
    (param_get_min p SNDRV_PCM_HW_PARAM_PERIOD_SIZE).

#[export] Instance params_chosen_dec p q : Decision (params_chosen p q).
Proof. unfold params_chosen. apply _. Defined.

#[export] Instance soft_alsa_pcm : AlsaPcm soft_pcm := {
  strerror _ := "error"%string;
  sys_errno k := (sd_errno k, k);
  sys_open_pcm _ k := (5, k);
  sys_close_pcm _ k := (tt, k);
  ioctl_pcm_info _ k := (0, k);
  ioctl_hw_refine _ p k := ((0, p), k);
  ioctl_hw_params _ p k :=
    (if bool_decide (params_chosen p (fix_period p)) then (0, fix_period p) else (-1, p), k);
  ioctl_sw_params _ p k := ((sd_sw_rc k, p), k);
  ioctl_ttstamp _ _ k := (0, k);
  ioctl_prepare _ k := (0, k);
  ioctl_start _ k := (0, k);
  ioctl_drop _ k := (0, k);
  ioctl_writei_frames _ data _ k := transfer data k;
  ioctl_readi_frames _ frames k :=
    let '(r, k) := transfer [] k in
    let n := (4 * Z.to_nat frames)%nat in
    ((r, take n ((u8 <$> sd_ring k) ++ replicate n 0)), k);
  ioctl_sync_ptr _ sp k :=
    ((0, SyncPtr (sp_flags sp) (sd_status k) (sp_control sp)), with_control (sp_control sp) k);
  mmap_status_page _ k := (sd_pages k, k);
  mmap_control_page _ k := (sd_pages k, k);
  munmap_status_page k := (tt, k);
  munmap_control_page k := (tt, k);
  page_status k := (sd_status k, k);
  page_control k := (sd_control k, k);
  set_page_control c k := (tt, with_control c k);
  mmap_buffer _ _ k := (true, with_maps (sd_maps k + 1) (sd_unmaps k) k);
  munmap_buffer _ k := (tt, with_maps (sd_maps k) (sd_unmaps k + 1) k);
  ring_read off n k := (take (Z.to_nat n) (drop (Z.to_nat off) (sd_ring k)), k);
  ring_write off data k := (tt, with_ring (splice (sd_ring k) (Z.to_nat off) data) k);
  sys_poll _ _ k := ((1, POLLOUT), k)
}.

#[export] Instance soft_alsa_pcm_laws : AlsaPcmLaws soft_pcm.
Proof. split. intros fd p k. cbn. by case_bool_decide. Qed.

(** A stopped device with a ring of 16 stereo frames of 16 bits. *)
Definition demo_pcm_device (hw_ptr : Z) (pages : bool) (sw_rc : Z) (script : list Z) : soft_pcm :=
  SoftPcm (MmapStatus 2 hw_ptr (1, 0)) (MmapControl 0 1) (replicate 64 0) [] script 0 pages
          sw_rc 0 0.

Definition demo_pcm_world (hw_ptr : Z) (pages : bool) (sw_rc : Z) (script : list Z)
  : world soft_pcm := World (demo_pcm_device hw_ptr pages sw_rc script) [] [].

(** Two channels at 48 kHz, four periods of four frames. *)
Definition demo_pcm_config : pcm_config := PcmConfig 2 48000 4 4 PCM_FORMAT_S16_LE 0 0 0.
