(* ===== verification/PcmFacts.v ===== *)
(** * Correctness of the PCM streams *)

From S2P Require Import Prelude Kernel CStrings PcmKernel Pcm SoftPcm.
From Stdlib Require Import String.

#[global] Open Scope Z_scope.

(** ** The boundary of the stream pointers *)

Section boundary.
  Context {K : Type}.

(** The boundary is the buffer size doubled as long as a further buffer fits an
    [int]. *)
Definition largest_boundary (bs b : Z) : Prop :=
  (∃ k, 0 <= k ∧ b = bs * 2 ^ k) ∧ INT_MAX - bs < 2 * b ∧ (b = bs ∨ b <= INT_MAX - bs).

Lemma boundary_loop_ok fuel bs k :
  0 < bs <= INT_MAX → 0 <= k → (bs * 2 ^ k = bs ∨ bs * 2 ^ k <= INT_MAX - bs) →
  (32 <= k + Z.of_nat fuel) →
  yields (K:=K) (boundary_loop fuel (bs * 2 ^ k) bs) (largest_boundary bs).
Proof.
  intros Hbs. revert k. unfold INT_MAX in *.
  induction fuel as [|fuel IH]; intros k Hk Hb Hfuel; cbn [boundary_loop].
  all: assert (0 < 2 ^ k) by (apply Z.pow_pos_nonneg; lia).
  all: assert (bs * 2 ^ k < 2 ^ 31) by (change (2 ^ 31) with (INT_MAX + 1); unfold INT_MAX; lia).
  all: assert (1 * 2 ^ k <= bs * 2 ^ k) by (apply Z.mul_le_mono_nonneg_r; lia).
  - assert (2 ^ 32 <= 2 ^ k) by (apply Z.pow_le_mono_r; lia). lia.
  - unfold INT_MAX. rewrite (u32_small (bs * 2 ^ k * 2)), (u32_small (_ - bs)) by (unfold is_u32; lia).
    apply yields_if; intros Hle.
    + apply Z.leb_le in Hle.
      replace (bs * 2 ^ k * 2) with (bs * 2 ^ (k + 1)) by (rewrite Z.pow_add_r by lia; lia).
      apply IH; [lia| |lia]. right. rewrite Z.pow_add_r by lia. lia.
    + apply Z.leb_gt in Hle. apply yields_ret. unfold largest_boundary, INT_MAX.
      split_and!; [by exists k|lia|done].
Qed.

End boundary.

(** ** The ring buffer *)

(** Pointers of a stream with a ring of [bs] frames, as src/tinyalsa/pcm.c
    keeps them: both run below the boundary [b], a proper multiple of the
    ring's size, and the application's may rest on it. *)
Record ring (bs b hw appl : Z) : Prop := {
  rg_size : 0 < bs < b;
  rg_boundary : (bs | b);
  rg_fits : b + bs <= INT_MAX;
  rg_hw : 0 <= hw < b;
  rg_appl : 0 <= appl <= b
}.

(** The frames written and not yet played. *)
Definition filled (b hw appl : Z) : Z := (appl - hw) mod b.

Lemma filled_cases bs b hw appl :
  ring bs b hw appl →
  filled b hw appl =
    if appl - hw <? 0 then appl - hw + b
    else if appl - hw =? b then 0 else appl - hw.
Proof.
  intros [Hs _ _ Hh Ha]. unfold filled.
  destruct (Z.ltb_spec (appl - hw) 0).
  - symmetry. apply (Z.mod_unique _ _ (-1)); lia.
  - destruct (Z.eqb_spec (appl - hw) b) as [->|].
    + by rewrite Z_mod_same_full.
    + rewrite Z.mod_small; lia.
Qed.

Lemma playback_avail_cases bs b hw appl :
  ring bs b hw appl → filled b hw appl <= bs →
  playback_avail bs b hw appl =
    if (appl <? hw) && (filled b hw appl =? bs) then b else bs - filled b hw appl.
Proof.
  intros Hr Hf. rewrite (filled_cases bs) in * by done.
  destruct Hr as [Hs Hd Hfit Hh Ha]. unfold INT_MAX in Hfit. unfold playback_avail. cbv zeta.
  rewrite (s32_small (hw + bs - appl)), (s32_small b) by (unfold is_s32; lia).
  destruct (Z.ltb_spec (appl - hw) 0).
  - rewrite (proj2 (Z.ltb_lt appl hw)) by lia. rewrite (proj2 (Z.ltb_ge (hw + bs - appl) 0)) by lia.
    cbn [andb]. destruct (Z.ltb_spec b (hw + bs - appl)), (Z.eqb_spec (appl - hw + b) bs);
      rewrite ?s32_small by (unfold is_s32; lia); lia.
  - rewrite (proj2 (Z.ltb_ge appl hw)) by lia. cbn [andb].
    destruct (Z.eqb_spec (appl - hw) b).
    + assert (hw = 0 ∧ appl = b) as [-> ->] by lia.
      destruct (Z.ltb_spec (0 + bs - b) 0); [rewrite s32_small by (unfold is_s32; lia); lia|].
      destruct (Z.ltb_spec b (0 + bs - b)); lia.
    + destruct (Z.ltb_spec (hw + bs - appl) 0); [lia|].
      destruct (Z.ltb_spec b (hw + bs - appl)); lia.
Qed.

Lemma capture_avail_mod b hw appl :
  0 <= hw < b → 0 <= appl <= b → b <= INT_MAX → capture_avail b hw appl = (hw - appl) mod b.
Proof.
  intros Hh Ha Hb. unfold capture_avail, INT_MAX in *. cbv zeta.
  rewrite s32_small by (unfold is_s32; lia).
  destruct (Z.ltb_spec (hw - appl) 0).
  - rewrite s32_small by (unfold is_s32; lia).
    destruct (Z.eq_dec (hw - appl) (- b)) as [He|].
    + rewrite He. rewrite Z.add_opp_diag_l. by rewrite Z.mod_opp_l_z, ?Z_mod_same_full by (try lia; apply Z_mod_same_full).
    + apply (Z.mod_unique _ _ (-1)); lia.
  - by rewrite Z.mod_small by lia.
Qed.

Lemma appl_forward_mod bs b appl n :
  0 < bs → 0 < b → b + bs <= INT_MAX → 0 <= appl <= b → 0 <= n <= bs → bs <= b →
  0 <= appl_forward b appl n <= b ∧ appl_forward b appl n mod b = (appl + n) mod b.
Proof.
  intros Hs Hb Hfit Ha Hn Hle. unfold appl_forward, INT_MAX in *. cbv zeta.
  rewrite (u32_small (appl + n)) by (unfold is_u32; lia).
  destruct (Z.ltb_spec b (appl + n)); [|by split; [lia|]].
  rewrite u32_small by (unfold is_u32; lia). split; [lia|].
  replace (appl + n - b) with (appl + n + (-1) * b) by lia. apply Z_mod_plus_full.
Qed.

(** The offset and the length of a copy stay inside the ring. *)
Lemma begin_frames_bounds bs appl avail frames :
  0 < bs < 2 ^ 32 → 0 <= frames →
  let '(offset, n) := begin_frames bs appl avail frames in
  0 <= offset < bs ∧ 0 <= n <= frames ∧ offset + n <= bs.
Proof.
  intros Hs Hf. unfold begin_frames. cbv zeta.
  pose proof (Z.mod_pos_bound appl bs ltac:(lia)) as Ho.
  rewrite (u32_small (bs - _)) by (unfold is_u32; lia).
  pose proof (u32_range avail) as [Hu _].
  set (a := if bs <? u32 avail then bs else u32 avail).
  assert (0 <= a) by (subst a; destruct (_ <? _); lia).
  destruct (Z.ltb_spec a frames);
    (case_match eqn:Hc; [apply Z.ltb_lt in Hc|apply Z.ltb_ge in Hc]); lia.
Qed.

(** ** What the operations leave unchanged *)

(** The same stream up to its run state, its pages' content and its message. *)
Record same_stream (p p' : pcm) : Prop := {
  ss_fd : p_fd p' = p_fd p;
  ss_flags : p_flags p' = p_flags p;
  ss_buffer_size : p_buffer_size p' = p_buffer_size p;
  ss_boundary : p_boundary p' = p_boundary p;
  ss_config : p_config p' = p_config p;
  ss_mmap_buffer : p_mmap_buffer p' = p_mmap_buffer p;
  ss_noirq : p_noirq_frames_per_msec p' = p_noirq_frames_per_msec p;
  ss_page : p_page p ≠ NoPage → p_page p' ≠ NoPage
}.

#[export] Instance same_stream_refl : Reflexive same_stream.
Proof. by intros p. Qed.

#[export] Instance same_stream_trans : Transitive same_stream.
Proof.
  intros p1 p2 p3 [] []. split; try congruence. auto.
Qed.

Section stream_ops.
  Context {K : Type} `{!AlsaPcm K}.

Lemma oops_same p e msg :
  yields (K:=K) (oops p e msg) (λ r, r.1 = -1 ∧ same_stream p r.2 ∧ p_running r.2 = p_running p
    ∧ p_prepared r.2 = p_prepared p ∧ p_underruns r.2 = p_underruns p).
Proof. unfold oops. eapply yields_bind; [apply yields_sys_true|]. intros ? _. by apply yields_ret. Qed.

Lemma oops_errno_same p msg :
  yields (K:=K) (oops_errno p msg) (λ r, r.1 = -1 ∧ same_stream p r.2
    ∧ p_running r.2 = p_running p
    ∧ p_prepared r.2 = p_prepared p ∧ p_underruns r.2 = p_underruns p).
Proof.
  unfold oops_errno. eapply yields_bind; [apply yields_sys_true|]. intros ? _. apply oops_same.
Qed.

Lemma get_status_safe p : p_page p ≠ NoPage → yields (K:=K) (get_status p) (λ _, True).
Proof.
  intros Hp. unfold get_status. destruct (p_page p); [done|apply yields_sys_true|by apply yields_ret].
Qed.

Lemma get_control_safe p : p_page p ≠ NoPage → yields (K:=K) (get_control p) (λ _, True).
Proof.
  intros Hp. unfold get_control. destruct (p_page p); [done|apply yields_sys_true|by apply yields_ret].
Qed.

Lemma set_control_safe c p :
  p_page p ≠ NoPage →
  yields (K:=K) (set_control c p) (λ p', same_stream p p' ∧ p_running p' = p_running p).
Proof.
  intros Hp. unfold set_control. destruct (p_page p) eqn:He; [done|..].
  - eapply yields_bind; [apply yields_sys_true|]. intros ? _. by apply yields_ret.
  - apply yields_ret. by split.
Qed.

Lemma pcm_sync_ptr_same p flags :
  yields (K:=K) (pcm_sync_ptr p flags) (λ r, same_stream p r.2 ∧ p_running r.2 = p_running p
    ∧ p_prepared r.2 = p_prepared p).
Proof.
  unfold pcm_sync_ptr. destruct (p_page p); [by apply yields_ret..|].
  eapply yields_bind; [apply yields_sys_true|]. intros [r sp'] _. apply yields_ret. by split_and!.
Qed.

Lemma pcm_prepare_same p :
  yields (K:=K) (pcm_prepare p) (λ r, (r.1 = 0 ∧ p_prepared r.2 = true ∨ r.1 = -1)
    ∧ same_stream p r.2 ∧ p_running r.2 = p_running p ∧ p_underruns r.2 = p_underruns p).
Proof.
  unfold pcm_prepare. apply yields_if; intros Hp; [apply yields_ret; cbn; split_and!; [by left|done..]|].
  eapply yields_bind; [apply yields_sys_true|]. intros r _. apply yields_if; intros _.
  - eapply yields_post; [apply oops_errno_same|]. intros x (-> & ? & ? & ? & ?). by auto.
  - apply yields_ret. split_and!; by auto.
Qed.

Lemma pcm_start_same p :
  yields (K:=K) (pcm_start p) (λ r, (r.1 = 0 ∧ p_running r.2 = true ∨ r.1 = -1)
    ∧ same_stream p r.2).
Proof.
  unfold pcm_start. eapply yields_bind; [apply pcm_prepare_same|].
  intros [e p1] (He & Hs1 & _ & _). cbn [fst snd] in He, Hs1.
  apply yields_if; intros Hz.
  { apply yields_ret. split; [|done]. right. destruct He as [[-> _]|]; [by rewrite Z.eqb_refl in Hz|done]. }
  eapply (yields_bind _ _ (λ r, same_stream p1 r.2)).
  { apply yields_if; intros _; [|by apply yields_ret].
    eapply yields_post; [apply pcm_sync_ptr_same|]. by intros r [? _]. }
  intros [x p2] Hs2. cbn [snd] in Hs2. eapply yields_bind; [apply yields_sys_true|]. intros r _.
  apply yields_if; intros _.
  - eapply yields_post; [apply oops_errno_same|]. intros y (-> & Hs3 & _).
    split; [by right|]. etrans; [exact Hs1|]. by etrans.
  - apply yields_ret. split; [by left|]. etrans; [exact Hs1|]. by etrans.
Qed.

Lemma pcm_state_same p :
  p_page p ≠ NoPage → yields (K:=K) (pcm_state p) (λ r, same_stream p r.2).
Proof.
  intros Hp. unfold pcm_state. eapply yields_bind; [apply pcm_sync_ptr_same|].
  intros [e p1] (Hs & _). cbn [snd] in Hs. apply yields_if; intros _; [by apply yields_ret|].
  eapply yields_bind; [by apply get_status_safe, (ss_page _ _ Hs)|]. intros ? _.
  by apply yields_ret.
Qed.

Lemma pcm_mmap_avail_same p :
  p_page p ≠ NoPage →
  yields (K:=K) (pcm_mmap_avail p) (λ r, same_stream p r.2 ∧ p_running r.2 = p_running p).
Proof.
  intros Hp. unfold pcm_mmap_avail. eapply yields_bind; [apply pcm_sync_ptr_same|].
  intros [e p1] (Hs & Hr & _). cbn [snd] in Hs, Hr.
  pose proof (ss_page _ _ Hs Hp) as Hp1.
  eapply (yields_bind _ _ (λ _, True)); [|intros ? _; by apply yields_ret].
  unfold pcm_mmap_capture_avail, pcm_mmap_playback_avail. apply yields_if; intros _.
  all: eapply yields_bind; [by apply get_status_safe|intros ? _].
  all: eapply yields_bind; [by apply get_control_safe|intros ? _]; by apply yields_ret.
Qed.

Lemma pcm_avail_update_same p :
  p_page p ≠ NoPage →
  yields (K:=K) (pcm_avail_update p) (λ r, same_stream p r.2 ∧ p_running r.2 = p_running p).
Proof.
  intros Hp. unfold pcm_avail_update. eapply yields_bind; [apply pcm_sync_ptr_same|].
  intros [e p1] (Hs & Hr & _). cbn [snd] in Hs, Hr.
  eapply yields_post; [by apply pcm_mmap_avail_same, (ss_page _ _ Hs)|].
  intros r [Hs2 Hr2]. split; [by etrans|congruence].
Qed.

Lemma pcm_mmap_commit_same p offset frames :
  p_page p ≠ NoPage →
  yields (K:=K) (pcm_mmap_commit p offset frames)
    (λ r, r.1 = s32 frames ∧ same_stream p r.2).
Proof.
  intros Hp. unfold pcm_mmap_commit, pcm_mmap_appl_forward.
  eapply (yields_bind _ _ (same_stream p)).
  - do 2 (eapply yields_bind; [by apply get_control_safe|intros ? _]).
    eapply yields_post; [by apply set_control_safe|]. by intros p' [? _].
  - intros p1 Hs1. eapply yields_bind; [apply pcm_sync_ptr_same|]. intros [e p2] (Hs2 & _).
    apply yields_ret. split; [done|]. by etrans.
Qed.

End stream_ops.

(** ** Transfers through the ring buffer stay inside it *)

(** Bytes of a frame, without wrap-around. *)
Definition frame_size (c : pcm_config) : Z :=
  pc_channels c * Z.shiftr (pcm_format_to_bits (pc_format c)) 3.

(** A stream whose pages are there and whose whole ring is mapped. *)
Record mapped_ring (p : pcm) : Prop := {
  mr_channels : 0 < pc_channels (p_config p);
  mr_size : 0 < p_buffer_size p;
  mr_fits : p_buffer_size p * frame_size (p_config p) <= INT_MAX;
  mr_page : p_page p ≠ NoPage;
  mr_buffer : p_mmap_buffer p = Some (p_buffer_size p * frame_size (p_config p));
  mr_noirq : has_flag (p_flags p) PCM_NOIRQ = true → p_noirq_frames_per_msec p ≠ 0
}.

Lemma mapped_ring_same p p' : same_stream p p' → mapped_ring p → mapped_ring p'.
Proof. intros [] []. split; rewrite ?ss_config0, ?ss_buffer_size0, ?ss_flags0, ?ss_noirq0; auto; congruence. Qed.

Lemma frame_size_bounds c : 0 < pc_channels c → pc_channels c <= frame_size c ∧ 2 <= frame_size c.
Proof.
  intros Hc. unfold frame_size.
  assert (2 <= Z.shiftr (pcm_format_to_bits (pc_format c)) 3) by (by destruct (pc_format c)). nia.
Qed.

Lemma frames_to_bytes_exact p n :
  0 < pc_channels (p_config p) → 0 <= n → n * frame_size (p_config p) <= INT_MAX →
  pcm_frames_to_bytes p n = n * frame_size (p_config p)
  ∧ s32 (n * frame_size (p_config p)) = n * frame_size (p_config p).
Proof.
  intros Hc Hn Hf. unfold pcm_frames_to_bytes, frame_size, INT_MAX in *.
  set (k := Z.shiftr _ 3) in *.
  assert (1 <= k) by (subst k; by destruct (pc_format _)).
  assert (0 <= n * pc_channels (p_config p)) by nia.
  assert (n * pc_channels (p_config p) <= n * (pc_channels (p_config p) * k)) by nia.
  rewrite (u32_small (n * _)) by (unfold is_u32; lia).
  rewrite u32_small by (unfold is_u32; nia). split; [lia|].
  rewrite s32_small; [done|unfold is_s32; nia].
Qed.

Section transfers.
  Context {K : Type} `{!AlsaPcm K}.

Lemma areas_copy_safe p off buf src n :
  mapped_ring p → 0 <= off → 0 <= src → 0 <= n → off + n <= p_buffer_size p →
  (src + n) * frame_size (p_config p) <= Z.of_nat (List.length buf) →
  Z.of_nat (List.length buf) <= INT_MAX →
  yields (K:=K) (pcm_areas_copy p off buf src n) (λ b, List.length b = List.length buf).
Proof.
  intros [Hc Hbs Hfit _ Hbuf _] Ho Hs Hn Hin Hsrc Hlen.
  pose proof (frame_size_bounds _ Hc) as [_ Hf].
  destruct (frames_to_bytes_exact p n Hc Hn) as [En Sn]; [nia|].
  destruct (frames_to_bytes_exact p off Hc Ho) as [Eo So]; [nia|].
  destruct (frames_to_bytes_exact p src Hc Hs) as [Es Ss]; [nia|].
  unfold pcm_areas_copy. rewrite En, Eo, Es, Sn, So, Ss, Hbuf. cbv zeta.
  set (fs := frame_size (p_config p)) in *.
  rewrite !(proj2 (Z.leb_le _ _)) by nia. cbn [andb negb].
  eapply yields_bind; [by apply yields_check|intros _ _].
  apply yields_if; intros _.
  - eapply yields_bind; [apply yields_sys_true|]. intros data _. apply yields_ret.
    apply splice_length. rewrite length_resize. nia.
  - eapply yields_bind; [apply yields_sys_true|]. intros ? _. by apply yields_ret.
Qed.

Lemma mmap_begin_safe p frames :
  mapped_ring p → 0 <= frames →
  yields (K:=K) (pcm_mmap_begin p frames) (λ '(off, n, p'),
    same_stream p p' ∧ 0 <= off ∧ 0 <= n <= frames ∧ off + n <= p_buffer_size p).
Proof.
  intros Hm Hf. pose proof (frame_size_bounds _ (mr_channels _ Hm)) as [_ Hfs].
  assert (p_buffer_size p < 2 ^ 31).
  { destruct Hm as [_ ? Hfit _ _ _]. unfold INT_MAX in Hfit. nia. }
  pose proof (mr_size _ Hm). unfold pcm_mmap_begin.
  eapply yields_bind; [by apply get_control_safe, Hm|]. intros c _.
  eapply yields_bind; [apply yields_check|intros _ _].
  { apply negb_true_iff, Z.eqb_neq. lia. }
  eapply yields_bind; [by apply pcm_mmap_avail_same, Hm|]. intros [avail p1] [Hs1 _].
  cbn [snd] in Hs1. apply yields_ret.
  pose proof (begin_frames_bounds (p_buffer_size p1) (mm_appl_ptr c) avail frames) as Hb.
  rewrite (ss_buffer_size _ _ Hs1) in *. destruct (begin_frames _ _ _ _) as [off n].
  destruct Hb as (? & ? & ?); [lia..|]. split_and!; (done || lia).
Qed.

(** Only the turns of the loop may run out. *)
Definition hangs (f : fault) : Prop := f = Hang.

Lemma transfer_areas_safe fuel p buf offset size count :
  mapped_ring p → 0 <= offset → 0 <= size → 0 <= count →
  (offset + size) * frame_size (p_config p) <= Z.of_nat (List.length buf) →
  Z.of_nat (List.length buf) <= INT_MAX → count + size <= INT_MAX →
  limits (K:=K) hangs (transfer_areas_loop fuel p buf offset size count) (λ '(r, buf', p'),
    same_stream p p' ∧ List.length buf' = List.length buf ∧ 0 <= r <= count + size).
Proof.
  revert p buf offset size count.
  induction fuel as [|fuel IH]; intros p buf offset size count Hm Ho Hs Hc Hb Hl Ht;
    pose proof (frame_size_bounds _ (mr_channels _ Hm)) as [_ Hfs];
    unfold INT_MAX in *; cbn [transfer_areas_loop].
  all: destruct (Z.eqb_spec size 0) as [Hz|Hz];
    [apply limits_ret; rewrite s32_small by (unfold is_s32; lia); split_and!; (done || lia)|].
  { eapply limits_bind; [by apply (limits_raise _ _ (λ _, True))|]. intros ? _. apply limits_ret.
    rewrite s32_small by (unfold is_s32; lia). split_and!; (done || lia). }
  eapply limits_bind; [by apply limits_yields, mmap_begin_safe|].
  intros [[off n] p1] (Hs1 & Hoff & Hn & Hin).
  pose proof (mapped_ring_same _ _ Hs1 Hm) as Hm1.
  eapply limits_bind.
  { apply limits_yields, areas_copy_safe; [done|lia|lia|lia| | |done].
    - by rewrite (ss_buffer_size _ _ Hs1).
    - rewrite (ss_config _ _ Hs1). nia. }
  intros buf1 Hlen.
  eapply limits_bind; [by apply limits_yields, pcm_mmap_commit_same, Hm1|].
  intros [commit p2] [Hcm Hs2]. cbn [fst snd] in Hcm, Hs2.
  assert (offset * frame_size (p_config p) <= 2147483647) by nia.
  rewrite s32_small in Hcm by (unfold is_s32; nia). subst commit.
  assert (same_stream p p2) as Hs12 by (by etrans).
  rewrite (proj2 (Z.ltb_ge n 0)) by lia.
  rewrite (u32_small (offset + n)), (u32_small (size - n)), (u32_small (count + n))
    by (unfold is_u32; nia).
  eapply limits_post.
  { apply IH; [by eapply mapped_ring_same|lia|lia|lia| | |lia].
    - rewrite Hlen, (ss_config _ _ Hs12). replace (offset + n + (size - n)) with (offset + size) by lia. done.
    - by rewrite Hlen. }
  intros [[r buf'] p'] (Hs3 & Hl3 & Hr). split_and!; [by etrans|congruence|lia..].
Qed.

Lemma pcm_wait_safe fuel p timeout :
  p_page p ≠ NoPage →
  limits (K:=K) hangs (pcm_wait fuel p timeout) (λ r, same_stream p r.2).
Proof.
  intros Hp. induction fuel as [|fuel IH]; cbn [pcm_wait].
  { eapply limits_bind; [by apply (limits_raise _ _ (λ _, True))|]. intros ? _. by apply limits_ret. }
  eapply limits_bind; [apply limits_yields, yields_sys_true|]. intros [err revents] _.
  apply limits_if; intros _.
  { eapply limits_bind; [apply limits_yields, yields_sys_true|]. intros ? _. by apply limits_ret. }
  apply limits_if; intros _; [by apply limits_ret|].
  eapply limits_bind; [apply limits_yields, yields_sys_true|]. intros errno _.
  apply limits_if; intros _; [by apply limits_if; intros _; [apply limits_ret|]|].
  apply limits_if; intros _.
  { eapply limits_bind; [by apply limits_yields, pcm_state_same|]. intros [st p1] Hs.
    by apply limits_ret. }
  apply limits_if; intros _; [by apply limits_ret|done].
Qed.

(** What a turn of [pcm_mmap_transfer] needs of the caller's buffer. *)
Definition room (p : pcm) (buf : list Z) (offset count : Z) : Prop :=
  0 <= offset ∧ 0 <= count
  ∧ (offset + count) * frame_size (p_config p) <= Z.of_nat (List.length buf)
  ∧ Z.of_nat (List.length buf) <= INT_MAX.

Lemma room_same p p' buf buf' offset count :
  same_stream p p' → List.length buf' = List.length buf →
  room p buf offset count → room p' buf' offset count.
Proof. intros Hs Hl. unfold room. by rewrite Hl, (ss_config _ _ Hs). Qed.

Lemma transfer_loop_safe fuel p buf offset count err :
  mapped_ring p → room p buf offset count →
  limits (K:=K) hangs (transfer_loop fuel p buf offset count err) (λ '(r, buf', p'),
    same_stream p p' ∧ List.length buf' = List.length buf).
Proof.
  revert p buf offset count err.
  induction fuel as [|fuel IH]; intros p buf offset count err Hm Hroom;
    pose proof (frame_size_bounds _ (mr_channels _ Hm)) as [_ Hfs];
    pose proof Hroom as (Ho & Hc & Hb & Hl); unfold INT_MAX in Hl; cbn [transfer_loop].
  all: destruct (Z.eqb_spec count 0) as [Hz|Hz]; [by apply limits_ret|].
  { eapply limits_bind; [by apply (limits_raise _ _ (λ _, True))|]. intros ? _. by apply limits_ret. }
  eapply limits_bind; [by apply limits_yields, pcm_avail_update_same, Hm|].
  intros [avail p1] [Hs1 _]. cbn [snd] in Hs1. apply limits_if; intros Hav; [by apply limits_ret|].
  eapply (limits_bind _ _ _ (λ r, same_stream p1 r.2)).
  { apply limits_yields, yields_if; intros _; [|by apply yields_ret].
    eapply yields_post; [apply pcm_start_same|]. by intros r [_ ?]. }
  intros [started p2] Hs2. cbn [snd] in Hs2.
  assert (same_stream p p2) as Hs by (by etrans).
  pose proof (mapped_ring_same _ _ Hs Hm) as Hm2.
  apply limits_if; intros _.
  { eapply limits_bind; [apply limits_yields, yields_sys_true|]. intros ? _. by apply limits_ret. }
  eapply (limits_bind _ _ _ (λ _, True)).
  { apply limits_yields, yields_if; intros _; [by apply get_control_safe, Hm2|by apply yields_ret]. }
  intros c _. apply limits_if; intros _.
  - eapply (limits_bind _ _ _ (λ _, True)).
    { apply limits_yields. unfold wait_time. apply yields_if; intros Hn; [|by apply yields_ret].
      eapply yields_bind; [apply yields_check|intros _ _; by apply yields_ret].
      by apply negb_true_iff, Z.eqb_neq, Hm2. }
    intros time _. eapply limits_bind; [by apply pcm_wait_safe, Hm2|].
    intros [err' p3] Hs3. cbn [snd] in Hs3. assert (same_stream p p3) as Hs13 by (by etrans).
    pose proof (mapped_ring_same _ _ Hs13 Hm) as Hm3.
    apply limits_if; intros _.
    + eapply limits_bind; [by apply limits_yields, get_control_safe, Hm3|]. intros c3 _.
      eapply limits_bind; [by apply limits_yields, set_control_safe, Hm3|].
      intros p4 [Hs4 _]. apply limits_ret. split; [|done].
      etrans; [exact Hs13|]. by destruct Hs4.
    + eapply limits_post; [apply IH; [done|by eapply room_same]|].
      intros [[r buf'] p'] [? ?]. split; [by etrans|done].
  - apply Z.ltb_ge in Hav.
    assert (count <= 2147483647) by nia.
    rewrite (s32_small count) by (unfold is_s32; lia).
    set (frames := if avail <? count then avail else count).
    assert (0 <= frames <= count) by (subst frames; destruct (Z.ltb_spec avail count); lia).
    apply limits_if; intros _; [by apply limits_ret|].
    rewrite (u32_small frames) by (unfold is_u32; lia).
    eapply limits_bind.
    { apply transfer_areas_safe; [done|lia..| |done|unfold INT_MAX; lia].
      rewrite (ss_config _ _ Hs). nia. }
    intros [[n buf1] p3] (Hs3 & Hl3 & Hn).
    rewrite (proj2 (Z.ltb_ge n 0)) by lia.
    rewrite (u32_small (offset + n)), (u32_small (count - n)) by (unfold is_u32; nia).
    assert (same_stream p p3) as Hs13 by (by etrans).
    eapply limits_post.
    { apply IH; [by eapply mapped_ring_same|]. eapply room_same; [exact Hs13|done|].
      unfold room, INT_MAX. replace (offset + n + (count - n)) with (offset + count) by lia.
      split_and!; (done || lia). }
    intros [[r buf'] p'] [? ?]. split; [by etrans|congruence].
Qed.

Lemma mmap_transfer_safe fuel p buf bytes :
  mapped_ring p → 0 <= bytes <= Z.of_nat (List.length buf) → Z.of_nat (List.length buf) <= INT_MAX →
  limits (K:=K) hangs (pcm_mmap_transfer fuel p buf bytes) (λ '(r, buf', p'),
    same_stream p p' ∧ List.length buf' = List.length buf).
Proof.
  intros Hm Hb Hl. unfold pcm_mmap_transfer. apply limits_if; intros _; [by apply limits_ret|].
  pose proof (frame_size_bounds _ (mr_channels _ Hm)) as [_ Hfs].
  assert (frame_bytes (p_config p) = frame_size (p_config p)) as Hfb.
  { apply u32_small. destruct Hm as [_ ? Hfit _ _ _]. unfold INT_MAX, is_u32 in *. 
    fold (frame_size (p_config p)). nia. }
  eapply (limits_bind _ _ _ (λ n, n = bytes / frame_size (p_config p))).
  { apply limits_yields. unfold pcm_bytes_to_frames. rewrite Hfb.
    eapply yields_bind; [apply yields_check|intros _ _; by apply yields_ret].
    apply negb_true_iff, Z.eqb_neq. lia. }
  intros n ->. apply transfer_loop_safe; [done|]. unfold room.
  split_and!; [lia|apply Z.div_pos; lia| |done].
  rewrite Z.add_0_l, Z.mul_comm. pose proof (Z.mul_div_le bytes (frame_size (p_config p))). lia.
Qed.

(** ** Interrupt-driven transfers *)

(** The results of [pcm_write] on a playback stream: the frames were accepted
    and the stream runs; or they were not and it is stopped, with the message
    set, or after an underrun that the client wants to see. *)
Definition write_outcome (p : pcm) (r : Z * pcm) : Prop :=
  same_stream p r.2 ∧
  ∃ underrun : bool,
    (underrun = true → p_running p = true)
    ∧ p_underruns r.2 = (if underrun then s32 (p_underruns p + 1) else p_underruns p)
    ∧ (((r.1 = 0 ∧ p_running r.2 = true ∨ r.1 = -1 ∧ p_running r.2 = false)
        ∧ (underrun = true → has_flag (p_flags p) PCM_NORESTART = false))
       ∨ r.1 = - EPIPE ∧ p_running r.2 = false ∧ p_prepared r.2 = false
         ∧ has_flag (p_flags p) PCM_NORESTART = true ∧ underrun = true).

Lemma write_start_ok fuel p data frames :
  p_running p = false → yields (K:=K) (write_loop (S fuel) p data frames) (λ r,
    same_stream p r.2 ∧ p_underruns r.2 = p_underruns p
    ∧ (r.1 = 0 ∧ p_running r.2 = true ∨ r.1 = -1 ∧ p_running r.2 = false)).
Proof.
  intros Hr. cbn [write_loop]. rewrite Hr. cbn [negb].
  eapply yields_bind; [apply pcm_prepare_same|]. intros [e p1] (He & Hs & Hr1 & Hu).
  cbn [fst snd] in *. apply yields_if; intros Hz.
  { apply yields_ret. cbn [fst snd]. split_and!; [done..|]. right. split; [|congruence].
    destruct He as [[-> _]|]; [by rewrite Z.eqb_refl in Hz|done]. }
  eapply yields_bind; [apply yields_sys_true|]. intros r _. apply yields_if; intros _.
  - eapply yields_post; [apply oops_errno_same|]. intros x (-> & Hs2 & Hr2 & _ & Hu2).
    split_and!; [by etrans|congruence|]. right. split; [done|congruence].
  - apply yields_ret. cbn [fst snd]. split_and!; [|done|by left].
    etrans; [exact Hs|]. by split.
Qed.

Lemma write_loop_ok p data frames :
  yields (K:=K) (write_loop 2 p data frames) (write_outcome p).
Proof.
  destruct (p_running p) eqn:Hr.
  2:{ eapply yields_post; [by apply write_start_ok|]. intros r (Hs & Hu & Ho).
      split; [done|]. exists false. split_and!; [done|done|]. by left. }
  cbn [write_loop]. rewrite Hr. cbn [negb].
  eapply yields_bind; [apply yields_sys_true|]. intros r _. apply yields_if; intros _.
  2:{ apply yields_ret. split; [done|]. exists false. split_and!; [done|done|]. left.
      split; [by left|done]. }
  eapply yields_bind; [apply yields_sys_true|]. intros errno _. apply yields_if; intros _.
  - apply yields_if; intros Hn.
    + apply yields_ret. split; [by split|]. exists true. split_and!; [done|done|]. right.
      by split_and!.
    + eapply yields_post; [by apply (write_start_ok 0)|]. intros x (Hs & Hu & Ho).
      split; [etrans; [|exact Hs]; by split|]. exists true. split_and!; [done|exact Hu|]. by left.
  - eapply yields_post; [apply oops_same|]. intros x (Hx & Hs & Hr2 & _ & Hu).
    split; [etrans; [|exact Hs]; by split|]. exists false. split_and!; [done|exact Hu|]. left.
    split; [by right|done].
Qed.

Lemma xfer_frames_safe p count :
  0 < pc_channels (p_config p) < 2 ^ 26 → yields (K:=K) (xfer_frames p count) (λ _, True).
Proof.
  intros Hc. unfold xfer_frames. cbv zeta.
  eapply yields_bind; [apply yields_check|intros _ _; by apply yields_ret].
  apply negb_true_iff, Z.eqb_neq.
  assert (16 <= pcm_format_to_bits (pc_format (p_config p)) <= 32)
    by (by destruct (pc_format _)).
  rewrite u32_small by (unfold is_u32; nia).
  assert (0 < pc_channels (p_config p) * pcm_format_to_bits (pc_format (p_config p)) / 8); [|lia].
  apply Z.div_str_pos. nia.
Qed.

Lemma pcm_write_ok p data count :
  has_flag (p_flags p) PCM_IN = false → 0 < pc_channels (p_config p) < 2 ^ 26 →
  yields (K:=K) (pcm_write p data count) (write_outcome p).
Proof.
  intros Hin Hc. unfold pcm_write. rewrite Hin.
  eapply yields_bind; [by apply xfer_frames_safe|]. intros ? _. apply write_loop_ok.
Qed.

End transfers.

(** ** Opening a stream *)

(** A mask that allows the one value [bit]. *)
Definition only (bit : Z) : snd_mask :=
  <[Z.to_nat (Z.shiftr bit 5) := Z.shiftl 1 (Z.land bit 31)]> (replicate 8 0).

(** What the request says of the parameters that are fixed. *)
Definition requests (flags : Z) (c : pcm_config) (p : snd_pcm_hw_params) : Prop :=
  param_get_int p SNDRV_PCM_HW_PARAM_CHANNELS = pc_channels c
  ∧ param_get_int p SNDRV_PCM_HW_PARAM_RATE = pc_rate c
  ∧ param_get_int p SNDRV_PCM_HW_PARAM_PERIODS = pc_period_count c
  ∧ param_get_min p SNDRV_PCM_HW_PARAM_PERIOD_SIZE = pc_period_size c
  ∧ param_get_max p SNDRV_PCM_HW_PARAM_PERIOD_SIZE = UINT_MAX
  ∧ param_get_int p SNDRV_PCM_HW_PARAM_FRAME_BITS
    = u32 (pcm_format_to_bits (pc_format c) * pc_channels c)
  ∧ hw_masks p = [ only (if has_flag flags PCM_MMAP then SNDRV_PCM_ACCESS_MMAP_INTERLEAVED
                         else SNDRV_PCM_ACCESS_RW_INTERLEAVED);
                   only (pcm_format_to_alsa (pc_format c)); only SNDRV_PCM_SUBFORMAT_STD ].

Lemma open_hw_params_requests flags c : requests flags c (open_hw_params flags c).
Proof.
  unfold requests, open_hw_params.
  destruct (has_flag flags PCM_NOIRQ), (has_flag flags PCM_MMAP), (pc_format c);
    by split_and!.
Qed.

(** The same frames at the same rate. *)
Definition same_sound (c c' : pcm_config) : Prop :=
  pc_channels c' = pc_channels c ∧ pc_rate c' = pc_rate c ∧ pc_format c' = pc_format c.

Section opening.
  Context {K : Type} `{!AlsaPcm K, !AlsaPcmLaws K}.

(** A stream that is ready, with the caller's refined configuration [c]. *)
Record opened (flags : Z) (c : pcm_config) (p : pcm) : Prop := {
  op_flags : p_flags p = flags;
  op_idle : p_running p = false ∧ p_prepared p = false ∧ p_underruns p = 0;
  op_size : p_buffer_size p = pc_period_count c * pc_period_size c;
  op_bounds : 0 < p_buffer_size p <= INT_MAX;
  op_boundary : largest_boundary (p_buffer_size p) (p_boundary p);
  op_page : p_page p ≠ NoPage;
  op_ring : has_flag flags PCM_MMAP = true → mapped_ring p;
  op_start : pc_start_threshold (p_config p) = start_threshold flags c;
  op_stop : pc_stop_threshold (p_config p) = stop_threshold flags c;
  op_sound : same_sound c (p_config p)
}.

(** The stream is ready, or its descriptor is closed. *)
Definition open_result (flags : Z) (c : pcm_config) (p : pcm) : Prop :=
  p_fd p = -1 ∨ opened flags c p.

Lemma fail_close_closed p flags c : yields (K:=K) (fail_close p) (open_result flags c).
Proof.
  unfold fail_close. eapply yields_bind; [apply yields_sys_true|]. intros ? _.
  apply yields_ret. by left.
Qed.

Lemma fail_closed p flags c : yields (K:=K) (fail p) (open_result flags c).
Proof.
  unfold fail. eapply (yields_bind _ _ (λ _, True)); [|intros ? _; apply fail_close_closed].
  apply yields_if; intros _; [|by apply yields_ret].
  unfold unmap_buffer. destruct (p_mmap_buffer p); [apply yields_sys_true|by apply yields_ret].
Qed.

Lemma hw_mmap_status_ok p :
  yields (K:=K) (pcm_hw_mmap_status p) (λ r,
    r.1 = - ENOMEM ∨ r.1 = 0 ∧ same_stream p r.2 ∧ p_page r.2 ≠ NoPage
      ∧ p_running r.2 = p_running p ∧ p_prepared r.2 = p_prepared p).
Proof.
  assert (Hsync : yields (K:=K) (
    ok ← alloc;
    if negb ok then mret (- ENOMEM, set_page NoPage p)
    else
      let p := set_page (Synced (SyncPtr 0 (sp_status sync_ptr0) (MmapControl 0 1))) p in
      '(_, p) ← pcm_sync_ptr p 0;
      mret (0, p)) (λ r,
    r.1 = - ENOMEM ∨ r.1 = 0 ∧ same_stream p r.2 ∧ p_page r.2 ≠ NoPage
      ∧ p_running r.2 = p_running p ∧ p_prepared r.2 = p_prepared p)).
  { eapply yields_bind; [apply yields_alloc|]. intros ok _.
    apply yields_if; intros _; [apply yields_ret; by left|]. cbv zeta.
    eapply yields_bind; [apply pcm_sync_ptr_same|]. intros [r p1] (Hs & Hr & Hpr).
    apply yields_ret. right. cbn [fst snd] in *. split_and!; [done| |by apply (ss_page _ _ Hs)|done..].
    etrans; [|exact Hs]. by split. }
  unfold pcm_hw_mmap_status. destruct (p_page p) eqn:He.
  3:{ apply yields_ret. right. cbn. by rewrite He. }
  all: cbv zeta; eapply yields_bind; [apply yields_sys_true|]; intros ok1 _;
    apply yields_if; intros _; [done|].
  all: eapply yields_bind; [apply yields_sys_true|]; intros ok2 _; apply yields_if; intros _.
  1,3: eapply yields_bind; [apply yields_sys_true|intros ? _; done].
  all: eapply yields_bind; [by apply get_control_safe|]; intros cc _.
  all: eapply (yields_bind _ _ (λ p', p' = set_page Mapped p)).
  1,3: unfold set_control; cbn [p_page set_page]; eapply yields_bind;
    [apply yields_sys_true|intros ? _; by apply yields_ret].
  all: intros p' ->; apply yields_ret; right; split_and!; [done|by split|done..].
Qed.

(** What the configuration must be for the sizes not to wrap. *)
Record config_ok (flags : Z) (c : pcm_config) : Prop := {
  co_channels : 0 < pc_channels c < 2 ^ 26;
  co_noirq : has_flag flags PCM_NOIRQ = true → 1000 <= pc_rate c
}.

(** A stream whose hardware parameters are set. *)
Record configured (flags : Z) (c0 c : pcm_config) (p : pcm) : Prop := {
  cf_flags : p_flags p = flags;
  cf_config : p_config p = c0;
  cf_refined : ∃ params, c = refined_config c0 params;
  cf_idle : p_running p = false ∧ p_prepared p = false;
  cf_size : p_buffer_size p = config_frames c
            ∧ config_frames c = pc_period_count c * pc_period_size c;
  cf_bounds : 0 < p_buffer_size p ∧ p_buffer_size p * frame_size c0 <= INT_MAX;
  cf_ring : has_flag flags PCM_MMAP = true →
    p_mmap_buffer p = Some (p_buffer_size p * frame_size c0);
  cf_noirq : has_flag flags PCM_NOIRQ = true → p_noirq_frames_per_msec p ≠ 0
}.

Lemma open_software_ok flags c0 c p :
  config_ok flags c0 → configured flags c0 c p →
  yields (K:=K) (open_software p c) (open_result flags c).
Proof.
  intros [Hch _] [Hfl Hc0 [params Href] [Hrun Hprep] [Hsz Hex] [Hpos Hfit] Hring Hnq].
  pose proof (frame_size_bounds c0 ltac:(lia)) as [_ Hfs]. unfold open_software. cbv zeta.
  assert (Hb : 0 < p_buffer_size p <= INT_MAX) by nia.
  eapply yields_bind.
  { change (p_buffer_size (set_config _ p)) with (p_buffer_size p).
    rewrite <- (Z.mul_1_r (p_buffer_size p)) at 1. change 1 with (2 ^ 0).
    apply boundary_loop_ok; [done|lia|by left; rewrite Z.mul_1_r|done]. }
  intros b Hbd. set (p1 := set_boundary b _).
  assert (Hop : ∀ p2, same_stream p1 p2 → p_running p2 = false → p_prepared p2 = false →
            p_page p2 ≠ NoPage → opened flags c (set_underruns 0 p2)).
  { intros p2 [Hs1 Hs2 Hs3 Hs4 Hs5 Hs6 Hs7 _] Hr2 Hp2 Hpage.
    cbn in Hs1, Hs2, Hs3, Hs4, Hs5, Hs6, Hs7.
    split; cbn [set_underruns p_flags p_running p_prepared p_underruns p_buffer_size p_boundary
      p_config p_page p_mmap_buffer p_noirq_frames_per_msec]; rewrite ?Hs2, ?Hs3, ?Hs4, ?Hs5; try done.
    - by rewrite Hsz.
    - intros Hm. assert (Hfs1 : frame_size (set_thresholds (p_flags p) c (p_config p)) = frame_size c0)
        by (by rewrite Hc0).
      split; cbn [set_underruns p_flags p_running p_prepared p_underruns p_buffer_size p_boundary
        p_config p_page p_mmap_buffer p_noirq_frames_per_msec];
        rewrite ?Hs2, ?Hs3, ?Hs5, ?Hs6, ?Hs7, ?Hfs1, ?Hc0, ?Hfl; try done; try lia.
      + exact (proj1 Hch).
      + by apply Hring.
    - cbn. rewrite Hc0, Href, Hfl. unfold start_threshold. cbn. by destruct (pc_start_threshold c0 =? 0).
    - cbn. rewrite Hc0, Href, Hfl. unfold stop_threshold. cbn. by destruct (pc_stop_threshold c0 =? 0).
    - rewrite Hc0, Href. by split_and!. }
  eapply yields_bind; [apply yields_sys_true|]. intros [r sw] _. apply yields_if; intros _.
  { eapply yields_bind; [apply oops_errno_same|]. intros [? ?] _. apply fail_closed. }
  eapply yields_bind; [apply hw_mmap_status_ok|]. intros [rc p2] Hst. cbn [fst snd] in Hst.
  apply yields_if; intros Hrc.
  { eapply yields_bind; [apply oops_same|]. intros [? ?] _. apply fail_closed. }
  destruct Hst as [->|(-> & Hs & Hpg & Hr2 & Hp2)]; [done|].
  apply yields_if; intros _.
  - eapply yields_bind; [apply yields_sys_true|]. intros rc2 _. apply yields_if; intros _.
    + eapply yields_bind; [apply oops_same|]. intros [? ?] _. apply fail_closed.
    + apply yields_ret. right. apply Hop; [done|by rewrite Hr2|by rewrite Hp2|done].
  - apply yields_ret. right. apply Hop; [done|by rewrite Hr2|by rewrite Hp2|done].
Qed.

Lemma request_frame_bytes flags c :
  0 < pc_channels c < 2 ^ 26 →
  param_get_int (open_hw_params flags c) SNDRV_PCM_HW_PARAM_FRAME_BITS / 8 = frame_size c.
Proof.
  intros Hc. destruct (open_hw_params_requests flags c) as (_ & _ & _ & _ & _ & -> & _).
  unfold frame_size. set (k := Z.shiftr _ 3).
  assert (pcm_format_to_bits (pc_format c) = k * 8 ∧ k <= 4) as [-> Hk]
    by (by subst k; destruct (pc_format c)).
  assert (0 <= k) by (subst k; by destruct (pc_format c)).
  rewrite u32_small by (unfold is_u32; nia).
  replace (k * 8 * pc_channels c) with (pc_channels c * k * 8) by lia. by rewrite Z.div_mul.
Qed.

Lemma open_hardware_ok flags c p :
  config_ok flags c → p_flags p = flags → p_config p = c →
  p_running p = false → p_prepared p = false →
  yields (K:=K) (open_hardware p c) (λ r, open_result flags r.2 r.1 ∧ same_sound c r.2).
Proof.
  intros Hco Hfl Hcf Hrun Hprep. destruct Hco as [Hch Hnq].
  pose proof (frame_size_bounds c ltac:(lia)) as [_ Hfs]. unfold open_hardware. cbv zeta.
  rewrite Hfl. apply yields_if; intros Hbad.
  { eapply yields_bind; [apply oops_same|]. intros [? ?] _.
    eapply yields_bind; [apply (fail_closed _ flags c)|]. intros ? ?. by apply yields_ret. }
  set (p1 := if has_flag flags PCM_NOIRQ then _ else p).
  assert (Hp1 : p_flags p1 = flags ∧ p_config p1 = c ∧ p_running p1 = false
                ∧ p_prepared p1 = false
                ∧ (has_flag flags PCM_NOIRQ = true → p_noirq_frames_per_msec p1 ≠ 0)).
  { subst p1. destruct (has_flag flags PCM_NOIRQ); [|done]. split_and!; try done.
    intros _. cbn. specialize (Hnq eq_refl).
    assert (0 < pc_rate c / 1000) by (apply Z.div_str_pos; lia). lia. }
  clearbody p1. destruct Hp1 as (Hfl1 & Hcf1 & Hrun1 & Hprep1 & Hnq1).
  eapply yields_bind.
  { apply (yields_sys _ (λ r, r.1 = 0 → params_chosen (open_hw_params flags c) r.2)).
    intros k. apply hw_params_chosen. }
  intros [r q] Hq. cbn [fst snd] in Hq. apply yields_if; intros Hr.
  { eapply yields_bind; [apply oops_errno_same|]. intros [? ?] _.
    eapply yields_bind; [apply (fail_close_closed _ flags c)|]. intros ? ?. by apply yields_ret. }
  apply negb_false_iff, Z.eqb_eq in Hr. specialize (Hq Hr).
  unfold params_chosen in Hq. cbv zeta in Hq.
  rewrite (request_frame_bytes flags c Hch), Z.max_r in Hq by lia.
  set (c' := refined_config c q). set (p2 := set_buffer_size (config_frames c') p1).
  destruct Hq as (Hsize & Hper & Hfit).
  change (param_get_int q SNDRV_PCM_HW_PARAM_PERIOD_SIZE) with (pc_period_size c') in *.
  change (param_get_int q SNDRV_PCM_HW_PARAM_PERIODS) with (pc_period_count c') in *.
  unfold INT_MAX in Hfit.
  assert (0 < pc_period_count c' * pc_period_size c') by nia.
  assert (Hex : config_frames c' = pc_period_count c' * pc_period_size c').
  { apply u32_small. unfold is_u32. nia. }
  destruct (frames_to_bytes_exact p2 (config_frames c')) as [Hlen _].
  { cbn. rewrite Hcf1. lia. } { lia. } { cbn. rewrite Hcf1. unfold INT_MAX. lia. }
  assert (Hfin : ∀ p3, configured flags c c' p3 →
    yields (K:=K) (p ← open_software p3 c'; mret (p, c')) (λ r, open_result flags r.2 r.1 ∧ same_sound c r.2)).
  { intros p3 Hc3. eapply yields_bind; [by apply (open_software_ok flags c)|].
    intros ? ?. by apply yields_ret. }
  apply yields_if; intros Hmm.
  - eapply yields_bind; [apply yields_sys_true|]. intros ok _. apply yields_if; intros _.
    + eapply yields_bind; [apply yields_sys_true|]. intros errno _.
      eapply yields_bind; [apply oops_same|]. intros [? ?] _.
      eapply yields_bind; [apply (fail_close_closed _ flags c')|]. intros ? ?. by apply yields_ret.
    + apply Hfin. change (p_buffer_size p2) with (config_frames c'). rewrite Hlen.
      change (p_config p2) with (p_config p1). rewrite Hcf1.
      split; cbn; try done; [by exists q|unfold INT_MAX; lia].
  - apply Hfin. split; cbn; try done; [by exists q|unfold INT_MAX; lia|by rewrite Hmm].
Qed.

Lemma pcm_open_ok card device flags config :
  (∀ c, config = Some c → config_ok flags c) →
  yields (K:=K) (pcm_open card device flags config) (λ '(h, config'),
    ∀ p, h = Some p → pcm_is_ready p = true → ∃ c', config' = Some c' ∧ opened flags c' p
      ∧ ∀ c, config = Some c → same_sound c c').
Proof.
  intros Hco. unfold pcm_open. eapply yields_bind; [apply yields_alloc|]. intros ok _.
  destruct config as [c|]; [|by apply yields_ret]. specialize (Hco c eq_refl).
  apply yields_if; intros _; [by apply yields_ret|]. cbv zeta.
  eapply yields_bind; [apply yields_sys_true|]. intros fd _. apply yields_if; intros Hfd.
  { eapply yields_bind; [apply oops_errno_same|]. intros [? p1] (_ & Hs & _). apply yields_ret.
    intros p [= ->] Hr. cbn [snd] in Hs. unfold pcm_is_ready in Hr.
    rewrite (ss_fd _ _ Hs) in Hr. cbn in Hr.
    apply Z.leb_le in Hr. apply Z.ltb_lt in Hfd. lia. }
  eapply yields_bind; [apply yields_sys_true|]. intros r _. apply yields_if; intros _.
  { eapply yields_bind; [apply oops_errno_same|]. intros [? p1] _.
    eapply (yields_bind _ _ (λ p, p_fd p = -1)).
    { unfold fail_close. eapply yields_bind; [apply yields_sys_true|]. intros ? _. by apply yields_ret. }
    intros p2 Hp2. apply yields_ret. intros p [= ->] Hr. unfold pcm_is_ready in Hr.
    by rewrite Hp2 in Hr. }
  eapply yields_bind; [by apply (open_hardware_ok flags c)|].
  intros [p1 c1] Hor. apply yields_ret. intros p [= ->] Hr. cbn in Hor.
  destruct Hor as [[Hp|Hop] Hss]; [unfold pcm_is_ready in Hr; by rewrite Hp in Hr|].
  exists c1. split_and!; [done..|]. by intros ? [= <-].
Qed.

End opening.
