(* ===== verification/PcmSpec.v ===== *)
(** * Properties of the PCM streams

    The theorems on opening, on the ring buffer's arithmetic and on both kinds
    of transfers, with their witnesses on the software device. *)

From S2P Require Import Prelude Kernel CStrings PcmKernel Pcm SoftPcm PcmFacts.
From Stdlib Require Import String.

#[global] Open Scope Z_scope.

(** ** Opening *)

(** C5: a stream that [pcm_open] returns ready has the size the kernel settled
    on, the channels, rate and format asked for, the largest boundary, its status pages, the default thresholds where
    the configuration had none and, with [PCM_MMAP], its whole ring mapped; no
    outcome of the system calls or of the allocator makes it execute undefined
    behaviour. *)
Theorem pcm_open_ready {K} `{!AlsaPcm K, !AlsaPcmLaws K} card device flags c (w : world K) :
  config_ok flags c →
  w_faults (pcm_open card device flags (Some c) w).2 = w_faults w
  ∧ ∀ p, (pcm_open card device flags (Some c) w).1.1 = Some p → pcm_is_ready p = true →
      ∃ c', (pcm_open card device flags (Some c) w).1.2 = Some c' ∧ opened flags c' p
            ∧ same_sound c c'.
Proof.
  intros Hc. destruct (pcm_open_ok (K:=K) card device flags (Some c)
    ltac:(by intros ? [= <-]) w) as [Hf Hr].
  destruct (pcm_open _ _ _ _ w) as [[h config'] w']. split; [done|]. intros p Hp Hrd.
  destruct (Hr p Hp Hrd) as (c' & ? & ? & Hs). exists c'. auto.
Qed.

#[local] Abbreviation demo_open flags :=
  (pcm_open 0 0 flags (Some demo_pcm_config) (demo_pcm_world 0 true 0 [])).

Lemma demo_pcm_config_ok flags :
  config_ok flags demo_pcm_config.
Proof. by split. Qed.

Definition demo_pcm flags : pcm := default (pcm0 0 demo_pcm_config) (demo_open flags).1.1.

Lemma demo_pcm_open : (demo_open PCM_MMAP).1.1 = Some (demo_pcm PCM_MMAP).
Proof. vm_compute. reflexivity. Qed.

Lemma demo_pcm_ready : pcm_is_ready (demo_pcm PCM_MMAP) = true.
Proof. vm_compute. reflexivity. Qed.

Lemma pcm_open_ready_witness :
  p_boundary (demo_pcm PCM_MMAP) = 16 * 2 ^ 26
  ∧ ∃ c', (demo_open PCM_MMAP).1.2 = Some c' ∧ opened PCM_MMAP c' (demo_pcm PCM_MMAP)
       ∧ same_sound demo_pcm_config c'.
Proof.
  split; [vm_compute; reflexivity|].
  exact (proj2 (pcm_open_ready 0 0 PCM_MMAP demo_pcm_config (demo_pcm_world 0 true 0 [])
    (demo_pcm_config_ok PCM_MMAP)) _ demo_pcm_open demo_pcm_ready).
Defined.

(** The request sent to the kernel allows exactly one access mode, format
    and subformat, fixes channels, rate, periods and frame size at the
    configuration's values and leaves the period size open upwards. *)
Theorem open_request_matches_config flags c : requests flags c (open_hw_params flags c).
Proof. apply open_hw_params_requests. Qed.

(** for a buffer that fits an [int] the doubling of the boundary ends, and
    gives the buffer size times the largest power of two that leaves room for
    one more buffer below [INT_MAX]. *)
Theorem boundary_largest {K} bs (w : world K) :
  0 < bs <= INT_MAX →
  w_faults (boundary_loop BOUNDARY_FUEL bs bs w).2 = w_faults w
  ∧ largest_boundary bs (boundary_loop BOUNDARY_FUEL bs bs w).1.
Proof.
  intros Hb. pose proof (boundary_loop_ok (K:=K) BOUNDARY_FUEL bs 0 Hb) as H.
  rewrite Z.mul_1_r in H. by apply H; [|left|].
Qed.

Lemma boundary_largest_witness :
  largest_boundary 1920 (boundary_loop BOUNDARY_FUEL 1920 1920 (demo_pcm_world 0 true 0 [])).1.
Proof. exact (proj2 (boundary_largest 1920 _ ltac:(done))). Defined.

(** When the software parameters are refused after the ring was mapped, the
    stream that [pcm_open] returns still holds the address of the ring it has
    unmapped, and [pcm_close] unmaps it a second time. *)
Theorem failed_open_unmaps_twice :
  let r := pcm_open 0 0 PCM_MMAP (Some demo_pcm_config) (demo_pcm_world 0 true (-1) []) in
  (pcm_is_ready <$> r.1.1) = Some false
  ∧ (sd_maps (w_kern r.2), sd_unmaps (w_kern r.2)) = (1, 1)
  ∧ sd_unmaps (w_kern (pcm_close r.1.1 r.2).2) = 2.
Proof. vm_compute. by split_and!. Qed.

(** ** The ring buffer *)

(** for pointers of a consistent ring, the space [pcm_mmap_playback_avail]
    finds is the ring's size less the frames written and not yet played,
    except when the ring is full and only the application's pointer has
    wrapped around the boundary: then it is the boundary itself. *)
Theorem playback_avail_is_space bs b hw appl :
  ring bs b hw appl → filled b hw appl <= bs →
  playback_avail bs b hw appl =
    if (appl <? hw) && (filled b hw appl =? bs) then b else bs - filled b hw appl.
Proof. apply playback_avail_cases. Qed.

Lemma demo_ring appl hw :
  0 <= appl <= 64 → 0 <= hw < 64 → ring 16 64 hw appl.
Proof. intros. split; try done. by exists 4. Qed.

Lemma playback_avail_is_space_witness : playback_avail 16 64 60 4 = 8.
Proof. exact (playback_avail_is_space 16 64 60 4 (demo_ring 4 60 ltac:(done) ltac:(done)) ltac:(done)). Defined.

(** In that case [pcm_mmap_begin] hands out frames of a ring that has no
    space: the client overwrites samples that have not been played. *)
Theorem full_ring_is_overwritten bs b hw appl frames :
  ring bs b hw appl → appl < hw → filled b hw appl = bs → 0 < frames →
  0 < (begin_frames bs appl (playback_avail bs b hw appl) frames).2.
Proof.
  intros Hr Hlt Hf Hn. rewrite (playback_avail_cases bs) by (done || lia).
  rewrite Hf, Z.eqb_refl, (proj2 (Z.ltb_lt appl hw)) by done. cbn [andb].
  destruct Hr as [Hs _ Hfit _ _]. unfold INT_MAX, begin_frames in *. cbv zeta. cbn [snd].
  pose proof (Z.mod_pos_bound appl bs ltac:(lia)).
  rewrite (u32_small b), (u32_small (bs - _)) by (unfold is_u32; lia).
  rewrite (proj2 (Z.ltb_lt bs b)) by lia.
  destruct (Z.ltb_spec bs frames); case_match; lia.
Qed.

Lemma full_ring_is_overwritten_witness :
  (begin_frames 16 2 (playback_avail 16 64 50 2) 8).2 = 8
  ∧ 0 < (begin_frames 16 2 (playback_avail 16 64 50 2) 8).2.
Proof.
  split; [vm_compute; reflexivity|].
  apply (full_ring_is_overwritten 16 64 50 2 8 (demo_ring 2 50 ltac:(done) ltac:(done)));
    vm_compute; reflexivity.
Defined.

(** moving the application's pointer over frames that were free keeps the
    ring consistent and adds exactly those frames to the filled ones; the
    frames of a capture ring are the distance of the pointers. *)
Theorem forward_fills_ring bs b hw appl n :
  ring bs b hw appl → 0 <= n → filled b hw appl + n <= bs →
  ring bs b hw (appl_forward b appl n)
  ∧ filled b hw (appl_forward b appl n) = filled b hw appl + n
  ∧ capture_avail b hw appl = (hw - appl) mod b.
Proof.
  intros Hr Hn Hle. pose proof Hr as [Hs Hd Hfit Hh Ha].
  pose proof (Z.mod_pos_bound (appl - hw) b ltac:(lia)) as Hfb. fold (filled b hw appl) in Hfb.
  destruct (appl_forward_mod bs b appl n) as [Hrange Hmod]; [lia..|].
  split_and!; [by split| |apply capture_avail_mod; lia].
  unfold filled in *. rewrite Zminus_mod, Hmod, <- Zminus_mod.
  replace (appl + n - hw) with (appl - hw + n) by lia.
  rewrite <- Zplus_mod_idemp_l. apply Z.mod_small. lia.
Qed.

Lemma forward_fills_ring_witness : filled 64 60 (appl_forward 64 62 4) = 6.
Proof.
  exact (proj1 (proj2 (forward_fills_ring 16 64 60 62 4
    (demo_ring 62 60 ltac:(done) ltac:(done)) ltac:(done) ltac:(done)))).
Defined.

(** ** Transfers *)

(** C4: a transfer through a mapped ring never touches memory outside the ring
    or the client's buffer, whatever pointers the kernel publishes and
    however its calls fail; it leaves the stream's configuration alone and
    can only fail to end. *)
Theorem mmap_transfer_in_bounds {K} `{!AlsaPcm K} fuel p buf bytes (w : world K) :
  mapped_ring p → 0 <= bytes <= Z.of_nat (List.length buf) → Z.of_nat (List.length buf) <= INT_MAX →
  let r := pcm_mmap_transfer fuel p buf bytes w in
  (∃ fs, w_faults r.2 = w_faults w ++ fs ∧ Forall hangs fs)
  ∧ same_stream p r.1.2 ∧ List.length r.1.1.2 = List.length buf.
Proof.
  intros Hm Hb Hl. destruct (mmap_transfer_safe (K:=K) fuel p buf bytes Hm Hb Hl w) as [Hf Hr].
  cbv zeta. destruct (pcm_mmap_transfer _ _ _ _ w) as [[[r buf'] p'] w']. by split.
Qed.

Definition demo_samples : list Z := replicate 32 7.

Lemma demo_mapped : mapped_ring (demo_pcm PCM_MMAP).
Proof.
  split; try done.
Qed.

Lemma mmap_transfer_in_bounds_witness :
  let r := pcm_mmap_transfer 4 (demo_pcm PCM_MMAP) demo_samples 32 (demo_open PCM_MMAP).2 in
  sd_ring (w_kern r.2) = replicate 32 7 ++ replicate 32 0 ∧ w_faults r.2 = []
  ∧ List.length r.1.1.2 = List.length demo_samples.
Proof.
  split; [vm_compute; reflexivity|]. split; [vm_compute; reflexivity|].
  exact (proj2 (proj2 (mmap_transfer_in_bounds 4 (demo_pcm PCM_MMAP) demo_samples 32
    (demo_open PCM_MMAP).2 demo_mapped ltac:(done) ltac:(done)))).
Defined.

(** C25: [pcm_write] on a stream of at least one channel (and fewer than 2^26)
    always returns, without undefined behaviour. On a capture stream it is
    refused and changes nothing. On a playback stream it returns 0 and the
    stream runs, or -1 and it is stopped, or [-EPIPE], only when the client
    asked not to restart after an underrun, and it is stopped and unprepared;
    the count of underruns has grown by one if the stream was running and met
    one, which is always so with [-EPIPE], and is otherwise unchanged. *)
Theorem pcm_write_returns {K} `{!AlsaPcm K} p data count (w : world K) :
  0 < pc_channels (p_config p) < 2 ^ 26 →
  if has_flag (p_flags p) PCM_IN then pcm_write p data count w = ((- EINVAL, p), w)
  else w_faults (pcm_write p data count w).2 = w_faults w
       ∧ write_outcome p (pcm_write p data count w).1.
Proof.
  intros Hc. destruct (has_flag (p_flags p) PCM_IN) eqn:Hin; [|by apply pcm_write_ok].
  unfold pcm_write. by rewrite Hin.
Qed.

(** A playing stream whose first transfer meets an underrun. *)
Lemma pcm_write_returns_witness :
  let p := set_run true true (demo_pcm 0) in
  let r := pcm_write p demo_samples 32 (demo_pcm_world 0 true 0 [EPIPE]) in
  r.1.1 = 0 ∧ sd_played (w_kern r.2) = demo_samples ∧ p_underruns r.1.2 = 1
  ∧ write_outcome p r.1.
Proof.
  split; [vm_compute; reflexivity|]. split; [vm_compute; reflexivity|].
  split; [vm_compute; reflexivity|].
  exact (proj2 (pcm_write_returns (set_run true true (demo_pcm 0)) demo_samples 32
    (demo_pcm_world 0 true 0 [EPIPE]) ltac:(by_decide))).
Defined.
