(* ===== verification/VoiceTrigger.v ===== *)
(** * The voice trigger state machine (src/audio/audio_hw.c)

    The audio device keeps one stream of the configuration open while voice
    triggering is armed.  Its functions run under the device's lock: each is
    one step. *)

From S2P Require Import Prelude Kernel ConfigData CStrings Routing.
From Stdlib Require Import Ascii String.

#[global] Open Scope Z_scope.

Definition kVoiceTriggerStreamName : string := "voice trigger".
Definition kVoiceRecogStreamName : string := "voice recognition".

Inductive voice_state :=
  | eVoiceNone          (** no voice recognition hardware *)
  | eVoiceTriggerIdle   (** trigger-only mode idle *)
  | eVoiceTriggerArmed  (** trigger-only mode armed *)
  | eVoiceTriggerFired  (** trigger-only mode received trigger *)
  | eVoiceRecogIdle     (** full trigger+audio mode idle *)
  | eVoiceRecogArmed    (** full trigger+audio mode armed *)
  | eVoiceRecogFired    (** full trigger+audio mode received trigger *)
  | eVoiceRecogAudio    (** full trigger+audio mode opened for audio *)
  | eVoiceRecogReArm.   (** re-arm after audio *)

#[export] Instance voice_state_eq_dec : EqDecision voice_state.
Proof. solve_decision. Defined.

(** [struct audio_device]: [ad_voice_stream] is the union [voice_trig_stream]
    / [voice_recog_stream]; streams of the configuration are indices in it,
    input streams of the HAL are named by numbers. *)
Record audio_device := AudioDevice {
  ad_mic_mute : bool;
  ad_cm : config_mgr;
  ad_active_voice_control : option nat;
  ad_voice_st : voice_state;
  ad_voice_trig_mic : Z;
  ad_global_stream : option nat;
  ad_voice_stream : option nat
}.

Definition set_ad_cm (cm : config_mgr) (a : audio_device) : audio_device :=
  AudioDevice (ad_mic_mute a) cm (ad_active_voice_control a) (ad_voice_st a)
              (ad_voice_trig_mic a) (ad_global_stream a) (ad_voice_stream a).
Definition set_voice_st (st : voice_state) (a : audio_device) : audio_device :=
  AudioDevice (ad_mic_mute a) (ad_cm a) (ad_active_voice_control a) st
              (ad_voice_trig_mic a) (ad_global_stream a) (ad_voice_stream a).
Definition set_voice_trig_mic (mic : Z) (a : audio_device) : audio_device :=
  AudioDevice (ad_mic_mute a) (ad_cm a) (ad_active_voice_control a) (ad_voice_st a) mic
              (ad_global_stream a) (ad_voice_stream a).
Definition set_voice_stream (s : option nat) (a : audio_device) : audio_device :=
  AudioDevice (ad_mic_mute a) (ad_cm a) (ad_active_voice_control a) (ad_voice_st a)
              (ad_voice_trig_mic a) (ad_global_stream a) s.

Definition set_active_voice_control (s : option nat) (a : audio_device) : audio_device :=
  AudioDevice (ad_mic_mute a) (ad_cm a) s (ad_voice_st a) (ad_voice_trig_mic a)
              (ad_global_stream a) (ad_voice_stream a).
Definition set_mic_mute (b : bool) (a : audio_device) : audio_device :=
  AudioDevice b (ad_cm a) (ad_active_voice_control a) (ad_voice_st a) (ad_voice_trig_mic a)
              (ad_global_stream a) (ad_voice_stream a).

(** [atoi]: [strtol] in base 10, saturated to an [int]. *)
Definition atoi (s : string) : Z :=
  let l := skip_spaces (to_chars s) in
  let '(neg, l) :=
    match l with
    | "-"%char :: l => (true, l)
    | "+"%char :: l => (false, l)
    | _ => (false, l)
    end in
  let v := (scan_digits 10 0 l).1 in
  if neg : bool then Z.max (- 2 ^ 31) (- v) else Z.min INT_MAX v.

Section voice.
  Context {K : Type} `{!AlsaCtl K, !AudioH}.

Definition do_voice_trigger_open_stream (streamName : string) (a : audio_device)
  : M (world K) audio_device :=
  '(s, cm) ← get_named_stream (ad_cm a) streamName;
  let a := set_voice_stream s (set_ad_cm cm a) in
  match s with
  | None => mret a
  | Some i =>
    let mic_device :=
      if ad_voice_trig_mic a =? 0 then AUDIO_DEVICE_IN_BUILTIN_MIC else ad_voice_trig_mic a in
    cm ← apply_route (ad_cm a) i mic_device;
    mret (set_ad_cm cm a)
  end.

(** The last statement of the function compares the stream with [NULL] and has
    no effect. *)
Definition do_voice_trigger_close_stream (a : audio_device) : M (world K) audio_device :=
  match ad_voice_stream a with
  | None => mret a
  | Some i =>
    cm ← apply_route (ad_cm a) i 0;
    cm ← release_stream cm (Some i);
    mret (set_ad_cm cm a)
  end.

Definition voice_trigger_enable (a : audio_device) : M (world K) audio_device :=
  match ad_voice_st a with
  | eVoiceNone => mret a
  | eVoiceTriggerIdle | eVoiceTriggerFired =>
    a ← do_voice_trigger_open_stream kVoiceTriggerStreamName a;
    mret (set_voice_st eVoiceTriggerArmed a)
  | eVoiceTriggerArmed => mret a
  | eVoiceRecogIdle =>
    a ← do_voice_trigger_open_stream kVoiceRecogStreamName a;
    mret (set_voice_st eVoiceRecogArmed a)
  | eVoiceRecogArmed | eVoiceRecogFired | eVoiceRecogReArm => mret a
  | eVoiceRecogAudio => mret (set_voice_st eVoiceRecogReArm a)
  end.

Definition voice_trigger_disable (a : audio_device) : M (world K) audio_device :=
  match ad_voice_st a with
  | eVoiceNone | eVoiceTriggerIdle => mret a
  | eVoiceTriggerFired | eVoiceTriggerArmed =>
    a ← do_voice_trigger_close_stream a;
    mret (set_voice_st eVoiceTriggerIdle a)
  | eVoiceRecogIdle => mret a
  | eVoiceRecogArmed =>
    a ← do_voice_trigger_close_stream a;
    mret (set_voice_st eVoiceRecogIdle a)
  | eVoiceRecogFired | eVoiceRecogAudio => mret a
  | eVoiceRecogReArm => mret (set_voice_st eVoiceRecogAudio a)
  end.

Definition voice_trigger_triggered (a : audio_device) : audio_device :=
  match ad_voice_st a with
  | eVoiceTriggerArmed => set_voice_st eVoiceTriggerFired a
  | eVoiceRecogArmed => set_voice_st eVoiceRecogFired a
  | _ => a
  end.

Definition voice_trigger_audio_started_locked (a : audio_device) : audio_device :=
  match ad_voice_st a with
  | eVoiceRecogFired => set_voice_st eVoiceRecogAudio a
  | _ => a
  end.

Definition voice_trigger_audio_ended_locked (a : audio_device) : M (world K) audio_device :=
  match ad_voice_st a with
  | eVoiceRecogAudio =>
    a ← do_voice_trigger_close_stream a;
    mret (set_voice_st eVoiceRecogIdle a)
  | eVoiceRecogReArm => mret (set_voice_st eVoiceRecogArmed a)
  | _ => mret a
  end.

(** [parms key] is what [str_parms_get_str] finds, cut to the buffer. *)
Definition voice_trigger_set_params (parms : string → option string) (a : audio_device)
  : M (world K) audio_device :=
  let a := match parms "voice_trigger_mic"%string with
           | Some value => set_voice_trig_mic (u32 (atoi (snprintf 32 value))) a
           | None => a
           end in
  match parms "voice_trigger"%string with
  | None => mret a
  | Some value =>
    let value := snprintf 32 value in
    if bool_decide (value = "2"%string) then mret (voice_trigger_triggered a)
    else if bool_decide (value = "1"%string) then voice_trigger_enable a
    else if bool_decide (value = "0"%string) then voice_trigger_disable a
    else mret a
  end.

(** The stream to open for voice recognition audio; [None] for the normal
    recording path. *)
Definition voice_trigger_audio_stream_name (a : audio_device) : option string :=
  match ad_voice_st a with
  | eVoiceNone | eVoiceTriggerIdle | eVoiceTriggerArmed | eVoiceTriggerFired =>
    Some kVoiceRecogStreamName
  | eVoiceRecogIdle | eVoiceRecogArmed | eVoiceRecogReArm => None
  | eVoiceRecogFired => Some kVoiceRecogStreamName
  | eVoiceRecogAudio => None
  end.

Definition voice_trigger_init (a : audio_device) : audio_device :=
  if is_named_stream_defined (ad_cm a) kVoiceRecogStreamName then
    set_voice_st eVoiceRecogIdle a
  else if is_named_stream_defined (ad_cm a) kVoiceTriggerStreamName then
    set_voice_st eVoiceTriggerIdle a
  else set_voice_st eVoiceNone a.

End voice.
