(* ===== verification/VoiceFacts.v ===== *)
(** * The voice trigger keeps its stream as one of the clients

    The voice trigger of the HAL shares the streams of the configuration with
    the HAL's clients.  The states of the system are those reached by the
    events of both; a ledger counts the references each client holds.  This
    file proves that the reference counts of the streams are the clients'
    references and the one of the voice trigger, that its one way to lose a
    reference is the re-arming of a trigger that fired, and that its events
    execute no undefined behaviour. *)

From S2P Require Import Prelude Kernel SoftCard Mixer ConfigData CStrings Routing.
From S2P Require Import RefCount RouteInv RoutingFacts StreamFacts ParserSound VoiceTrigger.
From Stdlib Require Import Ascii String.

#[global] Open Scope Z_scope.

(** ** What the calls do to the reference counts *)

(** Reference count and maximum of every stream. *)
Definition refs (cm : config_mgr) : list (Z * Z) :=
  (λ s, (s_ref_count s, s_max_ref_count s)) <$> da_items (cm_streams cm).

Definition bump (d : Z) (r : Z * Z) : Z * Z := (r.1 + d, r.2).

(** Counts of a configuration in use: between 0 and the maximum. *)
Definition ref_bounds (r : Z * Z) : Prop := 0 <= r.1 <= Z.max 0 r.2 ∧ is_s32 r.2.

Definition refs_bounded (cm : config_mgr) : Prop := Forall ref_bounds (refs cm).

Lemma refs_at cm i s :
  get_stream_at cm i = Some s → refs cm !! i = Some (s_ref_count s, s_max_ref_count s).
Proof. unfold get_stream_at. intros Hs. unfold refs. by rewrite list_lookup_fmap, Hs. Qed.

Lemma refs_alter cm f g i :
  (∀ s, s_ref_count (f s) = (g (s_ref_count s, s_max_ref_count s)).1
        ∧ s_max_ref_count (f s) = (g (s_ref_count s, s_max_ref_count s)).2) →
  ∀ l, da_items (cm_streams l) = alter f i (da_items (cm_streams cm)) →
  refs l = alter g i (refs cm).
Proof.
  intros Hf l Hl. unfold refs. rewrite Hl. apply list_fmap_alter, Forall_forall.
  intros s _. destruct (Hf s) as [-> ->]. by destruct (g _).
Qed.

Lemma refs_upd_same cm i f :
  (∀ s, s_ref_count (f s) = s_ref_count s ∧ s_max_ref_count (f s) = s_max_ref_count s) →
  refs (upd_stream i f cm) = refs cm.
Proof.
  intros Hf. rewrite (refs_alter cm f id i); [|by intros|done].
  apply list_eq. intros j. destruct (decide (i = j)) as [<-|].
  - rewrite list_lookup_alter_eq. by destruct (_ !! _).
  - by rewrite list_lookup_alter_ne.
Qed.

Lemma refs_bounded_ok cm : refs_bounded cm → refs_ok cm.
Proof.
  unfold refs_bounded, refs, refs_ok. rewrite Forall_fmap. intros HF.
  eapply Forall_impl; [exact HF|]. intros s [Hb Hm]. cbn in *. unfold is_s32 in *. lia.
Qed.

Section calls.
  Context {K : Type} `{!AlsaCtl K, !AudioH}.

Lemma devices_streams cm devices first second :
  returns (S:=world K) (apply_paths_to_devices_l cm devices first second)
    (λ cm', cm_streams cm' = cm_streams cm).
Proof.
  unfold apply_paths_to_devices_l. eapply returns_bind; [apply returns_true|].
  intros l _. by apply returns_ret.
Qed.

Lemma apply_route_refs cm i devices :
  returns (S:=world K) (apply_route cm i devices) (λ cm', refs cm' = refs cm).
Proof.
  unfold apply_route, apply_masks_l, route_masks. destruct (get_stream_at cm i) as [s|].
  2:{ eapply returns_bind; [apply returns_true|]. intros ? _. by apply returns_ret. }
  cbv zeta. destruct (route_devices _ _); [|by apply returns_ret].
  eapply returns_bind; [apply devices_streams|intros cm1 H1].
  eapply returns_bind; [apply devices_streams|intros cm2 H2].
  apply returns_ret. rewrite refs_upd_same by done. unfold refs. by rewrite H2, H1.
Qed.

Lemma use_case_refs cm i setting name :
  returns (S:=world K) (apply_use_case cm i setting name) (λ r, refs r.2 = refs cm).
Proof.
  unfold apply_use_case. destruct (get_stream_at cm i) as [s|].
  2:{ eapply returns_bind; [apply returns_true|]. intros ? _. by apply returns_ret. }
  destruct (find_use_case _ _ _ _) as [[[a b] c]|]; [|by apply returns_ret].
  eapply returns_bind; [apply returns_true|]. intros l _. apply returns_ret.
  cbn [snd]. by rewrite refs_upd_same.
Qed.

Lemma release_refs cm i s :
  get_stream_at cm i = Some s → refs_bounded cm → 0 < s_ref_count s →
  returns (S:=world K) (release_stream cm (Some i))
    (λ cm', refs cm' = alter (bump (-1)) i (refs cm)).
Proof.
  intros Hs Hb Hpos. unfold release_stream. rewrite Hs. cbv zeta.
  destruct (proj1 (Forall_lookup _ _) Hb _ _ (refs_at _ _ _ Hs)) as [Hr Hm]. cbn in Hr, Hm.
  unfold is_s32 in Hm. rewrite s32_small by (unfold is_s32; lia).
  set (cm1 := upd_stream i _ cm).
  assert (Hr1 : refs cm1 = alter (bump (-1)) i (refs cm)).
  { apply list_eq. intros j. unfold refs, cm1. cbn.
    rewrite list_lookup_fmap. destruct (decide (i = j)) as [<-|].
    - unfold get_stream_at in Hs.
      rewrite !list_lookup_alter_eq, list_lookup_fmap, Hs. done.
    - by rewrite !list_lookup_alter_ne, list_lookup_fmap by done. }
  destruct (s_ref_count s - 1 =? 0); [|by apply returns_ret].
  eapply returns_bind; [apply devices_streams|intros cm2 H2].
  eapply returns_bind; [apply global_streams|intros cm3 H3].
  apply returns_ret. rewrite refs_upd_same by done. unfold refs in *. by rewrite H3, H2.
Qed.

(** A reference taken, or none. *)
Definition opened (cm : config_mgr) (r : option nat * config_mgr) : Prop :=
  match r.1 with
  | Some i => refs r.2 = alter (bump 1) i (refs cm)
              ∧ ∃ n m, refs cm !! i = Some (n, m) ∧ n < m
  | None => refs r.2 = refs cm
  end.

Lemma get_stream_refs cm devices format :
  refs_bounded cm → returns (S:=world K) (get_stream cm devices format) (opened cm).
Proof.
  intros Hb. eapply returns_post.
  { apply get_stream_loop_chosen; [by apply refs_bounded_ok|done]. }
  intros [[i|] cm']; unfold chosen, opened; cbn [fst snd].
  - intros (_ & (s & Hs & Hav) & _ & Hst).
    split; [by apply (refs_alter cm acquire)|]. exists (s_ref_count s), (s_max_ref_count s).
    split; [by apply refs_at|]. by apply andb_true_iff in Hav as [_ ?%Z.ltb_lt].
  - by intros [-> _].
Qed.

Lemma get_named_stream_refs cm name :
  refs_bounded cm → returns (S:=world K) (get_named_stream cm name) (opened cm).
Proof.
  intros Hb. unfold get_named_stream.
  destruct (find_named_stream cm name) as [i|] eqn:Hf; [|by apply returns_ret].
  apply find_named_bound in Hf.
  destruct (lookup_lt_is_Some_2 (da_items (cm_streams cm)) i) as [s Hs]; [done|].
  destruct (proj1 (Forall_lookup _ _) (refs_bounded_ok _ Hb) _ _ Hs) as [Hr Hx].
  eapply returns_bind; [by apply (open_stream_result cm i s)|].
  intros [ok cm'] Hres. cbn [fst snd] in Hres. apply returns_ret. unfold opened. cbn [fst snd].
  destruct (Z.ltb_spec (s_ref_count s) (s_max_ref_count s)).
  - destruct Hres as [-> Hst]. split; [by apply (refs_alter cm acquire)|].
    exists (s_ref_count s), (s_max_ref_count s). split; [by apply refs_at|done].
  - by injection Hres as -> ->.
Qed.

End calls.

(** ** The HAL as a system of clients and a voice trigger *)

(** References by stream. *)
Abbreviation ledger := (nat → Z).

Definition credit (i : nat) (d : Z) (l : ledger) : ledger :=
  λ j, if decide (i = j) then l j + d else l j.

Record hal := Hal { h_dev : audio_device; h_clients : ledger }.

Inductive event :=
  | EvParams (parms : string → option string)  (** [adev_set_parameters] *)
  | EvAudioStarted
  | EvAudioEnded
  | EvGetStream (devices format : Z)
  | EvGetNamedStream (name : string)
  | EvRelease (i : nat)
  | EvRoute (i : nat) (devices : Z)
  | EvVolume (i : nat) (left_pc right_pc : Z)
  | EvUseCase (i : nat) (setting case_name : string).

(** The states in which the voice trigger has its stream open. *)
Definition holds (st : voice_state) : bool :=
  match st with
  | eVoiceNone | eVoiceTriggerIdle | eVoiceRecogIdle => false
  | _ => true
  end.

Definition held (a : audio_device) : ledger :=
  λ i, if holds (ad_voice_st a) && bool_decide (ad_voice_stream a = Some i) then 1 else 0.

Definition ref_of (cm : config_mgr) : ledger := λ i, from_option fst 0 (refs cm !! i).

(** The value of the voice trigger's command in a parameter string. *)
Definition command (parms : string → option string) : option string :=
  snprintf 32 <$> parms "voice_trigger"%string.

(** The event arms a trigger that has fired. *)
Definition rearms (h : hal) (e : event) : Prop :=
  match e with
  | EvParams parms =>
    ad_voice_st (h_dev h) = eVoiceTriggerFired ∧ command parms = Some "1"%string
  | _ => False
  end.

(** Clients release only what they hold. *)
Definition event_ok (h : hal) (e : event) : Prop :=
  match e with EvRelease i => 0 < h_clients h i | _ => True end.

Section hal.
  Context {K : Type} `{!AlsaCtl K, !AudioH}.

Definition on_event (e : event) (h : hal) : M (world K) hal :=
  let '(Hal a c) := h in
  match e with
  | EvParams parms => a ← voice_trigger_set_params parms a; mret (Hal a c)
  | EvAudioStarted => mret (Hal (voice_trigger_audio_started_locked a) c)
  | EvAudioEnded => a ← voice_trigger_audio_ended_locked a; mret (Hal a c)
  | EvGetStream devices format =>
    '(s, cm) ← get_stream (ad_cm a) devices format;
    mret (Hal (set_ad_cm cm a) (from_option (λ i, credit i 1 c) c s))
  | EvGetNamedStream name =>
    '(s, cm) ← get_named_stream (ad_cm a) name;
    mret (Hal (set_ad_cm cm a) (from_option (λ i, credit i 1 c) c s))
  | EvRelease i =>
    cm ← release_stream (ad_cm a) (Some i);
    mret (Hal (set_ad_cm cm a) (credit i (-1) c))
  | EvRoute i devices => cm ← apply_route (ad_cm a) i devices; mret (Hal (set_ad_cm cm a) c)
  | EvVolume i l r => _ ← set_hw_volume (ad_cm a) i l r; mret h
  | EvUseCase i setting name =>
    r ← apply_use_case (ad_cm a) i setting name; mret (Hal (set_ad_cm r.2 a) c)
  end.

(** States after events from [h0]; [again] tells whether a trigger that fired
    may be armed without being disabled first. *)
Inductive hal_reach (again : bool) (h0 : hal) : hal → Prop :=
  | hal_start : hal_reach again h0 h0
  | hal_step h e (w : world K) :
      hal_reach again h0 h → event_ok h e → (again = true ∨ ¬ rearms h e) →
      hal_reach again h0 (on_event e h w).1.

(** Every reference of a stream is a client's, the voice trigger's or lost. *)
Record accounts (lost c : ledger) (a : audio_device) : Prop := {
  ac_bounded : refs_bounded (ad_cm a);
  ac_clients i : 0 <= c i;
  ac_lost i : 0 <= lost i;
  ac_sum i : ref_of (ad_cm a) i = c i + held a i + lost i
}.

Lemma held_bounds a i : 0 <= held a i <= 1.
Proof. unfold held. destruct (_ && _); lia. Qed.

Lemma ref_of_bump cm cm' i r d j :
  refs cm !! i = Some r → refs cm' = alter (bump d) i (refs cm) →
  ref_of cm' j = credit i d (ref_of cm) j.
Proof.
  intros Hi Hr. unfold ref_of, credit. rewrite Hr. destruct (decide (i = j)) as [<-|].
  - by rewrite list_lookup_alter_eq, Hi.
  - by rewrite list_lookup_alter_ne.
Qed.

Lemma refs_bump_bounded cm cm' i n m d :
  refs_bounded cm → refs cm !! i = Some (n, m) → 0 <= n + d <= Z.max 0 m →
  refs cm' = alter (bump d) i (refs cm) → refs_bounded cm'.
Proof.
  intros Hb Hi Hd Hr. unfold refs_bounded. rewrite Hr.
  apply Forall_alter; [done|]. intros r Hr' [_ Hm].
  rewrite Hi in Hr'. injection Hr' as <-. by split.
Qed.

(** A positive count is the count of a stream. *)
Lemma ref_of_pos cm i :
  0 < ref_of cm i →
  ∃ s, get_stream_at cm i = Some s ∧ ref_of cm i = s_ref_count s
       ∧ refs cm !! i = Some (s_ref_count s, s_max_ref_count s).
Proof.
  unfold ref_of, refs, get_stream_at. rewrite list_lookup_fmap.
  destruct (_ !! i) as [s|]; cbn; [eauto|lia].
Qed.

Lemma accounts_same lost c a a' :
  refs (ad_cm a') = refs (ad_cm a) → (∀ i, held a' i = held a i) →
  accounts lost c a → accounts lost c a'.
Proof.
  intros Hr Hh [Hb Hc Hl Hs]. split; try done; unfold refs_bounded, ref_of in *.
  - by rewrite Hr.
  - intros i. by rewrite Hr, Hs, Hh.
Qed.

(** A reference taken from the configuration, on whoever's account. *)
Lemma accounts_open lost c c' a a' s :
  accounts lost c a → opened (ad_cm a) (s, ad_cm a') →
  (∀ i, 0 <= c' i) → (∀ i, c' i + held a' i
    = c i + held a i + if bool_decide (s = Some i) then 1 else 0) →
  accounts lost c' a'.
Proof.
  intros [Hb Hc Hl Hs] Ho Hc' Hsum. unfold opened in Ho. cbn [fst snd] in Ho.
  destruct s as [i|].
  - destruct Ho as (Hr & n & m & Hi & Hlt). split; [|done|done|].
    + eapply refs_bump_bounded; [done..| |done].
      pose proof (proj1 (Forall_lookup _ _) Hb _ _ Hi) as [? _]. cbn in *. lia.
    + intros j. rewrite (ref_of_bump _ _ _ _ _ _ Hi Hr). unfold credit.
      specialize (Hsum j). rewrite Hs.
      destruct (decide (i = j)) as [->|]; [rewrite bool_decide_eq_true_2 in Hsum by done|
        rewrite bool_decide_eq_false_2 in Hsum by congruence]; lia.
  - split; [|done|done|].
    + unfold refs_bounded. by rewrite Ho.
    + intros j. unfold ref_of. rewrite Ho. specialize (Hsum j). specialize (Hs j).
      unfold ref_of in Hs. rewrite bool_decide_eq_false_2 in Hsum by done. lia.
Qed.

(** A reference given back from whoever's account. *)
Lemma accounts_release lost c c' a a' i :
  accounts lost c a → refs (ad_cm a') = alter (bump (-1)) i (refs (ad_cm a)) →
  0 < ref_of (ad_cm a) i →
  (∀ j, 0 <= c' j) → (∀ j, c' j + held a' j
    = c j + held a j - if bool_decide (i = j) then 1 else 0) →
  accounts lost c' a'.
Proof.
  intros [Hb Hc Hl Hs] Hr Hpos Hc' Hsum.
  destruct (ref_of_pos _ _ Hpos) as (s & Hat & Href & Hi). split; [|done|done|].
  - eapply refs_bump_bounded; [done..| |done].
    pose proof (proj1 (Forall_lookup _ _) Hb _ _ Hi) as [? _]. cbn in *. lia.
  - intros j. rewrite (ref_of_bump _ _ _ _ _ _ Hi Hr). unfold credit.
    specialize (Hsum j). rewrite Hs.
    destruct (decide (i = j)) as [->|]; [rewrite bool_decide_eq_true_2 in Hsum by done|
      rewrite bool_decide_eq_false_2 in Hsum by done]; lia.
Qed.

End hal.

(** ** The events keep the accounts *)

Section keeps.
  Context {K : Type} `{!AlsaCtl K, !AudioH}.

Lemma held_idle a i : holds (ad_voice_st a) = false → held a i = 0.
Proof. unfold held. by intros ->. Qed.

Lemma held_active a i :
  holds (ad_voice_st a) = true →
  held a i = if bool_decide (ad_voice_stream a = Some i) then 1 else 0.
Proof. unfold held. by intros ->. Qed.

Lemma held_states a a' :
  holds (ad_voice_st a') = holds (ad_voice_st a) → ad_voice_stream a' = ad_voice_stream a →
  ∀ i, held a' i = held a i.
Proof. intros Hh Hs i. unfold held. by rewrite Hh, Hs. Qed.

(** Arming opens the stream; a reference held before is lost. *)
Lemma arm_accounts lost c a name st :
  accounts lost c a → holds st = true →
  returns (S:=world K)
    (a ← do_voice_trigger_open_stream name a; mret (set_voice_st st a))
    (λ a', accounts (λ i, lost i + held a i) c a').
Proof.
  intros Ha Hst. eapply (returns_bind _ _ (λ a', opened (ad_cm a) (ad_voice_stream a', ad_cm a'))).
  - unfold do_voice_trigger_open_stream.
    eapply returns_bind; [apply get_named_stream_refs, Ha|]. intros [[i|] cm'] Ho; cbv zeta.
    + eapply returns_bind; [apply apply_route_refs|]. intros cm2 Hr. apply returns_ret.
      unfold opened in *. cbn in *. by rewrite Hr.
    + by apply returns_ret.
  - intros a' Ho. apply returns_ret.
    assert (Ha0 : accounts (λ i, lost i + held a i) c (set_voice_st eVoiceNone a)).
    { destruct Ha as [Hb Hc Hl Hs]. split; [done|done| |].
      - intros i. specialize (Hl i). pose proof (held_bounds a i). lia.
      - intros i. rewrite held_idle by done. rewrite <- (Z.add_0_r (c i)) at 1.
        change (ad_cm (set_voice_st eVoiceNone a)) with (ad_cm a). rewrite Hs. lia. }
    eapply accounts_open; [exact Ha0|exact Ho|apply Ha|].
    intros i. rewrite (held_active (set_voice_st st a')), (held_idle (set_voice_st eVoiceNone a)) by done.
    cbn [ad_voice_stream set_voice_st]. lia.
Qed.

(** Closing gives back the reference held. *)
Lemma disarm_accounts lost c a st :
  accounts lost c a → holds (ad_voice_st a) = true → holds st = false →
  returns (S:=world K) (a ← do_voice_trigger_close_stream a; mret (set_voice_st st a))
    (accounts lost c).
Proof.
  intros Ha Hh Hst. unfold do_voice_trigger_close_stream.
  destruct (ad_voice_stream a) as [i|] eqn:Hi.
  2:{ eapply returns_bind; [by apply (returns_ret a (λ a', a' = a))|]. intros ? ->.
      apply returns_ret. eapply accounts_same; [| |exact Ha]; [done|]. intros j.
      rewrite held_idle, held_active, Hi by done. by rewrite bool_decide_eq_false_2. }
  assert (Hpos : 0 < ref_of (ad_cm a) i).
  { destruct Ha as [Hb Hc Hl Hs]. rewrite Hs, held_active, Hi, bool_decide_eq_true_2 by done.
    specialize (Hc i). specialize (Hl i). lia. }
  eapply returns_bind.
  - eapply returns_bind; [apply apply_route_refs|]. intros cm1 Hr1.
    assert (Hpos1 : 0 < ref_of cm1 i) by (unfold ref_of in *; by rewrite Hr1).
    destruct (ref_of_pos _ _ Hpos1) as (s & Hat & Href & _).
    eapply returns_bind.
    { apply (release_refs _ _ s); [done| |lia]. unfold refs_bounded. rewrite Hr1. apply Ha. }
    intros cm2 Hr2. apply (returns_ret _ (λ a', refs (ad_cm a') = alter (bump (-1)) i (refs (ad_cm a)))).
    cbn. by rewrite Hr2, Hr1.
  - intros a' Hr. apply returns_ret. eapply accounts_release; [exact Ha|exact Hr|done|apply Ha|].
    intros j. rewrite (held_idle (set_voice_st _ _)) by done. rewrite held_active, Hi by done.
    rewrite (bool_decide_ext (Some i = Some j) (i = j)); [lia|]. split; congruence.
Qed.

(** What an event does to the accounts: only arming a fired trigger loses. *)
Definition settles (lost c : ledger) (ok : bool) (a' : audio_device) : Prop :=
  ∃ lost', accounts lost' c a' ∧ (ok = true → ∀ i, lost' i = lost i).

Lemma settles_same lost c ok a : accounts lost c a → settles lost c ok a.
Proof. by exists lost. Qed.

Lemma settles_state lost c ok a st :
  accounts lost c a → holds st = holds (ad_voice_st a) → settles lost c ok (set_voice_st st a).
Proof.
  intros Ha Hst. apply settles_same. eapply accounts_same; [| |exact Ha]; [done|].
  by apply held_states.
Qed.

Lemma enable_settles lost c a :
  accounts lost c a →
  returns (S:=world K) (voice_trigger_enable a)
    (settles lost c (negb (bool_decide (ad_voice_st a = eVoiceTriggerFired)))).
Proof.
  intros Ha.
  assert (Harm : ∀ name st ok, holds st = true → (ok = true → holds (ad_voice_st a) = false) →
    returns (S:=world K) (a ← do_voice_trigger_open_stream name a; mret (set_voice_st st a))
      (settles lost c ok)).
  { intros name st ok Hst Hok. eapply returns_post; [by apply arm_accounts|].
    intros a' Ha'. eexists. split; [exact Ha'|]. intros Htrue i. cbn.
    rewrite held_idle by auto. lia. }
  unfold voice_trigger_enable. destruct (ad_voice_st a) eqn:Hst;
    first [ by apply Harm; [|intros _; rewrite Hst]
          | by apply returns_ret, settles_same
          | by apply returns_ret, settles_state; [|rewrite Hst]
          | by apply Harm ].
Qed.

Lemma disable_settles lost c ok a :
  accounts lost c a → returns (S:=world K) (voice_trigger_disable a) (settles lost c ok).
Proof.
  intros Ha. unfold voice_trigger_disable. destruct (ad_voice_st a) eqn:Hst;
    first [ by apply returns_ret, settles_same
          | by apply returns_ret, settles_state; [|rewrite Hst]
          | eapply returns_post; [by apply disarm_accounts; [exact Ha|rewrite Hst|]|];
            intros a' Ha'; by apply settles_same ].
Qed.

Lemma triggered_settles lost c ok a :
  accounts lost c a → settles lost c ok (voice_trigger_triggered a).
Proof.
  intros Ha. unfold voice_trigger_triggered. destruct (ad_voice_st a) eqn:Hst;
    first [by apply settles_same|by apply settles_state; [|rewrite Hst]].
Qed.

Lemma ended_settles lost c ok a :
  accounts lost c a →
  returns (S:=world K) (voice_trigger_audio_ended_locked a) (settles lost c ok).
Proof.
  intros Ha. unfold voice_trigger_audio_ended_locked. destruct (ad_voice_st a) eqn:Hst;
    first [ by apply returns_ret, settles_same
          | by apply returns_ret, settles_state; [|rewrite Hst]
          | eapply returns_post; [by apply disarm_accounts; [exact Ha|rewrite Hst|]|];
            intros a' Ha'; by apply settles_same ].
Qed.

Lemma params_settles lost c a parms :
  accounts lost c a →
  returns (S:=world K) (voice_trigger_set_params parms a)
    (settles lost c (negb (bool_decide (ad_voice_st a = eVoiceTriggerFired
                                         ∧ command parms = Some "1"%string)))).
Proof.
  intros Ha. unfold voice_trigger_set_params, command. cbv zeta. set (ok := negb _).
  set (a1 := match parms _ with Some value => set_voice_trig_mic _ a | None => a end).
  assert (Ha1 : accounts lost c a1 ∧ ad_voice_st a1 = ad_voice_st a).
  { unfold a1. destruct (parms "voice_trigger_mic"%string); (split; [|done]); [|done].
    apply (accounts_same lost c a); [done|by apply held_states|done]. }
  destruct Ha1 as [Ha1 Hst].
  destruct (parms "voice_trigger"%string) as [value|]; [|by apply returns_ret, settles_same].
  case_bool_decide; [by apply returns_ret, triggered_settles|].
  case_bool_decide as Hone.
  - eapply returns_post; [by apply enable_settles|]. intros a' (lost' & Hacc & Hl).
    exists lost'. split; [done|]. intros Hok. apply Hl. rewrite Hst.
    unfold ok in Hok. apply negb_true_iff, bool_decide_eq_false in Hok.
    apply negb_true_iff, bool_decide_eq_false. intros Hf. destruct Hok.
    split; [done|]. rewrite <- Hone. done.
  - case_bool_decide; [by apply disable_settles|]. by apply returns_ret, settles_same.
Qed.

(** Every event keeps the accounts, and loses a reference only by arming a
    trigger that fired. *)
Lemma on_event_settles lost h e :
  accounts lost (h_clients h) (h_dev h) → event_ok h e →
  returns (S:=world K) (on_event e h) (λ h', ∃ lost', accounts lost' (h_clients h') (h_dev h')
    ∧ (¬ rearms h e → ∀ i, lost' i = lost i)).
Proof.
  destruct h as [a c]. cbn [h_clients h_dev]. intros Ha Hok. unfold on_event.
  assert (Hdone : ∀ c' a', accounts lost c' a' → returns (S:=world K) (mret (Hal a' c')) (λ h',
    ∃ lost', accounts lost' (h_clients h') (h_dev h')
      ∧ (¬ rearms (Hal a c) e → ∀ i, lost' i = lost i))).
  { intros c' a' Ha'. apply returns_ret. by exists lost. }
  assert (Hopen : ∀ s cm, opened (ad_cm a) (s, cm) → returns (S:=world K)
    (mret (Hal (set_ad_cm cm a) (from_option (λ i, credit i 1 c) c s))) (λ h',
    ∃ lost', accounts lost' (h_clients h') (h_dev h')
      ∧ (¬ rearms (Hal a c) e → ∀ i, lost' i = lost i))).
  { intros s cm Ho. apply Hdone. pose proof (ac_clients _ _ _ Ha) as Hc.
    eapply (accounts_open _ _ _ a (set_ad_cm cm a)); [done|exact Ho| |];
      intros j; specialize (Hc j); rewrite ?(held_states a (set_ad_cm cm a)) by done;
      destruct s as [i|]; cbn [from_option]; unfold credit; try case_decide;
      simplify_eq;
      rewrite ?bool_decide_eq_true_2 by done; rewrite ?bool_decide_eq_false_2 by congruence; lia. }
  destruct e as [parms| | |devices format|name|i|i devices|i l r|i setting name].
  - eapply returns_bind; [by apply (params_settles lost c)|]. intros a' (lost' & Ha' & Hl).
    apply returns_ret. exists lost'. split; [done|]. intros Hno. apply Hl.
    apply negb_true_iff, bool_decide_eq_false. exact Hno.
  - apply Hdone. unfold voice_trigger_audio_started_locked.
    destruct (ad_voice_st a) eqn:Hst; try done.
    eapply accounts_same; [| |exact Ha]; [done|]. apply held_states; [by rewrite Hst|done].
  - eapply returns_bind; [by apply (ended_settles lost c true)|]. intros a' (lost' & Ha' & Hl).
    apply returns_ret. exists lost'. auto.
  - eapply returns_bind; [apply get_stream_refs, Ha|]. intros [s cm] Ho. by apply Hopen.
  - eapply returns_bind; [apply get_named_stream_refs, Ha|]. intros [s cm] Ho. by apply Hopen.
  - cbn in Hok. assert (Hpos : 0 < ref_of (ad_cm a) i).
    { rewrite (ac_sum _ _ _ Ha). pose proof (ac_lost _ _ _ Ha i). pose proof (held_bounds a i).
      lia. }
    destruct (ref_of_pos _ _ Hpos) as (s & Hat & Href & _).
    eapply returns_bind; [apply (release_refs _ _ s); [done|apply Ha|lia]|].
    intros cm Hr. apply Hdone. pose proof (ac_clients _ _ _ Ha) as Hc.
    eapply (accounts_release _ _ _ a (set_ad_cm cm a) i); [done..| |];
      intros j; specialize (Hc j); rewrite ?(held_states a (set_ad_cm cm a)) by done;
      unfold credit; case_decide; subst;
      rewrite ?bool_decide_eq_true_2 by done; rewrite ?bool_decide_eq_false_2 by congruence; lia.
  - eapply returns_bind; [apply apply_route_refs|]. intros cm Hr. apply Hdone.
    eapply accounts_same; [exact Hr| |exact Ha]. by apply held_states.
  - eapply returns_bind; [apply returns_true|]. intros _ _. by apply Hdone.
  - eapply returns_bind; [apply use_case_refs|]. intros r Hr. apply Hdone.
    eapply accounts_same; [exact Hr| |exact Ha]. by apply held_states.
Qed.

(** The HAL before its first call: no stream is open. *)
Definition closed (cm : config_mgr) : Prop :=
  Forall (λ s, s_ref_count s = 0 ∧ is_s32 (s_max_ref_count s)) (da_items (cm_streams cm)).

Definition hal0 (a : audio_device) : hal := Hal (voice_trigger_init a) (λ _, 0).

Lemma hal0_accounts a :
  closed (ad_cm a) → accounts (λ _, 0) (h_clients (hal0 a)) (h_dev (hal0 a)).
Proof.
  intros Hcl. cbn [hal0 h_clients h_dev].
  assert (Hi : ad_cm (voice_trigger_init a) = ad_cm a
               ∧ holds (ad_voice_st (voice_trigger_init a)) = false).
  { unfold voice_trigger_init. by repeat case_match. }
  destruct Hi as [Hcm Hh]. split; try done; rewrite Hcm.
  - unfold refs_bounded, refs. rewrite Forall_fmap. eapply Forall_impl; [exact Hcl|].
    intros s [Hr Hm]. split; [cbn; rewrite Hr; lia|done].
  - intros i. rewrite held_idle by done. unfold ref_of, refs. rewrite list_lookup_fmap.
    destruct (_ !! i) as [s|] eqn:Hs; [|done]. cbn.
    by destruct (proj1 (Forall_lookup _ _) Hcl _ _ Hs) as [-> _].
Qed.

Lemma reach_accounts again a h :
  closed (ad_cm a) → hal_reach again (hal0 a) h →
  ∃ lost, accounts lost (h_clients h) (h_dev h) ∧ (again = false → ∀ i, lost i = 0).
Proof.
  intros Hcl. induction 1 as [|h e w _ (lost & Ha & Hl) Hok Hre].
  - exists (λ _, 0). split; [by apply hal0_accounts|done].
  - destruct (on_event_settles lost h e Ha Hok w) as (lost' & Ha' & Hl').
    exists lost'. split; [done|]. intros -> i. destruct Hre as [[=]|Hre].
    rewrite Hl' by done. by apply Hl.
Qed.

End keeps.

(** ** The properties *)

Section properties.
  Context {K : Type} `{!AlsaCtl K, !AudioH}.

(** C26: as long as a trigger that fired is disabled before it is armed again,
    the reference count of every stream is the number of references its clients
    hold, and one more for the stream the voice trigger has open. *)
Theorem voice_reference_counted a h i s :
  closed (ad_cm a) → hal_reach (K:=K) false (hal0 a) h →
  get_stream_at (ad_cm (h_dev h)) i = Some s →
  s_ref_count s = h_clients h i + held (h_dev h) i.
Proof.
  intros Hcl Hr Hs. destruct (reach_accounts _ _ _ Hcl Hr) as (lost & Ha & Hl).
  pose proof (ac_sum _ _ _ Ha i) as Hsum. unfold ref_of in Hsum.
  rewrite (refs_at _ _ _ Hs) in Hsum. cbn in Hsum. rewrite Hl in Hsum by done. lia.
Qed.

(** whatever the order of the events, a stream that a client or the voice
    trigger holds exists and stays open: its reference count covers all of
    them and never exceeds the stream's maximum. *)
Theorem held_streams_stay_open again a h i :
  closed (ad_cm a) → hal_reach (K:=K) again (hal0 a) h →
  0 < h_clients h i + held (h_dev h) i →
  ∃ s, get_stream_at (ad_cm (h_dev h)) i = Some s
       ∧ h_clients h i + held (h_dev h) i <= s_ref_count s <= s_max_ref_count s.
Proof.
  intros Hcl Hr Hpos. destruct (reach_accounts _ _ _ Hcl Hr) as (lost & Ha & _).
  pose proof (ac_sum _ _ _ Ha i) as Hsum. pose proof (ac_lost _ _ _ Ha i) as Hlost.
  destruct (ref_of_pos (ad_cm (h_dev h)) i) as (s & Hs & Href & Hat); [lia|].
  exists s. split; [done|].
  destruct (proj1 (Forall_lookup _ _) (ac_bounded _ _ _ Ha) _ _ Hat) as [Hb _]. cbn in Hb. lia.
Qed.

(** ** Commands during the capture *)

Fixpoint run_commands (l : list (string → option string)) (a : audio_device)
  : M (world K) audio_device :=
  match l with
  | [] => mret a
  | parms :: l => a ← voice_trigger_set_params parms a; run_commands l a
  end.

(** Whether the commands leave the trigger wanted: the last enable or disable
    counts. *)
Definition wanted_after (l : list (string → option string)) (armed : bool) : bool :=
  foldl (λ armed parms,
    if bool_decide (command parms = Some "1"%string) then true
    else if bool_decide (command parms = Some "0"%string) then false else armed) armed l.

(** The capture state that remembers whether to arm again. *)
Definition capturing (armed : bool) : voice_state :=
  if armed then eVoiceRecogReArm else eVoiceRecogAudio.

Lemma set_params_capturing parms a armed :
  ad_voice_st a = capturing armed →
  returns (S:=world K) (voice_trigger_set_params parms a) (λ a',
    ad_cm a' = ad_cm a ∧ ad_voice_stream a' = ad_voice_stream a
    ∧ ad_voice_st a' = capturing (wanted_after [parms] armed)).
Proof.
  intros Hst. unfold voice_trigger_set_params, wanted_after, command. cbv zeta.
  set (a1 := match parms "voice_trigger_mic"%string with
             | Some value => set_voice_trig_mic _ a | None => a end).
  assert (Ha1 : ad_cm a1 = ad_cm a ∧ ad_voice_stream a1 = ad_voice_stream a
                ∧ ad_voice_st a1 = capturing armed).
  { unfold a1. by destruct (parms "voice_trigger_mic"%string). }
  clearbody a1. destruct Ha1 as (Hcm & Hs & Hst1). cbn [foldl].
  destruct (parms "voice_trigger"%string) as [value|]; [|by apply returns_ret].
  cbn [fmap option_fmap option_map]. set (v := snprintf 32 value). clearbody v.
  case_bool_decide as H2; [subst v; rewrite !bool_decide_eq_false_2 by done|].
  { apply returns_ret. unfold voice_trigger_triggered. rewrite Hst1. by destruct armed. }
  case_bool_decide as H1; [subst v; rewrite bool_decide_eq_true_2 by done|].
  { unfold voice_trigger_enable. rewrite Hst1. destruct armed; by apply returns_ret. }
  rewrite (bool_decide_eq_false_2 (Some v = Some "1"%string)) by congruence.
  case_bool_decide as H0; [subst v; rewrite bool_decide_eq_true_2 by done|].
  { unfold voice_trigger_disable. rewrite Hst1. destruct armed; by apply returns_ret. }
  rewrite bool_decide_eq_false_2 by congruence. by apply returns_ret.
Qed.

Lemma run_commands_capturing l a armed :
  ad_voice_st a = capturing armed →
  returns (S:=world K) (run_commands l a) (λ a',
    ad_cm a' = ad_cm a ∧ ad_voice_stream a' = ad_voice_stream a
    ∧ ad_voice_st a' = capturing (wanted_after l armed)).
Proof.
  revert a armed. induction l as [|parms l IH]; intros a armed Hst; cbn [run_commands].
  { by apply returns_ret. }
  eapply returns_bind; [by apply set_params_capturing|]. intros a1 (Hcm & Hs & Hst1).
  eapply returns_post; [by apply IH|]. intros a2 (Hcm2 & Hs2 & Hst2).
  split_and!; [congruence..|]. exact Hst2.
Qed.

(** commands received while the recognised speech is captured take effect
    when the capture ends, and the last one wins: if it was an enable the
    trigger is armed again on the stream it still has open and nothing is
    routed or released, otherwise the trigger is idle. *)
Theorem last_command_wins l a (w : world K) :
  ad_voice_st a = eVoiceRecogAudio →
  let a' := ((a ← run_commands l a; voice_trigger_audio_ended_locked a) w).1 in
  if wanted_after l false
  then ad_voice_st a' = eVoiceRecogArmed ∧ ad_cm a' = ad_cm a
       ∧ ad_voice_stream a' = ad_voice_stream a
  else ad_voice_st a' = eVoiceRecogIdle.
Proof.
  intros Hst. cbv zeta. revert w. eapply (returns_bind _ _ _ (λ a', if wanted_after l false
    then ad_voice_st a' = eVoiceRecogArmed ∧ ad_cm a' = ad_cm a
         ∧ ad_voice_stream a' = ad_voice_stream a
    else ad_voice_st a' = eVoiceRecogIdle)); [by apply (run_commands_capturing l a false)|].
  intros a1 (Hcm & Hs & Hst1). unfold voice_trigger_audio_ended_locked. rewrite Hst1.
  destruct (wanted_after l false); cbn [capturing]; [by apply returns_ret|].
  eapply returns_bind; [apply returns_true|]. intros a2 _. by apply returns_ret.
Qed.

(** ** Safety *)

Variable m : mixer.

(** The configuration is in order and the stream pointer points into it. *)
Definition dev_ok (a : audio_device) : Prop :=
  cm_ok m (ad_cm a) ∧ ∀ i, ad_voice_stream a = Some i → valid_stream (ad_cm a) i.

(** Clients pass streams of the configuration, and volumes whose sum is an [int]. *)
Definition event_valid (h : hal) (e : event) : Prop :=
  match e with
  | EvRelease i | EvRoute i _ | EvUseCase i _ _ => valid_stream (ad_cm (h_dev h)) i
  | EvVolume i l r => valid_stream (ad_cm (h_dev h)) i ∧ is_s32 (l + r)
  | _ => True
  end.

Lemma dev_ok_kept a a' :
  dev_ok a → kept m (ad_cm a) (ad_cm a') → ad_voice_stream a' = ad_voice_stream a → dev_ok a'.
Proof.
  intros [Hcm Hs] [Hcm' Hl] Heq. split; [done|]. intros i Hi. unfold valid_stream.
  rewrite Hl. apply Hs. congruence.
Qed.

Lemma kept_valid cm cm' i : kept m cm cm' → valid_stream cm i → valid_stream cm' i.
Proof. intros [_ Hl]. unfold valid_stream. by rewrite Hl. Qed.

Lemma named_stream_valid cm name :
  cm_ok m cm → yields (K:=K) (get_named_stream cm name) (λ r,
    kept m cm r.2 ∧ ∀ i, r.1 = Some i → valid_stream r.2 i).
Proof.
  intros Hcm. unfold get_named_stream.
  destruct (find_named_stream cm name) as [i|] eqn:Hf; [|by apply yields_ret].
  apply find_named_bound in Hf.
  eapply yields_bind; [by apply open_stream_safe|]. intros [ok cm'] Hk. apply yields_ret.
  cbn [fst snd] in *. split; [done|]. intros j Hj. eapply kept_valid; [done|].
  destruct ok; [|done]. by injection Hj as <-.
Qed.

Lemma open_voice_safe name a st :
  dev_ok a → yields (K:=K)
    (a ← do_voice_trigger_open_stream name a; mret (set_voice_st st a)) dev_ok.
Proof.
  intros [Hcm Hs]. unfold do_voice_trigger_open_stream.
  eapply (yields_bind _ _ dev_ok); [|intros; by apply yields_ret].
  eapply yields_bind; [by apply named_stream_valid|]. intros [[i|] cm'] [Hk Hv];
    cbn [fst snd] in *; cbv zeta.
  - eapply yields_bind; [apply apply_route_safe; [apply Hk|by apply Hv]|].
    intros cm2 Hk2. apply yields_ret. split; [apply Hk2|]. intros j. cbn. intros [= <-].
    eapply kept_valid; [exact Hk2|]. by apply Hv.
  - apply yields_ret. split; [apply Hk|done].
Qed.

Lemma close_voice_safe a st :
  dev_ok a → yields (K:=K)
    (a ← do_voice_trigger_close_stream a; mret (set_voice_st st a)) dev_ok.
Proof.
  intros Ha. eapply (yields_bind _ _ dev_ok); [|intros; by apply yields_ret].
  unfold do_voice_trigger_close_stream. destruct (ad_voice_stream a) as [i|] eqn:Hi;
    [|by apply yields_ret].
  destruct Ha as [Hcm Hs]. specialize (Hs i Hi).
  eapply yields_bind; [by apply apply_route_safe|]. intros cm1 Hk1.
  eapply yields_bind; [apply release_stream_safe; [apply Hk1|by eapply kept_valid]|].
  intros cm2 Hk2. apply yields_ret. split; [apply Hk2|]. intros j. cbn. rewrite Hi.
  intros [= <-]. eapply kept_valid; [exact Hk2|]. by eapply kept_valid.
Qed.

Lemma set_params_safe parms a :
  dev_ok a → yields (K:=K) (voice_trigger_set_params parms a) dev_ok.
Proof.
  intros Ha. unfold voice_trigger_set_params. cbv zeta.
  set (a1 := match parms "voice_trigger_mic"%string with
             | Some value => set_voice_trig_mic _ a | None => a end).
  assert (Ha1 : dev_ok a1) by (unfold a1; by destruct (parms "voice_trigger_mic"%string)).
  clearbody a1. destruct (parms "voice_trigger"%string); [|by apply yields_ret].
  apply yields_if; intros.
  { apply yields_ret. unfold voice_trigger_triggered. by destruct (ad_voice_st a1). }
  apply yields_if; intros.
  { unfold voice_trigger_enable. destruct (ad_voice_st a1);
      first [by apply yields_ret|by apply open_voice_safe]. }
  apply yields_if; intros; [|by apply yields_ret].
  unfold voice_trigger_disable. destruct (ad_voice_st a1);
    first [by apply yields_ret|by apply close_voice_safe].
Qed.

(** no event of the clients or the voice trigger executes undefined
    behaviour, and the configuration stays in order: the stream pointer that is
    left in place when the trigger closes its stream is never followed to a
    stream that does not exist. *)
Theorem hal_events_safe h e (w : world K) :
  dev_ok (h_dev h) → event_valid h e →
  w_faults (on_event e h w).2 = w_faults w ∧ dev_ok (h_dev (on_event e h w).1).
Proof.
  intros Ha Hv. revert w. change (yields (K:=K) (on_event e h) (λ h', dev_ok (h_dev h'))).
  destruct h as [a c]. cbn [h_dev] in *. unfold on_event.
  assert (Hcm : cm_ok m (ad_cm a)) by apply Ha.
  destruct e as [parms| | |devices format|name|i|i devices|i l r|i setting name]; cbn in Hv.
  - eapply yields_bind; [by apply set_params_safe|]. intros. by apply yields_ret.
  - apply yields_ret. unfold voice_trigger_audio_started_locked. by destruct (ad_voice_st a).
  - eapply (yields_bind _ _ dev_ok); [|intros; by apply yields_ret].
    unfold voice_trigger_audio_ended_locked. destruct (ad_voice_st a);
      first [by apply yields_ret|by apply close_voice_safe].
  - eapply yields_bind; [by apply (get_stream_loop_safe m)|]. intros [s cm] Hk.
    apply yields_ret. by eapply dev_ok_kept.
  - eapply yields_bind; [by apply (get_named_stream_safe m)|]. intros [s cm] Hk.
    apply yields_ret. by eapply dev_ok_kept.
  - eapply yields_bind; [by apply (release_stream_safe m)|]. intros cm Hk.
    apply yields_ret. by eapply dev_ok_kept.
  - eapply yields_bind; [by apply (apply_route_safe m)|]. intros cm Hk.
    apply yields_ret. by eapply dev_ok_kept.
  - destruct Hv. eapply yields_bind; [by apply (set_hw_volume_safe m)|]. intros. by apply yields_ret.
  - eapply yields_bind; [by apply (apply_use_case_safe m)|]. intros r' Hk.
    apply yields_ret. by eapply dev_ok_kept.
Qed.

End properties.

(** ** A device with both kinds of streams *)

Definition voice_cm (name : string) (max : Z) : config_mgr :=
  ConfigMgr None 0x6 0x80000014 (cm_devices demo_cm)
    (DynArray [ demo_stream e_stream_in_pcm None 1 4 5;
                demo_stream e_stream_in_pcm (Some name) max 4 5 ] 2).

Definition voice_dev (name : string) (max : Z) : audio_device :=
  AudioDevice false (voice_cm name max) None eVoiceNone 0 None None.

Definition send (value : string) : event :=
  EvParams (λ key, if bool_decide (key = "voice_trigger"%string) then Some value else None).

Definition run_event (h : hal) (e : event) : hal := (on_event (K:=soft_card) e h demo_world).1.

Definition stream_counts (h : hal) : list Z := (refs (ad_cm (h_dev h))).*1.

Definition recog0 : hal := hal0 (voice_dev kVoiceRecogStreamName 2).
Definition recog_armed : hal := run_event recog0 (send "1").
Definition recog_fired : hal := run_event recog_armed (send "2").
Definition recog_opened : hal := run_event recog_fired (EvGetNamedStream kVoiceRecogStreamName).
Definition recog_audio : hal := run_event recog_opened EvAudioStarted.
Definition recog_rearm : hal := run_event recog_audio (send "1").
Definition recog_again : hal := run_event recog_rearm EvAudioEnded.

Lemma voice_dev_closed name max : is_s32 max → closed (ad_cm (voice_dev name max)).
Proof.
  intros Hm. unfold closed. cbn [voice_dev voice_cm ad_cm cm_streams da_items].
  by repeat (apply Forall_cons; split).
Qed.

Ltac reach_step e :=
  apply (hal_step _ _ _ e demo_world);
  [|exact I|right; first [by intros []|by intros [Hst _]; vm_compute in Hst]].

Lemma reach_recog_audio : hal_reach (K:=soft_card) false recog0 recog_audio.
Proof.
  reach_step EvAudioStarted. reach_step (EvGetNamedStream kVoiceRecogStreamName).
  reach_step (send "2"). reach_step (send "1"). apply hal_start.
Qed.

Lemma voice_reference_counted_witness :
  ad_voice_st (h_dev recog_audio) = eVoiceRecogAudio
  ∧ ∃ s, get_stream_at (ad_cm (h_dev recog_audio)) 1 = Some s ∧ s_ref_count s = 2
         ∧ s_ref_count s = h_clients recog_audio 1%nat + held (h_dev recog_audio) 1.
Proof.
  split; [vm_compute; reflexivity|]. eexists. split; [vm_compute; reflexivity|].
  split; [reflexivity|].
  eapply (voice_reference_counted (K:=soft_card) (voice_dev kVoiceRecogStreamName 2) recog_audio 1);
    [by apply voice_dev_closed|apply reach_recog_audio|vm_compute; reflexivity].
Defined.

Lemma held_streams_stay_open_witness :
  h_clients recog_audio 1%nat + held (h_dev recog_audio) 1 = 2
  ∧ ∃ s, get_stream_at (ad_cm (h_dev recog_audio)) 1 = Some s
       ∧ h_clients recog_audio 1%nat + held (h_dev recog_audio) 1
         <= s_ref_count s <= s_max_ref_count s.
Proof.
  split; [vm_compute; reflexivity|].
  apply (held_streams_stay_open (K:=soft_card) false (voice_dev kVoiceRecogStreamName 2)
           recog_audio 1);
    [by apply voice_dev_closed|apply reach_recog_audio|vm_compute; reflexivity].
Defined.

Definition demo_commands : list (string → option string) :=
  (λ v key, if bool_decide (key = "voice_trigger"%string) then Some v else None)
    <$> ["1"; "0"; "2"; "1"]%string.

Lemma last_command_wins_witness :
  let a' := ((a ← run_commands demo_commands (h_dev recog_audio);
              voice_trigger_audio_ended_locked a) demo_world).1 in
  ad_voice_st a' = eVoiceRecogArmed ∧ ad_cm a' = ad_cm (h_dev recog_audio)
  ∧ ad_voice_stream a' = ad_voice_stream (h_dev recog_audio).
Proof.
  assert (Hst : ad_voice_st (h_dev recog_audio) = eVoiceRecogAudio) by (vm_compute; reflexivity).
  pose proof (last_command_wins (K:=soft_card) demo_commands (h_dev recog_audio) demo_world Hst)
    as Hw.
  replace (wanted_after demo_commands false) with true in Hw by (vm_compute; reflexivity).
  exact Hw.
Defined.

(** The configuration of ParserSound.v with the voice recognition stream. *)
Definition voice_config : config_mgr :=
  set_cm_streams demo_config (cm_streams (voice_cm kVoiceRecogStreamName 2)).
Definition ready_hal : hal := hal0 (set_ad_cm voice_config (voice_dev kVoiceRecogStreamName 2)).

Lemma voice_streams_ok m name max :
  Forall (usecases_ok m) (da_items (cm_streams (voice_cm name max))).
Proof. cbn [voice_cm cm_streams da_items]. repeat constructor. Qed.

Lemma ready_hal_ok : dev_ok demo_mixer (h_dev ready_hal).
Proof.
  split; [|vm_compute; discriminate].
  replace (ad_cm (h_dev ready_hal)) with voice_config by (vm_compute; reflexivity).
  destruct demo_config_ok as [Hx Hm Hd _]. split; [exact Hx|exact Hm|exact Hd|].
  apply voice_streams_ok.
Qed.

Lemma hal_events_safe_witness :
  ad_voice_st (h_dev ready_hal) = eVoiceRecogIdle
  ∧ stream_counts (run_event ready_hal (send "1")) = [0; 1]
  ∧ w_faults (on_event (K:=soft_card) (send "1") ready_hal demo_world).2 = w_faults demo_world
  ∧ dev_ok demo_mixer (h_dev (on_event (K:=soft_card) (send "1") ready_hal demo_world).1).
Proof.
  split; [vm_compute; reflexivity|]. split; [vm_compute; reflexivity|].
  apply (hal_events_safe (K:=soft_card) demo_mixer ready_hal (send "1") demo_world);
    [apply ready_hal_ok|exact I].
Defined.

(** A trigger that fired and is armed again before it is disabled loses
    its stream for good: after disabling it the stream is still open and routed
    to the microphone although nobody holds it, and arming the trigger later
    finds the stream in use and opens nothing. *)
Theorem rearming_loses_the_stream :
  let h := foldl run_event (hal0 (voice_dev kVoiceTriggerStreamName 1))
             [send "1"; send "2"; send "1"; send "0"] in
  let h' := run_event h (send "1") in
  ad_voice_st (h_dev h) = eVoiceTriggerIdle ∧ stream_counts h = [0; 1]
  ∧ h_clients h 1%nat + held (h_dev h) 1 = 0
  ∧ s_current_devices <$> get_stream_at (ad_cm (h_dev h)) 1 = Some AUDIO_DEVICE_IN_BUILTIN_MIC
  ∧ ad_voice_st (h_dev h') = eVoiceTriggerArmed ∧ ad_voice_stream (h_dev h') = None
  ∧ stream_counts h' = [0; 1].
Proof. vm_compute. split_and!; reflexivity. Qed.
