(* ===== verification/HalOut.v ===== *)
(** * The surroundings of the audio HAL (src/audio/audio_hw.c)

    The Android headers, the tinycompress library, the resampler of audio_utils
    and the clock are parameters; the data and helpers that output and input
    streams of audio_hw.c share. *)

From S2P Require Import Prelude Kernel ConfigData CStrings PcmKernel Pcm Routing.
From S2P Require Import VoiceTrigger.
From Stdlib Require Import Ascii String.

#[global] Open Scope Z_scope.

(** ** The platform

    Constants of [system/audio.h] and [sound/compress_params.h], the frame
    sizes, and cutils' parameter strings: [str_parms_create_str] gives the
    lookup of the values by key, or nothing when memory runs out. *)
Class HalPlatform := {
  AUDIO_CHANNEL_OUT_STEREO : Z;
  AUDIO_CHANNEL_IN_MONO : Z;
  AUDIO_FORMAT_MAIN_MASK : Z;
  AUDIO_FORMAT_MP3 : Z;
  AUDIO_FORMAT_AAC : Z;
  AUDIO_FORMAT_HE_AAC_V1 : Z;
  AUDIO_FORMAT_HE_AAC_V2 : Z;
  AUDIO_FORMAT_VORBIS : Z;
  AUDIO_SOURCE_VOICE_RECOGNITION : Z;
  AUDIO_PARAMETER_STREAM_ROUTING : string;
  AUDIO_PARAMETER_STREAM_INPUT_SOURCE : string;
  AUDIO_OFFLOAD_CODEC_DELAY_SAMPLES : string;
  AUDIO_OFFLOAD_CODEC_PADDING_SAMPLES : string;
  SND_AUDIOCODEC_PCM : Z;
  SND_AUDIOCODEC_MP3 : Z;
  SND_AUDIOCODEC_AAC : Z;
  SND_AUDIOCODEC_VORBIS : Z;
  SND_AUDIOMODE_AAC_HE : Z;
  SND_RATECONTROLMODE_CONSTANTBITRATE : Z;
  SND_RATECONTROLMODE_VARIABLEBITRATE : Z;
  COMPRESS_IN : Z;
  COMPRESS_OUT : Z;
  (** of the stream's format and channel mask *)
  audio_stream_out_frame_size : Z → Z → Z;
  audio_stream_in_frame_size : Z → Z → Z;
  audio_bytes_per_sample : Z → Z;
  str_parms_create_str : string → option (string → option string)
}.

Inductive audio_drain_type := AUDIO_DRAIN_ALL | AUDIO_DRAIN_EARLY_NOTIFY.

(** The part of [struct audio_config] the HAL uses. *)
Record audio_config := AudioConfig {
  ac_sample_rate : Z;
  ac_channel_mask : Z;
  ac_format : Z
}.

Definition OUT_PERIOD_SIZE_DEFAULT : Z := 256.
Definition OUT_PERIOD_COUNT_DEFAULT : Z := 4.
Definition OUT_CHANNEL_COUNT_DEFAULT : Z := 2.
Definition IN_PERIOD_SIZE_DEFAULT : Z := 256.
Definition IN_PERIOD_COUNT_DEFAULT : Z := 4.
Definition IN_CHANNEL_COUNT_DEFAULT : Z := 1.
Definition IN_COMPRESS_BUFFER_SIZE_DEFAULT : Z := 1024.
Definition MAX_COMPRESS_POLL_WAIT_MS : Z := -1.

(** The number of one bits of an [unsigned int] (the compiler's builtin). *)
Definition popcount (x : Z) : Z :=
  count (λ n, Z.testbit (u32 x) (Z.of_nat n)) (seq 0 32).

(** ** tinycompress

    [struct snd_codec], as far as it is filled in. *)
Record snd_codec := SndCodec {
  cd_id : Z;
  cd_ch_in : Z;
  cd_ch_out : Z;
  cd_sample_rate : Z;
  cd_rate_control : Z;
  cd_level : Z;
  cd_format : Z;
  cd_align : Z
}.

Definition snd_codec0 : snd_codec := SndCodec 0 0 0 0 0 0 0 0.

(** [compress_open] gives the handle of a ready stream with its fragment size
    and number of fragments, or the library's static object, which is not
    ready ([None]). *)
Class TinyCompress (K : Type) := {
  compress_open : Z → Z → Z → snd_codec → Z → Z → M K (option (Z * Z * Z));
  compress_close : Z → M K unit;
  compress_start : Z → M K Z;
  compress_stop : Z → M K Z;
  compress_pause : Z → M K Z;
  compress_resume : Z → M K Z;
  compress_drain : Z → M K Z;
  compress_next_track : Z → M K Z;
  compress_partial_drain : Z → M K Z;
  compress_wait : Z → Z → M K Z;
  compress_write : Z → list Z → Z → M K Z;
  compress_read : Z → Z → M K (Z * list Z);
  compress_set_max_poll_wait : Z → Z → M K unit;
  compress_nonblock : Z → bool → M K unit;
  (** return code, samples and sampling rate *)
  compress_get_tstamp : Z → M K (Z * Z * Z);
  (** encoder delay and padding *)
  compress_set_gapless_metadata : Z → Z * Z → M K Z
}.

(** The monotonic clock, in nanoseconds. *)
Class Clock (K : Type) := {
  systemTime : M K Z;
  nanosleep : Z → M K unit
}.

(** ** Pointers to objects the HAL owns *)

Inductive ptr (A : Type) :=
  | Null
  | Live (a : A)
  | Freed.
Arguments Null {A}.
Arguments Live {A} _.
Arguments Freed {A}.

Definition is_null {A} (x : ptr A) : bool := match x with Null => true | _ => false end.

(** A PCM handle; [Live None] is [&bad_pcm]. *)
Abbreviation pcm_ptr := (ptr (option pcm)).

Section helpers.
  Context {K : Type} `{!AlsaCtl K, !AlsaPcm K, !AudioH, !HalPlatform}.

(** The object a pointer points to; [d] stands for garbage. *)
Definition deref {A} (d : A) (x : ptr A) : M (world K) A :=
  match x with
  | Live a => mret a
  | Null => _ ← raise NullDeref; mret d
  | Freed => _ ← raise UseAfterFree; mret d
  end.

(** ** PCM handles *)

Definition bad_pcm : pcm := set_fd (-1) (pcm0 0 (PcmConfig 0 0 0 0 PCM_FORMAT_S16_LE 0 0 0)).

Definition the_pcm (h : pcm_ptr) : M (world K) pcm :=
  o ← deref None h; mret (default bad_pcm o).

(** Writes back the object the pointer points to. *)
Definition put_pcm (p : pcm) (h : pcm_ptr) : pcm_ptr :=
  match h with Live (Some _) => Live (Some p) | _ => h end.

(** [pcm_close(h)]: what the pointer is worth afterwards. *)
Definition close_pcm_ptr (h : pcm_ptr) : M (world K) pcm_ptr :=
  o ← deref None h;
  _ ← pcm_close o;
  mret (match o with Some _ => Freed | None => h end).

(** ** Streams of the configuration *)

Definition hw_stream0 : hw_stream := HwStream e_stream_out_pcm 0 0 0 0 0.

Definition hw_at (cm : config_mgr) (i : nat) : M (world K) hw_stream :=
  match get_stream_at cm i with
  | Some s => mret (s_info s)
  | None => _ ← raise NullDeref; mret hw_stream0
  end.

(** ** Parameter strings *)

(** The tokens of [strtok_r] at the character [sep]; [cur] is reversed. *)
Fixpoint split_tokens (sep : ascii) (cur l : chars) : list chars :=
  match l with
  | [] => match cur with [] => [] | _ => [rev cur] end
  | c :: l =>
    if bool_decide (c = sep)
    then match cur with [] => split_tokens sep [] l | _ => rev cur :: split_tokens sep [] l end
    else split_tokens sep (c :: cur) l
  end.

(** [strchr(p, c)]: what is before and after the first occurrence. *)
Fixpoint strchr (c : ascii) (l : chars) : option (chars * chars) :=
  match l with
  | [] => None
  | x :: l =>
    if bool_decide (x = c) then Some ([], l)
    else '(a, b) ← strchr c l; Some (x :: a, b)
  end.

(** The assignments of a parameter string that have a value. *)
Definition kv_pairs (kvpairs : string) : list (string * string) :=
  omap (λ p, '(k, v) ← strchr "="%char p;
             match v with [] => None | _ => Some (of_chars k, of_chars v) end)
       (split_tokens ";"%char [] (to_chars kvpairs)).

Fixpoint invoke_loop (cm : config_mgr) (stream : nat) (l : list (string * string)) (ret : Z)
  : M (world K) (Z * config_mgr) :=
  match l with
  | [] => mret (ret, cm)
  | (setting, value) :: l =>
    '(r, cm) ← apply_use_case cm stream setting value;
    invoke_loop cm stream l (if 0 <=? r then 0 else ret)
  end.

(** The duplicate of the string is never freed. *)
Definition stream_invoke_usecases (cm : config_mgr) (stream : option nat) (kvpairs : string)
  : M (world K) (Z * config_mgr) :=
  ok ← alloc;
  if negb ok then mret (- ENOMEM, cm)
  else match stream with
       | None => mret (- ENOTSUP, cm)
       | Some i => invoke_loop cm i (kv_pairs kvpairs) (- ENOTSUP)
       end.

(** [str_parms_get_str] reads through its argument. *)
Definition str_parms_get_str (parms : option (string → option string)) (key : string)
  : M (world K) (option string) :=
  match parms with
  | Some get => mret (get key)
  | None => _ ← raise NullDeref; mret None
  end.

(** The routing of a parameter string, if it has one. *)
Definition common_get_routing_param (kvpairs : string) : M (world K) (option Z) :=
  v ← str_parms_get_str (str_parms_create_str kvpairs) AUDIO_PARAMETER_STREAM_ROUTING;
  mret ((λ value, u32 (atoi (snprintf 32 value))) <$> v).

End helpers.

(** * Output streams of the audio HAL (src/audio/audio_hw.c)

    PCM and compressed output streams.  Every function takes the configuration
    its stream's [hw] points into and the stream object; it returns what it
    changes.  The device's and the stream's locks are held as in the code: each
    function is one step, except for the thread of asynchronous output
    (HalAsync.v). *)

(** What the thread of asynchronous output is asked for. *)
Inductive async_mode := ASYNC_NONE | ASYNC_POLL | ASYNC_EARLY_DRAIN | ASYNC_FULL_DRAIN.

#[export] Instance async_mode_eq_dec : EqDecision async_mode.
Proof. solve_decision. Defined.

(** [struct stream_out_common] *)
Record stream_out_common := OutCommon {
  oc_hw : nat;
  oc_standby : bool;
  oc_format : Z;
  oc_channel_mask : Z;
  oc_channel_count : Z;
  oc_sample_rate : Z;
  oc_frame_size : Z;
  oc_buffer_size : Z;
  oc_latency : Z;
  oc_use_async : bool;
  oc_async_mode : async_mode
}.

(** A zeroed object with its [hw] set. *)
Definition out_common0 (hw : nat) : stream_out_common :=
  OutCommon hw false 0 0 0 0 0 0 0 false ASYNC_NONE.

Definition set_oc_standby (b : bool) (o : stream_out_common) : stream_out_common :=
  OutCommon (oc_hw o) b (oc_format o) (oc_channel_mask o) (oc_channel_count o)
    (oc_sample_rate o) (oc_frame_size o) (oc_buffer_size o) (oc_latency o) (oc_use_async o)
    (oc_async_mode o).
Definition set_oc_frame_size (n : Z) (o : stream_out_common) : stream_out_common :=
  OutCommon (oc_hw o) (oc_standby o) (oc_format o) (oc_channel_mask o) (oc_channel_count o)
    (oc_sample_rate o) n (oc_buffer_size o) (oc_latency o) (oc_use_async o) (oc_async_mode o).
Definition set_oc_buffer (size latency : Z) (o : stream_out_common) : stream_out_common :=
  OutCommon (oc_hw o) (oc_standby o) (oc_format o) (oc_channel_mask o) (oc_channel_count o)
    (oc_sample_rate o) (oc_frame_size o) size latency (oc_use_async o) (oc_async_mode o).
Definition set_oc_async (mode : async_mode) (o : stream_out_common) : stream_out_common :=
  OutCommon (oc_hw o) (oc_standby o) (oc_format o) (oc_channel_mask o) (oc_channel_count o)
    (oc_sample_rate o) (oc_frame_size o) (oc_buffer_size o) (oc_latency o) (oc_use_async o)
    mode.

Record stream_out_pcm := OutPcm {
  op_common : stream_out_common;
  op_pcm : pcm_ptr;
  op_hw_sample_rate : Z;
  op_hw_channel_count : Z
}.

Definition set_op_common (c : stream_out_common) (o : stream_out_pcm) : stream_out_pcm :=
  OutPcm c (op_pcm o) (op_hw_sample_rate o) (op_hw_channel_count o).
Definition set_op_pcm (h : pcm_ptr) (o : stream_out_pcm) : stream_out_pcm :=
  OutPcm (op_common o) h (op_hw_sample_rate o) (op_hw_channel_count o).

Record stream_out_compress := OutCompress {
  ox_common : stream_out_common;
  ox_compress : ptr Z;
  ox_codec : snd_codec;
  ox_started : bool;
  ox_paused : bool;
  ox_g_data : Z * Z;
  ox_refresh_gapless_meta : bool
}.

Definition set_ox_common (c : stream_out_common) (o : stream_out_compress)
  : stream_out_compress :=
  OutCompress c (ox_compress o) (ox_codec o) (ox_started o) (ox_paused o) (ox_g_data o)
    (ox_refresh_gapless_meta o).
Definition set_ox_compress (h : ptr Z) (o : stream_out_compress) : stream_out_compress :=
  OutCompress (ox_common o) h (ox_codec o) (ox_started o) (ox_paused o) (ox_g_data o)
    (ox_refresh_gapless_meta o).
Definition set_ox_codec (c : snd_codec) (o : stream_out_compress) : stream_out_compress :=
  OutCompress (ox_common o) (ox_compress o) c (ox_started o) (ox_paused o) (ox_g_data o)
    (ox_refresh_gapless_meta o).
Definition set_ox_started (b : bool) (o : stream_out_compress) : stream_out_compress :=
  OutCompress (ox_common o) (ox_compress o) (ox_codec o) b (ox_paused o) (ox_g_data o)
    (ox_refresh_gapless_meta o).
Definition set_ox_paused (b : bool) (o : stream_out_compress) : stream_out_compress :=
  OutCompress (ox_common o) (ox_compress o) (ox_codec o) (ox_started o) b (ox_g_data o)
    (ox_refresh_gapless_meta o).
Definition set_ox_gapless (g : Z * Z) (refresh : bool) (o : stream_out_compress)
  : stream_out_compress :=
  OutCompress (ox_common o) (ox_compress o) (ox_codec o) (ox_started o) (ox_paused o) g refresh.

Section out.
  Context {K : Type} `{!AlsaCtl K, !AlsaPcm K, !TinyCompress K, !AudioH, !HalPlatform}.

(** ** Common functions *)

Definition out_get_sample_rate (cm : config_mgr) (out : stream_out_common) : M (world K) Z :=
  if negb (oc_sample_rate out =? 0) then mret (oc_sample_rate out)
  else hw ← hw_at cm (oc_hw out); mret (hw_rate hw).

Definition out_set_sample_rate (out : stream_out_common) (rate : Z) : Z := - ENOSYS.
Definition out_get_buffer_size (out : stream_out_common) : Z := oc_buffer_size out.

Definition out_get_channels (out : stream_out_common) : Z :=
  if negb (oc_channel_mask out =? 0) then oc_channel_mask out else AUDIO_CHANNEL_OUT_STEREO.

Definition out_get_format (out : stream_out_common) : Z := oc_format out.
Definition out_set_format (out : stream_out_common) (format : Z) : Z := - ENOSYS.
Definition out_get_latency (out : stream_out_common) : Z := oc_latency out.

Definition out_set_parameters (cm : config_mgr) (out : stream_out_common) (kvpairs : string)
  : M (world K) (Z * config_mgr) :=
  v ← common_get_routing_param kvpairs;
  cm ← (match v with Some v => apply_route cm (oc_hw out) v | None => mret cm end);
  '(_, cm) ← stream_invoke_usecases cm (Some (oc_hw out)) kvpairs;
  mret (0, cm).

Definition signal_async_thread (out : stream_out_common) (mode : async_mode)
  : Z * stream_out_common :=
  if bool_decide (oc_async_mode out = ASYNC_NONE) then (0, set_oc_async mode out)
  else (- EBUSY, out).

(** After the thread has been joined. *)
Definition do_close_out_common (cm : config_mgr) (out : stream_out_common)
  : M (world K) config_mgr := release_stream cm (Some (oc_hw out)).

Definition do_init_out_common (cm : config_mgr) (out : stream_out_common)
  (config : audio_config) (devices : Z) : M (world K) (Z * stream_out_common * config_mgr) :=
  let out := OutCommon (oc_hw out) true (ac_format config) (ac_channel_mask config)
               (popcount (ac_channel_mask config)) (ac_sample_rate config) (oc_frame_size out)
               (oc_buffer_size out) (oc_latency out) (oc_use_async out) (oc_async_mode out) in
  let out := set_oc_frame_size
               (audio_stream_out_frame_size (out_get_format out) (out_get_channels out)) out in
  cm ← apply_route cm (oc_hw out) devices;
  mret (0, out, cm).

(** ** PCM output *)

Definition out_pcm_cfg_period_count (hw : hw_stream) : Z :=
  if negb (hw_period_count hw =? 0) then hw_period_count hw else OUT_PERIOD_COUNT_DEFAULT.

Definition out_pcm_cfg_period_size (hw : hw_stream) : Z :=
  if negb (hw_period_size hw =? 0) then hw_period_size hw else OUT_PERIOD_SIZE_DEFAULT.

Definition out_pcm_cfg_rate (hw : hw_stream) : Z := hw_rate hw.

Definition out_pcm_cfg_channel_count (out : stream_out_pcm) : Z :=
  if negb (oc_channel_count (op_common out) =? 0) then oc_channel_count (op_common out)
  else OUT_CHANNEL_COUNT_DEFAULT.

Definition do_out_pcm_standby (out : stream_out_pcm) : M (world K) stream_out_pcm :=
  if negb (oc_standby (op_common out)) then
    _ ← close_pcm_ptr (op_pcm out);
    mret (set_op_common (set_oc_standby true (op_common out)) (set_op_pcm Null out))
  else mret out.

(** [frames * 1000 / rate] *)
Definition latency_ms (period_size period_count rate : Z) : M (world K) Z :=
  _ ← check (negb (rate =? 0)) DivByZero;
  mret (u32 (u32 (period_size * period_count) * 1000) / rate).

Definition out_pcm_fill_params (out : stream_out_pcm) (config : pcm_config)
  : M (world K) stream_out_pcm :=
  p ← the_pcm (op_pcm out);
  latency ← latency_ms (pc_period_size config) (pc_period_count config) (pc_rate config);
  mret (OutPcm (set_oc_buffer (pcm_frames_to_bytes p (pc_period_size config)) latency
                  (op_common out))
          (op_pcm out) (pc_rate config) (s32 (pc_channels config))).

Definition start_output_pcm (cm : config_mgr) (out : stream_out_pcm)
  : M (world K) (Z * stream_out_pcm) :=
  hw ← hw_at cm (oc_hw (op_common out));
  let config := PcmConfig (out_pcm_cfg_channel_count out) (out_pcm_cfg_rate hw)
                  (out_pcm_cfg_period_size hw) (out_pcm_cfg_period_count hw)
                  PCM_FORMAT_S16_LE 0 0 0 in
  '(h, config') ← pcm_open (hw_card_number hw) (hw_device_number hw) PCM_OUT (Some config);
  let out := set_op_pcm (Live h) out in
  if negb (pcm_is_ready (default bad_pcm h)) then
    h ← close_pcm_ptr (op_pcm out);
    mret (- ENOMEM, set_op_pcm h out)
  else
    out ← out_pcm_fill_params out (default config config');
    mret (0, out).

Definition out_pcm_standby (out : stream_out_pcm) : M (world K) stream_out_pcm :=
  do_out_pcm_standby out.

(** The stream is started by the first write after a standby. *)
Definition out_pcm_write (cm : config_mgr) (out : stream_out_pcm) (buffer : list Z) (bytes : Z)
  : M (world K) (Z * stream_out_pcm) :=
  if get_current_routes cm (oc_hw (op_common out)) =? 0 then mret (0, out)
  else
    '(ret, out) ←
      (if oc_standby (op_common out) then
         '(ret, out) ← start_output_pcm cm out;
         mret (ret, if ret =? 0 then set_op_common (set_oc_standby false (op_common out)) out
                    else out)
       else mret (0, out));
    if negb (ret =? 0) then mret (ret, out)
    else
      p ← the_pcm (op_pcm out);
      '(ret, p) ← pcm_write p buffer bytes;
      mret (if 0 <=? ret then s32 bytes else ret, set_op_pcm (put_pcm p (op_pcm out)) out).

Definition out_pcm_get_render_position (out : stream_out_pcm) : Z := - EINVAL.

(** The object is freed. *)
Definition do_close_out_pcm (cm : config_mgr) (out : stream_out_pcm) : M (world K) config_mgr :=
  out ← out_pcm_standby out;
  do_close_out_common cm (op_common out).

Definition do_init_out_pcm (cm : config_mgr) (out : stream_out_pcm) (config : audio_config)
  : M (world K) (Z * stream_out_pcm) :=
  hw ← hw_at cm (oc_hw (op_common out));
  let c := op_common out in
  latency ← latency_ms (out_pcm_cfg_period_size hw) (out_pcm_cfg_period_count hw)
              (oc_sample_rate c);
  mret (0, set_op_common
             (set_oc_buffer (u32 (out_pcm_cfg_period_size hw * oc_frame_size c)) latency c) out).

(** ** Compressed output *)

(** The calls of another thread that a write or a drain of one thread may meet. *)
Inductive meanwhile_call := MeanwhilePause | MeanwhileResume | MeanwhileFlush.

(** A library call through the handle of the stream. *)
Definition on_compress {A} (out : stream_out_compress) (f : Z → M K A) : M (world K) A :=
  h ← deref 0 (ox_compress out); sys (f h).

Definition do_standby_compress_l (out : stream_out_compress)
  : M (world K) (Z * stream_out_compress) :=
  if negb (is_null (ox_compress out)) && negb (ox_paused out) then
    out ← (if ox_started out
           then _ ← on_compress out compress_stop; mret (set_ox_started false out)
           else mret out);
    _ ← on_compress out compress_close;
    mret (0, set_ox_compress Null out)
  else mret (0, out).

Definition out_compress_standby (out : stream_out_compress)
  : M (world K) (Z * stream_out_compress) := do_standby_compress_l out.

(** The library's static object is not ready; closing it does nothing. *)
Definition open_output_compress (cm : config_mgr) (out : stream_out_compress)
  : M (world K) (Z * stream_out_compress) :=
  if is_null (ox_compress out) then
    hw ← hw_at cm (oc_hw (ox_common out));
    cmpr ← sys (compress_open (hw_card_number hw) (hw_device_number hw) COMPRESS_IN
                  (ox_codec out) 0 0);
    match cmpr with
    | None => mret (- EBUSY, out)
    | Some (h, fragment_size, fragments) =>
      _ ← sys (compress_set_max_poll_wait h MAX_COMPRESS_POLL_WAIT_MS);
      _ ← sys (compress_nonblock h (oc_use_async (ox_common out)));
      let c := set_oc_buffer (u32 (fragment_size * fragments)) (oc_latency (ox_common out))
                 (ox_common out) in
      mret (0, set_ox_compress (Live h) (set_ox_common c out))
    end
  else mret (0, out).

Definition start_output_compress (out : stream_out_compress)
  : M (world K) (Z * stream_out_compress) :=
  ret ← on_compress out compress_start;
  if ret <? 0 then
    '(_, out) ← do_standby_compress_l out; mret (ret, out)
  else
    let out := set_ox_started true out in
    if ox_refresh_gapless_meta out then
      _ ← on_compress out (λ h, compress_set_gapless_metadata h (ox_g_data out));
      mret (ret, set_ox_gapless (0, 0) false out)
    else mret (ret, out).

Definition out_compress_pause (out : stream_out_compress)
  : M (world K) (Z * stream_out_compress) :=
  if negb (ox_paused out) && negb (is_null (ox_compress out)) then
    let out := set_ox_paused true out in
    ret ← on_compress out compress_pause;
    mret (ret, out)
  else mret (- EBADFD, out).

Definition out_compress_resume (out : stream_out_compress)
  : M (world K) (Z * stream_out_compress) :=
  if ox_paused out && negb (is_null (ox_compress out)) then
    let out := set_ox_paused false out in
    ret ← on_compress out compress_resume;
    mret (ret, out)
  else mret (- EBADFD, out).

Definition out_compress_flush (out : stream_out_compress)
  : M (world K) (Z * stream_out_compress) :=
  if negb (is_null (ox_compress out)) && ox_started out then
    _ ← on_compress out compress_stop;
    mret (0, set_ox_started false (set_ox_paused false out))
  else mret (0, out).

(** The calls another thread may make between the locks of a write or a drain
    that leave the device open: each takes the stream's lock. *)
Definition run_meanwhile (c : meanwhile_call) (out : stream_out_compress)
  : M (world K) (Z * stream_out_compress) :=
  match c with
  | MeanwhilePause => out_compress_pause out
  | MeanwhileResume => out_compress_resume out
  | MeanwhileFlush => out_compress_flush out
  end.

Fixpoint meanwhile (l : list meanwhile_call) (out : stream_out_compress)
  : M (world K) stream_out_compress :=
  match l with
  | [] => mret out
  | c :: l => '(_, out) ← run_meanwhile c out; meanwhile l out
  end.

(** [compress_write] and the test of [started] are outside the lock:
    [others k] is what other threads do to the stream before the call of
    [compress_write] (0), after it (1) and before the lock is taken again to
    start (2). *)
Definition out_compress_write (others : nat → stream_out_compress → M (world K) stream_out_compress)
  (cm : config_mgr) (out : stream_out_compress) (buffer : list Z) (bytes : Z)
  : M (world K) (Z * stream_out_compress) :=
  '(ret, out) ← open_output_compress cm out;
  if ret <? 0 then mret (ret, out)
  else
    out ← others 0%nat out;
    ret ← on_compress out (λ h, compress_write h buffer bytes);
    if 0 <=? ret then
      out ← others 1%nat out;
      '(started, out) ← (if negb (ox_started out)
                         then out ← others 2%nat out; start_output_compress out
                         else mret (0, out));
      if started <? 0 then mret (-1, out)
      else if oc_use_async (ox_common out) && (u32 ret <? bytes) then
        let '(_, c) := signal_async_thread (ox_common out) ASYNC_POLL in
        mret (ret, set_ox_common c out)
      else mret (ret, out)
    else mret (ret, out).

(** Nothing of a drain is under the lock: [others k] is what other threads do
    between its two calls (0) and before [started] is reset (1). *)
Definition out_compress_drain (others : nat → stream_out_compress → M (world K) stream_out_compress)
  (out : stream_out_compress) (type : audio_drain_type) : M (world K) (Z * stream_out_compress) :=
  if oc_use_async (ox_common out) then
    let '(ret, c) := signal_async_thread (ox_common out)
                       (match type with
                        | AUDIO_DRAIN_EARLY_NOTIFY => ASYNC_EARLY_DRAIN
                        | AUDIO_DRAIN_ALL => ASYNC_FULL_DRAIN
                        end) in
    mret (ret, set_ox_common c out)
  else
    match type with
    | AUDIO_DRAIN_EARLY_NOTIFY =>
      ret ← on_compress out compress_next_track;
      if negb (ret =? 0) then mret (ret, out)
      else
        out ← others 0%nat out;
        ret ← on_compress out compress_partial_drain;
        out ← others 1%nat out;
        mret (ret, set_ox_started false out)
    | AUDIO_DRAIN_ALL =>
      ret ← on_compress out compress_drain;
      out ← others 1%nat out;
      mret (ret, set_ox_started false out)
    end.

(** Return code and position, for a non-null result pointer. *)
Definition out_compress_get_render_position (out : stream_out_compress)
  : M (world K) (Z * Z) :=
  if negb (ox_started out) then mret (0, 0)
  else
    '(r, samples, _) ← on_compress out compress_get_tstamp;
    mret (0, if r =? 0 then samples else 0).

Definition out_compress_close (cm : config_mgr) (out : stream_out_compress)
  : M (world K) config_mgr :=
  let out := set_ox_paused false out in
  '(_, out) ← out_compress_standby out;
  do_close_out_common cm (ox_common out).

Definition out_compress_set_parameters (cm : config_mgr) (out : stream_out_compress)
  (kvpairs : string) : M (world K) (Z * stream_out_compress * config_mgr) :=
  let parms := str_parms_create_str kvpairs in
  delay ← str_parms_get_str parms AUDIO_OFFLOAD_CODEC_DELAY_SAMPLES;
  padding ← str_parms_get_str parms AUDIO_OFFLOAD_CODEC_PADDING_SAMPLES;
  let value o old := from_option (λ v, u32 (atoi (snprintf 32 v))) old o in
  let out := set_ox_gapless (value delay (ox_g_data out).1, value padding (ox_g_data out).2)
               (bool_decide (is_Some delay) || bool_decide (is_Some padding)
                || ox_refresh_gapless_meta out) out in
  '(_, cm) ← out_set_parameters cm (ox_common out) kvpairs;
  mret (0, out, cm).

(** The codec of a format: its id and level. *)
Definition codec_of_format (format : Z) : option (Z * Z) :=
  let f := Z.land format AUDIO_FORMAT_MAIN_MASK in
  if f =? AUDIO_FORMAT_MP3 then Some (SND_AUDIOCODEC_MP3, 0)
  else if f =? AUDIO_FORMAT_AAC then Some (SND_AUDIOCODEC_AAC, 0)
  else if f =? AUDIO_FORMAT_HE_AAC_V1 then Some (SND_AUDIOCODEC_AAC, SND_AUDIOMODE_AAC_HE)
  else if f =? AUDIO_FORMAT_HE_AAC_V2 then Some (SND_AUDIOCODEC_AAC, SND_AUDIOMODE_AAC_HE)
  else if f =? AUDIO_FORMAT_VORBIS then Some (SND_AUDIOCODEC_VORBIS, 0)
  else None.

Definition do_init_out_compress (cm : config_mgr) (out : stream_out_compress)
  (config : audio_config) : M (world K) (Z * stream_out_compress) :=
  match codec_of_format (ac_format config) with
  | None => mret (- EINVAL, out)
  | Some (id, level) =>
    let codec := SndCodec id 0 (popcount (ac_channel_mask config)) (ac_sample_rate config)
                   (Z.lor SND_RATECONTROLMODE_CONSTANTBITRATE
                      SND_RATECONTROLMODE_VARIABLEBITRATE) level 0 1 in
    open_output_compress cm (set_ox_codec codec out)
  end.

End out.
