(* ===== verification/HalIn.v ===== *)
(** * Input streams of the audio HAL (src/audio/audio_hw.c)

    PCM input, through a resampler when the rates differ, and PCM delivered
    over a compressed channel.  The functions take the audio device, whose
    configuration the streams use, and the stream object, and return what they
    change. *)

From S2P Require Import Prelude Kernel ConfigData CStrings PcmKernel Pcm Routing.
From S2P Require Import VoiceTrigger HalOut.
From Stdlib Require Import Ascii String.

#[global] Open Scope Z_scope.

(** ** The resampler library

    One [resample_from_provider] asks its provider for frames ([RsGet]: the
    buffer's bytes, or nothing when its address is null), gives frames back
    ([RsRelease]), any number of times, and ends with the samples it wrote and
    the number of frames. *)
Inductive resample_run (K : Type) :=
  | RsDone (res : M K (list Z * Z))
  | RsGet (frames : Z) (k : option (list Z) → resample_run K)
  | RsRelease (frames : Z) (k : resample_run K).
Arguments RsDone {K} _.
Arguments RsGet {K} _ _.
Arguments RsRelease {K} _ _.

(** [malloc_content n]: the bytes a fresh allocation happens to hold. *)
Class Resampler (K : Type) := {
  create_resampler : Z → Z → Z → M K (Z * option Z);
  release_resampler : Z → M K unit;
  resample_from_provider : Z → Z → M K (resample_run K);
  malloc_content : Z → M K (list Z)
}.

(** [struct in_resampler] *)
Record in_resampler := InResampler {
  rs_resampler : option Z;
  rs_buffer : ptr (list Z);
  rs_in_buffer_size : Z;
  rs_in_buffer_frames : Z;
  rs_frames_in : Z;
  rs_read_status : Z
}.

Definition in_resampler0 : in_resampler := InResampler None Null 0 0 0 0.

Definition set_rs_data (buffer : list Z) (frames_in : Z) (r : in_resampler) : in_resampler :=
  InResampler (rs_resampler r) (Live buffer) (rs_in_buffer_size r) (rs_in_buffer_frames r)
    frames_in (rs_read_status r).
Definition set_rs_frames_in (n : Z) (r : in_resampler) : in_resampler :=
  InResampler (rs_resampler r) (rs_buffer r) (rs_in_buffer_size r) (rs_in_buffer_frames r)
    n (rs_read_status r).
Definition set_rs_read_status (st : Z) (r : in_resampler) : in_resampler :=
  InResampler (rs_resampler r) (rs_buffer r) (rs_in_buffer_size r) (rs_in_buffer_frames r)
    (rs_frames_in r) st.

(** [struct stream_in_common] *)
Record stream_in_common := InCommon {
  ic_hw : option nat;
  ic_standby : bool;
  ic_devices : Z;
  ic_format : Z;
  ic_channel_mask : Z;
  ic_channel_count : Z;
  ic_sample_rate : Z;
  ic_frame_size : Z;
  ic_buffer_size : Z;
  ic_input_source : Z;
  ic_last_read_ns : Z
}.

Definition in_common0 : stream_in_common := InCommon None false 0 0 0 0 0 0 0 0 0.

Definition set_ic_hw (hw : option nat) (c : stream_in_common) : stream_in_common :=
  InCommon hw (ic_standby c) (ic_devices c) (ic_format c) (ic_channel_mask c)
    (ic_channel_count c) (ic_sample_rate c) (ic_frame_size c) (ic_buffer_size c)
    (ic_input_source c) (ic_last_read_ns c).
Definition set_ic_standby (b : bool) (c : stream_in_common) : stream_in_common :=
  InCommon (ic_hw c) b (ic_devices c) (ic_format c) (ic_channel_mask c)
    (ic_channel_count c) (ic_sample_rate c) (ic_frame_size c) (ic_buffer_size c)
    (ic_input_source c) (ic_last_read_ns c).
Definition set_ic_devices (d : Z) (c : stream_in_common) : stream_in_common :=
  InCommon (ic_hw c) (ic_standby c) d (ic_format c) (ic_channel_mask c)
    (ic_channel_count c) (ic_sample_rate c) (ic_frame_size c) (ic_buffer_size c)
    (ic_input_source c) (ic_last_read_ns c).
Definition set_ic_buffer_size (n : Z) (c : stream_in_common) : stream_in_common :=
  InCommon (ic_hw c) (ic_standby c) (ic_devices c) (ic_format c) (ic_channel_mask c)
    (ic_channel_count c) (ic_sample_rate c) (ic_frame_size c) n
    (ic_input_source c) (ic_last_read_ns c).
Definition set_ic_input_source (n : Z) (c : stream_in_common) : stream_in_common :=
  InCommon (ic_hw c) (ic_standby c) (ic_devices c) (ic_format c) (ic_channel_mask c)
    (ic_channel_count c) (ic_sample_rate c) (ic_frame_size c) (ic_buffer_size c)
    n (ic_last_read_ns c).
Definition set_ic_last_read_ns (n : Z) (c : stream_in_common) : stream_in_common :=
  InCommon (ic_hw c) (ic_standby c) (ic_devices c) (ic_format c) (ic_channel_mask c)
    (ic_channel_count c) (ic_sample_rate c) (ic_frame_size c) (ic_buffer_size c)
    (ic_input_source c) n.
Definition set_ic_frame_size (n : Z) (c : stream_in_common) : stream_in_common :=
  InCommon (ic_hw c) (ic_standby c) (ic_devices c) (ic_format c) (ic_channel_mask c)
    (ic_channel_count c) (ic_sample_rate c) n (ic_buffer_size c)
    (ic_input_source c) (ic_last_read_ns c).

(** The union of [pcm] and [compress]; a null pointer is null in both. *)
Inductive in_handle :=
  | HPcm (h : pcm_ptr)
  | HCompress (h : ptr Z).

(** [struct stream_in_pcm]; [ip_id] names the object. *)
Record stream_in_pcm := InPcm {
  ip_id : nat;
  ip_common : stream_in_common;
  ip_handle : in_handle;
  ip_hw_sample_rate : Z;
  ip_hw_channel_count : Z;
  ip_period_size : Z;
  ip_resampler : in_resampler
}.

Definition set_ip_common (c : stream_in_common) (i : stream_in_pcm) : stream_in_pcm :=
  InPcm (ip_id i) c (ip_handle i) (ip_hw_sample_rate i) (ip_hw_channel_count i)
    (ip_period_size i) (ip_resampler i).
Definition set_ip_handle (h : in_handle) (i : stream_in_pcm) : stream_in_pcm :=
  InPcm (ip_id i) (ip_common i) h (ip_hw_sample_rate i) (ip_hw_channel_count i)
    (ip_period_size i) (ip_resampler i).
Definition set_ip_hw (rate channels period : Z) (i : stream_in_pcm) : stream_in_pcm :=
  InPcm (ip_id i) (ip_common i) (ip_handle i) rate channels period (ip_resampler i).
Definition set_ip_resampler (r : in_resampler) (i : stream_in_pcm) : stream_in_pcm :=
  InPcm (ip_id i) (ip_common i) (ip_handle i) (ip_hw_sample_rate i) (ip_hw_channel_count i)
    (ip_period_size i) r.

(** New bytes over the front of a buffer. *)
Definition overlay (got old : list Z) : list Z :=
  take (List.length old) (got ++ drop (List.length got) old).

(** The frames of 16 bits [buffer[i] = buffer[2 * i]] for [i] from [i] on. *)
Fixpoint drop_right (todo : nat) (i : nat) (b : list Z) : list Z :=
  match todo with
  | O => b
  | S todo =>
    drop_right todo (S i)
      (wr8 (wr8 b (2 * i) (rd8 b (4 * i))) (2 * i + 1) (rd8 b (4 * i + 1)))
  end.

Section input.
  Context {K : Type}.
  Context `{!AlsaCtl K, !AlsaPcm K, !TinyCompress K, !Clock K, !Resampler K}.
  Context `{!AudioH, !HalPlatform}.
  (** Bounds the retries of [pcm_read] and the turns of the resampling loop. *)
  Context (fuel : nat).

(** The union read as one of its members. *)
Definition as_pcm (h : in_handle) : M (world K) pcm_ptr :=
  match h with
  | HPcm h => mret h
  | HCompress Null => mret Null
  | HCompress _ => _ ← raise BadUnion; mret Null
  end.

Definition as_compress (h : in_handle) : M (world K) (ptr Z) :=
  match h with
  | HCompress h => mret h
  | HPcm Null => mret Null
  | HPcm _ => _ ← raise BadUnion; mret Null
  end.

Definition on_in_compress {A} (i : stream_in_pcm) (f : Z → M K A) : M (world K) A :=
  p ← as_compress (ip_handle i); h ← deref 0 p; sys (f h).

(** ** Common functions *)

Definition in_get_sample_rate (cm : config_mgr) (c : stream_in_common) : M (world K) Z :=
  if negb (ic_sample_rate c =? 0) then mret (ic_sample_rate c)
  else match ic_hw c with
       | Some i => hw ← hw_at cm i; mret (hw_rate hw)
       | None => _ ← raise NullDeref; mret 0
       end.

Definition in_set_sample_rate (c : stream_in_common) (rate : Z) : Z :=
  if rate =? ic_sample_rate c then 0 else - ENOTSUP.

Definition in_get_channels (c : stream_in_common) : Z :=
  if negb (ic_channel_mask c =? 0) then ic_channel_mask c else AUDIO_CHANNEL_IN_MONO.

Definition in_get_format (c : stream_in_common) : Z := ic_format c.
Definition in_set_format (c : stream_in_common) (format : Z) : Z := - ENOSYS.
Definition in_get_buffer_size (c : stream_in_common) : Z := ic_buffer_size c.

Definition do_in_set_read_timestamp (c : stream_in_common) : M (world K) stream_in_common :=
  ns ← sys systemTime;
  mret (set_ic_last_read_ns (if ns =? 0 then 1 else ns) c).

(** Delays for the time [bytes] bytes take since the last read. *)
Definition do_in_realtime_delay (c : stream_in_common) (bytes : Z) : M (world K) unit :=
  if ic_last_read_ns c =? 0 then mret tt
  else
    let rate := u32 (ic_frame_size c * ic_sample_rate c) in
    _ ← check (negb (rate =? 0)) DivByZero;
    let required_interval := u32 (1907 * bytes) / rate in
    let required_ns := Z.shiftl required_interval 19 in
    now ← sys systemTime;
    let elapsed_ns := now - ic_last_read_ns c in
    if Z.shiftr elapsed_ns 19 <? required_interval then
      sys (nanosleep (s32 (required_ns - elapsed_ns)))
    else mret tt.

Definition do_init_in_common (c : stream_in_common) (config : audio_config) (devices : Z)
  : Z * stream_in_common :=
  let c := InCommon (ic_hw c) true devices (ac_format config) (ac_channel_mask config)
             (popcount (ac_channel_mask config)) (ac_sample_rate config) (ic_frame_size c)
             (ic_buffer_size c) (ic_input_source c) (ic_last_read_ns c) in
  (0, set_ic_frame_size (audio_stream_in_frame_size (in_get_format c) (in_get_channels c)) c).

(** ** The resampler's buffer provider *)

(** Reads a buffer from the device; keeps one channel of two for a mono client. *)
Definition fill_buffer (i : stream_in_pcm) (p : pcm) : M (world K) stream_in_pcm :=
  let rsp := ip_resampler i in
  old ← deref [] (rs_buffer rsp);
  '(st, got, p) ← pcm_read fuel p [] (rs_in_buffer_size rsp);
  h ← as_pcm (ip_handle i);
  let i := set_ip_handle (HPcm (put_pcm p h)) i in
  let buffer := overlay got old in
  let rsp := set_rs_read_status st rsp in
  if negb (st =? 0) then
    mret (set_ip_resampler (set_rs_data buffer (rs_frames_in rsp) rsp) i)
  else
    let frames := u32 (rs_in_buffer_frames rsp) in
    if (ic_channel_count (ip_common i) =? 1) && (ip_hw_channel_count i =? 2) then
      _ ← check (4 * frames - 2 <=? Z.of_nat (List.length buffer)) OutOfBounds;
      mret (set_ip_resampler
              (set_rs_data (drop_right (Z.to_nat (frames - 1)) 1 buffer) frames rsp) i)
    else mret (set_ip_resampler (set_rs_data buffer frames rsp) i).

(** The frames handed to a client of 16-bit samples: their bytes. *)
Definition handed (i : stream_in_pcm) (frames : Z) : M (world K) (list Z) :=
  let rsp := ip_resampler i in
  buffer ← deref [] (rs_buffer rsp);
  let off := 2 * s32 (rs_in_buffer_frames rsp - rs_frames_in rsp) in
  let len := 2 * ic_channel_count (ip_common i) * frames in
  _ ← check ((0 <=? off) && (off + len <=? Z.of_nat (List.length buffer))) OutOfBounds;
  mret (take (Z.to_nat len) (drop (Z.to_nat off) buffer)).

(** Return code, what the resampler finds at the buffer's address ([None]: the
    address is null) and the frame count. *)
Definition get_next_buffer (i : stream_in_pcm) (frame_count : Z)
  : M (world K) (Z * option (list Z) * Z * stream_in_pcm) :=
  h ← as_pcm (ip_handle i);
  if is_null h then
    mret (- ENODEV, None, 0,
          set_ip_resampler (set_rs_read_status (- ENODEV) (ip_resampler i)) i)
  else
    '(failed, i) ←
      (if rs_frames_in (ip_resampler i) =? 0 then
         p ← the_pcm h;
         i ← fill_buffer i p;
         mret (negb (rs_read_status (ip_resampler i) =? 0), i)
       else mret (false, i));
    if (failed : bool) then mret (rs_read_status (ip_resampler i), None, 0, i)
    else
      let rsp := ip_resampler i in
      let n := if rs_frames_in rsp <? frame_count then rs_frames_in rsp else frame_count in
      data ← handed i n;
      mret (rs_read_status rsp, Some data, n, i).

Definition release_buffer (i : stream_in_pcm) (frame_count : Z) : stream_in_pcm :=
  set_ip_resampler
    (set_rs_frames_in (u32 (rs_frames_in (ip_resampler i) - frame_count)) (ip_resampler i)) i.

(** One run of the resampler over its provider. *)
Fixpoint run_resampler (r : resample_run K) (i : stream_in_pcm)
  : M (world K) (list Z * Z * stream_in_pcm) :=
  match r with
  | RsDone res => '(out, n) ← sys res; mret (out, n, i)
  | RsGet n k => '(_, data, _, i) ← get_next_buffer i n; run_resampler (k data) i
  | RsRelease n k => run_resampler k (release_buffer i n)
  end.

Fixpoint resample_loop (turns : nat) (i : stream_in_pcm) (buffer : list Z)
  (frames_wr frames : Z) : M (world K) (Z * list Z * stream_in_pcm) :=
  if frames_wr <? frames then
    match turns with
    | O => _ ← raise Hang; mret (0, buffer, i)
    | S turns =>
      let rsp := ip_resampler i in
      match rs_resampler rsp with
      | None => _ ← raise NullDeref; mret (0, buffer, i)
      | Some r =>
        run ← sys (resample_from_provider r (u32 (frames - frames_wr)));
        '(out, frames_rd, i) ← run_resampler run i;
        let off := frames_wr * ic_frame_size (ip_common i) in
        _ ← check (off + Z.of_nat (List.length out) <=? Z.of_nat (List.length buffer)) OutOfBounds;
        let buffer := splice buffer (Z.to_nat off) out in
        if negb (rs_read_status (ip_resampler i) =? 0)
        then mret (rs_read_status (ip_resampler i), buffer, i)
        else resample_loop turns i buffer (s32 (frames_wr + frames_rd)) frames
      end
    end
  else mret (frames_wr, buffer, i).

Definition read_resampled_frames (i : stream_in_pcm) (buffer : list Z) (frames : Z)
  : M (world K) (Z * list Z * stream_in_pcm) := resample_loop fuel i buffer 0 frames.

(** [frames_in] keeps the value it has. *)
Definition in_resampler_init (i : stream_in_pcm) (hw_rate channels hw_fragment : Z)
  : M (world K) (Z * stream_in_pcm) :=
  let c := ip_common i in
  let frame := u32 (channels * ic_frame_size c) in
  let size := u32 (hw_fragment * frame) in
  _ ← check (negb (frame =? 0)) DivByZero;
  let rsp := ip_resampler i in
  let rsp' r b := InResampler r b size (s32 (size / frame)) (rs_frames_in rsp)
                    (rs_read_status rsp) in
  ok ← alloc;
  if negb ok then
    mret (- ENOMEM, set_ip_resampler (rsp' (rs_resampler rsp) Null) i)
  else
    content ← sys (malloc_content size);
    '(ret, r) ← sys (create_resampler hw_rate (ic_sample_rate c) (ic_channel_count c));
    if ret <? 0 then mret (ret, set_ip_resampler (rsp' r Null) i)
    else mret (ret, set_ip_resampler (rsp' r (Live content)) i).

Definition in_resampler_free (i : stream_in_pcm) : M (world K) stream_in_pcm :=
  let rsp := ip_resampler i in
  _ ← (match rs_resampler rsp with Some r => sys (release_resampler r) | None => mret tt end);
  mret (set_ip_resampler
          (InResampler None Null (rs_in_buffer_size rsp) (rs_in_buffer_frames rsp)
             (rs_frames_in rsp) (rs_read_status rsp)) i).

(** ** PCM over a compressed channel *)

Definition do_open_compress_pcm_in (cm : config_mgr) (i : stream_in_pcm)
  : M (world K) (Z * stream_in_pcm) :=
  match ic_hw (ip_common i) with
  | None => mret (- EINVAL, i)
  | Some s =>
    hw ← hw_at cm s;
    let codec := SndCodec SND_AUDIOCODEC_PCM (ic_channel_count (ip_common i)) 0
                   (ic_sample_rate (ip_common i)) 0 0 SNDRV_PCM_FORMAT_S16_LE 0 in
    compress ← sys (compress_open (hw_card_number hw) (hw_device_number hw) COMPRESS_OUT
                      codec 4096 1);
    match compress with
    | None => ret ← sys sys_errno; mret (ret, i)
    | Some (h, fragment_size, fragments) =>
      let size := u32 (fragment_size * fragments * ic_frame_size (ip_common i)) in
      let i := set_ip_common (set_ic_buffer_size size (ip_common i))
                 (set_ip_handle (HCompress (Live h)) i) in
      _ ← sys (compress_start h);
      mret (0, i)
    end
  end.

Definition start_compress_pcm_input_stream (cm : config_mgr) (i : stream_in_pcm)
  : M (world K) (Z * stream_in_pcm) :=
  if ic_standby (ip_common i) then
    '(ret, i) ← do_open_compress_pcm_in cm i;
    if ret <? 0 then mret (ret, i)
    else
      let c := ip_common i in
      let rate := u32 (ic_frame_size c * ic_sample_rate c) in
      _ ← check (negb (rate =? 0)) DivByZero;
      let ms := s32 (1000 * ic_buffer_size c / rate) in
      _ ← on_in_compress i (λ h, compress_set_max_poll_wait h (s32 (ms * 2)));
      mret (0, set_ip_common (set_ic_standby false c) i)
  else mret (0, i).

Definition do_in_compress_pcm_standby (i : stream_in_pcm) : M (world K) stream_in_pcm :=
  i ← (if negb (ic_standby (ip_common i)) then
         _ ← on_in_compress i compress_stop;
         _ ← on_in_compress i compress_close;
         mret (set_ip_handle (HCompress Null) i)
       else mret i);
  mret (set_ip_common (set_ic_standby true (ip_common i)) i).

(** Return code, the buffer and the stream. *)
Definition do_in_compress_pcm_read (cm : config_mgr) (i : stream_in_pcm) (buffer : list Z)
  (bytes : Z) : M (world K) (Z * list Z * stream_in_pcm) :=
  '(ret, i) ← start_compress_pcm_input_stream cm i;
  if ret <? 0 then mret (ret, buffer, i)
  else
    '(ret, got) ← on_in_compress i (λ h, compress_read h bytes);
    _ ← (if 0 <? ret then do_in_realtime_delay (ip_common i) (bytes / 4) else mret tt);
    mret (ret, overlay got buffer, i).

(** The closed handle stays in the stream. *)
Definition do_in_compress_pcm_close (i : stream_in_pcm) : M (world K) stream_in_pcm :=
  p ← as_compress (ip_handle i);
  if negb (is_null p) then
    _ ← on_in_compress i compress_stop;
    _ ← on_in_compress i compress_close;
    mret (set_ip_handle (HCompress Freed) i)
  else mret i.

(** ** PCM input *)

Definition in_pcm_cfg_period_count (hw : hw_stream) : Z :=
  if negb (hw_period_count hw =? 0) then hw_period_count hw else IN_PERIOD_COUNT_DEFAULT.

Definition in_pcm_cfg_period_size (hw : hw_stream) : Z :=
  if negb (hw_period_size hw =? 0) then hw_period_size hw else IN_PERIOD_SIZE_DEFAULT.

Definition in_pcm_cfg_rate (hw : hw_stream) : Z := hw_rate hw.

Definition in_pcm_cfg_channel_count (i : stream_in_pcm) : Z :=
  if negb (ic_channel_count (ip_common i) =? 0) then ic_channel_count (ip_common i)
  else IN_CHANNEL_COUNT_DEFAULT.

Definition do_in_pcm_standby (i : stream_in_pcm) : M (world K) stream_in_pcm :=
  i ← (if negb (ic_standby (ip_common i)) then
         h ← as_pcm (ip_handle i);
         _ ← close_pcm_ptr h;
         mret (set_ip_handle (HPcm Null) i)
       else mret i);
  i ← in_resampler_free i;
  mret (set_ip_common (set_ic_standby true (ip_common i)) i).

(** The period at the client's rate, rounded up to 16 frames. *)
Definition client_frames (period_size sample_rate rate : Z) : Z :=
  u32 (u32 (u32 (period_size * sample_rate) / rate + 15) / 16 * 16).

Definition in_pcm_fill_params (i : stream_in_pcm) (config : pcm_config)
  : M (world K) stream_in_pcm :=
  let c := ip_common i in
  _ ← check (negb (pc_rate config =? 0)) DivByZero;
  let size := client_frames (pc_period_size config) (ic_sample_rate c) (pc_rate config) in
  mret (set_ip_common (set_ic_buffer_size (u32 (size * ic_frame_size c)) c)
          (set_ip_hw (pc_rate config) (s32 (pc_channels config)) (pc_period_size config) i)).

Definition do_open_pcm_input (cm : config_mgr) (i : stream_in_pcm)
  : M (world K) (Z * stream_in_pcm) :=
  match ic_hw (ip_common i) with
  | None => mret (- EINVAL, i)
  | Some s =>
    hw ← hw_at cm s;
    let config := PcmConfig (in_pcm_cfg_channel_count i) (in_pcm_cfg_rate hw)
                    (in_pcm_cfg_period_size hw) (in_pcm_cfg_period_count hw)
                    PCM_FORMAT_S16_LE 0 0 0 in
    '(h, config') ← pcm_open (hw_card_number hw) (hw_device_number hw) PCM_IN (Some config);
    let config := default config config' in
    let i := set_ip_handle (HPcm (Live h)) i in
    let fail ret i :=
      _ ← close_pcm_ptr (Live h); mret (ret, set_ip_handle (HPcm Null) i) in
    if negb (pcm_is_ready (default bad_pcm h)) then fail (- ENOMEM) i
    else
      i ← in_pcm_fill_params i config;
      rate ← in_get_sample_rate cm (ip_common i);
      if negb (rate =? pc_rate config) then
        '(ret, i) ← in_resampler_init i (pc_rate config) (pc_channels config)
                      (pcm_frames_to_bytes (default bad_pcm h) (pc_period_size config));
        if ret <? 0 then fail ret i else mret (0, i)
      else mret (0, i)
  end.

Definition start_pcm_input_stream (cm : config_mgr) (i : stream_in_pcm)
  : M (world K) (Z * stream_in_pcm) :=
  if ic_standby (ip_common i) then
    '(ret, i) ← do_open_pcm_input cm i;
    mret (ret, if ret =? 0 then set_ip_common (set_ic_standby false (ip_common i)) i else i)
  else mret (0, i).

Definition do_in_pcm_read (cm : config_mgr) (i : stream_in_pcm) (buffer : list Z) (bytes : Z)
  : M (world K) (Z * list Z * stream_in_pcm) :=
  _ ← check (negb (ic_frame_size (ip_common i) =? 0)) DivByZero;
  let frames_rq := bytes / ic_frame_size (ip_common i) in
  '(ret, i) ← start_pcm_input_stream cm i;
  if ret <? 0 then mret (ret, buffer, i)
  else
    '(ret, buffer, i) ←
      (match rs_resampler (ip_resampler i) with
       | Some _ => read_resampled_frames i buffer (s32 frames_rq)
       | None =>
         h ← as_pcm (ip_handle i);
         p ← the_pcm h;
         '(ret, got, p) ← pcm_read fuel p [] bytes;
         mret (ret, overlay got buffer, set_ip_handle (HPcm (put_pcm p h)) i)
       end);
    mret (if 0 <=? ret then s32 bytes else ret, buffer, i).

Definition in_pcm_standby (cm : config_mgr) (i : stream_in_pcm) : M (world K) stream_in_pcm :=
  match ic_hw (ip_common i) with
  | None => mret i
  | Some s =>
    hw ← hw_at cm s;
    if stream_is_compressed_in hw then do_in_compress_pcm_standby i else do_in_pcm_standby i
  end.

(** A read that fails, finds no data or is muted gives silence. *)
Definition in_pcm_read (a : audio_device) (i : stream_in_pcm) (buffer : list Z) (bytes : Z)
  : M (world K) (Z * list Z * stream_in_pcm) :=
  '(ret, buffer, i) ←
    (match ic_hw (ip_common i) with
     | None => mret (- EINVAL, buffer, i)
     | Some s =>
       if get_current_routes (ad_cm a) s =? 0 then mret (- EINVAL, buffer, i)
       else
         hw ← hw_at (ad_cm a) s;
         if stream_is_compressed_in hw
         then do_in_compress_pcm_read (ad_cm a) i buffer bytes
         else do_in_pcm_read (ad_cm a) i buffer bytes
     end);
  '(ret, buffer) ←
    (if (ret <=? 0) || ad_mic_mute a then
       _ ← (if ret <=? 0 then do_in_realtime_delay (ip_common i) bytes else mret tt);
       mret (s32 bytes, replicate (Z.to_nat bytes) 0 ++ drop (Z.to_nat bytes) buffer)
     else mret (ret, buffer));
  c ← do_in_set_read_timestamp (ip_common i);
  mret (ret, buffer, set_ip_common c i).

(** ** The input source *)

(** A stream of the configuration for the source. *)
Definition source_stream (a : audio_device) (i : stream_in_pcm) (new_source devices : Z)
  : M (world K) (option nat * config_mgr) :=
  '(hw, cm) ←
    (if new_source =? AUDIO_SOURCE_VOICE_RECOGNITION then
       match voice_trigger_audio_stream_name a with
       | Some name => get_named_stream (ad_cm a) name
       | None => mret (None, ad_cm a)
       end
     else mret (None, ad_cm a));
  match hw with
  | Some s => mret (Some s, cm)
  | None => get_stream cm devices (ic_format (ip_common i))
  end.

(** Return code, [*was_changed], the stream and the device. *)
Definition change_input_source_locked (a : audio_device) (i : stream_in_pcm) (value : string)
  (devices : Z) : M (world K) (Z * bool * stream_in_pcm * audio_device) :=
  let new_source := atoi value in
  if negb (ic_standby (ip_common i)) then mret (- EINVAL, false, i, a)
  else if ic_input_source (ip_common i) =? new_source then mret (0, false, i, a)
  else
    '(hw, cm) ← source_stream a i new_source devices;
    let a := set_ad_cm cm a in
    match hw with
    | None => mret (- EINVAL, false, i, a)
    | Some s =>
      cm ← (match ic_hw (ip_common i) with
            | Some old => release_stream (ad_cm a) (Some old)
            | None => mret (ad_cm a)
            end);
      let a := set_ad_cm cm a in
      let i := set_ip_common (set_ic_hw (Some s) (ip_common i)) i in
      a ← (if new_source =? AUDIO_SOURCE_VOICE_RECOGNITION then
             mret (voice_trigger_audio_started_locked
                     (set_active_voice_control (Some (ip_id i)) a))
           else if bool_decide (ad_active_voice_control a = Some (ip_id i)) then
             voice_trigger_audio_ended_locked (set_active_voice_control None a)
           else mret a);
      mret (0, true, set_ip_common (set_ic_input_source new_source (ip_common i)) i, a)
    end.

Definition in_pcm_set_parameters (a : audio_device) (i : stream_in_pcm) (kvpairs : string)
  : M (world K) (Z * stream_in_pcm * audio_device) :=
  routing ← common_get_routing_param kvpairs;
  source ← str_parms_get_str (str_parms_create_str kvpairs) AUDIO_PARAMETER_STREAM_INPUT_SOURCE;
  '(ret, routing, i, a) ←
    (match source with
     | None => mret (0, routing, i, a)
     | Some value =>
       let devices := match routing, ic_hw (ip_common i) with
                      | Some d, _ => d
                      | None, Some s => get_routed_devices (ad_cm a) s
                      | None, None => 0
                      end in
       '(ret, _, i, a) ← change_input_source_locked a i (snprintf 32 value) devices;
       mret (ret, Some devices, i, a)
     end);
  if ret <? 0 then mret (0, i, a)
  else
    '(i, a) ←
      (match routing with
       | None => mret (i, a)
       | Some d =>
         let i := set_ip_common (set_ic_devices d (ip_common i)) i in
         match ic_hw (ip_common i) with
         | Some s => cm ← apply_route (ad_cm a) s d; mret (i, set_ad_cm cm a)
         | None => mret (i, a)
         end
       end);
    '(_, cm) ← stream_invoke_usecases (ad_cm a) (ic_hw (ip_common i)) kvpairs;
    mret (0, i, set_ad_cm cm a).

(** The object is freed. *)
Definition do_close_in_common (a : audio_device) (i : stream_in_pcm)
  : M (world K) audio_device :=
  i ← in_pcm_standby (ad_cm a) i;
  a ← (if bool_decide (ad_active_voice_control a = Some (ip_id i)) then
         voice_trigger_audio_ended_locked (set_active_voice_control None a)
       else mret a);
  match ic_hw (ip_common i) with
  | Some s => cm ← release_stream (ad_cm a) (Some s); mret (set_ad_cm cm a)
  | None => mret a
  end.

Definition do_close_in_pcm (a : audio_device) (i : stream_in_pcm)
  : M (world K) audio_device :=
  i ← (match ic_hw (ip_common i) with
       | None => mret i
       | Some s =>
         hw ← hw_at (ad_cm a) s;
         if stream_is_compressed hw then do_in_compress_pcm_close i else mret i
       end);
  do_close_in_common a i.

Definition do_init_in_pcm (i : stream_in_pcm) : Z * stream_in_pcm :=
  (0, set_ip_common (set_ic_buffer_size IN_COMPRESS_BUFFER_SIZE_DEFAULT (ip_common i)) i).

End input.
