(* ===== verification/HalDev.v ===== *)
(** * The audio device (src/audio/audio_hw.c)

    Opening the device, opening and closing its streams, and its parameters. *)

From S2P Require Import Prelude Kernel ConfigData Expat CStrings PcmKernel Pcm Routing.
From S2P Require Import ParseState Parser VoiceTrigger HalOut HalIn.
From Stdlib Require Import Ascii String.

#[global] Open Scope Z_scope.

(** The stream objects behind [struct audio_stream_out]. The constructor says
    whose functions have been installed in the object: those of
    [do_init_out_pcm], which cast it to [struct stream_out_pcm], or those of
    [do_init_out_compress], which cast it to [struct stream_out_compress]. *)
Inductive out_stream :=
  | StreamOutPcm (out : stream_out_pcm)
  | StreamOutCompress (out : stream_out_compress).

Definition out_common (o : out_stream) : stream_out_common :=
  match o with
  | StreamOutPcm out => op_common out
  | StreamOutCompress out => ox_common out
  end.

(** The sizes an object is allocated with. *)
Inductive out_size := SizeofPcm | SizeofCompress.

(** [struct stream_out_compress] is the longer of the two: its own fields
    include a [struct snd_codec]. *)
Definition holds_compress (size : out_size) : bool :=
  match size with SizeofPcm => false | SizeofCompress => true end.

Definition sizeof_out (type : stream_type) : out_size :=
  if bool_decide (type = e_stream_out_pcm) then SizeofPcm else SizeofCompress.

(** Zeroed stream objects. *)
Definition out_pcm0 (c : stream_out_common) : stream_out_pcm := OutPcm c Null 0 0.
Definition out_compress0 (c : stream_out_common) : stream_out_compress :=
  OutCompress c Null snd_codec0 false false (0, 0) false.
Definition in_pcm0 (id : nat) : stream_in_pcm :=
  InPcm id in_common0 (HPcm Null) 0 0 0 in_resampler0.

Definition AUDIO_HARDWARE_INTERFACE : string := "audio_hw_if".

Section device.
  Context {K : Type}.
  Context `{!AlsaCtl K, !AlsaPcm K, !TinyCompress K, !Clock K, !Resampler K}.
  Context `{!AudioH, !HalPlatform}.

(** ** Streams *)

(** The object of an output stream on stream [s] of the configuration: return
    code, the object if there is one, and the device. The object is allocated
    with the size of the one kind and initialised as the one kind, each decided
    by the type of the stream: initialising it as a compressed stream where it
    has the size of a PCM stream writes beyond it. *)
Definition new_output_stream (a : audio_device) (s : nat) (devices : Z) (config : audio_config)
  : M (world K) (Z * option out_stream * audio_device) :=
  info ← hw_at (ad_cm a) s;
  let size := sizeof_out (hw_type info) in
  ok ← alloc;
  if negb ok then mret (- ENOMEM, None, a)
  else
    '(ret, common, cm) ← do_init_out_common (ad_cm a) (out_common0 s) config devices;
    let a := set_ad_cm cm a in
    if ret <? 0 then mret (ret, None, a)
    else
      '(ret, out) ←
        (if bool_decide (hw_type info = e_stream_out_pcm)
         then
           '(ret, out) ← do_init_out_pcm cm (out_pcm0 common) config;
           mret (ret, StreamOutPcm out)
         else
           _ ← check (holds_compress size) OutOfBounds;
           '(ret, out) ← do_init_out_compress cm (out_compress0 common) config;
           mret (ret, StreamOutCompress out));
      mret (ret, if ret <? 0 then None else Some out, a).

Definition adev_open_output_stream (a : audio_device) (devices : Z) (config : audio_config)
  : M (world K) (Z * option out_stream * audio_device) :=
  let devices := Z.land devices AUDIO_DEVICE_OUT_ALL in
  '(hw, cm) ← get_stream (ad_cm a) devices (ac_format config);
  let a := set_ad_cm cm a in
  match hw with
  | None => mret (- EINVAL, None, a)
  | Some s => new_output_stream a s devices config
  end.

(** Calls the stream's [close]. *)
Definition adev_close_output_stream (a : audio_device) (out : out_stream)
  : M (world K) audio_device :=
  cm ← (match out with
        | StreamOutPcm out => do_close_out_pcm (ad_cm a) out
        | StreamOutCompress out => out_compress_close (ad_cm a) out
        end);
  mret (set_ad_cm cm a).

(** [id] names the new object. *)
Definition adev_open_input_stream (id : nat) (devices : Z) (config : audio_config)
  : M (world K) (Z * option stream_in_pcm) :=
  ok ← alloc;
  if negb ok then mret (- ENOMEM, None)
  else
    let i := in_pcm0 id in
    let '(_, c) := do_init_in_common (ip_common i) config
                     (Z.land devices AUDIO_DEVICE_IN_ALL) in
    let '(ret, i) := do_init_in_pcm (set_ip_common c i) in
    mret (ret, Some i).

Definition adev_close_input_stream (a : audio_device) (i : stream_in_pcm)
  : M (world K) audio_device := do_close_in_pcm a i.

(** ** Parameters *)

Definition adev_set_parameters (a : audio_device) (kvpairs : string)
  : M (world K) (Z * audio_device) :=
  a ← (match str_parms_create_str kvpairs with
       | Some parms => voice_trigger_set_params parms a
       | None => mret a
       end);
  match ad_global_stream a with
  | None => mret (0, a)
  | Some s =>
    '(_, cm) ← stream_invoke_usecases (ad_cm a) (Some s) kvpairs;
    mret (0, set_ad_cm cm a)
  end.

Definition adev_init_check (a : audio_device) : Z := 0.
Definition adev_set_voice_volume (a : audio_device) : Z := - ENOSYS.
Definition adev_set_master_volume (a : audio_device) : Z := - ENOSYS.
Definition adev_set_mode (a : audio_device) : Z := 0.
Definition adev_set_mic_mute (a : audio_device) (state : bool) : Z * audio_device :=
  (0, set_mic_mute state a).
Definition adev_get_mic_mute (a : audio_device) : Z * bool := (0, ad_mic_mute a).

Definition adev_get_input_buffer_size (config : audio_config) : Z :=
  let s := u32 (u32 (IN_PERIOD_SIZE_DEFAULT * audio_bytes_per_sample (ac_format config))
                * popcount (ac_channel_mask config)) in
  if IN_COMPRESS_BUFFER_SIZE_DEFAULT <? s then IN_COMPRESS_BUFFER_SIZE_DEFAULT else s.

(** ** Opening the device *)

(** The rest of [adev_open], once the configuration has been read. *)
Definition adev_init (cm : config_mgr) : M (world K) audio_device :=
  '(s, cm) ← get_named_stream cm "global"%string;
  mret (voice_trigger_init (AudioDevice false cm None eVoiceNone 0 s None)).

Section adev_open.
  Context {P : Type} `{!Expat P, !Platform}.
  Context (indeterminate : Z) (probe_attempts redirections : nat).

Definition adev_open (name : string) : M (world K) (Z * option audio_device) :=
  if negb (bool_decide (name = AUDIO_HARDWARE_INTERFACE)) then mret (- EINVAL, None)
  else
    ok ← alloc;
    if negb ok then mret (- ENOMEM, None)
    else
      cm ← init_audio_config (P:=P) indeterminate probe_attempts redirections;
      match cm with
      | None => mret (- EINVAL, None)
      | Some cm =>
        a ← adev_init cm; mret (0, Some a)
      end.

End adev_open.

End device.
