(* ===== verification/SoftHal.v ===== *)
(** * The surroundings of the HAL in software

    A sound card, a PCM device, a compressed device, a clock and a resampler
    that passes frames on, in one kernel state; the platform's constants are
    Android's.  The witnesses of the HAL's properties run on it. *)

From S2P Require Import Prelude Kernel SoftCard Mixer MixerFacts ConfigData CStrings PcmKernel.
From S2P Require Import Pcm SoftPcm ConfigData Routing RouteInv RoutingFacts ParserSound.
From S2P Require Import VoiceTrigger HalOut HalIn.
From Stdlib Require Import Ascii String.

#[global] Open Scope Z_scope.

(** [sh_ready]: compressed streams can be opened; [sh_stops] and [sh_closes]
    count their stops and closes, [sh_captured] is what they capture. *)
Record soft_hal := SoftHal {
  sh_card : soft_card;
  sh_pcm : soft_pcm;
  sh_ready : bool;
  sh_written : list Z;
  sh_captured : list Z;
  sh_stops : Z;
  sh_closes : Z;
  sh_clock : Z;
  sh_slept : list Z
}.

Definition with_compress (written : list Z) (stops closes : Z) (k : soft_hal) : soft_hal :=
  SoftHal (sh_card k) (sh_pcm k) (sh_ready k) written (sh_captured k) stops closes
    (sh_clock k) (sh_slept k).
Definition with_clock (clock : Z) (slept : list Z) (k : soft_hal) : soft_hal :=
  SoftHal (sh_card k) (sh_pcm k) (sh_ready k) (sh_written k) (sh_captured k) (sh_stops k)
    (sh_closes k) clock slept.

Definition on_card {A} (m : M soft_card A) : M soft_hal A := λ k,
  let '(a, c) := m (sh_card k) in
  (a, SoftHal c (sh_pcm k) (sh_ready k) (sh_written k) (sh_captured k) (sh_stops k)
        (sh_closes k) (sh_clock k) (sh_slept k)).
Definition on_pcm {A} (m : M soft_pcm A) : M soft_hal A := λ k,
  let '(a, p) := m (sh_pcm k) in
  (a, SoftHal (sh_card k) p (sh_ready k) (sh_written k) (sh_captured k) (sh_stops k)
        (sh_closes k) (sh_clock k) (sh_slept k)).

Lemma on_card_run {A} (m : M soft_card A) k : (on_card m k).1 = (m (sh_card k)).1.
Proof. unfold on_card. by destruct (m (sh_card k)). Qed.
Lemma on_pcm_run {A} (m : M soft_pcm A) k : (on_pcm m k).1 = (m (sh_pcm k)).1.
Proof. unfold on_pcm. by destruct (m (sh_pcm k)). Qed.

#[export] Instance hal_ctl : AlsaCtl soft_hal := {
  sys_open_ctl card := on_card (sys_open_ctl card);
  sys_close_ctl fd := on_card (sys_close_ctl fd);
  ioctl_card_info fd := on_card (ioctl_card_info fd);
  ioctl_elem_list fd offset space := on_card (ioctl_elem_list fd offset space);
  ioctl_elem_info fd numid item := on_card (ioctl_elem_info fd numid item);
  ioctl_elem_read fd ev := on_card (ioctl_elem_read fd ev);
  ioctl_elem_write fd ev := on_card (ioctl_elem_write fd ev)
}.

#[export] Instance hal_ctl_laws : AlsaCtlLaws soft_hal.
Proof.
  split; intros; cbn -[soft_alsa_ctl]; rewrite on_card_run.
  - apply elem_list_count.
  - by apply elem_read_shape.
Qed.

#[export] Instance hal_card_laws : CardLaws soft_hal.
Proof.
  split.
  - intros fd offset space k i x Ho. cbn -[soft_alsa_ctl]. rewrite on_card_run.
    by apply list_numids.
  - intros fd numid item k. cbn -[soft_alsa_ctl]. rewrite on_card_run. apply info_numid.
Qed.

#[export] Instance hal_pcm : AlsaPcm soft_hal := {
  strerror := strerror (K:=soft_pcm);
  sys_errno := on_pcm sys_errno;
  sys_open_pcm n := on_pcm (sys_open_pcm n);
  sys_close_pcm fd := on_pcm (sys_close_pcm fd);
  ioctl_pcm_info fd := on_pcm (ioctl_pcm_info fd);
  ioctl_hw_refine fd p := on_pcm (ioctl_hw_refine fd p);
  ioctl_hw_params fd p := on_pcm (ioctl_hw_params fd p);
  ioctl_sw_params fd p := on_pcm (ioctl_sw_params fd p);
  ioctl_ttstamp fd t := on_pcm (ioctl_ttstamp fd t);
  ioctl_prepare fd := on_pcm (ioctl_prepare fd);
  ioctl_start fd := on_pcm (ioctl_start fd);
  ioctl_drop fd := on_pcm (ioctl_drop fd);
  ioctl_writei_frames fd data n := on_pcm (ioctl_writei_frames fd data n);
  ioctl_readi_frames fd n := on_pcm (ioctl_readi_frames fd n);
  ioctl_sync_ptr fd sp := on_pcm (ioctl_sync_ptr fd sp);
  mmap_status_page fd := on_pcm (mmap_status_page fd);
  mmap_control_page fd := on_pcm (mmap_control_page fd);
  munmap_status_page := on_pcm munmap_status_page;
  munmap_control_page := on_pcm munmap_control_page;
  page_status := on_pcm page_status;
  page_control := on_pcm page_control;
  set_page_control c := on_pcm (set_page_control c);
  mmap_buffer fd len := on_pcm (mmap_buffer fd len);
  munmap_buffer len := on_pcm (munmap_buffer len);
  ring_read off n := on_pcm (ring_read off n);
  ring_write off data := on_pcm (ring_write off data);
  sys_poll fd t := on_pcm (sys_poll fd t)
}.

#[export] Instance hal_pcm_laws : AlsaPcmLaws soft_hal.
Proof.
  split. intros fd p k. cbn -[soft_alsa_pcm]. rewrite on_pcm_run. apply hw_params_chosen.
Qed.

(** One handle, 7; fragments of 1024 bytes unless asked for otherwise. *)
#[export] Instance hal_compress : TinyCompress soft_hal := {
  compress_open _ _ _ _ size n k :=
    (if sh_ready k
     then Some (7, if size =? 0 then 1024 else size, if n =? 0 then 4 else n) else None, k);
  compress_close _ k := (tt, with_compress (sh_written k) (sh_stops k) (sh_closes k + 1) k);
  compress_start _ k := (0, k);
  compress_stop _ k := (0, with_compress (sh_written k) (sh_stops k + 1) (sh_closes k) k);
  compress_pause _ k := (0, k);
  compress_resume _ k := (0, k);
  compress_drain _ k := (0, k);
  compress_next_track _ k := (0, k);
  compress_partial_drain _ k := (0, k);
  compress_wait _ _ k := (0, k);
  compress_write _ data n k :=
    (n, with_compress (sh_written k ++ data) (sh_stops k) (sh_closes k) k);
  compress_read _ n k :=
    ((Z.of_nat (List.length (take (Z.to_nat n) (sh_captured k))),
      take (Z.to_nat n) (sh_captured k)), k);
  compress_set_max_poll_wait _ _ k := (tt, k);
  compress_nonblock _ _ k := (tt, k);
  compress_get_tstamp _ k := ((0, Z.of_nat (List.length (sh_written k)), 48000), k);
  compress_set_gapless_metadata _ _ k := (0, k)
}.

#[export] Instance hal_clock : Clock soft_hal := {
  systemTime k := (sh_clock k, k);
  nanosleep n k := (tt, with_clock (sh_clock k + n) (sh_slept k ++ [n]) k)
}.

(** Passes the frames of its provider on, mono, as many as it gets. *)
Definition pass_on (n : Z) : resample_run soft_hal :=
  RsGet n (λ data,
    match data with
    | None => RsDone (λ k, (([], 0), k))
    | Some data =>
      let frames := Z.of_nat (List.length data) / 2 in
      RsRelease frames (RsDone (λ k, ((data, frames), k)))
    end).

#[export] Instance hal_resampler : Resampler soft_hal := {
  create_resampler _ _ _ k := ((0, Some 1), k);
  release_resampler _ k := (tt, k);
  resample_from_provider _ n k := (pass_on n, k);
  malloc_content n k := (replicate (Z.to_nat n) 255, k)
}.

(** Android's constants; the parameters of a string are its assignments. *)
#[export] Instance android_hal : HalPlatform := {
  AUDIO_CHANNEL_OUT_STEREO := 0x3;
  AUDIO_CHANNEL_IN_MONO := 0x10;
  AUDIO_FORMAT_MAIN_MASK := 0xFF000000;
  AUDIO_FORMAT_MP3 := 0x01000000;
  AUDIO_FORMAT_AAC := 0x04000000;
  AUDIO_FORMAT_HE_AAC_V1 := 0x05000000;
  AUDIO_FORMAT_HE_AAC_V2 := 0x06000000;
  AUDIO_FORMAT_VORBIS := 0x07000000;
  AUDIO_SOURCE_VOICE_RECOGNITION := 6;
  AUDIO_PARAMETER_STREAM_ROUTING := "routing";
  AUDIO_PARAMETER_STREAM_INPUT_SOURCE := "input_source";
  AUDIO_OFFLOAD_CODEC_DELAY_SAMPLES := "delay_samples";
  AUDIO_OFFLOAD_CODEC_PADDING_SAMPLES := "padding_samples";
  SND_AUDIOCODEC_PCM := 1;
  SND_AUDIOCODEC_MP3 := 2;
  SND_AUDIOCODEC_AAC := 6;
  SND_AUDIOCODEC_VORBIS := 9;
  SND_AUDIOMODE_AAC_HE := 0x10;
  SND_RATECONTROLMODE_CONSTANTBITRATE := 1;
  SND_RATECONTROLMODE_VARIABLEBITRATE := 2;
  COMPRESS_IN := 0x20000000;
  COMPRESS_OUT := 0x10000000;
  audio_stream_out_frame_size format mask :=
    if audio_is_linear_pcm format then 2 * popcount mask else 1;
  audio_stream_in_frame_size format mask :=
    if audio_is_linear_pcm format then 2 * popcount mask else 1;
  audio_bytes_per_sample _ := 2;
  str_parms_create_str kv :=
    Some (λ key, snd <$> List.find (λ p, bool_decide (fst p = key)) (kv_pairs kv))
}.

Definition demo_hal (pcm : soft_pcm) (ready : bool) (captured : list Z) : soft_hal :=
  SoftHal demo_card pcm ready [] captured 0 0 1000000000 [].

(** A device with the ring of SoftPcm.v, working compressed streams and one
    second on the clock. *)
Definition demo_hal_world : world soft_hal :=
  World (demo_hal (demo_pcm_device 0 true 0 []) true [1; 2; 3; 4]) [] [].

(** ** A device

    The mixer and devices of ParserSound.v with one stream of each kind of
    sound. *)
Definition hal_streams : dyn_array stream :=
  DynArray [ demo_stream e_stream_out_pcm None 1 2 3;
             demo_stream e_stream_out_compress None 1 2 3;
             demo_stream e_stream_in_pcm None 1 4 5;
             demo_stream e_stream_in_compress (Some kVoiceRecogStreamName) 2 4 5 ] 4.

Definition hal_config : config_mgr := set_cm_streams demo_config hal_streams.

Lemma hal_streams_ok m : Forall (usecases_ok m) (da_items hal_streams).
Proof. cbn [hal_streams da_items]. repeat constructor. Qed.

Lemma hal_config_ok : cm_ok demo_mixer hal_config.
Proof.
  destruct demo_config_ok as [Hx Hm Hd _].
  split; [exact Hx|exact Hm|exact Hd|apply hal_streams_ok].
Qed.

Definition hal_dev : audio_device :=
  voice_trigger_init (AudioDevice false hal_config None eVoiceNone 0 None None).

Lemma hal_dev_cm : ad_cm hal_dev = hal_config.
Proof. reflexivity. Qed.
