(* ===== verification/InResampler.v ===== *)
(** * The provider of the input resampler is a queue of samples

    [get_next_buffer] and [release_buffer] of src/audio/audio_hw.c share a
    buffer, its capacity and the number of frames left in it.  For a client of
    one channel they implement a queue: a request grants a front of the queue,
    refilled from the device when it is empty, and a release drops what has
    been granted. *)

From S2P Require Import Prelude Kernel ConfigData CStrings PcmKernel Pcm SoftPcm Routing.
From S2P Require Import VoiceTrigger HalOut HalIn SoftHal.
From Stdlib Require Import Ascii String.

#[global] Open Scope Z_scope.

(** ** Keeping the left channel *)

Definition byte (x : Z) : Prop := 0 <= x < 256.

(** The left samples of 16 bits of interleaved stereo frames. *)
Fixpoint left_samples (l : list Z) : list Z :=
  match l with
  | a :: b :: _ :: _ :: l => a :: b :: left_samples l
  | _ => []
  end.

Lemma left_samples_length n l :
  List.length l = (4 * n)%nat → List.length (left_samples l) = (2 * n)%nat.
Proof.
  revert l. induction n as [|n IH]; intros l Hl; [by destruct l|].
  destruct l as [|a [|b [|c [|d l]]]]; cbn [List.length] in Hl; try lia.
  cbn [left_samples List.length]. rewrite IH; lia.
Qed.

Lemma left_samples_lookup n l s k :
  List.length l = (4 * n)%nat → (s < n)%nat → (k < 2)%nat →
  left_samples l !! (2 * s + k)%nat = l !! (4 * s + k)%nat.
Proof.
  revert l s. induction n as [|n IH]; intros l s Hl Hs Hk; [lia|].
  destruct l as [|a [|b [|c [|d l]]]]; cbn [List.length] in Hl; try lia.
  destruct s as [|s].
  - destruct k as [|[|k]]; [done|done|lia].
  - replace (2 * S s + k)%nat with (S (S (2 * s + k))) by lia.
    replace (4 * S s + k)%nat with (S (S (S (S (4 * s + k))))) by lia.
    cbn [left_samples]. cbn -[Nat.mul]. apply IH; lia.
Qed.

Lemma wr8_lookup_eq b i x : (i < List.length b)%nat → byte x → wr8 b i x !! i = Some x.
Proof.
  intros Hi Hx. unfold wr8. rewrite list_lookup_insert_eq by done. by rewrite u8_small.
Qed.

Lemma wr8_lookup_ne b i j x : i ≠ j → wr8 b i x !! j = b !! j.
Proof. intros. unfold wr8. by rewrite list_lookup_insert_ne. Qed.

Lemma rd8_byte b i : Forall byte b → byte (rd8 b i).
Proof.
  intros Hb. unfold rd8. destruct (b !! i) as [x|] eqn:Hi; [|done].
  by eapply (Forall_lookup_1 _ _ _ _ Hb).
Qed.

Lemma rd8_lookup b i : (i < List.length b)%nat → b !! i = Some (rd8 b i).
Proof. intros [x Hx]%lookup_lt_is_Some. unfold rd8. by rewrite Hx. Qed.

Lemma drop_right_length todo i b : List.length (drop_right todo i b) = List.length b.
Proof. revert i b. induction todo; intros i b; cbn [drop_right]; [done|]. by rewrite IHtodo, !wr8_length. Qed.

(** Moving sample [2 i] down to [i], in place and in order. *)
Lemma drop_right_lookup todo i b s k :
  Forall byte b → (4 * (i + todo) <= List.length b + 2)%nat → (0 < i)%nat →
  (s < i + todo)%nat → (k < 2)%nat →
  drop_right todo i b !! (2 * s + k)%nat =
  if decide (s < i)%nat then b !! (2 * s + k)%nat else b !! (4 * s + k)%nat.
Proof.
  revert i b. induction todo as [|todo IH]; intros i b Hb Hl Hi Hs Hk; cbn [drop_right].
  { rewrite decide_True by lia. done. }
  set (b' := wr8 _ (2 * i + 1) _).
  assert (Hb' : Forall byte b').
  { unfold b', wr8. apply Forall_insert; [apply Forall_insert; [done|]|]; apply u8_range. }
  assert (Hne : ∀ j, j ≠ (2 * i)%nat → j ≠ (2 * i + 1)%nat → b' !! j = b !! j).
  { intros j H1 H2. unfold b'. by rewrite !wr8_lookup_ne by done. }
  rewrite (IH (S i) b' Hb') by (unfold b'; rewrite ?wr8_length; lia).
  destruct (decide (s < i)%nat) as [Hsi|Hsi].
  - rewrite decide_True by lia. apply Hne; lia.
  - destruct (decide (s < S i)%nat) as [Hss|Hss]; [|apply Hne; lia].
    assert (s = i) as -> by lia. destruct k as [|[|k]]; [| |lia].
    + rewrite !Nat.add_0_r. unfold b'. rewrite wr8_lookup_ne, wr8_lookup_eq by
        (try lia; by apply rd8_byte). symmetry. apply rd8_lookup. lia.
    + unfold b'. rewrite wr8_lookup_eq by (rewrite ?wr8_length; lia || by apply rd8_byte).
      symmetry. apply rd8_lookup. lia.
Qed.

(** The loop from 1 on keeps the left samples of a buffer of stereo frames. *)
Lemma drop_right_left frames b :
  (0 < frames)%nat → List.length b = (4 * frames)%nat → Forall byte b →
  take (2 * frames) (drop_right (frames - 1) 1 b) = left_samples b.
Proof.
  intros Hf Hl Hb. apply list_eq. intros j. destruct (decide (j < 2 * frames)%nat) as [Hj|Hj].
  - rewrite lookup_take_lt by done.
    assert (Hjk : ∃ s k, j = (2 * s + k)%nat ∧ (s < frames)%nat ∧ (k < 2)%nat).
    { exists (j / 2)%nat, (j mod 2)%nat. pose proof (Nat.div_mod_eq j 2).
      pose proof (Nat.mod_upper_bound j 2). lia. }
    destruct Hjk as (s & k & -> & Hs & Hk).
    rewrite drop_right_lookup, (left_samples_lookup frames) by (done || lia).
    case_decide; [|done]. f_equal. lia.
  - rewrite !lookup_ge_None_2; [done| |]; rewrite ?length_take, ?drop_right_length,
      ?(left_samples_length frames) by done; lia.
Qed.

(** ** The queue *)

(** A run that gives back no more than it was granted last ([granted] bytes), as
    the contract of [resampler_buffer_provider] in audio_utils has it. *)
Fixpoint disciplined {K} (r : resample_run K) (granted : Z) : Prop :=
  match r with
  | RsDone _ => True
  | RsGet n k =>
    0 <= n ∧ disciplined (k None) 0
    ∧ ∀ data, disciplined (k (Some data)) (Z.of_nat (List.length data))
  | RsRelease n k => 0 <= 2 * n <= granted ∧ disciplined k (granted - 2 * n)
  end.

Section queue.
  Context {K : Type}.
  Context `{!AlsaCtl K, !AlsaPcm K, !TinyCompress K, !Clock K, !Resampler K}.
  Context `{!AudioH, !HalPlatform}.
  Variables (fuel : nat) (size frames hw_channels : Z).

  (** The capture handles in question: a read that succeeds gives the bytes
      asked for. *)
  Variable capturing : pcm → Prop.
  Hypothesis capture_full : ∀ p (w : world K), capturing p →
    let r := (pcm_read fuel p [] size w).1 in
    capturing r.2
    ∧ (r.1.1 = 0 → List.length r.1.2 = Z.to_nat size ∧ Forall byte r.1.2).

  (** The buffer holds [frames] frames of the device. *)
  Hypothesis hw_mono_or_stereo : hw_channels = 1 ∨ hw_channels = 2.
  Hypothesis frames_bounds : 0 < frames < 2 ^ 29.
  Hypothesis size_frames : size = 2 * hw_channels * frames.

(** The specification: the provider's state is a handle, a queue of bytes and
    the status of the last read. *)
Definition refill (got : list Z) : list Z :=
  if hw_channels =? 2 then left_samples got else got.

Definition front (n : Z) (q : list Z) : list Z := take (Z.to_nat (2 * n)) q.
Definition behind (n : Z) (q : list Z) : list Z := drop (Z.to_nat (2 * n)) q.

Fixpoint queue_run (r : resample_run K) (p : pcm) (q : list Z) (status : Z)
  : M (world K) (list Z * Z * (pcm * list Z * Z)) :=
  match r with
  | RsDone res => '(out, n) ← sys res; mret (out, n, (p, q, status))
  | RsGet n k =>
    match q with
    | [] =>
      '(status, got, p) ← pcm_read fuel p [] size;
      if negb (status =? 0) then queue_run (k None) p [] status
      else queue_run (k (Some (front n (refill got)))) p (refill got) 0
    | _ => queue_run (k (Some (front n q))) p q status
    end
  | RsRelease n k => queue_run k p (behind n q) status
  end.

(** The stream's buffer and counters represent the queue. *)
Record provides (i : stream_in_pcm) (p : pcm) (q : list Z) (status : Z) : Prop := {
  pv_handle : ip_handle i = HPcm (Live (Some p));
  pv_capturing : capturing p;
  pv_mono : ic_channel_count (ip_common i) = 1;
  pv_channels : ip_hw_channel_count i = hw_channels;
  pv_size : rs_in_buffer_size (ip_resampler i) = size;
  pv_frames : rs_in_buffer_frames (ip_resampler i) = frames;
  pv_left : Z.of_nat (List.length q) = 2 * rs_frames_in (ip_resampler i);
  pv_most : rs_frames_in (ip_resampler i) <= frames;
  pv_status : rs_read_status (ip_resampler i) = status;
  pv_buffer : ∃ b, rs_buffer (ip_resampler i) = Live b ∧ List.length b = Z.to_nat size
    ∧ q = take (List.length q)
            (drop (Z.to_nat (2 * (frames - rs_frames_in (ip_resampler i)))) b)
}.

Lemma provides_left i p q st : provides i p q st → 0 <= rs_frames_in (ip_resampler i).
Proof. intros []. lia. Qed.

Lemma handed_front i p q st n (w : world K) :
  provides i p q st → 0 <= n <= rs_frames_in (ip_resampler i) →
  handed i n w = (front n q, w).
Proof.
  intros Hp Hn. pose proof (provides_left _ _ _ _ Hp) as H0'.
  destruct Hp as [_ _ Hmono _ _ Hframes Hq Hmost _ (b & Hb & Hl & Hqb)].
  unfold handed. rewrite Hb. cbn [deref]. rewrite Hframes, Hmono.
  rewrite s32_small by (unfold is_s32; lia).
  rewrite bind_run. cbn [mret M_ret fst snd].
  assert (Hc : (0 <=? 2 * (frames - rs_frames_in (ip_resampler i)))
    && (2 * (frames - rs_frames_in (ip_resampler i)) + 2 * 1 * n
        <=? Z.of_nat (List.length b)) = true).
  { rewrite Hl. destruct hw_mono_or_stereo as [H1|H1]; rewrite H1 in size_frames;
      apply andb_true_iff; split; apply Z.leb_le; lia. }
  rewrite Hc. rewrite bind_run. cbn. f_equal. unfold front.
  replace (2 * 1 * n) with (2 * n) by lia.
  rewrite Hqb, take_take. f_equal. lia.
Qed.

Lemma overlay_full got old : List.length got = List.length old → overlay got old = got.
Proof.
  intros Hl. unfold overlay. rewrite <- Hl, drop_ge, app_nil_r by lia. by rewrite firstn_all.
Qed.

Lemma overlay_length got old : List.length (overlay got old) = List.length old.
Proof. unfold overlay. rewrite length_take, length_app, length_drop. lia. Qed.

Lemma refill_length got :
  List.length got = Z.to_nat size → Z.of_nat (List.length (refill got)) = 2 * frames.
Proof.
  intros Hl. unfold refill. destruct hw_mono_or_stereo as [H1|H1]; rewrite H1 in *; cbn.
  - lia.
  - rewrite (left_samples_length (Z.to_nat frames)); lia.
Qed.

Lemma fill_queue i p st (w : world K) :
  provides i p [] st →
  let r := pcm_read fuel p [] size w in
  ∃ i', fill_buffer fuel i p w = (i', r.2)
    ∧ provides i' r.1.2 (if r.1.1.1 =? 0 then refill r.1.1.2 else []) r.1.1.1.
Proof.
  intros Hp r. pose proof (capture_full p w) as Hfull. fold r in Hfull.
  destruct Hp as [Hh Hcap Hmono Hch Hsize Hframes Hq _ Hst (b & Hb & Hl & _)].
  destruct (Hfull Hcap) as [Hcap' Hgot]. clear Hfull.
  unfold fill_buffer. cbv zeta. rewrite Hb, Hsize, Hh. cbn [deref].
  rewrite bind_run. cbn [mret M_ret fst snd]. rewrite bind_run. fold r.
  destruct r as [[[st' got] p'] w']. cbn [fst snd] in *.
  rewrite bind_run. cbn [as_pcm mret M_ret fst snd put_pcm].
  cbn [List.length] in Hq.
  destruct (Z.eqb_spec st' 0) as [->|Hne]; cbn [negb].
  - destruct (Hgot eq_refl) as [Hgl Hgb]. rewrite overlay_full by congruence.
    cbn [set_rs_read_status rs_in_buffer_frames ip_common set_ip_handle ip_hw_channel_count].
    rewrite Hframes, Hmono, Hch. change (1 =? 1) with true. cbn [andb].
    rewrite (u32_small frames) by (unfold is_u32; lia).
    pose proof (refill_length got Hgl) as Hrl. unfold refill in *.
    destruct (Z.eqb_spec hw_channels 2) as [H2|H2].
    + rewrite H2 in size_frames. rewrite bind_run.
      assert (Hc : (4 * frames - 2 <=? Z.of_nat (List.length got)) = true)
        by (apply Z.leb_le; lia).
      rewrite Hc. cbn [check mret M_ret fst snd].
      eexists. split; [reflexivity|]. cbn in Hrl.
      split; cbn -[Z.mul Z.sub drop_right]; try done; try lia.
      eexists. split; [done|]. rewrite drop_right_length. split; [done|].
      rewrite Z.sub_diag, Z.mul_0_r. cbn [Z.to_nat drop].
      replace (List.length (left_samples got)) with (2 * Z.to_nat frames)%nat by lia.
      replace (Z.to_nat (frames - 1)) with (Z.to_nat frames - 1)%nat by lia.
      symmetry. apply drop_right_left; [lia..|done].
    + eexists. split; [reflexivity|].
      split; cbn -[Z.mul Z.sub]; try done; try lia.
      eexists. split; [done|]. split; [done|].
      rewrite Z.sub_diag, Z.mul_0_r. cbn [Z.to_nat drop]. by rewrite firstn_all.
  - eexists. split; [reflexivity|].
    split; cbn -[Z.mul Z.sub]; try done; try lia.
    eexists. split; [done|]. by rewrite overlay_length.
Qed.

Lemma the_pcm_live p (w : world K) : the_pcm (Live (Some p)) w = (p, w).
Proof. reflexivity. Qed.

(** A grant of [n] frames leaves the queue alone. *)
Lemma get_front i p q st n (w : world K) :
  provides i p q st → q ≠ [] → 0 <= n →
  ∃ code count, get_next_buffer fuel i n w = ((code, Some (front n q), count, i), w).
Proof.
  intros Hp Hne Hn. pose proof (pv_handle _ _ _ _ Hp) as Hh.
  pose proof (pv_left _ _ _ _ Hp) as Hq.
  unfold get_next_buffer. rewrite Hh. cbn [as_pcm]. rewrite bind_run.
  cbn [mret M_ret fst snd is_null].
  assert (Hin : (rs_frames_in (ip_resampler i) =? 0) = false).
  { apply Z.eqb_neq. destruct q; [done|]. cbn [List.length] in Hq. lia. }
  rewrite Hin. rewrite bind_run. cbn [mret M_ret fst snd].
  set (m := if _ <? n then _ else n). rewrite bind_run.
  assert (Hm : 0 <= m <= rs_frames_in (ip_resampler i))
    by (unfold m; destruct (Z.ltb_spec (rs_frames_in (ip_resampler i)) n); lia).
  rewrite (handed_front i p q st) by done. cbn [mret M_ret fst snd]. do 2 eexists.
  f_equal. f_equal. f_equal. f_equal. f_equal. unfold front, m.
  destruct (Z.ltb_spec (rs_frames_in (ip_resampler i)) n); [|done].
  rewrite !take_ge by lia. done.
Qed.

Lemma get_refill i p st n (w : world K) :
  provides i p [] st → 0 <= n →
  let r := pcm_read fuel p [] size w in
  let q := if r.1.1.1 =? 0 then refill r.1.1.2 else [] in
  ∃ code count i',
    get_next_buffer fuel i n w =
      ((code, if r.1.1.1 =? 0 then Some (front n q) else None, count, i'), r.2)
    ∧ provides i' r.1.2 q r.1.1.1.
Proof.
  intros Hp Hn r q. destruct (fill_queue i p st w Hp) as (i' & Hfill & Hp').
  fold r in Hfill, Hp'. fold q in Hp'.
  pose proof (pv_handle _ _ _ _ Hp) as Hh. pose proof (pv_left _ _ _ _ Hp) as Hq.
  cbn [List.length] in Hq.
  unfold get_next_buffer. rewrite Hh. cbn [as_pcm]. rewrite bind_run.
  cbn [mret M_ret fst snd is_null].
  assert (Hin : (rs_frames_in (ip_resampler i) =? 0) = true) by (apply Z.eqb_eq; lia).
  rewrite Hin. rewrite !bind_run, the_pcm_live. cbn [fst snd]. rewrite Hfill.
  cbn [mret M_ret fst snd].
  rewrite (pv_status _ _ _ _ Hp'). destruct (Z.eqb_spec r.1.1.1 0) as [He|He]; cbn [negb].
  - set (m := if _ <? n then _ else n). rewrite bind_run.
    pose proof (provides_left _ _ _ _ Hp') as Hleft. pose proof (pv_left _ _ _ _ Hp') as Hq'.
    assert (Hm : 0 <= m <= rs_frames_in (ip_resampler i'))
      by (unfold m; destruct (Z.ltb_spec (rs_frames_in (ip_resampler i')) n); lia).
    rewrite (handed_front i' _ q r.1.1.1 m) by done. cbn [mret M_ret fst snd].
    do 3 eexists. split; [|exact Hp']. f_equal. f_equal. f_equal. f_equal. f_equal.
    unfold front, m. destruct (Z.ltb_spec (rs_frames_in (ip_resampler i')) n); [|done].
    rewrite !take_ge by lia. done.
  - do 3 eexists. by split.
Qed.

Lemma release_behind i p q st n :
  provides i p q st → 0 <= 2 * n <= Z.of_nat (List.length q) →
  provides (release_buffer i n) p (behind n q) st.
Proof.
  intros Hp Hn. pose proof (provides_left _ _ _ _ Hp) as Hleft.
  destruct Hp as [Hh Hcap Hmono Hch Hsize Hframes Hq Hmost Hst (b & Hb & Hl & Hqb)].
  set (k := rs_frames_in (ip_resampler i)) in *.
  assert (Hk : u32 (k - n) = k - n) by (apply u32_small; unfold is_u32; lia).
  unfold release_buffer, behind. fold k. rewrite Hk.
  split; cbn -[Z.mul Z.sub]; try done; [|lia|].
  - rewrite length_drop. lia.
  - exists b. split; [done|]. split; [done|]. rewrite Hqb at 1. rewrite length_drop.
    rewrite skipn_firstn_comm, drop_drop. f_equal. f_equal. lia.
Qed.

Lemma front_length n q : Z.of_nat (List.length (front n q)) <= Z.of_nat (List.length q).
Proof. unfold front. rewrite length_take. lia. Qed.

Lemma run_queue r granted i p q st (w : world K) :
  provides i p q st → disciplined r granted → granted <= Z.of_nat (List.length q) →
  let x := queue_run r p q st w in
  ∃ i', run_resampler fuel r i w = ((x.1.1.1, x.1.1.2, i'), x.2)
    ∧ provides i' x.1.2.1.1 x.1.2.1.2 x.1.2.2.
Proof.
  revert granted i p q st w.
  induction r as [res|n k IH|n k IH]; intros granted i p q st w Hp Hd Hg;
    cbn [run_resampler queue_run disciplined] in *.
  - rewrite !bind_run. destruct (sys res w) as [[out n] w']. cbn. exists i. by split.
  - destruct Hd as (Hn & Hnone & Hsome). destruct q as [|x q].
    + destruct (get_refill i p st n w Hp Hn) as (code & count & i' & Hget & Hp').
      rewrite !bind_run, Hget. destruct (pcm_read fuel p [] size w) as [[[st' got] p'] w'].
      cbn [fst snd] in *. destruct (Z.eqb_spec st' 0) as [->|He]; cbn [negb].
      * apply (IH (Some (front n (refill got))) (Z.of_nat (List.length (front n (refill got)))));
          [done|by apply Hsome|apply front_length].
      * by apply (IH None 0).
    + destruct (get_front i p (x :: q) st n w Hp) as (code & count & Hget); [done|done|].
      rewrite bind_run, Hget. cbn [fst snd].
      apply (IH (Some (front n (x :: q))) (Z.of_nat (List.length (front n (x :: q)))));
        [done|by apply Hsome|apply front_length].
  - destruct Hd as (Hn & Hk). apply (IH (granted - 2 * n)); [|done|].
    + apply release_behind; [done|lia].
    + unfold behind. rewrite length_drop. lia.
Qed.

(** The bytes of the last [frames_in] of the frames of the buffer. *)
Definition left_in (i : stream_in_pcm) : list Z :=
  let n := rs_frames_in (ip_resampler i) in
  match rs_buffer (ip_resampler i) with
  | Live b => take (Z.to_nat (2 * n)) (drop (Z.to_nat (2 * (frames - n))) b)
  | _ => []
  end.

(** A stream about to have its resampler made, for a client of one channel: it
    may have frames left of a run before a standby. *)
Record fresh_client (i : stream_in_pcm) (p : pcm) : Prop := {
  fc_handle : ip_handle i = HPcm (Live (Some p));
  fc_capturing : capturing p;
  fc_mono : ic_channel_count (ip_common i) = 1;
  fc_frame : ic_frame_size (ip_common i) = 2;
  fc_channels : ip_hw_channel_count i = hw_channels;
  fc_left : 0 <= rs_frames_in (ip_resampler i) <= frames
}.

Hypothesis malloc_length : ∀ n (k : K), List.length (malloc_content n k).1 = Z.to_nat n.

Lemma init_provides i p hw_rate (w : world K) :
  fresh_client i p →
  let r := (in_resampler_init i hw_rate hw_channels frames w).1 in
  0 <= r.1 → provides r.2 p (left_in r.2) (rs_read_status (ip_resampler i)).
Proof.
  intros [Hh Hcap Hmono Hframe Hch Hleft] r. unfold r, in_resampler_init. rewrite Hframe.
  assert (H2 : u32 (hw_channels * 2) = hw_channels * 2)
    by (apply u32_small; unfold is_u32; lia).
  assert (H3 : u32 (frames * (hw_channels * 2)) = size)
    by (rewrite u32_small; [lia|]; unfold is_u32; lia).
  assert (H4 : s32 (size / (hw_channels * 2)) = frames).
  { rewrite size_frames. replace (2 * hw_channels * frames) with (frames * (hw_channels * 2)) by lia.
    rewrite Z.div_mul by lia. apply s32_small. unfold is_s32. lia. }
  cbv zeta. rewrite H2, H3, H4.
  assert (Hnz : negb (hw_channels * 2 =? 0) = true) by (apply negb_true_iff, Z.eqb_neq; lia).
  rewrite Hnz. rewrite !bind_run. cbn [check mret M_ret fst snd].
  destruct (alloc w) as [[] w1]; cbn [negb fst snd]; [|by intros []].
  rewrite !bind_run.
  assert (Hm : List.length (sys (malloc_content size) w1).1 = Z.to_nat size).
  { rewrite <- (malloc_length size (w_kern w1)). unfold sys. by destruct (malloc_content _ _). }
  destruct (sys (malloc_content size) w1) as [content w2]. cbn [fst snd] in *.
  destruct (sys (create_resampler _ _ _) w2) as [[ret res] w3]. cbn [fst snd].
  destruct (Z.ltb_spec ret 0); cbn [mret M_ret fst snd]; [intros; exfalso; lia|]. intros _.
  assert (Hlen : List.length (take (Z.to_nat (2 * rs_frames_in (ip_resampler i)))
      (drop (Z.to_nat (2 * (frames - rs_frames_in (ip_resampler i)))) content))
    = Z.to_nat (2 * rs_frames_in (ip_resampler i))).
  { rewrite length_take, length_drop, Hm. destruct hw_mono_or_stereo as [Hc|Hc]; rewrite Hc in size_frames; lia. }
  split; cbn -[Z.mul Z.sub]; try done; [unfold left_in; cbn -[Z.mul Z.sub]; lia|lia|].
  exists content. split_and!; [done..|]. unfold left_in. cbn -[Z.mul Z.sub]. by rewrite Hlen.
Qed.

(** The states of a stream whose resampler has been made and has run any number
    of times, with the state of the queue: it is empty at first, but where frames
    were left of a run before a standby it begins with as many frames of what
    the new buffer held when it was allocated. *)
Inductive serves : stream_in_pcm → pcm → list Z → Z → Prop :=
  | serves_init i p hw_rate (w : world K) :
      fresh_client i p →
      0 <= (in_resampler_init i hw_rate hw_channels frames w).1.1 →
      serves (in_resampler_init i hw_rate hw_channels frames w).1.2 p
        (left_in (in_resampler_init i hw_rate hw_channels frames w).1.2) (rs_read_status (ip_resampler i))
  | serves_run i p q status r (w : world K) :
      serves i p q status → disciplined r 0 →
      let x := (queue_run r p q status w).1.2 in
      serves (run_resampler fuel r i w).1.2 x.1.1 x.1.2 x.2.

Lemma serves_provides i p q status : serves i p q status → provides i p q status.
Proof.
  induction 1 as [i p hw_rate w Hf Hr|i p q st r w _ IH Hd]; [by apply init_provides|].
  destruct (run_queue r 0 i p q st w IH Hd) as (i' & Hrun & Hp); [lia|]. by rewrite Hrun.
Qed.

(** C30: the resampler of a client of one channel, on a device of one or two whose
    successful reads give the bytes asked for, sees a queue: every run of a
    resampler that gives back no more than it was granted, over the HAL's
    provider (buffer, capacity and count of frames left), gives the samples, the
    frame count, the read status and the effects on the device that the run over
    the queue gives, in which a grant is a front of what has been captured and
    not yet released.  The queue starts empty, but after a standby in the middle
    of a buffer it starts with as many frames as were left, of memory just
    allocated. *)
Theorem provider_refines_queue i p q status r (w : world K) :
  serves i p q status → disciplined r 0 →
  let x := queue_run r p q status w in
  let y := run_resampler fuel r i w in
  y.1.1 = x.1.1 ∧ y.2 = x.2 ∧ rs_read_status (ip_resampler y.1.2) = x.1.2.2
  ∧ 2 * rs_frames_in (ip_resampler y.1.2) = Z.of_nat (List.length x.1.2.1.2).
Proof.
  intros Hs%serves_provides Hd x y.
  destruct (run_queue r 0 i p q status w Hs Hd) as (i' & Hrun & Hp); [lia|].
  fold x in Hrun, Hp. fold y in Hrun. rewrite Hrun. cbn [fst snd].
  split_and!; [by destruct x as [[[? ?] ?] ?]|done|apply Hp|].
  symmetry. apply Hp.
Qed.

End queue.

(** ** A stereo microphone in software *)

Definition mic_config : pcm_config := PcmConfig 2 48000 4 4 PCM_FORMAT_S16_LE 0 0 0.

Definition mic_handle (p : pcm) : Prop := p_flags p = PCM_IN ∧ p_config p = mic_config.

Lemma mic_same p p' : mic_handle p → p_flags p' = p_flags p → p_config p' = p_config p →
  mic_handle p'.
Proof. intros [H1 H2] Hf Hc. split; congruence. Qed.

Lemma soft_start p (w : world soft_hal) :
  mic_handle p → ∃ p' w', pcm_start p w = ((0, p'), w') ∧ mic_handle p'.
Proof.
  intros [Hf Hc]. destruct w as [[card [] ready wr cap st cl clock sl] heap faults].
  unfold pcm_start, pcm_prepare. destruct (p_prepared p) eqn:Hp; rewrite !bind_run; cbn;
    rewrite Hf; cbn; do 2 eexists; (split; [reflexivity|by split]).
Qed.

Lemma soft_ring_bytes n ring :
  let got := take (4 * n) ((u8 <$> ring) ++ replicate (4 * n) 0) in
  List.length got = (4 * n)%nat ∧ Forall byte got.
Proof.
  cbv zeta. split.
  - rewrite length_take, length_app, length_replicate. lia.
  - apply Forall_take, Forall_app. split.
    + apply Forall_forall. intros x Hx. apply list_elem_of_fmap in Hx as (y & -> & _).
      apply u8_range.
    + apply Forall_replicate. unfold byte. lia.
Qed.

Lemma soft_read_loop fuel p n (w : world soft_hal) :
  mic_handle p →
  let r := (pcm_read_loop fuel p [] n w).1 in
  mic_handle r.2
  ∧ (r.1.1 = 0 → List.length r.1.2 = (4 * Z.to_nat n)%nat ∧ Forall byte r.1.2).
Proof.
  generalize ([] : list Z) as data.
  revert p w. induction fuel as [|fuel IH]; intros p w data Hp; cbn [pcm_read_loop].
  { split; [exact Hp|]. intros He. discriminate. }
  assert (Htr : ∀ p w, mic_handle p →
    let r := ('(r, got) ← sys (ioctl_readi_frames (p_fd p) n);
      if negb (r =? 0) then
        errno ← sys sys_errno;
        if errno =? EPIPE then
          pcm_read_loop fuel (set_underruns (s32 (p_underruns (set_run false false p) + 1))
            (set_run false false p)) got n
        else '(r, p) ← oops (set_run false false p) errno "cannot read stream data"; mret (r, got, p)
      else mret (0, got, p)) w in
    mic_handle r.1.2
    ∧ (r.1.1.1 = 0 → List.length r.1.1.2 = (4 * Z.to_nat n)%nat ∧ Forall byte r.1.1.2)).
  { clear p w Hp. intros p [[card dev ready wr cap st cl clock sl] heap faults] Hp. cbv zeta.
    rewrite bind_run.
    assert (Hread : ∃ r w1, sys (ioctl_readi_frames (p_fd p) n)
        (World (SoftHal card dev ready wr cap st cl clock sl) heap faults)
      = ((r, take (4 * Z.to_nat n) ((u8 <$> sd_ring dev) ++ replicate (4 * Z.to_nat n) 0)), w1)).
    { unfold sys. cbn -[Nat.mul]. unfold on_pcm. cbn -[Nat.mul].
      unfold transfer. destruct (sd_script dev); cbn -[Nat.mul]; by do 2 eexists. }
    destruct Hread as (r & w1 & ->). cbn [fst snd].
    pose proof (soft_ring_bytes (Z.to_nat n) (sd_ring dev)) as Hb. cbv zeta in Hb.
    revert Hb. generalize (take (4 * Z.to_nat n)
      ((u8 <$> sd_ring dev) ++ replicate (4 * Z.to_nat n) 0)) as got. intros got Hb.
    destruct (r =? 0); cbn [negb]; [by split|]. rewrite bind_run.
    destruct (_ =? EPIPE).
    - apply IH. by apply (mic_same p).
    - rewrite bind_run. cbn. split; [by apply (mic_same p)|]. intros He; discriminate. }
  destruct (p_running p); cbn [negb]; [by apply Htr|].
  rewrite bind_run. destruct (soft_start p w Hp) as (p' & w' & -> & Hp'). cbn [fst snd].
  change (0 <? 0) with false. cbn match. by apply Htr.
Qed.

Lemma mic_full fuel frames p (w : world soft_hal) :
  0 < frames < 2 ^ 29 → mic_handle p →
  let r := (pcm_read fuel p [] (4 * frames) w).1 in
  mic_handle r.2
  ∧ (r.1.1 = 0 → List.length r.1.2 = Z.to_nat (4 * frames) ∧ Forall byte r.1.2).
Proof.
  intros Hfr Hp. unfold pcm_read. pose proof Hp as [Hf Hc]. rewrite Hf. cbn [has_flag].
  change (negb (has_flag PCM_IN PCM_IN)) with false. cbn match. rewrite bind_run.
  unfold xfer_frames. rewrite Hc. rewrite bind_run. cbn -[Z.mul Z.div pcm_read_loop].
  change (u32 (2 * 16) / 8) with 4. rewrite (Z.mul_comm 4), Z.div_mul by lia.
  replace (Z.to_nat (frames * 4)) with (4 * Z.to_nat frames)%nat by lia.
  by apply soft_read_loop.
Qed.

(** ** Runs *)

Definition mic_pcm : pcm := set_fd 5 (pcm0 PCM_IN mic_config).

(** The device's ring holds the bytes 0 to 63. *)
Definition mic_world : world soft_hal :=
  World (demo_hal (SoftPcm (MmapStatus 2 0 (1, 0)) (MmapControl 0 1) (seqZ 0 64) [] [] 0 true
                     0 0 0) true []) [] [].

(** A capture stream of 8 kHz, before its resampler is made. *)
Definition mic_client (channels : Z) : stream_in_pcm :=
  InPcm 1 (InCommon (Some 2%nat) true 4 1 0x10 channels 8000 (2 * channels) 0 0 0)
    (HPcm (Live (Some mic_pcm))) 48000 2 4 in_resampler0.

Definition mic_started (channels : Z) : stream_in_pcm :=
  (in_resampler_init (mic_client channels) 48000 2 8 mic_world).1.2.

(** A mono client takes five frames of a buffer of eight. *)
Definition mic_run : list Z * Z * stream_in_pcm * world soft_hal :=
  run_resampler 3 (pass_on 5) (mic_started 1) mic_world.

Lemma pass_on_disciplined n : 0 <= n → disciplined (pass_on n) 0.
Proof.
  intros Hn. cbn. split_and!; [done|done|]. intros data. split; [|done].
  pose proof (Z.mul_div_le (Z.of_nat (List.length data)) 2).
  pose proof (Z.div_pos (Z.of_nat (List.length data)) 2). lia.
Qed.

Lemma mic_malloc n (k : soft_hal) : List.length (malloc_content n k).1 = Z.to_nat n.
Proof. apply length_replicate. Qed.

(** Left samples 0 to 4, then, from the queue, samples 5 to 7. *)
Lemma provider_refines_queue_witness :
  mic_run.1.1.1 = [0; 1; 4; 5; 8; 9; 12; 13; 16; 17]
  ∧ (queue_run 3 32 2 (pass_on 5) mic_pcm [] 0 mic_world).1.1.1 = mic_run.1.1.1
  ∧ (let q := (queue_run 3 32 2 (pass_on 5) mic_pcm [] 0 mic_world).1.2 in
     let y := run_resampler 3 (pass_on 5) mic_run.1.2 mic_world in
     q.1.2 = [20; 21; 24; 25; 28; 29]
     ∧ y.1.1 = (queue_run 3 32 2 (pass_on 5) q.1.1 q.1.2 q.2 mic_world).1.1).
Proof.
  assert (Hserves : serves 3 32 8 2 mic_handle (mic_started 1) mic_pcm [] 0).
  { assert (Hl : left_in 8 (mic_started 1) = []) by (vm_compute; reflexivity). rewrite <- Hl.
    apply (serves_init 3 32 8 2 mic_handle (mic_client 1) mic_pcm 48000 mic_world); [|done].
    by split. }
  split; [vm_compute; reflexivity|]. split; [vm_compute; reflexivity|]. cbv zeta.
  split; [vm_compute; reflexivity|].
  assert (Hfull : ∀ p (w : world soft_hal), mic_handle p →
    let r := (pcm_read 3 p [] 32 w).1 in
    mic_handle r.2 ∧ (r.1.1 = 0 → List.length r.1.2 = Z.to_nat 32 ∧ Forall byte r.1.2))
    by (intros p w; apply (mic_full 3 8); lia).
  apply (provider_refines_queue 3 32 8 2 mic_handle Hfull (or_intror eq_refl)
           (conj eq_refl eq_refl) eq_refl mic_malloc mic_run.1.2 _ _ _ (pass_on 5) mic_world).
  - apply (serves_run 3 32 8 2 mic_handle (mic_started 1) mic_pcm [] 0 (pass_on 5) mic_world);
      [exact Hserves|by apply pass_on_disciplined].
  - by apply pass_on_disciplined.
Defined.

(** Of a stereo client's buffer only half the frames are counted, and the
    position in it is counted in samples, not in frames: the second grant of
    four frames repeats two frames of the first, and the third is of the next
    capture although half of this one has not been granted. *)
Theorem stereo_client_repeats :
  let i := mic_started 2 in
  let '(_, data1, n1, i1, w1) := get_next_buffer 3 i 4 mic_world in
  let '(_, data2, n2, i2, w2) := get_next_buffer 3 (release_buffer i1 4) 4 w1 in
  rs_in_buffer_size (ip_resampler i) = 64 ∧ rs_in_buffer_frames (ip_resampler i) = 8
  ∧ n1 = 4 ∧ data1 = Some (seqZ 0 16)
  ∧ n2 = 4 ∧ data2 = Some (seqZ 8 16)
  ∧ rs_frames_in (ip_resampler (release_buffer i2 4)) = 0.
Proof. vm_compute. by split_and!. Qed.

(** [in_resampler_init] keeps the count of frames left: after a standby in the
    middle of a buffer, the first grant is of memory just allocated. *)
Theorem restart_grants_stale_frames :
  let i := (in_resampler_free mic_run.1.2 mic_world).1 in
  let i := (in_resampler_init i 48000 2 8 mic_world).1.2 in
  let '(_, data, n, _, _) := get_next_buffer 3 i 5 mic_world in
  n = 3 ∧ data = Some (replicate 6 255)
  ∧ replicate 6 255 = take 6 (malloc_content 32 (w_kern mic_world)).1.
Proof. vm_compute. by split_and!. Qed.
