(* ===== verification/HalOutFacts.v ===== *)
(** * PCM output streams keep their handle in order

    A stream out of standby has an open PCM stream of the kind its writes need;
    a stream in standby has none.  The calls of AudioFlinger preserve this,
    execute no undefined behaviour and give every write one of three outcomes. *)

From S2P Require Import Prelude Kernel ConfigData CStrings PcmKernel Pcm PcmFacts.
From S2P Require Import Routing RouteInv RoutingFacts StreamFacts VoiceTrigger VoiceFacts.
From S2P Require Import HalOut.
From Stdlib Require Import Ascii String.

#[global] Open Scope Z_scope.

(** ** Helpers of the HAL *)

Section helpers.
  Context {K : Type} `{!AlsaCtl K, !AlsaPcm K, !AudioH, !HalPlatform}.

Lemma hw_at_safe cm i :
  valid_stream cm i →
  yields (K:=K) (hw_at cm i) (λ hw, ∃ s, get_stream_at cm i = Some s ∧ hw = s_info s).
Proof.
  intros [s Hs]%valid_stream_at. unfold hw_at. rewrite Hs. apply yields_ret. by exists s.
Qed.

Lemma invoke_loop_safe m cm i l ret :
  cm_ok m cm → valid_stream cm i →
  yields (K:=K) (invoke_loop cm i l ret) (λ r, kept m cm r.2).
Proof.
  revert cm ret. induction l as [|[k v] l IH]; intros cm ret Hcm Hv; cbn [invoke_loop].
  { by apply yields_ret. }
  eapply yields_bind; [by apply (apply_use_case_safe m)|]. intros [r cm'] Hk. cbn [snd] in Hk.
  eapply yields_post; [apply IH; [apply Hk|]|].
  - unfold valid_stream. by rewrite (proj2 Hk).
  - intros r' Hk'. by eapply kept_trans.
Qed.

Lemma invoke_usecases_safe m cm s kv :
  cm_ok m cm → (∀ i, s = Some i → valid_stream cm i) →
  yields (K:=K) (stream_invoke_usecases cm s kv) (λ r, kept m cm r.2).
Proof.
  intros Hcm Hv. unfold stream_invoke_usecases. eapply yields_bind; [apply yields_alloc|].
  intros ok _. apply yields_if; intros _; [by apply yields_ret|].
  destruct s as [i|]; [apply invoke_loop_safe; [done|by apply Hv]|by apply yields_ret].
Qed.

(** Parsing a parameter string needs memory. *)
Lemma routing_param_safe kv :
  is_Some (str_parms_create_str kv) →
  yields (K:=K) (common_get_routing_param kv) (λ _, True).
Proof.
  intros [get Hg]. unfold common_get_routing_param. rewrite Hg. cbn [str_parms_get_str].
  eapply (yields_bind _ _ (λ _, True)); [by apply yields_ret|]. intros. by apply yields_ret.
Qed.

Lemma pcm_close_safe h : yields (K:=K) (pcm_close h) (λ _, True).
Proof.
  destruct h as [p|]; cbn [pcm_close]; [|by apply yields_ret].
  eapply (yields_bind _ _ (λ _, True)).
  { unfold pcm_hw_munmap_status. destruct (p_page p); [by apply yields_ret| |by apply yields_ret].
    eapply yields_bind; [apply yields_sys_true|]. intros ? _.
    eapply yields_bind; [apply yields_sys_true|]. intros ? _. by apply yields_ret. }
  intros p1 _. eapply (yields_bind _ _ (λ _, True)).
  { apply yields_if; intros _; [|by apply yields_ret].
    eapply (yields_bind _ _ (λ _, True)).
    { unfold pcm_stop. eapply yields_bind; [apply yields_sys_true|]. intros r _.
      apply yields_if; intros _; [|by apply yields_ret].
      eapply yields_post; [apply oops_errno_same|done]. }
    intros [r p2] _. eapply (yields_bind _ _ (λ _, True)); [|intros; by apply yields_ret].
    unfold unmap_buffer. destruct (p_mmap_buffer p2); [apply yields_sys_true|by apply yields_ret]. }
  intros p2 _. eapply (yields_bind _ _ (λ _, True)); [|intros; by apply yields_ret].
  apply yields_if; intros _; [apply yields_sys_true|by apply yields_ret].
Qed.

(** What a handle is worth after [pcm_close]. *)
Definition closed_ptr (h : pcm_ptr) : pcm_ptr :=
  match h with Live (Some _) => Freed | _ => h end.

Lemma close_pcm_ptr_safe o :
  yields (K:=K) (close_pcm_ptr (Live o)) (λ h, h = closed_ptr (Live o)).
Proof.
  unfold close_pcm_ptr. eapply yields_bind; [by apply (yields_ret o (λ x, x = o))|].
  intros ? ->. eapply yields_bind; [apply pcm_close_safe|]. intros ? _.
  apply yields_ret. by destruct o.
Qed.

Lemma popcount_bounds x : 0 <= popcount x <= 32.
Proof. apply (count_bounds (λ n, Z.testbit (u32 x) (Z.of_nat n)) (seq 0 32)). Qed.

End helpers.

(** ** PCM output streams *)

(** A handle [pcm_write] can play through: open, for output, with a sane frame. *)
Record playable (p : pcm) : Prop := {
  pl_ready : pcm_is_ready p = true;
  pl_out : p_flags p = PCM_OUT;
  pl_channels : 0 < pc_channels (p_config p) < 2 ^ 26
}.

Lemma playable_same p p' : same_stream p p' → playable p → playable p'.
Proof.
  intros Hs [Hr Hf Hc]. destruct Hs. split; [|congruence|congruence].
  unfold pcm_is_ready in *. congruence.
Qed.

(** In standby no PCM stream is open, out of standby one is. *)
Definition handle_ok (standby : bool) (h : pcm_ptr) : Prop :=
  if standby then ∀ p, h ≠ Live (Some p) else ∃ p, h = Live (Some p) ∧ playable p.

Record out_ok (cm : config_mgr) (out : stream_out_pcm) : Prop := {
  oo_hw : valid_stream cm (oc_hw (op_common out));
  oo_channels : 0 <= oc_channel_count (op_common out) <= 32;
  oo_handle : handle_ok (oc_standby (op_common out)) (op_pcm out)
}.

(** The configuration gives every stream a rate. *)
Definition rates_set (cm : config_mgr) : Prop :=
  ∀ i s, get_stream_at cm i = Some s → hw_rate (s_info s) ≠ 0.

Section out_pcm.
  Context {K : Type} `{!AlsaCtl K, !AlsaPcm K, !AlsaPcmLaws K, !TinyCompress K}.
  Context `{!AudioH, !HalPlatform}.

Lemma latency_safe n k rate :
  rate ≠ 0 → yields (K:=K) (latency_ms n k rate) (λ _, True).
Proof.
  intros Hr. unfold latency_ms.
  eapply yields_bind; [apply yields_check|intros; by apply yields_ret].
  by apply negb_true_iff, Z.eqb_neq.
Qed.

(** The frames of the hardware, in the units of the client. *)
Definition hw_frame_bytes (p : pcm) (n : Z) : Z := pcm_frames_to_bytes p n.

Lemma cfg_channels_bounds out :
  0 <= oc_channel_count (op_common out) <= 32 →
  0 < out_pcm_cfg_channel_count out < 2 ^ 26.
Proof.
  intros Hc. unfold out_pcm_cfg_channel_count, OUT_CHANNEL_COUNT_DEFAULT.
  destruct (Z.eqb_spec (oc_channel_count (op_common out)) 0); cbn [negb]; lia.
Qed.

(** The parts of a stream that starting and stopping it leave alone. *)
Definition same_client (out out' : stream_out_pcm) : Prop :=
  oc_hw (op_common out') = oc_hw (op_common out)
  ∧ oc_channel_count (op_common out') = oc_channel_count (op_common out)
  ∧ oc_standby (op_common out') = oc_standby (op_common out).

Lemma start_output_ok cm out :
  out_ok cm out → rates_set cm → oc_standby (op_common out) = true →
  yields (K:=K) (start_output_pcm cm out) (λ r,
    same_client out r.2
    ∧ (r.1 = 0 ∧ handle_ok false (op_pcm r.2) ∨ r.1 = - ENOMEM ∧ handle_ok true (op_pcm r.2))).
Proof.
  intros [Hhw Hch Hh] Hrates Hst. unfold start_output_pcm.
  eapply yields_bind; [by apply hw_at_safe|]. intros hw (s & Hs & ->). cbv zeta.
  pose proof (Hrates _ _ Hs) as Hrate.
  set (c := PcmConfig _ _ _ _ _ _ _ _).
  eapply yields_bind.
  { apply pcm_open_ok. intros ? [= <-]. split; [by apply cfg_channels_bounds|done]. }
  intros [h config'] Hop. cbn [op_pcm set_op_pcm]. apply yields_if; intros Hr.
  - eapply yields_bind; [apply close_pcm_ptr_safe|]. intros ? ->. apply yields_ret.
    split; [by split_and!|]. right. split; [done|]. cbn. by destruct h.
  - apply negb_false_iff in Hr. destruct h as [p|]; [|done]. cbn in Hr.
    destruct (Hop p eq_refl Hr) as (c' & -> & Ho & Hss). specialize (Hss c eq_refl).
    destruct Hss as (Hc1 & Hc2 & _). cbn [from_option id].
    eapply (yields_bind _ _ (λ out', same_client out out' ∧ op_pcm out' = Live (Some p))).
    + unfold out_pcm_fill_params. eapply yields_bind.
      { unfold the_pcm. cbn [op_pcm set_op_pcm deref].
        eapply yields_bind; [by apply (yields_ret (Some p) (λ x, x = Some p))|]. intros ? ->.
        by apply (yields_ret p (λ x, x = p)). }
      intros ? ->. eapply yields_bind; [apply latency_safe; by rewrite Hc2|].
      intros l _. apply yields_ret. by split_and!.
    + intros out' [Hsame Hp]. apply yields_ret. split; [done|]. left. split; [done|].
      exists p. split; [done|]. destruct (op_sound _ _ _ Ho) as (Hch1 & _ & _).
      split; [done|apply Ho|]. rewrite Hch1, Hc1. by apply cfg_channels_bounds.
Qed.

(** The outcomes of a write on a routed stream. *)
Definition out_write_outcome (bytes : Z) (r : Z * stream_out_pcm) : Prop :=
  r.1 = s32 bytes ∧ oc_standby (op_common r.2) = false
  ∨ r.1 = -1 ∧ oc_standby (op_common r.2) = false
  ∨ r.1 = - ENOMEM ∧ oc_standby (op_common r.2) = true.

Lemma write_started_ok out buffer bytes :
  handle_ok false (op_pcm out) → oc_standby (op_common out) = false →
  yields (K:=K)
    (p ← the_pcm (op_pcm out);
     '(ret, p) ← pcm_write p buffer bytes;
     mret (if 0 <=? ret then s32 bytes else ret, set_op_pcm (put_pcm p (op_pcm out)) out))
    (λ r, same_client out r.2 ∧ handle_ok false (op_pcm r.2) ∧ out_write_outcome bytes r).
Proof.
  intros (p & Hp & Hpl) Hst. rewrite Hp. unfold the_pcm. cbn [deref].
  eapply yields_bind.
  { eapply yields_bind; [by apply (yields_ret (Some p) (λ x, x = Some p))|]. intros ? ->.
    by apply (yields_ret p (λ x, x = p)). }
  intros ? ->. destruct Hpl as [Hr Hf Hc].
  eapply yields_bind; [apply pcm_write_ok; [by rewrite Hf|done]|].
  intros [ret p'] [Hs Ho]. cbn [fst snd] in *. apply yields_ret. cbn [fst snd put_pcm].
  split; [done|]. split.
  { exists p'. split; [done|]. by apply (playable_same p). }
  unfold out_write_outcome. cbn [fst snd set_op_pcm op_common].
  destruct Ho as (u & _ & _ & [[[[-> _]|[-> _]] _]|(_ & _ & _ & Hn & _)]);
    [by left|by right; left|].
  by rewrite Hf in Hn.
Qed.

Lemma out_write_ok cm out buffer bytes :
  out_ok cm out → rates_set cm →
  yields (K:=K) (out_pcm_write cm out buffer bytes) (λ r,
    out_ok cm r.2
    ∧ if get_current_routes cm (oc_hw (op_common out)) =? 0 then r = (0, out)
      else out_write_outcome bytes r).
Proof.
  intros Ho Hrates. unfold out_pcm_write.
  destruct (_ =? 0) eqn:Hroute; [by apply yields_ret|].
  pose proof Ho as [Hhw Hch Hh].
  assert (Hplay : ∀ o, same_client out (set_op_common (set_oc_standby (oc_standby (op_common out))
        (op_common o)) o) → handle_ok false (op_pcm o) → oc_standby (op_common o) = false →
    yields (K:=K)
      (p ← the_pcm (op_pcm o);
       '(ret, p) ← pcm_write p buffer bytes;
       mret (if 0 <=? ret then s32 bytes else ret, set_op_pcm (put_pcm p (op_pcm o)) o))
      (λ r, out_ok cm r.2 ∧ out_write_outcome bytes r)).
  { intros o (Hh1 & Hc1 & _) Hok Hst. eapply yields_post; [by apply write_started_ok|].
    intros r ((Hh2 & Hc2 & Hs2) & Hok2 & Hout). cbn in Hh1, Hc1. split; [|done].
    split; [by rewrite Hh2, Hh1|by rewrite Hc2, Hc1|]. rewrite Hs2, Hst. exact Hok2. }
  destruct (oc_standby (op_common out)) eqn:Hst.
  - eapply (yields_bind _ _ (λ r, r.1 = 0 ∧ handle_ok false (op_pcm r.2)
        ∧ oc_standby (op_common r.2) = false
        ∧ oc_hw (op_common r.2) = oc_hw (op_common out)
        ∧ oc_channel_count (op_common r.2) = oc_channel_count (op_common out)
      ∨ r.1 = - ENOMEM ∧ out_ok cm r.2 ∧ oc_standby (op_common r.2) = true)).
    { eapply yields_bind; [by apply start_output_ok|].
      intros [ret o] ((Hh1 & Hc1 & Hs1) & Hcase). cbn [fst snd] in *.
      apply yields_ret. destruct Hcase as [[-> Hok]|[-> Hok]]; [by left|right].
      change (- ENOMEM =? 0) with false. cbn [fst snd].
      rewrite Hst in Hs1. split_and!; [done| |done].
      split; [by rewrite Hh1|by rewrite Hc1|by rewrite Hs1]. }
    intros [ret o] [(Hret & Hok & Hs1 & Hh1 & Hc1)|(Hret & Hok & Hs1)]; cbn [fst snd] in *; subst ret.
    + apply Hplay; [by split_and!|done..].
    + apply yields_ret. split; [done|]. by right; right.
  - eapply yields_bind; [by apply (yields_ret (0, out) (λ r, r = (0, out)))|]. intros ? ->.
    apply Hplay; [by split_and!|done..].
Qed.

Lemma out_standby_ok cm out :
  out_ok cm out →
  yields (K:=K) (out_pcm_standby out) (λ o, out_ok cm o ∧ oc_standby (op_common o) = true
    ∧ oc_hw (op_common o) = oc_hw (op_common out)).
Proof.
  intros [Hhw Hch Hh]. unfold out_pcm_standby, do_out_pcm_standby.
  destruct (oc_standby (op_common out)) eqn:Hst; cbn [negb].
  - apply yields_ret. split_and!; [|done..]. split; [done..|]. by rewrite Hst.
  - destruct Hh as (p & -> & _). eapply yields_bind; [apply close_pcm_ptr_safe|].
    intros ? _. apply yields_ret. by split_and!.
Qed.

End out_pcm.

(** ** The hardware descriptions of the streams never change *)

Definition infos (cm : config_mgr) : list hw_stream := s_info <$> da_items (cm_streams cm).

Lemma infos_upd cm i f :
  (∀ s, s_info (f s) = s_info s) → infos (upd_stream i f cm) = infos cm.
Proof.
  intros Hf. unfold infos, upd_stream. cbn.
  rewrite (list_fmap_alter s_info f id).
  - apply list_eq. intros j. destruct (decide (i = j)) as [<-|].
    + rewrite list_lookup_alter_eq. by destruct (_ !! _).
    + by rewrite list_lookup_alter_ne.
  - apply Forall_forall. intros s _. apply Hf.
Qed.

Lemma infos_streams cm cm' : cm_streams cm' = cm_streams cm → infos cm' = infos cm.
Proof. unfold infos. by intros ->. Qed.

Lemma rates_infos cm cm' : infos cm' = infos cm → rates_set cm → rates_set cm'.
Proof.
  intros Hi Hr i s Hs. unfold get_stream_at in *.
  assert (Hs' : infos cm !! i = Some (s_info s))
    by (rewrite <- Hi; unfold infos; by rewrite list_lookup_fmap, Hs).
  unfold infos in Hs'. rewrite list_lookup_fmap in Hs'.
  apply fmap_Some in Hs' as (s0 & Hs0 & Heq). rewrite Heq. by apply (Hr i).
Qed.

Section infos.
  Context {K : Type} `{!AlsaCtl K, !AlsaPcm K, !AudioH, !HalPlatform}.

Lemma apply_route_infos cm i devices :
  returns (S:=world K) (apply_route cm i devices) (λ cm', infos cm' = infos cm).
Proof.
  unfold apply_route, apply_masks_l, route_masks. destruct (get_stream_at cm i) as [s|].
  2:{ eapply returns_bind; [apply returns_true|]. intros ? _. by apply returns_ret. }
  cbv zeta. destruct (route_devices _ _); [|by apply returns_ret].
  eapply returns_bind; [apply devices_streams|intros cm1 H1].
  eapply returns_bind; [apply devices_streams|intros cm2 H2].
  apply returns_ret. rewrite infos_upd by done. apply infos_streams. congruence.
Qed.

Lemma use_case_infos cm i setting name :
  returns (S:=world K) (apply_use_case cm i setting name) (λ r, infos r.2 = infos cm).
Proof.
  unfold apply_use_case. destruct (get_stream_at cm i) as [s|].
  2:{ eapply returns_bind; [apply returns_true|]. intros ? _. by apply returns_ret. }
  destruct (find_use_case _ _ _ _) as [[[a b] c]|]; [|by apply returns_ret].
  eapply returns_bind; [apply returns_true|]. intros l _. apply returns_ret. by apply infos_upd.
Qed.

Lemma open_stream_infos cm i :
  returns (S:=world K) (open_stream_l cm i) (λ r, infos r.2 = infos cm).
Proof.
  unfold open_stream_l. destruct (get_stream_at cm i) as [s|].
  2:{ eapply returns_bind; [apply returns_true|]. intros ? _. by apply returns_ret. }
  cbv zeta. destruct (_ <? _); [|by apply returns_ret]. destruct (_ =? 1).
  - eapply returns_bind; [apply global_streams|]. intros cm1 H1. apply returns_ret. cbn [snd].
    rewrite (infos_streams _ _ H1). by apply infos_upd.
  - apply returns_ret. by apply infos_upd.
Qed.

Lemma get_stream_infos cm devices format :
  returns (S:=world K) (get_stream cm devices format) (λ r, infos r.2 = infos cm).
Proof.
  unfold get_stream. generalize (wanted_type devices format) as type. intros type.
  generalize (List.length (da_items (cm_streams cm))) as n.
  intros n. revert cm. induction n as [|n IH]; intros cm; cbn [get_stream_loop].
  { by apply returns_ret. }
  destruct (get_stream_at cm n) as [s|].
  2:{ eapply returns_bind; [apply returns_true|]. intros ? _. by apply returns_ret. }
  case_bool_decide; [|apply IH]. eapply returns_bind; [apply open_stream_infos|].
  intros [ok cm'] Hi. cbn [snd] in Hi. destruct ok; [by apply returns_ret|].
  eapply returns_post; [apply IH|]. intros r Hr. congruence.
Qed.

Lemma get_named_stream_infos cm name :
  returns (S:=world K) (get_named_stream cm name) (λ r, infos r.2 = infos cm).
Proof.
  unfold get_named_stream. destruct (find_named_stream cm name); [|by apply returns_ret].
  eapply returns_bind; [apply open_stream_infos|]. intros [ok cm'] Hi. by apply returns_ret.
Qed.

Lemma release_infos cm s :
  returns (S:=world K) (release_stream cm s) (λ cm', infos cm' = infos cm).
Proof.
  unfold release_stream. destruct s as [i|]; [|by apply returns_ret].
  destruct (get_stream_at cm i) as [s|].
  2:{ eapply returns_bind; [apply returns_true|]. intros ? _. by apply returns_ret. }
  cbv zeta. destruct (_ =? 0); [|by apply returns_ret, infos_upd].
  eapply returns_bind; [apply devices_streams|intros cm2 H2].
  eapply returns_bind; [apply global_streams|intros cm3 H3].
  apply returns_ret. rewrite infos_upd by done. rewrite (infos_streams cm2) by done.
  rewrite (infos_streams _ _ H2). by apply infos_upd.
Qed.

Lemma run_op_infos cm o : returns (S:=world K) (run_op o cm) (λ cm', infos cm' = infos cm).
Proof.
  destruct o; cbn [run_op];
    first [ apply release_infos | apply apply_route_infos
          | eapply returns_bind; [first [apply get_stream_infos | apply get_named_stream_infos
                                        | apply use_case_infos | apply returns_true]|];
            intros r Hr; by apply returns_ret ].
Qed.

Lemma invoke_usecases_infos cm s kv :
  returns (S:=world K) (stream_invoke_usecases cm s kv) (λ r, infos r.2 = infos cm).
Proof.
  unfold stream_invoke_usecases. eapply returns_bind; [apply returns_true|]. intros ok _.
  destruct (negb ok); [by apply returns_ret|]. destruct s as [i|]; [|by apply returns_ret].
  generalize (kv_pairs kv) as l, (- ENOTSUP) as ret. intros l. revert cm.
  induction l as [|[k v] l IH]; intros cm ret; cbn [invoke_loop]; [by apply returns_ret|].
  eapply returns_bind; [apply use_case_infos|]. intros [r cm'] Hi. cbn [snd] in Hi.
  eapply returns_post; [apply IH|]. intros r' Hr. congruence.
Qed.

Lemma out_set_parameters_infos cm out kv :
  returns (S:=world K) (out_set_parameters cm out kv) (λ r, infos r.2 = infos cm).
Proof.
  unfold out_set_parameters. eapply returns_bind; [apply returns_true|]. intros v _.
  eapply (returns_bind _ _ (λ cm', infos cm' = infos cm)).
  { destruct v; [apply apply_route_infos|by apply returns_ret]. }
  intros cm1 H1. eapply returns_bind; [apply invoke_usecases_infos|].
  intros [r cm2] H2. apply returns_ret. cbn in *. congruence.
Qed.

(** A computation that is safe and whose result is known otherwise. *)
Lemma yields_and {A} (m : M (world K) A) Q R :
  yields m Q → returns m R → yields m (λ a, Q a ∧ R a).
Proof. intros Hm Hr w. destruct (Hm w). auto. Qed.

End infos.

(** ** Compressed output streams *)

(** No stream is used after it was closed, and only an open one is started. *)
Record compress_ok (cm : config_mgr) (out : stream_out_compress) : Prop := {
  xo_hw : valid_stream cm (oc_hw (ox_common out));
  xo_live : ox_compress out ≠ Freed;
  xo_started : ox_started out = true → ∃ h, ox_compress out = Live h
}.

Section out_compress.
  Context {K : Type} `{!AlsaCtl K, !AlsaPcm K, !TinyCompress K, !AudioH, !HalPlatform}.

Lemma on_compress_safe {A} out (f : Z → M K A) h :
  ox_compress out = Live h → yields (K:=K) (on_compress out f) (λ _, True).
Proof.
  intros Hh. unfold on_compress. rewrite Hh. cbn [deref].
  eapply (yields_bind _ _ (λ _, True)); [by apply yields_ret|]. intros. apply yields_sys_true.
Qed.

(** [out'] has the stream and the asynchronous mode of [out]. *)
Definition same_output (out out' : stream_out_compress) : Prop :=
  oc_hw (ox_common out') = oc_hw (ox_common out)
  ∧ oc_use_async (ox_common out') = oc_use_async (ox_common out).

#[export] Instance same_output_preorder : PreOrder same_output.
Proof. split; [done|]. intros a b c [? ?] [? ?]. split; congruence. Qed.

Lemma compress_ok_set cm out out' :
  compress_ok cm out → same_output out out' →
  ox_compress out' = ox_compress out → (ox_started out' = true → ox_started out = true) →
  compress_ok cm out'.
Proof.
  intros [Hv Hl Hs] [Hhw _] Hc Hst. split; [by rewrite Hhw|by rewrite Hc|].
  intros H'. rewrite Hc. auto.
Qed.

Lemma live_handle (h : ptr Z) : is_null h = false → h ≠ Freed → ∃ x, h = Live x.
Proof. destruct h as [|x|]; [done|by exists x|done]. Qed.

Lemma standby_compress_ok cm out :
  compress_ok cm out →
  yields (K:=K) (do_standby_compress_l out) (λ r, compress_ok cm r.2 ∧ same_output out r.2).
Proof.
  intros Hok. unfold do_standby_compress_l. apply yields_if; intros Hc; [|by apply yields_ret].
  apply andb_true_iff in Hc as [Hn%negb_true_iff _].
  destruct (live_handle _ Hn (xo_live _ _ Hok)) as [h Hh].
  eapply (yields_bind _ _ (λ o, same_output out o ∧ ox_compress o = Live h
                                ∧ ox_started o = false)).
  { apply yields_if; intros Hst; [|by apply yields_ret].
    eapply yields_bind; [by eapply on_compress_safe|]. intros ? _. by apply yields_ret. }
  intros o (Hs & Hho & Hst). eapply yields_bind; [by eapply on_compress_safe|]. intros ? _.
  apply yields_ret. split; [|done]. destruct Hs as [Hhw _].
  split; [cbn; rewrite Hhw; apply Hok|done|]. cbn. by rewrite Hst.
Qed.

Lemma open_compress_ok cm out :
  compress_ok cm out →
  yields (K:=K) (open_output_compress cm out) (λ r,
    compress_ok cm r.2 ∧ same_output out r.2
    ∧ (0 <= r.1 → ∃ h, ox_compress r.2 = Live h)).
Proof.
  intros Hok. unfold open_output_compress. apply yields_if; intros Hn.
  2:{ apply yields_ret. split_and!; [done..|]. intros _. by apply live_handle, Hok. }
  eapply yields_bind; [apply hw_at_safe, Hok|]. intros hw _.
  eapply yields_bind; [apply yields_sys_true|]. intros [[[h size] n]|] _.
  2:{ apply yields_ret. split_and!; [done..|]. cbn. errno_lia. }
  eapply yields_bind; [apply yields_sys_true|]. intros ? _.
  eapply yields_bind; [apply yields_sys_true|]. intros ? _. apply yields_ret. cbn.
  split_and!; [|done|by exists h]. split; [apply Hok|done|by exists h].
Qed.

Lemma start_compress_ok cm out h :
  compress_ok cm out → ox_compress out = Live h →
  yields (K:=K) (start_output_compress out) (λ r, compress_ok cm r.2 ∧ same_output out r.2).
Proof.
  intros Hok Hh. unfold start_output_compress.
  eapply yields_bind; [by eapply on_compress_safe|]. intros ret _. apply yields_if; intros _.
  { eapply yields_bind; [by apply standby_compress_ok|]. intros [r o] [Ho Hs].
    by apply yields_ret. }
  cbv zeta.
  assert (Hok' : compress_ok cm (set_ox_started true out)).
  { split; [apply Hok|apply Hok|]. intros _. by exists h. }
  apply yields_if; intros _; [|by apply yields_ret].
  eapply yields_bind; [by eapply on_compress_safe|]. intros ? _. apply yields_ret.
  split; [|done]. by eapply compress_ok_set.
Qed.

Lemma compress_pause_ok cm out :
  compress_ok cm out →
  yields (K:=K) (out_compress_pause out) (λ r, compress_ok cm r.2 ∧ same_output out r.2).
Proof.
  intros Hok. unfold out_compress_pause. apply yields_if; intros Hc; [|by apply yields_ret].
  apply andb_true_iff in Hc as [_ Hn%negb_true_iff]. cbv zeta.
  destruct (live_handle _ Hn (xo_live _ _ Hok)) as [h Hh].
  eapply yields_bind; [by eapply on_compress_safe|]. intros ? _. apply yields_ret.
  split; [|done]. by eapply compress_ok_set.
Qed.

Lemma compress_resume_ok cm out :
  compress_ok cm out →
  yields (K:=K) (out_compress_resume out) (λ r, compress_ok cm r.2 ∧ same_output out r.2).
Proof.
  intros Hok. unfold out_compress_resume. apply yields_if; intros Hc; [|by apply yields_ret].
  apply andb_true_iff in Hc as [_ Hn%negb_true_iff]. cbv zeta.
  destruct (live_handle _ Hn (xo_live _ _ Hok)) as [h Hh].
  eapply yields_bind; [by eapply on_compress_safe|]. intros ? _. apply yields_ret.
  split; [|done]. by eapply compress_ok_set.
Qed.

Lemma compress_flush_ok cm out :
  compress_ok cm out →
  yields (K:=K) (out_compress_flush out) (λ r, compress_ok cm r.2 ∧ same_output out r.2).
Proof.
  intros Hok. unfold out_compress_flush. apply yields_if; intros Hc; [|by apply yields_ret].
  apply andb_true_iff in Hc as [Hn%negb_true_iff _].
  destruct (live_handle _ Hn (xo_live _ _ Hok)) as [h Hh].
  eapply yields_bind; [by eapply on_compress_safe|]. intros ? _. apply yields_ret.
  split; [|done]. by eapply compress_ok_set.
Qed.

(** Other threads that leave the device open. *)
Definition leave_open (others : nat → stream_out_compress → M (world K) stream_out_compress) : Prop :=
  ∀ k cm out, compress_ok cm out → yields (others k out) (λ o,
    compress_ok cm o ∧ same_output out o ∧ ox_compress o = ox_compress out).

Lemma run_meanwhile_ok c cm out :
  compress_ok cm out →
  yields (run_meanwhile c out) (λ r,
    (compress_ok cm r.2 ∧ same_output out r.2) ∧ ox_compress r.2 = ox_compress out).
Proof.
  intros Hok. apply yields_and.
  - destruct c; [by apply compress_pause_ok|by apply compress_resume_ok|by apply compress_flush_ok].
  - destruct c; cbn [run_meanwhile];
      unfold out_compress_pause, out_compress_resume, out_compress_flush; cbv zeta;
      (destruct (_ && _); [|by apply returns_ret]);
      (eapply returns_bind; [apply returns_true|]); intros ? _; by apply returns_ret.
Qed.

Lemma meanwhile_ok (calls : nat → list meanwhile_call) : leave_open (λ k, meanwhile (calls k)).
Proof.
  intros k cm. induction (calls k) as [|c l IH]; intros out Hok; cbn [meanwhile];
    [by apply yields_ret|].
  eapply yields_bind; [by apply run_meanwhile_ok|]. intros [r o] [[Ho Hs] Hh]. cbn [fst snd] in *.
  eapply yields_post; [by apply IH|]. intros o' (Ho' & Hs' & Hh').
  split_and!; [done|by etrans|congruence].
Qed.

Lemma compress_write_ok others cm out buffer bytes :
  leave_open others → compress_ok cm out →
  yields (K:=K) (out_compress_write others cm out buffer bytes) (λ r,
    compress_ok cm r.2 ∧ same_output out r.2).
Proof.
  intros Hothers Hok. unfold out_compress_write.
  eapply yields_bind; [by apply open_compress_ok|].
  intros [ret o] (Ho & Hs & Hlive). cbn [fst snd] in *.
  apply yields_if; intros Hret; [by apply yields_ret|]. apply Z.ltb_ge in Hret.
  destruct (Hlive Hret) as [h Hh].
  eapply yields_bind; [by apply Hothers|]. intros o0 (Ho0 & Hs0 & Hh0).
  eapply yields_bind; [eapply on_compress_safe; by rewrite Hh0|]. intros n _.
  apply yields_if; intros _; [|apply yields_ret; by split; [|etrans]].
  eapply yields_bind; [by apply Hothers|]. intros o1 (Ho1 & Hs1 & Hh1).
  assert (Hso : same_output out o1) by (by etrans; [|etrans]).
  eapply (yields_bind _ _ (λ r, compress_ok cm r.2 ∧ same_output out r.2)).
  { apply yields_if; intros _; [|by apply yields_ret].
    eapply yields_bind; [by apply Hothers|]. intros o2 (Ho2 & Hs2 & Hh2).
    eapply yields_post; [eapply start_compress_ok; [done|by rewrite Hh2, Hh1, Hh0]|].
    intros r [Hr Hs3]. split; [done|]. by etrans; [|etrans]. }
  intros [st o2] [Ho2 Hs2]. cbn [fst snd] in *. apply yields_if; intros _; [by apply yields_ret|].
  apply yields_if; intros _; [|by apply yields_ret].
  unfold signal_async_thread. case_bool_decide; apply yields_ret; cbn [snd]; (split; [|done]);
    by eapply compress_ok_set.
Qed.

(** Draining synchronously needs an open stream. *)
Lemma compress_drain_ok others cm out type :
  leave_open others → compress_ok cm out →
  (oc_use_async (ox_common out) = true ∨ is_null (ox_compress out) = false) →
  yields (K:=K) (out_compress_drain others out type) (λ r,
    compress_ok cm r.2 ∧ same_output out r.2).
Proof.
  intros Hothers Hok Hc. unfold out_compress_drain.
  apply yields_if; intros Ha.
  { unfold signal_async_thread. case_bool_decide; apply yields_ret; cbn [snd]; (split; [|done]);
      by eapply compress_ok_set. }
  destruct Hc as [Hc|Hn]; [congruence|].
  destruct (live_handle _ Hn (xo_live _ _ Hok)) as [h Hh].
  assert (Hfin : ∀ (r : Z) o, compress_ok cm o → same_output out o →
            yields (o ← others 1%nat o; mret (r, set_ox_started false o))
              (λ r, compress_ok cm r.2 ∧ same_output out r.2)).
  { intros r o Ho Hs. eapply yields_bind; [by apply Hothers|]. intros o' (Ho' & Hs' & _).
    apply yields_ret. split; [by eapply compress_ok_set|]. cbn [snd]. by etrans; [|etrans]. }
  destruct type; (eapply yields_bind; [by eapply on_compress_safe|]); intros r _; [by apply Hfin|].
  apply yields_if; intros _; [by apply yields_ret|].
  eapply yields_bind; [by apply Hothers|]. intros o (Ho & Hs & Hh0).
  eapply yields_bind; [eapply on_compress_safe; by rewrite Hh0|]. intros ? _. by apply Hfin.
Qed.

Lemma compress_position_ok cm out :
  compress_ok cm out → yields (K:=K) (out_compress_get_render_position out) (λ _, True).
Proof.
  intros Hok. unfold out_compress_get_render_position. apply yields_if; intros Hst;
    [by apply yields_ret|]. apply negb_false_iff in Hst.
  destruct (xo_started _ _ Hok Hst) as [h Hh].
  eapply yields_bind; [by eapply on_compress_safe|]. intros [[r n] x] _. by apply yields_ret.
Qed.

End out_compress.
