(* ===== verification/HalOutSafe.v ===== *)
(** * Output streams from opening to closing

    The life of an output stream: the device opens it on a stream of the
    configuration, AudioFlinger calls it any number of times while other
    streams change the configuration, and the device closes it. *)

From S2P Require Import Prelude Kernel Mixer ConfigData CStrings PcmKernel Pcm PcmFacts.
From S2P Require Import ConfigData.
From S2P Require Import Routing RouteInv RoutingFacts StreamFacts VoiceTrigger VoiceFacts.
From S2P Require Import HalOut HalIn HalDev SoftHal ParserSound HalOutFacts.
From Stdlib Require Import Ascii String.

#[global] Open Scope Z_scope.

(** A call on the stream, or one on the configuration by someone else. During
    a write and a drain other threads may make the calls given for each point
    at which the stream's lock is not held. *)
Inductive out_call :=
  | OcWrite (buffer : list Z) (bytes : Z) (others : nat → list meanwhile_call)
  | OcStandby
  | OcParams (kvpairs : string)
  | OcPause
  | OcResume
  | OcDrain (type : audio_drain_type) (others : nat → list meanwhile_call)
  | OcFlush
  | OcPosition
  | OcConfig (o : op).

(** No other thread calls. *)
Definition nobody : nat → list meanwhile_call := λ _, [].

Section session.
  Context {K : Type}.
  Context `{!AlsaCtl K, !AlsaPcm K, !AlsaPcmLaws K, !TinyCompress K, !Clock K, !Resampler K}.
  Context `{!AudioH, !HalPlatform}.

(** PCM streams leave pause, resume, drain and flush undefined: they are not
    called. *)
Definition run_out_call (c : out_call) (cm : config_mgr) (out : out_stream)
  : M (world K) (Z * config_mgr * out_stream) :=
  let pcm (m : M (world K) (Z * stream_out_pcm)) :=
    '(r, o) ← m; mret (r, cm, StreamOutPcm o) in
  let compress (m : M (world K) (Z * stream_out_compress)) :=
    '(r, o) ← m; mret (r, cm, StreamOutCompress o) in
  match c, out with
  | OcConfig o, _ => cm ← run_op o cm; mret (0, cm, out)
  | OcWrite b n _, StreamOutPcm o => pcm (out_pcm_write cm o b n)
  | OcStandby, StreamOutPcm o => pcm (o ← out_pcm_standby o; mret (0, o))
  | OcParams kv, StreamOutPcm o =>
    '(r, cm) ← out_set_parameters cm (op_common o) kv; mret (r, cm, out)
  | OcPosition, StreamOutPcm o => mret (out_pcm_get_render_position o, cm, out)
  | _, StreamOutPcm _ => mret (0, cm, out)
  | OcWrite b n l, StreamOutCompress o =>
    compress (out_compress_write (λ k, meanwhile (l k)) cm o b n)
  | OcStandby, StreamOutCompress o => compress (out_compress_standby o)
  | OcParams kv, StreamOutCompress o =>
    '(r, o, cm) ← out_compress_set_parameters cm o kv; mret (r, cm, StreamOutCompress o)
  | OcPause, StreamOutCompress o => compress (out_compress_pause o)
  | OcResume, StreamOutCompress o => compress (out_compress_resume o)
  | OcDrain t l, StreamOutCompress o =>
    compress (out_compress_drain (λ k, meanwhile (l k)) o t)
  | OcFlush, StreamOutCompress o => compress (out_compress_flush o)
  | OcPosition, StreamOutCompress o =>
    '(r, _) ← out_compress_get_render_position o; mret (r, cm, out)
  end.

(** Parameters that can be parsed, valid arguments, and a synchronous drain only
    of a stream that is open. *)
Definition out_call_ok (cm : config_mgr) (out : out_stream) (c : out_call) : Prop :=
  match c, out with
  | OcParams kv, _ => is_Some (str_parms_create_str kv)
  | OcDrain _ _, StreamOutCompress o =>
    oc_use_async (ox_common o) = true ∨ is_null (ox_compress o) = false
  | OcConfig o, _ => op_valid cm o
  | _, _ => True
  end.

Definition out_stream_ok (cm : config_mgr) (out : out_stream) : Prop :=
  match out with
  | StreamOutPcm o => out_ok cm o
  | StreamOutCompress o => compress_ok cm o
  end.

Variable m : mixer.

(** The invariant of a session. *)
Record session_ok (cm : config_mgr) (out : out_stream) : Prop := {
  so_cm : cm_ok m cm;
  so_rates : rates_set cm;
  so_out : out_stream_ok cm out
}.

Lemma out_stream_kept cm cm' out :
  kept m cm cm' → out_stream_ok cm out → out_stream_ok cm' out.
Proof.
  intros [_ Hl]. destruct out as [o|o]; cbn.
  - intros [Hv Hc Hh]. split; [|done..]. unfold valid_stream in *. by rewrite Hl.
  - intros [Hv Hc Hh]. split; [|done..]. unfold valid_stream in *. by rewrite Hl.
Qed.

(** The configuration changed and its streams' descriptions did not. *)
Definition moved (cm cm' : config_mgr) : Prop := kept m cm cm' ∧ infos cm' = infos cm.

Lemma session_moved cm cm' out : session_ok cm out → moved cm cm' → session_ok cm' out.
Proof.
  intros [Hcm Hr Ho] [Hk Hi]. split; [apply Hk|by eapply rates_infos|by eapply out_stream_kept].
Qed.

Lemma out_set_parameters_moved cm out kv :
  cm_ok m cm → valid_stream cm (oc_hw out) → is_Some (str_parms_create_str kv) →
  yields (K:=K) (out_set_parameters cm out kv) (λ r, moved cm r.2).
Proof.
  intros Hcm Hv Hkv. eapply yields_post.
  - eapply yields_and; [|apply out_set_parameters_infos].
    unfold out_set_parameters. eapply yields_bind; [by apply routing_param_safe|]. intros v _.
    eapply (yields_bind _ _ (kept m cm)).
    { destruct v; [by apply apply_route_safe|by apply yields_ret]. }
    intros cm1 Hk1. eapply yields_bind.
    { apply (invoke_usecases_safe m); [apply Hk1|]. intros i [= <-]. by eapply kept_valid. }
    intros [r cm2] Hk2. apply (yields_ret _ (λ r : Z * config_mgr, kept m cm r.2)).
    by eapply kept_trans.
  - intros r [Hk Hi]. by split.
Qed.

Lemma compress_set_parameters_ok cm out kv :
  cm_ok m cm → compress_ok cm out → is_Some (str_parms_create_str kv) →
  yields (K:=K) (out_compress_set_parameters cm out kv) (λ r,
    moved cm r.2 ∧ compress_ok cm r.1.2).
Proof.
  intros Hcm Hok Hkv. unfold out_compress_set_parameters. cbv zeta.
  pose proof Hkv as [get Hg]. rewrite Hg. cbn [str_parms_get_str].
  eapply (yields_bind _ _ (λ _, True)); [by apply yields_ret|]. intros delay _.
  eapply (yields_bind _ _ (λ _, True)); [by apply yields_ret|]. intros padding _.
  eapply yields_bind; [apply out_set_parameters_moved; [done|apply Hok|done]|].
  intros [r cm'] Hmv. apply yields_ret. split; [done|]. by eapply compress_ok_set.
Qed.

Lemma run_op_moved cm o :
  cm_ok m cm → op_valid cm o → yields (K:=K) (run_op o cm) (moved cm).
Proof.
  intros Hcm Hv. apply yields_and; [by apply run_op_safe|apply run_op_infos].
Qed.

Lemma session_pcm cm (r : M (world K) (Z * stream_out_pcm)) :
  cm_ok m cm → rates_set cm → yields r (λ x, out_ok cm x.2) →
  yields ('(x, o) ← r; mret (x, cm, StreamOutPcm o)) (λ x, session_ok x.1.2 x.2).
Proof.
  intros Hcm Hr Ho. eapply yields_bind; [exact Ho|]. intros [x o] Hx.
  apply yields_ret. by split.
Qed.

Lemma session_compress cm out (r : M (world K) (Z * stream_out_compress)) :
  cm_ok m cm → rates_set cm → yields r (λ x, compress_ok cm x.2 ∧ same_output out x.2) →
  yields ('(x, o) ← r; mret (x, cm, StreamOutCompress o)) (λ x, session_ok x.1.2 x.2).
Proof.
  intros Hcm Hr Ho. eapply yields_bind; [exact Ho|]. intros [x o] [Hx _].
  apply yields_ret. by split.
Qed.

Lemma run_out_call_ok c cm out :
  session_ok cm out → out_call_ok cm out c →
  yields (K:=K) (run_out_call c cm out) (λ r, session_ok r.1.2 r.2).
Proof.
  intros Hs Hc. pose proof Hs as [Hcm Hr Ho]. unfold run_out_call. cbv zeta.
  destruct c as [b n l| |kv| | |t l| | |o]; cbn [out_call_ok] in Hc.
  9: { eapply yields_bind; [by apply run_op_moved|]. intros cm' Hmv. apply yields_ret.
       by eapply session_moved. }
  all: destruct out as [o|o]; cbn in Ho; try by apply yields_ret.
  - apply session_pcm; [done..|]. eapply yields_post; [by apply out_write_ok|]. by intros r [? _].
  - apply (session_compress cm o); [done..|].
    apply compress_write_ok; [by apply (meanwhile_ok l)|done].
  - apply session_pcm; [done..|]. eapply yields_bind; [by apply out_standby_ok|].
    intros o' (Ho' & _). by apply yields_ret.
  - by eapply session_compress, standby_compress_ok.
  - eapply yields_bind; [apply out_set_parameters_moved; [done|apply Ho|done]|].
    intros [r cm'] Hmv. apply yields_ret. by eapply session_moved.
  - eapply yields_bind; [by apply compress_set_parameters_ok|].
    intros [[r o'] cm'] [Hmv Ho']. apply yields_ret. cbn [fst snd] in *.
    eapply session_moved; [|exact Hmv]. by split.
  - by eapply session_compress, compress_pause_ok.
  - by eapply session_compress, compress_resume_ok.
  - apply (session_compress cm o); [done..|].
    apply compress_drain_ok; [by apply (meanwhile_ok l)|done|done].
  - by eapply session_compress, compress_flush_ok.
  - eapply yields_bind; [by apply (compress_position_ok cm)|]. intros [r p] _. by apply yields_ret.
Qed.

End session.

(** ** Opening and closing *)

Section life.
  Context {K : Type}.
  Context `{!AlsaCtl K, !AlsaPcm K, !AlsaPcmLaws K, !TinyCompress K, !Clock K, !Resampler K}.
  Context `{!AudioH, !HalPlatform}.
  Variable m : mixer.

Lemma get_stream_loop_bound cm type n :
  returns (S:=world K) (get_stream_loop cm type n) (λ r, ∀ i, r.1 = Some i → (i < n)%nat).
Proof.
  revert cm. induction n as [|n IH]; intros cm; cbn [get_stream_loop]; [by apply returns_ret|].
  assert (Hrest : ∀ cm, returns (S:=world K) (get_stream_loop cm type n)
            (λ r, ∀ i, r.1 = Some i → (i < S n)%nat)).
  { intros cm'. eapply returns_post; [apply IH|]. intros r Hr i Hi. specialize (Hr i Hi). lia. }
  destruct (get_stream_at cm n) as [s|].
  2:{ eapply returns_bind; [apply returns_true|]. intros ? _. by apply returns_ret. }
  case_bool_decide; [|apply Hrest]. eapply returns_bind; [apply returns_true|].
  intros [ok cm'] _. destruct ok; [|apply Hrest]. apply returns_ret. intros i [= <-]. lia.
Qed.

Lemma get_stream_moved cm devices format :
  cm_ok m cm → yields (K:=K) (get_stream cm devices format) (λ r,
    moved m cm r.2 ∧ ∀ i, r.1 = Some i → valid_stream r.2 i).
Proof.
  intros Hcm. eapply yields_post.
  - eapply (yields_and _ _ (λ r, infos r.2 = infos cm
      ∧ ∀ i, r.1 = Some i → (i < List.length (da_items (cm_streams cm)))%nat));
      [by apply (get_stream_loop_safe m)|].
    intros w. split; [apply get_stream_infos|apply get_stream_loop_bound].
  - intros [s cm'] (Hk & Hi & Hb). cbn [fst snd] in *. split; [by split|].
    intros i Hs. unfold valid_stream. rewrite (proj2 Hk). by apply Hb.
Qed.

Lemma init_common_ok cm s config devices :
  cm_ok m cm → rates_set cm → valid_stream cm s →
  yields (K:=K) (do_init_out_common cm (out_common0 s) config devices) (λ r,
    cm_ok m r.2 ∧ rates_set r.2 ∧ valid_stream r.2 (oc_hw r.1.2)
    ∧ 0 <= oc_channel_count r.1.2 <= 32 ∧ oc_standby r.1.2 = true
    ∧ oc_sample_rate r.1.2 = ac_sample_rate config).
Proof.
  intros Hcm Hr Hv. unfold do_init_out_common. cbv zeta.
  eapply yields_bind.
  { apply (yields_and _ (kept m cm)); [by apply apply_route_safe|apply apply_route_infos]. }
  intros cm' [Hk Hi]. apply yields_ret. cbn [fst snd].
  split_and!; [apply Hk|by eapply rates_infos|by eapply kept_valid|..|done|done];
    apply popcount_bounds.
Qed.

Lemma init_compress_ok cm out config :
  compress_ok cm out →
  yields (K:=K) (do_init_out_compress cm out config) (λ r, compress_ok cm r.2).
Proof.
  intros Hok. unfold do_init_out_compress.
  destruct (codec_of_format (ac_format config)) as [[id level]|]; [|by apply yields_ret].
  eapply yields_post; [apply open_compress_ok; by eapply compress_ok_set|]. by intros r [? _].
Qed.

Lemma open_output_ok a devices config :
  cm_ok m (ad_cm a) → rates_set (ad_cm a) → ac_sample_rate config ≠ 0 →
  yields (K:=K) (adev_open_output_stream a devices config) (λ r,
    cm_ok m (ad_cm r.2) ∧ ∀ out, r.1.2 = Some out → session_ok m (ad_cm r.2) out).
Proof.
  intros Hcm Hr Hrate. unfold adev_open_output_stream. cbv zeta.
  eapply yields_bind; [by apply get_stream_moved|].
  intros [[s|] cm1] [[Hk Hi] Hv]; cbn [fst snd] in *; [|apply yields_ret; by split; [apply Hk|]].
  unfold new_output_stream. cbn [ad_cm set_ad_cm].
  specialize (Hv s eq_refl). assert (Hr1 : rates_set cm1) by by eapply rates_infos.
  assert (Hcm1 : cm_ok m cm1) by apply Hk.
  eapply yields_bind; [by apply hw_at_safe|]. intros info _.
  eapply yields_bind; [apply yields_alloc|]. intros ok _.
  apply yields_if; intros _; [by apply yields_ret|].
  eapply yields_bind; [by apply init_common_ok|].
  intros [[r0 common] cm2] (Hcm2 & Hr2 & Hv2 & Hch & Hst & Hsr). cbn [fst snd] in *.
  cbv zeta. apply yields_if; intros _; [by apply yields_ret|].
  eapply (yields_bind _ _ (λ x, session_ok m cm2 x.2)).
  - assert (Hpcm : yields (K:=K)
      ('(ret, out) ← do_init_out_pcm cm2 (out_pcm0 common) config; mret (ret, StreamOutPcm out))
      (λ x, session_ok m cm2 x.2)).
    { unfold do_init_out_pcm. eapply (yields_bind _ _ (λ x, out_ok cm2 x.2)).
      - eapply yields_bind; [by apply hw_at_safe|]. intros hw _. cbv zeta.
        eapply yields_bind; [apply latency_safe; cbn; by rewrite Hsr|]. intros l _.
        apply yields_ret. split; [done|done|]. cbn. rewrite Hst. by cbn.
      - intros [x o] Ho. apply yields_ret. by split. }
    assert (Hcompress : yields (K:=K)
      ('(ret, out) ← do_init_out_compress cm2 (out_compress0 common) config;
       mret (ret, StreamOutCompress out)) (λ x, session_ok m cm2 x.2)).
    { eapply yields_bind; [by apply init_compress_ok|]. intros [x o] Ho. apply yields_ret. by split. }
    unfold sizeof_out. apply yields_if; intros Ht; [done|]. rewrite Ht.
    by eapply yields_bind; [apply yields_check|].
  - intros [ret out] Hs. apply yields_ret. cbn [fst snd] in *. split; [apply Hs|].
    intros o Ho. destruct (ret <? 0); [done|]. by injection Ho as <-.
Qed.

Lemma close_output_ok a out :
  session_ok m (ad_cm a) out →
  yields (K:=K) (adev_close_output_stream a out) (λ a', moved m (ad_cm a) (ad_cm a')).
Proof.
  intros [Hcm Hr Ho]. unfold adev_close_output_stream.
  assert (Hrel : ∀ c, valid_stream (ad_cm a) (oc_hw c) →
    yields (K:=K) (do_close_out_common (ad_cm a) c) (moved m (ad_cm a))).
  { intros c Hv. apply yields_and; [by apply release_stream_safe|apply release_infos]. }
  eapply (yields_bind _ _ (moved m (ad_cm a))); [|intros cm Hcm'; by apply yields_ret].
  destruct out as [o|o]; cbn in Ho.
  - unfold do_close_out_pcm. eapply yields_bind; [by apply out_standby_ok|].
    intros o' (Ho' & _ & _). apply Hrel, Ho'.
  - unfold out_compress_close. cbv zeta. eapply yields_bind.
    { apply (standby_compress_ok (ad_cm a)). by eapply compress_ok_set. }
    intros [r o'] [Ho' _]. apply Hrel, Ho'.
Qed.

(** The states of an output stream opened from the device [a0]. *)
Inductive out_session (a0 : audio_device) : config_mgr → out_stream → Prop :=
  | session_open devices config (w : world K) out :
      ac_sample_rate config ≠ 0 →
      (adev_open_output_stream a0 devices config w).1.1.2 = Some out →
      out_session a0 (ad_cm (adev_open_output_stream a0 devices config w).1.2) out
  | session_call cm out c (w : world K) :
      out_session a0 cm out → out_call_ok cm out c →
      out_session a0 (run_out_call c cm out w).1.1.2 (run_out_call c cm out w).1.2.

Lemma out_session_ok a0 cm out :
  cm_ok m (ad_cm a0) → rates_set (ad_cm a0) → out_session a0 cm out → session_ok m cm out.
Proof.
  intros Hcm Hr. induction 1 as [devices config w out Hrate Hopen|cm out c w _ IH Hc].
  - destruct (open_output_ok a0 devices config Hcm Hr Hrate w) as [_ [_ Hs]]. by apply Hs.
  - by apply (run_out_call_ok m c cm out IH Hc w).
Qed.


(** a write on an open PCM output stream that is routed nowhere has no
    effect; otherwise it accepts all the bytes and the stream is running, or
    it reports an error, [-ENOMEM] exactly when the stream could not be
    opened, which leaves it in standby for the next write to try again. *)
Theorem pcm_write_outcomes a0 cm out buffer bytes (w : world K) :
  cm_ok m (ad_cm a0) → rates_set (ad_cm a0) → out_session a0 cm (StreamOutPcm out) →
  if get_current_routes cm (oc_hw (op_common out)) =? 0
  then (out_pcm_write cm out buffer bytes w) = ((0, out), w)
  else out_write_outcome bytes (out_pcm_write cm out buffer bytes w).1.
Proof.
  intros Hcm Hr Hs. destruct (out_session_ok _ _ _ Hcm Hr Hs) as [_ Hr' Ho].
  destruct (out_write_ok cm out buffer bytes Ho Hr' w) as [_ [_ Hw]].
  unfold out_pcm_write in *. by destruct (_ =? 0).
Qed.

End life.

(** ** A session on the software device *)

Definition demo_out_config (format : Z) : audio_config := AudioConfig 48000 0x3 format.

Lemma hal_rates : rates_set hal_config.
Proof.
  intros i s Hs. unfold get_stream_at in Hs. cbn [hal_config cm_streams set_cm_streams] in Hs.
  assert (Hall : Forall (λ s, hw_rate (s_info s) = 48000) (da_items hal_streams))
    by (cbn [hal_streams da_items]; repeat constructor).
  rewrite Forall_lookup in Hall. by rewrite (Hall i s Hs).
Qed.

(** The PCM stream opened for the speaker. *)
Definition demo_out_open : audio_device * option out_stream :=
  let r := (adev_open_output_stream hal_dev 0x2 (demo_out_config 0) demo_hal_world).1 in
  (r.2, r.1.2).

Definition demo_out : out_stream :=
  default (StreamOutPcm (out_pcm0 (out_common0 0))) demo_out_open.2.

Lemma demo_out_session : out_session hal_dev (ad_cm demo_out_open.1) demo_out.
Proof.
  apply (session_open hal_dev 0x2 (demo_out_config 0) demo_hal_world demo_out); [done|].
  vm_compute. reflexivity.
Qed.

(** The stream after a write of two frames. *)
Definition demo_out_written : Z * config_mgr * out_stream :=
  (run_out_call (OcWrite [1; 2; 3; 4; 5; 6; 7; 8] 8 nobody) (ad_cm demo_out_open.1) demo_out
     demo_hal_world).1.

Lemma demo_written_session : out_session hal_dev demo_out_written.1.2 demo_out_written.2.
Proof.
  apply (session_call hal_dev (ad_cm demo_out_open.1) demo_out
           (OcWrite [1; 2; 3; 4; 5; 6; 7; 8] 8 nobody) demo_hal_world); [apply demo_out_session|exact I].
Qed.


Definition demo_pcm_out : stream_out_pcm :=
  match demo_out with StreamOutPcm o => o | _ => out_pcm0 (out_common0 0) end.

Lemma pcm_write_outcomes_witness :
  get_current_routes (ad_cm demo_out_open.1) (oc_hw (op_common demo_pcm_out)) = 0x2
  ∧ out_write_outcome 4 (out_pcm_write (ad_cm demo_out_open.1) demo_pcm_out [1; 2; 3; 4] 4
       demo_hal_world).1.
Proof.
  assert (Hr : get_current_routes (ad_cm demo_out_open.1) (oc_hw (op_common demo_pcm_out)) = 0x2)
    by (vm_compute; reflexivity).
  split; [exact Hr|].
  assert (Hs : out_session (K:=soft_hal) hal_dev (ad_cm demo_out_open.1)
                 (StreamOutPcm demo_pcm_out)).
  { replace (StreamOutPcm demo_pcm_out) with demo_out by (vm_compute; reflexivity).
    apply demo_out_session. }
  pose proof (pcm_write_outcomes demo_mixer hal_dev (ad_cm demo_out_open.1) demo_pcm_out
                [1; 2; 3; 4] 4 demo_hal_world hal_config_ok hal_rates Hs) as Hw.
  rewrite Hr in Hw. exact Hw.
Defined.

(** A compressed stream of the configuration that has not been opened. *)
Definition demo_compress : stream_out_compress := out_compress0 (out_common0 0).

(** Whatever pauses, resumes and flushes meet it, a write is safe; a standby
    between the locks of a write leaves it without a handle. *)
Definition standby_meanwhile (k : nat) (out : stream_out_compress)
  : M (world soft_hal) stream_out_compress :=
  match k with
  | 0%nat => '(_, out) ← out_compress_standby out; mret out
  | _ => mret out
  end.

Example standby_during_write :
  w_faults (out_compress_write (λ _, meanwhile [MeanwhilePause; MeanwhileFlush])
              hal_config demo_compress [1; 2; 3; 4] 4 demo_hal_world).2 = []
  ∧ w_faults (out_compress_write standby_meanwhile
                hal_config demo_compress [1; 2; 3; 4] 4 demo_hal_world).2 = [NullDeref; NullDeref].
Proof. vm_compute. by split. Qed.
