(* ===== verification/HalKeeps.v ===== *)
(** * What the calls on a stream leave alone

    The calls of src/audio/audio_hw.c on an output or input stream keep its
    place in the configuration and its identity, whatever the drivers do and
    whether or not the call is in order. *)

From S2P Require Import Prelude Kernel ConfigData CStrings PcmKernel Pcm Routing.
From S2P Require Import RouteInv VoiceTrigger VoiceFacts HalOut HalIn HalDev.
From S2P Require Import HalOutFacts HalOutSafe.
From Stdlib Require Import Ascii String.

#[global] Open Scope Z_scope.

(** [keeps R x f m]: the object [m] returns is in relation [R] to [x]. *)
Definition keeps {K X A} (R : relation X) (x : X) (f : A → X) (m : M (world K) A) : Prop :=
  returns m (λ a, R x (f a)).

Section keeps.
  Context {K X : Type} (R : relation X) `{!PreOrder R}.

Lemma keeps_bind {A B} x g (f : B → X) (m : M (world K) A) k :
  keeps R x g m → (∀ a, keeps R (g a) f (k a)) → keeps R x f (m ≫= k).
Proof.
  intros Hm Hk. eapply returns_bind; [exact Hm|]. intros a Ha. cbn in Ha.
  eapply returns_post; [apply Hk|]. intros b Hb. by etrans.
Qed.

Lemma keeps_skip {A B} x (f : B → X) (m : M (world K) A) k :
  (∀ a, keeps R x f (k a)) → keeps R x f (m ≫= k).
Proof. intros Hk. eapply returns_bind; [apply returns_true|]. intros a _. apply Hk. Qed.

Lemma keeps_ret {A} x (f : A → X) a : R x (f a) → keeps (K:=K) R x f (mret a).
Proof. intros Ho s. exact Ho. Qed.

Lemma keeps_if {A} x (f : A → X) (b : bool) (m1 m2 : M (world K) A) :
  keeps R x f m1 → keeps R x f m2 → keeps R x f (if b then m1 else m2).
Proof. by destruct b. Qed.

End keeps.

(** Skips the steps that do not return a stream. *)
Ltac keeps_step :=
  lazymatch goal with
  | |- keeps _ _ _ (if _ then _ else _) => apply keeps_if
  | |- keeps _ _ _ (@mbind _ _ ?A _ _ _) =>
    lazymatch A with
    | context [stream_out_compress] => fail
    | context [stream_out_pcm] => fail
    | context [stream_in_pcm] => fail
    | _ => apply keeps_skip; intros ?
    end
  | |- keeps _ _ _ (mret _) => apply keeps_ret; cbn; first [reflexivity | done]
  | |- keeps _ _ _ _ => progress cbv zeta
  end.
Ltac keeps_auto := repeat keeps_step.

(** ** Compressed output

    A call keeps the stream's place, [use_async], and a request that has not
    been taken. *)
Definition out_kept (out out' : stream_out_compress) : Prop :=
  oc_use_async (ox_common out') = oc_use_async (ox_common out)
  ∧ (oc_async_mode (ox_common out) ≠ ASYNC_NONE →
     oc_async_mode (ox_common out') = oc_async_mode (ox_common out))
  ∧ oc_hw (ox_common out') = oc_hw (ox_common out).

#[export] Instance out_kept_preorder : PreOrder out_kept.
Proof.
  split; [done|]. intros a b c (U1 & M1 & H1) (U2 & M2 & H2). split_and!; [congruence| |congruence].
  intros Hm. specialize (M1 Hm). rewrite <- M1 in Hm |- *. auto.
Qed.

Lemma kept_signal out mode :
  out_kept out (set_ox_common (signal_async_thread (ox_common out) mode).2 out).
Proof. unfold signal_async_thread. by case_bool_decide. Qed.

Section compress.
  Context {K : Type}.
  Context `{!AlsaCtl K, !AlsaPcm K, !TinyCompress K, !Clock K, !Resampler K}.
  Context `{!AudioH, !HalPlatform}.

Lemma standby_keeps out : keeps (K:=K) out_kept out snd (do_standby_compress_l out).
Proof.
  unfold do_standby_compress_l. keeps_auto.
  apply (keeps_bind out_kept _ id); [keeps_auto|]. intros o. keeps_auto.
Qed.

Lemma open_keeps cm out : keeps (K:=K) out_kept out snd (open_output_compress cm out).
Proof.
  unfold open_output_compress. keeps_auto.
  match goal with |- keeps _ _ _ (match ?c with _ => _ end) =>
    destruct c as [[[h size] n]|] end; keeps_auto.
Qed.

Lemma start_keeps out : keeps (K:=K) out_kept out snd (start_output_compress out).
Proof.
  unfold start_output_compress. keeps_auto.
  apply (keeps_bind out_kept _ snd); [apply standby_keeps|]. intros [r o]. keeps_auto.
Qed.

Lemma meanwhile_keeps l out : keeps (K:=K) out_kept out id (meanwhile l out).
Proof.
  revert out. induction l as [|c l IH]; intros out; cbn [meanwhile]; [keeps_auto|].
  apply (keeps_bind out_kept _ snd); [|intros [r o]; apply IH].
  destruct c; cbn [run_meanwhile].
  - unfold out_compress_pause. keeps_auto.
  - unfold out_compress_resume. keeps_auto.
  - unfold out_compress_flush. keeps_auto.
Qed.

Lemma write_keeps l cm out b n :
  keeps (K:=K) out_kept out snd (out_compress_write (λ k, meanwhile (l k)) cm out b n).
Proof.
  unfold out_compress_write. apply (keeps_bind out_kept _ snd); [apply open_keeps|].
  intros [r o]. cbn. apply keeps_if; [keeps_auto|].
  apply (keeps_bind out_kept _ id); [apply meanwhile_keeps|]. intros o0. cbn. keeps_auto.
  apply (keeps_bind out_kept _ id); [apply meanwhile_keeps|]. intros o1. cbn.
  apply (keeps_bind out_kept _ snd).
  { apply keeps_if; [|keeps_auto].
    apply (keeps_bind out_kept _ id); [apply meanwhile_keeps|]. intros o2. apply start_keeps. }
  intros [st o']. cbn. keeps_auto. rewrite (surjective_pairing (signal_async_thread _ _)).
  apply keeps_ret, kept_signal.
Qed.

Lemma params_keeps cm out kv :
  keeps (K:=K) out_kept out (λ r, r.1.2) (out_compress_set_parameters cm out kv).
Proof.
  unfold out_compress_set_parameters. cbv zeta. keeps_auto. destruct a1 as [r cm']. keeps_auto.
Qed.

Lemma drain_keeps l out t :
  keeps (K:=K) out_kept out snd (out_compress_drain (λ k, meanwhile (l k)) out t).
Proof.
  unfold out_compress_drain. apply keeps_if.
  2:{ destruct t; keeps_auto;
        repeat (apply (keeps_bind out_kept _ id); [apply meanwhile_keeps|]; intros ?; cbn; keeps_auto). }
  rewrite (surjective_pairing (signal_async_thread _ _)).
  apply keeps_ret, kept_signal.
Qed.

Lemma call_keeps c cm out :
  returns (S:=world K) (run_out_call c cm (StreamOutCompress out)) (λ r,
    ∃ out', r.2 = StreamOutCompress out' ∧ out_kept out out').
Proof.
  assert (Hc : ∀ m : M (world K) (Z * stream_out_compress), keeps (K:=K) out_kept out snd m →
    returns (S:=world K) ('(r, o) ← m; mret (r, cm, StreamOutCompress o)) (λ r,
      ∃ out', r.2 = StreamOutCompress out' ∧ out_kept out out')).
  { intros m Hm. eapply returns_bind; [exact Hm|]. intros [r o] Ho. apply returns_ret. eauto. }
  unfold run_out_call. destruct c as [b n l| |kv| | |t l| | |o]; try apply Hc.
  - apply write_keeps.
  - apply standby_keeps.
  - eapply returns_bind; [apply params_keeps|]. intros [[r o] cm'] Ho. apply returns_ret. eauto.
  - unfold out_compress_pause. keeps_auto.
  - unfold out_compress_resume. keeps_auto.
  - apply drain_keeps.
  - unfold out_compress_flush. keeps_auto.
  - eapply returns_bind; [apply returns_true|]. intros [r p] _. apply returns_ret. by eexists.
  - eapply returns_bind; [apply returns_true|]. intros cm' _. apply returns_ret. by eexists.
Qed.

End compress.

(** ** PCM output *)

Definition pcm_kept (out out' : stream_out_pcm) : Prop :=
  oc_hw (op_common out') = oc_hw (op_common out).

#[export] Instance pcm_kept_preorder : PreOrder pcm_kept.
Proof. split; [done|]. unfold pcm_kept. congruence. Qed.

Section pcm.
  Context {K : Type}.
  Context `{!AlsaCtl K, !AlsaPcm K, !TinyCompress K, !Clock K, !Resampler K}.
  Context `{!AudioH, !HalPlatform}.

Lemma fill_params_keeps out config :
  keeps (K:=K) pcm_kept out id (out_pcm_fill_params out config).
Proof. unfold out_pcm_fill_params. keeps_auto. Qed.

Lemma start_pcm_keeps cm out : keeps (K:=K) pcm_kept out snd (start_output_pcm cm out).
Proof.
  unfold start_output_pcm. keeps_auto. destruct a0 as [h c]. keeps_auto.
  apply (keeps_bind pcm_kept _ id); [apply (fill_params_keeps (set_op_pcm _ _))|].
  intros o. keeps_auto.
Qed.

Lemma write_pcm_keeps cm out b n : keeps (K:=K) pcm_kept out snd (out_pcm_write cm out b n).
Proof.
  unfold out_pcm_write. keeps_auto. apply (keeps_bind pcm_kept _ snd).
  - keeps_auto. apply (keeps_bind pcm_kept _ snd); [apply start_pcm_keeps|].
    intros [r o]. apply keeps_ret. cbn. by destruct (r =? 0).
  - intros [r o]. cbn. keeps_auto. destruct a0 as [x y]. keeps_auto.
Qed.

Lemma standby_pcm_keeps out : keeps (K:=K) pcm_kept out id (out_pcm_standby out).
Proof. unfold out_pcm_standby, do_out_pcm_standby. keeps_auto. Qed.

End pcm.

(** ** Output streams

    [out_hw]: the place of an output stream in the configuration. *)
Definition out_hw (o : out_stream) : nat := oc_hw (out_common o).

Definition is_config (c : out_call) : bool := match c with OcConfig _ => true | _ => false end.

Section out.
  Context {K : Type}.
  Context `{!AlsaCtl K, !AlsaPcm K, !TinyCompress K, !Clock K, !Resampler K}.
  Context `{!AudioH, !HalPlatform}.

Lemma invoke_loop_refs cm i l ret :
  returns (S:=world K) (invoke_loop cm i l ret) (λ r, refs r.2 = refs cm).
Proof.
  revert cm ret. induction l as [|[k v] l IH]; intros cm ret; cbn [invoke_loop].
  { by apply returns_ret. }
  eapply returns_bind; [apply use_case_refs|]. intros [r cm'] Hr. cbn [snd] in Hr.
  eapply returns_post; [apply IH|]. intros r' Hr'. congruence.
Qed.

Lemma invoke_refs cm s kv :
  returns (S:=world K) (stream_invoke_usecases cm s kv) (λ r, refs r.2 = refs cm).
Proof.
  unfold stream_invoke_usecases. eapply returns_bind; [apply returns_true|]. intros ok _.
  destruct ok; [|by apply returns_ret]. destruct s; [apply invoke_loop_refs|by apply returns_ret].
Qed.

Lemma set_parameters_refs cm out kv :
  returns (S:=world K) (out_set_parameters cm out kv) (λ r, refs r.2 = refs cm).
Proof.
  unfold out_set_parameters. eapply returns_bind; [apply returns_true|]. intros v _.
  eapply (returns_bind _ _ (λ cm', refs cm' = refs cm)).
  { destruct v; [apply apply_route_refs|by apply returns_ret]. }
  intros cm1 H1. eapply returns_bind; [apply invoke_refs|]. intros [r cm2] H2.
  apply returns_ret. cbn in *. congruence.
Qed.

(** A call on an output stream moves neither the stream nor any reference. *)
Lemma run_out_call_keeps c cm out :
  is_config c = false →
  returns (S:=world K) (run_out_call c cm out) (λ r,
    out_hw r.2 = out_hw out ∧ refs r.1.2 = refs cm).
Proof.
  intros Hc. destruct out as [out|out].
  - unfold run_out_call.
    assert (Hp : ∀ m : M (world K) (Z * stream_out_pcm), keeps pcm_kept out snd m →
      returns (S:=world K) ('(r, o) ← m; mret (r, cm, StreamOutPcm o)) (λ r,
        out_hw r.2 = oc_hw (op_common out) ∧ refs r.1.2 = refs cm)).
    { intros m Hm. eapply returns_bind; [exact Hm|]. intros [r o] Ho. by apply returns_ret. }
    destruct c as [b n l| |kv| | |t l| | |o]; try (by apply returns_ret); [..|done].
    + apply Hp, write_pcm_keeps.
    + apply Hp. apply (keeps_bind pcm_kept _ id); [apply standby_pcm_keeps|].
      intros o. keeps_auto.
    + eapply returns_bind; [apply set_parameters_refs|]. intros [r cm'] Hr. by apply returns_ret.
  - intros w. destruct (call_keeps c cm out w) as (o & Ho & _ & _ & Hh).
    split; [by rewrite Ho|]. revert w Ho Hh. 
    assert (Hr : returns (S:=world K) (run_out_call c cm (StreamOutCompress out))
      (λ r, refs r.1.2 = refs cm)); [|intros w _ _; apply Hr].
    unfold run_out_call.
    destruct c as [b n l| |kv| | |t l| | |p]; [..|done];
      try (eapply returns_bind; [apply returns_true|]; intros [r o'] _; by apply returns_ret).
    unfold out_compress_set_parameters. cbv zeta.
    eapply (returns_bind _ _ (λ r, refs r.2 = refs cm)).
    + do 2 (eapply returns_bind; [apply returns_true|]; intros ? _).
      eapply returns_bind; [apply set_parameters_refs|]. intros [r cm'] Hr. by apply returns_ret.
    + intros [[r o'] cm'] Hr. by apply returns_ret.
Qed.

End out.

(** ** Input streams *)

Definition in_kept (i i' : stream_in_pcm) : Prop :=
  ip_id i' = ip_id i ∧ ic_hw (ip_common i') = ic_hw (ip_common i).

#[export] Instance in_kept_preorder : PreOrder in_kept.
Proof. split; [done|]. intros a b c [? ?] [? ?]. split; congruence. Qed.

Section input.
  Context {K : Type}.
  Context `{!AlsaCtl K, !AlsaPcm K, !TinyCompress K, !Clock K, !Resampler K}.
  Context `{!AudioH, !HalPlatform}.
  Variable fuel : nat.

Lemma fill_keeps i p : keeps (K:=K) in_kept i id (fill_buffer fuel i p).
Proof. unfold fill_buffer. keeps_auto. destruct a0 as [[st got] p']. keeps_auto. Qed.

Lemma get_keeps i n : keeps (K:=K) in_kept i snd (get_next_buffer fuel i n).
Proof.
  unfold get_next_buffer. keeps_auto. apply (keeps_bind in_kept _ snd).
  - keeps_auto. apply (keeps_bind in_kept _ id); [apply fill_keeps|]. intros j. keeps_auto.
  - intros [failed j]. cbn [snd]. keeps_auto.
Qed.

Lemma run_keeps r i : keeps (K:=K) in_kept i snd (run_resampler fuel r i).
Proof.
  revert i. induction r as [res|n k IH|n k IH]; intros i; cbn [run_resampler].
  - keeps_auto. destruct a as [out n]. keeps_auto.
  - apply (keeps_bind in_kept _ snd); [apply get_keeps|]. intros [[[c d] m] j]. apply IH.
  - eapply returns_post; [apply IH|]. intros x Hx. exact Hx.
Qed.

Lemma resample_keeps turns i b done_ todo :
  keeps (K:=K) in_kept i snd (resample_loop fuel turns i b done_ todo).
Proof.
  revert i b done_. induction turns as [|turns IH]; intros i b done_; cbn [resample_loop];
    keeps_auto. destruct (rs_resampler _) as [r|]; keeps_auto.
  apply (keeps_bind in_kept _ snd); [apply run_keeps|]. intros [[out n] j]. cbn [snd].
  keeps_auto. apply IH.
Qed.

Lemma resampler_init_keeps i rate channels fragment :
  keeps (K:=K) in_kept i snd (in_resampler_init i rate channels fragment).
Proof. unfold in_resampler_init. keeps_auto. destruct a2 as [ret r]. keeps_auto. Qed.

Lemma fill_in_params_keeps i config : keeps (K:=K) in_kept i id (in_pcm_fill_params i config).
Proof. unfold in_pcm_fill_params. keeps_auto. Qed.

Lemma open_input_keeps cm i : keeps (K:=K) in_kept i snd (do_open_pcm_input cm i).
Proof.
  unfold do_open_pcm_input. destruct (ic_hw (ip_common i)) as [s|] eqn:Hs; keeps_auto.
  destruct a0 as [h c]. keeps_auto.
  apply (keeps_bind in_kept _ id); [apply (fill_in_params_keeps (set_ip_handle _ _))|].
  intros j. keeps_auto. apply (keeps_bind in_kept _ snd); [apply resampler_init_keeps|].
  intros [ret j']. cbn [snd]. keeps_auto.
Qed.

Lemma read_pcm_keeps cm i b n : keeps (K:=K) in_kept i snd (do_in_pcm_read fuel cm i b n).
Proof.
  unfold do_in_pcm_read. keeps_auto. apply (keeps_bind in_kept _ snd).
  - unfold start_pcm_input_stream. keeps_auto.
    apply (keeps_bind in_kept _ snd); [apply open_input_keeps|]. intros [ret j].
    apply keeps_ret. cbn. by destruct (ret =? 0).
  - intros [ret j]. cbn [snd]. keeps_auto. apply (keeps_bind in_kept _ snd).
    + destruct (rs_resampler _); [apply resample_keeps|]. keeps_auto.
      destruct a2 as [[x got] p']. keeps_auto.
    + intros [[ret' b'] j']. keeps_auto.
Qed.

Lemma read_compress_keeps cm i b n :
  keeps (K:=K) in_kept i snd (do_in_compress_pcm_read cm i b n).
Proof.
  unfold do_in_compress_pcm_read. apply (keeps_bind in_kept _ snd).
  - unfold start_compress_pcm_input_stream. keeps_auto. apply (keeps_bind in_kept _ snd).
    + unfold do_open_compress_pcm_in. destruct (ic_hw (ip_common i)) eqn:Hs; keeps_auto.
      destruct a0 as [[[h size] k]|]; keeps_auto.
    + intros [ret j]. cbn [snd]. keeps_auto.
  - intros [ret j]. cbn [snd]. keeps_auto. destruct a as [ret' got]. keeps_auto.
Qed.

Lemma read_keeps a i b n : keeps (K:=K) in_kept i snd (in_pcm_read fuel a i b n).
Proof.
  unfold in_pcm_read. apply (keeps_bind in_kept _ snd).
  - destruct (ic_hw (ip_common i)) eqn:Hs; keeps_auto;
      [apply read_compress_keeps|apply read_pcm_keeps].
  - intros [[ret b'] j]. cbn [snd]. apply keeps_skip. intros [r b''].
    eapply (returns_bind _ _ (λ c, ic_hw c = ic_hw (ip_common j))).
    + unfold do_in_set_read_timestamp. eapply returns_bind; [apply returns_true|].
      intros ns _. by apply returns_ret.
    + intros c Hc. apply returns_ret. by split.
Qed.

Lemma standby_in_keeps cm i : keeps (K:=K) in_kept i id (in_pcm_standby cm i).
Proof.
  unfold in_pcm_standby. destruct (ic_hw (ip_common i)) as [s|] eqn:Hs; keeps_auto.
  - unfold do_in_compress_pcm_standby. apply (keeps_bind in_kept _ id); [|intros j]; keeps_auto.
  - unfold do_in_pcm_standby. apply (keeps_bind in_kept _ id); [keeps_auto|]. intros j.
    apply (keeps_bind in_kept _ id); [|intros j'; keeps_auto].
    unfold in_resampler_free. keeps_auto.
Qed.

Lemma close_compress_in_keeps i : keeps (K:=K) in_kept i id (do_in_compress_pcm_close i).
Proof. unfold do_in_compress_pcm_close. keeps_auto. Qed.

End input.

(** ** The voice trigger

    It keeps the global stream, and what the configuration says of the
    hardware. *)
Definition same_global (a a' : audio_device) : Prop := ad_global_stream a' = ad_global_stream a.

Definition dev_kept (a a' : audio_device) : Prop :=
  same_global a a' ∧ infos (ad_cm a') = infos (ad_cm a).

#[export] Instance same_global_preorder : PreOrder same_global.
Proof. split; [done|]. unfold same_global. congruence. Qed.

#[export] Instance dev_kept_preorder : PreOrder dev_kept.
Proof. split; [done|]. intros a b c [? ?] [? ?]. split; [by etrans|congruence]. Qed.

Section voice.
  Context {K : Type} `{!AlsaCtl K, !AlsaPcm K, !AudioH, !HalPlatform}.

Lemma open_voice_kept name a :
  keeps (K:=K) dev_kept a id (do_voice_trigger_open_stream name a).
Proof.
  unfold do_voice_trigger_open_stream. eapply returns_bind; [apply get_named_stream_infos|].
  intros [[s|] cm] Hi; cbn [snd] in Hi; [|by apply returns_ret]. cbv zeta.
  eapply returns_bind; [apply apply_route_infos|]. intros cm' Hi'. apply returns_ret.
  split; [done|]. cbn in *. congruence.
Qed.

Lemma close_voice_kept a :
  keeps (K:=K) dev_kept a id (do_voice_trigger_close_stream a).
Proof.
  unfold do_voice_trigger_close_stream. destruct (ad_voice_stream a); [|by apply keeps_ret].
  eapply returns_bind; [apply apply_route_infos|]. intros cm1 H1.
  eapply returns_bind; [apply release_infos|]. intros cm2 H2. apply returns_ret.
  split; [done|]. cbn in *. congruence.
Qed.

Lemma ended_kept a : keeps (K:=K) dev_kept a id (voice_trigger_audio_ended_locked a).
Proof.
  unfold voice_trigger_audio_ended_locked. destruct (ad_voice_st a);
    first [by apply keeps_ret
          |apply (keeps_bind dev_kept _ id); [apply close_voice_kept|];
           intros a'; by apply keeps_ret].
Qed.

Lemma enable_kept a : keeps (K:=K) dev_kept a id (voice_trigger_enable a).
Proof.
  unfold voice_trigger_enable. destruct (ad_voice_st a);
    first [by apply keeps_ret
          |apply (keeps_bind dev_kept _ id); [apply open_voice_kept|];
           intros a'; by apply keeps_ret].
Qed.

Lemma disable_kept a : keeps (K:=K) dev_kept a id (voice_trigger_disable a).
Proof.
  unfold voice_trigger_disable. destruct (ad_voice_st a);
    first [by apply keeps_ret
          |apply (keeps_bind dev_kept _ id); [apply close_voice_kept|];
           intros a'; by apply keeps_ret].
Qed.

Lemma set_params_kept parms a :
  keeps (K:=K) dev_kept a id (voice_trigger_set_params parms a).
Proof.
  unfold voice_trigger_set_params. cbv zeta. set (a1 := match _ with Some _ => _ | None => a end).
  assert (H1 : dev_kept a a1) by (unfold a1; by case_match).
  assert (Hk : ∀ m : M (world K) audio_device, keeps dev_kept a1 id m → keeps dev_kept a id m).
  { intros m Hm. eapply returns_post; [exact Hm|]. intros x Hx. by etrans. }
  destruct (parms "voice_trigger"%string); [|by apply keeps_ret].
  repeat apply keeps_if; apply Hk; [|apply enable_kept|apply disable_kept|by apply keeps_ret].
  apply keeps_ret. unfold voice_trigger_triggered. by destruct (ad_voice_st a1).
Qed.

End voice.
