(* ===== verification/HalInFacts.v ===== *)
(** * Input streams deliver audio or silence

    [in_pcm_read] of src/audio/audio_hw.c never reports an error; on a device
    whose streams are PCM at the client's rate, no call on an input stream
    executes undefined behaviour from its opening to its closing. *)

From S2P Require Import Prelude Kernel Mixer ConfigData CStrings PcmKernel Pcm PcmFacts.
From S2P Require Import ConfigData Routing RouteInv RoutingFacts StreamFacts VoiceTrigger.
From S2P Require Import VoiceFacts HalOut HalIn HalDev SoftHal ParserSound HalOutFacts.
From S2P Require Import HalOutSafe HalKeeps SoftPcm.
From Stdlib Require Import Ascii String.

#[global] Open Scope Z_scope.

(** ** What a read gives *)

(** Nothing is to be captured: the microphone is muted, or the stream has no
    source or no route. *)
Definition silent (a : audio_device) (i : stream_in_pcm) : bool :=
  ad_mic_mute a
  || match ic_hw (ip_common i) with
     | Some s => get_current_routes (ad_cm a) s =? 0
     | None => true
     end.

Section read.
  Context {K : Type}.
  Context `{!AlsaCtl K, !AlsaPcm K, !TinyCompress K, !Clock K, !Resampler K}.
  Context `{!AudioH, !HalPlatform}.
  Variable fuel : nat.

Lemma do_in_pcm_read_ret cm i buffer bytes :
  returns (S:=world K) (do_in_pcm_read fuel cm i buffer bytes)
    (λ r, r.1.1 < 0 ∨ r.1.1 = s32 bytes).
Proof.
  unfold do_in_pcm_read. eapply returns_bind; [apply returns_true|]. intros ? _. cbv zeta.
  eapply returns_bind; [apply returns_true|]. intros [ret j] _.
  destruct (Z.ltb_spec ret 0); [apply returns_ret; by left|].
  eapply returns_bind; [apply returns_true|]. intros [[ret' b] j'] _. apply returns_ret. cbn.
  destruct (Z.leb_spec 0 ret'); [by right|by left].
Qed.

(** Which streams of the configuration are compressed captures. *)
Definition compressed_at (cm : config_mgr) (s : nat) : bool :=
  match get_stream_at cm s with
  | Some st => stream_is_compressed_in (s_info st)
  | None => false
  end.

(** a read of an input stream never fails: it gives a positive number of
    bytes, for a PCM stream all the bytes asked for.  With the microphone
    muted, without a source or without a route it gives all of them as
    silence. *)
Theorem read_never_fails a i buffer bytes (w : world K) :
  0 < bytes < 2 ^ 31 →
  let '(ret, buffer', _) := (in_pcm_read fuel a i buffer bytes w).1 in
  0 < ret
  ∧ (ret = bytes ∨ ∃ s, ic_hw (ip_common i) = Some s ∧ compressed_at (ad_cm a) s = true)
  ∧ (silent a i = true →
     ret = bytes ∧ take (Z.to_nat bytes) buffer' = replicate (Z.to_nat bytes) 0).
Proof.
  intros Hb. assert (Hs : s32 bytes = bytes) by (apply s32_small; unfold is_s32; lia).
  revert w.
  change (returns (S:=world K) (in_pcm_read fuel a i buffer bytes) (λ '(ret, buffer', _),
    0 < ret
    ∧ (ret = bytes ∨ ∃ s, ic_hw (ip_common i) = Some s ∧ compressed_at (ad_cm a) s = true)
    ∧ (silent a i = true →
       ret = bytes ∧ take (Z.to_nat bytes) buffer' = replicate (Z.to_nat bytes) 0))).
  unfold in_pcm_read.
  eapply (returns_bind _ _ (λ r : Z * list Z * stream_in_pcm,
    (r.1.1 <= 0 ∨ r.1.1 = bytes
     ∨ ∃ s, ic_hw (ip_common i) = Some s ∧ compressed_at (ad_cm a) s = true)
    ∧ (silent a i = true → (r.1.1 <=? 0) || ad_mic_mute a = true))).
  { unfold silent. destruct (ic_hw (ip_common i)) as [s|].
    2:{ apply returns_ret. cbn. split; [left; unfold EINVAL; lia|done]. }
    destruct (_ =? 0); [apply returns_ret; cbn; split; [left; unfold EINVAL; lia|done]|].
    assert (Hm : ∀ x : Z, ad_mic_mute a || false = true → (x <=? 0) || ad_mic_mute a = true)
      by (intros x; rewrite orb_false_r; intros ->; apply orb_true_r).
    eapply (returns_bind _ _ (λ hw, stream_is_compressed_in hw = true →
      compressed_at (ad_cm a) s = true)).
    { unfold hw_at, compressed_at. destruct (get_stream_at (ad_cm a) s) as [st|];
        [by apply returns_ret|].
      eapply returns_bind; [apply returns_true|]. intros ? _. by apply returns_ret. }
    intros hw Hhw. destruct (stream_is_compressed_in hw).
    - eapply returns_post; [apply returns_true|]. intros r _. split; [right; right; eauto|apply Hm].
    - eapply returns_post; [apply do_in_pcm_read_ret|]. intros r Hr. split; [|apply Hm].
      rewrite Hs in Hr. lia. }
  intros [[ret b] j] [Hret Hmute]. cbn [fst snd] in *.
  eapply (returns_bind _ _ (λ r : Z * list Z,
    0 < r.1
    ∧ (r.1 = bytes ∨ ∃ s, ic_hw (ip_common i) = Some s ∧ compressed_at (ad_cm a) s = true)
    ∧ (silent a i = true →
       r.1 = bytes ∧ take (Z.to_nat bytes) r.2 = replicate (Z.to_nat bytes) 0))).
  - destruct ((ret <=? 0) || ad_mic_mute a) eqn:Hsil.
    + eapply returns_bind; [apply returns_true|]. intros ? _. apply returns_ret. cbn [fst snd].
      rewrite Hs. split_and!; [lia|by left|]. intros _. split; [done|].
      by rewrite take_app_length' by by rewrite length_replicate.
    + apply returns_ret. cbn [fst snd]. apply orb_false_iff in Hsil as [Hpos%Z.leb_gt _].
      split_and!; [lia|destruct Hret as [?|[?|?]]; [lia|by left|by right]|].
      intros Hsi. by specialize (Hmute Hsi).
  - intros [ret' b'] Hr. eapply returns_bind; [apply returns_true|]. intros c _.
    by apply returns_ret.
Qed.

(** ** Capturing through a PCM stream *)

Definition only_hang (f : fault) : Prop := f = Hang.

Lemma pcm_read_loop_ok turns p data n :
  limits (K:=K) only_hang (pcm_read_loop turns p data n) (λ r, same_stream p r.2).
Proof.
  revert p data. induction turns as [|turns IH]; intros p data; cbn [pcm_read_loop].
  { eapply limits_bind; [by apply (limits_raise _ _ (λ _, True))|]. intros ? _.
    by apply limits_ret. }
  assert (Htr : ∀ q, same_stream p q → limits (K:=K) only_hang
    ('(r, got) ← sys (ioctl_readi_frames (p_fd q) n);
     if negb (r =? 0) then
       errno ← sys sys_errno;
       if errno =? EPIPE then
         pcm_read_loop turns (set_underruns (s32 (p_underruns (set_run false false q) + 1))
           (set_run false false q)) got n
       else '(r, q) ← oops (set_run false false q) errno "cannot read stream data"; mret (r, got, q)
     else mret (0, got, q)) (λ r, same_stream p r.2)).
  { intros q Hq. eapply limits_bind; [apply limits_yields, yields_sys_true|]. intros [r got] _.
    apply limits_if; intros _; [|by apply limits_ret].
    eapply limits_bind; [apply limits_yields, yields_sys_true|]. intros e _.
    apply limits_if; intros _.
    - eapply limits_post; [apply IH|]. intros x Hx. etrans; [exact Hq|].
      etrans; [|exact Hx]. done.
    - eapply limits_bind; [apply limits_yields, oops_same|]. intros [r' q'] (_ & Hs & _).
      apply limits_ret. etrans; [exact Hq|]. etrans; [|exact Hs]. done. }
  apply limits_if; intros _; [|by apply Htr].
  eapply limits_bind; [apply limits_yields, pcm_start_same|]. intros [r q] [_ Hq].
  apply limits_if; intros _; [|by apply Htr].
  eapply limits_bind; [apply limits_yields, yields_sys_true|]. intros e _. by apply limits_ret.
Qed.

(** An open capture stream. *)
Record capturable (p : pcm) : Prop := {
  cp_ready : pcm_is_ready p = true;
  cp_in : p_flags p = PCM_IN;
  cp_channels : 0 < pc_channels (p_config p) < 2 ^ 26
}.

Lemma capturable_same p p' : same_stream p p' → capturable p → capturable p'.
Proof.
  intros Hs [Hr Hf Hc]. destruct Hs. split; [|congruence|congruence].
  unfold pcm_is_ready in *. congruence.
Qed.

Lemma pcm_read_ok p data n :
  capturable p → limits (K:=K) only_hang (pcm_read fuel p data n) (λ r, same_stream p r.2).
Proof.
  intros [_ Hf Hc]. unfold pcm_read. rewrite Hf. cbn match.
  change (negb (has_flag PCM_IN PCM_IN)) with false. cbn match.
  eapply limits_bind; [by apply limits_yields, xfer_frames_safe|]. intros ? _.
  apply pcm_read_loop_ok.
Qed.

End read.

(** ** PCM input at the client's rate *)

(** Every stream of the configuration is PCM and runs at [rate]. *)
Definition plain (rate : Z) (cm : config_mgr) : Prop :=
  ∀ k st, get_stream_at cm k = Some st →
    stream_is_compressed (s_info st) = false ∧ hw_rate (s_info st) = rate.

Lemma plain_infos rate cm cm' : infos cm' = infos cm → plain rate cm → plain rate cm'.
Proof.
  intros Hi Hp k st Hs. unfold get_stream_at in *.
  assert (Hs' : infos cm !! k = Some (s_info st))
    by (rewrite <- Hi; unfold infos; by rewrite list_lookup_fmap, Hs).
  unfold infos in Hs'. rewrite list_lookup_fmap in Hs'.
  apply fmap_Some in Hs' as (st0 & Hs0 & Heq). rewrite Heq. by apply (Hp k).
Qed.

Lemma not_compressed_in hw :
  stream_is_compressed hw = false → stream_is_compressed_in hw = false.
Proof. unfold stream_is_compressed, stream_is_compressed_in. by destruct (hw_type hw). Qed.

(** The stream is closed in standby and open for capture otherwise. *)
Definition capture_ok (standby : bool) (h : in_handle) : Prop :=
  if standby then h = HPcm Null else ∃ p, h = HPcm (Live (Some p)) ∧ capturable p.

(** The parameters of the client. *)
Record client_ok (i : stream_in_pcm) : Prop := {
  cl_channels : 0 <= ic_channel_count (ip_common i) <= 32;
  cl_rate : ic_sample_rate (ip_common i) ≠ 0;
  cl_frame : ic_frame_size (ip_common i) ≠ 0;
  cl_bytes : u32 (ic_frame_size (ip_common i) * ic_sample_rate (ip_common i)) ≠ 0;
  cl_resampler : rs_resampler (ip_resampler i) = None
}.

Record in_ok (cm : config_mgr) (i : stream_in_pcm) : Prop := {
  io_client : client_ok i;
  io_plain : plain (ic_sample_rate (ip_common i)) cm;
  io_hw s : ic_hw (ip_common i) = Some s → valid_stream cm s;
  io_closed : ic_hw (ip_common i) = None → ic_standby (ip_common i) = true;
  io_handle : capture_ok (ic_standby (ip_common i)) (ip_handle i)
}.

(** What reading and standby leave alone. *)
Definition same_input (i j : stream_in_pcm) : Prop :=
  ic_hw (ip_common j) = ic_hw (ip_common i)
  ∧ ic_channel_count (ip_common j) = ic_channel_count (ip_common i)
  ∧ ic_sample_rate (ip_common j) = ic_sample_rate (ip_common i)
  ∧ ic_frame_size (ip_common j) = ic_frame_size (ip_common i)
  ∧ rs_resampler (ip_resampler j) = rs_resampler (ip_resampler i).

#[export] Instance same_input_preorder : PreOrder same_input.
Proof.
  split; [by intros i|]. intros a b c (? & ? & ? & ? & ?) (? & ? & ? & ? & ?).
  split_and!; congruence.
Qed.

Lemma client_same i j : same_input i j → client_ok i → client_ok j.
Proof. intros (_ & Hc & Hr & Hf & Hs) []. split; congruence. Qed.

Lemma in_ok_same cm i j :
  same_input i j → (ic_hw (ip_common j) = None → ic_standby (ip_common j) = true) →
  capture_ok (ic_standby (ip_common j)) (ip_handle j) → in_ok cm i → in_ok cm j.
Proof.
  intros Hs Hn Hh [Hc Hp Hhw _ _]. pose proof Hs as (H1 & _ & H2 & _).
  split; [by eapply client_same|by rewrite H2|by rewrite H1|done|done].
Qed.

Section capture.
  Context {K : Type}.
  Context `{!AlsaCtl K, !AlsaPcm K, !AlsaPcmLaws K, !TinyCompress K, !Clock K, !Resampler K}.
  Context `{!AudioH, !HalPlatform}.
  Variable fuel : nat.
  Variable m : mixer.

Lemma delay_safe c n :
  u32 (ic_frame_size c * ic_sample_rate c) ≠ 0 →
  yields (K:=K) (do_in_realtime_delay c n) (λ _, True).
Proof.
  intros Hr. unfold do_in_realtime_delay. apply yields_if; intros _; [by apply yields_ret|]. cbv zeta.
  eapply yields_bind; [apply yields_check; by apply negb_true_iff, Z.eqb_neq|]. intros ? _.
  eapply yields_bind; [apply yields_sys_true|]. intros now _.
  apply yields_if; intros _; [apply yields_sys_true|by apply yields_ret].
Qed.

Lemma input_channels_bounds i :
  client_ok i → 0 < in_pcm_cfg_channel_count i < 2 ^ 26.
Proof.
  intros []. unfold in_pcm_cfg_channel_count, IN_CHANNEL_COUNT_DEFAULT.
  destruct (Z.eqb_spec (ic_channel_count (ip_common i)) 0); cbn [negb]; lia.
Qed.

(** Opening gives a capture handle, or an error and none. *)
Lemma open_input_ok cm i s :
  client_ok i → plain (ic_sample_rate (ip_common i)) cm →
  ic_hw (ip_common i) = Some s → valid_stream cm s →
  yields (K:=K) (do_open_pcm_input cm i) (λ r, same_input i r.2
    ∧ ic_standby (ip_common r.2) = ic_standby (ip_common i)
    ∧ (r.1 = 0 ∧ capture_ok false (ip_handle r.2) ∨ r.1 < 0 ∧ ip_handle r.2 = HPcm Null)).
Proof.
  intros Hc Hp Hs Hv. unfold do_open_pcm_input. rewrite Hs.
  eapply yields_bind; [by apply hw_at_safe|]. intros hw (st & Hst & ->).
  destruct (Hp _ _ Hst) as [_ Hrate]. cbv zeta. set (c := PcmConfig _ _ _ _ _ _ _ _).
  eapply yields_bind.
  { apply pcm_open_ok. intros ? [= <-]. split; [by apply input_channels_bounds|done]. }
  intros [h config'] Hop. apply yields_if; intros Hr.
  - eapply yields_bind; [apply close_pcm_ptr_safe|]. intros ? _. apply yields_ret.
    split; [by split_and!|]. split; [done|]. right. by split.
  - apply negb_false_iff in Hr. destruct h as [p|]; [|done]. cbn in Hr.
    destruct (Hop p eq_refl Hr) as (c' & -> & Ho & Hss). specialize (Hss c eq_refl).
    destruct Hss as (Hc1 & Hc2 & _). cbn [from_option id default].
    assert (Hrate' : pc_rate c' = ic_sample_rate (ip_common i)) by (by rewrite Hc2, <- Hrate).
    eapply (yields_bind _ _ (λ j, same_input i j
      ∧ ic_standby (ip_common j) = ic_standby (ip_common i)
      ∧ ip_handle j = HPcm (Live (Some p)))).
    { unfold in_pcm_fill_params. eapply yields_bind.
      - apply yields_check, negb_true_iff, Z.eqb_neq. rewrite Hrate'. apply Hc.
      - intros ? _. apply yields_ret. by split_and!. }
    intros j (Hsame & Hsb & Hj). unfold in_get_sample_rate.
    pose proof Hsame as (_ & _ & Hsr & _). rewrite Hsr.
    rewrite (proj2 (Z.eqb_neq _ _) (cl_rate _ Hc)). cbn [negb].
    eapply yields_bind; [by apply (yields_ret _ (λ x, x = ic_sample_rate (ip_common i)))|].
    intros ? ->. rewrite Hrate', Z.eqb_refl. cbn [negb]. apply yields_ret. split; [done|].
    split; [done|]. left. split; [done|]. exists p. split; [done|].
    destruct (op_sound _ _ _ Ho) as (Hch & _ & _). split; [done|apply Ho|].
    rewrite Hch, Hc1. by apply input_channels_bounds.
Qed.

Lemma read_pcm_ok cm i s buffer n :
  in_ok cm i → ic_hw (ip_common i) = Some s →
  limits (K:=K) only_hang (do_in_pcm_read fuel cm i buffer n) (λ r,
    in_ok cm r.2 ∧ same_input i r.2).
Proof.
  intros Hok Hs. pose proof Hok as [Hc Hp Hv Hcl Hh]. specialize (Hv s Hs).
  unfold do_in_pcm_read. eapply limits_bind.
  { apply limits_yields, yields_check, negb_true_iff, Z.eqb_neq, Hc. }
  intros ? _. cbv zeta.
  eapply (limits_bind _ _ _ (λ r, same_input i r.2
    ∧ (r.1 < 0 ∧ ic_standby (ip_common r.2) = true ∧ ip_handle r.2 = HPcm Null
       ∨ 0 <= r.1 ∧ ic_standby (ip_common r.2) = false ∧ capture_ok false (ip_handle r.2)))).
  { unfold start_pcm_input_stream. destruct (ic_standby (ip_common i)) eqn:Hst.
    - apply limits_yields. eapply yields_bind; [by eapply open_input_ok|].
      intros [ret j] (Hj & Hsb & Hcase). cbn [fst snd] in *. apply yields_ret. cbn [fst snd].
      rewrite Hst in Hsb. destruct Hcase as [[-> Hh']|[Hneg Hh']].
      + split; [by etrans; [exact Hj|]|]. right. cbn. split; [lia|]. by split.
      + rewrite (proj2 (Z.eqb_neq ret 0)) by lia. split; [done|]. left. by split_and!.
    - apply limits_ret. split; [done|]. right. cbn [fst snd]. split; [lia|]. by split. }
  intros [ret j] [Hj Hcase]. cbn [fst snd] in *. pose proof (proj1 Hj) as Hjs.
  destruct Hcase as [(Hneg & Hsb & Hh')|(Hpos & Hsb & p & Hp' & Hcap)].
  - rewrite (proj2 (Z.ltb_lt ret 0)) by done. apply limits_ret. split; [|done].
    eapply in_ok_same; [exact Hj|done| |exact Hok]. cbn. by rewrite Hsb.
  - rewrite (proj2 (Z.ltb_ge ret 0)) by done.
    pose proof Hj as (_ & _ & _ & _ & Hrs). rewrite Hrs, (cl_resampler _ Hc), Hp'.
    cbn [as_pcm].
    eapply (limits_bind _ _ _ (λ r : Z * list Z * stream_in_pcm, in_ok cm r.2 ∧ same_input i r.2)).
    + eapply limits_bind; [by apply (limits_ret _ _ (λ h, h = Live (Some p)))|]. intros ? ->.
      eapply limits_bind.
      { unfold the_pcm. cbn [deref].
        eapply limits_bind; [by apply (limits_ret _ _ (λ o, o = Some p))|]. intros ? ->.
        by apply (limits_ret _ _ (λ q, q = p)). }
      intros ? ->. eapply limits_bind; [by apply pcm_read_ok|].
      intros [[ret' got] p'] Hsame. apply limits_ret. cbn [fst snd] in *. split; [|done].
      eapply (in_ok_same _ i); [done| | |exact Hok].
      * cbn. by rewrite Hsb, Hjs, Hs.
      * cbn. rewrite Hsb. exists p'. split; [done|]. by eapply capturable_same.
    + intros [[ret' b] j'] [H1 H2]. by apply limits_ret.
Qed.

Lemma standby_input_ok cm i :
  in_ok cm i →
  yields (K:=K) (in_pcm_standby cm i) (λ j, in_ok cm j ∧ same_input i j
    ∧ ic_standby (ip_common j) = true).
Proof.
  intros Hok. pose proof Hok as [Hc Hp Hv Hcl Hh]. unfold in_pcm_standby.
  destruct (ic_hw (ip_common i)) as [s|] eqn:Hs.
  2:{ apply yields_ret. split_and!; [done|done|by apply Hcl]. }
  eapply yields_bind; [by apply hw_at_safe, Hv|]. intros hw (st & Hst & ->).
  destruct (Hp _ _ Hst) as [Hnc _]. rewrite not_compressed_in by done.
  unfold do_in_pcm_standby.
  eapply (yields_bind _ _ (λ j, same_input i j ∧ ip_handle j = HPcm Null)).
  { destruct (ic_standby (ip_common i)) eqn:Hst'; cbn [negb].
    - by apply yields_ret.
    - destruct Hh as (p & -> & _). cbn [as_pcm].
      eapply yields_bind; [by apply (yields_ret _ (λ h, h = Live (Some p)))|]. intros ? ->.
      eapply yields_bind; [apply close_pcm_ptr_safe|]. intros ? _. apply yields_ret. by split_and!. }
  intros j [Hj Hn]. eapply (yields_bind _ _ (λ k, same_input i k ∧ ip_handle k = HPcm Null)).
  { unfold in_resampler_free. pose proof Hj as (_ & _ & _ & _ & Hrs).
    rewrite Hrs, (cl_resampler _ Hc).
    eapply (yields_bind _ _ (λ _, True)); [by apply yields_ret|]. intros ? _. apply yields_ret.
    split; [|done]. etrans; [exact Hj|]. split_and!; try done. cbn. by rewrite Hrs, (cl_resampler _ Hc). }
  intros k [Hk Hkn]. apply yields_ret.
  assert (Hk' : same_input i (set_ip_common (set_ic_standby true (ip_common k)) k))
    by (etrans; [exact Hk|by split_and!]).
  split_and!; [|done|done]. by eapply in_ok_same.
Qed.


(** ** The calls on an input stream *)

Lemma valid_infos cm cm' s : infos cm' = infos cm → valid_stream cm s → valid_stream cm' s.
Proof.
  intros Hi. unfold valid_stream. rewrite <- !(length_fmap s_info).
  fold (infos cm) (infos cm'). by rewrite Hi.
Qed.

Lemma in_ok_infos cm cm' i : infos cm' = infos cm → in_ok cm i → in_ok cm' i.
Proof.
  intros Hi [Hc Hp Hv Hcl Hh]. split; [done|by eapply plain_infos| |done|done].
  intros s Hs. eapply valid_infos; [done|by apply Hv].
Qed.

(** A device whose configuration describes the same hardware. *)
Definition dev_moved (a a' : audio_device) : Prop :=
  dev_ok m a' ∧ infos (ad_cm a') = infos (ad_cm a).

Lemma dev_moved_cm a cm :
  dev_ok m a → moved m (ad_cm a) cm → dev_moved a (set_ad_cm cm a).
Proof. intros Ha [Hk Hi]. split; [|done]. by eapply dev_ok_kept. Qed.

Lemma dev_moved_trans a b c : dev_moved a b → dev_moved b c → dev_moved a c.
Proof. intros [_ H1] [Hc H2]. split; [done|congruence]. Qed.

Lemma route_moved a s d :
  dev_ok m a → valid_stream (ad_cm a) s →
  yields (K:=K) (apply_route (ad_cm a) s d) (moved m (ad_cm a)).
Proof.
  intros Ha Hv. apply yields_and; [by apply apply_route_safe; [apply Ha|]|apply apply_route_infos].
Qed.

Lemma invoke_infos cm s kv :
  returns (S:=world K) (stream_invoke_usecases cm s kv) (λ r, infos r.2 = infos cm).
Proof.
  unfold stream_invoke_usecases. eapply returns_bind; [apply returns_true|]. intros [] _;
    [|by apply returns_ret]. destruct s as [i|]; [|by apply returns_ret]. cbn [negb].
  generalize (- ENOTSUP) as ret. generalize (kv_pairs kv) as l. intros l. revert cm.
  induction l as [|[k v] l IH]; intros cm ret; cbn [invoke_loop]; [by apply returns_ret|].
  eapply returns_bind; [apply use_case_infos|]. intros [r cm'] Hr. cbn [snd] in Hr.
  eapply returns_post; [apply IH|]. intros r' Hr'. congruence.
Qed.

Lemma ended_moved a :
  dev_ok m a → yields (K:=K) (voice_trigger_audio_ended_locked a) (dev_moved a).
Proof.
  intros Ha. apply yields_and.
  - unfold voice_trigger_audio_ended_locked. destruct (ad_voice_st a);
      first [by apply yields_ret|by apply close_voice_safe].
  - eapply returns_post; [apply ended_kept|]. by intros a' [_ Hi].
Qed.

Lemma source_moved a i new_source devices :
  dev_ok m a →
  yields (K:=K) (source_stream a i new_source devices) (λ r,
    moved m (ad_cm a) r.2 ∧ ∀ s, r.1 = Some s → valid_stream r.2 s).
Proof.
  intros Ha. pose proof (proj1 Ha) as Hcm. unfold source_stream.
  assert (Hnone : yields (K:=K) (mret (None, ad_cm a)) (λ r : option nat * config_mgr,
    moved m (ad_cm a) r.2 ∧ ∀ s, r.1 = Some s → valid_stream r.2 s)) by by apply yields_ret.
  eapply (yields_bind _ _ (λ r : option nat * config_mgr,
    moved m (ad_cm a) r.2 ∧ ∀ s, r.1 = Some s → valid_stream r.2 s)).
  { apply yields_if; intros _; [|exact Hnone].
    destruct (voice_trigger_audio_stream_name a) as [name|]; [|exact Hnone].
    eapply yields_post.
    - eapply (yields_and _ _ (λ r, infos r.2 = infos (ad_cm a)));
        [by apply (named_stream_valid m)|apply get_named_stream_infos].
    - cbv beta. intros r [[Hk Hv] Hi]. by split. }
  intros [[s|] cm] [[Hk Hi] Hv]; cbn [fst snd] in *; [by apply yields_ret|].
  eapply yields_post; [apply (get_stream_moved m); apply Hk|].
  intros r [[Hk' Hi'] Hv']. split; [|exact Hv']. split; [by eapply kept_trans|congruence].
Qed.

Lemma change_source_ok a i value devices :
  dev_ok m a → in_ok (ad_cm a) i →
  yields (K:=K) (change_input_source_locked a i value devices) (λ r,
    dev_moved a r.2 ∧ in_ok (ad_cm r.2) r.1.2
    ∧ ic_sample_rate (ip_common r.1.2) = ic_sample_rate (ip_common i)).
Proof.
  intros Ha Hi. unfold change_input_source_locked. cbv zeta.
  destruct (ic_standby (ip_common i)) eqn:Hst; cbn [negb]; [|by apply yields_ret].
  destruct (_ =? _); [by apply yields_ret|].
  eapply yields_bind; [by apply source_moved|]. intros [[s|] cm] [Hmv Hv]; cbn [fst snd] in *.
  2:{ apply yields_ret. cbn [fst snd]. split_and!; [by apply dev_moved_cm|..|done].
      eapply in_ok_infos; [apply Hmv|done]. }
  specialize (Hv s eq_refl). pose proof (dev_moved_cm a cm Ha Hmv) as Ha1.
  set (a1 := set_ad_cm cm a) in *.
  eapply (yields_bind _ _ (moved m (ad_cm a1))).
  { destruct (ic_hw (ip_common i)) as [old|] eqn:Hold; [|apply yields_ret; split; [apply kept_refl, Ha1|done]].
    apply yields_and; [|apply release_infos]. apply release_stream_safe; [apply Ha1|].
    eapply valid_infos; [apply Ha1|by apply Hi]. }
  intros cm2 Hmv2. pose proof (dev_moved_cm a1 cm2 (proj1 Ha1) Hmv2) as Ha2.
  set (a2 := set_ad_cm cm2 a1) in *.
  eapply (yields_bind _ _ (dev_moved a2)).
  { apply yields_if; intros _.
    - apply yields_ret. unfold voice_trigger_audio_started_locked.
      destruct Ha2 as [Hok _]. by destruct (ad_voice_st _).
    - apply yields_if; intros _; [|apply yields_ret; split; [apply Ha2|done]].
      eapply yields_post; [apply ended_moved; apply Ha2|]. done. }
  intros a3 Ha3. pose proof (dev_moved_trans _ _ _ Ha1 (dev_moved_trans _ _ _ Ha2 Ha3)) as Ha'.
  apply yields_ret. cbn [fst snd]. split_and!; [done| |done].
  destruct Hi as [Hc Hp Hhw Hcl Hh]. split; [by destruct Hc| | |done|exact Hh].
  - eapply plain_infos; [apply Ha'|done].
  - intros s' [= <-]. eapply valid_infos; [|exact Hv]. destruct Ha3 as [_ H3], Hmv2 as [_ H2].
    rewrite H3. exact H2.
Qed.

Lemma set_input_ok a i kv :
  dev_ok m a → in_ok (ad_cm a) i → is_Some (str_parms_create_str kv) →
  yields (K:=K) (in_pcm_set_parameters a i kv) (λ r, dev_moved a r.2 ∧ in_ok (ad_cm r.2) r.1.2).
Proof.
  intros Ha Hi Hkv. unfold in_pcm_set_parameters.
  eapply yields_bind; [by apply routing_param_safe|]. intros routing _.
  destruct Hkv as [get ->]. cbn [str_parms_get_str].
  eapply (yields_bind _ _ (λ _, True)); [by apply yields_ret|]. intros source _.
  eapply (yields_bind _ _ (λ r : Z * option Z * stream_in_pcm * audio_device,
    dev_moved a r.2 ∧ in_ok (ad_cm r.2) r.1.2)).
  { destruct source as [value|]; [|by apply yields_ret]. cbv zeta.
    eapply yields_bind; [by apply change_source_ok|].
    intros [[[ret b] j] a'] (H1 & H2 & _). by apply yields_ret. }
  intros [[[ret routing'] j] a'] [Ha' Hj]. cbn [fst snd] in *.
  apply yields_if; intros _; [by apply yields_ret|].
  eapply (yields_bind _ _ (λ r : stream_in_pcm * audio_device,
    dev_moved a r.2 ∧ in_ok (ad_cm r.2) r.1)).
  { destruct routing' as [d|]; [|by apply yields_ret]. cbv zeta.
    assert (Hd : in_ok (ad_cm a') (set_ip_common (set_ic_devices d (ip_common j)) j)).
    { destruct Hj as [[] Hp Hv Hcl Hh]. by split. }
    destruct (ic_hw _) as [s|] eqn:Hs.
    - eapply yields_bind; [apply route_moved; [apply Ha'|by apply Hd]|]. intros cm Hmv.
      apply yields_ret. cbn [fst snd]. split.
      + eapply dev_moved_trans; [exact Ha'|]. apply dev_moved_cm; [apply Ha'|done].
      + eapply in_ok_infos; [apply Hmv|done].
    - apply yields_ret. by split. }
  intros [j' a''] [Ha'' Hj']. cbn [fst snd] in *.
  eapply yields_bind.
  { apply (yields_and _ (λ r, kept m (ad_cm a'') r.2) (λ r, infos r.2 = infos (ad_cm a'')));
      [|apply invoke_infos].
    apply (invoke_usecases_safe m); [apply Ha''|]. intros s Hs. by apply Hj'. }
  intros [r cm] Hmv. apply yields_ret. cbn [fst snd] in *. split.
  - eapply dev_moved_trans; [exact Ha''|]. apply dev_moved_cm; [apply Ha''|exact Hmv].
  - eapply in_ok_infos; [apply Hmv|done].
Qed.

Lemma read_input_ok a i buffer n :
  dev_ok m a → in_ok (ad_cm a) i →
  limits (K:=K) only_hang (in_pcm_read fuel a i buffer n) (λ r, in_ok (ad_cm a) r.2).
Proof.
  intros Ha Hi. unfold in_pcm_read.
  eapply (limits_bind _ _ _ (λ r : Z * list Z * stream_in_pcm, in_ok (ad_cm a) r.2)).
  { destruct (ic_hw (ip_common i)) as [s|] eqn:Hs; [|by apply limits_ret].
    apply limits_if; intros _; [by apply limits_ret|].
    eapply limits_bind; [apply limits_yields, hw_at_safe; by apply Hi|].
    intros hw (st & Hst & ->). destruct (io_plain _ _ Hi _ _ Hst) as [Hnc _].
    rewrite not_compressed_in by done.
    eapply limits_post; [by eapply read_pcm_ok|]. by intros r [? _]. }
  intros [[ret b] j] Hj. cbn [fst snd] in Hj. apply limits_yields.
  eapply (yields_bind _ _ (λ _, True)).
  { apply yields_if; intros _; [|by apply yields_ret].
    eapply (yields_bind _ _ (λ _, True)); [|intros; by apply yields_ret].
    apply yields_if; intros _; [|by apply yields_ret]. apply delay_safe, Hj. }
  intros [ret' b'] _.
  eapply (yields_bind _ _ (λ c, ∃ ns, c = set_ic_last_read_ns ns (ip_common j))).
  { unfold do_in_set_read_timestamp. eapply yields_bind; [apply yields_sys_true|]. intros ns _.
    apply yields_ret. by eexists. }
  intros c (ns & ->). apply yields_ret. cbn [fst snd]. destruct Hj as [[] Hp Hv Hcl Hh]. by split.
Qed.

Lemma close_input_ok a i :
  dev_ok m a → in_ok (ad_cm a) i →
  yields (K:=K) (adev_close_input_stream a i) (dev_moved a).
Proof.
  intros Ha Hi. unfold adev_close_input_stream, do_close_in_pcm.
  eapply (yields_bind _ _ (λ j, j = i)).
  { destruct (ic_hw (ip_common i)) as [s|] eqn:Hs; [|by apply yields_ret].
    eapply yields_bind; [by apply hw_at_safe, Hi|]. intros hw (st & Hst & ->).
    destruct (io_plain _ _ Hi _ _ Hst) as [-> _]. by apply yields_ret. }
  intros ? ->. unfold do_close_in_common. eapply yields_bind; [by apply standby_input_ok|].
  intros j (Hj & _ & _). eapply (yields_bind _ _ (dev_moved a)).
  { apply yields_if; intros _; [|by apply yields_ret].
    eapply yields_post; [by apply ended_moved|]. done. }
  intros a' Ha'. destruct (ic_hw (ip_common j)) as [s|] eqn:Hs; [|by apply yields_ret].
  eapply (yields_bind _ _ (moved m (ad_cm a'))).
  - apply yields_and; [|apply release_infos]. apply release_stream_safe; [apply Ha'|].
    eapply valid_infos; [apply Ha'|by apply Hj].
  - intros cm Hmv. apply yields_ret. eapply dev_moved_trans; [exact Ha'|].
    apply dev_moved_cm; [apply Ha'|done].
Qed.

(** ** From opening to closing *)

(** A call on the stream, or one on the device or its configuration by someone
    else. *)
Inductive in_call :=
  | IcRead (buffer : list Z) (bytes : Z)
  | IcStandby
  | IcParams (kvpairs : string)
  | IcConfig (o : op)
  | IcVoice (parms : string → option string)
  | IcMute (state : bool).

Definition run_in_call (c : in_call) (a : audio_device) (i : stream_in_pcm)
  : M (world K) (audio_device * stream_in_pcm) :=
  match c with
  | IcRead b n => '(_, _, i) ← in_pcm_read fuel a i b n; mret (a, i)
  | IcStandby => i ← in_pcm_standby (ad_cm a) i; mret (a, i)
  | IcParams kv => '(_, i, a) ← in_pcm_set_parameters a i kv; mret (a, i)
  | IcConfig o => cm ← run_op o (ad_cm a); mret (set_ad_cm cm a, i)
  | IcVoice parms => a ← voice_trigger_set_params parms a; mret (a, i)
  | IcMute state => mret ((adev_set_mic_mute a state).2, i)
  end.

Definition in_call_ok (a : audio_device) (c : in_call) : Prop :=
  match c with
  | IcParams kv => is_Some (str_parms_create_str kv)
  | IcConfig o => op_valid (ad_cm a) o
  | _ => True
  end.

(** The size of the client's frames. *)
Definition client_frame (config : audio_config) : Z :=
  audio_stream_in_frame_size (ac_format config)
    (if negb (ac_channel_mask config =? 0) then ac_channel_mask config
     else AUDIO_CHANNEL_IN_MONO).

Lemma opened_input id devices config (w : world K) i :
  (adev_open_input_stream id devices config w).1.2 = Some i →
  ic_hw (ip_common i) = None ∧ ic_standby (ip_common i) = true
  ∧ ic_channel_count (ip_common i) = popcount (ac_channel_mask config)
  ∧ ic_sample_rate (ip_common i) = ac_sample_rate config
  ∧ ic_frame_size (ip_common i) = client_frame config
  ∧ ip_handle i = HPcm Null ∧ rs_resampler (ip_resampler i) = None.
Proof.
  unfold adev_open_input_stream. rewrite bind_run.
  destruct (alloc w) as [[] w']; cbn [fst snd negb]; [|done]. intros [= <-].
  repeat (split; [reflexivity|]). reflexivity.
Qed.

(** A client whose frames have a size and whose rate is the hardware's. *)
Definition plain_client (config : audio_config) (cm : config_mgr) : Prop :=
  ac_sample_rate config ≠ 0 ∧ client_frame config ≠ 0
  ∧ u32 (client_frame config * ac_sample_rate config) ≠ 0
  ∧ plain (ac_sample_rate config) cm.

Inductive in_session (a0 : audio_device) : audio_device → stream_in_pcm → Prop :=
  | in_opened id devices config i (w : world K) :
      plain_client config (ad_cm a0) →
      (adev_open_input_stream id devices config w).1.2 = Some i →
      in_session a0 a0 i
  | in_called a i c (w : world K) :
      in_session a0 a i → in_call_ok a c →
      in_session a0 (run_in_call c a i w).1.1 (run_in_call c a i w).1.2.

Lemma run_in_call_ok c a i :
  dev_ok m a → in_ok (ad_cm a) i → in_call_ok a c →
  limits (K:=K) only_hang (run_in_call c a i) (λ r, dev_ok m r.1 ∧ in_ok (ad_cm r.1) r.2).
Proof.
  intros Ha Hi Hc. destruct c as [b n| |kv|o|parms|st]; cbn [in_call_ok run_in_call] in *.
  - eapply limits_bind; [by apply read_input_ok|]. intros [[r b'] j] Hj. by apply limits_ret.
  - apply limits_yields. eapply yields_bind; [by apply standby_input_ok|].
    intros j (Hj & _). by apply yields_ret.
  - apply limits_yields. eapply yields_bind; [by apply set_input_ok|].
    intros [[r j] a'] [Ha' Hj]. apply yields_ret. split; [apply Ha'|done].
  - apply limits_yields. eapply yields_bind; [by apply (run_op_moved m); [apply Ha|]|].
    intros cm Hmv. apply yields_ret. split; [by apply (dev_moved_cm a)|].
    eapply in_ok_infos; [apply Hmv|done].
  - apply limits_yields. eapply yields_bind.
    { apply (yields_and _ (dev_ok m) (λ a', dev_kept a a')); [by apply set_params_safe|].
      apply set_params_kept. }
    intros a' [Ha' [_ Hinf]]. apply yields_ret. split; [done|]. by eapply in_ok_infos.
  - by apply limits_ret.
Qed.

Lemma in_session_ok a0 a i :
  dev_ok m a0 → in_session a0 a i → dev_ok m a ∧ in_ok (ad_cm a) i.
Proof.
  intros Ha. induction 1 as [id devices config i w (Hr & Hf & Hb & Hp) Ho|a i c w _ [Ha' Hi] Hc].
  - apply opened_input in Ho as (Hhw & Hst & Hch & Hsr & Hfs & Hh & Hrs). split; [done|].
    split; [split| | | |].
    + rewrite Hch. apply popcount_bounds.
    + by rewrite Hsr.
    + by rewrite Hfs.
    + by rewrite Hfs, Hsr.
    + exact Hrs.
    + by rewrite Hsr.
    + by rewrite Hhw.
    + done.
    + by rewrite Hst.
  - by apply (run_in_call_ok c a i Ha' Hi Hc w).
Qed.

(** C29: on a device whose streams are PCM at the client's rate, no call on an
    input stream, from its opening to its closing, executes undefined behaviour,
    whatever the drivers answer and whatever others do with the device; all
    that can happen is that a read goes on for as long as the driver reports
    overruns.  Closing leaves the device in order. *)
Theorem input_session_safe a0 a i :
  dev_ok m a0 → in_session a0 a i →
  (∀ c (w : world K), in_call_ok a c →
     ∃ hangs, w_faults (run_in_call c a i w).2 = w_faults w ++ hangs
              ∧ Forall (λ f, f = Hang) hangs)
  ∧ (∀ w : world K, w_faults (adev_close_input_stream a i w).2 = w_faults w
                    ∧ dev_ok m (adev_close_input_stream a i w).1).
Proof.
  intros Ha Hs. destruct (in_session_ok a0 a i Ha Hs) as [Ha' Hi]. split.
  - intros c w Hc. by destruct (run_in_call_ok c a i Ha' Hi Hc w).
  - intros w. destruct (close_input_ok a i Ha' Hi w) as [Hf [Hd _]]. by split.
Qed.

End capture.

(** ** On the software device *)

(** One stream to play and one to capture. *)
Definition plain_config : config_mgr :=
  set_cm_streams demo_config
    (DynArray [demo_stream e_stream_out_pcm None 1 2 3;
               demo_stream e_stream_in_pcm None 1 4 5] 2).

Definition plain_dev : audio_device := AudioDevice false plain_config None eVoiceNone 0 None None.

Lemma plain_dev_ok : dev_ok demo_mixer plain_dev.
Proof.
  split; [|done]. destruct demo_config_ok as [Hx Hm Hd _].
  split; [exact Hx|exact Hm|exact Hd|]. cbn [plain_config cm_streams set_cm_streams da_items].
  repeat constructor.
Qed.

Definition mic_audio : audio_config := AudioConfig 48000 0x10 1.

Lemma plain_dev_client : plain_client mic_audio (ad_cm plain_dev).
Proof.
  split_and!; [by_decide..|]. intros k st Hs. unfold get_stream_at in Hs.
  cbn [plain_dev ad_cm plain_config cm_streams set_cm_streams da_items] in Hs.
  destruct k as [|[|k]]; [by injection Hs as <-..|done].
Qed.

Definition demo_in : stream_in_pcm :=
  default (in_pcm0 0) (adev_open_input_stream 0 0x80000004 mic_audio demo_hal_world).1.2.

(** The stream gets a source and a route, and captures. *)
Definition demo_in_calls : list in_call :=
  [IcParams "routing=-2147483644;input_source=1"; IcRead [9; 9; 9; 9] 4].

Definition run_in_calls (l : list in_call) (x : audio_device * stream_in_pcm)
  : audio_device * stream_in_pcm :=
  foldl (λ x c, (run_in_call 3 c x.1 x.2 demo_hal_world).1) x l.

Definition demo_capture : audio_device * stream_in_pcm :=
  run_in_calls demo_in_calls (plain_dev, demo_in).

Lemma demo_capture_session :
  in_session (K:=soft_hal) 3 plain_dev demo_capture.1 demo_capture.2.
Proof.
  apply (in_called 3 plain_dev _ _ (IcRead [9; 9; 9; 9] 4) demo_hal_world); [|exact I].
  apply (in_called 3 plain_dev plain_dev demo_in
           (IcParams "routing=-2147483644;input_source=1") demo_hal_world); [|by eexists].
  apply (in_opened 3 plain_dev 0 0x80000004 mic_audio demo_in demo_hal_world);
    [apply plain_dev_client|vm_compute; reflexivity].
Qed.

Lemma input_session_safe_witness :
  ic_hw (ip_common demo_capture.2) = Some 1%nat
  ∧ ic_standby (ip_common demo_capture.2) = false
  ∧ (∀ c (w : world soft_hal), in_call_ok demo_capture.1 c →
       ∃ hangs, w_faults (run_in_call 3 c demo_capture.1 demo_capture.2 w).2
                  = w_faults w ++ hangs
                ∧ Forall (λ f, f = Hang) hangs).
Proof.
  split; [vm_compute; reflexivity|]. split; [vm_compute; reflexivity|].
  exact (proj1 (input_session_safe (K:=soft_hal) 3 demo_mixer plain_dev _ _ plain_dev_ok
                  demo_capture_session)).
Defined.

Lemma read_never_fails_witness :
  silent hal_dev demo_in = true
  ∧ (in_pcm_read 3 hal_dev demo_in [9; 9; 9] 2 demo_hal_world).1.1 = (2, [0; 0; 9])
  ∧ (let '(ret, buffer', _) := (in_pcm_read 3 hal_dev demo_in [9; 9; 9] 2 demo_hal_world).1 in
     ret = 2 ∧ take 2 buffer' = [0; 0]).
Proof.
  split; [vm_compute; reflexivity|]. split; [vm_compute; reflexivity|].
  pose proof (read_never_fails 3 hal_dev demo_in [9; 9; 9] 2 demo_hal_world ltac:(lia)) as Hr.
  destruct (in_pcm_read 3 hal_dev demo_in [9; 9; 9] 2 demo_hal_world).1 as [[ret b] j].
  destruct Hr as (_ & _ & Hsil). apply Hsil. vm_compute. reflexivity.
Defined.

(** ** Compressed capture

    A compressed capture that cannot be opened returns the driver's [errno],
    a positive number, which is taken for a success: the read goes on through a
    null handle, and the stream counts as started. *)
Definition errno_hal (ready : bool) : world soft_hal :=
  World (demo_hal (SoftPcm (MmapStatus 2 0 (1, 0)) (MmapControl 0 1) (replicate 64 0) [] []
                     16 true 0 0 0) ready [1; 2; 3; 4]) [] [].

Definition compressed_in : stream_in_pcm :=
  set_ip_common (set_ic_hw (Some 3%nat) (ip_common demo_in)) demo_in.

Theorem failed_compressed_open_is_taken_for_success :
  let r := in_pcm_read 3 (set_ad_cm (upd_stream 3 (λ s, set_current_devices s 0x80000004)
                                       hal_config) hal_dev) compressed_in [9; 9] 2
             (errno_hal false) in
  w_faults r.2 = [NullDeref; NullDeref]
  ∧ ic_standby (ip_common r.1.2) = false ∧ ip_handle r.1.2 = HPcm Null.
Proof. vm_compute. by split_and!. Qed.

(** Closing an active compressed capture closes its handle and then puts the
    stream into standby, which uses the closed handle. *)
Theorem compressed_capture_closed_twice :
  let a := set_ad_cm (upd_stream 3 (λ s, set_current_devices s 0x80000004)
                        hal_config) hal_dev in
  let r := in_pcm_read 3 a compressed_in [9; 9] 2 (errno_hal true) in
  w_faults r.2 = []
  ∧ w_faults (adev_close_input_stream a r.1.2 r.2).2 = [UseAfterFree; UseAfterFree].
Proof. vm_compute. by split_and!. Qed.
