(* ===== verification/HalAsync.v ===== *)
(** * The thread of asynchronous compressed output (src/audio/audio_hw.c)

    [out_compress_async_fn] waits on a condition variable for what
    [signal_async_thread] asks for.  The thread and the client's calls are the
    events of a transition system: each event of the thread is what it does
    between two points at which it takes, releases or reads what it shares with
    the client.  The client's calls are single events: the stream's lock
    serialises them, and the only thing they do with the thread's mutex is the
    critical section of [signal_async_thread], so a call happens when the mutex
    is free. *)

From S2P Require Import Prelude Kernel ConfigData CStrings PcmKernel Pcm Routing.
From S2P Require Import RouteInv VoiceTrigger VoiceFacts HalOut HalIn HalDev SoftHal.
From S2P Require Import HalOutFacts HalOutSafe HalKeeps.
From Stdlib Require Import Ascii String.

#[global] Open Scope Z_scope.

(** The events [callback] gets. *)
Inductive stream_event := STREAM_CBK_EVENT_WRITE_READY | STREAM_CBK_EVENT_DRAIN_READY.

(** Where the thread is. *)
Inductive worker_at :=
  | AtTest  (** before it reads [exit] in the loop's condition *)
  | AtLock  (** before [pthread_mutex_lock] *)
  | AtWait  (** with the mutex, before [pthread_cond_wait] *)
  | AtSleep (** inside [pthread_cond_wait], the mutex released *)
  | AtWoken (** woken, about to take the mutex again *)
  | AtCheck (** with the mutex, after [pthread_cond_wait] *)
  | AtWork (mode : async_mode)
  | AtEnd (locked : bool). (** ended, having kept the mutex or not *)

#[export] Instance worker_at_eq_dec : EqDecision worker_at.
Proof. solve_decision. Defined.

(** The stream with its [async_common]; [as_called] are the callbacks so far. *)
Record async_state := Async {
  as_cm : config_mgr;
  as_out : stream_out_compress;
  as_exit : bool;
  as_worker : worker_at;
  as_called : list stream_event
}.

Definition as_mode (s : async_state) : async_mode := oc_async_mode (ox_common (as_out s)).

Definition set_as_worker (p : worker_at) (s : async_state) : async_state :=
  Async (as_cm s) (as_out s) (as_exit s) p (as_called s).

Definition mutex_held (p : worker_at) : bool :=
  match p with AtWait | AtCheck | AtEnd true => true | _ => false end.

(** [pthread_cond_signal]: nothing happens when nobody waits. *)
Definition wake (p : worker_at) : worker_at :=
  match p with AtSleep => AtWoken | _ => p end.

(** An event of the thread, a wake-up without a signal (POSIX allows it), a call
    of the client, and the request to exit of [do_close_out_common]. *)
Inductive async_event :=
  | EvWorker
  | EvSpurious
  | EvCall (c : out_call)
  | EvExit.

Definition is_worker (ev : async_event) : bool :=
  match ev with EvWorker => true | _ => false end.
Definition is_exit (ev : async_event) : bool :=
  match ev with EvExit => true | _ => false end.
Definition is_spurious (ev : async_event) : bool :=
  match ev with EvSpurious => true | _ => false end.

(** What the client is told when a request has been served. *)
Definition answer (mode : async_mode) : list stream_event :=
  match mode with
  | ASYNC_NONE => []
  | ASYNC_POLL => [STREAM_CBK_EVENT_WRITE_READY]
  | ASYNC_EARLY_DRAIN | ASYNC_FULL_DRAIN => [STREAM_CBK_EVENT_DRAIN_READY]
  end.

Section async.
  Context {K : Type}.
  Context `{!AlsaCtl K, !AlsaPcm K, !TinyCompress K, !Clock K, !Resampler K}.
  Context `{!AudioH, !HalPlatform}.

(** The body of the thread's [switch]. *)
Definition async_work (mode : async_mode) (out : stream_out_compress)
  : M (world K) stream_out_compress :=
  match mode with
  | ASYNC_NONE => mret out
  | ASYNC_POLL =>
    _ ← on_compress out (λ h, compress_wait h MAX_COMPRESS_POLL_WAIT_MS);
    mret out
  | ASYNC_EARLY_DRAIN =>
    _ ← on_compress out compress_next_track;
    _ ← on_compress out compress_partial_drain;
    mret (set_ox_started false out)
  | ASYNC_FULL_DRAIN =>
    _ ← on_compress out compress_drain;
    mret (set_ox_started false out)
  end.

(** The next event of the thread; it has none when it sleeps or has ended. *)
Definition out_compress_async_fn (s : async_state) : M (world K) (option async_state) :=
  match as_worker s with
  | AtTest => mret (Some (set_as_worker (if as_exit s then AtEnd false else AtLock) s))
  | AtLock => mret (Some (set_as_worker AtWait s))
  | AtWait => mret (Some (set_as_worker AtSleep s))
  | AtSleep => mret None
  | AtWoken => mret (Some (set_as_worker AtCheck s))
  | AtCheck =>
    if as_exit s then mret (Some (set_as_worker (AtEnd true) s))
    else
      let out := as_out s in
      mret (Some (Async (as_cm s)
                    (set_ox_common (set_oc_async ASYNC_NONE (ox_common out)) out)
                    (as_exit s) (AtWork (as_mode s)) (as_called s)))
  | AtWork mode =>
    out ← async_work mode (as_out s);
    mret (Some (Async (as_cm s) out (as_exit s) AtTest (as_called s ++ answer mode)))
  | AtEnd _ => mret None
  end.

(** A call: one that makes a request ([signal_async_thread] finds no other)
    also signals. *)
Definition async_call (c : out_call) (s : async_state) : M (world K) (Z * async_state) :=
  '(r, cm, o) ← run_out_call c (as_cm s) (StreamOutCompress (as_out s));
  let out := match o with StreamOutCompress out => out | StreamOutPcm _ => as_out s end in
  let requested := bool_decide (as_mode s = ASYNC_NONE)
                   && negb (bool_decide (oc_async_mode (ox_common out) = ASYNC_NONE)) in
  mret (r, Async cm out (as_exit s)
             (if requested then wake (as_worker s) else as_worker s) (as_called s)).

(** One event, if it can happen. *)
Definition async_do (ev : async_event) (s : async_state) : M (world K) (option async_state) :=
  match ev with
  | EvWorker => out_compress_async_fn s
  | EvSpurious => mret (if bool_decide (as_worker s = AtSleep)
                        then Some (set_as_worker AtWoken s) else None)
  | EvCall c =>
    if mutex_held (as_worker s) then mret None
    else '(_, s) ← async_call c s; mret (Some s)
  | EvExit =>
    if mutex_held (as_worker s) then mret None
    else mret (Some (Async (as_cm s) (as_out s) true (wake (as_worker s)) (as_called s)))
  end.

(** The return codes of the thread library are arguments. *)
Definition out_compress_set_callback (cond_init mutex_init create : Z) (cm : config_mgr)
  (out : stream_out_compress) : Z * option async_state :=
  if negb (cond_init =? 0) then (cond_init, None)
  else if negb (mutex_init =? 0) then (mutex_init, None)
  else if negb (create =? 0) then (create, None)
  else
    let c := ox_common out in
    let c := OutCommon (oc_hw c) (oc_standby c) (oc_format c) (oc_channel_mask c)
               (oc_channel_count c) (oc_sample_rate c) (oc_frame_size c) (oc_buffer_size c)
               (oc_latency c) true (oc_async_mode c) in
    (0, Some (Async cm (set_ox_common c out) false AtTest [])).

(** A sequence of events, each of which can happen. *)
Inductive async_run : async_state * world K → list async_event → async_state * world K → Prop :=
  | async_run_nil x : async_run x [] x
  | async_run_cons s w ev s' w' evs y :
      async_do ev s w = (Some s', w') → async_run (s', w') evs y →
      async_run (s, w) (ev :: evs) y.

(** The thread has another event. *)
Definition worker_enabled (s : async_state) (w : world K) : Prop :=
  is_Some (out_compress_async_fn s w).1.

(** Runs the events. *)
Fixpoint async_exec (evs : list async_event) (s : async_state) (w : world K)
  : option (async_state * world K) :=
  match evs with
  | [] => Some (s, w)
  | ev :: evs =>
    match async_do ev s w with
    | (Some s', w') => async_exec evs s' w'
    | (None, _) => None
    end
  end.

Lemma async_exec_run evs s w y : async_exec evs s w = Some y → async_run (s, w) evs y.
Proof.
  revert s w. induction evs as [|ev evs IH]; intros s w; cbn.
  - intros [= <-]. constructor.
  - destruct (async_do ev s w) as [[s'|] w'] eqn:Hd; [|done]. intros Hr.
    econstructor; [exact Hd|by apply IH].
Qed.

(** What an event of the client does to the thread's state. *)
Lemma call_effect c s w s' w' :
  async_do (EvCall c) s w = (Some s', w') →
  mutex_held (as_worker s) = false ∧ out_kept (as_out s) (as_out s')
  ∧ as_exit s' = as_exit s ∧ as_called s' = as_called s
  ∧ as_worker s' = (if bool_decide (as_mode s = ASYNC_NONE)
                       && negb (bool_decide (as_mode s' = ASYNC_NONE))
                    then wake (as_worker s) else as_worker s).
Proof.
  unfold async_do, async_call. destruct (mutex_held (as_worker s)); [done|].
  rewrite !bind_run. pose proof (call_keeps c (as_cm s) (as_out s) w) as Hk.
  destruct (run_out_call c (as_cm s) (StreamOutCompress (as_out s)) w) as [[[r cm] o] w1].
  cbn in Hk. destruct Hk as (out & -> & Hk). cbn. intros [= <- <-]. by split_and!.
Qed.

Lemma work_keeps mode out : keeps out_kept out id (async_work mode out).
Proof. destruct mode; unfold async_work; keeps_auto. Qed.

(** What an event of the thread does. *)
Definition moved_worker (s s' : async_state) (p : worker_at) : Prop :=
  as_worker s' = p ∧ as_exit s' = as_exit s ∧ as_called s' = as_called s
  ∧ out_kept (as_out s) (as_out s').

Lemma worker_effect s w s' w' :
  async_do EvWorker s w = (Some s', w') →
  match as_worker s with
  | AtTest => moved_worker s s' (if as_exit s then AtEnd false else AtLock)
  | AtLock => moved_worker s s' AtWait
  | AtWait => moved_worker s s' AtSleep
  | AtWoken => moved_worker s s' AtCheck
  | AtCheck =>
    if as_exit s then moved_worker s s' (AtEnd true)
    else as_worker s' = AtWork (as_mode s) ∧ as_exit s' = as_exit s
         ∧ as_called s' = as_called s
  | AtWork mode =>
    as_worker s' = AtTest ∧ as_exit s' = as_exit s
    ∧ as_called s' = as_called s ++ answer mode ∧ out_kept (as_out s) (as_out s')
  | AtSleep | AtEnd _ => False
  end.
Proof.
  unfold async_do, out_compress_async_fn, moved_worker.
  destruct (as_worker s) as [| | | | | |mode|locked];
    [| | | | |destruct (as_exit s) eqn:He| |];
    try done; try (intros [= <- <-]; cbn; rewrite ?He; split_and!; done).
  rewrite bind_run. pose proof (work_keeps mode (as_out s) w) as Hk.
  destruct (async_work mode (as_out s) w) as [out w1]. cbn in Hk |- *.
  intros [= <- <-]. by split_and!.
Qed.

Lemma run_cons_inv s w ev evs y :
  async_run (s, w) (ev :: evs) y →
  ∃ s' w', async_do ev s w = (Some s', w') ∧ async_run (s', w') evs y.
Proof. intros Hr. inversion Hr; subst. eauto. Qed.

(** An invariant of the states, indexed by the number of events of the thread,
    holds after a run of events that keep it. *)
Lemma run_invariant (allowed : async_event → bool) (I : nat → async_state → Prop) :
  (∀ n s w ev s' w', allowed ev = true → I n s → async_do ev s w = (Some s', w') →
     I (n + if is_worker ev then 1 else 0)%nat s') →
  ∀ evs n s w s' w', Forall (λ ev, allowed ev = true) evs → I n s →
    async_run (s, w) evs (s', w') →
    I (n + List.length (List.filter is_worker evs))%nat s'.
Proof.
  intros Hstep. induction evs as [|ev evs IH]; intros n s w s' w' Ha Hi Hr.
  - inversion Hr; subst. by rewrite Nat.add_0_r.
  - apply Forall_cons in Ha as [He Ha]. apply run_cons_inv in Hr as (s1 & w1 & Hd & Hr).
    specialize (IH _ _ _ _ _ Ha (Hstep _ _ _ _ _ _ He Hi Hd) Hr).
    revert IH. cbn [List.filter]. destruct (is_worker ev); cbn [List.length];
      by rewrite <- ?Nat.add_assoc.
Qed.

(** ** A request made while the thread waits *)

(** Where the thread is in serving the request [m] after [n] events. *)
Definition serving (m : async_mode) (called : list stream_event) (n : nat) (s : async_state)
  : Prop :=
  match n with
  | 0%nat => as_worker s = AtWoken ∧ as_mode s = m ∧ as_exit s = false ∧ as_called s = called
  | 1%nat => as_worker s = AtCheck ∧ as_mode s = m ∧ as_exit s = false ∧ as_called s = called
  | 2%nat => as_worker s = AtWork m ∧ as_exit s = false ∧ as_called s = called
  | _ => (called ++ answer m) `prefix_of` as_called s
  end.

Lemma called_grows ev s w s' w' :
  async_do ev s w = (Some s', w') → as_called s `prefix_of` as_called s'.
Proof.
  intros Hd. destruct ev as [| |c|].
  - apply worker_effect in Hd. unfold moved_worker in Hd.
    destruct (as_worker s); try (destruct (as_exit s)); try done; destruct_and!;
      match goal with Hc : as_called s' = _ |- _ => rewrite Hc end;
      first [reflexivity | by apply prefix_app_r].
  - cbn in Hd. case_bool_decide; [|done]. by injection Hd as <- _.
  - by apply call_effect in Hd as (_ & _ & _ & -> & _).
  - cbn in Hd. destruct (mutex_held _); [done|]. by injection Hd as <- _.
Qed.

Lemma serving_step m called n s w ev s' w' :
  m ≠ ASYNC_NONE → negb (is_exit ev) = true → serving m called n s →
  async_do ev s w = (Some s', w') →
  serving m called (n + if is_worker ev then 1 else 0)%nat s'.
Proof.
  intros Hm He Hs Hd. pose proof (called_grows _ _ _ _ _ Hd) as Hg.
  destruct n as [|[|[|n]]]; cbn in Hs.
  4:{ cbn. by etrans. }
  all: destruct Hs as (Hw & Hs); destruct ev as [| |c|]; cbn [is_worker Nat.add serving]; [..|done].
  all: try (by cbn in Hd; rewrite Hw in Hd).
  all: try (apply worker_effect in Hd; rewrite Hw in Hd; unfold moved_worker in Hd).
  all: try (apply call_effect in Hd as (Hh & (_ & Hk & _) & Hx & Hc & Hw'); rewrite Hw in *).
  - destruct Hs as (Hmode & Hx & Hc), Hd as (-> & -> & -> & _ & Hk & _).
    split_and!; [done| |done..]. unfold as_mode in *. rewrite Hk; congruence.
  - destruct Hs as (Hmode & Hx' & Hc'). unfold as_mode in *.
    rewrite Hmode, bool_decide_eq_false_2 in Hw' by done.
    split_and!; [done|rewrite Hk; congruence|congruence..].
  - destruct Hs as (Hmode & Hx & Hc). rewrite Hx in Hd. destruct Hd as (-> & -> & ->).
    cbn. by rewrite Hmode.
  - destruct Hs as (Hx & Hc), Hd as (_ & _ & Hc' & _). cbn. by rewrite Hc', Hc.
  - destruct Hs as (Hx' & Hc'). cbn. split_and!; [|congruence..].
    by destruct (bool_decide _ && _) in Hw'.
Qed.

Lemma serving_enabled m called n s (w : world K) :
  serving m called n s → (n < 3)%nat → worker_enabled s w.
Proof.
  intros Hs Hn. unfold worker_enabled, out_compress_async_fn.
  destruct n as [|[|[|n]]]; [..|lia]; destruct Hs as (-> & Hs); [done| |].
  - destruct Hs as (_ & -> & _). done.
  - rewrite bind_run. by destruct (async_work m (as_out s) w).
Qed.

Lemma not_exit_all evs :
  existsb is_exit evs = false → Forall (λ ev, negb (is_exit ev) = true) evs.
Proof.
  intros He. apply Forall_forall. intros ev Hin. apply negb_true_iff.
  destruct (is_exit ev) eqn:Hx; [|done]. rewrite <- He. symmetry. apply existsb_exists.
  exists ev. by rewrite <- list_elem_of_In.
Qed.

(** a request made while the thread waits for one is served: whatever the
    client calls in the meantime, the thread can always take another step, and
    after three of them the client's callback has been told the answer to this
    request, the first since it was made. *)
Theorem request_served s w c s1 w1 evs s2 w2 :
  as_worker s = AtSleep → as_exit s = false → as_mode s = ASYNC_NONE →
  async_do (EvCall c) s w = (Some s1, w1) → as_mode s1 ≠ ASYNC_NONE →
  async_run (s1, w1) evs (s2, w2) → existsb is_exit evs = false →
  let n := List.length (List.filter is_worker evs) in
  ((n < 3)%nat → worker_enabled s2 w2)
  ∧ ((3 <= n)%nat → (as_called s ++ answer (as_mode s1)) `prefix_of` as_called s2).
Proof.
  intros Hw Hx Hm Hd Hm1 Hr He n. apply call_effect in Hd as (_ & _ & Hx1 & Hc1 & Hw1).
  rewrite Hm, Hw, bool_decide_eq_true_2, bool_decide_eq_false_2 in Hw1 by done.
  cbn in Hw1. assert (Hs : serving (as_mode s1) (as_called s) n s2).
  { refine (run_invariant (λ ev, negb (is_exit ev)) (serving (as_mode s1) (as_called s))
              _ evs 0%nat s1 w1 s2 w2 (not_exit_all _ He) _ Hr).
    - intros ? ? ? ? ? ?. by apply serving_step.
    - cbn. split_and!; congruence. }
  split; [by eapply serving_enabled|]. intros Hn.
  destruct n as [|[|[|n]]]; [lia..|exact Hs].
Qed.

(** ** A request made while the thread does something else *)

(** Before it waits again the thread does not look at [mode]. *)
Definition not_waiting (p : worker_at) : Prop :=
  match p with AtTest | AtLock | AtWork _ => True | _ => False end.

(** [called]: the callbacks, with the one of what is being served. *)
Definition lost (m : async_mode) (called : list stream_event) (s : async_state) : Prop :=
  as_mode s = m ∧ as_exit s = false ∧ oc_use_async (ox_common (as_out s)) = true
  ∧ match as_worker s with
    | AtTest | AtLock | AtWait | AtSleep => as_called s = called
    | AtWork m0 => as_called s ++ answer m0 = called
    | _ => False
    end.

Lemma lost_step m called s w ev s' w' :
  m ≠ ASYNC_NONE → negb (is_exit ev || is_spurious ev) = true → lost m called s →
  async_do ev s w = (Some s', w') → lost m called s'.
Proof.
  intros Hm He (Hmode & Hx & Hu & Hw) Hd. unfold lost, as_mode in *.
  destruct ev as [| |c|]; [|done| |done].
  - apply worker_effect in Hd. unfold moved_worker in Hd. rewrite Hx in Hd.
    destruct (as_worker s); try done; destruct Hd as (-> & -> & -> & Hu' & Hm' & _);
      (split_and!; [rewrite Hm'; congruence|done|congruence|done]).
  - apply call_effect in Hd as (Hh & (Hu' & Hm' & _) & Hx' & Hc' & Hw').
    unfold as_mode in *. rewrite Hmode, bool_decide_eq_false_2 in Hw' by done. cbn in Hw'.
    rewrite Hw', Hc'. split_and!; [rewrite Hm'; congruence|congruence..|done].
Qed.

Lemma drain_busy s t l (w : world K) :
  as_mode s ≠ ASYNC_NONE → oc_use_async (ox_common (as_out s)) = true →
  (async_call (OcDrain t l) s w).1.1 = - EBUSY.
Proof.
  intros Hm Hu. unfold async_call. rewrite bind_run. cbn [run_out_call].
  unfold out_compress_drain, signal_async_thread. rewrite Hu.
  unfold as_mode in Hm. by rewrite bool_decide_eq_false_2.
Qed.

(** a request made at any other time is lost.  As long as the wait does not
    end by itself, the client's callback hears at most the answer to what the
    thread was serving, whatever the client calls; the request stays where it
    is, and every later one is refused with [-EBUSY]. *)
Theorem request_lost s w c s1 w1 evs s2 w2 :
  not_waiting (as_worker s) → as_exit s = false → as_mode s = ASYNC_NONE →
  oc_use_async (ox_common (as_out s)) = true →
  async_do (EvCall c) s w = (Some s1, w1) → as_mode s1 ≠ ASYNC_NONE →
  async_run (s1, w1) evs (s2, w2) →
  existsb (λ ev, is_exit ev || is_spurious ev) evs = false →
  as_called s2 `prefix_of`
    as_called s ++ match as_worker s with AtWork m0 => answer m0 | _ => [] end
  ∧ as_mode s2 = as_mode s1
  ∧ ∀ t l (w : world K), (async_call (OcDrain t l) s2 w).1.1 = - EBUSY.
Proof.
  intros Hw Hx Hm Hu Hd Hm1 Hr He. set (called := as_called s ++ _).
  apply call_effect in Hd as (_ & (Hu1 & _) & Hx1 & Hc1 & Hw1).
  assert (Hw1' : as_worker s1 = as_worker s).
  { destruct (as_worker s); try done; by destruct (_ && _). }
  assert (Hl : lost (as_mode s1) called s2).
  { refine (run_invariant (λ ev, negb (is_exit ev || is_spurious ev))
              (λ _, lost (as_mode s1) called) _ evs 0%nat s1 w1 s2 w2 _ _ Hr).
    - intros _ ? ? ? ? ?. by apply lost_step.
    - apply Forall_forall. intros ev Hin. apply negb_true_iff.
      destruct (is_exit ev || is_spurious ev) eqn:Hb; [|done]. rewrite <- He. symmetry.
      apply existsb_exists. exists ev. by rewrite <- list_elem_of_In.
    - unfold lost. rewrite Hw1', Hc1. split_and!; [congruence..|]. unfold called.
      destruct (as_worker s); try done; by rewrite app_nil_r. }
  destruct Hl as (Hm2 & _ & Hu2 & Hc2). split_and!; [|done|].
  - destruct (as_worker s2); try done; rewrite <- Hc2; [reflexivity..|by apply prefix_app_r].
  - intros t l w'. apply drain_busy; congruence.
Qed.

(** ** Closing the stream *)

Definition ended (p : worker_at) : Prop := match p with AtEnd _ => True | _ => False end.

(** Where the thread can be [n] of its events after the request to exit. *)
Definition ending (n : nat) (s : async_state) : Prop :=
  as_exit s = true ∧
  match n, as_worker s with
  | _, AtEnd _ | 0%nat, (AtTest | AtWoken | AtWork _) | 1%nat, (AtTest | AtCheck) => True
  | _, _ => False
  end.

Lemma ending_step n s w ev s' w' :
  is_worker ev = true → ending n s → async_do ev s w = (Some s', w') →
  ending (n + if is_worker ev then 1 else 0)%nat s'.
Proof.
  intros He [Hx Hw] Hd. destruct ev; [|done..]. apply worker_effect in Hd.
  unfold moved_worker in Hd. rewrite Hx in Hd. unfold ending.
  destruct n as [|[|n]], (as_worker s); try done;
    by destruct Hd as (-> & -> & _).
Qed.

Lemma stuck_step n s w ev s' w' :
  is_worker ev = true → [AtLock; AtWait; AtSleep] !! n = Some (as_worker s) →
  async_do ev s w = (Some s', w') →
  [AtLock; AtWait; AtSleep] !! (n + if is_worker ev then 1 else 0)%nat = Some (as_worker s').
Proof.
  intros He Hw Hd. destruct ev; [|done..]. apply worker_effect in Hd.
  unfold moved_worker in Hd.
  destruct n as [|[|[|n]]]; [injection Hw as Hw..|done]; rewrite <- Hw in Hd;
    [by destruct Hd as (-> & _)..|done].
Qed.

Lemma all_workers evs :
  List.Forall (λ ev, is_worker ev = true) evs → List.filter is_worker evs = evs.
Proof.
  induction 1 as [|ev evs He _ IH]; [done|]. cbn. by rewrite He, IH.
Qed.

(** closing a stream joins its thread.  The thread ends within two of its
    events, unless it has read [exit] already and not yet taken the mutex:
    then it goes to sleep, and the close never returns. *)
Theorem close_joins s w s1 w1 evs s2 w2 :
  async_do EvExit s w = (Some s1, w1) →
  async_run (s1, w1) evs (s2, w2) → Forall (λ ev, is_worker ev = true) evs →
  if bool_decide (as_worker s = AtLock)
  then [AtLock; AtWait; AtSleep] !! List.length evs = Some (as_worker s2)
  else ended (as_worker s2) ∨ ((List.length evs < 2)%nat ∧ worker_enabled s2 w2).
Proof.
  intros Hd Hr Hf. cbn in Hd. destruct (mutex_held (as_worker s)) eqn:Hh; [done|].
  injection Hd as <- <-. rewrite <- (f_equal List.length (all_workers evs Hf)).
  case_bool_decide as Hl.
  - refine (run_invariant is_worker (λ n s, [AtLock; AtWait; AtSleep] !! n = Some (as_worker s))
              _ evs 0%nat _ _ s2 w2 Hf _ Hr).
    + intros ? ? ? ? ? ?. by apply stuck_step.
    + cbn. by rewrite Hl.
  - assert (He : ending (List.length (List.filter is_worker evs)) s2).
    { refine (run_invariant is_worker ending _ evs 0%nat _ _ s2 w2 Hf _ Hr).
      - intros ? ? ? ? ? ?. by apply ending_step.
      - split; [done|]. cbn. by destruct (as_worker s). }
    destruct He as [Hx He]. unfold worker_enabled, out_compress_async_fn.
    destruct (List.length _) as [|[|n]], (as_worker s2); try done;
      try (by left); right; (split; [lia|]); rewrite ?Hx; try done.
    rewrite bind_run. by destruct (async_work _ _ _).
Qed.

End async.

(** ** Runs on the software device *)

(** An asynchronous stream that plays. *)
Definition demo_async_out : stream_out_compress :=
  OutCompress (OutCommon 1 true 0x01000000 0x3 2 48000 1 4096 0 false ASYNC_NONE) (Live 7)
    snd_codec0 true false (0, 0) false.

Definition demo_async : async_state :=
  default (Async hal_config demo_async_out false AtTest [])
    (out_compress_set_callback 0 0 0 hal_config demo_async_out).2.

Definition demo_async_at (evs : list async_event) : async_state * world soft_hal :=
  default (demo_async, demo_hal_world) (async_exec evs demo_async demo_hal_world).

(** The thread waits. *)
Definition demo_asleep : async_state * world soft_hal :=
  demo_async_at [EvWorker; EvWorker; EvWorker].

Definition demo_drain : async_event := EvCall (OcDrain AUDIO_DRAIN_ALL nobody).

Definition after (ev : async_event) (x : async_state * world soft_hal)
  : async_state * world soft_hal :=
  let '(s, w) := async_do ev x.1 x.2 in (default x.1 s, w).

(** A drain while the thread waits: after three of its events the client has
    its answer. *)
Definition demo_served : async_state * world soft_hal :=
  default demo_asleep (async_exec [EvWorker; EvWorker; EvWorker]
                         (after demo_drain demo_asleep).1 (after demo_drain demo_asleep).2).

Lemma request_served_witness :
  as_called demo_served.1 = [STREAM_CBK_EVENT_DRAIN_READY]
  ∧ (as_called demo_asleep.1 ++ answer (as_mode (after demo_drain demo_asleep).1))
      `prefix_of` as_called demo_served.1.
Proof.
  split; [vm_compute; reflexivity|].
  apply (request_served demo_asleep.1 demo_asleep.2 (OcDrain AUDIO_DRAIN_ALL nobody)
           (after demo_drain demo_asleep).1 (after demo_drain demo_asleep).2
           [EvWorker; EvWorker; EvWorker] demo_served.1 demo_served.2);
    [vm_compute; reflexivity..| | | |].
  - vm_compute; discriminate.
  - apply async_exec_run. vm_compute. reflexivity.
  - reflexivity.
  - cbn. lia.
Defined.

(** A drain right after [set_callback], before the thread waits. *)
Definition demo_lost : async_state * world soft_hal :=
  default demo_asleep
    (async_exec [EvWorker; EvCall OcPosition; EvWorker; EvWorker; demo_drain]
       (after demo_drain (demo_async, demo_hal_world)).1
       (after demo_drain (demo_async, demo_hal_world)).2).

Lemma request_lost_witness :
  as_worker demo_lost.1 = AtSleep
  ∧ as_called demo_lost.1 `prefix_of` []
  ∧ as_mode demo_lost.1 = ASYNC_FULL_DRAIN
  ∧ ∀ t l (w : world soft_hal), (async_call (OcDrain t l) demo_lost.1 w).1.1 = - EBUSY.
Proof.
  split; [vm_compute; reflexivity|].
  pose proof (request_lost demo_async demo_hal_world (OcDrain AUDIO_DRAIN_ALL nobody)
    (after demo_drain (demo_async, demo_hal_world)).1
    (after demo_drain (demo_async, demo_hal_world)).2
    [EvWorker; EvCall OcPosition; EvWorker; EvWorker; demo_drain]
    demo_lost.1 demo_lost.2) as Hl.
  apply Hl; [exact I|reflexivity|reflexivity|reflexivity|vm_compute; reflexivity| | |reflexivity].
  - vm_compute; discriminate.
  - apply async_exec_run. vm_compute. reflexivity.
Defined.

(** The request to exit falls between the test and the mutex. *)
Definition demo_late_exit : async_state * world soft_hal :=
  after EvExit (demo_async_at [EvWorker]).

Definition demo_hung : async_state * world soft_hal :=
  default demo_asleep (async_exec [EvWorker; EvWorker] demo_late_exit.1 demo_late_exit.2).

Definition demo_joined : async_state * world soft_hal :=
  default demo_asleep (async_exec [EvWorker; EvWorker] (after EvExit demo_asleep).1
                         (after EvExit demo_asleep).2).

Lemma close_joins_witness :
  as_worker demo_joined.1 = AtEnd true
  ∧ [AtLock; AtWait; AtSleep] !! 2%nat = Some (as_worker demo_hung.1)
  ∧ (out_compress_async_fn demo_hung.1 demo_hung.2).1 = None.
Proof.
  split; [vm_compute; reflexivity|]. split; [|vm_compute; reflexivity].
  apply (close_joins (demo_async_at [EvWorker]).1 (demo_async_at [EvWorker]).2
           demo_late_exit.1 demo_late_exit.2 [EvWorker; EvWorker] demo_hung.1 demo_hung.2).
  - vm_compute. reflexivity.
  - apply async_exec_run. vm_compute. reflexivity.
  - by repeat constructor.
Defined.

(** The stream's lock does not keep the thread out: a standby while it drains
    takes the handle from under it. *)
Theorem standby_races_drain :
  let x := after EvWorker (after EvWorker (after demo_drain demo_asleep)) in
  as_worker x.1 = AtWork ASYNC_FULL_DRAIN
  ∧ w_faults x.2 = []
  ∧ w_faults (after EvWorker (after (EvCall OcStandby) x)).2 = [NullDeref].
Proof. vm_compute. done. Qed.
