(* ===== verification/HalSystem.v ===== *)
(** * The audio HAL as one system

    The device, the output and input streams it has open and the voice trigger
    share the streams of the configuration.  The states of the system are those
    the calls of AudioFlinger reach.  This file proves that the reference
    counts of the configuration are the numbers of the objects that use its
    streams, and names the calls that lose references. *)

From S2P Require Import Prelude Kernel SoftCard ConfigData CStrings PcmKernel Pcm Routing.
From S2P Require Import RouteInv VoiceTrigger VoiceFacts HalOut HalIn HalDev SoftHal.
From S2P Require Import HalOutSafe HalKeeps.
From Stdlib Require Import Ascii String.

#[global] Open Scope Z_scope.

(** The open streams, and the name of the next input object. *)
Record audio_hal := AudioHal {
  hs_dev : audio_device;
  hs_outs : list out_stream;
  hs_ins : list stream_in_pcm;
  hs_next : nat
}.

(** The calls of AudioFlinger; streams are given by their position. *)
Inductive hal_call :=
  | HcOpenOutput (devices : Z) (config : audio_config)
  | HcOutput (k : nat) (c : out_call)
  | HcCloseOutput (k : nat)
  | HcOpenInput (devices : Z) (config : audio_config)
  | HcRead (k : nat) (buffer : list Z) (bytes : Z)
  | HcStandbyInput (k : nat)
  | HcSetInput (k : nat) (kvpairs : string)
  | HcCloseInput (k : nat)
  | HcSetParameters (kvpairs : string)
  | HcMicMute (state : bool).

Section system.
  Context {K : Type}.
  Context `{!AlsaCtl K, !AlsaPcm K, !TinyCompress K, !Clock K, !Resampler K}.
  Context `{!AudioH, !HalPlatform}.
  Variable fuel : nat.

(** A call; one on a stream that is not open does not happen. *)
Definition hal_do (c : hal_call) (h : audio_hal) : M (world K) audio_hal :=
  let '(AudioHal a outs ins next) := h in
  match c with
  | HcOpenOutput devices config =>
    '(_, out, a) ← adev_open_output_stream a devices config;
    mret (AudioHal a (outs ++ match out with Some out => [out] | None => [] end) ins next)
  | HcOutput k c =>
    match outs !! k with
    | Some out =>
      if is_config c then mret h
      else '(_, cm, out) ← run_out_call c (ad_cm a) out;
           mret (AudioHal (set_ad_cm cm a) (<[k := out]> outs) ins next)
    | None => mret h
    end
  | HcCloseOutput k =>
    match outs !! k with
    | Some out => a ← adev_close_output_stream a out; mret (AudioHal a (delete k outs) ins next)
    | None => mret h
    end
  | HcOpenInput devices config =>
    '(_, i) ← adev_open_input_stream next devices config;
    mret (AudioHal a outs (ins ++ match i with Some i => [i] | None => [] end) (S next))
  | HcRead k buffer bytes =>
    match ins !! k with
    | Some i => '(_, _, i) ← in_pcm_read fuel a i buffer bytes;
                mret (AudioHal a outs (<[k := i]> ins) next)
    | None => mret h
    end
  | HcStandbyInput k =>
    match ins !! k with
    | Some i => i ← in_pcm_standby (ad_cm a) i; mret (AudioHal a outs (<[k := i]> ins) next)
    | None => mret h
    end
  | HcSetInput k kv =>
    match ins !! k with
    | Some i => '(_, i, a) ← in_pcm_set_parameters a i kv;
                mret (AudioHal a outs (<[k := i]> ins) next)
    | None => mret h
    end
  | HcCloseInput k =>
    match ins !! k with
    | Some i => a ← adev_close_input_stream a i; mret (AudioHal a outs (delete k ins) next)
    | None => mret h
    end
  | HcSetParameters kv => '(_, a) ← adev_set_parameters a kv; mret (AudioHal a outs ins next)
  | HcMicMute state => mret (AudioHal (adev_set_mic_mute a state).2 outs ins next)
  end.

(** The calls that lose a reference: opening an output stream that fails after
    its stream of the configuration has been taken, and arming a trigger that
    fired. *)
Definition loses (c : hal_call) (h : audio_hal) (w : world K) : Prop :=
  match c with
  | HcOpenOutput devices config =>
    is_Some (get_stream (ad_cm (hs_dev h)) (Z.land devices AUDIO_DEVICE_OUT_ALL)
               (ac_format config) w).1.1
    ∧ (adev_open_output_stream (hs_dev h) devices config w).1.1.2 = None
  | HcSetParameters kv =>
    ad_voice_st (hs_dev h) = eVoiceTriggerFired
    ∧ ∃ parms, str_parms_create_str kv = Some parms ∧ command parms = Some "1"%string
  | _ => False
  end.

(** The system after [adev_open] and any calls; [lossy] admits calls that lose
    references. *)
Inductive hal_states (lossy : bool) (cm0 : config_mgr) : audio_hal → Prop :=
  | hal_opened (w : world K) :
      hal_states lossy cm0 (AudioHal (adev_init cm0 w).1 [] [] 0)
  | hal_called h c (w : world K) :
      hal_states lossy cm0 h → (lossy = true ∨ ¬ loses c h w) →
      hal_states lossy cm0 (hal_do c h w).1.

(** The number of objects that use stream [i] of the configuration. *)
Definition users (h : audio_hal) (i : nat) : Z :=
  count (λ o, bool_decide (out_hw o = i)) (hs_outs h)
  + count (λ j, bool_decide (ic_hw (ip_common j) = Some i)) (hs_ins h)
  + (if bool_decide (ad_global_stream (hs_dev h) = Some i) then 1 else 0).

End system.
Section accounting.
  Context {K : Type}.
  Context `{!AlsaCtl K, !AlsaPcm K, !TinyCompress K, !Clock K, !Resampler K}.
  Context `{!AudioH, !HalPlatform}.
  Variable fuel : nat.

(** ** Users of a stream *)

Definition hit (s : option nat) (i : nat) : Z := if bool_decide (s = Some i) then 1 else 0.

Lemma accounts_ext lost c c' a : (∀ i, c' i = c i) → accounts lost c a → accounts lost c' a.
Proof. intros He [Hb Hc Hl Hs]. split; [done|intros i; by rewrite He|done|intros i; by rewrite He]. Qed.

Lemma accounts_refs lost c a cm :
  refs cm = refs (ad_cm a) → accounts lost c a → accounts lost c (set_ad_cm cm a).
Proof. intros Hr. apply accounts_same; [exact Hr|]. by apply held_states. Qed.

(** A reference taken for a client. *)
Lemma accounts_take lost c a s cm :
  accounts lost c a → opened (ad_cm a) (s, cm) →
  accounts lost (λ i, c i + hit s i) (set_ad_cm cm a).
Proof.
  intros Ha Ho. eapply (accounts_open _ _ _ a (set_ad_cm cm a)); [exact Ha|exact Ho| |].
  - intros i. pose proof (ac_clients _ _ _ Ha i). unfold hit. case_bool_decide; lia.
  - intros i. rewrite (held_states a (set_ad_cm cm a)) by done. unfold hit. lia.
Qed.

(** A client's reference given back. *)
Lemma release_accounts lost c a s :
  accounts lost (λ i, c i + hit (Some s) i) a → (∀ i, 0 <= c i) →
  returns (S:=world K) (release_stream (ad_cm a) (Some s))
    (λ cm, accounts lost c (set_ad_cm cm a)).
Proof.
  intros Ha Hc. assert (Hpos : 0 < ref_of (ad_cm a) s).
  { rewrite (ac_sum _ _ _ Ha). pose proof (ac_lost _ _ _ Ha s). pose proof (held_bounds a s).
    specialize (Hc s). unfold hit. rewrite bool_decide_eq_true_2 by done. lia. }
  destruct (ref_of_pos _ _ Hpos) as (st & Hat & Href & _).
  eapply returns_post; [apply (release_refs _ _ st); [done|apply Ha|lia]|].
  intros cm Hr. eapply (accounts_release _ _ _ a (set_ad_cm cm a) s); [done..|].
  intros j. rewrite (held_states a (set_ad_cm cm a)) by done. unfold hit.
  rewrite (bool_decide_ext (Some s = Some j) (s = j)) by (split; congruence). lia.
Qed.

(** A reference a client took and lost. *)
Lemma accounts_lose lost c a s :
  accounts lost (λ i, c i + hit (Some s) i) a → (∀ i, 0 <= c i) →
  accounts (λ i, lost i + hit (Some s) i) c a.
Proof.
  intros [Hb Hc Hl Hs] Hc'. split; [done|done| |].
  - intros i. specialize (Hl i). unfold hit. case_bool_decide; lia.
  - intros i. rewrite Hs. lia.
Qed.

Lemma count_delete {A} (f : A → bool) k l x :
  l !! k = Some x → count f (delete k l) = count f l - Z.b2z (f x).
Proof.
  intros Hk. rewrite <- (take_drop_middle l k x Hk) at 2. rewrite delete_take_drop.
  rewrite !count_app, count_cons. lia.
Qed.

(** ** The voice trigger and the device's other fields *)

Lemma settles_exact lost c a : settles lost c true a → accounts lost c a.
Proof.
  intros (lost' & [Hb Hc Hl Hs] & He). specialize (He eq_refl).
  split; [done|done|intros i; by rewrite <- He|intros i; by rewrite <- He].
Qed.

(** ** Output streams *)

Lemma init_compress_hw cm out config :
  returns (S:=world K) (do_init_out_compress cm out config)
    (λ r, oc_hw (ox_common r.2) = oc_hw (ox_common out)).
Proof.
  unfold do_init_out_compress.
  destruct (codec_of_format (ac_format config)) as [[id level]|]; [|by apply returns_ret].
  eapply returns_post; [apply open_keeps|]. intros r (_ & _ & Hh). exact Hh.
Qed.

Lemma new_output_keeps a s devices config :
  returns (S:=world K) (new_output_stream a s devices config) (λ r,
    (∃ cm, r.2 = set_ad_cm cm a ∧ refs cm = refs (ad_cm a))
    ∧ ∀ out, r.1.2 = Some out → out_hw out = s).
Proof.
  unfold new_output_stream.
  assert (Hnone : ∀ ret, returns (S:=world K) (mret (ret, None, a))
    (λ r : Z * option out_stream * audio_device,
    (∃ cm, r.2 = set_ad_cm cm a ∧ refs cm = refs (ad_cm a))
    ∧ ∀ out, r.1.2 = Some out → out_hw out = s)).
  { intros ret. apply returns_ret. split; [|done]. exists (ad_cm a). split; [by destruct a|done]. }
  eapply returns_bind; [apply returns_true|]. intros info _.
  eapply returns_bind; [apply returns_true|]. intros [] _; cbn [negb]; [|apply Hnone].
  eapply (returns_bind _ _ (λ r : Z * stream_out_common * config_mgr,
    oc_hw r.1.2 = s ∧ refs r.2 = refs (ad_cm a))).
  { unfold do_init_out_common. cbv zeta. eapply returns_bind; [apply apply_route_refs|].
    intros cm Hr. by apply returns_ret. }
  intros [[r0 common] cm] [Hh Hr]. cbn [fst snd] in *. cbv zeta.
  destruct (r0 <? 0).
  { apply returns_ret. cbn [fst snd]. split; [by exists cm|done]. }
  eapply (returns_bind _ _ (λ r : Z * out_stream, out_hw r.2 = s)).
  - assert (Hpcm : returns (S:=world K)
      ('(ret, out) ← do_init_out_pcm cm (out_pcm0 common) config; mret (ret, StreamOutPcm out))
      (λ r, out_hw r.2 = s)).
    { unfold do_init_out_pcm. eapply (returns_bind _ _ (λ r : Z * stream_out_pcm, oc_hw (op_common r.2) = s)).
      - do 2 (eapply returns_bind; [apply returns_true|]; intros ? _). by apply returns_ret.
      - intros [ret out] Ho. by apply returns_ret. }
    assert (Hcompress : returns (S:=world K)
      ('(ret, out) ← do_init_out_compress cm (out_compress0 common) config;
       mret (ret, StreamOutCompress out)) (λ r, out_hw r.2 = s)).
    { eapply returns_bind; [apply init_compress_hw|]. intros [ret out] Ho.
      apply returns_ret. by etrans; [exact Ho|]. }
    case_bool_decide; [done|]. by eapply returns_bind; [apply returns_true|].
  - intros [ret out] Ho. apply returns_ret. cbn [fst snd] in *. split; [by exists cm|].
    intros o Hs. destruct (ret <? 0); [done|]. by injection Hs as <-.
Qed.

Lemma close_output_accounts lost c a out :
  accounts lost (λ i, c i + hit (Some (out_hw out)) i) a → (∀ i, 0 <= c i) →
  returns (S:=world K) (adev_close_output_stream a out) (λ a',
    accounts lost c a' ∧ same_global a a').
Proof.
  intros Ha Hc. unfold adev_close_output_stream.
  eapply (returns_bind _ _ (λ cm, accounts lost c (set_ad_cm cm a)));
    [|intros cm Hcm; by apply returns_ret].
  destruct out as [o|o]; cbn in Ha.
  - unfold do_close_out_pcm. eapply returns_bind; [apply standby_pcm_keeps|].
    intros o' Ho'. unfold do_close_out_common. cbn in Ho'. unfold pcm_kept in Ho'.
    rewrite Ho'. by apply release_accounts.
  - unfold out_compress_close. cbv zeta. eapply returns_bind; [apply standby_keeps|].
    intros [r o'] (_ & _ & Ho'). unfold do_close_out_common. cbn in Ho'. rewrite Ho'.
    by apply release_accounts.
Qed.

(** ** Input streams *)

Lemma hit_none i : hit None i = 0.
Proof. done. Qed.

Lemma opened_refs cm cm' r : refs cm = refs cm' → opened cm r → opened cm' r.
Proof. unfold opened. by intros ->. Qed.

Lemma source_opened a i new_source devices :
  refs_bounded (ad_cm a) →
  returns (S:=world K) (source_stream a i new_source devices) (opened (ad_cm a)).
Proof.
  intros Hb. unfold source_stream. eapply (returns_bind _ _ (opened (ad_cm a))).
  { destruct (new_source =? _); [|by apply returns_ret].
    destruct (voice_trigger_audio_stream_name a); [by apply get_named_stream_refs|].
    by apply returns_ret. }
  intros [[s|] cm] Ho; [by apply returns_ret|]. unfold opened in Ho. cbn in Ho.
  eapply returns_post; [apply get_stream_refs; unfold refs_bounded; by rewrite Ho|].
  intros r. by apply opened_refs.
Qed.

Lemma started_accounts lost c a :
  accounts lost c a → accounts lost c (voice_trigger_audio_started_locked a).
Proof.
  intros Ha. unfold voice_trigger_audio_started_locked. destruct (ad_voice_st a) eqn:Hst; try done.
  eapply accounts_same; [| |exact Ha]; [done|]. apply held_states; [by rewrite Hst|done].
Qed.

Lemma active_accounts lost c a s :
  accounts lost c a → accounts lost c (set_active_voice_control s a).
Proof. apply accounts_same; [done|]. by apply held_states. Qed.

Lemma ended_accounts lost c a :
  accounts lost c a →
  returns (S:=world K) (voice_trigger_audio_ended_locked a) (λ a',
    accounts lost c a' ∧ same_global a a').
Proof.
  intros Ha w. split; [|exact (proj1 (ended_kept a w))].
  apply settles_exact, (ended_settles lost c true a Ha w).
Qed.

Lemma change_source_accounts lost c a i value devices :
  accounts lost (λ j, c j + hit (ic_hw (ip_common i)) j) a → (∀ j, 0 <= c j) →
  returns (S:=world K) (change_input_source_locked a i value devices) (λ r,
    accounts lost (λ j, c j + hit (ic_hw (ip_common r.1.2)) j) r.2 ∧ same_global a r.2).
Proof.
  intros Ha Hc. unfold change_input_source_locked. cbv zeta.
  destruct (negb _); [by apply returns_ret|]. destruct (_ =? _); [by apply returns_ret|].
  eapply returns_bind; [apply source_opened, Ha|]. intros [[s|] cm] Ho.
  2:{ apply returns_ret. split; [|done]. by apply accounts_refs. }
  pose proof (accounts_take _ _ _ _ _ Ha Ho) as Ha1.
  eapply (returns_bind _ _ (λ cm', accounts lost (λ j, c j + hit (Some s) j)
                                     (set_ad_cm cm' (set_ad_cm cm a)))).
  { destruct (ic_hw (ip_common i)) as [old|] eqn:Hold.
    - apply release_accounts.
      + eapply accounts_ext; [|exact Ha1]. intros j. cbv beta. lia.
      + intros j. specialize (Hc j). unfold hit. case_bool_decide; lia.
    - apply returns_ret. eapply accounts_ext; [|exact Ha1]. intros j. cbv beta.
      rewrite hit_none. lia. }
  intros cm' Ha2. set (a2 := set_ad_cm cm' _) in *.
  eapply (returns_bind _ _ (λ a', accounts lost (λ j, c j + hit (Some s) j) a' ∧ same_global a a')).
  { destruct (_ =? _).
    - apply returns_ret. split; [by apply started_accounts, active_accounts|].
      unfold voice_trigger_audio_started_locked. by destruct (ad_voice_st _).
    - destruct (bool_decide _); [|by apply returns_ret].
      eapply returns_post; [apply ended_accounts; by apply active_accounts|].
      intros a' [H1 H2]. split; [done|]. by etrans; [|exact H2]. }
  intros a' [H1 H2]. by apply returns_ret.
Qed.

Lemma set_input_accounts lost c a i kv :
  accounts lost (λ j, c j + hit (ic_hw (ip_common i)) j) a → (∀ j, 0 <= c j) →
  returns (S:=world K) (in_pcm_set_parameters a i kv) (λ r,
    accounts lost (λ j, c j + hit (ic_hw (ip_common r.1.2)) j) r.2 ∧ same_global a r.2).
Proof.
  intros Ha Hc. unfold in_pcm_set_parameters.
  eapply returns_bind; [apply returns_true|]. intros routing _.
  eapply returns_bind; [apply returns_true|]. intros source _.
  eapply (returns_bind _ _ (λ r : Z * option Z * stream_in_pcm * audio_device,
    accounts lost (λ j, c j + hit (ic_hw (ip_common r.1.2)) j) r.2 ∧ same_global a r.2)).
  { destruct source as [value|]; [|by apply returns_ret]. cbv zeta.
    eapply returns_bind; [by apply change_source_accounts|].
    intros [[[ret b] j] a'] Hj. by apply returns_ret. }
  intros [[[ret routing'] j] a'] [Hj Hg]. cbn [fst snd] in *.
  destruct (ret <? 0); [by apply returns_ret|].
  eapply (returns_bind _ _ (λ r : stream_in_pcm * audio_device,
    accounts lost (λ k, c k + hit (ic_hw (ip_common r.1)) k) r.2 ∧ same_global a r.2)).
  { destruct routing' as [d|]; [|by apply returns_ret]. cbv zeta. cbn [ic_hw set_ip_common ip_common].
    destruct (ic_hw (ip_common j)) as [s|] eqn:Hs; cbn [ic_hw set_ic_devices]; rewrite Hs.
    - eapply returns_bind; [apply apply_route_refs|]. intros cm Hr. apply returns_ret. cbn. rewrite Hs.
      split; [by apply accounts_refs|done].
    - apply returns_ret. cbn. by rewrite Hs. }
  intros [j' a''] [Hj' Hg']. cbn [fst snd] in *.
  eapply returns_bind; [apply invoke_refs|]. intros [r cm] Hr. apply returns_ret. cbn [fst snd] in *.
  split; [by apply accounts_refs|done].
Qed.

Lemma close_input_accounts lost c a i :
  accounts lost (λ j, c j + hit (ic_hw (ip_common i)) j) a → (∀ j, 0 <= c j) →
  returns (S:=world K) (adev_close_input_stream a i) (λ a',
    accounts lost c a' ∧ same_global a a').
Proof.
  intros Ha Hc. unfold adev_close_input_stream, do_close_in_pcm.
  eapply (returns_bind _ _ (λ j, ic_hw (ip_common j) = ic_hw (ip_common i))).
  { destruct (ic_hw (ip_common i)) as [s|] eqn:Hs; [|by apply returns_ret].
    eapply returns_bind; [apply returns_true|]. intros hw _.
    destruct (stream_is_compressed hw); [|by apply returns_ret].
    eapply returns_post; [apply close_compress_in_keeps|]. intros j [_ Hj]. by rewrite <- Hs. }
  intros j Hj. rewrite <- Hj in Ha. clear Hj i. unfold do_close_in_common.
  eapply returns_bind; [apply standby_in_keeps|]. intros i [_ Hi]. cbn in Hi.
  rewrite <- Hi in Ha. clear Hi j.
  eapply (returns_bind _ _ (λ a', accounts lost (λ j, c j + hit (ic_hw (ip_common i)) j) a'
                                  ∧ same_global a a')).
  { destruct (bool_decide _); [|by apply returns_ret].
    eapply returns_post; [apply ended_accounts; by apply active_accounts|].
    intros a' [H1 H2]. split; [done|]. by etrans; [|exact H2]. }
  intros a' [Ha' Hg]. destruct (ic_hw (ip_common i)) as [s|].
  - eapply returns_bind; [by apply release_accounts|]. intros cm Hcm. by apply returns_ret.
  - apply returns_ret. split; [|done]. eapply accounts_ext; [|exact Ha']. intros j. cbv beta.
    rewrite hit_none. lia.
Qed.

(** ** Calls on the system *)

Definition balanced (lost : ledger) (h : audio_hal) : Prop :=
  accounts lost (users h) (hs_dev h).

Lemma b2z_out o i : Z.b2z (bool_decide (out_hw o = i)) = hit (Some (out_hw o)) i.
Proof.
  unfold hit. rewrite (bool_decide_ext (Some (out_hw o) = Some i) (out_hw o = i))
    by (split; congruence). by case_bool_decide.
Qed.

Lemma b2z_in (j : stream_in_pcm) i :
  Z.b2z (bool_decide (ic_hw (ip_common j) = Some i)) = hit (ic_hw (ip_common j)) i.
Proof. unfold hit. by case_bool_decide. Qed.

Lemma users_nonneg h i : 0 <= users h i.
Proof.
  unfold users. pose proof (count_bounds (λ o, bool_decide (out_hw o = i)) (hs_outs h)).
  pose proof (count_bounds (λ j, bool_decide (ic_hw (ip_common j) = Some i)) (hs_ins h)).
  case_bool_decide; lia.
Qed.

(** The users of a system whose device keeps its global stream. *)
Lemma users_global a a' outs ins n n' i :
  same_global a a' → users (AudioHal a' outs ins n') i = users (AudioHal a outs ins n) i.
Proof. unfold users. cbn. by intros ->. Qed.

Lemma users_insert_out a outs ins n k o o' i :
  outs !! k = Some o → out_hw o' = out_hw o →
  users (AudioHal a (<[k := o']> outs) ins n) i = users (AudioHal a outs ins n) i.
Proof.
  intros Hk Hh. unfold users. cbn [hs_outs hs_ins hs_dev].
  rewrite (count_insert _ outs k o o' Hk), !b2z_out, Hh. lia.
Qed.

Lemma users_insert_in a outs ins n k j j' i :
  ins !! k = Some j →
  users (AudioHal a outs (<[k := j']> ins) n) i
  = users (AudioHal a outs (delete k ins) n) i + hit (ic_hw (ip_common j')) i.
Proof.
  intros Hk. unfold users. cbn [hs_outs hs_ins hs_dev].
  rewrite (count_insert _ ins k j j' Hk), (count_delete _ k ins j Hk), !b2z_in. lia.
Qed.

Lemma users_delete_out a outs ins n k o i :
  outs !! k = Some o →
  users (AudioHal a outs ins n) i
  = users (AudioHal a (delete k outs) ins n) i + hit (Some (out_hw o)) i.
Proof.
  intros Hk. unfold users. cbn [hs_outs hs_ins hs_dev].
  rewrite (count_delete _ k outs o Hk), b2z_out. lia.
Qed.

Lemma users_delete_in a outs ins n k j i :
  ins !! k = Some j →
  users (AudioHal a outs ins n) i
  = users (AudioHal a outs (delete k ins) n) i + hit (ic_hw (ip_common j)) i.
Proof. intros Hk. rewrite <- (users_insert_in _ _ _ _ _ j j _ Hk). by rewrite list_insert_id. Qed.

Lemma users_new_out a outs ins n o i :
  users (AudioHal a (outs ++ [o]) ins n) i
  = users (AudioHal a outs ins n) i + hit (Some (out_hw o)) i.
Proof.
  unfold users. cbn [hs_outs hs_ins hs_dev]. rewrite count_app, count_cons, b2z_out.
  change (count _ []) with 0. lia.
Qed.

(** Replacing an input stream by one in the same place. *)
Lemma balanced_input lost a outs ins n k j j' :
  balanced lost (AudioHal a outs ins n) → ins !! k = Some j → in_kept j j' →
  balanced lost (AudioHal a outs (<[k := j']> ins) n).
Proof.
  intros Hb Hk [_ Hh]. eapply accounts_ext; [|exact Hb]. intros i.
  rewrite (users_insert_in _ _ _ _ _ _ _ _ Hk), (users_delete_in _ _ _ _ _ _ _ Hk). by rewrite Hh.
Qed.

Lemma open_output_balanced lost a outs ins n devices config (w : world K) :
  balanced lost (AudioHal a outs ins n) →
  let h := AudioHal a outs ins n in
  let h' := (hal_do fuel (HcOpenOutput devices config) h w).1 in
  ∃ lost', balanced lost' h'
    ∧ (¬ loses (HcOpenOutput devices config) h w → ∀ i, lost' i = lost i).
Proof.
  intros Hb h h'. unfold h', h, hal_do, loses. rewrite bind_run. cbn [hs_dev].
  unfold adev_open_output_stream. cbv zeta. rewrite !bind_run.
  pose proof (get_stream_refs (ad_cm a) (Z.land devices AUDIO_DEVICE_OUT_ALL)
                (ac_format config) (ac_bounded _ _ _ Hb) w) as Ho.
  destruct (get_stream _ _ _ w) as [[[s|] cm] w1]; cbn [fst snd] in *.
  2:{ cbn. exists lost. split; [|done]. rewrite app_nil_r. by apply accounts_refs. }
  pose proof (accounts_take _ _ _ _ _ Hb Ho) as Ha. cbn [hs_dev] in Ha.
  pose proof (new_output_keeps (set_ad_cm cm a) s (Z.land devices AUDIO_DEVICE_OUT_ALL)
                config w1) as [(cm' & Hcm & Hr) Hs].
  destruct (new_output_stream _ _ _ _ w1) as [[[ret [out|]] a'] w2]; cbn [fst snd] in *; subst a'.
  - exists lost. split; [|done]. specialize (Hs out eq_refl). subst s.
    apply (accounts_refs _ _ _ cm') in Ha; [|done]. eapply accounts_ext; [|exact Ha].
    intros i. cbn [mret M_ret fst]. by rewrite users_new_out.
  - exists (λ i, lost i + hit (Some s) i). split; [|intros Hno; destruct Hno; by split].
    cbn [mret M_ret fst]. rewrite app_nil_r.
    apply accounts_lose; [|intros i; apply users_nonneg].
    apply (accounts_refs _ _ _ cm') in Ha; [|done]. eapply accounts_ext; [|exact Ha].
    by intros i.
Qed.

Lemma set_parameters_balanced lost a outs ins n kv (w : world K) :
  balanced lost (AudioHal a outs ins n) →
  let h := AudioHal a outs ins n in
  let h' := (hal_do fuel (HcSetParameters kv) h w).1 in
  ∃ lost', balanced lost' h' ∧ (¬ loses (HcSetParameters kv) h w → ∀ i, lost' i = lost i).
Proof.
  intros Hb. cbv zeta. unfold loses. cbn [hs_dev]. revert w.
  set (ok := negb (bool_decide (ad_voice_st a = eVoiceTriggerFired)) ||
    match str_parms_create_str kv with
    | Some parms => negb (bool_decide (command parms = Some "1"%string))
    | None => true
    end).
  assert (Hret : returns (S:=world K) (adev_set_parameters a kv) (λ r,
    settles lost (users (AudioHal a outs ins n)) ok r.2 ∧ same_global a r.2)).
  { unfold adev_set_parameters.
    eapply (returns_bind _ _ (λ a', settles lost (users (AudioHal a outs ins n)) ok a'
                                    ∧ same_global a a')).
    - unfold ok. destruct (str_parms_create_str kv) as [parms|];
        [|apply returns_ret; split; [by apply settles_same|done]].
      intros w. split; [|exact (proj1 (set_params_kept parms a w))].
      destruct (params_settles lost _ a parms Hb w) as (lost' & Ha & Hl).
      exists lost'. split; [exact Ha|]. intros Hok. apply Hl.
      apply negb_true_iff, bool_decide_eq_false. intros [H1 H2].
      rewrite !bool_decide_eq_true_2 in Hok by done. done.
    - intros a' [(lost' & Ha & Hl) Hg]. destruct (ad_global_stream a') as [s|] eqn:Hs.
      + eapply returns_bind; [apply invoke_refs|]. intros [r cm] Hr. apply returns_ret.
        cbn [fst snd] in *. split; [exists lost'; split; [by apply accounts_refs|done]|].
        unfold same_global in *. by cbn.
      + apply returns_ret. by split; [exists lost'|]. }
  intros w. unfold hal_do. rewrite bind_run. destruct (Hret w) as [(lost' & Ha & Hl) Hg].
  destruct (adev_set_parameters a kv w) as [[ret a'] w']. cbn [fst snd mret M_ret] in *.
  exists lost'. split.
  - eapply accounts_ext; [|exact Ha]. intros i. by apply users_global.
  - intros Hno. apply Hl. unfold ok. apply orb_true_iff.
    destruct (decide (ad_voice_st a = eVoiceTriggerFired)) as [Hst|Hst];
      [right|left; by rewrite bool_decide_eq_false_2].
    destruct (str_parms_create_str kv) as [parms|]; [|done].
    apply negb_true_iff, bool_decide_eq_false. intros Hcmd. apply Hno.
    split; [done|]. by exists parms.
Qed.

(** The other calls lose nothing. *)
Lemma call_balanced lost h c :
  match c with HcOpenOutput _ _ | HcSetParameters _ => False | _ => True end →
  balanced lost h → returns (S:=world K) (hal_do fuel c h) (balanced lost).
Proof.
  destruct h as [a outs ins n]. intros Hc Hb.
  assert (Hsame : returns (S:=world K) (mret (AudioHal a outs ins n)) (balanced lost))
    by by apply returns_ret.
  pose proof (λ i, users_nonneg (AudioHal a outs ins n) i) as Hpos.
  destruct c as [| k c | k | devices config | k b m | k | k kv | k | | st]; try done; cbn [hal_do].
  - destruct (outs !! k) as [o|] eqn:Hk; [|done]. destruct (is_config c) eqn:Hcfg; [done|].
    eapply returns_bind; [by apply run_out_call_keeps|].
    intros [[r cm] o'] [Hh Hr]. cbn [fst snd] in *. apply returns_ret.
    eapply accounts_ext; [|by apply accounts_refs]. intros i.
    rewrite (users_global a (set_ad_cm cm a) _ _ n n) by done.
    by apply (users_insert_out _ _ _ _ _ o).
  - destruct (outs !! k) as [o|] eqn:Hk; [|done].
    eapply returns_bind; [eapply (close_output_accounts lost)|].
    + eapply accounts_ext; [|exact Hb]. intros i. symmetry. by apply users_delete_out.
    + intros i. apply users_nonneg.
    + intros a' [Ha Hg]. apply returns_ret. eapply accounts_ext; [|exact Ha].
      intros i. by apply users_global.
  - eapply (returns_bind _ _ (λ r, ∀ i, r.2 = Some i → ic_hw (ip_common i) = None)).
    { unfold adev_open_input_stream. eapply returns_bind; [apply returns_true|]. intros [] _.
      - apply returns_ret. by intros i [= <-].
      - by apply returns_ret. }
    intros [r [i|]] Hi; apply returns_ret.
    + eapply accounts_ext; [|exact Hb]. intros j. unfold users. cbn [hs_outs hs_ins hs_dev].
      rewrite count_app, count_cons, b2z_in, (Hi i eq_refl), hit_none.
      change (count _ []) with 0. lia.
    + rewrite app_nil_r. exact Hb.
  - destruct (ins !! k) as [j|] eqn:Hk; [|done].
    eapply returns_bind; [apply (read_keeps fuel a j b m)|]. intros [[r b'] j'] Hj.
    apply returns_ret. by eapply balanced_input.
  - destruct (ins !! k) as [j|] eqn:Hk; [|done].
    eapply returns_bind; [apply (standby_in_keeps (ad_cm a) j)|]. intros j' Hj.
    apply returns_ret. by eapply balanced_input.
  - destruct (ins !! k) as [j|] eqn:Hk; [|done].
    eapply returns_bind; [eapply (set_input_accounts lost)|].
    + eapply accounts_ext; [|exact Hb]. intros i. symmetry. by apply users_delete_in.
    + intros i. apply users_nonneg.
    + intros [[r j'] a'] [Ha Hg]. apply returns_ret. eapply accounts_ext; [|exact Ha].
      intros i. cbn [fst snd]. rewrite (users_insert_in _ _ _ _ _ _ _ _ Hk). f_equal.
      by apply users_global.
  - destruct (ins !! k) as [j|] eqn:Hk; [|done].
    eapply returns_bind; [eapply (close_input_accounts lost)|].
    + eapply accounts_ext; [|exact Hb]. intros i. symmetry. by apply users_delete_in.
    + intros i. apply users_nonneg.
    + intros a' [Ha Hg]. apply returns_ret. eapply accounts_ext; [|exact Ha].
      intros i. by apply users_global.
  - apply returns_ret. eapply accounts_same; [| |exact Hb]; [done|]. by apply held_states.
Qed.

Lemma hal_do_balanced lost h c (w : world K) :
  balanced lost h →
  ∃ lost', balanced lost' (hal_do fuel c h w).1 ∧ (¬ loses c h w → ∀ i, lost' i = lost i).
Proof.
  intros Hb. pose proof (call_balanced lost h c) as Hcall. destruct h as [a outs ins n].
  destruct c; try (exists lost; split; [by apply Hcall|done]).
  - by apply open_output_balanced.
  - by apply set_parameters_balanced.
Qed.

Lemma init_balanced cm0 (w : world K) :
  closed cm0 → balanced (λ _, 0) (AudioHal (adev_init cm0 w).1 [] [] 0).
Proof.
  intros Hcl. set (a0 := AudioDevice false cm0 None eVoiceNone 0 None None).
  pose proof (hal0_accounts a0 Hcl) as Ha. cbn [h_clients h_dev hal0] in Ha.
  assert (Ha0 : accounts (λ _, 0) (λ _, 0) a0).
  { eapply accounts_same; [| |exact Ha]; [unfold voice_trigger_init; by repeat case_match|].
    intros i. rewrite (held_idle a0) by done. symmetry. apply held_idle.
    unfold voice_trigger_init. by repeat case_match. }
  unfold adev_init. rewrite bind_run.
  pose proof (get_named_stream_refs cm0 "global" (ac_bounded _ _ _ Ha0) w) as Ho.
  destruct (get_named_stream cm0 "global" w) as [[s cm] w']. cbn [fst] in Ho.
  pose proof (accounts_take _ _ _ _ _ Ha0 Ho) as Ha1. cbn [mret M_ret fst].
  unfold balanced. cbn [hs_dev]. eapply accounts_ext, accounts_same; [| | |exact Ha1].
  - intros i. unfold users. cbn [hs_outs hs_ins hs_dev]. rewrite !Z.add_0_l.
    assert (Hg : ∀ a, ad_global_stream (voice_trigger_init a) = ad_global_stream a)
      by (intros a; unfold voice_trigger_init; by repeat case_match).
    by rewrite Hg.
  - unfold voice_trigger_init. by repeat case_match.
  - intros i. rewrite (held_idle (set_ad_cm cm a0)) by done. apply held_idle.
    unfold voice_trigger_init. by repeat case_match.
Qed.

Lemma states_balanced lossy cm0 h :
  closed cm0 → hal_states fuel lossy cm0 h →
  ∃ lost, balanced lost h ∧ (lossy = false → ∀ i, lost i = 0).
Proof.
  intros Hcl. induction 1 as [w|h c w _ (lost & Hb & Hl) Hno].
  - exists (λ _, 0). split; [by apply init_balanced|done].
  - destruct (hal_do_balanced lost h c w Hb) as (lost' & Hb' & Hl'). exists lost'.
    split; [done|]. intros -> i. destruct Hno as [[=]|Hno]. rewrite Hl' by done. by apply Hl.
Qed.

(** C27: in every state of the HAL the reference count of a stream of the
    configuration is the number of output and input streams that use it, one
    more if it is the global stream, and one more if the voice trigger has it
    open, provided that no call on the way lost a reference; whatever the
    calls, the count covers all of them and stays within the stream's
    maximum, so that no stream in use is ever switched off. *)
Theorem hal_streams_counted lossy cm0 h i s :
  closed cm0 → hal_states fuel lossy cm0 h →
  get_stream_at (ad_cm (hs_dev h)) i = Some s →
  users h i + held (hs_dev h) i <= s_ref_count s <= Z.max 0 (s_max_ref_count s)
  ∧ (lossy = false → s_ref_count s = users h i + held (hs_dev h) i).
Proof.
  intros Hcl Hr Hs. destruct (states_balanced _ _ _ Hcl Hr) as (lost & Hb & Hl).
  pose proof (ac_sum _ _ _ Hb i) as Hsum. unfold ref_of in Hsum.
  pose proof (refs_at _ _ _ Hs) as Hat. rewrite Hat in Hsum. cbn in Hsum.
  destruct (proj1 (Forall_lookup _ _) (ac_bounded _ _ _ Hb) _ _ Hat) as [Hbound _].
  pose proof (ac_lost _ _ _ Hb i). cbn in Hbound. split; [lia|].
  intros He. specialize (Hl He i). lia.
Qed.

End accounting.

(** ** The HAL on the software device *)

Definition run_calls (l : list hal_call) (h : audio_hal) : audio_hal :=
  foldl (λ h c, (hal_do 3 c h demo_hal_world).1) h l.

Definition demo_system : audio_hal :=
  AudioHal (adev_init (K:=soft_hal) hal_config demo_hal_world).1 [] [] 0.

(** An output stream plays, an input stream captures from the microphone, the
    voice trigger is armed and fires, and a second input stream takes over. *)
Definition demo_calls : list hal_call :=
  [ HcOpenOutput 0x2 (demo_out_config 0); HcOutput 0 (OcWrite [1; 2; 3; 4] 4 nobody);
    HcOpenInput 0x80000004 (AudioConfig 48000 0x10 1);
    HcSetInput 0 "routing=-2147483644;input_source=1"; HcRead 0 [9; 9] 2;
    HcSetParameters "voice_trigger=1"; HcSetParameters "voice_trigger=2";
    HcOpenInput 0x80000004 (AudioConfig 48000 0x10 1); HcSetInput 1 "input_source=6" ].

Definition system_counts (h : audio_hal) : list Z := (refs (ad_cm (hs_dev h))).*1.

Lemma hal_config_closed : closed hal_config.
Proof. repeat constructor; by_decide. Qed.

Lemma run_calls_states l h :
  hal_states (K:=soft_hal) 3 true hal_config h →
  hal_states (K:=soft_hal) 3 true hal_config (run_calls l h).
Proof.
  unfold run_calls. revert h. induction l as [|c l IH]; intros h Hh; [exact Hh|].
  cbn [foldl]. apply IH. constructor; [exact Hh|by left].
Qed.

Definition may_lose (c : hal_call) (h : audio_hal) : bool :=
  match c with
  | HcOpenOutput devices config =>
    match (adev_open_output_stream (hs_dev h) devices config demo_hal_world).1.1.2 with
    | None => true | Some _ => false
    end
  | HcSetParameters _ => bool_decide (ad_voice_st (hs_dev h) = eVoiceTriggerFired)
  | _ => false
  end.

Fixpoint none_lost (l : list hal_call) (h : audio_hal) : bool :=
  match l with
  | [] => true
  | c :: l => negb (may_lose c h) && none_lost l (hal_do 3 c h demo_hal_world).1
  end.

Lemma run_calls_exact l h :
  hal_states (K:=soft_hal) 3 false hal_config h → none_lost l h = true →
  hal_states (K:=soft_hal) 3 false hal_config (run_calls l h).
Proof.
  unfold run_calls. revert h. induction l as [|c l IH]; intros h Hh Hn; [exact Hh|].
  cbn [none_lost] in Hn. apply andb_true_iff in Hn as [Hc%negb_true_iff Hn].
  cbn [foldl]. apply IH; [|exact Hn]. constructor; [exact Hh|]. right.
  unfold may_lose, loses in *. destruct c; try tauto.
  - intros [_ He]. by rewrite He in Hc.
  - intros [He _]. by rewrite bool_decide_eq_true_2 in Hc.
Qed.

Definition demo_state : audio_hal := run_calls demo_calls demo_system.

Lemma hal_streams_counted_witness :
  system_counts demo_state = [1; 0; 1; 2]
  ∧ users demo_state 3 = 1 ∧ held (hs_dev demo_state) 3 = 1
  ∧ ∀ i s, get_stream_at (ad_cm (hs_dev demo_state)) i = Some s →
      s_ref_count s = users demo_state i + held (hs_dev demo_state) i.
Proof.
  split; [vm_compute; reflexivity|]. split; [vm_compute; reflexivity|].
  split; [vm_compute; reflexivity|]. intros i s Hs.
  assert (Hst : hal_states (K:=soft_hal) 3 false hal_config demo_state).
  { apply run_calls_exact; [apply (hal_opened (K:=soft_hal) 3 false hal_config demo_hal_world)|].
    vm_compute. reflexivity. }
  by apply (hal_streams_counted (K:=soft_hal) 3 false hal_config demo_state i s
              hal_config_closed Hst Hs).
Defined.

(** An output stream whose format has no codec is not opened, but its stream of
    the configuration stays taken: no compressed output stream can be opened
    any more. *)
Theorem failed_open_keeps_the_stream :
  let mp3 := HcOpenOutput 0x2 (demo_out_config 0x01000000) in
  let bad := HcOpenOutput 0x2 (demo_out_config 0x02000000) in
  let h := run_calls [bad] demo_system in
  List.length (hs_outs (run_calls [mp3] demo_system)) = 1%nat
  ∧ hs_outs h = [] ∧ users h 1 = 0 ∧ system_counts h = [0; 1; 0; 0]
  ∧ hs_outs (run_calls [mp3] h) = [].
Proof. vm_compute. by split_and!. Qed.

(** Without a routing in the same string, the source of a new input stream is
    looked up for no device at all, which finds an output stream: the devices
    the stream was opened with are not used. *)
Theorem source_without_routing_takes_output :
  let h := run_calls [ HcOpenInput 0x80000004 (AudioConfig 48000 0x10 1);
                       HcSetInput 0 "input_source=1" ] demo_system in
  ((λ j, (ic_devices (ip_common j), ic_hw (ip_common j))) <$> hs_ins h) = [(0, Some 0%nat)]
  ∧ (hw_type ∘ s_info <$> get_stream_at (ad_cm (hs_dev h)) 0) = Some e_stream_out_pcm.
Proof. vm_compute. by split. Qed.
