(* ===== verification/HalParams.v ===== *)
(** * Parameter strings

    The assignments [stream_invoke_usecases] of src/audio/audio_hw.c finds in a
    parameter string are those it was made of. *)

From S2P Require Import Prelude Kernel CStrings HalOut.
From Stdlib Require Import Ascii String.

#[global] Open Scope Z_scope.

(** A parameter string as Android's [AudioParameter] prints it. *)
Definition print_pair (p : string * string) : chars :=
  to_chars p.1 ++ "="%char :: to_chars p.2.

Fixpoint print_pairs (l : list (string * string)) : chars :=
  match l with
  | [] => []
  | [p] => print_pair p
  | p :: l => print_pair p ++ ";"%char :: print_pairs l
  end.

(** Keys and values can be told apart, and values are not empty. *)
Definition pair_ok (p : string * string) : Prop :=
  ("="%char ∉ to_chars p.1) ∧ (";"%char ∉ to_chars p.1) ∧ (";"%char ∉ to_chars p.2)
  ∧ to_chars p.2 ≠ [].

#[export] Instance pair_ok_dec p : Decision (pair_ok p).
Proof. unfold pair_ok. apply _. Defined.

(** A token ends at the separator or the end of the string. *)
Lemma split_tokens_app sep cur l rest :
  sep ∉ l → rev cur ++ l ≠ [] →
  split_tokens sep cur (l ++ sep :: rest) = (rev cur ++ l) :: split_tokens sep [] rest.
Proof.
  revert cur. induction l as [|c l IH]; intros cur Hsep Hne.
  - rewrite app_nil_r in *. cbn [app split_tokens]. rewrite bool_decide_eq_true_2 by done.
    by destruct cur.
  - apply not_elem_of_cons in Hsep as [Hc Hl]. cbn [app split_tokens].
    rewrite bool_decide_eq_false_2 by congruence. rewrite IH; [|done|].
    + cbn [rev]. by rewrite <- app_assoc.
    + cbn [rev]. intros Happ. apply app_eq_nil in Happ as [Happ _].
      by apply app_eq_nil in Happ as [_ ?].
Qed.

Lemma split_tokens_end sep cur l :
  sep ∉ l → rev cur ++ l ≠ [] → split_tokens sep cur l = [rev cur ++ l].
Proof.
  revert cur. induction l as [|c l IH]; intros cur Hsep Hne.
  - rewrite app_nil_r in *. cbn [split_tokens]. by destruct cur.
  - apply not_elem_of_cons in Hsep as [Hc Hl]. cbn [split_tokens].
    rewrite bool_decide_eq_false_2 by congruence. rewrite IH; [|done|].
    + cbn [rev]. by rewrite <- app_assoc.
    + cbn [rev]. intros Happ. apply app_eq_nil in Happ as [Happ _].
      by apply app_eq_nil in Happ as [_ ?].
Qed.

Lemma strchr_app c l rest : c ∉ l → strchr c (l ++ c :: rest) = Some (l, rest).
Proof.
  induction l as [|x l IH]; intros Hc.
  - cbn. by rewrite bool_decide_eq_true_2.
  - apply not_elem_of_cons in Hc as [Hx Hl]. cbn [app strchr].
    rewrite bool_decide_eq_false_2 by congruence. by rewrite IH.
Qed.

Lemma print_pair_token p : pair_ok p → (";"%char ∉ print_pair p) ∧ print_pair p ≠ [].
Proof.
  intros (_ & Hk & Hv & _). split.
  - unfold print_pair. rewrite elem_of_app, elem_of_cons. by intros [?|[?|?]].
  - unfold print_pair. by destruct (to_chars p.1).
Qed.

Lemma print_pairs_tokens l :
  Forall pair_ok l → split_tokens ";"%char [] (print_pairs l) = print_pair <$> l.
Proof.
  induction 1 as [|p l Hp _ IH]; [done|]. destruct (print_pair_token p Hp) as [Hs Hne].
  destruct l as [|q l].
  - cbn [print_pairs]. by apply (split_tokens_end _ []).
  - change (print_pairs (p :: q :: l)) with (print_pair p ++ ";"%char :: print_pairs (q :: l)).
    rewrite (split_tokens_app _ []) by done. by rewrite IH.
Qed.

(** printing assignments and parsing them as [stream_invoke_usecases] does
    gives the assignments back, in order: keys may not contain the two
    separators, values are not empty and may contain an equals sign. *)
Theorem parameters_roundtrip l :
  Forall pair_ok l → kv_pairs (of_chars (print_pairs l)) = l.
Proof.
  intros Hl. unfold kv_pairs, to_chars, of_chars. rewrite list_ascii_of_string_of_list_ascii.
  rewrite print_pairs_tokens by done. induction Hl as [|[k v] l (Hk & _ & _ & Hv) _ IH]; [done|].
  cbn [fmap list_fmap omap list_omap]. unfold print_pair at 1.
  rewrite strchr_app by done. cbn [mbind option_bind fst snd] in *.
  change (omap _ (print_pair <$> l)) with
    (omap (λ p, '(k, v) ← strchr "="%char p;
             match v with [] => None | _ => Some (of_chars k, of_chars v) end)
       (print_pair <$> l)).
  destruct (to_chars v) eqn:Hc; [done|]. rewrite <- Hc. unfold to_chars, of_chars in *.
  by rewrite !string_of_list_ascii_of_string, IH.
Qed.

Lemma parameters_roundtrip_witness :
  let l := [("routing", "2"); ("eq", "bass=3")]%string in
  of_chars (print_pairs l) = "routing=2;eq=bass=3"%string
  ∧ kv_pairs (of_chars (print_pairs l)) = l.
Proof.
  cbv zeta. split; [reflexivity|]. apply parameters_roundtrip.
  repeat (constructor; [by_decide|]). constructor.
Defined.
