(* ===== verification/SensorQueue.v ===== *)
(** * The data of the sensors interface (hardware/sensors.h)

    The structures that src/sensors passes between the framework and the
    sensor libraries it loads.  The header belongs to the platform: the values
    of its constants are a parameter. *)

From S2P Require Import Prelude.

#[global] Open Scope Z_scope.

Class SensorsH := {
  SENSOR_TYPE_META_DATA : Z;
  SENSOR_TYPE_LIGHT : Z;
  SENSOR_TYPE_PROXIMITY : Z;
  SENSOR_TYPE_RELATIVE_HUMIDITY : Z;
  SENSOR_TYPE_AMBIENT_TEMPERATURE : Z;
  SENSOR_TYPE_SIGNIFICANT_MOTION : Z;
  SENSOR_TYPE_STEP_DETECTOR : Z;
  SENSOR_TYPE_STEP_COUNTER : Z;
  SENSOR_FLAG_WAKE_UP : Z;
  SENSOR_FLAG_CONTINUOUS_MODE : Z;
  SENSOR_FLAG_ON_CHANGE_MODE : Z;
  SENSOR_FLAG_ONE_SHOT_MODE : Z;
  SENSOR_FLAG_SPECIAL_REPORTING_MODE : Z;
  REPORTING_MODE_MASK : Z;
  META_DATA_VERSION : Z;
  META_DATA_FLUSH_COMPLETE : Z;
  SENSORS_DEVICE_API_VERSION_1_0 : Z
}.

(** [sensors_event_t].  The readings are a union, of which [meta_data] (the
    words [what] and [sensor]) is a view: [ev_what] and [ev_meta_sensor] are the
    first two words of the union, [ev_rest] the others. *)
Record sensors_event_t := Event {
  ev_version : Z;
  ev_sensor : Z;
  ev_type : Z;
  ev_timestamp : Z;
  ev_what : Z;
  ev_meta_sensor : Z;
  ev_rest : list Z;
  ev_flags : Z
}.

#[export] Instance sensors_event_eq_dec : EqDecision sensors_event_t.
Proof. solve_decision. Defined.

(** [sensors_event_t event = {}]. *)
Definition event_zero : sensors_event_t := Event 0 0 0 0 0 0 (replicate 14 0) 0.

Definition set_sensor (h : Z) (e : sensors_event_t) : sensors_event_t :=
  Event (ev_version e) h (ev_type e) (ev_timestamp e) (ev_what e) (ev_meta_sensor e)
    (ev_rest e) (ev_flags e).

Definition set_meta_sensor (h : Z) (e : sensors_event_t) : sensors_event_t :=
  Event (ev_version e) (ev_sensor e) (ev_type e) (ev_timestamp e) (ev_what e) h
    (ev_rest e) (ev_flags e).

(** [sensor_t]; [float] fields by their 32 bits, strings that may be [NULL] as
    options. *)
Record sensor_t := Sensor {
  sn_name : string;
  sn_vendor : string;
  sn_version : Z;
  sn_handle : Z;
  sn_type : Z;
  sn_maxRange : Z;
  sn_resolution : Z;
  sn_power : Z;
  sn_minDelay : Z;
  sn_fifoReservedEventCount : Z;
  sn_fifoMaxEventCount : Z;
  sn_stringType : option string;
  sn_requiredPermission : option string;
  sn_maxDelay : Z;
  sn_flags : Z;
  sn_reserved : Z * Z
}.

(** [5.0f]. *)
Definition float_5 : Z := 0x40A00000.

Definition set_sn_handle (h : Z) (s : sensor_t) : sensor_t :=
  Sensor (sn_name s) (sn_vendor s) (sn_version s) h (sn_type s) (sn_maxRange s)
    (sn_resolution s) (sn_power s) (sn_minDelay s) (sn_fifoReservedEventCount s)
    (sn_fifoMaxEventCount s) (sn_stringType s) (sn_requiredPermission s) (sn_maxDelay s)
    (sn_flags s) (sn_reserved s).

Definition set_sn_maxRange (r : Z) (s : sensor_t) : sensor_t :=
  Sensor (sn_name s) (sn_vendor s) (sn_version s) (sn_handle s) (sn_type s) r
    (sn_resolution s) (sn_power s) (sn_minDelay s) (sn_fifoReservedEventCount s)
    (sn_fifoMaxEventCount s) (sn_stringType s) (sn_requiredPermission s) (sn_maxDelay s)
    (sn_flags s) (sn_reserved s).

(** * The queue between a sensor library and the adapter (src/sensors/SensorEventQueue.cpp)

    A ring of [mCapacity] events with one writer and one reader, both under the
    caller's mutex.  [write] is cut where it waits on the condition variable:
    [write_run] is what it does until it has written everything or sleeps for
    want of space.  The theorems relate the ring to the list of the events it
    holds. *)

Record SensorEventQueue := Queue {
  mCapacity : Z;
  mStart : Z;        (** start of the readable region *)
  mSize : Z;         (** number of readable items *)
  mPendingSize : Z;  (** polled items waiting for space in the ring *)
  mData : list sensors_event_t
}.

(** The constructor; the ring's memory is not initialised: [junk]. *)
Definition new_SensorEventQueue (junk : list sensors_event_t) (capacity : Z) :
    SensorEventQueue :=
  Queue capacity 0 0 0 junk.

(** The length of the region and the index [*out] points to, or [NULL]. *)
Definition getWritableRegion (q : SensorEventQueue) (requestedLength : Z) : Z * option Z :=
  if bool_decide (mSize q = mCapacity q) || bool_decide (requestedLength <= 0)
  then (0, None)
  else
    let firstWritable := Z.rem (s32 (mStart q + mSize q)) (mCapacity q) in
    let lastWritable := s32 (firstWritable + requestedLength - 1) in
    let lastWritable :=
      if bool_decide (mCapacity q - 1 < lastWritable) then mCapacity q - 1
      else lastWritable in
    let lastWritable :=
      if bool_decide (firstWritable < mStart q) && bool_decide (mStart q <= lastWritable)
      then mStart q - 1 else lastWritable in
    (lastWritable - firstWritable + 1, Some firstWritable).

Definition markAsWritten (count : Z) (q : SensorEventQueue) : SensorEventQueue :=
  Queue (mCapacity q) (mStart q) (s32 (mSize q + count)) (mPendingSize q) (mData q).

Definition getSize (q : SensorEventQueue) : Z := mSize q.

Definition getPendingSize (q : SensorEventQueue) : Z := s32 (mSize q + mPendingSize q).

(** [None] stands for a read outside the ring. *)
Definition peek (q : SensorEventQueue) : option (option sensors_event_t) :=
  if bool_decide (mSize q = 0) then Some None
  else Some <$> mData q !! Z.to_nat (mStart q).

(** With it: does it broadcast [mSpaceAvailableCondition]? *)
Definition dequeue (q : SensorEventQueue) : bool * SensorEventQueue :=
  if bool_decide (mSize q = 0) then (false, q)
  else
    (bool_decide (mSize q = mCapacity q),
     Queue (mCapacity q) (Z.rem (s32 (mStart q + 1)) (mCapacity q)) (mSize q - 1)
       (mPendingSize q) (mData q)).

(** The test of [waitForSpace]. *)
Definition is_full (q : SensorEventQueue) : bool := bool_decide (mSize q = mCapacity q).

Definition set_pending (n : Z) (q : SensorEventQueue) : SensorEventQueue :=
  Queue (mCapacity q) (mStart q) (mSize q) n (mData q).

(** [memcpy] of the first [chunk] events to index [at_] of the ring; [None] when
    it would leave either array. *)
Definition copy_in (events : list sensors_event_t) (chunk at_ : Z) (q : SensorEventQueue) :
    option SensorEventQueue :=
  if bool_decide (0 <= chunk <= Z.of_nat (length events)) &&
     bool_decide (0 <= at_) && bool_decide (at_ + chunk <= Z.of_nat (length (mData q)))
  then Some (Queue (mCapacity q) (mStart q) (mSize q) (mPendingSize q)
               (list_inserts (Z.to_nat at_) (take (Z.to_nat chunk) events) (mData q)))
  else None.

(** One turn of the loop of [write] after [waitForSpace]. *)
Definition write_chunk (q : SensorEventQueue) (events : list sensors_event_t) :
    option (SensorEventQueue * list sensors_event_t) :=
  let '(chunk, destination) := getWritableRegion q (mPendingSize q) in
  at_ ← destination;
  q1 ← copy_in events chunk at_ q;
  let q2 := markAsWritten chunk q1 in
  Some (set_pending (mPendingSize q2 - chunk) q2, drop (Z.to_nat chunk) events).

(** What [write] has done when it returns ([wr_left = None]) or sleeps in
    [waitForSpace] with events left; [wr_signal]: it has broadcast
    [dataAvailable]. *)
Record write_result := Written {
  wr_queue : SensorEventQueue;
  wr_signal : bool;
  wr_left : option (list sensors_event_t)
}.

(** The loop of [write]; [None]: a fault, or no fuel left. *)
Fixpoint ring_write_loop (fuel : nat) (q : SensorEventQueue) (events : list sensors_event_t)
    (signalled : bool) : option write_result :=
  match fuel with
  | O => None
  | S fuel =>
      if bool_decide (mPendingSize q <= 0) then Some (Written q signalled None)
      else if is_full q then Some (Written q signalled (Some events))
      else '(q1, rest) ← write_chunk q events; ring_write_loop fuel q1 rest true
  end.

(** Resumed after [pthread_cond_wait]; [write_begin] is the call itself. *)
Definition write_resume (q : SensorEventQueue) (events : list sensors_event_t) :
    option write_result :=
  ring_write_loop (S (Z.to_nat (mPendingSize q))) q events false.

Definition write_begin (q : SensorEventQueue) (events : list sensors_event_t) (count : Z) :
    option write_result :=
  write_resume (set_pending count q) events.

(** ** The events a ring holds *)

(** The readable events, from the oldest: [mSize] events of the ring read
    twice, from [mStart]. *)
Definition contents (q : SensorEventQueue) : list sensors_event_t :=
  take (Z.to_nat (mSize q)) (drop (Z.to_nat (mStart q)) (mData q ++ mData q)).

(** A ring in order: capacities below 2^30, so that no sum of two indices
    leaves [int]. *)
Record queue_ok (q : SensorEventQueue) : Prop := {
  qk_cap : 1 <= mCapacity q < 2 ^ 30;
  qk_start : 0 <= mStart q < mCapacity q;
  qk_size : 0 <= mSize q <= mCapacity q;
  qk_data : Z.of_nat (length (mData q)) = mCapacity q
}.

(** Position of the [i]-th readable event. *)
Definition slot (q : SensorEventQueue) (i : nat) : nat :=
  if bool_decide (mStart q + Z.of_nat i < mCapacity q)
  then Z.to_nat (mStart q + Z.of_nat i)
  else Z.to_nat (mStart q + Z.of_nat i - mCapacity q).

Lemma rem_once a c : 0 < c → 0 <= a < 2 * c → Z.rem a c = if bool_decide (a < c) then a else a - c.
Proof.
  intros Hc Ha. case_bool_decide.
  - apply Z.rem_small. lia.
  - rewrite Z.rem_mod_nonneg by lia.
    replace a with (a - c + 1 * c) at 1 by lia. rewrite Z.mod_add by lia.
    apply Z.mod_small. lia.
Qed.

Lemma contents_length q : queue_ok q → length (contents q) = Z.to_nat (mSize q).
Proof.
  intros []. unfold contents. rewrite length_take, length_drop, length_app. lia.
Qed.

Lemma contents_lookup q i :
  queue_ok q → (i < Z.to_nat (mSize q))%nat → contents q !! i = mData q !! slot q i.
Proof.
  intros [] Hi. unfold contents, slot.
  rewrite lookup_take_lt, lookup_drop by done. case_bool_decide.
  - rewrite lookup_app_l by lia. f_equal. lia.
  - rewrite lookup_app_r by lia. f_equal. lia.
Qed.

Lemma contents_lookup_None q i :
  queue_ok q → (Z.to_nat (mSize q) <= i)%nat → contents q !! i = None.
Proof. intros ??. apply lookup_ge_None. by rewrite contents_length. Qed.

(** A list is what a ring holds when it has the ring's size and slots. *)
Lemma contents_ext q l :
  queue_ok q → length l = Z.to_nat (mSize q) →
  (∀ i, (i < length l)%nat → l !! i = mData q !! slot q i) → contents q = l.
Proof.
  intros Hq Hl Hs. apply list_eq. intros i.
  destruct (decide (i < length l)%nat).
  - rewrite Hs, contents_lookup by (done || lia). done.
  - rewrite contents_lookup_None by (done || lia). symmetry. apply lookup_ge_None. lia.
Qed.

Lemma new_queue_ok junk c :
  1 <= c < 2 ^ 30 → Z.of_nat (length junk) = c →
  queue_ok (new_SensorEventQueue junk c) ∧ contents (new_SensorEventQueue junk c) = [].
Proof. intros. split; [split; cbn; lia|done]. Qed.

(** ** Reading *)

Lemma peek_contents q : queue_ok q → peek q = Some (head (contents q)).
Proof.
  intros Hq. unfold peek. case_bool_decide as Hz.
  - unfold contents. by rewrite Hz.
  - rewrite head_lookup, contents_lookup by (destruct Hq; lia || done).
    unfold slot. destruct Hq. rewrite bool_decide_true by lia.
    replace (mStart q + Z.of_nat 0) with (mStart q) by lia.
    destruct (lookup_lt_is_Some_2 (mData q) (Z.to_nat (mStart q))) as [x ->]; [lia|done].
Qed.

Lemma dequeue_ok q : queue_ok q → queue_ok (dequeue q).2.
Proof.
  intros Hq. destruct (Hq). unfold dequeue. case_bool_decide; [done|].
  rewrite s32_small by (unfold is_s32; lia). split; cbn; try lia.
  rewrite rem_once by lia. case_bool_decide; lia.
Qed.

Lemma dequeue_contents q : queue_ok q → contents (dequeue q).2 = tail (contents q).
Proof.
  intros Hq. destruct (decide (mSize q = 0)) as [Hz|Hz].
  - unfold dequeue, contents. rewrite bool_decide_true by done. cbn. by rewrite Hz.
  - pose proof (dequeue_ok q Hq) as Hq'. destruct (Hq). apply contents_ext; [done|..].
    + rewrite length_tl, contents_length by done. unfold dequeue.
      rewrite bool_decide_false by done. cbn. lia.
    + intros i. rewrite length_tl, contents_length by done. intros Hi.
      rewrite lookup_tail, contents_lookup by (done || lia).
      unfold dequeue. rewrite bool_decide_false by done. unfold slot at 2. cbn.
      rewrite s32_small by (unfold is_s32; lia). rewrite rem_once by lia.
      unfold slot. f_equal. repeat case_bool_decide; lia.
Qed.

Lemma dequeue_rest q :
  mCapacity (dequeue q).2 = mCapacity q ∧ mPendingSize (dequeue q).2 = mPendingSize q ∧
  mSize (dequeue q).2 = if bool_decide (mSize q = 0) then mSize q else mSize q - 1.
Proof. unfold dequeue. by case_bool_decide. Qed.

(** ** Writing *)

(** The region is never empty when there is space, and is free space. *)
Lemma region_spec q n :
  queue_ok q → is_full q = false → 0 < n < 2 ^ 30 →
  ∃ chunk, getWritableRegion q n = (chunk, Some (Z.of_nat (slot q (Z.to_nat (mSize q))))) ∧
    1 <= chunk <= n ∧ mSize q + chunk <= mCapacity q ∧
    Z.of_nat (slot q (Z.to_nat (mSize q))) + chunk <= mCapacity q ∧
    (Z.of_nat (slot q (Z.to_nat (mSize q))) < mStart q →
     Z.of_nat (slot q (Z.to_nat (mSize q))) + chunk <= mStart q).
Proof.
  intros [] Hf Hn. apply bool_decide_eq_false in Hf.
  unfold getWritableRegion, slot. rewrite !bool_decide_false by lia. cbn [orb].
  rewrite Z2Nat.id, (s32_small (mStart q + _)), rem_once by (unfold is_s32; lia).
  destruct (decide (mStart q + mSize q < mCapacity q)).
  - rewrite !(bool_decide_true (mStart q + mSize q < mCapacity q)) by done.
    rewrite Z2Nat.id, s32_small by (unfold is_s32; lia).
    eexists. split; [done|]. repeat case_bool_decide; cbn; lia.
  - rewrite !(bool_decide_false (mStart q + mSize q < mCapacity q)) by done.
    rewrite Z2Nat.id, s32_small by (unfold is_s32; lia).
    eexists. split; [done|]. repeat case_bool_decide; cbn; lia.
Qed.

Lemma write_chunk_spec q events :
  queue_ok q → is_full q = false → 0 < mPendingSize q < 2 ^ 30 →
  mPendingSize q = Z.of_nat (length events) →
  ∃ q' k, write_chunk q events = Some (q', drop k events) ∧ (1 <= k <= length events)%nat ∧
    queue_ok q' ∧ mCapacity q' = mCapacity q ∧ contents q' = contents q ++ take k events ∧
    mPendingSize q' = mPendingSize q - Z.of_nat k.
Proof.
  intros Hq Hf Hp He.
  destruct (region_spec q (mPendingSize q) Hq Hf Hp) as (chunk & Hr & Hc & Hs & Ha & Hb).
  unfold write_chunk. rewrite Hr. cbn. unfold copy_in. pose proof Hq as [].
  rewrite !bool_decide_true by lia. cbn. rewrite Nat2Z.id.
  eexists _, (Z.to_nat chunk). split; [done|]. split; [lia|].
  assert (Hs32 : s32 (mSize q + chunk) = mSize q + chunk)
    by (apply s32_small; unfold is_s32; lia).
  assert (Hlen : length (take (Z.to_nat chunk) events) = Z.to_nat chunk)
    by (rewrite length_take; lia).
  set (q' := set_pending _ _).
  assert (Hq' : queue_ok q') by (split; cbn; rewrite ?length_inserts, ?Hs32; lia).
  split; [done|]. split; [done|]. split; [|cbn; lia].
  apply contents_ext; [done| |].
  { rewrite length_app, contents_length by done. cbn. rewrite Hs32. lia. }
  intros i. rewrite length_app, contents_length, Hlen by done. intros Hi.
  assert (Hslot : slot q' i = slot q i) by done. rewrite Hslot. cbn.
  destruct (decide (i < Z.to_nat (mSize q))%nat).
  - rewrite lookup_app_l, contents_lookup by (rewrite ?contents_length; done). symmetry.
    revert Ha Hb. unfold slot. repeat case_bool_decide; intros;
      first [ rewrite list_lookup_inserts_lt by lia; done
            | rewrite list_lookup_inserts_ge by lia; done ].
  - rewrite lookup_app_r by (rewrite contents_length by done; lia).
    rewrite contents_length by done.
    assert (Hi' : slot q i = (slot q (Z.to_nat (mSize q)) + (i - Z.to_nat (mSize q)))%nat)
      by (revert Ha Hb; unfold slot; repeat case_bool_decide; intros; lia).
    rewrite list_lookup_inserts by lia. f_equal. lia.
Qed.

(** [write] up to its return or its next sleep: nothing is lost or
    reordered, and it sleeps only when the ring is full. *)
Record write_post (q : SensorEventQueue) (events : list sensors_event_t) (sig : bool)
    (r : write_result) : Prop := {
  wp_ok : queue_ok (wr_queue r);
  wp_cap : mCapacity (wr_queue r) = mCapacity q;
  wp_all : contents (wr_queue r) ++ default [] (wr_left r) = contents q ++ events;
  wp_pending : mPendingSize (wr_queue r) = Z.of_nat (length (default [] (wr_left r)));
  wp_left : ∀ rest, wr_left r = Some rest → rest ≠ [] ∧ is_full (wr_queue r) = true;
  wp_signal : wr_signal r = true ∨ wr_signal r = sig ∧ wr_queue r = q
}.

Lemma ring_write_loop_spec fuel q events sig :
  queue_ok q → mPendingSize q = Z.of_nat (length events) → mPendingSize q < 2 ^ 30 →
  (Z.to_nat (mPendingSize q) < fuel)%nat →
  ∃ r, ring_write_loop fuel q events sig = Some r ∧ write_post q events sig r.
Proof.
  revert q events sig. induction fuel as [|fuel IH]; intros q events sig Hq Hp Hm Hf; [lia|].
  cbn [ring_write_loop]. case_bool_decide as Hz.
  { destruct events; [|cbn in Hp; lia]. eexists. split; [done|].
    split; cbn; try done. by right. }
  destruct (is_full q) eqn:Hfull.
  { eexists. split; [done|]. split; cbn; try done; [|by right].
    intros ? [= <-]. split; [|done]. intros ->. cbn in Hp. lia. }
  destruct (write_chunk_spec q events) as (q' & k & -> & Hk & Hq' & Hc & Hcon & Hpen);
    [done|done|lia|done|].
  cbn. destruct (IH q' (drop k events) true) as (r & -> & []);
    [done|rewrite length_drop; lia|lia|lia|].
  exists r. split; [done|]. split; try done; try congruence.
  - rewrite wp_all0, Hcon, <- app_assoc, take_drop. done.
  - left. destruct wp_signal0 as [|[]]; done.
Qed.

Lemma write_resume_spec q events :
  queue_ok q → mPendingSize q = Z.of_nat (length events) → mPendingSize q < 2 ^ 30 →
  ∃ r, write_resume q events = Some r ∧ write_post q events false r.
Proof. intros. apply ring_write_loop_spec; (done || lia). Qed.

Lemma write_begin_spec q events :
  queue_ok q → Z.of_nat (length events) < 2 ^ 30 →
  ∃ r, write_begin q events (Z.of_nat (length events)) = Some r ∧
    write_post (set_pending (Z.of_nat (length events)) q) events false r.
Proof.
  intros [] ?. apply write_resume_spec; [split; done|done|done].
Qed.
