(* ===== verification/MultiHal.v ===== *)
(** * The sensors adapter (src/sensors/multihal.cpp)

    It loads sensor libraries, gives their sensors handles of its own, and
    merges their events into one [poll].  The libraries (their [poll],
    [activate], ... and the loader that finds them) are a parameter [SubHals];
    what they do is an effect on a state [K].  The parts that hold [queue_mutex]
    are pure functions of the context, cut where [poll] waits on
    [data_available_cond]; in them [None] stands for an access outside a vector
    or an array, or for a loop out of fuel. *)

From S2P Require Import Prelude SensorQueue.
From stdpp Require Import gmap.

#[global] Open Scope Z_scope.

(** ** Handles *)

Record FullHandle := Full { moduleIndex : Z; localHandle : Z }.

#[export] Instance FullHandle_eq_dec : EqDecision FullHandle.
Proof. solve_decision. Defined.

Lemma FullHandle_pair f : Full (moduleIndex f, localHandle f).1 (moduleIndex f, localHandle f).2 = f.
Proof. by destruct f. Qed.

#[export] Instance FullHandle_countable : Countable FullHandle :=
  inj_countable' (λ f, (moduleIndex f, localHandle f)) (λ p, Full p.1 p.2) FullHandle_pair.

(** The table of handles and the list of sensors shown to the framework
    ([global_sensors_list] is [None] while [NULL]). *)
Record globals := Globals {
  global_to_full : gmap Z FullHandle;
  full_to_global : gmap FullHandle Z;
  next_global_handle : Z;
  global_sensors_list : option (list sensor_t);
  global_sensors_count : Z
}.

Definition globals0 : globals := Globals ∅ ∅ 1 None (-1).

Definition assign_global_handle (module_index local_handle : Z) (g : globals) : Z * globals :=
  let global_handle := next_global_handle g in
  let full := Full module_index local_handle in
  (global_handle,
   Globals (<[global_handle := full]> (global_to_full g))
     (<[full := global_handle]> (full_to_global g)) (s32 (global_handle + 1))
     (global_sensors_list g) (global_sensors_count g)).

Definition get_local_handle (g : globals) (global_handle : Z) : Z :=
  match global_to_full g !! global_handle with Some f => localHandle f | None => -1 end.

Definition get_module_index (g : globals) (global_handle : Z) : Z :=
  match global_to_full g !! global_handle with Some f => moduleIndex f | None => -1 end.

Definition get_global_handle (g : globals) (full : FullHandle) : Z :=
  default (-1) (full_to_global g !! full).

Definition sensor_by_handle (g : globals) (handle : Z) : option sensor_t :=
  List.find (λ s, bool_decide (sn_handle s = handle))
    (take (Z.to_nat (global_sensors_count g)) (default [] (global_sensors_list g))).

(** ** The context *)

Definition SENSOR_EVENT_QUEUE_CAPACITY : Z := 20.

(** A device of a sensor library: which of its entry points are set. *)
Record sub_device := SubDevice {
  sd_id : Z;
  sd_version : Z;
  sd_close : bool;
  sd_activate : bool;
  sd_setDelay : bool;
  sd_poll : bool
}.

Record PendingFlush := Pending {
  pf_handle : Z;
  pf_module_index : Z;
  pf_after_event : Z
}.

(** [sensors_poll_context_t], with the flag [waiting_for_data]. *)
Record sensors_poll_context := Ctx {
  sub_hw_devices : list sub_device;
  queues : list SensorEventQueue;
  consumed_events : list Z;
  pending_flushes : list PendingFlush;
  active_sensors : gmap Z bool;
  nextReadIndex : Z;
  waiting_for_data : bool
}.

Definition ctx0 : sensors_poll_context := Ctx [] [] [] [] ∅ 0 false.

Definition set_queue (i : nat) (q : SensorEventQueue) (c : sensors_poll_context) :=
  Ctx (sub_hw_devices c) (<[i := q]> (queues c)) (consumed_events c) (pending_flushes c)
    (active_sensors c) (nextReadIndex c) (waiting_for_data c).
Definition set_consumed (i : nat) (n : Z) (c : sensors_poll_context) :=
  Ctx (sub_hw_devices c) (queues c) (<[i := n]> (consumed_events c)) (pending_flushes c)
    (active_sensors c) (nextReadIndex c) (waiting_for_data c).
Definition set_flushes (l : list PendingFlush) (c : sensors_poll_context) :=
  Ctx (sub_hw_devices c) (queues c) (consumed_events c) l
    (active_sensors c) (nextReadIndex c) (waiting_for_data c).
Definition set_active (handle : Z) (b : bool) (c : sensors_poll_context) :=
  Ctx (sub_hw_devices c) (queues c) (consumed_events c) (pending_flushes c)
    (<[handle := b]> (active_sensors c)) (nextReadIndex c) (waiting_for_data c).
Definition set_next (i : Z) (c : sensors_poll_context) :=
  Ctx (sub_hw_devices c) (queues c) (consumed_events c) (pending_flushes c)
    (active_sensors c) i (waiting_for_data c).
Definition set_waiting (b : bool) (c : sensors_poll_context) :=
  Ctx (sub_hw_devices c) (queues c) (consumed_events c) (pending_flushes c)
    (active_sensors c) (nextReadIndex c) b.

(** [l[i]] and [a[i] = x] of a vector or an array, with its bounds. *)
Definition elem {A} (l : list A) (i : Z) : option A :=
  if bool_decide (0 <= i) then l !! Z.to_nat i else None.
Definition store {A} (l : list A) (i : Z) (x : A) : option (list A) :=
  if bool_decide (0 <= i < Z.of_nat (length l)) then Some (<[Z.to_nat i := x]> l) else None.

Definition get_v0_device_by_handle (g : globals) (c : sensors_poll_context) (handle : Z) :
    option sub_device :=
  let sub_index := get_module_index g handle in
  if bool_decide (sub_index < 0) || bool_decide (Z.of_nat (length (sub_hw_devices c)) <= sub_index)
  then None else sub_hw_devices c !! Z.to_nat sub_index.

Definition get_device_version_by_handle (g : globals) (c : sensors_poll_context) (handle : Z) : Z :=
  match get_v0_device_by_handle g c handle with Some d => sd_version d | None => -1 end.

Section adapter.
  Context `{!SensorsH}.

Definition halIsCompliant (g : globals) (c : sensors_poll_context) (handle : Z) : bool :=
  match get_v0_device_by_handle g c handle with
  | Some d => bool_decide (SENSORS_DEVICE_API_VERSION_1_0 <= sd_version d) &&
              sd_activate d && sd_setDelay d && sd_poll d
  | None => false
  end.

(** ** [poll] *)

Definition copy_event_remap_handle (g : globals) (src : sensors_event_t) (sub_index : Z) :
    sensors_event_t :=
  if bool_decide (ev_type src = SENSOR_TYPE_META_DATA)
  then set_meta_sensor (get_global_handle g (Full sub_index (ev_meta_sensor src))) src
  else set_sensor (get_global_handle g (Full sub_index (ev_sensor src))) src.

Definition flush_complete (handle : Z) : sensors_event_t :=
  Event META_DATA_VERSION 0 SENSOR_TYPE_META_DATA 0 META_DATA_FLUSH_COMPLETE handle
    (ev_rest event_zero) 0.

(** The loop of [emit_ready_flushes] on [data + from]: the number emitted, the
    buffer and the requests left. *)
Fixpoint emit_loop (consumed : list Z) (flushes : list PendingFlush)
    (data : list sensors_event_t) (from emitted count : Z) :
    option (Z * list sensors_event_t * list PendingFlush) :=
  match flushes with
  | [] => Some (emitted, data, [])
  | it :: rest =>
      if bool_decide (emitted < count) then
        n ← elem consumed (pf_module_index it);
        if bool_decide (n < pf_after_event it) then
          '(m, data', rest') ← emit_loop consumed rest data from emitted count;
          Some (m, data', it :: rest')
        else
          data1 ← store data (from + emitted) (flush_complete (pf_handle it));
          emit_loop consumed rest data1 from (emitted + 1) count
      else Some (emitted, data, flushes)
  end.

Definition emit_ready_flushes (c : sensors_poll_context) (data : list sensors_event_t)
    (from count : Z) : option (Z * list sensors_event_t * sensors_poll_context) :=
  '(n, data', rest) ← emit_loop (consumed_events c) (pending_flushes c) data from 0 count;
  Some (n, data', set_flushes rest c).

Definition is_one_shot (s : sensor_t) : bool :=
  bool_decide (Z.land (sn_flags s) REPORTING_MODE_MASK = SENSOR_FLAG_ONE_SHOT_MODE).

(** The variables of [poll]; [ps_freed]: the queues whose
    [mSpaceAvailableCondition] it has broadcast. *)
Record poll_state := PollState {
  ps_ctx : sensors_poll_context;
  ps_data : list sensors_event_t;
  ps_read : Z;
  ps_empties : Z;
  ps_freed : list nat
}.

(** An event of a one-shot sensor deactivates it. *)
Definition deactivate_one_shot (g : globals) (handle : Z) (c : sensors_poll_context) :
    sensors_poll_context :=
  match sensor_by_handle g handle with
  | Some s => if is_one_shot s then set_active (sn_handle s) false c else c
  | None => c
  end.

(** What [poll] does with the event at the head of queue [i]. *)
Definition take_event (g : globals) (i : nat) (event : sensors_event_t) (queue : SensorEventQueue)
    (p : poll_state) : option poll_state :=
  let c := ps_ctx p in
  let e := copy_event_remap_handle g event (nextReadIndex c) in
  data ← store (ps_data p) (ps_read p) e;
  consumed ← consumed_events c !! i;
  let '(c1, eventsRead) :=
    if bool_decide (ev_sensor e = -1) then (c, ps_read p)
    else (deactivate_one_shot g (ev_sensor e) c, ps_read p + 1) in
  let '(freed, queue') := dequeue queue in
  Some (PollState (set_consumed i (wrap 64 (consumed + 1)) (set_queue i queue' c1))
          data eventsRead 0 (if freed then i :: ps_freed p else ps_freed p)).

(** One turn of the inner loop; on [break] the state has [ps_read = maxReads],
    with which the loop's condition ends it too. *)
Definition poll_turn (g : globals) (queueCount maxReads : Z) (p : poll_state) :
    option poll_state :=
  '(n, data, c) ← emit_ready_flushes (ps_ctx p) (ps_data p) (ps_read p) (maxReads - ps_read p);
  let p1 := PollState c data (ps_read p + n) (ps_empties p) (ps_freed p) in
  if bool_decide (ps_read p1 = maxReads) then Some p1
  else
    queue ← elem (queues c) (nextReadIndex c);
    event ← peek queue;
    p2 ← match event with
         | None => Some (PollState c data (ps_read p1) (ps_empties p + 1) (ps_freed p))
         | Some e => take_event g (Z.to_nat (nextReadIndex c)) e queue p1
         end;
    let c2 := ps_ctx p2 in
    Some (PollState (set_next (Z.rem (nextReadIndex c2 + 1) queueCount) c2)
            (ps_data p2) (ps_read p2) (ps_empties p2) (ps_freed p2)).

Fixpoint poll_loop (fuel : nat) (g : globals) (queueCount maxReads : Z) (p : poll_state) :
    option poll_state :=
  if bool_decide (ps_empties p < queueCount) && bool_decide (ps_read p < maxReads) then
    match fuel with
    | O => None
    | S fuel => p' ← poll_turn g queueCount maxReads p; poll_loop fuel g queueCount maxReads p'
    end
  else Some p.

Definition events_queued (l : list SensorEventQueue) : nat :=
  foldr (λ q n, (Z.to_nat (mSize q) + n)%nat) 0%nat l.

(** Turns the inner loop can take: every event in a queue, and after each of
    them and at the start a round of empty queues. *)
Definition poll_fuel (c : sensors_poll_context) : nat :=
  (1 + events_queued (queues c)) * S (length (queues c)).

(** How [poll] leaves [queue_mutex]: it returns ([pr_count] positive) or waits
    on [data_available_cond] ([pr_count = 0]). *)
Record poll_result := PollResult {
  pr_ctx : sensors_poll_context;
  pr_data : list sensors_event_t;
  pr_count : Z;
  pr_freed : list nat
}.

(** The outer loop from its start, or from the end of [pthread_cond_wait]. *)
Definition poll_section (g : globals) (c : sensors_poll_context) (data : list sensors_event_t)
    (maxReads : Z) : option poll_result :=
  let queueCount := Z.of_nat (length (queues c)) in
  p ← poll_loop (poll_fuel c) g queueCount maxReads (PollState (set_waiting false c) data 0 0 []);
  '(n, data', c') ← emit_ready_flushes (ps_ctx p) (ps_data p) (ps_read p) (maxReads - ps_read p);
  let eventsRead := ps_read p + n in
  Some (PollResult (set_waiting (bool_decide (eventsRead = 0)) c') data' eventsRead (ps_freed p)).

(** The arguments [poll] refuses with [-EINVAL]. *)
Definition poll_refuses (c : sensors_poll_context) (data : option (list sensors_event_t))
    (maxReads : Z) : bool :=
  bool_decide (data = None) || bool_decide (maxReads <= 0) || bool_decide (queues c = []).

(** ** [flush]: its result, and whether it broadcasts [data_available_cond]. *)
Definition flush (g : globals) (c : sensors_poll_context) (handle : Z) :
    option (Z * bool * sensors_poll_context) :=
  let module_index := get_module_index g handle in
  let refused :=
    match sensor_by_handle g handle with
    | None => true
    | Some s => bool_decide (module_index < 0) ||
                bool_decide (Z.of_nat (length (queues c)) <= module_index) || is_one_shot s
    end in
  if refused then Some (- EINVAL, false, c)
  else
    let active := default false (active_sensors c !! handle) in
    let c1 := set_active handle active c in
    if negb active then Some (- EINVAL, false, c1)
    else
      consumed ← elem (consumed_events c) module_index;
      queue ← elem (queues c) module_index;
      let request := Pending handle module_index (wrap 64 (consumed + wrap 64 (getPendingSize queue))) in
      Some (0, true, set_flushes (pending_flushes c1 ++ [request]) c1).

End adapter.
