(* ===== verification/PollFacts.v ===== *)
(** * What [poll] of the sensors adapter does (src/sensors/multihal.cpp)

    A section of [poll] is explained by a log of what it took from the queues
    and which flush requests it completed: the buffer it fills is the log as the
    framework sees it, and the context it leaves is the one before with the log
    applied. *)

From S2P Require Import Prelude SensorQueue MultiHal.
From stdpp Require Import gmap.

#[global] Open Scope Z_scope.

Inductive action :=
  | Took (i : nat) (e : sensors_event_t)
  | Done (r : PendingFlush).

(** The events taken from queue [i], and the requests completed. *)
Definition took (i : nat) (log : list action) : list sensors_event_t :=
  omap (λ a, match a with Took j e => if decide (j = i) then Some e else None | Done _ => None end)
    log.
Definition dones (log : list action) : list PendingFlush :=
  omap (λ a, match a with Took _ _ => None | Done r => Some r end) log.

Lemma took_app i l1 l2 : took i (l1 ++ l2) = took i l1 ++ took i l2.
Proof. apply omap_app. Qed.

Lemma took_nil i : took i [] = [].
Proof. done. Qed.

Lemma took_done i r : took i [Done r] = [].
Proof. done. Qed.

Lemma dones_app l1 l2 : dones (l1 ++ l2) = dones l1 ++ dones l2.
Proof. apply omap_app. Qed.

(** A context in order. *)
Record ctx_ok (c : sensors_poll_context) : Prop := {
  ck_len : length (consumed_events c) = length (queues c);
  ck_queues : ∀ i q, queues c !! i = Some q → queue_ok q;
  ck_consumed : ∀ i n, consumed_events c !! i = Some n → 0 <= n < 2 ^ 64;
  ck_flushes : ∀ r, r ∈ pending_flushes c →
    0 <= pf_module_index r < Z.of_nat (length (queues c));
  ck_next : 0 <= nextReadIndex c;
  ck_next_lt : queues c ≠ [] → nextReadIndex c < Z.of_nat (length (queues c))
}.

(** The counter of a module after [l] more events. *)
Definition advance (n : Z) (l : list sensors_event_t) : Z := wrap 64 (n + Z.of_nat (length l)).

Lemma advance_nil n : 0 <= n < 2 ^ 64 → advance n [] = n.
Proof. intros. unfold advance, wrap. cbn. rewrite Z.add_0_r. by apply Z.mod_small. Qed.

Lemma advance_app n l1 l2 : advance (advance n l1) l2 = advance n (l1 ++ l2).
Proof.
  unfold advance, wrap. rewrite Zplus_mod_idemp_l, length_app. f_equal. lia.
Qed.

Lemma advance_range n l : 0 <= advance n l < 2 ^ 64.
Proof. apply wrap_range. lia. Qed.

(** [log] leads from [c] to [c']. *)
Record explains (c : sensors_poll_context) (log : list action) (c' : sensors_poll_context) :
    Prop := {
  ex_len : length (queues c') = length (queues c);
  ex_range : ∀ i, (length (queues c) <= i)%nat → took i log = [];
  ex_queue : ∀ i q, queues c !! i = Some q →
    ∃ q', queues c' !! i = Some q' ∧ mCapacity q' = mCapacity q ∧
      mPendingSize q' = mPendingSize q ∧ contents q = took i log ++ contents q';
  ex_consumed : ∀ i n, consumed_events c !! i = Some n →
    consumed_events c' !! i = Some (advance n (took i log));
  ex_flushes : pending_flushes c ≡ₚ dones log ++ pending_flushes c';
  ex_justified : ∀ l1 r l2 n, log = l1 ++ Done r :: l2 →
    consumed_events c !! Z.to_nat (pf_module_index r) = Some n →
    pf_after_event r <= advance n (took (Z.to_nat (pf_module_index r)) l1)
}.

Lemma explains_nil c c' :
  ctx_ok c → queues c' = queues c → consumed_events c' = consumed_events c →
  pending_flushes c' = pending_flushes c → explains c [] c'.
Proof.
  intros Hc Hq Hn Hf. split.
  - by rewrite Hq.
  - done.
  - intros i q Hi. exists q. by rewrite Hq.
  - intros i n Hi. rewrite Hn, advance_nil; [done|]. by eapply ck_consumed.
  - by rewrite Hf.
  - intros l1 r l2 n Heq. by destruct l1.
Qed.

Lemma explains_trans c1 l1 c2 l2 c3 :
  explains c1 l1 c2 → explains c2 l2 c3 → explains c1 (l1 ++ l2) c3.
Proof.
  intros [] []. split.
  - congruence.
  - intros i Hi. rewrite took_app, ex_range0, ex_range1 by lia. done.
  - intros i q Hi. destruct (ex_queue0 i q Hi) as (q' & Hi' & ? & ? & Hc).
    destruct (ex_queue1 i q' Hi') as (q'' & ? & ? & ? & Hc').
    exists q''. rewrite took_app, Hc, Hc', app_assoc. repeat split; (done || congruence).
  - intros i n Hi. rewrite took_app, <- advance_app. eauto.
  - rewrite ex_flushes0, ex_flushes1, dones_app, app_assoc. done.
  - intros a r b n Heq Hn.
    apply app_eq_inv in Heq as [(k & -> & Hk)|(k & -> & Hk)].
    + destruct k as [|x k]; cbn in Hk.
      * rewrite <- (app_nil_r a), took_app, <- advance_app.
        rewrite app_nil_r in *. eauto.
      * injection Hk as <- ->. by eapply ex_justified0.
    + rewrite took_app, <- advance_app. eauto.
Qed.

(** ** One event taken, one request completed *)

Lemma explains_took c c' i q q' e n :
  ctx_ok c → queues c !! i = Some q → contents q = e :: contents q' →
  mCapacity q' = mCapacity q → mPendingSize q' = mPendingSize q →
  consumed_events c !! i = Some n →
  queues c' = <[i := q']> (queues c) →
  consumed_events c' = <[i := wrap 64 (n + 1)]> (consumed_events c) →
  pending_flushes c' = pending_flushes c →
  explains c [Took i e] c'.
Proof.
  intros Hc Hi Hcon Hcap Hpen Hn Hq' Hn' Hf. split.
  - by rewrite Hq', length_insert.
  - intros j Hj. cbn. rewrite decide_False; [done|]. intros ->.
    apply lookup_lt_Some in Hi. lia.
  - intros j qj Hj. rewrite Hq'. cbn. case_decide as Hij.
    + subst j. simplify_eq. exists q'. rewrite list_lookup_insert_eq; [done|].
      by eapply lookup_lt_Some.
    + exists qj. by rewrite list_lookup_insert_ne.
  - intros j m Hj. rewrite Hn'. cbn. case_decide as Hij.
    + subst j. simplify_eq. rewrite list_lookup_insert_eq; [done|].
      by eapply lookup_lt_Some.
    + rewrite list_lookup_insert_ne, advance_nil by (done || by eapply ck_consumed). done.
  - by rewrite Hf.
  - intros l1 r l2 m Heq. destruct l1 as [|? [|]]; discriminate.
Qed.

Lemma took_dones i rs : took i (Done <$> rs) = [].
Proof. unfold took. by induction rs. Qed.

Lemma dones_dones rs : dones (Done <$> rs) = rs.
Proof. induction rs as [|r rs IH]; [done|]. cbn. by f_equal. Qed.

Lemma explains_dones c c' rs :
  ctx_ok c → queues c' = queues c → consumed_events c' = consumed_events c →
  pending_flushes c ≡ₚ rs ++ pending_flushes c' →
  (∀ r, r ∈ rs → ∃ n, elem (consumed_events c) (pf_module_index r) = Some n ∧
                      pf_after_event r <= n) →
  explains c (Done <$> rs) c'.
Proof.
  intros Hc Hq Hn Hf Hr. split.
  - by rewrite Hq.
  - intros i _. apply took_dones.
  - intros i q Hi. exists q. by rewrite Hq, took_dones.
  - intros i m Hi. rewrite Hn, took_dones, advance_nil by (by eapply ck_consumed). done.
  - by rewrite dones_dones.
  - intros l1 r l2 m Heq Hm.
    apply fmap_app_inv in Heq as (rs1 & rs2 & -> & Hrs & ->).
    destruct rs2 as [|x rs2]; [done|]. injection Hrs as -> ->.
    rewrite took_dones, advance_nil by (by eapply ck_consumed).
    destruct (Hr x) as (n & Hx & Hle); [set_solver|].
    unfold elem in Hx. case_bool_decide; [|done]. by simplify_eq.
Qed.

Section poll.
  Context `{!SensorsH} (g : globals).

(** What the framework sees of an action: nothing of an event whose sensor is
    not known. *)
Definition render (a : action) : option sensors_event_t :=
  match a with
  | Took i e =>
      let e' := copy_event_remap_handle g e (Z.of_nat i) in
      if bool_decide (ev_sensor e' = -1) then None else Some e'
  | Done r => Some (flush_complete (pf_handle r))
  end.

Lemma render_dones (rs : list PendingFlush) :
  omap render (Done <$> rs) = flush_complete ∘ pf_handle <$> rs.
Proof. induction rs as [|r rs IH]; [done|]. cbn. by f_equal. Qed.

(** ** Completing requests *)

Definition is_ready (consumed : list Z) (r : PendingFlush) : Prop :=
  ∃ n, elem consumed (pf_module_index r) = Some n ∧ pf_after_event r <= n.

Record emit_post (consumed : list Z) (flushes : list PendingFlush)
    (data : list sensors_event_t) (from emitted count : Z)
    (m : Z) (data' : list sensors_event_t) (rest rs : list PendingFlush) : Prop := {
  em_len : length data' = length data;
  em_count : m = emitted + Z.of_nat (length rs) ∧ m <= count;
  em_data : take (Z.to_nat (from + m)) data' =
            take (Z.to_nat (from + emitted)) data ++ (flush_complete ∘ pf_handle <$> rs);
  em_split : flushes ≡ₚ rs ++ rest;
  em_ready : ∀ r, r ∈ rs → is_ready consumed r;
  em_rest : m < count → ∀ r, r ∈ rest → ¬ is_ready consumed r;
  em_none : rs = [] → rest = flushes
}.

Lemma take_store {A} (l l' : list A) i x :
  store l i x = Some l' → length l' = length l ∧
    take (Z.to_nat (i + 1)) l' = take (Z.to_nat i) l ++ [x].
Proof.
  unfold store. case_bool_decide; [|done]. intros [= <-].
  rewrite length_insert. split; [done|].
  replace (Z.to_nat (i + 1)) with (S (Z.to_nat i)) by lia.
  rewrite (take_S_r _ _ x) by (apply list_lookup_insert_eq; lia).
  by rewrite take_insert_ge by lia.
Qed.

Lemma store_some {A} (l : list A) i x :
  0 <= i < Z.of_nat (length l) → ∃ l', store l i x = Some l'.
Proof. intros. unfold store. rewrite bool_decide_true by done. eauto. Qed.

Lemma emit_loop_spec consumed flushes data from emitted count :
  (∀ r, r ∈ flushes → is_Some (elem consumed (pf_module_index r))) →
  0 <= from → 0 <= emitted <= count → from + count <= Z.of_nat (length data) →
  ∃ m data' rest rs,
    emit_loop consumed flushes data from emitted count = Some (m, data', rest) ∧
    emit_post consumed flushes data from emitted count m data' rest rs.
Proof.
  revert data emitted. induction flushes as [|it flushes IH]; intros data emitted Hf H1 H2 H3.
  { exists emitted, data, [], []. split; [done|].
    split; cbn; rewrite ?app_nil_r; try done; [lia|set_solver..]. }
  cbn [emit_loop]. case_bool_decide as Hlt.
  2: { exists emitted, data, (it :: flushes), []. split; [done|].
       split; cbn; rewrite ?app_nil_r; try done; [lia|set_solver]. }
  destruct (Hf it) as [n Hn]; [set_solver|]. rewrite Hn. cbn.
  assert (Hf' : ∀ r, r ∈ flushes → is_Some (elem consumed (pf_module_index r))) by set_solver.
  case_bool_decide as Hn'.
  - destruct (IH data emitted Hf' H1 H2 H3) as (m & data' & rest & rs & -> & []).
    cbn. exists m, data', (it :: rest), rs. split; [done|]. split; try done.
    + rewrite em_split0. apply Permutation_middle.
    + intros Hm r [->|Hr]%elem_of_cons; [|by apply em_rest0].
      intros (n' & Hn2 & ?). simplify_eq. lia.
    + intros ->. by rewrite em_none0.
  - destruct (store_some data (from + emitted) (flush_complete (pf_handle it)))
      as [data1 Hst]; [lia|]. rewrite Hst. cbn.
    apply take_store in Hst as [Hl Ht].
    destruct (IH data1 (emitted + 1) Hf') as (m & data' & rest & rs & -> & []); [lia..|].
    exists m, data', rest, (it :: rs). split; [done|]. split; cbn; try done.
    + congruence.
    + destruct em_count0. lia.
    + rewrite em_data0, Z.add_assoc, Ht, <- app_assoc. done.
    + by rewrite em_split0.
    + intros r [->|Hr]%elem_of_cons; [|by apply em_ready0]. exists n. split; [done|lia].
Qed.

Lemma emit_ready_spec c data from count :
  ctx_ok c → 0 <= from → 0 <= count → from + count <= Z.of_nat (length data) →
  ∃ m data' c' rs, emit_ready_flushes c data from count = Some (m, data', c') ∧
    emit_post (consumed_events c) (pending_flushes c) data from 0 count m data'
      (pending_flushes c') rs ∧
    c' = set_flushes (pending_flushes c') c ∧ ctx_ok c' ∧ explains c (Done <$> rs) c'.
Proof.
  intros Hc Hfrom Hcount Hlen. unfold emit_ready_flushes.
  destruct (emit_loop_spec (consumed_events c) (pending_flushes c) data from 0 count)
    as (m & data' & rest & rs & -> & Hp); [|lia..|].
  { intros r Hr. pose proof (ck_flushes c Hc r Hr) as Hm. unfold elem.
    rewrite bool_decide_true by lia. apply lookup_lt_is_Some. rewrite (ck_len c Hc). lia. }
  exists m, data', (set_flushes rest c), rs. split; [done|]. split; [done|].
  split; [done|]. pose proof Hp as []. split.
  - destruct Hc. split; try done. cbn. intros r Hr. apply ck_flushes0. rewrite em_split0.
    set_solver.
  - by apply explains_dones.
Qed.

(** ** Taking an event *)

Lemma deactivate_one_shot_core h c :
  ∃ a, deactivate_one_shot g h c =
    Ctx (sub_hw_devices c) (queues c) (consumed_events c) (pending_flushes c) a
      (nextReadIndex c) (waiting_for_data c).
Proof.
  unfold deactivate_one_shot. destruct (sensor_by_handle g h); [|destruct c; by eexists].
  destruct (is_one_shot s); [by eexists|destruct c; by eexists].
Qed.

Lemma take_event_spec p i e q :
  ctx_ok (ps_ctx p) → nextReadIndex (ps_ctx p) = Z.of_nat i →
  queues (ps_ctx p) !! i = Some q → head (contents q) = Some e →
  0 <= ps_read p < Z.of_nat (length (ps_data p)) →
  ∃ p' a n, take_event g i e q p = Some p' ∧
    ps_ctx p' = Ctx (sub_hw_devices (ps_ctx p)) (<[i := (dequeue q).2]> (queues (ps_ctx p)))
      (<[i := wrap 64 (n + 1)]> (consumed_events (ps_ctx p))) (pending_flushes (ps_ctx p)) a
      (nextReadIndex (ps_ctx p)) (waiting_for_data (ps_ctx p)) ∧
    consumed_events (ps_ctx p) !! i = Some n ∧
    length (ps_data p') = length (ps_data p) ∧
    ps_read p <= ps_read p' <= ps_read p + 1 ∧
    take (Z.to_nat (ps_read p')) (ps_data p') =
      take (Z.to_nat (ps_read p)) (ps_data p) ++ omap render [Took i e] ∧
    ps_empties p' = 0 ∧
    ps_freed p' = (if (dequeue q).1 then i :: ps_freed p else ps_freed p).
Proof.
  intros Hc Hnext Hq He Hread. unfold take_event.
  assert (Hcopy : copy_event_remap_handle g e (nextReadIndex (ps_ctx p)) =
                  copy_event_remap_handle g e (Z.of_nat i)) by (by rewrite Hnext).
  rewrite Hcopy. clear Hcopy.
  destruct (store_some (ps_data p) (ps_read p)
    (copy_event_remap_handle g e (Z.of_nat i))) as [data Hst]; [lia|].
  rewrite Hst. cbn. apply take_store in Hst as [Hl Ht].
  destruct (lookup_lt_is_Some_2 (consumed_events (ps_ctx p)) i) as [n Hn].
  { rewrite (ck_len _ Hc). by eapply lookup_lt_Some. }
  rewrite Hn. cbn.
  destruct (dequeue q) as [freed q'] eqn:Hd. cbn.
  destruct (deactivate_one_shot_core
    (ev_sensor (copy_event_remap_handle g e (Z.of_nat i))) (ps_ctx p)) as [a Ha].
  case_bool_decide as Hbad.
  - eexists _, (active_sensors (ps_ctx p)), n. split; [done|]. cbn.
    repeat split; (done || lia || idtac).
    rewrite app_nil_r. apply (f_equal (take (Z.to_nat (ps_read p)))) in Ht.
    rewrite take_take, take_app_le, take_take in Ht by (rewrite ?length_take; lia).
    by replace (Z.to_nat (ps_read p) `min` Z.to_nat (ps_read p + 1))%nat
      with (Z.to_nat (ps_read p)) in Ht by lia;
      rewrite Nat.min_id in Ht.
  - eexists _, a, n. split; [done|]. rewrite Ha. cbn.
    repeat split; (done || lia).
Qed.

(** ** One turn of the inner loop *)

#[local] Arguments events_queued : simpl never.

(** A bound on the turns left. *)
Definition turns_left (p : poll_state) : nat :=
  events_queued (queues (ps_ctx p)) * S (length (queues (ps_ctx p))) +
  (length (queues (ps_ctx p)) - Z.to_nat (ps_empties p)).

Lemma events_queued_cons q l :
  events_queued (q :: l) = (Z.to_nat (mSize q) + events_queued l)%nat.
Proof. done. Qed.

Lemma events_queued_insert l i q q' :
  l !! i = Some q →
  (events_queued (<[i := q']> l) + Z.to_nat (mSize q) =
   events_queued l + Z.to_nat (mSize q'))%nat.
Proof.
  revert i. induction l as [|x l IH]; intros [|i]; [done..| |]; intros Hi.
  - injection Hi as ->. change (<[0%nat := q']> (q :: l)) with (q' :: l).
    rewrite !events_queued_cons. lia.
  - specialize (IH i Hi). change (<[S i := q']> (x :: l)) with (x :: <[i := q']> l).
    rewrite !events_queued_cons. lia.
Qed.

(** The [empties] queues read last are empty. *)
Definition empty_behind (c : sensors_poll_context) (empties : Z) : Prop :=
  ∀ k q, 1 <= k <= empties →
    queues c !! Z.to_nat ((nextReadIndex c - k) mod Z.of_nat (length (queues c))) = Some q →
    mSize q = 0.

(** The buffer and the context [poll] has reached from [c0], with its log. *)
Record poll_inv (c0 : sensors_poll_context) (maxReads : Z) (log : list action)
    (p : poll_state) : Prop := {
  pi_ctx : ctx_ok (ps_ctx p);
  pi_explains : explains c0 log (ps_ctx p);
  pi_devices : sub_hw_devices (ps_ctx p) = sub_hw_devices c0;
  pi_read : 0 <= ps_read p <= maxReads;
  pi_len : maxReads <= Z.of_nat (length (ps_data p));
  pi_data : take (Z.to_nat (ps_read p)) (ps_data p) = omap render log;
  pi_empties : 0 <= ps_empties p <= Z.of_nat (length (queues c0));
  pi_behind : empty_behind (ps_ctx p) (ps_empties p);
  pi_freed : ∀ i q0 q, queues c0 !! i = Some q0 → queues (ps_ctx p) !! i = Some q →
    is_full q0 = true → is_full q = true ∨ i ∈ ps_freed p
}.

Lemma next_index_rem i n : 0 <= i < n → 0 <= Z.rem (i + 1) n < n ∧ Z.rem (i + 1) n = (i + 1) mod n.
Proof. intros. rewrite Z.rem_mod_nonneg by lia. split; [apply Z.mod_pos_bound; lia|done]. Qed.

Lemma empty_behind_next c q empties :
  queues c ≠ [] → 0 <= nextReadIndex c < Z.of_nat (length (queues c)) →
  queues c !! Z.to_nat (nextReadIndex c) = Some q → mSize q = 0 →
  empty_behind c empties →
  empty_behind (set_next (Z.rem (nextReadIndex c + 1) (Z.of_nat (length (queues c)))) c)
    (empties + 1).
Proof.
  intros Hne Hnext Hq Hz Hb k qk Hk. cbn.
  rewrite (proj2 (next_index_rem _ _ Hnext)), Zminus_mod_idemp_l.
  destruct (decide (k = 1)) as [->|].
  - replace (nextReadIndex c + 1 - 1) with (nextReadIndex c) by lia.
    rewrite Z.mod_small by lia. intros. by simplify_eq.
  - replace (nextReadIndex c + 1 - k) with (nextReadIndex c - (k - 1)) by lia.
    apply Hb. lia.
Qed.

(** The emission of requests keeps the invariant. *)
Lemma poll_emit_inv c0 maxReads log p :
  poll_inv c0 maxReads log p →
  ∃ n data c rs,
    emit_ready_flushes (ps_ctx p) (ps_data p) (ps_read p) (maxReads - ps_read p)
      = Some (n, data, c) ∧
    poll_inv c0 maxReads (log ++ (Done <$> rs))
      (PollState c data (ps_read p + n) (ps_empties p) (ps_freed p)) ∧
    queues c = queues (ps_ctx p) ∧ nextReadIndex c = nextReadIndex (ps_ctx p) ∧
    emit_post (consumed_events (ps_ctx p)) (pending_flushes (ps_ctx p)) (ps_data p) (ps_read p)
      0 (maxReads - ps_read p) n data (pending_flushes c) rs ∧
    consumed_events c = consumed_events (ps_ctx p).
Proof.
  intros []. destruct (emit_ready_spec (ps_ctx p) (ps_data p) (ps_read p) (maxReads - ps_read p))
    as (n & data & c & rs & -> & Hp & Hc & Hok & Hex); [done|lia..|].
  exists n, data, c, rs. split; [done|]. pose proof Hp as [].
  destruct em_count0 as [Hn ?].
  split; [|by rewrite Hc].
  assert (Hq : queues c = queues (ps_ctx p)) by (by rewrite Hc).
  assert (Hnx : nextReadIndex c = nextReadIndex (ps_ctx p)) by (by rewrite Hc).
  split; cbn; try done.
  - by eapply explains_trans.
  - by rewrite Hc.
  - lia.
  - lia.
  - rewrite em_data0, Z.add_0_r, pi_data0, omap_app, render_dones. done.
  - unfold empty_behind. rewrite Hq, Hnx. done.
  - by rewrite Hq.
Qed.


Lemma ctx_ok_next c i :
  ctx_ok c → 0 <= i → (queues c ≠ [] → i < Z.of_nat (length (queues c))) → ctx_ok (set_next i c).
Proof. intros []. by split. Qed.

Lemma explains_next c0 log c i : explains c0 log c → explains c0 log (set_next i c).
Proof. intros []. by split. Qed.

Definition advance_index (c : sensors_poll_context) : sensors_poll_context :=
  set_next (Z.rem (nextReadIndex c + 1) (Z.of_nat (length (queues c)))) c.

Lemma ctx_ok_advance c : ctx_ok c → queues c ≠ [] → ctx_ok (advance_index c).
Proof.
  intros Hc Hne. pose proof (ck_next _ Hc). pose proof (ck_next_lt _ Hc Hne).
  destruct (next_index_rem (nextReadIndex c) (Z.of_nat (length (queues c)))); [done|].
  apply ctx_ok_next; [done|lia|intros; lia].
Qed.

(** The queue to read is empty. *)
Lemma poll_empty_inv c0 maxReads log p q :
  poll_inv c0 maxReads log p → queues (ps_ctx p) ≠ [] →
  queues (ps_ctx p) !! Z.to_nat (nextReadIndex (ps_ctx p)) = Some q → mSize q = 0 →
  ps_empties p < Z.of_nat (length (queues c0)) →
  poll_inv c0 maxReads log
    (PollState (advance_index (ps_ctx p)) (ps_data p) (ps_read p) (ps_empties p + 1) (ps_freed p)).
Proof.
  intros [] Hne Hq Hz Hlt. pose proof (ck_next _ pi_ctx0). pose proof (ck_next_lt _ pi_ctx0 Hne).
  split; try done.
  - by apply ctx_ok_advance.
  - by apply explains_next.
  - cbn. lia.
  - by eapply empty_behind_next.
Qed.

(** The queue to read has an event. *)
Lemma poll_take_inv c0 maxReads log p i q e :
  poll_inv c0 maxReads log p → nextReadIndex (ps_ctx p) = Z.of_nat i →
  queues (ps_ctx p) !! i = Some q → head (contents q) = Some e → ps_read p < maxReads →
  ∃ p', take_event g i e q p = Some p' ∧
    poll_inv c0 maxReads (log ++ [Took i e])
      (PollState (advance_index (ps_ctx p')) (ps_data p') (ps_read p') (ps_empties p')
         (ps_freed p')) ∧
    length (queues (ps_ctx p')) = length (queues (ps_ctx p)) ∧ ps_empties p' = 0 ∧
    (events_queued (queues (ps_ctx p')) < events_queued (queues (ps_ctx p)))%nat.
Proof.
  intros [] Hnext Hq He Hread.
  destruct (take_event_spec p i e q) as (p' & a & n & Ht & Hc & Hn & Hl & Hr & Hd & He0 & Hf);
    [done|done|done|done|lia|].
  assert (Hqok : queue_ok q) by (by eapply ck_queues).
  assert (Hhd : contents q = e :: contents (dequeue q).2).
  { rewrite dequeue_contents by done. by destruct (contents q); simplify_eq/=. }
  assert (Hsz : mSize q ≠ 0).
  { intros Hz. apply contents_length in Hqok. rewrite Hhd, Hz in Hqok. done. }
  pose proof (dequeue_rest q) as (Hcap & Hpen & Hsize).
  rewrite bool_decide_false in Hsize by done.
  assert (Hil : (i < length (queues (ps_ctx p)))%nat) by (by eapply lookup_lt_Some).
  assert (Hok : ctx_ok (ps_ctx p')).
  { rewrite Hc. destruct pi_ctx0. split; cbn; rewrite ?length_insert; try done.
    - intros j qj. rewrite list_lookup_insert_Some. intros [(? & <- & ?)|[? ?]]; [|eauto].
      by apply dequeue_ok.
    - intros j m. rewrite list_lookup_insert_Some. intros [(? & <- & ?)|[? ?]]; [|eauto].
      apply (wrap_range 64). lia.
    - intros Hne. apply ck_next_lt0. intros Hnil. apply Hne. by rewrite Hnil. }
  assert (Hex : explains (ps_ctx p) [Took i e] (ps_ctx p')).
  { eapply (explains_took _ _ i q (dequeue q).2); rewrite ?Hc; try done. }
  exists p'. split; [done|]. split; [|split; [|split; [done|]]].
  - assert (Hne : queues (ps_ctx p') ≠ []).
    { rewrite Hc. cbn. intros Hnil. apply (f_equal length) in Hnil.
      rewrite length_insert in Hnil. cbn in Hnil. lia. }
    split; cbn; rewrite ?He0.
    + by apply ctx_ok_advance.
    + apply explains_next. by eapply explains_trans.
    + by rewrite Hc.
    + lia.
    + lia.
    + by rewrite Hd, omap_app, pi_data0.
    + lia.
    + intros k; lia.
    + intros j q0 qj Hj0. rewrite Hc, Hf. cbn. rewrite list_lookup_insert_Some.
      intros [(<- & <- & _)|[Hne' Hj]] Hfull.
      * right. destruct (pi_freed0 i q0 q Hj0 Hq Hfull) as [Hfq|Hin].
        -- unfold dequeue. rewrite bool_decide_false by done. cbn.
           unfold is_full in Hfq. rewrite Hfq. set_solver.
        -- destruct (dequeue q).1; set_solver.
      * destruct (pi_freed0 j q0 qj Hj0 Hj Hfull) as [|]; [by left|right].
        destruct (dequeue q).1; set_solver.
  - rewrite Hc. cbn. by rewrite length_insert.
  - rewrite Hc. cbn [queues]. pose proof (events_queued_insert _ _ _ (dequeue q).2 Hq).
    pose proof (qk_size _ Hqok). lia.
Qed.

Lemma poll_turn_spec c0 maxReads log p :
  poll_inv c0 maxReads log p → queues c0 ≠ [] →
  ps_empties p < Z.of_nat (length (queues c0)) → ps_read p < maxReads →
  ∃ p' ext, poll_turn g (Z.of_nat (length (queues c0))) maxReads p = Some p' ∧
    poll_inv c0 maxReads (log ++ ext) p' ∧
    (ps_read p' = maxReads ∨ (turns_left p' < turns_left p)%nat).
Proof.
  intros Hinv Hne Hemp Hread. unfold poll_turn.
  destruct (poll_emit_inv _ _ _ _ Hinv) as (n & data & c & rs & -> & Hinv1 & Hq & Hnx & Hem & _).
  cbn. case_bool_decide as Hfull.
  { eexists _, _. split; [done|]. split; [exact Hinv1|by left]. }
  assert (Hlen : length (queues c) = length (queues c0)) by apply Hinv1.
  assert (Hne1 : queues c ≠ []) by (intros Hnil; rewrite Hnil in Hlen; by destruct (queues c0)).
  pose proof (pi_ctx _ _ _ _ Hinv1) as Hc. cbn in Hc.
  pose proof (ck_next _ Hc) as Hn0. pose proof (ck_next_lt _ Hc Hne1) as Hn1.
  unfold elem. rewrite bool_decide_true by done.
  destruct (lookup_lt_is_Some_2 (queues c) (Z.to_nat (nextReadIndex c))) as [q Hi]; [lia|].
  rewrite Hi. cbn. pose proof (ck_queues _ Hc _ _ Hi) as Hqok. rewrite peek_contents by done. cbn.
  unfold turns_left. destruct (head (contents q)) as [e|] eqn:He.
  - destruct (poll_take_inv _ _ _ _ (Z.to_nat (nextReadIndex c)) q e Hinv1)
      as (p' & -> & Hinv2 & Hl & He0 & Hlt); [cbn; lia|done|done|pose proof (pi_read _ _ _ _ Hinv1); cbn in *; lia|].
    cbn in Hl, Hlt |- *. rewrite <- Hlen, <- Hl. eexists _, _. split; [done|].
    rewrite app_assoc. split; [exact Hinv2|]. right. cbn.
    rewrite He0, Hl, <- Hq, Z2Nat.inj_0, Nat.sub_0_r. nia.
  - cbn. rewrite <- Hlen. eexists _, _. split; [done|]. split.
    + eapply (poll_empty_inv c0 maxReads _ _ q Hinv1); cbn; try done.
      apply contents_length in Hqok. pose proof (ck_queues _ Hc _ _ Hi) as [].
      destruct (contents q); [|done]. cbn in Hqok. lia.
    + right. cbn. rewrite <- Hq. pose proof (pi_empties _ _ _ _ Hinv). lia.
Qed.

Lemma poll_loop_spec fuel c0 maxReads log p :
  poll_inv c0 maxReads log p → queues c0 ≠ [] → (turns_left p < fuel)%nat →
  ∃ p' ext, poll_loop fuel g (Z.of_nat (length (queues c0))) maxReads p = Some p' ∧
    poll_inv c0 maxReads (log ++ ext) p' ∧
    (ps_read p' = maxReads ∨ ps_empties p' = Z.of_nat (length (queues c0))).
Proof.
  revert log p. induction fuel as [|fuel IH]; intros log p Hinv Hne Hf; [lia|].
  cbn [poll_loop]. pose proof (pi_read _ _ _ _ Hinv). pose proof (pi_empties _ _ _ _ Hinv).
  destruct (bool_decide (ps_empties p < _) && bool_decide (ps_read p < maxReads)) eqn:Hb.
  - apply andb_true_iff in Hb as [Hb1%bool_decide_eq_true Hb2%bool_decide_eq_true].
    destruct (poll_turn_spec c0 maxReads log p) as (p1 & ext & -> & Hinv1 & Hd); [done..|].
    cbn. destruct Hd as [Hd|Hd].
    + exists p1, ext. split; [|by auto].
      destruct fuel; cbn; rewrite (bool_decide_false (ps_read p1 < maxReads)) by lia;
        by rewrite andb_false_r.
    + destruct (IH (log ++ ext) p1) as (p' & ext' & -> & ? & ?); [done|done|lia|].
      exists p', (ext ++ ext'). rewrite app_assoc. auto.
  - exists p, []. rewrite app_nil_r. split; [done|]. split; [done|].
    apply andb_false_iff in Hb as [Hb1%bool_decide_eq_false|Hb2%bool_decide_eq_false]; lia.
Qed.

(** ** A section of [poll] *)

Record section_post (c : sensors_poll_context) (data : list sensors_event_t) (maxReads : Z)
    (log : list action) (r : poll_result) : Prop := {
  sp_ok : ctx_ok (pr_ctx r);
  sp_explains : explains c log (pr_ctx r);
  sp_devices : sub_hw_devices (pr_ctx r) = sub_hw_devices c;
  sp_count : 0 <= pr_count r <= maxReads;
  sp_len : maxReads <= Z.of_nat (length (pr_data r));
  sp_data : take (Z.to_nat (pr_count r)) (pr_data r) = omap render log;
  sp_wait : pr_count r = 0 →
    (∀ i q, queues (pr_ctx r) !! i = Some q → mSize q = 0) ∧
    (∀ f, f ∈ pending_flushes (pr_ctx r) → ¬ is_ready (consumed_events (pr_ctx r)) f);
  sp_waiting : waiting_for_data (pr_ctx r) = bool_decide (pr_count r = 0);
  sp_freed : ∀ i q0 q, queues c !! i = Some q0 → queues (pr_ctx r) !! i = Some q →
    is_full q0 = true → is_full q = true ∨ i ∈ pr_freed r
}.

(** A full round of empty queues is all of them. *)
Lemma all_empty c :
  ctx_ok c → queues c ≠ [] → empty_behind c (Z.of_nat (length (queues c))) →
  ∀ i q, queues c !! i = Some q → mSize q = 0.
Proof.
  intros Hc Hne Hb i q Hi. pose proof (lookup_lt_Some _ _ _ Hi).
  pose proof (ck_next _ Hc). pose proof (ck_next_lt _ Hc Hne).
  set (n := Z.of_nat (length (queues c))) in *.
  destruct (decide (Z.of_nat i < nextReadIndex c)).
  - apply (Hb (nextReadIndex c - Z.of_nat i)); [lia|]. fold n.
    replace (nextReadIndex c - (nextReadIndex c - Z.of_nat i)) with (Z.of_nat i) by lia.
    rewrite Z.mod_small by lia. by rewrite Nat2Z.id.
  - apply (Hb (nextReadIndex c - Z.of_nat i + n)); [lia|]. fold n.
    replace (nextReadIndex c - (nextReadIndex c - Z.of_nat i + n)) with (Z.of_nat i + (-1) * n)
      by lia.
    rewrite Z.mod_add, Z.mod_small by lia. by rewrite Nat2Z.id.
Qed.

Lemma poll_section_spec c data maxReads :
  ctx_ok c → queues c ≠ [] → 0 < maxReads <= Z.of_nat (length data) →
  ∃ r log, poll_section g c data maxReads = Some r ∧ section_post c data maxReads log r.
Proof.
  intros Hc Hne Hm. unfold poll_section.
  set (p0 := PollState (set_waiting false c) data 0 0 []).
  assert (Hc0 : ctx_ok (set_waiting false c)) by (destruct Hc; by split).
  assert (Hinv0 : poll_inv c maxReads [] p0).
  { split; cbn; try done; [by apply explains_nil|lia..|intros k; lia|].
    intros i q0 q Hi Hi' ?. simplify_eq. by left. }
  destruct (poll_loop_spec (poll_fuel c) c maxReads [] p0 Hinv0 Hne) as (p & log & -> & Hinv & Hd).
  { unfold turns_left, poll_fuel. cbn. lia. }
  cbn in Hinv |- *.
  destruct (poll_emit_inv _ _ _ _ Hinv) as (n & data' & c' & rs & -> & Hinv1 & Hq & Hnx & Hem & Hcon).
  cbn. eexists _, (log ++ (Done <$> rs)). split; [done|].
  destruct Hinv1. cbn in *. split; cbn; try done.
  - by destruct pi_ctx0.
  - by destruct pi_explains0.
  - intros Hz. pose proof (pi_read _ _ _ _ Hinv) as Hr. destruct Hem. destruct em_count0 as [Hn ?].
    assert (Hrs : rs = []) by (destruct rs; [done|cbn in Hn; lia]).
    split.
    + apply all_empty; [done| |].
      * rewrite Hq. intros Hnil. pose proof (ex_len _ _ _ (pi_explains _ _ _ _ Hinv)) as Hl.
        rewrite Hnil in Hl. by destruct (queues c).
      * destruct Hd as [Hd|Hd]; [lia|].
        by rewrite (ex_len _ _ _ pi_explains0), <- Hd.
    + rewrite Hcon. apply em_rest0. lia.
Qed.

End poll.
