(* ===== verification/SensorSystem.v ===== *)
(** * The threads of the sensors adapter (src/sensors/multihal.cpp)

    One writer thread per sensor library ([writerTask]), the framework's thread
    in [poll], and calls of [flush] and [activate] from other threads, as the
    events of a transition system.  [queue_mutex] makes what happens between two
    points where it is released one event; a thread inside [pthread_cond_wait]
    sleeps until a broadcast, or wakes by itself (POSIX allows it). *)

From S2P Require Import Prelude SensorQueue MultiHal PollFacts.
From stdpp Require Import gmap.

#[global] Open Scope Z_scope.

Inductive writer_at :=
  | WTop  (** before it takes the mutex at the top of its loop, or woken there *)
  | WTopSleep  (** in [waitForSpace] at the top of the loop *)
  | WPoll  (** in the library's blocking [poll], the mutex free *)
  | WHave (events : list sensors_event_t)  (** before the mutex and [write] *)
  | WSleep (left_ : list sensors_event_t)  (** in [waitForSpace] of [write] *)
  | WWoken (left_ : list sensors_event_t). (** woken there *)

Inductive reader_at :=
  | RIdle
  | RSleep (data : list sensors_event_t) (maxReads : Z)
  | RWoken (data : list sensors_event_t) (maxReads : Z).

(** The context and the threads; of the past, what [write] was given by each
    module, the requests [flush] accepted and the events [poll] returned. *)
Record system := System {
  sy_ctx : sensors_poll_context;
  sy_writers : list writer_at;
  sy_reader : reader_at;
  sy_accepted : list (list sensors_event_t);
  sy_requested : list PendingFlush;
  sy_delivered : list sensors_event_t
}.

Inductive sys_event :=
  | EvWriter (i : nat)  (** the next critical section of writer [i] *)
  | EvPolled (i : nat) (eventsPolled : Z) (buffer : list sensors_event_t)
      (** the library's [poll] returns *)
  | EvWriterSpurious (i : nat)  (** a wake-up without a broadcast *)
  | EvCallPoll (data : list sensors_event_t) (maxReads : Z)  (** a call of [poll] *)
  | EvReader  (** [poll] goes on after a broadcast *)
  | EvReaderSpurious
  | EvFlush (handle : Z)  (** a call of [flush] *)
  | EvActivated (handle : Z) (enabled : Z).
      (** the critical section of [activate], the device having agreed *)

Definition wake_writer (w : writer_at) : writer_at :=
  match w with WTopSleep => WTop | WSleep l => WWoken l | w => w end.

Definition wake_reader (r : reader_at) : reader_at :=
  match r with RSleep d m => RWoken d m | r => r end.

(** Broadcasts of [mSpaceAvailableCondition] of the queues [freed]. *)
Definition wake_writers (freed : list nat) (ws : list writer_at) : list writer_at :=
  imap (λ i w, if decide (i ∈ freed) then wake_writer w else w) ws.

(** [writerTask] with the result of the library's [poll]. *)
Definition after_poll (eventsPolled : Z) (buffer : list sensors_event_t) : writer_at :=
  if bool_decide (eventsPolled <= 0) || bool_decide (SENSOR_EVENT_QUEUE_CAPACITY < eventsPolled)
  then WTop else WHave (take (Z.to_nat eventsPolled) buffer).

(** [write] has returned or sleeps again. *)
Definition after_write (i : nat) (r : write_result) (s : system) : system :=
  System (set_queue i (wr_queue r) (sy_ctx s))
    (<[i := match wr_left r with None => WTop | Some l => WSleep l end]> (sy_writers s))
    (if wr_signal r then wake_reader (sy_reader s) else sy_reader s)
    (sy_accepted s) (sy_requested s) (sy_delivered s).

Definition set_writer (i : nat) (w : writer_at) (s : system) : system :=
  System (sy_ctx s) (<[i := w]> (sy_writers s)) (sy_reader s) (sy_accepted s)
    (sy_requested s) (sy_delivered s).

Definition accept (i : nat) (events : list sensors_event_t) (s : system) : system :=
  System (sy_ctx s) (sy_writers s) (sy_reader s) (alter (.++ events) i (sy_accepted s))
    (sy_requested s) (sy_delivered s).

Definition writer_step (i : nat) (s : system) : option system :=
  match sy_writers s !! i, queues (sy_ctx s) !! i with
  | Some WTop, Some q => Some (set_writer i (if is_full q then WTopSleep else WPoll) s)
  | Some (WHave events), Some q =>
      r ← write_begin q events (Z.of_nat (length events));
      Some (after_write i r (accept i events s))
  | Some (WWoken left_), Some q => r ← write_resume q left_; Some (after_write i r s)
  | _, _ => Some s
  end.

(** [poll] has returned or sleeps again. *)
Definition after_section (r : poll_result) (maxReads : Z) (s : system) : system :=
  System (pr_ctx r) (wake_writers (pr_freed r) (sy_writers s))
    (if bool_decide (pr_count r = 0) then RSleep (pr_data r) maxReads else RIdle)
    (sy_accepted s) (sy_requested s)
    (sy_delivered s ++ take (Z.to_nat (pr_count r)) (pr_data r)).

Section system.
  Context `{!SensorsH} (g : globals).

Definition reader_section (data : list sensors_event_t) (maxReads : Z) (s : system) :
    option system :=
  r ← poll_section g (sy_ctx s) data maxReads; Some (after_section r maxReads s).

Definition flush_step (handle : Z) (s : system) : option system :=
  '(code, signal, c) ← flush g (sy_ctx s) handle;
  Some (System c (sy_writers s) (if signal : bool then wake_reader (sy_reader s) else sy_reader s)
          (sy_accepted s)
          (sy_requested s ++ drop (length (pending_flushes (sy_ctx s))) (pending_flushes c))
          (sy_delivered s)).

(** An event that is not possible in a state changes nothing; [None]: undefined
    behaviour. *)
Definition sys_step (s : system) (ev : sys_event) : option system :=
  match ev with
  | EvWriter i => writer_step i s
  | EvPolled i n buffer =>
      match sy_writers s !! i with
      | Some WPoll => Some (set_writer i (after_poll n buffer) s)
      | _ => Some s
      end
  | EvWriterSpurious i =>
      match sy_writers s !! i with
      | Some w => Some (set_writer i (wake_writer w) s)
      | None => Some s
      end
  | EvCallPoll data maxReads =>
      match sy_reader s with
      | RIdle => if poll_refuses (sy_ctx s) (Some data) maxReads then Some s
                 else reader_section data maxReads s
      | _ => Some s
      end
  | EvReader =>
      match sy_reader s with
      | RWoken data maxReads => reader_section data maxReads s
      | _ => Some s
      end
  | EvReaderSpurious =>
      Some (System (sy_ctx s) (sy_writers s) (wake_reader (sy_reader s)) (sy_accepted s)
              (sy_requested s) (sy_delivered s))
  | EvFlush handle => flush_step handle s
  | EvActivated handle enabled =>
      Some (System (set_active handle (bool_decide (enabled ≠ 0)) (sy_ctx s)) (sy_writers s)
              (sy_reader s) (sy_accepted s) (sy_requested s) (sy_delivered s))
  end.

Fixpoint sys_run (s : system) (evs : list sys_event) : option system :=
  match evs with
  | [] => Some s
  | ev :: evs => s' ← sys_step s ev; sys_run s' evs
  end.

End system.

(** The context after [open_sensors] with these devices; [junk]: what the rings'
    memory holds. *)
Definition opened_ctx (junk : list sensors_event_t) (devices : list sub_device) :
    sensors_poll_context :=
  Ctx devices
    (replicate (length devices) (new_SensorEventQueue junk SENSOR_EVENT_QUEUE_CAPACITY))
    (replicate (length devices) 0) [] ∅ 0 false.

(** The threads [open_sensors] has started. *)
Definition sys0 (junk : list sensors_event_t) (devices : list sub_device) : system :=
  System (opened_ctx junk devices) (replicate (length devices) WTop) RIdle
    (replicate (length devices) []) [] [].

(** The libraries fill a buffer of 20 events; the framework's buffer has as many
    events as it says. *)
Definition event_ok (ev : sys_event) : Prop :=
  match ev with
  | EvPolled _ _ buffer => length buffer = 20%nat
  | EvCallPoll data maxReads => maxReads <= Z.of_nat (length data)
  | _ => True
  end.
