(* ===== verification/MultiHalDev.v ===== *)
(** * Opening the sensors adapter, and its calls on devices (src/sensors/multihal.cpp)

    The loading of the sensor libraries named in the configuration file, the
    list of sensors with the adapter's handles, and the operations that call the
    libraries' devices.  The dynamic loader, the file and the libraries are the
    parameter [SubHals]; modules, libraries and devices are numbers in it. *)

From S2P Require Import Prelude SensorQueue MultiHal.
From stdpp Require Import gmap.
From Stdlib Require Import Ascii String.

#[global] Open Scope Z_scope.

Class SubHals (K : Type) := {
  (** the configuration file, when it can be opened *)
  conf_file : M K (option string);
  dlopen : string → M K (option Z);
  (** [dlsym] of [HMI], and whether [dlerror] then reports an error *)
  dlsym : Z → M K (bool * option Z);
  (** [get_sensors_list] of a module: its result and the array *)
  get_sensors_list : Z → M K (Z * list sensor_t);
  (** [methods->open] of a module *)
  sub_open : Z → string → M K (Z * option sub_device);
  sub_close : Z → M K Z;
  sub_activate : Z → Z → Z → M K Z;
  sub_setDelay : Z → Z → Z → M K Z
}.

(** Memory that is not initialised. *)
Class Junk := { junk_sensor : sensor_t; junk_event : sensors_event_t }.

(** [sub_hw_modules], the globals of the sensor list; [sw_faults] counts
    accesses outside an array and array sizes that are negative. *)
Record sensors_world (K : Type) := SensorsWorld {
  sw_k : K;
  sw_modules : option (list Z);
  sw_globals : globals;
  sw_faults : nat
}.
Arguments SensorsWorld {K}.
Arguments sw_k {K}.
Arguments sw_modules {K}.
Arguments sw_globals {K}.
Arguments sw_faults {K}.

(** ** The configuration file *)

(** The lines [std::getline] reads one after the other. *)
Fixpoint getlines (acc : string) (s : string) : list string :=
  match s with
  | EmptyString => if decide (acc = EmptyString) then [] else [acc]
  | String c rest =>
      if decide (c = "010"%char) then acc :: getlines EmptyString rest
      else getlines (acc +:+ String c EmptyString) rest
  end.

Section device.
  Context {K : Type} `{!SubHals K, !SensorsH, !Junk}.

Abbreviation W := (sensors_world K).

(** A call of a library or of the loader. *)
Definition ext {A} (m : M K A) : M W A := λ w,
  let '(a, k) := m (sw_k w) in (a, SensorsWorld k (sw_modules w) (sw_globals w) (sw_faults w)).

Definition get_globals : M W globals := λ w, (sw_globals w, w).
Definition put_globals (g : globals) : M W unit := λ w,
  (tt, SensorsWorld (sw_k w) (sw_modules w) g (sw_faults w)).
Definition get_modules : M W (option (list Z)) := λ w, (sw_modules w, w).
Definition put_modules (l : list Z) : M W unit := λ w,
  (tt, SensorsWorld (sw_k w) (Some l) (sw_globals w) (sw_faults w)).
Definition fault : M W unit := λ w,
  (tt, SensorsWorld (sw_k w) (sw_modules w) (sw_globals w) (S (sw_faults w))).

Definition get_so_paths : M W (list string) :=
  f ← ext conf_file;
  match f with Some text => mret (getlines EmptyString text) | None => mret [] end.

(** The loop of [lazy_init_modules] over the paths. *)
Fixpoint load_modules (so_paths : list string) (loaded : list Z) : M W (list Z) :=
  match so_paths with
  | [] => mret loaded
  | path :: paths =>
      lib_handle ← ext (dlopen path);
      match lib_handle with
      | None => load_modules paths loaded
      | Some lib =>
          '(error, module) ← ext (dlsym lib);
          if error : bool then load_modules paths loaded
          else match module with
               | None => load_modules paths loaded
               | Some m => load_modules paths (loaded ++ [m])
               end
      end
  end.

Definition lazy_init_modules : M W unit :=
  modules ← get_modules;
  match modules with
  | Some _ => mret tt
  | None => so_paths ← get_so_paths; l ← load_modules so_paths []; put_modules l
  end.

(** ** The list of sensors *)

Definition describe_legacy_sensor (s : sensor_t) : sensor_t :=
  let flags :=
    if bool_decide (sn_type s = SENSOR_TYPE_LIGHT) ||
       bool_decide (sn_type s = SENSOR_TYPE_AMBIENT_TEMPERATURE) ||
       bool_decide (sn_type s = SENSOR_TYPE_RELATIVE_HUMIDITY) ||
       bool_decide (sn_type s = SENSOR_TYPE_STEP_COUNTER) then SENSOR_FLAG_ON_CHANGE_MODE
    else if bool_decide (sn_type s = SENSOR_TYPE_PROXIMITY) then
      Z.lor SENSOR_FLAG_ON_CHANGE_MODE SENSOR_FLAG_WAKE_UP
    else if bool_decide (sn_type s = SENSOR_TYPE_SIGNIFICANT_MOTION) then
      Z.lor SENSOR_FLAG_ONE_SHOT_MODE SENSOR_FLAG_WAKE_UP
    else if bool_decide (sn_type s = SENSOR_TYPE_STEP_DETECTOR) then
      SENSOR_FLAG_SPECIAL_REPORTING_MODE
    else if bool_decide (sn_minDelay s < 0) then SENSOR_FLAG_ONE_SHOT_MODE
    else SENSOR_FLAG_CONTINUOUS_MODE in
  Sensor (sn_name s) (sn_vendor s) (sn_version s) (sn_handle s) (sn_type s) (sn_maxRange s)
    (sn_resolution s) (sn_power s) (sn_minDelay s) 0 0
    (Some (default EmptyString (sn_stringType s)))
    (Some (default EmptyString (sn_requiredPermission s))) 0 flags (0, 0).

(** The sensor shown for a library's sensor. *)
Definition adapted_sensor (global_handle : Z) (s : sensor_t) : sensor_t :=
  let s1 := set_sn_handle global_handle (describe_legacy_sensor s) in
  if bool_decide (sn_type s1 = SENSOR_TYPE_PROXIMITY) then set_sn_maxRange float_5 s1 else s1.

(** The loop over the [n] sensors of a module from index [i]; [None]: an access
    outside an array. *)
Fixpoint fill_module (n : nat) (i module_index : Z) (locals : list sensor_t)
    (mutable_sensor_list : list sensor_t) (index : Z) (g : globals) :
    option (list sensor_t * Z * globals) :=
  match n with
  | O => Some (mutable_sensor_list, index, g)
  | S n =>
      local ← elem locals i;
      let '(global_handle, g') := assign_global_handle module_index (sn_handle local) g in
      arr ← store mutable_sensor_list index (adapted_sensor global_handle local);
      fill_module n (i + 1) module_index locals arr (index + 1) g'
  end.

Fixpoint count_sensors (modules : list Z) (count : Z) : M W Z :=
  match modules with
  | [] => mret count
  | m :: ms => '(n, _) ← ext (get_sensors_list m); count_sensors ms (s32 (count + n))
  end.

Fixpoint fill_sensors (modules : list Z) (module_index : Z) (arr : list sensor_t) (index : Z) :
    M W (list sensor_t) :=
  match modules with
  | [] => mret arr
  | m :: ms =>
      '(n, locals) ← ext (get_sensors_list m);
      g ← get_globals;
      match fill_module (Z.to_nat n) 0 module_index locals arr index g with
      | Some (arr', index', g') =>
          _ ← put_globals g'; fill_sensors ms (module_index + 1) arr' index'
      | None => _ ← fault; mret arr
      end
  end.

Definition set_list (l : option (list sensor_t)) (count : Z) (g : globals) : globals :=
  Globals (global_to_full g) (full_to_global g) (next_global_handle g) l count.

Definition lazy_init_sensors_list : M W unit :=
  g ← get_globals;
  match global_sensors_list g with
  | Some _ => mret tt
  | None =>
      _ ← lazy_init_modules;
      modules ← get_modules;
      count ← count_sensors (default [] modules) 0;
      g1 ← get_globals;
      _ ← put_globals (set_list None count g1);
      if bool_decide (count < 0) then fault
      else
        arr ← fill_sensors (default [] modules) 0 (replicate (Z.to_nat count) junk_sensor) 0;
        g2 ← get_globals;
        put_globals (set_list (Some arr) count g2)
  end.

Definition module__get_sensors_list : M W (option (list sensor_t) * Z) :=
  _ ← lazy_init_sensors_list;
  g ← get_globals;
  mret (global_sensors_list g, global_sensors_count g).

(** ** Opening *)

Definition addSubHwDevice (c : sensors_poll_context) (d : sub_device) : sensors_poll_context :=
  Ctx (sub_hw_devices c ++ [d])
    (queues c ++ [new_SensorEventQueue
                    (replicate (Z.to_nat SENSOR_EVENT_QUEUE_CAPACITY) junk_event)
                    SENSOR_EVENT_QUEUE_CAPACITY])
    (consumed_events c ++ [0]) (pending_flushes c) (active_sensors c) (nextReadIndex c)
    (waiting_for_data c).

(** What [open_sensors] requires of a device. *)
Definition device_complete (d : sub_device) : bool :=
  bool_decide (SENSORS_DEVICE_API_VERSION_1_0 <= sd_version d) &&
  sd_close d && sd_activate d && sd_setDelay d && sd_poll d.

(** The loop of [open_sensors]: the error and the devices opened. *)
Fixpoint open_modules (modules : list Z) (name : string) (opened : list sub_device) :
    M W (Z * list sub_device) :=
  match modules with
  | [] => mret (0, opened)
  | m :: ms =>
      '(error, sub) ← ext (sub_open m name);
      let error :=
        match sub with
        | Some d => if bool_decide (error = 0) then (if device_complete d then 0 else - EINVAL) else error
        | None => if bool_decide (error = 0) then - ENODEV else error
        end in
      let opened := match sub with Some d => opened ++ [d] | None => opened end in
      if bool_decide (error ≠ 0) then mret (error, opened) else open_modules ms name opened
  end.

Fixpoint close_opened (opened : list sub_device) : M W unit :=
  match opened with
  | [] => mret tt
  | d :: ds => (if sd_close d then _ ← ext (sub_close (sd_id d)); mret tt else mret tt) ;;
               close_opened ds
  end.

(** [name] is [None] for [NULL]; the context is [*hw_device_out]. *)
Definition open_sensors (name : option string) : M W (Z * option sensors_poll_context) :=
  match name with
  | None => mret (- EINVAL, None)
  | Some name =>
      _ ← lazy_init_modules;
      modules ← get_modules;
      if bool_decide (default [] modules = []) then mret (- ENODEV, None)
      else
        '(error, opened) ← open_modules (default [] modules) name [];
        if bool_decide (error ≠ 0) then _ ← close_opened opened; mret (error, None)
        else
          _ ← lazy_init_sensors_list;
          mret (0, Some (foldl addSubHwDevice ctx0 opened))
  end.

(** ** The calls on devices *)

Definition activate (c : sensors_poll_context) (handle enabled : Z) :
    M W (Z * sensors_poll_context) :=
  g ← get_globals;
  let local_handle := get_local_handle g handle in
  match get_v0_device_by_handle g c handle with
  | Some v0 =>
      if halIsCompliant g c handle && bool_decide (0 <= local_handle) then
        retval ← ext (sub_activate (sd_id v0) local_handle enabled);
        mret (retval, if bool_decide (retval = 0)
                      then set_active handle (bool_decide (enabled ≠ 0)) c else c)
      else mret (- EINVAL, c)
  | None => mret (- EINVAL, c)
  end.

Definition setDelay (c : sensors_poll_context) (handle ns : Z) : M W Z :=
  g ← get_globals;
  let local_handle := get_local_handle g handle in
  match get_v0_device_by_handle g c handle with
  | Some v0 =>
      if halIsCompliant g c handle && bool_decide (0 <= local_handle)
      then ext (sub_setDelay (sd_id v0) local_handle ns)
      else mret (- EINVAL)
  | None => mret (- EINVAL)
  end.

Definition batch (c : sensors_poll_context) (handle flags period_ns timeout : Z) : M W Z :=
  g ← get_globals;
  if bool_decide (flags ≠ 0) || bool_decide (period_ns < 0) || bool_decide (timeout < 0) ||
     bool_decide (sensor_by_handle g handle = None)
  then mret (- EINVAL) else setDelay c handle period_ns.

(** [close]; the writer threads go on. *)
Fixpoint close_devices (devices : list sub_device) : M W unit :=
  match devices with
  | [] => mret tt
  | d :: ds => _ ← ext (sub_close (sd_id d)); close_devices ds
  end.

Definition close (c : sensors_poll_context) : M W Z :=
  _ ← close_devices (sub_hw_devices c); mret 0.

(** The context is freed: there is none afterwards. *)
Definition device__close (dev : option sensors_poll_context) : M W Z :=
  match dev with Some c => _ ← close c; mret 0 | None => mret 0 end.

End device.
