(* ===== verification/SoftSensors.v ===== *)
(** * Concrete sensor libraries

    The values of hardware/sensors.h, and two libraries with three sensors, for
    the witnesses of the theorems on the adapter. *)

From S2P Require Import Prelude SensorQueue MultiHal SensorSystem MultiHalDev.
From stdpp Require Import gmap.
From Stdlib Require Import Ascii String.

#[global] Open Scope Z_scope.

#[export] Instance soft_sensors_h : SensorsH := {|
  SENSOR_TYPE_META_DATA := 0;
  SENSOR_TYPE_LIGHT := 5;
  SENSOR_TYPE_PROXIMITY := 8;
  SENSOR_TYPE_RELATIVE_HUMIDITY := 12;
  SENSOR_TYPE_AMBIENT_TEMPERATURE := 13;
  SENSOR_TYPE_SIGNIFICANT_MOTION := 17;
  SENSOR_TYPE_STEP_DETECTOR := 18;
  SENSOR_TYPE_STEP_COUNTER := 19;
  SENSOR_FLAG_WAKE_UP := 1;
  SENSOR_FLAG_CONTINUOUS_MODE := 0;
  SENSOR_FLAG_ON_CHANGE_MODE := 2;
  SENSOR_FLAG_ONE_SHOT_MODE := 4;
  SENSOR_FLAG_SPECIAL_REPORTING_MODE := 6;
  REPORTING_MODE_MASK := 0xE;
  META_DATA_VERSION := 1;
  META_DATA_FLUSH_COMPLETE := 1;
  SENSORS_DEVICE_API_VERSION_1_0 := 0x01000001
|}.

Definition soft_sensor (name : string) (handle type : Z) : sensor_t :=
  Sensor name "soft" 1 handle type 0 0 0 10000 0 0 None None 0 0 (0, 0).

#[export] Instance soft_junk : Junk := {|
  junk_sensor := soft_sensor "junk" 0 0;
  junk_event := event_zero
|}.

(** The sensors of the two modules. *)
Definition soft_list (m : Z) : list sensor_t :=
  if decide (m = 7) then [soft_sensor "accelerometer" 101 1; soft_sensor "motion" 102 17]
  else [soft_sensor "proximity" 101 8].

Definition soft_device (m : Z) (complete : bool) : sub_device :=
  SubDevice m 0x01000001 true true true complete.

Fixpoint remove_one (x : Z) (l : list Z) : list Z :=
  match l with
  | [] => []
  | y :: l => if decide (y = x) then l else y :: remove_one x l
  end.

(** The state: the devices that are open. *)
#[export] Instance soft_sub_hals : SubHals (list Z) := {|
  conf_file := λ k, (Some (String.append "a.so" (String "010"%char "b.so")), k);
  dlopen := λ path k, (Some (Z.of_nat (String.length path)), k);
  dlsym := λ lib k, ((false, Some 7), k);
  get_sensors_list := λ m k, ((Z.of_nat (List.length (soft_list m)), soft_list m), k);
  sub_open := λ m name k, ((0, Some (soft_device m (bool_decide (m ≠ 9)))), m :: k);
  sub_close := λ id k, (0, remove_one id k);
  sub_activate := λ id h e k, (0, k);
  sub_setDelay := λ id h ns k, (0, k)
|}.

Definition soft_world (modules : list Z) : sensors_world (list Z) :=
  SensorsWorld [] (Some modules) globals0 0.

(** The handles of modules 7 and 8. *)
Definition soft_globals : globals :=
  sw_globals (lazy_init_sensors_list (soft_world [7; 8])).2.

Definition soft_event (sequence : Z) : sensors_event_t :=
  Event 104 101 1 sequence 0 0 (replicate 14 0) 0.

Definition soft_buffer (from : Z) : list sensors_event_t :=
  (λ i, soft_event (from + Z.of_nat i)) <$> seq 0 20.

Definition soft_sys0 : system :=
  sys0 (replicate 20 junk_event) [soft_device 7 true; soft_device 8 true].

(** The sensor 1 is active; its module has given 21 events, one of which waits
    for space. *)
Definition soft_run1 : list sys_event :=
  [EvActivated 1 1; EvWriter 0; EvPolled 0 1 (soft_buffer 0); EvWriter 0; EvWriter 0;
   EvPolled 0 20 (soft_buffer 1); EvWriter 0].

(** A flush, the 20 events of the ring, and a [poll] that sleeps. *)
Definition soft_data : list sensors_event_t := replicate 64 event_zero.

Definition soft_run2 : list sys_event :=
  [EvCallPoll soft_data 64; EvCallPoll soft_data 64].

(** [poll] sleeps and nothing has been given. *)
Definition soft_run_idle : list sys_event := [EvActivated 1 1; EvCallPoll soft_data 64].

Definition soft_after (evs : list sys_event) : system :=
  default soft_sys0 (sys_run soft_globals soft_sys0 evs).

(** The events above are ones that can happen. *)
Ltac soft_events_ok :=
  unfold soft_run1, soft_run2, soft_run_idle; cbn [app];
  repeat (apply Forall_cons_2; [vm_compute; done|]); apply Forall_nil_2.

(** A run of the events that leads to the state computed for it. *)
Ltac run_reached := split; [reflexivity|split; [soft_events_ok|vm_compute; reflexivity]].
