(* ===== verification/SensorSysInv.v ===== *)
(** * The invariant of the sensors adapter's threads

    A log explains every state the threads of SensorSystem.v reach: what was
    taken from each queue and which requests were completed.  Each module's
    events are, in order, those in the log, those in its ring and those its
    writer still holds; threads sleep only when there is nothing to do. *)

From S2P Require Import Prelude SensorQueue MultiHal PollFacts SensorSystem.
From stdpp Require Import gmap.

#[global] Open Scope Z_scope.

(** Events [write] has been given and not yet put into the ring. *)
Definition staged (w : writer_at) : list sensors_event_t :=
  match w with WSleep l | WWoken l => l | _ => [] end.

Definition asleep (w : writer_at) : bool :=
  match w with WTopSleep | WSleep _ => true | _ => false end.

(** What [WHave], [WSleep] and [WWoken] hold is a batch of at most 20 events. *)
Definition batch_ok (w : writer_at) : Prop :=
  match w with
  | WHave l | WSleep l | WWoken l => (1 <= length l <= 20)%nat
  | _ => True
  end.

(** Module [i]: its ring, its writer, the events it was given, its counter. *)
Record module_ok (log : list action) (i : nat) (q : SensorEventQueue) (w : writer_at)
    (given : list sensors_event_t) (n : Z) : Prop := {
  mo_cap : mCapacity q = SENSOR_EVENT_QUEUE_CAPACITY;
  mo_pending : mPendingSize q = Z.of_nat (length (staged w));
  mo_batch : batch_ok w;
  mo_asleep : asleep w = true → is_full q = true;
  mo_given : given = took i log ++ contents q ++ staged w;
  mo_consumed : n = advance 0 (took i log)
}.

Definition modules_ok (log : list action) (s : system) : Prop :=
  ∀ i q w given n,
    queues (sy_ctx s) !! i = Some q → sy_writers s !! i = Some w →
    sy_accepted s !! i = Some given → consumed_events (sy_ctx s) !! i = Some n →
    module_ok log i q w given n.

(** Nothing to deliver. *)
Definition quiet (c : sensors_poll_context) : Prop :=
  (∀ i q, queues c !! i = Some q → mSize q = 0) ∧
  (∀ r, r ∈ pending_flushes c → ¬ is_ready (consumed_events c) r).

Definition reader_ok (c : sensors_poll_context) (r : reader_at) : Prop :=
  match r with
  | RIdle => True
  | RSleep d m => queues c ≠ [] ∧ 0 < m <= Z.of_nat (length d) ∧ quiet c
  | RWoken d m => queues c ≠ [] ∧ 0 < m <= Z.of_nat (length d)
  end.

(** A request's barrier is the number of events its module had been given. *)
Definition request_ok (s : system) (r : PendingFlush) : Prop :=
  ∃ given k, 0 <= pf_module_index r ∧
    sy_accepted s !! Z.to_nat (pf_module_index r) = Some given ∧
    (k <= length given)%nat ∧ pf_after_event r = wrap 64 (Z.of_nat k).

Section inv.
  Context `{!SensorsH} (g : globals).

Record sys_inv (s : system) (log : list action) : Prop := {
  si_ctx : ctx_ok (sy_ctx s);
  si_writers : length (sy_writers s) = length (queues (sy_ctx s));
  si_accepted : length (sy_accepted s) = length (queues (sy_ctx s));
  si_range : ∀ i, (length (queues (sy_ctx s)) <= i)%nat → took i log = [];
  si_modules : modules_ok log s;
  si_reader : reader_ok (sy_ctx s) (sy_reader s);
  si_delivered : sy_delivered s = omap (render g) log;
  si_requested : sy_requested s ≡ₚ dones log ++ pending_flushes (sy_ctx s);
  si_requests : ∀ r, r ∈ sy_requested s → request_ok s r;
  si_justified : ∀ l1 r l2, log = l1 ++ Done r :: l2 →
    pf_after_event r <= advance 0 (took (Z.to_nat (pf_module_index r)) l1)
}.

(** The histories only grow. *)
Definition grows (s s' : system) : Prop :=
  (∀ i given, sy_accepted s !! i = Some given →
     ∃ more, sy_accepted s' !! i = Some (given ++ more)) ∧
  (∃ more, sy_requested s' = sy_requested s ++ more) ∧
  (∃ more, sy_delivered s' = sy_delivered s ++ more).

#[export] Instance grows_refl : Reflexive grows.
Proof.
  intros s. split_and!.
  - intros i given Hi. exists []. by rewrite app_nil_r.
  - exists []. by rewrite app_nil_r.
  - exists []. by rewrite app_nil_r.
Qed.

#[export] Instance grows_trans : Transitive grows.
Proof.
  intros s1 s2 s3 (Ha & [r1 Hr1] & [d1 Hd1]) (Hb & [r2 Hr2] & [d2 Hd2]). split_and!.
  - intros i given Hi. destruct (Ha i given Hi) as [m1 Hm1].
    destruct (Hb i _ Hm1) as [m2 Hm2]. exists (m1 ++ m2). by rewrite app_assoc.
  - exists (r1 ++ r2). by rewrite Hr2, Hr1, app_assoc.
  - exists (d1 ++ d2). by rewrite Hd2, Hd1, app_assoc.
Qed.

Lemma request_ok_grows s s' r : grows s s' → request_ok s r → request_ok s' r.
Proof.
  intros [Hg _] (given & k & H1 & H2 & H3 & H4). destruct (Hg _ _ H2) as [more Hm].
  exists (given ++ more), k. rewrite length_app. repeat split; (done || lia).
Qed.

(** ** The initial state *)

Lemma sys0_inv junk devices : length junk = 20%nat → sys_inv (sys0 junk devices) [].
Proof.
  intros Hj. unfold sys0, opened_ctx. generalize (length devices) as n. intros n.
  assert (Hnew : queue_ok (new_SensorEventQueue junk SENSOR_EVENT_QUEUE_CAPACITY))
    by (apply new_queue_ok; unfold SENSOR_EVENT_QUEUE_CAPACITY; lia).
  split; cbn; rewrite ?length_replicate; try done.
  - split; cbn; rewrite ?length_replicate; try done.
    + intros i q [-> _]%lookup_replicate. done.
    + intros i m [-> _]%lookup_replicate. lia.
    + set_solver.
    + destruct n; [done|]. lia.
  - intros i q w given m. cbn.
    intros [-> _]%lookup_replicate [-> _]%lookup_replicate [-> _]%lookup_replicate
      [-> _]%lookup_replicate. by split.
  - set_solver.
  - intros l1 r l2 Heq. by destruct l1.
Qed.

(** ** A step of one writer *)

(** Only module [i] changes, and its ring does not get smaller. *)
Lemma module_step s s' log i q q' w w' given given' n :
  sys_inv s log →
  queues (sy_ctx s) !! i = Some q → sy_writers s !! i = Some w →
  sy_accepted s !! i = Some given → consumed_events (sy_ctx s) !! i = Some n →
  sy_ctx s' = set_queue i q' (sy_ctx s) →
  sy_writers s' = <[i := w']> (sy_writers s) →
  sy_accepted s' = <[i := given']> (sy_accepted s) →
  sy_requested s' = sy_requested s → sy_delivered s' = sy_delivered s →
  queue_ok q' → module_ok log i q' w' given' n → (∃ more, given' = given ++ more) →
  reader_ok (sy_ctx s') (sy_reader s') →
  sys_inv s' log ∧ grows s s'.
Proof.
  intros [] Hq Hw Hg Hn Hc' Hw' Hg' Hr' Hd' Hok Hmod [more ->] Hrd.
  assert (Hgrows : grows s s').
  { unfold grows. rewrite Hr', Hd', Hg'. split_and!.
    - intros j gj Hj. destruct (decide (i = j)) as [->|].
      + rewrite list_lookup_insert_eq; [|by eapply lookup_lt_Some]. simplify_eq. eauto.
      + exists []. rewrite list_lookup_insert_ne, app_nil_r; done.
    - exists []. by rewrite app_nil_r.
    - exists []. by rewrite app_nil_r. }
  split; [|done]. split; rewrite ?Hw', ?Hg', ?Hr', ?Hd'; try done.
  - rewrite Hc'. destruct si_ctx0. split; cbn; rewrite ?length_insert; try done.
    + intros j qj. rewrite list_lookup_insert_Some. intros [(? & <- & ?)|[? ?]]; [done|eauto].
    + intros Hne. apply ck_next_lt. intros Hnil. apply Hne. by rewrite Hnil.
  - rewrite Hc'. cbn. by rewrite !length_insert.
  - rewrite Hc'. cbn. by rewrite !length_insert.
  - rewrite Hc'. cbn. by rewrite length_insert.
  - intros j qj wj gj nj. rewrite Hc', Hw', Hg'. cbn.
    destruct (decide (i = j)) as [->|].
    + rewrite !list_lookup_insert_eq by (by eapply lookup_lt_Some).
      intros. by simplify_eq.
    + rewrite !list_lookup_insert_ne by done. apply si_modules0.
  - by rewrite Hc'.
  - intros r Hr. eapply request_ok_grows; eauto.
Qed.

Lemma insert_ne_nil {A} (l : list A) i x : l ≠ [] → <[i := x]> l ≠ [].
Proof. intros Hl Hnil. apply (f_equal length) in Hnil. rewrite length_insert in Hnil. by destruct l. Qed.

(** The reader after a change of ring [i]: woken, or the ring's size is the same. *)
Lemma reader_ok_queue c r i q q' :
  reader_ok c r → queues c !! i = Some q →
  reader_ok (set_queue i q' c) (wake_reader r) ∧
  (mSize q' = mSize q → reader_ok (set_queue i q' c) r).
Proof.
  intros Hr Hi. destruct r as [|d m|d m]; cbn in Hr |- *; [done| |].
  - destruct Hr as (Hne & Hm & Hq & Hf). pose proof (insert_ne_nil (queues c) i q' Hne).
    split; [done|]. intros Hsz. split; [done|]. split; [done|]. split; [|done].
    intros j qj. cbn. rewrite list_lookup_insert_Some. intros [(? & <- & ?)|[? ?]]; [|eauto].
    rewrite Hsz. eauto.
  - destruct Hr as [Hne Hm]. pose proof (insert_ne_nil (queues c) i q' Hne). done.
Qed.

(** The writer's side of [write]: from [q] with pending size set, of [events]. *)
Lemma after_write_inv s log i q w given n events r more :
  sys_inv s log →
  queues (sy_ctx s) !! i = Some q → sy_writers s !! i = Some w →
  sy_accepted s !! i = Some given → consumed_events (sy_ctx s) !! i = Some n →
  module_ok log i q w given n → (length events <= 20)%nat →
  write_post (set_pending (Z.of_nat (length events)) q) events false r →
  given ++ more = took i log ++ contents q ++ events →
  let s' := after_write i r (accept i more s) in
  sys_inv s' log ∧ grows s s'.
Proof.
  intros Hinv Hq Hw Hg Hn Hmod Hev Hpost Hall s'. pose proof Hpost as [].
  assert (Halter : alter (.++ more) i (sy_accepted s) = <[i := given ++ more]> (sy_accepted s)).
  { apply list_eq. intros j. destruct (decide (i = j)) as [->|].
    - rewrite list_lookup_alter_eq, Hg, list_lookup_insert_eq; [done|by eapply lookup_lt_Some].
    - by rewrite list_lookup_alter_ne, list_lookup_insert_ne. }
  eapply (module_step s s' log i q (wr_queue r) w _ given (given ++ more) n);
    cbn; try done; [|by eauto|].
  - assert (Hlen : (length (default [] (wr_left r)) <= 20)%nat).
    { pose proof (f_equal length wp_all) as Hl. rewrite !length_app in Hl.
      destruct (wr_left r) as [l|] eqn:Hwl; cbn in *; [|lia].
      destruct (wp_left l) as [_ Hf]; [done|]. unfold is_full in Hf.
      apply bool_decide_eq_true in Hf. rewrite contents_length in Hl by done.
      pose proof (qk_size _ (ck_queues _ (si_ctx _ _ Hinv) _ _ Hq)) as Hsz.
      change (contents (set_pending _ q)) with (contents q) in Hl.
      rewrite contents_length in Hl by (by eapply ck_queues; [apply Hinv|]).
      cbn in wp_cap. lia. }
    split.
    + rewrite wp_cap. apply Hmod.
    + rewrite wp_pending. by destruct (wr_left r).
    + destruct (wr_left r) as [l|] eqn:Hwl; [|done]. cbn in *.
      destruct (wp_left l) as [Hne _]; [done|]. destruct l; [done|]. cbn in *. lia.
    + destruct (wr_left r) as [l|] eqn:Hwl; [|done]. intros _. by apply (wp_left l).
    + rewrite Hall. f_equal. change (contents (set_pending _ q)) with (contents q) in wp_all.
      rewrite <- wp_all. by destruct (wr_left r).
    + apply Hmod.
  - destruct (reader_ok_queue _ _ i q (wr_queue r) (si_reader _ _ Hinv) Hq) as [Hwake Hsame].
    destruct wp_signal as [->|[Hs Hqe]]; [done|].
    destruct (wr_signal r); [done|]. apply Hsame. by rewrite Hqe.
Qed.

Lemma module_lookups s log i w :
  sys_inv s log → sy_writers s !! i = Some w →
  ∃ q given n, queues (sy_ctx s) !! i = Some q ∧ sy_accepted s !! i = Some given ∧
    consumed_events (sy_ctx s) !! i = Some n ∧ queue_ok q ∧ module_ok log i q w given n.
Proof.
  intros Hinv Hw. pose proof (lookup_lt_Some _ _ _ Hw) as Hlt. pose proof Hinv as [].
  destruct (lookup_lt_is_Some_2 (queues (sy_ctx s)) i) as [q Hq]; [lia|].
  destruct (lookup_lt_is_Some_2 (sy_accepted s) i) as [given Hg]; [lia|].
  destruct (lookup_lt_is_Some_2 (consumed_events (sy_ctx s)) i) as [n Hn];
    [rewrite (ck_len _ si_ctx0); lia|].
  exists q, given, n. split_and!; try done; [by eapply ck_queues|by eapply si_modules0].
Qed.

(** A step that only moves a writer. *)
Lemma set_writer_inv s log i w w' :
  sys_inv s log → sy_writers s !! i = Some w →
  staged w' = staged w → batch_ok w' →
  (∀ q, queues (sy_ctx s) !! i = Some q → asleep w' = true → is_full q = true) →
  sys_inv (set_writer i w' s) log ∧ grows s (set_writer i w' s).
Proof.
  intros Hinv Hw Hst Hb Has.
  destruct (module_lookups s log i w Hinv Hw) as (q & given & n & Hq & Hg & Hn & Hqok & []).
  eapply (module_step s _ log i q q w w' given given n); cbn; try done.
  - destruct (sy_ctx s). unfold set_queue. cbn in *. by rewrite list_insert_id.
  - by rewrite list_insert_id.
  - split; rewrite ?Hst; try done. by apply Has.
  - exists []. by rewrite app_nil_r.
  - apply Hinv.
Qed.

Lemma writer_step_inv s log i :
  sys_inv s log → ∃ s', writer_step i s = Some s' ∧ sys_inv s' log ∧ grows s s'.
Proof.
  intros Hinv. unfold writer_step. destruct (sy_writers s !! i) as [w|] eqn:Hw; [|by eauto using grows_refl].
  destruct (module_lookups s log i w Hinv Hw) as (q & given & n & Hq & Hg & Hn & Hqok & Hmod).
  rewrite Hq. pose proof Hmod as [].
  destruct w as [| | |events|l|l]; try (eexists; split; [done|]; split; [done|reflexivity]).
  - eexists. split; [done|]. eapply set_writer_inv; try done; destruct (is_full q) eqn:Hf; try done.
    intros q'. by rewrite Hq; intros [= <-].
  - cbn in mo_batch0. destruct (write_begin_spec q events) as (r & -> & Hp); [done|lia|].
    cbn. eexists. split; [done|].
    eapply (after_write_inv s log i q _ given n events r events); try done; [lia|].
    rewrite mo_given0. cbn. by rewrite app_nil_r, <- app_assoc.
  - cbn in mo_batch0, mo_pending0.
    destruct (write_resume_spec q l) as (r & -> & Hp); [done|done|lia|].
    cbn. eexists. split; [done|].
    assert (Hsame : accept i [] s = s).
    { unfold accept. destruct s as [c ws rd acc rq dl]. f_equal. cbn in *.
      apply list_eq. intros j. destruct (decide (i = j)) as [->|].
      - rewrite list_lookup_alter_eq, Hg. cbn. by rewrite app_nil_r.
      - by rewrite list_lookup_alter_ne. }
    rewrite <- Hsame at 1 3.
    eapply (after_write_inv s log i q _ given n l r []); try done; [lia| |].
    + rewrite <- mo_pending0. by destruct q.
    + by rewrite app_nil_r.
Qed.


(** ** A section of [poll] *)

Lemma elem_of_dones r log : r ∈ dones log → ∃ l1 l2, log = l1 ++ Done r :: l2.
Proof.
  induction log as [|[i e|r'] log IH]; cbn; [set_solver| |].
  - intros Hr. destruct (IH Hr) as (l1 & l2 & ->). by exists (Took i e :: l1), l2.
  - intros [->|Hr]%elem_of_cons; [by exists [], log|].
    destruct (IH Hr) as (l1 & l2 & ->). by exists (Done r' :: l1), l2.
Qed.

Lemma elem_of_dones_app r l1 l2 : r ∈ dones (l1 ++ Done r :: l2).
Proof. rewrite dones_app. set_solver. Qed.

(** The counter of a module is the length of what was taken from it. *)
Lemma counter_is_taken s log i n :
  sys_inv s log → consumed_events (sy_ctx s) !! i = Some n → n = advance 0 (took i log).
Proof.
  intros Hinv Hn. pose proof Hinv as []. pose proof (lookup_lt_Some _ _ _ Hn) as Hlt.
  rewrite (ck_len _ si_ctx0), <- si_writers0 in Hlt.
  destruct (lookup_lt_is_Some_2 (sy_writers s) i Hlt) as [w Hw].
  destruct (module_lookups s log i w Hinv Hw) as (q & given & n' & _ & _ & Hn' & _ & []).
  by simplify_eq.
Qed.

Lemma staged_wake w : staged (wake_writer w) = staged w.
Proof. by destruct w. Qed.

Lemma asleep_wake w : asleep (wake_writer w) = false.
Proof. by destruct w. Qed.

Lemma batch_ok_wake w : batch_ok w → batch_ok (wake_writer w).
Proof. by destruct w. Qed.

Lemma section_modules s log ext c' freed maxReads data r :
  sys_inv s log → section_post g (sy_ctx s) data maxReads ext r →
  c' = pr_ctx r → freed = pr_freed r →
  ∀ i q w given n,
    queues c' !! i = Some q → wake_writers freed (sy_writers s) !! i = Some w →
    sy_accepted s !! i = Some given → consumed_events c' !! i = Some n →
    module_ok (log ++ ext) i q w given n.
Proof.
  intros Hinv [] -> -> i q w given n Hq Hw Hg Hn.
  unfold wake_writers in Hw. rewrite list_lookup_imap in Hw.
  destruct (sy_writers s !! i) as [w0|] eqn:Hw0; [|done]. cbn in Hw. injection Hw as <-.
  destruct (module_lookups s log i w0 Hinv Hw0) as (q0 & given0 & n0 & Hq0 & Hg0 & Hn0 & _ & []).
  simplify_eq. destruct sp_explains.
  destruct (ex_queue i q0 Hq0) as (q' & Hq' & Hcap & Hpen & Hcon). simplify_eq.
  rewrite (ex_consumed i _ Hn0) in Hn. injection Hn as <-.
  assert (Hst : staged (if decide (i ∈ pr_freed r) then wake_writer w0 else w0) = staged w0)
    by (destruct (decide (i ∈ pr_freed r)); [apply staged_wake|done]).
  split.
  - congruence.
  - rewrite Hst. congruence.
  - destruct (decide (i ∈ pr_freed r)); [by apply batch_ok_wake|done].
  - destruct (decide (i ∈ pr_freed r)) as [Hi|Hi]; [by rewrite asleep_wake|]. intros Has.
    destruct (sp_freed i q0 q Hq0 Hq) as [|]; [by apply mo_asleep0|done|done].
  - by rewrite Hst, Hcon, took_app, <- !app_assoc.
  - by rewrite took_app, advance_app.
Qed.

Lemma section_justified s log ext c' :
  sys_inv s log → explains (sy_ctx s) ext c' →
  ∀ l1 r l2, log ++ ext = l1 ++ Done r :: l2 →
    pf_after_event r <= advance 0 (took (Z.to_nat (pf_module_index r)) l1).
Proof.
  intros Hinv [] l1 r l2 Heq. pose proof Hinv as [].
  apply app_eq_inv in Heq as [(k & -> & Hk)|(k & -> & Hk)].
  - destruct k as [|x k]; cbn in Hk; [|injection Hk as <- ->; by eapply si_justified0].
    assert (Hin : r ∈ pending_flushes (sy_ctx s)).
    { rewrite ex_flushes, <- Hk. set_solver. }
    apply (ck_flushes _ si_ctx0) in Hin.
    destruct (lookup_lt_is_Some_2 (consumed_events (sy_ctx s)) (Z.to_nat (pf_module_index r)))
      as [n Hn]; [rewrite (ck_len _ si_ctx0); lia|].
    rewrite app_nil_r in *. pose proof (ex_justified [] r l2 n (eq_sym Hk) Hn) as Hle.
    rewrite (counter_is_taken _ _ _ _ Hinv Hn), advance_app, app_nil_r in Hle. done.
  - assert (Hin : r ∈ pending_flushes (sy_ctx s)).
    { rewrite ex_flushes, Hk. rewrite dones_app. set_solver. }
    apply (ck_flushes _ si_ctx0) in Hin.
    destruct (lookup_lt_is_Some_2 (consumed_events (sy_ctx s)) (Z.to_nat (pf_module_index r)))
      as [n Hn]; [rewrite (ck_len _ si_ctx0); lia|].
    pose proof (ex_justified k r l2 n Hk Hn) as Hle.
    rewrite (counter_is_taken _ _ _ _ Hinv Hn), advance_app in Hle. by rewrite took_app.
Qed.

Lemma reader_section_inv s log d m :
  sys_inv s log → queues (sy_ctx s) ≠ [] → 0 < m <= Z.of_nat (length d) →
  ∃ s' ext, reader_section g d m s = Some s' ∧ sys_inv s' (log ++ ext) ∧ grows s s'.
Proof.
  intros Hinv Hne Hm. unfold reader_section.
  destruct (poll_section_spec g (sy_ctx s) d m (si_ctx _ _ Hinv) Hne Hm) as (r & ext & -> & Hp).
  cbn. eexists _, ext. split; [done|]. pose proof Hp as []. pose proof Hinv as [].
  assert (Hgrows : grows s (after_section r m s)).
  { split_and!; cbn; [|exists []; by rewrite app_nil_r|eauto].
    intros i given Hi. exists []. by rewrite app_nil_r. }
  split; [|done]. pose proof (ex_len _ _ _ sp_explains) as Hl. split; cbn.
  - done.
  - unfold wake_writers. by rewrite length_imap, Hl.
  - by rewrite Hl.
  - intros i Hi. rewrite Hl in Hi. rewrite took_app, si_range0, (ex_range _ _ _ sp_explains) by done.
    done.
  - intros i q w given n. cbn. by eapply section_modules.
  - case_bool_decide as Hz; [|done]. split; [|split; [lia|by apply sp_wait]].
    intros Hnil. rewrite Hnil in Hl. by destruct (queues (sy_ctx s)).
  - by rewrite si_delivered0, sp_data, omap_app.
  - rewrite si_requested0, (ex_flushes _ _ _ sp_explains), dones_app. by rewrite app_assoc.
  - intros f Hf. eapply request_ok_grows; eauto.
  - by eapply section_justified.
Qed.


(** ** [flush] *)

(** The context of a call of [flush] or [activate]: only these fields change. *)
Definition with_requests (l : list PendingFlush) (a : gmap Z bool) (c : sensors_poll_context) :
    sensors_poll_context :=
  Ctx (sub_hw_devices c) (queues c) (consumed_events c) l a (nextReadIndex c) (waiting_for_data c).

Lemma pending_size_is_given s log i w q given n :
  sys_inv s log → sy_writers s !! i = Some w → queues (sy_ctx s) !! i = Some q →
  sy_accepted s !! i = Some given → consumed_events (sy_ctx s) !! i = Some n →
  wrap 64 (n + wrap 64 (getPendingSize q)) = wrap 64 (Z.of_nat (length given)).
Proof.
  intros Hinv Hw Hq Hg Hn.
  destruct (module_lookups s log i w Hinv Hw) as (q' & g' & n' & Hq' & Hg' & Hn' & Hqok & []).
  simplify_eq. pose proof (contents_length _ Hqok) as Hl. destruct Hqok.
  assert (Hst : (length (staged w) <= 20)%nat) by (destruct w; cbn in *; lia).
  rewrite !length_app, Hl. unfold getPendingSize, advance.
  rewrite s32_small by (unfold is_s32; lia).
  unfold wrap. rewrite <- Zplus_mod, Z.add_0_l. f_equal. lia.
Qed.

Lemma flush_spec s log h :
  sys_inv s log →
  (∃ a, flush g (sy_ctx s) h = Some (- EINVAL, false, with_requests (pending_flushes (sy_ctx s)) a (sy_ctx s))) ∨
  (∃ r a, flush g (sy_ctx s) h =
      Some (0, true, with_requests (pending_flushes (sy_ctx s) ++ [r]) a (sy_ctx s)) ∧
    pf_handle r = h ∧ pf_module_index r = get_module_index g h ∧
    pf_module_index r < Z.of_nat (length (queues (sy_ctx s))) ∧
    ∃ given, 0 <= pf_module_index r ∧
      sy_accepted s !! Z.to_nat (pf_module_index r) = Some given ∧
      pf_after_event r = wrap 64 (Z.of_nat (length given))).
Proof.
  intros Hinv. assert (Hsame : sy_ctx s =
    with_requests (pending_flushes (sy_ctx s)) (active_sensors (sy_ctx s)) (sy_ctx s))
    by (by destruct (sy_ctx s)).
  unfold flush. destruct (sensor_by_handle g h) as [sn|]; [|left; eexists; by rewrite <- Hsame].
  set (m := get_module_index g h).
  destruct (bool_decide (m < 0)) eqn:H1; [left; eexists; by rewrite <- Hsame|].
  destruct (bool_decide (Z.of_nat (length (queues (sy_ctx s))) <= m)) eqn:H2;
    [left; eexists; by rewrite <- Hsame|].
  destruct (is_one_shot sn); [left; eexists; by rewrite <- Hsame|]. cbn [orb].
  apply bool_decide_eq_false in H1, H2.
  destruct (default false (active_sensors (sy_ctx s) !! h)); cbn [negb]; [|left; by eexists].
  destruct (lookup_lt_is_Some_2 (sy_writers s) (Z.to_nat m)) as [w Hw];
    [rewrite (si_writers _ _ Hinv); lia|].
  destruct (module_lookups s log _ w Hinv Hw) as (q & given & n & Hq & Hg & Hn & _ & _).
  right. unfold elem. rewrite !bool_decide_true by lia. rewrite Hn, Hq. cbn.
  eexists _, _. split; [done|]. cbn. split; [done|]. split; [done|]. split; [lia|].
  exists given. split; [lia|]. split; [done|]. by eapply pending_size_is_given.
Qed.

Lemma with_requests_ctx_ok l a c :
  ctx_ok c → (∀ r, r ∈ l → 0 <= pf_module_index r < Z.of_nat (length (queues c))) →
  ctx_ok (with_requests l a c).
Proof. intros [] ?. by split. Qed.

(** A call that adds the requests [new], each with its barrier. *)
Lemma request_inv s log new a rd :
  sys_inv s log →
  (∀ r, r ∈ new → pf_module_index r < Z.of_nat (length (queues (sy_ctx s))) ∧ request_ok s r) →
  reader_ok (with_requests (pending_flushes (sy_ctx s) ++ new) a (sy_ctx s)) rd →
  let s' := System (with_requests (pending_flushes (sy_ctx s) ++ new) a (sy_ctx s))
              (sy_writers s) rd (sy_accepted s) (sy_requested s ++ new) (sy_delivered s) in
  sys_inv s' log ∧ grows s s'.
Proof.
  intros [] Hnew Hrd s'.
  assert (Hgrows : grows s s').
  { split_and!; cbn; [intros i given Hi; exists []; by rewrite app_nil_r|eauto|].
    exists []. by rewrite app_nil_r. }
  split; [|done]. split; cbn; try done.
  - apply with_requests_ctx_ok; [done|]. intros r [Hr|Hr]%elem_of_app.
    + by apply ck_flushes.
    + destruct (Hnew r Hr) as [? (? & ? & ? & _)]. done.
  - by rewrite si_requested0, app_assoc.
  - intros r [Hr|Hr]%elem_of_app; eapply request_ok_grows; eauto. by apply Hnew.
Qed.

(** A call that adds none. *)
Lemma no_request_inv s log a rd :
  sys_inv s log → reader_ok (with_requests (pending_flushes (sy_ctx s)) a (sy_ctx s)) rd →
  let s' := System (with_requests (pending_flushes (sy_ctx s)) a (sy_ctx s))
              (sy_writers s) rd (sy_accepted s) (sy_requested s) (sy_delivered s) in
  sys_inv s' log ∧ grows s s'.
Proof.
  intros Hinv Hrd. pose proof (request_inv s log [] a rd Hinv) as Hi. cbn in Hi.
  rewrite (app_nil_r (pending_flushes _)), (app_nil_r (sy_requested _)) in Hi.
  apply Hi; [set_solver|done].
Qed.

Lemma flush_step_inv s log h :
  sys_inv s log → ∃ s', flush_step g h s = Some s' ∧ sys_inv s' log ∧ grows s s'.
Proof.
  intros Hinv. unfold flush_step.
  destruct (flush_spec s log h Hinv) as [[a ->]|(r & a & -> & Hh & _ & Hm & given & H0 & Hg & Ha)]; cbn.
  - rewrite drop_all. eexists. split; [done|].
    rewrite app_nil_r. apply no_request_inv; [done|]. pose proof (si_reader _ _ Hinv) as Hr. by destruct (sy_reader s).
  - rewrite drop_app_length. eexists. split; [done|].
    apply request_inv; [done| |].
    + intros r' [-> |]%elem_of_cons; [|set_solver]. split; [done|].
      exists given, (length given). done.
    + pose proof (si_reader _ _ Hinv) as Hr. destruct (sy_reader s) as [|d m|d m]; cbn in Hr |- *;
      repeat split; try apply Hr; done.
Qed.

(** ** Every step *)

Lemma set_active_inv s log h b :
  sys_inv s log →
  let s' := System (set_active h b (sy_ctx s)) (sy_writers s) (sy_reader s) (sy_accepted s)
              (sy_requested s) (sy_delivered s) in
  sys_inv s' log ∧ grows s s'.
Proof.
  intros Hinv. apply (no_request_inv s log (<[h := b]> (active_sensors (sy_ctx s)))); [done|].
  pose proof (si_reader _ _ Hinv) as Hr. by destruct (sy_reader s).
Qed.

Lemma after_poll_ok n buffer :
  length buffer = 20%nat →
  staged (after_poll n buffer) = [] ∧ batch_ok (after_poll n buffer) ∧
  asleep (after_poll n buffer) = false.
Proof.
  intros Hb. unfold after_poll. case_bool_decide; [done|]. case_bool_decide; [done|].
  split_and!; try done. cbn. unfold SENSOR_EVENT_QUEUE_CAPACITY in *.
  rewrite length_take. lia.
Qed.

Lemma sys_step_inv s log ev :
  sys_inv s log → event_ok ev →
  ∃ s' ext, sys_step g s ev = Some s' ∧ sys_inv s' (log ++ ext) ∧ grows s s'.
Proof.
  intros Hinv Hev.
  assert (Hno : ∀ s', sys_inv s' log ∧ grows s s' →
    ∃ s'' ext, Some s' = Some s'' ∧ sys_inv s'' (log ++ ext) ∧ grows s s'').
  { intros s' [? ?]. exists s', []. by rewrite app_nil_r. }
  assert (Hid : ∃ s'' ext, Some s = Some s'' ∧ sys_inv s'' (log ++ ext) ∧ grows s s'')
    by (apply Hno; split; [done|reflexivity]).
  destruct ev as [i|i n buffer|i|d m| | |h|h e]; cbn [event_ok sys_step] in Hev |- *.
  - destruct (writer_step_inv s log i Hinv) as (s' & -> & ?). by apply Hno.
  - destruct (sy_writers s !! i) as [[]|] eqn:Hw; try exact Hid. apply Hno.
    destruct (after_poll_ok n buffer Hev) as (Hst & Hb & Has).
    eapply set_writer_inv; try done. by rewrite Has.
  - destruct (sy_writers s !! i) as [w|] eqn:Hw; [|exact Hid]. apply Hno.
    destruct (module_lookups s log i w Hinv Hw) as (q & ? & ? & _ & _ & _ & _ & []).
    eapply set_writer_inv; try done;
      [apply staged_wake|by apply batch_ok_wake|by rewrite asleep_wake].
  - destruct (sy_reader s); try exact Hid.
    destruct (poll_refuses (sy_ctx s) (Some d) m) eqn:Href; [exact Hid|].
    unfold poll_refuses in Href. apply orb_false_iff in Href as [Href Hq%bool_decide_eq_false].
    apply orb_false_iff in Href as [_ Hm%bool_decide_eq_false].
    destruct (reader_section_inv s log d m Hinv Hq) as (s' & ext & -> & ?); [lia|eauto].
  - pose proof (si_reader _ _ Hinv) as Hr. destruct (sy_reader s) as [|d m|d m]; try exact Hid.
    destruct Hr as [Hq Hm].
    destruct (reader_section_inv s log d m Hinv Hq Hm) as (s' & ext & -> & ?); eauto.
  - apply Hno. pose proof (no_request_inv s log (active_sensors (sy_ctx s))
      (wake_reader (sy_reader s)) Hinv) as Hi.
    assert (Hsame : with_requests (pending_flushes (sy_ctx s)) (active_sensors (sy_ctx s)) (sy_ctx s)
      = sy_ctx s) by (by destruct (sy_ctx s)). rewrite Hsame in Hi.
    apply Hi. pose proof (si_reader _ _ Hinv) as Hr.
    destruct (sy_reader s); cbn in *; tauto.
  - destruct (flush_step_inv s log h Hinv) as (s' & -> & ?). by apply Hno.
  - apply Hno. by apply set_active_inv.
Qed.

Lemma sys_run_inv s log evs :
  sys_inv s log → Forall event_ok evs →
  ∃ s' ext, sys_run g s evs = Some s' ∧ sys_inv s' (log ++ ext) ∧ grows s s'.
Proof.
  revert s log. induction evs as [|ev evs IH]; intros s log Hinv Hev; cbn.
  - exists s, []. rewrite app_nil_r. split_and!; done || reflexivity.
  - inversion_clear Hev.
    destruct (sys_step_inv s log ev) as (s1 & ext1 & -> & Hinv1 & Hg1); [done..|]. cbn.
    destruct (IH s1 (log ++ ext1)) as (s2 & ext2 & -> & Hinv2 & Hg2); [done..|].
    exists s2, (ext1 ++ ext2). rewrite app_assoc. split_and!; try done. by etransitivity.
Qed.

End inv.
