(* ===== verification/SensorSpec.v ===== *)
(** * What the sensors adapter promises

    The theorems on the threads of SensorSystem.v: events of a module are
    delivered once and in order, a flush is completed after the events before
    it, and no wake-up is lost.  From a state in which [poll] sleeps a flush of a
    module that has given everything is answered at once, and while one is
    pending the module's writer is awake and its next step leads to events being
    taken. *)

From S2P Require Import Prelude SensorQueue MultiHal PollFacts SensorSystem MultiHalDev SoftSensors.
From S2P Require Import SensorSysInv.
From stdpp Require Import gmap.

#[global] Open Scope Z_scope.

(** Fewer than 2^64 events of each module: no counter has wrapped. *)
Definition uncounted (s : system) : Prop :=
  ∀ i given, sy_accepted s !! i = Some given → Z.of_nat (length given) < 2 ^ 64.

(** A sufficient condition that can be computed. *)
Lemma few_uncounted s :
  forallb (λ l, Nat.leb (length l) 100) (sy_accepted s) = true → uncounted s.
Proof.
  rewrite forallb_forall. intros Hl i given Hg.
  assert (Hin : In given (sy_accepted s)) by (apply list_elem_of_In; by eapply list_elem_of_lookup_2).
  apply Hl, Nat.leb_le in Hin. lia.
Qed.

Section spec.
  Context `{!SensorsH} (g : globals).

(** [s] is reached by the events [evs] from the adapter just opened. *)
Definition reached (junk : list sensors_event_t) (devices : list sub_device) (evs : list sys_event) (s : system) :
    Prop :=
  length junk = 20%nat ∧ Forall event_ok evs ∧ sys_run g (sys0 junk devices) evs = Some s.

Lemma reached_inv junk devices evs s : reached junk devices evs s → ∃ log, sys_inv g s log.
Proof.
  intros (Hj & Hev & Hrun).
  destruct (sys_run_inv g _ [] evs (sys0_inv g junk devices Hj) Hev) as (s' & ext & Hs' & Hinv & _).
  simplify_eq. eauto.
Qed.

Lemma sys_run_app s evs1 evs2 :
  sys_run g s (evs1 ++ evs2) = s' ← sys_run g s evs1; sys_run g s' evs2.
Proof.
  revert s. induction evs1 as [|ev evs1 IH]; intros s; cbn; [done|].
  destruct (sys_step g s ev); cbn; [apply IH|done].
Qed.

Lemma wrap_small n : 0 <= n < 2 ^ 64 → wrap 64 n = n.
Proof. intros. by apply Z.mod_small. Qed.

(** What was taken from a module is at most what it gave. *)
Lemma taken_bound s log i given :
  sys_inv g s log → sy_accepted s !! i = Some given →
  ∃ q w, queues (sy_ctx s) !! i = Some q ∧ sy_writers s !! i = Some w ∧
    given = took i log ++ contents q ++ staged w.
Proof.
  intros Hinv Hg. pose proof (lookup_lt_Some _ _ _ Hg) as Hlt.
  rewrite (si_accepted _ _ _ Hinv), <- (si_writers _ _ _ Hinv) in Hlt.
  destruct (lookup_lt_is_Some_2 _ _ Hlt) as [w Hw].
  destruct (module_lookups g s log i w Hinv Hw) as (q & g' & n & Hq & Hg' & _ & _ & []).
  simplify_eq. eauto 10.
Qed.

(** C31: In every run of the threads nothing undefined happens, and a log
    explains the state: [poll] has returned what the log shows, each module's
    events are, in order and each once, those in the log, in its ring and with
    its writer, and the requests are those completed and those pending. *)
Theorem sensor_events_once_in_order junk devices evs :
  length junk = 20%nat → Forall event_ok evs →
  ∃ s log, sys_run g (sys0 junk devices) evs = Some s ∧
    sy_delivered s = omap (render g) log ∧
    sy_requested s ≡ₚ dones log ++ pending_flushes (sy_ctx s) ∧
    (∀ i, sy_accepted s !! i = None → took i log = []) ∧
    ∀ i given, sy_accepted s !! i = Some given →
      ∃ q w, queues (sy_ctx s) !! i = Some q ∧ sy_writers s !! i = Some w ∧
        given = took i log ++ contents q ++ staged w.
Proof.
  intros Hj Hev.
  destruct (sys_run_inv g _ [] evs (sys0_inv g junk devices Hj) Hev) as (s & log & Hrun & Hinv & _).
  exists s, log. split; [done|]. split; [apply Hinv|]. split; [apply Hinv|]. split.
  - intros i Hi%lookup_ge_None. apply (si_range _ _ _ Hinv).
    by rewrite <- (si_accepted _ _ _ Hinv).
  - intros i given Hg. by eapply taken_bound.
Qed.

(** A completion in the log comes after the events its module had given. *)
Lemma done_after_given s log l1 r l2 given1 s1 log1 :
  sys_inv g s log → sys_inv g s1 log1 → grows s1 s → uncounted s →
  log = l1 ++ Done r :: l2 →
  sy_accepted s1 !! Z.to_nat (pf_module_index r) = Some given1 →
  pf_after_event r = wrap 64 (Z.of_nat (length given1)) →
  given1 `prefix_of` took (Z.to_nat (pf_module_index r)) l1.
Proof.
  intros Hinv Hinv1 (Hgr & _) Hb -> Hg1 Ha. set (i := Z.to_nat (pf_module_index r)) in *.
  destruct (Hgr i given1 Hg1) as [more Hg].
  destruct (taken_bound _ _ i _ Hinv Hg) as (q & w & _ & _ & Hall).
  pose proof (Hb i _ Hg) as Hlt. rewrite length_app in Hlt.
  pose proof (si_justified _ _ _ Hinv l1 r l2 eq_refl) as Hle. fold i in Hle.
  assert (Hl1 : (length (took i l1) <= length (given1 ++ more))%nat).
  { rewrite Hall, took_app, !length_app. lia. }
  rewrite length_app in Hl1.
  rewrite Ha, wrap_small in Hle by lia. unfold advance in Hle.
  rewrite wrap_small in Hle by lia.
  rewrite took_app, <- !app_assoc in Hall.
  apply app_eq_inv in Hall as [(k & -> & _)|(k & Ht & _)].
  - rewrite length_app in Hle. destruct k; [by rewrite app_nil_r|cbn in Hle; lia].
  - exists k. done.
Qed.

(** C32: A completed flush comes after every event its module had written, or
    begun to write, to the ring when the flush was called, also those that then
    still waited for space; events that the module has polled and not yet handed
    to [write] are not among them. *)
Theorem flush_after_events junk devices evs1 evs2 h c1 s1 s2 :
  reached junk devices evs1 s1 → flush g (sy_ctx s1) h = Some (0, true, c1) →
  reached junk devices (evs1 ++ EvFlush h :: evs2) s2 → uncounted s2 →
  ∃ r given log,
    pending_flushes c1 = pending_flushes (sy_ctx s1) ++ [r] ∧ pf_handle r = h ∧
    sy_accepted s1 !! Z.to_nat (pf_module_index r) = Some given ∧
    sy_delivered s2 = omap (render g) log ∧
    (∃ rest, dones log ++ pending_flushes (sy_ctx s2) ≡ₚ r :: rest) ∧
    ∀ l1 l2, log = l1 ++ Done r :: l2 →
      given `prefix_of` took (Z.to_nat (pf_module_index r)) l1.
Proof.
  intros H1 Hf H2 Hb. destruct (reached_inv _ _ _ _ H1) as [log1 Hinv1].
  destruct (flush_spec g s1 log1 h Hinv1) as [[a Ha]|(r & a & Hr & Hh & _ & _ & given & _ & Hg & Haft)];
    [congruence|].
  rewrite Hf in Hr. injection Hr as ->.
  destruct H1 as (Hj & Hev1 & Hrun1). destruct H2 as (_ & Hev2 & Hrun2).
  rewrite sys_run_app, Hrun1 in Hrun2. cbn in Hrun2. unfold flush_step in Hrun2.
  rewrite Hf in Hrun2. cbn in Hrun2. rewrite drop_app_length in Hrun2.
  apply Forall_app in Hev2 as [_ Hev2]. inversion_clear Hev2 as [|?? _ Hev3].
  destruct (sys_step_inv g s1 log1 (EvFlush h) Hinv1 I) as (s1' & e1 & Hs1' & Hinv1' & Hg1).
  cbn in Hs1'. unfold flush_step in Hs1'. rewrite Hf in Hs1'. cbn in Hs1'.
  rewrite drop_app_length in Hs1'. injection Hs1' as Hs1'.
  destruct (sys_run_inv g _ _ evs2 Hinv1' Hev3) as (s2' & e2 & Hrun2' & Hinv2 & Hg2).
  rewrite <- Hs1' in Hrun2'. rewrite Hrun2 in Hrun2'. injection Hrun2' as <-.
  exists r, given, ((log1 ++ e1) ++ e2). split; [done|]. split; [done|]. split; [done|].
  split; [apply Hinv2|]. split.
  - destruct Hg2 as (_ & [more Hm] & _). exists (sy_requested s1 ++ more).
    etransitivity; [symmetry; apply (si_requested _ _ _ Hinv2)|].
    rewrite Hm, <- Hs1'. cbn. rewrite <- app_assoc. cbn. symmetry. apply Permutation_middle.
  - intros l1 l2 Heq. eapply (done_after_given s2 _ l1 r l2 given s1 log1); try done.
    by etransitivity.
Qed.

(** C33: A thread sleeps only while it has nothing to do: a writer while its
    ring is full, which excludes that [poll] sleeps too, and [poll] while every
    ring is empty and no request can be completed. *)
Theorem no_wakeup_is_lost junk devices evs s :
  reached junk devices evs s →
  (∀ i w q, sy_writers s !! i = Some w → queues (sy_ctx s) !! i = Some q → asleep w = true →
     is_full q = true ∧ ∀ d m, sy_reader s ≠ RSleep d m) ∧
  (∀ d m, sy_reader s = RSleep d m → quiet (sy_ctx s)).
Proof.
  intros Hr. destruct (reached_inv _ _ _ _ Hr) as [log Hinv].
  assert (Hq : ∀ d m, sy_reader s = RSleep d m → quiet (sy_ctx s)).
  { intros d m Hrd. pose proof (si_reader _ _ _ Hinv) as Hok. rewrite Hrd in Hok. apply Hok. }
  split; [|done]. intros i w q Hw Hqi Has.
  destruct (module_lookups g s log i w Hinv Hw) as (q' & ? & ? & ? & _ & _ & Hqok & []).
  simplify_eq. pose proof (mo_asleep Has) as Hfull. split; [done|]. intros d m Hrd.
  destruct (Hq d m Hrd) as [He _]. pose proof (He i q Hqi) as Hz.
  unfold is_full in Hfull. apply bool_decide_eq_true in Hfull.
  rewrite mo_cap, Hz in Hfull. done.
Qed.

End spec.

Lemma sensor_events_once_in_order_witness :
  ∃ s log, sys_run soft_globals soft_sys0 (soft_run1 ++ EvFlush 1 :: soft_run2) = Some s ∧
    sy_delivered s = omap (render soft_globals) log.
Proof.
  destruct (sensor_events_once_in_order soft_globals (replicate 20 junk_event)
    [soft_device 7 true; soft_device 8 true] (soft_run1 ++ EvFlush 1 :: soft_run2))
    as (s & log & Hrun & Hd & _); [reflexivity|soft_events_ok|].
  unfold soft_sys0. exists s, log. split; [exact Hrun|exact Hd].
Defined.

Lemma flush_after_events_witness :
  ∃ r given, pf_handle r = 1 ∧ sy_accepted (soft_after soft_run1) !! 0%nat = Some given ∧
    length given = 21%nat.
Proof.
  destruct (flush_after_events soft_globals (replicate 20 junk_event)
    [soft_device 7 true; soft_device 8 true] soft_run1 soft_run2 1
    (sy_ctx (soft_after (soft_run1 ++ [EvFlush 1]))) (soft_after soft_run1)
    (soft_after (soft_run1 ++ EvFlush 1 :: soft_run2)))
    as (r & given & log & Hp & Hh & Hg & _).
  - run_reached.
  - vm_compute. reflexivity.
  - run_reached.
  - apply few_uncounted. vm_compute. reflexivity.
  - exists r, (default [] (sy_accepted (soft_after soft_run1) !! 0%nat)).
    split; [done|]. split; vm_compute; reflexivity.
Defined.

Lemma no_wakeup_is_lost_witness :
  quiet (sy_ctx (soft_after soft_run_idle)).
Proof.
  eapply (no_wakeup_is_lost soft_globals (replicate 20 junk_event)
    [soft_device 7 true; soft_device 8 true] soft_run_idle (soft_after soft_run_idle)).
  - run_reached.
  - vm_compute. reflexivity.
Defined.

(** ** Flushes are answered *)


Section live.
  Context `{!SensorsH} (g : globals).

(** A log that takes nothing is a list of completions. *)
Lemma log_of_dones log : (∀ i, took i log = []) → log = Done <$> dones log.
Proof.
  induction log as [|[i e|r] log IH]; intros Ht; [done| |].
  - specialize (Ht i). cbn in Ht. by rewrite decide_True in Ht.
  - cbn. f_equal. apply IH. intros i. apply (Ht i).
Qed.

Lemma justified_ready c log c' r :
  explains c log c' → (∀ i, took i log = []) → ctx_ok c → r ∈ dones log →
  is_ready (consumed_events c) r.
Proof.
  intros Hex Ht Hc Hr. destruct (elem_of_dones r log Hr) as (l1 & l2 & ->).
  assert (Hin : r ∈ pending_flushes c) by (rewrite (ex_flushes _ _ _ Hex); set_solver).
  pose proof (ck_flushes _ Hc r Hin) as Hm.
  destruct (lookup_lt_is_Some_2 (consumed_events c) (Z.to_nat (pf_module_index r))) as [n Hn];
    [rewrite (ck_len _ Hc); lia|].
  exists n. unfold elem. rewrite bool_decide_true by lia. split; [done|].
  pose proof (ex_justified _ _ _ Hex l1 r l2 n eq_refl Hn) as Hle.
  specialize (Ht (Z.to_nat (pf_module_index r))). rewrite took_app in Ht.
  apply app_eq_nil in Ht as [Ht _].
  rewrite Ht, advance_nil in Hle; [done|]. by eapply ck_consumed.
Qed.

(** Of requests of which only the last can be completed, a non-empty part that
    can be completed is that one. *)
Lemma ready_part (P : PendingFlush → Prop) pending r ds rest :
  pending ++ [r] ≡ₚ ds ++ rest → (∀ x, x ∈ ds → P x) → (∀ x, x ∈ pending → ¬ P x) →
  ds ≠ [] → ds = [r].
Proof.
  intros Hperm Hds Hp Hne. destruct ds as [|x l]; [done|].
  assert (Hx : x ∈ pending ++ [r]) by (rewrite Hperm; set_solver).
  apply elem_of_app in Hx as [Hx|Hx%list_elem_of_singleton].
  { exfalso. apply (Hp x Hx), Hds. set_solver. }
  subst x. rewrite Permutation_app_comm in Hperm. cbn in Hperm.
  apply Permutation_cons_inv in Hperm. destruct l as [|y l]; [done|exfalso].
  apply (Hp y); [rewrite Hperm; set_solver|apply Hds; set_solver].
Qed.

(** A log that takes nothing leaves the counters. *)
Lemma ready_kept c log c' r :
  explains c log c' → (∀ i, took i log = []) → ctx_ok c →
  is_ready (consumed_events c) r → is_ready (consumed_events c') r.
Proof.
  intros Hex Ht Hc (n & Hn & Hle). exists n. split; [|done].
  unfold elem in *. case_bool_decide; [|done].
  rewrite (ex_consumed _ _ _ Hex _ _ Hn), Ht, advance_nil; [done|]. by eapply ck_consumed.
Qed.

(** Empty rings: nothing is taken. *)
Lemma nothing_taken c log c' :
  explains c log c' → (∀ i q, queues c !! i = Some q → mSize q = 0) → ∀ i, took i log = [].
Proof.
  intros Hex Hz i. destruct (queues c !! i) as [q|] eqn:Hq.
  - destruct (ex_queue _ _ _ Hex i q Hq) as (q' & _ & _ & _ & Hcon).
    unfold contents in Hcon at 1. rewrite (Hz i q Hq) in Hcon. cbn in Hcon.
    by apply eq_sym, app_eq_nil in Hcon as [? _].
  - apply (ex_range _ _ _ Hex). by apply lookup_ge_None.
Qed.

(** A section of [poll] with empty rings and one request that can be completed. *)
Lemma section_one_flush c d m pending r :
  ctx_ok c → queues c ≠ [] → 0 < m <= Z.of_nat (length d) →
  (∀ i q, queues c !! i = Some q → mSize q = 0) →
  pending_flushes c = pending ++ [r] → is_ready (consumed_events c) r →
  (∀ r', r' ∈ pending → ¬ is_ready (consumed_events c) r') →
  ∃ res, poll_section g c d m = Some res ∧ pr_count res = 1 ∧
    take 1 (pr_data res) = [flush_complete (pf_handle r)].
Proof.
  intros Hc Hne Hm Hz Hp Hr Hn.
  destruct (poll_section_spec g c d m Hc Hne Hm) as (res & log & Hs & []).
  exists res. split; [done|]. pose proof (nothing_taken _ _ _ sp_explains Hz) as Ht.
  pose proof (log_of_dones log Ht) as Hlog. pose proof (ex_flushes _ _ _ sp_explains) as Hperm.
  rewrite Hp in Hperm.
  assert (Hcnt : pr_count res = Z.of_nat (length (dones log))).
  { rewrite Hlog, render_dones in sp_data. apply (f_equal length) in sp_data.
    rewrite length_fmap, length_take in sp_data. lia. }
  assert (Hone : dones log = [r]).
  { eapply ready_part; try done; [intros r'; by eapply justified_ready|].
    intros Hd. rewrite Hd in Hperm, Hcnt. cbn in Hperm.
    apply (proj2 (sp_wait Hcnt) r); [rewrite <- Hperm; set_solver|by eapply ready_kept]. }
  rewrite Hlog, Hone in sp_data. rewrite Hone in Hcnt. cbn in sp_data.
  split; [done|]. by rewrite Hcnt in sp_data.
Qed.

(** The counter of a module, without wrap. *)
Lemma counter_value s log i given n :
  sys_inv g s log → uncounted s → sy_accepted s !! i = Some given →
  consumed_events (sy_ctx s) !! i = Some n → n = Z.of_nat (length (took i log)).
Proof.
  intros Hinv Hu Hg Hn. rewrite (counter_is_taken _ _ _ _ _ Hinv Hn).
  destruct (taken_bound _ _ _ _ _ Hinv Hg) as (q & w & _ & _ & Hall).
  pose proof (Hu i given Hg) as Hlt. rewrite Hall, length_app in Hlt.
  unfold advance. rewrite wrap_small; lia.
Qed.

Lemma empty_contents q : mSize q = 0 → contents q = [].
Proof. intros Hz. unfold contents. by rewrite Hz. Qed.

(** A flush of a module that has given all its events wakes a sleeping
    [poll], which returns the completion and nothing else. *)
Theorem idle_flush_answered junk devices evs s h c d m :
  reached g junk devices evs s → uncounted s → sy_reader s = RSleep d m →
  flush g (sy_ctx s) h = Some (0, true, c) →
  (∀ w, sy_writers s !! Z.to_nat (get_module_index g h) = Some w → staged w = []) →
  ∃ s', sys_run g s [EvFlush h; EvReader] = Some s' ∧ sy_reader s' = RIdle ∧
    sy_delivered s' = sy_delivered s ++ [flush_complete h].
Proof.
  intros Hr Hu Hrd Hf Hst. destruct (reached_inv _ _ _ _ _ Hr) as [log Hinv].
  destruct (flush_spec g s log h Hinv)
    as [[a Ha]|(r & a & Hr' & Hh & Hmi & Hm & given & Hm0 & Hg & Haft)]; [congruence|].
  rewrite Hf in Hr'. injection Hr' as ->.
  pose proof (si_reader _ _ _ Hinv) as Hok. rewrite Hrd in Hok.
  destruct Hok as (Hne & Hdm & Hz & Hnr). rewrite <- Hmi in Hst.
  set (i := Z.to_nat (pf_module_index r)) in *.
  destruct (taken_bound _ _ _ i given Hinv Hg) as (q & w & Hq & Hw & Hall).
  rewrite (empty_contents q (Hz i q Hq)), (Hst w Hw) in Hall. cbn in Hall.
  rewrite app_nil_r in Hall.
  destruct (lookup_lt_is_Some_2 (consumed_events (sy_ctx s)) i) as [k Hk].
  { rewrite (ck_len _ (si_ctx _ _ _ Hinv)). by eapply lookup_lt_Some. }
  pose proof (counter_value _ _ _ _ _ Hinv Hu Hg Hk) as Hkv.
  set (c1 := with_requests (pending_flushes (sy_ctx s) ++ [r]) a (sy_ctx s)) in *.
  destruct (section_one_flush c1 d m (pending_flushes (sy_ctx s)) r) as (res & Hs & Hcnt & Hdata);
    try done.
  { apply with_requests_ctx_ok; [apply Hinv|]. intros r' [Hin|Hin%list_elem_of_singleton]%elem_of_app;
      [by apply (ck_flushes _ (si_ctx _ _ _ Hinv))|rewrite Hin; lia]. }
  { exists k. unfold elem. rewrite bool_decide_true by done. split; [done|].
    pose proof (Hu i given Hg). rewrite Haft, wrap_small, Hkv, <- Hall by lia. lia. }
  set (s1 := System c1 (sy_writers s) (RWoken d m) (sy_accepted s) (sy_requested s ++ [r])
               (sy_delivered s)).
  assert (Hs1 : sys_step g s (EvFlush h) = Some s1).
  { cbn [sys_step]. unfold flush_step. rewrite Hf. cbn. by rewrite drop_app_length, Hrd. }
  assert (Hs2 : sys_step g s1 EvReader = Some (after_section res m s1)).
  { change (sys_step g s1 EvReader) with (reader_section g d m s1). unfold reader_section.
    change (sy_ctx s1) with c1. by rewrite Hs. }
  cbn [sys_run]. rewrite Hs1. cbn [mbind option_bind]. rewrite Hs2. cbn [mbind option_bind].
  eexists. split; [done|]. split.
  - cbn [after_section sy_reader]. by rewrite Hcnt.
  - cbn [after_section sy_delivered]. rewrite Hcnt. change (Z.to_nat 1) with 1%nat.
    by rewrite Hdata, Hh.
Qed.

(** ** A pending flush *)

(** A section of [poll] with events in one ring only and nothing to complete
    takes one of them. *)
Lemma section_takes c d m i q :
  ctx_ok c → queues c ≠ [] → 0 < m <= Z.of_nat (length d) →
  queues c !! i = Some q → contents q ≠ [] →
  (∀ j qj, queues c !! j = Some qj → j ≠ i → mSize qj = 0) →
  (∀ r, r ∈ pending_flushes c → ¬ is_ready (consumed_events c) r) →
  ∃ res log, poll_section g c d m = Some res ∧ section_post g c d m log res ∧ took i log ≠ [].
Proof.
  intros Hc Hne Hm Hq Hcon Hz Hn.
  destruct (poll_section_spec g c d m Hc Hne Hm) as (res & log & Hs & Hp).
  exists res, log. split; [done|]. split; [done|]. intros Ht. destruct Hp.
  destruct (ex_queue _ _ _ sp_explains i q Hq) as (q' & Hq' & _ & _ & Hcq).
  rewrite Ht in Hcq. cbn in Hcq.
  assert (Hall : ∀ j, took j log = []).
  { intros j. destruct (decide (j = i)) as [->|Hj]; [done|].
    destruct (queues c !! j) as [qj|] eqn:Hqj.
    - destruct (ex_queue _ _ _ sp_explains j qj Hqj) as (? & _ & _ & _ & Hcj).
      rewrite (empty_contents qj (Hz j qj Hqj Hj)) in Hcj.
      by apply eq_sym, app_eq_nil in Hcj as [? _].
    - apply (ex_range _ _ _ sp_explains). by apply lookup_ge_None. }
  assert (Hd : dones log = []).
  { destruct (dones log) as [|r l] eqn:Hd; [done|exfalso].
    assert (Hr : r ∈ dones log) by (rewrite Hd; set_solver).
    apply (Hn r); [|by eapply justified_ready].
    rewrite (ex_flushes _ _ _ sp_explains). set_solver. }
  rewrite (log_of_dones log Hall), Hd in sp_data. cbn in sp_data.
  apply (f_equal length) in sp_data. rewrite length_take in sp_data. cbn in sp_data.
  assert (Hcnt : pr_count res = 0) by lia.
  apply Hcon. rewrite Hcq. apply empty_contents. by eapply (proj1 (sp_wait Hcnt)).
Qed.

(** A request that cannot be completed yet: its module's events are staged. *)
Lemma pending_is_staged s log r n :
  sys_inv g s log → uncounted s → r ∈ pending_flushes (sy_ctx s) →
  (∀ i q, queues (sy_ctx s) !! i = Some q → mSize q = 0) →
  ¬ is_ready (consumed_events (sy_ctx s)) r →
  consumed_events (sy_ctx s) !! Z.to_nat (pf_module_index r) = Some n →
  n < pf_after_event r ∧ ∃ w, sy_writers s !! Z.to_nat (pf_module_index r) = Some w ∧ staged w ≠ [].
Proof.
  intros Hinv Hu Hr Hz Hnr Hn. set (i := Z.to_nat (pf_module_index r)) in *.
  destruct (si_requests _ _ _ Hinv r) as (given & k & Hi & Hg & Hk & Ha).
  { rewrite (si_requested _ _ _ Hinv). set_solver. }
  fold i in Hg. pose proof (Hu i given Hg) as Hlt. rewrite wrap_small in Ha by lia.
  destruct (taken_bound _ _ _ i given Hinv Hg) as (q & w & Hq & Hw & Hall).
  rewrite (empty_contents q (Hz i q Hq)) in Hall. cbn in Hall.
  assert (Hlt' : n < pf_after_event r).
  { destruct (decide (n < pf_after_event r)); [done|exfalso]. apply Hnr. exists n.
    unfold elem. rewrite bool_decide_true by done. split; [done|lia]. }
  split; [done|]. exists w. split; [done|]. intros Hst.
  rewrite Hst, app_nil_r in Hall. pose proof (counter_value _ _ _ _ _ Hinv Hu Hg Hn) as Hnv.
  rewrite <- Hall in Hnv. lia.
Qed.

(** A woken writer whose ring is empty publishes events and wakes [poll]. *)
Lemma woken_writer_publishes s log i q l :
  sys_inv g s log → sy_writers s !! i = Some (WWoken l) → queues (sy_ctx s) !! i = Some q →
  mSize q = 0 →
  ∃ s1 q', writer_step i s = Some s1 ∧ sy_ctx s1 = set_queue i q' (sy_ctx s) ∧
    contents q' ≠ [] ∧ sy_reader s1 = wake_reader (sy_reader s) ∧
    sy_accepted s1 = sy_accepted s.
Proof.
  intros Hinv Hw Hq Hz. unfold writer_step. rewrite Hw, Hq.
  destruct (module_lookups g s log i _ Hinv Hw) as (q' & ? & ? & Hq' & _ & _ & Hqok & []).
  simplify_eq. cbn in mo_batch, mo_pending.
  destruct (write_resume_spec q l) as (r & -> & []); [done|done|lia|].
  cbn. eexists _, (wr_queue r). split; [done|]. split; [done|].
  assert (Hfull : ∀ x, contents (wr_queue r) = [] → is_full (wr_queue r) = true → x).
  { intros x Hc Hf. exfalso. unfold is_full in Hf. apply bool_decide_eq_true in Hf.
    apply contents_length in wp_ok as Hlen. rewrite Hc in Hlen. cbn in Hlen.
    rewrite wp_cap, mo_cap in Hf. unfold SENSOR_EVENT_QUEUE_CAPACITY in Hf. lia. }
  rewrite (empty_contents q Hz) in wp_all. cbn in wp_all.
  assert (Hne : contents (wr_queue r) ≠ []).
  { intros Hc. rewrite Hc in wp_all. cbn in wp_all.
    destruct (wr_left r) as [l'|] eqn:Hl; cbn in wp_all; [|by subst l; cbn in mo_batch; lia].
    apply (Hfull False Hc). by eapply wp_left. }
  split; [done|]. split; [|done]. cbn. destruct wp_signal as [->|[_ Hsame]]; [done|].
  exfalso. apply Hne. rewrite Hsame. by apply empty_contents.
Qed.

(** The step of a woken [poll] when ring [i] alone has events. *)
Lemma section_progress s log d m i q k :
  sys_inv g s log → uncounted s → sy_reader s = RWoken d m →
  queues (sy_ctx s) !! i = Some q → contents q ≠ [] →
  (∀ j qj, queues (sy_ctx s) !! j = Some qj → j ≠ i → mSize qj = 0) →
  (∀ r, r ∈ pending_flushes (sy_ctx s) → ¬ is_ready (consumed_events (sy_ctx s)) r) →
  consumed_events (sy_ctx s) !! i = Some k →
  ∃ s' k', sys_step g s EvReader = Some s' ∧
    consumed_events (sy_ctx s') !! i = Some k' ∧ k < k'.
Proof.
  intros Hinv Hu Hrd Hq Hcon Hz Hn Hk.
  pose proof (si_reader _ _ _ Hinv) as Hok. rewrite Hrd in Hok. destruct Hok as [Hne Hm].
  destruct (section_takes (sy_ctx s) d m i q (si_ctx _ _ _ Hinv) Hne Hm Hq Hcon Hz Hn)
    as (res & ext & Hs & [] & Ht).
  exists (after_section res m s), (advance k (took i ext)). split; [|split].
  - cbn [sys_step]. rewrite Hrd. unfold reader_section. by rewrite Hs.
  - exact (ex_consumed _ _ _ sp_explains i k Hk).
  - destruct (ex_queue _ _ _ sp_explains i q Hq) as (q' & _ & _ & _ & Hcq).
    assert (Hlt : (i < length (sy_accepted s))%nat).
    { rewrite (si_accepted _ _ _ Hinv). by eapply lookup_lt_Some. }
    destruct (lookup_lt_is_Some_2 _ _ Hlt) as [given Hg].
    destruct (taken_bound _ _ _ _ _ Hinv Hg) as (q1 & w & Hq1 & _ & Hall). simplify_eq.
    pose proof (counter_value _ _ _ _ _ Hinv Hu Hg Hk) as ->. pose proof (Hu i _ Hg) as Hb.
    rewrite Hcq, !length_app in Hb. unfold advance.
    assert (0 < length (took i ext))%nat by (destruct (took i ext); [done|cbn; lia]).
    rewrite wrap_small; lia.
Qed.

(** While [poll] sleeps and a flush is pending, the writer of its module
    is awake with events left: its next step and the one of [poll] bring the
    flush nearer. *)
Theorem pending_flush_progress junk devices evs s d m r :
  reached g junk devices evs s → uncounted s → sy_reader s = RSleep d m →
  r ∈ pending_flushes (sy_ctx s) →
  let i := Z.to_nat (pf_module_index r) in
  ∃ s' k k', sys_run g s [EvWriter i; EvReader] = Some s' ∧
    consumed_events (sy_ctx s) !! i = Some k ∧ consumed_events (sy_ctx s') !! i = Some k' ∧
    k < pf_after_event r ∧ k < k'.
Proof.
  intros Hreach Hu Hrd Hr i. destruct (reached_inv _ _ _ _ _ Hreach) as [log Hinv].
  destruct (no_wakeup_is_lost g junk devices evs s Hreach) as [Hasleep Hquiet].
  pose proof (Hquiet d m Hrd) as [Hz Hnr].
  pose proof (ck_flushes _ (si_ctx _ _ _ Hinv) r Hr) as Hm.
  destruct (lookup_lt_is_Some_2 (consumed_events (sy_ctx s)) i) as [k Hk];
    [rewrite (ck_len _ (si_ctx _ _ _ Hinv)); lia|].
  destruct (pending_is_staged s log r k Hinv Hu Hr Hz (Hnr r Hr) Hk) as (Hlt & w & Hw & Hst).
  fold i in Hw. destruct (module_lookups g s log i w Hinv Hw) as (q & given & ? & Hq & Hg & _).
  assert (Hl : ∃ l, w = WWoken l).
  { destruct w as [| | |?|l|l]; try done; [|by eauto].
    destruct (Hasleep i _ q Hw Hq eq_refl) as [_ Hno]. by destruct (Hno d m). }
  destruct Hl as [l ->].
  destruct (woken_writer_publishes s log i q l Hinv Hw Hq (Hz i q Hq))
    as (s1 & q' & Hs1 & Hc1 & Hne & Hrd1 & Hacc1). rewrite Hrd in Hrd1. cbn in Hrd1.
  destruct (writer_step_inv g s log i Hinv) as (s1' & Hs1' & Hinv1 & Hg1).
  rewrite Hs1 in Hs1'. injection Hs1' as <-.
  destruct (section_progress s1 log d m i q' k Hinv1) as (s2 & k' & Hs2 & Hk' & Hlt2); try done.
  { unfold uncounted. by rewrite Hacc1. }
  { rewrite Hc1. cbn. apply list_lookup_insert_eq. by eapply lookup_lt_Some. }
  { intros j qj. rewrite Hc1. cbn. intros Hj Hji. rewrite list_lookup_insert_ne in Hj by done.
    by eapply Hz. }
  { by rewrite Hc1. }
  { by rewrite Hc1. }
  exists s2, k, k'. split; [|done]. cbn [sys_run].
  change (sys_step g s (EvWriter i)) with (writer_step i s). rewrite Hs1. cbn [mbind option_bind].
  by rewrite Hs2.
Qed.

End live.

Lemma idle_flush_answered_witness :
  ∃ s', sys_run soft_globals (soft_after soft_run_idle) [EvFlush 1; EvReader] = Some s' ∧
    sy_reader s' = RIdle ∧ sy_delivered s' = [flush_complete 1].
Proof.
  apply (idle_flush_answered soft_globals (replicate 20 junk_event)
    [soft_device 7 true; soft_device 8 true] soft_run_idle (soft_after soft_run_idle) 1
    (sy_ctx (soft_after (soft_run_idle ++ [EvFlush 1]))) soft_data 64).
  - run_reached.
  - apply few_uncounted. vm_compute. reflexivity.
  - vm_compute. reflexivity.
  - vm_compute. reflexivity.
  - intros w Hw. vm_compute in Hw. injection Hw as <-. reflexivity.
Defined.

Lemma pending_flush_progress_witness :
  ∃ s' k k', sys_run soft_globals (soft_after (soft_run1 ++ EvFlush 1 :: soft_run2))
      [EvWriter 0; EvReader] = Some s' ∧
    consumed_events (sy_ctx (soft_after (soft_run1 ++ EvFlush 1 :: soft_run2))) !! 0%nat = Some k ∧
    consumed_events (sy_ctx s') !! 0%nat = Some k' ∧ k < 21 ∧ k < k'.
Proof.
  apply (pending_flush_progress soft_globals (replicate 20 junk_event)
    [soft_device 7 true; soft_device 8 true] (soft_run1 ++ EvFlush 1 :: soft_run2)
    (soft_after (soft_run1 ++ EvFlush 1 :: soft_run2))
    (match sy_reader (soft_after (soft_run1 ++ EvFlush 1 :: soft_run2)) with
     | RSleep d _ => d | _ => [] end) 64 (Pending 1 0 21)).
  - run_reached.
  - apply few_uncounted. vm_compute. reflexivity.
  - vm_compute. reflexivity.
  - vm_compute. left.
Defined.

(** ** What the flush does not wait for

    A batch the library's [poll] has returned and [write] has not been given yet
    is not counted: the completion comes before its event. *)
Example flush_overtakes_polled_batch :
  let evs := [EvActivated 1 1; EvCallPoll soft_data 64; EvWriter 0; EvPolled 0 1 (soft_buffer 0);
              EvFlush 1; EvReader; EvWriter 0; EvCallPoll soft_data 64] in
  sy_delivered (soft_after evs) = [flush_complete 1; set_sensor 1 (soft_event 0)].
Proof. vm_compute. reflexivity. Qed.

(** A meta-data event about a sensor that is not known is passed on, with the
    handle -1. *)
Theorem unknown_meta_event_passed `{!SensorsH} g i e :
  ev_type e = SENSOR_TYPE_META_DATA →
  full_to_global g !! Full (Z.of_nat i) (ev_meta_sensor e) = None → ev_sensor e ≠ -1 →
  render g (Took i e) = Some (set_meta_sensor (-1) e).
Proof.
  intros Ht Hn Hs. unfold render, copy_event_remap_handle, get_global_handle.
  rewrite (bool_decide_true (ev_type e = SENSOR_TYPE_META_DATA)), Hn by done. cbn.
  by rewrite bool_decide_false.
Qed.

(** * The ring is a bounded queue

    The contract of SensorEventQueue.h as a list machine, and the theorem that
    the ring of SensorEventQueue.cpp with its writer implements it. *)

(** The operations, as their callers see them; [OpWrite] is the start of a
    [write], [OpResume] its continuation after a wait. *)
Inductive queue_op :=
  | OpWrite (events : list sensors_event_t)
  | OpResume
  | OpPeek
  | OpDequeue
  | OpSize
  | OpPendingSize.

Inductive queue_answer :=
  | ANone
  | AEvent (e : option sensors_event_t)
  | ASize (n : Z)
  | AWritten (waits : bool).

(** ** The contract

    A list of at most [capacity] readable events, and the events a writer still
    has. *)
Record fifo := Fifo { ff_events : list sensors_event_t; ff_staged : list sensors_event_t }.

(** The writer moves what fits. *)
Definition fifo_push (capacity : nat) (f : fifo) (events : list sensors_event_t) :
    queue_answer * fifo :=
  let room := (capacity - length (ff_events f))%nat in
  (AWritten (bool_decide (drop room events ≠ [])),
   Fifo (ff_events f ++ take room events) (drop room events)).

(** There is one writer: it does not write while it waits, and nothing is
    resumed when it does not. *)
Definition fifo_do (capacity : nat) (f : fifo) (op : queue_op) : queue_answer * fifo :=
  match op with
  | OpWrite events =>
      match ff_staged f with [] => fifo_push capacity f events | _ => (ANone, f) end
  | OpResume => match ff_staged f with [] => (ANone, f) | l => fifo_push capacity f l end
  | OpPeek => (AEvent (head (ff_events f)), f)
  | OpDequeue => (ANone, Fifo (tail (ff_events f)) (ff_staged f))
  | OpSize => (ASize (Z.of_nat (length (ff_events f))), f)
  | OpPendingSize => (ASize (Z.of_nat (length (ff_events f ++ ff_staged f))), f)
  end.

Fixpoint fifo_run (capacity : nat) (f : fifo) (ops : list queue_op) : list queue_answer * fifo :=
  match ops with
  | [] => ([], f)
  | op :: ops =>
      let '(a, f') := fifo_do capacity f op in
      let '(l, f'') := fifo_run capacity f' ops in (a :: l, f'')
  end.

(** ** The ring with its writer *)

Definition ring_written (r : option write_result) :
    option (queue_answer * (SensorEventQueue * list sensors_event_t)) :=
  r ← r;
  Some (AWritten (bool_decide (wr_left r ≠ None)), (wr_queue r, default [] (wr_left r))).

Definition ring_do (s : SensorEventQueue * list sensors_event_t) (op : queue_op) :
    option (queue_answer * (SensorEventQueue * list sensors_event_t)) :=
  let '(q, left_) := s in
  match op with
  | OpWrite events =>
      match left_ with
      | [] => ring_written (write_begin q events (Z.of_nat (length events)))
      | _ => Some (ANone, s)
      end
  | OpResume =>
      match left_ with [] => Some (ANone, s) | _ => ring_written (write_resume q left_) end
  | OpPeek => e ← peek q; Some (AEvent e, s)
  | OpDequeue => Some (ANone, ((dequeue q).2, left_))
  | OpSize => Some (ASize (getSize q), s)
  | OpPendingSize => Some (ASize (getPendingSize q), s)
  end.

Fixpoint ring_run (s : SensorEventQueue * list sensors_event_t) (ops : list queue_op) :
    option (list queue_answer * (SensorEventQueue * list sensors_event_t)) :=
  match ops with
  | [] => Some ([], s)
  | op :: ops =>
      '(a, s') ← ring_do s op;
      '(l, s'') ← ring_run s' ops;
      Some (a :: l, s'')
  end.

(** ** The simulation *)

Record fifo_rel (capacity : nat) (s : SensorEventQueue * list sensors_event_t) (f : fifo) :
    Prop := {
  fr_ok : queue_ok s.1;
  fr_cap : mCapacity s.1 = Z.of_nat capacity;
  fr_events : contents s.1 = ff_events f;
  fr_staged : s.2 = ff_staged f;
  fr_pending : mPendingSize s.1 = Z.of_nat (length s.2);
  fr_small : Z.of_nat (length s.2) < 2 ^ 30
}.

Definition op_ok (op : queue_op) : Prop :=
  match op with OpWrite events => Z.of_nat (length events) < 2 ^ 30 | _ => True end.

(** [write] leaves in the ring what fits. *)
Lemma write_fits q events r :
  queue_ok q → write_post q events false r →
  let room := (Z.to_nat (mCapacity q) - length (contents q))%nat in
  contents (wr_queue r) = contents q ++ take room events ∧
  default [] (wr_left r) = drop room events ∧ (wr_left r ≠ None ↔ drop room events ≠ []).
Proof.
  intros Hq [] room. pose proof (contents_length _ Hq) as Hlq.
  pose proof (contents_length _ wp_ok) as Hlr. pose proof (qk_size _ wp_ok) as Hsz.
  pose proof (qk_size _ Hq). destruct (wr_left r) as [l|] eqn:Hl; cbn in wp_all |- *.
  - destruct (wp_left l eq_refl) as [Hne Hf]. apply bool_decide_eq_true in Hf.
    pose proof (f_equal length wp_all) as Hlen. rewrite !length_app in Hlen.
    rewrite <- (take_drop room events), app_assoc in wp_all.
    apply app_inj_1 in wp_all as [Hc Hd].
    2: { rewrite length_app, length_take. lia. }
    subst l. done.
  - rewrite app_nil_r in wp_all. pose proof (f_equal length wp_all) as Hlen.
    rewrite length_app in Hlen. rewrite take_ge, drop_ge by lia. done.
Qed.

Lemma push_simulated capacity q f events r :
  queue_ok q → mCapacity q = Z.of_nat capacity → contents q = ff_events f →
  Z.of_nat (length events) < 2 ^ 30 →
  write_post q events false r →
  ring_written (Some r) = Some ((fifo_push capacity f events).1,
                                (wr_queue r, default [] (wr_left r))) ∧
  fifo_rel capacity (wr_queue r, default [] (wr_left r)) (fifo_push capacity f events).2.
Proof.
  intros Hq Hcap Hc Hsmall Hp. destruct (write_fits q events r Hq Hp) as (H1 & H2 & H3).
  pose proof Hp as []. rewrite Hcap, Nat2Z.id, Hc in *. split.
  - cbn. do 3 f_equal. by apply bool_decide_ext.
  - split; cbn; try done. rewrite H2, length_drop. lia.
Qed.

Lemma ring_step capacity s f op :
  fifo_rel capacity s f → op_ok op →
  ∃ s', ring_do s op = Some ((fifo_do capacity f op).1, s') ∧
    fifo_rel capacity s' (fifo_do capacity f op).2.
Proof.
  intros [Hok Hcap Hev Hst Hpen Hsm] Hop. destruct s as [q l].
  cbn in Hok, Hcap, Hev, Hst, Hpen, Hsm. subst l.
  destruct op as [events| | | | |]; cbn [ring_do fifo_do].
  - destruct (ff_staged f) as [|x l] eqn:Hs.
    + destruct (write_begin_spec q events Hok Hop) as (r & -> & Hp). eexists.
      apply push_simulated with (set_pending (Z.of_nat (length events)) q); try done.
      destruct Hok. by split.
    + eexists. split; [done|]. split; cbn; rewrite ?Hs; done.
  - destruct (ff_staged f) as [|x l] eqn:Hs.
    + eexists. split; [done|]. split; cbn; rewrite ?Hs; done.
    + destruct (write_resume_spec q (x :: l)) as (r & -> & Hp); [done|done|lia|]. eexists.
      by apply push_simulated with q.
  - rewrite peek_contents, Hev by done. eexists. split; [done|]. by split.
  - eexists. split; [done|]. split; cbn; try done.
    + by apply dequeue_ok.
    + by destruct (dequeue_rest q) as (-> & _).
    + by rewrite dequeue_contents, Hev.
    + by destruct (dequeue_rest q) as (_ & -> & _).
  - rewrite <- Hev, contents_length by done. destruct Hok. unfold getSize.
    rewrite Z2Nat.id by lia. eexists. split; [done|]. by split.
  - pose proof Hok as []. unfold getPendingSize. rewrite s32_small by (unfold is_s32; lia).
    rewrite length_app, <- Hev, contents_length, Nat2Z.inj_add, Z2Nat.id, <- Hpen by (done || lia).
    eexists. split; [done|]. by split.
Qed.

(** C34: The ring and its writer behave as the bounded queue of the contract:
    every sequence of operations gives the same answers, and leaves the ring
    holding the queue's events. *)
Theorem ring_refines_fifo junk capacity ops :
  (1 <= capacity)%nat → Z.of_nat capacity < 2 ^ 30 → length junk = capacity →
  Forall op_ok ops →
  ∃ q left_, ring_run (new_SensorEventQueue junk (Z.of_nat capacity), []) ops =
      Some ((fifo_run capacity (Fifo [] []) ops).1, (q, left_)) ∧
    contents q = ff_events (fifo_run capacity (Fifo [] []) ops).2 ∧
    left_ = ff_staged (fifo_run capacity (Fifo [] []) ops).2.
Proof.
  intros H1 H2 Hj Hops.
  assert (Hrel : fifo_rel capacity (new_SensorEventQueue junk (Z.of_nat capacity), []) (Fifo [] [])).
  { destruct (new_queue_ok junk (Z.of_nat capacity)) as [? ?]; [lia|by rewrite Hj|]. by split. }
  revert Hrel. generalize (new_SensorEventQueue junk (Z.of_nat capacity), @nil sensors_event_t).
  generalize (Fifo [] []). induction Hops as [|op ops Hop Hops IH]; intros f s Hrel; cbn.
  - destruct s as [q l]. exists q, l. destruct Hrel. done.
  - destruct (ring_step capacity s f op Hrel Hop) as (s' & -> & Hrel'). cbn.
    destruct (fifo_do capacity f op) as [a f']. destruct (IH f' s' Hrel') as (q & l & -> & Hq).
    cbn. destruct (fifo_run capacity f' ops) as [answers f'']. by exists q, l.
Qed.

Lemma ring_refines_fifo_witness :
  ∃ q left_, ring_run (new_SensorEventQueue (replicate 2 event_zero) 2, [])
      [OpWrite [soft_event 1; soft_event 2; soft_event 3]; OpPendingSize; OpDequeue; OpResume; OpPeek]
    = Some ([AWritten true; ASize 3; ANone; AWritten false; AEvent (Some (soft_event 2))],
            (q, left_)) ∧ contents q = [soft_event 2; soft_event 3] ∧ left_ = [].
Proof.
  apply (ring_refines_fifo (replicate 2 event_zero) 2
    [OpWrite [soft_event 1; soft_event 2; soft_event 3]; OpPendingSize; OpDequeue; OpResume; OpPeek]);
    [lia|lia|reflexivity|repeat constructor].
Defined.
