(* ===== verification/MultiHalFacts.v ===== *)
(** * The sensor list and the handles of the adapter

    Libraries that report the same sensors whenever they are asked get the
    handles 1, 2, ... in order; the two tables of handles agree. *)

From S2P Require Import Prelude SensorQueue MultiHal PollFacts MultiHalDev SoftSensors SensorSystem.
From stdpp Require Import gmap.
From Stdlib Require Import Ascii String.

#[global] Open Scope Z_scope.

(** The handles given to the sensors [all] (with their modules), in order. *)
Record table_ok (all : list (Z * sensor_t)) (g : globals) : Prop := {
  tk_next : next_global_handle g = Z.of_nat (List.length all) + 1;
  tk_full : ∀ k mi s, all !! k = Some (mi, s) →
    global_to_full g !! (Z.of_nat k + 1) = Some (Full mi (sn_handle s));
  tk_only : ∀ h f, global_to_full g !! h = Some f →
    ∃ k mi s, all !! k = Some (mi, s) ∧ h = Z.of_nat k + 1 ∧ f = Full mi (sn_handle s);
  tk_back : ∀ f h, full_to_global g !! f = Some h → global_to_full g !! h = Some f;
  tk_known : ∀ h f, global_to_full g !! h = Some f → is_Some (full_to_global g !! f)
}.

Lemma table_ok_nil l n :
  table_ok [] (set_list l n globals0).
Proof. split; cbn; try done; intros *; by rewrite ?lookup_empty. Qed.

Lemma table_ok_set_list all g l n : table_ok all g → table_ok all (set_list l n g).
Proof. intros []. by split. Qed.

Lemma assign_table all g mi s :
  table_ok all g → Z.of_nat (List.length all) + 2 < 2 ^ 31 →
  (assign_global_handle mi (sn_handle s) g).1 = Z.of_nat (List.length all) + 1 ∧
  table_ok (all ++ [(mi, s)]) (assign_global_handle mi (sn_handle s) g).2.
Proof.
  intros [] Hlen. unfold assign_global_handle. cbn. rewrite tk_next0. split; [done|].
  rewrite s32_small by (unfold is_s32; lia).
  assert (Hnew : global_to_full g !! (Z.of_nat (List.length all) + 1) = None).
  { destruct (global_to_full g !! _) as [f|] eqn:Hf; [|done].
    destruct (tk_only0 _ _ Hf) as (k & m & s' & Hk & Heq & _).
    apply lookup_lt_Some in Hk. lia. }
  split; cbn.
  - rewrite length_app. cbn. lia.
  - intros k m s' Hk. apply lookup_app_Some in Hk as [Hk|[Hge Hk]].
    + rewrite lookup_insert_ne by (apply lookup_lt_Some in Hk; lia). by apply tk_full0.
    + apply list_lookup_singleton_Some in Hk as [Hz [= -> ->]].
      replace (Z.of_nat k + 1) with (Z.of_nat (List.length all) + 1) by lia.
      by rewrite lookup_insert_eq.
  - intros h f. rewrite lookup_insert_Some. intros [[<- <-]|[Hne Hf]].
    + exists (List.length all), mi, s. by rewrite list_lookup_middle.
    + destruct (tk_only0 h f Hf) as (k & m & s' & Hk & Heq).
      exists k, m, s'. split; [by apply lookup_app_l_Some|done].
  - intros f h. rewrite lookup_insert_Some. intros [[<- <-]|[Hne Hf]].
    + by rewrite lookup_insert_eq.
    + pose proof (tk_back0 f h Hf) as Hb. rewrite lookup_insert_ne; [done|]. congruence.
  - intros h f. rewrite lookup_insert_Some. intros [[<- <-]|[Hne Hf]].
    + rewrite lookup_insert_eq. by eexists.
    + destruct (decide (Full mi (sn_handle s) = f)) as [->|Hd].
      * rewrite lookup_insert_eq. by eexists.
      * rewrite lookup_insert_ne by done. by eapply tk_known0.
Qed.

Section facts.
  Context {K : Type} `{!SubHals K, !SensorsH, !Junk}.

(** The sensors [all] have been copied into the array. *)
Record filled (all : list (Z * sensor_t)) (arr : list sensor_t) (index : Z) (g : globals) :
    Prop := {
  fd_index : index = Z.of_nat (List.length all);
  fd_table : table_ok all g;
  fd_arr : ∀ k mi s, all !! k = Some (mi, s) → arr !! k = Some (adapted_sensor (Z.of_nat k + 1) s)
}.

Lemma fill_one all arr index g mi s :
  filled all arr index g → index < Z.of_nat (List.length arr) →
  Z.of_nat (List.length arr) + 2 < 2 ^ 31 →
  ∃ arr' g', assign_global_handle mi (sn_handle s) g = (index + 1, g') ∧
    store arr index (adapted_sensor (index + 1) s) = Some arr' ∧
    List.length arr' = List.length arr ∧ filled (all ++ [(mi, s)]) arr' (index + 1) g'.
Proof.
  intros [-> Htab Harr] Hlt Hb.
  destruct (assign_table all g mi s Htab) as [Hh Htab']; [lia|].
  destruct (assign_global_handle mi (sn_handle s) g) as [h g']. cbn in Hh, Htab'. subst h.
  unfold store. rewrite bool_decide_true by lia. eexists _, g'. split; [done|]. split; [done|].
  rewrite length_insert. split; [done|]. split; [rewrite length_app; cbn; lia|done|].
  rewrite Nat2Z.id. intros k m s' Hk. apply lookup_app_Some in Hk as [Hk|[Hge Hk]].
  - rewrite list_lookup_insert_ne by (apply lookup_lt_Some in Hk; lia). by eapply Harr.
  - apply list_lookup_singleton_Some in Hk as [Hz [= -> ->]].
    replace k with (List.length all) by lia. rewrite list_lookup_insert_eq by lia. done.
Qed.

Lemma fill_module_ok mi locals pre post all arr index g :
  locals = pre ++ post → filled all arr index g →
  index + Z.of_nat (List.length post) <= Z.of_nat (List.length arr) →
  Z.of_nat (List.length arr) + 2 < 2 ^ 31 →
  ∃ arr' index' g',
    fill_module (List.length post) (Z.of_nat (List.length pre)) mi locals arr index g
      = Some (arr', index', g') ∧
    List.length arr' = List.length arr ∧ filled (all ++ ((mi,.) <$> post)) arr' index' g'.
Proof.
  intros Hl. revert pre all arr index g Hl.
  induction post as [|s post IH]; intros pre all arr index g Hl Hf Hlen Hb.
  - eexists _, _, _. split; [done|]. split; [done|]. by rewrite app_nil_r.
  - cbn [List.length fill_module] in *. unfold elem. rewrite bool_decide_true, Nat2Z.id by lia.
    rewrite Hl, list_lookup_middle by done. cbn [mbind option_bind].
    destruct (fill_one all arr index g mi s Hf) as (arr1 & g1 & -> & -> & Hlen1 & Hf1); [lia..|].
    cbn. replace (Z.of_nat (List.length pre) + 1) with (Z.of_nat (List.length (pre ++ [s])))
      by (rewrite length_app; cbn; lia).
    destruct (IH (pre ++ [s]) (all ++ [(mi, s)]) arr1 (index + 1) g1)
      as (arr' & index' & g' & Hrun & Hlen' & Hf'); [by rewrite <- app_assoc|done|lia|lia|].
    rewrite <- Hl, Hrun. eexists _, _, _. split; [done|]. split; [lia|].
    by rewrite <- app_assoc in Hf'.
Qed.

(** The libraries' sensors do not change. *)
Context (L : Z → list sensor_t).
Hypothesis lists_stable : ∀ m (k : K),
  (get_sensors_list m k).1 = (Z.of_nat (List.length (L m)), L m).

(** All sensors with the index of their module. *)
Fixpoint all_sensors (module_index : Z) (modules : list Z) : list (Z * sensor_t) :=
  match modules with
  | [] => []
  | m :: ms => ((module_index,.) <$> L m) ++ all_sensors (module_index + 1) ms
  end.

(** Only the libraries' state may differ. *)
Definition same_hal (w w' : sensors_world K) : Prop :=
  sw_modules w' = sw_modules w ∧ sw_globals w' = sw_globals w ∧ sw_faults w' = sw_faults w.

Lemma ext_lists m w :
  (ext (get_sensors_list m) w).1 = (Z.of_nat (List.length (L m)), L m) ∧
  same_hal w (ext (get_sensors_list m) w).2.
Proof.
  unfold ext. pose proof (lists_stable m (sw_k w)) as Hs.
  destruct (get_sensors_list m (sw_k w)) as [r k]. cbn in *. by subst.
Qed.

Lemma count_sensors_ok ms mi count w :
  0 <= count → count + Z.of_nat (List.length (all_sensors mi ms)) < 2 ^ 31 →
  (count_sensors ms count w).1 = count + Z.of_nat (List.length (all_sensors mi ms)) ∧
  same_hal w (count_sensors ms count w).2.
Proof.
  revert mi count w. induction ms as [|m ms IH]; intros mi count w Hc Hb; cbn [count_sensors].
  - cbn. split; [lia|done].
  - cbn in Hb. rewrite length_app, length_fmap in Hb. rewrite bind_run.
    destruct (ext_lists m w) as [Hr (S1 & S2 & S3)]. rewrite Hr. cbn [fst snd].
    rewrite s32_small by (unfold is_s32; lia).
    destruct (IH (mi + 1) (count + Z.of_nat (List.length (L m))) (ext (get_sensors_list m) w).2)
      as [H1 (T1 & T2 & T3)]; [lia..|].
    rewrite H1. cbn [all_sensors]. rewrite length_app, length_fmap. split; [lia|].
    split_and!; congruence.
Qed.

Lemma fill_sensors_ok ms mi all arr index w :
  filled all arr index (sw_globals w) →
  index + Z.of_nat (List.length (all_sensors mi ms)) <= Z.of_nat (List.length arr) →
  Z.of_nat (List.length arr) + 2 < 2 ^ 31 →
  let '(arr', w') := fill_sensors ms mi arr index w in
  List.length arr' = List.length arr ∧ sw_modules w' = sw_modules w ∧ sw_faults w' = sw_faults w ∧
  ∃ index', filled (all ++ all_sensors mi ms) arr' index' (sw_globals w').
Proof.
  revert mi all arr index w. induction ms as [|m ms IH]; intros mi all arr index w Hf Hlen Hb.
  - cbn. rewrite app_nil_r. eauto.
  - cbn [fill_sensors]. cbn in Hlen. rewrite length_app, length_fmap in Hlen.
    rewrite bind_run. destruct (ext_lists m w) as [Hr (S1 & S2 & S3)]. rewrite Hr.
    set (w1 := (ext (get_sensors_list m) w).2) in *. cbn [fst snd]. rewrite bind_run. cbn [get_globals fst snd].
    rewrite Nat2Z.id, S2.
    destruct (fill_module_ok mi (L m) [] (L m) all arr index (sw_globals w) eq_refl Hf)
      as (arr1 & index1 & g1 & Hrun & Hlen1 & Hf1); [lia..|].
    change (Z.of_nat (List.length [])) with 0 in Hrun. rewrite Hrun. rewrite bind_run.
    cbn [put_globals fst snd].
    set (w2 := SensorsWorld _ _ g1 _).
    pose proof (IH (mi + 1) (all ++ ((mi,.) <$> L m)) arr1 index1 w2) as Hi.
    destruct (fill_sensors ms (mi + 1) arr1 index1 w2) as [arr' w'].
    destruct Hi as (H1 & H2 & H3 & index' & H4); [done| |lia|].
    { pose proof (fd_index _ _ _ _ Hf1) as ->. pose proof (fd_index _ _ _ _ Hf) as ->.
      rewrite length_app, length_fmap. lia. }
    split; [lia|]. cbn in H2, H3. split; [congruence|]. split; [congruence|].
    exists index'. by rewrite <- app_assoc in H4.
Qed.

(** ** The list after the first call *)

Record sensors_listed (all : list (Z * sensor_t)) (g : globals) : Prop := {
  sl_count : global_sensors_count g = Z.of_nat (List.length all);
  sl_table : table_ok all g;
  sl_list : ∃ arr, global_sensors_list g = Some arr ∧ List.length arr = List.length all ∧
    ∀ k mi s, all !! k = Some (mi, s) → arr !! k = Some (adapted_sensor (Z.of_nat k + 1) s)
}.

Lemma lazy_init_lists ms w :
  sw_modules w = Some ms → sw_globals w = globals0 →
  Z.of_nat (List.length (all_sensors 0 ms)) + 2 < 2 ^ 31 →
  let w' := (lazy_init_sensors_list w).2 in
  sensors_listed (all_sensors 0 ms) (sw_globals w') ∧ sw_faults w' = sw_faults w ∧
  sw_modules w' = Some ms.
Proof.
  intros Hm Hg Hb. unfold lazy_init_sensors_list. rewrite bind_run. cbn [get_globals fst snd].
  rewrite Hg. cbn [global_sensors_list globals0]. rewrite bind_run.
  assert (Hlm : lazy_init_modules w = (tt, w)).
  { unfold lazy_init_modules. rewrite bind_run. cbn [get_modules fst snd]. by rewrite Hm. }
  rewrite Hlm. cbn [fst snd]. rewrite bind_run. cbn [get_modules fst snd]. rewrite Hm.
  change (default [] (Some ms)) with ms. rewrite bind_run.
  destruct (count_sensors_ok ms 0 0 w) as [Hc (S1 & S2 & S3)]; [lia..|].
  rewrite Hc, Z.add_0_l. set (w1 := (count_sensors ms 0 w).2) in *.
  set (N := List.length (all_sensors 0 ms)) in *.
  rewrite bind_run. cbn [get_globals fst snd]. rewrite bind_run. cbn [put_globals fst snd].
  rewrite bool_decide_false, Nat2Z.id by lia. rewrite bind_run.
  set (w2 := SensorsWorld _ _ _ _).
  pose proof (fill_sensors_ok ms 0 [] (replicate N junk_sensor) 0 w2) as Hfill.
  rewrite length_replicate in Hfill.
  destruct (fill_sensors ms 0 (replicate N junk_sensor) 0 w2) as [arr w3]. cbn [fst snd].
  destruct Hfill as (H1 & H2 & H3 & index & H4); [| |lia|].
  { split; [done| |done]. cbn. rewrite S2, Hg. by apply table_ok_nil. }
  { subst N. lia. }
  rewrite bind_run. cbn. cbn in H2, H3, H4. split; [|split; congruence].
  split; [done|by apply table_ok_set_list, H4|]. exists arr. split; [done|]. split; [done|].
  apply H4.
Qed.

(** ** Looking handles up *)

(** In an array whose sensors have consecutive handles a handle is an index. *)
Lemma find_consecutive arr off k :
  (∀ j s, arr !! j = Some s → sn_handle s = off + Z.of_nat j) →
  List.find (λ s, bool_decide (sn_handle s = off + Z.of_nat k)) arr = arr !! k.
Proof.
  revert off k. induction arr as [|s arr IH]; intros off k Hh; [done|].
  cbn [List.find]. rewrite (Hh 0%nat s eq_refl). destruct k as [|k].
  - by rewrite bool_decide_true by done.
  - rewrite bool_decide_false by lia.
    change ((s :: arr) !! S k) with (arr !! k). rewrite <- (IH (off + 1) k).
    + f_equal. replace (off + Z.of_nat (S k)) with (off + 1 + Z.of_nat k) by lia. done.
    + intros j s' Hj. rewrite (Hh (S j) s' Hj). lia.
Qed.

Lemma find_none arr off h :
  (∀ j s, arr !! j = Some s → sn_handle s = off + Z.of_nat j) → h < off →
  List.find (λ s, bool_decide (sn_handle s = h)) arr = None.
Proof.
  intros Hh Hlt. revert off Hh Hlt. induction arr as [|s arr IH]; intros off Hh Hlt; [done|].
  cbn [List.find]. rewrite (Hh 0%nat s eq_refl), bool_decide_false by lia.
  apply (IH (off + 1)); [|lia]. intros j s' Hj. rewrite (Hh (S j) s' Hj). lia.
Qed.

Lemma adapted_handle h s : sn_handle (adapted_sensor h s) = h.
Proof. unfold adapted_sensor. by case_bool_decide. Qed.

Lemma listed_handle all g h :
  sensors_listed all g →
  sensor_by_handle g h =
    if bool_decide (h <= 0) then None
    else p ← all !! Z.to_nat (h - 1); Some (adapted_sensor h (p.2 : sensor_t)).
Proof.
  intros [Hc _ (arr & Harr & Hlen & Hs)]. unfold sensor_by_handle. rewrite Hc, Harr, Nat2Z.id.
  change (default [] (Some arr)) with arr. rewrite take_ge by (rewrite Hlen; lia).
  assert (Hh : ∀ j s, arr !! j = Some s → sn_handle s = 1 + Z.of_nat j).
  { intros j s Hj. pose proof (lookup_lt_Some _ _ _ Hj) as Hlt. rewrite Hlen in Hlt.
    destruct (lookup_lt_is_Some_2 _ _ Hlt) as [[mi s0] Hall].
    rewrite (Hs j mi s0 Hall) in Hj. injection Hj as <-. rewrite adapted_handle. lia. }
  case_bool_decide; [by apply (find_none arr 1); [|lia]|].
  set (k := Z.to_nat (h - 1)). assert (Hk : h = 1 + Z.of_nat k) by lia. clearbody k. subst h.
  rewrite (find_consecutive arr 1) by done. destruct (all !! k) as [[mi s]|] eqn:Hall; cbn.
  - rewrite (Hs _ mi s Hall). do 2 f_equal. lia.
  - apply lookup_ge_None. rewrite Hlen. by apply lookup_ge_None.
Qed.

(** C35: Libraries that always report the same sensors get the handles 1, 2,
    ... in order, without a fault; each handle leads to its sensor and to the
    module and handle the sensor has there, no other handle does, and what
    [get_global_handle] answers leads back. *)
Theorem sensor_handles_assigned ms w :
  sw_modules w = Some ms → sw_globals w = globals0 →
  Z.of_nat (List.length (all_sensors 0 ms)) + 2 < 2 ^ 31 →
  let w' := (lazy_init_sensors_list w).2 in
  let g := sw_globals w' in
  sw_faults w' = sw_faults w ∧
  global_sensors_count g = Z.of_nat (List.length (all_sensors 0 ms)) ∧
  (∀ k mi s, all_sensors 0 ms !! k = Some (mi, s) →
     sensor_by_handle g (Z.of_nat k + 1) = Some (adapted_sensor (Z.of_nat k + 1) s) ∧
     get_module_index g (Z.of_nat k + 1) = mi ∧
     get_local_handle g (Z.of_nat k + 1) = sn_handle s ∧
     get_global_handle g (Full mi (sn_handle s)) ≠ -1) ∧
  (∀ h, h <= 0 ∨ global_sensors_count g < h →
     sensor_by_handle g h = None ∧ get_module_index g h = -1 ∧ get_local_handle g h = -1) ∧
  (∀ f, get_global_handle g f ≠ -1 →
     Full (get_module_index g (get_global_handle g f)) (get_local_handle g (get_global_handle g f))
       = f).
Proof.
  intros Hm Hg Hb. destruct (lazy_init_lists ms w Hm Hg Hb) as (Hl & Hf & _).
  cbv zeta. set (g := sw_globals (lazy_init_sensors_list w).2) in *. pose proof Hl as [Hc Ht _]. destruct Ht.
  assert (Hpos : ∀ h f, global_to_full g !! h = Some f → 1 <= h).
  { intros h f Hh. destruct (tk_only0 h f Hh) as (k & _ & _ & _ & -> & _). lia. }
  split; [done|]. split; [done|]. split; [|split].
  - intros k mi s Hk. rewrite (listed_handle _ _ _ Hl), bool_decide_false by lia.
    replace (Z.to_nat (Z.of_nat k + 1 - 1)) with k by lia. rewrite Hk.
    unfold get_module_index, get_local_handle. rewrite (tk_full0 k mi s Hk).
    split_and!; try done. unfold get_global_handle.
    destruct (tk_known0 _ _ (tk_full0 k mi s Hk)) as [h Hh]. rewrite Hh. cbn.
    pose proof (Hpos _ _ (tk_back0 _ _ Hh)). lia.
  - intros h Hh. rewrite (listed_handle _ _ _ Hl).
    assert (Hno : global_to_full g !! h = None).
    { destruct (global_to_full g !! h) as [f|] eqn:Hgf; [|done].
      destruct (tk_only0 h f Hgf) as (k & mi & s & Hk & -> & _).
      apply lookup_lt_Some in Hk. lia. }
    unfold get_module_index, get_local_handle. rewrite Hno. split; [|done].
    case_bool_decide; [done|].
    rewrite (proj2 (lookup_ge_None _ _)); [done|lia].
  - intros f Hne. unfold get_global_handle in *.
    destruct (full_to_global g !! f) as [h|] eqn:Hh; [|done]. cbn.
    unfold get_module_index, get_local_handle. rewrite (tk_back0 f h Hh). by destruct f.
Qed.

End facts.

Lemma soft_lists_stable m (k : list Z) :
  (get_sensors_list m k).1 = (Z.of_nat (List.length (soft_list m)), soft_list m).
Proof. done. Qed.

Lemma sensor_handles_assigned_witness :
  get_module_index soft_globals 3 = 1 ∧ get_local_handle soft_globals 3 = 101 ∧
  sensor_by_handle soft_globals 4 = None.
Proof.
  destruct (sensor_handles_assigned soft_list soft_lists_stable [7; 8] (soft_world [7; 8]))
    as (_ & _ & Hall & Hno & _); [reflexivity|reflexivity|vm_compute; reflexivity|].
  destruct (Hall 2%nat 1 (soft_sensor "proximity" 101 8)) as (_ & Hm & Hl & _); [reflexivity|].
  split; [exact Hm|]. split; [exact Hl|]. apply (Hno 4). right. vm_compute. reflexivity.
Defined.

(** * Opening the adapter is all or nothing

    [held k] stands for the devices of the libraries that are open: opening adds
    the device it gives, closing takes it away, nothing else changes it. *)



Create HintDb inert discriminated.

Section open.
  Context {K : Type} `{!SubHals K, !SensorsH, !Junk} (held : K → list Z).

(** The documented behaviour of the libraries and the loader. *)
Record libraries_ok : Prop := {
  lo_open : ∀ m name k,
    held (sub_open m name k).2 ≡ₚ
      match (sub_open m name k).1.2 with Some d => sd_id d :: held k | None => held k end;
  lo_closable : ∀ m name k d, (sub_open m name k).1.2 = Some d → sd_close d = true;
  lo_close : ∀ id k rest, held k ≡ₚ id :: rest → held (sub_close id k).2 ≡ₚ rest;
  lo_conf : ∀ k, held (conf_file k).2 ≡ₚ held k;
  lo_dlopen : ∀ path k, held (dlopen path k).2 ≡ₚ held k;
  lo_dlsym : ∀ lib k, held (dlsym lib k).2 ≡ₚ held k;
  lo_list : ∀ m k, held (get_sensors_list m k).2 ≡ₚ held k
}.

Hypothesis libs : libraries_ok.

Lemma ext_state {A} (m : M K A) w :
  (ext m w).1 = (m (sw_k w)).1 ∧ sw_k (ext m w).2 = (m (sw_k w)).2 ∧
  sw_modules (ext m w).2 = sw_modules w.
Proof. unfold ext. by destruct (m (sw_k w)). Qed.

(** *** Operations that open and close nothing *)

Definition preserves {A} (P : sensors_world K → Prop) (m : M (sensors_world K) A) : Prop :=
  ∀ w, P w → P (m w).2.

(** A property of the open devices and the modules only. *)
Record inert (P : sensors_world K → Prop) : Prop := {
  in_k : ∀ w k, P w → held k ≡ₚ held (sw_k w) →
    P (SensorsWorld k (sw_modules w) (sw_globals w) (sw_faults w));
  in_g : ∀ w g f, P w → P (SensorsWorld (sw_k w) (sw_modules w) g f)
}.

Lemma preserves_ret {A} P (a : A) : preserves P (mret a).
Proof. by intros w. Qed.

Lemma preserves_bind {A B} P (m : M (sensors_world K) A) (f : A → M (sensors_world K) B) :
  preserves P m → (∀ a, preserves P (f a)) → preserves P (m ≫= f).
Proof. intros Hm Hf w Hw. rewrite bind_run. apply Hf, Hm, Hw. Qed.

Section inert.
  Context (P : sensors_world K → Prop) (HP : inert P).

Lemma preserves_ext {A} (m : M K A) : (∀ k, held (m k).2 ≡ₚ held k) → preserves P (ext m).
Proof.
  intros Hm w Hw. unfold ext. specialize (Hm (sw_k w)). destruct (m (sw_k w)) as [a k].
  by apply (in_k P HP).
Qed.

Lemma preserves_get_globals : preserves P get_globals.
Proof. by intros w. Qed.
Lemma preserves_put_globals g : preserves P (put_globals g).
Proof. intros w. apply (in_g P HP). Qed.
Lemma preserves_get_modules : preserves P get_modules.
Proof. by intros w. Qed.
Lemma preserves_fault : preserves P fault.
Proof. intros w. apply (in_g P HP). Qed.

#[local] Hint Resolve preserves_ret preserves_get_globals preserves_put_globals
  preserves_get_modules preserves_fault : inert.

Ltac keeps :=
  repeat first
    [ solve [auto with inert]
    | apply preserves_ext; solve [apply libs]
    | apply preserves_bind; [|intros]
    | case_match ].

Lemma preserves_load paths : ∀ loaded, preserves P (load_modules paths loaded).
Proof. induction paths as [|p paths IH]; intros loaded; cbn; keeps; apply IH. Qed.

Lemma preserves_so_paths : preserves P get_so_paths.
Proof. unfold get_so_paths. keeps. Qed.

Lemma preserves_count ms : ∀ n, preserves P (count_sensors ms n).
Proof. induction ms as [|m ms IH]; intros n; cbn; keeps; apply IH. Qed.

Lemma preserves_fill ms : ∀ mi arr i, preserves P (fill_sensors ms mi arr i).
Proof. induction ms as [|m ms IH]; intros mi arr i; cbn; keeps; apply IH. Qed.

#[local] Hint Resolve preserves_count preserves_fill : inert.

Lemma preserves_lazy_list :
  preserves P lazy_init_modules → preserves P lazy_init_sensors_list.
Proof. intros Hm. unfold lazy_init_sensors_list. keeps. Qed.

End inert.

Lemma lazy_modules_held base :
  preserves (λ w, held (sw_k w) ≡ₚ base) lazy_init_modules.
Proof.
  assert (HP : inert (λ w, held (sw_k w) ≡ₚ base)).
  { split; cbn; [|done]. intros w k Hw Hk. by rewrite Hk. }
  unfold lazy_init_modules. apply preserves_bind; [by intros w|]. intros [l|]; [by intros w|].
  apply preserves_bind; [by apply preserves_so_paths|]. intros paths.
  apply preserves_bind; [by apply preserves_load|]. by intros l w.
Qed.

(** Once there are modules, making the list changes neither them nor what is
    open. *)
Lemma lazy_list_held base ms :
  preserves (λ w, held (sw_k w) ≡ₚ base ∧ sw_modules w = Some ms) lazy_init_sensors_list.
Proof.
  apply preserves_lazy_list.
  - split; cbn; [|done]. intros w k [Hw ?] Hk. by rewrite Hk.
  - intros w [Hw Hm]. unfold lazy_init_modules. rewrite bind_run. cbn [get_modules fst snd].
    rewrite Hm. done.
Qed.

Lemma lazy_modules_some w : is_Some (sw_modules (lazy_init_modules w).2).
Proof.
  unfold lazy_init_modules. rewrite bind_run. cbn [get_modules fst snd].
  destruct (sw_modules w) as [l|] eqn:Hm; [by exists l|].
  rewrite !bind_run. cbn. by eexists.
Qed.

(** The loop of [open_sensors] holds what it has opened; without an error that
    is a complete device of every module. *)
Lemma open_modules_holds ms name opened base w :
  held (sw_k w) ≡ₚ (sd_id <$> opened) ++ base →
  Forall (λ d, device_complete d = true) opened →
  let '((error, opened'), w') := open_modules ms name opened w in
  held (sw_k w') ≡ₚ (sd_id <$> opened') ++ base ∧ sw_modules w' = sw_modules w ∧
  Forall (λ d, sd_close d = true) opened' ∧
  (error = 0 → List.length opened' = (List.length opened + List.length ms)%nat ∧
               Forall (λ d, device_complete d = true) opened').
Proof.
  assert (Hclose : ∀ l, Forall (λ d, device_complete d = true) l → Forall (λ d, sd_close d = true) l).
  { intros l Hl. eapply Forall_impl; [exact Hl|]. intros d Hd. unfold device_complete in Hd.
    repeat apply andb_true_iff in Hd as [Hd ?]. done. }
  revert opened w. induction ms as [|m ms IH]; intros opened w Hh Hok; cbn [open_modules].
  { cbn. split; [done|]. split; [done|]. split; [by apply Hclose|]. intros _. split; [lia|done]. }
  rewrite bind_run. destruct (ext_state (sub_open m name) w) as (Hr & Hk & Hm).
  pose proof (lo_open libs m name (sw_k w)) as Hopen.
  pose proof (lo_closable libs m name (sw_k w)) as Hcl.
  rewrite Hr. rewrite <- Hk in Hopen. set (w1 := (ext (sub_open m name) w).2) in *.
  destruct (sub_open m name (sw_k w)) as [[error sub] k1]. cbn [fst snd] in *.
  destruct sub as [d|].
  - specialize (Hcl d eq_refl).
    assert (Hh' : held (sw_k w1) ≡ₚ (sd_id <$> opened ++ [d]) ++ base).
    { rewrite Hopen, Hh, fmap_app, <- app_assoc. cbn. apply Permutation_middle. }
    assert (Hcl' : Forall (λ d, sd_close d = true) (opened ++ [d])).
    { apply Forall_app. split; [by apply Hclose|by constructor]. }
    set (error' := if bool_decide (error = 0) then _ else _).
    case_bool_decide as He; [by cbn; split_and!|].
    assert (Hd : device_complete d = true).
    { subst error'. case_bool_decide; [|done]. by destruct (device_complete d). }
    specialize (IH (opened ++ [d]) w1 Hh').
    destruct (open_modules ms name (opened ++ [d]) w1) as [[err op'] w'].
    destruct IH as (I1 & I2 & I3 & I4); [apply Forall_app; by split; [|constructor]|].
    split; [done|]. split; [congruence|]. split; [done|]. intros He'.
    destruct (I4 He') as [I5 I6]. rewrite length_app in I5. cbn in I5. split; [cbn; lia|done].
  - assert (Hne : (if bool_decide (error = 0) then - ENODEV else error) ≠ 0)
      by (case_bool_decide; [done|done]).
    rewrite bool_decide_true by done. cbn. rewrite Hopen.
    split; [done|]. split; [done|]. split; [by apply Hclose|done].
Qed.

Lemma close_opened_releases opened base w :
  held (sw_k w) ≡ₚ (sd_id <$> opened) ++ base →
  Forall (λ d, sd_close d = true) opened →
  held (sw_k (close_opened opened w).2) ≡ₚ base.
Proof.
  revert w. induction opened as [|d ds IH]; intros w Hh Hc; cbn [close_opened]; [done|].
  inversion_clear Hc as [|?? Hd Hc']. rewrite bind_run. apply IH; [|done].
  rewrite Hd, bind_run. destruct (ext_state (sub_close (sd_id d)) w) as (_ & Hk & _).
  cbn. rewrite Hk. by apply (lo_close libs).
Qed.

Lemma add_devices opened c :
  foldl addSubHwDevice c opened =
    Ctx (sub_hw_devices c ++ opened)
      (queues c ++ replicate (List.length opened)
         (new_SensorEventQueue (replicate 20 junk_event) SENSOR_EVENT_QUEUE_CAPACITY))
      (consumed_events c ++ replicate (List.length opened) 0) (pending_flushes c)
      (active_sensors c) (nextReadIndex c) (waiting_for_data c).
Proof.
  revert c. induction opened as [|d ds IH]; intros c; cbn [foldl].
  - cbn. rewrite !app_nil_r. by destruct c.
  - rewrite IH. cbn. by rewrite <- !app_assoc.
Qed.

(** C36: Opening gives a complete device of every module, with an empty ring
    and a counter each, or an error and leaves no device open. *)
Theorem open_sensors_all_or_nothing name w :
  let '((code, out), w') := open_sensors name w in
  match out with
  | Some c =>
      code = 0 ∧ ∃ modules, sw_modules w' = Some modules ∧ modules ≠ [] ∧
        c = opened_ctx (replicate 20 junk_event) (sub_hw_devices c) ∧
        List.length (sub_hw_devices c) = List.length modules ∧
        Forall (λ d, device_complete d = true) (sub_hw_devices c) ∧
        held (sw_k w') ≡ₚ (sd_id <$> sub_hw_devices c) ++ held (sw_k w)
  | None => code ≠ 0 ∧ held (sw_k w') ≡ₚ held (sw_k w)
  end.
Proof.
  unfold open_sensors. destruct name as [name|]; [|done].
  rewrite bind_run. assert (Hk : held (sw_k (lazy_init_modules w).2) ≡ₚ held (sw_k w))
    by (by apply (lazy_modules_held (held (sw_k w)) w)).
  destruct (lazy_modules_some w) as [ms Hms].
  set (w1 := (lazy_init_modules w).2) in *. rewrite bind_run. cbn [get_modules fst snd].
  rewrite Hms. change (default [] (Some ms)) with ms. case_bool_decide as Hnil; [done|].
  rewrite bind_run.
  pose proof (open_modules_holds ms name [] (held (sw_k w)) w1 Hk (Forall_nil_2 _)) as Ho.
  destruct (open_modules ms name [] w1) as [[error opened] w2]. cbn [fst snd].
  destruct Ho as (O1 & O2 & O3 & O4). case_bool_decide as He.
  - rewrite bind_run. cbn. split; [done|]. by apply (close_opened_releases opened).
  - destruct O4 as [O5 O6]; [done|]. rewrite bind_run.
    destruct (lazy_list_held ((sd_id <$> opened) ++ held (sw_k w)) ms w2) as [Hk2 Hm2];
      [split; [done|congruence]|].
    cbn. split; [done|]. exists ms. rewrite add_devices. cbn. split_and!; done.
Qed.

End open.

(** ** The libraries of SoftSensors.v *)

Lemma remove_one_perm x l rest : l ≡ₚ x :: rest → remove_one x l ≡ₚ rest.
Proof.
  revert rest. induction l as [|y l IH]; intros rest Hl; cbn.
  - by apply Permutation_nil_cons in Hl.
  - case_decide as Hy.
    + subst y. by apply Permutation_cons_inv in Hl.
    + assert (Hin : x ∈ l).
      { assert (Hx : x ∈ y :: l) by (rewrite Hl; set_solver).
        apply elem_of_cons in Hx as [Hx|Hx]; [congruence|done]. }
      apply elem_of_Permutation in Hin as [l' Hl'].
      rewrite (IH l' Hl'). apply (Permutation_cons_inv (a := x)). rewrite <- Hl, Hl'.
      apply Permutation_swap.
Qed.

Lemma soft_libraries_ok : libraries_ok (λ k : list Z, k).
Proof.
  split; try done.
  - intros m name k d [= <-]. done.
  - intros id k rest. apply remove_one_perm.
Qed.

(** Module 9 has an incomplete device: nothing stays open. *)
Lemma open_sensors_all_or_nothing_witness :
  sw_k (open_sensors (Some "poll"%string) (soft_world [7; 9; 8])).2 = [].
Proof.
  pose proof (open_sensors_all_or_nothing (λ k : list Z, k) soft_libraries_ok
    (Some "poll"%string) (soft_world [7; 9; 8])) as Ho.
  destruct (open_sensors (Some "poll"%string) (soft_world [7; 9; 8])) as [[code out] w'] eqn:He.
  assert (Hout : out = None).
  { change out with (((code, out), w').1.2). rewrite <- He. vm_compute. reflexivity. }
  subst out. destruct Ho as [_ Ho]. apply Permutation_nil_r in Ho. exact Ho.
Defined.
