(* ===== verification/Lights.v ===== *)
(** * The backlight (src/liblights/lights.c)

    The colour of a light state as a brightness, and its way into the file of
    the driver.  The file system is a parameter. *)

From S2P Require Import Prelude CStrings.
From stdpp Require Import pretty.
From Stdlib Require Import Ascii String.

#[global] Open Scope Z_scope.

(** [open], [write] and [close]: their result and the [errno] of a failure. *)
Class Files (K : Type) := {
  file_open : string → M K (Z * Z);
  file_write : Z → string → M K (Z * Z);
  file_close : Z → M K (Z * Z)
}.

(** The name of [hardware/lights.h]. *)
Class LightsH := { LIGHT_ID_BACKLIGHT : string }.

Definition backlight_path : string := "/sys/class/backlight/pwm-backlight/brightness".

(** [sprintf(buffer, "%d\n", value)]. *)
Definition decimal_line (value : Z) : string := String.append (pretty value) (String "010" "").

Definition rgb_to_brightness (color : Z) : Z :=
  let color := Z.land (u32 color) 0x00ffffff in
  Z.shiftr (77 * Z.land (Z.shiftr color 16) 0x00ff + 150 * Z.land (Z.shiftr color 8) 0x00ff
            + 29 * Z.land color 0x00ff) 8.

Section lights.
  Context {K : Type} `{!Files K, !LightsH}.

(** [close] comes before [errno] is read. *)
Definition write_int (path : string) (value : Z) : M K Z :=
  '(fd, errno) ← file_open path;
  if bool_decide (0 <= fd) then
    '(amt, errno) ← file_write fd (decimal_line value);
    '(closed, errno') ← file_close fd;
    let errno := if bool_decide (closed = -1) then errno' else errno in
    mret (if bool_decide (amt = -1) then - errno else 0)
  else mret (- errno).

Definition set_light_backlight (color : Z) : M K Z :=
  write_int backlight_path (rgb_to_brightness color).

(** [None]: [-EINVAL]. *)
Definition open_lights (name : string) : option (Z → M K Z) :=
  if bool_decide (name = LIGHT_ID_BACKLIGHT) then Some set_light_backlight else None.

End lights.

(** A colour of four bytes. *)
Definition argb (a r g b : Z) : Z := a * 2 ^ 24 + r * 2 ^ 16 + g * 2 ^ 8 + b.

Definition is_byte (z : Z) : Prop := 0 <= z < 256.

Lemma low_bits n x y : 0 <= n → 0 <= y < 2 ^ n → (x * 2 ^ n + y) / 2 ^ n = x ∧ (x * 2 ^ n + y) mod 2 ^ n = y.
Proof.
  intros Hn Hy. rewrite Z.div_add_l, Z.div_small, Z.add_0_r by lia.
  rewrite Z.add_comm, Z.mod_add, Z.mod_small by lia. done.
Qed.

Lemma brightness_formula a r g b :
  is_byte a → is_byte r → is_byte g → is_byte b →
  rgb_to_brightness (argb a r g b) = (77 * r + 150 * g + 29 * b) / 256.
Proof.
  unfold is_byte. intros Ha Hr Hg Hb. unfold rgb_to_brightness, argb.
  rewrite u32_small by (unfold is_u32; lia).
  change 0x00ffffff with (Z.ones 24). change 0x00ff with (Z.ones 8).
  rewrite !Z.land_ones, !Z.shiftr_div_pow2 by lia.
  replace (a * 2 ^ 24 + r * 2 ^ 16 + g * 2 ^ 8 + b)
    with (a * 2 ^ 24 + (r * 2 ^ 16 + g * 2 ^ 8 + b)) by ring.
  rewrite (proj2 (low_bits 24 a (r * 2 ^ 16 + g * 2 ^ 8 + b) ltac:(lia) ltac:(lia))).
  change (2 ^ 16) with 65536. change (2 ^ 8) with 256.
  assert (H1 : (r * 65536 + g * 256 + b) / 65536 = r)
    by (symmetry; apply (Z.div_unique _ _ _ (g * 256 + b)); lia).
  assert (H2 : (r * 65536 + g * 256 + b) / 256 = r * 256 + g)
    by (symmetry; apply (Z.div_unique _ _ _ b); lia).
  assert (H3 : (r * 65536 + g * 256 + b) mod 256 = b)
    by (symmetry; apply (Z.mod_unique _ _ (r * 256 + g)); lia).
  assert (H4 : (r * 256 + g) mod 256 = g) by (symmetry; apply (Z.mod_unique _ _ r); lia).
  rewrite H1, H2, H3, H4, (Z.mod_small r) by lia. done.
Qed.

(** The brightness is a byte, does not depend on the alpha byte, does not
    decrease when a channel increases, and is the grey level of a grey. *)
Theorem brightness_in_range a r g b a' r' g' b' :
  is_byte a → is_byte r → is_byte g → is_byte b →
  is_byte a' → is_byte r' → is_byte g' → is_byte b' →
  r <= r' → g <= g' → b <= b' →
  is_byte (rgb_to_brightness (argb a r g b)) ∧
  rgb_to_brightness (argb a r g b) <= rgb_to_brightness (argb a' r' g' b') ∧
  (r = g → g = b → rgb_to_brightness (argb a r g b) = g).
Proof.
  intros. rewrite !brightness_formula by done. unfold is_byte in *.
  split; [|split].
  - split; [apply Z.div_pos; lia|apply Z.div_lt_upper_bound; lia].
  - apply Z.div_le_mono; lia.
  - intros -> ->. replace (77 * b + 150 * b + 29 * b) with (b * 256) by ring.
    by apply Z.div_mul.
Qed.

Lemma brightness_in_range_witness : rgb_to_brightness (argb 255 128 128 128) = 128.
Proof.
  apply (brightness_in_range 255 128 128 128 0 200 200 200); unfold is_byte; lia.
Defined.
