(* ===== verification/CameraH.v ===== *)
(** * The camera interfaces

    The data of hardware/camera3.h and of the platform's metadata packets, and
    the class CameraMetadata as its clients see it.  The headers belong to the
    platform: the values of their constants are a parameter. *)

From S2P Require Import Prelude.
From stdpp Require Import gmap.

#[global] Open Scope Z_scope.

Definition ETIMEDOUT : Z := 110.

(** ** hardware/camera3.h, hardware/gralloc.h, system/graphics.h *)

Class CameraH := {
  HAL_PIXEL_FORMAT_RGBA_8888 : Z;
  HAL_PIXEL_FORMAT_IMPLEMENTATION_DEFINED : Z;
  HAL_PIXEL_FORMAT_YCbCr_420_888 : Z;
  HAL_PIXEL_FORMAT_BLOB : Z;
  HAL_PIXEL_FORMAT_YV12 : Z;
  GRALLOC_USAGE_HW_VIDEO_ENCODER : Z;
  CAMERA3_STREAM_OUTPUT : Z;
  CAMERA3_STREAM_CONFIGURATION_NORMAL_MODE : Z;
  CAMERA3_TEMPLATE_PREVIEW : Z;
  CAMERA3_TEMPLATE_COUNT : Z;
  CAMERA3_MSG_ERROR_DEVICE : Z;
  CAMERA3_MSG_ERROR_REQUEST : Z;
  CAMERA3_MSG_ERROR_RESULT : Z;
  CAMERA_DEVICE_API_VERSION_3_0 : Z;
  CAMERA_DEVICE_API_VERSION_3_2 : Z;
  CAMERA_MODULE_API_VERSION_2_1 : Z;
  CAMERA_MODULE_API_VERSION_2_2 : Z
}.

(** [camera3_stream_t]. *)
Record camera3_stream := Stream3 {
  st_type : Z;
  st_width : Z;
  st_height : Z;
  st_format : Z;
  st_usage : Z;
  st_max_buffers : Z;
  st_priv : Z
}.

#[export] Instance camera3_stream_eq_dec : EqDecision camera3_stream.
Proof. solve_decision. Defined.

(** [camera3_stream_buffer_t].  A [buffer_handle_t *] that is not null is its
    address and the handle it points to. *)
Record camera3_stream_buffer := Buffer3 {
  sb_stream : Z;
  sb_buffer : option (Z * Z);
  sb_status : Z;
  sb_acquire_fence : Z;
  sb_release_fence : Z
}.

#[export] Instance camera3_stream_buffer_eq_dec : EqDecision camera3_stream_buffer.
Proof. solve_decision. Defined.

(** [camera3_notify_msg_t]: the member of the union that [type] selects; a type
    the header does not have is kept as it is. *)
Inductive camera3_notify_msg :=
  | MSG_SHUTTER (frame_number timestamp : Z)
  | MSG_ERROR (frame_number error_stream error_code : Z)
  | MSG_OTHER (type : Z).

(** ** Metadata packets *)

(** An entry of a packet: its tag and its elements.  The type of the elements
    is the type of the tag (the library adds no entry of another type); bytes
    and integers are their values, floating-point numbers their bits. *)
Record mentry := MEntry { me_tag : Z; me_data : list Z }.

#[export] Instance mentry_eq_dec : EqDecision mentry.
Proof. solve_decision. Defined.

(** A [camera_metadata_t *] that is not null: its address and what
    [get_camera_metadata_ro_entry] gives for the indices below
    [get_camera_metadata_entry_count]. *)
Record packet := Packet { pk_addr : Z; pk_entries : list mentry }.

(** The type of a tag, of the elements of an update. *)
Inductive meta_type := TYPE_BYTE | TYPE_INT32 | TYPE_FLOAT | TYPE_INT64 | TYPE_DOUBLE | TYPE_RATIONAL.

#[export] Instance meta_type_eq_dec : EqDecision meta_type.
Proof. solve_decision. Defined.

(** What a packet holds under a tag, for packets that hold no tag twice. *)
Definition meta_map (l : list mentry) : gmap Z (list Z) :=
  list_to_map ((λ e, (me_tag e, me_data e)) <$> l).

Definition distinct_tags (l : list mentry) : Prop := NoDup (me_tag <$> l).

(** [get_camera_metadata_tag_type] ([None]: no such tag) and
    [find_camera_metadata_ro_entry], which gives an entry with the tag. *)
Class MetadataLib := {
  get_camera_metadata_tag_type : Z → option meta_type;
  find_camera_metadata_ro_entry : list mentry → Z → option mentry;
  find_ro_some l t e :
    find_camera_metadata_ro_entry l t = Some e → e ∈ l ∧ me_tag e = t;
  find_ro_none l t e :
    find_camera_metadata_ro_entry l t = None → e ∈ l → me_tag e ≠ t
}.

Section packets.
  Context `{!MetadataLib}.

Lemma meta_map_lookup l e :
  distinct_tags l → e ∈ l → meta_map l !! me_tag e = Some (me_data e).
Proof.
  intros Hl He. apply elem_of_list_to_map.
  - rewrite <- list_fmap_compose. exact Hl.
  - apply list_elem_of_fmap. by exists e.
Qed.

Lemma meta_map_none l t :
  meta_map l !! t = None ↔ (∀ e, e ∈ l → me_tag e ≠ t).
Proof.
  unfold meta_map. rewrite <- not_elem_of_list_to_map, <- list_fmap_compose.
  split.
  - intros Hn e He <-. apply Hn, list_elem_of_fmap. by exists e.
  - intros Hn (e & -> & He)%list_elem_of_fmap. by eapply Hn.
Qed.

(** Finding a tag is looking it up. *)
Lemma find_ro_map l t :
  distinct_tags l → me_data <$> find_camera_metadata_ro_entry l t = meta_map l !! t.
Proof.
  intros Hl. destruct (find_camera_metadata_ro_entry l t) as [e|] eqn:Hf; cbn.
  - apply find_ro_some in Hf as [He <-]. by rewrite meta_map_lookup.
  - symmetry. apply meta_map_none. intros e. by apply find_ro_none.
Qed.

End packets.

(** ** The class CameraMetadata

    An object owns a buffer or none.  The operations are those the camera
    adapter calls; they may allocate, so they run on the state [K] of the world
    below.  The laws say what an object that is not locked does. *)
Class CameraMetadataApi (K : Type) `{!MetadataLib} := {
  md : Type;
  md_new : md;
  md_buffer : md → option packet;
  md_locked : md → bool;
  (** [getAndLock], whose result is the buffer, and [unlock] with its argument *)
  md_getAndLock : md → md;
  md_unlock : option packet → md → md;
  (** [operator=] of a packet *)
  md_assign : option packet → md → M K md;
  md_clear : md → M K md;
  (** [acquire] of a packet the caller owns *)
  md_acquire : option packet → md → M K md;
  md_update : Z → meta_type → list Z → md → M K (Z * md);
  (** [update] of an entry *)
  md_update_entry : mentry → md → M K (Z * md);
  md_erase : Z → md → M K (Z * md);
  (** [clone_camera_metadata] *)
  clone_camera_metadata : list mentry → M K (option packet)
}.

Definition md_entries `{CameraMetadataApi K} (m : md) : list mentry :=
  match md_buffer m with Some p => pk_entries p | None => [] end.

Definition md_isEmpty `{CameraMetadataApi K} (m : md) : bool :=
  bool_decide (md_entries m = []).

(** [find]: the elements of the entry, none when there is none. *)
Definition md_find `{CameraMetadataApi K} (m : md) (tag : Z) : list Z :=
  if md_locked m then []
  else match find_camera_metadata_ro_entry (md_entries m) tag with
       | Some e => me_data e
       | None => []
       end.

(** A new object of the same state: the buffer is a clone. *)
Definition md_copy `{CameraMetadataApi K} (m old : md) : M K md := md_assign (md_buffer m) old.

(** The object is open and holds no tag twice. *)
Definition md_ready `{CameraMetadataApi K} (m : md) : Prop :=
  md_locked m = false ∧ distinct_tags (md_entries m).

Definition md_map `{CameraMetadataApi K} (m : md) : gmap Z (list Z) := meta_map (md_entries m).

Class CameraMetadataLaws (K : Type) `{CameraMetadataApi K} := {
  md_new_empty : md_buffer md_new = None ∧ md_locked md_new = false;
  md_getAndLock_law m : md_buffer (md_getAndLock m) = md_buffer m ∧ md_locked (md_getAndLock m) = true;
  md_unlock_law m :
    md_buffer (md_unlock (md_buffer m) m) = md_buffer m ∧
    (md_locked m = true → md_locked (md_unlock (md_buffer m) m) = false);
  md_assign_law p m k :
    md_locked m = false →
    let m' := (md_assign p m k).1 in
    md_locked m' = false ∧
    (md_entries m' = [] ∨ (∃ q, p = Some q ∧ md_entries m' = pk_entries q));
  md_clear_law m k :
    md_locked m = false →
    md_buffer (md_clear m k).1 = None ∧ md_locked (md_clear m k).1 = false;
  md_acquire_law p m k :
    md_locked m = false →
    md_buffer (md_acquire p m k).1 = p ∧ md_locked (md_acquire p m k).1 = false;
  md_update_law tag ty data m k :
    md_ready m →
    let '(r, m') := (md_update tag ty data m k).1 in
    md_ready m' ∧ (r = 0 → md_map m' = <[tag := data]> (md_map m));
  md_update_entry_law e m k :
    md_ready m →
    let '(r, m') := (md_update_entry e m k).1 in
    md_ready m' ∧ (r = 0 → md_map m' = <[me_tag e := me_data e]> (md_map m));
  md_erase_law tag m k :
    md_ready m →
    let '(r, m') := (md_erase tag m k).1 in
    md_ready m' ∧ md_map m' = delete tag (md_map m);
  clone_law l k p : (clone_camera_metadata l k).1 = Some p → pk_entries p = l
}.

Section metadata_objects.
  Context {K : Type} `{CameraMetadataLaws K}.

Lemma md_find_map m tag : md_ready m → md_find m tag = default [] (md_map m !! tag).
Proof.
  intros [Hl Ht]. unfold md_find. rewrite Hl. unfold md_map.
  rewrite <- find_ro_map by done.
  by destruct (find_camera_metadata_ro_entry (md_entries m) tag).
Qed.

Lemma md_new_ready : md_ready md_new ∧ md_map md_new = ∅.
Proof.
  destruct md_new_empty as [Hb Hl]. unfold md_ready, md_map, md_entries. rewrite Hb.
  split; [split; [done|constructor]|done].
Qed.

Lemma md_isEmpty_map m : md_isEmpty m = bool_decide (md_map m = ∅).
Proof.
  unfold md_isEmpty, md_map, meta_map. apply bool_decide_ext.
  destruct (md_entries m) as [|e l]; cbn; [done|]. split; [done|].
  intros Hm. by apply insert_non_empty in Hm.
Qed.

End metadata_objects.
