(* ===== verification/LegacyMeta.v ===== *)
(** * Translating the stock camera's metadata (src/camera/LegacyMetadata.cpp)

    The stock library describes itself with the tags of HAL3.0;
    [buildCharacteristics] turns them into those of HAL3.2.  Requests and
    results are translated by [normalizeRequest], [mergeMetadata] and
    [finishResult].  All of them work on objects of the class CameraMetadata,
    seen through its interface. *)

From S2P Require Import Prelude CameraH.
From stdpp Require Import gmap sorting.

#[global] Open Scope Z_scope.

(** system/camera_metadata_tags.h: the tags and values the file uses. *)
Class CameraTags := {
  ANDROID_CONTROL_AE_ANTIBANDING_MODE : Z; ANDROID_CONTROL_AE_EXPOSURE_COMPENSATION : Z;
  ANDROID_CONTROL_AE_LOCK : Z; ANDROID_CONTROL_AE_MODE : Z; ANDROID_CONTROL_AE_REGIONS : Z;
  ANDROID_CONTROL_AE_TARGET_FPS_RANGE : Z; ANDROID_CONTROL_AE_PRECAPTURE_TRIGGER : Z;
  ANDROID_CONTROL_AF_MODE : Z; ANDROID_CONTROL_AF_REGIONS : Z; ANDROID_CONTROL_AF_TRIGGER : Z;
  ANDROID_CONTROL_AWB_LOCK : Z; ANDROID_CONTROL_AWB_MODE : Z; ANDROID_CONTROL_AWB_REGIONS : Z;
  ANDROID_CONTROL_CAPTURE_INTENT : Z; ANDROID_CONTROL_EFFECT_MODE : Z; ANDROID_CONTROL_MODE : Z;
  ANDROID_CONTROL_SCENE_MODE : Z; ANDROID_CONTROL_VIDEO_STABILIZATION_MODE : Z;
  ANDROID_EDGE_MODE : Z; ANDROID_FLASH_MODE : Z;
  ANDROID_JPEG_GPS_COORDINATES : Z; ANDROID_JPEG_GPS_PROCESSING_METHOD : Z;
  ANDROID_JPEG_GPS_TIMESTAMP : Z; ANDROID_JPEG_ORIENTATION : Z; ANDROID_JPEG_QUALITY : Z;
  ANDROID_JPEG_THUMBNAIL_QUALITY : Z; ANDROID_JPEG_THUMBNAIL_SIZE : Z;
  ANDROID_LENS_FOCAL_LENGTH : Z; ANDROID_LENS_FOCUS_DISTANCE : Z;
  ANDROID_LENS_OPTICAL_STABILIZATION_MODE : Z; ANDROID_NOISE_REDUCTION_MODE : Z;
  ANDROID_SCALER_CROP_REGION : Z; ANDROID_STATISTICS_FACE_DETECT_MODE : Z;
  ANDROID_SCALER_AVAILABLE_FORMATS : Z;
  ANDROID_SCALER_AVAILABLE_JPEG_SIZES : Z; ANDROID_SCALER_AVAILABLE_PROCESSED_SIZES : Z;
  ANDROID_SCALER_AVAILABLE_JPEG_MIN_DURATIONS : Z;
  ANDROID_SCALER_AVAILABLE_PROCESSED_MIN_DURATIONS : Z;
  ANDROID_SCALER_AVAILABLE_RAW_SIZES : Z; ANDROID_SCALER_AVAILABLE_RAW_MIN_DURATIONS : Z;
  ANDROID_SCALER_AVAILABLE_STREAM_CONFIGURATIONS : Z;
  ANDROID_SCALER_AVAILABLE_MIN_FRAME_DURATIONS : Z;
  ANDROID_SCALER_AVAILABLE_STALL_DURATIONS : Z;
  ANDROID_CONTROL_MAX_REGIONS : Z; ANDROID_LENS_INFO_MINIMUM_FOCUS_DISTANCE : Z;
  ANDROID_LENS_INFO_FOCUS_DISTANCE_CALIBRATION : Z;
  ANDROID_INFO_SUPPORTED_HARDWARE_LEVEL : Z; ANDROID_REQUEST_AVAILABLE_CAPABILITIES : Z;
  ANDROID_REQUEST_MAX_NUM_OUTPUT_STREAMS : Z; ANDROID_REQUEST_MAX_NUM_INPUT_STREAMS : Z;
  ANDROID_REQUEST_PIPELINE_MAX_DEPTH : Z; ANDROID_REQUEST_PARTIAL_RESULT_COUNT : Z;
  ANDROID_SYNC_MAX_LATENCY : Z; ANDROID_SENSOR_INFO_TIMESTAMP_SOURCE : Z;
  ANDROID_SCALER_CROPPING_TYPE : Z; ANDROID_EDGE_AVAILABLE_EDGE_MODES : Z;
  ANDROID_NOISE_REDUCTION_AVAILABLE_NOISE_REDUCTION_MODES : Z;
  ANDROID_HOT_PIXEL_AVAILABLE_HOT_PIXEL_MODES : Z; ANDROID_TONEMAP_AVAILABLE_TONE_MAP_MODES : Z;
  ANDROID_CONTROL_AVAILABLE_VIDEO_STABILIZATION_MODES : Z;
  ANDROID_CONTROL_AVAILABLE_HIGH_SPEED_VIDEO_CONFIGURATIONS : Z;
  ANDROID_QUIRKS_USE_PARTIAL_RESULT : Z; ANDROID_QUIRKS_PARTIAL_RESULT : Z;
  ANDROID_REQUEST_AVAILABLE_REQUEST_KEYS : Z; ANDROID_REQUEST_AVAILABLE_RESULT_KEYS : Z;
  ANDROID_REQUEST_AVAILABLE_CHARACTERISTICS_KEYS : Z;
  ANDROID_CONTROL_AE_STATE : Z; ANDROID_CONTROL_AF_STATE : Z; ANDROID_CONTROL_AWB_STATE : Z;
  ANDROID_SENSOR_EXPOSURE_TIME : Z; ANDROID_SENSOR_TIMESTAMP : Z; ANDROID_LENS_STATE : Z;
  ANDROID_LENS_FOCUS_RANGE : Z; ANDROID_LENS_APERTURE : Z; ANDROID_REQUEST_PIPELINE_DEPTH : Z;
  ANDROID_FLASH_STATE : Z; ANDROID_STATISTICS_FACE_RECTANGLES : Z;
  ANDROID_STATISTICS_FACE_SCORES : Z;
  ANDROID_CONTROL_AE_AVAILABLE_MODES : Z; ANDROID_CONTROL_AF_AVAILABLE_MODES : Z;
  ANDROID_CONTROL_AE_AVAILABLE_TARGET_FPS_RANGES : Z;
  ANDROID_CONTROL_AF_TRIGGER_ID : Z; ANDROID_CONTROL_AE_PRECAPTURE_ID : Z;
  (** values *)
  ANDROID_SCALER_AVAILABLE_STREAM_CONFIGURATIONS_OUTPUT : Z;
  ANDROID_LENS_INFO_FOCUS_DISTANCE_CALIBRATION_APPROXIMATE : Z;
  ANDROID_INFO_SUPPORTED_HARDWARE_LEVEL_LIMITED : Z;
  ANDROID_REQUEST_AVAILABLE_CAPABILITIES_BACKWARD_COMPATIBLE : Z;
  ANDROID_SYNC_MAX_LATENCY_UNKNOWN : Z; ANDROID_SENSOR_INFO_TIMESTAMP_SOURCE_UNKNOWN : Z;
  ANDROID_SCALER_CROPPING_TYPE_CENTER_ONLY : Z;
  ANDROID_EDGE_MODE_OFF : Z; ANDROID_EDGE_MODE_FAST : Z;
  ANDROID_NOISE_REDUCTION_MODE_OFF : Z; ANDROID_NOISE_REDUCTION_MODE_FAST : Z;
  ANDROID_HOT_PIXEL_MODE_OFF : Z; ANDROID_TONEMAP_MODE_FAST : Z;
  ANDROID_CONTROL_VIDEO_STABILIZATION_MODE_OFF : Z;
  ANDROID_CONTROL_AE_MODE_ON : Z; ANDROID_CONTROL_AF_MODE_OFF : Z;
  ANDROID_FLASH_STATE_UNAVAILABLE : Z; ANDROID_QUIRKS_PARTIAL_RESULT_PARTIAL : Z;
  ANDROID_CONTROL_AF_TRIGGER_IDLE : Z; ANDROID_CONTROL_AE_PRECAPTURE_TRIGGER_START : Z
}.

Definition kPipelineDepth : Z := 8.

Section legacy.
  Context {K : Type} `{CameraMetadataApi K} `{!CameraH} `{!CameraTags}.

Definition kRequestKeys : list Z :=
  [ANDROID_CONTROL_AE_ANTIBANDING_MODE; ANDROID_CONTROL_AE_EXPOSURE_COMPENSATION;
   ANDROID_CONTROL_AE_LOCK; ANDROID_CONTROL_AE_MODE; ANDROID_CONTROL_AE_REGIONS;
   ANDROID_CONTROL_AE_TARGET_FPS_RANGE; ANDROID_CONTROL_AE_PRECAPTURE_TRIGGER;
   ANDROID_CONTROL_AF_MODE; ANDROID_CONTROL_AF_REGIONS; ANDROID_CONTROL_AF_TRIGGER;
   ANDROID_CONTROL_AWB_LOCK; ANDROID_CONTROL_AWB_MODE; ANDROID_CONTROL_AWB_REGIONS;
   ANDROID_CONTROL_CAPTURE_INTENT; ANDROID_CONTROL_EFFECT_MODE; ANDROID_CONTROL_MODE;
   ANDROID_CONTROL_SCENE_MODE; ANDROID_CONTROL_VIDEO_STABILIZATION_MODE;
   ANDROID_EDGE_MODE; ANDROID_FLASH_MODE;
   ANDROID_JPEG_GPS_COORDINATES; ANDROID_JPEG_GPS_PROCESSING_METHOD;
   ANDROID_JPEG_GPS_TIMESTAMP; ANDROID_JPEG_ORIENTATION; ANDROID_JPEG_QUALITY;
   ANDROID_JPEG_THUMBNAIL_QUALITY; ANDROID_JPEG_THUMBNAIL_SIZE;
   ANDROID_LENS_FOCAL_LENGTH; ANDROID_LENS_FOCUS_DISTANCE;
   ANDROID_LENS_OPTICAL_STABILIZATION_MODE; ANDROID_NOISE_REDUCTION_MODE;
   ANDROID_SCALER_CROP_REGION; ANDROID_STATISTICS_FACE_DETECT_MODE].

(** [put] and [scalar]: whether the update succeeded. *)
Definition put (m : md) (tag : Z) (ty : meta_type) (values : list Z) : M K (bool * md) :=
  '(res, m) ← md_update tag ty values m; mret (bool_decide (res = 0), m).

Definition scalar (m : md) (tag : Z) (ty : meta_type) (value : Z) : M K (bool * md) :=
  put m tag ty [value].

(** The elements of an entry two by two, as [data.i32[i * 2]] and the next one. *)
Fixpoint pairs_of (l : list Z) : list (Z * Z) :=
  match l with x :: y :: l => (x, y) :: pairs_of l | _ => [] end.

(** One turn of the loop over the sizes of a format: the three lists of
    [buildCharacteristics]; [None]: it returns false. *)
Definition add_configuration (format : Z) (jpeg : bool) (size : Z * Z) (duration : Z)
    (acc : list Z * list Z * list Z) : option (list Z * list Z * list Z) :=
  let '(configurations, minimums, stalls) := acc in
  let '(width, height) := size in
  if bool_decide (width <= 0) || bool_decide (height <= 0) || bool_decide (duration <= 0) then None
  else if bool_decide (format = HAL_PIXEL_FORMAT_IMPLEMENTATION_DEFINED) &&
          bool_decide (33334334 < duration) then Some acc
  else Some (configurations ++
               [format; width; height; ANDROID_SCALER_AVAILABLE_STREAM_CONFIGURATIONS_OUTPUT],
             minimums ++ [format; width; height; duration],
             stalls ++ [format; width; height; if jpeg then duration else 0]).

Fixpoint add_sizes (format : Z) (jpeg : bool) (sizes : list (Z * Z)) (durations : list Z)
    (acc : list Z * list Z * list Z) : option (list Z * list Z * list Z) :=
  match sizes, durations with
  | size :: sizes, duration :: durations =>
      acc ← add_configuration format jpeg size duration acc;
      add_sizes format jpeg sizes durations acc
  | _, _ => Some acc
  end.

(** The loop over the formats; the object's entries do not change in it. *)
Fixpoint add_formats (m : md) (available : list Z) (formats : list Z)
    (acc : list Z * list Z * list Z) : option (list Z * list Z * list Z) :=
  match formats with
  | [] => Some acc
  | format :: formats =>
      if bool_decide (format ∈ available) then
        let jpeg := bool_decide (format = HAL_PIXEL_FORMAT_BLOB) in
        let sizes := md_find m (if jpeg then ANDROID_SCALER_AVAILABLE_JPEG_SIZES
                                else ANDROID_SCALER_AVAILABLE_PROCESSED_SIZES) in
        let durations := md_find m (if jpeg then ANDROID_SCALER_AVAILABLE_JPEG_MIN_DURATIONS
                                    else ANDROID_SCALER_AVAILABLE_PROCESSED_MIN_DURATIONS) in
        if bool_decide (sizes = []) || negb (Nat.even (length sizes)) ||
           bool_decide (length durations ≠ length sizes / 2)%nat then None
        else
          acc ← add_sizes format jpeg (pairs_of sizes) durations acc;
          add_formats m available formats acc
      else None
  end.

Definition formats : list Z :=
  [HAL_PIXEL_FORMAT_RGBA_8888; HAL_PIXEL_FORMAT_IMPLEMENTATION_DEFINED;
   HAL_PIXEL_FORMAT_YCbCr_420_888; HAL_PIXEL_FORMAT_BLOB].

(** A sequence of updates, each of which clears [ok] when it fails. *)
Fixpoint put_all (puts : list (Z * meta_type * list Z)) (ok : bool) (m : md) : M K (bool * md) :=
  match puts with
  | [] => mret (ok, m)
  | (tag, ty, values) :: puts =>
      '(done, m) ← put m tag ty values; put_all puts (ok && done) m
  end.

Fixpoint erase_all (tags : list Z) (m : md) : M K md :=
  match tags with
  | [] => mret m
  | tag :: tags => '(_, m) ← md_erase tag m; erase_all tags m
  end.

(** Whether a [float] is zero, of either sign. *)
Definition is_float_zero (bits : Z) : bool := bool_decide (Z.land bits 0x7FFFFFFF = 0).

(** The updates with values that do not depend on the stock packet. *)
Definition fixed_characteristics : list (Z * meta_type * list Z) :=
  [(ANDROID_LENS_INFO_FOCUS_DISTANCE_CALIBRATION, TYPE_BYTE,
      [ANDROID_LENS_INFO_FOCUS_DISTANCE_CALIBRATION_APPROXIMATE]);
   (ANDROID_INFO_SUPPORTED_HARDWARE_LEVEL, TYPE_BYTE,
      [ANDROID_INFO_SUPPORTED_HARDWARE_LEVEL_LIMITED]);
   (ANDROID_REQUEST_AVAILABLE_CAPABILITIES, TYPE_BYTE,
      [ANDROID_REQUEST_AVAILABLE_CAPABILITIES_BACKWARD_COMPATIBLE]);
   (ANDROID_REQUEST_MAX_NUM_OUTPUT_STREAMS, TYPE_INT32, [0; 3; 1]);
   (ANDROID_REQUEST_MAX_NUM_INPUT_STREAMS, TYPE_INT32, [0]);
   (ANDROID_REQUEST_PIPELINE_MAX_DEPTH, TYPE_BYTE, [kPipelineDepth]);
   (ANDROID_REQUEST_PARTIAL_RESULT_COUNT, TYPE_INT32, [1]);
   (ANDROID_SYNC_MAX_LATENCY, TYPE_INT32, [ANDROID_SYNC_MAX_LATENCY_UNKNOWN]);
   (ANDROID_SENSOR_INFO_TIMESTAMP_SOURCE, TYPE_BYTE,
      [ANDROID_SENSOR_INFO_TIMESTAMP_SOURCE_UNKNOWN]);
   (ANDROID_SCALER_CROPPING_TYPE, TYPE_BYTE, [ANDROID_SCALER_CROPPING_TYPE_CENTER_ONLY]);
   (ANDROID_EDGE_AVAILABLE_EDGE_MODES, TYPE_BYTE, [ANDROID_EDGE_MODE_OFF; ANDROID_EDGE_MODE_FAST]);
   (ANDROID_NOISE_REDUCTION_AVAILABLE_NOISE_REDUCTION_MODES, TYPE_BYTE,
      [ANDROID_NOISE_REDUCTION_MODE_OFF; ANDROID_NOISE_REDUCTION_MODE_FAST]);
   (ANDROID_HOT_PIXEL_AVAILABLE_HOT_PIXEL_MODES, TYPE_BYTE, [ANDROID_HOT_PIXEL_MODE_OFF]);
   (ANDROID_TONEMAP_AVAILABLE_TONE_MAP_MODES, TYPE_BYTE, [ANDROID_TONEMAP_MODE_FAST]);
   (ANDROID_CONTROL_AVAILABLE_VIDEO_STABILIZATION_MODES, TYPE_BYTE,
      [ANDROID_CONTROL_VIDEO_STABILIZATION_MODE_OFF])].

(** The tags that are erased. *)
Definition erased_tags : list Z :=
  [ANDROID_CONTROL_AVAILABLE_HIGH_SPEED_VIDEO_CONFIGURATIONS; ANDROID_QUIRKS_USE_PARTIAL_RESULT;
   ANDROID_SCALER_AVAILABLE_FORMATS; ANDROID_SCALER_AVAILABLE_JPEG_SIZES;
   ANDROID_SCALER_AVAILABLE_JPEG_MIN_DURATIONS; ANDROID_SCALER_AVAILABLE_PROCESSED_SIZES;
   ANDROID_SCALER_AVAILABLE_PROCESSED_MIN_DURATIONS; ANDROID_SCALER_AVAILABLE_RAW_SIZES;
   ANDROID_SCALER_AVAILABLE_RAW_MIN_DURATIONS].

Definition measured : list Z :=
  [ANDROID_CONTROL_AE_STATE; ANDROID_CONTROL_AF_STATE; ANDROID_CONTROL_AWB_STATE;
   ANDROID_SENSOR_EXPOSURE_TIME; ANDROID_SENSOR_TIMESTAMP;
   ANDROID_LENS_STATE; ANDROID_LENS_FOCUS_RANGE; ANDROID_LENS_APERTURE;
   ANDROID_REQUEST_PIPELINE_DEPTH; ANDROID_FLASH_STATE;
   ANDROID_STATISTICS_FACE_RECTANGLES; ANDROID_STATISTICS_FACE_SCORES].

(** [std::unique]: of equal neighbours one stays. *)
Fixpoint unique (l : list Z) : list Z :=
  match l with
  | [] => []
  | x :: l' =>
      match l' with
      | y :: _ => if bool_decide (x = y) then unique l' else x :: unique l'
      | [] => [x]
      end
  end.

(** [std::sort], [std::unique] and the [erase] of the rest. *)
Definition sorted_keys (l : list Z) : list Z := unique (merge_sort Z.le l).

Definition resultKeys : list Z := sorted_keys (kRequestKeys ++ measured).

(** The part of [buildCharacteristics] from the update of the regions on. *)
Definition describe_camera (maxRegions : list Z) (ok : bool) (m : md) : M K (bool * md) :=
  '(ok, m) ← put_all ((ANDROID_CONTROL_MAX_REGIONS, TYPE_INT32, maxRegions)
                        :: fixed_characteristics) ok m;
  m ← erase_all erased_tags m;
  '(ok, m) ← put_all [(ANDROID_REQUEST_AVAILABLE_REQUEST_KEYS, TYPE_INT32, kRequestKeys);
                      (ANDROID_REQUEST_AVAILABLE_RESULT_KEYS, TYPE_INT32, resultKeys)] ok m;
  let raw := md_buffer m in
  let m := md_unlock raw (md_getAndLock m) in
  let characteristicKeys :=
    sorted_keys ((me_tag <$> match raw with Some p => pk_entries p | None => [] end) ++
                 [ANDROID_REQUEST_AVAILABLE_CHARACTERISTICS_KEYS]) in
  put_all [(ANDROID_REQUEST_AVAILABLE_CHARACTERISTICS_KEYS, TYPE_INT32, characteristicKeys)] ok m.

(** The part from the first update on, with the lists the loops have made. *)
Definition write_characteristics (lists : list Z * list Z * list Z) (m : md) : M K (bool * md) :=
  let '(configurations, minimums, stalls) := lists in
  '(ok, m) ← put_all [(ANDROID_SCALER_AVAILABLE_STREAM_CONFIGURATIONS, TYPE_INT32, configurations);
                      (ANDROID_SCALER_AVAILABLE_MIN_FRAME_DURATIONS, TYPE_INT64, minimums);
                      (ANDROID_SCALER_AVAILABLE_STALL_DURATIONS, TYPE_INT64, stalls)] true m;
  let regions := md_find m ANDROID_CONTROL_MAX_REGIONS in
  if bool_decide (length regions ≠ 1 ∧ length regions ≠ 3)%nat then mret (false, m)
  else
    let r := default 0 (head regions) in
    let focus := md_find m ANDROID_LENS_INFO_MINIMUM_FOCUS_DISTANCE in
    let fixedFocus := match focus with [] => true | f :: _ => is_float_zero f end in
    describe_camera [r; r; if fixedFocus then 0 else r] ok m.

(** The result and [*output]. *)
Definition buildCharacteristics (stock : option packet) (output : md) : M K (bool * md) :=
  match stock with
  | None => mret (false, output)
  | Some stock =>
      copy ← clone_camera_metadata (pk_entries stock);
      match copy with
      | None => mret (false, output)
      | Some _ =>
          m ← md_acquire copy md_new;
          match add_formats m (md_find m ANDROID_SCALER_AVAILABLE_FORMATS) formats ([], [], []) with
          | None => mret (false, output)
          | Some lists =>
              '(ok, m) ← write_characteristics lists m;
              if ok : bool then output ← md_acquire (md_buffer m) output; mret (true, output)
              else mret (false, output)
          end
      end
  end.

(** ** Requests and results *)

(** What a const packet holds under a tag. *)
Definition ro_find (characteristics : list mentry) (tag : Z) : list Z :=
  match find_camera_metadata_ro_entry characteristics tag with Some e => me_data e | None => [] end.

(** A turn of the loop over the 3A modes; [None]: [normalizeRequest] returns false. *)
Definition normalize_mode (control supported replacement : Z) (characteristics : list mentry)
    (ok : bool) (request : md) : M K (option bool * md) :=
  match md_find request control with
  | [mode] =>
      let modes := ro_find characteristics supported in
      if bool_decide (modes = []) then mret (None, request)
      else if bool_decide (mode ∈ modes) then mret (Some ok, request)
      else
        '(done, request) ← scalar request control TYPE_BYTE replacement;
        mret (Some (ok && done), request)
  | _ => mret (Some ok, request)
  end.

Definition fps_valid (fps : list Z) : bool :=
  match fps with
  | [low; high] => bool_decide (0 < low) && bool_decide (low <= high)
  | _ => false
  end.

Definition normalize_fps (characteristics : list mentry) (ok : bool) (request : md) :
    M K (option bool * md) :=
  if fps_valid (md_find request ANDROID_CONTROL_AE_TARGET_FPS_RANGE) then mret (Some ok, request)
  else
    let ranges := ro_find characteristics ANDROID_CONTROL_AE_AVAILABLE_TARGET_FPS_RANGES in
    if bool_decide (length ranges < 2)%nat then mret (None, request)
    else
      '(done, request) ← put request ANDROID_CONTROL_AE_TARGET_FPS_RANGE TYPE_INT32 (take 2 ranges);
      mret (Some (ok && done), request).

Definition normalize_stabilization (ok : bool) (request : md) : M K (bool * md) :=
  if bool_decide (md_find request ANDROID_CONTROL_VIDEO_STABILIZATION_MODE =
                  [ANDROID_CONTROL_VIDEO_STABILIZATION_MODE_OFF]) then mret (ok, request)
  else
    '(done, request) ← scalar request ANDROID_CONTROL_VIDEO_STABILIZATION_MODE TYPE_BYTE
                         ANDROID_CONTROL_VIDEO_STABILIZATION_MODE_OFF;
    mret (ok && done, request).

Definition normalizeRequest (request : md) (characteristics : list mentry) : M K (bool * md) :=
  '(ae, request) ← normalize_mode ANDROID_CONTROL_AE_MODE ANDROID_CONTROL_AE_AVAILABLE_MODES
                     ANDROID_CONTROL_AE_MODE_ON characteristics true request;
  match ae with
  | None => mret (false, request)
  | Some ok =>
      '(af, request) ← normalize_mode ANDROID_CONTROL_AF_MODE ANDROID_CONTROL_AF_AVAILABLE_MODES
                         ANDROID_CONTROL_AF_MODE_OFF characteristics ok request;
      match af with
      | None => mret (false, request)
      | Some ok =>
          '(fps, request) ← normalize_fps characteristics ok request;
          match fps with
          | None => mret (false, request)
          | Some ok => normalize_stabilization ok request
          end
      end
  end.

(** The loop of [mergeMetadata] over the entries of the source. *)
Fixpoint merge_entries (entries : list mentry) (destination : md) : M K (bool * md) :=
  match entries with
  | [] => mret (true, destination)
  | entry :: entries =>
      if bool_decide (me_tag entry = ANDROID_QUIRKS_PARTIAL_RESULT) then
        merge_entries entries destination
      else
        '(res, destination) ← md_update_entry entry destination;
        if bool_decide (res ≠ 0) then mret (false, destination)
        else merge_entries entries destination
  end.

Definition mergeMetadata (destination : md) (source : option packet) : M K (bool * md) :=
  match source with
  | None => mret (true, destination)
  | Some source => merge_entries (pk_entries source) destination
  end.

(** The object [partials] is locked and unlocked again. *)
Definition finishResult (result : md) (partials : md) : M K (bool * md) :=
  '(ok, result) ← mergeMetadata result (md_buffer partials);
  '(_, result) ← md_erase ANDROID_QUIRKS_PARTIAL_RESULT result;
  put_all [(ANDROID_REQUEST_PIPELINE_DEPTH, TYPE_BYTE, [kPipelineDepth]);
           (ANDROID_FLASH_STATE, TYPE_BYTE, [ANDROID_FLASH_STATE_UNAVAILABLE])] ok result.

End legacy.
