(* ===== verification/LegacyMetaFacts.v ===== *)
(** * What the translation of metadata gives (src/camera/LegacyMetadata.cpp)

    Over any implementation of CameraMetadata that keeps the laws of its
    interface: requests are normalised as a function on maps says, and the
    characteristics list exactly the tags they hold. *)

From S2P Require Import Prelude CameraH LegacyMeta.
From stdpp Require Import gmap sorting.

#[global] Open Scope Z_scope.

(** ** Sorted keys *)

Lemma unique_elem l x : x ∈ unique l ↔ x ∈ l.
Proof.
  induction l as [|y l IH]; [done|]. cbn [unique]. destruct l as [|z l].
  - done.
  - case_bool_decide as Hyz.
    + rewrite IH, !elem_of_cons. subst. tauto.
    + rewrite elem_of_cons, IH, !elem_of_cons. tauto.
Qed.

Lemma unique_sorted l : StronglySorted Z.le l → StronglySorted Z.lt (unique l).
Proof.
  induction 1 as [|x l Hl IH Hx]; [constructor|]. cbn [unique]. destruct l as [|y l].
  - by repeat constructor.
  - case_bool_decide as Hxy; [done|]. constructor; [done|].
    apply Forall_forall. intros z Hz. rewrite unique_elem in Hz.
    rewrite Forall_forall in Hx. pose proof (Hx y ltac:(left)).
    assert (y <= z); [|lia].
    apply elem_of_cons in Hz as [->|Hz]; [lia|].
    inversion Hl as [|? ? _ Hy]; subst. rewrite Forall_forall in Hy. by apply Hy.
Qed.

Lemma sorted_keys_elem l x : x ∈ sorted_keys l ↔ x ∈ l.
Proof. unfold sorted_keys. by rewrite unique_elem, merge_sort_Permutation. Qed.

Lemma sorted_keys_sorted l : StronglySorted Z.lt (sorted_keys l).
Proof.
  apply unique_sorted, StronglySorted_merge_sort; [intros x y z; lia|intros x y; lia].
Qed.

(** ** Updates *)

Section facts.
  Context {K : Type} `{CameraMetadataLaws K} `{!CameraH} `{!CameraTags}.

(** The map after a sequence of updates. *)
Definition put_map (puts : list (Z * meta_type * list Z)) (mp : gmap Z (list Z)) : gmap Z (list Z) :=
  foldl (λ mp '(tag, _, values), <[tag := values]> mp) mp puts.

Definition put_post (mp : gmap Z (list Z)) (res : bool * md) : Prop :=
  md_ready res.2 ∧ (res.1 = true → md_map res.2 = mp).

Lemma put_returns m tag ty values :
  md_ready m → returns (put m tag ty values) (put_post (<[tag := values]> (md_map m))).
Proof.
  intros Hm k. unfold put. rewrite bind_run.
  pose proof (md_update_law tag ty values m k Hm) as Hlaw.
  destruct (md_update tag ty values m k) as [[r m'] k']. cbn in *.
  destruct Hlaw as [Hr Hmap]. split; [done|]. cbn. intros Hb.
  apply Hmap. by apply bool_decide_eq_true in Hb.
Qed.

Lemma put_all_returns puts ok m :
  md_ready m →
  returns (put_all puts ok m)
    (λ res, md_ready res.2 ∧ (res.1 = true → ok = true ∧ md_map res.2 = put_map puts (md_map m))).
Proof.
  revert ok m. induction puts as [|[[tag ty] values] puts IH]; intros ok m Hm; cbn [put_all].
  - apply returns_ret. by split.
  - eapply returns_bind; [by apply put_returns|]. intros [done m'] [Hm' Hmap]. cbn in *.
    eapply returns_post; [by apply IH|]. intros [ok' m''] [Hr Hok]. cbn in *.
    split; [done|]. intros Ht. destruct (Hok Ht) as [Hand Heq].
    apply andb_prop in Hand as [-> Hd]. split; [done|]. by rewrite Heq, Hmap.
Qed.

Lemma erase_all_returns tags m :
  md_ready m →
  returns (erase_all tags m)
    (λ m', md_ready m' ∧ md_map m' = foldl (λ mp t, delete t mp) (md_map m) tags).
Proof.
  revert m. induction tags as [|tag tags IH]; intros m Hm; cbn [erase_all].
  - by apply returns_ret.
  - eapply returns_bind with (R := λ '(_, m'), md_ready m' ∧ md_map m' = delete tag (md_map m)).
    + intros k. pose proof (md_erase_law tag m k Hm) as Hlaw.
      by destruct (md_erase tag m k) as [[r m'] k'].
    + intros [r m'] [Hm' Hmap]. eapply returns_post; [by apply IH|].
      intros m'' [Hr Heq]. split; [done|]. cbn. by rewrite Heq, Hmap.
Qed.

Lemma put_map_other puts mp t :
  (∀ tag ty v, (tag, ty, v) ∈ puts → tag ≠ t) → put_map puts mp !! t = mp !! t.
Proof.
  unfold put_map. revert mp. induction puts as [|[[tag ty] v] puts IH]; intros mp Hne; [done|].
  cbn. rewrite IH by (intros; eapply Hne; by right).
  rewrite lookup_insert_ne; [done|]. eapply Hne. left.
Qed.

(** The last update of a tag is what it holds. *)
Lemma put_map_last puts puts' tag ty v mp :
  (∀ tag' ty' v', (tag', ty', v') ∈ puts' → tag' ≠ tag) →
  put_map (puts ++ (tag, ty, v) :: puts') mp !! tag = Some v.
Proof.
  intros Hne. unfold put_map. rewrite foldl_app. cbn.
  change (foldl _ ?a puts') with (put_map puts' a).
  rewrite put_map_other by done. by rewrite lookup_insert_eq.
Qed.

Lemma deletes_lookup tags (mp : gmap Z (list Z)) t :
  foldl (λ mp t, delete t mp) mp tags !! t = if decide (t ∈ tags) then None else mp !! t.
Proof.
  revert mp. induction tags as [|tag tags IH]; intros mp; cbn; [done|].
  rewrite IH. destruct (decide (t ∈ tags)) as [Hin|Hin].
  - rewrite decide_True by by right. done.
  - destruct (decide (t = tag)) as [->|Hne].
    + rewrite decide_True by left. by rewrite lookup_delete_eq.
    + rewrite decide_False by (rewrite not_elem_of_cons; done). by rewrite lookup_delete_ne.
Qed.

(** ** Requests *)

(** What normalising does to the map of a request. *)
Definition normal_mode (control supported replacement : Z) (characteristics : list mentry)
    (mp : gmap Z (list Z)) : option (gmap Z (list Z)) :=
  match default [] (mp !! control) with
  | [mode] =>
      let modes := ro_find characteristics supported in
      if bool_decide (modes = []) then None
      else if bool_decide (mode ∈ modes) then Some mp
      else Some (<[control := [replacement]]> mp)
  | _ => Some mp
  end.

Definition normal_fps (characteristics : list mentry) (mp : gmap Z (list Z)) :
    option (gmap Z (list Z)) :=
  if fps_valid (default [] (mp !! ANDROID_CONTROL_AE_TARGET_FPS_RANGE)) then Some mp
  else
    let ranges := ro_find characteristics ANDROID_CONTROL_AE_AVAILABLE_TARGET_FPS_RANGES in
    if bool_decide (length ranges < 2)%nat then None
    else Some (<[ANDROID_CONTROL_AE_TARGET_FPS_RANGE := take 2 ranges]> mp).

Definition normal_request (characteristics : list mentry) (mp : gmap Z (list Z)) :
    option (gmap Z (list Z)) :=
  mp ← normal_mode ANDROID_CONTROL_AE_MODE ANDROID_CONTROL_AE_AVAILABLE_MODES
         ANDROID_CONTROL_AE_MODE_ON characteristics mp;
  mp ← normal_mode ANDROID_CONTROL_AF_MODE ANDROID_CONTROL_AF_AVAILABLE_MODES
         ANDROID_CONTROL_AF_MODE_OFF characteristics mp;
  mp ← normal_fps characteristics mp;
  Some (<[ANDROID_CONTROL_VIDEO_STABILIZATION_MODE :=
            [ANDROID_CONTROL_VIDEO_STABILIZATION_MODE_OFF]]> mp).

(** A step of [normalizeRequest] does what [f] does to the map. *)
Definition step_post (ok : bool) (f : option (gmap Z (list Z))) (res : option bool * md) : Prop :=
  md_ready res.2 ∧
  match res.1 with
  | None => f = None
  | Some ok' => is_Some f ∧ (ok' = true → ok = true ∧ f = Some (md_map res.2))
  end.

Lemma put_step m tag ty values ok mp' :
  md_ready m → mp' = <[tag := values]> (md_map m) →
  returns ('(done, request) ← put m tag ty values; mret (Some (ok && done), request))
    (step_post ok (Some mp')).
Proof.
  intros Hm ->. eapply returns_bind; [by apply put_returns|].
  intros [done m'] [Hm' Hmap]. apply returns_ret. split; [done|]. cbn.
  split; [by eexists|]. intros [-> ->]%andb_prop. split; [done|]. cbn in Hmap.
  by rewrite Hmap.
Qed.

Lemma normalize_mode_returns control supported replacement characteristics ok m :
  md_ready m →
  returns (normalize_mode control supported replacement characteristics ok m)
    (step_post ok (normal_mode control supported replacement characteristics (md_map m))).
Proof.
  intros Hm. unfold normalize_mode, normal_mode. rewrite (md_find_map m) by done.
  assert (Hkeep : returns (S := K) (mret (Some ok, m)) (step_post ok (Some (md_map m)))).
  { apply returns_ret. split; [done|]. cbn. split; [by eexists|]. by intros ->. }
  destruct (default [] _) as [|mode [|? ?]]; [done| |done].
  case_bool_decide; [apply returns_ret; by split|].
  case_bool_decide; [done|]. by apply put_step.
Qed.

Lemma normalize_fps_returns characteristics ok m :
  md_ready m →
  returns (normalize_fps characteristics ok m)
    (step_post ok (normal_fps characteristics (md_map m))).
Proof.
  intros Hm. unfold normalize_fps, normal_fps. rewrite (md_find_map m) by done.
  destruct (fps_valid _).
  - apply returns_ret. split; [done|]. cbn. split; [by eexists|]. by intros ->.
  - case_bool_decide; [apply returns_ret; by split|]. by apply put_step.
Qed.

Lemma normalize_stabilization_returns ok m :
  md_ready m →
  returns (normalize_stabilization ok m)
    (λ res, md_ready res.2 ∧
       (res.1 = true → ok = true ∧
          md_map res.2 = <[ANDROID_CONTROL_VIDEO_STABILIZATION_MODE :=
                             [ANDROID_CONTROL_VIDEO_STABILIZATION_MODE_OFF]]> (md_map m))).
Proof.
  intros Hm. unfold normalize_stabilization. rewrite (md_find_map m) by done.
  case_bool_decide as Hoff.
  - apply returns_ret. split; [done|]. cbn. intros ->. split; [done|].
    rewrite insert_id; [done|]. destruct (md_map m !! _); cbn in Hoff; congruence.
  - eapply returns_bind; [by apply put_returns|].
    intros [done m'] [Hm' Hmap]. apply returns_ret. split; [done|]. cbn.
    intros [-> ->]%andb_prop. split; [done|]. by apply Hmap.
Qed.

Lemma normalizeRequest_returns m characteristics :
  md_ready m →
  returns (normalizeRequest m characteristics)
    (λ res, md_ready res.2 ∧
       (res.1 = true → normal_request characteristics (md_map m) = Some (md_map res.2))).
Proof.
  intros Hm. unfold normalizeRequest, normal_request.
  eapply returns_bind; [by apply normalize_mode_returns|].
  intros [[ok1|] m1] [Hm1 Hs1]; cbn in Hm1, Hs1; [|by apply returns_ret].
  destruct Hs1 as [_ Hs1].
  eapply returns_bind; [by apply normalize_mode_returns|].
  intros [[ok2|] m2] [Hm2 Hs2]; cbn in Hm2, Hs2; [|by apply returns_ret].
  destruct Hs2 as [_ Hs2].
  eapply returns_bind; [by apply normalize_fps_returns|].
  intros [[ok3|] m3] [Hm3 Hs3]; cbn in Hm3, Hs3; [|by apply returns_ret].
  destruct Hs3 as [_ Hs3].
  eapply returns_post; [by apply normalize_stabilization_returns|].
  intros [ok m'] [Hm' Hs]. split; [done|]. cbn in *. intros Hok.
  destruct (Hs Hok) as [Hok3 Hmap]. destruct (Hs3 Hok3) as [Hok2 Hf3].
  destruct (Hs2 Hok2) as [Hok1 Hf2]. destruct (Hs1 Hok1) as [_ Hf1].
  rewrite Hf1. cbn. rewrite Hf2. cbn. rewrite Hf3. cbn. by rewrite Hmap.
Qed.

(** The tags of a request that [normalizeRequest] may change. *)
Definition normalized_tags : list Z :=
  [ANDROID_CONTROL_AE_MODE; ANDROID_CONTROL_AF_MODE; ANDROID_CONTROL_AE_TARGET_FPS_RANGE;
   ANDROID_CONTROL_VIDEO_STABILIZATION_MODE].

Lemma normal_mode_cases control supported replacement characteristics mp mp' :
  normal_mode control supported replacement characteristics mp = Some mp' →
  (∀ t, t ≠ control → mp' !! t = mp !! t) ∧
  (∀ mode, mp' !! control = Some [mode] →
     mode ∈ ro_find characteristics supported ∨ mode = replacement).
Proof.
  unfold normal_mode. intros Hn.
  assert (Hsame : (∀ mode, mp !! control ≠ Some [mode]) → mp' = mp →
    (∀ t, t ≠ control → mp' !! t = mp !! t) ∧
    (∀ mode, mp' !! control = Some [mode] →
       mode ∈ ro_find characteristics supported ∨ mode = replacement)).
  { intros Hno ->. split; [done|]. intros mode Hmode. by destruct (Hno mode). }
  destruct (mp !! control) as [[|mode [|x l]]|] eqn:Hc; cbn in Hn;
    try (injection Hn as <-; apply Hsame; [congruence|done]).
  case_bool_decide; [done|]. case_bool_decide as Hin; injection Hn as <-.
  - split; [done|]. intros mode'. rewrite Hc. intros [= <-]. by left.
  - split; [intros t Ht; by rewrite lookup_insert_ne|].
    intros mode'. rewrite lookup_insert_eq. intros [= <-]. by right.
Qed.

Lemma normal_fps_cases characteristics mp mp' :
  normal_fps characteristics mp = Some mp' →
  (∀ t, t ≠ ANDROID_CONTROL_AE_TARGET_FPS_RANGE → mp' !! t = mp !! t) ∧
  ∃ fps, mp' !! ANDROID_CONTROL_AE_TARGET_FPS_RANGE = Some fps ∧
    (fps_valid fps = true ∨
     fps = take 2 (ro_find characteristics ANDROID_CONTROL_AE_AVAILABLE_TARGET_FPS_RANGES)).
Proof.
  unfold normal_fps. intros Hn. destruct (fps_valid _) eqn:Hfps.
  - injection Hn as <-. split; [done|].
    destruct (mp !! ANDROID_CONTROL_AE_TARGET_FPS_RANGE) as [fps|]; [|done]. eauto.
  - case_bool_decide; [done|]. injection Hn as <-.
    split; [intros t Ht; by rewrite lookup_insert_ne|].
    eexists. rewrite lookup_insert_eq. eauto.
Qed.

(** A request that was normalised asks for modes the camera has (or the
    replacements), for a frame rate range that is a range or the camera's first
    one, and for no video stabilisation; nothing else has changed. *)
Theorem normalized_request m characteristics k m' :
  NoDup normalized_tags →
  md_ready m →
  (normalizeRequest m characteristics k).1 = (true, m') →
  md_ready m' ∧
  (∀ mode, md_map m' !! ANDROID_CONTROL_AE_MODE = Some [mode] →
     mode ∈ ro_find characteristics ANDROID_CONTROL_AE_AVAILABLE_MODES ∨
     mode = ANDROID_CONTROL_AE_MODE_ON) ∧
  (∀ mode, md_map m' !! ANDROID_CONTROL_AF_MODE = Some [mode] →
     mode ∈ ro_find characteristics ANDROID_CONTROL_AF_AVAILABLE_MODES ∨
     mode = ANDROID_CONTROL_AF_MODE_OFF) ∧
  (∃ fps, md_map m' !! ANDROID_CONTROL_AE_TARGET_FPS_RANGE = Some fps ∧
     (fps_valid fps = true ∨
      fps = take 2 (ro_find characteristics ANDROID_CONTROL_AE_AVAILABLE_TARGET_FPS_RANGES))) ∧
  md_map m' !! ANDROID_CONTROL_VIDEO_STABILIZATION_MODE =
    Some [ANDROID_CONTROL_VIDEO_STABILIZATION_MODE_OFF] ∧
  (∀ t, t ∉ normalized_tags → md_map m' !! t = md_map m !! t).
Proof.
  intros Hnd Hm Hr. pose proof (normalizeRequest_returns m characteristics Hm k) as [Hready Hmap].
  rewrite Hr in Hready, Hmap. cbn in Hready, Hmap. specialize (Hmap eq_refl).
  unfold normal_request in Hmap.
  destruct (normal_mode ANDROID_CONTROL_AE_MODE _ _ _ _) as [mp1|] eqn:H1n; [|done].
  cbn in Hmap.
  destruct (normal_mode ANDROID_CONTROL_AF_MODE _ _ _ _) as [mp2|] eqn:H2n; [|done].
  cbn in Hmap.
  destruct (normal_fps _ _) as [mp3|] eqn:H3n; [|done]. cbn in Hmap.
  injection Hmap as Hmap. symmetry in Hmap.
  apply normal_mode_cases in H1n as [Hk1 Hae]. apply normal_mode_cases in H2n as [Hk2 Haf].
  apply normal_fps_cases in H3n as [Hk3 Hfps].
  unfold normalized_tags in *. rewrite !NoDup_cons, !not_elem_of_cons in Hnd.
  destruct Hnd as ((N12 & N13 & N14 & _) & (N23 & N24 & _) & (N34 & _) & _).
  split; [done|]. rewrite Hmap. split_and!.
  - intros mode. rewrite lookup_insert_ne, Hk3, Hk2 by congruence. by apply Hae.
  - intros mode. rewrite lookup_insert_ne, Hk3 by congruence. by apply Haf.
  - rewrite lookup_insert_ne by congruence. done.
  - by rewrite lookup_insert_eq.
  - intros t Ht. rewrite !not_elem_of_cons in Ht. destruct Ht as (? & ? & ? & ? & _).
    by rewrite lookup_insert_ne, Hk3, Hk2, Hk1 by congruence.
Qed.

(** ** Results *)

(** The entries of a packet that are passed on. *)
Definition passed (l : list mentry) : list mentry :=
  filter (λ e, me_tag e ≠ ANDROID_QUIRKS_PARTIAL_RESULT) l.

Lemma merge_entries_returns l m :
  md_ready m →
  returns (merge_entries l m)
    (λ res, md_ready res.2 ∧
       (res.1 = true → md_map res.2 =
          foldl (λ mp e, <[me_tag e := me_data e]> mp) (md_map m) (passed l))).
Proof.
  revert m. induction l as [|e l IH]; intros m Hm; cbn [merge_entries].
  - by apply returns_ret.
  - unfold passed. rewrite filter_cons. case_bool_decide as He.
    + rewrite decide_False by (by intros ?). by apply IH.
    + rewrite decide_True by done. cbn [foldl].
      eapply returns_bind with (R := λ '(r, m'), md_ready m' ∧
        (r = 0 → md_map m' = <[me_tag e := me_data e]> (md_map m))).
      { intros k. pose proof (md_update_entry_law e m k Hm) as Hlaw.
        by destruct (md_update_entry e m k) as [[r m'] k']. }
      intros [r m'] [Hm' Hmap]. case_bool_decide as Hr; [by apply returns_ret|].
      rewrite <- Hmap by lia. by apply IH.
Qed.

Lemma foldl_entries l (mp : gmap Z (list Z)) t :
  distinct_tags l →
  foldl (λ mp e, <[me_tag e := me_data e]> mp) mp l !! t =
    match meta_map l !! t with Some d => Some d | None => mp !! t end.
Proof.
  unfold distinct_tags. revert mp.
  induction l as [|e l IH]; intros mp Hl; cbn; [done|].
  cbn in Hl. apply NoDup_cons in Hl as [Hn Hl]. rewrite IH by done.
  change (list_to_map _) with (meta_map l).
  destruct (decide (t = me_tag e)) as [->|Ht].
  - rewrite !lookup_insert_eq.
    replace (meta_map l !! me_tag e) with (None (A := list Z)); [done|].
    symmetry. apply meta_map_none. intros e' He' Heq. apply Hn.
    rewrite <- Heq. by apply list_elem_of_fmap_2.
  - by rewrite !lookup_insert_ne by done.
Qed.

Lemma passed_distinct l : distinct_tags l → distinct_tags (passed l).
Proof.
  unfold distinct_tags, passed. intros Hl.
  eapply sublist_NoDup; [exact Hl|]. apply fmap_sublist, sublist_filter.
Qed.

Lemma passed_map l t :
  distinct_tags l →
  meta_map (passed l) !! t = if decide (t = ANDROID_QUIRKS_PARTIAL_RESULT) then None
                             else meta_map l !! t.
Proof.
  intros Hl. destruct (decide _) as [->|Ht].
  - apply meta_map_none. intros e He. by apply list_elem_of_filter in He as [? _].
  - destruct (meta_map l !! t) as [d|] eqn:Hd.
    + apply elem_of_list_to_map_2, list_elem_of_fmap in Hd as (e & [= -> ->] & He).
      apply meta_map_lookup; [by apply passed_distinct|]. by apply list_elem_of_filter.
    + rewrite meta_map_none in Hd. apply meta_map_none.
      intros e [_ He]%list_elem_of_filter. by apply Hd.
Qed.

(** The map of a final packet after [finishResult]. *)
Lemma finishResult_returns m1 partials :
  md_ready m1 →
  returns (finishResult m1 partials) (λ res,
    res.1 = true → md_map res.2 =
      put_map [(ANDROID_REQUEST_PIPELINE_DEPTH, TYPE_BYTE, [kPipelineDepth]);
               (ANDROID_FLASH_STATE, TYPE_BYTE, [ANDROID_FLASH_STATE_UNAVAILABLE])]
        (delete ANDROID_QUIRKS_PARTIAL_RESULT
           (foldl (λ mp e, <[me_tag e := me_data e]> mp) (md_map m1)
              (passed (md_entries partials))))).
Proof.
  intros Hm1. unfold finishResult.
  eapply returns_bind with (R := λ res, md_ready res.2 ∧
    (res.1 = true → md_map res.2 = foldl (λ mp e, <[me_tag e := me_data e]> mp) (md_map m1)
                                     (passed (md_entries partials)))).
  { unfold mergeMetadata, md_entries. destruct (md_buffer partials).
    - by apply merge_entries_returns.
    - by apply returns_ret. }
  intros [ok m3] [Hm3 Hmap3]. cbn in Hm3, Hmap3.
  eapply returns_bind with (R := λ '(_, m4), md_ready m4 ∧
    md_map m4 = delete ANDROID_QUIRKS_PARTIAL_RESULT (md_map m3)).
  { intros k. pose proof (md_erase_law ANDROID_QUIRKS_PARTIAL_RESULT m3 k Hm3) as Hlaw.
    by destruct (md_erase ANDROID_QUIRKS_PARTIAL_RESULT m3 k) as [[r m4] k']. }
  intros [r m4] [Hm4 Hmap4].
  eapply returns_post; [by apply put_all_returns|].
  intros [ok' m5] [Hm5 Hmap5]. cbn in *. intros Hok'.
  destruct (Hmap5 Hok') as [Hok Heq]. by rewrite Heq, Hmap4, Hmap3.
Qed.

(** What the client gets of a frame: the measured values of the partial packets
    before those of the final one, the adapter's pipeline depth and flash state,
    and not the mark of a partial packet. *)
Theorem finished_result final partials k1 m1 k2 m2 :
  distinct_tags (pk_entries final) →
  distinct_tags (md_entries partials) →
  ANDROID_QUIRKS_PARTIAL_RESULT ≠ ANDROID_REQUEST_PIPELINE_DEPTH →
  ANDROID_QUIRKS_PARTIAL_RESULT ≠ ANDROID_FLASH_STATE →
  ANDROID_REQUEST_PIPELINE_DEPTH ≠ ANDROID_FLASH_STATE →
  (mergeMetadata md_new (Some final) k1).1 = (true, m1) →
  (finishResult m1 partials k2).1 = (true, m2) →
  md_map m2 !! ANDROID_REQUEST_PIPELINE_DEPTH = Some [kPipelineDepth] ∧
  md_map m2 !! ANDROID_FLASH_STATE = Some [ANDROID_FLASH_STATE_UNAVAILABLE] ∧
  md_map m2 !! ANDROID_QUIRKS_PARTIAL_RESULT = None ∧
  ∀ t, t ∉ [ANDROID_REQUEST_PIPELINE_DEPTH; ANDROID_FLASH_STATE; ANDROID_QUIRKS_PARTIAL_RESULT] →
    md_map m2 !! t = match md_map partials !! t with
                     | Some d => Some d
                     | None => meta_map (pk_entries final) !! t
                     end.
Proof.
  intros Hf Hp Npd Npf Ndf Hmerge Hfinish. destruct md_new_ready as [Hn0 He0].
  pose proof (merge_entries_returns (pk_entries final) md_new Hn0 k1) as [Hm1 Hmap1].
  cbn in Hmerge. rewrite Hmerge in Hm1, Hmap1. cbn in Hm1, Hmap1. specialize (Hmap1 eq_refl).
  rewrite He0 in Hmap1.
  pose proof (finishResult_returns m1 partials Hm1 k2) as Hall.
  rewrite Hfinish in Hall. cbn in Hall. rewrite (Hall eq_refl). clear Hall.
  split_and!.
  - rewrite lookup_insert_ne by done. by rewrite lookup_insert_eq.
  - by rewrite lookup_insert_eq.
  - rewrite !lookup_insert_ne by done. by rewrite lookup_delete_eq.
  - intros t Ht. rewrite !not_elem_of_cons in Ht. destruct Ht as (T1 & T2 & T3 & _).
    rewrite !lookup_insert_ne, lookup_delete_ne by done.
    rewrite foldl_entries, Hmap1 by by apply passed_distinct.
    rewrite passed_map by done. rewrite decide_False by done.
    fold (md_map partials). destruct (md_map partials !! t); [done|].
    rewrite foldl_entries by by apply passed_distinct.
    rewrite passed_map by done. rewrite decide_False by done.
    by destruct (meta_map (pk_entries final) !! t).
Qed.

End facts.

(** * What the camera's characteristics say (src/camera/LegacyMetadata.cpp)

    [buildCharacteristics] over any implementation of CameraMetadata that keeps
    the laws of its interface. *)

Section facts.
  Context {K : Type} `{CameraMetadataLaws K} `{!CameraH} `{!CameraTags}.

(** ** Stream configurations *)

(** An advertised configuration: format, width, height and shortest duration. *)
Record row := Row { ro_format : Z; ro_width : Z; ro_height : Z; ro_duration : Z }.

(** The three lists that describe them. *)
Definition row_lists (rows : list row) : list Z * list Z * list Z :=
  (rows ≫= (λ r, [ro_format r; ro_width r; ro_height r;
                  ANDROID_SCALER_AVAILABLE_STREAM_CONFIGURATIONS_OUTPUT]),
   rows ≫= (λ r, [ro_format r; ro_width r; ro_height r; ro_duration r]),
   rows ≫= (λ r, [ro_format r; ro_width r; ro_height r;
                  if bool_decide (ro_format r = HAL_PIXEL_FORMAT_BLOB) then ro_duration r else 0])).

(** The opaque preview format at less than 30 frames per second. *)
Definition too_slow (r : row) : Prop :=
  ro_format r = HAL_PIXEL_FORMAT_IMPLEMENTATION_DEFINED ∧ 33334334 < ro_duration r.

Definition row_ok (r : row) : Prop :=
  0 < ro_width r ∧ 0 < ro_height r ∧ 0 < ro_duration r ∧ ¬ too_slow r.

(** The configurations of a format by the stock packet's sizes and durations. *)
Definition stock_row (format : Z) (sizes : list (Z * Z)) (durations : list Z) (r : row) : Prop :=
  ro_format r = format ∧ ∃ i : nat,
    sizes !! i = Some (ro_width r, ro_height r) ∧ durations !! i = Some (ro_duration r).

Lemma row_lists_app rows rows' :
  row_lists (rows ++ rows') =
    ((row_lists rows).1.1 ++ (row_lists rows').1.1, (row_lists rows).1.2 ++ (row_lists rows').1.2,
     (row_lists rows).2 ++ (row_lists rows').2).
Proof. unfold row_lists. cbn. by rewrite !bind_app. Qed.

Lemma stock_row_nil format durations r : ¬ stock_row format [] durations r.
Proof. by intros (_ & i & Hs & _). Qed.

Lemma stock_row_nil_r format sizes r : ¬ stock_row format sizes [] r.
Proof. by intros (_ & i & _ & Hd). Qed.

Lemma stock_row_cons format w h sizes d durations r :
  stock_row format ((w, h) :: sizes) (d :: durations) r ↔
  r = Row format w h d ∨ stock_row format sizes durations r.
Proof.
  split.
  - intros (Hf & [|i] & Hs & Hd); cbn in Hs, Hd.
    + left. destruct r; cbn in *. congruence.
    + right. split; [done|]. by exists i.
  - intros [->|(Hf & i & Hs & Hd)]; split; cbn; try done.
    + by exists O.
    + by exists (S i).
Qed.

Lemma add_sizes_rows format sizes durations rows acc :
  add_sizes format (bool_decide (format = HAL_PIXEL_FORMAT_BLOB)) sizes durations
    (row_lists rows) = Some acc →
  ∃ rows', acc = row_lists (rows ++ rows') ∧
    ∀ r, r ∈ rows' ↔ stock_row format sizes durations r ∧ row_ok r.
Proof.
  revert durations rows. induction sizes as [|[w h] sizes IH]; intros [|d durations] rows Hadd;
    cbn [add_sizes] in Hadd;
    try (injection Hadd as <-; exists []; rewrite app_nil_r; split; [done|]; intros r;
         split; [intros Hr; by apply not_elem_of_nil in Hr
                |intros [Hr _]; by apply stock_row_nil in Hr || apply stock_row_nil_r in Hr]).
  destruct (add_configuration _ _ _ _ _) as [acc'|] eqn:Hc; [|done]. cbn in Hadd.
  unfold add_configuration in Hc. cbn in Hc.
  destruct (_ || _) eqn:Hpos in Hc; [done|].
  apply orb_false_iff in Hpos as [[Hw%bool_decide_eq_false Hh%bool_decide_eq_false]%orb_false_iff
                                    Hd%bool_decide_eq_false].
  destruct (_ && _) eqn:Hslow in Hc; injection Hc as <-.
  - apply andb_prop in Hslow as [Hi%bool_decide_eq_true Hl%bool_decide_eq_true].
    change (_, _, _) with (row_lists rows) in Hadd.
    destruct (IH _ _ Hadd) as (rows' & Hacc & Hrows). exists rows'. split; [done|].
    intros r. rewrite Hrows, stock_row_cons.
    split; [tauto|]. intros [[->|Hr] Hok]; [|done].
    destruct Hok as (_ & _ & _ & Hns). exfalso. by apply Hns.
  - assert (Hns : ¬ too_slow (Row format w h d)).
    { intros [Hi Hl]. cbn in Hi, Hl. rewrite bool_decide_true in Hslow by done.
      by rewrite bool_decide_true in Hslow by done. }
    assert (Hnew : row_lists (rows ++ [Row format w h d]) = row_lists (rows ++ [Row format w h d]))
      by done.
    rewrite row_lists_app in Hnew at 1. cbn in Hnew. rewrite Hnew in Hadd.
    destruct (IH _ _ Hadd) as (rows' & Hacc & Hrows).
    exists (Row format w h d :: rows'). rewrite <- app_assoc in Hacc. split; [done|].
    intros r. rewrite elem_of_cons, Hrows, stock_row_cons.
    split; [|tauto]. intros [->|]; [|tauto]. split; [by left|].
    split_and!; cbn; [lia..|done].
Qed.

(** The sizes and durations the stock packet has for a format. *)
Definition stock_sizes (mp : gmap Z (list Z)) (format : Z) : list (Z * Z) :=
  pairs_of (default [] (mp !! (if bool_decide (format = HAL_PIXEL_FORMAT_BLOB)
                               then ANDROID_SCALER_AVAILABLE_JPEG_SIZES
                               else ANDROID_SCALER_AVAILABLE_PROCESSED_SIZES))).

Definition stock_durations (mp : gmap Z (list Z)) (format : Z) : list Z :=
  default [] (mp !! (if bool_decide (format = HAL_PIXEL_FORMAT_BLOB)
                     then ANDROID_SCALER_AVAILABLE_JPEG_MIN_DURATIONS
                     else ANDROID_SCALER_AVAILABLE_PROCESSED_MIN_DURATIONS)).

Lemma add_formats_rows m available fs rows acc :
  md_ready m →
  add_formats m available fs (row_lists rows) = Some acc →
  ∃ rows', acc = row_lists (rows ++ rows') ∧
    ∀ r, r ∈ rows' ↔
      row_ok r ∧ ∃ f, f ∈ fs ∧
        stock_row f (stock_sizes (md_map m) f) (stock_durations (md_map m) f) r.
Proof.
  intros Hm. revert rows. induction fs as [|f fs IH]; intros rows Hadd; cbn [add_formats] in Hadd.
  - injection Hadd as <-. exists []. rewrite app_nil_r. split; [done|].
    intros r. split; [intros Hr; by apply not_elem_of_nil in Hr|].
    intros (_ & f & Hf & _). by apply not_elem_of_nil in Hf.
  - case_bool_decide; [|done]. destruct (_ || _) in Hadd; [done|].
    destruct (add_sizes _ _ _ _ _) as [acc1|] eqn:Hs; [|done]. cbn in Hadd.
    rewrite !md_find_map in Hs by done.
    destruct (add_sizes_rows _ _ _ _ _ Hs) as (rows1 & -> & Hrows1).
    destruct (IH _ Hadd) as (rows2 & -> & Hrows2).
    exists (rows1 ++ rows2). rewrite app_assoc. split; [done|].
    intros r. rewrite elem_of_app, Hrows1, Hrows2. split.
    + intros [[Hr Hok]|(Hok & f' & Hf & Hr)].
      * split; [done|]. exists f. split; [left|done].
      * split; [done|]. exists f'. split; [by right|done].
    + intros (Hok & f' & Hf & Hr). apply elem_of_cons in Hf as [->|Hf]; [by left|].
      right. split; [done|]. by exists f'.
Qed.

(** ** The packet as a whole *)

(** The updates between the loops and the list of keys. *)
Definition early_puts (rows : list row) (regions : list Z) : list (Z * meta_type * list Z) :=
  [(ANDROID_SCALER_AVAILABLE_STREAM_CONFIGURATIONS, TYPE_INT32, (row_lists rows).1.1);
   (ANDROID_SCALER_AVAILABLE_MIN_FRAME_DURATIONS, TYPE_INT64, (row_lists rows).1.2);
   (ANDROID_SCALER_AVAILABLE_STALL_DURATIONS, TYPE_INT64, (row_lists rows).2);
   (ANDROID_CONTROL_MAX_REGIONS, TYPE_INT32, regions)] ++ fixed_characteristics.

Definition late_puts : list (Z * meta_type * list Z) :=
  [(ANDROID_REQUEST_AVAILABLE_REQUEST_KEYS, TYPE_INT32, kRequestKeys);
   (ANDROID_REQUEST_AVAILABLE_RESULT_KEYS, TYPE_INT32, resultKeys)].

Definition put_tag (p : Z * meta_type * list Z) : Z := p.1.1.

(** The tags [buildCharacteristics] writes or erases. *)
Definition characteristics_tags : list Z :=
  (put_tag <$> early_puts [] []) ++ erased_tags ++ (put_tag <$> late_puts) ++
  [ANDROID_REQUEST_AVAILABLE_CHARACTERISTICS_KEYS].

(** The map of the characteristics before the list of their keys is added. *)
Definition characteristics_map (rows : list row) (regions : list Z) (mp : gmap Z (list Z)) :
    gmap Z (list Z) :=
  put_map late_puts
    (foldl (λ mp t, delete t mp) (put_map (early_puts rows regions) mp) erased_tags).

Lemma meta_map_dom l t : distinct_tags l → is_Some (meta_map l !! t) ↔ t ∈ (me_tag <$> l).
Proof.
  intros Hl. rewrite list_elem_of_fmap. split.
  - intros [d Hd]. apply elem_of_list_to_map_2, list_elem_of_fmap in Hd as (e & [= -> ->] & He).
    by exists e.
  - intros (e & -> & He). rewrite meta_map_lookup by done. by eexists.
Qed.

Lemma md_relock m :
  md_locked m = false →
  let m' := md_unlock (md_buffer m) (md_getAndLock m) in
  md_buffer m' = md_buffer m ∧ md_locked m' = false.
Proof.
  intros Hm. destruct (md_getAndLock_law m) as [Hb Hl].
  destruct (md_unlock_law (md_getAndLock m)) as [Hb' Hl']. cbn. rewrite Hb in Hb', Hl'.
  split; [done|]. by apply Hl'.
Qed.

Lemma put_map_app puts puts' mp : put_map (puts ++ puts') mp = put_map puts' (put_map puts mp).
Proof. apply foldl_app. Qed.

(** What the last part of the function makes of the map it starts from. *)
Lemma describe_camera_returns regions ok m :
  md_ready m →
  returns (describe_camera regions ok m) (λ res,
    res.1 = true →
    ok = true ∧ md_locked res.2 = false ∧ ∃ keys,
      let mp := put_map late_puts
        (foldl (λ mp t, delete t mp)
           (put_map ((ANDROID_CONTROL_MAX_REGIONS, TYPE_INT32, regions) :: fixed_characteristics)
              (md_map m)) erased_tags) in
      (∀ t, t ∈ keys ↔ is_Some (mp !! t) ∨ t = ANDROID_REQUEST_AVAILABLE_CHARACTERISTICS_KEYS) ∧
      StronglySorted Z.lt keys ∧
      md_map res.2 = <[ANDROID_REQUEST_AVAILABLE_CHARACTERISTICS_KEYS := keys]> mp).
Proof.
  intros Hm. unfold describe_camera.
  eapply returns_bind; [by apply put_all_returns|]. intros [ok2 m2] [Hm2 Hmap2].
  cbn [fst snd] in *.
  eapply returns_bind; [by apply erase_all_returns|]. intros m3 [Hm3 Hmap3].
  eapply returns_bind; [by apply put_all_returns|]. intros [ok4 m4] [Hm4 Hmap4].
  cbn [fst snd] in *. destruct (md_relock m4 (proj1 Hm4)) as [Hb5 Hl5]. cbn [fst snd] in Hb5, Hl5.
  cbv zeta. set (m5 := md_unlock _ _) in *.
  assert (Hm5 : md_ready m5) by (split; [done|unfold md_entries; rewrite Hb5; apply Hm4]).
  eapply returns_post; [by apply put_all_returns|]. intros [ok6 m6] [Hm6 Hmap6].
  cbn [fst snd] in *. intros Hok. destruct (Hmap6 Hok) as [Hok4 Heq6].
  destruct (Hmap4 Hok4) as [Hok2 Heq4]. destruct (Hmap2 Hok2) as [Hok1 Heq2].
  split; [done|]. split; [apply Hm6|].
  exists (sorted_keys ((me_tag <$> md_entries m4) ++
                  [ANDROID_REQUEST_AVAILABLE_CHARACTERISTICS_KEYS])). rewrite <- Heq2, <- Hmap3.
  fold late_puts in Heq4. rewrite <- Heq4. split_and!.
  - intros t. rewrite sorted_keys_elem, elem_of_app, list_elem_of_singleton.
    unfold md_map. by rewrite meta_map_dom by apply Hm4.
  - apply sorted_keys_sorted.
  - rewrite Heq6. unfold put_map, md_map, md_entries. cbn [foldl]. by rewrite Hb5.
Qed.

Lemma write_characteristics_returns rows m :
  md_ready m →
  returns (write_characteristics (row_lists rows) m) (λ res,
    res.1 = true →
    md_locked res.2 = false ∧ ∃ regions keys,
      let mp := characteristics_map rows regions (md_map m) in
      (∀ t, t ∈ keys ↔ is_Some (mp !! t) ∨ t = ANDROID_REQUEST_AVAILABLE_CHARACTERISTICS_KEYS) ∧
      StronglySorted Z.lt keys ∧
      md_map res.2 = <[ANDROID_REQUEST_AVAILABLE_CHARACTERISTICS_KEYS := keys]> mp).
Proof.
  intros Hm. unfold write_characteristics. cbn [row_lists].
  eapply returns_bind; [by apply put_all_returns|]. intros [ok1 m1] [Hm1 Hmap1].
  cbn [fst snd] in *. cbv zeta. case_bool_decide; [by apply returns_ret|].
  eapply returns_post; [by apply describe_camera_returns|]. intros [ok6 m6] Hres Hok.
  destruct (Hres Hok) as (Hok1 & Hl & keys & Hkeys & Hsort & Heq). cbn [fst snd] in *.
  split; [done|]. eexists _, keys. destruct (Hmap1 Hok1) as [_ Heq1].
  unfold characteristics_map, early_puts. rewrite put_map_app. cbn zeta.
  rewrite Heq1 in Hkeys, Heq. split_and!; [exact Hkeys|exact Hsort|exact Heq].
Qed.

Lemma put_map_elem puts mp tag ty v :
  NoDup (put_tag <$> puts) → (tag, ty, v) ∈ puts → put_map puts mp !! tag = Some v.
Proof.
  intros Hnd (l1 & l2 & ->)%list_elem_of_split.
  apply put_map_last. intros tag' ty' v' Hin ->.
  rewrite fmap_app, fmap_cons in Hnd. apply NoDup_app in Hnd as (_ & _ & Hnd).
  apply NoDup_cons in Hnd as [Hn _]. apply Hn.
  apply list_elem_of_fmap. by exists (tag, ty', v').
Qed.

Lemma put_map_absent puts mp t : t ∉ (put_tag <$> puts) → put_map puts mp !! t = mp !! t.
Proof.
  intros Hn. apply put_map_other. intros tag ty v Hin ->. apply Hn.
  apply list_elem_of_fmap. by exists (t, ty, v).
Qed.

Lemma early_tags rows regions : put_tag <$> early_puts rows regions = put_tag <$> early_puts [] [].
Proof. done. Qed.

Section distinct.
  Context (Hnd : NoDup characteristics_tags).

Lemma characteristics_tags_parts :
  NoDup (put_tag <$> early_puts [] []) ∧ NoDup (put_tag <$> late_puts) ∧
  (∀ t, t ∈ (put_tag <$> early_puts [] []) →
     t ∉ erased_tags ∧ t ∉ (put_tag <$> late_puts) ∧
     t ≠ ANDROID_REQUEST_AVAILABLE_CHARACTERISTICS_KEYS) ∧
  (∀ t, t ∈ erased_tags →
     t ∉ (put_tag <$> late_puts) ∧ t ≠ ANDROID_REQUEST_AVAILABLE_CHARACTERISTICS_KEYS).
Proof.
  unfold characteristics_tags in Hnd.
  apply NoDup_app in Hnd as (He & Hx & Hrest). apply NoDup_app in Hrest as (_ & Hy & Hrest).
  apply NoDup_app in Hrest as (Hl & _ & _). split_and!; [done|done| |].
  - intros t Ht. specialize (Hx t Ht). rewrite !elem_of_app, list_elem_of_singleton in Hx. tauto.
  - intros t Ht. specialize (Hy t Ht). rewrite elem_of_app, list_elem_of_singleton in Hy. tauto.
Qed.

Lemma early_characteristics rows regions keys mp tag ty v :
  (tag, ty, v) ∈ early_puts rows regions →
  (<[ANDROID_REQUEST_AVAILABLE_CHARACTERISTICS_KEYS := keys]>
     (characteristics_map rows regions mp)) !! tag = Some v.
Proof.
  intros Hin. destruct characteristics_tags_parts as (He & Hl & Hx & _).
  assert (Ht : tag ∈ (put_tag <$> early_puts [] [])).
  { rewrite <- (early_tags rows regions). apply list_elem_of_fmap. by exists (tag, ty, v). }
  destruct (Hx tag Ht) as (Hne & Hnl & Hnk).
  rewrite lookup_insert_ne by done. unfold characteristics_map.
  rewrite put_map_absent, deletes_lookup, decide_False by done.
  by apply (put_map_elem _ _ _ ty).
Qed.

Lemma erased_characteristics rows regions keys mp tag :
  tag ∈ erased_tags →
  (<[ANDROID_REQUEST_AVAILABLE_CHARACTERISTICS_KEYS := keys]>
     (characteristics_map rows regions mp)) !! tag = None.
Proof.
  intros Hin. destruct characteristics_tags_parts as (_ & _ & _ & Hx).
  destruct (Hx tag Hin) as [Hnl Hnk]. rewrite lookup_insert_ne by done.
  unfold characteristics_map. by rewrite put_map_absent, deletes_lookup, decide_True by done.
Qed.

End distinct.

(** C24: The characteristics shown advertise exactly the stock configurations that
    are in order and fast enough, each with its duration and stall; they have
    the adapter's fixed values, none of the old tags, and list exactly the tags
    they hold, in order. *)
Theorem characteristics_complete stock output output' k :
  NoDup characteristics_tags →
  md_locked output = false →
  distinct_tags (pk_entries stock) →
  (buildCharacteristics (Some stock) output k).1 = (true, output') →
  let mp := md_map output' in
  let st := meta_map (pk_entries stock) in
  (∃ rows,
     (∀ r, r ∈ rows ↔ row_ok r ∧ ∃ f, f ∈ formats ∧
        stock_row f (stock_sizes st f) (stock_durations st f) r) ∧
     mp !! ANDROID_SCALER_AVAILABLE_STREAM_CONFIGURATIONS = Some (row_lists rows).1.1 ∧
     mp !! ANDROID_SCALER_AVAILABLE_MIN_FRAME_DURATIONS = Some (row_lists rows).1.2 ∧
     mp !! ANDROID_SCALER_AVAILABLE_STALL_DURATIONS = Some (row_lists rows).2) ∧
  (∀ tag ty v, (tag, ty, v) ∈ fixed_characteristics → mp !! tag = Some v) ∧
  (∀ tag, tag ∈ erased_tags → mp !! tag = None) ∧
  ∃ keys, mp !! ANDROID_REQUEST_AVAILABLE_CHARACTERISTICS_KEYS = Some keys ∧
    StronglySorted Z.lt keys ∧ ∀ t, t ∈ keys ↔ is_Some (mp !! t).
Proof.
  intros Hnd Hl Hst. unfold buildCharacteristics. rewrite bind_run.
  pose proof (clone_law (pk_entries stock) k) as Hclone.
  destruct (clone_camera_metadata (pk_entries stock) k) as [[q|] k1]; cbn [fst snd] in *; [|done].
  specialize (Hclone q eq_refl). rewrite bind_run.
  destruct (md_acquire_law (Some q) md_new k1 (proj2 md_new_empty)) as [Hb Hu].
  destruct (md_acquire (Some q) md_new k1) as [m k2]. cbn [fst snd] in *.
  assert (Hm : md_ready m) by (split; [done|unfold md_entries; rewrite Hb, Hclone; done]).
  assert (Hmap : md_map m = meta_map (pk_entries stock))
    by (unfold md_map, md_entries; by rewrite Hb, Hclone).
  destruct (add_formats _ _ _ _) as [lists|] eqn:Hadd; [|done].
  destruct (add_formats_rows m _ _ [] _ Hm Hadd) as (rows & -> & Hrows). cbn [app] in *.
  rewrite bind_run. pose proof (write_characteristics_returns rows m Hm k2) as Hw.
  destruct (write_characteristics (row_lists rows) m k2) as [[[] m1] k3]; cbn [fst snd] in *;
    [|done].
  destruct (Hw eq_refl) as (Hu1 & regions & keys & Hkeys & Hsort & Heq). clear Hw.
  rewrite bind_run.
  destruct (md_acquire_law (md_buffer m1) output k3 Hl) as [Hb' _].
  destruct (md_acquire (md_buffer m1) output k3) as [out k4]. cbn [fst snd] in *.
  intros [= <-]. cbn zeta. rewrite <- Hmap in *.
  assert (Hout : md_map out = md_map m1) by (unfold md_map, md_entries; by rewrite Hb').
  rewrite Hout, Heq. split_and!.
  - exists rows. split; [done|].
    split_and!; (eapply early_characteristics; [done|]; unfold early_puts;
                 rewrite elem_of_app; left); [|right|right; right]; left.
  - intros tag ty v Hin. eapply early_characteristics; [done|].
    unfold early_puts. rewrite elem_of_app. by right.
  - intros tag. by apply erased_characteristics.
  - exists keys. rewrite lookup_insert_eq. split_and!; [done|done|]. intros t. rewrite Hkeys.
    destruct (decide (t = ANDROID_REQUEST_AVAILABLE_CHARACTERISTICS_KEYS)) as [->|Ht].
    + rewrite lookup_insert_eq. split; [by eexists|by right].
    + rewrite lookup_insert_ne by done. tauto.
Qed.

(** A stock packet that is refused leaves the object that was to receive the
    characteristics as it was. *)
Lemma characteristics_refused stock output output' k :
  (buildCharacteristics stock output k).1 = (false, output') → output' = output.
Proof.
  unfold buildCharacteristics. destruct stock as [stock|]; [|by intros [= ->]].
  rewrite bind_run. destruct (clone_camera_metadata _ _) as [[q|] k1]; cbn [fst snd];
    [|by intros [= ->]].
  rewrite bind_run. destruct (add_formats _ _ _ _); [|by intros [= ->]].
  rewrite bind_run. destruct (write_characteristics _ _ _) as [[[] m1] k3]; cbn [fst snd];
    [|by intros [= ->]].
  rewrite bind_run. by destruct (md_acquire _ _ _).
Qed.

End facts.
