(* ===== verification/CameraWrap.v ===== *)
(** * The camera module (src/camera/CameraWrapper.cpp)

    The module the framework loads: it waits for the imager devices, loads the
    stock module once, and answers the questions about cameras with translated
    characteristics.  The dynamic loader, the device nodes and the stock module
    are the parameter [StockModule]. *)

From S2P Require Import Prelude CameraH LegacyMeta.
From stdpp Require Import gmap.

#[global] Open Scope Z_scope.

(** What [camera_module_t] of the stock library has. *)
Record camera_module := CameraModule {
  cm_api_version : Z;
  cm_get_number_of_cameras : bool;
  cm_get_camera_info : bool;
  cm_open : bool;  (** [common.methods] and its [open] *)
  cm_set_callbacks : bool;
  cm_get_vendor_tag_ops : bool
}.

(** [camera_info], as far as the module reads or writes it. *)
Record camera_info := CameraInfo {
  ci_facing : Z;
  ci_orientation : Z;
  ci_device_version : Z;
  ci_static_camera_characteristics : option packet
}.

Class StockModule (K : Type) := {
  (** [libnvodm_imager.so]: loading it, its two symbols, and calling them *)
  dlopen_imager : M K bool;
  dlsym_imager : M K (bool * bool);
  NvOdmImagerDetInit : M K bool;
  NvOdmImagerDeviceDetect : M K bool;
  access_rw : string → M K bool;
  usleep : Z → M K unit;
  (** [hw_get_module_by_class(CAMERA_HARDWARE_MODULE_ID, vendor)] *)
  hw_get_vendor_module : M K (Z * option camera_module);
  stock_get_number_of_cameras : M K Z;
  stock_get_camera_info : Z → M K (Z * camera_info);
  stock_set_callbacks : M K Z;
  stock_get_vendor_tag_ops : M K unit
}.

(** The globals of the file.  [vendorOnce]: whether [pthread_once] has run. *)
Record module_world (K : Type) `{CameraMetadataApi K} := ModuleWorld {
  mw_k : K;
  vendorOnce : bool;
  vendorModule : option camera_module;
  characteristics : list md
}.
Arguments ModuleWorld {K _ _}.
Arguments mw_k {K _ _}.
Arguments vendorOnce {K _ _}.
Arguments vendorModule {K _ _}.
Arguments characteristics {K _ _}.

Section module.
  Context {K : Type} `{CameraMetadataApi K} `{!StockModule K} `{!CameraH} `{!CameraTags}.

Abbreviation W := (module_world K).

Definition call {A} (m : M K A) : M W A := λ w,
  let '(a, k) := m (mw_k w) in
  (a, ModuleWorld k (vendorOnce w) (vendorModule w) (characteristics w)).

Definition get {A} (f : W → A) : M W A := λ w, (f w, w).

Definition set_vendorModule (m : option camera_module) : M W unit := λ w,
  (tt, ModuleWorld (mw_k w) (vendorOnce w) m (characteristics w)).

Definition set_vendorOnce : M W unit := λ w,
  (tt, ModuleWorld (mw_k w) true (vendorModule w) (characteristics w)).

Definition set_characteristics (id : nat) (m : md) : M W unit := λ w,
  (tt, ModuleWorld (mw_k w) (vendorOnce w) (vendorModule w) (<[id := m]> (characteristics w))).

(** The loop of [prepareImagerDevices], with the attempts left. *)
Fixpoint wait_for_nodes (attempts : nat) : M W bool :=
  match attempts with
  | O => mret false
  | S attempts =>
      imx ← call (access_rw "/dev/imx179");
      ov ← (if imx : bool then call (access_rw "/dev/ov5693") else mret false);
      if ov : bool then mret true
      else _ ← call (usleep 20000); wait_for_nodes attempts
  end.

Definition prepareImagerDevices : M W bool :=
  imager ← call dlopen_imager;
  if negb imager then mret false
  else
    '(initialize, detect) ← call dlsym_imager;
    if negb (initialize && detect) then mret false
    else
      initialized ← call NvOdmImagerDetInit;
      detected ← (if initialized : bool then call NvOdmImagerDeviceDetect else mret false);
      if negb detected then mret false else wait_for_nodes 100.

(** What [loadVendorModule] requires of the stock module. *)
Definition module_supported (m : camera_module) : bool :=
  bool_decide (CAMERA_MODULE_API_VERSION_2_1 <= cm_api_version m) &&
  cm_get_number_of_cameras m && cm_get_camera_info m && cm_open m.

Definition loadVendorModule : M W unit :=
  ready ← prepareImagerDevices;
  if negb ready then mret tt
  else
    '(result, raw) ← call hw_get_vendor_module;
    match raw with
    | Some m =>
        if bool_decide (result ≠ 0) then mret tt
        else if module_supported m then set_vendorModule (Some m) else mret tt
    | None => mret tt
    end.

(** [pthread_once] and the global. *)
Definition get_stock_camera_module : M W (option camera_module) :=
  once ← get vendorOnce;
  _ ← (if once : bool then mret tt else _ ← loadVendorModule; set_vendorOnce);
  get vendorModule.

Definition numberOfCameras : M W Z :=
  vendor ← get_stock_camera_module;
  match vendor with Some _ => call stock_get_number_of_cameras | None => mret 0 end.

Definition setCallbacks : M W Z :=
  vendor ← get_stock_camera_module;
  match vendor with
  | Some m => if cm_set_callbacks m then call stock_set_callbacks else mret 0
  | None => mret (- ENODEV)
  end.

(** [ops] is not null; whether the stock module filled it, which is zero
    otherwise. *)
Definition vendorTags : M W bool :=
  vendor ← get_stock_camera_module;
  match vendor with
  | Some m =>
      if bool_decide (CAMERA_MODULE_API_VERSION_2_2 <= cm_api_version m) && cm_get_vendor_tag_ops m
      then _ ← call stock_get_vendor_tag_ops; mret true
      else mret false
  | None => mret false
  end.

Definition openLegacy : Z := - ENOSYS.

(** The part of [get_mocha_camera_info] under [infoMutex]. *)
Definition describe_info (id : Z) : M W (Z * option camera_info) :=
  '(result, stock) ← call (stock_get_camera_info id);
  if bool_decide (result ≠ 0) then mret (result, None)
  else if bool_decide (ci_device_version stock ≠ CAMERA_DEVICE_API_VERSION_3_0) then
    mret (- ENODEV, None)
  else
    all ← get characteristics;
    match all !! Z.to_nat id with
    | None => mret (- EINVAL, None)
    | Some mine =>
        '(ok, mine) ← (if md_isEmpty mine
                       then call (buildCharacteristics (ci_static_camera_characteristics stock) mine)
                       else mret (true, mine));
        _ ← set_characteristics (Z.to_nat id) mine;
        if negb ok then mret (- EINVAL, None)
        else
          let raw := md_buffer mine in
          _ ← set_characteristics (Z.to_nat id) (md_unlock raw (md_getAndLock mine));
          mret (0, Some (CameraInfo (ci_facing stock) (ci_orientation stock)
                           CAMERA_DEVICE_API_VERSION_3_2 raw))
    end.

(** The result and [*info], when it is written; [null]: [info] is null. *)
Definition get_mocha_camera_info (id : Z) (null : bool) : M W (Z * option camera_info) :=
  if null || bool_decide (id < 0) || bool_decide (2 <= id) then mret (- EINVAL, None)
  else
    vendor ← get_stock_camera_module;
    match vendor with
    | None => mret (- ENODEV, None)
    | Some _ =>
        n ← call stock_get_number_of_cameras;
        if bool_decide (n <= id) then mret (- EINVAL, None) else describe_info id
    end.

(** The globals when the library is loaded. *)
Definition module_world0 (k : K) : W := ModuleWorld k false None [md_new; md_new].

End module.
