(* ===== verification/Camera3.v ===== *)
(** * The camera device (src/camera/Camera3Wrapper.cpp)

    The class Camera stands between the framework, which speaks HAL3.2, and the
    stock library, which speaks HAL3.0.  A method is a thread of atomic actions:
    a section under [stateMutex] is one action, and so is a call of the stock
    library, between any two of which its callbacks may run; [requestMutex] and
    [callbackMutex] are held over several.  The stock library, gralloc and the
    rest of the module are the parameter [CameraPlatform]. *)

From S2P Require Import Prelude Threads CameraH LegacyMeta CameraWrap.
From stdpp Require Import gmap sorting.
From Stdlib Require Import Ascii String.

#[global] Open Scope Z_scope.

(** A device of the stock library, with what the adapter tests of it. *)
Record stock_device := StockDevice {
  sd_id : Z;
  sd_version : Z;
  sd_ops : bool;  (** [ops] and the five entries the adapter calls *)
  sd_dump : bool
}.

(** The request the stock library is given. *)
Record vendor_request := VendorRequest {
  vr_frame_number : Z;
  vr_settings : option packet;
  vr_output_buffers : list camera3_stream_buffer
}.

(** Allocations give whether they succeed.  The stock library's devices are
    named by their numbers; [configure_streams] gives back the streams it was
    given, as it leaves them. *)
Class CameraPlatform (K : Type) := {
  stock_camera_module : M K (option camera_module);
  mocha_camera_info : Z → M K (Z * option camera_info);
  stock_number_of_cameras : M K Z;
  hw_get_gralloc : M K (Z * (bool * bool));
  new_nothrow : M K bool;
  stock_open : string → M K (Z * option stock_device);
  stock_close : Z → M K Z;
  stock_initialize : Z → M K Z;
  stock_configure_streams : Z → list (Z * camera3_stream) → M K (Z * list camera3_stream);
  stock_register_stream_buffers : Z → Z → list Z → M K Z;
  stock_default_request : Z → Z → M K (option packet);
  stock_process_capture_request : Z → vendor_request → M K Z;
  stock_dump : Z → M K unit;
  registerBuffer : Z → M K Z;
  unregisterBuffer : Z → M K unit
}.

(** ** Data *)

(** [Stream]: the address of its [legacy], that object, the client's stream, and
    the registered handles with the addresses of their references. *)
Record Stream := MkStream {
  s_id : Z;
  s_legacy : camera3_stream;
  s_client : Z;
  s_buffers : gmap Z Z
}.

(** [Frame].  [fr_serial] numbers the frames accepted; it is not in the code. *)
Record Frame (K : Type) `{CameraMetadataApi K} := MkFrame {
  fr_serial : Z;
  fr_settings : md;
  fr_partials : md;
  fr_clientBuffers : list camera3_stream_buffer;
  fr_vendorBuffers : list camera3_stream_buffer;
  fr_returned : list bool;
  fr_remaining : Z;
  fr_metadataDone : bool;
  fr_shutterDone : bool
}.
Arguments MkFrame {K _ _}.
Arguments fr_serial {K _ _}.
Arguments fr_settings {K _ _}.
Arguments fr_partials {K _ _}.
Arguments fr_clientBuffers {K _ _}.
Arguments fr_vendorBuffers {K _ _}.
Arguments fr_returned {K _ _}.
Arguments fr_remaining {K _ _}.
Arguments fr_metadataDone {K _ _}.
Arguments fr_shutterDone {K _ _}.

(** The members of Camera.  [c_asleep]: a thread sleeps in [drained.wait_for];
    only the owner of [requestMutex] does. *)
Record Camera (K : Type) `{CameraMetadataApi K} := MkCamera {
  c_vendor : option stock_device;
  c_characteristics : list mentry;
  c_deviceName : string;
  c_clientCallbacks : bool;
  c_streams : gmap Z Stream;
  c_failedStreams : list Stream;
  c_frames : gmap Z (Frame K);
  c_templates : list md;
  c_lastSettings : md;
  c_afTriggerId : Z;
  c_aeTriggerId : Z;
  c_fatal : bool;
  c_closing : bool;
  c_asleep : bool
}.
Arguments MkCamera {K _ _}.
Arguments c_vendor {K _ _}.
Arguments c_characteristics {K _ _}.
Arguments c_deviceName {K _ _}.
Arguments c_clientCallbacks {K _ _}.
Arguments c_streams {K _ _}.
Arguments c_failedStreams {K _ _}.
Arguments c_frames {K _ _}.
Arguments c_templates {K _ _}.
Arguments c_lastSettings {K _ _}.
Arguments c_afTriggerId {K _ _}.
Arguments c_aeTriggerId {K _ _}.
Arguments c_fatal {K _ _}.
Arguments c_closing {K _ _}.
Arguments c_asleep {K _ _}.

Inductive dump_line :=
  | RequestBusy
  | StateBusy
  | DumpState (inflight : Z) (fatal closing : bool).

(** What the adapter does to its surroundings, and the fate of frames by their
    serial numbers.  A result for the client names its buffers by the frame's
    serial number and their index in the request. *)
Inductive camera_log :=
  | LSubmitted (serial frame_number : Z) (buffers : list camera3_stream_buffer)
  | LRefused (serial : Z)  (** the stock library did not accept the request *)
  | LRetired (serial : Z)
  | LAbandoned (serial : Z)  (** still there when the device was closed *)
  | LMetadataEnd (serial : Z)  (** the stock library's last metadata of it came or an error said none will *)
  | LShutterEnd (serial : Z)  (** the stock library announced its shutter or that the request failed *)
  | LResult (serial frame_number : Z) (metadata : option (list mentry)) (partial_result : Z)
      (buffers : list (nat * camera3_stream_buffer))
  | LNotify (message : camera3_notify_msg)
  | LCloseFence (fence : Z)
  | LRegister (handle : Z)
  | LUnregister (handle : Z)
  | LDump (line : dump_line)
  | LReturn (thread : nat) (result : Z).  (** a call of the client has returned *)

Inductive camera_fault :=
  | NullVendor
  | NullCallbacks
  | DanglingStream  (** a client stream that does not exist *)
  | NoReference  (** [map::at] of a handle that is not there *)
  | TooManyReturned.  (** [remaining] decremented below zero *)

(** The state the threads share: the device, the client's stream objects, the
    threads that own [requestMutex] and [callbackMutex], the next address and
    serial number, and the parts of a result on its way to the client (a buffer by
    its index, or the metadata), which are not in the code. *)
Record camera_world (K : Type) `{CameraMetadataApi K} := CameraWorld {
  w_k : K;
  w_cam : Camera K;
  w_clients : gmap Z camera3_stream;
  w_request : option nat;
  w_callback : option nat;
  w_next : Z;
  w_pending : list (Z * option nat);
  w_log : list camera_log;
  w_faults : list camera_fault
}.
Arguments CameraWorld {K _ _}.
Arguments w_k {K _ _}.
Arguments w_cam {K _ _}.
Arguments w_clients {K _ _}.
Arguments w_request {K _ _}.
Arguments w_callback {K _ _}.
Arguments w_next {K _ _}.
Arguments w_pending {K _ _}.
Arguments w_log {K _ _}.
Arguments w_faults {K _ _}.

(** [stream->client]'s objects of a configuration, and the request's structures. *)
Record stream_configuration := StreamConfiguration {
  sc_streams : option (list (option Z));
  sc_operation_mode : Z
}.

Record capture_request := CaptureRequest {
  cr_frame_number : Z;
  cr_settings : option packet;
  cr_input_buffer : bool;
  cr_output_buffers : option (list camera3_stream_buffer)
}.

(** [StockResult]. *)
Record stock_result := StockResult {
  sr_frame : Z;
  sr_metadata : option packet;
  sr_buffers : list camera3_stream_buffer
}.

(** The formats the stock library consumes as continuous output. *)
Definition isProcessedFormat `{CameraH} (format : Z) : bool :=
  bool_decide (format = HAL_PIXEL_FORMAT_IMPLEMENTATION_DEFINED) ||
  bool_decide (format = HAL_PIXEL_FORMAT_YCbCr_420_888) ||
  bool_decide (format = HAL_PIXEL_FORMAT_RGBA_8888) ||
  bool_decide (format = HAL_PIXEL_FORMAT_YV12).

(** The size of a stream that counts for the sensor mode. *)
Definition stream_geometry `{CameraH} (stream : camera3_stream) : option (Z * Z) :=
  if negb (isProcessedFormat (st_format stream)) then None
  else if bool_decide (Z.land (st_usage stream) GRALLOC_USAGE_HW_VIDEO_ENCODER ≠ 0) then None
  else Some (st_width stream, st_height stream).

Definition processedGeometry `{CameraH} (clients : gmap Z camera3_stream) (streams : gmap Z Stream) :
    gset (Z * Z) :=
  list_to_set (omap (λ '(_, s), clients !! s_client s ≫= stream_geometry) (map_to_list streams)).

(** ** Setters *)

Section setters.
  Context {K : Type} `{CameraMetadataApi K}.

Implicit Types (c : Camera K) (w : camera_world K).

Definition set_vendor v c := MkCamera v (c_characteristics c) (c_deviceName c) (c_clientCallbacks c)
  (c_streams c) (c_failedStreams c) (c_frames c) (c_templates c) (c_lastSettings c)
  (c_afTriggerId c) (c_aeTriggerId c) (c_fatal c) (c_closing c) (c_asleep c).
Definition set_callbacks b c := MkCamera (c_vendor c) (c_characteristics c) (c_deviceName c) b
  (c_streams c) (c_failedStreams c) (c_frames c) (c_templates c) (c_lastSettings c)
  (c_afTriggerId c) (c_aeTriggerId c) (c_fatal c) (c_closing c) (c_asleep c).
Definition set_streams s c := MkCamera (c_vendor c) (c_characteristics c) (c_deviceName c)
  (c_clientCallbacks c) s (c_failedStreams c) (c_frames c) (c_templates c) (c_lastSettings c)
  (c_afTriggerId c) (c_aeTriggerId c) (c_fatal c) (c_closing c) (c_asleep c).
Definition set_failed s c := MkCamera (c_vendor c) (c_characteristics c) (c_deviceName c)
  (c_clientCallbacks c) (c_streams c) s (c_frames c) (c_templates c) (c_lastSettings c)
  (c_afTriggerId c) (c_aeTriggerId c) (c_fatal c) (c_closing c) (c_asleep c).
Definition set_frames f c := MkCamera (c_vendor c) (c_characteristics c) (c_deviceName c)
  (c_clientCallbacks c) (c_streams c) (c_failedStreams c) f (c_templates c) (c_lastSettings c)
  (c_afTriggerId c) (c_aeTriggerId c) (c_fatal c) (c_closing c) (c_asleep c).
Definition set_templates t c := MkCamera (c_vendor c) (c_characteristics c) (c_deviceName c)
  (c_clientCallbacks c) (c_streams c) (c_failedStreams c) (c_frames c) t (c_lastSettings c)
  (c_afTriggerId c) (c_aeTriggerId c) (c_fatal c) (c_closing c) (c_asleep c).
Definition set_last s c := MkCamera (c_vendor c) (c_characteristics c) (c_deviceName c)
  (c_clientCallbacks c) (c_streams c) (c_failedStreams c) (c_frames c) (c_templates c) s
  (c_afTriggerId c) (c_aeTriggerId c) (c_fatal c) (c_closing c) (c_asleep c).
Definition set_triggers af ae c := MkCamera (c_vendor c) (c_characteristics c) (c_deviceName c)
  (c_clientCallbacks c) (c_streams c) (c_failedStreams c) (c_frames c) (c_templates c)
  (c_lastSettings c) af ae (c_fatal c) (c_closing c) (c_asleep c).
Definition set_fatal c := MkCamera (c_vendor c) (c_characteristics c) (c_deviceName c)
  (c_clientCallbacks c) (c_streams c) (c_failedStreams c) (c_frames c) (c_templates c)
  (c_lastSettings c) (c_afTriggerId c) (c_aeTriggerId c) true (c_closing c) (c_asleep c).
Definition set_closing c := MkCamera (c_vendor c) (c_characteristics c) (c_deviceName c)
  (c_clientCallbacks c) (c_streams c) (c_failedStreams c) (c_frames c) (c_templates c)
  (c_lastSettings c) (c_afTriggerId c) (c_aeTriggerId c) (c_fatal c) true (c_asleep c).
Definition set_asleep b c := MkCamera (c_vendor c) (c_characteristics c) (c_deviceName c)
  (c_clientCallbacks c) (c_streams c) (c_failedStreams c) (c_frames c) (c_templates c)
  (c_lastSettings c) (c_afTriggerId c) (c_aeTriggerId c) (c_fatal c) (c_closing c) b.

Definition upd_cam (f : Camera K → Camera K) w := CameraWorld (w_k w) (f (w_cam w)) (w_clients w)
  (w_request w) (w_callback w) (w_next w) (w_pending w) (w_log w) (w_faults w).
Definition set_clients cl w := CameraWorld (w_k w) (w_cam w) cl
  (w_request w) (w_callback w) (w_next w) (w_pending w) (w_log w) (w_faults w).
Definition set_request o w := CameraWorld (w_k w) (w_cam w) (w_clients w)
  o (w_callback w) (w_next w) (w_pending w) (w_log w) (w_faults w).
Definition set_callback o w := CameraWorld (w_k w) (w_cam w) (w_clients w)
  (w_request w) o (w_next w) (w_pending w) (w_log w) (w_faults w).
Definition set_next n w := CameraWorld (w_k w) (w_cam w) (w_clients w)
  (w_request w) (w_callback w) n (w_pending w) (w_log w) (w_faults w).
Definition set_carried p w := CameraWorld (w_k w) (w_cam w) (w_clients w)
  (w_request w) (w_callback w) (w_next w) p (w_log w) (w_faults w).
Definition add_log l w := CameraWorld (w_k w) (w_cam w) (w_clients w)
  (w_request w) (w_callback w) (w_next w) (w_pending w) (w_log w ++ l) (w_faults w).
Definition add_fault f w := CameraWorld (w_k w) (w_cam w) (w_clients w)
  (w_request w) (w_callback w) (w_next w) (w_pending w) (w_log w) (w_faults w ++ [f]).

End setters.

(** ** Actions *)

Section camera.
  Context {K : Type} `{CameraMetadataApi K} `{!CameraH} `{!CameraTags} `{!CameraPlatform K}.

Abbreviation W := (camera_world K).
Abbreviation P := (proc (camera_world K)).

(** A call of the platform, which changes its state only. *)
Definition ask {A} (m : M K A) : M W A := λ w,
  let '(a, k) := m (w_k w) in
  (a, CameraWorld k (w_cam w) (w_clients w) (w_request w) (w_callback w) (w_next w) (w_pending w)
        (w_log w) (w_faults w)).

Definition reads {A} (f : W → A) : M W A := λ w, (f w, w).
Definition modify (f : W → W) : M W unit := λ w, (tt, f w).
Definition modify_cam (f : Camera K → Camera K) : M W unit := modify (upd_cam f).
Definition note (l : list camera_log) : M W unit := modify (add_log l).
Definition flaw (f : camera_fault) : M W unit := modify (add_fault f).

(** An address no object has. *)
Definition new_address : M W Z := λ w, (w_next w, set_next (w_next w + 1) w).

(** [drained.notify_all()]. *)
Definition notify_drained : Camera K → Camera K := set_asleep false.

(** The mutexes that are held over several actions, with their owner. *)
Definition lock_request (t : nat) : P unit :=
  Act (λ _ w, match w_request w with
              | None => (Some tt, set_request (Some t) w)
              | Some _ => (None, w)
              end) Ret.
Definition unlock_request : P unit := atomic (modify (set_request None)).

Definition with_request {A} (t : nat) (body : P A) : P A :=
  _ ← lock_request t; a ← body; _ ← unlock_request; mret a.

Definition lock_callback (t : nat) : P unit :=
  Act (λ _ w, match w_callback w with
              | None => (Some tt, set_callback (Some t) w)
              | Some _ => (None, w)
              end) Ret.
Definition unlock_callback : P unit := atomic (modify (set_callback None)).

Definition with_callback {A} (t : nat) (body : P A) : P A :=
  _ ← lock_callback t; a ← body; _ ← unlock_callback; mret a.

(** A call through [vendor]; [default] is its result when there is none. *)
Definition vendor_call {A} (default : A) (m : stock_device → M K A) : M W A :=
  vendor ← reads (λ w, c_vendor (w_cam w));
  match vendor with
  | Some d => ask (m d)
  | None => _ ← flaw NullVendor; mret default
  end.

(** ** initialize *)

(** The client's callbacks: null, or whether they have both entries. *)
Definition initialize (t : nat) (client : option (bool * bool)) : P Z :=
  match client with
  | Some (true, true) =>
      with_request t (
        taken ← atomic (taken ← reads (λ w, c_clientCallbacks (w_cam w));
                        _ ← (if taken : bool then mret tt else modify_cam (set_callbacks true));
                        mret taken);
        if taken : bool then mret (- ENOSYS)
        else
          result ← atomic (vendor_call 0 (λ d, stock_initialize (sd_id d)));
          _ ← (if bool_decide (result ≠ 0) then atomic (modify_cam (set_callbacks false))
               else mret tt);
          mret result)
  | _ => mret (- EINVAL)
  end.

(** ** configure *)

(** The test under [stateMutex] at the start of [configure] and [capture]. *)
Definition device_dead (c : Camera K) : bool :=
  c_fatal c || c_closing c || negb (c_clientCallbacks c).

Definition client_stream (p : Z) : M W (option camera3_stream) :=
  clients ← reads w_clients;
  match clients !! p with
  | Some s => mret (Some s)
  | None => _ ← flaw DanglingStream; mret None
  end.

Definition set_legacy (l : camera3_stream) (s : Stream) : Stream :=
  MkStream (s_id s) l (s_client s) (s_buffers s).
Definition set_buffers (b : gmap Z Z) (s : Stream) : Stream :=
  MkStream (s_id s) (s_legacy s) (s_client s) b.

Definition set_priv (v : Z) (s : camera3_stream) : camera3_stream :=
  Stream3 (st_type s) (st_width s) (st_height s) (st_format s) (st_usage s) (st_max_buffers s) v.

(** The formats [configure] takes; [known]: the stream is configured already. *)
Definition format_counts (format : Z) (known : bool) : option (nat * nat) :=
  if bool_decide (format = HAL_PIXEL_FORMAT_BLOB) then Some (0, 1)%nat
  else if bool_decide (format = HAL_PIXEL_FORMAT_IMPLEMENTATION_DEFINED) ||
          bool_decide (format = HAL_PIXEL_FORMAT_YCbCr_420_888) ||
          bool_decide (format = HAL_PIXEL_FORMAT_RGBA_8888) ||
          (bool_decide (format = HAL_PIXEL_FORMAT_YV12) && known) then Some (1, 0)%nat
  else None.

(** The loop over the streams of a configuration: an error, or the new streams
    and the order in which the stock library gets them. *)
Fixpoint check_streams (streams : list (option Z)) (processed jpeg : nat)
    (next : gmap Z Stream) (vendorStreams : list Z) : M W (Z + gmap Z Stream * list Z) :=
  match streams with
  | [] => mret (inr (next, vendorStreams))
  | None :: _ => mret (inl (- EINVAL))
  | Some client :: streams =>
      object ← client_stream client;
      match object with
      | None => mret (inl (- EINVAL))
      | Some s =>
          if bool_decide (st_type s ≠ CAMERA3_STREAM_OUTPUT) || bool_decide (st_width s = 0) ||
             bool_decide (st_height s = 0) || bool_decide (is_Some (next !! client))
          then mret (inl (- EINVAL))
          else
            known ← reads (λ w, bool_decide (is_Some (c_streams (w_cam w) !! client)));
            match format_counts (st_format s) known with
            | None => mret (inl (- EINVAL))
            | Some (p, j) =>
                let processed := (processed + p)%nat in
                let jpeg := (jpeg + j)%nat in
                if bool_decide (3 < processed)%nat || bool_decide (1 < jpeg)%nat
                then mret (inl (- EINVAL))
                else
                  ok ← ask new_nothrow;
                  if negb ok then mret (inl (- ENOMEM))
                  else
                    id ← new_address;
                    check_streams streams processed jpeg
                      (<[client := MkStream id (set_priv 0 s) client ∅]> next)
                      (vendorStreams ++ [client])
            end
      end
  end.

(** What the stock library did to the streams of the configuration. *)
Fixpoint write_legacies (vendorStreams : list Z) (legacies : list camera3_stream)
    (next : gmap Z Stream) : gmap Z Stream :=
  match vendorStreams, legacies with
  | client :: vendorStreams, l :: legacies =>
      write_legacies vendorStreams legacies (alter (set_legacy l) client next)
  | _, _ => next
  end.

(** The client's stream after a configuration. *)
Definition resolved (legacy s : camera3_stream) : camera3_stream :=
  Stream3 (st_type s) (st_width s) (st_height s) (st_format legacy) (st_usage legacy)
    (st_max_buffers legacy) 0.

(** Writing the resolved streams back to the client. *)
Definition write_back (next : gmap Z Stream) (clients : gmap Z camera3_stream) :
    gmap Z camera3_stream :=
  map_imap (λ p s, Some (match next !! p with
                         | Some n => resolved (s_legacy n) s
                         | None => s
                         end)) clients.

(** The destructors of the references of streams. *)
Fixpoint unregister_all (handles : list Z) : M W unit :=
  match handles with
  | [] => mret tt
  | h :: handles => _ ← ask (unregisterBuffer h); _ ← note [LUnregister h]; unregister_all handles
  end.

Definition stream_handles (s : Stream) : list Z := (map_to_list (s_buffers s)).*1.

Definition streams_handles (streams : gmap Z Stream) : list Z :=
  map_to_list streams ≫= (λ '(_, s), stream_handles s).

(** A configuration the stock library may have taken in part: its streams are
    kept until the device is closed. *)
Definition fail_streams (next : gmap Z Stream) (c : Camera K) : Camera K :=
  set_fatal (set_failed (c_failedStreams c ++ (map_to_list next).*2) c).

(** ** reopenVendor *)

(** The tests on a device of the stock library. *)
Definition device_supported (d : stock_device) : bool :=
  bool_decide (sd_version d = CAMERA_DEVICE_API_VERSION_3_0) && sd_ops d.

Definition close_vendor : M W Z :=
  vendor ← reads (λ w, c_vendor (w_cam w));
  match vendor with
  | Some d => result ← ask (stock_close (sd_id d)); _ ← modify_cam (set_vendor None); mret result
  | None => mret 0
  end.

Definition reopenVendor : P Z :=
  stock ← atomic (ask stock_camera_module);
  match stock with
  | None => mret (- ENODEV)
  | Some m =>
      if negb (cm_open m) then mret (- ENODEV)
      else
        _ ← atomic close_vendor;
        name ← atomic (reads (λ w, c_deviceName (w_cam w)));
        '(result, opened) ← atomic (ask (stock_open name));
        if bool_decide (result ≠ 0) then mret result
        else
          match opened with
          | None => mret (- ENODEV)
          | Some d =>
              _ ← atomic (modify_cam (set_vendor (Some d)));
              if negb (device_supported d) then _ ← atomic close_vendor; mret (- ENODEV)
              else
                result ← atomic (vendor_call 0 (λ d, stock_initialize (sd_id d)));
                if bool_decide (result ≠ 0) then _ ← atomic close_vendor; mret result
                else mret 0
          end
  end.

(** The call of the stock library's [configure_streams]. *)
Definition vendor_configure (next : gmap Z Stream) (vendorStreams : list Z) :
    M W (Z * gmap Z Stream) :=
  '(result, legacies) ←
    vendor_call (0, [])
      (λ d, stock_configure_streams (sd_id d)
              (omap (λ p, (λ s, (s_id s, s_legacy s)) <$> next !! p) vendorStreams));
  mret (result, write_legacies vendorStreams legacies next).

(** The streams of an accepted configuration take effect. *)
Definition adopt_streams (next : gmap Z Stream) : P unit :=
  _ ← atomic (modify (λ w, set_clients (write_back next (w_clients w)) w));
  old ← atomic (old ← reads (λ w, c_streams (w_cam w));
                _ ← modify_cam (set_streams next); mret old);
  _ ← atomic (modify_cam (set_last md_new));
  atomic (unregister_all (streams_handles old)).

(** [configure] from the comparison of the geometry on. *)
Definition configure_streams (next : gmap Z Stream) (vendorStreams : list Z) : P Z :=
  geometryChanged ← atomic (reads (λ w,
    let streams := c_streams (w_cam w) in
    bool_decide (streams ≠ ∅) &&
    bool_decide (processedGeometry (w_clients w) streams ≠
                 processedGeometry (w_clients w) next)));
  result ← (if geometryChanged : bool then reopenVendor else mret 0);
  if bool_decide (result ≠ 0) then _ ← atomic (modify_cam (fail_streams next)); mret result
  else
    '(result, next) ← atomic (vendor_configure next vendorStreams);
    if bool_decide (result ≠ 0) then _ ← atomic (modify_cam (fail_streams next)); mret result
    else _ ← adopt_streams next; mret 0.

Definition configure (t : nat) (config : option stream_configuration) : P Z :=
  match config with
  | Some (StreamConfiguration (Some ((_ :: _) as streams)) mode) =>
      if bool_decide (mode ≠ CAMERA3_STREAM_CONFIGURATION_NORMAL_MODE) then mret (- EINVAL)
      else
        with_request t (
          refused ← atomic (reads (λ w,
            if device_dead (w_cam w) then Some (- ENODEV)
            else if negb (bool_decide (c_frames (w_cam w) = ∅)) then Some (- EBUSY)
            else None));
          match refused with
          | Some error => mret error
          | None =>
              checked ← atomic (check_streams streams 0 0 ∅ []);
              match checked with
              | inl error => mret error
              | inr (next, vendorStreams) => configure_streams next vendorStreams
              end
          end)
  | _ => mret (- EINVAL)
  end.

(** ** defaultRequest *)

Definition set_template (type : nat) (m : md) (c : Camera K) : Camera K :=
  set_templates (<[type := m]> (c_templates c)) c.

Definition defaultRequest (t : nat) (type : Z) : P (option packet) :=
  if bool_decide (type < CAMERA3_TEMPLATE_PREVIEW) || bool_decide (CAMERA3_TEMPLATE_COUNT <= type)
  then mret None
  else
    with_request t (
      vendor ← atomic (reads (λ w, c_vendor (w_cam w)));
      match vendor with
      | None => mret None
      | Some d =>
          let type := Z.to_nat type in
          cached ← atomic (reads (λ w, default md_new (c_templates (w_cam w) !! type)));
          if negb (md_isEmpty cached) then mret (md_buffer cached)
          else
            stock ← atomic (ask (stock_default_request (sd_id d) (Z.of_nat type)));
            match stock with
            | None => mret None
            | Some s =>
                atomic (
                  copy ← ask (clone_camera_metadata (pk_entries s));
                  match copy with
                  | None => mret None
                  | Some _ =>
                      cached ← ask (md_acquire copy cached);
                      stock_info ← reads (λ w, c_characteristics (w_cam w));
                      '(ok, cached) ← ask (normalizeRequest cached stock_info);
                      if ok : bool then
                        _ ← modify_cam (set_template type cached); mret (md_buffer cached)
                      else
                        cached ← ask (md_clear cached);
                        _ ← modify_cam (set_template type cached); mret None
                  end)
            end
      end).

(** ** drain *)

(** [drained.wait_for] with its predicate: one evaluation of the predicate.
    [timeout]: the three seconds have passed. *)
Definition drain_wait (timeout : bool) (w : W) : option Z * W :=
  let c := w_cam w in
  if bool_decide (c_frames c = ∅) || c_fatal c then
    (Some (if c_fatal c then - ENODEV else 0), upd_cam (set_asleep false) w)
  else if timeout && c_asleep c then (Some (- ETIMEDOUT), upd_cam (set_asleep false) w)
  else (None, upd_cam (set_asleep true) w).

Definition drain : P Z := Act drain_wait Ret.

Definition flush (t : nat) : P Z := with_request t drain.

(** ** capture *)

(** The loop over the buffers of a request: the streams it names, and whether a
    handle is new. *)
Fixpoint check_buffers (streams : gmap Z Stream) (buffers : list camera3_stream_buffer)
    (requested : list Z) (newBuffer : bool) : option (list Z * bool) :=
  match buffers with
  | [] => Some (requested, newBuffer)
  | b :: buffers =>
      match streams !! sb_stream b, sb_buffer b with
      | Some s, Some (_, handle) =>
          if bool_decide (handle = 0) || bool_decide (sb_stream b ∈ requested) then None
          else check_buffers streams buffers (requested ++ [sb_stream b])
                 (newBuffer || bool_decide (s_buffers s !! handle = None))
      | _, _ => None
      end
  end.

Definition sb_handle (b : camera3_stream_buffer) : Z :=
  match sb_buffer b with Some (_, h) => h | None => 0 end.

(** The registration of one handle with gralloc; [inl]: an error; [inr]: the
    stream's address and the handles it now has, when the handle is new. *)
Definition register_handle (key handle : Z) : M W (Z + option (Z * list Z)) :=
  streams ← reads (λ w, c_streams (w_cam w));
  match streams !! key with
  | None => mret (inr None)
  | Some s =>
      if bool_decide (is_Some (s_buffers s !! handle)) then mret (inr None)
      else
        result ← ask (registerBuffer handle);
        if bool_decide (result ≠ 0) then mret (inl result)
        else
          _ ← note [LRegister handle];
          ok ← ask new_nothrow;
          if negb ok then
            _ ← ask (unregisterBuffer handle); _ ← note [LUnregister handle]; mret (inl (- ENOMEM))
          else
            ref ← new_address;
            let s := set_buffers (<[handle := ref]> (s_buffers s)) s in
            _ ← modify_cam (set_streams (<[key := s]> streams));
            mret (inr (Some (s_id s, merge_sort Z.le (stream_handles s))))
  end.

(** The loop that registers the buffers of a request. *)
Fixpoint register_buffers (buffers : list camera3_stream_buffer) : P Z :=
  match buffers with
  | [] => mret 0
  | b :: buffers =>
      registered ← atomic (register_handle (sb_stream b) (sb_handle b));
      match registered with
      | inl error => mret error
      | inr None => register_buffers buffers
      | inr (Some (id, handles)) =>
          result ← atomic (vendor_call 0 (λ d, stock_register_stream_buffers (sd_id d) id handles));
          if bool_decide (result ≠ 0) then _ ← atomic (modify_cam set_fatal); mret result
          else register_buffers buffers
      end
  end.

(** A trigger id after another trigger. *)
Definition next_trigger (id : Z) : Z := if bool_decide (id = INT_MAX) then 1 else id + 1.

(** The settings of a request with settings: an error, or the frame's settings. *)
Definition translate_settings (settings : packet) : M W (Z + md) :=
  m ← ask (md_assign (Some settings) md_new);
  stock_info ← reads (λ w, c_characteristics (w_cam w));
  '(ok, m) ← (if md_isEmpty m then mret (false, m) else ask (normalizeRequest m stock_info));
  if negb ok then mret (inl (- EINVAL))
  else
    c ← reads w_cam;
    let af := match md_find m ANDROID_CONTROL_AF_TRIGGER with
              | v :: _ => if bool_decide (v ≠ ANDROID_CONTROL_AF_TRIGGER_IDLE)
                          then next_trigger (c_afTriggerId c) else c_afTriggerId c
              | [] => c_afTriggerId c
              end in
    let ae := match md_find m ANDROID_CONTROL_AE_PRECAPTURE_TRIGGER with
              | v :: _ => if bool_decide (v = ANDROID_CONTROL_AE_PRECAPTURE_TRIGGER_START)
                          then next_trigger (c_aeTriggerId c) else c_aeTriggerId c
              | [] => c_aeTriggerId c
              end in
    _ ← modify_cam (set_triggers af ae);
    '(r1, m) ← ask (md_update ANDROID_CONTROL_AF_TRIGGER_ID TYPE_INT32 [af] m);
    if bool_decide (r1 ≠ 0) then mret (inl (- ENOMEM))
    else
      '(r2, m) ← ask (md_update ANDROID_CONTROL_AE_PRECAPTURE_ID TYPE_INT32 [ae] m);
      if bool_decide (r2 ≠ 0) then mret (inl (- ENOMEM))
      else
        last ← reads (λ w, c_lastSettings (w_cam w));
        last ← ask (md_copy m last);
        _ ← modify_cam (set_last last);
        mret (inr m).

Definition request_settings (settings : option packet) : M W (Z + md) :=
  match settings with
  | Some p => translate_settings p
  | None =>
      last ← reads (λ w, c_lastSettings (w_cam w));
      if md_isEmpty last then mret (inl (- EINVAL)) else mret (inr md_new)
  end.

(** The buffers given to the stock library: its own stream objects and the
    handles of the references. *)
Fixpoint vendor_buffers (buffers : list camera3_stream_buffer) : M W (list camera3_stream_buffer) :=
  match buffers with
  | [] => mret []
  | b :: buffers =>
      streams ← reads (λ w, c_streams (w_cam w));
      v ← match streams !! sb_stream b with
          | Some s =>
              match s_buffers s !! sb_handle b with
              | Some ref => mret (Buffer3 (s_id s) (Some (ref, sb_handle b)) (sb_status b)
                                    (sb_acquire_fence b) (sb_release_fence b))
              | None => _ ← flaw NoReference; mret b
              end
          | None => _ ← flaw NoReference; mret b
          end;
      vs ← vendor_buffers buffers;
      mret (v :: vs)
  end.

(** The frame of a request and the request for the stock library. *)
Definition make_frame (request : capture_request) (buffers : list camera3_stream_buffer) :
    M W (Z + Frame K * vendor_request) :=
  settings ← request_settings (cr_settings request);
  match settings with
  | inl error => mret (inl error)
  | inr m =>
      vs ← vendor_buffers buffers;
      serial ← new_address;
      let m' := match cr_settings request with Some _ => md_getAndLock m | None => m end in
      mret (inr (MkFrame serial m' md_new buffers vs (replicate (List.length buffers) false)
                   (Z.of_nat (List.length buffers)) false false,
                 VendorRequest (cr_frame_number request)
                   (match cr_settings request with Some _ => md_buffer m | None => None end) vs))
  end.

(** [frames.emplace], which leaves a frame that is there. *)
Definition insert_frame (number : Z) (f : Frame K) : M W unit :=
  frames ← reads (λ w, c_frames (w_cam w));
  match frames !! number with
  | Some _ => mret tt
  | None =>
      _ ← modify_cam (set_frames (<[number := f]> frames));
      note [LSubmitted (fr_serial f) number (fr_clientBuffers f)]
  end.

Definition unlock_settings (request : vendor_request) (f : Frame K) : Frame K :=
  match vr_settings request with
  | Some _ => MkFrame (fr_serial f) (md_unlock (vr_settings request) (fr_settings f)) (fr_partials f)
                (fr_clientBuffers f) (fr_vendorBuffers f) (fr_returned f) (fr_remaining f)
                (fr_metadataDone f) (fr_shutterDone f)
  | None => f
  end.

(** [frames.erase] of a request the stock library has not accepted. *)
Definition erase_frame (number : Z) : M W unit :=
  frames ← reads (λ w, c_frames (w_cam w));
  _ ← note (match frames !! number with Some f => [LRefused (fr_serial f)] | None => [] end);
  modify_cam (λ c, notify_drained (set_frames (delete number frames) c)).

(** [capture] once its buffers are registered. *)
Definition submit (request : capture_request) (buffers : list camera3_stream_buffer) : P Z :=
  made ← atomic (make_frame request buffers);
  match made with
  | inl error => mret error
  | inr (f, legacyRequest) =>
      let number := cr_frame_number request in
      _ ← atomic (insert_frame number f);
      result ← atomic (vendor_call 0
                 (λ d, stock_process_capture_request (sd_id d) legacyRequest));
      _ ← atomic (modify_cam (λ c,
            set_frames (alter (unlock_settings legacyRequest) number (c_frames c)) c));
      _ ← (if bool_decide (result ≠ 0) then atomic (erase_frame number) else mret tt);
      mret result
  end.

Definition capture (t : nat) (request : option capture_request) : P Z :=
  match request with
  | Some (CaptureRequest number settings false (Some ((_ :: _) as buffers)) as request) =>
      with_request t (
        refused ← atomic (reads (λ w,
          if device_dead (w_cam w) then Some (- ENODEV)
          else if bool_decide (is_Some (c_frames (w_cam w) !! number)) then Some (- EINVAL)
          else None));
        match refused with
        | Some error => mret error
        | None =>
            checked ← atomic (reads (λ w, check_buffers (c_streams (w_cam w)) buffers [] false));
            match checked with
            | None => mret (- EINVAL)
            | Some (_, newBuffer) =>
                result ← (if newBuffer : bool then
                            drained ← drain;
                            if bool_decide (drained ≠ 0) then mret drained
                            else register_buffers buffers
                          else mret 0);
                if bool_decide (result ≠ 0) then mret result else submit request buffers
            end
        end)
  | _ => mret (- EINVAL)
  end.

(** ** close and dump *)

Definition abandoned (frames : gmap Z (Frame K)) : list camera_log :=
  (λ '(_, f), LAbandoned (fr_serial f)) <$> map_to_list frames.

Definition clear_device : M W unit :=
  c ← reads w_cam;
  _ ← note (abandoned (c_frames c));
  _ ← modify_cam (λ c, set_failed [] (set_streams ∅ (set_frames ∅ c)));
  unregister_all (streams_handles (c_streams c) ++
                  (c_failedStreams c ≫= stream_handles)).

Definition close (t : nat) : P Z :=
  with_request t (
    _ ← atomic (modify_cam set_closing);
    result ← atomic close_vendor;
    _ ← atomic clear_device;
    mret result).

(** [try_to_lock]: whether the mutex was free. *)
Definition try_lock_request (t : nat) : P bool :=
  Act (λ _ w, match w_request w with
              | None => (Some true, set_request (Some t) w)
              | Some _ => (Some false, w)
              end) Ret.

(** Under [stateMutex], which another thread may have just now. *)
Definition dump_state (busy : bool) (w : W) : option bool * W :=
  if busy then (Some false, add_log [LDump StateBusy] w)
  else
    let c := w_cam w in
    (Some true, add_log [LDump (DumpState (Z.of_nat (size (c_frames c))) (c_fatal c) (c_closing c))] w).

Definition dump (t : nat) : P unit :=
  owns ← try_lock_request t;
  if negb owns then atomic (note [LDump RequestBusy])
  else
    ok ← Act dump_state Ret;
    _ ← (if ok : bool then
           vendor ← atomic (reads (λ w, c_vendor (w_cam w)));
           match vendor with
           | Some d => if sd_dump d then atomic (ask (stock_dump (sd_id d))) else mret tt
           | None => mret tt
           end
         else mret tt);
    unlock_request.

(** ** Callbacks *)

Definition client_notify (message : camera3_notify_msg) : M W unit :=
  set ← reads (λ w, c_clientCallbacks (w_cam w));
  if set : bool then note [LNotify message] else flaw NullCallbacks.

(** [retire]. *)
Definition retire (number : Z) : M W unit :=
  frames ← reads (λ w, c_frames (w_cam w));
  match frames !! number with
  | Some f =>
      if bool_decide (fr_remaining f = 0) && fr_metadataDone f && fr_shutterDone f then
        _ ← note [LRetired (fr_serial f)];
        modify_cam (λ c, notify_drained (set_frames (delete number frames) c))
      else mret tt
  | None => mret tt
  end.

(** [find_if] over the frame's buffers: the first that is the one returned. *)
Fixpoint find_expected (n : nat) (returned : camera3_stream_buffer)
    (expected : list camera3_stream_buffer) (done : list bool) : option nat :=
  match expected, done with
  | e :: expected, d :: done =>
      if bool_decide (sb_stream returned = sb_stream e) && bool_decide (is_Some (sb_buffer returned))
         && bool_decide (sb_handle returned = sb_handle e) && negb d
      then Some n
      else find_expected (S n) returned expected done
  | _, _ => None
  end.

(** The buffer of the client for a returned one. *)
Definition converted (client returned : camera3_stream_buffer) : camera3_stream_buffer :=
  Buffer3 (sb_stream client) (sb_buffer client) (sb_status returned) (-1) (sb_release_fence returned).

Definition set_returned (n : nat) (f : Frame K) : Frame K :=
  MkFrame (fr_serial f) (fr_settings f) (fr_partials f) (fr_clientBuffers f) (fr_vendorBuffers f)
    (<[n := true]> (fr_returned f)) (u32 (fr_remaining f - 1)) (fr_metadataDone f)
    (fr_shutterDone f).

(** The loop over the buffers of a result: the frame, the client's buffers by
    their indices, and the fences of those that were not expected. *)
Fixpoint take_buffers (buffers : list camera3_stream_buffer) (f : Frame K)
    (output : list (nat * camera3_stream_buffer)) (strange : list Z) :
    Frame K * list (nat * camera3_stream_buffer) * list Z :=
  match buffers with
  | [] => (f, output, strange)
  | b :: buffers =>
      match find_expected 0 b (fr_vendorBuffers f) (fr_returned f) with
      | None => take_buffers buffers f output (strange ++ [sb_release_fence b])
      | Some n =>
          let client := default b (fr_clientBuffers f !! n) in
          take_buffers buffers (set_returned n f) (output ++ [(n, converted client b)]) strange
      end
  end.

Definition close_fences (fences : list Z) : list camera_log :=
  LCloseFence <$> filter (λ fence, 0 <= fence) fences.

Definition set_metadata (partials : md) (done : bool) (f : Frame K) : Frame K :=
  MkFrame (fr_serial f) (fr_settings f) partials (fr_clientBuffers f) (fr_vendorBuffers f)
    (fr_returned f) (fr_remaining f) done (fr_shutterDone f).

(** Whether a packet says that it is a partial one. *)
Definition is_partial (p : packet) : bool :=
  match find_camera_metadata_ro_entry (pk_entries p) ANDROID_QUIRKS_PARTIAL_RESULT with
  | Some e => bool_decide (me_data e = [ANDROID_QUIRKS_PARTIAL_RESULT_PARTIAL])
  | None => false
  end.

(** The metadata of a result: the frame, the metadata for the client, and
    whether it is lost. *)
Definition take_metadata (source : option packet) (f : Frame K) : M W (Frame K * option md * bool) :=
  match source with
  | None => mret (f, None, false)
  | Some p =>
      if fr_metadataDone f then mret (f, None, false)
      else if is_partial p then
        '(ok, partials) ← ask (mergeMetadata (fr_partials f) (Some p));
        mret (set_metadata partials (negb ok) f, None, negb ok)
      else
        '(ok, m) ← ask (mergeMetadata md_new (Some p));
        '(ok, m) ← (if ok : bool then ask (finishResult m (fr_partials f)) else mret (false, m));
        mret (set_metadata (fr_partials f) true f, if ok : bool then Some m else None, negb ok)
  end.

(** What the stock library has said about a frame, for the log. *)
Definition stock_news (metadata shutter : bool) (frame : option (Frame K)) : list camera_log :=
  match frame with
  | Some f => (if metadata then [LMetadataEnd (fr_serial f)] else []) ++
              (if shutter then [LShutterEnd (fr_serial f)] else [])
  | None => []
  end.

(** Whether no metadata will come after these: they are not partial, or they
    could not be kept. *)
Definition ends_metadata (source : option packet) (lost : bool) : bool :=
  match source with Some p => negb (is_partial p) || lost | None => false end.

(** What a result gives the client. *)
Record for_client := ForClient {
  fc_serial : Z;
  fc_error : bool;
  fc_metadata : option md;
  fc_output : list (nat * camera3_stream_buffer)
}.

(** The parts of it: the metadata, and the buffers by their indices. *)
Definition items (fc : for_client) : list (Z * option nat) :=
  match fc_metadata fc with Some _ => [(fc_serial fc, None)] | None => [] end ++
  ((λ '(n, _), (fc_serial fc, Some n)) <$> fc_output fc).

(** The part of [result] under [stateMutex]. *)
Definition result_section (stock : stock_result) : M W (option for_client) :=
  frames ← reads (λ w, c_frames (w_cam w));
  match frames !! sr_frame stock with
  | None => _ ← note (close_fences (sb_release_fence <$> sr_buffers stock)); mret None
  | Some f =>
      '(f, metadata, lost) ← take_metadata (sr_metadata stock) f;
      _ ← note (stock_news (ends_metadata (sr_metadata stock) lost) false (Some f));
      let '(f', output, strange) := take_buffers (sr_buffers stock) f [] [] in
      _ ← modify_cam (set_frames (<[sr_frame stock := f']> frames));
      _ ← (if bool_decide (strange = []) then mret tt
           else _ ← note (close_fences strange);
                modify_cam (λ c, notify_drained (set_fatal c)));
      _ ← (if bool_decide (fr_remaining f < Z.of_nat (List.length output)) then flaw TooManyReturned
           else mret tt);
      let fc := ForClient (fr_serial f) lost metadata output in
      _ ← modify (set_carried (items fc));
      mret (Some fc)
  end.

(** The call of the client's [process_capture_result]. *)
Definition client_result (number : Z) (fc : for_client) : M W unit :=
  _ ← modify (set_carried []);
  set ← reads (λ w, c_clientCallbacks (w_cam w));
  if set : bool then
    note [LResult (fc_serial fc) number (md_entries <$> fc_metadata fc)
            (match fc_metadata fc with Some _ => 1 | None => 0 end) (fc_output fc)]
  else flaw NullCallbacks.

Definition result (t : nat) (stock : stock_result) : P unit :=
  with_callback t (
    fc ← atomic (result_section stock);
    match fc with
    | None => mret tt
    | Some fc =>
        _ ← (if fc_error fc
             then atomic (client_notify (MSG_ERROR (sr_frame stock) 0 CAMERA3_MSG_ERROR_RESULT))
             else mret tt);
        _ ← (match fc_metadata fc, fc_output fc with
             | None, [] => mret tt
             | _, _ => atomic (client_result (sr_frame stock) fc)
             end);
        atomic (retire (sr_frame stock))
    end).

Definition set_done (metadata shutter : bool) (f : Frame K) : Frame K :=
  MkFrame (fr_serial f) (fr_settings f) (fr_partials f) (fr_clientBuffers f) (fr_vendorBuffers f)
    (fr_returned f) (fr_remaining f) (fr_metadataDone f || metadata) (fr_shutterDone f || shutter).

(** The client's stream for a stream of the stock library; 0 is null. *)
Definition client_of (streams : gmap Z Stream) (legacy : Z) : Z :=
  match head (filter (λ '(_, s), s_id s = legacy) (map_to_list streams)) with
  | Some (_, s) => s_client s
  | None => 0
  end.

(** The part of [notify] under [stateMutex]: the message for the client and the
    frame it is about. *)
Definition notify_section (message : camera3_notify_msg) : M W (camera3_notify_msg * option Z) :=
  c ← reads w_cam;
  match message with
  | MSG_SHUTTER number timestamp =>
      _ ← note (stock_news false true (c_frames c !! number));
      _ ← modify_cam (set_frames (alter (set_done false true) number (c_frames c)));
      mret (message, Some number)
  | MSG_ERROR number stream code =>
      let request := bool_decide (code = CAMERA3_MSG_ERROR_REQUEST) in
      let metadata := request || bool_decide (code = CAMERA3_MSG_ERROR_RESULT) in
      _ ← note (stock_news metadata request (c_frames c !! number));
      _ ← modify_cam (set_frames (alter (set_done metadata request) number (c_frames c)));
      _ ← (if bool_decide (code = CAMERA3_MSG_ERROR_DEVICE)
           then modify_cam (λ c, notify_drained (set_fatal c)) else mret tt);
      mret (MSG_ERROR number (client_of (c_streams c) stream) code, Some number)
  | MSG_OTHER _ => mret (message, None)
  end.

Definition notify (t : nat) (message : camera3_notify_msg) : P unit :=
  with_callback t (
    '(message, number) ← atomic (notify_section message);
    _ ← atomic (client_notify message);
    match number with Some number => atomic (retire number) | None => mret tt end).

(** ** The calls of the client and of the stock library *)

(** The operations of [camera3_device_t], whose device may be null or have no
    [priv]: the result is then the default. *)
Definition camera {A} (device : bool) (default : A) (call : P A) : P A :=
  if device then call else mret default.

Definition device_initialize (t : nat) (device : bool) (client : option (bool * bool)) : P Z :=
  camera device (- EINVAL) (initialize t client).
Definition device_configure (t : nat) (device : bool) (config : option stream_configuration) : P Z :=
  camera device (- EINVAL) (configure t config).
Definition device_defaultRequest (t : nat) (device : bool) (type : Z) : P (option packet) :=
  camera device None (defaultRequest t type).
Definition device_capture (t : nat) (device : bool) (request : option capture_request) : P Z :=
  camera device (- EINVAL) (capture t request).
Definition device_flush (t : nat) (device : bool) : P Z := camera device (- EINVAL) (flush t).
Definition device_dump (t : nat) (device : bool) : P unit := camera device tt (dump t).

(** [closeDevice] of a device with its [priv]; [device]: it is not null. *)
Definition closeDevice (t : nat) (device : bool) : P Z := camera device (- EINVAL) (close t).

Inductive camera_call :=
  | Initialize (device : bool) (client : option (bool * bool))
  | ConfigureStreams (device : bool) (config : option stream_configuration)
  | ConstructDefaultRequestSettings (device : bool) (type : Z)
  | ProcessCaptureRequest (device : bool) (request : option capture_request)
  | Flush (device : bool)
  | Dump (device : bool)
  | CloseDevice (device : bool)
  | ResultCallback (stock : stock_result)
  | NotifyCallback (message : camera3_notify_msg)
  | WriteStream (client : Z) (stream : camera3_stream).  (** the client writes a stream of its own *)

(** The log has what a call of the client returns. *)
Definition noted (t : nat) (p : P Z) : P unit := result ← p; atomic (note [LReturn t result]).

Definition call_proc (t : nat) (call : camera_call) : P unit :=
  match call with
  | Initialize device client => noted t (device_initialize t device client)
  | ConfigureStreams device config => noted t (device_configure t device config)
  | ConstructDefaultRequestSettings device type => _ ← device_defaultRequest t device type; mret tt
  | ProcessCaptureRequest device request => noted t (device_capture t device request)
  | Flush device => noted t (device_flush t device)
  | Dump device => device_dump t device
  | CloseDevice device => noted t (closeDevice t device)
  | ResultCallback stock => result t stock
  | NotifyCallback message => notify t message
  | WriteStream client stream =>
      atomic (modify (λ w, set_clients (<[client := stream]> (w_clients w)) w))
  end.

(** ** camera3_device_open *)

(** [strtol] of a string of digits, which is all the function accepts. *)
Fixpoint digits_value (acc : Z) (s : string) : option Z :=
  match s with
  | EmptyString => Some acc
  | String c s =>
      let d := Z.of_nat (nat_of_ascii c) - 48 in
      if bool_decide (0 <= d <= 9) then digits_value (10 * acc + d) s else None
  end.

(** The id of a camera's name; [None]: refused.  A value that does not fit a
    [long] sets [errno], and is above 1. *)
Definition camera_id (name : option string) : option Z :=
  match name with
  | None | Some EmptyString => None
  | Some name => id ← digits_value 0 name; if bool_decide (2 <= id) then None else Some id
  end.

Definition new_camera (d : stock_device) (name : string) (info : list mentry) : Camera K :=
  MkCamera (Some d) info name false ∅ [] ∅
    (replicate (Z.to_nat CAMERA3_TEMPLATE_COUNT) md_new) md_new 0 0 false false false.

(** [ok]: [module] and [device] are not null.  The result and the device. *)
Definition camera3_device_open (ok : bool) (name : option string) : M K (Z * option (Camera K)) :=
  match camera_id name with
  | None => mret (- EINVAL, None)
  | Some id =>
      if negb ok then mret (- EINVAL, None)
      else
        '(result, info) ← mocha_camera_info id;
        match info with
        | None => mret (result, None)
        | Some info =>
            stock ← stock_camera_module;
            n ← (match stock with Some _ => stock_number_of_cameras | None => mret 0 end);
            if bool_decide (stock = None) || bool_decide (n <= id) then mret (- EINVAL, None)
            else
              allocated ← new_nothrow;
              if negb allocated then mret (- ENOMEM, None)
              else
                '(result, (reg, unreg)) ← hw_get_gralloc;
                if bool_decide (result ≠ 0) then mret (result, None)
                else if negb (reg && unreg) then mret (- ENODEV, None)
                else
                  '(result, opened) ← stock_open (default EmptyString name);
                  if bool_decide (result ≠ 0) then mret (result, None)
                  else
                    match opened with
                    | None => mret (- ENODEV, None)
                    | Some d =>
                        if device_supported d then
                          mret (0, Some (new_camera d (default EmptyString name)
                                           (match ci_static_camera_characteristics info with
                                            | Some p => pk_entries p | None => [] end)))
                        else _ ← stock_close (sd_id d); mret (- ENODEV, None)
                    end
        end
  end.

End camera.
