(* ===== verification/CameraInv.v ===== *)
(** * The invariant of the camera device

    What holds between any two actions of the threads of Camera3.v: where the
    buffers of every accepted request are, when the thread that drains sleeps,
    which handles are registered. *)

From S2P Require Import Prelude Threads CameraH LegacyMeta CameraWrap Camera3.
From stdpp Require Import gmap.

#[global] Open Scope Z_scope.

(** ** What the log says *)

Definition times {A} `{EqDecision A} (x : A) (l : list A) : nat := length (filter (x =.) l).

(** The parts of results the client was given. *)
Definition given (e : camera_log) : list (Z * option nat) :=
  match e with
  | LResult serial _ metadata _ buffers =>
      match metadata with Some _ => [(serial, None)] | None => [] end ++
      ((λ '(n, _), (serial, Some n)) <$> buffers)
  | _ => []
  end.

Definition delivered (log : list camera_log) : list (Z * option nat) := log ≫= given.

(** The requests accepted: serial number, frame number, the client's buffers. *)
Definition submitted (log : list camera_log) : list (Z * Z * list camera3_stream_buffer) :=
  omap (λ e, match e with LSubmitted s n b => Some (s, n, b) | _ => None end) log.

Definition retired (log : list camera_log) : list Z :=
  omap (λ e, match e with LRetired s => Some s | _ => None end) log.

(** The frames that are gone. *)
Definition ended (log : list camera_log) : list Z :=
  omap (λ e, match e with LRetired s | LRefused s | LAbandoned s => Some s | _ => None end) log.

(** How often a handle is registered. *)
Definition log_balance (h : Z) (log : list camera_log) : Z :=
  count (λ e, match e with LRegister h' => bool_decide (h' = h) | _ => false end) log -
  count (λ e, match e with LUnregister h' => bool_decide (h' = h) | _ => false end) log.

Lemma times_app {A} `{EqDecision A} (x : A) l l' : times x (l ++ l') = (times x l + times x l')%nat.
Proof. unfold times. by rewrite filter_app, length_app. Qed.

Lemma times_cons {A} `{EqDecision A} (x y : A) l :
  times x (y :: l) = ((if decide (x = y) then 1 else 0) + times x l)%nat.
Proof. unfold times. rewrite filter_cons. by destruct (decide (x = y)). Qed.

Lemma times_pos {A} `{EqDecision A} (x : A) l : (0 < times x l)%nat ↔ x ∈ l.
Proof.
  unfold times. split.
  - intros Hl. destruct (filter (x =.) l) as [|y k] eqn:Hf; cbn in Hl; [lia|].
    assert (Hy : y ∈ filter (x =.) l) by (rewrite Hf; left).
    by apply list_elem_of_filter in Hy as [-> Hy].
  - intros Hx. assert (Hin : x ∈ filter (x =.) l) by by apply list_elem_of_filter.
    destruct (filter (x =.) l); [by apply not_elem_of_nil in Hin|cbn; lia].
Qed.

Lemma times_nil {A} `{EqDecision A} (x : A) : times x [] = 0%nat.
Proof. done. Qed.

Lemma times_zero {A} `{EqDecision A} (x : A) l : x ∉ l → times x l = 0%nat.
Proof. rewrite <- times_pos. lia. Qed.

Lemma delivered_app l l' : delivered (l ++ l') = delivered l ++ delivered l'.
Proof. apply bind_app. Qed.
Lemma submitted_app l l' : submitted (l ++ l') = submitted l ++ submitted l'.
Proof. apply omap_app. Qed.
Lemma retired_app l l' : retired (l ++ l') = retired l ++ retired l'.
Proof. apply omap_app. Qed.
Lemma ended_app l l' : ended (l ++ l') = ended l ++ ended l'.
Proof. apply omap_app. Qed.
Lemma log_balance_app h l l' : log_balance h (l ++ l') = log_balance h l + log_balance h l'.
Proof. unfold log_balance. rewrite !count_app. lia. Qed.

Lemma retired_ended s log : s ∈ retired log → s ∈ ended log.
Proof.
  unfold retired, ended. rewrite !list_elem_of_omap. intros (e & He & Hs). exists e.
  split; [done|]. by destruct e.
Qed.

(** Entries of the log the contract does not restrict. *)
Definition quiet (e : camera_log) : Prop :=
  match e with
  | LSubmitted _ _ _ | LRefused _ | LRetired _ | LAbandoned _ | LResult _ _ _ _ _ | LRegister _ =>
      False
  | _ => True
  end.

Lemma quiet_log l :
  Forall quiet l → delivered l = [] ∧ submitted l = [] ∧ retired l = [] ∧ ended l = [].
Proof.
  induction 1 as [|e l He Hl IH]; [done|]. destruct IH as (Hd & Hs & Hr & Hn).
  unfold delivered, submitted, retired, ended in *. cbn.
  destruct e; cbn in He |- *; by try done.
Qed.

Create Rewrite HintDb camlog.
#[export] Hint Rewrite @times_app @times_nil delivered_app submitted_app retired_app ended_app
  log_balance_app : camlog.

(** ** The contract with the client *)

(** A buffer given to the client is its own, with the status and release fence
    of the stock library. *)
Definition outputs_ok (client : list camera3_stream_buffer)
    (output : list (nat * camera3_stream_buffer)) : Prop :=
  ∀ i x, (i, x) ∈ output → ∃ c, client !! i = Some c ∧
    sb_stream x = sb_stream c ∧ sb_buffer x = sb_buffer c ∧ sb_acquire_fence x = -1.

(** What the adapter may do after [p]: take a new request; give the client parts
    of a request that it has not been given, until the request is retired;
    retire it when every buffer is back, the stock library has sent the last of
    its metadata or reported an error instead, and has announced the shutter or
    failed the request; drop it; register buffers while every request is over. *)
Definition lawful (p : list camera_log) (e : camera_log) : Prop :=
  match e with
  | LSubmitted s _ _ => ∀ n b, (s, n, b) ∉ submitted p
  | LRefused s | LAbandoned s => s ∉ ended p ∧ ∃ n b, (s, n, b) ∈ submitted p
  | LRetired s => s ∉ ended p ∧ LMetadataEnd s ∈ p ∧ LShutterEnd s ∈ p ∧
      ∃ n b, (s, n, b) ∈ submitted p ∧
        ∀ i, (i < length b)%nat → times (s, Some i) (delivered p) = 1%nat
  | LResult s n _ _ out => s ∉ retired p ∧ (∃ b, (s, n, b) ∈ submitted p ∧ outputs_ok b out) ∧
      ∀ x, x ∈ given e → times x (delivered p ++ given e) = 1%nat
  | LRegister _ => ∀ s n b, (s, n, b) ∈ submitted p → s ∈ ended p
  | _ => True
  end.

Inductive contract : list camera_log → Prop :=
  | contract_nil : contract []
  | contract_snoc p e : contract p → lawful p e → contract (p ++ [e]).

Lemma contract_quiet p l : Forall quiet l → contract p → contract (p ++ l).
Proof.
  intros Hl. revert p. induction Hl as [|e l He Hl IH]; intros p Hp; [by rewrite app_nil_r|].
  replace (p ++ e :: l) with ((p ++ [e]) ++ l) by by rewrite <- app_assoc.
  apply IH. constructor; [done|]. by destruct e.
Qed.

(** A retired request is complete. *)
Lemma contract_retired log s :
  contract log → s ∈ retired log → LMetadataEnd s ∈ log ∧ LShutterEnd s ∈ log.
Proof.
  induction 1 as [|p e Hp IH He]; [by intros ?%elem_of_nil|].
  rewrite retired_app, !elem_of_app. intros [Hs|Hs]; [destruct (IH Hs); by auto|].
  destruct e; cbn in Hs; try by apply elem_of_nil in Hs.
  apply list_elem_of_singleton in Hs as ->. destruct He as (_ & Hm & Hsh & _). auto.
Qed.

(** ** The buffers of the frames *)

Section accounts.
  Context {K : Type} `{CameraMetadataApi K}.

Implicit Types (f : Frame K) (frames : gmap Z (Frame K)).

(** [seen]: what the client was given and what is on its way. *)
Record frame_ok (log : list camera_log) (seen : list (Z * option nat)) (n : Z) f : Prop := {
  fo_submitted : (fr_serial f, n, fr_clientBuffers f) ∈ submitted log;
  fo_alive : fr_serial f ∉ ended log;
  fo_vendor : length (fr_vendorBuffers f) = length (fr_clientBuffers f);
  fo_returned : length (fr_returned f) = length (fr_clientBuffers f);
  fo_remaining : fr_remaining f = count negb (fr_returned f);
  fo_size : Z.of_nat (length (fr_clientBuffers f)) < 2 ^ 32;
  fo_seen i d : fr_returned f !! i = Some d → times (fr_serial f, Some i) seen = Nat.b2n d;
  fo_metadata : fr_metadataDone f = false → times (fr_serial f, None) seen = 0%nat;
  fo_metadata_end : fr_metadataDone f = true → LMetadataEnd (fr_serial f) ∈ log;
  fo_shutter_end : fr_shutterDone f = true → LShutterEnd (fr_serial f) ∈ log
}.

Record accounts frames (log : list camera_log) (pending : list (Z * option nat)) (next : Z) : Prop := {
  ac_frame n f : frames !! n = Some f → frame_ok log (delivered log ++ pending) n f;
  ac_serial n1 n2 f1 f2 :
    frames !! n1 = Some f1 → frames !! n2 = Some f2 → fr_serial f1 = fr_serial f2 → n1 = n2;
  ac_once x : (times x (delivered log ++ pending) <= 1)%nat;
  ac_known s o :
    (s, o) ∈ delivered log ++ pending → ∃ n b, (s, n, b) ∈ submitted log ∧
      match o with Some i => (i < length b)%nat | None => True end;
  ac_distinct : NoDup ((submitted log).*1.*1);
  ac_fresh s n b : (s, n, b) ∈ submitted log → s < next;
  ac_ended s : s ∈ ended log → ∃ n b, (s, n, b) ∈ submitted log;
  ac_fate s n b : (s, n, b) ∈ submitted log →
    s ∈ ended log ∨ ∃ f, frames !! n = Some f ∧ fr_serial f = s;
  ac_retired s n b i : s ∈ retired log → (s, n, b) ∈ submitted log → (i < length b)%nat →
    times (s, Some i) (delivered log) = 1%nat;
  ac_results s n m pr out : LResult s n m pr out ∈ log →
    ∃ b, (s, n, b) ∈ submitted log ∧ outputs_ok b out;
  ac_pending s o : (s, o) ∈ pending → s ∉ retired log;
  ac_contract : contract log
}.

(** The log grows. *)
Ltac frame_ends :=
  try done; try by (intros ?; apply elem_of_app; left; auto).

Lemma accounts_quiet frames log pending next l :
  Forall quiet l → accounts frames log pending next → accounts frames (log ++ l) pending next.
Proof.
  intros Hq Ha. pose proof (quiet_log l Hq) as (Hd & Hs & Hr & He).
  assert (Hdl : delivered (log ++ l) = delivered log) by by rewrite delivered_app, Hd, app_nil_r.
  assert (Hsl : submitted (log ++ l) = submitted log) by by rewrite submitted_app, Hs, app_nil_r.
  assert (Hrl : retired (log ++ l) = retired log) by by rewrite retired_app, Hr, app_nil_r.
  assert (Hel : ended (log ++ l) = ended log) by by rewrite ended_app, He, app_nil_r.
  destruct Ha. split; rewrite ?Hdl, ?Hsl, ?Hrl, ?Hel; try done.
  - intros n f Hf. destruct (ac_frame0 n f Hf). split; rewrite ?Hsl, ?Hel; by frame_ends.
  - intros s n m pr out [Hin|Hin]%elem_of_app; [by apply ac_results0 in Hin|].
    rewrite Forall_forall in Hq. by apply Hq in Hin.
  - by apply contract_quiet.
Qed.

(** Handles are registered while there are no frames. *)
Lemma accounts_register log pending next h :
  accounts ∅ log pending next → accounts ∅ (log ++ [LRegister h]) pending next.
Proof.
  intros Ha. set (e := LRegister h).
  assert (Hx : delivered (log ++ [e]) = delivered log ∧ submitted (log ++ [e]) = submitted log ∧
               retired (log ++ [e]) = retired log ∧ ended (log ++ [e]) = ended log).
  { rewrite delivered_app, submitted_app, retired_app, ended_app. cbn. by rewrite !app_nil_r. }
  destruct Hx as (Hdl & Hsl & Hrl & Hel). destruct Ha.
  split; rewrite ?Hdl, ?Hsl, ?Hrl, ?Hel; try done.
  - intros s n m pr out [Hin|Hin%list_elem_of_singleton]%elem_of_app; [by apply ac_results0 in Hin|done].
  - constructor; [done|]. intros s n b Hs.
    destruct (ac_fate0 s n b Hs) as [|(f & Hf & _)]; [done|]. by rewrite lookup_empty in Hf.
Qed.

Lemma accounts_next frames log pending next next' :
  next <= next' → accounts frames log pending next → accounts frames log pending next'.
Proof. intros Hn []. split; try done. intros s n b Hs. specialize (ac_fresh0 _ _ _ Hs). lia. Qed.

(** A change of a frame that does not concern its buffers. *)
Definition same_buffers f f' : Prop :=
  fr_serial f' = fr_serial f ∧ fr_clientBuffers f' = fr_clientBuffers f ∧
  fr_vendorBuffers f' = fr_vendorBuffers f ∧ fr_returned f' = fr_returned f ∧
  fr_remaining f' = fr_remaining f ∧ (fr_metadataDone f' = false → fr_metadataDone f = false).

(** What a frame has taken note of since is in the log. *)
Definition noted_in (log : list camera_log) f f' : Prop :=
  (fr_metadataDone f' = true → fr_metadataDone f = true ∨ LMetadataEnd (fr_serial f) ∈ log) ∧
  (fr_shutterDone f' = true → fr_shutterDone f = true ∨ LShutterEnd (fr_serial f) ∈ log).

Lemma noted_ends log seen n f f' :
  noted_in log f f' → frame_ok log seen n f → fr_serial f' = fr_serial f →
  (fr_metadataDone f' = true → LMetadataEnd (fr_serial f') ∈ log) ∧
  (fr_shutterDone f' = true → LShutterEnd (fr_serial f') ∈ log).
Proof.
  intros [Hm Hs] Hf ->. destruct Hf. split; intros Hd; [destruct (Hm Hd)|destruct (Hs Hd)]; auto.
Qed.

Lemma accounts_alter g frames log pending next n :
  (∀ f, same_buffers f (g f)) → (∀ f, frames !! n = Some f → noted_in log f (g f)) →
  accounts frames log pending next → accounts (alter g n frames) log pending next.
Proof.
  intros Hg Hn Ha.
  assert (Hl : ∀ m f, alter g n frames !! m = Some f →
            ∃ f0, frames !! m = Some f0 ∧ same_buffers f0 f ∧ noted_in log f0 f).
  { intros m f Hm. destruct (decide (m = n)) as [->|Hne].
    - rewrite lookup_alter_eq in Hm. apply fmap_Some in Hm as (f0 & Hf0 & ->). eauto.
    - rewrite lookup_alter_ne in Hm by done. exists f. split; [done|]. split; [by split_and!|].
      split; by left. }
  destruct Ha. split; try done.
  - intros m f Hm. destruct (Hl m f Hm) as (f0 & Hf0 & (Hs & Hc & Hv & Hr & Hrem & Hd) & Hno).
    destruct (noted_ends _ _ _ _ _ Hno (ac_frame0 m f0 Hf0) Hs).
    destruct (ac_frame0 m f0 Hf0). split; try done; rewrite ?Hs, ?Hc, ?Hv, ?Hr, ?Hrem; auto.
  - intros n1 n2 f1 f2 Hf1 Hf2 Heq.
    destruct (Hl n1 f1 Hf1) as (g1 & Hg1 & (Hs1 & _) & _), (Hl n2 f2 Hf2) as (g2 & Hg2 & (Hs2 & _) & _).
    eapply ac_serial0; [exact Hg1|exact Hg2|congruence].
  - intros s m b Hs. destruct (ac_fate0 s m b Hs) as [|(f & Hf & <-)]; [by left|]. right.
    destruct (decide (m = n)) as [->|Hne].
    + rewrite lookup_alter_eq, Hf. eexists. split; [done|]. apply Hg.
    + rewrite lookup_alter_ne by done. eauto.
Qed.

(** A frame that goes without having been completed. *)
Lemma accounts_drop e frames log pending next n f :
  frames !! n = Some f →
  e = LRefused (fr_serial f) ∨ e = LAbandoned (fr_serial f) →
  accounts frames log pending next → accounts (delete n frames) (log ++ [e]) pending next.
Proof.
  intros Hf He Ha.
  assert (Hx : delivered (log ++ [e]) = delivered log ∧ submitted (log ++ [e]) = submitted log ∧
               retired (log ++ [e]) = retired log ∧ ended (log ++ [e]) = ended log ++ [fr_serial f]).
  { rewrite delivered_app, submitted_app, retired_app, ended_app.
    destruct He as [-> | ->]; cbn; by rewrite !app_nil_r. }
  destruct Hx as (Hdl & Hsl & Hrl & Hel). destruct Ha.
  split; rewrite ?Hdl, ?Hsl, ?Hrl, ?Hel; try done.
  - intros m g [Hm Hg]%lookup_delete_Some. destruct (ac_frame0 m g Hg).
    split; rewrite ?Hsl, ?Hel; frame_ends.
    intros [|Heq%list_elem_of_singleton]%elem_of_app; [done|]. apply Hm.
    by eapply ac_serial0.
  - intros n1 n2 f1 f2 [_ Hf1]%lookup_delete_Some [_ Hf2]%lookup_delete_Some. by eapply ac_serial0.
  - intros s [Hs|Hs%list_elem_of_singleton]%elem_of_app; [by apply ac_ended0|]. subst s.
    destruct (ac_frame0 n f Hf). eauto.
  - intros s m b Hs. destruct (ac_fate0 s m b Hs) as [|(g & Hg & <-)];
      [left; apply elem_of_app; by left|].
    destruct (decide (m = n)) as [->|Hne].
    + left. apply elem_of_app. right. rewrite Hf in Hg. injection Hg as ->. left.
    + right. exists g. by rewrite lookup_delete_ne.
  - intros s m md pr out [Hin|Hin]%elem_of_app; [by apply ac_results0 in Hin|].
    apply list_elem_of_singleton in Hin. destruct He; congruence.
  - constructor; [done|]. destruct (ac_frame0 n f Hf). destruct He as [-> | ->]; split; eauto.
Qed.

Lemma count_zero {A} (p : A → bool) l i x : count p l = 0 → l !! i = Some x → p x = false.
Proof.
  revert i. induction l as [|y l IH]; intros i Hc Hi; [done|].
  rewrite count_cons in Hc. pose proof (count_bounds p l). destruct i as [|i]; cbn in Hi.
  - injection Hi as ->. destruct (p x); [cbn in Hc; lia|done].
  - apply (IH i); [|done]. destruct (p y); cbn in Hc; lia.
Qed.

(** A frame that is complete, when nothing is on its way to the client. *)
Lemma accounts_retire frames log next n f :
  frames !! n = Some f → fr_remaining f = 0 → fr_metadataDone f = true → fr_shutterDone f = true →
  accounts frames log [] next → accounts (delete n frames) (log ++ [LRetired (fr_serial f)]) [] next.
Proof.
  intros Hf Hz Hmd Hsh Ha.
  set (e := LRetired (fr_serial f)).
  assert (Hx : delivered (log ++ [e]) = delivered log ∧ submitted (log ++ [e]) = submitted log ∧
               retired (log ++ [e]) = retired log ++ [fr_serial f] ∧
               ended (log ++ [e]) = ended log ++ [fr_serial f]).
  { rewrite delivered_app, submitted_app, retired_app, ended_app. cbn. by rewrite !app_nil_r. }
  destruct Hx as (Hdl & Hsl & Hrl & Hel). destruct Ha.
  assert (Hall : ∀ i, (i < length (fr_clientBuffers f))%nat →
                   times (fr_serial f, Some i) (delivered log) = 1%nat).
  { intros i Hi. destruct (ac_frame0 n f Hf).
    destruct (fr_returned f !! i) as [d|] eqn:Hd; [|apply lookup_ge_None in Hd; lia].
    specialize (fo_seen0 i d Hd). rewrite app_nil_r in fo_seen0.
    assert (negb d = false) by (eapply count_zero; [|exact Hd]; congruence). by destruct d. }
  split; rewrite ?Hdl, ?Hsl, ?Hrl, ?Hel; try done.
  - intros m g [Hm Hg]%lookup_delete_Some. destruct (ac_frame0 m g Hg).
    split; rewrite ?Hsl, ?Hel; frame_ends.
    intros [|Heq%list_elem_of_singleton]%elem_of_app; [done|]. apply Hm.
    by eapply ac_serial0.
  - intros n1 n2 f1 f2 [_ Hf1]%lookup_delete_Some [_ Hf2]%lookup_delete_Some. by eapply ac_serial0.
  - intros s [Hs|Hs%list_elem_of_singleton]%elem_of_app; [by apply ac_ended0|]. subst s.
    destruct (ac_frame0 n f Hf). eauto.
  - intros s m b Hs. destruct (ac_fate0 s m b Hs) as [|(g & Hg & <-)];
      [left; apply elem_of_app; by left|].
    destruct (decide (m = n)) as [->|Hne].
    + left. apply elem_of_app. right. rewrite Hf in Hg. injection Hg as ->. left.
    + right. exists g. by rewrite lookup_delete_ne.
  - intros s m b i [Hs|Hs%list_elem_of_singleton]%elem_of_app Hb Hi; [by eapply ac_retired0|].
    subst s. apply Hall. destruct (ac_frame0 n f Hf).
    assert (Heq : (fr_serial f, m, b) = (fr_serial f, n, fr_clientBuffers f)).
    { apply list_elem_of_lookup in Hb as [j Hj], fo_submitted0 as [j' Hj'].
      assert (j = j'); [|congruence].
      eapply NoDup_lookup; [exact ac_distinct0| |]; rewrite !list_lookup_fmap, ?Hj, ?Hj'; done. }
    by injection Heq as -> ->.
  - intros s m md pr out [Hin|Hin]%elem_of_app; [by apply ac_results0 in Hin|].
    by apply list_elem_of_singleton in Hin.
  - by intros s o Hin%elem_of_nil.
  - constructor; [done|]. destruct (ac_frame0 n f Hf). split_and!; eauto.
Qed.

(** A request that is accepted. *)
Lemma accounts_insert frames log pending next n f :
  frames !! n = None → fr_serial f < next →
  (∀ m b, (fr_serial f, m, b) ∉ submitted log) →
  length (fr_vendorBuffers f) = length (fr_clientBuffers f) →
  fr_returned f = replicate (length (fr_clientBuffers f)) false →
  fr_remaining f = Z.of_nat (length (fr_clientBuffers f)) →
  Z.of_nat (length (fr_clientBuffers f)) < 2 ^ 32 →
  fr_metadataDone f = false → fr_shutterDone f = false →
  accounts frames log pending next →
  accounts (<[n := f]> frames) (log ++ [LSubmitted (fr_serial f) n (fr_clientBuffers f)])
    pending next.
Proof.
  intros Hn Hnext Hnew Hv Hr Hrem Hsize Hmd Hsh Ha.
  set (e := LSubmitted _ _ _).
  assert (Hx : delivered (log ++ [e]) = delivered log ∧
               submitted (log ++ [e]) = submitted log ++ [(fr_serial f, n, fr_clientBuffers f)] ∧
               retired (log ++ [e]) = retired log ∧ ended (log ++ [e]) = ended log).
  { rewrite delivered_app, submitted_app, retired_app, ended_app. cbn. by rewrite !app_nil_r. }
  destruct Hx as (Hdl & Hsl & Hrl & Hel). destruct Ha.
  assert (Hsub : ∀ x, x ∈ submitted log → x ∈ submitted log ++ [(fr_serial f, n, fr_clientBuffers f)])
    by (intros; apply elem_of_app; by left).
  assert (Hend : fr_serial f ∉ ended log).
  { intros (m & b & Hb)%ac_ended0. by apply Hnew in Hb. }
  assert (Hunseen : ∀ o, times (fr_serial f, o) (delivered log ++ pending) = 0%nat).
  { intros o. apply times_zero. intros (m & b & Hb & _)%ac_known0. by apply Hnew in Hb. }
  split; rewrite ?Hdl, ?Hsl, ?Hrl, ?Hel; try done.
  - intros m g Hm. destruct (decide (m = n)) as [->|Hne].
    + rewrite lookup_insert_eq in Hm. injection Hm as <-.
      split; rewrite ?Hsl, ?Hel, ?Hr, ?Hmd, ?Hsh; frame_ends.
      * apply elem_of_app. right. left.
      * by rewrite length_replicate.
      * rewrite Hrem. clear. induction (length _) as [|k IH]; [done|].
        cbn [replicate]. rewrite count_cons, <- IH. cbn. lia.
      * intros i d Hd. rewrite Hunseen. by apply lookup_replicate in Hd as [-> _].
    + rewrite lookup_insert_ne in Hm by done. destruct (ac_frame0 m g Hm).
      split; rewrite ?Hsl, ?Hel; frame_ends; auto.
  - intros n1 n2 f1 f2 Hf1 Hf2 Heq.
    assert (Hother : ∀ m g, frames !! m = Some g → fr_serial g ≠ fr_serial f).
    { intros m g Hg Hs. destruct (ac_frame0 m g Hg). rewrite Hs in fo_submitted0.
      by apply Hnew in fo_submitted0. }
    apply lookup_insert_Some in Hf1 as [[<- <-]|[N1 Hf1]], Hf2 as [[<- <-]|[N2 Hf2]];
      [done| | |by eapply ac_serial0].
    + by apply Hother in Hf2.
    + by apply Hother in Hf1.
  - intros s o (m & b & Hb & Ho)%ac_known0. eauto.
  - rewrite !fmap_app. apply NoDup_app. split_and!; [done| |apply NoDup_singleton].
    intros s ([s' m] & -> & Hin)%list_elem_of_fmap Hs%list_elem_of_singleton. cbn in Hs. subst s'.
    apply list_elem_of_fmap in Hin as ([[s' m'] b] & Heq & Hin). cbn in Heq.
    injection Heq as <- <-. by apply Hnew in Hin.
  - intros s m b [Hs|Hs%list_elem_of_singleton]%elem_of_app; [by eapply ac_fresh0|].
    by injection Hs as -> -> ->.
  - intros s (m & b & Hb)%ac_ended0. eauto.
  - intros s m b [Hs|Hs%list_elem_of_singleton]%elem_of_app.
    + destruct (ac_fate0 s m b Hs) as [|(g & Hg & <-)]; [by left|]. right. exists g.
      rewrite lookup_insert_ne; [done|]. congruence.
    + injection Hs as -> -> ->. right. exists f. by rewrite lookup_insert_eq.
  - intros s m b i Hs [Hb|Hb%list_elem_of_singleton]%elem_of_app Hi; [by eapply ac_retired0|].
    injection Hb as -> -> ->. by apply retired_ended in Hs.
  - intros s m md pr out [Hin|Hin]%elem_of_app.
    + destruct (ac_results0 _ _ _ _ _ Hin) as (b & Hb & Ho). eauto.
    + by apply list_elem_of_singleton in Hin.
  - by constructor.
Qed.

(** ** A result *)

Lemma find_expected_Some k b expected ret n :
  find_expected k b expected ret = Some n →
  ∃ j, n = (k + j)%nat ∧ ret !! j = Some false ∧ (j < length expected)%nat.
Proof.
  revert k ret. induction expected as [|e expected IH]; intros k [|d ret] Hf; cbn in Hf; try discriminate.
  destruct (_ && negb d) eqn:Hc.
  - injection Hf as <-. exists O. apply andb_prop in Hc as [_ Hd]. destruct d; [done|].
    split_and!; [lia|done|cbn; lia].
  - destruct (IH _ _ Hf) as (j & -> & Hj & Hl). exists (S j). split_and!; [lia|done|cbn; lia].
Qed.

(** What the loop over the returned buffers makes of a frame. *)
Record taken f0 f (output : list (nat * camera3_stream_buffer)) : Prop := {
  tk_same : fr_serial f = fr_serial f0 ∧ fr_clientBuffers f = fr_clientBuffers f0 ∧
    fr_vendorBuffers f = fr_vendorBuffers f0 ∧ fr_metadataDone f = fr_metadataDone f0 ∧
    fr_shutterDone f = fr_shutterDone f0;
  tk_length : length (fr_returned f) = length (fr_returned f0);
  tk_remaining : fr_remaining f = count negb (fr_returned f);
  tk_count : count negb (fr_returned f0) = count negb (fr_returned f) + Z.of_nat (length output);
  tk_distinct : NoDup output.*1;
  tk_new i : i ∈ output.*1 → fr_returned f0 !! i = Some false ∧ fr_returned f !! i = Some true;
  tk_old i : i ∉ output.*1 → fr_returned f !! i = fr_returned f0 !! i;
  tk_output : outputs_ok (fr_clientBuffers f0) output
}.

Lemma taken_set_returned f0 f output n b :
  taken f0 f output → (length (fr_clientBuffers f0) = length (fr_returned f0))%nat →
  Z.of_nat (length (fr_returned f0)) < 2 ^ 32 →
  fr_returned f !! n = Some false →
  taken f0 (set_returned n f)
    (output ++ [(n, converted (default b (fr_clientBuffers f !! n)) b)]).
Proof.
  intros [(Hs & Hc & Hv & Hm & Hsd) Hl Hr Hct Hd Hnew Hold Ho] Hlen Hsize Hn.
  assert (Hno : n ∉ output.*1).
  { intros Hin. destruct (Hnew n Hin) as [_ Ht]. congruence. }
  assert (Hbound : (n < length (fr_returned f))%nat) by by eapply lookup_lt_Some.
  split; cbn.
  - by split_and!.
  - by rewrite length_insert.
  - rewrite Hr, (count_insert _ _ _ false) by done. cbn.
    pose proof (count_bounds negb (fr_returned f)).
    assert (Hpos : 1 <= count negb (fr_returned f)).
    { pose proof (count_insert negb _ n false true Hn) as Hi. cbn in Hi.
      pose proof (count_bounds negb (<[n := true]> (fr_returned f))). lia. }
    rewrite u32_small; [lia|]. unfold is_u32. lia.
  - rewrite Hct, (count_insert _ _ _ false), length_app by done. cbn. lia.
  - rewrite fmap_app. apply NoDup_app. split_and!; [done| |apply NoDup_singleton].
    intros i Hi ->%list_elem_of_singleton. done.
  - intros i. rewrite fmap_app, elem_of_app. intros [Hi|Hi%list_elem_of_singleton].
    + destruct (Hnew i Hi). split; [done|]. rewrite list_lookup_insert_ne; [done|].
      intros ->. done.
    + cbn in Hi. subst i. rewrite <- Hold by done.
      split; [done|]. by rewrite list_lookup_insert_eq.
  - intros i. rewrite fmap_app, elem_of_app. intros Hi.
    rewrite list_lookup_insert_ne by (intros ->; apply Hi; right; left). apply Hold. tauto.
  - intros i x [Hin|Hin%list_elem_of_singleton]%elem_of_app; [by apply Ho|].
    injection Hin as -> ->.
    destruct (lookup_lt_is_Some_2 (fr_clientBuffers f0) n ltac:(lia)) as [c Hcl].
    exists c. split; [done|]. rewrite Hc, Hcl. done.
Qed.

Lemma take_buffers_taken buffers f0 f output strange f' output' strange' :
  taken f0 f output → (length (fr_clientBuffers f0) = length (fr_returned f0))%nat →
  Z.of_nat (length (fr_returned f0)) < 2 ^ 32 →
  take_buffers buffers f output strange = (f', output', strange') → taken f0 f' output'.
Proof.
  intros Ht Hlen Hsize. revert f output strange Ht.
  induction buffers as [|b buffers IH]; intros f output strange Ht Htb; cbn [take_buffers] in Htb.
  - by injection Htb as <- <- _.
  - destruct (find_expected _ _ _ _) as [n|] eqn:Hf; [|by eapply IH].
    eapply IH; [|exact Htb]. apply find_expected_Some in Hf as (j & -> & Hj & _).
    by apply taken_set_returned.
Qed.

(** The parts of a result for the client are not seen twice. *)
Lemma times_items fc (x : Z * option nat) :
  NoDup (fc_output fc).*1 →
  times x (items fc) =
    if decide (x.1 = fc_serial fc) then
      match x.2 with
      | None => Nat.b2n (bool_decide (fc_metadata fc ≠ None))
      | Some i => Nat.b2n (bool_decide (i ∈ (fc_output fc).*1))
      end
    else 0%nat.
Proof.
  intros Hnd. destruct x as [s o]. unfold items. rewrite times_app. cbn.
  assert (Hbuf : times (s, o) ((λ '(n, _), (fc_serial fc, Some n)) <$> fc_output fc) =
    if decide (s = fc_serial fc) then
      match o with None => 0%nat | Some i => Nat.b2n (bool_decide (i ∈ (fc_output fc).*1)) end
    else 0%nat).
  { destruct (decide _) as [->|Hne].
    - destruct o as [i|].
      + clear -Hnd. induction (fc_output fc) as [|[j c] l IH]; [done|].
        rewrite !fmap_cons in *. apply NoDup_cons in Hnd as [Hn Hnd].
        rewrite times_cons, IH by done. cbn [fst] in *. destruct (decide (_ = _)) as [Heq|Heq].
        * injection Heq as ->. rewrite bool_decide_false by done.
          by rewrite bool_decide_true by left.
        * cbn. f_equal. apply bool_decide_ext. rewrite elem_of_cons.
          split; [by right|]. intros [->|]; done.
      + apply times_zero. intros ([j c] & Heq & _)%list_elem_of_fmap. done.
    - apply times_zero. intros ([j c] & Heq & _)%list_elem_of_fmap. by injection Heq. }
  rewrite Hbuf. destruct (fc_metadata fc) as [m|].
  - rewrite times_cons, times_nil, Nat.add_0_r. destruct (decide ((s, o) = _)) as [Heq|Heq].
    + injection Heq as -> ->. rewrite !decide_True by done. by rewrite bool_decide_true by done.
    + cbn. destruct (decide (s = fc_serial fc)) as [->|]; [|done]. destruct o; [done|].
      by destruct Heq.
  - cbn. destruct (decide _); [|done]. by destruct o.
Qed.

(** The frame a result leaves, and what it sends on its way. *)
Lemma accounts_taken frames log next n f f1 f' fc :
  frames !! n = Some f →
  (fr_serial f1 = fr_serial f ∧ fr_clientBuffers f1 = fr_clientBuffers f ∧
   fr_vendorBuffers f1 = fr_vendorBuffers f ∧ fr_returned f1 = fr_returned f) →
  taken f1 f' (fc_output fc) →
  fc_serial fc = fr_serial f →
  (fc_metadata fc ≠ None → fr_metadataDone f = false ∧ fr_metadataDone f' = true) →
  (fr_metadataDone f' = false → fr_metadataDone f = false) →
  noted_in log f f' →
  accounts frames log [] next →
  accounts (<[n := f']> frames) log (items fc) next.
Proof.
  intros Hf (S1 & S2' & S3 & S4) Ht Hser Hmd Hmd' Hno Ha.
  assert (Htk' : fr_serial f' = fr_serial f ∧ fr_clientBuffers f' = fr_clientBuffers f ∧
    fr_vendorBuffers f' = fr_vendorBuffers f ∧ length (fr_returned f') = length (fr_returned f) ∧
    fr_remaining f' = count negb (fr_returned f') ∧ NoDup (fc_output fc).*1 ∧
    (∀ i, i ∈ (fc_output fc).*1 → fr_returned f !! i = Some false ∧ fr_returned f' !! i = Some true) ∧
    (∀ i, i ∉ (fc_output fc).*1 → fr_returned f' !! i = fr_returned f !! i)).
  { destruct Ht as [(? & ? & ? & _) Hl Hr _ Hd Hnew Hold _]. rewrite S4 in Hl.
    split_and!; try congruence; intros i; rewrite <- S4; [apply Hnew|apply Hold]. }
  clear Ht S1 S2' S3 S4. destruct Htk' as (Hs & Hc & Hv & Hl & Hr & Hnd & Hnew & Hold).
  destruct Ha.
  pose proof (ac_frame0 n f Hf) as Hfo.
  assert (Hseen : ∀ x, times x (delivered log ++ items fc) =
                       (times x (delivered log ++ []) + times x (items fc))%nat)
    by (intros x; rewrite !times_app, times_nil; lia).
  assert (Hold0 : ∀ o, times (fr_serial f, o) (items fc) ≠ 0%nat →
                       times (fr_serial f, o) (delivered log ++ []) = 0%nat).
  { intros o. rewrite times_items by done. cbn. rewrite decide_True by done. destruct Hfo.
    destruct o as [i|].
    - case_bool_decide as Hi; [|done]. intros _. destruct (Hnew i Hi) as [Hi0 _].
      by rewrite (fo_seen0 i false).
    - case_bool_decide as Hi; [|done]. intros _. apply fo_metadata0. by apply Hmd. }
  split; try done.
  - intros m g [[<- <-]|[Hne Hg]]%lookup_insert_Some.
    + destruct (noted_ends _ _ _ _ _ Hno Hfo Hs).
      destruct Hfo. split; try done; rewrite ?Hs, ?Hc, ?Hv, ?Hl; try done.
      * intros i d Hd. rewrite Hseen, times_items by done. cbn. rewrite decide_True by done.
        case_bool_decide as Hi.
        -- destruct (Hnew i Hi) as [Hi0 Hi1]. rewrite (fo_seen0 i false) by done. by simplify_eq.
        -- rewrite Hold in Hd by done. rewrite (fo_seen0 i d) by done. cbn. lia.
      * intros Hm. rewrite Hseen, fo_metadata0, times_items by (done || auto). cbn.
        rewrite decide_True by done. case_bool_decide as Hx; [|done].
        destruct (Hmd Hx). congruence.
    + assert (Hser' : fr_serial g ≠ fc_serial fc).
      { intros Heq. apply Hne. symmetry. eapply ac_serial0; [exact Hg|exact Hf|congruence]. }
      destruct (ac_frame0 m g Hg). split; try done.
      * intros i d Hd. rewrite Hseen, times_items by done. cbn. rewrite decide_False by done.
        rewrite Nat.add_0_r. by apply fo_seen0.
      * intros Hm. rewrite Hseen, times_items by done. cbn. rewrite decide_False by done.
        rewrite Nat.add_0_r. by apply fo_metadata0.
  - intros n1 n2 g1 g2 Hf1 Hf2 Heq.
    apply lookup_insert_Some in Hf1 as [[<- <-]|[N1 Hf1]], Hf2 as [[<- <-]|[N2 Hf2]]; [done| | |].
    + eapply ac_serial0; [exact Hf|exact Hf2|congruence].
    + eapply ac_serial0; [exact Hf1|exact Hf|congruence].
    + by eapply ac_serial0.
  - intros [s o]. rewrite Hseen. destruct (decide (times (s, o) (items fc) = 0%nat)) as [Hz|Hz].
    + rewrite Hz, Nat.add_0_r. apply ac_once0.
    + assert (s = fr_serial f) as ->.
      { rewrite times_items in Hz by done. cbn in Hz. destruct (decide _); [congruence|done]. }
      rewrite Hold0 by done. rewrite times_items by done. cbn. rewrite decide_True by done.
      destruct o; case_bool_decide; cbn; lia.
  - intros s o [Hin|Hin]%elem_of_app; [apply ac_known0, elem_of_app; by left|].
    apply times_pos in Hin. rewrite times_items in Hin by done. cbn in Hin.
    destruct (decide _) as [->|]; [|lia]. rewrite Hser.
    exists n, (fr_clientBuffers f). split; [apply Hfo|]. destruct o as [i|]; [|done].
    case_bool_decide as Hi; [|cbn in Hin; lia]. destruct (Hnew i Hi) as [Hi0 _].
    apply lookup_lt_Some in Hi0. destruct Hfo. lia.
  - intros s m b Hb. destruct (ac_fate0 s m b Hb) as [|(g & Hg & <-)]; [by left|]. right.
    destruct (decide (m = n)) as [->|Hne].
    + exists f'. rewrite lookup_insert_eq. split; [done|]. congruence.
    + exists g. by rewrite lookup_insert_ne.
  - intros s o Hin Hret%retired_ended. apply times_pos in Hin. rewrite times_items in Hin by done.
    cbn in Hin. destruct (decide _) as [->|]; [|lia]. destruct Hfo. congruence.
Qed.

(** The client gets what was on its way. *)
Lemma accounts_result frames log next fc n pr b :
  items fc ≠ [] →
  (fc_serial fc, n, b) ∈ submitted log → outputs_ok b (fc_output fc) →
  accounts frames log (items fc) next →
  accounts frames
    (log ++ [LResult (fc_serial fc) n (md_entries <$> fc_metadata fc) pr (fc_output fc)]) [] next.
Proof.
  intros Hne Hb Ho Ha. set (e := LResult _ _ _ _ _).
  assert (Hg : given e = items fc) by (unfold items; cbn; by destruct (fc_metadata fc)).
  assert (Hx : delivered (log ++ [e]) = delivered log ++ items fc ∧
               submitted (log ++ [e]) = submitted log ∧ retired (log ++ [e]) = retired log ∧
               ended (log ++ [e]) = ended log).
  { rewrite delivered_app, submitted_app, retired_app, ended_app. cbn. rewrite !app_nil_r.
    split_and!; try done. f_equal. unfold items. f_equal. by destruct (fc_metadata fc). }
  destruct Hx as (Hdl & Hsl & Hrl & Hel). destruct Ha.
  split; rewrite ?Hdl, ?Hsl, ?Hrl, ?Hel, ?app_nil_r; try done.
  - intros m f Hf. destruct (ac_frame0 m f Hf). split; rewrite ?Hsl, ?Hel; by frame_ends.
  - intros s m b' i Hs Hb' Hi. specialize (ac_once0 (s, Some i)).
    specialize (ac_retired0 s m b' i Hs Hb' Hi). rewrite times_app in *. lia.
  - intros s m md pr' out [Hin|Hin%list_elem_of_singleton]%elem_of_app; [by apply ac_results0 in Hin|].
    injection Hin as -> -> -> -> ->. eauto.
  - by intros s o Hin%elem_of_nil.
  - constructor; [done|]. split_and!; [|by exists b|].
    + destruct (items fc) as [|[s o] l] eqn:Hi; [done|].
      assert (Hs : s = fc_serial fc).
      { assert (Hin : (s, o) ∈ items fc) by (rewrite Hi; left). unfold items in Hin.
        apply elem_of_app in Hin as [Hin|([j c] & Heq & _)%list_elem_of_fmap].
        - destruct (fc_metadata fc); [|by apply elem_of_nil in Hin].
          apply list_elem_of_singleton in Hin. by injection Hin.
        - by injection Heq. }
      rewrite <- Hs. apply (ac_pending0 s o). left.
    + intros x Hin. rewrite Hg in Hin |- *. specialize (ac_once0 x). apply times_pos in Hin.
      rewrite times_app in *. lia.
Qed.

(** The device is closed with frames in flight. *)
Lemma accounts_abandon (l : list (Z * Frame K)) frames log pending next :
  NoDup l.*1 → (∀ n f, (n, f) ∈ l → frames !! n = Some f) →
  accounts frames log pending next →
  accounts (foldl (λ m '(n, _), delete n m) frames l)
    (log ++ ((λ '(_, f), LAbandoned (fr_serial f)) <$> l)) pending next.
Proof.
  revert frames log. induction l as [|[n f] l IH]; intros frames log Hnd Hl Ha; cbn.
  - by rewrite app_nil_r.
  - rewrite fmap_cons in Hnd. apply NoDup_cons in Hnd as [Hn Hnd].
    assert (Hf : frames !! n = Some f) by (apply Hl; left).
    replace (log ++ LAbandoned (fr_serial f) :: _)
      with ((log ++ [LAbandoned (fr_serial f)]) ++ ((λ '(_, f), LAbandoned (fr_serial f)) <$> l))
      by by rewrite <- app_assoc.
    apply IH; [done| |].
    + intros m g Hm. rewrite lookup_delete_ne; [apply Hl; by right|].
      intros <-. apply Hn. apply list_elem_of_fmap. by exists (n, g).
    + apply (accounts_drop _ _ _ _ _ n f); [done|by right|done].
Qed.

Lemma deletes_frames (l : list (Z * Frame K)) frames n :
  foldl (λ m '(n, _), delete n m) frames l !! n =
    if decide (n ∈ l.*1) then None else frames !! n.
Proof.
  revert frames. induction l as [|[m f] l IH]; intros frames; [done|]. cbn [foldl].
  rewrite IH, fmap_cons. cbn [fst].
  destruct (decide (n ∈ l.*1)) as [Hin|Hin].
  - by rewrite decide_True by by right.
  - destruct (decide (n = m)) as [->|Hne].
    + rewrite lookup_delete_eq. by rewrite decide_True by left.
    + rewrite lookup_delete_ne by done. rewrite decide_False; [done|].
      rewrite not_elem_of_cons. done.
Qed.

Lemma accounts_clear frames log pending next :
  accounts frames log pending next → accounts ∅ (log ++ abandoned frames) pending next.
Proof.
  intros Ha. replace ∅ with (foldl (λ m '(n, _), delete n m) frames (map_to_list frames)).
  - apply accounts_abandon; [apply NoDup_fst_map_to_list| |done].
    intros n f Hin. by apply elem_of_map_to_list in Hin.
  - apply map_eq. intros n. rewrite deletes_frames, lookup_empty.
    destruct (decide _) as [|Hn]; [done|]. apply eq_None_not_Some. intros [f Hf].
    apply Hn, list_elem_of_fmap. exists (n, f). split; [done|]. by apply elem_of_map_to_list.
Qed.

End accounts.
