(* ===== verification/CameraSystem.v ===== *)
(** * The camera's threads as a system

    The invariant of the state that the threads of Camera3.v share, what each
    thread guarantees to the others, and the rules for the actions of the two
    kinds of threads: those that hold [requestMutex] and the callbacks. *)

From S2P Require Import Prelude Threads CameraH LegacyMeta CameraWrap Camera3 CameraInv.
From stdpp Require Import gmap.

#[global] Open Scope Z_scope.

(** ** Registered handles *)

(** How many streams hold a reference to a handle. *)
Definition occurrences (h : Z) (l : list Z) : Z := count (λ x, bool_decide (x = h)) l.

Lemma occurrences_app h l l' : occurrences h (l ++ l') = occurrences h l + occurrences h l'.
Proof. apply count_app. Qed.

Lemma count_Permutation {A} (p : A → bool) l l' : l ≡ₚ l' → count p l = count p l'.
Proof.
  induction 1 as [|x l l' _ IH|x y l|l l' l'' _ IH1 _ IH2]; rewrite ?count_cons; lia.
Qed.

Lemma occurrences_perm h l l' : l ≡ₚ l' → occurrences h l = occurrences h l'.
Proof. apply count_Permutation. Qed.

Definition held (h : Z) (streams : gmap Z Stream) (failed : list Stream) : Z :=
  occurrences h (streams_handles streams) + occurrences h (failed ≫= stream_handles).

Lemma streams_handles_perm streams key s :
  streams !! key = Some s →
  streams_handles streams ≡ₚ stream_handles s ++ streams_handles (delete key streams).
Proof.
  intros Hs. unfold streams_handles.
  rewrite <- (insert_delete_id streams key s Hs) at 1.
  rewrite map_to_list_insert by apply lookup_delete_eq. done.
Qed.

(** One more reference of a stream. *)
Lemma held_register h streams failed key s handle ref :
  streams !! key = Some s → s_buffers s !! handle = None →
  held h (<[key := set_buffers (<[handle := ref]> (s_buffers s)) s]> streams) failed =
  held h streams failed + Z.b2z (bool_decide (handle = h)).
Proof.
  intros Hs Hh. unfold held.
  rewrite (occurrences_perm h _ _ (streams_handles_perm streams key s Hs)).
  rewrite (occurrences_perm h (streams_handles (<[key := _]> streams)) _
             (streams_handles_perm _ key _ (lookup_insert_eq _ _ _))).
  rewrite delete_insert_eq, !occurrences_app. unfold stream_handles. cbn [s_buffers set_buffers].
  rewrite (occurrences_perm h ((map_to_list (<[handle := ref]> (s_buffers s))).*1)
             (handle :: (map_to_list (s_buffers s)).*1))
    by by rewrite map_to_list_insert.
  unfold occurrences at 1. rewrite count_cons. fold (occurrences h (map_to_list (s_buffers s)).*1).
  lia.
Qed.

(** Streams without references. *)
Definition bare (streams : gmap Z Stream) : Prop := map_Forall (λ _ s, s_buffers s = ∅) streams.

#[export] Instance bare_dec streams : Decision (bare streams).
Proof. unfold bare. apply _. Defined.

Lemma occurrences_bare h (l : list Stream) :
  (∀ s, s ∈ l → s_buffers s = ∅) → occurrences h (l ≫= stream_handles) = 0.
Proof.
  induction l as [|s l IH]; intros Hl; [done|]. cbn. rewrite occurrences_app.
  unfold stream_handles at 1. rewrite (Hl s ltac:(left)), map_to_list_empty.
  rewrite IH; [done|]. intros s' Hs. apply Hl. by right.
Qed.

Lemma streams_handles_bind streams :
  streams_handles streams = (map_to_list streams).*2 ≫= stream_handles.
Proof.
  unfold streams_handles. induction (map_to_list streams) as [|[p s] l IH]; [done|]. cbn.
  by rewrite IH.
Qed.

Lemma bare_elem streams s : bare streams → s ∈ (map_to_list streams).*2 → s_buffers s = ∅.
Proof.
  intros Hb ([p s'] & -> & Hin)%list_elem_of_fmap. apply elem_of_map_to_list in Hin. by eapply Hb.
Qed.

Lemma held_bare h next failed : bare next → held h next failed = occurrences h (failed ≫= stream_handles).
Proof.
  intros Hb. unfold held. rewrite streams_handles_bind, occurrences_bare; [lia|].
  intros s. by apply bare_elem.
Qed.

Lemma held_fail h streams failed next :
  bare next → held h streams (failed ++ (map_to_list next).*2) = held h streams failed.
Proof.
  intros Hb. unfold held. rewrite bind_app, occurrences_app.
  rewrite (occurrences_bare h (map_to_list next).*2); [lia|]. intros s. by apply bare_elem.
Qed.

(** ** The invariant *)

Section system.
  Context {K : Type} `{CameraMetadataApi K}.

Abbreviation W := (camera_world K).

(** Without a stock device the camera is closing, or its restart failed. *)
Definition vendor_fine (c : Camera K) : Prop :=
  c_vendor c = None → c_closing c = true ∨ (c_fatal c = true ∧ c_clientCallbacks c = true).

Definition balanced (w : W) : Prop :=
  ∀ h, log_balance h (w_log w) = held h (c_streams (w_cam w)) (c_failedStreams (w_cam w)).

(** What holds while no thread has [requestMutex]. *)
Definition idle (w : W) : Prop :=
  vendor_fine (w_cam w) ∧ c_asleep (w_cam w) = false ∧ balanced w.

Record Inv (w : W) : Prop := {
  iv_accounts : accounts (c_frames (w_cam w)) (w_log w) (w_pending w) (w_next w);
  iv_asleep : c_asleep (w_cam w) = true → c_frames (w_cam w) ≠ ∅ ∧ c_fatal (w_cam w) = false;
  iv_faults x : x ∈ w_faults w → x = NullVendor ∧ c_closing (w_cam w) = true;
  iv_callback : w_callback w = None → w_pending w = [];
  iv_request : w_request w = None → idle w;
  iv_client : submitted (w_log w) ≠ [] → c_clientCallbacks (w_cam w) = true
}.

(** What no action undoes. *)
Record keeps (w w' : W) : Prop := {
  kp_log : ∃ l, w_log w' = w_log w ++ l;
  kp_fatal : c_fatal (w_cam w) = true → c_fatal (w_cam w') = true;
  kp_closing : c_closing (w_cam w) = true → c_closing (w_cam w') = true;
  kp_templates i m : c_templates (w_cam w) !! i = Some m → md_isEmpty m = false →
    c_templates (w_cam w') !! i = Some m;
  kp_next : w_next w <= w_next w';
  kp_clients p : is_Some (w_clients w !! p) → is_Some (w_clients w' !! p)
}.

(** What [requestMutex] protects. *)
Record same_request (w w' : W) : Prop := {
  sr_vendor : c_vendor (w_cam w') = c_vendor (w_cam w);
  sr_callbacks : c_clientCallbacks (w_cam w') = c_clientCallbacks (w_cam w);
  sr_streams : c_streams (w_cam w') = c_streams (w_cam w);
  sr_failed : c_failedStreams (w_cam w') = c_failedStreams (w_cam w);
  sr_templates : c_templates (w_cam w') = c_templates (w_cam w);
  sr_closing : c_closing (w_cam w') = c_closing (w_cam w);
  sr_frames n : c_frames (w_cam w) !! n = None → c_frames (w_cam w') !! n = None;
  sr_submitted : submitted (w_log w') = submitted (w_log w);
  sr_balance h : log_balance h (w_log w') = log_balance h (w_log w);
  sr_asleep : c_asleep (w_cam w) = false → c_asleep (w_cam w') = false
}.

(** The guarantee of thread [t]. *)
Record guar (t : nat) (w w' : W) : Prop := {
  gu_request : w_request w' = w_request w ∨ (w_request w = None ∧ w_request w' = Some t) ∨
    (w_request w = Some t ∧ w_request w' = None);
  gu_callback : w_callback w' = w_callback w ∨ (w_callback w = None ∧ w_callback w' = Some t) ∨
    (w_callback w = Some t ∧ w_callback w' = None);
  gu_keeps : keeps w w';
  gu_same : w_request w ≠ Some t → same_request w w';
  gu_pending : w_callback w ≠ Some t → w_pending w' = w_pending w
}.

Lemma keeps_refl w : keeps w w.
Proof. split; try done. exists []. by rewrite app_nil_r. Qed.

Lemma keeps_trans w1 w2 w3 : keeps w1 w2 → keeps w2 w3 → keeps w1 w3.
Proof.
  intros [(l1 & L1) F1 C1 T1 N1 P1] [(l2 & L2) F2 C2 T2' N2 P2]. split; auto.
  - exists (l1 ++ l2). by rewrite L2, L1, <- app_assoc.
  - lia.
Qed.

Lemma same_request_refl w : same_request w w.
Proof. by split. Qed.

Lemma same_request_trans w1 w2 w3 : same_request w1 w2 → same_request w2 w3 → same_request w1 w3.
Proof. intros [] []. split; try congruence; auto. Qed.

(** ** Threads that hold [requestMutex] *)

(** Assertions the other threads do not disturb. *)
Definition kept (P : W → Prop) : Prop :=
  ∀ w w', Inv w → Inv w' → P w → same_request w w' → keeps w w' → P w'.

Definition owns (t : nat) (P : W → Prop) : W → Prop := λ w, w_request w = Some t ∧ P w.

Lemma owns_stable t P : kept P → stable Inv (others guar t) (owns t P).
Proof.
  intros HP w w' Hw Hw' [Ht HPw] (j & Hj & Hg). destruct Hg.
  assert (Hne : w_request w ≠ Some j) by congruence.
  split; [|exact (HP w w' Hw Hw' HPw (gu_same0 Hne) gu_keeps0)].
  destruct gu_request0 as [->|[[He _]|[He _]]]; congruence.
Qed.

(** What an action of such a thread does: it keeps the mutexes. *)
Record rstep (w w' : W) : Prop := {
  rs_inv : Inv w → Inv w';
  rs_request : w_request w' = w_request w;
  rs_callback : w_callback w' = w_callback w;
  rs_pending : w_pending w' = w_pending w;
  rs_keeps : keeps w w'
}.

Lemma rstep_refl w : rstep w w.
Proof. split; try done. apply keeps_refl. Qed.

Lemma rstep_trans w1 w2 w3 : rstep w1 w2 → rstep w2 w3 → rstep w1 w3.
Proof. intros [] []. split; try congruence; auto. by eapply keeps_trans. Qed.

Lemma rstep_guar t w w' : w_request w = Some t → rstep w w' → guar t w w'.
Proof. intros Ht []. split; auto. by intros []. Qed.

(** [acts P m Q]: run with [requestMutex] from [P], the action [m] is such a step
    and ends in [Q]. *)
Definition acts {A} (P : W → Prop) (m : M W A) (Q : A → W → Prop) : Prop :=
  ∀ w, Inv w → w_request w ≠ None → P w → rstep w (m w).2 ∧ Q (m w).1 (m w).2.

Lemma acts_ret {A} (P : W → Prop) (a : A) (Q : A → W → Prop) :
  (∀ w, P w → Q a w) → acts P (mret a) Q.
Proof. intros HQ w _ _ HP. split; [apply rstep_refl|]. by apply HQ. Qed.

Lemma acts_bind {A B} P (m : M W A) Mid (g : A → M W B) Q :
  acts P m Mid → (∀ a, acts (Mid a) (g a) Q) → acts P (m ≫= g) Q.
Proof.
  intros Hm Hg w Hw Hr HP. rewrite bind_run. destruct (Hm w Hw Hr HP) as [Hs HM].
  destruct (Hg (m w).1 (m w).2) as [Hs' HQ]; [by apply Hs| |done|].
  - destruct Hs. congruence.
  - split; [by eapply rstep_trans|done].
Qed.

Lemma acts_pre {A} (P P' : W → Prop) (m : M W A) Q :
  acts P' m Q → (∀ w, P w → P' w) → acts P m Q.
Proof. intros Hm HP w Hw Hr Hp. apply Hm; auto. Qed.

Lemma acts_post {A} (P : W → Prop) (m : M W A) (Q Q' : A → W → Prop) :
  acts P m Q' → (∀ a w, Q' a w → Q a w) → acts P m Q.
Proof. intros Hm HQ w Hw Hr HP. destruct (Hm w Hw Hr HP). auto. Qed.

Lemma acts_if {A} (b : bool) P (m1 m2 : M W A) Q :
  (b = true → acts P m1 Q) → (b = false → acts P m2 Q) → acts P (if b then m1 else m2) Q.
Proof. destruct b; auto. Qed.

Lemma acts_reads {A} (f : W → A) P : acts P (reads f) (λ a w, P w ∧ a = f w).
Proof. intros w _ _ HP. split; [apply rstep_refl|done]. Qed.

Lemma acts_modify f P (Q : unit → W → Prop) :
  (∀ w, Inv w → w_request w ≠ None → P w → rstep w (f w) ∧ Q tt (f w)) → acts P (modify f) Q.
Proof. intros Hf w Hw Hr HP. by apply Hf. Qed.

(** The assertion does not look at the platform's state. *)
Definition any_k (P : W → Prop) : Prop :=
  ∀ w k, P w → P (CameraWorld k (w_cam w) (w_clients w) (w_request w) (w_callback w) (w_next w)
                    (w_pending w) (w_log w) (w_faults w)).

Lemma rstep_k w k :
  rstep w (CameraWorld k (w_cam w) (w_clients w) (w_request w) (w_callback w) (w_next w)
             (w_pending w) (w_log w) (w_faults w)).
Proof.
  split; cbn; try done; [by intros []|]. split; cbn; try done. exists []. by rewrite app_nil_r.
Qed.

Lemma acts_ask {A} (m : M K A) P (R : A → Prop) :
  any_k P → (∀ k, R (m k).1) → acts P (ask m) (λ a w, P w ∧ R a).
Proof.
  intros HP HR w _ _ Hw. unfold ask. specialize (HR (w_k w)).
  destruct (m (w_k w)) as [a k]. cbn in *. split; [apply rstep_k|]. auto.
Qed.

Lemma acts_ask_any {A} (m : M K A) P : any_k P → acts P (ask m) (λ _, P).
Proof.
  intros HP. eapply acts_post; [by apply (acts_ask m P (λ _, True))|]. by intros a w [].
Qed.

(** An action of a thread that holds the mutex. *)
Lemma sat_acts {A} t P (m : M W A) (Q : A → W → Prop) :
  kept P → (∀ a, kept (Q a)) → acts P m Q →
  sat Inv (others guar t) (guar t) (owns t P) (atomic m) (λ a, owns t (Q a)).
Proof.
  intros HP HQ Hm. apply sat_atomic; [by apply owns_stable|intros a; by apply owns_stable|].
  intros w Hw [Ht Hp]. destruct (Hm w Hw) as [Hs HQw]; [congruence|done|].
  split_and!; [by apply Hs|by apply rstep_guar|]. split; [|done]. destruct Hs. congruence.
Qed.

(** ** Steps of single operations *)

Lemma rstep_cam g w :
  c_frames (g (w_cam w)) = c_frames (w_cam w) →
  (c_fatal (w_cam w) = true → c_fatal (g (w_cam w)) = true) →
  (c_closing (w_cam w) = true → c_closing (g (w_cam w)) = true) →
  (∀ i m, c_templates (w_cam w) !! i = Some m → md_isEmpty m = false →
     c_templates (g (w_cam w)) !! i = Some m) →
  (c_asleep (g (w_cam w)) = true →
     c_frames (w_cam w) ≠ ∅ ∧ c_fatal (g (w_cam w)) = false) →
  (submitted (w_log w) ≠ [] → c_clientCallbacks (g (w_cam w)) = true) →
  w_request w ≠ None →
  rstep w (upd_cam g w).
Proof.
  intros Hf Hfa Hcl Ht Has Hcb Hr. split; cbn; try done.
  - intros []. split; cbn; rewrite ?Hf; try done; auto.
    intros x Hx. destruct (iv_faults0 x Hx) as [? ?]. auto.
  - split; cbn; auto; [exists []; by rewrite app_nil_r|lia].
Qed.

Lemma rstep_note l w : Forall quiet l → w_request w ≠ None → rstep w (add_log l w).
Proof.
  intros Hl Hr. pose proof (quiet_log l Hl) as (_ & Hs & _). split; cbn; try done.
  - intros []. split; cbn; try done; [by apply accounts_quiet|].
    rewrite submitted_app, Hs, app_nil_r. done.
  - split; cbn; try done. by exists l.
Qed.

Lemma rstep_flaw w : c_closing (w_cam w) = true → w_request w ≠ None → rstep w (add_fault NullVendor w).
Proof.
  intros Hc Hr. split; cbn; try done.
  - intros []. split; cbn; try done.
    intros x [Hx|Hx%list_elem_of_singleton]%elem_of_app; [by apply iv_faults0|]. by subst.
  - split; cbn; try done. exists []. by rewrite app_nil_r.
Qed.

Lemma rstep_next w : w_request w ≠ None → rstep w (set_next (w_next w + 1) w).
Proof.
  intros Hr. split; cbn; try done.
  - intros []. split; cbn; try done. eapply accounts_next; [|done]. lia.
  - split; cbn; try done; [exists []; by rewrite app_nil_r|lia].
Qed.

Lemma rstep_clients cl w :
  (∀ p, is_Some (w_clients w !! p) → is_Some (cl !! p)) → w_request w ≠ None →
  rstep w (set_clients cl w).
Proof.
  intros Hcl Hr. split; cbn; try done.
  - intros []. by split.
  - split; cbn; try done. exists []. by rewrite app_nil_r.
Qed.

(** ** Threads that do not hold [requestMutex] *)

(** What an action of such a thread does: it leaves what the mutex protects. *)
Record cstep (w w' : W) : Prop := {
  cs_inv : Inv w → Inv w';
  cs_request : w_request w' = w_request w;
  cs_callback : w_callback w' = w_callback w;
  cs_keeps : keeps w w';
  cs_same : same_request w w'
}.

Lemma cstep_refl w : cstep w w.
Proof. split; try done. apply keeps_refl. Qed.

Lemma cstep_trans w1 w2 w3 : cstep w1 w2 → cstep w2 w3 → cstep w1 w3.
Proof.
  intros [] []. split; try congruence; auto; [by eapply keeps_trans|by eapply same_request_trans].
Qed.

Lemma cstep_guar t w w' :
  w_callback w = Some t ∨ w_pending w' = w_pending w → cstep w w' → guar t w w'.
Proof. intros Hp []. split; auto. intros Hc. by destruct Hp. Qed.

(** The invariant without a look at the accounts. *)
Lemma idle_same w w' : same_request w w' → keeps w w' → idle w → idle w'.
Proof.
  intros Hs Hk (Hv & Ha & Hb). destruct Hs, Hk. split_and!; [|auto|].
  - intros Hn. rewrite sr_vendor0 in Hn. rewrite sr_closing0, sr_callbacks0.
    destruct (Hv Hn) as [|[]]; auto.
  - intros h. by rewrite sr_balance0, sr_streams0, sr_failed0.
Qed.

Lemma cstep_note l w : Forall quiet l → (∀ h, log_balance h l = 0) → cstep w (add_log l w).
Proof.
  intros Hl Hb. pose proof (quiet_log l Hl) as (_ & Hs & _).
  assert (Hsame : same_request w (add_log l w)).
  { split; cbn; try done; [by rewrite submitted_app, Hs, app_nil_r|].
    intros h. rewrite log_balance_app, Hb. lia. }
  assert (Hkeeps : keeps w (add_log l w)) by (split; cbn; try done; by exists l).
  split; try done. intros []. split; cbn; try done; [by apply accounts_quiet| |].
  - intros Hr. by eapply idle_same; [exact Hsame| |apply iv_request0].
  - by rewrite submitted_app, Hs, app_nil_r.
Qed.

(** ** Assertions *)

(** The device has passed its first test: it has a stock device and a client. *)
Definition ready (w : W) : Prop :=
  c_vendor (w_cam w) ≠ None ∧ c_clientCallbacks (w_cam w) = true ∧
  c_asleep (w_cam w) = false ∧ balanced w.

(** The same while the stock device may be missing. *)
Definition reopening (w : W) : Prop :=
  c_clientCallbacks (w_cam w) = true ∧ c_asleep (w_cam w) = false ∧ balanced w.

Definition no_frames (w : W) : Prop := c_frames (w_cam w) = ∅.

Definition known_clients (l : list (option Z)) (w : W) : Prop :=
  ∀ p, Some p ∈ l → is_Some (w_clients w !! p).

Lemma ready_idle w : ready w → idle w.
Proof. intros (Hv & _ & Ha & Hb). split_and!; [by intros Hn%Hv|done|done]. Qed.

Lemma ready_reopening w : ready w → reopening w.
Proof. intros (_ & Hc & Ha & Hb). by split. Qed.

Lemma kept_and P Q : kept P → kept Q → kept (λ w, P w ∧ Q w).
Proof. intros HP HQ w w' Hw Hw' [Hp Hq] Hs Hk. split; eauto. Qed.

Lemma kept_pure (P : Prop) : kept (λ _, P).
Proof. by intros w w'. Qed.

Lemma kept_if (b : bool) P Q : kept P → kept Q → kept (λ w, if b then P w else Q w).
Proof. by destruct b. Qed.

Lemma kept_impl (A : Prop) P : kept P → kept (λ w, A → P w).
Proof. intros HP w w' Hw Hw' Hp Hs Hk Ha. eauto. Qed.

Lemma kept_balanced : kept balanced.
Proof.
  intros w w' _ _ Hb [] _ h. by rewrite sr_balance0, sr_streams0, sr_failed0.
Qed.

Lemma kept_idle : kept idle.
Proof.
  intros w w' Hw Hw' (Hv & Ha & Hb) Hs Hk. split_and!;
    [|exact (sr_asleep _ _ Hs Ha)|exact (kept_balanced w w' Hw Hw' Hb Hs Hk)].
  intros Hn. destruct Hs, Hk. rewrite sr_vendor0 in Hn. rewrite sr_closing0, sr_callbacks0.
  destruct (Hv Hn) as [|[]]; auto.
Qed.

Lemma kept_ready : kept ready.
Proof.
  intros w w' Hw Hw' (Hv & Hc & Ha & Hb) Hs Hk. pose proof (kept_balanced w w' Hw Hw' Hb Hs Hk).
  destruct Hs. split_and!; [congruence|congruence|auto|done].
Qed.

Lemma kept_reopening : kept reopening.
Proof.
  intros w w' Hw Hw' (Hc & Ha & Hb) Hs Hk. pose proof (kept_balanced w w' Hw Hw' Hb Hs Hk).
  destruct Hs. split_and!; [congruence|auto|done].
Qed.

Lemma kept_no_frames : kept no_frames.
Proof.
  intros w w' _ _ Hn [] _. unfold no_frames in *. apply map_empty. intros n.
  apply sr_frames0. by rewrite Hn, lookup_empty.
Qed.

Lemma kept_absent n : kept (λ w, c_frames (w_cam w) !! n = None).
Proof. intros w w' _ _ Hn [] _. auto. Qed.

Lemma kept_known l : kept (known_clients l).
Proof. intros w w' _ _ Hn _ [] p Hp. auto. Qed.

Lemma kept_streams (P : gmap Z Stream → Prop) : kept (λ w, P (c_streams (w_cam w))).
Proof. intros w w' _ _ Hp [] _. by rewrite sr_streams0. Qed.

Lemma kept_vendor (P : option stock_device → Prop) : kept (λ w, P (c_vendor (w_cam w))).
Proof. intros w w' _ _ Hp [] _. by rewrite sr_vendor0. Qed.

Lemma kept_templates (P : list md → Prop) : kept (λ w, P (c_templates (w_cam w))).
Proof. intros w w' _ _ Hp [] _. by rewrite sr_templates0. Qed.

Lemma kept_next n : kept (λ w, n < w_next w).
Proof. intros w w' _ _ Hp _ []. lia. Qed.

Lemma kept_submitted (P : list (Z * Z * list camera3_stream_buffer) → Prop) :
  kept (λ w, P (submitted (w_log w))).
Proof. intros w w' _ _ Hp [] _. by rewrite sr_submitted0. Qed.

Lemma kept_true : kept (λ _, True).
Proof. apply kept_pure. Qed.

End system.

Create HintDb kept discriminated.
#[export] Hint Resolve kept_and kept_pure kept_idle kept_ready kept_reopening kept_no_frames
  kept_absent kept_known kept_streams kept_vendor kept_templates kept_next kept_submitted
  kept_impl kept_balanced kept_true : kept.

(** Assertions that do not look at the platform's state. *)
Ltac any_k := let Hp := fresh in intros ? ? Hp; exact Hp.
