(* ===== verification/CameraCapture.v ===== *)
(** * The client's calls of the camera

    Every action of a call keeps the camera's invariant and what the other
    threads rely on, whatever the stock library, gralloc and the allocator
    answer. *)

From S2P Require Import Prelude Threads CameraH LegacyMeta CameraWrap Camera3 CameraInv CameraSystem.
From stdpp Require Import gmap.

#[global] Open Scope Z_scope.

Section calls.
  Context {K : Type} `{CameraMetadataApi K} `{!CameraH} `{!CameraTags} `{!CameraPlatform K}.

Abbreviation W := (camera_world K).

(** [call_ok t P p Q]: the thread [t] may run [p] from [P]. *)
Definition runs {A} (t : nat) (P : W → Prop) (p : proc W A) (Q : A → W → Prop) : Prop :=
  sat Inv (others guar t) (guar t) P p Q.

(** Assertions that last once they hold. *)
Definition steady (P : W → Prop) : Prop := ∀ w w', Inv w → Inv w' → keeps w w' → P w → P w'.

Lemma steady_stable t P : steady P → stable Inv (others guar t) P.
Proof. intros HP w w' Hw Hw' Hp (j & _ & []). by eapply (HP w w'). Qed.

Lemma steady_kept P : steady P → kept P.
Proof. intros HP w w' Hw Hw' Hp _ Hk. by apply (HP w w'). Qed.

Lemma steady_known l : steady (known_clients l).
Proof. intros w w' _ _ [] Hp p Hin. auto. Qed.

Lemma runs_ret {A} t P (a : A) (Q : A → W → Prop) :
  kept P → (∀ w, P w → Q a w) → runs t (owns t P) (mret a) (λ a, owns t (Q a)).
Proof.
  intros HP HQ. apply sat_ret; [by apply owns_stable|]. intros w _ [Ht Hp]. by split; [|apply HQ].
Qed.

Lemma runs_bind {A B} t P (p : proc W A) Mid (g : A → proc W B) Q :
  runs t P p Mid → (∀ a, runs t (Mid a) (g a) Q) → runs t P (p ≫= g) Q.
Proof. apply sat_bind. Qed.

Lemma runs_pre {A} t P P' (p : proc W A) Q :
  runs t (owns t P') p Q → (∀ w, P w → P' w) → runs t (owns t P) p Q.
Proof. intros Hp HP. eapply sat_pre; [exact Hp|]. intros w _ [Ht Hw]. by split; [|apply HP]. Qed.

Lemma runs_post {A} t P (p : proc W A) (Q Q' : A → W → Prop) :
  runs t P p (λ a, owns t (Q' a)) → (∀ a w, Q' a w → Q a w) → runs t P p (λ a, owns t (Q a)).
Proof. intros Hp HQ. eapply sat_post; [exact Hp|]. intros a w _ [Ht Hw]. by split; [|apply HQ]. Qed.

Lemma runs_if {A} (b : bool) t P (p1 p2 : proc W A) Q :
  (b = true → runs t P p1 Q) → (b = false → runs t P p2 Q) → runs t P (if b then p1 else p2) Q.
Proof. apply sat_if. Qed.

Lemma runs_pure {A} t (φ : Prop) `{!Decision φ} P (p : proc W A) Q :
  (φ → runs t (owns t P) p Q) → runs t (owns t (λ w, P w ∧ φ)) p Q.
Proof.
  intros Hp. eapply sat_pre; [by apply (sat_pure _ _ _ φ (owns t P))|].
  intros w _ (Ht & HP & Hφ). by split.
Qed.

(** An action and what follows it. *)
Lemma runs_act {A B} t P (m : M W A) Mid (g : A → proc W B) Q :
  kept P → (∀ a, kept (Mid a)) → acts P m Mid → (∀ a, runs t (owns t (Mid a)) (g a) Q) →
  runs t (owns t P) (atomic m ≫= g) Q.
Proof.
  intros HP HM Hm Hg. apply (runs_bind _ _ _ (λ a, owns t (Mid a))); [by apply sat_acts|done].
Qed.

(** An action at the end. *)
Lemma runs_last {A} t P (m : M W A) Q :
  kept P → (∀ a, kept (Q a)) → acts P m Q → runs t (owns t P) (atomic m) (λ a, owns t (Q a)).
Proof. apply sat_acts. Qed.

(** Taking and leaving [requestMutex]. *)
Lemma rstep_like_lock w o :
  (o = None → idle w) →
  (Inv w → Inv (set_request o w)) ∧ keeps w (set_request o w) ∧ same_request w (set_request o w).
Proof.
  intros Hi. split_and!.
  - intros []. by split.
  - split; cbn; try done. exists []. by rewrite app_nil_r.
  - by split.
Qed.

Lemma runs_lock t P0 :
  steady P0 → runs t P0 (lock_request t) (λ _, owns t (λ w, idle w ∧ P0 w)).
Proof.
  intros HP0. unfold lock_request.
  assert (Hkept : kept (λ w, idle w ∧ P0 w)) by (apply kept_and; [apply kept_idle|by apply steady_kept]).
  eapply sat_act with (P' := λ _ : unit, owns t (λ w, idle w ∧ P0 w)).
  - by apply steady_stable.
  - intros choice w Hw Hp. destruct (w_request w) as [o|] eqn:Hr; cbn.
    + split_and!; [done| |done]. split; auto; [apply keeps_refl|intros _; apply same_request_refl].
    + pose proof (rstep_like_lock w (Some t) ltac:(done)) as (Hi & Hk & Hs).
      pose proof (Hi Hw) as Hw'. split_and!; [done| |].
      * split; cbn; auto.
      * split; [done|]. split.
        -- destruct (iv_request w Hw Hr) as (Hv & Ha & Hb). by split_and!.
        -- by apply (HP0 w).
  - intros []. apply sat_ret; [by apply owns_stable|done].
Qed.

Lemma runs_unlock t (R : Prop) :
  runs t (owns t (λ w, idle w ∧ R)) unlock_request (λ _ _, R).
Proof.
  unfold unlock_request. apply sat_atomic.
  - apply owns_stable, kept_and; [apply kept_idle|apply kept_pure].
  - intros _ w w' _ _ HR _. done.
  - intros w Hw (Ht & Hi & HR). cbn.
    pose proof (rstep_like_lock w None (λ _, Hi)) as (Hinv & Hk & Hs).
    split_and!; [by apply Hinv| |done]. split; cbn; auto.
Qed.

(** A call that holds the mutex, from a lasting assertion to a fact about its
    result. *)
Lemma runs_with_request {A} t P0 (body : proc W A) (R : A → Prop) :
  steady P0 →
  runs t (owns t (λ w, idle w ∧ P0 w)) body (λ a, owns t (λ w, idle w ∧ R a)) →
  runs t P0 (with_request t body) (λ a _, R a).
Proof.
  intros HP0 Hbody. unfold with_request.
  eapply runs_bind; [by apply runs_lock|]. intros [].
  eapply runs_bind; [exact Hbody|]. intros a. cbv beta.
  eapply (runs_bind _ _ _ (λ _ _, R a)); [apply runs_unlock|]. intros [].
  apply sat_ret; [|done]. by intros w w'.
Qed.

(** ** initialize *)

(** The client's callbacks have just been set. *)
Definition opening (w : W) : Prop :=
  reopening w ∧ submitted (w_log w) = [] ∧
  (c_vendor (w_cam w) = None → c_closing (w_cam w) = true).

Lemma kept_opening : kept opening.
Proof.
  intros w w' Hw Hw' (Hr & Hs & Hv) Hsr Hk. split; [exact (kept_reopening w w' Hw Hw' Hr Hsr Hk)|].
  destruct Hsr. split; [congruence|]. rewrite sr_vendor, sr_closing. done.
Qed.

Lemma acts_vendor_call {A} (d0 : A) (m : stock_device → M K A) P :
  any_k P →
  (∀ w, P w → c_vendor (w_cam w) = None →
     c_closing (w_cam w) = true ∧ P (add_fault NullVendor w)) →
  acts P (vendor_call d0 m) (λ _, P).
Proof.
  intros Hk Hn. unfold vendor_call.
  intros w Hw Hr HP. rewrite bind_run. unfold reads. cbn [fst snd].
  destruct (c_vendor (w_cam w)) as [d|] eqn:Hv.
  - by apply (acts_ask_any (m d) P Hk).
  - destruct (Hn w HP Hv) as [Hc HP']. rewrite bind_run. cbn. split; [by apply rstep_flaw|done].
Qed.

Lemma acts_vendor_ready {A} (d0 : A) (m : stock_device → M K A) P :
  any_k P → (∀ w, P w → c_vendor (w_cam w) ≠ None) → acts P (vendor_call d0 m) (λ _, P).
Proof. intros Hk Hv. apply acts_vendor_call; [done|]. intros w HP Hn. by apply Hv in HP. Qed.

Lemma runs_initialize t client : runs t (λ _, True) (initialize t client) (λ _ _, True).
Proof.
  assert (Hret : runs t (λ _ : W, True) (mret (- EINVAL)) (λ _ _, True)).
  { apply sat_ret; [by intros w w'|done]. }
  unfold initialize. destruct client as [[[] []]|]; try exact Hret.
  apply (runs_with_request t (λ _, True) _ (λ _, True)); [by intros w w'|].
  eapply runs_pre with (P' := idle); [|by intros w []].
  eapply runs_bind with (Mid := λ taken, owns t (λ w, if taken : bool then idle w else opening w)).
  { apply sat_acts; [apply kept_idle|intros b; apply kept_if; [apply kept_idle|apply kept_opening]|].
    intros w Hw Hr Hi. rewrite bind_run. unfold reads. cbn [fst snd].
    destruct (c_clientCallbacks (w_cam w)) eqn:Hc; cbn.
    - split; [apply rstep_refl|done].
    - destruct Hi as (Hv & Ha & Hb). split.
      + apply rstep_cam; try done. cbn. congruence.
      + split; [by split|]. split.
        * destruct (submitted (w_log w)) eqn:Hs; [done|].
          rewrite (iv_client w Hw) in Hc by by rewrite Hs. done.
        * cbn. intros Hn. destruct (Hv Hn) as [|[_ ?]]; [done|congruence]. }
  intros [].
  - apply runs_ret; [apply kept_idle|done].
  - eapply runs_bind with (Mid := λ _, owns t opening).
    { apply sat_acts; [apply kept_opening|intros _; apply kept_opening|].
      apply acts_vendor_call; [any_k|]. intros w Ho Hn. split; [by apply Ho|exact Ho]. }
    intros r. eapply runs_bind with (Mid := λ _, owns t idle).
    + apply runs_if; intros _.
      * apply sat_acts; [apply kept_opening|intros _; apply kept_idle|].
        apply acts_modify. intros w Hw Hr ((Hc & Ha & Hb) & Hs & Hv). split.
        -- apply rstep_cam; try done. cbn. congruence.
        -- split_and!; [|exact Ha|exact Hb]. intros Hn. left. by apply Hv.
      * apply runs_ret; [apply kept_opening|]. intros w ((Hc & Ha & Hb) & Hs & Hv).
        split_and!; [|done|done]. intros Hn. left. by apply Hv.
    + intros _. apply runs_ret; [apply kept_idle|done].
Qed.

(** ** configure *)

(** What [configure] has made sure of before it looks at the streams. *)
Definition settled (w : W) : Prop := ready w ∧ no_frames w.

Lemma kept_settled : kept settled.
Proof. apply kept_and; [apply kept_ready|apply kept_no_frames]. Qed.

Lemma acts_client_stream p P :
  (∀ w, P w → is_Some (w_clients w !! p)) → acts P (client_stream p) (λ _, P).
Proof.
  intros Hp w Hw Hr HP. unfold client_stream. rewrite bind_run. unfold reads. cbn [fst snd].
  destruct (Hp w HP) as [s ->]. split; [apply rstep_refl|done].
Qed.

Lemma acts_new_address P :
  (∀ w, P w → P (set_next (w_next w + 1) w)) → acts P new_address (λ _, P).
Proof. intros HP w Hw Hr Hp. split; [by apply rstep_next|by apply HP]. Qed.

Lemma bare_insert next client s : bare next → s_buffers s = ∅ → bare (<[client := s]> next).
Proof. intros Hb Hs p s' [[<- <-]|[_ Hp]]%lookup_insert_Some; [done|by eapply Hb]. Qed.

Lemma acts_check_streams streams p j next vs :
  bare next →
  acts (λ w, settled w ∧ known_clients streams w) (check_streams streams p j next vs)
    (λ r w, settled w ∧ match r with inr (next, _) => bare next | inl _ => True end).
Proof.
  revert p j next vs. induction streams as [|[client|] streams IH]; intros p j next vs Hbare;
    cbn [check_streams].
  - apply acts_ret. by intros w [].
  - eapply acts_bind.
    { apply (acts_client_stream client). intros w [_ Hk]. apply Hk. left. }
    intros [s|]; [|apply acts_ret; by intros w []].
    apply acts_if; intros _; [apply acts_ret; by intros w []|].
    eapply acts_bind with (Mid := λ _ w, settled w ∧ known_clients (Some client :: streams) w).
    { eapply acts_post; [apply acts_reads|]. by intros a w [[] _]. }
    intros known. destruct (format_counts (st_format s) known) as [[p' j']|];
      [|apply acts_ret; by intros w []].
    apply acts_if; intros _; [apply acts_ret; by intros w []|].
    eapply acts_bind; [apply acts_ask_any; any_k|]. intros ok.
    apply acts_if; intros _; [apply acts_ret; by intros w []|].
    eapply acts_bind; [apply acts_new_address; intros w Hp; exact Hp|]. intros id.
    eapply acts_pre; [apply IH; by apply bare_insert|].
    intros w [Hs Hk]. split; [done|]. intros q Hq. apply Hk. by right.
  - apply acts_ret. by intros w [].
Qed.

(** The stock device may be missing; the next streams are not in use yet. *)
Definition swapping (w : W) : Prop := reopening w ∧ no_frames w.

Lemma kept_swapping : kept swapping.
Proof. apply kept_and; [apply kept_reopening|apply kept_no_frames]. Qed.

Lemma settled_swapping w : settled w → swapping w.
Proof. intros [Hr Hn]. split; [by apply ready_reopening|done]. Qed.

(** A change of [vendor]. *)
Lemma acts_set_vendor v P (Q : unit → W → Prop) :
  (∀ w, P w → c_asleep (w_cam w) = false) →
  (∀ w, P w → Q tt (upd_cam (set_vendor v) w)) →
  acts P (modify_cam (set_vendor v)) Q.
Proof.
  intros Ha HQ. apply acts_modify. intros w Hw Hr HP. split; [|by apply HQ].
  apply rstep_cam; try done.
  - cbn. rewrite Ha by done. done.
  - apply (iv_client w Hw).
Qed.

Lemma acts_close_vendor P (Q : Z → W → Prop) :
  any_k P → (∀ w, P w → c_asleep (w_cam w) = false) →
  (∀ w r, P w → Q r (upd_cam (set_vendor None) w)) →
  (∀ w, P w → c_vendor (w_cam w) = None → Q 0 w) →
  acts P close_vendor Q.
Proof.
  intros Hk Ha HQ Hno w Hw Hr HP. unfold close_vendor. rewrite bind_run. unfold reads. cbn [fst snd].
  destruct (c_vendor (w_cam w)) as [d|] eqn:Hv.
  - revert w Hw Hr HP Hv. intros w Hw Hr HP _.
    eapply (acts_bind P _ (λ _, P)); [by apply acts_ask_any| |done|done|done].
    intros r. eapply acts_bind with (Mid := λ _, Q r).
    + apply acts_set_vendor; [done|]. intros w' Hp. by apply HQ.
    + intros _. by apply acts_ret.
  - split; [apply rstep_refl|]. by apply Hno.
Qed.

Lemma acts_close_swapping : acts swapping close_vendor (λ _, swapping).
Proof.
  apply acts_close_vendor; [any_k|by intros w ((_ & Ha & _) & _)| |done].
  intros w r Hp. exact Hp.
Qed.

Lemma runs_reopenVendor t :
  runs t (owns t swapping) reopenVendor
    (λ r, owns t (λ w, swapping w ∧ (r = 0 → c_vendor (w_cam w) ≠ None))).
Proof.
  pose proof kept_swapping as Hks.
  assert (Herr : ∀ r, r ≠ 0 → runs t (owns t swapping) (mret r)
            (λ r, owns t (λ w, swapping w ∧ (r = 0 → c_vendor (w_cam w) ≠ None)))).
  { intros r Hr. by apply runs_ret. }
  assert (Hclose : ∀ r, r ≠ 0 → runs t (owns t swapping) (_ ← atomic close_vendor; mret r)
            (λ r, owns t (λ w, swapping w ∧ (r = 0 → c_vendor (w_cam w) ≠ None)))).
  { intros r Hr. apply (runs_act _ _ _ (λ _, swapping)); [done|done|apply acts_close_swapping|].
    intros _. by apply Herr. }
  unfold reopenVendor.
  apply (runs_act _ _ _ (λ _, swapping)); [done|done|apply acts_ask_any; any_k|].
  intros [m|]; [|by apply Herr]. apply runs_if; intros _; [by apply Herr|].
  apply (runs_act _ _ _ (λ _, swapping)); [done|done|apply acts_close_swapping|].
  intros _.
  apply (runs_act _ _ _ (λ _, swapping)); [done|done| |].
  { eapply acts_post; [apply acts_reads|]. by intros a w []. }
  intros name.
  apply (runs_act _ _ _ (λ _, swapping)); [done|done|apply acts_ask_any; any_k|].
  intros [r opened]. apply runs_if; intros Hr; [apply Herr; by apply bool_decide_eq_true in Hr|].
  destruct opened as [d|]; [|by apply Herr].
  set (has := λ w : W, swapping w ∧ c_vendor (w_cam w) ≠ None).
  assert (Hkh : kept has) by (apply kept_and; [done|apply (kept_vendor (.≠ None))]).
  apply (runs_act _ _ _ (λ _, has)); [done|done| |].
  { apply acts_set_vendor; [by intros w ((_ & Ha & _) & _)|]. intros w Hp. by split. }
  intros _. apply runs_if; intros _.
  { eapply runs_pre; [by apply Hclose|]. by intros w []. }
  apply (runs_act _ _ _ (λ _, has)); [done|done| |].
  { apply acts_vendor_ready; [any_k|]. by intros w []. }
  intros r'. apply runs_if; intros Hr'.
  - eapply runs_pre; [apply Hclose; by apply bool_decide_eq_true in Hr'|]. by intros w [].
  - apply runs_ret; [done|]. intros w []. by split.
Qed.

Lemma acts_fail_streams next :
  bare next → acts swapping (modify_cam (fail_streams next)) (λ _, idle).
Proof.
  intros Hb. apply acts_modify. intros w Hw Hr ((Hc & Ha & Hbal) & Hn). split.
  - apply rstep_cam; try done. cbn. congruence.
  - split_and!; cbn; [by right|done|]. intros h. cbn. by rewrite held_fail.
Qed.

Lemma write_legacies_bare vs ls next : bare next → bare (write_legacies vs ls next).
Proof.
  revert ls next. induction vs as [|p vs IH]; intros [|l ls] next Hb; cbn; try done.
  apply IH. intros q s Hq. destruct (decide (q = p)) as [->|Hne].
  - rewrite lookup_alter_eq in Hq. apply fmap_Some in Hq as (s0 & Hs & ->). exact (Hb p s0 Hs).
  - rewrite lookup_alter_ne in Hq by done. by eapply Hb.
Qed.

Lemma acts_vendor_configure next vs :
  bare next →
  acts settled (vendor_configure next vs) (λ r w, settled w ∧ bare r.2).
Proof.
  intros Hb. unfold vendor_configure.
  eapply acts_bind; [apply acts_vendor_ready; [any_k|by intros w [[] _]]|].
  intros [r ls]. apply acts_ret. intros w Hs. split; [done|]. by apply write_legacies_bare.
Qed.

(** References of streams that are gone from the tables are still registered. *)
Definition owing (l : list Z) (w : W) : Prop :=
  vendor_fine (w_cam w) ∧ c_asleep (w_cam w) = false ∧
  ∀ h, log_balance h (w_log w) =
       held h (c_streams (w_cam w)) (c_failedStreams (w_cam w)) + occurrences h l.

Lemma owing_idle w : owing [] w ↔ idle w.
Proof.
  unfold owing, idle, balanced. split; intros (? & ? & Hb); split_and!; try done; intros h.
  - rewrite Hb. change (occurrences h []) with 0. lia.
  - rewrite Hb. change (occurrences h []) with 0. lia.
Qed.

Lemma kept_owing l : kept (owing l).
Proof.
  intros w w' Hw Hw' (Hv & Ha & Hb) [] []. split_and!; [|auto|].
  - intros Hn. rewrite sr_vendor in Hn. rewrite sr_closing, sr_callbacks.
    destruct (Hv Hn) as [|[]]; auto.
  - intros h. by rewrite sr_balance, sr_streams, sr_failed.
Qed.

Lemma acts_unregister_all l : acts (owing l) (unregister_all l) (λ _, idle).
Proof.
  induction l as [|h l IH]; cbn [unregister_all].
  - apply acts_ret. intros w. apply owing_idle.
  - apply (acts_bind _ _ (λ _, owing (h :: l))); [apply acts_ask_any; any_k|]. intros [].
    apply (acts_bind _ _ (λ _, owing l)); [|intros []; exact IH].
    apply acts_modify. intros w Hw Hr (Hv & Ha & Hb). split; [by apply rstep_note; [repeat constructor|]|].
    split_and!; [done|done|]. intros h'. cbn. rewrite log_balance_app, Hb.
    unfold occurrences. rewrite count_cons. unfold log_balance. rewrite !count_cons. cbn.
    change (count _ []) with 0.
    replace (bool_decide (h = h')) with (bool_decide (h' = h)) by (apply bool_decide_ext; split; congruence).
    destruct (bool_decide (h' = h)); cbn; lia.
Qed.

Lemma write_back_known next clients p :
  is_Some (clients !! p) → is_Some (write_back next clients !! p).
Proof.
  intros [s Hs]. unfold write_back. rewrite map_lookup_imap, Hs. cbn. by eexists.
Qed.

Lemma runs_adopt_streams t next :
  bare next → runs t (owns t settled) (adopt_streams next) (λ _, owns t idle).
Proof.
  intros Hb. unfold adopt_streams.
  apply (runs_act _ _ _ (λ _, settled)); [apply kept_settled|intros _; apply kept_settled| |].
  { apply acts_modify. intros w Hw Hr Hs. split; [|exact Hs].
    apply rstep_clients; [|done]. intros p. apply write_back_known. }
  intros _.
  apply (runs_act _ _ _ (λ old, owing (streams_handles old)));
    [apply kept_settled|intros old; apply kept_owing| |].
  { intros w Hw Hr [(Hv & Hc & Ha & Hbal) Hn]. rewrite bind_run. unfold reads. cbn [fst snd].
    rewrite bind_run. cbn. split; [apply rstep_cam; try done; cbn; congruence|].
    split_and!; cbn; [by intros Hx%Hv|done|]. intros h. rewrite Hbal, (held_bare h next) by exact Hb.
    unfold held. lia. }
  intros old.
  apply (runs_act _ _ _ (λ _, owing (streams_handles old)));
    [apply kept_owing|intros _; apply kept_owing| |].
  { apply acts_modify. intros w Hw Hr (Hv & Ha & Hx). split; [|by split_and!].
    apply rstep_cam; try done; [cbn; congruence|apply (iv_client w Hw)]. }
  intros _. apply (runs_last t _ _ (λ _, idle)); [apply kept_owing|intros _; apply kept_idle|].
  apply acts_unregister_all.
Qed.

Lemma settled_idle w : settled w → idle w.
Proof. intros [Hr _]. by apply ready_idle. Qed.

Lemma runs_fail t next r :
  bare next →
  runs t (owns t swapping) (_ ← atomic (modify_cam (fail_streams next)); mret r)
    (λ _ : Z, owns t idle).
Proof.
  intros Hb. apply (runs_act _ _ _ (λ _, idle));
    [apply kept_swapping|intros _; apply kept_idle|by apply acts_fail_streams|].
  intros _. apply (runs_ret t _ _ (λ _, idle)); [apply kept_idle|done].
Qed.

Lemma runs_configure_streams t next vs :
  bare next →
  runs t (owns t settled) (configure_streams next vs) (λ _ : Z, owns t idle).
Proof.
  intros Hb. unfold configure_streams.
  apply (runs_act _ _ _ (λ _, settled)); [apply kept_settled|intros _; apply kept_settled| |].
  { eapply acts_post; [apply acts_reads|]. by intros a w []. }
  intros changed.
  apply (runs_bind _ _ _ (λ r, owns t (λ w, swapping w ∧ (r = 0 → c_vendor (w_cam w) ≠ None)))).
  { apply runs_if; intros _.
    - eapply runs_pre; [apply runs_reopenVendor|apply settled_swapping].
    - apply (runs_ret t _ _ (λ r w, swapping w ∧ (r = 0 → c_vendor (w_cam w) ≠ None)));
        [apply kept_settled|].
      intros w Hs. split; [by apply settled_swapping|]. intros _. apply Hs. }
  intros r. apply runs_if; intros Hr.
  { eapply runs_pre; [by apply runs_fail|]. by intros w []. }
  apply bool_decide_eq_false, dec_stable in Hr.
  apply (runs_pre t _ settled).
  2: { intros w (((Hc & Ha & Hbal) & Hn) & Hv). split; [|done]. split_and!; auto. }
  apply (runs_act _ _ _ (λ r w, settled w ∧ bare r.2));
    [apply kept_settled|intros a; apply kept_and; [apply kept_settled|apply kept_pure]
    |by apply acts_vendor_configure|].
  intros [r' next']. apply runs_pure; [apply _|]. cbn [snd]. intros Hb'.
  apply runs_if; intros Hr'.
  - eapply runs_pre; [by apply runs_fail|apply settled_swapping].
  - apply (runs_bind _ _ _ (λ _, owns t idle)); [by apply runs_adopt_streams|].
    intros _. apply (runs_ret t _ _ (λ _, idle)); [apply kept_idle|done].
Qed.

Lemma runs_configure t config :
  runs t (known_clients (match config with
                         | Some c => default [] (sc_streams c)
                         | None => []
                         end)) (configure t config) (λ _ _, True).
Proof.
  assert (Hret : ∀ P, steady P → runs t P (mret (- EINVAL)) (λ _ _, True)).
  { intros P HP. apply sat_ret; [by apply steady_stable|done]. }
  unfold configure. destruct config as [[[[|s streams]|] mode]|];
    try (apply Hret; apply steady_known).
  apply runs_if; intros _; [apply Hret; apply steady_known|].
  cbn [sc_streams default]. set (l := s :: streams).
  apply (runs_with_request t (known_clients l) _ (λ _, True)); [apply steady_known|].
  apply (runs_post t _ _ _ (λ _, idle)); [|done].
  apply (runs_act _ _ _ (λ r w, match r with
           | Some _ => idle w
           | None => settled w ∧ known_clients l w
           end)).
  - apply kept_and; [apply kept_idle|apply kept_known].
  - intros [e|]; [apply kept_idle|]. apply kept_and; [apply kept_settled|apply kept_known].
  - intros w Hw Hr [(Hv & Ha & Hb) Hk]. unfold reads. cbn [fst snd]. split; [apply rstep_refl|].
    unfold device_dead. destruct (c_fatal (w_cam w)) eqn:Hf; [done|].
    destruct (c_closing (w_cam w)) eqn:Hc; [done|].
    destruct (c_clientCallbacks (w_cam w)) eqn:Hcb; [|done]. cbn.
    case_bool_decide as Hn; [|done]. split; [|done]. split; [|done]. split_and!; try done.
    intros Hn'. destruct (Hv Hn') as [|[]]; congruence.
  - intros [e|].
    + apply (runs_ret t _ _ (λ _, idle)); [apply kept_idle|done].
    + apply (runs_act _ _ _ (λ r w, settled w ∧ match r with
                                     | inr (next, _) => bare next
                                     | inl _ => True
                                     end)).
      * apply kept_and; [apply kept_settled|apply kept_known].
      * intros [|[]]; (apply kept_and; [apply kept_settled|apply kept_pure]).
      * by apply acts_check_streams.
      * intros [e|[next vs]].
        -- apply (runs_ret t _ _ (λ _, idle)); [apply kept_and; [apply kept_settled|apply kept_pure]|].
           intros w [Hs _]. by apply settled_idle.
        -- apply runs_pure; [apply _|]. intros Hb. by apply runs_configure_streams.
Qed.

End calls.

(** * Templates, requests, draining and closing

    The other calls of the client, as in CameraCalls.v. *)

Section capture.
  Context {K : Type} `{CameraMetadataApi K} `{!CameraH} `{!CameraTags} `{!CameraPlatform K}.

Abbreviation W := (camera_world K).

(** ** Steps that change frames and log *)

Lemma rstep_frames g l w :
  (Inv w → accounts (c_frames (g (w_cam w))) (w_log w ++ l) (w_pending w) (w_next w)) →
  (c_fatal (w_cam w) = true → c_fatal (g (w_cam w)) = true) →
  (c_closing (w_cam w) = true → c_closing (g (w_cam w)) = true) →
  c_templates (g (w_cam w)) = c_templates (w_cam w) →
  c_asleep (g (w_cam w)) = false →
  (Inv w → submitted (w_log w ++ l) ≠ [] → c_clientCallbacks (g (w_cam w)) = true) →
  w_request w ≠ None →
  rstep w (upd_cam g (add_log l w)).
Proof.
  intros Hacc Hf Hc Ht Ha Hcb Hr. split; cbn; try done.
  - intros Hw. split; cbn; try done; auto; [congruence| |by destruct Hw].
    intros x Hx. destruct (iv_faults w Hw x Hx). auto.
  - split; cbn; auto; [by exists l| |lia]. intros i m. by rewrite Ht.
Qed.

(** A change of the members that neither the invariant nor the others look at. *)
Lemma acts_cam_plain g P :
  (∀ c, c_frames (g c) = c_frames c ∧ c_fatal (g c) = c_fatal c ∧ c_closing (g c) = c_closing c ∧
        c_templates (g c) = c_templates c ∧ c_asleep (g c) = c_asleep c ∧
        c_clientCallbacks (g c) = c_clientCallbacks c) →
  (∀ w, P w → P (upd_cam g w)) →
  acts P (modify_cam g) (λ _, P).
Proof.
  intros Hg HP. apply acts_modify. intros w Hw Hr Hp. split; [|by apply HP].
  destruct (Hg (w_cam w)) as (Hf & Hfa & Hc & Ht & Ha & Hcb).
  apply rstep_cam; rewrite ?Hf, ?Hfa, ?Hc, ?Ht, ?Ha, ?Hcb; try done.
  - apply (iv_asleep w Hw).
  - apply (iv_client w Hw).
Qed.

(** ** defaultRequest *)

(** The template [type] is empty, and not used by anybody. *)
Definition template_free (type : nat) (w : W) : Prop :=
  ∀ m, c_templates (w_cam w) !! type = Some m → md_isEmpty m = true.

Lemma acts_set_template type m :
  acts (λ w, idle w ∧ template_free type w) (modify_cam (set_template type m)) (λ _, idle).
Proof.
  apply acts_modify. intros w Hw Hr [(Hv & Ha & Hb) Hf]. split; [|by split_and!].
  apply rstep_cam; try done; [|cbn; congruence|apply (iv_client w Hw)].
  intros i m' Hi Hm. cbn. destruct (decide (i = type)) as [->|Hne].
  - rewrite (Hf m' Hi) in Hm. done.
  - by rewrite list_lookup_insert_ne.
Qed.

Lemma kept_free type : kept (λ w, idle w ∧ template_free type w).
Proof.
  apply kept_and; [apply kept_idle|].
  apply (kept_templates (λ l, ∀ m, l !! type = Some m → md_isEmpty m = true)).
Qed.

Lemma acts_copy_template type (s : packet) cached :
  acts (λ w, idle w ∧ template_free type w)
    (copy ← ask (clone_camera_metadata (pk_entries s));
     match copy with
     | None => mret None
     | Some _ =>
         cached ← ask (md_acquire copy cached);
         stock_info ← reads (λ w, c_characteristics (w_cam w));
         '(ok, cached) ← ask (normalizeRequest cached stock_info);
         if ok : bool then _ ← modify_cam (set_template type cached); mret (md_buffer cached)
         else
           cached ← ask (md_clear cached);
           _ ← modify_cam (set_template type cached); mret None
     end) (λ _, idle).
Proof.
  set (P := λ w, idle w ∧ template_free type w).
  assert (Hany : any_k P) by any_k.
  assert (Hidle : ∀ {A} (a : A), acts P (mret a) (λ _, idle)) by (intros A a; apply acts_ret; by intros w []).
  assert (Hset : ∀ {A} m (a : A), acts P (_ ← modify_cam (set_template type m); mret a) (λ _, idle)).
  { intros A m a. apply (acts_bind _ _ (λ _, idle)); [apply acts_set_template|].
    intros _. by apply acts_ret. }
  apply (acts_bind _ _ (λ _, P)); [by apply acts_ask_any|]. intros [q|]; [|apply Hidle].
  apply (acts_bind _ _ (λ _, P)); [by apply acts_ask_any|]. intros m.
  apply (acts_bind _ _ (λ _, P)); [eapply acts_post; [apply acts_reads|]; by intros a w []|].
  intros info.
  apply (acts_bind _ _ (λ _, P)); [by apply acts_ask_any|]. intros [ok m'].
  apply acts_if; intros _; [apply Hset|].
  apply (acts_bind _ _ (λ _, P)); [by apply acts_ask_any|]. intros m2. apply Hset.
Qed.

Lemma runs_defaultRequest t type : runs t (λ _, True) (defaultRequest t type) (λ _ _, True).
Proof.
  unfold defaultRequest. apply runs_if; intros _.
  { apply sat_ret; [by intros w w'|done]. }
  apply (runs_with_request t (λ _, True) _ (λ _, True)); [by intros w w'|].
  apply (runs_pre t _ idle); [|by intros w []].
  apply (runs_post t _ _ _ (λ _, idle)); [|done].
  assert (Hret : ∀ {A} (a : A), runs t (owns t idle) (mret a) (λ _ : A, owns t idle)).
  { intros A a. apply (runs_ret t _ _ (λ _, idle)); [apply kept_idle|done]. }
  assert (Hki : ∀ A : Type, ∀ a : A, kept (K := K) idle) by (intros; apply kept_idle).
  apply (runs_act _ _ _ (λ _, idle)); [apply kept_idle|apply Hki| |].
  { eapply acts_post; [apply acts_reads|]. by intros a w []. }
  intros [d|]; [|apply Hret].
  set (i := Z.to_nat type).
  apply (runs_act _ _ _ (λ m w, idle w ∧ default md_new (c_templates (w_cam w) !! i) = m));
    [apply kept_idle| | |].
  { intros m. apply kept_and; [apply kept_idle|].
    apply (kept_templates (λ l, default md_new (l !! i) = m)). }
  { eapply acts_post; [apply acts_reads|]. by intros a w [Hi ->]. }
  intros cached. apply runs_if; intros He.
  { apply (runs_pre t _ idle); [apply Hret|by intros w []]. }
  apply negb_false_iff in He.
  apply (runs_pre t _ (λ w, idle w ∧ template_free i w)).
  2: { intros w [Hi Hd]. split; [done|]. intros m Hm. rewrite Hm in Hd. cbn in Hd. by subst. }
  apply (runs_act _ _ _ (λ _ w, idle w ∧ template_free i w));
    [apply kept_free|intros _; apply kept_free|apply acts_ask_any; any_k|].
  intros [s|].
  - apply (runs_last t _ _ (λ _, idle)); [apply kept_free|apply Hki|apply acts_copy_template].
  - apply (runs_pre t _ idle); [apply Hret|by intros w []].
Qed.

(** ** drain *)

(** Assertions that do not look at the sleeping flag. *)
Definition any_sleep (P : W → Prop) : Prop := ∀ w b, P w → P (upd_cam (set_asleep b) w).

Definition rested (w : W) : Prop := c_asleep (w_cam w) = false.

Lemma kept_rested : kept rested.
Proof. intros w w' _ _ Ha Hs _. exact (sr_asleep _ _ Hs Ha). Qed.

Lemma rstep_asleep b w :
  (b = true → c_frames (w_cam w) ≠ ∅ ∧ c_fatal (w_cam w) = false) → w_request w ≠ None → Inv w →
  rstep w (upd_cam (set_asleep b) w).
Proof.
  intros Hb Hr Hw. apply rstep_cam; try done. apply (iv_client w Hw).
Qed.

Lemma runs_drain t P :
  kept P → any_sleep P →
  runs t (owns t P) drain
    (λ r, owns t (λ w, (P w ∧ rested w) ∧ (r = 0 → no_frames w))).
Proof.
  intros HP Has. unfold drain.
  apply (sat_act _ _ _ _ _ _ (λ r, owns t (λ w, (P w ∧ rested w) ∧ (r = 0 → no_frames w))));
    [by apply owns_stable| |].
  2: { intros r. apply (runs_ret t _ _ (λ r w, (P w ∧ rested w) ∧ (r = 0 → no_frames w))); [|done].
       apply kept_and; [by apply kept_and; [|apply kept_rested]|].
       apply kept_impl, kept_no_frames. }
  intros timeout w Hw [Ht Hp].
  assert (Hgo : ∀ b, (b = true → c_frames (w_cam w) ≠ ∅ ∧ c_fatal (w_cam w) = false) →
    Inv (upd_cam (set_asleep b) w) ∧ guar t w (upd_cam (set_asleep b) w) ∧
    owns t P (upd_cam (set_asleep b) w)).
  { intros b Hb. pose proof (rstep_asleep b w Hb ltac:(congruence) Hw) as Hs.
    split_and!; [by apply Hs|by apply rstep_guar|]. split; [done|by apply Has]. }
  unfold drain_wait. destruct (bool_decide (c_frames (w_cam w) = ∅)) eqn:Hf; cbn [orb].
  - cbn [fst snd]. destruct (Hgo false ltac:(done)) as (Hi & Hg & Ho).
    split_and!; [done|done|]. split; [apply Ho|]. split; [split; [apply Ho|done]|].
    intros _. apply bool_decide_eq_true in Hf. exact Hf.
  - apply bool_decide_eq_false in Hf. destruct (c_fatal (w_cam w)) eqn:Hfa; cbn [fst snd].
    + destruct (Hgo false ltac:(done)) as (Hi & Hg & Ho).
      split_and!; [done|done|]. split; [apply Ho|]. split; [split; [apply Ho|done]|done].
    + destruct (timeout && c_asleep (w_cam w)); cbn [fst snd].
      * destruct (Hgo false ltac:(done)) as (Hi & Hg & Ho).
        split_and!; [done|done|]. split; [apply Ho|]. split; [split; [apply Ho|done]|done].
      * by apply Hgo.
Qed.

(** What a thread knows while it may sleep. *)
Definition waiting_idle (w : W) : Prop := vendor_fine (w_cam w) ∧ balanced w.

Lemma kept_waiting_idle : kept waiting_idle.
Proof.
  intros w w' Hw Hw' (Hv & Hb) Hs Hk. split; [|exact (kept_balanced w w' Hw Hw' Hb Hs Hk)].
  destruct Hs, Hk. intros Hn. rewrite sr_vendor in Hn. rewrite sr_closing, sr_callbacks.
  destruct (Hv Hn) as [|[]]; auto.
Qed.

Lemma runs_flush t : runs t (λ _, True) (flush t) (λ _ _, True).
Proof.
  apply (runs_with_request t (λ _, True) _ (λ _, True)); [by intros w w'|].
  apply (runs_pre t _ waiting_idle); [|by intros w [(Hv & _ & Hb) _]].
  eapply runs_post; [apply runs_drain; [apply kept_waiting_idle|by intros w b]|].
  intros r w [[[Hv Hb] Ha] _]. by split_and!.
Qed.

(** ** capture *)

(** The reference to the handle of a buffer is there. *)
Definition has_ref (streams : gmap Z Stream) (b : camera3_stream_buffer) : Prop :=
  ∃ s, streams !! sb_stream b = Some s ∧ is_Some (s_buffers s !! sb_handle b).

(** The request [n] may be sent once the buffers [bs], of streams that are
    there, are registered; [l] are. *)
Definition capturing (n : Z) (bs l : list camera3_stream_buffer) (w : W) : Prop :=
  ready w ∧ c_frames (w_cam w) !! n = None ∧
  (∀ b, b ∈ bs → is_Some (c_streams (w_cam w) !! sb_stream b)) ∧
  (∀ b, b ∈ l → has_ref (c_streams (w_cam w)) b).

Lemma kept_capturing n bs l : kept (capturing n bs l).
Proof.
  apply kept_and; [apply kept_ready|]. apply kept_and; [apply kept_absent|].
  apply (kept_streams (λ s, (∀ b, b ∈ bs → is_Some (s !! sb_stream b)) ∧ (∀ b, b ∈ l → has_ref s b))).
Qed.

Lemma capturing_idle n bs l w : capturing n bs l w → idle w.
Proof. intros [Hr _]. by apply ready_idle. Qed.

Lemma check_buffers_spec streams bs requested new requested' new' :
  check_buffers streams bs requested new = Some (requested', new') →
  (∀ b, b ∈ bs → is_Some (streams !! sb_stream b)) ∧
  (new' = false → new = false ∧ ∀ b, b ∈ bs → has_ref streams b).
Proof.
  revert requested new. induction bs as [|b bs IH]; intros requested new Hc; cbn [check_buffers] in Hc.
  { injection Hc as <- <-. split; [|intros Hn; split; [done|]]; intros b Hb; by apply elem_of_nil in Hb. }
  destruct (streams !! sb_stream b) as [s|] eqn:Hs; [|done].
  destruct (sb_buffer b) as [[address handle]|] eqn:Hb; [|done].
  destruct (bool_decide _ || _); [done|]. destruct (IH _ _ Hc) as [Hk Hr]. split.
  - intros b' [->|Hin]%elem_of_cons; [by eexists|by apply Hk].
  - intros Hn. destruct (Hr Hn) as [[Hn1 Hn2]%orb_false_iff Hall]. split; [done|].
    intros b' [->|Hin]%elem_of_cons; [|by apply Hall].
    exists s. split; [done|]. unfold sb_handle. rewrite Hb. apply bool_decide_eq_false in Hn2.
    by apply not_eq_None_Some in Hn2.
Qed.

Lemma has_ref_register streams key s handle ref b :
  streams !! key = Some s → has_ref streams b →
  has_ref (<[key := set_buffers (<[handle := ref]> (s_buffers s)) s]> streams) b.
Proof.
  intros Hs (s' & Hs' & Hb). unfold has_ref. destruct (decide (sb_stream b = key)) as [<-|Hne].
  - rewrite lookup_insert_eq. eexists. split; [done|]. cbn. simplify_eq.
    destruct (decide (sb_handle b = handle)) as [->|]; [by rewrite lookup_insert_eq|].
    by rewrite lookup_insert_ne.
  - rewrite lookup_insert_ne by done. eauto.
Qed.

Lemma balance_register h log handle :
  log_balance h (log ++ [LRegister handle]) = log_balance h log + Z.b2z (bool_decide (handle = h)).
Proof.
  rewrite log_balance_app. unfold log_balance at 2. rewrite !count_cons.
  change (count _ []) with 0. cbn. lia.
Qed.

Lemma balance_unregister h log handle :
  log_balance h (log ++ [LUnregister handle]) = log_balance h log - Z.b2z (bool_decide (handle = h)).
Proof.
  rewrite log_balance_app. unfold log_balance at 2. rewrite !count_cons.
  change (count _ []) with 0. cbn. lia.
Qed.

(** The same while the buffers are registered: the stock library has no request. *)
Definition registering (n : Z) (bs l : list camera3_stream_buffer) (w : W) : Prop :=
  ready w ∧ no_frames w ∧
  (∀ b, b ∈ bs → is_Some (c_streams (w_cam w) !! sb_stream b)) ∧
  (∀ b, b ∈ l → has_ref (c_streams (w_cam w)) b).

Lemma kept_registering n bs l : kept (registering n bs l).
Proof.
  apply kept_and; [apply kept_ready|]. apply kept_and; [apply kept_no_frames|].
  apply (kept_streams (λ s, (∀ b, b ∈ bs → is_Some (s !! sb_stream b)) ∧ (∀ b, b ∈ l → has_ref s b))).
Qed.

Lemma registering_idle n bs l w : registering n bs l w → idle w.
Proof. intros [Hr _]. by apply ready_idle. Qed.

(** A handle that is registered and has no reference yet. *)
Definition loose (handle n : Z) (bs l : list camera3_stream_buffer) (w : W) : Prop :=
  c_vendor (w_cam w) ≠ None ∧ c_clientCallbacks (w_cam w) = true ∧ c_asleep (w_cam w) = false ∧
  (∀ h, log_balance h (w_log w) =
        held h (c_streams (w_cam w)) (c_failedStreams (w_cam w)) +
        Z.b2z (bool_decide (handle = h))) ∧
  no_frames w ∧
  (∀ b, b ∈ bs → is_Some (c_streams (w_cam w) !! sb_stream b)) ∧
  (∀ b, b ∈ l → has_ref (c_streams (w_cam w)) b).

Lemma acts_loose n bs l handle :
  acts (registering n bs l) (note [LRegister handle]) (λ _, loose handle n bs l).
Proof.
  apply acts_modify. intros w Hw Hr ((Hv & Hc & Ha & Hb) & Hn & Hk & Hf).
  split.
  - apply (rstep_frames (λ c, c) [LRegister handle] w); try done.
    intros [Hacc _ _ _ _ _]. cbn. rewrite Hn in *. by apply accounts_register.
  - split_and!; try done. intros h. cbn. by rewrite balance_register, Hb.
Qed.

Lemma acts_unloose n bs l handle :
  acts (loose handle n bs l) (note [LUnregister handle]) (λ _, registering n bs l).
Proof.
  apply acts_modify. intros w Hw Hr (Hv & Hc & Ha & Hb & Hn & Hk & Hf).
  split; [by apply rstep_note; [repeat constructor|]|]. split_and!; try done.
  split_and!; try done. intros h. cbn. rewrite balance_unregister, Hb. lia.
Qed.

Lemma acts_reference n bs l b streams s ref :
  streams !! sb_stream b = Some s → s_buffers s !! sb_handle b = None →
  acts (λ w, loose (sb_handle b) n bs l w ∧ c_streams (w_cam w) = streams)
    (modify_cam (set_streams
       (<[sb_stream b := set_buffers (<[sb_handle b := ref]> (s_buffers s)) s]> streams)))
    (λ _, registering n bs (b :: l)).
Proof.
  intros Hs Hh. apply acts_modify. intros w Hw Hr ((Hv & Hc & Ha & Hb & Hn & Hk & Hf) & Hst). split.
  { apply rstep_cam; try done. cbn. congruence. }
  rewrite Hst in Hb, Hk, Hf. split_and!; cbn; try done.
  - split_and!; cbn; try done. intros h. cbn. by rewrite held_register, Hb.
  - intros b' Hb'. destruct (decide (sb_stream b' = sb_stream b)) as [->|];
      [by rewrite lookup_insert_eq|rewrite lookup_insert_ne by done; by apply Hk].
  - intros b' [->|Hb']%elem_of_cons; [|by apply has_ref_register, Hf].
    eexists. rewrite lookup_insert_eq. split; [done|]. cbn. by rewrite lookup_insert_eq.
Qed.

(** What the registration of the buffer [b] establishes. *)
Definition registered n bs l b (r : Z + option (Z * list Z)) (w : W) : Prop :=
  match r with
  | inl error => registering n bs l w ∧ error ≠ 0
  | inr _ => registering n bs (b :: l) w
  end.

Lemma kept_registered n bs l b r : kept (registered n bs l b r).
Proof.
  destruct r; [apply kept_and; [apply kept_registering|apply kept_pure]|apply kept_registering].
Qed.

Lemma acts_register_handle n bs l b :
  b ∈ bs →
  acts (registering n bs l) (register_handle (sb_stream b) (sb_handle b)) (registered n bs l b).
Proof.
  intros Hin w Hw Hr Hp. unfold register_handle. rewrite bind_run. unfold reads. cbn [fst snd].
  destruct Hp as (Hrd & Hn & Hk & Hf). destruct (Hk b Hin) as [s Hs]. rewrite Hs.
  case_bool_decide as Hh.
  { split; [apply rstep_refl|]. split_and!; try done.
    intros b' [->|Hb']%elem_of_cons; [by exists s|by apply Hf]. }
  rewrite <- eq_None_not_Some in Hh.
  remember (c_streams (w_cam w)) as streams eqn:Hst.
  set (here := λ w : W, registering n bs l w ∧ c_streams (w_cam w) = streams).
  set (there := λ w : W, loose (sb_handle b) n bs l w ∧ c_streams (w_cam w) = streams).
  assert (Hhere : here w) by (split; [|done]; rewrite Hst in Hk, Hf; by split_and!).
  refine ((_ : acts here _ _) w Hw Hr Hhere).
  apply (acts_bind _ _ (λ _, here)); [apply acts_ask_any; any_k|]. intros r.
  apply acts_if; intros Hr0.
  { apply acts_ret. intros w' [Hc _]. split; [done|]. by apply bool_decide_eq_true in Hr0. }
  apply (acts_bind _ _ (λ _, there)).
  { intros w' Hw' Hr' [Hc Heq]. destruct (acts_loose n bs l (sb_handle b) w' Hw' Hr' Hc).
    by split. }
  intros []. apply (acts_bind _ _ (λ _, there)); [apply acts_ask_any; any_k|]. intros ok.
  apply acts_if; intros _.
  - apply (acts_bind _ _ (λ _, there)); [apply acts_ask_any; any_k|]. intros [].
    apply (acts_bind _ _ (λ _, registering n bs l)).
    { eapply acts_pre; [apply acts_unloose|]. by intros w' []. }
    intros []. apply acts_ret. by split.
  - apply (acts_bind _ _ (λ _, there)); [apply acts_new_address; by intros w'|]. intros ref.
    apply (acts_bind _ _ (λ _, registering n bs (b :: l))); [by apply acts_reference|].
    intros []. by apply acts_ret.
Qed.

Lemma runs_register_buffers t n bs l rest :
  (∀ b, b ∈ rest → b ∈ bs) →
  runs t (owns t (registering n bs l)) (register_buffers rest)
    (λ r, owns t (λ w, idle w ∧ (r = 0 → registering n bs (rest ++ l) w))).
Proof.
  revert l. induction rest as [|b rest IH]; intros l Hrest; cbn [register_buffers].
  { apply (runs_ret t _ _ (λ r w, idle w ∧ (r = 0 → registering n bs l w))); [apply kept_registering|].
    intros w Hc. split; [by eapply registering_idle|done]. }
  assert (Herr : ∀ r, r ≠ 0 → runs t (owns t (registering n bs l)) (mret r)
    (λ r, owns t (λ w, idle w ∧ (r = 0 → registering n bs ((b :: rest) ++ l) w)))).
  { intros r Hr.
    apply (runs_ret t _ _ (λ r w, idle w ∧ (r = 0 → registering n bs ((b :: rest) ++ l) w)));
      [apply kept_registering|].
    intros w Hc. split; [by eapply registering_idle|done]. }
  assert (Hgo : runs t (owns t (registering n bs (b :: l))) (register_buffers rest)
    (λ r, owns t (λ w, idle w ∧ (r = 0 → registering n bs ((b :: rest) ++ l) w)))).
  { eapply (runs_post t _ _ _ (λ r w, idle w ∧ (r = 0 → registering n bs (rest ++ b :: l) w))).
    - apply IH. intros b' Hb'. apply Hrest. by right.
    - intros r w [Hi Hc]. split; [done|]. intros Hr. destruct (Hc Hr) as (Hrd & Hn & Hk & Hf).
      split_and!; try done. intros b' Hb'. apply Hf. cbn in Hb'. set_solver. }
  apply (runs_act _ _ _ (registered n bs l b)).
  - apply kept_registering.
  - apply kept_registered.
  - apply acts_register_handle, Hrest. left.
  - intros [e|[[id handles]|]].
    + apply runs_pure; [apply _|]. intros He. by apply Herr.
    + apply (runs_act _ _ _ (λ _, registering n bs (b :: l)));
        [apply kept_registering|intros _; apply kept_registering| |].
      { apply acts_vendor_ready; [any_k|]. by intros w [[] _]. }
      intros r. apply runs_if; intros Hr; [|exact Hgo].
      apply (runs_act _ _ _ (λ _, registering n bs (b :: l)));
        [apply kept_registering|intros _; apply kept_registering| |].
      { apply acts_modify. intros w Hw Hrq Hc. split; [|exact Hc].
        destruct Hc as ((_ & Hcb & Ha & _) & _). apply rstep_cam; try done. cbn. congruence. }
      intros _. eapply runs_pre; [apply Herr; by apply bool_decide_eq_true in Hr|].
      intros w (Hrd & Hn & Hk & Hf). split_and!; try done. intros b' Hb'. apply Hf. by right.
    + exact Hgo.
Qed.

End capture.
