(* ===== verification/CameraSubmit.v ===== *)
(** * Sending a request, closing, dumping

    The end of [capture], once the buffers of the request are registered, and
    the calls of the client that are left, as in CameraCalls.v. *)

From S2P Require Import Prelude Threads CameraH LegacyMeta CameraWrap Camera3 CameraInv.
From S2P Require Import CameraSystem CameraCapture.
From stdpp Require Import gmap.

#[global] Open Scope Z_scope.

Section submit.
  Context {K : Type} `{CameraMetadataApi K} `{!CameraH} `{!CameraTags} `{!CameraPlatform K}.

Abbreviation W := (camera_world K).

(** ** The settings of a request *)

Lemma acts_translate_settings n bs l settings :
  acts (capturing n bs l) (translate_settings settings) (λ _, capturing n bs l).
Proof.
  set (P := capturing n bs l).
  assert (Hk : any_k P) by any_k.
  assert (Hask : ∀ A (m : M K A), acts P (ask m) (λ _, P)) by (intros; by apply acts_ask_any).
  assert (Hret : ∀ A (a : A), acts P (mret a) (λ _, P)) by (intros; by apply acts_ret).
  assert (Hreads : ∀ A (f : W → A), acts P (reads f) (λ _, P)).
  { intros. eapply acts_post; [apply acts_reads|]. by intros a w []. }
  unfold translate_settings.
  apply (acts_bind _ _ (λ _, P)); [apply Hask|]. intros m.
  apply (acts_bind _ _ (λ _, P)); [apply Hreads|]. intros info.
  apply (acts_bind _ _ (λ _, P)); [apply acts_if; intros _; [apply Hret|apply Hask]|].
  intros [ok m1]. apply acts_if; intros _; [apply Hret|].
  apply (acts_bind _ _ (λ _, P)); [apply Hreads|]. intros c. cbv zeta.
  apply (acts_bind _ _ (λ _, P)); [apply acts_cam_plain; [done|]; intros w Hp; exact Hp|].
  intros []. apply (acts_bind _ _ (λ _, P)); [apply Hask|]. intros [r1 m2].
  apply acts_if; intros _; [apply Hret|].
  apply (acts_bind _ _ (λ _, P)); [apply Hask|]. intros [r2 m3].
  apply acts_if; intros _; [apply Hret|].
  apply (acts_bind _ _ (λ _, P)); [apply Hreads|]. intros last.
  apply (acts_bind _ _ (λ _, P)); [apply Hask|]. intros last'.
  apply (acts_bind _ _ (λ _, P)); [apply acts_cam_plain; [done|]; intros w Hp; exact Hp|].
  intros []. apply Hret.
Qed.

Lemma acts_request_settings n bs l settings :
  acts (capturing n bs l) (request_settings settings) (λ _, capturing n bs l).
Proof.
  destruct settings as [p|]; [apply acts_translate_settings|]. cbn [request_settings].
  apply (acts_bind _ _ (λ _, capturing n bs l)).
  { eapply acts_post; [apply acts_reads|]. by intros a w []. }
  intros last. apply acts_if; intros _; by apply acts_ret.
Qed.

(** ** The frame *)

Definition converted_for n bs (rest vs : list camera3_stream_buffer) (w : W) : Prop :=
  capturing n bs bs w ∧ length vs = length rest.

Lemma acts_vendor_buffers n bs rest :
  (∀ b, b ∈ rest → b ∈ bs) →
  acts (capturing n bs bs) (vendor_buffers rest) (converted_for n bs rest).
Proof.
  induction rest as [|b rest IH]; intros Hrest; cbn [vendor_buffers]; [by apply acts_ret|].
  intros w Hw Hr Hc. rewrite bind_run. unfold reads. cbn [fst snd].
  destruct Hc as (Hrd & Hn & Hk & Hf).
  destruct (Hf b ltac:(apply Hrest; left)) as (s & Hs & [ref Href]). rewrite Hs, Href.
  rewrite bind_run.
  assert (Hrest' : acts (capturing n bs bs) (vendor_buffers rest) (converted_for n bs rest)).
  { apply IH. intros b' Hb'. apply Hrest. by right. }
  apply (acts_bind _ _ _ _ (converted_for n bs (b :: rest)) Hrest'); [|done|done|by split_and!].
  - intros vs. apply acts_ret. intros w' [Hc Hl]. split; [done|]. cbn. by rewrite Hl.
Qed.

(** A frame that has not been sent yet. *)
Definition fresh_frame (bs : list camera3_stream_buffer) (f : Frame K) (w : W) : Prop :=
  fr_serial f < w_next w ∧ (∀ m b, (fr_serial f, m, b) ∉ submitted (w_log w)) ∧
  (fr_clientBuffers f = bs ∧ length (fr_vendorBuffers f) = length bs ∧
   fr_returned f = replicate (length bs) false ∧ fr_remaining f = Z.of_nat (length bs) ∧
   fr_metadataDone f = false ∧ fr_shutterDone f = false).

Lemma kept_fresh bs f : kept (fresh_frame bs f).
Proof.
  apply kept_and; [apply kept_next|]. apply kept_and; [|apply kept_pure].
  apply (kept_submitted (λ l, ∀ m b, (fr_serial f, m, b) ∉ l)).
Qed.

Definition made n bs (r : Z + Frame K * vendor_request) (w : W) : Prop :=
  capturing n bs bs w ∧ match r with inl _ => True | inr (f, _) => fresh_frame bs f w end.

Lemma kept_made n bs r : kept (made n bs r).
Proof.
  destruct r as [|[f v]]; (apply kept_and; [apply kept_capturing|]); [apply kept_pure|apply kept_fresh].
Qed.

Lemma acts_make_frame n bs request :
  acts (capturing n bs bs) (make_frame request bs) (made n bs).
Proof.
  unfold make_frame.
  apply (acts_bind _ _ (λ _, capturing n bs bs)); [apply acts_request_settings|].
  intros [e|m]; [by apply acts_ret|].
  apply (acts_bind _ _ (converted_for n bs bs)); [by apply acts_vendor_buffers|].
  intros vs w Hw Hr [Hc Hl]. rewrite bind_run. cbn.
  split; [by apply rstep_next|]. split; [exact Hc|]. split_and!; cbn; try done; [lia|].
  intros k b Hin. apply (ac_fresh _ _ _ _ (iv_accounts w Hw)) in Hin. lia.
Qed.

Lemma acts_insert_frame n bs f :
  Z.of_nat (length bs) < 2 ^ 32 →
  acts (λ w, capturing n bs bs w ∧ fresh_frame bs f w) (insert_frame n f) (λ _, ready).
Proof.
  intros Hsize w Hw Hr [(Hrd & Hn & _) (Hnext & Hnew & Hcl & Hv & Hret & Hrem & Hmd & Hsh)].
  unfold insert_frame. rewrite bind_run. unfold reads. cbn [fst snd]. rewrite Hn.
  pose proof Hrd as (_ & Hcb & Ha & Hb). rewrite bind_run.
  split.
  - apply (rstep_frames (set_frames (<[n := f]> (c_frames (w_cam w))))
             [LSubmitted (fr_serial f) n (fr_clientBuffers f)] w); try done. intros [Hacc _ _ _ _ _].
    cbn. rewrite <- Hcl in *. by apply accounts_insert.
  - destruct Hrd as (Hvn & _). split_and!; try done. intros h. cbn.
    rewrite log_balance_app, Hb. unfold log_balance. rewrite !count_cons. cbn.
    change (count _ []) with 0. lia.
Qed.

(** A frame changes, but its buffers do not. *)
Lemma acts_alter_frame g n :
  (∀ f : Frame K, same_buffers f (g f)) → (∀ log (f : Frame K), noted_in log f (g f)) →
  acts ready (modify_cam (λ c, set_frames (alter g n (c_frames c)) c)) (λ _, ready).
Proof.
  intros Hg Hno. apply acts_modify. intros w Hw Hr Hrd. split; [|exact Hrd].
  destruct Hrd as (_ & Hcb & Ha & _).
  replace w with (add_log [] w) at 2 by (unfold add_log; rewrite app_nil_r; by destruct w).
  apply rstep_frames; try done. intros [Hacc _ _ _ _ _]. cbn. rewrite app_nil_r.
  by apply accounts_alter.
Qed.

Lemma unlock_noted request log (f : Frame K) : noted_in log f (unlock_settings request f).
Proof. unfold unlock_settings. destruct (vr_settings request); split; by left. Qed.

Lemma unlock_same request (f : Frame K) : same_buffers f (unlock_settings request f).
Proof. unfold unlock_settings. destruct (vr_settings request); by split_and!. Qed.

Lemma acts_erase_frame n : acts ready (erase_frame n) (λ _, ready).
Proof.
  intros w Hw Hr Hrd. unfold erase_frame. rewrite bind_run. unfold reads. cbn [fst snd].
  rewrite bind_run. pose proof Hrd as (Hvn & Hcb & Ha & Hb).
  set (l := match c_frames (w_cam w) !! n with Some f => [LRefused (fr_serial f)] | None => [] end).
  split.
  - apply (rstep_frames (λ c, notify_drained (set_frames (delete n (c_frames (w_cam w))) c)) l w);
      try done. intros [Hacc _ _ _ _ _]. cbn. unfold l.
    destruct (c_frames (w_cam w) !! n) as [f|] eqn:Hf.
    + apply (accounts_drop _ _ _ _ _ n f); [done|by left|done].
    + by rewrite delete_id, app_nil_r.
  - split_and!; try done. intros h. cbn. rewrite log_balance_app, Hb. unfold l.
    destruct (c_frames (w_cam w) !! n) as [f|]; unfold log_balance; rewrite ?count_cons; cbn;
      change (count _ []) with 0; lia.
Qed.

Lemma runs_submit t request bs :
  Z.of_nat (length bs) < 2 ^ 32 →
  runs t (owns t (capturing (cr_frame_number request) bs bs)) (submit request bs)
    (λ _ : Z, owns t idle).
Proof.
  intros Hsize. unfold submit. set (n := cr_frame_number request).
  apply (runs_act _ _ _ (made n bs)); [apply kept_capturing|apply kept_made|apply acts_make_frame|].
  intros [e|[f v]].
  { apply (runs_ret t _ _ (λ _, idle)); [apply kept_made|]. intros w [Hc _].
    by eapply capturing_idle. }
  apply (runs_act _ _ _ (λ _, ready));
    [apply (kept_made n bs (inr (f, v)))|intros _; apply kept_ready|by apply acts_insert_frame|].
  intros _. apply (runs_act _ _ _ (λ _, ready)); [apply kept_ready|intros _; apply kept_ready| |].
  { apply acts_vendor_ready; [any_k|]. by intros w []. }
  intros r. apply (runs_act _ _ _ (λ _, ready)); [apply kept_ready|intros _; apply kept_ready| |].
  { apply acts_alter_frame; [apply unlock_same|apply unlock_noted]. }
  intros _. apply (runs_bind _ _ _ (λ _, owns t ready)).
  - apply runs_if; intros _.
    + apply (runs_last t _ _ (λ _, ready)); [apply kept_ready|intros _; apply kept_ready|].
      apply acts_erase_frame.
    + apply (runs_ret t _ _ (λ _, ready)); [apply kept_ready|done].
  - intros _. apply (runs_ret t _ _ (λ _, idle)); [apply kept_ready|apply ready_idle].
Qed.

(** ** capture *)

(** The device has passed its first test and has no frame [n]. *)
Definition accepting (n : Z) (w : W) : Prop := ready w ∧ c_frames (w_cam w) !! n = None.

(** The same while the thread may sleep. *)
Definition accepting_asleep (n : Z) (bs : list camera3_stream_buffer) (w : W) : Prop :=
  c_vendor (w_cam w) ≠ None ∧ c_clientCallbacks (w_cam w) = true ∧ balanced w ∧
  c_frames (w_cam w) !! n = None ∧
  (∀ b, b ∈ bs → is_Some (c_streams (w_cam w) !! sb_stream b)).

Lemma kept_accepting_asleep n bs : kept (accepting_asleep n bs).
Proof.
  apply kept_and; [apply (kept_vendor (.≠ None))|]. apply kept_and.
  { intros w w' _ _ Hc [] _. congruence. }
  apply kept_and; [apply kept_balanced|]. apply kept_and; [apply kept_absent|].
  apply (kept_streams (λ s, ∀ b, b ∈ bs → is_Some (s !! sb_stream b))).
Qed.

(** What the test of the buffers has found. *)
Definition checked n bs (r : option (list Z * bool)) (w : W) : Prop :=
  match r with
  | None => idle w
  | Some (_, true) => capturing n bs [] w
  | Some (_, false) => capturing n bs bs w
  end.

Lemma kept_checked n bs r : kept (checked n bs r).
Proof. destruct r as [[l []]|]; [apply kept_capturing|apply kept_capturing|apply kept_idle]. Qed.

Lemma acts_check n bs :
  acts (accepting n) (reads (λ w, check_buffers (c_streams (w_cam w)) bs [] false)) (checked n bs).
Proof.
  intros w Hw Hr [Hrd Hn]. unfold reads. cbn [fst snd]. split; [apply rstep_refl|].
  destruct (check_buffers _ bs [] false) as [[l new]|] eqn:Hc; [|by apply ready_idle].
  apply check_buffers_spec in Hc as [Hk Hf]. unfold checked. destruct new.
  - split_and!; try done. intros b Hb. by apply elem_of_nil in Hb.
  - destruct (Hf eq_refl) as [_ Hall]. by split_and!.
Qed.

Lemma registering_capturing n bs l w : registering n bs l w → capturing n bs l w.
Proof. intros (Hr & Hn & Hk). split_and!; [done|by rewrite Hn, lookup_empty|apply Hk|apply Hk]. Qed.

Lemma runs_drain_register t n bs :
  runs t (owns t (capturing n bs []))
    (drained ← drain; if bool_decide (drained ≠ 0) then mret drained else register_buffers bs)
    (λ r, owns t (λ w, idle w ∧ (r = 0 → capturing n bs bs w))).
Proof.
  apply (runs_pre t _ (accepting_asleep n bs)).
  2: { intros w ((Hv & Hc & _ & Hb) & Hn & Hk & _). by split_and!. }
  apply (runs_bind _ _ _ (λ r, owns t (λ w, capturing n bs [] w ∧ (r = 0 → no_frames w)))).
  - eapply runs_post; [apply runs_drain; [apply kept_accepting_asleep|by intros w b]|].
    intros r w [[(Hv & Hc & Hb & Hn & Hk) Ha] Hnf]. split; [|done]. split; [done|].
    split_and!; try done. intros b Hin. by apply elem_of_nil in Hin.
  - intros r. apply runs_if; intros Hr.
    + apply (runs_ret t _ _ (λ r w, idle w ∧ (r = 0 → capturing n bs bs w))).
      * apply kept_and; [apply kept_capturing|apply kept_impl, kept_no_frames].
      * intros w [Hc _]. split; [by eapply capturing_idle|]. by apply bool_decide_eq_true in Hr.
    + apply bool_decide_eq_false, dec_stable in Hr. apply (runs_pre t _ (registering n bs [])).
      2: { intros w [(Hrd & Hn & Hk & Hl) Hnf]. split_and!; auto. }
      eapply runs_post; [by apply runs_register_buffers|].
      intros r' w [Hi Hc]. split; [done|]. intros Hr'. rewrite app_nil_r in Hc.
      by apply registering_capturing, Hc.
Qed.

(** The number of buffers of a request is an [unsigned]. *)
Definition request_fits (request : option capture_request) : Prop :=
  match request with
  | Some r => Z.of_nat (length (default [] (cr_output_buffers r))) < 2 ^ 32
  | None => True
  end.

Lemma runs_capture t request :
  request_fits request → runs t (λ _, True) (capture t request) (λ _ _, True).
Proof.
  intros Hfits.
  assert (Hret : runs t (λ _ : W, True) (mret (- EINVAL)) (λ _ _, True)).
  { apply sat_ret; [by intros w w'|done]. }
  unfold capture.
  destruct request as [[n settings [] [[|b bs]|]]|]; try exact Hret.
  cbn in Hfits. set (buffers := b :: bs). set (request := CaptureRequest n settings false (Some buffers)).
  apply (runs_with_request t (λ _, True) _ (λ _, True)); [by intros w w'|].
  apply (runs_pre t _ idle); [|by intros w []].
  apply (runs_post t _ _ _ (λ _, idle)); [|done].
  apply (runs_act _ _ _ (λ r w, match r with Some _ => idle w | None => accepting n w end)).
  - apply kept_idle.
  - intros [e|]; [apply kept_idle|]. apply kept_and; [apply kept_ready|apply kept_absent].
  - intros w Hw Hr Hi. pose proof Hi as (Hv & Ha & Hb). unfold reads. cbn [fst snd].
    split; [apply rstep_refl|]. unfold device_dead. destruct (c_fatal (w_cam w)) eqn:Hf; [done|].
    destruct (c_closing (w_cam w)) eqn:Hc; [done|].
    destruct (c_clientCallbacks (w_cam w)) eqn:Hcb; [|done]. cbn.
    case_bool_decide as Hn; [done|]. split; [|by apply eq_None_not_Some].
    split_and!; try done. intros Hn'. destruct (Hv Hn') as [|[]]; congruence.
  - intros [e|]; [apply (runs_ret t _ _ (λ _, idle)); [apply kept_idle|done]|].
    apply (runs_act _ _ _ (checked n buffers));
      [apply kept_and; [apply kept_ready|apply kept_absent]|apply kept_checked|apply acts_check|].
    intros [[l new]|]; [|apply (runs_ret t _ _ (λ _, idle)); [apply kept_idle|done]].
    apply (runs_bind _ _ _ (λ r, owns t (λ w, idle w ∧ (r = 0 → capturing n buffers buffers w)))).
    + destruct new; [apply runs_drain_register|].
      apply (runs_ret t _ _ (λ r w, idle w ∧ (r = 0 → capturing n buffers buffers w)));
        [apply kept_capturing|]. intros w Hc. split; [by eapply capturing_idle|done].
    + intros r.
      assert (Hkq : kept (K := K) (λ w, idle w ∧ (r = 0 → capturing n buffers buffers w)))
        by (apply kept_and; [apply kept_idle|apply kept_impl, kept_capturing]).
      apply runs_if; intros Hr.
      * apply (runs_ret t _ _ (λ _, idle)); [done|]. by intros w [].
      * apply bool_decide_eq_false, dec_stable in Hr.
        eapply runs_pre; [by apply runs_submit|]. intros w [_ Hc]. by apply Hc.
Qed.

(** ** close *)

(** The device is closing. *)
Definition shutting (w : W) : Prop :=
  c_closing (w_cam w) = true ∧ c_asleep (w_cam w) = false ∧ balanced w.

Lemma kept_shutting : kept shutting.
Proof.
  apply kept_and; [by intros w w' _ _ Hc [] _; rewrite sr_closing|].
  apply kept_and; [by intros w w' _ _ Ha [] _; auto|apply kept_balanced].
Qed.

Lemma shutting_idle w : shutting w → idle w.
Proof. intros (Hc & Ha & Hb). split_and!; [by left|done|done]. Qed.

(** A device that has been closed. *)
Definition empty_device (w : W) : Prop :=
  c_closing (w_cam w) = true ∧ c_streams (w_cam w) = ∅ ∧ c_failedStreams (w_cam w) = [] ∧
  no_frames w.

Lemma kept_empty_device : kept empty_device.
Proof.
  apply kept_and; [by intros w w' _ _ Hc [] _; rewrite sr_closing|].
  apply kept_and; [apply (kept_streams (.= ∅))|].
  apply kept_and; [|apply kept_no_frames]. intros w w' _ _ Hc [] _. congruence.
Qed.

Lemma abandoned_quiet h frames : log_balance h (abandoned (K := K) frames) = 0.
Proof.
  unfold abandoned. induction (map_to_list frames) as [|[n f] l IH]; [done|].
  unfold log_balance in *. cbn. rewrite !count_cons. cbn in IH |- *. exact IH.
Qed.

Lemma held_none h : held h ∅ [] = 0.
Proof. unfold held, streams_handles. by rewrite map_to_list_empty. Qed.

Lemma kept_owing_empty l : kept (λ w, owing l w ∧ empty_device w).
Proof. apply kept_and; [apply kept_owing|apply kept_empty_device]. Qed.

Lemma acts_unregister_empty l :
  acts (λ w, owing l w ∧ empty_device w) (unregister_all l) (λ _ w, idle w ∧ empty_device w).
Proof.
  intros w Hw Hr [Ho He]. destruct (acts_unregister_all l w Hw Hr Ho) as [Hs Hi].
  split; [done|]. split; [done|]. clear Ho Hs Hi Hw Hr. revert w He.
  induction l as [|h l IH]; intros w He; [done|]. cbn [unregister_all]. rewrite !bind_run.
  apply IH. unfold ask. by destruct (unregisterBuffer h (w_k w)).
Qed.

Lemma acts_clear_device : acts shutting clear_device (λ _ w, idle w ∧ empty_device w).
Proof.
  intros w Hw Hr (Hc & Ha & Hb). unfold clear_device. rewrite bind_run. unfold reads. cbn [fst snd].
  rewrite !bind_run.
  set (l := streams_handles _ ++ _).
  set (g := λ c : Camera K, set_failed [] (set_streams ∅ (set_frames ∅ c))).
  set (w1 := upd_cam g (add_log (abandoned (c_frames (w_cam w))) w)).
  assert (Hs : rstep w w1).
  { apply rstep_frames; try done.
    - intros [Hacc _ _ _ _ _]. by apply accounts_clear.
    - intros Hw' Hsub. apply (iv_client w Hw'). intros Hn. apply Hsub.
      rewrite submitted_app, Hn. cbn. unfold abandoned.
      induction (map_to_list _) as [|[n f] k IH]; [done|exact IH]. }
  assert (Hx : rstep w1 (unregister_all l w1).2 ∧
               idle (unregister_all l w1).2 ∧ empty_device (unregister_all l w1).2).
  { apply acts_unregister_empty; [by apply Hs|done|]. split; [|done].
    split_and!; [by left|done|]. intros h. cbn. rewrite log_balance_app, abandoned_quiet, Hb.
    rewrite held_none. unfold held, l. rewrite occurrences_app. lia. }
  destruct Hx as [Hs' Hp]. split; [by eapply rstep_trans|exact Hp].
Qed.

Lemma runs_close t : runs t (λ _, True) (close t) (λ _ _, True).
Proof.
  unfold close. apply (runs_with_request t (λ _, True) _ (λ _, True)); [by intros w w'|].
  apply (runs_pre t _ idle); [|by intros w []].
  apply (runs_post t _ _ _ (λ _, idle)); [|done].
  apply (runs_act _ _ _ (λ _, shutting)); [apply kept_idle|intros _; apply kept_shutting| |].
  { apply acts_modify. intros w Hw Hr (Hv & Ha & Hb). split; [|by split_and!].
    apply rstep_cam; try done; [cbn; congruence|apply (iv_client w Hw)]. }
  intros _. apply (runs_act _ _ _ (λ _, shutting)); [apply kept_shutting|intros _; apply kept_shutting| |].
  { apply acts_close_vendor; [any_k|by intros w (_ & Ha & _)|by intros w r|done]. }
  intros r. apply (runs_act _ _ _ (λ _ w, idle w ∧ empty_device w)); [apply kept_shutting| | |].
  - intros _. apply kept_and; [apply kept_idle|apply kept_empty_device].
  - apply acts_clear_device.
  - intros _. apply (runs_ret t _ _ (λ _, idle)); [|by intros w []].
    apply kept_and; [apply kept_idle|apply kept_empty_device].
Qed.

(** ** dump *)

Lemma runs_try_lock t :
  runs t (λ _, True) (try_lock_request t) (λ ok w, if ok : bool then owns t idle w else True).
Proof.
  unfold try_lock_request.
  apply (sat_act _ _ _ _ _ _ (λ ok w, if ok : bool then owns t idle w else True)).
  - by intros w w'.
  - intros choice w Hw _. destruct (w_request w) as [o|] eqn:Hr; cbn.
    + split_and!; [done| |done]. split; auto; [apply keeps_refl|intros _; apply same_request_refl].
    + pose proof (rstep_like_lock w (Some t) ltac:(done)) as (Hi & Hk & Hs).
      split_and!; [by apply Hi|by split; cbn; auto|]. split; [done|].
      destruct (iv_request w Hw Hr) as (Hv & Ha & Hb). by split_and!.
  - intros [].
    + apply sat_ret; [apply owns_stable, kept_idle|done].
    + by apply sat_ret.
Qed.

Lemma idle_note l w : Forall quiet l → (∀ h, log_balance h l = 0) → idle w → idle (add_log l w).
Proof.
  intros Hq Hl (Hv & Ha & Hb). split_and!; try done. intros h. cbn.
  rewrite log_balance_app, Hl, Hb. lia.
Qed.

Lemma runs_dump t : runs t (λ _, True) (dump t) (λ _ _, True).
Proof.
  unfold dump. apply (runs_bind _ _ _ (λ ok w, if ok : bool then owns t idle w else True));
    [apply runs_try_lock|].
  assert (Hquiet : ∀ line, Forall quiet [LDump line]) by by repeat constructor.
  intros [].
  - cbn [negb]. apply (runs_bind _ _ _ (λ _, owns t idle)).
    { apply (sat_act _ _ _ _ _ _ (λ _, owns t idle)); [apply owns_stable, kept_idle| |].
      - intros busy w Hw [Ht Hi]. unfold dump_state.
        assert (Hgo : ∀ line, Inv (add_log [LDump line] w) ∧ guar t w (add_log [LDump line] w) ∧
                              owns t idle (add_log [LDump line] w)).
        { intros line. pose proof (rstep_note [LDump line] w (Hquiet line) ltac:(congruence)) as Hs.
          split_and!; [by apply Hs|by apply rstep_guar|]. split; [done|].
          by apply idle_note. }
        destruct busy; cbn; apply Hgo.
      - intros ok. apply (runs_ret t _ _ (λ _, idle)); [apply kept_idle|done]. }
    intros ok. apply (runs_bind _ _ _ (λ _, owns t idle)).
    + apply runs_if; intros _; [|apply (runs_ret t _ _ (λ _, idle)); [apply kept_idle|done]].
      apply (runs_act _ _ _ (λ _, idle)); [apply kept_idle|intros _; apply kept_idle| |].
      { eapply acts_post; [apply acts_reads|]. by intros a w []. }
      intros [d|]; [|apply (runs_ret t _ _ (λ _, idle)); [apply kept_idle|done]].
      apply runs_if; intros _; [|apply (runs_ret t _ _ (λ _, idle)); [apply kept_idle|done]].
      apply (runs_last t _ _ (λ _, idle)); [apply kept_idle|intros _; apply kept_idle|].
      apply acts_ask_any; any_k.
    + intros _. eapply sat_pre; [apply (runs_unlock t True)|]. intros w _ [Ht Hi]. by split.
  - cbn [negb]. apply sat_atomic; [by intros w w'|by intros a w w'|].
    intros w Hw _. pose proof (cstep_note [LDump RequestBusy] w (Hquiet _) (λ h, eq_refl)) as Hs.
    split_and!; [by apply Hs| |done]. apply cstep_guar; [by right|exact Hs].
Qed.

End submit.
