(* ===== verification/CameraRuns.v ===== *)
(** * The stock library's callbacks

    What a callback does under [callbackMutex]: what it takes from a frame is on
    its way to the client until the client has it, and only then may the frame
    be retired. *)

From S2P Require Import Prelude Threads CameraH LegacyMeta CameraWrap Camera3 CameraInv.
From S2P Require Import CameraSystem CameraCapture CameraSubmit.
From stdpp Require Import gmap.

#[global] Open Scope Z_scope.

Section callbacks.
  Context {K : Type} `{CameraMetadataApi K} `{!CameraH} `{!CameraTags} `{!CameraPlatform K}.

Abbreviation W := (camera_world K).

(** ** Steps *)

(** What a callback leaves as it is. *)
Record in_flight (w w' : W) : Prop := {
  if_vendor : c_vendor (w_cam w') = c_vendor (w_cam w);
  if_callbacks : c_clientCallbacks (w_cam w') = c_clientCallbacks (w_cam w);
  if_streams : c_streams (w_cam w') = c_streams (w_cam w);
  if_failed : c_failedStreams (w_cam w') = c_failedStreams (w_cam w);
  if_templates : c_templates (w_cam w') = c_templates (w_cam w);
  if_closing : c_closing (w_cam w') = c_closing (w_cam w);
  if_clients : w_clients w' = w_clients w;
  if_request : w_request w' = w_request w;
  if_callback : w_callback w' = w_callback w;
  if_next : w_next w' = w_next w;
  if_faults : w_faults w' = w_faults w
}.

Lemma cstep_flight l w w' :
  in_flight w w' → w_log w' = w_log w ++ l → submitted l = [] → (∀ h, log_balance h l = 0) →
  (∀ n, c_frames (w_cam w) !! n = None → c_frames (w_cam w') !! n = None) →
  (c_fatal (w_cam w) = true → c_fatal (w_cam w') = true) →
  (c_asleep (w_cam w) = false → c_asleep (w_cam w') = false) →
  (Inv w → c_asleep (w_cam w') = true → c_frames (w_cam w') ≠ ∅ ∧ c_fatal (w_cam w') = false) →
  w_callback w ≠ None →
  (Inv w → accounts (c_frames (w_cam w')) (w_log w') (w_pending w') (w_next w)) →
  cstep w w'.
Proof.
  intros Hf Hl Hs Hb Hn Hfa Has Has' Hcb Hacc. destruct Hf.
  assert (Hsub : submitted (w_log w') = submitted (w_log w))
    by by rewrite Hl, submitted_app, Hs, app_nil_r.
  assert (Hsame : same_request w w').
  { split; try done. intros h. rewrite Hl, log_balance_app, Hb. lia. }
  assert (Hkeeps : keeps w w').
  { split; try done; [by exists l|congruence|by rewrite if_templates0|lia|by rewrite if_clients0]. }
  split; try done. intros Hw. pose proof (Hacc Hw). pose proof (Has' Hw). destruct Hw.
  split; try done.
  - by rewrite if_next0.
  - intros x. rewrite if_faults0, if_closing0. auto.
  - rewrite if_callback0. done.
  - rewrite if_request0. intros Hr. by eapply idle_same; [exact Hsame| |apply iv_request].
  - by rewrite Hsub, if_callbacks0.
Qed.

(** [cacts P m Q]: run with [callbackMutex] from [P], the action [m] is such a
    step and ends in [Q]. *)
Definition cacts {A} (P : W → Prop) (m : M W A) (Q : A → W → Prop) : Prop :=
  ∀ w, Inv w → w_callback w ≠ None → P w → cstep w (m w).2 ∧ Q (m w).1 (m w).2.

Definition calls (t : nat) (P : W → Prop) : W → Prop := λ w, w_callback w = Some t ∧ P w.

(** What is on its way, and lasting facts. *)
Definition carrying (l : list (Z * option nat)) (P : W → Prop) (w : W) : Prop :=
  w_pending w = l ∧ P w.

Lemma carrying_stable t l P : steady P → stable Inv (others guar t) (calls t (carrying l P)).
Proof.
  intros HP w w' Hw Hw' (Ht & Hl & Hp) (j & Hj & []).
  assert (Hne : w_callback w ≠ Some j) by congruence.
  split; [|split; [rewrite gu_pending; done|by apply (HP w)]].
  destruct gu_callback as [->|[[He _]|[He _]]]; congruence.
Qed.

Lemma carried_act {A B} t l P (m : M W A) l' P' (g : A → proc W B) Q :
  steady P → (∀ a, steady (P' a)) →
  cacts (carrying l P) m (λ a, carrying (l' a) (P' a)) →
  (∀ a, runs t (calls t (carrying (l' a) (P' a))) (g a) Q) →
  runs t (calls t (carrying l P)) (atomic m ≫= g) Q.
Proof.
  intros HP HP' Hm Hg. apply (runs_bind _ _ _ (λ a, calls t (carrying (l' a) (P' a)))); [|done].
  apply sat_atomic; [by apply carrying_stable|intros a; by apply carrying_stable|].
  intros w Hw [Ht Hp]. destruct (Hm w Hw) as [Hs HQ]; [congruence|done|].
  split_and!; [by apply Hs|apply cstep_guar; [by left|done]|]. split; [|done].
  destruct Hs. congruence.
Qed.

Lemma carried_ret {A} t l P (a : A) l' (P' : W → Prop) :
  steady P → l = l' → (∀ w, P w → P' w) →
  runs t (calls t (carrying l P)) (mret a) (λ _, calls t (carrying l' P')).
Proof.
  intros HP <- HP'. apply sat_ret; [by apply carrying_stable|].
  intros w _ (Ht & Hl & Hp). split; [done|]. split; auto.
Qed.

Lemma steady_true : steady (λ _ : W, True).
Proof. by intros w w'. Qed.

(** ** The mutex *)

Lemma lock_guar t w : w_callback w = None → Inv w → guar t w (set_callback (Some t) w) ∧ Inv (set_callback (Some t) w).
Proof.
  intros Hc Hw. assert (Hk : keeps w (set_callback (Some t) w)).
  { split; cbn; try done. exists []. by rewrite app_nil_r. }
  split; [split; cbn; auto; by intros _|]. destruct Hw. by split.
Qed.

Lemma runs_lock_callback t P :
  steady P → runs t P (lock_callback t) (λ _, calls t (carrying [] P)).
Proof.
  intros HP. unfold lock_callback.
  apply (sat_act _ _ _ _ _ _ (λ _ : unit, calls t (carrying [] P))); [by apply steady_stable| |].
  - intros choice w Hw Hp. destruct (w_callback w) as [o|] eqn:Hc; cbn.
    + split_and!; [done| |done]. split; auto; [apply keeps_refl|intros _; apply same_request_refl].
    + destruct (lock_guar t w Hc Hw) as [Hg Hi]. split_and!; [done|done|]. split; [done|].
      split; [by apply (iv_callback w Hw)|]. by apply (HP w); [done|done|apply Hg|].
  - intros []. apply sat_ret; [by apply carrying_stable|done].
Qed.

Lemma runs_unlock_callback t P :
  steady P → runs t (calls t (carrying [] P)) unlock_callback (λ _ _, True).
Proof.
  intros HP. unfold unlock_callback. apply sat_atomic; [by apply carrying_stable|by intros a w w'|].
  intros w Hw (Ht & Hl & Hp). cbn.
  assert (Hk : keeps w (set_callback None w)).
  { split; cbn; try done. exists []. by rewrite app_nil_r. }
  split_and!; [|split; cbn; auto; by intros _|done]. destruct Hw. by split.
Qed.

Lemma runs_with_callback t P (body : proc W unit) :
  steady P →
  runs t (calls t (carrying [] P)) body (λ _, calls t (carrying [] (λ _, True))) →
  runs t P (with_callback t body) (λ _ _, True).
Proof.
  intros HP Hbody. unfold with_callback.
  eapply runs_bind; [by apply runs_lock_callback|]. intros [].
  eapply runs_bind; [exact Hbody|]. intros []. cbv beta.
  eapply (runs_bind _ _ _ (λ _ _, True)); [apply runs_unlock_callback, steady_true|].
  intros []. apply sat_ret; [by intros w w'|done].
Qed.

(** ** Talking to the client *)

(** A request has been accepted. *)
Definition requested (w : W) : Prop := submitted (w_log w) ≠ [].

Lemma steady_requested : steady requested.
Proof.
  intros w w' _ _ [[l Hl] _ _ _ _ _] Hp. unfold requested in *. rewrite Hl, submitted_app.
  destruct (submitted (w_log w)); [done|]. by destruct (submitted l).
Qed.

(** The request of serial number [s] was accepted with these buffers. *)
Definition accepted (x : Z * Z * list camera3_stream_buffer) (w : W) : Prop :=
  x ∈ submitted (w_log w).

Lemma steady_accepted x : steady (accepted x).
Proof.
  intros w w' _ _ [[l Hl] _ _ _ _ _] Hp. unfold accepted in *. rewrite Hl, submitted_app.
  apply elem_of_app. by left.
Qed.

Lemma accepted_requested x w : accepted x w → requested w.
Proof. intros Hx Hn. unfold accepted in Hx. rewrite Hn in Hx. by apply elem_of_nil in Hx. Qed.

Lemma cacts_client_notify message l P :
  (∀ w, P w → requested w) → steady P →
  cacts (carrying l P) (client_notify message) (λ _, carrying l P).
Proof.
  intros Hreq HP w Hw Hc [Hl Hp]. unfold client_notify. rewrite bind_run. unfold reads. cbn [fst snd].
  rewrite (iv_client w Hw) by by apply Hreq.
  pose proof (cstep_note [LNotify message] w ltac:(by repeat constructor) (λ h, eq_refl)) as Hs.
  split; [exact Hs|]. split; [done|]. apply (HP w); [done|by apply Hs|apply Hs|done].
Qed.

Lemma cacts_client_result n fc b :
  items fc ≠ [] → outputs_ok b (fc_output fc) →
  cacts (carrying (items fc) (accepted (fc_serial fc, n, b))) (client_result n fc)
    (λ _, carrying [] (λ _, True)).
Proof.
  intros Hne Ho w Hw Hc [Hl Hp]. unfold client_result. rewrite !bind_run. unfold reads. cbn [fst snd modify].
  cbn [w_cam set_carried]. rewrite (iv_client w Hw) by by eapply accepted_requested.
  split; [|done].
  eapply (cstep_flight [LResult _ _ _ _ _]); try done.
  - by intros Hw'; apply (iv_asleep w Hw').
  - intros Hw'. cbn. apply (accounts_result _ _ _ _ _ _ b); [done|exact Hp|done|].
    rewrite <- Hl. apply (iv_accounts w Hw').
Qed.

Lemma cacts_retire n : cacts (carrying [] (λ _, True)) (retire n) (λ _, carrying [] (λ _, True)).
Proof.
  intros w Hw Hc [Hl _]. unfold retire. rewrite bind_run. unfold reads. cbn [fst snd].
  destruct (c_frames (w_cam w) !! n) as [f|] eqn:Hf; [|split; [apply cstep_refl|done]].
  destruct (bool_decide (fr_remaining f = 0) && fr_metadataDone f && fr_shutterDone f) eqn:Hd;
    [|split; [apply cstep_refl|done]].
  apply andb_prop in Hd as [[Hz%bool_decide_eq_true Hmd]%andb_prop Hsh].
  rewrite bind_run. split; [|done].
  eapply (cstep_flight [LRetired _]); try done.
  - intros m Hm. cbn. by apply lookup_delete_None; right.
  - intros Hw'. cbn. rewrite Hl. apply accounts_retire; [done..|]. rewrite <- Hl.
    apply (iv_accounts w Hw').
Qed.

(** ** result *)

(** What the stock library says goes into the log. *)
Lemma stock_news_quiet m s o : Forall quiet (stock_news m s o).
Proof. destruct o; [|constructor]. by destruct m, s; repeat constructor. Qed.

Lemma stock_news_balance m s o h : log_balance h (stock_news m s o) = 0.
Proof. destruct o; [|done]. by destruct m, s. Qed.

Lemma stock_news_in m s (f : Frame K) log :
  (m = true → LMetadataEnd (fr_serial f) ∈ log ++ stock_news m s (Some f)) ∧
  (s = true → LShutterEnd (fr_serial f) ∈ log ++ stock_news m s (Some f)).
Proof. split; intros ->; apply elem_of_app; right; [left|apply elem_of_app; right; left]. Qed.

(** What the metadata of a result do to its frame. *)
Definition metadata_taken (f f1 : Frame K) (metadata : option md) (ends : bool) : Prop :=
  (fr_serial f1 = fr_serial f ∧ fr_clientBuffers f1 = fr_clientBuffers f ∧
   fr_vendorBuffers f1 = fr_vendorBuffers f ∧ fr_returned f1 = fr_returned f) ∧
  fr_remaining f1 = fr_remaining f ∧
  (metadata ≠ None → fr_metadataDone f = false ∧ fr_metadataDone f1 = true) ∧
  (fr_metadataDone f1 = false → fr_metadataDone f = false) ∧
  (fr_metadataDone f1 = true → fr_metadataDone f = true ∨ ends = true) ∧
  fr_shutterDone f1 = fr_shutterDone f.

Definition with_k (k : K) (w : W) : W :=
  CameraWorld k (w_cam w) (w_clients w) (w_request w) (w_callback w) (w_next w) (w_pending w)
    (w_log w) (w_faults w).

Lemma ask_run {A} (m : M K A) (w : W) : ask m w = ((m (w_k w)).1, with_k (m (w_k w)).2 w).
Proof. unfold ask. by destruct (m (w_k w)). Qed.

Lemma take_metadata_run source f (w : W) :
  ∃ f1 metadata lost k, take_metadata source f w = (f1, metadata, lost, with_k k w) ∧
    metadata_taken f f1 metadata (ends_metadata source lost).
Proof.
  assert (Hid : ∀ e, metadata_taken f f None e) by (intros e; split_and!; auto; done).
  assert (Hw : with_k (w_k w) w = w) by by destruct w.
  unfold take_metadata. destruct source as [p|].
  2: { exists f, None, false, (w_k w). by rewrite Hw. }
  destruct (fr_metadataDone f) eqn:Hd; [exists f, None, false, (w_k w); by rewrite Hw|].
  unfold ends_metadata. destruct (is_partial p).
  - rewrite bind_run, ask_run. destruct (mergeMetadata (fr_partials f) (Some p) (w_k w)) as [[ok m] k].
    cbn [fst snd]. exists (set_metadata m (negb ok) f), None, (negb ok), k. split; [done|].
    split_and!; cbn; auto; done.
  - rewrite bind_run, ask_run. destruct (mergeMetadata md_new (Some p) (w_k w)) as [[ok m] k].
    cbn [fst snd]. rewrite bind_run. destruct ok.
    + rewrite ask_run. cbn [w_k with_k].
      destruct (finishResult m (fr_partials f) k) as [[ok m'] k']. cbn [fst snd].
      eexists _, _, _, k'. split; [done|]. split_and!; cbn; auto; try done.
    + cbn [fst snd]. eexists _, _, _, k. split; [done|]. split_and!; cbn; auto; try done.
Qed.

(** Between the two halves of a result: its parts are on their way to the
    client, who knows the request. *)
Definition underway (n : Z) (o : option for_client) (w : W) : Prop :=
  match o with
  | None => True
  | Some fc => ∃ b, accepted (fc_serial fc, n, b) w ∧ outputs_ok b (fc_output fc)
  end.

Definition on_its_way (o : option for_client) : list (Z * option nat) :=
  match o with Some fc => items fc | None => [] end.

Lemma steady_underway n o : steady (underway n o).
Proof.
  destruct o as [fc|]; [|apply steady_true]. intros w w' Hw Hw' Hk (b & Hb & Ho).
  exists b. split; [|done]. by apply (steady_accepted _ w w').
Qed.

Lemma close_fences_quiet l : Forall quiet (close_fences l).
Proof. unfold close_fences. apply Forall_fmap, Forall_true. done. Qed.

Lemma close_fences_balance h l : log_balance h (close_fences l) = 0.
Proof.
  unfold close_fences, log_balance. induction (filter _ l) as [|x k IH]; [done|].
  rewrite fmap_cons, !count_cons. cbn in IH |- *. exact IH.
Qed.

(** The frame of a result takes what the result brings. *)
Lemma frame_takes frames log next n f f1 metadata ends buffers f' output strange lost :
  frames !! n = Some f → metadata_taken f f1 metadata ends →
  (ends = true → LMetadataEnd (fr_serial f) ∈ log) →
  take_buffers buffers f1 [] [] = (f', output, strange) →
  accounts frames log [] next →
  accounts (<[n := f']> frames) log (items (ForClient (fr_serial f1) lost metadata output)) next ∧
  (fr_serial f1, n, fr_clientBuffers f) ∈ submitted log ∧
  outputs_ok (fr_clientBuffers f) output ∧
  Z.of_nat (length output) <= fr_remaining f1.
Proof.
  intros Hf ((Hs & Hc & Hv & Hr) & Hrem & Hmd & Hmd' & Hend & Hsh) Hlog Htb Hacc.
  pose proof (ac_frame _ _ _ _ Hacc n f Hf) as [Fs Fa Fv Fr Frem Fsz Fseen Fm _ _].
  assert (Ht : taken f1 f' output).
  { eapply (take_buffers_taken buffers f1 f1 [] []); [|congruence|rewrite Hr; lia|exact Htb].
    split; cbn; try done; [congruence|rewrite Hr; lia|constructor| |by intros i x Hin%elem_of_nil].
    by intros i Hin%elem_of_nil. }
  destruct (tk_same _ _ _ Ht) as (_ & _ & _ & Hdone & Hsdone). split_and!.
  - apply (accounts_taken frames log next n f f1 f' (ForClient (fr_serial f1) lost metadata output));
      try done; cbn; rewrite ?Hdone; try done.
    split; [|rewrite Hsdone, Hsh; by left]. rewrite Hdone. intros He. destruct (Hend He); auto.
  - by rewrite Hs.
  - rewrite <- Hc. apply (tk_output _ _ _ Ht).
  - rewrite Hrem, Frem, <- Hr. pose proof (tk_count _ _ _ Ht).
    pose proof (count_bounds negb (fr_returned f')). lia.
Qed.

Lemma cacts_result_section stock :
  cacts (carrying [] (λ _, True)) (result_section stock)
    (λ o, carrying (on_its_way o) (underway (sr_frame stock) o)).
Proof.
  intros w Hw Hc [Hl _]. unfold result_section. rewrite bind_run. unfold reads. cbn [fst snd].
  set (n := sr_frame stock).
  destruct (c_frames (w_cam w) !! n) as [f|] eqn:Hf.
  2: { rewrite bind_run. split; [|done].
       apply cstep_note; [apply close_fences_quiet|intros h; apply close_fences_balance]. }
  rewrite bind_run. destruct (take_metadata_run (sr_metadata stock) f w)
    as (f1 & metadata & lost & k & -> & Hmeta). cbn [fst snd].
  destruct (take_buffers (sr_buffers stock) f1 [] []) as [[f' output] strange] eqn:Htb.
  set (fc := ForClient (fr_serial f1) lost metadata output).
  set (news := stock_news (ends_metadata (sr_metadata stock) lost) false (Some f1)).
  pose proof (stock_news_quiet _ _ _ : Forall quiet news) as Hnews.
  pose proof (iv_accounts w Hw) as Hacc. rewrite Hl in Hacc.
  apply (accounts_quiet _ _ _ _ news Hnews) in Hacc.
  assert (Hin : ends_metadata (sr_metadata stock) lost = true →
                LMetadataEnd (fr_serial f) ∈ w_log w ++ news).
  { destruct Hmeta as ((<- & _) & _). apply stock_news_in. }
  pose proof (quiet_log _ Hnews) as (_ & Hnsq & _).
  destruct (frame_takes _ _ _ _ _ _ _ _ _ _ _ _ lost Hf Hmeta Hin Htb Hacc) as (Hacc' & Hsub & Hout & Hcount).
  rewrite (bool_decide_false (fr_remaining f1 < Z.of_nat (length output))) by lia.
  rewrite submitted_app, Hnsq, app_nil_r in Hsub.
  assert (Hun : ∀ l, underway n (Some fc) (add_log l w)).
  { intros l. exists (fr_clientBuffers f). split; [|done]. unfold accepted. cbn.
    rewrite submitted_app. apply elem_of_app. by left. }
  assert (Hun' : ∀ l, underway n (Some fc) (add_log l (add_log news w))).
  { intros l. exists (fr_clientBuffers f). split; [|done]. unfold accepted. cbn.
    rewrite !submitted_app, !elem_of_app. by left; left. }
  assert (Hkeep : ∀ m, c_frames (w_cam w) !! m = None → <[n := f']> (c_frames (w_cam w)) !! m = None).
  { intros m Hm. rewrite lookup_insert_ne; [done|]. congruence. }
  assert (Hne : <[n := f']> (c_frames (w_cam w)) ≠ ∅) by apply insert_non_empty.
  rewrite !bind_run. destruct (decide (strange = [])) as [Hst|Hst].
  - rewrite (bool_decide_true (strange = [])) by done. split; [|split; [done|exact (Hun news)]].
    apply (cstep_flight news); try done; [intros h; apply stock_news_balance|].
    intros Hw' Ha. split; [done|]. by apply (iv_asleep w Hw').
  - rewrite (bool_decide_false (strange = [])) by done.
    split; [|split; [done|exact (Hun' (close_fences strange))]].
    pose proof (quiet_log _ (close_fences_quiet strange)) as (_ & Hsq & _).
    apply (cstep_flight (news ++ close_fences strange)); try done.
    + cbn. by rewrite app_assoc.
    + rewrite submitted_app, Hnsq. exact Hsq.
    + intros h. unfold news. by rewrite log_balance_app, close_fences_balance, stock_news_balance.
    + intros _. exact (accounts_quiet _ _ _ _ _ (close_fences_quiet strange) Hacc').
Qed.

Lemma runs_client_result t n fc :
  runs t (calls t (carrying (items fc) (underway n (Some fc))))
    (match fc_metadata fc, fc_output fc with
     | None, [] => mret tt
     | _, _ => atomic (client_result n fc)
     end) (λ _, calls t (carrying [] (λ _, True))).
Proof.
  assert (Hgo : items fc ≠ [] → runs t (calls t (carrying (items fc) (underway n (Some fc))))
                  (atomic (client_result n fc)) (λ _, calls t (carrying [] (λ _, True)))).
  { intros Hne. apply sat_atomic; [apply carrying_stable, (steady_underway n (Some fc))|
      intros []; apply carrying_stable, steady_true|].
    intros w Hw (Ht & Hl & b & Hb & Ho).
    destruct (cacts_client_result n fc b Hne Ho w Hw) as [Hs HQ]; [congruence|done|].
    split_and!; [by apply Hs|apply cstep_guar; [by left|done]|]. split; [|done].
    destruct Hs. congruence. }
  destruct (fc_metadata fc) eqn:Hm; [apply Hgo; unfold items; by rewrite Hm|].
  destruct (fc_output fc) as [|[j c] l] eqn:Ho; [|apply Hgo; unfold items; by rewrite Hm, Ho].
  apply (carried_ret t _ _ tt [] (λ _, True)); [apply (steady_underway n (Some fc))| |done].
  unfold items. by rewrite Hm, Ho.
Qed.

Lemma runs_retire t n :
  runs t (calls t (carrying [] (λ _, True))) (atomic (retire n))
    (λ _, calls t (carrying [] (λ _, True))).
Proof.
  apply sat_atomic; [apply carrying_stable, steady_true|intros []; apply carrying_stable, steady_true|].
  intros w Hw [Ht Hl]. destruct (cacts_retire n w Hw) as [Hs HQ]; [congruence|done|].
  split_and!; [by apply Hs|apply cstep_guar; [by left|done]|]. split; [|done].
  destruct Hs. congruence.
Qed.

Lemma runs_result t stock : runs t (λ _, True) (result t stock) (λ _ _, True).
Proof.
  unfold result. apply runs_with_callback; [apply steady_true|].
  apply (carried_act t [] _ _ on_its_way (underway (sr_frame stock)));
    [apply steady_true|apply steady_underway|apply cacts_result_section|].
  intros [fc|].
  2: { by apply (carried_ret t [] (λ _, True) tt [] (λ _, True)); [apply steady_true| |]. }
  set (P := underway (sr_frame stock) (Some fc)).
  assert (HP : steady P) by apply steady_underway.
  apply (runs_bind _ _ _ (λ _, calls t (carrying (items fc) P))).
  - apply runs_if; intros _; [|by apply (carried_ret t (items fc) P tt (items fc) P)].
    apply sat_atomic; [by apply carrying_stable|by intros []; apply carrying_stable|].
    intros w Hw [Ht Hp].
    edestruct (cacts_client_notify (MSG_ERROR (sr_frame stock) 0 CAMERA3_MSG_ERROR_RESULT)
                (items fc) P) as [Hs HQ]; [|done|exact Hw|congruence|exact Hp|].
    { intros w' (b & Hb & _). by eapply accepted_requested. }
    split_and!; [by apply Hs|apply cstep_guar; [by left|done]|]. split; [|done].
    destruct Hs. congruence.
  - intros []. apply (runs_bind _ _ _ (λ _, calls t (carrying [] (λ _, True))));
      [apply runs_client_result|]. intros []. apply runs_retire.
Qed.

(** ** notify *)

Lemma set_done_same m s (f : Frame K) : same_buffers f (set_done m s f).
Proof. split_and!; try done. cbn. by destruct (fr_metadataDone f). Qed.

Lemma cstep_alter m s n w w' :
  in_flight w w' → w_log w' = w_log w ++ stock_news m s (c_frames (w_cam w) !! n) →
  w_pending w' = w_pending w →
  c_frames (w_cam w') = alter (set_done m s) n (c_frames (w_cam w)) →
  (c_fatal (w_cam w') = c_fatal (w_cam w) ∧ c_asleep (w_cam w') = c_asleep (w_cam w)) ∨
  (c_fatal (w_cam w') = true ∧ c_asleep (w_cam w') = false) →
  w_callback w ≠ None → cstep w w'.
Proof.
  intros Hf Hl Hp Hfr Hd Hc. apply (cstep_flight (stock_news m s (c_frames (w_cam w) !! n))); try done; rewrite ?Hfr.
  - apply (quiet_log _ (stock_news_quiet _ _ _)).
  - intros h. apply stock_news_balance.
  - intros k Hk. destruct (decide (k = n)) as [->|Hne];
      [by rewrite lookup_alter_eq, Hk|by rewrite lookup_alter_ne].
  - destruct Hd as [[-> _]|[-> _]]; done.
  - destruct Hd as [[_ ->]|[_ ->]]; done.
  - intros Hw Ha. destruct Hd as [[Hfa Has]|[_ Has]]; [|congruence].
    rewrite Has in Ha. destruct (iv_asleep w Hw Ha) as [Hn Hfat]. split; [|congruence].
    intros He. apply Hn, map_empty. intros k.
    eapply lookup_alter_None. by rewrite He, lookup_empty.
  - intros Hw. rewrite Hl, Hp. apply accounts_alter; [apply set_done_same| |].
    + intros f ->. destruct (stock_news_in m s f (w_log w)).
      split; cbn; intros [Hx|Hx]%orb_prop; auto.
    + apply accounts_quiet; [apply stock_news_quiet|apply (iv_accounts w Hw)].
Qed.

Lemma cacts_notify_section message :
  cacts (carrying [] requested) (notify_section message) (λ _, carrying [] requested).
Proof.
  intros w Hw Hc Hp. unfold notify_section. rewrite bind_run. unfold reads. cbn [fst snd].
  destruct Hp as [Hl Hreq].
  assert (Hstep : ∀ w', cstep w w' → w_pending w' = [] → cstep w w' ∧ carrying [] requested w').
  { intros w' Hs Hl'. split; [done|]. split; [done|].
    apply (steady_requested w w'); [done|by apply Hs|apply Hs|done]. }
  destruct message as [number timestamp|number stream code|type].
  - apply Hstep; [|exact Hl]. by apply (cstep_alter false true number); auto.
  - rewrite !bind_run. destruct (bool_decide (code = CAMERA3_MSG_ERROR_DEVICE)).
    + apply Hstep; [|exact Hl]. eapply cstep_alter; try done. by right.
    + apply Hstep; [|exact Hl]. eapply cstep_alter; try done. by left.
  - by apply Hstep; [apply cstep_refl|].
Qed.

Lemma runs_notify t message : runs t requested (notify t message) (λ _ _, True).
Proof.
  unfold notify. apply runs_with_callback; [apply steady_requested|].
  apply (carried_act t [] _ _ (λ _, []) (λ _, requested));
    [apply steady_requested|intros _; apply steady_requested|apply cacts_notify_section|].
  intros [m number].
  apply (carried_act t [] _ _ (λ _, []) (λ _, requested));
    [apply steady_requested|intros _; apply steady_requested| |].
  { apply cacts_client_notify; [done|apply steady_requested]. }
  intros []. destruct number as [number|].
  - eapply sat_pre; [apply runs_retire|]. intros w _ (Ht & Hl & _). by split.
  - apply (carried_ret t [] _ tt [] (λ _, True)); [apply steady_requested|done|done].
Qed.

End callbacks.

(** * Every run of the camera

    The calls of the client and the callbacks of the stock library, as threads
    that start at any moment and run interleaved in any way. *)

From Stdlib Require Import String.


Section runs.
  Context {K : Type} `{CameraMetadataApi K} `{!CameraH} `{!CameraTags} `{!CameraPlatform K}.

Abbreviation W := (camera_world K).

(** ** The calls *)

(** What a call relies on: the streams of a configuration are objects, the
    number of buffers is an [unsigned], and the stock library notifies only
    once it has been given a request. *)
Definition call_allowed (call : camera_call) (w : W) : Prop :=
  match call with
  | ConfigureStreams _ (Some c) => known_clients (default [] (sc_streams c)) w
  | ProcessCaptureRequest _ request => request_fits request
  | NotifyCallback _ => requested w
  | _ => True
  end.

#[export] Instance known_clients_dec l (w : W) : Decision (known_clients l w).
Proof.
  destruct (decide (Forall (λ o, o = None ∨ is_Some (o ≫= λ p, w_clients w !! p)) l)) as [Hf|Hf];
    [left|right].
  - abstract (intros p Hp; by apply (proj1 (Forall_forall _ l) Hf) in Hp as [?|?]).
  - abstract (intros Hk; apply Hf, Forall_forall; intros [p|] Hp; [right; by apply Hk|by left]).
Defined.

#[export] Instance call_allowed_dec call w : Decision (call_allowed call w).
Proof.
  destruct call as [| device [c|]| |device [r|]| | | | | |]; unfold call_allowed, request_fits, requested;
    apply _.
Defined.

Lemma runs_camera {A} t (P : W → Prop) device (d : A) p :
  steady P → runs t P p (λ _ _, True) → runs t P (camera device d p) (λ _ _, True).
Proof.
  intros HP Hp. unfold camera. apply runs_if; intros _; [done|].
  apply sat_ret; [by apply steady_stable|done].
Qed.

Lemma runs_noted t (P : W → Prop) p :
  runs t P p (λ _ _, True) → runs t P (noted t p) (λ _ _, True).
Proof.
  intros Hp. unfold noted. eapply runs_bind; [exact Hp|]. intros r. cbv beta.
  apply sat_atomic; [by intros w w'|by intros a w w'|]. intros w Hw _.
  pose proof (cstep_note [LReturn t r] w ltac:(by repeat constructor) (λ h, eq_refl)) as Hs.
  split_and!; [by apply Hs|apply cstep_guar; [by right|exact Hs]|done].
Qed.

Lemma runs_write_stream t p s :
  runs t (λ _, True) (atomic (modify (λ w : W, set_clients (<[p := s]> (w_clients w)) w)))
    (λ _ _, True).
Proof.
  apply sat_atomic; [by intros w w'|by intros a w w'|]. intros w Hw _.
  assert (Hk : keeps w (set_clients (<[p := s]> (w_clients w)) w)).
  { split; cbn; try done; [exists []; by rewrite app_nil_r|].
    intros q Hq. destruct (decide (q = p)) as [->|];
      [by rewrite lookup_insert_eq|by rewrite lookup_insert_ne]. }
  split_and!; [destruct Hw; by split|split; cbn; auto; by intros _|done].
Qed.

Lemma steady_call call : steady (call_allowed call).
Proof.
  destruct call as [| device [c|] | | | | | | | |]; try apply steady_true; cbn.
  - apply steady_known.
  - by intros w w'.
  - apply steady_requested.
Qed.

Lemma runs_any {A} t (P : W → Prop) (p : proc W A) Q : runs t (λ _, True) p Q → runs t P p Q.
Proof. intros Hp. by eapply sat_pre; [exact Hp|]. Qed.

Lemma runs_call t call : runs t (call_allowed call) (call_proc t call) (λ _ _, True).
Proof.
  pose proof (steady_call call) as Hs.
  destruct call as [device client|device config|device type|device request|device|device|device
                    |stock|message|client stream]; cbn [call_proc] in *.
  - apply runs_any, runs_noted, runs_camera; [by intros w w'|apply runs_initialize].
  - apply runs_noted, runs_camera; [done|].
    eapply sat_pre; [apply runs_configure|]. intros w _ Hw. destruct config; [done|].
    by intros p Hp%elem_of_nil.
  - apply runs_any. eapply runs_bind; [apply runs_camera; [by intros w w'|apply runs_defaultRequest]|].
    intros r. apply sat_ret; [|done]. apply stable_true.
  - apply runs_noted, runs_camera; [done|].
    assert (Hd : Decision (request_fits request)) by (destruct request; cbn; apply _).
    destruct (decide (request_fits request)) as [Hf|Hf]; [by apply runs_any, runs_capture|].
    by apply sat_false.
  - apply runs_any, runs_noted, runs_camera; [by intros w w'|apply runs_flush].
  - apply runs_any, runs_camera; [by intros w w'|apply runs_dump].
  - apply runs_any, runs_noted, runs_camera; [by intros w w'|apply runs_close].
  - apply runs_any, runs_result.
  - apply runs_notify.
  - apply runs_any, runs_write_stream.
Qed.

(** ** Runs *)

Inductive camera_event :=
  | Continue (thread : nat) (choice : bool)  (** the next action of a thread *)
  | Start (call : camera_call).

Definition pool_event_of (s : pool W) (ev : camera_event) : pool_event W :=
  match ev with
  | Continue i choice => Step i choice
  | Start call => Spawn (call_proc (List.length (po_threads s)) call)
  end.

Definition camera_step (s : pool W) (ev : camera_event) : pool W :=
  pool_step s (pool_event_of s ev).

Definition camera_run (s : pool W) (evs : list camera_event) : pool W := foldl camera_step s evs.

(** A device that has just been opened, and the client's streams. *)
Definition camera_start (k : K) (d : stock_device) (name : string) (info : list mentry)
    (clients : gmap Z camera3_stream) (next : Z) : pool W :=
  Pool [] (CameraWorld k (new_camera d name info) clients None None next [] [] []).

Definition starts (s : pool W) (ev : camera_event) : Prop :=
  match ev with Start call => call_allowed call (po_state s) | Continue _ _ => True end.

#[export] Instance starts_dec s ev : Decision (starts s ev).
Proof. destruct ev; unfold starts; apply _. Defined.

(** The calls start when they may. *)
Fixpoint camera_allowed (s : pool W) (evs : list camera_event) : Prop :=
  match evs with
  | [] => True
  | ev :: evs =>
      starts s ev ∧ camera_allowed (camera_step s ev) evs
  end.

#[export] Instance camera_allowed_dec s evs : Decision (camera_allowed s evs).
Proof.
  revert s. induction evs as [|ev evs IH]; intros s; [left; exact I|].
  destruct (decide (starts s ev)) as [Hc|Hc]; [|right; abstract (by intros [? _])].
  destruct (IH (camera_step s ev)) as [Hr|Hr]; [left; by split|right; abstract (by intros [_ ?])].
Defined.

Lemma event_ok s ev :
  starts s ev → event_allowed Inv guar s (pool_event_of s ev).
Proof.
  destruct ev as [i choice|call]; cbn; [done|]. intros Hc.
  exists (call_allowed call). split; [done|]. apply runs_call.
Qed.

Lemma camera_reaches s evs :
  camera_allowed s evs → ∃ pevs, reaches Inv guar s pevs (camera_run s evs).
Proof.
  revert s. induction evs as [|ev evs IH]; intros s Ha; [exists []; constructor|].
  destruct Ha as [He Ha]. destruct (IH _ Ha) as [pevs Hp]. eexists (_ :: pevs).
  econstructor; [by apply event_ok|exact Hp].
Qed.

Lemma camera_run_app s l l' : camera_run s (l ++ l') = camera_run (camera_run s l) l'.
Proof. apply foldl_app. Qed.

Lemma camera_allowed_app s l l' :
  camera_allowed s (l ++ l') ↔ camera_allowed s l ∧ camera_allowed (camera_run s l) l'.
Proof.
  revert s. induction l as [|ev l IH]; intros s; cbn; [tauto|]. rewrite IH. tauto.
Qed.

Lemma camera_start_ok k d name info clients next :
  pool_ok Inv guar (camera_start k d name info clients next).
Proof.
  split; [|by intros i p]. split; cbn; try done.
  - split; cbn; try done; intros *; try (by intros Hx%elem_of_nil); [intros ?; lia|apply NoDup_nil_2|constructor].
  - by intros x Hx%elem_of_nil.
Qed.

Lemma camera_run_ok s evs :
  pool_ok Inv guar s → camera_allowed s evs → pool_ok Inv guar (camera_run s evs).
Proof.
  intros Hs Ha. destruct (camera_reaches s evs Ha) as [pevs Hp]. by eapply reaches_ok.
Qed.

Lemma camera_run_keeps s evs :
  pool_ok Inv guar s → camera_allowed s evs →
  keeps (po_state s) (po_state (camera_run s evs)).
Proof.
  intros Hs Ha. destruct (camera_reaches s evs Ha) as [pevs Hp].
  apply (reaches_related Inv guar keeps s pevs); try done.
  - apply keeps_refl.
  - apply keeps_trans.
  - by intros i w w' [].
Qed.

End runs.
