(* ===== verification/SoftCamera.v ===== *)
(** * A concrete camera

    The constants of the headers, metadata objects in memory that never runs
    out, and a stock library that accepts everything, for the witnesses of the
    theorems on the camera. *)

From S2P Require Import Prelude Threads CameraH LegacyMeta LegacyMetaFacts.
From S2P Require Import CameraWrap Camera3 CameraInv CameraSystem CameraCapture.
From S2P Require Import CameraSubmit CameraRuns.
From stdpp Require Import gmap.
From Stdlib Require Import Ascii String.

#[global] Open Scope Z_scope.

#[export] Instance soft_camera_h : CameraH := {|
  HAL_PIXEL_FORMAT_RGBA_8888 := 1;
  HAL_PIXEL_FORMAT_IMPLEMENTATION_DEFINED := 0x22;
  HAL_PIXEL_FORMAT_YCbCr_420_888 := 0x23;
  HAL_PIXEL_FORMAT_BLOB := 0x21;
  HAL_PIXEL_FORMAT_YV12 := 0x32315659;
  GRALLOC_USAGE_HW_VIDEO_ENCODER := 0x10000;
  CAMERA3_STREAM_OUTPUT := 0;
  CAMERA3_STREAM_CONFIGURATION_NORMAL_MODE := 0;
  CAMERA3_TEMPLATE_PREVIEW := 1;
  CAMERA3_TEMPLATE_COUNT := 7;
  CAMERA3_MSG_ERROR_DEVICE := 1;
  CAMERA3_MSG_ERROR_REQUEST := 2;
  CAMERA3_MSG_ERROR_RESULT := 3;
  CAMERA_DEVICE_API_VERSION_3_0 := 0x300;
  CAMERA_DEVICE_API_VERSION_3_2 := 0x302;
  CAMERA_MODULE_API_VERSION_2_1 := 0x201;
  CAMERA_MODULE_API_VERSION_2_2 := 0x202
|}.

(** Tags are told apart; their values are not those of the header. *)
#[export] Instance soft_camera_tags : CameraTags := {|
  ANDROID_CONTROL_AE_ANTIBANDING_MODE := 100; ANDROID_CONTROL_AE_EXPOSURE_COMPENSATION := 101;
  ANDROID_CONTROL_AE_LOCK := 102; ANDROID_CONTROL_AE_MODE := 103; ANDROID_CONTROL_AE_REGIONS := 104;
  ANDROID_CONTROL_AE_TARGET_FPS_RANGE := 105; ANDROID_CONTROL_AE_PRECAPTURE_TRIGGER := 106;
  ANDROID_CONTROL_AF_MODE := 107; ANDROID_CONTROL_AF_REGIONS := 108;
  ANDROID_CONTROL_AF_TRIGGER := 109; ANDROID_CONTROL_AWB_LOCK := 110;
  ANDROID_CONTROL_AWB_MODE := 111; ANDROID_CONTROL_AWB_REGIONS := 112;
  ANDROID_CONTROL_CAPTURE_INTENT := 113; ANDROID_CONTROL_EFFECT_MODE := 114;
  ANDROID_CONTROL_MODE := 115; ANDROID_CONTROL_SCENE_MODE := 116;
  ANDROID_CONTROL_VIDEO_STABILIZATION_MODE := 117; ANDROID_EDGE_MODE := 118;
  ANDROID_FLASH_MODE := 119; ANDROID_JPEG_GPS_COORDINATES := 120;
  ANDROID_JPEG_GPS_PROCESSING_METHOD := 121; ANDROID_JPEG_GPS_TIMESTAMP := 122;
  ANDROID_JPEG_ORIENTATION := 123; ANDROID_JPEG_QUALITY := 124;
  ANDROID_JPEG_THUMBNAIL_QUALITY := 125; ANDROID_JPEG_THUMBNAIL_SIZE := 126;
  ANDROID_LENS_FOCAL_LENGTH := 127; ANDROID_LENS_FOCUS_DISTANCE := 128;
  ANDROID_LENS_OPTICAL_STABILIZATION_MODE := 129; ANDROID_NOISE_REDUCTION_MODE := 130;
  ANDROID_SCALER_CROP_REGION := 131; ANDROID_STATISTICS_FACE_DETECT_MODE := 132;
  ANDROID_SCALER_AVAILABLE_FORMATS := 133; ANDROID_SCALER_AVAILABLE_JPEG_SIZES := 134;
  ANDROID_SCALER_AVAILABLE_PROCESSED_SIZES := 135;
  ANDROID_SCALER_AVAILABLE_JPEG_MIN_DURATIONS := 136;
  ANDROID_SCALER_AVAILABLE_PROCESSED_MIN_DURATIONS := 137;
  ANDROID_SCALER_AVAILABLE_RAW_SIZES := 138; ANDROID_SCALER_AVAILABLE_RAW_MIN_DURATIONS := 139;
  ANDROID_SCALER_AVAILABLE_STREAM_CONFIGURATIONS := 140;
  ANDROID_SCALER_AVAILABLE_MIN_FRAME_DURATIONS := 141;
  ANDROID_SCALER_AVAILABLE_STALL_DURATIONS := 142; ANDROID_CONTROL_MAX_REGIONS := 143;
  ANDROID_LENS_INFO_MINIMUM_FOCUS_DISTANCE := 144;
  ANDROID_LENS_INFO_FOCUS_DISTANCE_CALIBRATION := 145;
  ANDROID_INFO_SUPPORTED_HARDWARE_LEVEL := 146; ANDROID_REQUEST_AVAILABLE_CAPABILITIES := 147;
  ANDROID_REQUEST_MAX_NUM_OUTPUT_STREAMS := 148; ANDROID_REQUEST_MAX_NUM_INPUT_STREAMS := 149;
  ANDROID_REQUEST_PIPELINE_MAX_DEPTH := 150; ANDROID_REQUEST_PARTIAL_RESULT_COUNT := 151;
  ANDROID_SYNC_MAX_LATENCY := 152; ANDROID_SENSOR_INFO_TIMESTAMP_SOURCE := 153;
  ANDROID_SCALER_CROPPING_TYPE := 154; ANDROID_EDGE_AVAILABLE_EDGE_MODES := 155;
  ANDROID_NOISE_REDUCTION_AVAILABLE_NOISE_REDUCTION_MODES := 156;
  ANDROID_HOT_PIXEL_AVAILABLE_HOT_PIXEL_MODES := 157;
  ANDROID_TONEMAP_AVAILABLE_TONE_MAP_MODES := 158;
  ANDROID_CONTROL_AVAILABLE_VIDEO_STABILIZATION_MODES := 159;
  ANDROID_CONTROL_AVAILABLE_HIGH_SPEED_VIDEO_CONFIGURATIONS := 160;
  ANDROID_QUIRKS_USE_PARTIAL_RESULT := 161; ANDROID_QUIRKS_PARTIAL_RESULT := 162;
  ANDROID_REQUEST_AVAILABLE_REQUEST_KEYS := 163; ANDROID_REQUEST_AVAILABLE_RESULT_KEYS := 164;
  ANDROID_REQUEST_AVAILABLE_CHARACTERISTICS_KEYS := 165; ANDROID_CONTROL_AE_STATE := 166;
  ANDROID_CONTROL_AF_STATE := 167; ANDROID_CONTROL_AWB_STATE := 168;
  ANDROID_SENSOR_EXPOSURE_TIME := 169; ANDROID_SENSOR_TIMESTAMP := 170; ANDROID_LENS_STATE := 171;
  ANDROID_LENS_FOCUS_RANGE := 172; ANDROID_LENS_APERTURE := 173;
  ANDROID_REQUEST_PIPELINE_DEPTH := 174; ANDROID_FLASH_STATE := 175;
  ANDROID_STATISTICS_FACE_RECTANGLES := 176; ANDROID_STATISTICS_FACE_SCORES := 177;
  ANDROID_CONTROL_AE_AVAILABLE_MODES := 178; ANDROID_CONTROL_AF_AVAILABLE_MODES := 179;
  ANDROID_CONTROL_AE_AVAILABLE_TARGET_FPS_RANGES := 180; ANDROID_CONTROL_AF_TRIGGER_ID := 181;
  ANDROID_CONTROL_AE_PRECAPTURE_ID := 182;
  ANDROID_SCALER_AVAILABLE_STREAM_CONFIGURATIONS_OUTPUT := 0;
  ANDROID_LENS_INFO_FOCUS_DISTANCE_CALIBRATION_APPROXIMATE := 1;
  ANDROID_INFO_SUPPORTED_HARDWARE_LEVEL_LIMITED := 0;
  ANDROID_REQUEST_AVAILABLE_CAPABILITIES_BACKWARD_COMPATIBLE := 0;
  ANDROID_SYNC_MAX_LATENCY_UNKNOWN := -1; ANDROID_SENSOR_INFO_TIMESTAMP_SOURCE_UNKNOWN := 0;
  ANDROID_SCALER_CROPPING_TYPE_CENTER_ONLY := 0;
  ANDROID_EDGE_MODE_OFF := 0; ANDROID_EDGE_MODE_FAST := 1;
  ANDROID_NOISE_REDUCTION_MODE_OFF := 0; ANDROID_NOISE_REDUCTION_MODE_FAST := 1;
  ANDROID_HOT_PIXEL_MODE_OFF := 0; ANDROID_TONEMAP_MODE_FAST := 1;
  ANDROID_CONTROL_VIDEO_STABILIZATION_MODE_OFF := 0;
  ANDROID_CONTROL_AE_MODE_ON := 1; ANDROID_CONTROL_AF_MODE_OFF := 0;
  ANDROID_FLASH_STATE_UNAVAILABLE := 0; ANDROID_QUIRKS_PARTIAL_RESULT_PARTIAL := 1;
  ANDROID_CONTROL_AF_TRIGGER_IDLE := 0; ANDROID_CONTROL_AE_PRECAPTURE_TRIGGER_START := 1
|}.

(** ** Metadata *)

Definition soft_find (l : list mentry) (t : Z) : option mentry :=
  snd <$> list_find (λ e, me_tag e = t) l.

Lemma soft_find_some l t e : soft_find l t = Some e → e ∈ l ∧ me_tag e = t.
Proof.
  unfold soft_find. intros ([i e'] & Hf & [= ->])%fmap_Some.
  apply list_find_Some in Hf as (Hi & Ht & _). split; [|done]. by eapply list_elem_of_lookup_2.
Qed.

Lemma soft_find_none l t e : soft_find l t = None → e ∈ l → me_tag e ≠ t.
Proof.
  unfold soft_find. rewrite fmap_None. intros Hf He. apply list_find_None in Hf.
  rewrite Forall_forall in Hf. by apply Hf.
Qed.

#[export] Instance soft_metadata_lib : MetadataLib := {|
  get_camera_metadata_tag_type := λ t, Some TYPE_BYTE;
  find_camera_metadata_ro_entry := soft_find;
  find_ro_some := soft_find_some;
  find_ro_none := soft_find_none
|}.

Record soft_md := SoftMd { sm_buffer : option packet; sm_locked : bool }.

(** Setting and deleting the entries of a packet. *)
Definition soft_set (t : Z) (d : list Z) (l : list mentry) : list mentry :=
  if decide (t ∈ (me_tag <$> l))
  then (λ e, if decide (me_tag e = t) then MEntry t d else e) <$> l
  else l ++ [MEntry t d].

Definition soft_del (t : Z) (l : list mentry) : list mentry := filter (λ e, me_tag e ≠ t) l.

(** The state: the next address, the handles registered with gralloc, the
    devices opened, and whether the next opening is refused. *)
Record soft_cam := SoftCam {
  sc_next : Z;
  sc_registered : list Z;
  sc_opened : Z;
  sc_fail_open : bool
}.

Definition soft_write (l : list mentry) (m : soft_md) : M soft_cam soft_md := λ k,
  match sm_buffer m with
  | Some p => (SoftMd (Some (Packet (pk_addr p) l)) (sm_locked m), k)
  | None => (SoftMd (Some (Packet (sc_next k) l)) (sm_locked m),
             SoftCam (sc_next k + 1) (sc_registered k) (sc_opened k) (sc_fail_open k))
  end.

Definition soft_entries (m : soft_md) : list mentry :=
  match sm_buffer m with Some p => pk_entries p | None => [] end.

(** A copy of a packet in memory of its own. *)
Definition soft_clone (l : list mentry) : M soft_cam (option packet) := λ k,
  (Some (Packet (sc_next k) l),
   SoftCam (sc_next k + 1) (sc_registered k) (sc_opened k) (sc_fail_open k)).

Definition soft_assign (p : option packet) (m : soft_md) : M soft_cam soft_md :=
  if sm_locked m then mret m
  else match p with
       | Some q => c ← soft_clone (pk_entries q); mret (SoftMd c false)
       | None => mret (SoftMd None false)
       end.

Definition soft_update (t : Z) (d : list Z) (m : soft_md) : M soft_cam (Z * soft_md) :=
  if sm_locked m then mret (- ENOSYS, m)
  else m' ← soft_write (soft_set t d (soft_entries m)) m; mret (0, m').

#[export] Instance soft_metadata_api : CameraMetadataApi soft_cam := {|
  md := soft_md;
  md_new := SoftMd None false;
  md_buffer := sm_buffer;
  md_locked := sm_locked;
  md_getAndLock m := SoftMd (sm_buffer m) true;
  md_unlock p m := SoftMd (sm_buffer m) (sm_locked m && bool_decide (pk_addr <$> p ≠ pk_addr <$> sm_buffer m));
  md_assign := soft_assign;
  md_clear m := mret (if sm_locked m then m else SoftMd None false);
  md_acquire p m := mret (if sm_locked m then m else SoftMd p false);
  md_update t _ d m := soft_update t d m;
  md_update_entry e m := soft_update (me_tag e) (me_data e) m;
  md_erase t m :=
    if sm_locked m then mret (- ENOSYS, m)
    else match sm_buffer m with
         | None => mret (-1, m)
         | Some p => mret (0, SoftMd (Some (Packet (pk_addr p) (soft_del t (pk_entries p)))) false)
         end;
  clone_camera_metadata := soft_clone
|}.

Lemma soft_set_tags t d l :
  me_tag <$> soft_set t d l =
    if decide (t ∈ (me_tag <$> l)) then me_tag <$> l else (me_tag <$> l) ++ [t].
Proof.
  unfold soft_set. destruct (decide _).
  - rewrite <- list_fmap_compose. apply list_fmap_ext. intros i x _. cbn.
    by destruct (decide (me_tag x = t)) as [<-|].
  - by rewrite fmap_app.
Qed.

Lemma soft_set_distinct t d l : distinct_tags l → distinct_tags (soft_set t d l).
Proof.
  unfold distinct_tags. rewrite soft_set_tags. intros Hl. destruct (decide _) as [|Hn]; [done|].
  apply NoDup_app. split_and!; [done| |apply NoDup_singleton].
  intros x Hx Ht%list_elem_of_singleton. by subst.
Qed.

Lemma soft_set_map t d l :
  distinct_tags l → meta_map (soft_set t d l) = <[t := d]> (meta_map l).
Proof.
  intros Hl. apply map_eq. intros t'.
  assert (Hd := soft_set_distinct t d l Hl).
  assert (Hin : MEntry t d ∈ soft_set t d l).
  { unfold soft_set. destruct (decide _) as [Ht|Ht].
    - apply list_elem_of_fmap in Ht as (e & Het & He). apply list_elem_of_fmap.
      exists e. split; [|done]. by rewrite decide_True by done.
    - apply elem_of_app. right. left. }
  destruct (decide (t' = t)) as [->|Hne].
  - rewrite lookup_insert_eq. exact (meta_map_lookup _ _ Hd Hin).
  - rewrite lookup_insert_ne by done.
    assert (Hiff : ∀ e, me_tag e = t' → e ∈ soft_set t d l ↔ e ∈ l).
    { intros e <-. unfold soft_set. destruct (decide _).
      - rewrite list_elem_of_fmap. split.
        + intros (e' & -> & He'). destruct (decide (me_tag e' = t)); [done|]. done.
        + intros He. exists e. by rewrite decide_False.
      - rewrite elem_of_app, list_elem_of_singleton. split; [|tauto].
        intros [?| ->]; done. }
    destruct (meta_map l !! t') as [v|] eqn:Hv.
    + apply elem_of_list_to_map_2, list_elem_of_fmap in Hv as (e & [= -> ->] & He).
      apply meta_map_lookup; [done|]. by apply Hiff.
    + rewrite meta_map_none in Hv |- *. intros e He Het. apply (Hv e); [|done]. by apply Hiff.
Qed.

Lemma soft_del_map t l : distinct_tags l → meta_map (soft_del t l) = delete t (meta_map l).
Proof.
  intros Hl. apply map_eq. intros t'.
  assert (Hd : distinct_tags (soft_del t l)).
  { unfold distinct_tags, soft_del in *.
    eapply sublist_NoDup; [exact Hl|]. apply fmap_sublist, sublist_filter. }
  destruct (decide (t' = t)) as [->|Hne].
  - rewrite lookup_delete_eq. apply meta_map_none. intros e He.
    by apply list_elem_of_filter in He as [? _].
  - rewrite lookup_delete_ne by done. destruct (meta_map l !! t') as [v|] eqn:Hv.
    + apply elem_of_list_to_map_2, list_elem_of_fmap in Hv as (e & [= -> ->] & He).
      apply meta_map_lookup; [done|]. by apply list_elem_of_filter.
    + rewrite meta_map_none in Hv |- *. intros e [_ He]%list_elem_of_filter. by apply Hv.
Qed.

Lemma soft_update_law t d m k :
  md_ready m →
  let '(r, m') := (soft_update t d m k).1 in
  md_ready m' ∧ (r = 0 → md_map m' = <[t := d]> (md_map m)).
Proof.
  intros [Hu Hd]. unfold soft_update, md_ready, md_map, md_entries in *. cbn in Hu, Hd |- *.
  rewrite Hu. rewrite bind_run. unfold soft_write, soft_entries.
  destruct (sm_buffer m) as [p|]; cbn.
  - split; [|intros _; by apply soft_set_map]. split; [done|]. by apply soft_set_distinct.
  - split; [|done]. split; [done|]. apply NoDup_singleton.
Qed.

#[export] Instance soft_metadata_laws : CameraMetadataLaws soft_cam.
Proof.
  split.
  - done.
  - done.
  - intros m. split; [done|]. cbn. intros ->. by rewrite bool_decide_false by tauto.
  - intros p m k Hu. cbn in Hu. cbn. unfold soft_assign. rewrite Hu.
    destruct p as [q|]; cbn; (split; [done|]); [|by left]. right. by exists q.
  - intros m k Hu. cbn in Hu. cbn. by rewrite Hu.
  - intros p m k Hu. cbn in Hu. cbn. by rewrite Hu.
  - intros t ty d m k. apply soft_update_law.
  - intros e m k. apply soft_update_law.
  - intros t m k [Hu Hd]. unfold md_ready, md_map, md_entries in *. cbn in Hu, Hd |- *. rewrite Hu.
    destruct (sm_buffer m) as [p|] eqn:Hb; cbn.
    + split; [|by apply soft_del_map]. split; [done|]. unfold distinct_tags, soft_del in *.
      eapply sublist_NoDup; [exact Hd|]. apply fmap_sublist, sublist_filter.
    + rewrite Hb. split; [|done]. split; [done|]. constructor.
  - intros l k p. cbn. by intros [= <-].
Qed.

(** ** The platform *)

(** What the stock library makes of a stream. *)
Definition soft_legacy (s : camera3_stream) : camera3_stream :=
  Stream3 (st_type s) (st_width s) (st_height s)
    (if decide (st_format s = 0x22) then 0x32315659 else st_format s) (st_usage s) 4 1.

Definition soft_default : packet :=
  Packet 7 [MEntry ANDROID_CONTROL_AE_MODE [3]; MEntry ANDROID_CONTROL_AF_MODE [0]].

Definition soft_stock_module : camera_module := CameraModule 0x201 true true true false false.

Definition soft_open_stock (k : soft_cam) : (Z * option stock_device) * soft_cam :=
  if sc_fail_open k then ((- ENODEV, None), SoftCam (sc_next k) (sc_registered k) (sc_opened k) false)
  else ((0, Some (StockDevice (sc_opened k + 1) 0x300 true true)),
        SoftCam (sc_next k) (sc_registered k) (sc_opened k + 1) false).

Fixpoint remove_handle (x : Z) (l : list Z) : list Z :=
  match l with
  | [] => []
  | y :: l => if decide (y = x) then l else y :: remove_handle x l
  end.

#[export] Instance soft_camera_platform : CameraPlatform soft_cam := {|
  stock_camera_module := mret (Some soft_stock_module);
  mocha_camera_info id := mret (0, Some (CameraInfo id 90 0x302 None));
  stock_number_of_cameras := mret 2;
  hw_get_gralloc := mret (0, (true, true));
  new_nothrow := mret true;
  stock_open _ := soft_open_stock;
  stock_close _ := mret 0;
  stock_initialize _ := mret 0;
  stock_configure_streams _ l := mret (0, soft_legacy <$> l.*2);
  stock_register_stream_buffers _ _ _ := mret 0;
  stock_default_request _ _ := mret (Some soft_default);
  stock_process_capture_request _ _ := mret 0;
  stock_dump _ := mret tt;
  registerBuffer h := λ k,
    (0, SoftCam (sc_next k) (h :: sc_registered k) (sc_opened k) (sc_fail_open k));
  unregisterBuffer h := λ k,
    (tt, SoftCam (sc_next k) (remove_handle h (sc_registered k)) (sc_opened k) (sc_fail_open k))
|}.

Definition soft_characteristics : list mentry :=
  [MEntry ANDROID_CONTROL_AE_AVAILABLE_MODES [0; 1]; MEntry ANDROID_CONTROL_AF_AVAILABLE_MODES [0];
   MEntry ANDROID_CONTROL_AE_AVAILABLE_TARGET_FPS_RANGES [15; 30]].

(** The device after opening, the client's streams 1 (preview), 2 (its copy of
    the same size), 3 (encoder) and 4 (smaller). *)
Definition soft_camera0 : Camera soft_cam :=
  new_camera (StockDevice 1 0x300 true true) "0" soft_characteristics.

Definition soft_client_streams : gmap Z camera3_stream :=
  list_to_map [(1, Stream3 0 1920 1080 0x22 0 0 0); (2, Stream3 0 1920 1080 0x23 0 0 0);
               (3, Stream3 0 3840 2160 0x22 0x10000 0 0); (4, Stream3 0 1280 720 0x22 0 0 0)].

Definition soft_camera_world : camera_world soft_cam :=
  CameraWorld (SoftCam 1000 [] 1 false) soft_camera0 soft_client_streams None None 1 [] [] [].

Definition soft_config (l : list Z) : option stream_configuration :=
  Some (StreamConfiguration (Some (Some <$> l)) 0).

(** A request for one buffer of each of the streams, the handle the stream's
    number times 100. *)
Definition soft_request (number : Z) (settings : option packet) (streams : list Z) :
    option capture_request :=
  Some (CaptureRequest number settings false
          (Some ((λ s, Buffer3 s (Some (s, 100 * s)) 0 (-1) (-1)) <$> streams))).

Definition soft_settings : packet :=
  Packet 5 [MEntry ANDROID_CONTROL_AE_TARGET_FPS_RANGE [30; 30]; MEntry ANDROID_CONTROL_AF_TRIGGER [1]].

(** The calls of a thread one after the other, each by itself. *)
Fixpoint soft_calls (ps : list (proc (camera_world soft_cam) Z)) (w : camera_world soft_cam) :
    list Z * camera_world soft_cam :=
  match ps with
  | [] => ([], w)
  | p :: ps =>
      match alone p w with
      | Some (r, w) => let '(rs, w) := soft_calls ps w in (r :: rs, w)
      | None => ([], w)
      end
  end.

(** ** A run

    The threads are numbered in the order in which they start. *)

Definition soft_start : pool (camera_world soft_cam) :=
  camera_start (SoftCam 1000 [] 1 false) (StockDevice 1 0x300 true true) "0" soft_characteristics
    soft_client_streams 1.

(** The thread [i] goes on for [n] actions. *)
Definition go (i n : nat) : list camera_event := replicate n (Continue i false).

Definition soft_result : stock_result :=
  StockResult 10 (Some (Packet 77 [MEntry ANDROID_CONTROL_AE_STATE [2]]))
    [Buffer3 1 (Some (3, 100)) 0 (-1) 55; Buffer3 2 (Some (4, 300)) 0 (-1) (-1)].

(** The device is opened for two streams and gets a request for both; a flush
    waits for it while the shutter is announced. *)
Definition soft_busy : list camera_event :=
  [Start (Initialize true (Some (true, true)))] ++ go 0 9 ++
  [Start (ConfigureStreams true (soft_config [1; 3]))] ++ go 1 20 ++
  [Start (ProcessCaptureRequest true (soft_request 10 (Some soft_settings) [1; 3]))] ++ go 2 25 ++
  [Start (Flush true)] ++ go 3 2 ++
  [Start (NotifyCallback (MSG_SHUTTER 10 123456))] ++ go 4 6.

(** The result arrives, is held up before the client has it, and ends the
    flush. *)
Definition soft_served : list camera_event :=
  soft_busy ++ [Start (ResultCallback soft_result)] ++ go 5 2 ++ go 3 1 ++ go 5 6 ++ go 3 6.

(** The device is closed with another request in flight. *)
Definition soft_closed : list camera_event :=
  soft_served ++
  [Start (ProcessCaptureRequest true (soft_request 11 None [1]))] ++ go 6 25 ++
  [Start (CloseDevice true)] ++ go 7 12.
