(* ===== verification/CameraReturns.v ===== *)
(** * Every call of the camera returns

    A call that finds its mutex free comes back, whatever the stock library
    answers: the only wait is the drain's, which ends after three seconds.  A
    device that is dead refuses its calls and is left as it is. *)

From S2P Require Import Prelude Threads CameraH LegacyMeta LegacyMetaFacts CameraWrap Camera3.
From S2P Require Import CameraInv CameraSystem CameraCapture CameraSubmit.
From S2P Require Import CameraRuns SoftCamera.
From stdpp Require Import gmap.
From Stdlib Require Import Ascii String.

#[global] Open Scope Z_scope.

Section returns.
  Context {K : Type} `{CameraMetadataApi K} `{!CameraH} `{!CameraTags} `{!CameraPlatform K}.

Abbreviation W := (camera_world K).

(** ** Actions that leave the mutexes, calls that come back with them *)

Definition same_locks (w w' : W) : Prop :=
  w_request w' = w_request w ∧ w_callback w' = w_callback w.

Definition calm {A} (m : M W A) : Prop := ∀ w, same_locks w (m w).2.

Definition comes_back {A} (p : proc W A) : Prop :=
  ∀ w, ∃ a w', alone p w = Some (a, w') ∧ same_locks w w'.

Lemma calm_ret {A} (a : A) : calm (mret a).
Proof. by intros w. Qed.

Lemma calm_bind {A B} (m : M W A) (g : A → M W B) : calm m → (∀ a, calm (g a)) → calm (m ≫= g).
Proof.
  intros Hm Hg w. rewrite bind_run. destruct (Hm w) as [E1 E2], (Hg (m w).1 (m w).2) as [E3 E4].
  split; congruence.
Qed.

Lemma calm_ask {A} (m : M K A) : calm (ask (K := K) m).
Proof. intros w. unfold ask. by destruct (m (w_k w)). Qed.

Lemma calm_reads {A} (f : W → A) : calm (reads f).
Proof. by intros w. Qed.

Lemma calm_modify f : (∀ w, same_locks w (f w)) → calm (modify f).
Proof. intros Hf w. apply Hf. Qed.

Lemma calm_cam g : calm (modify_cam (K := K) g).
Proof. by intros w. Qed.

Lemma calm_note l : calm (note (K := K) l).
Proof. by intros w. Qed.

Lemma calm_flaw f : calm (flaw (K := K) f).
Proof. by intros w. Qed.

Lemma calm_address : calm (new_address (K := K)).
Proof. by intros w. Qed.

(** Calm is what is put together from calm parts. *)
Ltac calm_step :=
  match goal with
  | |- calm (mret _) => apply calm_ret
  | |- calm (_ ≫= _) => apply calm_bind; [|intros ?]
  | |- calm (ask _) => apply calm_ask
  | |- calm (reads _) => apply calm_reads
  | |- calm (modify_cam _) => apply calm_cam
  | |- calm (note _) => apply calm_note
  | |- calm (flaw _) => apply calm_flaw
  | |- calm new_address => apply calm_address
  | |- calm (modify _) => apply calm_modify; intros ?; split; reflexivity
  | |- calm (match ?x with _ => _ end) => destruct x
  | |- ∀ _, calm _ => intros ?
  end.

Ltac calm := repeat (calm_step || (progress cbv zeta) || match goal with IH : _ |- _ => apply IH end).

Lemma calm_vendor_call {A} (a : A) m : calm (vendor_call (K := K) a m).
Proof. unfold vendor_call. calm. Qed.

Lemma calm_close_vendor : calm (close_vendor (K := K)).
Proof. unfold close_vendor. calm. Qed.

Lemma calm_check_streams streams p j next vs : calm (check_streams (K := K) streams p j next vs).
Proof.
  revert p j next vs. induction streams as [|[c|] streams IH]; intros; cbn [check_streams].
  - calm.
  - apply calm_bind; [unfold client_stream; calm|]. intros [s|]; [|calm]. calm.
  - calm.
Qed.

Lemma calm_unregister_all l : calm (unregister_all (K := K) l).
Proof. induction l; cbn [unregister_all]; calm. Qed.

Lemma calm_vendor_configure next vs : calm (vendor_configure (K := K) next vs).
Proof. unfold vendor_configure. apply calm_bind; [apply calm_vendor_call|]. intros []. calm. Qed.

Lemma calm_register_handle key h : calm (register_handle (K := K) key h).
Proof. unfold register_handle. calm. Qed.

Lemma calm_request_settings settings : calm (request_settings (K := K) settings).
Proof.
  destruct settings; cbn [request_settings]; [|calm]. unfold translate_settings.
  apply calm_bind; [calm|]. intros m. apply calm_bind; [calm|]. intros i.
  apply calm_bind; [calm|]. intros [ok m']. destruct ok; [|calm]. calm.
Qed.

Lemma calm_vendor_buffers l : calm (vendor_buffers (K := K) l).
Proof. induction l; cbn [vendor_buffers]; calm. Qed.

Lemma calm_make_frame request l : calm (make_frame (K := K) request l).
Proof.
  unfold make_frame. apply calm_bind; [apply calm_request_settings|]. intros [e|m]; [calm|].
  apply calm_bind; [apply calm_vendor_buffers|]. calm.
Qed.

Lemma calm_insert_frame n f : calm (insert_frame (K := K) n f).
Proof. unfold insert_frame. calm. Qed.

Lemma calm_erase_frame n : calm (erase_frame (K := K) n).
Proof. unfold erase_frame. calm. Qed.

Lemma calm_clear_device : calm (clear_device (K := K)).
Proof. unfold clear_device. repeat calm_step. apply calm_unregister_all. Qed.

Lemma calm_client_notify m : calm (client_notify (K := K) m).
Proof. unfold client_notify. calm. Qed.

Lemma calm_client_result n fc : calm (client_result (K := K) n fc).
Proof. unfold client_result. calm. Qed.

Lemma calm_retire n : calm (retire (K := K) n).
Proof. unfold retire. calm. Qed.

Lemma calm_take_metadata p f : calm (take_metadata (K := K) p f).
Proof. unfold take_metadata. calm. Qed.

Lemma calm_result_section stock : calm (result_section (K := K) stock).
Proof.
  unfold result_section. apply calm_bind; [calm|]. intros frames.
  destruct (frames !! _); [|calm]. apply calm_bind; [apply calm_take_metadata|].
  intros [[f' m] lost]. destruct (take_buffers _ _ _ _) as [[? ?] ?]. calm.
Qed.

Lemma calm_notify_section m : calm (notify_section (K := K) m).
Proof. unfold notify_section. calm. Qed.

(** ** Calls *)

Lemma back_ret {A} (a : A) : comes_back (mret a).
Proof. intros w. by exists a, w. Qed.

Lemma back_bind {A B} (p : proc W A) (g : A → proc W B) :
  comes_back p → (∀ a, comes_back (g a)) → comes_back (p ≫= g).
Proof.
  intros Hp Hg w. destruct (Hp w) as (a & w1 & Ha & E1 & E2).
  destruct (Hg a w1) as (b & w2 & Hb & E3 & E4). exists b, w2.
  rewrite alone_bind, Ha. split; [done|]. split; congruence.
Qed.

Lemma back_atomic {A} (m : M W A) : calm m → comes_back (atomic m).
Proof.
  intros Hm w. specialize (Hm w). unfold atomic. rewrite alone_act. destruct (m w) as [a w'].
  by exists a, w'.
Qed.

Lemma back_drain : comes_back (drain (K := K)).
Proof.
  intros w. unfold drain. rewrite alone_act. unfold drain_wait at 1.
  destruct (bool_decide (c_frames (w_cam w) = ∅) || c_fatal (w_cam w)) eqn:Hd;
    [eexists _, _; split; [done|]; by split|].
  cbn [andb]. unfold drain_wait. cbn [w_cam upd_cam]. cbn [c_frames c_fatal c_asleep set_asleep].
  rewrite Hd. cbn [andb]. eexists _, _. split; [done|]. by split.
Qed.

Lemma back_with_request {A} t (body : proc W A) w :
  comes_back body → w_request w = None → ∃ a w', alone (with_request t body) w = Some (a, w') ∧ same_locks w w'.
Proof.
  intros Hb Hn. unfold with_request. rewrite alone_bind. unfold lock_request. rewrite alone_act, Hn. cbn [alone].
  destruct (Hb (set_request (Some t) w)) as (a & w1 & Ha & E1 & E2).
  rewrite alone_bind, Ha. exists a. eexists. split; [done|]. split; cbn; [done|exact E2].
Qed.

Lemma back_with_callback {A} t (body : proc W A) w :
  comes_back body → w_callback w = None → ∃ a w', alone (with_callback t body) w = Some (a, w') ∧ same_locks w w'.
Proof.
  intros Hb Hn. unfold with_callback. rewrite alone_bind. unfold lock_callback. rewrite alone_act, Hn. cbn [alone].
  destruct (Hb (set_callback (Some t) w)) as (a & w1 & Ha & E1 & E2).
  rewrite alone_bind, Ha. exists a. eexists. split; [done|]. split; cbn; [exact E1|done].
Qed.

(** What is put together from such parts comes back. *)
Ltac back_step :=
  match goal with
  | |- comes_back (mret _) => apply back_ret
  | |- comes_back (_ ≫= _) => apply back_bind; [|intros ?]
  | |- comes_back drain => apply back_drain
  | |- comes_back (atomic _) => apply back_atomic
  | |- comes_back (match ?x with _ => _ end) => destruct x
  | |- ∀ _, comes_back _ => intros ?
  end.

Create HintDb calm discriminated.
#[local] Hint Resolve calm_vendor_call calm_close_vendor calm_check_streams calm_unregister_all
  calm_vendor_configure calm_register_handle calm_make_frame calm_insert_frame calm_erase_frame
  calm_clear_device calm_client_notify calm_client_result calm_retire calm_result_section
  calm_notify_section : calm.

Ltac back := repeat (back_step || (progress cbv zeta) || (solve [auto with calm]) || calm_step).

Lemma back_reopenVendor : comes_back (reopenVendor (K := K)).
Proof. unfold reopenVendor. back. Qed.

Lemma back_configure_streams next vs : comes_back (configure_streams (K := K) next vs).
Proof.
  unfold configure_streams, adopt_streams. apply back_bind; [back|]. intros changed.
  apply back_bind; [destruct changed; [apply back_reopenVendor|back]|]. back.
Qed.

Lemma back_register_buffers l : comes_back (register_buffers (K := K) l).
Proof.
  induction l as [|b l IH]; cbn [register_buffers]; [back|].
  apply back_bind; [back|]. intros [e|[[id hs]|]]; [back| |exact IH].
  apply back_bind; [back|]. intros r. destruct (bool_decide _); [back|exact IH].
Qed.

Lemma back_submit request l : comes_back (submit (K := K) request l).
Proof. unfold submit. back. Qed.

(** A call of the client that finds the mutexes free. *)
Definition returns {A} (p : proc W A) : Prop :=
  ∀ w, w_request w = None → w_callback w = None → ∃ a w', alone p w = Some (a, w') ∧ same_locks w w'.

Lemma returns_back {A} (p : proc W A) : comes_back p → returns p.
Proof. intros Hp w _ _. apply Hp. Qed.

Lemma returns_then {A B} (p : proc W A) (g : A → proc W B) :
  returns p → (∀ a, comes_back (g a)) → returns (p ≫= g).
Proof.
  intros Hp Hg w Hr Hc. destruct (Hp w Hr Hc) as (a & w1 & Ha & E1 & E2).
  destruct (Hg a w1) as (b & w2 & Hb & E3 & E4). exists b, w2.
  rewrite alone_bind, Ha. split; [done|]. split; congruence.
Qed.

Lemma returns_request {A} t (body : proc W A) : comes_back body → returns (with_request t body).
Proof. intros Hb w Hr _. by apply back_with_request. Qed.

Lemma returns_callback {A} t (body : proc W A) : comes_back body → returns (with_callback t body).
Proof. intros Hb w _ Hc. by apply back_with_callback. Qed.

Lemma returns_camera {A} device (a : A) p : returns p → returns (camera (K := K) device a p).
Proof. intros Hp. destruct device; [done|]. apply returns_back, back_ret. Qed.

Lemma returns_configure t config : returns (configure (K := K) t config).
Proof.
  unfold configure. destruct config as [[[[|s l]|] mode]|]; try apply returns_back, back_ret.
  destruct (bool_decide _); [apply returns_back, back_ret|]. apply returns_request.
  apply back_bind; [back|]. intros [e|]; [back|]. apply back_bind; [back|].
  intros [e|[next vs]]; [back|]. apply back_configure_streams.
Qed.

Lemma returns_capture t request : returns (capture (K := K) t request).
Proof.
  unfold capture. destruct request as [[n settings [] [[|b l]|]]|]; try apply returns_back, back_ret.
  apply returns_request. apply back_bind; [back|]. intros [e|]; [back|]. apply back_bind; [back|].
  intros [[ks new]|]; [|back]. apply back_bind.
  - destruct new; [|back]. apply back_bind; [back|]. intros r.
    destruct (bool_decide _); [back|apply back_register_buffers].
  - intros r. destruct (bool_decide _); [back|apply back_submit].
Qed.

Lemma returns_dump t : returns (dump (K := K) t).
Proof.
  intros w Hr Hc. unfold dump. rewrite alone_bind. unfold try_lock_request.
  rewrite alone_act, Hr. cbn [alone]. cbn [negb]. set (w1 := set_request (Some t) w).
  assert (Hb : comes_back (ok ← Act (dump_state (K := K)) Ret;
    (if ok : bool then
       vendor ← atomic (reads (λ w, c_vendor (w_cam w)));
       match vendor with
       | Some d => if sd_dump d then atomic (ask (stock_dump (sd_id d))) else mret tt
       | None => mret tt
       end
     else mret tt))).
  { apply back_bind; [|back]. intros w2. eexists _, _. split; [done|]. by split. }
  destruct (Hb w1) as (a & w2 & Ha & E1 & E2). rewrite alone_bind in Ha |- *.
  destruct (alone (Act dump_state Ret) w1) as [[ok w3]|]; [|done].
  rewrite alone_bind, Ha. eexists _, _. split; [done|]. split; cbn; [done|exact E2].
Qed.

(** C10: Every call of the client and every callback that finds the adapter's
    mutexes free returns, and leaves them free, whatever the stock library, the
    metadata library, gralloc and the allocator answer. *)
Theorem every_call_returns t call (w : W) :
  w_request w = None → w_callback w = None →
  ∃ w', alone (call_proc t call) w = Some (tt, w') ∧ w_request w' = None ∧ w_callback w' = None.
Proof.
  intros Hr Hc.
  assert (Hret : returns (call_proc (K := K) t call)).
  { destruct call as [dev client|dev config|dev type|dev request|dev|dev|dev|stock|message|p s];
      cbn [call_proc]; unfold noted, device_initialize, device_configure, device_defaultRequest,
        device_capture, device_flush, device_dump, closeDevice.
    - apply returns_then; [|back]. apply returns_camera. unfold initialize.
      destruct client as [[[] []]|]; try apply returns_back, back_ret. apply returns_request. back.
    - apply returns_then; [|back]. apply returns_camera, returns_configure.
    - apply returns_then; [|back]. apply returns_camera. unfold defaultRequest.
      destruct (_ || _); [apply returns_back, back_ret|]. apply returns_request. back.
    - apply returns_then; [|back]. apply returns_camera, returns_capture.
    - apply returns_then; [|back]. apply returns_camera, returns_request. back.
    - apply returns_camera, returns_dump.
    - apply returns_then; [|back]. apply returns_camera, returns_request. back.
    - apply returns_callback. back.
    - apply returns_callback. back.
    - apply returns_back. back. }
  destruct (Hret w Hr Hc) as ([] & w' & Ha & E1 & E2). exists w'. split_and!; [done|congruence|congruence].
Qed.

End returns.
