(* ===== verification/CameraOps.v ===== *)
(** * What the calls of the camera decide

    The streams a configuration may have and which of them the sensor mode
    depends on, the calls a dead device refuses, the names of cameras, and the
    trigger ids. *)

From S2P Require Import Prelude Threads CameraH LegacyMeta LegacyMetaFacts CameraWrap Camera3.
From S2P Require Import CameraInv CameraSystem CameraCapture CameraSubmit.
From S2P Require Import CameraRuns SoftCamera CameraReturns.
From stdpp Require Import gmap.
From Stdlib Require Import Ascii String.

#[global] Open Scope Z_scope.

Section ops.
  Context {K : Type} `{CameraMetadataApi K} `{!CameraH} `{!CameraTags} `{!CameraPlatform K}.

Abbreviation W := (camera_world K).

(** ** Configurations *)

(** Whether a stream of the client is for JPEG. *)
Definition blob_stream (w : W) (c : Z) : bool :=
  match w_clients w !! c with
  | Some s => bool_decide (st_format s = HAL_PIXEL_FORMAT_BLOB)
  | None => false
  end.

(** The stream [c] may be configured. *)
Definition stream_admitted (w : W) (c : Z) (s : camera3_stream) : Prop :=
  w_clients w !! c = Some s ∧ st_type s = CAMERA3_STREAM_OUTPUT ∧ st_width s ≠ 0 ∧ st_height s ≠ 0 ∧
  (st_format s = HAL_PIXEL_FORMAT_BLOB ∨
   isProcessedFormat (st_format s) = true ∧
   (st_format s = HAL_PIXEL_FORMAT_IMPLEMENTATION_DEFINED ∨
    st_format s = HAL_PIXEL_FORMAT_YCbCr_420_888 ∨ st_format s = HAL_PIXEL_FORMAT_RGBA_8888 ∨
    is_Some (c_streams (w_cam w) !! c))).

(** Its entry in the new table. *)
Definition new_entry (c : Z) (s : camera3_stream) (n : Stream) : Prop :=
  s_client n = c ∧ s_legacy n = set_priv 0 s ∧ s_buffers n = ∅.

Lemma format_counts_Some format known p j :
  format_counts format known = Some (p, j) →
  (p = 0 ∧ j = 1 ∧ format = HAL_PIXEL_FORMAT_BLOB)%nat ∨
  (p = 1 ∧ j = 0)%nat ∧ format ≠ HAL_PIXEL_FORMAT_BLOB ∧ isProcessedFormat format = true ∧
  (format = HAL_PIXEL_FORMAT_IMPLEMENTATION_DEFINED ∨ format = HAL_PIXEL_FORMAT_YCbCr_420_888 ∨
   format = HAL_PIXEL_FORMAT_RGBA_8888 ∨ known = true).
Proof.
  unfold format_counts, isProcessedFormat. case_bool_decide as Hb; [intros [= <- <-]; by left|].
  destruct (bool_decide (format = HAL_PIXEL_FORMAT_IMPLEMENTATION_DEFINED)) eqn:H1';
    [apply bool_decide_eq_true in H1'|];
    destruct (bool_decide (format = HAL_PIXEL_FORMAT_YCbCr_420_888)) eqn:H2';
    try apply bool_decide_eq_true in H2';
    destruct (bool_decide (format = HAL_PIXEL_FORMAT_RGBA_8888)) eqn:H3';
    try apply bool_decide_eq_true in H3'; cbn;
    try (intros [= <- <-]; right; split_and!; auto; done).
  destruct (bool_decide (format = HAL_PIXEL_FORMAT_YV12)); cbn; [|done].
  destruct known; [|done]. intros [= <- <-]. right. split_and!; auto.
Qed.

(** The fields the loop does not touch. *)
Lemma check_streams_step c s streams p j next vs (w : W) r :
  w_clients w !! c = Some s →
  (check_streams (Some c :: streams) p j next vs w).1 = inr r →
  st_type s = CAMERA3_STREAM_OUTPUT ∧ st_width s ≠ 0 ∧ st_height s ≠ 0 ∧ next !! c = None ∧
  ∃ dp dj w' id,
    format_counts (st_format s) (bool_decide (is_Some (c_streams (w_cam w) !! c))) = Some (dp, dj) ∧
    (p + dp <= 3)%nat ∧ (j + dj <= 1)%nat ∧ w_clients w' = w_clients w ∧ w_cam w' = w_cam w ∧
    (check_streams streams (p + dp) (j + dj)
       (<[c := MkStream id (set_priv 0 s) c ∅]> next) (vs ++ [c]) w').1 = inr r.
Proof.
  intros Hs. cbn [check_streams]. unfold client_stream. rewrite !bind_run. unfold reads. cbn [fst snd].
  rewrite Hs. cbn [fst snd mret M_ret].
  destruct (bool_decide (st_type s ≠ _) || _ || _ || _) eqn:Hbad; [done|].
  apply orb_false_iff in Hbad as [[[Ht Hw]%orb_false_iff Hh]%orb_false_iff Hn].
  apply bool_decide_eq_false, dec_stable in Ht. apply bool_decide_eq_false in Hw, Hh, Hn.
  apply eq_None_not_Some in Hn. rewrite bind_run. cbn [fst snd].
  destruct (format_counts _ _) as [[dp dj]|] eqn:Hf; [|done].
  destruct (bool_decide (3 < p + dp)%nat || _) eqn:Hlim; [done|].
  apply orb_false_iff in Hlim as [Hp Hj]. apply bool_decide_eq_false in Hp, Hj.
  rewrite bind_run. unfold ask. destruct (new_nothrow (w_k w)) as [[] k] eqn:Hk; [|done].
  cbn [negb fst snd]. rewrite bind_run. unfold new_address. cbn [fst snd]. intros Hr.
  split_and!; try done. eexists dp, dj, _, _. split_and!; [done|lia|lia| | |exact Hr]; done.
Qed.

Lemma check_streams_Some streams p j next vs (w : W) next' vs' :
  (p <= 3)%nat → (j <= 1)%nat →
  (check_streams streams p j next vs w).1 = inr (next', vs') →
  ∃ l, streams = Some <$> l ∧ vs' = vs ++ l ∧ NoDup l ∧ (∀ c, c ∈ l → next !! c = None) ∧
    Z.of_nat j + count (blob_stream w) l <= 1 ∧
    Z.of_nat p + count (λ c, negb (blob_stream w c)) l <= 3 ∧
    (∀ c, c ∉ l → next' !! c = next !! c) ∧
    (∀ c, c ∈ l → ∃ s n, stream_admitted w c s ∧ next' !! c = Some n ∧ new_entry c s n).
Proof.
  revert p j next vs w. induction streams as [|[c|] streams IH]; intros p j next vs w Hp Hj Hr; [| |done].
  - injection Hr as <- <-. exists []. rewrite app_nil_r.
    split_and!; try done; try (by intros c Hc%elem_of_nil); 
      try (change (count _ []) with 0; lia). apply NoDup_nil_2.
  - destruct (w_clients w !! c) as [s|] eqn:Hs.
    2: { cbn [check_streams] in Hr. unfold client_stream in Hr. rewrite !bind_run in Hr.
         unfold reads in Hr. cbn [fst snd] in Hr. by rewrite Hs in Hr. }
    destruct (check_streams_step _ _ _ _ _ _ _ _ _ Hs Hr)
      as (Ht & Hw & Hh & Hn & dp & dj & w' & id & Hf & Hdp & Hdj & Hcl & Hcam & Hr').
    assert (Hblob : ∀ x, blob_stream w' x = blob_stream w x) by (intros x; unfold blob_stream; by rewrite Hcl).
    destruct (IH _ _ _ _ _ Hdp Hdj Hr') as (l & -> & -> & Hnd & Hnew & Hb & Ho & Hout & Hin).
    assert (Hc : c ∉ l) by (intros Hc; specialize (Hnew c Hc); by rewrite lookup_insert_eq in Hnew).
    rewrite (count_ext _ _ _ (λ x _, Hblob x)) in Hb.
    rewrite (count_ext _ (λ x, negb (blob_stream w x)) l) in Ho by (intros x _; by rewrite Hblob).
    exists (c :: l). rewrite <- app_assoc. split_and!; try done.
    + by constructor.
    + intros x [->|Hx]%elem_of_cons; [done|]. specialize (Hnew x Hx).
      by apply lookup_insert_None in Hnew as [? _].
    + rewrite count_cons. unfold blob_stream at 1. rewrite Hs.
      apply format_counts_Some in Hf as [(-> & -> & Hfm)|([-> ->] & Hfm & _)].
      * rewrite bool_decide_true by done. cbn. lia.
      * rewrite bool_decide_false by done. cbn. lia.
    + rewrite count_cons. unfold blob_stream at 1. rewrite Hs.
      apply format_counts_Some in Hf as [(-> & -> & Hfm)|([-> ->] & Hfm & _)].
      * rewrite bool_decide_true by done. cbn. lia.
      * rewrite bool_decide_false by done. cbn. lia.
    + intros x Hx. apply not_elem_of_cons in Hx as [Hne Hx].
      by rewrite (Hout x Hx), lookup_insert_ne.
    + intros x [->|Hx]%elem_of_cons.
      * exists s, (MkStream id (set_priv 0 s) c ∅). split_and!; [|by rewrite (Hout c Hc), lookup_insert_eq|done].
        split_and!; try done.
        apply format_counts_Some in Hf as [(_ & _ & Hfm)|(_ & _ & Hpf & Hfm)]; [by left|right].
        split; [done|]. destruct Hfm as [?|[?|[?|Hk]]]; [auto|auto|auto|].
        apply bool_decide_eq_true in Hk. auto.
      * destruct (Hin x Hx) as (s' & n & (Ha & Ha') & Hn' & He). exists s', n. split_and!; try done.
        split; [by rewrite <- Hcl|]. by rewrite <- Hcam.
Qed.

(** A configuration the adapter passes on to the stock library has each
    stream once, at most one for JPEG and at most three others, all of them
    outputs that are not empty and of a format the stock library knows, YV12
    only for a stream that was resolved to it before; every one has a new
    entry without buffers, whose legacy stream is the client's with [priv]
    cleared, and the stock library gets them in the client's order. *)
Theorem configuration_limits streams (w : W) next vs :
  (check_streams streams 0 0 ∅ [] w).1 = inr (next, vs) →
  streams = Some <$> vs ∧ NoDup vs ∧
  count (blob_stream w) vs <= 1 ∧ count (λ c, negb (blob_stream w c)) vs <= 3 ∧
  (∀ c, c ∉ vs → next !! c = None) ∧
  (∀ c, c ∈ vs → ∃ s n, stream_admitted w c s ∧ next !! c = Some n ∧ new_entry c s n).
Proof.
  intros Hr. destruct (check_streams_Some streams 0 0 ∅ [] w next vs ltac:(lia) ltac:(lia) Hr)
    as (l & -> & -> & Hnd & _ & Hb & Ho & Hout & Hin).
  by split_and!.
Qed.

(** ** The sensor mode *)

(** The sizes the adapter compares to decide whether the stock device must be
    restarted are those of the configured processed streams that do not feed the
    encoder: JPEG streams, encoder streams, further streams of the same size
    and the order do not matter. *)
Theorem sensor_mode_sizes clients streams width height :
  (width, height) ∈ processedGeometry clients streams ↔
  ∃ key n s, streams !! key = Some n ∧ clients !! s_client n = Some s ∧
    isProcessedFormat (st_format s) = true ∧
    Z.land (st_usage s) GRALLOC_USAGE_HW_VIDEO_ENCODER = 0 ∧ st_width s = width ∧ st_height s = height.
Proof.
  unfold processedGeometry. rewrite elem_of_list_to_set, list_elem_of_omap. split.
  - intros ([key n] & Hin & Hg). apply elem_of_map_to_list in Hin.
    apply bind_Some in Hg as (s & Hs & Hg). unfold stream_geometry in Hg.
    destruct (isProcessedFormat (st_format s)) eqn:Hp; [|done]. cbn in Hg.
    case_bool_decide as Hu; [done|]. injection Hg as <- <-. exists key, n, s.
    split_and!; try done.
  - intros (key & n & s & Hn & Hs & Hp & Hu & <- & <-). exists (key, n).
    split; [by apply elem_of_map_to_list|]. rewrite Hs. cbn. unfold stream_geometry. rewrite Hp, Hu.
    cbn. by rewrite bool_decide_false by (intros Hx; by apply Hx).
Qed.

(** ** Calls that are refused *)

Lemma alone_with_request {A} t (body : proc W A) (w : W) a :
  w_request w = None →
  alone body (set_request (Some t) w) = Some (a, set_request (Some t) w) →
  alone (with_request t body) w = Some (a, w).
Proof.
  intros Hr Hb. unfold with_request. rewrite alone_bind. unfold lock_request.
  rewrite alone_act, Hr. cbn [alone]. rewrite alone_bind, Hb.
  rewrite alone_bind. cbn. destruct w. cbn in *. by subst.
Qed.

Lemma alone_reads {A B} (f : W → A) (g : A → proc W B) (w : W) :
  alone (atomic (reads f) ≫= g) w = alone (g (f w)) w.
Proof. by rewrite alone_bind. Qed.

(** A device with a fatal error, one that is closing and one that is not
    initialized refuse [configure] and [capture] and stay exactly as they are:
    nothing is asked of the stock library or of gralloc.  So does [configure]
    while requests are in flight. *)
Theorem refused_calls_change_nothing t config request (w : W) :
  w_request w = None →
  (device_dead (w_cam w) = true ∨ c_frames (w_cam w) ≠ ∅ →
   ∃ r, alone (configure t config) w = Some (r, w) ∧ r ∈ [- EINVAL; - ENODEV; - EBUSY]) ∧
  (device_dead (w_cam w) = true →
   ∃ r, alone (capture t request) w = Some (r, w) ∧ r ∈ [- EINVAL; - ENODEV]).
Proof.
  intros Hr. split.
  - intros Hd. unfold configure.
    assert (Hinv : ∃ r, alone (mret (- EINVAL) : proc W Z) w = Some (r, w) ∧
                        r ∈ [- EINVAL; - ENODEV; - EBUSY]) by (eexists; split; [done|left]).
    destruct config as [[[[|s l]|] mode]|]; try exact Hinv.
    destruct (bool_decide _); [exact Hinv|].
    exists (if device_dead (w_cam w) then - ENODEV else - EBUSY). split.
    + apply alone_with_request; [done|]. rewrite alone_reads. cbn [w_cam set_request].
      destruct (device_dead (w_cam w)); [done|]. destruct Hd as [|Hf]; [done|].
      by rewrite (bool_decide_false (c_frames (w_cam w) = ∅)).
    + destruct (device_dead (w_cam w)); set_solver.
  - intros Hd. unfold capture.
    assert (Hinv : ∃ r, alone (mret (- EINVAL) : proc W Z) w = Some (r, w) ∧ r ∈ [- EINVAL; - ENODEV])
      by (eexists; split; [done|left]).
    destruct request as [[n settings [] [[|b l]|]]|]; try exact Hinv.
    exists (- ENODEV). split; [|set_solver].
    apply alone_with_request; [done|]. rewrite alone_reads. cbn [w_cam set_request]. by rewrite Hd.
Qed.

(** ** Trigger ids *)

(** The id of a trigger is positive and an [int], and differs from the one
    before: the stock library, which tells triggers apart by their ids, sees
    every new one. *)
Theorem trigger_ids_advance id :
  0 <= id <= INT_MAX → 1 <= next_trigger id <= INT_MAX ∧ next_trigger id ≠ id.
Proof.
  intros Hid. unfold next_trigger. case_bool_decide; unfold INT_MAX in *; lia.
Qed.

End ops.

(** ** Names of cameras *)

Fixpoint zeros (n : nat) (s : string) : string :=
  match n with O => s | S n => String "0"%char (zeros n s) end.

Lemma digits_value_above acc s id : 0 <= acc → digits_value acc s = Some id → acc <= id.
Proof.
  revert acc. induction s as [|c s IH]; intros acc Ha Hd; cbn in Hd; [injection Hd; lia|].
  case_bool_decide as Hc; [|done]. apply IH in Hd; lia.
Qed.

Lemma digits_value_zeros n c :
  digits_value 0 (zeros n (String c EmptyString)) =
    (let d := Z.of_nat (nat_of_ascii c) - 48 in if bool_decide (0 <= d <= 9) then Some d else None).
Proof.
  induction n as [|n IH]; cbn; [|exact IH]. by case_bool_decide.
Qed.

Lemma digit_char c d : Z.of_nat (nat_of_ascii c) - 48 = Z.of_nat d → c = ascii_of_nat (48 + d).
Proof. intros Hc. rewrite <- (ascii_nat_embedding c). f_equal. lia. Qed.

(** The names of cameras are the two decimal numbers 0 and 1, with leading
    zeros or without: no sign, no other character, no larger number, and the
    empty name is none. *)
Theorem camera_names name id :
  camera_id (Some name) = Some id ↔
  (id = 0 ∨ id = 1) ∧ ∃ n, name = zeros n (String (ascii_of_nat (48 + Z.to_nat id)) EmptyString).
Proof.
  split.
  - unfold camera_id. destruct name as [|c s]; [done|].
    destruct (digits_value 0 (String c s)) as [v|] eqn:Hd; [|done]. cbn.
    case_bool_decide as Hv; [done|]. intros [= ->].
    enough (He : id = 0 ∨ id = 1).
    { split; [exact He|]. revert c Hd. induction s as [|c' s IH]; intros c Hd.
      - cbn [digits_value] in Hd. case_bool_decide as Hc; [|done]. injection Hd as Hd. exists O. cbn [zeros]. f_equal.
        apply digit_char. lia.
      - assert (Hz : Z.of_nat (nat_of_ascii c) - 48 = 0).
        { cbn [digits_value] in Hd. case_bool_decide as Hc; [|done]. case_bool_decide as Hc'; [|done].
          apply digits_value_above in Hd; lia. }
        destruct (IH c') as [n Hn].
        + cbn [digits_value] in Hd |- *. rewrite Hz in Hd. exact Hd.
        + exists (S n). cbn [zeros]. rewrite Hn. f_equal. by apply (digit_char c 0). }
    pose proof (digits_value_above 0 (String c s) id ltac:(lia) Hd). lia.
  - intros [Hid [n ->]].
    assert (Hd : digits_value 0 (zeros n (String (ascii_of_nat (48 + Z.to_nat id)) EmptyString)) = Some id).
    { rewrite digits_value_zeros. by destruct Hid as [-> | ->]. }
    assert (Hne : ∃ c s, zeros n (String (ascii_of_nat (48 + Z.to_nat id)) EmptyString) = String c s)
      by (destruct n; cbn; eauto).
    destruct Hne as (c & s & He). unfold camera_id. rewrite He in Hd |- *. rewrite Hd. cbn.
    rewrite bool_decide_false; [done|]. lia.
Qed.
