(* ===== verification/CameraFrames.v ===== *)
(** * Requests and configurations from end to end

    What the stock library is sent for a request, what the client gets when
    everything comes back, and what a configuration leaves behind. *)

From S2P Require Import Prelude Threads CameraH LegacyMeta LegacyMetaFacts CameraWrap Camera3.
From S2P Require Import CameraInv CameraSystem CameraCapture CameraSubmit.
From S2P Require Import CameraRuns SoftCamera CameraReturns.
From stdpp Require Import gmap.
From Stdlib Require Import Ascii String.

#[global] Open Scope Z_scope.

(** ** Buffers that come back *)

Section frames.
  Context {K : Type} `{CameraMetadataApi K} `{!CameraH} `{!CameraTags} `{!CameraPlatform K}.

Abbreviation W := (camera_world K).

(** What a buffer is recognised by. *)
Definition buffer_key (b : camera3_stream_buffer) : Z * Z := (sb_stream b, sb_handle b).

Lemma find_expected_key k b expected ret j e :
  NoDup (sb_stream <$> expected) → expected !! j = Some e → ret !! j = Some false →
  is_Some (sb_buffer b) → buffer_key b = buffer_key e →
  find_expected k b expected ret = Some (k + j)%nat.
Proof.
  revert k ret j. induction expected as [|e' expected IH]; intros k ret j Hnd Hj Hr Hb Hk; [done|].
  rewrite fmap_cons in Hnd. apply NoDup_cons in Hnd as [Hn Hnd].
  destruct ret as [|d ret]; [done|]. injection Hk as Hs Hh. cbn [find_expected].
  destruct j as [|j]; cbn in Hj, Hr.
  - injection Hj as ->. injection Hr as ->. rewrite !bool_decide_true by done. cbn. f_equal. lia.
  - rewrite (bool_decide_false (sb_stream b = sb_stream e')).
    + cbn [andb]. rewrite (IH (S k) ret j) by (done || by unfold buffer_key; congruence). f_equal. lia.
    + intros Heq. apply Hn. rewrite <- Heq, Hs. apply list_elem_of_fmap. exists e.
      split; [done|]. by eapply list_elem_of_lookup_2.
Qed.

(** The buffers [l] are those the frame still waits for. *)
Definition awaits (f : Frame K) (l : list camera3_stream_buffer) : Prop :=
  NoDup (buffer_key <$> l) ∧
  (∀ b, b ∈ l → is_Some (sb_buffer b) ∧ ∃ j e, fr_vendorBuffers f !! j = Some e ∧
     buffer_key b = buffer_key e ∧ fr_returned f !! j = Some false) ∧
  (∀ j e, fr_vendorBuffers f !! j = Some e → fr_returned f !! j = Some false →
     buffer_key e ∈ buffer_key <$> l).

Lemma take_all l (f : Frame K) output :
  NoDup (sb_stream <$> fr_vendorBuffers f) → awaits f l →
  ∃ f' output', take_buffers l f output [] = (f', output', []) ∧
    ∀ j, is_Some (fr_vendorBuffers f !! j) → fr_returned f' !! j ≠ Some false.
Proof.
  revert f output. induction l as [|b l IH]; intros f output Hnd (Hnl & Hin & Hall).
  - exists f, output. split; [done|]. intros j [e He] Hr. specialize (Hall j e He Hr).
    by apply elem_of_nil in Hall.
  - destruct (Hin b ltac:(left)) as (Hb & j & e & He & Hk & Hr). cbn [take_buffers].
    rewrite (find_expected_key 0 b _ _ j e) by done. cbn [Nat.add].
    rewrite fmap_cons in Hnl. apply NoDup_cons in Hnl as [Hn Hnl].
    apply (IH (set_returned j f)); [done|]. split_and!; [done| |].
    + intros b' Hb'. destruct (Hin b' ltac:(by right)) as (Hs' & j' & e' & He' & Hk' & Hr').
      split; [done|]. exists j', e'. split_and!; try done. cbn. rewrite list_lookup_insert_ne; [done|].
      intros <-. apply Hn. assert (e' = e) as -> by congruence. rewrite Hk, <- Hk'.
      by apply list_elem_of_fmap_2.
    + intros j' e' He' Hr'. cbn in He', Hr'. destruct (decide (j = j')) as [<-|Hne].
      { rewrite list_lookup_insert_eq in Hr'; [done|]. by eapply lookup_lt_Some. }
      rewrite list_lookup_insert_ne in Hr' by done. specialize (Hall j' e' He' Hr').
      rewrite fmap_cons in Hall. apply elem_of_cons in Hall as [Heq|]; [|done].
      exfalso. apply Hne. assert (e' = e ∧ j' = j) as [_ ?]; [|done].
      assert (Hstream : sb_stream e' = sb_stream e) by (unfold buffer_key in *; congruence).
      assert (j' = j) as ->; [|split; congruence].
      eapply NoDup_lookup; [exact Hnd| |]; rewrite list_lookup_fmap, ?He, ?He'; cbn; [done|].
      by rewrite Hstream.
Qed.

(** When the stock library gives back the buffers of a request, in any order
    and with whatever status and fences, the frame recognises each of them: no
    one is strange, none is left, and the client gets each of its buffers once. *)
Theorem returned_in_any_order (f : Frame K) (l : list camera3_stream_buffer) :
  let n := List.length (fr_clientBuffers f) in
  NoDup (sb_stream <$> fr_vendorBuffers f) → List.length (fr_vendorBuffers f) = n →
  fr_returned f = replicate n false → fr_remaining f = Z.of_nat n → Z.of_nat n < 2 ^ 32 →
  Forall (λ b, is_Some (sb_buffer b)) l →
  buffer_key <$> l ≡ₚ buffer_key <$> fr_vendorBuffers f →
  ∃ f' output, take_buffers l f [] [] = (f', output, []) ∧ fr_remaining f' = 0 ∧
    output.*1 ≡ₚ seq 0 n ∧ outputs_ok (fr_clientBuffers f) output.
Proof.
  intros n Hnd Hlen Hret Hrem Hn Hb Hperm.
  assert (Hnk : NoDup (buffer_key <$> fr_vendorBuffers f)).
  { apply (NoDup_fmap_1 fst). rewrite <- list_fmap_compose. exact Hnd. }
  destruct (take_all l f [] Hnd) as (f' & output & Ht & Hdone).
  { split_and!; [by rewrite Hperm| |].
    - intros b Hin. rewrite Forall_forall in Hb. split; [by apply Hb|].
      assert (Hk : buffer_key b ∈ buffer_key <$> fr_vendorBuffers f)
        by (rewrite <- Hperm; by apply list_elem_of_fmap_2).
      apply list_elem_of_fmap in Hk as (e & Hk & He). apply list_elem_of_lookup in He as [j Hj].
      exists j, e. split_and!; try done. rewrite Hret. apply lookup_replicate. split; [done|].
      apply lookup_lt_Some in Hj. lia.
    - intros j e He _. rewrite Hperm. apply list_elem_of_fmap_2. by eapply list_elem_of_lookup_2. }
  assert (Hlr : List.length (fr_returned f) = n) by by rewrite Hret, length_replicate.
  assert (Htk : taken f f' output).
  { eapply (take_buffers_taken l f f [] []); [|by rewrite Hlr|by rewrite Hlr|exact Ht].
    split; try done; [|cbn; lia|apply NoDup_nil_2| |by intros i x Hi%elem_of_nil].
    - rewrite Hret, Hrem. clear. induction n as [|k IH]; [done|].
      cbn [replicate]. rewrite count_cons, <- IH. cbn. lia.
    - by intros i Hi%elem_of_nil. }
  exists f', output. destruct Htk as [(_ & Hc & Hv & _) Hl Hrem' Hct Hdist Hnew Hold Hout].
  assert (Htrue : ∀ j, (j < n)%nat → fr_returned f' !! j = Some true).
  { intros j Hj. specialize (Hdone j). rewrite <- Hlen in Hj.
    specialize (Hdone (lookup_lt_is_Some_2 _ _ Hj)).
    destruct (lookup_lt_is_Some_2 (fr_returned f') j ltac:(lia)) as [[] Hd]; [done|congruence]. }
  assert (Hin : ∀ j, j ∈ output.*1 ↔ j ∈ seq 0 n).
  { intros j. rewrite elem_of_seq. split.
    - intros Hj. destruct (Hnew j Hj) as [Hf _]. apply lookup_lt_Some in Hf. lia.
    - intros Hj. destruct (decide (j ∈ output.*1)) as [|Hno]; [done|]. apply Hold in Hno.
      rewrite Htrue, Hret in Hno by lia. symmetry in Hno. by apply lookup_replicate in Hno as [? _]. }
  assert (Hperm' : output.*1 ≡ₚ seq 0 n) by (apply NoDup_Permutation; [done|apply NoDup_seq|exact Hin]).
  split_and!; try done.
  assert (Hlo : List.length output = n)
    by (rewrite <- (length_fmap fst), Hperm'; apply length_seq).
  assert (Hc0 : count negb (fr_returned f) = Z.of_nat n).
  { rewrite Hret. clear. induction n as [|k IH]; [done|].
    cbn [replicate]. rewrite count_cons, IH. cbn. lia. }
  rewrite Hrem'. lia.
Qed.

(** ** What the stock library is sent *)

(** The buffer [v] stands for the client's buffer [b]. *)
Definition stands_for (streams : gmap Z Stream) (b v : camera3_stream_buffer) : Prop :=
  ∃ s ref, streams !! sb_stream b = Some s ∧ s_buffers s !! sb_handle b = Some ref ∧
    v = Buffer3 (s_id s) (Some (ref, sb_handle b)) (sb_status b) (sb_acquire_fence b)
          (sb_release_fence b).

Lemma vendor_buffers_run l (w : W) :
  (∀ b, b ∈ l → has_ref (c_streams (w_cam w)) b) →
  ∃ vs, vendor_buffers l w = (vs, w) ∧ Forall2 (stands_for (c_streams (w_cam w))) l vs.
Proof.
  induction l as [|b l IH]; intros Hl; [by exists []|].
  destruct (Hl b ltac:(left)) as (s & Hs & ref & Hr).
  destruct IH as (vs & Hvs & Hf); [intros b' Hb'; apply Hl; by right|].
  eexists. cbn [vendor_buffers]. rewrite bind_run. unfold reads. cbn [fst snd]. rewrite Hs, Hr.
  rewrite bind_run. cbn [fst snd mret M_ret]. rewrite bind_run, Hvs. split; [done|].
  constructor; [|done]. by exists s, ref.
Qed.

(** Actions that leave the table of streams. *)
Definition streams_stay {A} (m : M W A) : Prop :=
  ∀ w, c_streams (w_cam (m w).2) = c_streams (w_cam w).

Lemma stay_bind {A B} (m : M W A) (g : A → M W B) :
  streams_stay m → (∀ a, streams_stay (g a)) → streams_stay (m ≫= g).
Proof. intros Hm Hg w. rewrite bind_run. by rewrite (Hg _ _), Hm. Qed.

Lemma stay_ask {A} (m : M K A) : streams_stay (ask m).
Proof. intros w. unfold ask. by destruct (m (w_k w)). Qed.

Lemma request_settings_streams settings : streams_stay (request_settings settings).
Proof.
  assert (Hret : ∀ A (a : A), streams_stay (mret a)) by by intros A a w.
  assert (Hreads : ∀ A (f : W → A), streams_stay (reads f)) by by intros A f w.
  destruct settings as [p|]; cbn [request_settings].
  2: { apply stay_bind; [apply Hreads|]. intros last. by destruct (md_isEmpty last). }
  unfold translate_settings. apply stay_bind; [apply stay_ask|]. intros m.
  apply stay_bind; [apply Hreads|]. intros info.
  apply stay_bind; [destruct (md_isEmpty m); [apply Hret|apply stay_ask]|]. intros [[] m']; [|apply Hret].
  apply stay_bind; [apply Hreads|]. intros c. cbv zeta. apply stay_bind; [by intros u|]. intros _.
  apply stay_bind; [apply stay_ask|]. intros [r1 m1]. destruct (bool_decide _); [apply Hret|].
  apply stay_bind; [apply stay_ask|]. intros [r2 m2]. destruct (bool_decide _); [apply Hret|].
  apply stay_bind; [apply Hreads|]. intros last. apply stay_bind; [apply stay_ask|]. intros l.
  apply stay_bind; [by intros u|]. intros _. apply Hret.
Qed.

(** The request the stock library is sent has the frame number of the
    client's, settings if and only if the client's has, and for every buffer
    the stock library's own stream object and the registered copy of the same
    handle; the frame keeps the client's buffers next to them. *)
Theorem sent_request request l (w : W) f v w' :
  (∀ b, b ∈ l → has_ref (c_streams (w_cam w)) b) →
  make_frame request l w = (inr (f, v), w') →
  vr_frame_number v = cr_frame_number request ∧
  Forall2 (stands_for (c_streams (w_cam w))) l (vr_output_buffers v) ∧
  fr_vendorBuffers f = vr_output_buffers v ∧ fr_clientBuffers f = l ∧
  fr_returned f = replicate (List.length l) false ∧ fr_remaining f = Z.of_nat (List.length l) ∧
  fr_metadataDone f = false ∧ fr_shutterDone f = false ∧
  (cr_settings request = None → vr_settings v = None).
Proof.
  intros Hl Hm. unfold make_frame in Hm. rewrite bind_run in Hm.
  assert (Hst : c_streams (w_cam (request_settings (cr_settings request) w).2) = c_streams (w_cam w))
    by apply request_settings_streams.
  destruct (request_settings (cr_settings request) w) as [[e|m] w1]; cbn [fst snd] in Hm, Hst; [done|].
  rewrite bind_run in Hm. rewrite <- Hst in Hl.
  destruct (vendor_buffers_run l w1 Hl) as (vs & Hvs & Hf). rewrite Hvs in Hm. cbn [fst snd] in Hm.
  rewrite bind_run in Hm. cbn in Hm. injection Hm as <- <- _. cbn. rewrite <- Hst.
  split_and!; try done. by intros ->.
Qed.

(** ** What a configuration leaves behind *)

Lemma unregister_all_keeps l (w : W) :
  w_cam (unregister_all l w).2 = w_cam w ∧ w_clients (unregister_all l w).2 = w_clients w.
Proof.
  revert w. induction l as [|h l IH]; intros w; [done|]. cbn [unregister_all]. rewrite !bind_run.
  destruct (IH (note [LUnregister h] (ask (unregisterBuffer h) w).2).2) as [-> ->].
  unfold ask. by destruct (unregisterBuffer h (w_k w)).
Qed.

(** After a configuration the stock library has accepted, the client finds in
    each stream of it the format, usage and number of buffers the stock library
    resolved, its size and type as they were; no other stream of the client has
    changed; the new streams are in effect, and settings must be sent again. *)
Theorem adopted_configuration next (w w' : W) :
  alone (adopt_streams next) w = Some (tt, w') →
  c_streams (w_cam w') = next ∧ c_lastSettings (w_cam w') = md_new ∧
  (∀ c s, w_clients w !! c = Some s →
     ∃ s', w_clients w' !! c = Some s' ∧
       match next !! c with
       | Some n => st_format s' = st_format (s_legacy n) ∧ st_usage s' = st_usage (s_legacy n) ∧
           st_max_buffers s' = st_max_buffers (s_legacy n) ∧ st_priv s' = 0 ∧
           st_type s' = st_type s ∧ st_width s' = st_width s ∧ st_height s' = st_height s
       | None => s' = s
       end) ∧
  (∀ c, w_clients w !! c = None → w_clients w' !! c = None).
Proof.
  unfold adopt_streams. rewrite !alone_then, alone_atomic, !bind_run. cbn [reads modify modify_cam fst snd].
  set (w2 := upd_cam (set_last md_new) _).
  destruct (unregister_all_keeps (streams_handles (c_streams (w_cam w))) w2) as [Hc Hcl].
  destruct (unregister_all _ w2) as [[] w3]. cbn [snd] in Hc, Hcl. intros [= <-].
  rewrite Hc, Hcl. cbn. split_and!; try done.
  - intros c s Hs. unfold write_back. rewrite map_lookup_imap, Hs. cbn. eexists. split; [done|].
    by destruct (next !! c).
  - intros c Hs. unfold write_back. by rewrite map_lookup_imap, Hs.
Qed.

End frames.
