(* ===== verification/CameraLink.v ===== *)
(** * The module behind the device

    What the camera module promises: the stock module is looked for once, and
    the answers it has given last.  The module is the implementation of what
    Camera3.v expects of it: a device is opened over the module's own state. *)

From S2P Require Import Prelude CameraH LegacyMeta LegacyMetaFacts.
From S2P Require Import CameraWrap Camera3 SoftCamera.
From stdpp Require Import gmap.

#[global] Open Scope Z_scope.

(** ** The module's answers last *)

Section module.
  Context {K : Type} `{CameraMetadataLaws K} `{!StockModule K} `{!CameraH} `{!CameraTags}.

Abbreviation W := (module_world K).

(** The methods of [HAL_MODULE_INFO_SYM] but [open]; [null]: the argument is null. *)
Inductive module_call :=
  | GetNumberOfCameras
  | GetCameraInfo (id : Z) (null : bool)
  | SetCallbacks
  | GetVendorTagOps (null : bool)
  | OpenLegacy.

Definition module_step (c : module_call) : M W unit :=
  match c with
  | GetNumberOfCameras => _ ← numberOfCameras; mret tt
  | GetCameraInfo id null => _ ← get_mocha_camera_info id null; mret tt
  | SetCallbacks => _ ← setCallbacks; mret tt
  | GetVendorTagOps null => if null then mret tt else _ ← vendorTags; mret tt
  | OpenLegacy => mret tt
  end.

Fixpoint module_calls (l : list module_call) : M W unit :=
  match l with [] => mret tt | c :: l => _ ← module_step c; module_calls l end.

(** The stock module, once looked for, and the characteristics that have been
    handed out stay. *)
Definition stays (w w' : W) : Prop :=
  (vendorOnce w = true → vendorOnce w' = true ∧ vendorModule w' = vendorModule w) ∧
  (∀ id m, characteristics w !! id = Some m → md_isEmpty m = false →
     ∃ m', characteristics w' !! id = Some m' ∧ md_buffer m' = md_buffer m) ∧
  (∀ id, is_Some (characteristics w !! id) → is_Some (characteristics w' !! id)).

Lemma stays_refl w : stays w w.
Proof. split_and!; eauto. Qed.

Lemma isEmpty_buffer (m m' : md) : md_buffer m' = md_buffer m → md_isEmpty m' = md_isEmpty m.
Proof. intros Hb. unfold md_isEmpty, md_entries. by rewrite Hb. Qed.

Lemma stays_trans w1 w2 w3 : stays w1 w2 → stays w2 w3 → stays w1 w3.
Proof.
  intros (O1 & C1 & I1) (O2 & C2 & I2). split_and!.
  - intros Ho. destruct (O1 Ho) as [Ho2 <-]. by apply O2.
  - intros id m Hm He. destruct (C1 id m Hm He) as (m2 & Hm2 & Hb).
    destruct (C2 id m2 Hm2) as (m3 & Hm3 & Hb3); [by rewrite (isEmpty_buffer m)|].
    exists m3. split; [done|]. congruence.
  - auto.
Qed.

Definition call_stays {A} (m : M W A) : Prop := ∀ w, stays w (m w).2.

Lemma stays_ret {A} (a : A) : call_stays (mret a).
Proof. intros w. apply stays_refl. Qed.

Lemma stays_bind {A B} (m : M W A) (g : A → M W B) :
  call_stays m → (∀ a, call_stays (g a)) → call_stays (m ≫= g).
Proof. intros Hm Hg w. rewrite bind_run. eapply stays_trans; [apply Hm|apply Hg]. Qed.

Lemma stays_ask {A} (m : M K A) : call_stays (call m).
Proof. intros w. unfold call. destruct (m (mw_k w)). split_and!; eauto. Qed.

Lemma stays_get {A} (f : W → A) : call_stays (get f).
Proof. intros w. apply stays_refl. Qed.

(** Loading changes the module's pointer only. *)
Lemma load_characteristics w :
  characteristics (loadVendorModule w).2 = characteristics w.
Proof.
  assert (Hbind : ∀ {A B} (m : M W A) (g : A → M W B),
    (∀ u, characteristics (m u).2 = characteristics u) →
    (∀ a u, characteristics (g a u).2 = characteristics u) →
    ∀ u, characteristics ((m ≫= g) u).2 = characteristics u).
  { intros A B m g Hm Hg u. by rewrite bind_run, Hg, Hm. }
  assert (Hcall : ∀ {A} (m : M K A) u, characteristics (call m u).2 = characteristics u).
  { intros A m u. unfold call. by destruct (m (mw_k u)). }
  assert (Hwait : ∀ n u, characteristics (wait_for_nodes n u).2 = characteristics u).
  { induction n as [|n IH]; [done|]. cbn [wait_for_nodes]. apply Hbind; [apply Hcall|].
    intros imx. apply Hbind; [intros u; destruct imx; [apply Hcall|done]|].
    intros ov u. destruct ov; [done|]. revert u. apply Hbind; [apply Hcall|]. intros _. exact IH. }
  unfold loadVendorModule. apply Hbind.
  - unfold prepareImagerDevices. apply Hbind; [apply Hcall|]. intros [] u; cbn [negb]; [|done].
    revert u. apply Hbind; [apply Hcall|]. intros [i d] u. destruct (negb _); [done|]. revert u.
    apply Hbind; [apply Hcall|]. intros initialized. apply Hbind.
    + intros u. destruct initialized; [apply Hcall|done].
    + intros detected u. destruct detected; cbn [negb]; [apply Hwait|done].
  - intros ready u. destruct ready; cbn [negb]; [|done]. revert u. apply Hbind; [apply Hcall|].
    intros [r [m|]] u; [|done]. destruct (bool_decide _); [done|]. by destruct (module_supported m).
Qed.

(** The stock module is looked for when it is first needed. *)
Lemma module_run w :
  let w' := (get_stock_camera_module w).2 in
  stays w w' ∧ vendorOnce w' = true ∧ (get_stock_camera_module w).1 = vendorModule w' ∧
  characteristics w' = characteristics w.
Proof.
  unfold get_stock_camera_module. rewrite bind_run. cbn [get fst snd]. rewrite bind_run.
  destruct (vendorOnce w) eqn:Ho; cbn [fst snd mret M_ret get].
  - split_and!; [apply stays_refl|done|done|done].
  - rewrite bind_run. pose proof (load_characteristics w) as Hc.
    destruct (loadVendorModule w) as [u w1]. cbn in Hc |- *. split_and!; try done.
    split_and!; cbn; [congruence| |]; rewrite Hc; eauto.
Qed.

Lemma stays_module : call_stays get_stock_camera_module.
Proof. intros w. apply module_run. Qed.

Lemma stays_describe id : call_stays (describe_info id).
Proof.
  intros w. unfold describe_info. rewrite bind_run.
  pose proof (stays_ask (stock_get_camera_info id) w) as H1s.
  destruct (call (stock_get_camera_info id) w) as [[r stock] w1]. cbn [fst snd] in *.
  eapply stays_trans; [exact H1s|]. clear H1s w. rename w1 into w.
  destruct (bool_decide _); [apply stays_refl|]. destruct (bool_decide _); [apply stays_refl|].
  rewrite bind_run. cbn [get fst snd].
  destruct (characteristics w !! Z.to_nat id) as [mine|] eqn:Hm; [|apply stays_refl].
  rewrite bind_run.
  set (go := if md_isEmpty mine then _ else _).
  assert (Hgo : ∃ ok m' k, go w = ((ok, m'), ModuleWorld k (vendorOnce w) (vendorModule w) (characteristics w)) ∧
            (md_isEmpty mine = false → m' = mine)).
  { unfold go. destruct (md_isEmpty mine).
    - unfold call. destruct (buildCharacteristics _ mine (mw_k w)) as [[ok m'] k].
      by exists ok, m', k.
    - exists true, mine, (mw_k w). by destruct w. }
  destruct Hgo as (ok & m' & k & -> & Hsame). cbn [fst snd]. rewrite bind_run. cbn [set_characteristics fst snd].
  assert (Hst : ∀ m2, md_buffer m2 = md_buffer m' →
    stays w (ModuleWorld k (vendorOnce w) (vendorModule w) (<[Z.to_nat id := m2]> (characteristics w)))).
  { intros m2 Hm2. split_and!; cbn; [auto| |].
    - intros i m Hi He. destruct (decide (i = Z.to_nat id)) as [->|Hne].
      + rewrite list_lookup_insert_eq by by eapply lookup_lt_Some. exists m2. split; [done|].
        rewrite Hm in Hi. injection Hi as ->. by rewrite Hm2, Hsame.
      + rewrite list_lookup_insert_ne by done. eauto.
    - intros i Hi. apply lookup_lt_is_Some. rewrite length_insert. by apply lookup_lt_is_Some. }
  destruct ok; cbn [negb]; [|by apply Hst].
  rewrite bind_run. cbn [set_characteristics fst snd vendorOnce vendorModule characteristics mw_k].
  rewrite list_insert_insert_eq. apply Hst.
  destruct (md_getAndLock_law m') as [Hb _]. rewrite <- Hb. rewrite (proj1 (md_unlock_law _)). done.
Qed.

Lemma stays_info id null : call_stays (get_mocha_camera_info id null).
Proof.
  unfold get_mocha_camera_info. destruct (null || _ || _); [apply stays_ret|].
  apply stays_bind; [apply stays_module|]. intros [m|]; [|apply stays_ret].
  apply stays_bind; [apply stays_ask|]. intros n. destruct (bool_decide _); [apply stays_ret|].
  apply stays_describe.
Qed.

Lemma stays_step c : call_stays (module_step c).
Proof.
  destruct c as [|id null| |[]|]; cbn [module_step]; try apply stays_ret;
    (apply stays_bind; [|intros; apply stays_ret]).
  - unfold numberOfCameras. apply stays_bind; [apply stays_module|].
    intros [m|]; [apply stays_ask|apply stays_ret].
  - apply stays_info.
  - unfold setCallbacks. apply stays_bind; [apply stays_module|]. intros [m|]; [|apply stays_ret].
    destruct (cm_set_callbacks m); [apply stays_ask|apply stays_ret].
  - unfold vendorTags. apply stays_bind; [apply stays_module|]. intros [m|]; [|apply stays_ret].
    destruct (_ && _); [|apply stays_ret]. apply stays_bind; [apply stays_ask|].
    intros u. apply stays_ret.
Qed.

(** Once the module has looked for the stock module, successfully or not, no
    later call looks for it again or changes what was found, and the
    characteristics of a camera that were handed out stay where and as they are,
    whatever calls follow. *)
Theorem module_answers_last (l : list module_call) (w : W) :
  vendorOnce w = true →
  let w' := (module_calls l w).2 in
  vendorOnce w' = true ∧ vendorModule w' = vendorModule w ∧
  (∀ id m, characteristics w !! id = Some m → md_isEmpty m = false →
     ∃ m', characteristics w' !! id = Some m' ∧ md_buffer m' = md_buffer m).
Proof.
  intros Ho. assert (Hs : call_stays (module_calls l)).
  { induction l as [|c l IH]; [apply stays_ret|].
    apply stays_bind; [apply stays_step|]. intros _. exact IH. }
  destruct (Hs w) as (Hv & Hc & _). destruct (Hv Ho) as [Ho' Hv']. by split_and!.
Qed.

End module.

(** ** The device over the module *)

(** What Camera3.v uses besides the module: gralloc, the allocator, and the
    devices of the stock library. *)
Class StockDevices (K : Type) := {
  lib_get_gralloc : M K (Z * (bool * bool));
  lib_new_nothrow : M K bool;
  lib_open : String.string → M K (Z * option stock_device);
  lib_close : Z → M K Z;
  lib_initialize : Z → M K Z;
  lib_configure_streams : Z → list (Z * camera3_stream) → M K (Z * list camera3_stream);
  lib_register_stream_buffers : Z → Z → list Z → M K Z;
  lib_default_request : Z → Z → M K (option packet);
  lib_process_capture_request : Z → vendor_request → M K Z;
  lib_dump : Z → M K unit;
  lib_registerBuffer : Z → M K Z;
  lib_unregisterBuffer : Z → M K unit
}.

Section link.
  Context {K : Type} `{CameraMetadataLaws K} `{!StockModule K} `{!StockDevices K} `{!CameraH}
    `{!CameraTags}.

Abbreviation W := (module_world K).

(** Metadata objects, as the module's code sees them. *)
#[local] Instance module_metadata : CameraMetadataApi W := {|
  md := md;
  md_new := md_new;
  md_buffer := md_buffer;
  md_locked := md_locked;
  md_getAndLock := md_getAndLock;
  md_unlock := md_unlock;
  md_assign p m := call (md_assign p m);
  md_clear m := call (md_clear m);
  md_acquire p m := call (md_acquire p m);
  md_update t ty d m := call (md_update t ty d m);
  md_update_entry e m := call (md_update_entry e m);
  md_erase t m := call (md_erase t m);
  clone_camera_metadata l := call (clone_camera_metadata l)
|}.

Lemma call_fst {A} (m : M K A) (w : W) : (call m w).1 = (m (mw_k w)).1.
Proof. unfold call. by destruct (m (mw_k w)). Qed.

(** The laws of the interface hold of them. *)
#[local] Instance module_metadata_laws : CameraMetadataLaws W.
Proof.
  split; try (intros *; unfold md_assign, md_clear, md_acquire, md_update, md_update_entry, md_erase,
                          clone_camera_metadata; cbn [module_metadata]; rewrite call_fst).
  - exact (md_new_empty (K := K)).
  - exact (md_getAndLock_law (K := K)).
  - exact (md_unlock_law (K := K)).
  - exact (md_assign_law (K := K) p m _).
  - exact (md_clear_law (K := K) m _).
  - exact (md_acquire_law (K := K) p m _).
  - exact (md_update_law (K := K) tag ty data m _).
  - exact (md_update_entry_law (K := K) e m _).
  - exact (md_erase_law (K := K) tag m _).
  - exact (clone_law (K := K) l _ p).
Qed.

(** The module is the platform of the device. *)
#[local] Instance module_platform : CameraPlatform W := {|
  stock_camera_module := get_stock_camera_module;
  mocha_camera_info id := get_mocha_camera_info id false;
  stock_number_of_cameras := call stock_get_number_of_cameras;
  hw_get_gralloc := call lib_get_gralloc;
  new_nothrow := call lib_new_nothrow;
  stock_open name := call (lib_open name);
  stock_close d := call (lib_close d);
  stock_initialize d := call (lib_initialize d);
  stock_configure_streams d l := call (lib_configure_streams d l);
  stock_register_stream_buffers d s l := call (lib_register_stream_buffers d s l);
  stock_default_request d t := call (lib_default_request d t);
  stock_process_capture_request d r := call (lib_process_capture_request d r);
  stock_dump d := call (lib_dump d);
  registerBuffer h := call (lib_registerBuffer h);
  unregisterBuffer h := call (lib_unregisterBuffer h)
|}.

(** The globals a call below the module leaves. *)
Lemma call_globals {A} (m : M K A) (w : W) :
  vendorOnce (call m w).2 = vendorOnce w ∧ vendorModule (call m w).2 = vendorModule w ∧
  characteristics (call m w).2 = characteristics w.
Proof. unfold call. by destruct (m (mw_k w)). Qed.

(** The camera's description is given out: it is the module's own object. *)
Definition described (id : Z) (info : camera_info) (w : W) : Prop :=
  vendorOnce w = true ∧ vendorModule w ≠ None ∧
  ∃ m, characteristics w !! Z.to_nat id = Some m ∧ ci_static_camera_characteristics info = md_buffer m.

Lemma info_described id (w : W) r o w' :
  get_mocha_camera_info id false w = ((r, o), w') →
  match o with
  | Some info => r = 0 ∧ ci_device_version info = CAMERA_DEVICE_API_VERSION_3_2 ∧ described id info w'
  | None => True
  end.
Proof.
  unfold get_mocha_camera_info. destruct (false || _ || _); [by intros [= <- <- <-]|].
  rewrite bind_run. destruct (module_run w) as (_ & Ho & Hm & _).
  destruct (get_stock_camera_module w) as [[m|] w1]; cbn [fst snd] in *; [|by intros [= <- <- <-]].
  rewrite bind_run. destruct (call_globals stock_get_number_of_cameras w1) as (Ho1 & Hm1 & _).
  destruct (call stock_get_number_of_cameras w1) as [n w2]. cbn [fst snd] in *.
  destruct (bool_decide (n <= id)); [by intros [= <- <- <-]|]. unfold describe_info. rewrite bind_run.
  destruct (call_globals (stock_get_camera_info id) w2) as (Ho2 & Hm2 & _).
  destruct (call (stock_get_camera_info id) w2) as [[r' stock] w3]. cbn [fst snd] in *.
  destruct (bool_decide (r' ≠ 0)); [by intros [= <- <- <-]|].
  destruct (bool_decide (_ ≠ _)); [by intros [= <- <- <-]|].
  rewrite bind_run. cbn [get fst snd].
  destruct (characteristics w3 !! Z.to_nat id) as [mine|] eqn:Hl; [|by intros [= <- <- <-]].
  rewrite bind_run. set (go := if md_isEmpty mine then _ else _).
  assert (Hgo : ∃ res k, go w3 = (res, ModuleWorld k (vendorOnce w3) (vendorModule w3) (characteristics w3))).
  { unfold go. destruct (md_isEmpty mine).
    - unfold call. destruct (buildCharacteristics _ mine (mw_k w3)) as [res k]. by exists res, k.
    - exists (true, mine), (mw_k w3). by destruct w3. }
  destruct Hgo as ([ok m'] & k & ->). cbn [fst snd]. rewrite bind_run.
  cbn [set_characteristics fst snd]. destruct ok; cbn [negb]; [|by intros [= <- <- <-]].
  rewrite bind_run. cbn [set_characteristics fst snd]. intros [= <- <- <-].
  split_and!; [done|done|]. split_and!; cbn; [congruence|congruence|].
  rewrite list_insert_insert_eq. eexists. split.
  - apply list_lookup_insert_eq. by eapply lookup_lt_Some.
  - destruct (md_getAndLock_law m') as [Hb _]. rewrite <- Hb at 2.
    by rewrite (proj1 (md_unlock_law _)), Hb.
Qed.

(** A camera that opens has a stock device that the adapter can drive, with
    the characteristics of the module's own object for that camera, which lasts
    as long as the module; the stock module has been loaded, and the id is that
    of the name.  No device is handed out with an error. *)
Theorem opened_over_module ok name (w : W) r o w' :
  camera3_device_open ok name w = ((r, o), w') →
  match o with
  | Some c => r = 0 ∧ ok = true ∧
      ∃ id d m, camera_id name = Some id ∧ c_vendor c = Some d ∧ device_supported d = true ∧
        vendorOnce w' = true ∧ vendorModule w' ≠ None ∧
        characteristics w' !! Z.to_nat id = Some m ∧ c_characteristics c = md_entries m ∧
        c_streams c = ∅ ∧ c_frames c = ∅ ∧ c_clientCallbacks c = false
  | None => True
  end.
Proof.
  destruct o as [c|]; [|done]. unfold camera3_device_open.
  destruct (camera_id name) as [id|] eqn:Hid; [|done]. destruct ok; cbn [negb]; [|done].
  rewrite bind_run. change (mocha_camera_info id w) with (get_mocha_camera_info id false w).
  destruct (get_mocha_camera_info id false w) as [[r1 [info|]] w1] eqn:Hinfo; cbn [fst snd]; [|done].
  apply info_described in Hinfo as (_ & _ & Ho & Hm & mine & Hmine & Hst).
  rewrite bind_run. change (stock_camera_module w1) with (get_stock_camera_module w1).
  assert (Hget : get_stock_camera_module w1 = (vendorModule w1, w1)).
  { unfold get_stock_camera_module. rewrite bind_run. cbn [get fst snd]. by rewrite Ho. }
  rewrite Hget. cbn [fst snd]. destruct (vendorModule w1) as [vm|] eqn:Hvm; [|done].
  assert (Hkeep : ∀ {A} (m : M K A) u,
    (vendorOnce u = true ∧ vendorModule u ≠ None ∧ characteristics u !! Z.to_nat id = Some mine) →
    (vendorOnce (call m u).2 = true ∧ vendorModule (call m u).2 ≠ None ∧
     characteristics (call m u).2 !! Z.to_nat id = Some mine)).
  { intros A m u. by destruct (call_globals m u) as (-> & -> & ->). }
  assert (Hw1 : vendorOnce w1 = true ∧ vendorModule w1 ≠ None ∧
                characteristics w1 !! Z.to_nat id = Some mine) by (rewrite Hvm; split_and!; congruence).
  clear Hget Ho Hm Hmine Hvm. rewrite bind_run.
  change (stock_number_of_cameras w1) with (call stock_get_number_of_cameras w1). apply (Hkeep _ stock_get_number_of_cameras) in Hw1.
  destruct (call stock_get_number_of_cameras w1) as [n w2]. cbn [fst snd] in *. clear w1.
  destruct (bool_decide _ || _); [done|]. rewrite bind_run.
  change (new_nothrow w2) with (call lib_new_nothrow w2).
  apply (Hkeep _ lib_new_nothrow) in Hw1. destruct (call lib_new_nothrow w2) as [[] w3]; [|done].
  cbn [fst snd negb] in *. clear w2. rewrite bind_run.
  change (hw_get_gralloc w3) with (call lib_get_gralloc w3).
  apply (Hkeep _ lib_get_gralloc) in Hw1. destruct (call lib_get_gralloc w3) as [[g [reg unreg]] w4].
  cbn [fst snd] in *. destruct (bool_decide (g ≠ 0)) eqn:Hg; [done|]. clear w3.
  destruct (negb (reg && unreg)); [done|]. rewrite bind_run.
  set (nm := default String.EmptyString name).
  change (stock_open nm w4) with (call (lib_open nm) w4). apply (Hkeep _ (lib_open nm)) in Hw1.
  destruct (call (lib_open nm) w4) as [[so opened] w5]. cbn [fst snd] in *. clear w4.
  destruct (bool_decide (so ≠ 0)); [done|]. destruct opened as [d|]; [|done].
  destruct (device_supported d) eqn:Hd.
  - intros [= <- <- <-]. destruct Hw1 as (Ho & Hm & Hmine). split_and!; [done|done|].
    exists id, d, mine. split_and!; try done. cbn. by rewrite Hst.
  - rewrite bind_run. cbn [fst snd]. by destruct (stock_close (sd_id d) w5).
Qed.

End link.
