(* ===== verification/CameraFacts.v ===== *)
(** * What every run of the camera guarantees

    The theorems on the interleaved runs of CameraRuns.v: the contract with the
    client, the buffers of the requests, draining, the references to handles,
    templates, and the tests that keep the adapter from dereferencing null; and
    each theorem of the camera applied at a concrete configuration, request,
    buffer, packet or call of the soft camera. *)

From S2P Require Import Prelude Threads CameraH LegacyMeta LegacyMetaFacts CameraWrap Camera3.
From S2P Require Import CameraInv CameraSystem CameraCapture CameraSubmit.
From S2P Require Import CameraRuns SoftCamera CameraReturns CameraOps CameraFrames CameraLink.
From stdpp Require Import gmap.
From Stdlib Require Import Ascii String.

#[global] Open Scope Z_scope.

Section facts.
  Context {K : Type} `{CameraMetadataApi K} `{!CameraH} `{!CameraTags} `{!CameraPlatform K}.

Abbreviation W := (camera_world K).

Implicit Types w : W.

(** The states in which the device can be. *)
Definition reachable (w : W) : Prop :=
  ∃ k d name info clients next evs,
    camera_allowed (camera_start k d name info clients next) evs ∧
    w = po_state (camera_run (camera_start k d name info clients next) evs).

(** A state and a later one of the same run. *)
Definition later (w w' : W) : Prop :=
  ∃ k d name info clients next evs evs',
    let s := camera_start k d name info clients next in
    camera_allowed s (evs ++ evs') ∧ w = po_state (camera_run s evs) ∧
    w' = po_state (camera_run s (evs ++ evs')).

Lemma reachable_Inv w : reachable w → Inv w.
Proof.
  intros (k & d & name & info & clients & next & evs & Ha & ->).
  apply (camera_run_ok _ _ (camera_start_ok k d name info clients next) Ha).
Qed.

(** C6: Whatever the client calls, the stock library answers and the threads'
    interleaving, what the adapter does to the client follows the contract: a
    request is taken once, its buffers and its metadata are given back at most
    once, as the client's own buffers and before it is retired; it is retired
    once, when every one of its buffers has been given back, the stock library
    has sent the last of its metadata (or they were lost, or it reported an error
    of the result or the request) and has announced its shutter or failed the
    request; and handles are registered only while every request is over:
    retired, refused by the stock library, or dropped when the device was
    closed. *)
Theorem camera_keeps_contract w : reachable w → contract (w_log w).
Proof. intros Hr. apply (ac_contract _ _ _ _ (iv_accounts w (reachable_Inv w Hr))). Qed.

(** C7: Where the buffers of an accepted request are: each has been given to
    the client at most once; when the request has been retired, exactly once;
    and while its frame is in flight, the frame knows which are still with the
    stock library. *)
Theorem buffers_accounted w n s b i :
  reachable w → (s, n, b) ∈ submitted (w_log w) → (i < List.length b)%nat →
  (times (s, Some i) (delivered (w_log w)) <= 1)%nat ∧
  (s ∈ retired (w_log w) → times (s, Some i) (delivered (w_log w)) = 1%nat) ∧
  (s ∉ ended (w_log w) → ∃ f d, c_frames (w_cam w) !! n = Some f ∧ fr_serial f = s ∧
     fr_returned f !! i = Some d ∧
     times (s, Some i) (delivered (w_log w) ++ w_pending w) = Nat.b2n d).
Proof.
  intros Hr Hs Hi. pose proof (iv_accounts w (reachable_Inv w Hr)) as Ha. split_and!.
  - pose proof (ac_once _ _ _ _ Ha (s, Some i)) as Ho. rewrite times_app in Ho. lia.
  - intros Hret. by eapply (ac_retired _ _ _ _ Ha).
  - intros He. destruct (ac_fate _ _ _ _ Ha s n b Hs) as [|(f & Hf & <-)]; [done|].
    pose proof (ac_frame _ _ _ _ Ha n f Hf) as Fo.
    assert (Hb : fr_clientBuffers f = b).
    { pose proof (fo_submitted _ _ _ _ Fo) as Hs'.
      apply list_elem_of_lookup in Hs as [j Hj], Hs' as [j' Hj'].
      assert (j = j'); [|congruence].
      eapply NoDup_lookup; [exact (ac_distinct _ _ _ _ Ha)| |];
        rewrite !list_lookup_fmap, ?Hj, ?Hj'; done. }
    destruct (lookup_lt_is_Some_2 (fr_returned f) i) as [d Hd].
    { rewrite (fo_returned _ _ _ _ Fo), Hb. done. }
    exists f, d. split_and!; try done. by apply (fo_seen _ _ _ _ Fo).
Qed.

(** C8: A drain that succeeds, which is what lets [capture] register buffers
    again and [flush] return 0, finds every request that was accepted over:
    refused by the stock library, dropped at the closing of the device, or
    retired; and the retired ones are complete: every buffer has been given to
    the client once, no more metadata will come, and the shutter was announced
    or the request failed. *)
Theorem drained_means_complete w timeout w' s n b :
  reachable w → drain_wait timeout w = (Some 0, w') → (s, n, b) ∈ submitted (w_log w) →
  s ∈ ended (w_log w) ∧
  (s ∈ retired (w_log w) →
     LMetadataEnd s ∈ w_log w ∧ LShutterEnd s ∈ w_log w ∧
     ∀ i, (i < List.length b)%nat → times (s, Some i) (delivered (w_log w)) = 1%nat).
Proof.
  intros Hr Hd Hs. pose proof (iv_accounts w (reachable_Inv w Hr)) as Ha. unfold drain_wait in Hd.
  assert (Hf : c_frames (w_cam w) = ∅).
  { destruct (decide (c_frames (w_cam w) = ∅)) as [|Hn]; [done|].
    rewrite bool_decide_false in Hd by done.
    destruct (c_fatal (w_cam w)); [done|]. by destruct (timeout && c_asleep (w_cam w)). }
  split.
  - destruct (ac_fate _ _ _ _ Ha s n b Hs) as [|(f & Hf' & _)]; [done|].
    by rewrite Hf, lookup_empty in Hf'.
  - intros Hret. destruct (contract_retired _ s (ac_contract _ _ _ _ Ha) Hret). split_and!; [done|done|].
    intros i Hi. by eapply (ac_retired _ _ _ _ Ha).
Qed.

(** C23: No wake-up of the drain is lost: while its thread sleeps there is a
    request in flight and no fatal error, so whoever changes that wakes it up. *)
Theorem sleep_is_justified w :
  reachable w → c_asleep (w_cam w) = true →
  c_frames (w_cam w) ≠ ∅ ∧ c_fatal (w_cam w) = false ∧ w_request w ≠ None.
Proof.
  intros Hr Ha. pose proof (reachable_Inv w Hr) as Hw.
  destruct (iv_asleep w Hw Ha) as [Hf Hfa]. split_and!; [done|done|].
  intros Hn. destruct (iv_request w Hw Hn) as (_ & Has & _). congruence.
Qed.

(** C9: Unless the device is being closed, and as long as the streams a
    configuration lists are objects of the client and the stock library sends
    notifications only once a request was accepted (and a request lists fewer
    than 2^32 buffers), the adapter dereferences no
    null pointer of the stock device or, in a result or a notification, of the
    client's callbacks, looks up no reference that was not registered, and
    whatever results the stock library sends cannot make the count of the
    buffers that are out wrap around. *)
Theorem camera_has_no_faults w :
  reachable w → c_closing (w_cam w) = false → w_faults w = [].
Proof.
  intros Hr Hc. pose proof (iv_faults w (reachable_Inv w Hr)) as Hf.
  destruct (w_faults w) as [|x l]; [done|]. destruct (Hf x) as [_ Hcl]; [left|]. congruence.
Qed.

(** C22: Whenever no call of the client is inside the adapter, the number of
    times a handle was registered with gralloc and not unregistered again is the
    number of streams that hold a reference to it, current or failed. *)
Theorem registrations_balanced w h :
  reachable w → w_request w = None →
  log_balance h (w_log w) = held h (c_streams (w_cam w)) (c_failedStreams (w_cam w)).
Proof.
  intros Hr Hn. by destruct (iv_request w (reachable_Inv w Hr) Hn) as (_ & _ & Hb).
Qed.

(** A template that was handed out stays where and as it is for as long as
    the device is open, whatever happens: restarts of the stock device
    included.  So do the marks of a fatal error and of closing. *)
Theorem templates_last w w' i m :
  later w w' →
  (c_templates (w_cam w) !! i = Some m → md_isEmpty m = false →
     c_templates (w_cam w') !! i = Some m) ∧
  (c_fatal (w_cam w) = true → c_fatal (w_cam w') = true) ∧
  (c_closing (w_cam w) = true → c_closing (w_cam w') = true) ∧
  ∃ l, w_log w' = w_log w ++ l.
Proof.
  intros (k & d & name & info & clients & next & evs & evs' & Ha & -> & ->).
  apply camera_allowed_app in Ha as [Ha Ha']. rewrite camera_run_app.
  pose proof (camera_run_ok _ _ (camera_start_ok k d name info clients next) Ha) as Hok.
  destruct (camera_run_keeps _ evs' Hok Ha'). split_and!; auto.
Qed.

End facts.

(** ** The soft run *)

Definition soft_state (evs : list camera_event) : camera_world soft_cam :=
  po_state (camera_run soft_start evs).

Lemma soft_reachable evs :
  bool_decide (camera_allowed soft_start evs) = true → reachable (soft_state evs).
Proof.
  intros Ha%bool_decide_eq_true. eexists _, _, _, _, _, _, evs. split; [exact Ha|]. done.
Qed.

Lemma camera_keeps_contract_witness :
  reachable (soft_state soft_closed) ∧ contract (w_log (soft_state soft_closed)) ∧
  retired (w_log (soft_state soft_closed)) = [5] ∧ ended (w_log (soft_state soft_closed)) = [5; 6].
Proof.
  assert (Hr : reachable (soft_state soft_closed)) by (apply soft_reachable; vm_compute; reflexivity).
  split_and!; [exact Hr|exact (camera_keeps_contract _ Hr)|vm_compute; reflexivity|].
  vm_compute; reflexivity.
Defined.

Definition soft_buffers : list camera3_stream_buffer :=
  [Buffer3 1 (Some (1, 100)) 0 (-1) (-1); Buffer3 3 (Some (3, 300)) 0 (-1) (-1)].

Lemma buffers_accounted_witness :
  (times (5%Z, Some 1%nat) (delivered (w_log (soft_state soft_served))) <= 1)%nat ∧
  (5 ∈ retired (w_log (soft_state soft_served)) →
     times (5%Z, Some 1%nat) (delivered (w_log (soft_state soft_served))) = 1%nat) ∧
  5 ∈ retired (w_log (soft_state soft_served)).
Proof.
  destruct (buffers_accounted (soft_state soft_served) 10 5 soft_buffers 1) as (H1 & H2 & _).
  - apply soft_reachable. vm_compute. reflexivity.
  - vm_compute. left.
  - cbn. lia.
  - split_and!; [exact H1|exact H2|vm_compute; left].
Defined.

Lemma drained_means_complete_witness :
  5 ∈ ended (w_log (soft_state soft_served)) ∧ 5 ∈ retired (w_log (soft_state soft_served)) ∧
  LMetadataEnd 5 ∈ w_log (soft_state soft_served).
Proof.
  destruct (drained_means_complete (soft_state soft_served) false
              (upd_cam (set_asleep false) (soft_state soft_served)) 5 10 soft_buffers) as [He Hc].
  - apply soft_reachable. vm_compute. reflexivity.
  - vm_compute. reflexivity.
  - vm_compute. left.
  - assert (Hret : 5 ∈ retired (w_log (soft_state soft_served))) by (vm_compute; left).
    split_and!; [exact He|exact Hret|exact (proj1 (Hc Hret))].
Defined.

Lemma sleep_is_justified_witness :
  c_asleep (w_cam (soft_state soft_busy)) = true ∧ c_frames (w_cam (soft_state soft_busy)) ≠ ∅.
Proof.
  assert (Ha : c_asleep (w_cam (soft_state soft_busy)) = true) by (vm_compute; reflexivity).
  split; [exact Ha|]. apply sleep_is_justified; [|exact Ha].
  apply soft_reachable. vm_compute. reflexivity.
Defined.

Lemma camera_has_no_faults_witness : w_faults (soft_state soft_served) = [].
Proof.
  apply camera_has_no_faults; [apply soft_reachable; vm_compute; reflexivity|].
  vm_compute. reflexivity.
Defined.

Lemma registrations_balanced_witness :
  log_balance 300 (w_log (soft_state soft_served)) =
    held 300 (c_streams (w_cam (soft_state soft_served))) (c_failedStreams (w_cam (soft_state soft_served))) ∧
  log_balance 300 (w_log (soft_state soft_served)) = 1 ∧
  log_balance 300 (w_log (soft_state soft_closed)) = 0.
Proof.
  split_and!; [|vm_compute; reflexivity|vm_compute; reflexivity].
  apply registrations_balanced; [apply soft_reachable|]; vm_compute; reflexivity.
Defined.

(** The template of the preview is built and handed out, and is still there when
    the device has been closed. *)
Definition soft_template : list camera_event :=
  [Start (Initialize true (Some (true, true)))] ++ go 0 9 ++
  [Start (ConstructDefaultRequestSettings true 1)] ++ go 1 9.

Lemma templates_last_witness :
  let m := default md_new (c_templates (w_cam (soft_state soft_template)) !! 1%nat) in
  md_isEmpty m = false ∧
  c_templates (w_cam (soft_state (soft_template ++ [Start (CloseDevice true)] ++ go 2 9))) !! 1%nat = Some m.
Proof.
  cbv zeta. split; [vm_compute; reflexivity|].
  refine (proj1 (templates_last (soft_state soft_template) _ 1 _ _) _ _).
  - eexists _, _, _, _, _, _, soft_template, _. split_and!; [|reflexivity|reflexivity].
    apply (bool_decide_eq_true_1 _). vm_compute. reflexivity.
  - vm_compute. reflexivity.
  - vm_compute. reflexivity.
Defined.

(** ** The theorems on the soft camera *)


Lemma every_call_returns_witness :
  ∃ w', alone (call_proc 9 (ProcessCaptureRequest true (soft_request 12 None [3])))
          (soft_state soft_served) = Some (tt, w') ∧ w_request w' = None ∧ w_callback w' = None.
Proof. apply every_call_returns; vm_compute; reflexivity. Defined.

(** ** Configurations *)

Definition soft_checked : Z + gmap Z Stream * list Z :=
  (check_streams [Some 1; Some 3] 0 0 ∅ [] soft_camera_world).1.

Lemma configuration_limits_witness :
  match soft_checked with
  | inr (next, vs) => vs = [1; 3] ∧ count (blob_stream soft_camera_world) vs <= 1
  | inl _ => False
  end.
Proof.
  destruct soft_checked as [e|[next vs]] eqn:Hc.
  - vm_compute in Hc. discriminate Hc.
  - destruct (configuration_limits _ _ _ _ Hc) as (Hv & _ & Hb & _).
    split; [|exact Hb]. cbn in Hv. destruct vs as [|a [|b [|]]]; cbn in Hv; congruence.
Defined.

Lemma refused_calls_change_nothing_witness :
  ∃ r, alone (configure 9 (soft_config [1])) (soft_state soft_closed) = Some (r, soft_state soft_closed) ∧
       r ∈ [- EINVAL; - ENODEV; - EBUSY].
Proof.
  assert (Hn : w_request (soft_state soft_closed) = None) by (vm_compute; reflexivity).
  assert (Hd : device_dead (w_cam (soft_state soft_closed)) = true) by (vm_compute; reflexivity).
  destruct (refused_calls_change_nothing 9 (soft_config [1]) None (soft_state soft_closed) Hn) as [Hc _].
  exact (Hc (or_introl Hd)).
Defined.

Lemma trigger_ids_advance_witness : next_trigger INT_MAX = 1 ∧ next_trigger INT_MAX ≠ INT_MAX.
Proof.
  split; [reflexivity|]. apply trigger_ids_advance. unfold INT_MAX. lia.
Defined.

(** ** Buffers *)

(** A frame for the two buffers, with the stock library's own streams. *)
Definition soft_vendor_buffers : list camera3_stream_buffer :=
  [Buffer3 1 (Some (3, 100)) 0 (-1) (-1); Buffer3 2 (Some (4, 300)) 0 (-1) (-1)].

Definition soft_frame : Frame soft_cam :=
  MkFrame 5 md_new md_new soft_buffers soft_vendor_buffers [false; false] 2 false false.

Lemma returned_in_any_order_witness :
  ∃ f' output, take_buffers (reverse soft_vendor_buffers) soft_frame [] [] = (f', output, []) ∧
    fr_remaining f' = 0 ∧ output.*1 ≡ₚ seq 0 2.
Proof.
  destruct (returned_in_any_order soft_frame (reverse soft_vendor_buffers)) as (f' & o & Ht & Hr & Ho & _).
  - apply (bool_decide_eq_true_1 _). vm_compute. reflexivity.
  - reflexivity.
  - reflexivity.
  - reflexivity.
  - reflexivity.
  - apply (bool_decide_eq_true_1 _). vm_compute. reflexivity.
  - by rewrite reverse_Permutation.
  - exists f', o. split_and!; [exact Ht|exact Hr|exact Ho].
Defined.

(** A request for buffers that are registered already. *)
Definition soft_capture : capture_request := CaptureRequest 12 (Some soft_settings) false (Some soft_buffers).

Lemma sent_request_witness :
  match make_frame soft_capture soft_buffers (soft_state soft_served) with
  | (inr (f, v), _) => vr_frame_number v = 12 ∧ fr_vendorBuffers f = vr_output_buffers v ∧
                       fr_clientBuffers f = soft_buffers
  | (inl _, _) => False
  end.
Proof.
  destruct (make_frame soft_capture soft_buffers (soft_state soft_served)) as [[e|[f v]] w'] eqn:Hm.
  - vm_compute in Hm. discriminate Hm.
  - destruct (sent_request soft_capture soft_buffers (soft_state soft_served) f v w') as (H1' & _ & H2' & H3' & _);
      [|exact Hm|by split_and!].
    intros b Hb. unfold soft_buffers in Hb. apply elem_of_cons in Hb as [->|Hb].
    + eexists. split; [vm_compute; reflexivity|]. eexists. vm_compute. reflexivity.
    + apply list_elem_of_singleton in Hb as ->.
      eexists. split; [vm_compute; reflexivity|]. eexists. vm_compute. reflexivity.
Defined.

(** The configuration with the format the stock library resolved. *)
Definition soft_next : gmap Z Stream :=
  {[ 1 := MkStream 50 (Stream3 0 1920 1080 0x32315659 0x20000 4 7) 1 ∅ ]}.

Lemma adopted_configuration_witness :
  match alone (adopt_streams soft_next) soft_camera_world with
  | Some (_, w') => c_streams (w_cam w') = soft_next ∧
      w_clients w' !! 1 = Some (Stream3 0 1920 1080 0x32315659 0x20000 4 0)
  | None => False
  end.
Proof.
  destruct (alone (adopt_streams soft_next) soft_camera_world) as [[[] w']|] eqn:Ha.
  - split; [apply (adopted_configuration _ _ _ Ha)|].
    vm_compute in Ha. injection Ha as <-. vm_compute. reflexivity.
  - vm_compute in Ha. discriminate Ha.
Defined.

(** ** Metadata *)

Definition soft_object : md (K := soft_cam) := SoftMd (Some soft_settings) false.

Lemma normalized_request_witness :
  match (normalizeRequest soft_object soft_characteristics (SoftCam 1000 [] 1 false)).1 with
  | (true, m') => md_map m' !! ANDROID_CONTROL_AF_TRIGGER = Some [1] ∧
      md_map m' !! ANDROID_CONTROL_VIDEO_STABILIZATION_MODE =
        Some [ANDROID_CONTROL_VIDEO_STABILIZATION_MODE_OFF]
  | (false, _) => False
  end.
Proof.
  destruct (normalizeRequest soft_object soft_characteristics (SoftCam 1000 [] 1 false)).1 as [[] m'] eqn:Hn.
  - destruct (normalized_request soft_object soft_characteristics (SoftCam 1000 [] 1 false) m')
      as (_ & _ & _ & _ & Hs & Hk).
    + apply (bool_decide_eq_true_1 _). vm_compute. reflexivity.
    + split; [reflexivity|]. apply (bool_decide_eq_true_1 _). vm_compute. reflexivity.
    + exact Hn.
    + split; [|exact Hs]. rewrite Hk; [vm_compute; reflexivity|].
      apply (bool_decide_eq_true_1 _). vm_compute. reflexivity.
  - vm_compute in Hn. discriminate Hn.
Defined.

Definition soft_final : packet := Packet 70 [MEntry ANDROID_CONTROL_AE_STATE [2]; MEntry ANDROID_QUIRKS_PARTIAL_RESULT [0]].
Definition soft_partials : md (K := soft_cam) := SoftMd (Some (Packet 71 [MEntry ANDROID_CONTROL_AE_STATE [3]])) false.

Lemma finished_result_witness :
  match (mergeMetadata md_new (Some soft_final) (SoftCam 1000 [] 1 false)).1 with
  | (true, m1) =>
      match (finishResult m1 soft_partials (SoftCam 2000 [] 1 false)).1 with
      | (true, m2) => md_map m2 !! ANDROID_QUIRKS_PARTIAL_RESULT = None ∧
                      md_map m2 !! ANDROID_CONTROL_AE_STATE = Some [3]
      | (false, _) => False
      end
  | (false, _) => False
  end.
Proof.
  destruct (mergeMetadata md_new (Some soft_final) (SoftCam 1000 [] 1 false)).1 as [[] m1] eqn:Hm;
    [|vm_compute in Hm; discriminate Hm].
  destruct (finishResult m1 soft_partials (SoftCam 2000 [] 1 false)).1 as [[] m2] eqn:Hf.
  - destruct (finished_result soft_final soft_partials (SoftCam 1000 [] 1 false) m1
                (SoftCam 2000 [] 1 false) m2) as (_ & _ & Hp & Hk); try done.
    + apply (bool_decide_eq_true_1 _). vm_compute. reflexivity.
    + apply (bool_decide_eq_true_1 _). vm_compute. reflexivity.
    + split; [exact Hp|]. rewrite Hk; [vm_compute; reflexivity|].
      apply (bool_decide_eq_true_1 _). vm_compute. reflexivity.
  - vm_compute in Hm. injection Hm as <-. vm_compute in Hf. discriminate Hf.
Defined.

(** ** Characteristics and the module *)

Definition soft_stock_packet : packet :=
  Packet 60
    [MEntry ANDROID_SCALER_AVAILABLE_FORMATS [0x21; 1; 0x22; 0x23];
     MEntry ANDROID_SCALER_AVAILABLE_PROCESSED_SIZES [1920; 1080; 3264; 2448];
     MEntry ANDROID_SCALER_AVAILABLE_PROCESSED_MIN_DURATIONS [33333333; 66666666];
     MEntry ANDROID_SCALER_AVAILABLE_JPEG_SIZES [3264; 2448];
     MEntry ANDROID_SCALER_AVAILABLE_JPEG_MIN_DURATIONS [66666666];
     MEntry ANDROID_CONTROL_AE_AVAILABLE_MODES [0; 1]; MEntry ANDROID_CONTROL_AF_AVAILABLE_MODES [0];
     MEntry ANDROID_CONTROL_AE_AVAILABLE_TARGET_FPS_RANGES [15; 30];
     MEntry ANDROID_CONTROL_MAX_REGIONS [0; 0; 0];
     MEntry ANDROID_LENS_INFO_MINIMUM_FOCUS_DISTANCE [0]].

Definition soft_built : bool * md (K := soft_cam) :=
  (buildCharacteristics (Some soft_stock_packet) md_new (SoftCam 1000 [] 1 false)).1.

Lemma characteristics_complete_witness :
  match soft_built with
  | (true, m) => md_map m !! ANDROID_SCALER_AVAILABLE_FORMATS = None ∧
                 md_map m !! ANDROID_REQUEST_PIPELINE_MAX_DEPTH = Some [8]
  | (false, _) => False
  end.
Proof.
  destruct soft_built as [[] m] eqn:Hb; [|vm_compute in Hb; discriminate Hb].
  destruct (characteristics_complete soft_stock_packet md_new m (SoftCam 1000 [] 1 false))
    as (_ & Hf & He & _).
  - apply (bool_decide_eq_true_1 _). vm_compute. reflexivity.
  - reflexivity.
  - apply (bool_decide_eq_true_1 _). vm_compute. reflexivity.
  - exact Hb.
  - split.
    + apply He. apply (bool_decide_eq_true_1 _). vm_compute. reflexivity.
    + apply (Hf _ TYPE_BYTE). apply (bool_decide_eq_true_1 _). vm_compute. reflexivity.
Defined.

#[export] Instance soft_module_api : StockModule soft_cam := {|
  dlopen_imager := mret true;
  dlsym_imager := mret (true, true);
  NvOdmImagerDetInit := mret true;
  NvOdmImagerDeviceDetect := mret true;
  access_rw _ := mret true;
  usleep _ := mret tt;
  hw_get_vendor_module := mret (0, Some soft_stock_module);
  stock_get_number_of_cameras := mret 2;
  stock_get_camera_info _ := mret (0, CameraInfo 0 90 0x300 (Some soft_stock_packet));
  stock_set_callbacks := mret 0;
  stock_get_vendor_tag_ops := mret tt
|}.

#[export] Instance soft_devices : StockDevices soft_cam := {|
  lib_get_gralloc := hw_get_gralloc;
  lib_new_nothrow := new_nothrow;
  lib_open := stock_open;
  lib_close := stock_close;
  lib_initialize := stock_initialize;
  lib_configure_streams := stock_configure_streams;
  lib_register_stream_buffers := stock_register_stream_buffers;
  lib_default_request := stock_default_request;
  lib_process_capture_request := stock_process_capture_request;
  lib_dump := stock_dump;
  lib_registerBuffer := registerBuffer;
  lib_unregisterBuffer := unregisterBuffer
|}.

(** The module after it has been asked for the number of cameras and about the
    first of them. *)
Definition soft_module : module_world soft_cam :=
  (module_calls [GetNumberOfCameras; GetCameraInfo 0 false] (module_world0 (SoftCam 1000 [] 1 false))).2.

Lemma module_answers_last_witness :
  vendorModule soft_module = Some soft_stock_module ∧
  vendorModule (module_calls [GetCameraInfo 1 false; SetCallbacks; GetCameraInfo 0 false] soft_module).2 =
    Some soft_stock_module.
Proof.
  split; [vm_compute; reflexivity|].
  destruct (module_answers_last [GetCameraInfo 1 false; SetCallbacks; GetCameraInfo 0 false] soft_module)
    as (_ & Hv & _); [vm_compute; reflexivity|].
  rewrite Hv. vm_compute. reflexivity.
Defined.

(** The rear camera opens. *)
Definition soft_opened : (Z * option (@Camera (module_world soft_cam) _ module_metadata)) *
    module_world soft_cam :=
  @camera3_device_open (module_world soft_cam) _ module_metadata _ module_platform true (Some "00"%string)
    (module_world0 (SoftCam 1000 [] 1 false)).

Lemma opened_over_module_witness :
  match soft_opened with
  | ((_, Some c), w') => ∃ d, c_vendor c = Some d ∧ device_supported d = true ∧ vendorOnce w' = true
  | _ => False
  end.
Proof.
  assert (Hb : match soft_opened.1.2 with Some _ => true | None => false end = true)
    by (vm_compute; reflexivity).
  destruct soft_opened as [[r [c|]] w'] eqn:Ho.
  - destruct (opened_over_module true (Some "00"%string) (module_world0 (SoftCam 1000 [] 1 false)) r (Some c) w' Ho)
      as (_ & _ & id & d & m & _ & Hd & Hs & Hv & _). exists d. split_and!; [exact Hd|exact Hs|exact Hv].
  - discriminate Hb.
Defined.
