(* ===== verification/Parcels.v ===== *)
(** * Parcels (binder/Parcel.h)

    A parcel belongs to the platform: its operations are a parameter, and what
    the code relies on is that it is a queue of typed values.  A value that was
    written is read back as it is, in order. *)

From S2P Require Import Prelude CStrings.

#[global] Open Scope Z_scope.

(** utils/Errors.h *)
Definition OK : Z := 0.
Definition NO_ERROR : Z := 0.
Definition INVALID_OPERATION : Z := - ENOSYS.
Definition BAD_VALUE : Z := - EINVAL.
Definition NAME_NOT_FOUND : Z := - ENOENT.
Definition NO_MEMORY : Z := - ENOMEM.

Definition ENODATA : Z := 61.
Definition EPERM : Z := 1.
Definition NOT_ENOUGH_DATA : Z := - ENODATA.
Definition PERMISSION_DENIED : Z := - EPERM.
Definition FAILED_TRANSACTION : Z := - (2 ^ 31) + 2.

(** A value in a parcel; bytes are numbers from 0 to 255, a binder is a number
    or null, a header the name of an interface; a file descriptor is the number
    of its file; integers and bytes can be written without their number. *)
Inductive pitem :=
  | PInt32 (z : Z)
  | PBlob (bytes : list Z)
  | PInt64 (z : Z)
  | PString8 (s : chars)
  | PString16 (s : chars)
  | PBinder (b : option Z)
  | PToken (interface : chars)
  | PException
  | PFile (file : Z)
  | PInts (l : list Z)
  | PRaw (bytes : list Z).

#[export] Instance pitem_eq_dec : EqDecision pitem.
Proof. solve_decision. Defined.

(** [writeInt32] and [readInt32]; [writeBlob], which gives the address of a blob
    of [len] bytes that the caller fills before anything else is written ([fill]
    makes of the address and the old bytes the new ones), and [readBlob], which
    gives the bytes.  Every operation gives its status first, [writeBlob] then
    the address. *)
Class Parcel (P : Type) := {
  writeInt32 : Z → P → Z * P;
  readInt32 : P → Z * Z * P;
  writeBlob : Z → (Z → list Z → list Z) → P → Z * Z * P;
  readBlob : Z → P → Z * list Z * P
}.

(** [unread]: what has been written and not read. *)
Class ParcelLaws (P : Type) `{Parcel P} := {
  unread : P → list pitem;
  writeInt32_law z p :
    let '(r, p') := writeInt32 z p in
    unread p' = unread p ++ (if bool_decide (r = OK) then [PInt32 z] else []);
  writeBlob_law len fill p :
    let '(r, a, p') := writeBlob len fill p in
    if bool_decide (r = OK)
    then 0 < a ∧ a + len <= 2 ^ 32 ∧
         ∃ old, Z.of_nat (length old) = len ∧ unread p' = unread p ++ [PBlob (fill a old)]
    else unread p' = unread p;
  readInt32_law z l p :
    unread p = PInt32 z :: l →
    let '(r, z', p') := readInt32 p in r = OK ∧ z' = z ∧ unread p' = l;
  readBlob_law bytes l p :
    unread p = PBlob bytes :: l →
    let '(r, bytes', p') := readBlob (Z.of_nat (length bytes)) p in
    r = OK ∧ bytes' = bytes ∧ unread p' = l;
  readBlob_length len p :
    let '(r, bytes, _) := readBlob len p in r = OK → Z.of_nat (length bytes) = len
}.

(** From [p] to [p'] the values [items] have been written. *)
Definition appends `{ParcelLaws P} (p p' : P) (items : list pitem) : Prop :=
  unread p' = unread p ++ items.

Section parcels.
  Context `{ParcelLaws P}.

Lemma appends_int32 z p :
  (writeInt32 z p).1 = OK → appends p (writeInt32 z p).2 [PInt32 z].
Proof.
  pose proof (writeInt32_law z p) as Hw. destruct (writeInt32 z p) as [r p']. cbn.
  intros ->. by rewrite bool_decide_true in Hw by done.
Qed.

Lemma appends_trans p p' p'' l l' :
  appends p p' l → appends p' p'' l' → appends p p'' (l ++ l').
Proof. unfold appends. intros -> ->. by rewrite app_assoc. Qed.

End parcels.

Lemma status_ok : bool_decide (OK ≠ OK) = false.
Proof. done. Qed.

(** ** Strings, binders and headers *)

(** [readInt64(&x)] gives its status; the [const char16_t *] that
    [readString16Inplace] gives may be null; [checkInterface] compares the
    header.  A parcel starts empty. *)
Class ParcelObjects (P : Type) := {
  new_parcel : P;
  writeInt64 : Z → P → Z * P;
  readInt64 : P → Z * Z * P;
  writeString8 : chars → P → Z * P;
  readString8 : P → chars * P;
  writeString16 : chars → P → Z * P;
  readString16Inplace : P → option chars * P;
  writeStrongBinder : option Z → P → Z * P;
  readStrongBinder : P → option Z * P;
  writeInterfaceToken : chars → P → Z * P;
  checkInterface : chars → P → bool * P;
  writeNoException : P → Z * P;
  readExceptionCode : P → Z * P
}.

(** Writing appends the item or fails. *)
Definition puts `{ParcelLaws P} (f : P → Z * P) (item : pitem) : Prop :=
  ∀ p, let '(r, p') := f p in
       unread p' = unread p ++ (if bool_decide (r = OK) then [item] else []).

(** Where [items] come next, reading takes them and gives [a]. *)
Definition takes `{ParcelLaws P} {A} (f : P → A * P) (items : list pitem) (a : A) : Prop :=
  ∀ p l, unread p = items ++ l → let '(a', p') := f p in a' = a ∧ unread p' = l.

(** A parcel with room takes every item. *)
Class ParcelObjectLaws (P : Type) `{ParcelLaws P} `{!ParcelObjects P} := {
  has_space : P → Prop;
  new_parcel_law : unread (P := P) new_parcel = [] ∧ has_space new_parcel;
  writeInt64_law z : puts (P := P) (writeInt64 z) (PInt64 z);
  readInt64_law z : takes (P := P) readInt64 [PInt64 z] (OK, z);
  writeString8_law s : puts (P := P) (writeString8 s) (PString8 s);
  readString8_law s : takes (P := P) readString8 [PString8 s] s;
  writeString16_law s : puts (P := P) (writeString16 s) (PString16 s);
  readString16_law s : takes (P := P) readString16Inplace [PString16 s] (Some s);
  writeStrongBinder_law b : puts (P := P) (writeStrongBinder b) (PBinder b);
  readStrongBinder_law b : takes (P := P) readStrongBinder [PBinder b] b;
  writeInterfaceToken_law i : puts (P := P) (writeInterfaceToken i) (PToken i);
  checkInterface_law i j :
    takes (P := P) (checkInterface i) [PToken j] (bool_decide (i = j));
  writeNoException_law : puts (P := P) writeNoException PException;
  readExceptionCode_law : takes (P := P) readExceptionCode [PException] 0;
  space_int32 z p : has_space p → (writeInt32 z p).1 = OK ∧ has_space (writeInt32 z p).2;
  space_blob len fill p : has_space p → 0 <= len < 2 ^ 31 →
    (writeBlob len fill p).1.1 = OK ∧ has_space (writeBlob len fill p).2;
  space_int64 z p : has_space p → (writeInt64 z p).1 = OK ∧ has_space (writeInt64 z p).2;
  space_string8 s p : has_space p → (writeString8 s p).1 = OK ∧ has_space (writeString8 s p).2;
  space_string16 s p : has_space p → (writeString16 s p).1 = OK ∧ has_space (writeString16 s p).2;
  space_binder b p : has_space p → (writeStrongBinder b p).1 = OK ∧ has_space (writeStrongBinder b p).2;
  space_token i p : has_space p → (writeInterfaceToken i p).1 = OK ∧ has_space (writeInterfaceToken i p).2;
  space_exception p : has_space p → (writeNoException p).1 = OK ∧ has_space (writeNoException p).2;
  nothing_int32 (p : P) : unread p = [] → (readInt32 p).1.1 ≠ OK ∧ unread (readInt32 p).2 = [];
  nothing_int64 (p : P) : unread p = [] → (readInt64 p).1.1 ≠ OK ∧ unread (readInt64 p).2 = [];
  nothing_exception (p : P) : unread p = [] → (readExceptionCode p).1 = 0 ∧ unread (readExceptionCode p).2 = []
}.

Section objects.
  Context `{ParcelObjectLaws P}.
  Implicit Types p q : P.

(** A write into a parcel with room. *)
Definition adds (f : P → Z * P) (item : pitem) : Prop :=
  ∀ p, has_space p → ∃ p', f p = (OK, p') ∧ has_space p' ∧ unread p' = unread p ++ [item].

Lemma put_intro f item :
  puts f item → (∀ p, has_space p → (f p).1 = OK ∧ has_space (f p).2) → adds f item.
Proof.
  intros Hf Hs p Hp. specialize (Hf p). destruct (Hs p Hp) as [Hok Hp']. destruct (f p) as [r p'].
  cbn in *. subst r. by exists p'.
Qed.

Lemma put_int32 z : adds (writeInt32 z) (PInt32 z).
Proof. apply put_intro; [intros p; apply writeInt32_law|apply space_int32]. Qed.
Lemma put_int64 z : adds (writeInt64 z) (PInt64 z).
Proof. apply put_intro; [apply writeInt64_law|apply space_int64]. Qed.
Lemma put_string8 s : adds (writeString8 s) (PString8 s).
Proof. apply put_intro; [apply writeString8_law|apply space_string8]. Qed.
Lemma put_string16 s : adds (writeString16 s) (PString16 s).
Proof. apply put_intro; [apply writeString16_law|apply space_string16]. Qed.
Lemma put_binder b : adds (writeStrongBinder b) (PBinder b).
Proof. apply put_intro; [apply writeStrongBinder_law|apply space_binder]. Qed.
Lemma put_token i : adds (writeInterfaceToken i) (PToken i).
Proof. apply put_intro; [apply writeInterfaceToken_law|apply space_token]. Qed.
Lemma put_exception : adds writeNoException PException.
Proof. apply put_intro; [apply writeNoException_law|apply space_exception]. Qed.

(** A read of what comes next. *)
Lemma take_one {A} (f : P → A * P) item a q rest :
  takes f [item] a → unread q = item :: rest → ∃ q', f q = (a, q') ∧ unread q' = rest.
Proof. intros Hf Hq. specialize (Hf q rest Hq). destruct (f q) as [a' q']. destruct Hf as [-> ?]. by exists q'. Qed.

Lemma take_int32 z q rest :
  unread q = PInt32 z :: rest → ∃ q', readInt32 q = (OK, z, q') ∧ unread q' = rest.
Proof.
  intros Hq. pose proof (readInt32_law z rest q Hq) as Hr. destruct (readInt32 q) as [[r z'] q'].
  destruct Hr as (-> & -> & ?). by exists q'.
Qed.

End objects.

(** ** Files, arrays and positions *)

(** [written]: a parcel as the one finds it who wrote it, whose position is
    behind what was written.  [readString16] gives an empty string where there is
    none.  [read_ints n] is [read] of [n] integers of 32 bits, [write_raw] is
    [write] of bytes; [readInplace] may give null. *)
Class ParcelExtras (P : Type) := {
  written : P → P;
  dataAvail : P → Z;
  readString16 : P → chars * P;
  writeInt32Array : list Z → P → Z * P;
  read_ints : Z → P → Z * list Z * P;
  write_raw : list Z → P → Z * P;
  readInplace : Z → P → option (list Z) * P;
  writeFileDescriptor : Z → P → Z * P;
  readFileDescriptor : P → Z * P
}.

Class ParcelExtraLaws (P : Type) `{ParcelObjectLaws P} `{!ParcelExtras P} := {
  written_law (p : P) : unread (written p) = [];
  dataAvail_law (p : P) : 0 < dataAvail p ↔ unread p ≠ [];
  readString16_takes s : takes (P := P) readString16 [PString16 s] s;
  put_ints l p : has_space p → ∃ p', writeInt32Array l p = (OK, p') ∧ has_space p' ∧
    unread p' = unread p ++ [PInt32 (s32 (Z.of_nat (length l))); PInts l];
  read_ints_takes l : takes (P := P) (read_ints (Z.of_nat (length l))) [PInts l] (OK, l);
  put_raw l : adds (P := P) (write_raw l) (PRaw l);
  readInplace_takes l : takes (P := P) (readInplace (Z.of_nat (length l))) [PRaw l] (Some l);
  put_file f : adds (P := P) (writeFileDescriptor f) (PFile f);
  readFileDescriptor_takes f : takes (P := P) readFileDescriptor [PFile f] f;
  nothing_string8 (p : P) : unread p = [] → (readString8 p).1 = []
}.

(** ** A parcel in software: the values, and which of the next writes succeed *)

Record soft_parcel := SoftParcel { sp_items : list pitem; sp_room : list bool }.

Definition soft_put (item : pitem) (p : soft_parcel) : Z * soft_parcel :=
  if default true (head (sp_room p))
  then (OK, SoftParcel (sp_items p ++ [item]) (tail (sp_room p)))
  else (NO_MEMORY, SoftParcel (sp_items p) (tail (sp_room p))).

(** Blobs lie one byte behind an aligned address. *)
Definition soft_blob (len : Z) (fill : Z → list Z → list Z) (p : soft_parcel) : Z * Z * soft_parcel :=
  if bool_decide (0 <= len) && bool_decide (len <= 2 ^ 31) then
    let '(r, p) := soft_put (PBlob (fill 4097 (repeat 0 (Z.to_nat len)))) p in (r, 4097, p)
  else (BAD_VALUE, 0, p).

#[export] Instance soft_parcels : Parcel soft_parcel := {|
  writeInt32 z := soft_put (PInt32 z);
  readInt32 p :=
    match sp_items p with
    | PInt32 z :: l => (OK, z, SoftParcel l (sp_room p))
    | _ => (BAD_VALUE, 0, p)
    end;
  writeBlob := soft_blob;
  readBlob len p :=
    match sp_items p with
    | PBlob b :: l =>
        if bool_decide (Z.of_nat (length b) = len) then (OK, b, SoftParcel l (sp_room p))
        else (BAD_VALUE, [], p)
    | _ => (BAD_VALUE, [], p)
    end
|}.

Lemma soft_put_items item p :
  let '(r, p') := soft_put item p in
  sp_items p' = sp_items p ++ (if bool_decide (r = OK) then [item] else []).
Proof. unfold soft_put. destruct (default _ _); cbn; by rewrite ?app_nil_r. Qed.

#[export] Instance soft_parcel_laws : ParcelLaws soft_parcel.
Proof.
  refine {| unread := sp_items |}.
  - intros z p. apply soft_put_items.
  - intros len fill p. cbn. unfold soft_blob. destruct (_ && _) eqn:Hb; [|done].
    apply andb_prop in Hb as [H1%bool_decide_eq_true H2%bool_decide_eq_true].
    pose proof (soft_put_items (PBlob (fill 4097 (repeat 0 (Z.to_nat len)))) p) as Hp.
    destruct (soft_put _ p) as [r p']. case_bool_decide; [|by rewrite app_nil_r in Hp].
    split_and!; [lia..|]. eexists. split; [|exact Hp]. rewrite repeat_length. lia.
  - intros z l p Hp. cbn. by rewrite Hp.
  - intros b l p Hp. cbn. rewrite Hp. by rewrite bool_decide_true.
  - intros len p. cbn. destruct (sp_items p) as [|[] l]; try done.
    case_bool_decide; [done|by intros ?].
Defined.

#[export] Instance soft_objects : ParcelObjects soft_parcel := {|
  new_parcel := SoftParcel [] [];
  writeInt64 z := soft_put (PInt64 z);
  readInt64 p :=
    match sp_items p with
    | PInt64 z :: l => (OK, z, SoftParcel l (sp_room p))
    | _ => (BAD_VALUE, 0, p)
    end;
  writeString8 s := soft_put (PString8 s);
  readString8 p :=
    match sp_items p with PString8 s :: l => (s, SoftParcel l (sp_room p)) | _ => ([], p) end;
  writeString16 s := soft_put (PString16 s);
  readString16Inplace p :=
    match sp_items p with PString16 s :: l => (Some s, SoftParcel l (sp_room p)) | _ => (None, p) end;
  writeStrongBinder b := soft_put (PBinder b);
  readStrongBinder p :=
    match sp_items p with PBinder b :: l => (b, SoftParcel l (sp_room p)) | _ => (None, p) end;
  writeInterfaceToken i := soft_put (PToken i);
  checkInterface i p :=
    match sp_items p with
    | PToken j :: l => (bool_decide (i = j), SoftParcel l (sp_room p))
    | _ => (false, p)
    end;
  writeNoException := soft_put PException;
  readExceptionCode p :=
    match sp_items p with PException :: l => (0, SoftParcel l (sp_room p)) | _ => (0, p) end
|}.

Lemma soft_put_space item p :
  sp_room p = [] → (soft_put item p).1 = OK ∧ sp_room (soft_put item p).2 = [].
Proof. unfold soft_put. intros ->. by split. Qed.

#[export] Instance soft_object_laws : ParcelObjectLaws soft_parcel.
Proof.
  refine {| has_space p := sp_room p = [] |}; try (intros z p; by apply soft_put_items);
    try (intros z p; by apply soft_put_space); try (intros p; by apply soft_put_items);
    try (intros p; by apply soft_put_space); try (intros z p l Hp; cbn in *; rewrite Hp; by split);
    try (intros p Hp; cbn in *; by rewrite Hp).
  - done.
  - intros i j p l Hp. cbn in *. rewrite Hp. by split.
  - intros p l Hp. cbn in *. rewrite Hp. by split.
  - intros len fill p Hp Hl. cbn. unfold soft_blob.
    rewrite !bool_decide_true by lia. cbn. pose proof (soft_put_space (PBlob (fill 4097 (repeat 0 (Z.to_nat len)))) p Hp).
    by destruct (soft_put _ p).
Defined.

(** The lengths of arrays are those of their items. *)
#[export] Instance soft_extras : ParcelExtras soft_parcel := {|
  written p := SoftParcel [] (sp_room p);
  dataAvail p := Z.of_nat (length (sp_items p));
  readString16 p :=
    match sp_items p with PString16 s :: l => (s, SoftParcel l (sp_room p)) | _ => ([], p) end;
  writeInt32Array l p :=
    let '(r, p) := soft_put (PInt32 (s32 (Z.of_nat (length l)))) p in
    if bool_decide (r = OK) then soft_put (PInts l) p else (r, p);
  read_ints n p :=
    match sp_items p with
    | PInts l :: rest =>
        if bool_decide (Z.of_nat (length l) = n) then (OK, l, SoftParcel rest (sp_room p))
        else (NOT_ENOUGH_DATA, [], p)
    | _ => (NOT_ENOUGH_DATA, [], p)
    end;
  write_raw l := soft_put (PRaw l);
  readInplace n p :=
    match sp_items p with
    | PRaw l :: rest =>
        if bool_decide (Z.of_nat (length l) = n) then (Some l, SoftParcel rest (sp_room p)) else (None, p)
    | _ => (None, p)
    end;
  writeFileDescriptor f := soft_put (PFile f);
  readFileDescriptor p :=
    match sp_items p with PFile f :: l => (f, SoftParcel l (sp_room p)) | _ => (BAD_VALUE, p) end
|}.

Lemma soft_adds item : adds (soft_put item) item.
Proof. intros p Hp. unfold soft_put. cbn in *. rewrite Hp. eexists. by split_and!. Qed.

#[export] Instance soft_extra_laws : ParcelExtraLaws soft_parcel.
Proof.
  split; try (intros l; exact (soft_adds (PRaw l))); try (intros f; exact (soft_adds (PFile f)));
    try (intros z p l Hp; cbn in *; rewrite Hp; by split).
  - done.
  - intros p. cbn. destruct (sp_items p); cbn; split; [lia|done|done|lia].
  - intros l p Hp. cbn. destruct (soft_adds (PInt32 (s32 (Z.of_nat (length l)))) p Hp) as (p1 & -> & Hp1 & Hu1).
    rewrite bool_decide_true by done. destruct (soft_adds (PInts l) p1 Hp1) as (p2 & -> & Hp2 & Hu2).
    exists p2. split_and!; [done..|]. cbn in *. by rewrite Hu2, Hu1, <- (assoc_L (++)).
  - intros l p rest Hp. cbn in *. rewrite Hp. by rewrite bool_decide_true.
  - intros l p rest Hp. cbn in *. rewrite Hp. by rewrite bool_decide_true.
  - intros p Hp. cbn in *. by rewrite Hp.
Qed.
