(* ===== verification/CameraMeta.v ===== *)
(** * The class CameraMetadata (src/libmocha/camera/CameraMetadata.cpp)

    An object owns a packet of the metadata library (system/camera_metadata.h)
    or none.  The library is a parameter; what is in a packet is kept with its
    owner, and the heap says which packets are allocated, so that reading or
    freeing one that is not is visible as a fault.  [size_t] has 32 bits. *)

From stdpp Require Import gmap.
From S2P Require Import Prelude CameraH Parcels.

#[global] Open Scope Z_scope.

(** ** Packets *)

(** system/camera_metadata.h *)
Definition ERROR : Z := 1.

(** A [camera_metadata_t]: its address, its entries in order, the room for
    entries, the bytes of values in use and the room for values. *)
Record camera_metadata := CMeta {
  cm_addr : Z;
  cm_entries : list mentry;
  cm_entry_capacity : Z;
  cm_data_count : Z;
  cm_data_capacity : Z
}.

#[export] Instance camera_metadata_eq_dec : EqDecision camera_metadata.
Proof. solve_decision. Defined.

Definition cm_entry_count (c : camera_metadata) : Z := Z.of_nat (length (cm_entries c)).

(** The heap: the addresses of the packets that are allocated, whether a packet
    that is not was used, and the allocator's own state. *)
Record heap (W : Type) := Heap { hp_live : gset Z; hp_fault : bool; hp_world : W }.
Arguments Heap {W}.
Arguments hp_live {W}.
Arguments hp_fault {W}.
Arguments hp_world {W}.

(** The library.  Allocating takes the addresses in use; the functions that the
    code calls with a null packet take an option.  [packed]: the bytes of
    [copy_camera_metadata]. *)
Class MetaPackets (W : Type) `{!MetadataLib} := {
  allocate_camera_metadata : gset Z → Z → Z → W → option camera_metadata * W;
  clone_camera_metadata : gset Z → camera_metadata → W → option camera_metadata * W;
  get_camera_metadata_size : option camera_metadata → Z;
  get_camera_metadata_compact_size : camera_metadata → Z;
  get_camera_metadata_alignment : Z;
  calculate_camera_metadata_entry_data_size : meta_type → Z → Z;
  append_camera_metadata : camera_metadata → camera_metadata → Z * camera_metadata;
  add_camera_metadata_entry : camera_metadata → Z → list Z → Z * camera_metadata;
  update_camera_metadata_entry : camera_metadata → nat → list Z → Z * camera_metadata;
  delete_camera_metadata_entry : camera_metadata → nat → Z * camera_metadata;
  sort_camera_metadata : camera_metadata → Z * camera_metadata;
  find_camera_metadata_entry : camera_metadata → Z → Z + nat * mentry;
  packed : camera_metadata → list Z;
  allocate_copy_camera_metadata_checked : gset Z → list Z → W → option camera_metadata * W
}.

Section metadata.
  Context {W : Type} `{!MetadataLib} `{!MetaPackets W}.

Definition fault : M (heap W) () := λ h, ((), Heap (hp_live h) true (hp_world h)).

(** Using the packet at an address. *)
Definition use (a : Z) : M (heap W) () :=
  λ h, ((), Heap (hp_live h) (hp_fault h || bool_decide (a ∉ hp_live h)) (hp_world h)).

(** An allocation by [f]. *)
Definition obtain (f : gset Z → W → option camera_metadata * W) : M (heap W) (option camera_metadata) :=
  λ h, let '(r, w) := f (hp_live h) (hp_world h) in
       (r, Heap (match r with Some c => {[cm_addr c]} ∪ hp_live h | None => hp_live h end)
             (hp_fault h) w).

Definition allocate (entries data : Z) : M (heap W) (option camera_metadata) :=
  obtain (λ live, allocate_camera_metadata live entries data).

(** [clone_camera_metadata], which gives NULL for NULL. *)
Definition clone (p : option camera_metadata) : M (heap W) (option camera_metadata) :=
  match p with
  | Some c => use (cm_addr c);; obtain (λ live, clone_camera_metadata live c)
  | None => mret None
  end.

Definition forget (a : Z) : M (heap W) () :=
  λ h, ((), Heap (hp_live h ∖ {[a]}) (hp_fault h) (hp_world h)).

Definition free_camera_metadata (c : camera_metadata) : M (heap W) () :=
  use (cm_addr c);; forget (cm_addr c).

(** ** Objects *)

Record metadata := Md { mBuffer : option camera_metadata; mLocked : bool }.

Definition clear (m : metadata) : M (heap W) metadata :=
  if mLocked m then mret m
  else match mBuffer m with
       | Some c => free_camera_metadata c;; mret (Md None false)
       | None => mret m
       end.

(** Validating the packet only makes a log message. *)
Definition acquire (buffer : option camera_metadata) (m : metadata) : M (heap W) metadata :=
  if mLocked m then mret m
  else m ← clear m; mret (Md buffer (mLocked m)).

Definition release (m : metadata) : option camera_metadata * metadata :=
  if mLocked m then (None, m) else (mBuffer m, Md None (mLocked m)).

(** [acquire(CameraMetadata &other)] of another object; gives both. *)
Definition acquire_from (m other : metadata) : M (heap W) (metadata * metadata) :=
  if mLocked m then mret (m, other)
  else let '(buffer, other) := release other in
       m ← acquire buffer m; mret (m, other).

(** The constructors. *)
Definition CameraMetadata : metadata := Md None false.

Definition CameraMetadata_sized (entryCapacity dataCapacity : Z) : M (heap W) metadata :=
  c ← allocate entryCapacity dataCapacity; mret (Md c false).

Definition CameraMetadata_copy (other : metadata) : M (heap W) metadata :=
  c ← clone (mBuffer other); mret (Md c false).

Definition CameraMetadata_take (buffer : option camera_metadata) : M (heap W) metadata :=
  acquire buffer (Md None false).

Definition destroy (m : metadata) : M (heap W) () := clear (Md (mBuffer m) false);; mret ().

(** [operator=] of a packet.  Addresses are compared. *)
Definition assign (buffer : option camera_metadata) (m : metadata) : M (heap W) metadata :=
  if mLocked m then mret m
  else if bool_decide (cm_addr <$> buffer = cm_addr <$> mBuffer m) then mret m
  else newBuffer ← clone buffer;
       m ← clear m;
       mret (Md newBuffer (mLocked m)).

Definition getAndLock (m : metadata) : option camera_metadata * metadata :=
  (mBuffer m, Md (mBuffer m) true).

Definition unlock (buffer : option Z) (m : metadata) : Z * metadata :=
  if negb (mLocked m) then (INVALID_OPERATION, m)
  else if bool_decide (buffer ≠ cm_addr <$> mBuffer m) then (BAD_VALUE, m)
  else (OK, Md (mBuffer m) false).

Definition swap (m other : metadata) : metadata * metadata :=
  if mLocked m then (m, other)
  else if mLocked other then (m, other)
  else (Md (mBuffer other) false, Md (mBuffer m) false).

Definition entryCount (m : metadata) : Z :=
  match mBuffer m with Some c => cm_entry_count c | None => 0 end.

Definition isEmpty (m : metadata) : bool := bool_decide (entryCount m = 0).

(** ** Room *)

(** The capacity for [count + extra] of which there are [cap]. *)
Definition grown (count extra cap : Z) : Z :=
  let new := u32 (count + extra) in
  if bool_decide (cap < new) then u32 (new * 2) else cap.

(** [resizeIfNeeded].  The status of [append_camera_metadata] is not looked at;
    when there is no memory the pointer to the old packet is overwritten. *)
Definition resizeIfNeeded (extraEntries extraData : Z) (m : metadata) : M (heap W) (Z * metadata) :=
  match mBuffer m with
  | None =>
      c ← allocate (u32 (extraEntries * 2)) (u32 (extraData * 2));
      mret (match c with Some _ => OK | None => NO_MEMORY end, Md c (mLocked m))
  | Some old =>
      let newEntryCount := grown (cm_entry_count old) extraEntries (cm_entry_capacity old) in
      let newDataCount := grown (cm_data_count old) extraData (cm_data_capacity old) in
      if bool_decide (cm_entry_capacity old < newEntryCount) ||
         bool_decide (cm_data_capacity old < newDataCount)
      then
        c ← allocate newEntryCount newDataCount;
        match c with
        | None => mret (NO_MEMORY, Md None (mLocked m))
        | Some c =>
            use (cm_addr old);;
            free_camera_metadata old;;
            mret (OK, Md (Some (append_camera_metadata c old).2) (mLocked m))
        end
      else mret (OK, m)
  end.

(** [append].  The counts of [other] are read first: a null [other] is a fault.
    A null packet of the object's own is the library's error. *)
Definition append (other : option camera_metadata) (m : metadata) : M (heap W) (Z * metadata) :=
  if mLocked m then mret (INVALID_OPERATION, m)
  else match other with
       | None => fault;; mret (ERROR, m)
       | Some o =>
           use (cm_addr o);;
           '(_, m) ← resizeIfNeeded (cm_entry_count o) (cm_data_count o) m;
           match mBuffer m with
           | None => mret (ERROR, m)
           | Some c =>
               use (cm_addr o);;
               (let '(r, c) := append_camera_metadata c o in mret (r, Md (Some c) (mLocked m)))
           end
       end.

Definition sort (m : metadata) : Z * metadata :=
  if mLocked m then (INVALID_OPERATION, m)
  else match mBuffer m with
       | None => (ERROR, m)
       | Some c => let '(r, c) := sort_camera_metadata c in (r, Md (Some c) (mLocked m))
       end.

(** ** Entries *)

Definition checkType (tag : Z) (expectedType : meta_type) : Z :=
  match get_camera_metadata_tag_type tag with
  | None => INVALID_OPERATION
  | Some tagType => if bool_decide (tagType ≠ expectedType) then INVALID_OPERATION else OK
  end.

(** [find_camera_metadata_entry] of the object's packet. *)
Definition find_entry (m : metadata) (tag : Z) : Z + nat * mentry :=
  match mBuffer m with
  | None => inl ERROR
  | Some c => find_camera_metadata_entry c tag
  end.

(** The test of an array of the caller's, by addresses of 32 bits. *)
Definition aliases (m : metadata) (data_addr : Z) : bool :=
  let bufAddr := from_option cm_addr 0 (mBuffer m) in
  bool_decide (bufAddr < data_addr) &&
  bool_decide (data_addr < u32 (bufAddr + get_camera_metadata_size (mBuffer m))).

(** An array at [data_addr] is part of the packet. *)
Definition lies_in (data_addr : Z) (c : camera_metadata) : bool :=
  bool_decide (cm_addr c < data_addr < cm_addr c + get_camera_metadata_size (Some c)).

(** Reading the caller's array, which may be part of the packet the object had
    when the caller took its address. *)
Definition read_array (data_addr : Z) (buffer : option camera_metadata) : M (heap W) () :=
  match buffer with
  | Some c => if lies_in data_addr c then use (cm_addr c) else mret ()
  | None => mret ()
  end.

(** [updateImpl]: [data_addr] is where the caller's array [data] lies, which is
    read once there is room. *)
Definition updateImpl (tag : Z) (data_addr : Z) (data : list Z) (m : metadata)
    : M (heap W) (Z * metadata) :=
  if mLocked m then mret (INVALID_OPERATION, m)
  else match get_camera_metadata_tag_type tag with
       | None => mret (BAD_VALUE, m)
       | Some type =>
           if aliases m data_addr then mret (INVALID_OPERATION, m)
           else
             let data_size :=
               calculate_camera_metadata_entry_data_size type (Z.of_nat (length data)) in
             let before := mBuffer m in
             '(res, m) ← resizeIfNeeded 1 data_size m;
             if bool_decide (res ≠ OK) then mret (res, m)
             else match mBuffer m with
                  | None => mret (ERROR, m)
                  | Some c =>
                      match find_camera_metadata_entry c tag with
                      | inl res =>
                          if bool_decide (res = NAME_NOT_FOUND) then
                            read_array data_addr before;;
                            (let '(res, c) := add_camera_metadata_entry c tag data in
                             mret (res, Md (Some c) (mLocked m)))
                          else mret (res, m)
                      | inr (index, _) =>
                          read_array data_addr before;;
                          (let '(res, c) := update_camera_metadata_entry c index data in
                           mret (res, Md (Some c) (mLocked m)))
                      end
                  end
       end.

(** The overloads of [update], by the type of the elements. *)
Definition update (type : meta_type) (tag : Z) (data_addr : Z) (data : list Z) (m : metadata)
    : M (heap W) (Z * metadata) :=
  if mLocked m then mret (INVALID_OPERATION, m)
  else let res := checkType tag type in
       if bool_decide (res ≠ OK) then mret (res, m)
       else updateImpl tag data_addr data m.

(** [update] of a string: its characters and the null byte. *)
Definition update_string (tag : Z) (data_addr : Z) (characters : list Z) (m : metadata)
    : M (heap W) (Z * metadata) :=
  if mLocked m then mret (INVALID_OPERATION, m)
  else let res := checkType tag TYPE_BYTE in
       if bool_decide (res ≠ OK) then mret (res, m)
       else updateImpl tag data_addr (characters ++ [0]) m.

Definition const_find (m : metadata) (tag : Z) : option mentry :=
  c ← mBuffer m; find_camera_metadata_ro_entry (cm_entries c) tag.

Definition exists_ (m : metadata) (tag : Z) : bool := bool_decide (is_Some (const_find m tag)).

(** [find], whose entry has no elements when there is none. *)
Definition find (m : metadata) (tag : Z) : list Z :=
  if mLocked m then []
  else match find_entry m tag with
       | inl _ => []
       | inr (_, e) => me_data e
       end.

Definition erase (tag : Z) (m : metadata) : Z * metadata :=
  if mLocked m then (INVALID_OPERATION, m)
  else match mBuffer m with
       | None => (ERROR, m)
       | Some c =>
           match find_camera_metadata_entry c tag with
           | inl res => if bool_decide (res = NAME_NOT_FOUND) then (OK, m) else (res, m)
           | inr (index, _) =>
               let '(res, c) := delete_camera_metadata_entry c index in
               (res, Md (Some c) (mLocked m))
           end
       end.

(** ** Parcels *)

Section parcel.
  Context {P : Type} `{!Parcel P}.

Definition align_to (val alignment : Z) : Z :=
  Z.land (u32 (val + (alignment - 1))) (not32 (alignment - 1)).

(** What is written into the blob at [a]: the packet at its aligned start. *)
Definition blob_bytes (c : camera_metadata) (a : Z) (old : list Z) : list Z :=
  let offset := Z.to_nat (align_to a get_camera_metadata_alignment - a) in
  take offset old ++ packed c ++ drop (offset + length (packed c)) old.

(** [writeToParcel].  Whether the blob was written does not show in the result:
    the status is that of the last integer. *)
Definition writeToParcel (metadata : option camera_metadata) (data : P) : M (heap W) (Z * P) :=
  match metadata with
  | None => mret (writeInt32 0 data)
  | Some c =>
      use (cm_addr c);;
      let blobSize := u32 (get_camera_metadata_compact_size c + get_camera_metadata_alignment) in
      let '(res, data) := writeInt32 (s32 blobSize) data in
      if bool_decide (res ≠ OK) then mret (res, data)
      else
        let '(res, a, data) := writeBlob blobSize (blob_bytes c) data in
        let offset :=
          if bool_decide (res = OK) then u32 (align_to a get_camera_metadata_alignment - a) else 0 in
        mret (writeInt32 (s32 offset) data)
  end.

(** The bytes of the packet in a blob; reading outside the blob is a fault. *)
Definition blob_packet (blob : list Z) (offset size : Z) : M (heap W) (list Z) :=
  if bool_decide (offset + size <= Z.of_nat (length blob))
  then mret (take (Z.to_nat size) (drop (Z.to_nat offset) blob))
  else fault;; mret [].

(** What is done with the blob: the status and the copy. *)
Definition read_blob (blobSize : Z) (data : P) : M (heap W) (Z * option camera_metadata * P) :=
  let metadataSize := u32 (blobSize - get_camera_metadata_alignment) in
  let '(err, blob, data) := readBlob blobSize data in
  if bool_decide (err ≠ OK) then mret (err, None, data)
  else
    let '(err, offsetTmp, data) := readInt32 data in
    if bool_decide (err ≠ OK) then mret (err, None, data)
    else
      let offset := u32 offsetTmp in
      if bool_decide (get_camera_metadata_alignment <= offset) then mret (BAD_VALUE, None, data)
      else
        tmp ← blob_packet blob offset metadataSize;
        metadata ← obtain (λ live, allocate_copy_camera_metadata_checked live tmp);
        mret (match metadata with Some _ => OK | None => BAD_VALUE end, metadata, data).

(** [readFromParcel] of a parcel: the status and [*out], when [out] is not null. *)
Definition readFromParcel (out : bool) (data : P) : M (heap W) (Z * option camera_metadata * P) :=
  let '(err, blobSizeTmp, data) := readInt32 data in
  if bool_decide (err ≠ OK) then mret (err, None, data)
  else
    let blobSize := u32 blobSizeTmp in
    if bool_decide (blobSize = 0) then mret (OK, None, data)
    else if bool_decide (blobSize <= get_camera_metadata_alignment) then mret (BAD_VALUE, None, data)
    else
      '(err, metadata, data) ← read_blob blobSize data;
      if out then mret (err, metadata, data)
      else match metadata with
           | Some c => free_camera_metadata c;; mret (err, None, data)
           | None => mret (err, None, data)
           end.

(** The methods of an object; a null parcel is refused. *)
Definition read_object (parcel : option P) (m : metadata) : M (heap W) (Z * metadata * option P) :=
  match parcel with
  | None => mret (BAD_VALUE, m, None)
  | Some p =>
      if mLocked m then mret (INVALID_OPERATION, m, Some p)
      else
        '(res, buffer, p) ← readFromParcel true p;
        if bool_decide (res ≠ NO_ERROR) then mret (res, m, Some p)
        else m ← clear m; mret (OK, Md buffer (mLocked m), Some p)
  end.

Definition write_object (m : metadata) (parcel : option P) : M (heap W) (Z * option P) :=
  match parcel with
  | None => mret (BAD_VALUE, None)
  | Some p => '(res, p) ← writeToParcel (mBuffer m) p; mret (res, Some p)
  end.

End parcel.
End metadata.
