(* ===== verification/CameraMetaFacts.v ===== *)
(** * What the class CameraMetadata promises (src/libmocha/camera/CameraMetadata.cpp)

    The laws of the metadata library, ownership of packets as a small logic of
    what a computation owns before and after, and the operations as functions
    on maps. *)

From stdpp Require Import gmap.
From S2P Require Import Prelude CameraH Parcels CameraMeta.

#[global] Open Scope Z_scope.

(** ** The library *)

(** No block of memory reaches a quarter of the address space. *)
Definition BLOCK_MAX : Z := 2 ^ 30 - 1.

Record cm_ok (c : camera_metadata) : Prop := {
  ok_entries : cm_entry_count c <= cm_entry_capacity c <= BLOCK_MAX;
  ok_data : 0 <= cm_data_count c <= cm_data_capacity c;
  ok_size : cm_data_capacity c <= BLOCK_MAX
}.

(** A packet as it was but for what it holds. *)
Definition refilled (c : camera_metadata) (l : list mentry) (n : Z) : camera_metadata :=
  CMeta (cm_addr c) l (cm_entry_capacity c) n (cm_data_capacity c).

Class MetaPacketsLaws (W : Type) `{MetaPackets W} := {
  allocate_law live entries data w c w' :
    allocate_camera_metadata live entries data w = (Some c, w') →
    cm_addr c ∉ live ∧ cm_ok c ∧ cm_entries c = [] ∧ cm_data_count c = 0 ∧
    cm_entry_capacity c = entries ∧ cm_data_capacity c = data;
  clone_law live c w c' w' :
    CameraMeta.clone_camera_metadata live c w = (Some c', w') →
    cm_addr c' ∉ live ∧ cm_ok c' ∧ cm_entries c' = cm_entries c;
  (* a block ends below the top of the address space *)
  size_law c : cm_addr c + get_camera_metadata_size (Some c) < 2 ^ 32;
  data_size_nonneg type n : 0 <= calculate_camera_metadata_entry_data_size type n;
  append_law c o :
    let '(r, c') := append_camera_metadata c o in
    (r = OK → c' = refilled c (cm_entries c ++ cm_entries o) (cm_data_count c + cm_data_count o) ∧
              (cm_ok c → cm_ok o → cm_ok c')) ∧
    (r ≠ OK → c' = c);
  append_fits c o :
    cm_entries c = [] → cm_data_count c = 0 →
    cm_entry_count o <= cm_entry_capacity c → cm_data_count o <= cm_data_capacity c →
    (append_camera_metadata c o).1 = OK;
  add_addr c tag data : cm_addr (add_camera_metadata_entry c tag data).2 = cm_addr c;
  update_addr c i data : cm_addr (update_camera_metadata_entry c i data).2 = cm_addr c;
  add_law c tag type data :
    get_camera_metadata_tag_type tag = Some type →
    let size := calculate_camera_metadata_entry_data_size type (Z.of_nat (length data)) in
    cm_entry_count c + 1 <= cm_entry_capacity c →
    cm_data_count c + size <= cm_data_capacity c →
    add_camera_metadata_entry c tag data =
      (OK, refilled c (cm_entries c ++ [MEntry tag data]) (cm_data_count c + size));
  delete_addr c i : cm_addr (delete_camera_metadata_entry c i).2 = cm_addr c;
  update_law c i e type data :
    cm_ok c → cm_entries c !! i = Some e → get_camera_metadata_tag_type (me_tag e) = Some type →
    cm_data_count c +
      calculate_camera_metadata_entry_data_size type (Z.of_nat (length data)) <= cm_data_capacity c →
    ∃ n, 0 <= n <= cm_data_capacity c ∧
      update_camera_metadata_entry c i data =
        (OK, refilled c (<[i := MEntry (me_tag e) data]> (cm_entries c)) n);
  delete_law c i e :
    cm_ok c → cm_entries c !! i = Some e →
    ∃ n, 0 <= n <= cm_data_count c ∧
      delete_camera_metadata_entry c i = (OK, refilled c (delete i (cm_entries c)) n);
  sort_law c :
    ∃ l, l ≡ₚ cm_entries c ∧ (sort_camera_metadata c).2 = refilled c l (cm_data_count c);
  find_found c tag i e :
    find_camera_metadata_entry c tag = inr (i, e) → cm_entries c !! i = Some e ∧ me_tag e = tag;
  find_missing c tag r :
    find_camera_metadata_entry c tag = inl r →
    r = NAME_NOT_FOUND ∧ ∀ e, e ∈ cm_entries c → me_tag e ≠ tag;
  alignment_law : ∃ k, 0 <= k <= 12 ∧ get_camera_metadata_alignment = 2 ^ k;
  packed_length c : Z.of_nat (length (packed c)) = get_camera_metadata_compact_size c;
  packed_size c : 0 < get_camera_metadata_compact_size c;
  copy_law live bytes w c w' :
    allocate_copy_camera_metadata_checked live bytes w = (Some c, w') →
    cm_addr c ∉ live ∧ cm_ok c ∧ ∀ c0, bytes = packed c0 → cm_entries c = cm_entries c0
}.

(** ** Ownership *)

Section owned.
  Context {W : Type}.
  Implicit Types (h : heap W) (F l : list Z).

(** Exactly the packets of [l] are allocated, and nothing wrong was done. *)
Definition holds h l : Prop := elements (hp_live h) ≡ₚ l ∧ hp_fault h = false.

(** [owned pre m post]: owning the packets [pre], whatever others own, [m] does
    nothing wrong and ends owning the packets [post] gives for its value. *)
Definition owned {A} (pre : list Z) (m : M (heap W) A) (post : A → list Z) : Prop :=
  ∀ F h, holds h (pre ++ F) → holds (m h).2 (post (m h).1 ++ F).

Lemma holds_perm h l l' : l ≡ₚ l' → holds h l → holds h l'.
Proof. intros Hl [Hh Hf]. split; [by rewrite <- Hl|done]. Qed.

Lemma holds_live h l a : holds h l → a ∈ hp_live h ↔ a ∈ l.
Proof. intros [Hh _]. by rewrite <- Hh, elem_of_elements. Qed.

Lemma owned_ret {A} pre (a : A) post : pre ≡ₚ post a → owned pre (mret a) post.
Proof. intros Hp F h Hh. eapply holds_perm; [|exact Hh]. cbn. by rewrite Hp. Qed.

Lemma owned_bind {A B} pre (m : M (heap W) A) (f : A → M (heap W) B) mid post :
  owned pre m mid → (∀ a, owned (mid a) (f a) post) → owned pre (m ≫= f) post.
Proof. intros Hm Hf F h Hh. rewrite bind_run. by apply Hf, Hm. Qed.

(** What the computation does not touch stays owned. *)
Lemma owned_frame {A} G pre (m : M (heap W) A) post :
  owned pre m post → owned (pre ++ G) m (λ a, post a ++ G).
Proof.
  intros Hm F h Hh. rewrite <- app_assoc in Hh |- *. by apply Hm.
Qed.

Lemma owned_conseq {A} pre pre' (m : M (heap W) A) post post' :
  owned pre' m post' → pre ≡ₚ pre' → (∀ a, post' a ≡ₚ post a) → owned pre m post.
Proof.
  intros Hm Hpre Hpost F h Hh. eapply holds_perm; [by rewrite <- Hpost|].
  apply Hm. eapply holds_perm; [|exact Hh]. by rewrite Hpre.
Qed.

Lemma owned_if {A} (b : bool) pre (m1 m2 : M (heap W) A) post :
  owned pre m1 post → owned pre m2 post → owned pre (if b then m1 else m2) post.
Proof. by destruct b. Qed.

Lemma owned_use pre a : a ∈ pre → owned pre (use a) (λ _, pre).
Proof.
  intros Ha F h Hh. split; [exact (proj1 Hh)|]. cbn. rewrite (proj2 Hh). cbn.
  apply bool_decide_eq_false. intros Hn. apply Hn, (holds_live h _ a Hh), elem_of_app. by left.
Qed.

Lemma owned_forget a : owned [a] (forget a) (λ _, []).
Proof.
  intros F h [Hh Hf]. split; [|exact Hf]. cbn.
  assert (Ha : a ∈ hp_live h) by (rewrite <- elem_of_elements, Hh; left).
  apply (Permutation.Permutation_cons_inv (a := a)). rewrite <- Hh.
  rewrite (union_difference_singleton_L a (hp_live h)) at 2 by done.
  rewrite elements_disj_union by set_solver. by rewrite elements_singleton.
Qed.

End owned.

Create HintDb owned discriminated.
#[export] Hint Resolve owned_ret : owned.

Section ownership.
  Context {W : Type} `{MetaPacketsLaws W}.

(** The packet an object owns. *)
Definition pkt (p : option camera_metadata) : list Z := option_list (cm_addr <$> p).
Definition owns (m : metadata) : list Z := pkt (mBuffer m).

Lemma owned_obtain (f : gset Z → W → option camera_metadata * W) :
  (∀ live w c w', f live w = (Some c, w') → cm_addr c ∉ live) →
  owned [] (obtain f) pkt.
Proof.
  intros Hf F h [Hh Hn]. unfold obtain. destruct (f (hp_live h) (hp_world h)) as [[c|] w'] eqn:He.
  - split; [|exact Hn]. cbn. rewrite elements_union_singleton by by eapply Hf.
    by rewrite Hh.
  - by split.
Qed.

Lemma owned_allocate entries data : owned [] (allocate (W := W) entries data) pkt.
Proof. apply owned_obtain. intros live w c w' Ha. by apply allocate_law in Ha as [? _]. Qed.

Lemma owned_free c : owned [cm_addr c] (free_camera_metadata (W := W) c) (λ _, []).
Proof. eapply owned_bind; [apply owned_use; left|]. intros ?. apply owned_forget. Qed.

(** A clone is a new packet; the old one stays with its owner. *)
Lemma owned_clone p : owned (pkt p) (clone (W := W) p) (λ q, pkt q ++ pkt p).
Proof.
  destruct p as [c|]; [|by apply owned_ret]. cbn [clone].
  eapply owned_bind; [apply owned_use; left|]. intros ?.
  apply (owned_frame (pkt (Some c)) []). apply owned_obtain.
  intros live w c' w' Hc. by apply clone_law in Hc as [? _].
Qed.

Lemma owned_clear m :
  owned (owns m) (clear (W := W) m) owns.
Proof.
  unfold clear. apply owned_if; [by apply owned_ret|].
  destruct m as [[c|] ?]; cbn; [|by apply owned_ret].
  eapply owned_bind; [apply owned_free|]. intros ?. by apply owned_ret.
Qed.

Lemma clear_unlocked m h :
  mLocked m = false → (clear (W := W) m h).1 = Md None false.
Proof. destruct m as [b l]. cbn. intros ->. by destruct b. Qed.

(** What a resize that fails leaves without an owner. *)
Definition dropped (m m' : metadata) : list Z :=
  match mBuffer m, mBuffer m' with Some c, None => [cm_addr c] | _, _ => [] end.

Lemma append_addr c o : cm_addr (append_camera_metadata c o).2 = cm_addr c.
Proof.
  pose proof (append_law c o) as Ha. destruct (append_camera_metadata c o) as [r c'].
  destruct Ha as [Hok Hno]. destruct (decide (r = OK)) as [Hr|Hr].
  - by destruct (Hok Hr) as [-> _].
  - by rewrite (Hno Hr).
Qed.

Lemma owned_resize entries data m :
  owned (owns m) (resizeIfNeeded (W := W) entries data m) (λ '(_, m'), owns m' ++ dropped m m').
Proof.
  destruct m as [[old|] l]; unfold owns, dropped; cbn [mBuffer resizeIfNeeded].
  - case_match; [|by apply owned_ret].
    eapply owned_bind; [apply (owned_frame (pkt (Some old)) []), owned_allocate|].
    intros [c|]; [|by apply owned_ret].
    eapply owned_bind; [apply owned_use; cbn; set_solver|]. intros ?.
    eapply owned_bind.
    + eapply owned_conseq with (pre' := [cm_addr old] ++ [cm_addr c]);
        [apply owned_frame, owned_free|apply Permutation_app_comm|done].
    + intros ?. apply owned_ret. cbn. by rewrite append_addr.
  - eapply owned_bind; [apply owned_allocate|]. intros c. apply owned_ret. cbn.
    by rewrite app_nil_r.
Qed.

Lemma owned_acquire p m :
  owned (owns m ++ pkt p) (acquire (W := W) p m)
    (λ m', owns m' ++ (if mLocked m then pkt p else [])).
Proof.
  unfold acquire. destruct (mLocked m) eqn:Hl; [by apply owned_ret|].
  intros F h Hh. rewrite bind_run, (clear_unlocked m h Hl).
  cbn. pose proof (owned_frame (pkt p) _ _ _ (owned_clear m) F h Hh) as Hc.
  rewrite (clear_unlocked m h Hl) in Hc. cbn in Hc. by rewrite app_nil_r.
Qed.

Lemma owned_assign p m :
  owned (owns m ++ pkt p) (assign (W := W) p m) (λ m', owns m' ++ pkt p).
Proof.
  unfold assign. destruct (mLocked m) eqn:Hl; [by apply owned_ret|].
  apply owned_if; [by apply owned_ret|].
  eapply owned_bind.
  - eapply owned_conseq; [apply (owned_frame (owns m)), owned_clone|apply Permutation_app_comm|done].
  - intros q F h Hh. rewrite bind_run, (clear_unlocked m h Hl). cbn.
    pose proof (owned_frame (pkt q ++ pkt p) _ _ _ (owned_clear m) F h) as Hc.
    rewrite (clear_unlocked m h Hl) in Hc. apply Hc.
    eapply holds_perm; [|exact Hh]. by rewrite (Permutation_app_comm (owns m)).
Qed.

Lemma owned_destroy m : owned (owns m) (destroy (W := W) m) (λ _, []).
Proof.
  unfold destroy. intros F h Hh. rewrite bind_run. cbn.
  pose proof (owned_clear (Md (mBuffer m) false) F h Hh) as Hc.
  by rewrite clear_unlocked in Hc.
Qed.

(** Appending a packet somebody owns. *)
Lemma owned_append o m :
  owned (owns m ++ [cm_addr o]) (append (W := W) (Some o) m)
    (λ '(_, m'), owns m' ++ dropped m m' ++ [cm_addr o]).
Proof.
  unfold append. apply owned_if; [apply owned_ret; unfold dropped; by destruct (mBuffer m)|].
  eapply owned_bind; [apply owned_use; set_solver|]. intros ?.
  eapply owned_bind; [apply (owned_frame [cm_addr o]), owned_resize|]. intros [r m1].
  destruct (mBuffer m1) as [c|] eqn:Hb.
  - eapply owned_bind; [apply owned_use; set_solver|]. intros ?.
    pose proof (append_addr c o) as Ha. destruct (append_camera_metadata c o) as [r' c'].
    apply owned_ret. unfold owns, dropped. cbn in *. rewrite Hb. cbn. rewrite Ha.
    by destruct (mBuffer m).
  - apply owned_ret. unfold owns, dropped. rewrite Hb. by destruct (mBuffer m).
Qed.

(** The test finds every array that is part of the packet. *)
Lemma read_elsewhere m a : aliases m a = false → read_array (W := W) a (mBuffer m) = mret ().
Proof.
  intros Ha. unfold read_array. destruct (mBuffer m) as [c|] eqn:Hb; [|done].
  destruct (lies_in a c) eqn:Hl; [|done]. apply bool_decide_eq_true in Hl.
  unfold aliases in Ha. rewrite Hb in Ha. cbn in Ha.
  pose proof (size_law c). pose proof (u32_range (cm_addr c + get_camera_metadata_size (Some c))) as Hr.
  rewrite bool_decide_true in Ha by lia. rewrite bool_decide_true in Ha; [done|].
  unfold is_u32 in Hr.
  destruct (decide (0 <= cm_addr c + get_camera_metadata_size (Some c))); [|lia].
  rewrite u32_small; [lia|unfold is_u32; lia].
Qed.

Lemma owned_updateImpl tag a data m :
  owned (owns m) (updateImpl (W := W) tag a data m) (λ '(_, m'), owns m' ++ dropped m m').
Proof.
  assert (Hret : ∀ r : Z, owned (W := W) (owns m) (mret (r, m)) (λ '(_, m'), owns m' ++ dropped m m')).
  { intros r. apply owned_ret. unfold owns, dropped. destruct (mBuffer m); cbn; by rewrite ?app_nil_r. }
  unfold updateImpl. apply owned_if; [done|]. destruct (get_camera_metadata_tag_type tag) as [ty|] eqn:Hty; [|done].
  destruct (aliases m a) eqn:Hal; [done|]. cbv zeta. rewrite (read_elsewhere m a Hal).
  eapply owned_bind; [apply owned_resize|]. intros [r m1].
  apply owned_if; [by apply owned_ret|]. destruct m1 as [[c|] l]; cbn; [|by apply owned_ret].
  assert (Hput : ∀ (r : Z) c', cm_addr c' = cm_addr c →
    owned (W := W) (owns (Md (Some c) l) ++ dropped m (Md (Some c) l)) (mret (r, Md (Some c') l))
      (λ '(_, m'), owns m' ++ dropped m m')).
  { intros r' c' Ha. apply owned_ret. unfold owns, dropped. cbn. by rewrite Ha. }
  destruct (find_camera_metadata_entry c tag) as [r'|[i e]].
  - apply owned_if; [|by apply owned_ret].
    pose proof (add_addr c tag data) as Ha. destruct (add_camera_metadata_entry c tag data). by apply Hput.
  - pose proof (update_addr c i data) as Ha. destruct (update_camera_metadata_entry c i data). by apply Hput.
Qed.

End ownership.

(** ** Contents *)

Section contents.
  Context {W : Type} `{MetaPacketsLaws W}.

Definition entries_of (m : metadata) : list mentry :=
  match mBuffer m with Some c => cm_entries c | None => [] end.

(** What the object holds, as a map from tags. *)
Definition contents (m : metadata) : gmap Z (list Z) := meta_map (entries_of m).

Definition packet_ok (c : camera_metadata) : Prop := cm_ok c ∧ distinct_tags (cm_entries c).

Definition metadata_ok (m : metadata) : Prop :=
  match mBuffer m with Some c => packet_ok c | None => True end.

(** An array of the caller's: its bytes are a block of memory. *)
Definition array_ok (type : meta_type) (data : list Z) : Prop :=
  calculate_camera_metadata_entry_data_size type (Z.of_nat (length data)) <= BLOCK_MAX.

Lemma grown_same count extra cap :
  0 <= count → 0 <= extra → count + extra <= cap → cap <= BLOCK_MAX → grown count extra cap = cap.
Proof.
  unfold BLOCK_MAX. intros. unfold grown. rewrite u32_small by (unfold is_u32; lia).
  by rewrite bool_decide_false by lia.
Qed.

Lemma grown_fits count extra cap :
  0 <= count <= cap → cap <= BLOCK_MAX → 0 <= extra <= BLOCK_MAX →
  count + extra <= grown count extra cap ∧ cap <= grown count extra cap.
Proof.
  unfold BLOCK_MAX. intros Hc Hm He. unfold grown.
  rewrite (u32_small (count + extra)) by (unfold is_u32; lia).
  case_bool_decide; [|lia]. rewrite u32_small by (unfold is_u32; lia). lia.
Qed.

(** There is room for [entries] more entries of [data] bytes. *)
Definition has_room (entries data : Z) (m : metadata) : Prop :=
  match mBuffer m with
  | Some c => cm_entry_count c + entries <= cm_entry_capacity c ∧
              cm_data_count c + data <= cm_data_capacity c
  | None => False
  end.

(** There is room afterwards and nothing is lost, or there was none, no memory
    either, and nothing is left. *)
Lemma resize_returns entries data m :
  metadata_ok m → 0 <= entries <= BLOCK_MAX → 0 <= data <= BLOCK_MAX →
  returns (resizeIfNeeded (W := W) entries data m)
    (λ '(r, m'), mLocked m' = mLocked m ∧
       ((r = OK ∧ ∃ c, mBuffer m' = Some c ∧ cm_ok c ∧ cm_entries c = entries_of m ∧
           cm_entry_count c + entries <= cm_entry_capacity c ∧
           cm_data_count c + data <= cm_data_capacity c) ∨
        (r = NO_MEMORY ∧ mBuffer m' = None ∧ ¬ has_room entries data m))).
Proof.
  intros Hm He Hd h. destruct m as [[old|] l]; unfold resizeIfNeeded, entries_of in *; cbn in Hm |- *.
  - destruct Hm as [[Ho1 Ho2 Ho3] Hdist]. pose proof (proj1 Ho1) as Hn.
    assert (0 <= cm_entry_count old) by (unfold cm_entry_count; lia).
    destruct (grown_fits (cm_entry_count old) entries (cm_entry_capacity old)) as [Hg1 Hg2]; [lia..|].
    destruct (grown_fits (cm_data_count old) data (cm_data_capacity old)) as [Hg3 Hg4]; [lia..|].
    destruct (_ || _) eqn:Hc; cbn.
    + rewrite bind_run. unfold allocate, obtain.
      destruct (allocate_camera_metadata _ _ _ _) as [[c|] w'] eqn:Ha; cbn.
      2: { split; [done|]. right. split; [done|]. split; [done|]. unfold has_room. cbn.
           intros [Hr1 Hr2]. rewrite !grown_same in Hc by (unfold BLOCK_MAX in *; lia).
           by rewrite !bool_decide_false in Hc by lia. }
      apply allocate_law in Ha as (_ & [Hk1 Hk2 Hk3] & Hce & Hcd & Hcap & Hdcap).
      pose proof (append_fits c old Hce Hcd ltac:(lia) ltac:(lia)) as Hfit.
      pose proof (append_law c old) as Hal. destruct (append_camera_metadata c old) as [r c'].
      cbn in Hfit. destruct Hal as [Hal _]. destruct (Hal Hfit) as [-> Hok].
      split; [done|]. left. split; [done|]. eexists. split; [done|].
      split; [by apply Hok|]. unfold cm_entry_count in *. cbn. rewrite Hce, Hcd. cbn.
      split_and!; (done || lia).
    + apply orb_false_iff in Hc as [Hc1%bool_decide_eq_false Hc2%bool_decide_eq_false].
      split; [done|]. left. split; [done|]. exists old. split_and!; (done || lia).
  - rewrite bind_run. unfold allocate, obtain.
    destruct (allocate_camera_metadata _ _ _ _) as [[c|] w'] eqn:Ha; cbn;
      [|by split; [|right; split; [|split; [|cbn]]; [..|intros []]]].
    apply allocate_law in Ha as (_ & Hk & Hce & Hcd & Hcap & Hdcap).
    split; [done|]. left. split; [done|]. exists c. split_and!; try done.
    + unfold cm_entry_count. rewrite Hce, Hcap, u32_small by (unfold is_u32, BLOCK_MAX in *; lia).
      cbn. lia.
    + rewrite Hcd, Hdcap, u32_small by (unfold is_u32, BLOCK_MAX in *; lia). lia.
Qed.

(** Replacing an entry and adding one are inserting into the map. *)
Lemma meta_map_replace l i e data :
  distinct_tags l → l !! i = Some e →
  meta_map (<[i := MEntry (me_tag e) data]> l) = <[me_tag e := data]> (meta_map l) ∧
  distinct_tags (<[i := MEntry (me_tag e) data]> l).
Proof.
  intros Hd Hi.
  assert (Htags : me_tag <$> <[i := MEntry (me_tag e) data]> l = me_tag <$> l).
  { rewrite list_fmap_insert. cbn. apply list_insert_id. by rewrite list_lookup_fmap, Hi. }
  assert (Hd' : distinct_tags (<[i := MEntry (me_tag e) data]> l)) by (unfold distinct_tags; by rewrite Htags).
  split; [|done]. apply map_eq. intros t. destruct (decide (t = me_tag e)) as [->|Hne].
  - rewrite lookup_insert_eq.
    apply (meta_map_lookup _ (MEntry (me_tag e) data) Hd').
    apply list_elem_of_lookup_2 with i, list_lookup_insert_eq. by eapply lookup_lt_Some.
  - rewrite lookup_insert_ne by done. destruct (meta_map l !! t) as [v|] eqn:Hl.
    + apply elem_of_list_to_map_2, list_elem_of_fmap in Hl as (e' & [= -> ->] & He').
      apply list_elem_of_lookup in He' as [j Hj].
      apply (meta_map_lookup _ e' Hd'), list_elem_of_lookup_2 with j.
      rewrite list_lookup_insert_ne; [done|]. intros ->. by rewrite Hi in Hj; simplify_eq.
    + apply meta_map_none. intros e' He'. rewrite meta_map_none in Hl.
      apply (list_elem_of_fmap_2 me_tag) in He' as Ht. 
      assert (me_tag e' ∈ me_tag <$> l) as (e0 & He0 & Hin)%list_elem_of_fmap by (rewrite <- Htags; by apply list_elem_of_fmap_2).
      rewrite He0. by apply Hl.
Qed.

Lemma meta_map_snoc l tag data :
  distinct_tags l → (∀ e, e ∈ l → me_tag e ≠ tag) →
  meta_map (l ++ [MEntry tag data]) = <[tag := data]> (meta_map l) ∧
  distinct_tags (l ++ [MEntry tag data]).
Proof.
  intros Hd Hn.
  assert (Htag : tag ∉ me_tag <$> l) by (intros (e & -> & He)%list_elem_of_fmap; by apply (Hn e)).
  split.
  - unfold meta_map. rewrite fmap_app. cbn. apply list_to_map_snoc.
    intros ([t d] & -> & (e & [= -> ->] & He)%list_elem_of_fmap)%list_elem_of_fmap. by apply (Hn e).
  - unfold distinct_tags. rewrite fmap_app. cbn. apply NoDup_app. split; [done|].
    split; [|apply NoDup_singleton]. intros t Ht ->%list_elem_of_singleton. done.
Qed.


Lemma meta_map_delete l i e :
  distinct_tags l → l !! i = Some e →
  meta_map (delete i l) = delete (me_tag e) (meta_map l) ∧ distinct_tags (delete i l).
Proof.
  intros Hd Hi. rewrite delete_take_drop.
  rewrite <- (take_drop_middle l i e Hi) in Hd. unfold distinct_tags in *.
  rewrite fmap_app, fmap_cons in Hd.
  apply NoDup_app in Hd as (Hd1 & Hd12 & [Hn Hd2]%NoDup_cons).
  assert (Hd' : distinct_tags (take i l ++ drop (S i) l)).
  { unfold distinct_tags. rewrite fmap_app. apply NoDup_app. split_and!; [done| |done].
    intros t Ht Ht'. apply (Hd12 t Ht). by right. }
  split; [|done]. rewrite <- (take_drop_middle l i e Hi) at 3. unfold meta_map.
  rewrite !fmap_app, fmap_cons, !list_to_map_app. cbn.
  rewrite delete_union, delete_insert_eq.
  rewrite !delete_id; [done| |].
  - apply not_elem_of_list_to_map. rewrite <- list_fmap_compose. exact Hn.
  - apply not_elem_of_list_to_map. rewrite <- list_fmap_compose. intros Ht. apply (Hd12 _ Ht). left.
Qed.

(** Finding a tag is looking it up. *)
Lemma find_contents m tag :
  metadata_ok m → mLocked m = false → find m tag = default [] (contents m !! tag).
Proof.
  intros Hm Hl. unfold find, find_entry, contents, entries_of. rewrite Hl.
  destruct (mBuffer m) as [c|] eqn:Hb; [|done]. unfold metadata_ok in Hm. rewrite Hb in Hm.
  destruct Hm as [_ Hd]. destruct (find_camera_metadata_entry c tag) as [r|[i e]] eqn:Hf.
  - apply find_missing in Hf as [_ Hf]. by apply meta_map_none in Hf as ->.
  - apply find_found in Hf as [Hi <-].
    by rewrite (meta_map_lookup _ _ Hd (list_elem_of_lookup_2 _ _ _ Hi)).
Qed.

Lemma refilled_ok c l n :
  cm_ok c → Z.of_nat (length l) <= cm_entry_capacity c → 0 <= n <= cm_data_capacity c →
  cm_ok (refilled c l n).
Proof. intros [Ho1 Ho2 Ho3] Hl Hn. split; unfold cm_entry_count in *; cbn in *; lia. Qed.

(** An update with room writes the map. *)
Lemma update_packet c type tag data :
  packet_ok c → get_camera_metadata_tag_type tag = Some type →
  cm_entry_count c + 1 <= cm_entry_capacity c →
  cm_data_count c + calculate_camera_metadata_entry_data_size type (Z.of_nat (length data))
    <= cm_data_capacity c →
  let '(r, c') :=
    match find_camera_metadata_entry c tag with
    | inl _ => add_camera_metadata_entry c tag data
    | inr (i, _) => update_camera_metadata_entry c i data
    end in
  r = OK ∧ packet_ok c' ∧ meta_map (cm_entries c') = <[tag := data]> (meta_map (cm_entries c)).
Proof.
  intros [Hc Hd] Hty Hroom Hsize.
  pose proof (data_size_nonneg type (Z.of_nat (length data))) as Hpos. pose proof (ok_data c Hc).
  destruct (find_camera_metadata_entry c tag) as [r|[i e]] eqn:Hf.
  - apply find_missing in Hf as [_ Hf]. rewrite (add_law c tag type data Hty) by done.
    destruct (meta_map_snoc (cm_entries c) tag data Hd Hf) as [Hm Hd']. split; [done|].
    split; [split; [apply refilled_ok; [done| |lia]|done]|done].
    rewrite length_app. unfold cm_entry_count in Hroom. cbn. lia.
  - apply find_found in Hf as [Hi <-].
    destruct (update_law c i e type data Hc Hi Hty Hsize) as (n & Hn & ->).
    destruct (meta_map_replace (cm_entries c) i e data Hd Hi) as [Hm Hd']. split; [done|].
    split; [split; [apply refilled_ok; [done| |lia]|done]|done].
    rewrite length_insert. pose proof (ok_entries c Hc). unfold cm_entry_count in *. lia.
Qed.

(** The allocator has no packet of at least this many entries and bytes. *)
Definition no_memory (entries data : Z) (h : heap W) : Prop :=
  ∃ n m, entries <= n ∧ data <= m ∧
    (allocate_camera_metadata (hp_live h) n m (hp_world h)).1 = None.

Definition in_use (m : metadata) : Z * Z :=
  match mBuffer m with Some c => (cm_entry_count c, cm_data_count c) | None => (0, 0) end.

(** A resize fails only for want of memory. *)
Lemma resize_fails entries data m h :
  metadata_ok m → 0 <= entries <= BLOCK_MAX → 0 <= data <= BLOCK_MAX →
  (resizeIfNeeded (W := W) entries data m h).1.1 = NO_MEMORY →
  no_memory ((in_use m).1 + entries) ((in_use m).2 + data) h.
Proof.
  intros Hm He Hd. unfold in_use. destruct m as [[old|] l]; unfold resizeIfNeeded in *; cbn in Hm |- *.
  - destruct Hm as [[Ho1 Ho2 Ho3] _]. 
    assert (0 <= cm_entry_count old) by (unfold cm_entry_count; lia).
    destruct (grown_fits (cm_entry_count old) entries (cm_entry_capacity old)) as [Hg1 _]; [lia..|].
    destruct (grown_fits (cm_data_count old) data (cm_data_capacity old)) as [Hg2 _]; [lia..|].
    destruct (_ || _); [|done]. rewrite bind_run. unfold allocate, obtain.
    destruct (allocate_camera_metadata _ _ _ _) as [[c|] w'] eqn:Ha; [done|]. intros _.
    eexists _, _. split_and!; [exact Hg1|exact Hg2|]. by rewrite Ha.
  - rewrite bind_run. unfold allocate, obtain.
    destruct (allocate_camera_metadata _ _ _ _) as [[c|] w'] eqn:Ha; [done|]. intros _.
    eexists _, _. split_and!; [| |by rewrite Ha].
    + rewrite u32_small; unfold is_u32, BLOCK_MAX in *; lia.
    + rewrite u32_small; unfold is_u32, BLOCK_MAX in *; lia.
Qed.

(** The statuses of an update and what they say. *)
Definition update_post (h : heap W) (type : meta_type) (tag a : Z) (data : list Z) (m : metadata)
    (res : Z * metadata) : Prop :=
  let '(r, m') := res in
  metadata_ok m' ∧ mLocked m' = mLocked m ∧
  let size := calculate_camera_metadata_entry_data_size type (Z.of_nat (length data)) in
  ((r = INVALID_OPERATION ∧ m' = m ∧
      (mLocked m = true ∨ get_camera_metadata_tag_type tag ≠ Some type ∨ aliases m a = true)) ∨
   (r = NO_MEMORY ∧ mBuffer m' = None ∧ ¬ has_room 1 size m ∧
      no_memory ((in_use m).1 + 1) ((in_use m).2 + size) h) ∨
   (r = OK ∧ mLocked m = false ∧ get_camera_metadata_tag_type tag = Some type ∧
      aliases m a = false ∧ contents m' = <[tag := data]> (contents m))).

Lemma update_returns type tag a data m h :
  metadata_ok m → array_ok type data →
  update_post h type tag a data m (update (W := W) type tag a data m h).1.
Proof.
  intros Hm Ha. unfold update, update_post. destruct (mLocked m) eqn:Hl.
  { split_and!; [done..|]. left. split_and!; [done..|by left]. }
  unfold checkType. destruct (get_camera_metadata_tag_type tag) as [ty|] eqn:Hty.
  2: { split_and!; [done..|]. left. split_and!; [done..|]. right. by left. }
  destruct (decide (ty = type)) as [->|Hne].
  2: { rewrite (bool_decide_true (ty ≠ type)) by done. split_and!; [done..|].
       left. split_and!; [done..|]. right. left. congruence. }
  rewrite (bool_decide_false (type ≠ type)) by (intros []; done). cbn.
  unfold updateImpl. rewrite Hl, Hty. destruct (aliases m a) eqn:Hal.
  { split_and!; [done..|]. left. split_and!; [done..|by right; right]. }
  rewrite (read_elsewhere m a Hal), (bool_decide_false (OK ≠ OK)), bind_run by (intros []; done).
  set (size := calculate_camera_metadata_entry_data_size type (Z.of_nat (length data))).
  assert (Hone : 0 <= 1 <= BLOCK_MAX) by (unfold BLOCK_MAX; lia).
  assert (Hsize : 0 <= size <= BLOCK_MAX) by (split; [apply data_size_nonneg|done]).
  pose proof (resize_returns 1 size m Hm Hone Hsize h) as Hres.
  pose proof (resize_fails 1 size m h Hm Hone Hsize) as Hfail.
  destruct (resizeIfNeeded 1 size m h) as [[r m1] h1]. cbn [fst snd] in Hres, Hfail |- *.
  destruct Hres as [Hlk [(-> & c & Hb & Hc & He & Hr1 & Hr2)|(-> & Hb & Hno)]].
  - cbn [OK]. rewrite (bool_decide_false (OK ≠ OK)) by (intros []; done). rewrite Hb.
    assert (Hd : distinct_tags (cm_entries c)).
    { rewrite He. unfold entries_of, metadata_ok, packet_ok in *.
      destruct (mBuffer m); [by apply Hm|constructor]. }
    pose proof (update_packet c type tag data (conj Hc Hd) Hty Hr1 Hr2) as Hu.
    assert (Hend : ∀ res : Z * camera_metadata, (let '(r, c') := res in
        r = OK ∧ packet_ok c' ∧ meta_map (cm_entries c') = <[tag := data]> (meta_map (cm_entries c))) →
        update_post h type tag a data m
          ((mret () ≫= λ _, let '(r, c') := res in mret (r, Md (Some c') (mLocked m1)) : M (heap W) (Z * metadata)) h1).1).
    { intros [r' c'] (-> & Hok & Hmap). rewrite bind_run. unfold update_post. cbn.
      rewrite Hl. split; [done|]. split; [congruence|]. right. right. split_and!; try done.
      change (meta_map (cm_entries c') = <[tag := data]> (contents m)). by rewrite Hmap, He. }
    unfold update_post in Hend. rewrite Hl, Hty, Hal in Hend.
    destruct (find_camera_metadata_entry c tag) as [r|[i e]] eqn:Hf; [|exact (Hend _ Hu)].
    apply find_missing in Hf as [-> _]. rewrite (bool_decide_true (NAME_NOT_FOUND = _)) by done.
    exact (Hend _ Hu).
  - rewrite bool_decide_true by done. cbn. unfold metadata_ok. rewrite Hb, Hlk.
    split_and!; [done..|]. right. left. split_and!; auto.
Qed.

Lemma update_faultless type tag a data m h :
  hp_fault h = false → (∀ c, mBuffer m = Some c → cm_addr c ∈ hp_live h) →
  hp_fault (update (W := W) type tag a data m h).2 = false.
Proof.
  intros Hf Hlive. unfold update. destruct (mLocked m); [done|]. case_bool_decide; [done|].
  apply (owned_updateImpl tag a data m (elements (hp_live h ∖ list_to_set (owns m))) h).
  split; [|done]. unfold owns, pkt in *. destruct (mBuffer m) as [c|]; cbn.
  - rewrite (union_difference_singleton_L (cm_addr c) (hp_live h)) at 1 by by apply Hlive.
    rewrite elements_disj_union by set_solver. rewrite elements_singleton. cbn.
    by replace ({[cm_addr c]} ∪ ∅ : gset Z) with ({[cm_addr c]} : gset Z) by set_solver.
  - by rewrite difference_empty_L.
Qed.

(** ** Sequences of operations as operations on a map *)

Inductive map_op :=
  | OUpdate (type : meta_type) (tag a : Z) (data : list Z)
  | OErase (tag : Z)
  | OSort
  | OClear.

Definition do_op (op : map_op) (m : metadata) : M (heap W) (Z * metadata) :=
  match op with
  | OUpdate type tag a data => update type tag a data m
  | OErase tag => mret (erase tag m)
  | OSort => mret (sort m)
  | OClear => m ← clear m; mret (OK, m)
  end.

Definition op_ok (op : map_op) : Prop :=
  match op with OUpdate type _ _ data => array_ok type data | _ => True end.

(** The map after an operation of status [r]. *)
Definition map_step (op : map_op) (r : Z) (mp : gmap Z (list Z)) : gmap Z (list Z) :=
  match op with
  | OUpdate _ tag _ data =>
      if bool_decide (r = OK) then <[tag := data]> mp
      else if bool_decide (r = NO_MEMORY) then ∅ else mp
  | OErase tag => delete tag mp
  | OSort => mp
  | OClear => ∅
  end.

Fixpoint do_ops (ops : list map_op) (m : metadata) : M (heap W) (list Z * metadata) :=
  match ops with
  | [] => mret ([], m)
  | op :: ops =>
      '(r, m) ← do_op op m;
      '(rs, m) ← do_ops ops m;
      mret (r :: rs, m)
  end.

Definition map_steps (ops : list map_op) (rs : list Z) (mp : gmap Z (list Z)) : gmap Z (list Z) :=
  foldl (λ mp '(op, r), map_step op r mp) mp (zip ops rs).

Lemma erase_map tag m :
  metadata_ok m → mLocked m = false →
  metadata_ok (erase tag m).2 ∧ mLocked (erase tag m).2 = false ∧
  contents (erase tag m).2 = delete tag (contents m).
Proof.
  intros Hm Hl. unfold erase, contents, entries_of. rewrite Hl. unfold metadata_ok in Hm.
  destruct (mBuffer m) as [c|] eqn:Hb.
  2: { cbn. unfold metadata_ok. rewrite Hb. by rewrite delete_empty. }
  destruct (find_camera_metadata_entry c tag) as [r|[i e]] eqn:Hf.
  - apply find_missing in Hf as [-> Hf]. rewrite bool_decide_true by done. cbn. unfold metadata_ok.
    rewrite Hb, Hl. split_and!; [done..|]. symmetry. by apply delete_id, meta_map_none.
  - apply find_found in Hf as [Hi <-]. destruct Hm as [Hc Hd].
    destruct (delete_law c i e Hc Hi) as (n & Hn & ->). destruct (meta_map_delete _ i e Hd Hi) as [Hmap Hd']. cbn.
    split_and!; [|done..]. split; [|done]. pose proof (ok_data c Hc).
    apply refilled_ok; [done| |lia]. pose proof (ok_entries c Hc).
    rewrite length_delete by by eexists. unfold cm_entry_count in *. lia.
Qed.

Lemma sort_map m :
  metadata_ok m → mLocked m = false →
  metadata_ok (sort m).2 ∧ mLocked (sort m).2 = false ∧ contents (sort m).2 = contents m.
Proof.
  intros Hm Hl. unfold sort, contents, entries_of. rewrite Hl. unfold metadata_ok in Hm.
  destruct (mBuffer m) as [c|] eqn:Hb; cbn.
  - destruct (sort_law c) as (l & Hp & Hs). destruct (sort_camera_metadata c) as [r c'].
    cbn in Hs. subst c'. destruct Hm as [Hc Hd]. cbn.
    assert (Hd' : distinct_tags l) by (unfold distinct_tags in *; by rewrite Hp).
    split_and!; [split; [|done]|done|].
    + pose proof (ok_entries c Hc). pose proof (ok_data c Hc).
      apply refilled_ok; [done| |lia]. rewrite Hp. unfold cm_entry_count in *. lia.
    + unfold meta_map. apply list_to_map_proper; [|by rewrite Hp].
      rewrite <- list_fmap_compose. exact Hd'.
  - unfold metadata_ok. by rewrite Hb.
Qed.

Lemma do_op_returns op m :
  metadata_ok m → mLocked m = false → op_ok op →
  returns (do_op op m) (λ '(r, m'), metadata_ok m' ∧ mLocked m' = false ∧
    contents m' = map_step op r (contents m)).
Proof.
  intros Hm Hl Ho. destruct op as [type tag a data|tag| |]; cbn [do_op map_step].
  - intros h. pose proof (update_returns type tag a data m h Hm Ho) as Hu.
    destruct (update type tag a data m h) as [[r m'] h']. destruct Hu as (Hm' & Hl' & Hc). cbn.
    split_and!; [done|congruence|].
    destruct Hc as [(-> & -> & _)|[(-> & Hb & _)|(-> & _ & _ & _ & ->)]]; cbn; [done| |done].
    unfold contents, entries_of. by rewrite Hb.
  - apply returns_ret. pose proof (erase_map tag m Hm Hl) as He. by destruct (erase tag m).
  - apply returns_ret. pose proof (sort_map m Hm Hl) as He. by destruct (sort m).
  - intros h. rewrite bind_run, clear_unlocked by done. done.
Qed.

Lemma do_ops_returns ops m :
  metadata_ok m → mLocked m = false → Forall op_ok ops →
  returns (do_ops ops m) (λ '(rs, m'), length rs = length ops ∧ metadata_ok m' ∧
    mLocked m' = false ∧ contents m' = map_steps ops rs (contents m)).
Proof.
  intros Hm Hl Ho. revert m Hm Hl. induction Ho as [|op ops Hop Hops IH]; intros m Hm Hl; cbn [do_ops].
  { by apply returns_ret. }
  eapply returns_bind; [by apply do_op_returns|]. intros [r m1] (Hm1 & Hl1 & Hc1).
  eapply returns_bind; [by apply IH|]. intros [rs m2] (Hlen & Hm2 & Hl2 & Hc2).
  apply returns_ret. split_and!; [cbn; lia|done..|]. rewrite Hc2, Hc1. done.
Qed.

Lemma const_find_contents m tag :
  metadata_ok m → me_data <$> const_find m tag = contents m !! tag.
Proof.
  intros Hm. unfold const_find, contents, entries_of, metadata_ok in *.
  destruct (mBuffer m) as [c|]; [|done]. destruct Hm as [_ Hd]. cbn. by apply find_ro_map.
Qed.


(** C13: Whatever sequence of updates, erasures, sorts and clears an unlocked object
    goes through, it holds what a map holds after the same operations, where an
    update that succeeded writes, one that ran out of memory empties and one
    that was refused does nothing; both ways of finding a tag are looking it up
    in that map. *)
Theorem metadata_refines_map ops m h :
  metadata_ok m → mLocked m = false → Forall op_ok ops →
  let '(rs, m') := (do_ops ops m h).1 in
  length rs = length ops ∧ contents m' = map_steps ops rs (contents m) ∧
  (∀ tag, find m' tag = default [] (map_steps ops rs (contents m) !! tag)) ∧
  (∀ tag, me_data <$> const_find m' tag = map_steps ops rs (contents m) !! tag).
Proof.
  intros Hm Hl Ho. pose proof (do_ops_returns ops m Hm Hl Ho h) as Hd.
  destruct (do_ops ops m h) as [[rs m'] h']. cbn in Hd |- *. destruct Hd as (Hlen & Hm' & Hl' & <-).
  split_and!; [done..| |]; intros tag; [by apply find_contents|by apply const_find_contents].
Qed.

End contents.

(** * CameraMetadata in parcels (src/libmocha/camera/CameraMetadata.cpp)

    Alignment in a blob, what is read of a packet that was written, and that
    reading whatever a parcel holds stays inside the blob. *)

(** ** Alignment *)

Lemma land_not32_pow2 x k :
  is_u32 x → 0 <= k <= 32 → Z.land x (not32 (2 ^ k - 1)) = x - x mod 2 ^ k.
Proof.
  intros Hx Hk. pose proof (Z.div_mod x (2 ^ k) ltac:(lia)) as Hdm.
  replace (x - x mod 2 ^ k) with (Z.shiftl (Z.shiftr x k) k)
    by (rewrite Z.shiftl_mul_pow2, Z.shiftr_div_pow2 by lia; lia).
  replace (2 ^ k - 1) with (Z.ones k) by (rewrite Z.ones_equiv; lia).
  apply Z.bits_inj'. intros n Hn. rewrite Z.land_spec, not32_testbit by done.
  destruct (decide (n < k)).
  - rewrite Z.shiftl_spec_low by done. rewrite Z.ones_spec_low by lia. cbn.
    by rewrite !andb_false_r.
  - rewrite Z.shiftl_spec, Z.shiftr_spec by lia. replace (n - k + k) with n by lia.
    rewrite Z.ones_spec_high by lia. cbn. case_bool_decide; [by rewrite andb_true_r|].
    rewrite andb_false_r. symmetry. apply u32_testbit_high; [done|lia].
Qed.

Lemma land_not32_al a al k :
  al = 2 ^ k → 0 <= k <= 12 → 0 <= a → a + al <= 2 ^ 32 →
  Z.land (a + (al - 1)) (not32 (al - 1)) = a + (al - 1) - (a + (al - 1)) mod al.
Proof.
  intros -> Hk Ha Hmax. pose proof (Z.pow_pos_nonneg 2 k ltac:(lia) ltac:(lia)).
  apply land_not32_pow2; [unfold is_u32|]; lia.
Qed.

Section parcel.
  Context {W : Type} `{MetaPacketsLaws W} {P : Type} `{ParcelLaws P}.

Lemma alignment_range : 1 <= get_camera_metadata_alignment <= 2 ^ 12.
Proof.
  destruct alignment_law as (k & Hk & ->). split.
  - apply (Z.pow_le_mono_r 2 0 k); lia.
  - apply Z.pow_le_mono_r; lia.
Qed.

(** The aligned start is less than one alignment into the blob. *)
Lemma align_offset a :
  0 <= a → a + get_camera_metadata_alignment <= 2 ^ 32 →
  0 <= align_to a get_camera_metadata_alignment - a < get_camera_metadata_alignment ∧
  align_to a get_camera_metadata_alignment mod get_camera_metadata_alignment = 0.
Proof.
  pose proof alignment_range as Hr. intros Ha Hmax.
  destruct alignment_law as (k & Hk & Hal). unfold align_to.
  rewrite u32_small by (unfold is_u32; lia).
  set (al := get_camera_metadata_alignment) in *.
  rewrite (land_not32_al a al k Hal) by (done || lia).
  pose proof (Z.mod_pos_bound (a + (al - 1)) al ltac:(lia)) as Hm.
  pose proof (Z.div_mod (a + (al - 1)) al ltac:(lia)) as Hd.
  split; [lia|].
  replace (a + (al - 1) - (a + (al - 1)) mod al) with ((a + (al - 1)) / al * al) by lia.
  apply Z.mod_mul. lia.
Qed.

Definition blob_size (c : camera_metadata) : Z :=
  get_camera_metadata_compact_size c + get_camera_metadata_alignment.

(** The compact copy of the packet is a block of memory. *)
Definition compact_ok (c : camera_metadata) : Prop :=
  get_camera_metadata_compact_size c <= BLOCK_MAX.

Lemma blob_size_range c :
  compact_ok c →
  get_camera_metadata_alignment < blob_size c < 2 ^ 31 ∧
  u32 (get_camera_metadata_compact_size c + get_camera_metadata_alignment) = blob_size c.
Proof.
  pose proof alignment_range. pose proof (packed_size c) as Hp. unfold compact_ok, blob_size, BLOCK_MAX.
  intros. split; [lia|]. apply u32_small. unfold is_u32. lia.
Qed.

(** What is written stays in the blob, and is found again. *)
Lemma blob_bytes_found c a old :
  0 <= a → a + blob_size c <= 2 ^ 32 → Z.of_nat (length old) = blob_size c →
  let offset := align_to a get_camera_metadata_alignment - a in
  length (blob_bytes c a old) = length old ∧
  take (Z.to_nat (get_camera_metadata_compact_size c)) (drop (Z.to_nat offset) (blob_bytes c a old)) =
    packed c.
Proof.
  intros Ha Hmax Hlen offset. unfold blob_bytes. fold offset.
  pose proof (packed_length c) as Hp. pose proof (packed_size c). pose proof alignment_range.
  destruct (align_offset a) as [Hoff _]; [done|unfold blob_size in *; lia|]. fold offset in Hoff.
  unfold blob_size in *.
  assert (Ht : length (take (Z.to_nat offset) old) = Z.to_nat offset) by (rewrite length_take; lia).
  split.
  - rewrite !length_app, length_drop, Ht. lia.
  - rewrite drop_app_length' by done.
    apply take_app_length'. lia.
Qed.

(** Every write of the packet succeeded: the one of the blob does not show in
    the result of [writeToParcel]. *)
Definition blob_written (c : camera_metadata) (p : P) : Prop :=
  (writeBlob (blob_size c) (blob_bytes c) (writeInt32 (blob_size c) p).2).1.1 = OK.

#[export] Instance all_blob_written_dec (metadata : option camera_metadata) p :
  Decision (∀ c, metadata = Some c → blob_written c p).
Proof.
  destruct metadata as [c|]; [|left; by intros c].
  destruct (decide ((writeBlob (blob_size c) (blob_bytes c) (writeInt32 (blob_size c) p).2).1.1 = OK))
    as [Hb|Hb]; [left|right].
  - by intros c' [= <-].
  - intros Hn. by apply Hb, Hn.
Defined.

(** There is a packet and, in some state of the heap, no memory for a copy. *)
Definition no_room_for_copy (metadata : option camera_metadata) : Prop :=
  ∃ c live w, metadata = Some c ∧
    (allocate_copy_camera_metadata_checked (W := W) live (packed c) w).1 = None.

(** A packet as a parcel carries it: read from any parcel that goes on with
    [items] it has the same entries, unless there is no memory for it. *)
Definition carries (items : list pitem) (metadata : option camera_metadata) : Prop :=
  ∀ (q : P) rest (h : heap W), unread q = items ++ rest →
    let '(r, out, q') := (readFromParcel true q h).1 in
    unread q' = rest ∧
    ((r = OK ∧ cm_entries <$> out = cm_entries <$> metadata) ∨
     (r = BAD_VALUE ∧ out = None ∧ no_room_for_copy metadata)).

Lemma carries_null : carries [PInt32 0] None.
Proof.
  intros q rest h Hq. unfold readFromParcel.
  pose proof (readInt32_law 0 rest q Hq) as Hr. destruct (readInt32 q) as [[r z] q'].
  destruct Hr as (-> & -> & Hq'). cbn. split; [done|]. by left.
Qed.

Lemma carries_blob c a old :
  compact_ok c → 0 <= a → a + blob_size c <= 2 ^ 32 → Z.of_nat (length old) = blob_size c →
  carries [PInt32 (blob_size c); PBlob (blob_bytes c a old);
           PInt32 (align_to a get_camera_metadata_alignment - a)] (Some c).
Proof.
  intros Hc Ha Hmax Hlen q rest h Hq. unfold readFromParcel.
  destruct (blob_size_range c Hc) as [Hsize _]. pose proof alignment_range as Hal.
  destruct (align_offset a) as [Hoff _]; [done|unfold blob_size in *; pose proof (packed_size c); lia|].
  destruct (blob_bytes_found c a old Ha Hmax Hlen) as [Hbl Hfound].
  pose proof (readInt32_law _ _ q Hq) as Hr. destruct (readInt32 q) as [[r z] q1].
  destruct Hr as (-> & -> & Hq1). rewrite (bool_decide_false (OK ≠ OK)) by (intros []; done).
  rewrite u32_small by (unfold is_u32; lia).
  rewrite (bool_decide_false (blob_size c = 0)) by lia. rewrite bool_decide_false by lia.
  unfold read_blob. rewrite u32_small by (unfold is_u32; lia).
  pose proof (readBlob_law _ _ q1 Hq1) as Hb. rewrite Hbl, Hlen in Hb.
  rewrite !bind_run. destruct (readBlob (blob_size c) q1) as [[r b] q2]. destruct Hb as (-> & -> & Hq2).
  rewrite (bool_decide_false (OK ≠ OK)) by (intros []; done).
  pose proof (readInt32_law _ _ q2 Hq2) as Hr. destruct (readInt32 q2) as [[r z] q3].
  destruct Hr as (-> & -> & Hq3). rewrite (bool_decide_false (OK ≠ OK)) by (intros []; done).
  rewrite u32_small by (unfold is_u32; lia). rewrite bool_decide_false by lia.
  unfold blob_packet. rewrite bool_decide_true by (rewrite Hbl; unfold blob_size in *; lia).
  replace (blob_size c - get_camera_metadata_alignment) with (get_camera_metadata_compact_size c)
    by (unfold blob_size; lia).
  rewrite Hfound, !bind_run. cbn. unfold obtain. rewrite ?bind_run. cbn.
  destruct (allocate_copy_camera_metadata_checked _ _ _) as [[c'|] w'] eqn:Hcopy; cbn; (split; [done|]).
  - left. split; [done|]. apply copy_law in Hcopy as (_ & _ & Hcopy). f_equal. by apply Hcopy.
  - right. split_and!; [done..|]. do 3 eexists. split; [done|]. by rewrite Hcopy.
Qed.

Lemma writeToParcel_carries metadata p h :
  (∀ c, metadata = Some c → compact_ok c ∧ blob_written c p) →
  let '(r, p') := (writeToParcel (W := W) metadata p h).1 in
  r = OK → ∃ items, appends p p' items ∧ carries items metadata.
Proof.
  destruct metadata as [c|]; intros Hw; cbn [writeToParcel].
  2: { destruct (writeInt32 0 p) as [r p'] eqn:He. cbn. intros ->. exists [PInt32 0].
       split; [|apply carries_null]. pose proof (appends_int32 0 p) as Ha. rewrite He in Ha. by apply Ha. }
  destruct (Hw c eq_refl) as [Hc Hw']. destruct (blob_size_range c Hc) as [Hsize Hu]. pose proof alignment_range as Hal.
  rewrite bind_run, Hu, (s32_small (blob_size c)) by (unfold is_s32; lia).
  clear Hw. rename Hw' into Hw. unfold blob_written in Hw.
  pose proof (appends_int32 (blob_size c) p) as H1'.
  destruct (writeInt32 (blob_size c) p) as [r1 p1]. cbn in H1', Hw |- *.
  destruct (decide (r1 = OK)) as [->|Hr]; 
    [|rewrite (bool_decide_true (r1 ≠ OK)) by done; by intros ?].
  rewrite (bool_decide_false (OK ≠ OK)) by (intros []; done).
  pose proof (writeBlob_law (blob_size c) (blob_bytes c) p1) as Hb.
  destruct (writeBlob (blob_size c) (blob_bytes c) p1) as [[r2 a] p2]. cbn in Hw. subst r2.
  rewrite bool_decide_true in Hb by done. destruct Hb as (Ha & Hmax & old & Hlen & Hp2).
  rewrite bool_decide_true by done.
  destruct (align_offset a) as [Hoff _]; [lia|unfold blob_size in *; pose proof (packed_size c); lia|].
  rewrite (u32_small (_ - a)) by (unfold is_u32; lia).
  rewrite (s32_small (_ - a)) by (unfold is_s32; lia).
  pose proof (appends_int32 (align_to a get_camera_metadata_alignment - a) p2) as H3'.
  destruct (writeInt32 (align_to a get_camera_metadata_alignment - a) p2) as [r3 p3]. cbn in H3' |- *.
  intros ->. eexists. split; [|by apply (carries_blob c a old); [|lia|..]].
  eapply (appends_trans _ _ _ [_]); [by apply H1'|].
  eapply (appends_trans _ _ _ [_]); [exact Hp2|]. by apply H3'.
Qed.

(** C14: What [writeToParcel] reports as written is read back: unless the blob
    itself could not be written, which it does not report, the values written are
    ones from which every reader gets a packet with the same entries in the same
    order (or no packet for none), wherever its blob lies, and stands behind
    them; only a reader without memory gets BAD_VALUE and no packet. *)
Theorem metadata_parcel_roundtrip metadata p h :
  (∀ c, metadata = Some c → compact_ok c) →
  let '(r, p') := (writeToParcel (W := W) metadata p h).1 in
  r = OK →
  (∃ c, metadata = Some c ∧ ¬ blob_written c p) ∨
  ∃ items, unread p' = unread p ++ items ∧
    ∀ (q : P) rest (k : heap W), unread q = items ++ rest →
      let '(r, out, q') := (readFromParcel true q k).1 in
      unread q' = rest ∧
      ((r = OK ∧ cm_entries <$> out = cm_entries <$> metadata) ∨
       (r = BAD_VALUE ∧ out = None ∧ no_room_for_copy metadata)).
Proof.
  intros Hc. destruct (decide (∀ c, metadata = Some c → blob_written c p)) as [Hb|Hb].
  - pose proof (writeToParcel_carries metadata p h (λ c Hm, conj (Hc c Hm) (Hb c Hm))) as Hw.
    destruct (writeToParcel metadata p h).1 as [r p']. intros Hr. right. by apply Hw.
  - destruct (writeToParcel metadata p h).1 as [r p']. intros _. left.
    destruct metadata as [c|]; [|by destruct Hb]. exists c. split; [done|].
    intros Hw. apply Hb. by intros c' [= <-].
Qed.

End parcel.
