(* ===== verification/CameraMetaSystem.v ===== *)
(** * A program's CameraMetadata objects and packets

    The objects a program has, the packets it owns itself and the heap, with
    every method of src/libmocha/camera/CameraMetadata.cpp that moves, makes or
    frees a packet as an event.  Packets that a failed resize leaves without an
    owner are remembered. *)

From stdpp Require Import gmap list_tactics.
From S2P Require Import Prelude CameraH Parcels CameraMeta CameraMetaFacts.

#[global] Open Scope Z_scope.

(** ** Ownership of the remaining operations *)

Section parcel_ownership.
  Context {W : Type} `{MetaPacketsLaws W} {P : Type} `{ParcelLaws P}.

Lemma owned_bind_returns {A B} pre (m : M (heap W) A) (f : A → M (heap W) B) mid R post :
  owned pre m mid → returns m R → (∀ a, R a → owned (mid a) (f a) post) →
  owned pre (m ≫= f) post.
Proof. intros Hm Hr Hf F h Hh. rewrite bind_run. apply Hf; [apply Hr|by apply Hm]. Qed.

Lemma owned_kept (r : Z) m :
  owned (W := W) (owns m) (mret (r, m)) (λ '(_, m'), owns m' ++ dropped m m').
Proof. apply owned_ret. unfold owns, dropped. destruct (mBuffer m); cbn; by rewrite ?app_nil_r. Qed.

Lemma owned_update type tag a data m :
  owned (owns m) (update (W := W) type tag a data m) (λ '(_, m'), owns m' ++ dropped m m').
Proof.
  unfold update. apply owned_if; [apply owned_kept|].
  apply owned_if; [apply owned_kept|apply owned_updateImpl].
Qed.

Lemma owned_update_string tag a data m :
  owned (owns m) (update_string (W := W) tag a data m) (λ '(_, m'), owns m' ++ dropped m m').
Proof.
  unfold update_string. apply owned_if; [apply owned_kept|].
  apply owned_if; [apply owned_kept|apply owned_updateImpl].
Qed.

Lemma owned_write metadata (p : P) :
  owned (pkt metadata) (writeToParcel (W := W) metadata p) (λ _, pkt metadata).
Proof.
  destruct metadata as [c|]; cbn [writeToParcel]; [|by apply owned_ret].
  eapply owned_bind; [apply owned_use; left|]. intros ?.
  destruct (writeInt32 _ p) as [r p1]. apply owned_if; [by apply owned_ret|].
  destruct (writeBlob _ _ p1) as [[r2 start] p2]. by apply owned_ret.
Qed.

(** Reading never leaves the blob, and a status other than OK comes without a packet. *)
Definition read_post (res : Z * option camera_metadata * P) : Prop :=
  let '(r, out, _) := res in r ≠ OK → out = None.

Lemma owned_read_blob blobSize (data : P) :
  get_camera_metadata_alignment < blobSize < 2 ^ 32 →
  owned [] (read_blob (W := W) blobSize data) (λ '(_, out, _), pkt out) ∧
  returns (read_blob (W := W) blobSize data) read_post.
Proof.
  intros Hsize. pose proof alignment_range as Hal. unfold read_blob.
  rewrite u32_small by (unfold is_u32; lia).
  pose proof (readBlob_length blobSize data) as Hlen.
  destruct (readBlob blobSize data) as [[r blob] p1].
  case_bool_decide as Hr; [split; [by apply owned_ret|by apply returns_ret]|].
  destruct (readInt32 p1) as [[r2 z] p2].
  case_bool_decide; [split; [by apply owned_ret|by apply returns_ret]|].
  case_bool_decide as Hoff; [split; [by apply owned_ret|by apply returns_ret]|].
  assert (r = OK) as Hok by (destruct (decide (r = OK)); [done|by destruct Hr]).
  specialize (Hlen Hok). unfold blob_packet. rewrite bool_decide_true by lia. split.
  - eapply owned_bind with (mid := λ _, []); [by apply owned_ret|]. intros tmp.
    eapply owned_bind; [apply owned_obtain|].
    + intros live w c w' Hc. by apply copy_law in Hc as [? _].
    + intros out. by apply owned_ret.
  - eapply returns_bind with (R := λ _, True); [by apply returns_ret|]. intros tmp _.
    eapply returns_bind with (R := λ _, True); [apply returns_true|]. intros [c|] _; apply returns_ret; [by intros []|done].
Qed.

Lemma owned_read out (data : P) :
  owned [] (readFromParcel (W := W) out data) (λ '(_, c, _), pkt c) ∧
  returns (readFromParcel (W := W) out data) read_post.
Proof.
  unfold readFromParcel. pose proof alignment_range as Hal.
  destruct (readInt32 data) as [[r z] p].
  case_bool_decide; [split; [by apply owned_ret|by apply returns_ret]|].
  case_bool_decide; [split; [by apply owned_ret|by apply returns_ret]|].
  case_bool_decide; [split; [by apply owned_ret|by apply returns_ret]|].
  pose proof (u32_range z) as Hz. unfold is_u32 in Hz.
  destruct (owned_read_blob (u32 z) p) as [Ho Hr]; [lia|]. split.
  - eapply owned_bind; [exact Ho|]. intros [[r2 c] p2].
    apply owned_if; [by apply owned_ret|]. destruct c as [c|]; [|by apply owned_ret].
    eapply owned_bind; [apply owned_free|]. intros ?. by apply owned_ret.
  - eapply returns_bind; [exact Hr|]. intros [[r2 c] p2] Hpost.
    destruct out; [by apply returns_ret|]. destruct c as [c|]; [|by apply returns_ret].
    eapply returns_bind with (R := λ _, True); [apply returns_true|]. intros ? _. by apply returns_ret.
Qed.

Lemma owned_read_object parcel m :
  owned (owns m) (read_object (W := W) (P := P) parcel m) (λ '(_, m', _), owns m').
Proof.
  unfold read_object. destruct parcel as [p|]; [|by apply owned_ret].
  destruct (mLocked m) eqn:Hl; [by apply owned_ret|].
  eapply owned_bind_returns; [|apply (owned_read true p)|].
  - eapply owned_conseq; [apply (owned_frame (owns m)), (owned_read true p)|done|done].
  - intros [[r c] p2] Hpost. cbn in Hpost. case_bool_decide as Hr.
    + rewrite (Hpost Hr). by apply owned_ret.
    + intros F h Hh. rewrite bind_run, (clear_unlocked m h Hl). cbn.
      pose proof (owned_frame (pkt c) _ _ _ (owned_clear m) F h) as Hc.
      rewrite (clear_unlocked m h Hl) in Hc. apply Hc.
      eapply holds_perm; [|exact Hh]. by rewrite (Permutation_app_comm (owns m)).
Qed.

End parcel_ownership.

(** ** The system *)

Section system.
  Context {W : Type} `{MetaPacketsLaws W} {P : Type} `{ParcelLaws P}.

Record msystem := MSystem {
  ms_objects : list metadata;
  ms_raws : list camera_metadata;
  ms_lost : list Z;
  ms_heap : heap W
}.

(** Indices are those of objects ([i], [j]) and of packets the program owns ([r]). *)
Inductive mcall :=
  | CNew
  | CNewSized (entries data : Z)
  | CNewCopy (i : nat)
  | CNewTake (r : nat)
  | CDestroy (i : nat)
  | CClear (i : nat)
  | CAssign (i j : nat)
  | CAssignPacket (i r : nat)
  | CGetAndLock (i : nat)
  | CUnlock (i : nat) (buffer : option Z)
  | CRelease (i : nat)
  | CAcquire (i r : nat)
  | CAcquireFrom (i j : nat)
  | CSwap (i j : nat)
  | CAppend (i j : nat)
  | CAppendPacket (i r : nat)
  | CUpdate (i : nat) (type : meta_type) (tag a : Z) (data : list Z)
  | CUpdateString (i : nat) (tag a : Z) (characters : list Z)
  | CErase (i : nat) (tag : Z)
  | CSort (i : nat)
  | CRead (i : nat) (p : P)
  | CReadPacket (p : P)
  | CWrite (i : nat) (p : P)
  | CFree (r : nat).

(** A new object, made while the program gives up [raws]. *)
Definition add_object (f : M (heap W) metadata) (s : msystem) : msystem :=
  let '(m, h) := f (ms_heap s) in
  MSystem (ms_objects s ++ [m]) (ms_raws s) (ms_lost s) h.

(** A method of object [i]: the object after it, the packets the program gets
    and those nobody owns any more. *)
Definition on_object (i : nat) (f : metadata → M (heap W) (metadata * list camera_metadata * list Z))
    (s : msystem) : msystem :=
  match ms_objects s !! i with
  | Some m =>
      let '(m', raws, lost, h) := f m (ms_heap s) in
      MSystem (<[i := m']> (ms_objects s)) (ms_raws s ++ raws) (ms_lost s ++ lost) h
  | None => s
  end.

(** A use of packet [r] of the program's; the objects keep their places. *)
Definition on_packet (r : nat) (f : camera_metadata → msystem → msystem) (s : msystem) : msystem :=
  match ms_raws s !! r with
  | Some c => f c (MSystem (ms_objects s) (delete r (ms_raws s)) (ms_lost s) (ms_heap s))
  | None => s
  end.

(** A method of object [i] that takes packet [r]. *)
Definition on_object_packet (i r : nat)
    (f : camera_metadata → metadata → M (heap W) (metadata * list camera_metadata * list Z))
    (s : msystem) : msystem :=
  match ms_objects s !! i with
  | Some _ => on_packet r (λ c, on_object i (f c)) s
  | None => s
  end.

(** A method of object [i] with object [j], not itself. *)
Definition on_two (i j : nat) (f : metadata → metadata → M (heap W) (metadata * metadata * list Z))
    (s : msystem) : msystem :=
  if bool_decide (i = j) then s
  else match ms_objects s !! i, ms_objects s !! j with
       | Some m, Some m2 =>
           let '(m', m2', lost, h) := f m m2 (ms_heap s) in
           MSystem (<[i := m']> (<[j := m2']> (ms_objects s))) (ms_raws s) (ms_lost s ++ lost) h
       | _, _ => s
       end.

Definition with_loss (f : M (heap W) (Z * metadata)) (m : metadata)
    : M (heap W) (metadata * list camera_metadata * list Z) :=
  '(_, m') ← f; mret (m', [], dropped m m').

Definition mstep (s : msystem) (c : mcall) : msystem :=
  match c with
  | CNew => add_object (mret CameraMetadata) s
  | CNewSized entries data => add_object (CameraMetadata_sized entries data) s
  | CNewCopy i =>
      match ms_objects s !! i with Some m => add_object (CameraMetadata_copy m) s | None => s end
  | CNewTake r => on_packet r (λ c, add_object (CameraMetadata_take (Some c))) s
  | CDestroy i =>
      match ms_objects s !! i with
      | Some m => let '(_, h) := destroy m (ms_heap s) in
                  MSystem (delete i (ms_objects s)) (ms_raws s) (ms_lost s) h
      | None => s
      end
  | CClear i => on_object i (λ m, m ← clear m; mret (m, [], [])) s
  | CAssign i j =>
      on_two i j (λ m m2, m ← assign (mBuffer m2) m; mret (m, m2, [])) s
  | CAssignPacket i r =>
      on_object_packet i r (λ c m, m ← assign (Some c) m; mret (m, [c], [])) s
  | CGetAndLock i => on_object i (λ m, mret ((getAndLock m).2, [], [])) s
  | CUnlock i buffer => on_object i (λ m, mret ((unlock buffer m).2, [], [])) s
  | CRelease i =>
      on_object i (λ m, let '(p, m) := release m in mret (m, option_list p, [])) s
  | CAcquire i r =>
      on_object_packet i r
        (λ c m, m' ← acquire (Some c) m; mret (m', if mLocked m then [c] else [], [])) s
  | CAcquireFrom i j => on_two i j (λ m m2, '(m, m2) ← acquire_from m m2; mret (m, m2, [])) s
  | CSwap i j => on_two i j (λ m m2, mret (swap m m2, [])) s
  | CAppend i j =>
      on_two i j (λ m m2, '(_, m') ← append (mBuffer m2) m; mret (m', m2, dropped m m')) s
  | CAppendPacket i r =>
      on_object_packet i r (λ c m, '(_, m') ← append (Some c) m; mret (m', [c], dropped m m')) s
  | CUpdate i type tag a data => on_object i (λ m, with_loss (update type tag a data m) m) s
  | CUpdateString i tag a characters =>
      on_object i (λ m, with_loss (update_string tag a characters m) m) s
  | CErase i tag => on_object i (λ m, mret ((erase tag m).2, [], [])) s
  | CSort i => on_object i (λ m, mret ((sort m).2, [], [])) s
  | CRead i p =>
      on_object i (λ m, '(_, m, _) ← read_object (Some p) m; mret (m, [], [])) s
  | CReadPacket p =>
      let '(_, c, _, h) := readFromParcel true p (ms_heap s) in
      MSystem (ms_objects s) (ms_raws s ++ option_list c) (ms_lost s) h
  | CWrite i p => on_object i (λ m, _ ← write_object m (Some p); mret (m, [], [])) s
  | CFree r =>
      on_packet r (λ c s, let '(_, h) := free_camera_metadata c (ms_heap s) in
                          MSystem (ms_objects s) (ms_raws s) (ms_lost s) h) s
  end.

(** The calls the program may make: the null packet cannot be appended, nor an
    object to itself. *)
Definition mallowed (s : msystem) (c : mcall) : Prop :=
  match c with
  | CAppend i j => i ≠ j ∧ ∀ m, ms_objects s !! j = Some m → mBuffer m ≠ None
  | _ => True
  end.

#[export] Instance mallowed_dec s c : Decision (mallowed s c).
Proof.
  destruct c; cbn; try (left; exact I).
  destruct (decide (i = j)) as [|Hij]; [right; by intros []|].
  destruct (ms_objects s !! j) as [m|]; [|by left].
  destruct (mBuffer m) as [b|] eqn:Hb; [left|right].
  - split; [done|]. intros m' [= <-]. by rewrite Hb.
  - intros [_ Hn]. by apply (Hn m).
Defined.

Fixpoint mruns (s : msystem) (cs : list mcall) : msystem :=
  match cs with [] => s | c :: cs => mruns (mstep s c) cs end.

Fixpoint mruns_allowed (s : msystem) (cs : list mcall) : Prop :=
  match cs with [] => True | c :: cs => mallowed s c ∧ mruns_allowed (mstep s c) cs end.

#[export] Instance mruns_allowed_dec s cs : Decision (mruns_allowed s cs).
Proof. revert s. induction cs as [|c cs IH]; intros s; cbn; apply _. Defined.

Definition mstart (w : W) : msystem := MSystem [] [] [] (Heap ∅ false w).

(** Who owns what. *)
Definition owners (s : msystem) : list Z :=
  (ms_objects s ≫= owns) ++ (cm_addr <$> ms_raws s) ++ ms_lost s.

Definition msound (s : msystem) : Prop := holds (ms_heap s) (owners s).

Lemma bind_delete_insert l i m m' :
  l !! i = Some m →
  l ≫= owns ≡ₚ owns m ++ (delete i l ≫= owns) ∧
  <[i := m']> l ≫= owns ≡ₚ owns m' ++ (delete i l ≫= owns).
Proof.
  intros Hi. pose proof (lookup_lt_Some _ _ _ Hi). split.
  - rewrite <- (take_drop_middle l i m Hi) at 1. rewrite delete_take_drop, !bind_app. cbn.
    solve_Permutation.
  - rewrite insert_take_drop by done. rewrite delete_take_drop, !bind_app. cbn. solve_Permutation.
Qed.

Lemma raws_delete l r c :
  l !! r = Some c → cm_addr <$> l ≡ₚ cm_addr c :: (cm_addr <$> delete r l).
Proof.
  intros Hr. rewrite <- (take_drop_middle l r c Hr) at 1.
  rewrite delete_take_drop, !fmap_app, fmap_cons. solve_Permutation.
Qed.

Lemma msound_object i f s :
  (∀ m, owned (owns m) (f m) (λ '(m', raws, lost), owns m' ++ (cm_addr <$> raws) ++ lost)) →
  msound s → msound (on_object i f s).
Proof.
  intros Hf Hs. unfold on_object. destruct (ms_objects s !! i) as [m|] eqn:Hi; [|done].
  pose proof (Hf m ((delete i (ms_objects s) ≫= owns) ++ (cm_addr <$> ms_raws s) ++ ms_lost s)
    (ms_heap s)) as Hh.
  destruct (f m (ms_heap s)) as [[[m' raws] lost] h]. cbn in Hh. unfold msound, owners in *. cbn.
  destruct (bind_delete_insert _ _ _ m' Hi) as [H1' H2'].
  eapply holds_perm; [|apply Hh; eapply holds_perm; [|exact Hs]].
  - rewrite H2', fmap_app. solve_Permutation.
  - rewrite H1'. solve_Permutation.
Qed.

Lemma msound_add pre back rest f s :
  owned pre f (λ m, owns m ++ back) → holds (ms_heap s) (pre ++ rest) →
  back ++ rest ≡ₚ owners s → msound (add_object f s).
Proof.
  intros Hf Hs Hback. unfold add_object. pose proof (Hf rest (ms_heap s) Hs) as Hh.
  destruct (f (ms_heap s)) as [m h]. unfold msound, owners in *. cbn in *.
  eapply holds_perm; [|exact Hh]. rewrite <- app_assoc, Hback, bind_app. cbn.
  rewrite app_nil_r. solve_Permutation.
Qed.

(** Giving a packet of the program's to a continuation. *)
Lemma msound_packet r f s :
  (∀ c s, holds (ms_heap s) (cm_addr c :: owners s) → msound (f c s)) →
  msound s → msound (on_packet r f s).
Proof.
  intros Hf Hs. unfold on_packet. destruct (ms_raws s !! r) as [c|] eqn:Hr; [|done].
  apply Hf. eapply holds_perm; [|exact Hs]. unfold owners. cbn.
  rewrite (raws_delete _ _ _ Hr). solve_Permutation.
Qed.

Lemma msound_object_packet i r f s :
  (∀ c m, owned (owns m ++ [cm_addr c]) (f c m)
     (λ '(m', raws, lost), owns m' ++ (cm_addr <$> raws) ++ lost)) →
  msound s → msound (on_object_packet i r f s).
Proof.
  intros Hf Hs. unfold on_object_packet. destruct (ms_objects s !! i) as [m|] eqn:Hi; [|done].
  unfold on_packet. destruct (ms_raws s !! r) as [c|] eqn:Hr; [|done].
  unfold on_object. cbn. rewrite Hi.
  pose proof (Hf c m ((delete i (ms_objects s) ≫= owns) ++ (cm_addr <$> delete r (ms_raws s)) ++ ms_lost s)
    (ms_heap s)) as Hh.
  destruct (f c m (ms_heap s)) as [[[m' raws] lost] h]. cbn in Hh. unfold msound, owners in *. cbn.
  destruct (bind_delete_insert _ _ _ m' Hi) as [H1' H2'].
  eapply holds_perm; [|apply Hh; eapply holds_perm; [|exact Hs]].
  - rewrite H2', fmap_app. solve_Permutation.
  - rewrite H1', (raws_delete _ _ _ Hr). solve_Permutation.
Qed.

(** Replacing the object at a place exchanges what it owns. *)
Lemma bind_exchange l i m m' :
  l !! i = Some m →
  (<[i := m']> l ≫= owns) ++ owns m ≡ₚ (l ≫= owns) ++ owns m'.
Proof.
  intros Hi. destruct (bind_delete_insert l i m m' Hi) as [H1' H2'].
  rewrite H1', H2'. solve_Permutation.
Qed.

Lemma bind_two l i j m m2 :
  i ≠ j → l !! i = Some m → l !! j = Some m2 →
  ∃ rest, ∀ m' m2', <[i := m']> (<[j := m2']> l) ≫= owns ≡ₚ owns m' ++ owns m2' ++ rest.
Proof.
  intros Hij Hi Hj. exists (<[i := Md None false]> (<[j := Md None false]> l) ≫= owns). intros m' m2'.
  assert (Hex : ∀ a b, (<[i := a]> (<[j := b]> l) ≫= owns) ++ owns m ++ owns m2 ≡ₚ
                       (l ≫= owns) ++ owns a ++ owns b).
  { intros a b.
    pose proof (bind_exchange (<[j := b]> l) i m a) as Hi'.
    rewrite list_lookup_insert_ne in Hi' by done. specialize (Hi' Hi).
    pose proof (bind_exchange l j m2 b Hj) as Hj'.
    rewrite app_assoc, Hi'. rewrite <- (app_assoc _ (owns a)), (Permutation_app_comm (owns a)).
    rewrite app_assoc, Hj'. solve_Permutation. }
  apply (Permutation_app_inv_r (owns m ++ owns m2)). rewrite Hex.
  pose proof (Hex (Md None false) (Md None false)) as He. cbn in He. rewrite app_nil_r in He.
  rewrite <- He. solve_Permutation.
Qed.

Lemma msound_two i j f s :
  (∀ m m2, ms_objects s !! i = Some m → ms_objects s !! j = Some m2 → i ≠ j →
     owned (owns m ++ owns m2) (f m m2) (λ '(m', m2', lost), owns m' ++ owns m2' ++ lost)) →
  msound s → msound (on_two i j f s).
Proof.
  intros Hf Hs. unfold on_two. case_bool_decide as Hij; [done|].
  destruct (ms_objects s !! i) as [m|] eqn:Hi; [|done].
  destruct (ms_objects s !! j) as [m2|] eqn:Hj; [|done].
  destruct (bind_two _ _ _ _ _ Hij Hi Hj) as [rest Hrest].
  pose proof (Hrest m m2) as Hold. rewrite (list_insert_id _ j), (list_insert_id _ i) in Hold by done.
  pose proof (Hf m m2 eq_refl eq_refl Hij (rest ++ (cm_addr <$> ms_raws s) ++ ms_lost s) (ms_heap s)) as Hh.
  destruct (f m m2 (ms_heap s)) as [[[m' m2'] lost] h]. cbn in Hh. unfold msound, owners in *. cbn.
  eapply holds_perm; [|apply Hh; eapply holds_perm; [|exact Hs]].
  - rewrite Hrest. solve_Permutation.
  - rewrite Hold. solve_Permutation.
Qed.

(** Methods that only move packets between objects or keep them. *)
Lemma owned_value {A} (pre : list Z) (a : A) post :
  pre ≡ₚ post a → owned (W := W) pre (mret a) post.
Proof. apply owned_ret. Qed.

Lemma owned_lossy m (f : M (heap W) (Z * metadata)) :
  owned (owns m) f (λ '(_, m'), owns m' ++ dropped m m') →
  owned (owns m) (with_loss f m) (λ '(m', raws, lost), owns m' ++ (cm_addr <$> raws) ++ lost).
Proof.
  intros Hf. unfold with_loss. eapply owned_bind; [exact Hf|]. intros [r m']. by apply owned_ret.
Qed.

Lemma erase_owns tag m : owns (erase tag m).2 = owns m.
Proof.
  unfold erase. destruct (mLocked m); [done|]. destruct (mBuffer m) as [c|] eqn:Hb; [|done].
  destruct (find_camera_metadata_entry c tag) as [r|[i e]] eqn:Hf; [by case_match|].
  pose proof (delete_addr c i) as Ha. destruct (delete_camera_metadata_entry c i) as [r c'].
  unfold owns. cbn in *. by rewrite Hb, Ha.
Qed.

Lemma sort_owns m : owns (sort m).2 = owns m.
Proof.
  unfold sort. destruct (mLocked m); [done|]. destruct (mBuffer m) as [c|] eqn:Hb; [|done].
  destruct (sort_law c) as (l & _ & Hs). destruct (sort_camera_metadata c) as [r c']. cbn in *.
  subst c'. unfold owns. by rewrite Hb.
Qed.

Lemma unlock_owns b m : owns (unlock b m).2 = owns m.
Proof. unfold unlock. by repeat case_match. Qed.

Lemma owned_acquire_from m m2 :
  owned (owns m ++ owns m2) (acquire_from (W := W) m m2) (λ '(m', m2'), owns m' ++ owns m2').
Proof.
  unfold acquire_from. destruct (mLocked m) eqn:Hl; [by apply owned_ret|].
  unfold release. destruct (mLocked m2) eqn:Hl2.
  - eapply owned_bind.
    + eapply owned_conseq; [apply (owned_frame (owns m2)), (owned_acquire None)| |done].
      by rewrite app_nil_r.
    + intros m'. apply owned_ret. rewrite Hl. by rewrite app_nil_r.
  - eapply owned_bind; [apply (owned_acquire (mBuffer m2))|].
    intros m'. apply owned_ret. by rewrite Hl.
Qed.

Lemma owned_swap m m2 : owns (swap m m2).1 ++ owns (swap m m2).2 ≡ₚ owns m ++ owns m2.
Proof.
  unfold swap. destruct (mLocked m); [done|]. destruct (mLocked m2); [done|].
  apply Permutation_app_comm.
Qed.

(** The post-condition of a method of one object. *)
Definition object_post : metadata * list camera_metadata * list Z → list Z :=
  λ '(m', raws, lost), owns m' ++ (cm_addr <$> raws) ++ lost.

Lemma owned_moved m m' : owns m' ≡ₚ owns m → owned (W := W) (owns m) (mret (m', [], [])) object_post.
Proof. intros Hm. apply owned_ret. cbn. by rewrite Hm, app_nil_r. Qed.

Lemma owned_clear_object m :
  owned (owns m) (m ← clear (W := W) m; mret (m, [], [])) object_post.
Proof. eapply owned_bind; [apply owned_clear|]. intros m'. by apply owned_moved. Qed.

Lemma owned_release_object m :
  owned (W := W) (owns m) (let '(p, m) := release m in mret (m, option_list p, [])) object_post.
Proof.
  unfold release. destruct (mLocked m); [by apply owned_moved|]. apply owned_ret. unfold owns. cbn.
  by destruct (mBuffer m).
Qed.

Lemma owned_acquire_object c m :
  owned (owns m ++ [cm_addr c])
    (m' ← acquire (W := W) (Some c) m; mret (m', if mLocked m then [c] else [], [])) object_post.
Proof.
  eapply owned_bind; [apply (owned_acquire (Some c))|]. intros m'. apply owned_ret. cbn.
  by destruct (mLocked m).
Qed.

Lemma owned_assign_object c m :
  owned (owns m ++ [cm_addr c]) (m ← assign (W := W) (Some c) m; mret (m, [c], [])) object_post.
Proof. eapply owned_bind; [apply (owned_assign (Some c))|]. intros m'. by apply owned_ret. Qed.

Lemma owned_append_object c m :
  owned (owns m ++ [cm_addr c])
    ('(_, m') ← append (W := W) (Some c) m; mret (m', [c], dropped m m')) object_post.
Proof.
  eapply owned_bind; [apply owned_append|]. intros [r m']. apply owned_ret. cbn. solve_Permutation.
Qed.

Lemma owned_read_in (p : P) m :
  owned (owns m) ('(_, m, _) ← read_object (W := W) (Some p) m; mret (m, [], [])) object_post.
Proof. eapply owned_bind; [apply owned_read_object|]. intros [[r m'] q]. by apply owned_moved. Qed.

Lemma owned_write_in (p : P) m :
  owned (owns m) (_ ← write_object (W := W) m (Some p); mret (m, [], [])) object_post.
Proof.
  eapply owned_bind with (mid := λ _, owns m).
  - unfold write_object. eapply owned_bind; [apply owned_write|]. intros [r q]. by apply owned_ret.
  - intros ?. by apply owned_moved.
Qed.

#[local] Hint Resolve owned_lossy owned_update owned_update_string owned_clear_object
  owned_release_object owned_acquire_object owned_assign_object owned_append_object
  owned_read_in owned_write_in : owned.

Lemma msound_copy i m s :
  ms_objects s !! i = Some m → msound s → msound (add_object (CameraMetadata_copy m) s).
Proof.
  intros Hi Hs. destruct (bind_delete_insert _ _ _ m Hi) as [H1' _].
  apply (msound_add (owns m) (owns m)
    ((delete i (ms_objects s) ≫= owns) ++ (cm_addr <$> ms_raws s) ++ ms_lost s)).
  - unfold CameraMetadata_copy. eapply owned_bind; [apply owned_clone|]. intros q. by apply owned_ret.
  - eapply holds_perm; [|exact Hs]. unfold owners. rewrite H1'. solve_Permutation.
  - unfold owners. rewrite H1'. solve_Permutation.
Qed.

Lemma msound_destroy i s : msound s → msound (mstep s (CDestroy i)).
Proof.
  intros Hs. cbn [mstep]. destruct (ms_objects s !! i) as [m|] eqn:Hi; [|done].
  destruct (bind_delete_insert _ _ _ m Hi) as [H1' _].
  pose proof (owned_destroy m ((delete i (ms_objects s) ≫= owns) ++ (cm_addr <$> ms_raws s) ++ ms_lost s)
    (ms_heap s)) as Hh.
  destruct (destroy m (ms_heap s)) as [[] h]. cbn in Hh. apply Hh.
  eapply holds_perm; [|exact Hs]. unfold owners. rewrite H1'. solve_Permutation.
Qed.

Lemma msound_take r s : msound s → msound (mstep s (CNewTake r)).
Proof.
  intros Hs. cbn [mstep]. apply msound_packet; [|done]. intros c s' Hs'.
  apply (msound_add [cm_addr c] [] (owners s')); [|done|done].
  intros F h Hh. rewrite app_nil_r. pose proof (owned_acquire (Some c) (Md None false) F h Hh) as Ha.
  cbn [mLocked] in Ha. by rewrite app_nil_r in Ha.
Qed.

Lemma msound_read_packet (p : P) s : msound s → msound (mstep s (CReadPacket p)).
Proof.
  intros Hs. cbn [mstep]. pose proof (proj1 (owned_read (W := W) true p) (owners s) (ms_heap s) Hs) as Hh.
  destruct (readFromParcel true p (ms_heap s)) as [[[r c] q] h]. cbn in Hh.
  eapply holds_perm; [|exact Hh]. unfold owners. cbn. rewrite fmap_app.
  destruct c; cbn; solve_Permutation.
Qed.

Lemma msound_free r s : msound s → msound (mstep s (CFree r)).
Proof.
  intros Hs. cbn [mstep]. apply msound_packet; [|done]. intros c s' Hs'.
  pose proof (owned_free c (owners s') (ms_heap s') Hs') as Hh.
  by destruct (free_camera_metadata c (ms_heap s')) as [[] h].
Qed.

Lemma msound_append i j s :
  mallowed s (CAppend i j) → msound s → msound (mstep s (CAppend i j)).
Proof.
  intros [Hij Hnull] Hs. cbn [mstep]. apply msound_two; [|done]. intros m m2 Hi Hj _.
  specialize (Hnull m2 Hj). destruct (mBuffer m2) as [c|] eqn:Hb; [|done].
  assert (Ho : owns m2 = [cm_addr c]) by (unfold owns; by rewrite Hb). rewrite Ho.
  eapply owned_bind; [apply owned_append|]. intros [r m']. apply owned_ret. rewrite Ho. solve_Permutation.
Qed.

(** Every event keeps the account of packets. *)
Lemma msound_step s c : mallowed s c → msound s → msound (mstep s c).
Proof.
  intros Hc Hs. destruct c; auto using msound_destroy, msound_take, msound_read_packet, msound_free,
    msound_append; cbn [mstep];
    try (apply msound_object; [|done]; intros m; fold object_post; eauto 3 with owned; fail);
    try (apply msound_object_packet; [|done]; intros c m; fold object_post; eauto 3 with owned; fail).
  - apply (msound_add [] [] (owners s)); [by apply owned_ret|done..].
  - apply (msound_add [] [] (owners s)); [|done..]. unfold CameraMetadata_sized.
    eapply owned_bind; [apply owned_allocate|]. intros p. apply owned_ret. by rewrite app_nil_r.
  - destruct (ms_objects s !! i) eqn:Hi; [by eapply msound_copy|done].
  - apply msound_two; [|done]. intros m m2 _ _ _.
    eapply owned_bind; [apply (owned_assign (mBuffer m2))|]. intros m'. apply owned_ret.
    by rewrite app_nil_r.
  - apply msound_object; [|done]. intros m. by apply owned_moved.
  - apply msound_object; [|done]. intros m. apply owned_moved. by rewrite unlock_owns.
  - apply msound_two; [|done]. intros m m2 _ _ _.
    eapply owned_bind; [apply owned_acquire_from|]. intros [m' m2']. apply owned_ret. by rewrite app_nil_r.
  - apply msound_two; [|done]. intros m m2 _ _ _.
    pose proof (owned_swap m m2) as Hsw. destruct (swap m m2) as [m' m2']. apply owned_ret. cbn in *.
    by rewrite app_nil_r, Hsw.
  - apply msound_object; [|done]. intros m. apply owned_moved. by rewrite erase_owns.
  - apply msound_object; [|done]. intros m. apply owned_moved. by rewrite sort_owns.
Qed.

Lemma msound_runs s cs : mruns_allowed s cs → msound s → msound (mruns s cs).
Proof.
  revert s. induction cs as [|c cs IH]; intros s; [done|]. intros [Hc Hcs] Hs.
  apply IH; [done|]. by apply msound_step.
Qed.

Lemma msound_start w : msound (mstart w).
Proof. done. Qed.

(** ** What is lost *)

(** The allocator always has memory. *)
Definition plenty : Prop :=
  ∀ live entries data (w : W), is_Some (allocate_camera_metadata live entries data w).1.

Definition keeps_packet (m : metadata) (res : Z * metadata) : Prop := dropped m res.2 = [].

Lemma dropped_same m m' : mBuffer m' = mBuffer m → dropped m m' = [].
Proof. unfold dropped. intros ->. by destruct (mBuffer m). Qed.

Lemma dropped_some m m' : mBuffer m' ≠ None → dropped m m' = [].
Proof. unfold dropped. by destruct (mBuffer m), (mBuffer m'). Qed.

Lemma resize_keeps entries data m :
  plenty → returns (resizeIfNeeded (W := W) entries data m) (λ res, mBuffer res.2 ≠ None).
Proof.
  intros Hp h. destruct m as [[old|] l]; unfold resizeIfNeeded; cbn.
  - destruct (_ || _); [|done]. rewrite bind_run. unfold allocate, obtain.
    specialize (Hp (hp_live h) (grown (cm_entry_count old) entries (cm_entry_capacity old))
      (grown (cm_data_count old) data (cm_data_capacity old)) (hp_world h)).
    destruct (allocate_camera_metadata _ _ _ _) as [[c|] w]; cbn; [done|by destruct Hp].
  - rewrite bind_run. unfold allocate, obtain.
    specialize (Hp (hp_live h) (u32 (entries * 2)) (u32 (data * 2)) (hp_world h)).
    destruct (allocate_camera_metadata _ _ _ _) as [[c|] w]; cbn; [done|by destruct Hp].
Qed.

Lemma updateImpl_keeps tag a data m :
  plenty → returns (updateImpl (W := W) tag a data m) (keeps_packet m).
Proof.
  intros Hp. unfold updateImpl. destruct (mLocked m); [by apply returns_ret, dropped_same|].
  destruct (get_camera_metadata_tag_type tag); [|by apply returns_ret, dropped_same].
  destruct (aliases m a); [by apply returns_ret, dropped_same|]. cbv zeta.
  eapply returns_bind; [by apply resize_keeps|]. intros [r [[c|] l]]; [intros _|by intros []].
  cbn. destruct (bool_decide (r ≠ OK)); [by apply returns_ret, dropped_some|].
  destruct (find_camera_metadata_entry c tag) as [r'|[i e]].
  - destruct (bool_decide (r' = _)); [|by apply returns_ret, dropped_some].
    eapply returns_bind; [apply returns_true|]. intros ? _.
    destruct (add_camera_metadata_entry c tag data). by apply returns_ret, dropped_some.
  - eapply returns_bind; [apply returns_true|]. intros ? _. destruct (update_camera_metadata_entry c i data). by apply returns_ret, dropped_some.
Qed.

Lemma append_keeps c m : plenty → returns (append (W := W) (Some c) m) (keeps_packet m).
Proof.
  intros Hp. unfold append. destruct (mLocked m); [by apply returns_ret, dropped_same|].
  eapply returns_bind; [apply returns_true|]. intros ? _.
  eapply returns_bind; [by apply resize_keeps|]. intros [r [[c'|] l]]; [intros _|by intros []]. cbn.
  eapply returns_bind; [apply returns_true|]. intros ? _.
  destruct (append_camera_metadata c' c). by apply returns_ret, dropped_some.
Qed.

Lemma update_keeps type tag a data m :
  plenty → returns (update (W := W) type tag a data m) (keeps_packet m).
Proof.
  intros Hp. unfold update. destruct (mLocked m); [by apply returns_ret, dropped_same|].
  case_match; [by apply returns_ret, dropped_same|by apply updateImpl_keeps].
Qed.

Lemma update_string_keeps tag a data m :
  plenty → returns (update_string (W := W) tag a data m) (keeps_packet m).
Proof.
  intros Hp. unfold update_string. destruct (mLocked m); [by apply returns_ret, dropped_same|].
  case_match; [by apply returns_ret, dropped_same|by apply updateImpl_keeps].
Qed.

Lemma lost_object i f s :
  (∀ m, returns (f m) (λ res, res.2 = [])) → ms_lost (on_object i f s) = ms_lost s.
Proof.
  intros Hf. unfold on_object. destruct (ms_objects s !! i) as [m|]; [|done].
  specialize (Hf m (ms_heap s)). destruct (f m (ms_heap s)) as [[[m' raws] lost] h]. cbn in *.
  by rewrite Hf, app_nil_r.
Qed.

Lemma lost_two i j f s :
  (∀ m m2, ms_objects s !! j = Some m2 → returns (f m m2) (λ res, res.2 = [])) →
  ms_lost (on_two i j f s) = ms_lost s.
Proof.
  intros Hf. unfold on_two. case_bool_decide; [done|].
  destruct (ms_objects s !! i) as [m|]; [|done]. destruct (ms_objects s !! j) as [m2|]; [|done].
  specialize (Hf m m2 eq_refl (ms_heap s)). destruct (f m m2 (ms_heap s)) as [[[m' m2'] lost] h].
  cbn in *. by rewrite Hf, app_nil_r.
Qed.

Lemma lost_packet i r f s :
  (∀ c m, returns (f c m) (λ res, res.2 = [])) → ms_lost (on_object_packet i r f s) = ms_lost s.
Proof.
  intros Hf. unfold on_object_packet. destruct (ms_objects s !! i); [|done]. unfold on_packet.
  destruct (ms_raws s !! r); [|done]. by rewrite lost_object.
Qed.

Lemma returns_loss m (f : M (heap W) (Z * metadata)) :
  returns f (keeps_packet m) → returns (with_loss f m) (λ res, res.2 = []).
Proof. intros Hf. eapply returns_bind; [exact Hf|]. intros [r m'] Hk. by apply returns_ret. Qed.

Lemma step_loses s c : plenty → mallowed s c → ms_lost (mstep s c) = ms_lost s.
Proof.
  intros Hp Hc. destruct c; cbn [mstep];
    try (apply lost_object; intros m; first
      [ by apply returns_ret
      | apply returns_loss; auto using update_keeps, update_string_keeps; fail
      | eapply returns_bind; [apply returns_true|]; intros a' _; repeat case_match; by apply returns_ret
      | repeat case_match; by apply returns_ret ]);
    unfold add_object, on_packet.
  - done.
  - by destruct (CameraMetadata_sized entries data (ms_heap s)).
  - destruct (ms_objects s !! i) as [m|]; [|done]. by destruct (CameraMetadata_copy m (ms_heap s)).
  - destruct (ms_raws s !! r) as [c|]; [|done]. cbn [ms_heap]. by destruct (CameraMetadata_take (W := W) (Some c) (ms_heap s)).
  - destruct (ms_objects s !! i) as [m|]; [|done]. by destruct (destroy m (ms_heap s)).
  - apply lost_two. intros m m2 _. eapply returns_bind; [apply returns_true|]. intros m' _.
    by apply returns_ret.
  - apply lost_packet. intros c m. eapply returns_bind; [apply returns_true|]. intros m' _.
    by apply returns_ret.
  - apply lost_packet. intros c m. eapply returns_bind; [apply returns_true|]. intros m' _.
    by apply returns_ret.
  - apply lost_two. intros m m2 _. eapply returns_bind; [apply returns_true|]. intros [m' m2'] _.
    by apply returns_ret.
  - apply lost_two. intros m m2 _. by apply returns_ret.
  - destruct Hc as [_ Hnull]. apply lost_two. intros m m2 Hj. specialize (Hnull m2 Hj).
    destruct (mBuffer m2) as [c|]; [|done].
    eapply returns_bind; [by apply append_keeps|]. intros [r m'] Hk. by apply returns_ret.
  - apply lost_packet. intros c m. eapply returns_bind; [by apply append_keeps|].
    intros [r' m'] Hk. by apply returns_ret.
  - by destruct (readFromParcel true p (ms_heap s)) as [[[r c] q] h].
  - destruct (ms_raws s !! r) as [c|]; [|done]. by destruct (free_camera_metadata (W := W) c _).
Qed.

Lemma lost_runs s cs : plenty → mruns_allowed s cs → ms_lost (mruns s cs) = ms_lost s.
Proof.
  intros Hp. revert s. induction cs as [|c cs IH]; intros s; [done|]. intros [Hc Hcs]. cbn.
  rewrite IH by done. by apply step_loses.
Qed.


End system.
