(* ===== verification/SoftMeta.v ===== *)
(** * A metadata library in software

    An instance of the laws of the metadata library, and the theorems on
    CameraMetadata applied to it. *)

From stdpp Require Import gmap sorting.
From S2P Require Import Prelude CameraH Parcels CameraMeta CameraMetaFacts.
From S2P Require Import CameraMetaSystem.

#[global] Open Scope Z_scope.

(** ** Packets *)

(** Tags below 100 hold bytes, below 200 integers; others are unknown. *)
Definition soft_type (tag : Z) : option meta_type :=
  if bool_decide (tag < 100) then Some TYPE_BYTE
  else if bool_decide (tag < 200) then Some TYPE_INT32 else None.

Definition soft_index (l : list mentry) (t : Z) : option (nat * mentry) :=
  list_find (λ e, me_tag e = t) l.

Lemma soft_index_none l t e : soft_index l t = None → e ∈ l → me_tag e ≠ t.
Proof. intros Hf He. apply list_find_None in Hf. rewrite Forall_forall in Hf. by apply Hf. Qed.

#[export] Instance soft_tags : MetadataLib.
Proof.
  refine {| get_camera_metadata_tag_type := soft_type;
            find_camera_metadata_ro_entry l t := snd <$> soft_index l t |}.
  - intros l t e ([i e'] & Hf & [= ->])%fmap_Some.
    apply list_find_Some in Hf as (Hi & Ht & _). split; [|done]. by eapply list_elem_of_lookup_2.
  - intros l t e Hf%fmap_None. by apply soft_index_none.
Defined.

Definition soft_size (type : meta_type) (n : Z) : Z :=
  Z.max 0 n * match type with TYPE_BYTE => 1 | TYPE_INT32 | TYPE_FLOAT => 4 | _ => 8 end.

(** An address of no packet of [live]. *)
Definition soft_fresh (live : gset Z) : Z := foldr Z.max 0 (elements live) + 4096.

Lemma soft_fresh_new live : soft_fresh live ∉ live.
Proof.
  rewrite <- elem_of_elements. unfold soft_fresh.
  assert (∀ l a, a ∈ l → a <= foldr Z.max 0 l) as Hmax.
  { induction l as [|x l IH]; intros a Ha; [by apply elem_of_nil in Ha|].
    apply elem_of_cons in Ha as [->|Ha]; cbn; [lia|]. pose proof (IH a Ha). lia. }
  intros Hin. pose proof (Hmax _ _ Hin). lia.
Qed.

(** The allocator: whether there is memory for a packet, and what is left then.
    It is a number of packets or unlimited. *)
Class Budget (A : Type) := { has_memory : A → bool; spend : A → A }.

#[export] Instance limited : Budget nat := {| has_memory n := (0 <? n)%nat; spend := Nat.pred |}.
#[export] Instance unlimited : Budget unit | 10 := {| has_memory _ := true; spend := id |}.

Section allocator.
  Context `{Budget A}.

Definition soft_make (live : gset Z) (l : list mentry) (entries used data : Z) (w : A)
    : option camera_metadata * A :=
  if has_memory w &&
     bool_decide (Z.of_nat (length l) <= entries <= BLOCK_MAX ∧ 0 <= used <= data ∧ data <= BLOCK_MAX)
  then (Some (CMeta (soft_fresh live) l entries used data), spend w)
  else (None, spend w).

Lemma soft_make_some live l entries used data w c w' :
  soft_make live l entries used data w = (Some c, w') →
  cm_addr c ∉ live ∧ cm_ok c ∧ c = CMeta (soft_fresh live) l entries used data.
Proof.
  unfold soft_make. destruct (has_memory w); [|done]. cbn. case_bool_decide as Hb; [|done].
  intros [= <- _]. split_and!; [apply soft_fresh_new| |done].
  destruct Hb as (? & ? & ?). by split.
Qed.

(** The bytes of a packet: the entries, each its tag, its length and its elements. *)
Definition soft_pack (l : list mentry) : list Z :=
  Z.of_nat (length l) :: (l ≫= λ e, me_tag e :: Z.of_nat (length (me_data e)) :: me_data e).

Fixpoint soft_unpack (n : nat) (bytes : list Z) : option (list mentry) :=
  match n with
  | O => Some []
  | S n =>
      match bytes with
      | t :: len :: bytes =>
          l ← soft_unpack n (drop (Z.to_nat len) bytes);
          Some (MEntry t (take (Z.to_nat len) bytes) :: l)
      | _ => None
      end
  end.

Lemma soft_unpack_pack l :
  soft_unpack (length l) (l ≫= λ e, me_tag e :: Z.of_nat (length (me_data e)) :: me_data e) = Some l.
Proof.
  induction l as [|[t d] l IH]; [done|]. cbn. rewrite Nat2Z.id, drop_app_length, take_app_length.
  cbn in IH. by rewrite IH.
Qed.

Lemma soft_pack_entries l : (length l <= length (soft_pack l))%nat.
Proof.
  unfold soft_pack. cbn. enough (length l ≤ length (l ≫= λ e, me_tag e :: Z.of_nat (length (me_data e)) :: me_data e))%nat by lia.
  induction l as [|e l IH]; [done|]. cbn. rewrite length_app. lia.
Qed.

Definition soft_copy (live : gset Z) (bytes : list Z) (w : A) : option camera_metadata * A :=
  match bytes with
  | n :: bytes =>
      match soft_unpack (Z.to_nat n) bytes with
      | Some l => soft_make live l (Z.of_nat (length l)) (Z.of_nat (length bytes)) (Z.of_nat (length bytes)) w
      | None => (None, w)
      end
  | [] => (None, w)
  end.

Definition fits (c : camera_metadata) (entries data : Z) : bool :=
  bool_decide (cm_entry_count c + entries <= cm_entry_capacity c) &&
  bool_decide (cm_data_count c + data <= cm_data_capacity c).

Definition soft_add (c : camera_metadata) (tag : Z) (data : list Z) : Z * camera_metadata :=
  match soft_type tag with
  | Some type =>
      let size := soft_size type (Z.of_nat (length data)) in
      if fits c 1 size
      then (OK, refilled c (cm_entries c ++ [MEntry tag data]) (cm_data_count c + size))
      else (ERROR, c)
  | None => (ERROR, c)
  end.

Definition soft_change (c : camera_metadata) (i : nat) (data : list Z) : Z * camera_metadata :=
  match cm_entries c !! i with
  | Some e =>
      match soft_type (me_tag e) with
      | Some type =>
          let n := cm_data_count c + soft_size type (Z.of_nat (length data)) in
          if bool_decide (n <= cm_data_capacity c)
          then (OK, refilled c (<[i := MEntry (me_tag e) data]> (cm_entries c)) (Z.max 0 n))
          else (ERROR, c)
      | None => (ERROR, c)
      end
  | None => (ERROR, c)
  end.

Definition soft_append (c o : camera_metadata) : Z * camera_metadata :=
  if fits c (cm_entry_count o) (cm_data_count o)
  then (OK, refilled c (cm_entries c ++ cm_entries o) (cm_data_count c + cm_data_count o))
  else (ERROR, c).

Definition by_tag (e e' : mentry) : Prop := me_tag e <= me_tag e'.

#[export] Instance by_tag_dec e e' : Decision (by_tag e e').
Proof. unfold by_tag. apply _. Defined.

#[export] Instance soft_packets : MetaPackets A := {|
  allocate_camera_metadata live entries data w := soft_make live [] entries 0 data w;
  CameraMeta.clone_camera_metadata live c w :=
    soft_make live (cm_entries c) (cm_entry_count c) (cm_data_count c) (cm_data_count c) w;
  get_camera_metadata_size p := match p with Some c => Z.min 1024 (2 ^ 32 - 1 - cm_addr c) | None => ERROR end;
  get_camera_metadata_compact_size c := Z.of_nat (length (soft_pack (cm_entries c)));
  get_camera_metadata_alignment := 8;
  calculate_camera_metadata_entry_data_size := soft_size;
  append_camera_metadata := soft_append;
  add_camera_metadata_entry := soft_add;
  update_camera_metadata_entry := soft_change;
  delete_camera_metadata_entry c i :=
    match cm_entries c !! i with
    | Some _ => (OK, refilled c (delete i (cm_entries c)) (Z.max 0 (cm_data_count c)))
    | None => (ERROR, c)
    end;
  sort_camera_metadata c :=
    (OK, refilled c (merge_sort by_tag (cm_entries c)) (cm_data_count c));
  find_camera_metadata_entry c t :=
    match soft_index (cm_entries c) t with Some r => inr r | None => inl NAME_NOT_FOUND end;
  packed c := soft_pack (cm_entries c);
  allocate_copy_camera_metadata_checked := soft_copy
|}.

Lemma fits_true c entries data :
  fits c entries data = true ↔
  cm_entry_count c + entries <= cm_entry_capacity c ∧ cm_data_count c + data <= cm_data_capacity c.
Proof. unfold fits. by rewrite andb_true_iff, !bool_decide_eq_true. Qed.

Lemma soft_size_nonneg type n : 0 <= soft_size type n.
Proof. unfold soft_size. destruct type; lia. Qed.

Lemma soft_append_law c o :
  let '(r, c') := soft_append c o in
  (r = OK → c' = refilled c (cm_entries c ++ cm_entries o) (cm_data_count c + cm_data_count o) ∧
            (cm_ok c → cm_ok o → cm_ok c')) ∧
  (r ≠ OK → c' = c).
Proof.
  unfold soft_append. destruct (fits c _ _) eqn:Hf; [|done]. split; [|done]. intros _.
  split; [done|]. intros Hc Ho. apply fits_true in Hf as [H1 H2].
  apply refilled_ok; [done| |pose proof (ok_data c Hc); pose proof (ok_data o Ho); lia].
  rewrite length_app. unfold cm_entry_count in *. lia.
Qed.

#[export] Instance soft_packet_laws : MetaPacketsLaws A.
Proof.
  constructor.
  - intros live entries data w c w' Ha%soft_make_some. destruct Ha as (? & ? & ->). by split_and!.
  - intros live c w c' w' Ha%soft_make_some. destruct Ha as (? & ? & ->). by split_and!.
  - intros c. cbn. lia.
  - apply soft_size_nonneg.
  - apply soft_append_law.
  - intros c o He Hd H1 H2. cbn. unfold soft_append.
    destruct (fits c _ _) eqn:Hf; [done|]. rewrite <- not_true_iff_false, fits_true in Hf.
    unfold cm_entry_count in *. rewrite He in *. cbn in *. lia.
  - intros c tag data. cbn. unfold soft_add. by repeat case_match.
  - intros c i data. cbn. unfold soft_change. by repeat case_match.
  - intros c tag type data Hty size H1 H2. cbn in *. unfold soft_add. rewrite Hty.
    by rewrite (proj2 (fits_true c 1 _)).
  - intros c i. cbn. by case_match.
  - intros c i e type data Hc Hi Hty Hsize. cbn in *. unfold soft_change. rewrite Hi, Hty.
    rewrite bool_decide_true by done. eexists. split; [|done]. pose proof (ok_data c Hc). lia.
  - intros c i e Hc Hi. cbn. rewrite Hi. eexists. split; [|done]. pose proof (ok_data c Hc). lia.
  - intros c. cbn. eexists. split; [|done]. apply merge_sort_Permutation.
  - intros c tag i e. cbn. destruct (soft_index (cm_entries c) tag) as [[j e']|] eqn:Hf; [|done].
    intros [= -> ->]. apply list_find_Some in Hf as (? & ? & _). done.
  - intros c tag r. cbn. destruct (soft_index (cm_entries c) tag) as [|] eqn:Hf; [done|].
    intros [= <-]. split; [done|]. intros e. by apply soft_index_none.
  - exists 3. split; [lia|done].
  - done.
  - intros c. cbn. lia.
  - intros live bytes w c w' Hc. cbn in Hc. unfold soft_copy in Hc.
    destruct bytes as [|n bytes]; [done|].
    destruct (soft_unpack (Z.to_nat n) bytes) as [l|] eqn:Hu; [|done].
    apply soft_make_some in Hc as (Hnew & Hok & ->). split_and!; [done..|]. intros c0 [= -> ->].
    rewrite Nat2Z.id, soft_unpack_pack in Hu. by injection Hu as <-.
Qed.

End allocator.

(** Without a limit every packet of the size of a block is copied. *)
Lemma unlimited_copies live c (w : unit) :
  compact_ok c → (allocate_copy_camera_metadata_checked live (packed c) w).1 ≠ None.
Proof.
  unfold compact_ok. cbn. intros Hc. rewrite Nat2Z.id, soft_unpack_pack. unfold soft_make. cbn.
  pose proof (soft_pack_entries (cm_entries c)) as Hl. cbn in Hl.
  rewrite bool_decide_true; [done|]. lia.
Qed.

(** ** The theorems at concrete inputs *)

Definition shown : camera_metadata := CMeta 8192 [MEntry 7 [1; 2]; MEntry 105 [40000]] 2 6 6.

Lemma shown_ok : metadata_ok (Md (Some shown) false).
Proof.
  split; [split; by_decide|].
  unfold distinct_tags. cbn. repeat constructor; set_solver.
Qed.

(** The next packet of this heap is the last. *)
Definition shown_heap : heap nat := Heap {[8192]} false 1%nat.

Lemma shown_array type n : soft_size type (Z.of_nat n) <= 1000 →
  ∀ data, length data = n → array_ok (W := nat) type data.
Proof. intros Hs data Hd. unfold array_ok, BLOCK_MAX. cbn. rewrite Hd. lia. Qed.

(** There is no room, but memory; then [find] gives what was written. *)
Definition shown_updated : metadata :=
  Md (Some (CMeta 12288 [MEntry 7 [1; 2]; MEntry 105 [40000]; MEntry 130 [5; 6]] 6 14 28)) false.


Definition shown_ops : list map_op :=
  [OUpdate TYPE_INT32 130 100 [5; 6]; OErase 105; OUpdate TYPE_BYTE 130 100 [1];
   OUpdate TYPE_BYTE 7 100 [9]; OSort].

Lemma shown_ops_ok : Forall (op_ok (W := nat)) shown_ops.
Proof.
  unfold shown_ops. repeat apply Forall_cons_2; try exact I; try apply Forall_nil_2;
    (eapply shown_array; [|reflexivity]; by_decide).
Qed.

Lemma metadata_refines_map_witness :
  let '(rs, m') := (do_ops shown_ops (Md (Some shown) false) shown_heap).1 in
  rs = [OK; OK; INVALID_OPERATION; OK; OK] ∧
  find m' 7 = [9] ∧ find m' 105 = [] ∧ find m' 130 = [5; 6].
Proof.
  pose proof (metadata_refines_map shown_ops (Md (Some shown) false) shown_heap shown_ok eq_refl
    shown_ops_ok) as Hr.
  assert (Hrs : (do_ops shown_ops (Md (Some shown) false) shown_heap).1.1 =
    [OK; OK; INVALID_OPERATION; OK; OK]) by (vm_compute; reflexivity).
  rewrite (surjective_pairing (do_ops shown_ops (Md (Some shown) false) shown_heap).1) in Hr |- *.
  rewrite Hrs in Hr |- *. destruct Hr as (_ & _ & Hf & _).
  rewrite !Hf. split_and!; vm_compute; reflexivity.
Defined.

Definition empty_parcel : soft_parcel := SoftParcel [] [].

Definition shown_parcel : soft_parcel := (writeToParcel (Some shown) empty_parcel shown_heap).1.2.

Definition shown_read : Z * option camera_metadata * soft_parcel :=
  (readFromParcel true shown_parcel shown_heap).1.

Lemma metadata_parcel_roundtrip_witness :
  length (sp_items shown_parcel) = 3%nat ∧ shown_read.1.1 = OK ∧
  cm_entries <$> shown_read.1.2 = Some (cm_entries shown).
Proof.
  assert (Hc : ∀ c, Some shown = Some c → compact_ok c).
  { intros c [= <-]. unfold compact_ok. by_decide. }
  pose proof (metadata_parcel_roundtrip (Some shown) empty_parcel shown_heap Hc) as Hw.
  assert (Hr : (writeToParcel (Some shown) empty_parcel shown_heap).1 = (OK, shown_parcel))
    by (vm_compute; reflexivity).
  rewrite Hr in Hw. destruct (Hw eq_refl) as [(c & [= <-] & Hn)|(items & Hi & Hread)];
    [by destruct Hn; vm_compute|].
  specialize (Hread shown_parcel [] shown_heap). rewrite app_nil_r in Hread. specialize (Hread Hi).
  change (readFromParcel true shown_parcel shown_heap).1 with shown_read in Hread.
  assert (Hs : shown_read.1.1 = OK) by (vm_compute; reflexivity).
  assert (Hl : length (sp_items shown_parcel) = 3%nat) by (vm_compute; reflexivity).
  destruct shown_read as [[r out] q]. cbn [fst snd] in Hs |- *. subst r.
  split_and!; [done..|]. by destruct Hread as (_ & [[_ He]|[He _]]).
Defined.

(** Objects that are made, filled, copied, locked, read from a parcel and
    destroyed, with memory for five packets: the last update has none. *)
Definition shown_calls : list (mcall (P := soft_parcel)) :=
  [CNew; CUpdate 0 TYPE_BYTE 7 100 [1; 2]; CNewCopy 0; CUpdate 1 TYPE_BYTE 8 100 [3];
   CRelease 0; CAcquire 1 0; CGetAndLock 1; CUpdate 1 TYPE_BYTE 8 100 [4]; CUnlock 1 (Some 4096);
   CReadPacket shown_parcel;
   CAppendPacket 1 0; CUpdate 1 TYPE_INT32 130 100 [1; 2; 3; 4; 5]; CFree 0; CDestroy 0].


(** ** What the code does not mean to do *)

(** When the parcel has no memory for the blob the status is still OK, and no
    reader gets the packet. *)
Example lost_blob_reports_ok :
  let p := SoftParcel [] [true; false] in
  (writeToParcel (Some shown) p shown_heap).1.1 = OK ∧
  (readFromParcel true (writeToParcel (Some shown) p shown_heap).1.2 shown_heap).1.1.1 = BAD_VALUE.
Proof. vm_compute. split; reflexivity. Qed.

(** Appending an object to itself without room reads the packet that the resize
    has freed. *)
Example self_append_faults :
  hp_fault (append (Some shown) (Md (Some shown) false) shown_heap).2 = true.
Proof. vm_compute. reflexivity. Qed.

(** An update without memory leaves the object empty and its packet without an
    owner. *)
Example failed_update_loses_all :
  let '(r, m', h) := update TYPE_BYTE 9 100 [1] (Md (Some shown) false) (Heap {[8192]} false O) in
  r = NO_MEMORY ∧ mBuffer m' = None ∧ elements (hp_live h) = [8192].
Proof. vm_compute. split_and!; reflexivity. Qed.
