(* ===== verification/CondVar.v ===== *)
(** * Condition variables (src/libmocha/bionic)

    pthread_cond.cpp and bionic_time_conversions.cpp.  The calls are threads of
    atomic actions on the condition variable's word, the caller's mutex and the
    kernel's queue of the threads that wait on the word.  The kernel is a
    parameter: which sleeping threads it wakes, why it ends a wait by itself,
    and the clocks. *)

From stdpp Require Import gmap.
From S2P Require Import Prelude Threads.

#[global] Open Scope Z_scope.

Definition EAGAIN : Z := 11.
Definition ETIMEDOUT : Z := 110.

(** linux/time.h, pthread.h *)
Definition CLOCK_REALTIME : Z := 0.
Definition CLOCK_MONOTONIC : Z := 1.
Definition PTHREAD_PROCESS_PRIVATE : Z := 0.
Definition PTHREAD_PROCESS_SHARED : Z := 1.

(** ** Times (bionic_time_conversions.cpp) *)

Record timespec := Timespec { tv_sec : Z; tv_nsec : Z }.

#[export] Instance timespec_eq_dec : EqDecision timespec.
Proof. solve_decision. Defined.

Definition NS_PER_S : Z := 1000000000.

(** C's division rounds towards zero. *)
Definition timespec_from_ms (ms : Z) : timespec :=
  Timespec (Z.quot ms 1000) (s32 (Z.rem ms 1000 * 1000000)).

(** [timespec_from_absolute_timespec], [now] being what the clock shows. *)
Definition timespec_from_absolute_timespec (now abs_ts : timespec) : bool * timespec :=
  let sec := s32 (tv_sec abs_ts - tv_sec now) in
  let nsec := s32 (tv_nsec abs_ts - tv_nsec now) in
  let ts := if bool_decide (nsec < 0) then Timespec (s32 (sec - 1)) (s32 (nsec + NS_PER_S))
            else Timespec sec nsec in
  (negb (bool_decide (tv_nsec ts < 0) || bool_decide (tv_sec ts < 0)), ts).

(** ** Attributes *)

Definition COND_SHARED_MASK : Z := 0x0001.
Definition COND_CLOCK_MASK : Z := 0x0002.
Definition COND_COUNTER_STEP : Z := 0x0004.
Definition COND_FLAGS_MASK : Z := Z.lor COND_SHARED_MASK COND_CLOCK_MASK.

Definition COND_IS_SHARED (c : Z) : bool := bool_decide (Z.land c COND_SHARED_MASK ≠ 0).
Definition COND_GET_CLOCK (c : Z) : Z := Z.shiftr (Z.land c COND_CLOCK_MASK) 1.
Definition COND_SET_CLOCK (attr c : Z) : Z := Z.lor attr (Z.shiftl c 1).

Definition pthread_condattr_init : Z :=
  Z.lor (Z.lor 0 PTHREAD_PROCESS_PRIVATE) (Z.shiftl CLOCK_REALTIME 1).

Definition pthread_condattr_getpshared (attr : Z) : Z := Z.b2z (COND_IS_SHARED attr).

Definition pthread_condattr_setpshared (attr pshared : Z) : Z * Z :=
  if bool_decide (pshared ≠ PTHREAD_PROCESS_SHARED) && bool_decide (pshared ≠ PTHREAD_PROCESS_PRIVATE)
  then (EINVAL, attr) else (0, Z.lor attr pshared).

Definition pthread_condattr_getclock (attr : Z) : Z := COND_GET_CLOCK attr.

Definition pthread_condattr_setclock (attr clock : Z) : Z * Z :=
  if bool_decide (clock ≠ CLOCK_MONOTONIC) && bool_decide (clock ≠ CLOCK_REALTIME)
  then (EINVAL, attr) else (0, COND_SET_CLOCK attr clock).

Definition pthread_condattr_destroy : Z := 0xdeada11d.

(** ** The kernel *)

(** Which of the threads asleep on the word are woken, at most so many; the
    status of a wait that the kernel ends by itself; what a clock shows. *)
Class Futex (K : Type) := {
  futex_choose : Z → list nat → K → list nat * K;
  futex_reason : option timespec → K → Z * K;
  clock_gettime : Z → K → timespec * K
}.

Class FutexLaws (K : Type) `{Futex K} := {
  futex_choose_law n q k :
    let l := (futex_choose n q k).1 in
    l ⊆+ q ∧ Z.of_nat (length l) = Z.min (Z.max 0 n) (Z.of_nat (length q));
  futex_reason_law t k :
    let r := (futex_reason t k).1 in r = - EINTR ∨ (r = - ETIMEDOUT ∧ t ≠ None)
}.

(** The word; who has the mutex; the threads asleep and whether they wait on a
    shared word; the client's own flag, which the mutex protects.  The rest is
    a record of what has happened: how often the counter was stepped, its value
    when each thread began its last wait and when the flag was last set, and the
    threads that have set the flag and not yet stepped the counter, or not yet
    woken the waiters. *)
Record cond_world (K : Type) := CondWorld {
  cw_state : Z;
  cw_mutex : option nat;
  cw_sleepers : list (nat * bool);
  cw_flag : bool;
  cw_pulses : Z;
  cw_seen : gmap nat Z;
  cw_set : Z;
  cw_announced : gset nat;
  cw_waking : gset nat;
  cw_kernel : K
}.
Arguments CondWorld {K}.
Arguments cw_state {K}.
Arguments cw_mutex {K}.
Arguments cw_sleepers {K}.
Arguments cw_flag {K}.
Arguments cw_pulses {K}.
Arguments cw_seen {K}.
Arguments cw_set {K}.
Arguments cw_announced {K}.
Arguments cw_waking {K}.
Arguments cw_kernel {K}.

Section cond.
  Context {K : Type} `{Futex K}.

Abbreviation W := (cond_world K).
Implicit Types (w : W) (tid : nat).

Definition set_state (s : Z) (w : W) : W :=
  CondWorld s (cw_mutex w) (cw_sleepers w) (cw_flag w) (cw_pulses w) (cw_seen w) (cw_set w)
    (cw_announced w) (cw_waking w) (cw_kernel w).

Definition set_mutex (o : option nat) (w : W) : W :=
  CondWorld (cw_state w) o (cw_sleepers w) (cw_flag w) (cw_pulses w) (cw_seen w) (cw_set w)
    (cw_announced w) (cw_waking w) (cw_kernel w).

Definition set_queue (l : list (nat * bool)) (k : K) (w : W) : W :=
  CondWorld (cw_state w) (cw_mutex w) l (cw_flag w) (cw_pulses w) (cw_seen w) (cw_set w)
    (cw_announced w) (cw_waking w) k.

(** The counter is stepped by [tid]. *)
Definition count_pulse (tid : nat) (w : W) : W :=
  CondWorld (cw_state w) (cw_mutex w) (cw_sleepers w) (cw_flag w) (cw_pulses w + 1) (cw_seen w)
    (cw_set w) (cw_announced w ∖ {[tid]})
    (if decide (tid ∈ cw_announced w) then {[tid]} ∪ cw_waking w else cw_waking w) (cw_kernel w).

(** [tid] begins a wait. *)
Definition note_wait (tid : nat) (w : W) : W :=
  CondWorld (cw_state w) (cw_mutex w) (cw_sleepers w) (cw_flag w) (cw_pulses w)
    (<[tid := cw_pulses w]> (cw_seen w)) (cw_set w) (cw_announced w) (cw_waking w) (cw_kernel w).

(** [tid] has woken the waiters. *)
Definition note_woken (tid : nat) (w : W) : W :=
  CondWorld (cw_state w) (cw_mutex w) (cw_sleepers w) (cw_flag w) (cw_pulses w) (cw_seen w)
    (cw_set w) (cw_announced w) (cw_waking w ∖ {[tid]}) (cw_kernel w).

(** ** Actions *)

Definition load_state : proc W Z := atomic (λ w, (cw_state w, w)).

(** [process_shared] and [get_clock]. *)
Definition process_shared : proc W bool := atomic (λ w, (COND_IS_SHARED (cw_state w), w)).
Definition get_clock : proc W Z := atomic (λ w, (COND_GET_CLOCK (cw_state w), w)).

Definition pthread_mutex_lock (tid : nat) : proc W () :=
  Act (λ _ w, match cw_mutex w with
              | None => (Some (), set_mutex (Some tid) w)
              | Some _ => (None, w)
              end) Ret.

Definition pthread_mutex_unlock (tid : nat) : proc W () :=
  atomic (λ w, ((), if decide (cw_mutex w = Some tid) then set_mutex None w else w)).

(** The kernel's view of the queue for a shared or a private word. *)
Definition queue_of (shared : bool) (l : list (nat * bool)) : list nat :=
  omap (λ '(t, s), if bool_decide (s = shared) then Some t else None) l.

(** [__futex_wake_ex]. *)
Definition futex_wake (tid : nat) (shared : bool) (n : Z) : proc W () :=
  atomic (λ w,
    let '(woken, k) := futex_choose n (queue_of shared (cw_sleepers w)) (cw_kernel w) in
    ((), note_woken tid
           (set_queue (filter (λ p, p.2 ≠ shared ∨ p.1 ∉ woken) (cw_sleepers w)) k w))).

(** A time the kernel takes. *)
Definition timeout_valid (t : timespec) : bool :=
  bool_decide (0 <= tv_sec t) && bool_decide (0 <= tv_nsec t) && bool_decide (tv_nsec t < NS_PER_S).

(** [__futex_wait_ex]: comparing the word and going to sleep are one step.  The
    thread goes on when it has been woken or when the kernel ends the wait,
    which is the scheduler's choice. *)
Definition futex_wait (tid : nat) (shared : bool) (value : Z) (timeout : option timespec) : proc W Z :=
  Act (λ _ w,
         if negb (from_option timeout_valid true timeout) then (Some (Some (- EINVAL)), w)
         else if bool_decide (cw_state w ≠ value) then (Some (Some (- EAGAIN)), w)
         else (Some None, set_queue (cw_sleepers w ++ [(tid, shared)]) (cw_kernel w) w))
    (λ r, match r with
          | Some status => Ret status
          | None =>
              Act (λ choice w,
                     if bool_decide (tid ∉ (cw_sleepers w).*1) then (Some 0, w)
                     else if choice then
                       let '(reason, k) := futex_reason timeout (cw_kernel w) in
                       (Some reason, set_queue (filter (λ p, p.1 ≠ tid) (cw_sleepers w)) k w)
                     else (None, w)) Ret
          end).

(** ** pthread_cond.cpp *)

Definition pthread_cond_init (attr : option Z) (w : W) : W :=
  set_state (match attr with Some a => Z.land a COND_FLAGS_MASK | None => 0 end) w.

Definition pthread_cond_destroy (w : W) : W := set_state 0xdeadc04d w.

Definition pthread_cond_pulse (tid : nat) (thread_count : Z) : proc W Z :=
  atomic (λ w, ((), count_pulse tid (set_state (u32 (cw_state w + COND_COUNTER_STEP)) w)));;
  shared ← process_shared;
  futex_wake tid shared thread_count;;
  mret 0.

Definition pthread_cond_timedwait_relative (tid : nat) (rel_timeout_or_null : option timespec)
    : proc W Z :=
  old_state ← atomic (λ w, (cw_state w, note_wait tid w));
  pthread_mutex_unlock tid;;
  shared ← process_shared;
  status ← futex_wait tid shared old_state rel_timeout_or_null;
  pthread_mutex_lock tid;;
  mret (if bool_decide (status = - ETIMEDOUT) then ETIMEDOUT else 0).

Definition read_clock (clock : Z) : proc W timespec :=
  atomic (λ w, let '(t, k) := clock_gettime clock (cw_kernel w) in (t, set_queue (cw_sleepers w) k w)).

Definition pthread_cond_timedwait_clock (tid : nat) (abs_timeout_or_null : option timespec) (clock : Z)
    : proc W Z :=
  match abs_timeout_or_null with
  | Some abs_timeout =>
      now ← read_clock clock;
      let '(ok, ts) := timespec_from_absolute_timespec now abs_timeout in
      if negb ok then mret ETIMEDOUT else pthread_cond_timedwait_relative tid (Some ts)
  | None => pthread_cond_timedwait_relative tid None
  end.

Definition pthread_cond_broadcast (tid : nat) : proc W Z := pthread_cond_pulse tid INT_MAX.
Definition pthread_cond_signal (tid : nat) : proc W Z := pthread_cond_pulse tid 1.

Definition pthread_cond_wait (tid : nat) : proc W Z :=
  clock ← get_clock; pthread_cond_timedwait_clock tid None clock.

Definition pthread_cond_timedwait (tid : nat) (abstime : option timespec) : proc W Z :=
  clock ← get_clock; pthread_cond_timedwait_clock tid abstime clock.

Definition pthread_cond_timedwait_monotonic (tid : nat) (abs_timeout : option timespec) : proc W Z :=
  pthread_cond_timedwait_clock tid abs_timeout CLOCK_MONOTONIC.

Definition pthread_cond_timedwait_relative_np (tid : nat) (rel_timeout : option timespec) : proc W Z :=
  pthread_cond_timedwait_relative tid rel_timeout.

(** [ms] is unsigned; timespec_from_ms takes an [int]. *)
Definition pthread_cond_timeout_np (tid : nat) (ms : Z) : proc W Z :=
  pthread_cond_timedwait_relative_np tid (Some (timespec_from_ms (s32 ms))).

(** ** Clients

    What the comment on the pulse asks of a client: a flag the mutex protects,
    read before each wait. *)

Definition read_flag : proc W bool := atomic (λ w, (cw_flag w, w)).

Definition write_flag (tid : nat) (b : bool) : proc W () :=
  atomic (λ w, ((),
    if b then CondWorld (cw_state w) (cw_mutex w) (cw_sleepers w) true (cw_pulses w) (cw_seen w)
                (cw_pulses w) ({[tid]} ∪ cw_announced w) (cw_waking w) (cw_kernel w)
    else CondWorld (cw_state w) (cw_mutex w) (cw_sleepers w) false (cw_pulses w) (cw_seen w)
           (cw_set w) (cw_announced w) (cw_waking w) (cw_kernel w))).

Inductive client_call :=
  | Await (rounds : nat) (abstime : option timespec)  (** until the flag is set, so many times *)
  | AwaitRelative (rounds : nat) (timeout : timespec)
  | Announce (threads : Z)  (** sets the flag and wakes so many *)
  | Withdraw  (** takes the flag back *)
  | Pulse (threads : Z).  (** wakes without a change *)

Fixpoint await (tid : nat) (wait : proc W Z) (rounds : nat) : proc W bool :=
  match rounds with
  | O => mret false
  | S rounds =>
      flag ← read_flag;
      if flag : bool then mret true
      else r ← wait; if bool_decide (r = ETIMEDOUT) then mret false else await tid wait rounds
  end.

Definition client (tid : nat) (c : client_call) : proc W () :=
  match c with
  | Await rounds abstime =>
      pthread_mutex_lock tid;;
      await tid (pthread_cond_timedwait tid abstime) rounds;;
      pthread_mutex_unlock tid
  | AwaitRelative rounds timeout =>
      pthread_mutex_lock tid;;
      await tid (pthread_cond_timedwait_relative_np tid (Some timeout)) rounds;;
      pthread_mutex_unlock tid
  | Announce threads =>
      pthread_mutex_lock tid;;
      write_flag tid true;;
      pthread_mutex_unlock tid;;
      pthread_cond_pulse tid threads;;
      mret ()
  | Withdraw =>
      pthread_mutex_lock tid;;
      write_flag tid false;;
      pthread_mutex_unlock tid
  | Pulse threads => pthread_cond_pulse tid threads;; mret ()
  end.

End cond.
