(* ===== verification/CondVarFacts.v ===== *)
(** * What condition variables promise (src/libmocha/bionic)

    The invariant of the word, the queue of sleeping threads and the client's
    flag under every interleaving; the counter, the attributes and the times. *)

From stdpp Require Import gmap.
From S2P Require Import Prelude Threads CondVar.

#[global] Open Scope Z_scope.

(** ** The counter *)

(** The word with the flags [F] after [n] pulses. *)
Definition word (F n : Z) : Z := u32 (F + COND_COUNTER_STEP * n).

(** The number of pulses after which the counter shows the same again. *)
Definition LAP : Z := 2 ^ 30.

Lemma word_step F n : u32 (word F n + COND_COUNTER_STEP) = word F (n + 1).
Proof.
  unfold word, u32, wrap, COND_COUNTER_STEP. rewrite Zplus_mod_idemp_l. f_equal. lia.
Qed.

Lemma word_same F n m : word F n = word F m ↔ (LAP | n - m).
Proof.
  unfold word, u32, wrap, COND_COUNTER_STEP, LAP. split.
  - intros He. apply Z.cong_iff_0 in He.
    replace (F + 4 * n - (F + 4 * m)) with (4 * (n - m)) in He by lia.
    apply Z.mod_divide in He; [|lia]. destruct He as [q Hq]. exists q. lia.
  - intros [q Hq]. apply Z.cong_iff_0.
    replace (F + 4 * n - (F + 4 * m)) with (4 * (n - m)) by lia. rewrite Hq.
    apply Z.mod_divide; [lia|]. exists q. lia.
Qed.

Lemma word_same_near F n m : word F n = word F m → m <= n < m + LAP → n = m.
Proof.
  rewrite word_same. unfold LAP. intros [q Hq] Hn. assert (q = 0) as -> by lia. lia.
Qed.

(** The two flags are below the counter. *)
Lemma word_flags F n : 0 <= F < 4 → Z.land (word F n) COND_FLAGS_MASK = F.
Proof.
  intros HF. change COND_FLAGS_MASK with (Z.ones 2). rewrite Z.land_ones by lia.
  unfold word, u32, wrap, COND_COUNTER_STEP. change (2 ^ 2) with 4.
  change (2 ^ 32) with (4 * 2 ^ 30). rewrite Z.rem_mul_r by lia.
  rewrite (Z.mul_comm 4 ((_ / _) mod _)), Z.mod_add, Z.mod_mod by lia.
  rewrite (Z.mul_comm 4 n), Z.mod_add by lia. by apply Z.mod_small.
Qed.

Lemma word_shared F n : 0 <= F < 4 → COND_IS_SHARED (word F n) = COND_IS_SHARED F.
Proof.
  intros HF. assert (Hl : Z.land (word F n) COND_SHARED_MASK = Z.land F COND_SHARED_MASK).
  { pose proof (word_flags F n HF) as Hw. apply (f_equal (λ z, Z.land z COND_SHARED_MASK)) in Hw.
    by rewrite <- Z.land_assoc in Hw. }
  unfold COND_IS_SHARED. apply bool_decide_ext. by rewrite Hl.
Qed.

(** ** The queue *)

Lemma queue_of_length shared l :
  (∀ t s, (t, s) ∈ l → s = shared) → queue_of shared l = l.*1.
Proof.
  induction l as [|[t s] l IH]; intros Hl; [done|]. unfold queue_of. cbn.
  rewrite bool_decide_true by (eapply Hl; left). f_equal. apply IH. intros t' s' Hin.
  eapply Hl. by right.
Qed.

Lemma sleepers_bounded (l : list (nat * bool)) (L : nat) :
  NoDup l.*1 → (∀ t s, (t, s) ∈ l → (t < L)%nat) → (length l ≤ L)%nat.
Proof.
  intros Hnd Hl. rewrite <- (length_fmap fst l), <- (length_seq L 0).
  apply submseteq_length, NoDup_submseteq; [done|].
  intros t ([t' s] & -> & Hin)%list_elem_of_fmap. apply elem_of_seq. specialize (Hl _ _ Hin). cbn. lia.
Qed.

Lemma NoDup_fst_filter {A B} (P : A * B → Prop) `{!∀ p, Decision (P p)} (l : list (A * B)) :
  NoDup l.*1 → NoDup (filter P l).*1.
Proof.
  induction l as [|p l IH]; intros Hl; [done|]. apply NoDup_cons in Hl as [Hp Hl].
  rewrite filter_cons. destruct (decide (P p)); [|by apply IH]. cbn. apply NoDup_cons.
  split; [|by apply IH]. intros (q & Hq & [_ Hin]%list_elem_of_filter)%list_elem_of_fmap.
  apply Hp. rewrite Hq. by apply list_elem_of_fmap_2.
Qed.

(** The threads that were not chosen. *)
Lemma unchosen_threads sh (l : list nat) (q : list (nat * bool)) :
  (∀ p, p ∈ q → p.2 = sh) →
  (filter (λ p, p.2 ≠ sh ∨ p.1 ∉ l) q).*1 = filter (λ t, t ∉ l) q.*1.
Proof.
  induction q as [|[t s] q IH]; intros Hsh; [done|].
  pose proof (Hsh (t, s) ltac:(left)) as Hs. cbn in Hs. subst s.
  rewrite filter_cons, fmap_cons, filter_cons. rewrite <- IH by (intros p Hp; apply Hsh; by right).
  cbn. by destruct (decide _) as [[?|?]|Hn], (decide (t ∉ l)) as [|]; [..|exfalso; tauto|].
Qed.

(** ** The invariant *)

Section system.
  Context {K : Type} `{FutexLaws K} (F : Z) (HF : 0 <= F < 4) (L : nat).

Abbreviation W := (cond_world K).
Implicit Types (w : W) (i j tid : nat).

Definition asleep tid w : Prop := tid ∈ (cw_sleepers w).*1.

(** Fewer pulses than a lap: as long as this holds nobody falls asleep on a
    word that has changed. *)
Record Inv (w : W) : Prop := {
  iv_state : cw_state w = word F (cw_pulses w);
  iv_sleepers t s : (t, s) ∈ cw_sleepers w → s = COND_IS_SHARED F ∧ (t < L)%nat;
  iv_nodup : NoDup (cw_sleepers w).*1;
  iv_seen t n : cw_seen w !! t = Some n →
    0 <= n <= cw_pulses w ∧ (cw_flag w = true → n <= cw_set w);
  iv_pulses : 0 <= cw_set w <= cw_pulses w;
  iv_set : cw_flag w = true → cw_announced w = ∅ → cw_set w < cw_pulses w;
  iv_flag : cw_pulses w < LAP → cw_flag w = true → cw_announced w = ∅ → cw_waking w = ∅ →
    cw_sleepers w = []
}.

Record G (i : nat) (w w' : W) : Prop := {
  g_mutex j : j ≠ i → cw_mutex w = Some j → cw_mutex w' = Some j;
  g_flag : cw_mutex w ≠ Some i → cw_flag w' = cw_flag w;
  g_seen j : j ≠ i → cw_seen w' !! j = cw_seen w !! j;
  g_asleep j : j ≠ i → asleep j w' → asleep j w;
  g_announced j : j ≠ i → j ∈ cw_announced w' ↔ j ∈ cw_announced w;
  g_waking j : j ≠ i → j ∈ cw_waking w' ↔ j ∈ cw_waking w
}.

Abbreviation cstable tid := (stable Inv (others G tid)).
Abbreviation csat tid := (sat Inv (others G tid) (G tid)).

Lemma G_refl i w : G i w w.
Proof. by split. Qed.

(** What a thread knows of itself. *)
Definition awake tid w : Prop := ¬ asleep tid w.
Definition calm tid w : Prop := awake tid w ∧ tid ∉ cw_announced w ∧ tid ∉ cw_waking w.
Definition owner tid w : Prop := cw_mutex w = Some tid.
Definition flag_is (b : bool) tid w : Prop := owner tid w ∧ cw_flag w = b.
Definition waits n tid w : Prop := cw_seen w !! tid = Some n.

Lemma awake_stable tid : cstable tid (awake tid).
Proof. intros w w' _ _ Ha (j & Hj & HG) Hs. apply Ha. by eapply (g_asleep j). Qed.

Lemma not_announced_stable tid : cstable tid (λ w, tid ∉ cw_announced w).
Proof. intros w w' _ _ Ha (j & Hj & HG). by rewrite (g_announced j w w' HG) by done. Qed.

Lemma not_waking_stable tid : cstable tid (λ w, tid ∉ cw_waking w).
Proof. intros w w' _ _ Ha (j & Hj & HG). by rewrite (g_waking j w w' HG) by done. Qed.

Lemma owner_stable tid : cstable tid (owner tid).
Proof. intros w w' _ _ Ho (j & Hj & HG). by eapply (g_mutex j). Qed.

Lemma flag_stable b tid : cstable tid (flag_is b tid).
Proof.
  intros w w' _ _ [Ho Hf] (j & Hj & HG). split; [by eapply (g_mutex j)|].
  rewrite (g_flag j w w' HG); [done|]. unfold owner in Ho. rewrite Ho. congruence.
Qed.

Lemma waits_stable n tid : cstable tid (waits n tid).
Proof. intros w w' _ _ Hw (j & Hj & HG). unfold waits. by rewrite (g_seen j w w' HG). Qed.

Lemma pure_stable tid (P : Prop) : cstable tid (λ _, P).
Proof. by intros w w'. Qed.

Lemma exists_stable {A} tid (P : A → W → Prop) :
  (∀ a, cstable tid (P a)) → cstable tid (λ w, ∃ a, P a w).
Proof. intros HP w w' Hw Hw' [a Ha] HR. exists a. exact (HP a w w' Hw Hw' Ha HR). Qed.

Lemma or_stable tid (P Q : W → Prop) : cstable tid P → cstable tid Q → cstable tid (λ w, P w ∨ Q w).
Proof. intros HP HQ w w' Hw Hw' [Hp|Hq] HR; [left; exact (HP w w' Hw Hw' Hp HR)|right; exact (HQ w w' Hw Hw' Hq HR)]. Qed.

Create HintDb cond discriminated.
#[local] Hint Resolve awake_stable not_announced_stable not_waking_stable owner_stable flag_stable
  waits_stable pure_stable exists_stable or_stable stable_and : cond.

Lemma calm_stable tid : cstable tid (calm tid).
Proof. unfold calm. auto 10 with cond. Qed.

#[local] Hint Resolve calm_stable : cond.

(** An action that only looks. *)
Lemma sat_look {A} tid P (f : W → A) (Q : A → W → Prop) :
  cstable tid P → (∀ a, cstable tid (Q a)) →
  (∀ w, Inv w → P w → Q (f w) w) → csat tid P (atomic (λ w, (f w, w))) Q.
Proof.
  intros HP HQ Hf. apply sat_atomic; [done|done|]. intros w Hw Hp. cbn.
  split_and!; [done|apply G_refl|by apply Hf].
Qed.

Lemma shared_sat tid P :
  cstable tid P →
  csat tid P process_shared (λ b w, P w ∧ b = COND_IS_SHARED F).
Proof.
  intros HP. apply sat_look; [done|auto with cond|]. intros w Hw Hp. split; [done|].
  by rewrite (iv_state w Hw), word_shared.
Qed.

(** ** The mutex *)

Lemma Inv_mutex o w : Inv w → Inv (set_mutex o w).
Proof. by intros []. Qed.

Lemma lock_sat tid P :
  cstable tid P → (∀ o w, P w → P (set_mutex o w)) →
  csat tid P (pthread_mutex_lock tid) (λ _ w, P w ∧ owner tid w).
Proof.
  intros HP Hset. apply sat_act with (P' := λ _ w, P w ∧ owner tid w); [done| |].
  - intros choice w Hw Hp. destruct (cw_mutex w) as [o|] eqn:Ho; cbn.
    + split_and!; [done|apply G_refl|done].
    + split_and!; [by apply Inv_mutex| |by apply Hset|done].
      split; try done. intros j Hj. by rewrite Ho.
  - intros []. apply sat_ret; [auto with cond|done].
Qed.

Lemma unlock_sat tid P :
  cstable tid P → (∀ o w, P w → P (set_mutex o w)) →
  csat tid P (pthread_mutex_unlock tid) (λ _, P).
Proof.
  intros HP Hset. apply sat_atomic; [done|done|]. intros w Hw Hp. cbn.
  destruct (decide (cw_mutex w = Some tid)) as [Ho|Ho].
  - split_and!; [by apply Inv_mutex| |by apply Hset].
    split; try done. intros j Hj. rewrite Ho. congruence.
  - split_and!; [done|apply G_refl|done].
Qed.

(** ** Pulses *)

Definition counted tid (c : Z) w : Prop :=
  awake tid w ∧ tid ∉ cw_announced w ∧ (Z.of_nat L <= c ∨ tid ∉ cw_waking w).

Lemma counted_stable tid c : cstable tid (counted tid c).
Proof. unfold counted. auto 10 with cond. Qed.

#[local] Hint Resolve counted_stable : cond.

Lemma Inv_pulse tid w :
  Inv w → Inv (count_pulse tid (set_state (u32 (cw_state w + COND_COUNTER_STEP)) w)).
Proof.
  intros [Hst Hsl Hnd Hse Hp Hset Hfl]. split; cbn; [|done|done| |lia|lia|].
  - by rewrite Hst, word_step.
  - intros t n Hn. destruct (Hse t n Hn). split; [lia|done].
  - intros Hlap Hf Ha Hw. destruct (decide (tid ∈ cw_announced w)) as [Hin|Hout].
    + set_solver.
    + apply Hfl; [lia|done|set_solver|done].
Qed.

(** The queue after [c] threads were chosen from it. *)
Lemma woken_queue c w :
  Inv w →
  let sh := COND_IS_SHARED F in
  let l := (futex_choose c (queue_of sh (cw_sleepers w)) (cw_kernel w)).1 in
  let rest := filter (λ p, p.2 ≠ sh ∨ p.1 ∉ l) (cw_sleepers w) in
  (∀ p, p ∈ rest → p ∈ cw_sleepers w) ∧ NoDup rest.*1 ∧
  (Z.of_nat (length (cw_sleepers w)) <= c → rest = []) ∧
  Z.of_nat (length rest) = Z.of_nat (length (cw_sleepers w)) -
    Z.min (Z.max 0 c) (Z.of_nat (length (cw_sleepers w))).
Proof.
  intros Hw sh l rest.
  assert (Hq : queue_of sh (cw_sleepers w) = (cw_sleepers w).*1).
  { apply queue_of_length. intros t s Hin. exact (proj1 (iv_sleepers w Hw _ _ Hin)). }
  pose proof (futex_choose_law c (queue_of sh (cw_sleepers w)) (cw_kernel w)) as [Hsub Hlen].
  fold l in Hsub, Hlen. rewrite Hq in Hsub, Hlen. rewrite length_fmap in Hlen.
  assert (Hrest : rest.*1 = filter (λ t, t ∉ l) (cw_sleepers w).*1).
  { apply unchosen_threads. intros [t s] Hin. exact (proj1 (iv_sleepers w Hw _ _ Hin)). }
  assert (Hnd : NoDup rest.*1) by (rewrite Hrest; apply NoDup_filter, (iv_nodup w Hw)).
  assert (Hcount : length (cw_sleepers w) = (length l + length rest)%nat).
  { rewrite <- (length_fmap fst rest), Hrest, <- length_app, <- (length_fmap fst (cw_sleepers w)).
    apply Permutation_length, NoDup_Permutation.
    - apply (iv_nodup w Hw).
    - apply NoDup_app. split_and!.
      + apply submseteq_Permutation in Hsub as [k Hk]. pose proof (iv_nodup w Hw) as Hn.
        rewrite Hk in Hn. by apply NoDup_app in Hn as [? _].
      + intros t Ht. rewrite list_elem_of_filter. tauto.
      + apply NoDup_filter, (iv_nodup w Hw).
    - intros t. rewrite elem_of_app, list_elem_of_filter. split.
      + intros Ht. destruct (decide (t ∈ l)); [by left|by right].
      + intros [Ht|[_ Ht]]; [|done]. by eapply elem_of_submseteq. }
  split_and!.
  - intros p Hp. unfold rest in Hp. by apply list_elem_of_filter in Hp as [_ ?].
  - done.
  - intros Hc. destruct rest; [done|]. cbn in Hcount. lia.
  - lia.
Qed.

Definition woken tid c w : W :=
  let '(l, k) := futex_choose c (queue_of (COND_IS_SHARED F) (cw_sleepers w)) (cw_kernel w) in
  note_woken tid (set_queue (filter (λ p, p.2 ≠ COND_IS_SHARED F ∨ p.1 ∉ l) (cw_sleepers w)) k w).

Lemma Inv_wake tid c w :
  Inv w → (Z.of_nat L <= c ∨ tid ∉ cw_waking w) → Inv (woken tid c w).
Proof.
  intros Hw Hc. pose proof (woken_queue c w Hw) as Hq. unfold woken. cbn in Hq.
  destruct (futex_choose c _ _) as [l k]. cbn in Hq. destruct Hq as (Hsub & Hnd & Hall & _).
  destruct Hw as [Hst Hsl Hnd' Hse Hp Hset Hfl]. split; cbn; try done.
  - intros t s Hin. by apply Hsl, Hsub.
  - intros Hlap Hf Ha Hwk. destruct Hc as [Hc|Hc].
    + apply Hall. pose proof (sleepers_bounded (cw_sleepers w) L Hnd').
      assert (length (cw_sleepers w) ≤ L)%nat; [|lia]. apply H1. intros t s Hin. exact (proj2 (Hsl _ _ Hin)).
    + rewrite Hfl; [done|done|done|done|set_solver].
Qed.

Lemma pulse_sat tid c :
  csat tid (λ w, awake tid w ∧ (Z.of_nat L <= c ∨ tid ∉ cw_announced w ∧ tid ∉ cw_waking w))
    (pthread_cond_pulse tid c) (λ _, calm tid).
Proof.
  unfold pthread_cond_pulse. eapply sat_bind.
  { apply sat_atomic with (Q := λ _, counted tid c); [auto 10 with cond|auto with cond|].
    intros w Hw [Ha Hc]. cbn. split_and!; [by apply Inv_pulse| |].
    - split; cbn; [done|done|done|done| |]; intros j Hj; [set_solver|].
      destruct (decide (tid ∈ cw_announced w)); set_solver.
    - split; [exact Ha|]. cbn. split; [set_solver|].
      destruct Hc as [Hc|[Hc1 Hc2]]; [by left|right]. by rewrite decide_False. }
  intros []. eapply sat_bind; [apply shared_sat; auto with cond|]. intros sh.
  apply sat_pure; [apply _|]. intros ->.
  eapply sat_bind.
  { apply sat_atomic with (Q := λ _, calm tid); [auto with cond|auto with cond|].
    intros w Hw (Ha & Hann & Hc). fold (woken tid c w).
    assert (He : (λ w0 : W, let '(l, k) := futex_choose c (queue_of (COND_IS_SHARED F) (cw_sleepers w0))
       (cw_kernel w0) in ((), note_woken tid (set_queue
         (filter (λ p, p.2 ≠ COND_IS_SHARED F ∨ p.1 ∉ l) (cw_sleepers w0)) k w0))) w = ((), woken tid c w)).
    { unfold woken. by destruct (futex_choose c _ _). }
    rewrite He. cbn. pose proof (woken_queue c w Hw) as Hq. split_and!; [by apply Inv_wake| |].
    - unfold woken. cbn in Hq. destruct (futex_choose c _ _) as [l k]. cbn in Hq.
      split; cbn; [done|done|done| |done|set_solver].
      intros j Hj. unfold asleep. cbn. intros (p & -> & Hin)%list_elem_of_fmap.
      apply list_elem_of_fmap_2. by apply (proj1 Hq).
    - unfold woken. cbn in Hq. destruct (futex_choose c _ _) as [l k]. cbn in Hq.
      split_and!; cbn; [|done|set_solver]. unfold awake, asleep. cbn.
      intros (p & -> & Hin)%list_elem_of_fmap. apply Ha, list_elem_of_fmap_2. by apply (proj1 Hq). }
  intros []. apply sat_ret; [auto with cond|done].
Qed.

(** ** Waits *)

(** [tid] waits for a change of the word it has read. *)
Definition waiting tid (old : Z) w : Prop :=
  calm tid w ∧ ∃ n, waits n tid w ∧ old = word F n.

Lemma waiting_stable tid old : cstable tid (waiting tid old).
Proof. unfold waiting. apply stable_and; [auto with cond|]. apply exists_stable. auto with cond. Qed.

#[local] Hint Resolve waiting_stable : cond.

Lemma calm_mutex tid o w : calm tid w → calm tid (set_mutex o w).
Proof. done. Qed.

Lemma waiting_mutex tid old o w : waiting tid old w → waiting tid old (set_mutex o w).
Proof. done. Qed.

(** A thread goes to sleep on the word as it is: with the flag set and all
    announced pulses done the word is not what it was when the flag was clear. *)
Lemma Inv_sleep tid n w :
  Inv w → (tid < L)%nat → awake tid w → waits n tid w → cw_state w = word F n →
  Inv (set_queue (cw_sleepers w ++ [(tid, COND_IS_SHARED F)]) (cw_kernel w) w).
Proof.
  intros Hw Ht Ha Hn Hst'. destruct Hw as [Hst Hsl Hnd Hse Hp Hset Hfl]. split; cbn; try done.
  - intros t s [Hin|Hin%list_elem_of_singleton]%elem_of_app; [by apply Hsl|by injection Hin as -> ->].
  - rewrite fmap_app. apply NoDup_app. split_and!; [done| |apply NoDup_singleton].
    intros t Hin ->%list_elem_of_singleton. by apply Ha.
  - intros Hlap Hf Hann _. exfalso. destruct (Hse tid n Hn) as [Hrange Hle].
    specialize (Hle Hf). specialize (Hset Hf Hann).
    rewrite Hst in Hst'. apply word_same_near in Hst'; unfold LAP in *; lia.
Qed.

Definition resting tid w : Prop := tid ∉ cw_announced w ∧ tid ∉ cw_waking w.

Lemma resting_stable tid : cstable tid (resting tid).
Proof. unfold resting. auto with cond. Qed.

#[local] Hint Resolve resting_stable : cond.

Lemma futex_wait_sat tid old timeout :
  (tid < L)%nat →
  csat tid (waiting tid old) (futex_wait tid (COND_IS_SHARED F) old timeout) (λ _, calm tid).
Proof.
  intros Ht.
  apply sat_act with (P' := λ r w, resting tid w ∧ (r ≠ None → awake tid w)); [auto with cond| |].
  - intros choice w Hw [(Ha & Hr1 & Hr2) (n & Hn & ->)]. destruct (negb _); cbn.
    { split_and!; [done|apply G_refl|by split|done]. }
    case_bool_decide as Hs; cbn.
    { split_and!; [done|apply G_refl|by split|done]. }
    assert (cw_state w = word F n) as Hst by (destruct (decide (cw_state w = word F n)); tauto).
    split_and!; [by eapply Inv_sleep| |by split|done].
    split; cbn; try done. intros j Hj. unfold asleep. cbn.
    rewrite fmap_app, elem_of_app. cbn. rewrite list_elem_of_singleton. intros [?| ->]; [done|by destruct Hj].
  - intros [status|].
    + apply sat_ret; [|by intros w Hw [[? ?] Hs]; split; [apply Hs|split]].
      apply stable_and; [auto with cond|]. intros w w' Hw Hw' Hs HR Hne.
      exact (awake_stable tid w w' Hw Hw' (Hs Hne) HR).
    + apply sat_act with (P' := λ _ w, calm tid w).
      * apply stable_and; [auto with cond|]. by intros w w' Hw Hw' Hs HR [].
      * intros choice w Hw [[Hr1 Hr2] _]. case_bool_decide as Hin; cbn.
        { split_and!; [done|apply G_refl|exact (conj Hin (conj Hr1 Hr2))]. }
        destruct choice; [|cbn; split_and!; [done|apply G_refl|by split|by intros []]].
        destruct (futex_reason timeout (cw_kernel w)) as [r k]. cbn. split_and!.
        -- destruct Hw as [Hst Hsl Hnd Hse Hp Hset Hfl]. split; cbn; try done.
           ++ intros t s [_ Hin']%list_elem_of_filter. by apply Hsl.
           ++ by apply NoDup_fst_filter.
           ++ intros. by rewrite Hfl.
        -- split; cbn; try done. intros j Hj. unfold asleep. cbn.
           intros (p & -> & [_ Hin']%list_elem_of_filter)%list_elem_of_fmap.
           by apply list_elem_of_fmap_2.
        -- split; [|by split]. unfold awake, asleep. cbn.
           by intros (p & -> & [Hne _]%list_elem_of_filter)%list_elem_of_fmap.
      * intros status. apply sat_ret; [auto with cond|done].
Qed.

Lemma wait_sat tid timeout :
  (tid < L)%nat →
  csat tid (λ w, calm tid w ∧ flag_is false tid w) (pthread_cond_timedwait_relative tid timeout)
    (λ _ w, calm tid w ∧ owner tid w).
Proof.
  intros Ht. unfold pthread_cond_timedwait_relative. eapply sat_bind.
  { apply sat_atomic with (Q := waiting tid); [auto with cond|auto with cond|].
    intros w Hw [Hc [Ho Hf]]. cbn. split_and!.
    - destruct Hw as [Hst Hsl Hnd Hse Hp Hset Hfl]. split; cbn; try done.
      intros t n. destruct (decide (t = tid)) as [->|Hne].
      + rewrite lookup_insert_eq. intros [= <-]. split; [lia|]. intros Hft. congruence.
      + rewrite lookup_insert_ne by done. apply Hse.
    - split; cbn; try done. intros j Hj. by rewrite lookup_insert_ne.
    - split; [exact Hc|]. exists (cw_pulses w). split; [apply lookup_insert_eq|apply (iv_state w Hw)]. }
  intros old. eapply sat_bind; [apply unlock_sat; [auto with cond|apply waiting_mutex]|]. intros [].
  eapply sat_bind; [apply shared_sat; auto with cond|]. intros sh.
  apply sat_pure; [apply _|]. intros ->.
  eapply sat_bind; [by apply futex_wait_sat|]. intros status.
  eapply sat_bind; [apply lock_sat; [auto with cond|apply calm_mutex]|]. intros [].
  apply sat_ret; [auto with cond|done].
Qed.

Lemma look_kernel_sat {A} tid P (f : K → A * K) :
  cstable tid P → (∀ l k w, cw_sleepers w = l → P w → P (set_queue l k w)) →
  csat tid P (atomic (λ w, let '(t, k) := f (cw_kernel w) in (t, set_queue (cw_sleepers w) k w))) (λ _, P).
Proof.
  intros HP Hset. apply sat_atomic; [done|done|]. intros w Hw Hp.
  destruct (f (cw_kernel w)) as [a k]. cbn. split_and!; [|by split|by apply Hset].
  by destruct Hw.
Qed.

Lemma timedwait_sat tid abstime :
  (tid < L)%nat →
  csat tid (λ w, calm tid w ∧ flag_is false tid w) (pthread_cond_timedwait tid abstime)
    (λ _ w, calm tid w ∧ owner tid w).
Proof.
  intros Ht. unfold pthread_cond_timedwait, get_clock. eapply sat_bind.
  { apply (sat_look tid _ _ (λ _ w, calm tid w ∧ flag_is false tid w)); auto with cond. }
  intros clock. unfold pthread_cond_timedwait_clock.
  destruct abstime as [t|]; [|by apply wait_sat].
  eapply sat_bind; [apply look_kernel_sat; [auto with cond|by intros l k w <-]|]. intros now.
  destruct (timespec_from_absolute_timespec now t) as [[] ts]; cbn [negb]; [by apply wait_sat|].
  apply sat_ret; [auto with cond|]. by intros w Hw [? [? ?]].
Qed.

(** ** Clients *)

Lemma await_sat tid wait rounds :
  csat tid (λ w, calm tid w ∧ flag_is false tid w) wait (λ _ w, calm tid w ∧ owner tid w) →
  csat tid (λ w, calm tid w ∧ owner tid w) (await tid wait rounds) (λ _ w, calm tid w ∧ owner tid w).
Proof.
  intros Hwait. induction rounds as [|rounds IH]; cbn [await].
  { apply sat_ret; [auto with cond|done]. }
  eapply sat_bind.
  { apply (sat_look tid _ _ (λ b w, calm tid w ∧ flag_is b tid w)); auto with cond.
    by intros w Hw [? ?]. }
  intros [].
  - apply sat_ret; [auto with cond|]. by intros w Hw [? [? ?]].
  - eapply sat_bind; [exact Hwait|]. intros r. apply sat_if; intros _; [|exact IH].
    apply sat_ret; [auto with cond|done].
Qed.

Lemma guarded_sat {A} tid (p : proc W A) :
  csat tid (λ w, calm tid w ∧ owner tid w) p (λ _, calm tid) →
  csat tid (calm tid) (pthread_mutex_lock tid;; p;; pthread_mutex_unlock tid) (λ _, calm tid).
Proof.
  intros Hp. eapply sat_bind; [apply lock_sat; [auto with cond|apply calm_mutex]|]. intros [].
  eapply sat_bind; [exact Hp|]. intros a. apply unlock_sat; [auto with cond|apply calm_mutex].
Qed.

Lemma awaiting_sat tid wait rounds :
  csat tid (λ w, calm tid w ∧ flag_is false tid w) wait (λ _ w, calm tid w ∧ owner tid w) →
  csat tid (calm tid) (pthread_mutex_lock tid;; await tid wait rounds;; pthread_mutex_unlock tid)
    (λ _, calm tid).
Proof.
  intros Hw. apply guarded_sat. eapply sat_post; [by apply await_sat|]. by intros b w _ [? ?].
Qed.

(** Setting the flag announces a pulse. *)
Lemma announce_sat tid :
  csat tid (λ w, calm tid w ∧ owner tid w) (write_flag tid true) (λ _, awake tid).
Proof.
  apply sat_atomic; [auto with cond|auto with cond|]. intros w Hw [[Ha Hr] Ho]. cbn. split_and!.
  - destruct Hw as [Hst Hsl Hnd Hse Hp Hset Hfl]. split; cbn; try done; [|lia|set_solver|set_solver].
    intros t n Hn. destruct (Hse t n Hn). split; [done|]. intros _. lia.
  - split; cbn; try done. intros j Hj. set_solver.
  - done.
Qed.

Lemma withdraw_sat tid :
  csat tid (λ w, calm tid w ∧ owner tid w) (write_flag tid false) (λ _, calm tid).
Proof.
  apply sat_atomic; [auto with cond|auto with cond|]. intros w Hw [[Ha Hr] Ho]. cbn. split_and!.
  - destruct Hw as [Hst Hsl Hnd Hse Hp Hset Hfl]. split; cbn; try done.
    intros t n Hn. destruct (Hse t n Hn). by split.
  - by split.
  - by split.
Qed.

(** Threads that wait have a number below [L]; a thread that sets the flag wakes
    all of these. *)
Definition call_ok tid (c : client_call) : Prop :=
  match c with
  | Await _ _ | AwaitRelative _ _ => (tid < L)%nat
  | Announce threads => Z.of_nat L <= threads
  | Withdraw | Pulse _ => True
  end.

Lemma client_sat tid c : call_ok tid c → csat tid (calm tid) (client tid c) (λ _, calm tid).
Proof.
  intros Hc. destruct c as [rounds t|rounds t|threads| |threads]; cbn [client].
  - by apply awaiting_sat, timedwait_sat.
  - by apply awaiting_sat, wait_sat.
  - eapply sat_bind; [apply lock_sat; [auto with cond|apply calm_mutex]|]. intros [].
    eapply sat_bind; [apply announce_sat|]. intros [].
    eapply sat_bind; [apply unlock_sat; [auto with cond|done]|]. intros [].
    eapply sat_bind; [eapply sat_pre; [apply pulse_sat|]|].
    + intros w _ Ha. split; [done|by left].
    + intros r. apply sat_ret; [auto with cond|done].
  - apply guarded_sat, withdraw_sat.
  - eapply sat_bind; [eapply sat_pre; [apply pulse_sat|]|].
    + intros w _ [Ha Hr]. split; [done|by right].
    + intros r. apply sat_ret; [auto with cond|done].
Qed.

(** A thread that makes calls one after the other. *)
Fixpoint clients tid (cs : list client_call) : proc W () :=
  match cs with [] => mret () | c :: cs => client tid c;; clients tid cs end.

Lemma clients_sat tid cs :
  Forall (call_ok tid) cs → csat tid (calm tid) (clients tid cs) (λ _ _, True).
Proof.
  induction 1 as [|c cs Hc Hcs IH]; cbn [clients].
  - apply sat_ret; [auto with cond|done].
  - eapply sat_bind; [by apply client_sat|]. by intros [].
Qed.

(** ** The system *)

Definition cond_start (k : K) : W := CondWorld F None [] false 0 ∅ 0 ∅ ∅ k.

Inductive cond_event :=
  | CondStep (i : nat) (choice : bool)
  | CondSpawn (cs : list client_call).

Definition cond_step (s : pool W) (ev : cond_event) : pool W :=
  match ev with
  | CondStep i choice => pool_step s (Step i choice)
  | CondSpawn cs => pool_step s (Spawn (clients (length (po_threads s)) cs))
  end.

Definition cond_allowed (s : pool W) (ev : cond_event) : Prop :=
  match ev with CondStep _ _ => True | CondSpawn cs => Forall (call_ok (length (po_threads s))) cs end.

Fixpoint cond_run (s : pool W) (evs : list cond_event) : pool W :=
  match evs with [] => s | ev :: evs => cond_run (cond_step s ev) evs end.

Fixpoint cond_run_allowed (s : pool W) (evs : list cond_event) : Prop :=
  match evs with [] => True | ev :: evs => cond_allowed s ev ∧ cond_run_allowed (cond_step s ev) evs end.

#[export] Instance call_ok_dec tid c : Decision (call_ok tid c).
Proof. destruct c; cbn [call_ok]; apply _. Defined.

#[export] Instance cond_allowed_dec s ev : Decision (cond_allowed s ev).
Proof. destruct ev; cbn [cond_allowed]; apply _. Defined.

#[export] Instance cond_run_allowed_dec s evs : Decision (cond_run_allowed s evs).
Proof. revert s. induction evs as [|ev evs IH]; intros s; cbn; apply _. Defined.

Lemma Inv_start k : Inv (cond_start k).
Proof.
  split; cbn; try (done || set_solver || lia || by constructor).
  unfold word. rewrite Z.mul_0_r, Z.add_0_r, u32_small; [done|unfold is_u32; lia].
Qed.

(** No thread is on record before it starts. *)
Definition unborn (s : pool W) : Prop :=
  ∀ t, (length (po_threads s) ≤ t)%nat → calm t (po_state s).

Lemma calm_other i t w w' : G i w w' → i ≠ t → calm t w → calm t w'.
Proof.
  intros HG Hne (Ha & Hb & Hc). split_and!.
  - intros Hs. apply Ha. by eapply (g_asleep i).
  - by rewrite (g_announced i w w' HG) by done.
  - by rewrite (g_waking i w w' HG) by done.
Qed.

Lemma cond_step_ok s ev :
  cond_allowed s ev → pool_ok Inv G s → unborn s →
  pool_ok Inv G (cond_step s ev) ∧ unborn (cond_step s ev).
Proof.
  intros Hev Hs Hu. destruct ev as [i choice|cs]; cbn [cond_step].
  - split; [by apply pool_step_ok|]. intros t Ht.
    destruct Hs as [HI HT]. cbn [pool_step] in *.
    destruct (po_threads s !! i) as [[a|B f kk]|] eqn:Hi; [by apply Hu| |by apply Hu].
    pose proof (HT i _ Hi) as (P & HP & J & HJ & HS & P' & Hf & Hk).
    pose proof (Hf choice (po_state s) HI (HJ _ HI HP)) as (_ & HG & _).
    assert (Hlt : (i < length (po_threads s))%nat) by by eapply lookup_lt_Some.
    destruct (f choice (po_state s)) as [[b|] w']; cbn in Ht, HG |- *; rewrite ?length_insert in Ht;
      (eapply calm_other; [exact HG|lia|by apply Hu]).
  - split.
    + apply pool_step_ok; [|done]. exists (calm (length (po_threads s))). split; [by apply Hu|].
      by apply clients_sat.
    + intros t. cbn. rewrite length_app. cbn. intros Ht. apply Hu. lia.
Qed.

Lemma cond_run_ok s evs :
  cond_run_allowed s evs → pool_ok Inv G s → unborn s → Inv (po_state (cond_run s evs)).
Proof.
  revert s. induction evs as [|ev evs IH]; intros s; [by intros _ [? _]|]. intros [Hev Hevs] Hs Hu.
  destruct (cond_step_ok s ev Hev Hs Hu) as [Hs' Hu']. by apply IH.
Qed.

(** C12: Under every interleaving of any number of threads that wait for the flag
    as the comment on the pulse asks, set it, take it back or wake others, where
    every pulse after setting the flag wakes at least as many threads as may wait
    for it (a broadcast does; a signal does if only one thread may wait): once
    the flag is set and each thread that set it has made its pulse, no thread
    that waits for it is asleep, neither one that slept nor one that had only
    read the word; provided fewer than 2^30 pulses were made, so that the counter
    has not gone round. *)
Theorem wakeups_not_lost k evs :
  cond_run_allowed (Pool [] (cond_start k)) evs →
  let w := po_state (cond_run (Pool [] (cond_start k)) evs) in
  cw_pulses w < 2 ^ 30 → cw_flag w = true → cw_announced w = ∅ → cw_waking w = ∅ →
  cw_sleepers w = [].
Proof.
  intros Hr w. apply (iv_flag w), (cond_run_ok _ _ Hr).
  - split; [apply Inv_start|]. intros i p Hp. by destruct i.
  - intros t _. split_and!; cbn; [|set_solver..]. unfold awake, asleep. cbn. set_solver.
Qed.

(** ** One call by itself *)

(** A pulse steps the counter and wakes as many of the sleeping threads as it is
    for, all of them if they are fewer. *)
Lemma pulse_alone tid c w :
  Inv w →
  ∃ w', alone (pthread_cond_pulse tid c) w = Some (0, w') ∧
    cw_state w' = word F (cw_pulses w + 1) ∧ cw_pulses w' = cw_pulses w + 1 ∧
    Z.of_nat (length (cw_sleepers w')) =
      Z.of_nat (length (cw_sleepers w)) - Z.min (Z.max 0 c) (Z.of_nat (length (cw_sleepers w))) ∧
    Inv (count_pulse tid (set_state (u32 (cw_state w + COND_COUNTER_STEP)) w)).
Proof.
  intros Hw. pose proof (Inv_pulse tid w Hw) as Hp.
  pose proof (woken_queue c _ Hp) as Hq. cbn in Hq.
  assert (Hsh : COND_IS_SHARED (u32 (cw_state w + COND_COUNTER_STEP)) = COND_IS_SHARED F)
    by (rewrite (iv_state w Hw), word_step; by apply word_shared).
  unfold pthread_cond_pulse, process_shared, futex_wake.
  rewrite !alone_then. cbn [fst snd cw_state count_pulse set_state]. rewrite Hsh.
  cbn [cw_sleepers cw_kernel count_pulse set_state].
  destruct (futex_choose c _ _) as [l kk].
  cbn in Hq |- *.
  eexists. split; [done|]. cbn. split_and!; [by rewrite (iv_state w Hw), word_step|done|apply Hq|done].
Qed.

End system.

(** ** Counter, attributes and times *)

Section values.
  Context {K : Type} `{FutexLaws K}.

(** The word after [n] pulses by a thread. *)
Fixpoint pulses (tid : nat) (c : Z) (n : nat) (w : cond_world K) : cond_world K :=
  match n with
  | O => w
  | S n =>
      match alone (pthread_cond_pulse tid c) (pulses tid c n w) with
      | Some (_, w') => w'
      | None => w
      end
  end.

Lemma pulse_state tid c w :
  ∃ w', alone (pthread_cond_pulse tid c) w = Some (0, w') ∧
    cw_state w' = u32 (cw_state w + COND_COUNTER_STEP).
Proof.
  unfold pthread_cond_pulse, process_shared, futex_wake. rewrite !alone_then.
  destruct (futex_choose c _ _) as [l kk]. by eexists.
Qed.

Lemma pulses_word tid c n w F :
  cw_state w = word F 0 → cw_state (pulses tid c n w) = word F (Z.of_nat n).
Proof.
  intros Hw. induction n as [|n IH]; [done|]. cbn [pulses].
  destruct (pulse_state tid c (pulses tid c n w)) as (w' & -> & ->).
  rewrite IH, word_step. f_equal. lia.
Qed.

(** The counter shows a thread that is about to sleep that there were pulses
    unless their number is a multiple of 2^30; the flags below it stay. *)
Theorem counter_laps tid c n w F :
  0 <= F < 4 → cw_state w = word F 0 →
  (cw_state (pulses tid c n w) = cw_state w ↔ (2 ^ 30 | Z.of_nat n)) ∧
  Z.land (cw_state (pulses tid c n w)) COND_FLAGS_MASK = Z.land (cw_state w) COND_FLAGS_MASK.
Proof.
  intros HF Hw. rewrite (pulses_word tid c n w F Hw), Hw. split.
  - rewrite word_same. by rewrite Z.sub_0_r.
  - by rewrite !word_flags.
Qed.

End values.

(** Attributes give back what they were first set to, and a condition variable
    takes both from them. *)
Lemma attributes_kept pshared clock :
  pshared = PTHREAD_PROCESS_PRIVATE ∨ pshared = PTHREAD_PROCESS_SHARED →
  clock = CLOCK_REALTIME ∨ clock = CLOCK_MONOTONIC →
  let a1 := pthread_condattr_setpshared pthread_condattr_init pshared in
  let a2 := pthread_condattr_setclock a1.2 clock in
  a1.1 = 0 ∧ a2.1 = 0 ∧
  pthread_condattr_getpshared a2.2 = pshared ∧ pthread_condattr_getclock a2.2 = clock ∧
  ∀ K (w : cond_world K),
    Z.b2z (COND_IS_SHARED (cw_state (pthread_cond_init (Some a2.2) w))) = pshared ∧
    COND_GET_CLOCK (cw_state (pthread_cond_init (Some a2.2) w)) = clock.
Proof. by intros [-> | ->] [-> | ->]. Qed.

Definition valid_time (t : timespec) : Prop := 0 <= tv_sec t < 2 ^ 31 ∧ 0 <= tv_nsec t < NS_PER_S.

Definition nanoseconds (t : timespec) : Z := tv_sec t * NS_PER_S + tv_nsec t.

(** The relative time of a wait is exactly what is left until the absolute one,
    a time the kernel takes; none is left just when the clock is past it. *)
Theorem relative_timeout_exact now abs_ts :
  valid_time now → valid_time abs_ts →
  let '(ok, ts) := timespec_from_absolute_timespec now abs_ts in
  (ok = true ↔ nanoseconds now <= nanoseconds abs_ts) ∧
  nanoseconds ts = nanoseconds abs_ts - nanoseconds now ∧
  (ok = true → timeout_valid ts = true ∧ valid_time ts).
Proof.
  intros [H1 H2] [H3 H4]. unfold timespec_from_absolute_timespec, nanoseconds, timeout_valid, valid_time, NS_PER_S in *.
  rewrite (s32_small (tv_sec abs_ts - tv_sec now)) by (unfold is_s32; lia).
  rewrite (s32_small (tv_nsec abs_ts - tv_nsec now)) by (unfold is_s32; lia).
  destruct (decide (tv_nsec abs_ts - tv_nsec now < 0)) as [Hn|Hn];
    [rewrite !(bool_decide_true (tv_nsec abs_ts - tv_nsec now < 0)) by done
    |rewrite !(bool_decide_false (tv_nsec abs_ts - tv_nsec now < 0)) by done]; cbn [tv_sec tv_nsec].
  - rewrite (s32_small (tv_nsec abs_ts - tv_nsec now + 1000000000)) by (unfold is_s32; lia).
    rewrite s32_small by (unfold is_s32; lia).
    rewrite (bool_decide_false (tv_nsec abs_ts - tv_nsec now + 1000000000 < 0)) by lia. cbn [orb].
    split_and!; [|lia|].
    + rewrite negb_true_iff, bool_decide_eq_false. lia.
    + rewrite negb_true_iff, bool_decide_eq_false. intros Hok.
      rewrite !bool_decide_true by lia. split; [done|lia].
  - rewrite ?(bool_decide_false (tv_nsec abs_ts - tv_nsec now < 0)) by lia. cbn [orb].
    split_and!; [|lia|].
    + rewrite negb_true_iff, bool_decide_eq_false. lia.
    + rewrite negb_true_iff, bool_decide_eq_false. intros Hok.
      rewrite !bool_decide_true by lia. split; [done|lia].
Qed.

Lemma milliseconds_exact ms :
  0 <= ms < 2 ^ 31 →
  timeout_valid (timespec_from_ms ms) = true ∧ nanoseconds (timespec_from_ms ms) = ms * 1000000.
Proof.
  intros Hms. unfold timeout_valid, nanoseconds, timespec_from_ms, NS_PER_S. cbn.
  rewrite Z.quot_div_nonneg, Z.rem_mod_nonneg by lia.
  pose proof (Z.mod_pos_bound ms 1000). pose proof (Z.div_mod ms 1000).
  pose proof (Z.div_pos ms 1000). rewrite s32_small by (unfold is_s32; lia).
  rewrite !bool_decide_true by lia. split; [done|lia].
Qed.

(** ** A kernel in software, and the theorems at concrete inputs *)

(** It wakes in the order of the queue, ends no wait for a time-out unless there
    is one, and its clocks stand still. *)
#[export] Instance soft_futex : Futex unit := {|
  futex_choose n q k := (take (Z.to_nat (Z.min n (Z.of_nat (length q)))) q, k);
  futex_reason t k := (match t with Some _ => - ETIMEDOUT | None => - EINTR end, k);
  clock_gettime _ k := (Timespec 100 500, k)
|}.

#[export] Instance soft_futex_laws : FutexLaws unit.
Proof.
  split.
  - intros n q k. cbn. split; [apply sublist_submseteq, sublist_take|]. rewrite length_take. lia.
  - intros [t|] k; cbn; [by right|by left].
Qed.

(** The thread [i] makes [n] steps. *)
Definition cond_steps (i n : nat) : list cond_event := repeat (CondStep i false) n.

(** One thread is asleep, another has read the word and not yet compared it, when
    a third sets the flag and broadcasts. *)
Definition shown_events : list cond_event :=
  [CondSpawn [Await 3 None]; CondSpawn [Await 3 (Some (Timespec 200 0))];
   CondSpawn [Announce INT_MAX]] ++
  cond_steps 0 8 ++ cond_steps 1 7 ++ cond_steps 2 6 ++ cond_steps 1 2.

Lemma wakeups_not_lost_witness :
  (cw_sleepers (po_state (cond_run (Pool [] (cond_start 0 tt)) (take 18 shown_events)))).*1 = [0%nat] ∧
  cw_sleepers (po_state (cond_run (Pool [] (cond_start 0 tt)) shown_events)) = [].
Proof.
  split; [vm_compute; reflexivity|].
  apply (wakeups_not_lost 0 ltac:(lia) 2 tt shown_events); [by_decide|by_decide|by_decide|by_decide|by_decide].
Defined.

Lemma counter_laps_witness :
  cw_state (pulses 0 1 3 (cond_start 1 tt)) ≠ cw_state (cond_start 1 tt) ∧
  COND_IS_SHARED (cw_state (pulses 0 1 3 (cond_start 1 tt))) = true.
Proof.
  destruct (counter_laps 0 1 3 (cond_start 1 tt) 1 ltac:(lia) eq_refl) as [Hl Hf]. split.
  - rewrite Hl. intros Hd%Z.divide_pos_le; lia.
  - unfold COND_IS_SHARED. apply bool_decide_eq_true.
    change COND_SHARED_MASK with (Z.land COND_FLAGS_MASK COND_SHARED_MASK).
    rewrite Z.land_assoc, Hf. by_decide.
Defined.

Lemma relative_timeout_exact_witness :
  (timespec_from_absolute_timespec (Timespec 100 900) (Timespec 102 100)).1 = true ∧
  nanoseconds (timespec_from_absolute_timespec (Timespec 100 900) (Timespec 102 100)).2 = 1999999200.
Proof.
  assert (H1 : valid_time (Timespec 100 900)) by (split; by_decide).
  assert (H2 : valid_time (Timespec 102 100)) by (split; by_decide).
  pose proof (relative_timeout_exact (Timespec 100 900) (Timespec 102 100) H1 H2) as Hr.
  destruct (timespec_from_absolute_timespec (Timespec 100 900) (Timespec 102 100)) as [ok ts].
  destruct Hr as (Ho & Hn & _). cbn [fst snd]. split; [apply Ho; by_decide|]. by rewrite Hn.
Defined.

(** ** What the code does not mean to do *)

(** Once an attribute is shared, or for the monotonic clock, it cannot be set
    back: the flags are only added. *)
Example attributes_not_reset :
  let a := (pthread_condattr_setpshared pthread_condattr_init PTHREAD_PROCESS_SHARED).2 in
  let b := (pthread_condattr_setclock a CLOCK_MONOTONIC).2 in
  pthread_condattr_getpshared (pthread_condattr_setpshared b PTHREAD_PROCESS_PRIVATE).2 =
    PTHREAD_PROCESS_SHARED ∧
  pthread_condattr_getclock (pthread_condattr_setclock b CLOCK_REALTIME).2 = CLOCK_MONOTONIC.
Proof. done. Qed.

(** A number of milliseconds that is no [int] makes a time the kernel refuses:
    the wait returns at once. *)
Example long_timeout_refused : timeout_valid (timespec_from_ms (s32 (2 ^ 31))) = false.
Proof. done. Qed.
