(* ===== verification/CameraParams.v ===== *)
(** * The classes CameraParameters and CameraParameters2 (src/libmocha/camera)

    A map of strings with a textual form, and the sizes, ranges and formats that
    are kept in it as text.  Strings are lists of characters; those that come
    from a C string end before the first null character.  The platform's
    KeyedVector is a map whose keys are in the order of strcmp. *)

From Stdlib Require Import Ascii String.
From stdpp Require Import gmap sorting.
From S2P Require Import Prelude CStrings Parcels.

#[global] Open Scope Z_scope.

Abbreviation params := (gmap chars chars).

(** ** The C library *)

(** The characters of a C string. *)
Fixpoint c_string (l : chars) : chars :=
  match l with c :: l => if decide (code c = 0) then [] else c :: c_string l | [] => [] end.

(** [strchr]: what lies before the first [c] and behind it. *)
Fixpoint strchr (c : ascii) (l : chars) : option (chars * chars) :=
  match l with
  | [] => None
  | d :: l =>
      if decide (d = c) then Some ([], l)
      else '(a, b) ← strchr c l; Some (d :: a, b)
  end.

Definition LONG_MAX : Z := 2 ^ 31 - 1.

(** [strtol] in base 10, or in the base of the prefix: the value and what
    follows; without a numeral 0 and the string. *)
Definition strtol (any_base : bool) (str : chars) : Z * chars :=
  let l := skip_spaces str in
  let '(neg, l) := match l with
                   | "-"%char :: l' => (true, l')
                   | "+"%char :: l' => (false, l')
                   | _ => (false, l)
                   end in
  let scanned :=
    if any_base then scan_number l
    else match l with
         | c :: _ => if digit_value c <? 10 then Some (scan_digits 10 0 l) else None
         | [] => None
         end in
  match scanned with
  | None => (0, str)
  | Some (v, rest) =>
      (Z.max (- LONG_MAX - 1) (Z.min LONG_MAX (if neg : bool then - v else v)), rest)
  end.

(** [%d] *)
Definition decimal_int (z : Z) : chars :=
  if decide (z < 0) then "-"%char :: to_chars (decimal (- z)) else to_chars (decimal z).

(** ** The map *)

Definition key_le (p q : chars * chars) : Prop := strcmp_le p.1 q.1 = true.

#[export] Instance key_le_dec p q : Decision (key_le p q).
Proof. unfold key_le. apply _. Defined.

(** [keyAt(i)] and [valueAt(i)] of all indices. *)
Definition items (m : params) : list (chars * chars) := merge_sort key_le (map_to_list m).

Definition EQUALS : ascii := "="%char.
Definition SEMICOLON : ascii := ";"%char.

(** The loop of [flatten] over the items. *)
Fixpoint flatten_items (l : list (chars * chars)) : chars :=
  match l with
  | [] => []
  | [(k, v)] => k ++ [EQUALS] ++ v
  | (k, v) :: l => k ++ [EQUALS] ++ v ++ [SEMICOLON] ++ flatten_items l
  end.

Definition flatten (m : params) : chars := flatten_items (items m).

(** The loop of [unflatten]; each turn takes a key off the text. *)
Fixpoint unflatten_loop (fuel : nat) (a : chars) (m : params) : params :=
  match fuel with
  | O => m
  | S fuel =>
      match strchr EQUALS a with
      | None => m
      | Some (k, a) =>
          match strchr SEMICOLON a with
          | None => <[k := a]> m
          | Some (v, a) => unflatten_loop fuel a (<[k := v]> m)
          end
      end
  end.

Definition unflatten (text : chars) : params :=
  let a := c_string text in unflatten_loop (S (length a)) a ∅.

Definition contains (c : ascii) (l : chars) : bool := bool_decide (c ∈ l).

Definition set_ (m : params) (key value : option chars) : params :=
  match key, value with
  | Some key, Some value =>
      let key := c_string key in
      let value := c_string value in
      if contains EQUALS key || contains SEMICOLON key then m
      else if contains EQUALS value || contains SEMICOLON value then m
      else <[key := value]> m
  | _, _ => m
  end.

(** A string from [sprintf] into a buffer of [size] bytes; it has to fit. *)
Definition sprintf (size : nat) (s : chars) : option chars :=
  if decide (length s < size)%nat then Some s else None.

Definition set_int (m : params) (key : chars) (value : Z) : params :=
  set_ m (Some key) (sprintf 16 (decimal_int value)).

Definition get (m : params) (key : chars) : option chars :=
  let v := default [] (m !! c_string key) in
  if decide (v = []) then None else Some v.

Definition getInt (m : params) (key : chars) : Z :=
  match get m key with None => -1 | Some v => (strtol true v).1 end.

Definition remove (m : params) (key : chars) : params := delete (c_string key) m.

Definition isEmpty (m : params) : bool := bool_decide (m = ∅).

(** ** Pairs and lists of sizes *)

(** [parse_pair]: the two integers and [*endptr]; [None] is -1. *)
Definition parse_pair (str : chars) (delim : ascii) : option (Z * Z * chars) :=
  let '(w, rest) := strtol false str in
  match rest with
  | c :: rest =>
      if decide (c = delim) then let '(h, rest) := strtol false rest in Some (w, h, rest) else None
  | [] => None
  end.

Fixpoint sizes_loop (fuel : nat) (str : chars) (sizes : list (Z * Z)) : list (Z * Z) :=
  match fuel with
  | O => sizes
  | S fuel =>
      match parse_pair str "x"%char with
      | None => sizes
      | Some (width, height, rest) =>
          match rest with
          | [] => sizes ++ [(width, height)]
          | c :: rest =>
              if decide (c = ","%char) then sizes_loop fuel rest (sizes ++ [(width, height)])
              else sizes
          end
      end
  end.

Definition parseSizesList (sizesStr : option chars) (sizes : list (Z * Z)) : list (Z * Z) :=
  match sizesStr with None => sizes | Some s => sizes_loop (S (length s)) s sizes end.

Definition KEY_PREVIEW_SIZE : chars := to_chars "preview-size".
Definition KEY_SUPPORTED_PREVIEW_SIZES : chars := to_chars "preview-size-values".
Definition KEY_PREVIEW_FORMAT : chars := to_chars "preview-format".
Definition KEY_SUPPORTED_PREVIEW_FORMATS : chars := to_chars "preview-format-values".
Definition KEY_PREVIEW_FRAME_RATE : chars := to_chars "preview-frame-rate".
Definition KEY_PREVIEW_FPS_RANGE : chars := to_chars "preview-fps-range".
Definition KEY_PICTURE_SIZE : chars := to_chars "picture-size".
Definition KEY_SUPPORTED_PICTURE_SIZES : chars := to_chars "picture-size-values".
Definition KEY_PICTURE_FORMAT : chars := to_chars "picture-format".
Definition KEY_VIDEO_SIZE : chars := to_chars "video-size".
Definition KEY_SUPPORTED_VIDEO_SIZES : chars := to_chars "video-size-values".
Definition KEY_PREFERRED_PREVIEW_SIZE_FOR_VIDEO : chars := to_chars "preferred-preview-size-for-video".

(** [%dx%d] *)
Definition size_text (width height : Z) : chars := decimal_int width ++ ["x"%char] ++ decimal_int height.

Definition setPreviewSize (m : params) (width height : Z) : params :=
  set_ m (Some KEY_PREVIEW_SIZE) (sprintf 32 (size_text width height)).

Definition getPreviewSize (m : params) : Z * Z :=
  match get m KEY_PREVIEW_SIZE with
  | None => (-1, -1)
  | Some p => from_option fst (-1, -1) (parse_pair p "x"%char)
  end.

Definition getPreferredPreviewSizeForVideo (m : params) : Z * Z :=
  match get m KEY_PREFERRED_PREVIEW_SIZE_FOR_VIDEO with
  | None => (-1, -1)
  | Some p => from_option fst (-1, -1) (parse_pair p "x"%char)
  end.

Definition getSupportedPreviewSizes (m : params) (sizes : list (Z * Z)) : list (Z * Z) :=
  parseSizesList (get m KEY_SUPPORTED_PREVIEW_SIZES) sizes.

Definition setVideoSize (m : params) (width height : Z) : params :=
  set_ m (Some KEY_VIDEO_SIZE) (sprintf 32 (size_text width height)).

Definition getVideoSize (m : params) : Z * Z :=
  match get m KEY_VIDEO_SIZE with
  | None => (-1, -1)
  | Some p => from_option fst (-1, -1) (parse_pair p "x"%char)
  end.

Definition getSupportedVideoSizes (m : params) (sizes : list (Z * Z)) : list (Z * Z) :=
  parseSizesList (get m KEY_SUPPORTED_VIDEO_SIZES) sizes.

Definition setPreviewFrameRate (m : params) (fps : Z) : params := set_int m KEY_PREVIEW_FRAME_RATE fps.
Definition getPreviewFrameRate (m : params) : Z := getInt m KEY_PREVIEW_FRAME_RATE.

Definition getPreviewFpsRange (m : params) : Z * Z :=
  match get m KEY_PREVIEW_FPS_RANGE with
  | None => (-1, -1)
  | Some p => from_option fst (-1, -1) (parse_pair p ","%char)
  end.

Definition setPreviewFormat (m : params) (format : option chars) : params :=
  set_ m (Some KEY_PREVIEW_FORMAT) format.
Definition getPreviewFormat (m : params) : option chars := get m KEY_PREVIEW_FORMAT.

Definition setPictureSize (m : params) (width height : Z) : params :=
  set_ m (Some KEY_PICTURE_SIZE) (sprintf 32 (size_text width height)).

Definition getPictureSize (m : params) : Z * Z :=
  match get m KEY_PICTURE_SIZE with
  | None => (-1, -1)
  | Some p => from_option fst (-1, -1) (parse_pair p "x"%char)
  end.

Definition getSupportedPictureSizes (m : params) (sizes : list (Z * Z)) : list (Z * Z) :=
  parseSizesList (get m KEY_SUPPORTED_PICTURE_SIZES) sizes.

Definition setPictureFormat (m : params) (format : option chars) : params :=
  set_ m (Some KEY_PICTURE_FORMAT) format.
Definition getPictureFormat (m : params) : option chars := get m KEY_PICTURE_FORMAT.

(** ** Preview formats *)

(** system/graphics.h *)
Class PixelFormats := {
  HAL_PIXEL_FORMAT_YCrCb_420_SP : Z;
  HAL_PIXEL_FORMAT_YCbCr_422_SP : Z;
  HAL_PIXEL_FORMAT_YCbCr_422_I : Z;
  PF_YV12 : Z;
  HAL_PIXEL_FORMAT_RGB_565 : Z;
  PF_RGBA_8888 : Z;
  HAL_PIXEL_FORMAT_RAW16 : Z
}.

Section formats.
  Context `{PixelFormats}.

Definition previewFormatToEnum (format : option chars) : Z :=
  match format with
  | None => HAL_PIXEL_FORMAT_YCrCb_420_SP
  | Some f =>
      if decide (f = to_chars "yuv422sp") then HAL_PIXEL_FORMAT_YCbCr_422_SP
      else if decide (f = to_chars "yuv420sp") then HAL_PIXEL_FORMAT_YCrCb_420_SP
      else if decide (f = to_chars "yuv422i-yuyv") then HAL_PIXEL_FORMAT_YCbCr_422_I
      else if decide (f = to_chars "yuv420p") then PF_YV12
      else if decide (f = to_chars "rgb565") then HAL_PIXEL_FORMAT_RGB_565
      else if decide (f = to_chars "rgba8888") then PF_RGBA_8888
      else if decide (f = to_chars "bayer-rggb") then HAL_PIXEL_FORMAT_RAW16
      else -1
  end.

(** The loop over the tokens of [strtok_r]. *)
Definition getSupportedPreviewFormats (m : params) (formats : list Z) : list Z :=
  match get m KEY_SUPPORTED_PREVIEW_FORMATS with
  | None => formats
  | Some s =>
      foldl (λ formats fmt,
               let actual := previewFormatToEnum (Some fmt) in
               if decide (actual ≠ -1) then formats ++ [actual] else formats) formats (tokens [] s)
  end.

End formats.

(** ** What is kept and read back *)

Lemma c_string_id l : (∀ c, c ∈ l → code c ≠ 0) → c_string l = l.
Proof.
  induction l as [|c l IH]; intros Hl; [done|]. cbn.
  rewrite decide_False by (apply Hl; left). f_equal. apply IH. intros d Hd. apply Hl. by right.
Qed.

Lemma c_string_nonzero l c : c ∈ c_string l → code c ≠ 0 ∧ c ∈ l.
Proof.
  induction l as [|d l IH]; cbn; [by intros ?%elem_of_nil|].
  destruct (decide (code d = 0)) as [|Hd]; [by intros ?%elem_of_nil|].
  intros [->|Hc]%elem_of_cons; [split; [done|left]|]. destruct (IH Hc). split; [done|by right].
Qed.

Lemma strchr_some c l a b : strchr c l = Some (a, b) → l = a ++ c :: b ∧ c ∉ a.
Proof.
  revert a. induction l as [|d l IH]; intros a; cbn; [done|].
  destruct (decide (d = c)) as [->|Hd].
  - intros [= <- <-]. split; [done|]. apply not_elem_of_nil.
  - destruct (strchr c l) as [[a' b']|] eqn:Hs; [|done]. cbn. intros [= <- <-].
    destruct (IH a' eq_refl) as [-> Hn]. split; [done|]. apply not_elem_of_cons. by split.
Qed.

Lemma strchr_none c l : strchr c l = None ↔ c ∉ l.
Proof.
  induction l as [|d l IH]; cbn; [split; [intros _; apply not_elem_of_nil|done]|].
  destruct (decide (d = c)) as [->|Hd].
  - split; [done|]. intros Hn. destruct Hn. left.
  - rewrite not_elem_of_cons. destruct (strchr c l) as [[a b]|] eqn:Hs; cbn.
    + split; [done|]. intros [_ Hn]. by apply IH in Hn.
    + split; [|done]. intros _. split; [congruence|by apply IH].
Qed.

Lemma strchr_at c a b : c ∉ a → strchr c (a ++ c :: b) = Some (a, b).
Proof.
  induction a as [|d a IH]; cbn; [by rewrite decide_True|].
  rewrite not_elem_of_cons. intros [Hd Ha]. rewrite decide_False by congruence. by rewrite IH.
Qed.

(** An item that the text gives back. *)
Definition item_ok (p : chars * chars) : Prop :=
  EQUALS ∉ p.1 ∧ SEMICOLON ∉ p.2 ∧ ∀ c, c ∈ p.1 ++ p.2 → code c ≠ 0.

Definition params_ok (m : params) : Prop := map_Forall (λ k v, item_ok (k, v)) m.

Lemma flatten_items_nonzero l c : Forall item_ok l → c ∈ flatten_items l → code c ≠ 0.
Proof.
  induction 1 as [|[k v] l (Hk & Hv & Hz) Hl IH]; cbn; [by intros ?%elem_of_nil|].
  cbn in Hz. destruct l as [|p l].
  - rewrite elem_of_app, elem_of_cons. intros [Hc|[->|Hc]]; [apply Hz, elem_of_app; by left|done|].
    apply Hz, elem_of_app. by right.
  - rewrite elem_of_app, elem_of_cons, elem_of_app, elem_of_cons.
    intros [Hc|[->|[Hc|[->|Hc]]]]; [apply Hz, elem_of_app; by left|done|apply Hz, elem_of_app; by right|done|].
    by apply IH.
Qed.

Lemma unflatten_items (fuel : nat) (l : list (chars * chars)) (m : params) :
  Forall item_ok l → (length l < fuel)%nat →
  unflatten_loop fuel (flatten_items l) m = foldl (λ (m : params) p, <[p.1 := p.2]> m) m l.
Proof.
  intros Hl. revert fuel m. induction Hl as [|[k v] l (Hk & Hv & _) Hl IH]; intros [|fuel] m Hf;
    cbn [length] in Hf; try lia; [done|]. cbn [unflatten_loop flatten_items]. cbn [fst snd] in Hk, Hv.
  destruct l as [|p l].
  - cbn [app]. rewrite (strchr_at EQUALS k v Hk). by rewrite (proj2 (strchr_none SEMICOLON v) Hv).
  - cbn [app]. rewrite (strchr_at EQUALS k _ Hk), (strchr_at SEMICOLON v _ Hv). rewrite IH; [done|cbn [length] in *; lia].
Qed.

Lemma foldl_insert_map (l : list (chars * chars)) (m : params) :
  NoDup l.*1 → foldl (λ (m : params) p, <[p.1 := p.2]> m) m l = (list_to_map l : params) ∪ m.
Proof.
  revert m. induction l as [|[k v] l IH]; intros m Hnd; cbn; [by rewrite (left_id_L ∅ (∪))|].
  apply NoDup_cons in Hnd as [Hk Hnd]. rewrite IH by done.
  rewrite <- insert_union_r by by apply not_elem_of_list_to_map. by rewrite insert_union_l.
Qed.

Lemma items_perm m : items m ≡ₚ map_to_list m.
Proof. apply merge_sort_Permutation. Qed.

Lemma length_flatten_items (l : list (chars * chars)) : (length l ≤ length (flatten_items l))%nat.
Proof.
  induction l as [|[k v] l IH]; [done|]. destruct l as [|p l].
  - cbn. rewrite length_app. cbn. lia.
  - change (flatten_items ((k, v) :: p :: l))
      with (k ++ [EQUALS] ++ v ++ [SEMICOLON] ++ flatten_items (p :: l)).
    rewrite !length_app. cbn [length] in *. lia.
Qed.

Lemma flatten_unflatten_map m : params_ok m → unflatten (flatten m) = m.
Proof.
  intros Hm.
  assert (Hl : Forall item_ok (items m)).
  { rewrite items_perm. apply map_Forall_to_list in Hm. eapply Forall_impl; [exact Hm|]. by intros []. }
  unfold unflatten, flatten. rewrite c_string_id by (intros c; by apply flatten_items_nonzero).
  rewrite unflatten_items by (done || pose proof (length_flatten_items (items m)); lia).
  assert (Hnd : NoDup (items m).*1) by (rewrite items_perm; apply NoDup_fst_map_to_list).
  rewrite foldl_insert_map by done. rewrite (right_id_L ∅ (∪)).
  rewrite (list_to_map_proper (items m) (map_to_list m)) by (done || apply items_perm).
  apply list_to_map_to_list.
Qed.

(** ** Every object is read back *)

Lemma params_ok_insert k v m : item_ok (k, v) → params_ok m → params_ok (<[k := v]> m).
Proof. intros Hkv Hm. by apply map_Forall_insert_2. Qed.

Lemma unflatten_loop_ok fuel a m :
  (∀ c, c ∈ a → code c ≠ 0) → params_ok m → params_ok (unflatten_loop fuel a m).
Proof.
  revert a m. induction fuel as [|fuel IH]; intros a m Ha Hm; cbn; [done|].
  destruct (strchr EQUALS a) as [[k b]|] eqn:Hk; [|done].
  apply strchr_some in Hk as [-> Hk].
  destruct (strchr SEMICOLON b) as [[v c]|] eqn:Hv.
  - apply strchr_some in Hv as [-> Hv]. apply IH; [intros d Hd; apply Ha; set_solver|].
    apply params_ok_insert; [|done]. split_and!; [done|done|]. intros d Hd. apply Ha. cbn in Hd. set_solver.
  - apply strchr_none in Hv. apply params_ok_insert; [|done]. split_and!; [done|done|].
    intros d Hd. apply Ha. cbn in Hd. set_solver.
Qed.

Lemma unflatten_ok text : params_ok (unflatten text).
Proof.
  apply unflatten_loop_ok; [|apply map_Forall_empty]. intros c Hc. by apply c_string_nonzero in Hc as [? _].
Qed.

Lemma set_ok m key value : params_ok m → params_ok (set_ m key value).
Proof.
  intros Hm. unfold set_. destruct key as [k|]; [|done]. destruct value as [v|]; [|done].
  destruct (_ || _) eqn:H1; [done|]. destruct (contains EQUALS (c_string v) || _) eqn:H2; [done|].
  apply orb_false_iff in H1 as [H1%bool_decide_eq_false _].
  apply orb_false_iff in H2 as [_ H2%bool_decide_eq_false].
  apply params_ok_insert; [|done]. split_and!; [done|done|].
  intros c [Hc|Hc]%elem_of_app; by apply c_string_nonzero in Hc as [? _].
Qed.

(** The calls that change an object; every setter calls [set]. *)
Inductive params_op :=
  | OpUnflatten (text : chars)
  | OpSet (key value : option chars)
  | OpSetInt (key : chars) (value : Z)
  | OpPreviewSize (width height : Z)
  | OpVideoSize (width height : Z)
  | OpPictureSize (width height : Z)
  | OpRemove (key : chars).

Definition params_step (m : params) (op : params_op) : params :=
  match op with
  | OpUnflatten text => unflatten text
  | OpSet key value => set_ m key value
  | OpSetInt key value => set_int m key value
  | OpPreviewSize width height => setPreviewSize m width height
  | OpVideoSize width height => setVideoSize m width height
  | OpPictureSize width height => setPictureSize m width height
  | OpRemove key => remove m key
  end.

Lemma params_step_ok m op : params_ok m → params_ok (params_step m op).
Proof.
  intros Hm. destruct op; cbn [params_step]; [apply unflatten_ok|by apply (set_ok m)..|by apply map_Forall_delete].
Qed.

Lemma params_run_ok m ops : params_ok m → params_ok (foldl params_step m ops).
Proof. revert m. induction ops as [|op ops IH]; intros m Hm; cbn; [done|]. by apply IH, params_step_ok. Qed.

(** C37: An object that any calls have made, texts from elsewhere included, is the
    one that its own text is read back as. *)
Theorem flatten_unflatten ops :
  unflatten (flatten (foldl params_step ∅ ops)) = foldl params_step ∅ ops.
Proof. apply flatten_unflatten_map, params_run_ok, map_Forall_empty. Qed.

(** ** Sizes are read back *)

Lemma dec_go_app fuel n acc rest : dec_go fuel n acc ++ rest = dec_go fuel n (acc ++ rest).
Proof.
  revert n acc. induction fuel as [|fuel IH]; intros n acc; cbn; [done|].
  destruct (n <? 10); [done|]. by rewrite IH.
Qed.

Lemma dec_go_length fuel n acc k :
  0 <= n < 10 ^ Z.of_nat (S k) → (length (dec_go fuel n acc) ≤ S k + length acc)%nat.
Proof.
  revert n acc k. induction fuel as [|fuel IH]; intros n acc k Hn; cbn [dec_go]; [lia|].
  destruct (Z.ltb_spec n 10); [cbn; lia|].
  destruct k as [|k]; [change (10 ^ Z.of_nat 1) with 10 in Hn; lia|].
  etrans; [apply (IH _ _ k)|cbn [length]; lia].
  split; [apply Z.div_pos; lia|]. apply Z.div_lt_upper_bound; [lia|].
  rewrite <- Z.pow_succ_r by lia. replace (Z.succ (Z.of_nat (S k))) with (Z.of_nat (S (S k))) by lia. lia.
Qed.

(** A character of a number. *)
Definition numeric (c : ascii) : Prop := c = "-"%char ∨ ∃ d, 0 <= d <= 9 ∧ c = dec_digit d.

Lemma dec_go_numeric fuel n acc :
  0 <= n → Forall numeric acc → Forall numeric (dec_go fuel n acc).
Proof.
  revert n acc. induction fuel as [|fuel IH]; intros n acc Hn Ha; cbn [dec_go]; [done|].
  destruct (Z.ltb_spec n 10); [constructor; [right; exists n; split; [lia|done]|done]|].
  apply IH; [apply Z.div_pos; lia|]. constructor; [|done].
  pose proof (Z.mod_pos_bound n 10). right. exists (n mod 10). split; [lia|done].
Qed.

(** What a property of the characters of a number has to be tried on. *)
Lemma numeric_cases (P : ascii → Prop) c :
  P "-"%char → Forall (λ d, P (dec_digit d)) (seqZ 0 10) → numeric c → P c.
Proof.
  intros Hm Hd [->|(d & Hr & ->)]; [done|]. rewrite Forall_forall in Hd. apply Hd, elem_of_seqZ. lia.
Qed.

Lemma decimal_chars n : to_chars (decimal n) = dec_go (S (Z.to_nat (Z.log2 n))) n [].
Proof. apply list_ascii_of_string_of_list_ascii. Qed.

Lemma decimal_int_numeric z : Forall numeric (decimal_int z).
Proof.
  unfold decimal_int. case_decide; rewrite decimal_chars.
  - constructor; [by left|]. apply dec_go_numeric; [lia|constructor].
  - apply dec_go_numeric; [lia|constructor].
Qed.

Lemma decimal_int_length z : is_s32 z → (length (decimal_int z) ≤ 11)%nat.
Proof.
  intros Hz. unfold is_s32 in Hz. unfold decimal_int. case_decide; rewrite decimal_chars.
  - cbn [length]. pose proof (dec_go_length (S (Z.to_nat (Z.log2 (- z)))) (- z) [] 9). cbn [length] in *. lia.
  - pose proof (dec_go_length (S (Z.to_nat (Z.log2 z))) z [] 9). cbn [length] in *. lia.
Qed.

(** Behind a number. *)
Definition ends_number (rest : chars) : Prop :=
  match rest with c :: _ => 10 <= digit_value c | [] => True end.

Lemma scan_ends n rest : ends_number rest → scan_digits 10 n rest = (n, rest).
Proof. destruct rest as [|c rest]; cbn; [done|]. intros Hc. by rewrite (proj2 (Z.ltb_ge _ _) Hc). Qed.

Lemma scan_decimal n rest :
  0 <= n → ends_number rest →
  scan_digits 10 0 (to_chars (decimal n) ++ rest) = (n, rest).
Proof.
  intros Hn Hr. rewrite decimal_chars, dec_go_app. rewrite scan_dec_go by lia. by apply scan_ends.
Qed.

Lemma decimal_head n rest :
  0 <= n → ∃ d l, 0 <= d <= 9 ∧ to_chars (decimal n) ++ rest = dec_digit d :: l.
Proof.
  intros Hn. rewrite decimal_chars. destruct (decide (n = 0)) as [->|Hne]; [by exists 0, rest|].
  destruct (dec_go_head (S (Z.to_nat (Z.log2 n))) n []) as (d & l & Hd & ->); [lia..|].
  exists d, (l ++ rest). split; [lia|done].
Qed.

(** A digit is no white space and no sign. *)
Lemma digit_first d l :
  0 <= d <= 9 →
  skip_spaces (dec_digit d :: l) = dec_digit d :: l
  ∧ match dec_digit d :: l with
    | "-"%char :: l' => (true, l')
    | "+"%char :: l' => (false, l')
    | _ => (false, dec_digit d :: l)
    end = (false, dec_digit d :: l)
  ∧ digit_value (dec_digit d) <? 10 = true.
Proof.
  intros Hd. assert (Hs : d ∈ seqZ 0 10) by (apply elem_of_seqZ; lia). revert d Hs Hd.
  enough (HF : Forall (λ d, ∀ l, skip_spaces (dec_digit d :: l) = dec_digit d :: l
    ∧ match dec_digit d :: l with
      | "-"%char :: l' => (true, l')
      | "+"%char :: l' => (false, l')
      | _ => (false, dec_digit d :: l)
      end = (false, dec_digit d :: l)
    ∧ digit_value (dec_digit d) <? 10 = true) (seqZ 0 10)).
  { intros d Hs _. rewrite Forall_forall in HF. by apply HF. }
  cbn. repeat constructor.
Qed.

Lemma strtol_decimal z rest :
  is_s32 z → ends_number rest → strtol false (decimal_int z ++ rest) = (z, rest).
Proof.
  intros Hz Hr. unfold is_s32 in Hz. unfold decimal_int. case_decide as Hneg.
  - destruct (decimal_head (- z) rest) as (d & l & Hd & Heq); [lia|].
    pose proof (scan_decimal (- z) rest) as Hs. cbn [app]. rewrite Heq in Hs |- *.
    unfold strtol. cbn [skip_spaces isspace]. change (isspace "-"%char) with false. cbn match.
    rewrite (proj2 (proj2 (digit_first d l Hd))). rewrite Hs by (done || lia).
    f_equal. unfold LONG_MAX. lia.
  - destruct (decimal_head z rest) as (d & l & Hd & Heq); [lia|].
    pose proof (scan_decimal z rest) as Hs. rewrite Heq in Hs |- *.
    destruct (digit_first d l Hd) as (H1 & H2 & H3). unfold strtol.
    rewrite H1, H2, H3, Hs by (done || lia). f_equal. unfold LONG_MAX. lia.
Qed.

Lemma parse_pair_text w h delim rest :
  is_s32 w → is_s32 h → 10 <= digit_value delim → ends_number rest →
  parse_pair (decimal_int w ++ [delim] ++ decimal_int h ++ rest) delim = Some (w, h, rest).
Proof.
  intros Hw Hh Hd Hr. unfold parse_pair. rewrite strtol_decimal by done. cbn [app].
  rewrite decide_True by done. by rewrite strtol_decimal.
Qed.

Lemma parse_size_text w h rest :
  is_s32 w → is_s32 h → ends_number rest →
  parse_pair (size_text w h ++ rest) "x"%char = Some (w, h, rest).
Proof.
  intros Hw Hh Hr. unfold size_text. rewrite <- !(assoc_L (++)). by apply parse_pair_text.
Qed.

(** A text that [set] takes as it is. *)
Definition plain_char (c : ascii) : Prop := code c ≠ 0 ∧ c ≠ EQUALS ∧ c ≠ SEMICOLON.
Definition plain (l : chars) : Prop := Forall plain_char l.

#[export] Instance plain_char_dec c : Decision (plain_char c).
Proof. unfold plain_char. apply _. Defined.

Lemma contains_plain l : plain l → contains EQUALS l || contains SEMICOLON l = false.
Proof.
  intros Hl. unfold plain in Hl. rewrite Forall_forall in Hl.
  apply orb_false_iff. split; apply bool_decide_eq_false; intros Hin; by destruct (Hl _ Hin) as (_ & ? & ?).
Qed.

Lemma c_string_plain l : plain l → c_string l = l.
Proof.
  intros Hl. unfold plain in Hl. rewrite Forall_forall in Hl.
  apply c_string_id. intros c Hc. by destruct (Hl c Hc).
Qed.

Lemma set_plain m k v : plain k → plain v → set_ m (Some k) (Some v) = <[k := v]> m.
Proof.
  intros Hk Hv. unfold set_. rewrite !c_string_plain by done. by rewrite !contains_plain.
Qed.

Lemma get_set m k v : plain k → plain v → v ≠ [] → get (set_ m (Some k) (Some v)) k = Some v.
Proof.
  intros Hk Hv Hne. rewrite set_plain by done. unfold get. rewrite c_string_plain by done.
  rewrite lookup_insert_eq. cbn. by rewrite decide_False.
Qed.

Lemma get_set_other m k v k' : plain k → plain k' → k' ≠ k → get (set_ m (Some k) v) k' = get m k'.
Proof.
  intros Hk Hk' Hne. unfold set_. destruct v as [v|]; [|done].
  destruct (_ || _); [done|]. destruct (contains EQUALS (c_string v) || _); [done|].
  unfold get. rewrite !c_string_plain by done. by rewrite lookup_insert_ne.
Qed.

Lemma numeric_plain c : numeric c → plain_char c.
Proof.
  apply numeric_cases; [by vm_compute|].
  apply (bool_decide_unpack (Forall (λ d, plain_char (dec_digit d)) (seqZ 0 10))). by vm_compute.
Qed.

Lemma decimal_int_plain z : plain (decimal_int z).
Proof. eapply Forall_impl; [apply decimal_int_numeric|]. intros c. apply numeric_plain. Qed.

Lemma size_text_plain w h : plain (size_text w h).
Proof.
  apply Forall_app. split; [apply decimal_int_plain|]. constructor; [by vm_compute|apply decimal_int_plain].
Qed.

Lemma size_text_nonempty w h : size_text w h ≠ [].
Proof. unfold size_text. by destruct (decimal_int w). Qed.

Lemma size_text_fits w h : is_s32 w → is_s32 h → sprintf 32 (size_text w h) = Some (size_text w h).
Proof.
  intros Hw Hh. unfold sprintf. apply decide_True. unfold size_text. rewrite !length_app.
  pose proof (decimal_int_length w Hw). pose proof (decimal_int_length h Hh). cbn [length]. lia.
Qed.

Lemma size_set_get m key w h :
  plain key → is_s32 w → is_s32 h →
  match get (set_ m (Some key) (sprintf 32 (size_text w h))) key with
  | None => (-1, -1)
  | Some p => from_option fst (-1, -1) (parse_pair p "x"%char)
  end = (w, h).
Proof.
  intros Hk Hw Hh. rewrite size_text_fits by done.
  rewrite get_set by (done || apply size_text_plain || apply size_text_nonempty).
  rewrite <- (app_nil_r (size_text w h)). by rewrite parse_size_text.
Qed.

Lemma keys_plain :
  Forall plain [KEY_PREVIEW_SIZE; KEY_VIDEO_SIZE; KEY_PICTURE_SIZE; KEY_SUPPORTED_PREVIEW_SIZES;
                KEY_SUPPORTED_VIDEO_SIZES; KEY_SUPPORTED_PICTURE_SIZES].
Proof.
  apply (bool_decide_unpack (Forall (Forall plain_char) [KEY_PREVIEW_SIZE; KEY_VIDEO_SIZE; KEY_PICTURE_SIZE;
    KEY_SUPPORTED_PREVIEW_SIZES; KEY_SUPPORTED_VIDEO_SIZES; KEY_SUPPORTED_PICTURE_SIZES])). by vm_compute.
Qed.

(** The text of a list of sizes. *)
Fixpoint sizes_text (l : list (Z * Z)) : chars :=
  match l with
  | [] => []
  | [(w, h)] => size_text w h
  | (w, h) :: l => size_text w h ++ [","%char] ++ sizes_text l
  end.

(** Both sides of a size are integers of 32 bits. *)
Definition size_ok (p : Z * Z) : Prop := is_s32 p.1 ∧ is_s32 p.2.

Lemma sizes_loop_text fuel l acc :
  l ≠ [] → Forall size_ok l → (length l < fuel)%nat → sizes_loop fuel (sizes_text l) acc = acc ++ l.
Proof.
  intros Hne Hl. revert fuel acc Hne. induction Hl as [|[w h] l [Hw Hh] Hl IH]; intros [|fuel] acc Hne Hf;
    cbn [length] in Hf; try (done || lia). cbn [fst snd] in Hw, Hh. cbn [sizes_loop].
  destruct l as [|p l].
  - cbn [sizes_text]. rewrite <- (app_nil_r (size_text w h)). by rewrite parse_size_text.
  - change (sizes_text ((w, h) :: p :: l)) with (size_text w h ++ [","%char] ++ sizes_text (p :: l)).
    rewrite parse_size_text by done. cbn [app]. rewrite decide_True by done.
    rewrite IH by (done || cbn [length] in *; lia). by rewrite <- (assoc_L (++)).
Qed.

Lemma length_sizes_text l : (length l ≤ length (sizes_text l))%nat.
Proof.
  induction l as [|[w h] l IH]; [done|].
  destruct l as [|p l].
  - cbn [length sizes_text]. pose proof (size_text_nonempty w h). destruct (size_text w h); [done|cbn; lia].
  - change (sizes_text ((w, h) :: p :: l)) with (size_text w h ++ [","%char] ++ sizes_text (p :: l)).
    rewrite !length_app. cbn [length] in *. lia.
Qed.

Lemma sizes_text_plain l : plain (sizes_text l).
Proof.
  induction l as [|[w h] l IH]; [constructor|]. destruct l as [|p l]; [apply size_text_plain|].
  change (sizes_text ((w, h) :: p :: l)) with (size_text w h ++ [","%char] ++ sizes_text (p :: l)).
  apply Forall_app. split; [apply size_text_plain|]. constructor; [by vm_compute|done].
Qed.

Lemma sizes_set_get m key l acc :
  plain key → l ≠ [] → Forall size_ok l →
  parseSizesList (get (set_ m (Some key) (Some (sizes_text l))) key) acc = acc ++ l.
Proof.
  intros Hk Hne Hl. pose proof (length_sizes_text l) as Hlen. assert (sizes_text l ≠ []).
  { destruct l; [done|]. intros Heq. rewrite Heq in Hlen. cbn in Hlen. lia. }
  rewrite get_set by (done || apply sizes_text_plain). cbn [parseSizesList]. apply sizes_loop_text; (done || lia).
Qed.

(** The sizes that are set are the sizes that are read, with every integer, and
    the buffers hold their text; a list of sizes is read whole, behind the
    sizes already collected, and setting one size changes no other. *)
Theorem sizes_read_back m w h l acc :
  size_ok (w, h) → Forall size_ok l → l ≠ [] →
  getPreviewSize (setPreviewSize m w h) = (w, h)
  ∧ getVideoSize (setVideoSize m w h) = (w, h)
  ∧ getPictureSize (setPictureSize m w h) = (w, h)
  ∧ getSupportedPreviewSizes (set_ m (Some KEY_SUPPORTED_PREVIEW_SIZES) (Some (sizes_text l))) acc = acc ++ l
  ∧ getSupportedVideoSizes (set_ m (Some KEY_SUPPORTED_VIDEO_SIZES) (Some (sizes_text l))) acc = acc ++ l
  ∧ getSupportedPictureSizes (set_ m (Some KEY_SUPPORTED_PICTURE_SIZES) (Some (sizes_text l))) acc = acc ++ l
  ∧ getPreviewSize (setPictureSize m w h) = getPreviewSize m
  ∧ getVideoSize (setPreviewSize m w h) = getVideoSize m
  ∧ getPictureSize (setVideoSize m w h) = getPictureSize m.
Proof.
  intros [Hw Hh] Hl Hne. pose proof keys_plain as Hk. rewrite !Forall_cons in Hk. destruct_and! Hk.
  split_and!; [by apply size_set_get|by apply size_set_get|by apply size_set_get
    |by apply sizes_set_get|by apply sizes_set_get|by apply sizes_set_get| | |];
    unfold getPreviewSize, getVideoSize, getPictureSize, setPreviewSize, setVideoSize, setPictureSize;
    by rewrite get_set_other.
Qed.

Lemma sizes_read_back_witness :
  size_ok (1920, -7) ∧ Forall size_ok [(640, 480); (- 2 ^ 31, 2 ^ 31 - 1)]
  ∧ getPreviewSize (setPreviewSize ∅ 1920 (-7)) = (1920, -7).
Proof.
  assert (H1 : size_ok (1920, -7)) by (split; done).
  assert (H2 : Forall size_ok [(640, 480); (- 2 ^ 31, 2 ^ 31 - 1)]) by (repeat constructor; done).
  split_and!; [done|done|].
  exact (proj1 (sizes_read_back ∅ 1920 (-7) [(640, 480); (- 2 ^ 31, 2 ^ 31 - 1)] [] H1 H2 ltac:(done))).
Defined.

(** What follows the first size that is not one is left, and so is a size with
    text behind it. *)
Example sizes_cut :
  parseSizesList (Some (to_chars "640x480,320x240,oops,1x1")) [] = [(640, 480); (320, 240)]
  ∧ parseSizesList (Some (to_chars "640x480,320x240 ")) [] = [(640, 480)].
Proof. split; by vm_compute. Qed.

(** [getInt] reads the prefix of another base, which [parse_pair] does not. *)
Example bases :
  getInt (set_ ∅ (Some (to_chars "k")) (Some (to_chars "010"))) (to_chars "k") = 8
  ∧ parse_pair (to_chars "010x011") "x"%char = Some (10, 11, []).
Proof. split; by vm_compute. Qed.

(** ** The class CameraParameters2 (src/libmocha/camera/CameraParameters2.cpp)

    The same interface over a list of pairs that keeps the order in which keys
    were set.  A call that dereferences a null pointer, writes over its buffer
    or ends the process has no result. *)

Abbreviation params2 := (list (chars * chars)).

(** utils/Vector.h: what [removeAt] returns and leaves. *)
Class Vectors := removeAt : ∀ {A : Type}, Z → list A → Z * list A.

(** It takes an item out, and leaves a vector that is shorter as it is. *)
Class VectorLaws `{Vectors} : Prop := {
  removeAt_in {A : Type} (l : list A) (i : nat) : (i < length l)%nat → (removeAt (Z.of_nat i) l).2 = delete i l;
  removeAt_beyond {A : Type} (l : list A) (i : Z) : Z.of_nat (length l) <= i → (removeAt i l).2 = l
}.

(** [(size_t) z] *)
Definition size_t (z : Z) : Z := z mod 2 ^ 32.

Section parameters2.
  Context `{Vectors}.

Definition add2 (m : params2) (key value : chars) : Z * params2 := (Z.of_nat (length m), m ++ [(key, value)]).

Fixpoint index_loop (key : chars) (m : params2) (vectorIdx : Z) : Z :=
  match m with
  | [] => NAME_NOT_FOUND
  | (k, _) :: m => if decide (k = key) then vectorIdx else index_loop key m (vectorIdx + 1)
  end.

Definition indexOfKey (m : params2) (key : chars) : Z := index_loop key m 0.

Definition removeItem (m : params2) (key : chars) : Z * params2 :=
  let vectorIdx := size_t (indexOfKey m key) in
  if vectorIdx <? 0 then (vectorIdx, m) else removeAt vectorIdx m.

Definition replaceValueFor (m : params2) (key value : chars) : Z * params2 :=
  let m := (removeItem m key).2 in add2 m key value.

Definition flatten2 (m : params2) : chars := flatten_items m.

Fixpoint unflatten2_loop (fuel : nat) (a : chars) (m : params2) : params2 :=
  match fuel with
  | O => m
  | S fuel =>
      match strchr EQUALS a with
      | None => m
      | Some (k, a) =>
          match strchr SEMICOLON a with
          | None => (add2 m k a).2
          | Some (v, a) => unflatten2_loop fuel a (add2 m k v).2
          end
      end
  end.

Definition unflatten2 (params : chars) : params2 :=
  let a := c_string params in unflatten2_loop (S (length a)) a [].

Definition set2 (m : params2) (key value : option chars) : option params2 :=
  key ← key;
  let key := c_string key in
  if contains EQUALS key || contains SEMICOLON key then Some m
  else
    value ← value;
    let value := c_string value in
    if contains EQUALS value || contains SEMICOLON value then Some m
    else let '(res, m) := replaceValueFor m key value in if res <? 0 then None else Some m.

Definition set_int2 (m : params2) (key : option chars) (value : Z) : option params2 :=
  str ← sprintf 16 (decimal_int value); set2 m key (Some str).

Definition get2 (m : params2) (key : chars) : option chars :=
  let idx := indexOfKey m (c_string key) in
  if idx <? 0 then None else snd <$> m !! Z.to_nat idx.

Definition getInt2 (m : params2) (key : chars) : Z :=
  match get2 m key with None => -1 | Some v => (strtol true v).1 end.

(** The status, and what is stored in [*order]; [order] tells whether there is
    a place for it. *)
Definition compareSetOrder (m : params2) (key1 key2 : option chars) (order : bool) : Z * option Z :=
  match key1 with
  | None => (BAD_VALUE, None)
  | Some key1 =>
      match key2 with
      | None => (BAD_VALUE, None)
      | Some key2 =>
          if negb order then (BAD_VALUE, None)
          else
            let index1 := indexOfKey m (c_string key1) in
            let index2 := indexOfKey m (c_string key2) in
            if index1 <? 0 then (NAME_NOT_FOUND, None)
            else if index2 <? 0 then (NAME_NOT_FOUND, None)
            else (OK, Some (if index1 =? index2 then 0 else if index1 <? index2 then -1 else 1))
      end
  end.

Definition remove2 (m : params2) (key : chars) : params2 := (removeItem m (c_string key)).2.

(** A pair of integers that is kept under a key, or -1 twice. *)
Definition get_pair2 (m : params2) (key : chars) (delim : ascii) : Z * Z :=
  match get2 m key with
  | None => (-1, -1)
  | Some p => from_option fst (-1, -1) (parse_pair p delim)
  end.

Definition setPreviewSize2 (m : params2) (width height : Z) : option params2 :=
  str ← sprintf 32 (size_text width height); set2 m (Some KEY_PREVIEW_SIZE) (Some str).
Definition getPreviewSize2 (m : params2) : Z * Z := get_pair2 m KEY_PREVIEW_SIZE "x"%char.

Definition getPreferredPreviewSizeForVideo2 (m : params2) : Z * Z :=
  get_pair2 m KEY_PREFERRED_PREVIEW_SIZE_FOR_VIDEO "x"%char.

Definition getSupportedPreviewSizes2 (m : params2) (sizes : list (Z * Z)) : list (Z * Z) :=
  parseSizesList (get2 m KEY_SUPPORTED_PREVIEW_SIZES) sizes.

Definition setVideoSize2 (m : params2) (width height : Z) : option params2 :=
  str ← sprintf 32 (size_text width height); set2 m (Some KEY_VIDEO_SIZE) (Some str).
Definition getVideoSize2 (m : params2) : Z * Z := get_pair2 m KEY_VIDEO_SIZE "x"%char.

Definition getSupportedVideoSizes2 (m : params2) (sizes : list (Z * Z)) : list (Z * Z) :=
  parseSizesList (get2 m KEY_SUPPORTED_VIDEO_SIZES) sizes.

Definition setPreviewFrameRate2 (m : params2) (fps : Z) : option params2 :=
  set_int2 m (Some KEY_PREVIEW_FRAME_RATE) fps.
Definition getPreviewFrameRate2 (m : params2) : Z := getInt2 m KEY_PREVIEW_FRAME_RATE.

Definition getPreviewFpsRange2 (m : params2) : Z * Z := get_pair2 m KEY_PREVIEW_FPS_RANGE ","%char.

(** [String8::format] has a buffer of the size it needs. *)
Definition setPreviewFpsRange2 (m : params2) (min_fps max_fps : Z) : option params2 :=
  set2 m (Some KEY_PREVIEW_FPS_RANGE) (Some (decimal_int min_fps ++ [","%char] ++ decimal_int max_fps)).

Definition setPreviewFormat2 (m : params2) (format : option chars) : option params2 :=
  set2 m (Some KEY_PREVIEW_FORMAT) format.
Definition getPreviewFormat2 (m : params2) : option chars := get2 m KEY_PREVIEW_FORMAT.

Definition setPictureSize2 (m : params2) (width height : Z) : option params2 :=
  str ← sprintf 32 (size_text width height); set2 m (Some KEY_PICTURE_SIZE) (Some str).
Definition getPictureSize2 (m : params2) : Z * Z := get_pair2 m KEY_PICTURE_SIZE "x"%char.

Definition getSupportedPictureSizes2 (m : params2) (sizes : list (Z * Z)) : list (Z * Z) :=
  parseSizesList (get2 m KEY_SUPPORTED_PICTURE_SIZES) sizes.

Definition setPictureFormat2 (m : params2) (format : option chars) : option params2 :=
  set2 m (Some KEY_PICTURE_FORMAT) format.
Definition getPictureFormat2 (m : params2) : option chars := get2 m KEY_PICTURE_FORMAT.

(** The calls that change an object, and any number of them. *)
Definition params2_step (m : params2) (op : params_op) : option params2 :=
  match op with
  | OpUnflatten text => Some (unflatten2 text)
  | OpSet key value => set2 m key value
  | OpSetInt key value => set_int2 m (Some key) value
  | OpPreviewSize width height => setPreviewSize2 m width height
  | OpVideoSize width height => setVideoSize2 m width height
  | OpPictureSize width height => setPictureSize2 m width height
  | OpRemove key => Some (remove2 m key)
  end.

Fixpoint params2_run (m : params2) (ops : list params_op) : option params2 :=
  match ops with [] => Some m | op :: ops => m ← params2_step m op; params2_run m ops end.

End parameters2.

(** *** What it keeps, and in which order

    Next to each key stands when it was set last, by a clock that every setting
    advances. *)

Abbreviation stamped := (nat * gmap chars (nat * chars))%type.

Definition put (s : stamped) (p : chars * chars) : stamped := (S s.1, <[p.1 := (s.1, p.2)]> s.2).

(** The item that a call sets, if it sets one. *)
Definition taken (key value : option chars) : option (chars * chars) :=
  match key, value with
  | Some key, Some value =>
      let key := c_string key in
      let value := c_string value in
      if contains EQUALS key || contains SEMICOLON key || (contains EQUALS value || contains SEMICOLON value) then None
      else Some (key, value)
  | _, _ => None
  end.

(** The arguments of the call of [set] that a setter makes. *)
Definition set_arguments (op : params_op) : option (option chars * option chars) :=
  match op with
  | OpUnflatten _ | OpRemove _ => None
  | OpSet key value => Some (key, value)
  | OpSetInt key value => Some (Some key, sprintf 16 (decimal_int value))
  | OpPreviewSize width height => Some (Some KEY_PREVIEW_SIZE, sprintf 32 (size_text width height))
  | OpVideoSize width height => Some (Some KEY_VIDEO_SIZE, sprintf 32 (size_text width height))
  | OpPictureSize width height => Some (Some KEY_PICTURE_SIZE, sprintf 32 (size_text width height))
  end.

Definition stamped_step (s : stamped) (op : params_op) : stamped :=
  match op with
  | OpUnflatten text => foldl put (0%nat, ∅) (unflatten2 text)
  | OpRemove key => (s.1, delete (c_string key) s.2)
  | _ => from_option (put s) s ('(key, value) ← set_arguments op; taken key value)
  end.

(** Which of two keys was set first. *)
Definition set_order (s : stamped) (key1 key2 : chars) : Z * option Z :=
  match s.2 !! c_string key1, s.2 !! c_string key2 with
  | Some (t1, _), Some (t2, _) => (OK, Some (Z.sgn (Z.of_nat t1 - Z.of_nat t2)))
  | _, _ => (NAME_NOT_FOUND, None)
  end.

(** No null pointer, integers of 32 bits, and no key twice in a text. *)
Definition op_ok (op : params_op) : Prop :=
  match op with
  | OpUnflatten text => NoDup (unflatten2 text).*1
  | OpSet key value => is_Some key ∧ is_Some value
  | OpSetInt _ value => is_s32 value
  | OpPreviewSize w h | OpVideoSize w h | OpPictureSize w h => is_s32 w ∧ is_s32 h
  | OpRemove _ => True
  end.

(** How many items calls may add. *)
Definition op_room (op : params_op) : nat :=
  match op with OpUnflatten text => length (unflatten2 text) | OpRemove _ => 0 | _ => 1 end.
Definition room (ops : list params_op) : nat := sum_list_with op_room ops.

(** The list is the items in the order of their stamps. *)
Abbreviation entry := (chars * (nat * chars))%type.
Definition unstamp (e : entry) : chars * chars := (e.1, e.2.2).
Definition before (e e' : entry) : Prop := (e.2.1 < e'.2.1)%nat.

Definition stands (m : params2) (s : stamped) : Prop :=
  ∃ la : list entry, m = unstamp <$> la ∧ NoDup la.*1 ∧ s.2 = list_to_map la
    ∧ StronglySorted before la ∧ Forall (λ e, e.2.1 < s.1)%nat la.

Lemma index_loop_find key m n :
  index_loop key m n = match list_find (λ p, p.1 = key) m with
                       | Some (i, _) => n + Z.of_nat i
                       | None => NAME_NOT_FOUND
                       end.
Proof.
  revert n. induction m as [|[k v] m IH]; intros n; cbn; [done|].
  destruct (decide (k = key)); [lia|]. rewrite IH.
  destruct (list_find _ m) as [[i p]|]; cbn; lia.
Qed.

Lemma size_t_found m key i p :
  Z.of_nat (length m) < 2 ^ 32 - 2 → list_find (λ p, p.1 = key) m = Some (i, p) →
  size_t (indexOfKey m key) = Z.of_nat i ∧ (i < length m)%nat.
Proof.
  intros Hm Hf. unfold indexOfKey. rewrite index_loop_find, Hf.
  apply list_find_Some in Hf as (Hi & _). apply lookup_lt_Some in Hi.
  unfold size_t. rewrite Z.mod_small; lia.
Qed.

Lemma filter_keeps {A : Type} (P : A → Prop) `{∀ x, Decision (P x)} (l : list A) : Forall P l → filter P l = l.
Proof. induction 1 as [|x l Hx Hl IH]; [done|]. rewrite filter_cons_True by done. by rewrite IH. Qed.

(** In a list that has no key twice, taking an item out leaves the others. *)
Lemma filter_first (m : params2) key i p :
  NoDup m.*1 → list_find (λ p, p.1 = key) m = Some (i, p) → filter (λ p, p.1 ≠ key) m = delete i m.
Proof.
  revert i. induction m as [|[k v] m IH]; intros i Hnd; [done|].
  rewrite fmap_cons, NoDup_cons in Hnd. destruct Hnd as [Hk Hnd].
  cbn [list_find fst] in *. destruct (decide (k = key)) as [<-|Hne].
  - intros [= <- <-]. rewrite filter_cons_False by (cbn; tauto).
    apply filter_keeps. rewrite Forall_forall. intros q Hq Heq. destruct Hk. rewrite <- Heq.
    by apply list_elem_of_fmap_2.
  - destruct (list_find _ m) as [[j q]|]; cbn [prod_map fst snd fmap option_fmap option_map]; [|done]. intros [= <- <-].
    rewrite filter_cons_True by done. cbn [delete list_delete]. f_equal. by apply (IH j).
Qed.

Lemma removeItem_filter `{VectorLaws} (m : params2) key :
  NoDup m.*1 → Z.of_nat (length m) < 2 ^ 32 - 2 →
  (removeItem m key).2 = filter (λ p, p.1 ≠ key) m.
Proof.
  intros Hnd Hm. unfold removeItem.
  rewrite (proj2 (Z.ltb_ge _ 0)) by (apply Z.mod_pos_bound; lia).
  destruct (list_find (λ p, p.1 = key) m) as [[i p]|] eqn:Hf.
  - destruct (size_t_found m key i p Hm Hf) as [-> Hi]. rewrite removeAt_in by done.
    symmetry. by apply (filter_first m key i p).
  - unfold indexOfKey. rewrite index_loop_find, Hf. rewrite removeAt_beyond by (change (size_t NAME_NOT_FOUND) with (2 ^ 32 - 2); lia).
    symmetry. apply filter_keeps. apply list_find_None in Hf. done.
Qed.

Lemma filter_unstamp key (la : list entry) :
  filter (λ p, p.1 ≠ key) (unstamp <$> la) = unstamp <$> filter (λ e, e.1 ≠ key) la.
Proof.
  induction la as [|[k [t v]] la IH]; [done|]. rewrite fmap_cons, !filter_cons. cbn [unstamp fst snd].
  destruct (decide (k ≠ key)); [|done]. rewrite fmap_cons. by rewrite IH.
Qed.

Lemma keys_unstamp (la : list entry) : (unstamp <$> la).*1 = la.*1.
Proof. induction la as [|e la IH]; [done|]. rewrite !fmap_cons, IH. done. Qed.

Lemma list_to_map_without key (la : list entry) :
  (list_to_map (filter (λ e, e.1 ≠ key) la) : gmap chars (nat * chars)) = delete key (list_to_map la).
Proof.
  induction la as [|[k x] la IH]; [symmetry; apply (delete_empty (M := gmap chars))|]. rewrite filter_cons. cbn [fst].
  destruct (decide (k ≠ key)) as [Hne|Heq%dec_stable].
  - rewrite !list_to_map_cons, IH. by rewrite delete_insert_ne.
  - rewrite list_to_map_cons, IH. subst k. by rewrite delete_insert_eq.
Qed.

Lemma sorted_filter (P : entry → Prop) `{∀ e, Decision (P e)} (la : list entry) :
  StronglySorted before la → StronglySorted before (filter P la).
Proof.
  induction 1 as [|e la Hs IH Hb]; [constructor|]. rewrite filter_cons. case_decide; [|done].
  constructor; [done|]. rewrite Forall_forall in *. intros e' [_ He']%list_elem_of_filter. by apply Hb.
Qed.

Lemma stands_delete m s key :
  stands m s → stands (filter (λ p, p.1 ≠ key) m) (s.1, delete key s.2).
Proof.
  intros (la & -> & Hnd & HM & Hs & Ht). exists (filter (λ e, e.1 ≠ key) la). split_and!.
  - apply filter_unstamp.
  - eapply sublist_NoDup; [exact Hnd|]. apply fmap_sublist, sublist_filter.
  - cbn. by rewrite HM, list_to_map_without.
  - by apply sorted_filter.
  - rewrite Forall_forall in *. intros e [_ He]%list_elem_of_filter. by apply Ht.
Qed.

Lemma stands_put m s k v : k ∉ m.*1 → stands m s → stands (m ++ [(k, v)]) (put s (k, v)).
Proof.
  intros Hk (la & -> & Hnd & HM & Hs & Ht). rewrite keys_unstamp in Hk. exists (la ++ [(k, (s.1, v))]). split_and!.
  - by rewrite fmap_app.
  - rewrite fmap_app. apply NoDup_app. split_and!; [done| |apply NoDup_singleton].
    intros k' Hk' ->%list_elem_of_singleton. done.
  - cbn [put fst snd]. rewrite list_to_map_app. cbn. rewrite HM.
    rewrite insert_empty, <- insert_union_singleton_r; [done|]. by apply not_elem_of_list_to_map.
  - apply StronglySorted_app_2; [|done|repeat constructor].
    intros e e' He ->%list_elem_of_singleton. rewrite Forall_forall in Ht. by apply Ht.
  - apply Forall_app. split; [|repeat constructor; cbn; lia]. eapply Forall_impl; [exact Ht|]. cbn. lia.
Qed.

Lemma stands_nodup m s : stands m s → NoDup m.*1.
Proof. intros (la & -> & Hnd & _). by rewrite keys_unstamp. Qed.

Lemma stands_items (m : params2) : NoDup m.*1 → stands m (foldl put (0%nat, ∅) m).
Proof.
  induction m as [|[k v] m IH] using rev_ind.
  - intros _. exists []. split_and!; [done|constructor|done|constructor|constructor].
  - rewrite fmap_app, foldl_app. intros (Hnd & Hk & _)%NoDup_app. apply stands_put; [|by apply IH].
    intros Hin. apply (Hk k Hin). by left.
Qed.

Lemma stands_replace `{VectorLaws} m s k v :
  Z.of_nat (length m) < 2 ^ 32 - 2 → stands m s → stands (replaceValueFor m k v).2 (put s (k, v)).
Proof.
  intros Hm Hs. unfold replaceValueFor, add2. cbn [fst snd].
  rewrite removeItem_filter by (done || by eapply stands_nodup).
  assert (Hput : put s (k, v) = put (s.1, delete k s.2) (k, v)).
  { unfold put. cbn. by rewrite insert_delete_eq. }
  rewrite Hput. apply stands_put; [|by apply stands_delete].
  intros ([k' v'] & Heq & [Hne _]%list_elem_of_filter)%list_elem_of_fmap. cbn in *. congruence.
Qed.

Lemma entry_index (la : list entry) k x i :
  NoDup la.*1 → la !! i = Some (k, x) → indexOfKey (unstamp <$> la) k = Z.of_nat i.
Proof.
  intros Hnd Hi. unfold indexOfKey. rewrite index_loop_find.
  enough (list_find (λ p, p.1 = k) (unstamp <$> la) = Some (i, unstamp (k, x))) as ->; [done|].
  apply list_find_Some. split_and!; [by rewrite list_lookup_fmap, Hi|done|].
  intros j y Hj Hlt Hy. rewrite list_lookup_fmap in Hj. destruct (la !! j) as [e|] eqn:He; [|done].
  cbn in Hj. injection Hj as <-.
  assert (i = j); [|lia]. apply (NoDup_lookup la.*1 i j k Hnd); rewrite list_lookup_fmap.
  - by rewrite Hi.
  - rewrite He. cbn. by rewrite <- Hy.
Qed.

Lemma stands_absent m s k : stands m s → s.2 !! k = None → indexOfKey m k = NAME_NOT_FOUND.
Proof.
  intros (la & -> & Hnd & HM & _) Hk. rewrite HM in Hk. apply not_elem_of_list_to_map in Hk.
  unfold indexOfKey. rewrite index_loop_find.
  enough (list_find (λ p, p.1 = k) (unstamp <$> la) = None) as ->; [done|].
  apply list_find_None. rewrite Forall_forall. intros p Hp <-. apply Hk. rewrite <- keys_unstamp.
  by apply list_elem_of_fmap_2.
Qed.

Lemma sorted_before (la : list entry) i j e e' :
  StronglySorted before la → la !! i = Some e → la !! j = Some e' → (i < j)%nat → before e e'.
Proof.
  intros Hs Hi Hj Hlt. rewrite <- (take_drop j la) in Hs.
  apply (StronglySorted_app_1_elem_of _ _ _ e e' Hs).
  - apply list_elem_of_lookup. exists i. by rewrite lookup_take_lt.
  - apply list_elem_of_lookup. exists 0%nat. by rewrite lookup_drop, Nat.add_0_r.
Qed.

Lemma stands_get m s key : stands m s → get2 m key = snd <$> s.2 !! c_string key.
Proof.
  intros Hst. unfold get2. destruct (s.2 !! c_string key) as [[t v]|] eqn:Hk.
  - destruct Hst as (la & -> & Hnd & HM & _). rewrite HM in Hk. apply elem_of_list_to_map in Hk; [|done].
    apply list_elem_of_lookup in Hk as [i Hi]. rewrite (entry_index la _ _ i Hnd Hi).
    rewrite (proj2 (Z.ltb_ge _ 0)) by lia. rewrite Nat2Z.id, list_lookup_fmap, Hi. done.
  - by rewrite (stands_absent m s _ Hst Hk).
Qed.

Lemma stands_set_order m s key1 key2 :
  stands m s → compareSetOrder m (Some key1) (Some key2) true = set_order s key1 key2.
Proof.
  intros Hst. unfold compareSetOrder, set_order. cbn [negb].
  destruct (s.2 !! c_string key1) as [[t1 v1]|] eqn:H1; [|by rewrite (stands_absent m s _ Hst H1)].
  destruct (s.2 !! c_string key2) as [[t2 v2]|] eqn:H2.
  - destruct Hst as (la & -> & Hnd & HM & Hs & _). rewrite HM in H1, H2.
    apply elem_of_list_to_map, list_elem_of_lookup in H1 as [i Hi]; [|done].
    apply elem_of_list_to_map, list_elem_of_lookup in H2 as [j Hj]; [|done].
    rewrite (entry_index la _ _ i Hnd Hi), (entry_index la _ _ j Hnd Hj).
    rewrite !(proj2 (Z.ltb_ge _ 0)) by lia. do 2 f_equal.
    destruct (Nat.lt_trichotomy i j) as [Hlt|[->|Hlt]].
    + pose proof (sorted_before la i j _ _ Hs Hi Hj Hlt) as Hb. unfold before in Hb. cbn in Hb.
      rewrite (proj2 (Z.eqb_neq _ _)), (proj2 (Z.ltb_lt _ _)) by lia. lia.
    + assert (t1 = t2) by congruence. rewrite Z.eqb_refl. lia.
    + pose proof (sorted_before la j i _ _ Hs Hj Hi Hlt) as Hb. unfold before in Hb. cbn in Hb.
      rewrite (proj2 (Z.eqb_neq _ _)), (proj2 (Z.ltb_ge _ _)) by lia. lia.
  - rewrite (stands_absent m s _ Hst H2). by destruct (_ <? 0).
Qed.

Lemma set2_taken `{VectorLaws} m k v :
  set2 m (Some k) (Some v) = Some (from_option (λ p, (replaceValueFor m p.1 p.2).2) m (taken (Some k) (Some v))).
Proof.
  unfold set2, taken. cbn [mbind option_bind].
  destruct (contains EQUALS (c_string k) || _); [done|]. cbn [orb].
  destruct (contains EQUALS (c_string v) || _); [done|]. cbn [from_option fst snd].
  unfold replaceValueFor at 1, add2 at 1. by rewrite (proj2 (Z.ltb_ge _ 0)) by lia.
Qed.

Lemma set_taken (m : params) k v : set_ m k v = from_option (λ p, <[p.1 := p.2]> m) m (taken k v).
Proof.
  unfold set_, taken. destruct k as [k|]; [|done]. destruct v as [v|]; [|done].
  destruct (contains EQUALS (c_string k) || _); [done|]. cbn [orb].
  by destruct (contains EQUALS (c_string v) || _).
Qed.

Lemma taken_ok k v p : taken k v = Some p → item_ok p.
Proof.
  unfold taken. destruct k as [k|]; [|done]. destruct v as [v|]; [|done].
  destruct (contains EQUALS (c_string k) || _) eqn:H1; [done|]. cbn [orb].
  destruct (contains EQUALS (c_string v) || _) eqn:H2; [done|]. intros [= <-].
  apply orb_false_iff in H1 as [H1%bool_decide_eq_false _].
  apply orb_false_iff in H2 as [_ H2%bool_decide_eq_false].
  split_and!; [done|done|]. intros c [Hc|Hc]%elem_of_app; by apply c_string_nonzero in Hc as [? _].
Qed.

Lemma decimal_int_fits z : is_s32 z → sprintf 16 (decimal_int z) = Some (decimal_int z).
Proof. intros Hz. unfold sprintf. apply decide_True. pose proof (decimal_int_length z Hz). lia. Qed.

(** A setter is the call of [set] it makes. *)
Lemma setter_step `{VectorLaws} op :
  op_ok op →
  match set_arguments op with
  | None => True
  | Some (k, v) => is_Some k ∧ is_Some v ∧ (∀ m, params2_step m op = set2 m k v) ∧ (∀ m, params_step m op = set_ m k v)
  end.
Proof.
  destruct op; cbn; try done.
  - intros [? ?]. done.
  - intros Hv. unfold set_int2, set_int. rewrite decimal_int_fits by done. naive_solver.
  - intros [? ?]. unfold setPreviewSize2, setPreviewSize. rewrite size_text_fits by done. naive_solver.
  - intros [? ?]. unfold setVideoSize2, setVideoSize. rewrite size_text_fits by done. naive_solver.
  - intros [? ?]. unfold setPictureSize2, setPictureSize. rewrite size_text_fits by done. naive_solver.
Qed.

Lemma unflatten2_ok text : Forall item_ok (unflatten2 text).
Proof.
  unfold unflatten2. assert (Hz : ∀ c, c ∈ c_string text → code c ≠ 0) by (intros c Hc; by apply c_string_nonzero in Hc as [? _]).
  revert Hz. generalize (c_string text) as a. intros a Hz. generalize (S (length a)) as fuel. intros fuel.
  assert (Hm : Forall item_ok []) by constructor. revert Hm. generalize (@nil (chars * chars)) as m.
  revert a Hz. induction fuel as [|fuel IH]; intros a Hz m Hm; cbn; [done|].
  destruct (strchr EQUALS a) as [[k b]|] eqn:Hk; [|done]. apply strchr_some in Hk as [-> Hk].
  destruct (strchr SEMICOLON b) as [[v c]|] eqn:Hv.
  - apply strchr_some in Hv as [-> Hv]. apply IH; [set_solver|]. apply Forall_app. split; [done|].
    constructor; [|done]. split_and!; [done|done|]. cbn. set_solver.
  - apply strchr_none in Hv. apply Forall_app. split; [done|]. constructor; [|done].
    split_and!; [done|done|]. cbn. set_solver.
Qed.

Lemma unflatten2_items fuel (l m : params2) :
  Forall item_ok l → (length l < fuel)%nat → unflatten2_loop fuel (flatten_items l) m = m ++ l.
Proof.
  intros Hl. revert fuel m. induction Hl as [|[k v] l (Hk & Hv & _) Hl IH]; intros [|fuel] m Hf;
    cbn [length] in Hf; try lia; [by rewrite app_nil_r|]. cbn [unflatten2_loop flatten_items fst snd] in *.
  destruct l as [|p l]; cbn [app]; rewrite (strchr_at EQUALS k _ Hk).
  - by rewrite (proj2 (strchr_none SEMICOLON v) Hv).
  - rewrite (strchr_at SEMICOLON v _ Hv), IH by (cbn [length] in *; lia). unfold add2. cbn [snd]. by rewrite <- (assoc_L (++)).
Qed.

Lemma flatten2_unflatten2 m : Forall item_ok m → unflatten2 (flatten2 m) = m.
Proof.
  intros Hm. unfold unflatten2, flatten2. rewrite c_string_id by (intros c; by apply flatten_items_nonzero).
  rewrite unflatten2_items by (done || pose proof (length_flatten_items m); lia). done.
Qed.

Lemma unflatten_of_items (fuel : nat) (a : chars) (l : params2) (m : params) :
  unflatten_loop fuel a (foldl (λ (m : params) p, <[p.1 := p.2]> m) m l)
  = foldl (λ (m : params) p, <[p.1 := p.2]> m) m (unflatten2_loop fuel a l).
Proof.
  revert a l. induction fuel as [|fuel IH]; intros a l; cbn [unflatten_loop unflatten2_loop]; [done|].
  destruct (strchr EQUALS a) as [[k b]|]; [|done].
  destruct (strchr SEMICOLON b) as [[v c]|]; cbn [add2 snd].
  - rewrite <- IH. by rewrite foldl_app.
  - by rewrite foldl_app.
Qed.

(** The object of the class CameraParameters with the same items. *)
Definition unstamped (s : stamped) : params := snd <$> s.2.

Lemma unstamped_put s p : unstamped (put s p) = <[p.1 := p.2]> (unstamped s).
Proof. unfold unstamped, put. cbn [snd]. by rewrite fmap_insert. Qed.

Lemma unstamped_items (l : params2) s :
  unstamped (foldl put s l) = foldl (λ (m : params) p, <[p.1 := p.2]> m) (unstamped s) l.
Proof. revert s. induction l as [|p l IH]; intros s; cbn; [done|]. by rewrite IH, unstamped_put. Qed.

Lemma stamped_set s op k v :
  set_arguments op = Some (k, v) → stamped_step s op = from_option (put s) s (taken k v).
Proof. destruct op; intros [= <- <-]; done. Qed.

Lemma unstamped_step `{VectorLaws} s op :
  op_ok op → unstamped (stamped_step s op) = params_step (unstamped s) op.
Proof.
  intros Hop. pose proof (setter_step op Hop) as Hset. destruct (set_arguments op) as [[k v]|] eqn:Ha.
  - destruct Hset as (_ & _ & _ & ->). rewrite (stamped_set s op k v Ha), set_taken.
    destruct (taken k v) as [p|]; [apply unstamped_put|done].
  - destruct op as [text| | | | | |key]; try done; cbn [stamped_step params_step].
    + rewrite unstamped_items. unfold unstamped. cbn [snd]. rewrite fmap_empty.
      unfold unflatten, unflatten2. symmetry. apply (unflatten_of_items _ _ []).
    + unfold unstamped, remove. cbn [snd]. by rewrite fmap_delete.
Qed.

Lemma Forall_without (P : chars * chars → Prop) (m : params2) key :
  Forall P m → Forall P (filter (λ p, p.1 ≠ key) m).
Proof. rewrite !Forall_forall. intros Hm p [_ Hp]%list_elem_of_filter. by apply Hm. Qed.

Lemma length_without (m : params2) key : (length (filter (λ p, p.1 ≠ key) m) ≤ length m)%nat.
Proof. apply sublist_length, sublist_filter. Qed.

(** The state of an object: its items stand in the order of their stamps, and
    each of them is one that a text gives back. *)
Definition kept (m : params2) (s : stamped) : Prop := stands m s ∧ Forall item_ok m.

Lemma kept_step `{VectorLaws} m s op :
  op_ok op → Z.of_nat (length m) < 2 ^ 32 - 2 → kept m s →
  ∃ m', params2_step m op = Some m' ∧ kept m' (stamped_step s op) ∧ (length m' ≤ length m + op_room op)%nat.
Proof.
  intros Hop Hm [Hst Hok]. pose proof (setter_step op Hop) as Hset. destruct (set_arguments op) as [[k v]|] eqn:Ha.
  - destruct Hset as ([k' ->] & [v' ->] & -> & _). rewrite set2_taken, (stamped_set s op _ _ Ha).
    destruct (taken _ _) as [p|] eqn:Ht; cbn [from_option]; eexists; (split; [done|]); [|split; [done|lia]].
    split; [split; [destruct p; by apply stands_replace|]|];
      unfold replaceValueFor, add2; cbn [snd]; rewrite removeItem_filter by (done || by eapply stands_nodup).
    + apply Forall_app. split; [by apply Forall_without|]. constructor; [|done].
      pose proof (taken_ok _ _ _ Ht). by destruct p.
    + rewrite length_app. pose proof (length_without m p.1). cbn [length]. destruct op; (done || cbn; lia).
  - destruct op as [text| | | | | |key]; try done; cbn [params2_step stamped_step op_room]; eexists; (split; [done|]).
    + split; [|lia]. split; [by apply stands_items|apply unflatten2_ok].
    + unfold remove2. rewrite removeItem_filter by (done || by eapply stands_nodup).
      pose proof (length_without m (c_string key)). split; [|lia].
      split; [by apply stands_delete|by apply Forall_without].
Qed.

Lemma kept_run `{VectorLaws} ops m s :
  Forall op_ok ops → Z.of_nat (length m + room ops) < 2 ^ 32 - 2 → kept m s →
  ∃ m', params2_run m ops = Some m' ∧ kept m' (foldl stamped_step s ops)
    ∧ unstamped (foldl stamped_step s ops) = foldl params_step (unstamped s) ops.
Proof.
  intros Hops. revert m s. induction Hops as [|op ops Hop Hops IH]; intros m s Hm Hk; cbn [params2_run foldl]; [by exists m|].
  unfold room in *. cbn [sum_list_with] in Hm. destruct (kept_step m s op) as (m1 & -> & Hk1 & Hl); [done|lia|done|].
  cbn [mbind option_bind]. destruct (IH m1 (stamped_step s op)) as (m' & Hrun & Hk' & Hu); [lia|done|].
  exists m'. split_and!; [done|done|]. by rewrite Hu, unstamped_step.
Qed.

(** C38: Whatever calls a program makes, an object of the class CameraParameters2
    answers them all and has the values that an object of CameraParameters has
    after them; which of two keys was set first is known of all keys it has;
    and its text gives it back, with the order. *)
Theorem parameters2_in_order `{VectorLaws} ops :
  Forall op_ok ops → Z.of_nat (room ops) < 2 ^ 32 - 2 →
  ∃ m, params2_run [] ops = Some m
    ∧ (∀ key, get2 m key = foldl params_step ∅ ops !! c_string key)
    ∧ (∀ key1 key2, compareSetOrder m (Some key1) (Some key2) true
         = set_order (foldl stamped_step (0%nat, ∅) ops) key1 key2)
    ∧ unflatten2 (flatten2 m) = m.
Proof.
  intros Hops Hroom. destruct (kept_run ops [] (0%nat, ∅)) as (m & Hrun & [Hst Hok] & Hu); [done|done| |].
  { split; [apply (stands_items []); constructor|constructor]. }
  exists m. split_and!; [done| | |by apply flatten2_unflatten2].
  - intros key. rewrite (stands_get m _ key Hst), <- lookup_fmap. fold (unstamped (foldl stamped_step (0%nat, ∅) ops)).
    rewrite Hu. unfold unstamped. cbn [snd]. by rewrite fmap_empty.
  - intros key1 key2. by apply stands_set_order.
Qed.

(** A vector as the platform has it: out of range nothing is taken out. *)
#[local] Instance plain_vectors : Vectors := λ A index l,
  if decide (0 <= index < Z.of_nat (length l)) then (index, delete (Z.to_nat index) l) else (BAD_VALUE, l).

#[local] Instance plain_vector_laws : VectorLaws.
Proof.
  split; intros A l i Hi; unfold removeAt, plain_vectors.
  - rewrite decide_True by lia. by rewrite Nat2Z.id.
  - by rewrite decide_False by lia.
Qed.

Definition fps_calls : list params_op :=
  [OpUnflatten (to_chars "preview-fps-range=15000,30000;preview-frame-rate=30;zoom=3");
   OpSet (Some KEY_PREVIEW_FPS_RANGE) (Some (to_chars "24000,24000")); OpRemove (to_chars "zoom"); OpPreviewSize 640 480].

Lemma parameters2_in_order_witness :
  Forall op_ok fps_calls ∧ room fps_calls = 5%nat
  ∧ (∃ m, params2_run [] fps_calls = Some m
      ∧ get2 m KEY_PREVIEW_FPS_RANGE = Some (to_chars "24000,24000")
      ∧ compareSetOrder m (Some KEY_PREVIEW_FRAME_RATE) (Some KEY_PREVIEW_FPS_RANGE) true = (OK, Some (-1))).
Proof.
  assert (Hops : Forall op_ok fps_calls).
  { unfold fps_calls. rewrite !Forall_cons. split_and!; cbn [op_ok]; try done.
    apply (bool_decide_unpack (NoDup _)). by vm_compute. }
  assert (Hroom : room fps_calls = 5%nat) by by vm_compute.
  split_and!; [done|done|].
  destruct (parameters2_in_order fps_calls Hops ltac:(rewrite Hroom; lia)) as (m & Hrun & Hget & Hord & _).
  exists m. split_and!; [done| |].
  - rewrite Hget. by vm_compute.
  - rewrite Hord. by vm_compute.
Defined.

(** A text with a key twice: the first value is the one that is found, where
    CameraParameters has the last, and a value set later is not found as long
    as the second is there. *)
Example key_twice :
  let m := unflatten2 (to_chars "a=1;a=2") in
  let key := to_chars "a" in
  get2 m key = Some (to_chars "1") ∧ get (unflatten (to_chars "a=1;a=2")) key = Some (to_chars "2")
  ∧ (λ m, get2 m key) <$> set2 m (Some key) (Some (to_chars "3")) = Some (Some (to_chars "2"))
  ∧ get2 (remove2 m key) key = Some (to_chars "2").
Proof. split_and!; by vm_compute. Qed.

(** An empty value is a value of CameraParameters2, and none of CameraParameters. *)
Example empty_value :
  let key := to_chars "a" in
  (λ m, get2 m key) <$> set2 [] (Some key) (Some []) = Some (Some [])
  ∧ get (set_ ∅ (Some key) (Some [])) key = None.
Proof. split; by vm_compute. Qed.

(** A null format ends the process, where CameraParameters leaves the object as it is. *)
Example null_format m :
  setPreviewFormat2 m None = None ∧ ∀ m : params, setPreviewFormat m None = m.
Proof. split; [by vm_compute|done]. Qed.
