(* ===== verification/VendorTags.v ===== *)
(** * Vendor tags (src/libmocha/camera/VendorTagDescriptor.cpp)

    A descriptor holds the name, the section and the type of each tag of a
    vendor.  It is made from the table of functions of a camera library or from
    a parcel.  The platform's vectors are lists and maps: a [KeyedVector] is a
    map in the order of its keys, a [SortedVector] a sorted list without
    repetitions.  What [operator[]] reads outside a vector is not defined, and
    neither is what a library does that writes more tags than it has counted;
    [LOG_ALWAYS_FATAL_IF] ends the program. *)

From stdpp Require Import gmap sorting.
From S2P Require Import Prelude CStrings Parcels.

#[global] Open Scope Z_scope.

(** system/camera_metadata.h, system/camera_vendor_tags.h *)
Definition CAMERA_METADATA_VENDOR_TAG_BOUNDARY : Z := 0x80000000.
Definition NUM_TYPES : Z := 6.
Definition VENDOR_TAG_COUNT_ERR : Z := -1.
Definition VENDOR_TAG_TYPE_ERR : Z := -1.

(** [vendor_tag_ops_t]: what its functions give; [get_all_tags] is what is
    written into the array. *)
Record vendor_tag_ops := TagOps {
  get_tag_count : Z;
  get_all_tags : list Z;
  get_section_name : Z → option chars;
  get_tag_name : Z → option chars;
  get_tag_type : Z → Z
}.

Record VendorTagDescriptor := Vtd {
  mTagToNameMap : gmap Z chars;
  mTagToSectionMap : gmap Z Z;
  mTagToTypeMap : gmap Z Z;
  mSections : list chars;
  mReverseMapping : gmap chars (gmap chars Z);
  mTagCount : Z
}.

#[export] Instance descriptor_eq_dec : EqDecision VendorTagDescriptor.
Proof. solve_decision. Defined.

(** How a call ends. *)
Inductive outcome (A : Type) :=
  | Done (a : A)
  | Fatal  (** [LOG_ALWAYS_FATAL_IF] *)
  | OutOfBounds.  (** a vector is read or an array written outside *)
Arguments Done {A}.
Arguments Fatal {A}.
Arguments OutOfBounds {A}.

(** A new object. *)
Definition new_descriptor (tagCount : Z) : VendorTagDescriptor := Vtd ∅ ∅ ∅ [] ∅ tagCount.

(** [SortedVector::add]. *)
Fixpoint sorted_add (x : chars) (l : list chars) : list chars :=
  match l with
  | [] => [x]
  | y :: l =>
      if decide (x = y) then x :: l
      else if strcmp_le x y then x :: y :: l else y :: sorted_add x l
  end.

(** [SortedVector::indexOf]; [None] is negative. *)
Definition indexOf (l : list chars) (x : chars) : option Z := Z.of_nat ∘ fst <$> list_find (x =.) l.

Definition set_names (tag : Z) (name : chars) (d : VendorTagDescriptor) : VendorTagDescriptor :=
  Vtd (<[tag := name]> (mTagToNameMap d)) (mTagToSectionMap d) (mTagToTypeMap d) (mSections d)
    (mReverseMapping d) (mTagCount d).

Definition set_section_index (tag index : Z) (d : VendorTagDescriptor) : VendorTagDescriptor :=
  Vtd (mTagToNameMap d) (<[tag := index]> (mTagToSectionMap d)) (mTagToTypeMap d) (mSections d)
    (mReverseMapping d) (mTagCount d).

Definition set_type (tag type : Z) (d : VendorTagDescriptor) : VendorTagDescriptor :=
  Vtd (mTagToNameMap d) (mTagToSectionMap d) (<[tag := type]> (mTagToTypeMap d)) (mSections d)
    (mReverseMapping d) (mTagCount d).

Definition set_sections (l : list chars) (d : VendorTagDescriptor) : VendorTagDescriptor :=
  Vtd (mTagToNameMap d) (mTagToSectionMap d) (mTagToTypeMap d) l (mReverseMapping d) (mTagCount d).

(** The reverse mapping of one more tag. *)
Definition set_reverse (section name : chars) (tag : Z) (d : VendorTagDescriptor) : VendorTagDescriptor :=
  Vtd (mTagToNameMap d) (mTagToSectionMap d) (mTagToTypeMap d) (mSections d)
    (<[section := <[name := tag]> (default ∅ (mReverseMapping d !! section))]> (mReverseMapping d))
    (mTagCount d).

(** ** From the functions of a library *)

(** The first loop of [createDescriptorFromOps]; [None] is BAD_VALUE. *)
Fixpoint ops_tags (vOps : vendor_tag_ops) (tags : list Z) (desc : VendorTagDescriptor)
    (sections : list chars) (tagToSectionMap : gmap Z chars)
    : option (VendorTagDescriptor * list chars * gmap Z chars) :=
  match tags with
  | [] => Some (desc, sections, tagToSectionMap)
  | tag :: tags =>
      if bool_decide (tag < CAMERA_METADATA_VENDOR_TAG_BOUNDARY) then None
      else
        tagName ← get_tag_name vOps tag;
        let desc := set_names tag tagName desc in
        sectionString ← get_section_name vOps tag;
        let sections := sorted_add sectionString sections in
        let tagToSectionMap := <[tag := sectionString]> tagToSectionMap in
        let tagType := get_tag_type vOps tag in
        if bool_decide (tagType < 0) || bool_decide (NUM_TYPES <= tagType) then None
        else ops_tags vOps tags (set_type tag tagType desc) sections tagToSectionMap
  end.

(** The second loop; [None]: an [indexOf] is negative. *)
Fixpoint ops_link (tags : list Z) (sections : list chars) (tagToSectionMap : gmap Z chars)
    (desc : VendorTagDescriptor) : option VendorTagDescriptor :=
  match tags with
  | [] => Some desc
  | tag :: tags =>
      sectionString ← tagToSectionMap !! tag;
      index ← indexOf sections sectionString;
      let desc := set_section_index tag index desc in
      name ← mTagToNameMap desc !! tag;
      ops_link tags sections tagToSectionMap (set_reverse sectionString name tag desc)
  end.

(** The array of [tagCount] zeros after [get_all_tags]; [None]: it was written outside. *)
Definition tag_array (tagCount : Z) (written : list Z) : option (list Z) :=
  if decide (Z.of_nat (length written) <= tagCount)
  then Some (written ++ replicate (Z.to_nat tagCount - length written) 0) else None.

Definition createDescriptorFromOps (vOps : option vendor_tag_ops)
    : outcome (Z * option VendorTagDescriptor) :=
  match vOps with
  | None => Done (BAD_VALUE, None)
  | Some vOps =>
      let tagCount := get_tag_count vOps in
      if bool_decide (tagCount < 0) then Done (BAD_VALUE, None)
      else
        match tag_array tagCount (get_all_tags vOps) with
        | None => OutOfBounds
        | Some tagArray =>
            match ops_tags vOps tagArray (new_descriptor tagCount) [] ∅ with
            | None => Done (BAD_VALUE, None)
            | Some (desc, sections, tagToSectionMap) =>
                match ops_link tagArray sections tagToSectionMap (set_sections sections desc) with
                | None => Fatal
                | Some desc => Done (OK, Some desc)
                end
            end
        end
  end.

(** ** Questions *)

(** The tags in order. *)
Definition tags_of (d : VendorTagDescriptor) : list Z := merge_sort Z.le (map_to_list (mTagToNameMap d)).*1.

Definition getTagCount (d : VendorTagDescriptor) : Z :=
  if decide (size (mTagToNameMap d) = 0%nat) then VENDOR_TAG_COUNT_ERR
  else Z.of_nat (size (mTagToNameMap d)).

Definition getTagArray (d : VendorTagDescriptor) : list Z := tags_of d.

(** [mSections[i]] *)
Definition section_at (l : list chars) (i : Z) : option chars :=
  if decide (0 <= i < Z.of_nat (length l)) then l !! Z.to_nat i else None.

Definition getSectionName (d : VendorTagDescriptor) (tag : Z) : option (option chars) :=
  match mTagToSectionMap d !! tag with
  | None => Some None
  | Some index => s ← section_at (mSections d) index; Some (Some s)
  end.

Definition getTagName (d : VendorTagDescriptor) (tag : Z) : option chars := mTagToNameMap d !! tag.

Definition getTagType (d : VendorTagDescriptor) (tag : Z) : option Z :=
  match mTagToNameMap d !! tag with
  | None => Some VENDOR_TAG_TYPE_ERR
  | Some _ => mTagToTypeMap d !! tag
  end.

Definition getAllSectionNames (d : VendorTagDescriptor) : list chars := mSections d.

(** [lookupTag]: the status and the tag. *)
Definition lookupTag (d : VendorTagDescriptor) (name section : chars) : Z * option Z :=
  match mReverseMapping d !! section with
  | None => (BAD_VALUE, None)
  | Some names =>
      match names !! name with
      | None => (BAD_VALUE, None)
      | Some tag => (OK, Some tag)
      end
  end.

(** ** Parcels *)

Section parcel.
  Context {P : Type} `{!Parcel P} `{!ParcelObjects P}.

(** The loop of [writeToParcel] over the tags; it ends at a write that fails. *)
Fixpoint write_tags (d : VendorTagDescriptor) (tags : list Z) (p : P) : option (Z * P) :=
  match tags with
  | [] => Some (OK, p)
  | tag :: tags =>
      tagName ← mTagToNameMap d !! tag;
      sectionIndex ← mTagToSectionMap d !! tag;
      tagType ← mTagToTypeMap d !! tag;
      let '(res, p) := writeInt32 (s32 tag) p in
      if bool_decide (res ≠ OK) then Some (res, p) else
      let '(res, p) := writeInt32 tagType p in
      if bool_decide (res ≠ OK) then Some (res, p) else
      let '(res, p) := writeString8 tagName p in
      if bool_decide (res ≠ OK) then Some (res, p) else
      let '(res, p) := writeInt32 (s32 sectionIndex) p in
      if bool_decide (res ≠ OK) then Some (res, p) else
      write_tags d tags p
  end.

Fixpoint write_sections (sections : list chars) (p : P) : Z * P :=
  match sections with
  | [] => (OK, p)
  | s :: sections =>
      let '(res, p) := writeString8 s p in
      if bool_decide (res ≠ OK) then (res, p) else write_sections sections p
  end.

(** The status of the loop over the tags is only returned when there are no
    sections. *)
Definition writeToParcel (d : VendorTagDescriptor) (parcel : option P) : option (Z * option P) :=
  match parcel with
  | None => Some (BAD_VALUE, None)
  | Some p =>
      let '(res, p) := writeInt32 (mTagCount d) p in
      if bool_decide (res ≠ OK) then Some (res, Some p)
      else
        '(res, p) ← write_tags d (tags_of d) p;
        match mSections d with
        | [] => Some (res, Some p)
        | sections =>
            let '(res, p) := writeInt32 (s32 (Z.of_nat (length sections))) p in
            if bool_decide (res ≠ OK) then Some (res, Some p)
            else let '(res, p) := write_sections sections p in Some (res, Some p)
        end
  end.

(** What the first loop of [createFromParcel] keeps. *)
Record reading := Reading { rd_desc : VendorTagDescriptor; rd_max : Z; rd_tags : list Z }.

Definition note_tag (tag tagType : Z) (tagName : chars) (sectionIndex : Z) (r : reading) : reading :=
  Reading (set_type tag tagType (set_section_index tag sectionIndex (set_names tag tagName (rd_desc r))))
    (if decide (sectionIndex <= rd_max r) then rd_max r else sectionIndex)
    (rd_tags r ++ [tag]).

Fixpoint read_tags (n : nat) (r : reading) (p : P) : Z * reading * P :=
  match n with
  | O => (OK, r, p)
  | S n =>
      let '(res, tag, p) := readInt32 p in
      if bool_decide (res ≠ OK) then (res, r, p) else
      let tag := u32 tag in
      if bool_decide (tag < CAMERA_METADATA_VENDOR_TAG_BOUNDARY) then (BAD_VALUE, r, p) else
      let '(res, tagType, p) := readInt32 p in
      if bool_decide (res ≠ OK) then (res, r, p) else
      if bool_decide (tagType < 0) || bool_decide (NUM_TYPES <= tagType) then (BAD_VALUE, r, p) else
      let '(tagName, p) := readString8 p in
      if bool_decide (tagName = []) then (NOT_ENOUGH_DATA, r, p) else
      let '(res, sectionIndex, p) := readInt32 p in
      if bool_decide (res ≠ OK) then (res, r, p) else
      read_tags n (note_tag tag tagType tagName (u32 sectionIndex) r) p
  end.

Fixpoint read_sections (n : nat) (sections : list chars) (p : P) : Z * list chars * P :=
  match n with
  | O => (OK, sections, p)
  | S n =>
      let '(sectionName, p) := readString8 p in
      if bool_decide (sectionName = []) then (NOT_ENOUGH_DATA, sections, p)
      else read_sections n (sorted_add sectionName sections) p
  end.

(** The loop that sets up the reverse mapping; [None]: a section is read outside
    [mSections]. *)
Fixpoint read_link (tags : list Z) (desc : VendorTagDescriptor) : option VendorTagDescriptor :=
  match tags with
  | [] => Some desc
  | tag :: tags =>
      index ← mTagToSectionMap desc !! tag;
      sectionString ← section_at (mSections desc) index;
      name ← mTagToNameMap desc !! tag;
      read_link tags (set_reverse sectionString name tag desc)
  end.

(** [setCapacity] of a vector: the room there is then, or an error. *)
Context (setCapacity : Z → Z).

(** The sections: the status and their names; [None]: the capacity is not positive. *)
Definition read_all_sections (tagCount maxSectionIndex : Z) (p : P)
    : option (Z * list chars * P) :=
  if bool_decide (0 < tagCount) then
    let '(res, sectionCount, p) := readInt32 p in
    if bool_decide (res ≠ OK) then Some (res, [], p)
    else
      let sectionCount := u32 sectionCount in
      if bool_decide (sectionCount < u32 (maxSectionIndex + 1)) then Some (BAD_VALUE, [], p)
      else if bool_decide (setCapacity sectionCount <= 0) then None
      else Some (read_sections (Z.to_nat sectionCount) [] p)
  else Some (OK, [], p).

Definition createFromParcel (parcel : option P)
    : outcome (Z * option VendorTagDescriptor * option P) :=
  match parcel with
  | None => Done (BAD_VALUE, None, None)
  | Some p =>
      let '(res, tagCount, p) := readInt32 p in
      if bool_decide (res ≠ OK) then Done (res, None, Some p)
      else if bool_decide (tagCount < 0) then Done (BAD_VALUE, None, Some p)
      else
        let '(res, r, p) := read_tags (Z.to_nat tagCount) (Reading (new_descriptor tagCount) 0 []) p in
        if bool_decide (res ≠ OK) then Done (res, None, Some p)
        else
          match read_all_sections tagCount (rd_max r) p with
          | None => Fatal
          | Some (res, sections, p) =>
              if bool_decide (res ≠ OK) then Done (res, None, Some p)
              else
                match read_link (rd_tags r) (set_sections sections (rd_desc r)) with
                | None => OutOfBounds
                | Some desc => Done (OK, Some desc, Some p)
                end
          end
  end.

End parcel.

(** ** The descriptor of the process *)

(** The metadata library keeps a pointer to a table of functions; it is inside
    the descriptor at the address. *)
Class TagLibrary (W : Type) := {
  set_camera_metadata_vendor_ops : option Z → W → Z * W;
  vendor_ops : W → option Z
}.

(** [sGlobalVendorTagDescriptor]: its address and what it is.  The lock is held
    over each call. *)
Record tag_globals (W : Type) := Globals {
  sGlobalVendorTagDescriptor : option (Z * VendorTagDescriptor);
  tg_library : W
}.
Arguments Globals {W}.
Arguments sGlobalVendorTagDescriptor {W}.
Arguments tg_library {W}.

Section globals.
  Context {W : Type} `{TagLibrary W}.

Definition setAsGlobalVendorTagDescriptor (desc : option (Z * VendorTagDescriptor)) (g : tag_globals W)
    : Z * tag_globals W :=
  let '(res, w) := set_camera_metadata_vendor_ops (fst <$> desc) (tg_library g) in
  (res, Globals desc w).

Definition clearGlobalVendorTagDescriptor (g : tag_globals W) : tag_globals W :=
  Globals None (set_camera_metadata_vendor_ops None (tg_library g)).2.

Definition getGlobalVendorTagDescriptor (g : tag_globals W) : option (Z * VendorTagDescriptor) :=
  sGlobalVendorTagDescriptor g.

(** The functions of the table. *)
Definition vendor_tag_descriptor_get_tag_count (g : tag_globals W) : Z :=
  match sGlobalVendorTagDescriptor g with None => VENDOR_TAG_COUNT_ERR | Some (_, d) => getTagCount d end.

Definition vendor_tag_descriptor_get_all_tags (g : tag_globals W) : list Z :=
  match sGlobalVendorTagDescriptor g with None => [] | Some (_, d) => getTagArray d end.

Definition vendor_tag_descriptor_get_section_name (g : tag_globals W) (tag : Z) : option (option chars) :=
  match sGlobalVendorTagDescriptor g with None => Some None | Some (_, d) => getSectionName d tag end.

Definition vendor_tag_descriptor_get_tag_name (g : tag_globals W) (tag : Z) : option chars :=
  match sGlobalVendorTagDescriptor g with None => None | Some (_, d) => getTagName d tag end.

Definition vendor_tag_descriptor_get_tag_type (g : tag_globals W) (tag : Z) : option Z :=
  match sGlobalVendorTagDescriptor g with None => Some VENDOR_TAG_TYPE_ERR | Some (_, d) => getTagType d tag end.

End globals.

(** ** Sorted vectors *)

Lemma sorted_add_elem x l y : y ∈ sorted_add x l ↔ y = x ∨ y ∈ l.
Proof.
  induction l as [|z l IH]; cbn; [set_solver|]. destruct (decide (x = z)) as [->|]; [set_solver|].
  destruct (strcmp_le x z); set_solver.
Qed.

Lemma sorted_add_sorted x l : StronglySorted strcmp_lt l → StronglySorted strcmp_lt (sorted_add x l).
Proof.
  induction 1 as [|y l Hl IH Hy]; cbn; [repeat constructor|].
  destruct (decide (x = y)) as [->|Hne]; [by constructor|].
  destruct (strcmp_le x y) eqn:Hle.
  - constructor; [by constructor|]. constructor; [by split|].
    eapply Forall_impl; [exact Hy|]. intros z Hz. by apply (strcmp_lt_trans x y z).
  - constructor; [done|]. apply Forall_forall. intros z [->|Hz]%sorted_add_elem.
    + by apply strcmp_not_le.
    + by rewrite Forall_forall in Hy; apply Hy.
Qed.

Lemma sorted_add_last x l : Forall (λ y, strcmp_lt y x) l → sorted_add x l = l ++ [x].
Proof.
  induction 1 as [|y l [Hle Hne] Hl IH]; cbn; [done|]. rewrite decide_False by congruence.
  destruct (strcmp_le x y) eqn:Hxy; [|by rewrite IH]. destruct Hne. by apply strcmp_le_antisym.
Qed.

Lemma sorted_add_all l l' :
  StronglySorted strcmp_lt (l ++ l') → foldl (λ l x, sorted_add x l) l l' = l ++ l'.
Proof.
  revert l. induction l' as [|x l' IH]; intros l Hs; cbn; [by rewrite app_nil_r|].
  rewrite sorted_add_last.
  - rewrite IH; by rewrite <- (assoc_L (++)).
  - apply Forall_forall. intros y Hy. apply StronglySorted_app in Hs as (Hlt & _ & _).
    apply (Hlt y x); [done|left].
Qed.

Lemma section_at_index l i x : indexOf l x = Some i → section_at l i = Some x.
Proof.
  unfold indexOf. intros ([j y] & Hf & ->)%fmap_Some_1. unfold section_at.
  apply list_find_Some in Hf as (Hj & Hxy & _). cbn in *.
  pose proof (lookup_lt_Some _ _ _ Hj). rewrite decide_True by lia. rewrite Nat2Z.id. by subst.
Qed.

Lemma indexOf_elem l x : x ∈ l → is_Some (indexOf l x).
Proof.
  intros Hx. unfold indexOf. rewrite fmap_is_Some. by apply (list_find_elem_of (x =.) l x).
Qed.

Lemma section_at_range l i x : section_at l i = Some x → 0 <= i < Z.of_nat (length l) ∧ x ∈ l.
Proof.
  unfold section_at. case_decide; [|done]. intros Hl. split; [apply lookup_lt_Some in Hl; lia|].
  by eapply list_elem_of_lookup_2.
Qed.

(** ** The reverse mapping *)

Definition section_of (d : VendorTagDescriptor) (t : Z) : option chars :=
  i ← mTagToSectionMap d !! t; section_at (mSections d) i.

Definition reverse_of (d : VendorTagDescriptor) (s n : chars) : option Z :=
  m ← mReverseMapping d !! s; m !! n.

Lemma reverse_of_set s n t d s' n' :
  reverse_of (set_reverse s n t d) s' n' = if decide (s' = s ∧ n' = n) then Some t else reverse_of d s' n'.
Proof.
  unfold reverse_of, set_reverse. cbn. destruct (decide (s' = s)) as [->|Hs].
  - rewrite lookup_insert_eq. cbn. destruct (decide (n' = n)) as [->|Hn].
    + rewrite lookup_insert_eq. by rewrite decide_True.
    + rewrite lookup_insert_ne by done. rewrite decide_False by naive_solver.
      by destruct (mReverseMapping d !! s).
  - rewrite lookup_insert_ne by done. by rewrite decide_False by naive_solver.
Qed.

(** The reverse mapping leads to tags of [done] with the name and the section
    asked for, and to one for each of [done]. *)
Record linked (done : list Z) (d : VendorTagDescriptor) : Prop := {
  ln_back s n t : reverse_of d s n = Some t →
    t ∈ done ∧ mTagToNameMap d !! t = Some n ∧ section_of d t = Some s;
  ln_there t : t ∈ done → ∃ s n,
    mTagToNameMap d !! t = Some n ∧ section_of d t = Some s ∧ is_Some (reverse_of d s n);
  ln_full s m : mReverseMapping d !! s = Some m → m ≠ ∅
}.

Lemma linked_start d : mReverseMapping d = ∅ → linked [] d.
Proof.
  intros Hd. split; unfold reverse_of; rewrite ?Hd.
  - intros s n t. by rewrite lookup_empty.
  - intros t Ht. by apply elem_of_nil in Ht.
  - intros s m. by rewrite lookup_empty.
Qed.

Lemma linked_set_reverse done d s n t :
  linked done d → mTagToNameMap d !! t = Some n → section_of d t = Some s →
  linked (done ++ [t]) (set_reverse s n t d).
Proof.
  intros [Hb Ht Hf] Hn Hs. split.
  - intros s' n' t'. rewrite reverse_of_set. case_decide as Hd.
    + destruct Hd as [-> ->]. intros [= <-]. split_and!; [set_solver|done|done].
    + intros Hr. destruct (Hb _ _ _ Hr) as (? & ? & ?). split_and!; [set_solver|done|done].
  - intros t' [Hin| ->%list_elem_of_singleton]%elem_of_app.
    + destruct (Ht t' Hin) as (s' & n' & H1 & H2 & H3). exists s', n'. split_and!; [done|done|].
      rewrite reverse_of_set. by case_decide.
    + exists s, n. split_and!; [done|done|]. rewrite reverse_of_set. by rewrite decide_True.
  - intros s' m. cbn. destruct (decide (s' = s)) as [->|].
    + rewrite lookup_insert_eq. intros [= <-]. apply insert_non_empty.
    + rewrite lookup_insert_ne by done. apply Hf.
Qed.

Lemma linked_sections done d d' :
  linked done d → mTagToNameMap d' = mTagToNameMap d → mReverseMapping d' = mReverseMapping d →
  (∀ t, t ∈ done → section_of d' t = section_of d t) → linked done d'.
Proof.
  intros [Hb Ht Hf] Hn Hr Hs. unfold reverse_of in *. split; unfold reverse_of; rewrite ?Hn, ?Hr.
  - intros s n t Hl. destruct (Hb s n t Hl) as (? & ? & ?). rewrite Hs by done. done.
  - intros t Hin. destruct (Ht t Hin) as (s & n & ? & ? & ?). exists s, n. rewrite Hs by done. done.
  - apply Hf.
Qed.

(** Two descriptors but for the reverse mapping and the section of each tag. *)
Definition same_tags (d d' : VendorTagDescriptor) : Prop :=
  mTagToNameMap d' = mTagToNameMap d ∧ mTagToTypeMap d' = mTagToTypeMap d ∧
  mSections d' = mSections d ∧ mTagCount d' = mTagCount d.

Lemma same_tags_trans d d' d'' : same_tags d d' → same_tags d' d'' → same_tags d d''.
Proof. intros (? & ? & ? & ?) (? & ? & ? & ?). split_and!; congruence. Qed.

Lemma read_link_linked tags done d d' :
  linked done d → read_link tags d = Some d' →
  linked (done ++ tags) d' ∧ same_tags d d' ∧ mTagToSectionMap d' = mTagToSectionMap d.
Proof.
  revert done d. induction tags as [|t tags IH]; intros done d Hl; cbn.
  - intros [= <-]. rewrite app_nil_r. by split_and!.
  - intros (i & Hi & (s & Hs & (n & Hn & Hd)%bind_Some)%bind_Some)%bind_Some.
    assert (Hso : section_of d t = Some s) by (unfold section_of; rewrite Hi; exact Hs).
    destruct (IH (done ++ [t]) (set_reverse s n t d)) as (Hl' & Hsame & Hsec).
    + by apply linked_set_reverse.
    + exact Hd.
    + rewrite <- (assoc_L (++)) in Hl'. split_and!; [exact Hl'| |exact Hsec].
      by eapply same_tags_trans; [|exact Hsame].
Qed.

Lemma read_link_total tags d :
  (∀ t, t ∈ tags → ∃ s n, section_of d t = Some s ∧ mTagToNameMap d !! t = Some n) →
  is_Some (read_link tags d).
Proof.
  revert d. induction tags as [|t tags IH]; intros d Ht; cbn; [done|].
  destruct (Ht t) as (s & n & Hs & Hn); [left|]. unfold section_of in Hs.
  apply bind_Some in Hs as (i & -> & Hs). cbn. rewrite Hs, Hn. cbn. apply IH.
  intros t' Ht'. apply Ht. by right.
Qed.

Lemma section_of_set t i d t' :
  section_of (set_section_index t i d) t' =
    if decide (t' = t) then section_at (mSections d) i else section_of d t'.
Proof.
  unfold section_of, set_section_index. cbn. case_decide as Ht; [subst; by rewrite lookup_insert_eq|].
  by rewrite lookup_insert_ne.
Qed.

Lemma ops_link_linked tags done sections t2s d d' :
  linked done d → mSections d = sections → (∀ t, t ∈ done → section_of d t = t2s !! t) →
  ops_link tags sections t2s d = Some d' →
  linked (done ++ tags) d' ∧ same_tags d d' ∧
  (∀ t, t ∈ done ++ tags → section_of d' t = t2s !! t) ∧
  (∀ t, is_Some (mTagToSectionMap d' !! t) ↔ is_Some (mTagToSectionMap d !! t) ∨ t ∈ tags).
Proof.
  revert done d. induction tags as [|t tags IH]; intros done d Hl Hsec Hdone; cbn.
  - intros [= <-]. rewrite app_nil_r. split_and!; [done|done|done|]. set_solver.
  - intros (s & Hs & (i & Hi & (n & Hn & Hd)%bind_Some)%bind_Some)%bind_Some. cbn in Hn.
    apply section_at_index in Hi. rewrite <- Hsec in Hi.
    assert (Hso : ∀ t', section_of (set_section_index t i d) t' =
                    if decide (t' = t) then Some s else section_of d t').
    { intros t'. rewrite section_of_set. by rewrite Hi. }
    assert (Hl' : linked done (set_section_index t i d)).
    { apply (linked_sections done d); [done..|]. intros t' Ht'. rewrite Hso.
      case_decide as Ht; [subst; rewrite Hdone by done; congruence|done]. }
    destruct (IH (done ++ [t]) (set_reverse s n t (set_section_index t i d))) as (Hl'' & Hsame & Hs' & Hdom).
    + apply linked_set_reverse; [done|exact Hn|]. rewrite Hso. by rewrite decide_True.
    + exact Hsec.
    + intros t' Ht'. change (section_of (set_section_index t i d) t' = t2s !! t'). rewrite Hso.
      case_decide as Ht; [by subst|]. apply Hdone. set_solver.
    + exact Hd.
    + rewrite <- !(assoc_L (++)) in *. split_and!; [exact Hl''| |exact Hs'|].
      * by eapply same_tags_trans; [|exact Hsame].
      * intros t'. rewrite Hdom. cbn. rewrite elem_of_cons. destruct (decide (t' = t)) as [->|Hne].
        -- rewrite lookup_insert_eq. naive_solver.
        -- rewrite lookup_insert_ne by done. naive_solver.
Qed.

(** ** Consistent descriptors *)

Record consistent (d : VendorTagDescriptor) (tags : list Z) : Prop := {
  cs_linked : linked tags d;
  cs_names t : is_Some (mTagToNameMap d !! t) ↔ t ∈ tags;
  cs_sections t : is_Some (mTagToSectionMap d !! t) ↔ t ∈ tags;
  cs_types t : is_Some (mTagToTypeMap d !! t) ↔ t ∈ tags;
  cs_sorted : StronglySorted strcmp_lt (mSections d);
  cs_vendor t : t ∈ tags → CAMERA_METADATA_VENDOR_TAG_BOUNDARY <= t;
  cs_range t y : mTagToTypeMap d !! t = Some y → 0 <= y < NUM_TYPES
}.

(** What a tag's functions give, all of it admitted. *)
Definition described (vOps : vendor_tag_ops) (t : Z) : Prop :=
  CAMERA_METADATA_VENDOR_TAG_BOUNDARY <= t ∧ is_Some (get_tag_name vOps t) ∧
  is_Some (get_section_name vOps t) ∧ 0 <= get_tag_type vOps t < NUM_TYPES.

(** A map that has got the values of [f] for [tags]. *)
Definition filled {A} (m m' : gmap Z A) (tags : list Z) (f : Z → option A) : Prop :=
  ∀ t, m' !! t = if decide (t ∈ tags) then f t else m !! t.

Lemma filled_nil {A} (m : gmap Z A) f : filled m m [] f.
Proof. intros t. rewrite decide_False; [done|]. apply not_elem_of_nil. Qed.

Lemma filled_cons {A} (m m' : gmap Z A) t a tags f :
  f t = Some a → filled (<[t := a]> m) m' tags f → filled m m' (t :: tags) f.
Proof.
  intros Ha Hf t'. rewrite Hf. destruct (decide (t' = t)) as [->|Hne].
  - rewrite (decide_True (P := t ∈ t :: tags)) by left. rewrite lookup_insert_eq, Ha.
    by destruct (decide (t ∈ tags)).
  - rewrite lookup_insert_ne by done. apply decide_ext. set_solver.
Qed.

Lemma ops_tags_filled vOps tags d secs t2s d' secs' t2s' :
  ops_tags vOps tags d secs t2s = Some (d', secs', t2s') →
  Forall (described vOps) tags ∧
  filled (mTagToNameMap d) (mTagToNameMap d') tags (get_tag_name vOps) ∧
  filled (mTagToTypeMap d) (mTagToTypeMap d') tags (λ t, Some (get_tag_type vOps t)) ∧
  filled t2s t2s' tags (get_section_name vOps) ∧
  mTagToSectionMap d' = mTagToSectionMap d ∧ mReverseMapping d' = mReverseMapping d ∧
  mTagCount d' = mTagCount d ∧
  (StronglySorted strcmp_lt secs → StronglySorted strcmp_lt secs') ∧
  (∀ s, s ∈ secs' ↔ s ∈ secs ∨ ∃ t, t ∈ tags ∧ get_section_name vOps t = Some s).
Proof.
  revert d secs t2s. induction tags as [|t tags IH]; intros d secs t2s; cbn.
  - intros [= <- <- <-]. split_and!; try apply filled_nil; try done. set_solver.
  - case_bool_decide as Hb; [done|]. intros (n & Hn & (s & Hs & Ho)%bind_Some)%bind_Some.
    destruct (bool_decide (get_tag_type vOps t < 0) || _) eqn:Hty; [done|].
    apply orb_false_iff in Hty as [H1%bool_decide_eq_false H2%bool_decide_eq_false].
    apply IH in Ho as (Hd & Hfn & Hft & Hfs & H3 & H4 & H5 & H6 & H7). split_and!.
    + constructor; [|done]. unfold described. rewrite Hn, Hs. split_and!; [lia|by eexists..|lia|lia].
    + by apply (filled_cons _ _ t n).
    + by apply (filled_cons _ _ t (get_tag_type vOps t)).
    + by apply (filled_cons _ _ t s).
    + exact H3.
    + exact H4.
    + exact H5.
    + intros Hso. by apply H6, sorted_add_sorted.
    + intros s'. rewrite H7, sorted_add_elem. set_solver.
Qed.

Lemma ops_consistent vOps d :
  createDescriptorFromOps (Some vOps) = Done (OK, Some d) →
  ∃ tags, tag_array (get_tag_count vOps) (get_all_tags vOps) = Some tags ∧ consistent d tags ∧
    mTagCount d = get_tag_count vOps ∧ Forall (described vOps) tags ∧
    (∀ t, t ∈ tags → mTagToNameMap d !! t = get_tag_name vOps t ∧
       section_of d t = get_section_name vOps t ∧ mTagToTypeMap d !! t = Some (get_tag_type vOps t)) ∧
    (∀ s, s ∈ mSections d ↔ ∃ t, t ∈ tags ∧ get_section_name vOps t = Some s).
Proof.
  cbn. case_bool_decide; [by intros [=]|].
  destruct (tag_array _ _) as [tags|] eqn:Ht; [|done]. intros Hc. exists tags. split; [done|].
  destruct (ops_tags vOps tags _ [] ∅) as [[[d1 secs] t2s]|] eqn:Ho; [|done].
  apply ops_tags_filled in Ho as (Hd & Hfn & Hft & Hfs & H3 & H4 & H5 & H6 & H7).
  destruct (ops_link _ _ _ _) as [d2|] eqn:Hl; [|done]. injection Hc as ->.
  rename d into d2. rewrite Forall_forall in Hd. cbn in *.
  assert (H0 : linked [] (set_sections secs d1)) by (apply linked_start; exact H4).
  destruct (ops_link_linked tags [] secs t2s _ _ H0 eq_refl ltac:(set_solver) Hl) as (Hlk & Hsame & Hso & Hdom).
  destruct Hsame as (Hn & Hty & Hse & Hco). cbn in *.
  assert (Hnames : ∀ t, mTagToNameMap d2 !! t = if decide (t ∈ tags) then get_tag_name vOps t else None).
  { intros t. rewrite Hn, Hfn. case_decide; [done|]. apply lookup_empty. }
  assert (Htypes : ∀ t, mTagToTypeMap d2 !! t = if decide (t ∈ tags) then Some (get_tag_type vOps t) else None).
  { intros t. rewrite Hty, Hft. case_decide; [done|]. apply lookup_empty. }
  split_and!.
  - split; [exact Hlk|..].
    + intros t. rewrite Hnames. case_decide as Hin; [|by split; [intros []|]].
      destruct (Hd t Hin) as (_ & ? & _). done.
    + intros t. rewrite Hdom, H3, lookup_empty. rewrite is_Some_alt. naive_solver.
    + intros t. rewrite Htypes. case_decide; [naive_solver|]. by split; [intros []|].
    + rewrite Hse. apply H6. constructor.
    + intros t Hin. by destruct (Hd t Hin).
    + intros t y. rewrite Htypes. case_decide as Hin; [|done]. intros [= <-].
      by destruct (Hd t Hin) as (_ & _ & _ & ?).
  - by rewrite Hco.
  - by rewrite Forall_forall.
  - intros t Hin. rewrite Hnames, Htypes, !decide_True by done. split_and!; [done| |done].
    rewrite Hso by done. rewrite Hfs. by rewrite decide_True.
  - intros s. rewrite Hse, H7. set_solver.
Qed.

(** What has been read so far. *)
Record reading_ok (r : reading) : Prop := {
  ro_names t : is_Some (mTagToNameMap (rd_desc r) !! t) ↔ t ∈ rd_tags r;
  ro_sections t : is_Some (mTagToSectionMap (rd_desc r) !! t) ↔ t ∈ rd_tags r;
  ro_types t : is_Some (mTagToTypeMap (rd_desc r) !! t) ↔ t ∈ rd_tags r;
  ro_vendor t : t ∈ rd_tags r → CAMERA_METADATA_VENDOR_TAG_BOUNDARY <= t;
  ro_range t y : mTagToTypeMap (rd_desc r) !! t = Some y → 0 <= y < NUM_TYPES;
  ro_reverse : mReverseMapping (rd_desc r) = ∅;
  ro_index t i : mTagToSectionMap (rd_desc r) !! t = Some i → 0 <= i <= rd_max r;
  ro_max : 0 <= rd_max r < 2 ^ 32
}.

Lemma reading_start tagCount : reading_ok (Reading (new_descriptor tagCount) 0 []).
Proof.
  split; cbn; try done; intros t; try (intros i; by rewrite lookup_empty); rewrite ?lookup_empty; try (split; [by intros []|by intros ?%elem_of_nil]).
  by intros ?%elem_of_nil.
Qed.

Lemma insert_known {A} (m : gmap Z A) t a tags t' :
  (∀ t, is_Some (m !! t) ↔ t ∈ tags) → is_Some (<[t := a]> m !! t') ↔ t' ∈ tags ++ [t].
Proof.
  intros Hm. rewrite lookup_insert_is_Some, Hm. destruct (decide (t = t')); set_solver.
Qed.

Lemma reading_note tag tagType tagName sectionIndex r :
  CAMERA_METADATA_VENDOR_TAG_BOUNDARY <= tag → 0 <= tagType < NUM_TYPES → is_u32 sectionIndex →
  reading_ok r → reading_ok (note_tag tag tagType tagName sectionIndex r).
Proof.
  intros Hv Hy Hi [H1 H2 H3 H4 H5 H6 H7 H8]. unfold is_u32 in Hi. split; cbn.
  - intros t. by apply insert_known.
  - intros t. by apply insert_known.
  - intros t. by apply insert_known.
  - intros t [Ht| ->%list_elem_of_singleton]%elem_of_app; [by apply H4|done].
  - intros t y [[<- <-]|[_ Hl]]%lookup_insert_Some; [done|by eapply H5].
  - done.
  - intros t i [[<- <-]|[_ Hl]]%lookup_insert_Some; [case_decide; lia|].
    specialize (H7 t i Hl). case_decide; lia.
  - case_decide; lia.
Qed.

(** Another status is not OK. *)
Ltac no_status := let Hr := fresh in intros Hr; injection Hr; intros; (contradiction || done).

(** An error comes without a descriptor. *)
Ltac no_descriptor := split; [intros ?; contradiction || done|by intros [? ?]].

Lemma strictly_sorted_nodup l : StronglySorted strcmp_lt l → NoDup l.
Proof.
  induction 1 as [|x l Hl IH Hx]; constructor; [|done]. intros Hin.
  rewrite Forall_forall in Hx. by destruct (Hx x Hin).
Qed.

Section from_parcel.
  Context {P : Type} `{!Parcel P} `{!ParcelObjects P} (setCapacity : Z → Z).

Lemma read_tags_ok n r (p : P) : reading_ok r → reading_ok (read_tags n r p).1.2.
Proof.
  revert r p. induction n as [|n IH]; intros r p Hr; cbn [read_tags]; [done|].
  destruct (readInt32 p) as [[res tag] p1]. case_bool_decide; [done|].
  case_bool_decide as Hv; [done|]. destruct (readInt32 p1) as [[res2 ty] p2]. case_bool_decide; [done|].
  destruct (bool_decide (ty < 0) || _) eqn:Hty; [done|].
  apply orb_false_iff in Hty as [H1%bool_decide_eq_false H2%bool_decide_eq_false].
  destruct (readString8 p2) as [name p3]. case_bool_decide; [done|].
  destruct (readInt32 p3) as [[res3 index] p4]. case_bool_decide; [done|].
  apply IH, reading_note; [lia|lia|apply u32_range|done].
Qed.

Lemma read_tags_length n r (p : P) r' p' :
  read_tags n r p = (OK, r', p') → length (rd_tags r') = (length (rd_tags r) + n)%nat.
Proof.
  revert r p. induction n as [|n IH]; intros r p; cbn [read_tags]; [intros [= <- _]; lia|].
  destruct (readInt32 p) as [[res tag] p1]. case_bool_decide; [by no_status|]. case_bool_decide; [by no_status|].
  destruct (readInt32 p1) as [[res2 ty] p2]. case_bool_decide; [by no_status|].
  destruct (bool_decide (ty < 0) || _); [by no_status|].
  destruct (readString8 p2) as [name p3]. case_bool_decide; [by no_status|].
  destruct (readInt32 p3) as [[res3 index] p4]. case_bool_decide; [by no_status|].
  intros Hr. rewrite (IH _ _ Hr). cbn. rewrite length_app. cbn. lia.
Qed.

Lemma read_sections_sorted n l (p : P) :
  StronglySorted strcmp_lt l → StronglySorted strcmp_lt (read_sections n l p).1.2.
Proof.
  revert l p. induction n as [|n IH]; intros l p Hl; cbn [read_sections]; [done|].
  destruct (readString8 p) as [s p1]. case_bool_decide; [done|]. by apply IH, sorted_add_sorted.
Qed.

Lemma read_all_sections_sorted tagCount m (p : P) res l p' :
  read_all_sections setCapacity tagCount m p = Some (res, l, p') → StronglySorted strcmp_lt l.
Proof.
  unfold read_all_sections. case_bool_decide; [|intros [= <- <- <-]; constructor].
  destruct (readInt32 p) as [[r c] p1]. case_bool_decide; [intros [= <- <- <-]; constructor|].
  case_bool_decide; [intros [= <- <- <-]; constructor|]. case_bool_decide; [done|].
  intros [= Hr]. pose proof (read_sections_sorted (Z.to_nat (u32 c)) [] p1 ltac:(constructor)) as Hs.
  by rewrite Hr in Hs.
Qed.

Lemma parcel_consistent parcel res d p' :
  createFromParcel setCapacity parcel = Done (res, Some d, p') → res = OK ∧ ∃ tags, consistent d tags.
Proof.
  destruct parcel as [p|]; [|done]. cbn. destruct (readInt32 p) as [[r0 tagCount] p0].
  case_bool_decide; [done|]. case_bool_decide; [done|].
  pose proof (read_tags_ok (Z.to_nat tagCount) _ p0 (reading_start tagCount)) as Hr.
  destruct (read_tags _ _ p0) as [[r1 r] p1]. cbn in Hr. case_bool_decide; [done|].
  destruct (read_all_sections _ _ _ _) as [[[r2 l] p2]|] eqn:Hl; [|done]. case_bool_decide; [done|].
  destruct (read_link _ _) as [d'|] eqn:Hd; [|done]. intros [= <- -> <-]. split; [done|]. exists (rd_tags r).
  apply read_all_sections_sorted in Hl. destruct Hr as [Hro1 Hro2 Hro3 Hro4 Hro5 Hro6 _ _].
  assert (Hlk0 : linked [] (set_sections l (rd_desc r))) by (apply linked_start; exact Hro6).
  destruct (read_link_linked _ [] _ _ Hlk0 Hd) as (Hlk & (Hn & Hy & Hs & _) & Hse). cbn in *.
  split; rewrite ?Hn, ?Hy, ?Hs, ?Hse; done.
Qed.

(** The names of [n] sections as they come in a parcel. *)
Fixpoint section_names (n : nat) (p : P) : list chars :=
  match n with
  | O => []
  | S n => let '(s, p) := readString8 p in s :: section_names n p
  end.

(** A parcel that has the tags [r], all of them admitted, and the announcement of
    [count] sections with the names [names]. *)
Definition announces (p : P) (r : reading) (count : Z) (names : list chars) : Prop :=
  ∃ tagCount p0 p1 p2,
    readInt32 p = (OK, tagCount, p0) ∧
    read_tags (Z.to_nat tagCount) (Reading (new_descriptor tagCount) 0 []) p0 = (OK, r, p1) ∧
    readInt32 p1 = (OK, count, p2) ∧ names = section_names (Z.to_nat (u32 count)) p2.

Lemma sorted_adds_elem l names x : x ∈ foldl (λ l x, sorted_add x l) l names ↔ x ∈ l ∨ x ∈ names.
Proof.
  revert l. induction names as [|y names IH]; intros l; cbn; [set_solver|].
  rewrite IH, sorted_add_elem. set_solver.
Qed.

Lemma read_sections_names n l (p : P) l' p' :
  read_sections n l p = (OK, l', p') →
  l' = foldl (λ l x, sorted_add x l) l (section_names n p) ∧ length (section_names n p) = n.
Proof.
  revert l p. induction n as [|n IH]; intros l p; cbn [read_sections section_names].
  - by intros [= <- _].
  - destruct (readString8 p) as [s p1]. case_bool_decide; [by no_status|]. intros Hr.
    destruct (IH _ _ Hr) as [-> Hl]. split; [done|]. cbn. by rewrite Hl.
Qed.

(** As many sections as were announced, when no two have the same name. *)
Lemma read_sections_count n (p : P) l' p' :
  read_sections n [] p = (OK, l', p') → NoDup (section_names n p) → length l' = n.
Proof.
  intros Hr Hn. pose proof (read_sections_sorted n [] p ltac:(constructor)) as Hs. rewrite Hr in Hs.
  apply read_sections_names in Hr as [-> Hl]. rewrite <- Hl at 2.
  apply Permutation_length, NoDup_Permutation; [by apply strictly_sorted_nodup|done|].
  intros x. rewrite sorted_adds_elem. set_solver.
Qed.

(** How reading a parcel ends. *)
Lemma parcel_outcome (parcel : option P) :
  (∀ n, 0 < n → 0 < setCapacity n) →
  match createFromParcel setCapacity parcel with
  | Done (res, d, _) => res = OK ↔ is_Some d
  | Fatal => ∃ p r count names, parcel = Some p ∧ announces p r count names ∧
      rd_max r = 2 ^ 32 - 1 ∧ u32 count = 0
  | OutOfBounds => ∃ p r count names, parcel = Some p ∧ announces p r count names ∧
      (rd_max r = 2 ^ 32 - 1 ∨ ¬ NoDup names)
  end.
Proof.
  intros Hcap. destruct parcel as [p|]; [|by no_descriptor]. cbn [createFromParcel].
  destruct (readInt32 p) as [[r0 tagCount] p0] eqn:Hp.
  case_bool_decide as Hr0; [by no_descriptor|]. case_bool_decide; [by no_descriptor|].
  pose proof (read_tags_ok (Z.to_nat tagCount) _ p0 (reading_start tagCount)) as Hok.
  destruct (read_tags _ _ p0) as [[r1 r] p1] eqn:Htags. cbn in Hok.
  case_bool_decide as Hr1; [by no_descriptor|].
  assert (r0 = OK) as -> by (by destruct (decide (r0 = OK))).
  assert (r1 = OK) as -> by (by destruct (decide (r1 = OK))).
  unfold read_all_sections. case_bool_decide as Hpos.
  2: { rewrite status_ok. apply read_tags_length in Htags. cbn in Htags.
       destruct (rd_tags r); [by split|cbn in Htags; lia]. }
  destruct (readInt32 p1) as [[r2 count] p2] eqn:Hcount.
  case_bool_decide as Hr2; [by rewrite bool_decide_true by done; split; [|intros []]|].
  assert (r2 = OK) as -> by (by destruct (decide (r2 = OK))).
  case_bool_decide as Hlt; [by no_descriptor|].
  assert (Hann : announces p r count (section_names (Z.to_nat (u32 count)) p2)) by (by exists tagCount, p0, p1, p2).
  pose proof (u32_range count) as Hu. pose proof (ro_max r Hok) as Hmax. unfold is_u32 in Hu.
  assert (Hwrap : u32 (rd_max r + 1) <= u32 count → rd_max r = 2 ^ 32 - 1 ∨ rd_max r < u32 count).
  { intros Hle. destruct (decide (rd_max r = 2 ^ 32 - 1)); [by left|right].
    rewrite u32_small in Hle by (unfold is_u32; lia). lia. }
  specialize (Hwrap ltac:(lia)). case_bool_decide as Hc.
  { exists p, r, count, (section_names (Z.to_nat (u32 count)) p2). split_and!; [done..| |].
    - destruct Hwrap; [done|]. specialize (Hcap (u32 count)). lia.
    - specialize (Hcap (u32 count)). lia. }
  destruct (read_sections _ [] p2) as [[r3 l] p3] eqn:Hsec.
  case_bool_decide as Hr3; [by no_descriptor|].
  assert (r3 = OK) as -> by (by destruct (decide (r3 = OK))).
  destruct (read_link _ _) as [d|] eqn:Hlink; [by split|].
  exists p, r, count, (section_names (Z.to_nat (u32 count)) p2). split_and!; [done..|].
  destruct Hwrap as [?|Hlow]; [by left|right]. intros Hn.
  apply (read_sections_count _ _ _ _ Hsec) in Hn.
  destruct (read_link_total (rd_tags r) (set_sections l (rd_desc r))) as [d Hd]; [|congruence].
  intros t Ht. destruct (proj2 (ro_names r Hok t) Ht) as [n Hname], (proj2 (ro_sections r Hok t) Ht) as [i Hi].
  pose proof (ro_index r Hok t i Hi). unfold section_of, section_at. cbn. rewrite Hi. cbn.
  rewrite decide_True by lia. destruct (lookup_lt_is_Some_2 l (Z.to_nat i)) as [s Hs]; [lia|]. eauto.
Qed.

End from_parcel.

(** How making a descriptor from a library's functions ends. *)
Lemma ops_link_total tags sections t2s d :
  (∀ t, t ∈ tags → is_Some (mTagToNameMap d !! t) ∧ ∃ s, t2s !! t = Some s ∧ s ∈ sections) →
  is_Some (ops_link tags sections t2s d).
Proof.
  revert d. induction tags as [|t tags IH]; intros d Ht; cbn; [done|].
  destruct (Ht t) as ([n Hn] & s & Hs & Hin); [left|]. rewrite Hs. cbn.
  destruct (indexOf_elem sections s Hin) as [i ->]. cbn. rewrite Hn. cbn. apply IH.
  intros t' Ht'. apply Ht. by right.
Qed.

Lemma ops_outcome vOps :
  match createDescriptorFromOps vOps with
  | Done (res, d) => res = OK ↔ is_Some d
  | Fatal => False
  | OutOfBounds => ∃ ops, vOps = Some ops ∧ get_tag_count ops < Z.of_nat (length (get_all_tags ops))
  end.
Proof.
  destruct vOps as [vOps|]; [|by no_descriptor]. cbn.
  case_bool_decide; [by no_descriptor|]. unfold tag_array. case_decide; [|exists vOps; split; [done|lia]].
  set (tags := _ ++ _). destruct (ops_tags vOps tags _ [] ∅) as [[[d1 secs] t2s]|] eqn:Ho; [|by no_descriptor].
  apply ops_tags_filled in Ho as (Hd & Hfn & _ & Hfs & _ & _ & _ & _ & H7). rewrite Forall_forall in Hd.
  destruct (ops_link_total tags secs t2s (set_sections secs d1)) as [d ->]; [|by split].
  intros t Ht. destruct (Hd t Ht) as (_ & Hn & [s Hs] & _). cbn. rewrite Hfn, Hfs, !decide_True by done.
  split; [done|]. exists s. split; [done|]. apply H7. right. by exists t.
Qed.

(** ** Answers *)

Lemma tags_of_elem d tags t : consistent d tags → t ∈ tags_of d ↔ t ∈ tags.
Proof.
  intros Hc. unfold tags_of. rewrite (merge_sort_Permutation Z.le).
  rewrite <- (cs_names d tags Hc t). rewrite list_elem_of_fmap. split.
  - intros ([t' n] & -> & Ht%elem_of_map_to_list). by exists n.
  - intros [n Hn]. exists (t, n). split; [done|]. by apply elem_of_map_to_list.
Qed.

Lemma section_known d tags t :
  consistent d tags → t ∈ tags → ∃ s n y i, section_of d t = Some s ∧ mTagToNameMap d !! t = Some n ∧
    mTagToTypeMap d !! t = Some y ∧ mTagToSectionMap d !! t = Some i ∧ section_at (mSections d) i = Some s.
Proof.
  intros Hc Ht. destruct (ln_there _ _ (cs_linked d tags Hc) t Ht) as (s & n & Hn & Hs & _).
  destruct (proj2 (cs_types d tags Hc t) Ht) as [y Hy]. pose proof Hs as Hs'. unfold section_of in Hs'.
  apply bind_Some in Hs' as (i & Hi & Hsi). by exists s, n, y, i.
Qed.

Lemma sorted_strict l : StronglySorted Z.le l → NoDup l → StronglySorted Z.lt l.
Proof.
  induction 1 as [|x l Hl IH Hx]; [constructor|]. intros [Hn Hnd]%NoDup_cons. constructor; [by apply IH|].
  rewrite Forall_forall in Hx |- *. intros y Hy. specialize (Hx y Hy).
  destruct (decide (x = y)) as [->|]; [done|lia].
Qed.

Lemma tags_of_strict d : StronglySorted Z.lt (tags_of d).
Proof.
  apply sorted_strict; [apply (StronglySorted_merge_sort _)|].
  unfold tags_of. rewrite (merge_sort_Permutation Z.le). apply NoDup_fst_map_to_list.
Qed.

Lemma tags_of_length d : length (tags_of d) = size (mTagToNameMap d).
Proof.
  unfold tags_of. rewrite (Permutation_length (merge_sort_Permutation Z.le _)).
  rewrite length_fmap. apply length_map_to_list.
Qed.

Lemma lookup_reverse d n s t : lookupTag d n s = (OK, Some t) ↔ reverse_of d s n = Some t.
Proof.
  unfold lookupTag, reverse_of. destruct (mReverseMapping d !! s) as [m|]; cbn; [|by split].
  destruct (m !! n); cbn; [|by split]. split; [by intros [= ->]|by intros [= ->]].
Qed.

Section writing.
  Context {P : Type} `{!Parcel P} `{!ParcelObjects P}.

Lemma write_tags_total d tags l (p : P) :
  consistent d tags → (∀ t, t ∈ l → t ∈ tags) → is_Some (write_tags d l p).
Proof.
  intros Hc. revert p. induction l as [|t l IH]; intros p Hl; cbn; [done|].
  destruct (section_known d tags t Hc) as (s & n & y & i & _ & -> & -> & -> & _); [apply Hl; left|]. cbn.
  repeat (destruct (writeInt32 _ _) as [? ?] || destruct (writeString8 _ _) as [? ?]
          || (case_bool_decide; [done|])).
  apply IH. intros t' Ht'. apply Hl. by right.
Qed.

Lemma writeToParcel_total d tags (parcel : option P) : consistent d tags → is_Some (writeToParcel d parcel).
Proof.
  intros Hc. destruct parcel as [p|]; cbn; [|done]. destruct (writeInt32 _ p) as [r p1].
  case_bool_decide; [done|].
  destruct (write_tags_total d tags (tags_of d) p1 Hc) as [[r2 p2] ->]; [intros t; by apply tags_of_elem|].
  cbn. destruct (mSections d); [done|]. destruct (writeInt32 _ p2) as [r3 p3]. case_bool_decide; [done|].
  by repeat case_match.
Qed.

(** The answers of a descriptor that agree with each other. *)
Record answers (d : VendorTagDescriptor) : Prop := {
  an_written (out : option P) : is_Some (writeToParcel d out);
  an_tag t : ∃ s y, getSectionName d t = Some s ∧ getTagType d t = Some y ∧
     (is_Some (getTagName d t) ↔ is_Some s) ∧ (is_Some s ↔ 0 <= y < NUM_TYPES);
  an_sorted : StronglySorted Z.lt (getTagArray d);
  an_array t : t ∈ getTagArray d ↔ is_Some (getTagName d t);
  an_count : getTagCount d = -1 ∧ getTagArray d = [] ∨ getTagCount d = Z.of_nat (length (getTagArray d));
  an_found n s t : lookupTag d n s = (OK, Some t) →
     getTagName d t = Some n ∧ getSectionName d t = Some (Some s);
  an_finds n s t : getTagName d t = Some n → getSectionName d t = Some (Some s) →
     ∃ t', lookupTag d n s = (OK, Some t')
}.

Lemma consistent_answers d tags : consistent d tags → answers d.
Proof.
  intros Hc. split.
  - intros out. by apply (writeToParcel_total d tags).
  - intros t. destruct (decide (t ∈ tags)) as [Ht|Ht].
    + destruct (section_known d tags t Hc Ht) as (s & n & y & i & Hs & Hn & Hy & Hi & Hsi).
      exists (Some s), y. unfold getSectionName, getTagType, getTagName. rewrite Hi, Hn, Hy. cbn. rewrite Hsi.
      pose proof (cs_range d tags Hc t y Hy). split_and!; done.
    + exists None, (-1). unfold getSectionName, getTagType, getTagName.
      rewrite <- (cs_sections d tags Hc t), <- eq_None_not_Some in Ht. rewrite Ht.
      assert (mTagToNameMap d !! t = None) as ->.
      { apply eq_None_not_Some. rewrite (cs_names d tags Hc), <- (cs_sections d tags Hc). by rewrite Ht. }
      split_and!; try done. split; [by intros []|lia].
  - apply tags_of_strict.
  - intros t. unfold getTagArray, getTagName. rewrite (tags_of_elem d tags) by done. by rewrite (cs_names d tags Hc).
  - unfold getTagArray, getTagCount. rewrite tags_of_length. case_decide as Hz; [left|by right].
    split; [done|]. apply length_zero_iff_nil. by rewrite tags_of_length.
  - intros n s t Hl%lookup_reverse. apply (ln_back _ _ (cs_linked d tags Hc)) in Hl as (Ht & Hn & Hs).
    split; [done|]. destruct (section_known d tags t Hc Ht) as (s' & n' & y & i & Hs' & _ & _ & Hi & Hsi).
    unfold getSectionName. rewrite Hi. cbn. rewrite Hsi. cbn. congruence.
  - intros n s t Hn Hs. assert (Ht : t ∈ tags) by (apply (cs_names d tags Hc); by exists n).
    destruct (ln_there _ _ (cs_linked d tags Hc) t Ht) as (s' & n' & Hn' & Hs' & [t' Ht']).
    exists t'. apply lookup_reverse. unfold getTagName in Hn. rewrite <- Ht'.
    destruct (section_known d tags t Hc Ht) as (s'' & _ & _ & i & Hs'' & _ & _ & Hi & Hsi).
    unfold getSectionName in Hs. rewrite Hi in Hs. cbn in Hs. rewrite Hsi in Hs. cbn in Hs. congruence.
Qed.


End writing.

(** ** Descriptors through parcels *)

Section roundtrip.
  Context {P : Type} `{ParcelObjectLaws P} (setCapacity : Z → Z).
  Implicit Types p q : P.

(** What a tag is in a parcel. *)
Definition tag_items (d : VendorTagDescriptor) (t : Z) : list pitem :=
  match mTagToNameMap d !! t, mTagToSectionMap d !! t, mTagToTypeMap d !! t with
  | Some n, Some i, Some y => [PInt32 (s32 t); PInt32 y; PString8 n; PInt32 (s32 i)]
  | _, _, _ => []
  end.

(** A tag that a reader admits, of one of [B] sections. *)
Definition tag_portable (d : VendorTagDescriptor) (B t : Z) : Prop :=
  ∃ n i y, mTagToNameMap d !! t = Some n ∧ mTagToSectionMap d !! t = Some i ∧
    mTagToTypeMap d !! t = Some y ∧ CAMERA_METADATA_VENDOR_TAG_BOUNDARY <= t < 2 ^ 32 ∧
    n ≠ [] ∧ 0 <= i < B ∧ 0 <= y < NUM_TYPES.

Lemma write_tags_items d B l p :
  Forall (tag_portable d B) l → has_space p →
  ∃ p', write_tags d l p = Some (OK, p') ∧ has_space p' ∧ unread p' = unread p ++ (l ≫= tag_items d).
Proof.
  intros Hl. revert p. induction Hl as [|t l (n & i & y & Hn & Hi & Hy & _) Hl IH]; intros p Hp; cbn.
  - exists p. by rewrite app_nil_r.
  - unfold tag_items at 1. rewrite Hn, Hi, Hy. cbn.
    destruct (put_int32 (s32 t) p Hp) as (p1 & -> & Hp1 & E1). cbn.
    destruct (put_int32 y p1 Hp1) as (p2 & -> & Hp2 & E2). cbn.
    destruct (put_string8 n p2 Hp2) as (p3 & -> & Hp3 & E3). cbn.
    destruct (put_int32 (s32 i) p3 Hp3) as (p4 & -> & Hp4 & E4). cbn.
    destruct (IH p4 Hp4) as (p5 & -> & Hp5 & E5). exists p5. split_and!; [done..|].
    by rewrite E5, E4, E3, E2, E1, <- !(assoc_L (++)).
Qed.

Lemma write_sections_items l p :
  has_space p → ∃ p', write_sections l p = (OK, p') ∧ has_space p' ∧ unread p' = unread p ++ (PString8 <$> l).
Proof.
  revert p. induction l as [|s l IH]; intros p Hp; cbn.
  - exists p. by rewrite app_nil_r.
  - destruct (put_string8 s p Hp) as (p1 & -> & Hp1 & E1). cbn.
    destruct (IH p1 Hp1) as (p2 & -> & Hp2 & E2). exists p2. split_and!; [done..|].
    by rewrite E2, E1, <- (assoc_L (++)).
Qed.

Lemma u32_of_s32 z : 0 <= z < 2 ^ 32 → u32 (s32 z) = z.
Proof. intros Hz. rewrite u32_s32. by apply u32_small. Qed.

Lemma read_tags_items d B l r q rest :
  B <= 2 ^ 32 → Forall (tag_portable d B) l → unread q = (l ≫= tag_items d) ++ rest →
  ∃ r' q', read_tags (length l) r q = (OK, r', q') ∧ unread q' = rest ∧ rd_tags r' = rd_tags r ++ l ∧
    filled (mTagToNameMap (rd_desc r)) (mTagToNameMap (rd_desc r')) l (λ t, mTagToNameMap d !! t) ∧
    filled (mTagToSectionMap (rd_desc r)) (mTagToSectionMap (rd_desc r')) l (λ t, mTagToSectionMap d !! t) ∧
    filled (mTagToTypeMap (rd_desc r)) (mTagToTypeMap (rd_desc r')) l (λ t, mTagToTypeMap d !! t) ∧
    mReverseMapping (rd_desc r') = mReverseMapping (rd_desc r) ∧
    mTagCount (rd_desc r') = mTagCount (rd_desc r) ∧
    (0 <= rd_max r < B → 0 <= rd_max r' < B).
Proof.
  intros HB Hl. revert r q. induction Hl as [|t l (n & i & y & Hn & Hi & Hy & Ht & Hne & Hib & Hyb) Hl IH];
    intros r q Hq; cbn [length read_tags].
  - exists r, q. rewrite app_nil_r. split_and!; try apply filled_nil; try done.
  - cbn in Hq. unfold tag_items at 1 in Hq. rewrite Hn, Hi, Hy in Hq. cbn in Hq.
    destruct (take_int32 _ _ _ Hq) as (q1 & -> & Hq1). cbn. rewrite (u32_of_s32 t) by (unfold CAMERA_METADATA_VENDOR_TAG_BOUNDARY in *; lia).
    rewrite bool_decide_false by lia. destruct (take_int32 _ _ _ Hq1) as (q2 & -> & Hq2). cbn.
    rewrite !(bool_decide_false (_ < _)), !(bool_decide_false (_ <= _)) by lia. cbn.
    destruct (take_one _ _ _ _ _ (readString8_law n) Hq2) as (q3 & -> & Hq3).
    rewrite status_ok, (bool_decide_false (n = [])) by done. destruct (take_int32 _ _ _ Hq3) as (q4 & -> & Hq4). cbn.
    rewrite status_ok, u32_of_s32 by lia.
    destruct (IH (note_tag t y n i r) q4 Hq4) as (r' & q' & -> & E1 & E2 & E3 & E4 & E5 & E6 & E7 & E8).
    exists r', q'. split_and!; try done.
    + rewrite E2. cbn. by rewrite <- (assoc_L (++)).
    + by apply (filled_cons _ _ t n).
    + by apply (filled_cons _ _ t i).
    + by apply (filled_cons _ _ t y).
    + intros Hr. apply E8. cbn. case_decide; lia.
Qed.

Lemma read_sections_items l acc q rest :
  Forall (λ s, s ≠ []) l → unread q = (PString8 <$> l) ++ rest →
  ∃ q', read_sections (length l) acc q = (OK, foldl (λ l x, sorted_add x l) acc l, q') ∧ unread q' = rest.
Proof.
  intros Hl. revert acc q. induction Hl as [|s l Hs Hl IH]; intros acc q Hq; cbn.
  - by exists q.
  - destruct (take_one _ _ _ _ _ (readString8_law s) Hq) as (q1 & -> & Hq1).
    rewrite bool_decide_false by done. by apply IH.
Qed.

(** A descriptor that comes through a parcel as it is. *)
Record portable (d : VendorTagDescriptor) (tags : list Z) : Prop := {
  pt_consistent : consistent d tags;
  pt_tags : Forall (tag_portable d (Z.of_nat (length (mSections d)))) tags;
  pt_sections : Forall (λ s, s ≠ []) (mSections d);
  pt_unique t t' s n : mTagToNameMap d !! t = Some n → mTagToNameMap d !! t' = Some n →
    section_of d t = Some s → section_of d t' = Some s → t = t';
  pt_count : mTagCount d = Z.of_nat (size (mTagToNameMap d));
  pt_small : mTagCount d < 2 ^ 31 ∧ Z.of_nat (length (mSections d)) < 2 ^ 31;
  pt_empty : mSections d = [] ↔ tags = []
}.

Lemma portable_tags_of d tags :
  portable d tags → Forall (tag_portable d (Z.of_nat (length (mSections d)))) (tags_of d).
Proof.
  intros Hd. pose proof (pt_tags d tags Hd) as Ht. rewrite Forall_forall in Ht |- *.
  intros t Hin. apply Ht. by apply (tags_of_elem d tags t (pt_consistent d tags Hd)).
Qed.

Lemma filled_all {A} (m m' : gmap Z A) l :
  (∀ t, is_Some (m !! t) ↔ t ∈ l) → filled ∅ m' l (λ t, m !! t) → m' = m.
Proof.
  intros Hm Hf. apply map_eq. intros t. rewrite Hf. case_decide as Ht; [done|].
  rewrite lookup_empty. symmetry. apply eq_None_not_Some. by rewrite Hm.
Qed.

Lemma consistent_tags_of d tags : consistent d tags → ∀ t,
  (is_Some (mTagToNameMap d !! t) ↔ t ∈ tags_of d) ∧ (is_Some (mTagToSectionMap d !! t) ↔ t ∈ tags_of d) ∧
  (is_Some (mTagToTypeMap d !! t) ↔ t ∈ tags_of d).
Proof.
  intros Hc t. rewrite (tags_of_elem d tags) by done.
  by rewrite (cs_names d tags Hc), (cs_sections d tags Hc), (cs_types d tags Hc).
Qed.

(** Two full reverse mappings of the same tags are the same when no two tags
    share a name and a section. *)
Lemma linked_unique tags tags' d d' :
  linked tags d → linked tags' d' → (∀ t, t ∈ tags ↔ t ∈ tags') →
  mTagToNameMap d' = mTagToNameMap d → (∀ t, section_of d' t = section_of d t) →
  (∀ t t' s n, mTagToNameMap d !! t = Some n → mTagToNameMap d !! t' = Some n →
    section_of d t = Some s → section_of d t' = Some s → t = t') →
  mReverseMapping d' = mReverseMapping d.
Proof.
  intros Hl Hl' Htt Hn Hs Hu.
  assert (Hsub : ∀ s n t, reverse_of d' s n = Some t ↔ reverse_of d s n = Some t).
  { intros s n t. split; intros Hr.
    - destruct (ln_back _ _ Hl' s n t Hr) as (Hin & E1 & E2). rewrite Hn in E1. rewrite Hs in E2.
      destruct (ln_there _ _ Hl t) as (s' & n' & E3 & E4 & [t' E5]); [by apply Htt|].
      assert (s' = s) as -> by congruence. assert (n' = n) as -> by congruence. rewrite E5. f_equal.
      destruct (ln_back _ _ Hl s n t' E5) as (_ & E6 & E7). by apply (Hu t' t s n).
    - destruct (ln_back _ _ Hl s n t Hr) as (Hin & E1 & E2).
      destruct (ln_there _ _ Hl' t) as (s' & n' & E3 & E4 & [t' E5]); [by apply Htt|].
      rewrite Hn in E3. rewrite Hs in E4.
      assert (s' = s) as -> by congruence. assert (n' = n) as -> by congruence. rewrite E5. f_equal.
      destruct (ln_back _ _ Hl' s n t' E5) as (_ & E6 & E7). rewrite Hn in E6. rewrite Hs in E7.
      by apply (Hu t' t s n). }
  apply map_eq. intros s.
  assert (Hrev : ∀ n, reverse_of d' s n = reverse_of d s n) by (intros n; apply option_eq; intros t; apply Hsub).
  unfold reverse_of in Hrev. pose proof (ln_full _ _ Hl s) as F1. pose proof (ln_full _ _ Hl' s) as F2.
  destruct (mReverseMapping d' !! s) as [m'|], (mReverseMapping d !! s) as [m|]; cbn in Hrev.
  - f_equal. by apply map_eq.
  - destruct (F2 m' eq_refl). by apply map_eq.
  - destruct (F1 m eq_refl). by apply map_eq.
  - done.
Qed.

Definition descriptor_items (d : VendorTagDescriptor) : list pitem :=
  PInt32 (mTagCount d) :: (tags_of d ≫= tag_items d) ++
  match mSections d with
  | [] => []
  | l => PInt32 (Z.of_nat (length l)) :: (PString8 <$> l)
  end.

Lemma write_portable d tags p :
  portable d tags → has_space p →
  ∃ p', writeToParcel d (Some p) = Some (OK, Some p') ∧ unread p' = unread p ++ descriptor_items d.
Proof.
  intros Hd Hp. unfold writeToParcel, descriptor_items.
  destruct (put_int32 (mTagCount d) p Hp) as (p1 & -> & Hp1 & E1). rewrite status_ok.
  destruct (write_tags_items d _ (tags_of d) p1 (portable_tags_of d tags Hd) Hp1) as (p2 & -> & Hp2 & E2). cbn [mbind option_bind].
  pose proof (pt_small d tags Hd) as [_ Hsmall]. destruct (mSections d) as [|s l].
  - exists p2. split; [done|]. by rewrite E2, E1, app_nil_r, <- (assoc_L (++)).
  - rewrite s32_small by (unfold is_s32; split; [lia|exact Hsmall]).
    destruct (put_int32 (Z.of_nat (length (s :: l))) p2 Hp2) as (p3 & -> & Hp3 & E3). rewrite status_ok.
    destruct (write_sections_items (s :: l) p3 Hp3) as (p4 & -> & _ & E4). exists p4. split; [done|].
    by rewrite E4, E3, E2, E1, <- !(assoc_L (++)).
Qed.

Lemma read_all_sections_items d tags m q rest :
  portable d tags → (∀ n, 0 < n → 0 < setCapacity n) → (tags ≠ [] → 0 <= m < Z.of_nat (length (mSections d))) →
  unread q = match mSections d with [] => [] | l => PInt32 (Z.of_nat (length l)) :: (PString8 <$> l) end ++ rest →
  ∃ q', read_all_sections setCapacity (mTagCount d) m q = Some (OK, mSections d, q') ∧ unread q' = rest.
Proof.
  intros Hd Hcap Hm Hq. unfold read_all_sections. pose proof (pt_count d tags Hd) as Hcount.
  pose proof (pt_empty d tags Hd) as Hempty. pose proof (pt_small d tags Hd) as [_ Hsmall].
  assert (Hsize : 0 < mTagCount d ↔ tags ≠ []).
  { rewrite Hcount, <- tags_of_length. pose proof (tags_of_elem d tags) as Hel. split.
    - intros Hpos ->. destruct (tags_of d) as [|t l] eqn:Ht; [cbn in Hpos; lia|].
      apply (not_elem_of_nil t). rewrite <- (Hel t (pt_consistent d _ Hd)). left.
    - intros Hne. destruct (tags_of d) as [|t l]; [|cbn; lia]. destruct tags as [|t tags]; [done|].
      destruct (not_elem_of_nil t). apply (Hel t (pt_consistent d _ Hd)). left. }
  case_bool_decide as Hpos.
  - apply Hsize in Hpos. specialize (Hm Hpos). destruct (mSections d) as [|s l] eqn:Hs; [by destruct (Hpos (proj1 Hempty eq_refl))|].
    cbn [app] in Hq. destruct (take_int32 _ _ _ Hq) as (q1 & -> & Hq1). rewrite status_ok.
    rewrite (u32_small (Z.of_nat _)) by (unfold is_u32; lia). rewrite (u32_small (m + 1)) by (unfold is_u32; lia).
    rewrite (bool_decide_false (_ < _)) by lia.
    rewrite bool_decide_false by (pose proof (Hcap (Z.of_nat (length (s :: l)))); cbn [length] in *; lia).
    rewrite Nat2Z.id. pose proof (pt_sections d tags Hd) as Hne. rewrite Hs in Hne.
    destruct (read_sections_items (s :: l) [] q1 rest Hne Hq1) as (q2 & -> & Hq2).
    exists q2. split; [|done]. rewrite sorted_add_all; [done|].
    pose proof (cs_sorted d tags (pt_consistent d tags Hd)) as Hso. by rewrite Hs in Hso.
  - assert (tags = []) as Ht.
    { destruct tags; [done|]. destruct Hpos. by apply Hsize. }
    apply Hempty in Ht. rewrite Ht in Hq |- *. by exists q.
Qed.

Lemma read_portable d tags q rest :
  portable d tags → (∀ n, 0 < n → 0 < setCapacity n) → unread q = descriptor_items d ++ rest →
  ∃ q', createFromParcel setCapacity (Some q) = Done (OK, Some d, Some q') ∧ unread q' = rest.
Proof.
  intros Hd Hcap Hq. unfold createFromParcel. unfold descriptor_items in Hq. cbn [app] in Hq.
  pose proof (pt_consistent d tags Hd) as Hc. pose proof (pt_count d tags Hd) as Hcount.
  destruct (take_int32 _ _ _ Hq) as (q1 & -> & Hq1). rewrite status_ok, bool_decide_false by lia.
  rewrite <- (assoc_L (++)) in Hq1. pose proof (pt_small d tags Hd) as [_ Hsmall].
  assert (Hlen : Z.to_nat (mTagCount d) = length (tags_of d)) by (rewrite tags_of_length, Hcount; lia).
  rewrite Hlen.
  destruct (read_tags_items d (Z.of_nat (length (mSections d))) (tags_of d) (Reading (new_descriptor (mTagCount d)) 0 []) q1 _
              ltac:(lia) (portable_tags_of d tags Hd) Hq1)
    as (r & q2 & -> & Hq2 & E1 & E2 & E3 & E4 & E5 & E6 & E7).
  rewrite status_ok. cbn [rd_desc rd_max rd_tags new_descriptor mTagToNameMap mTagToSectionMap mTagToTypeMap] in *.
  apply filled_all in E2; [|intros t; apply (consistent_tags_of d tags Hc)].
  apply filled_all in E3; [|intros t; apply (consistent_tags_of d tags Hc)].
  apply filled_all in E4; [|intros t; apply (consistent_tags_of d tags Hc)].
  destruct (read_all_sections_items d tags (rd_max r) q2 rest Hd Hcap) as (q3 & -> & Hq3); [|done|].
  { intros Hne. apply E7. split; [done|]. destruct (mSections d) eqn:Hs; [|cbn; lia].
    by apply (pt_empty d tags Hd) in Hs. }
  rewrite status_ok. cbn [app] in E1. rewrite E1.
  assert (Hbase : same_tags d (set_sections (mSections d) (rd_desc r))) by (split_and!; done).
  destruct (read_link_total (tags_of d) (set_sections (mSections d) (rd_desc r))) as [d' Hd'].
  { intros t Ht%(tags_of_elem d tags t Hc). destruct (section_known d tags t Hc Ht) as (s & n & _ & _ & Hs & Hn & _).
    unfold section_of in *. cbn. rewrite E2, E3. eauto. }
  rewrite Hd'. exists q3. split; [|done].
  destruct (read_link_linked (tags_of d) [] _ d' (linked_start (set_sections (mSections d) (rd_desc r)) E5) Hd') as (Hl & Hsame & Hsec).
  pose proof (same_tags_trans _ _ _ Hbase Hsame) as (F1 & F2 & F3 & F4). cbn in Hsec.
  assert (F5 : mReverseMapping d' = mReverseMapping d).
  { apply (linked_unique tags (tags_of d) d d'); [apply Hc|exact Hl| |exact F1| |apply (pt_unique d tags Hd)].
    - intros t. symmetry. by apply tags_of_elem.
    - intros t. unfold section_of. by rewrite Hsec, E3, F3. }
  do 2 f_equal. f_equal. destruct d, d'. cbn in *. congruence.
Qed.

End roundtrip.

(** A library whose tags are numbers of 32 bits, each listed once, with names
    and sections that are not empty, no two tags having both in common. *)
Record proper (vOps : vendor_tag_ops) : Prop := {
  pr_count : get_tag_count vOps = Z.of_nat (length (get_all_tags vOps)) ∧ get_tag_count vOps < 2 ^ 31;
  pr_once : NoDup (get_all_tags vOps);
  pr_tags : Forall (λ t, t < 2 ^ 32 ∧ get_tag_name vOps t ≠ Some [] ∧ get_section_name vOps t ≠ Some [])
              (get_all_tags vOps);
  pr_unique : NoDup ((λ t, (get_section_name vOps t, get_tag_name vOps t)) <$> get_all_tags vOps)
}.

Lemma nodup_image {A B} (f : A → B) l x y : NoDup (f <$> l) → x ∈ l → y ∈ l → f x = f y → x = y.
Proof.
  intros Hn [i Hi]%list_elem_of_lookup [j Hj]%list_elem_of_lookup Hf.
  assert (i = j) as ->; [|congruence].
  apply (NoDup_lookup _ i j (f x) Hn); rewrite list_lookup_fmap; [by rewrite Hi|by rewrite Hj, Hf].
Qed.

(** There are no more sections than tags. *)
Lemma sections_few (f : Z → option chars) l tags :
  NoDup l → (∀ s, s ∈ l ↔ ∃ t, t ∈ tags ∧ f t = Some s) → (length l <= length tags)%nat.
Proof.
  intros Hl Hs. etrans; [apply (submseteq_length l (omap f tags)), NoDup_submseteq; [done|]|].
  - intros s Hin. apply list_elem_of_omap. by apply Hs.
  - clear. induction tags as [|t tags IH]; cbn; [done|]. destruct (f t); cbn; lia.
Qed.

Lemma proper_portable vOps d :
  proper vOps → createDescriptorFromOps (Some vOps) = Done (OK, Some d) →
  portable d (get_all_tags vOps).
Proof.
  intros [[Hcount Hmax] Honce Htags Huniq] Hd.
  apply ops_consistent in Hd as (tags & Ha & Hc & Hn & Hdesc & Hval & Hsec).
  unfold tag_array in Ha. rewrite decide_True in Ha by lia. rewrite Hcount, Nat2Z.id, Nat.sub_diag in Ha.
  cbn in Ha. rewrite app_nil_r in Ha. injection Ha as <-. set (tags := get_all_tags vOps) in *.
  rewrite Forall_forall in Htags, Hdesc.
  assert (Hknown : ∀ t, is_Some (mTagToNameMap d !! t) → t ∈ tags) by (intros t; apply (cs_names d tags Hc)).
  pose proof (cs_sorted d tags Hc) as Hso.
  pose proof (sections_few _ _ tags (strictly_sorted_nodup _ Hso) Hsec) as Hfew.
  assert (Hlen : length tags = size (mTagToNameMap d)).
  { rewrite <- tags_of_length. apply Permutation_length, NoDup_Permutation; [done| |].
    - unfold tags_of. rewrite (merge_sort_Permutation Z.le). apply NoDup_fst_map_to_list.
    - intros t. symmetry. by apply tags_of_elem. }
  split.
  - done.
  - apply Forall_forall. intros t Ht. destruct (section_known d tags t Hc Ht) as (s & n & y & i & Hs & Hnm & Hy & Hi & Hsi).
    exists n, i, y. destruct (Htags t Ht) as (Hmx & Hne & _). destruct (Hval t Ht) as (Hv & _ & _).
    pose proof (cs_vendor d tags Hc t Ht). pose proof (cs_range d tags Hc t y Hy).
    apply section_at_range in Hsi as [Hr _]. split_and!; try (done || lia). congruence.
  - apply Forall_forall. intros s (t & Ht & Hs)%Hsec -> . by destruct (Htags t Ht) as (_ & _ & ?).
  - intros t t' s n Hn1 Hn2 Hs1 Hs2. assert (t ∈ tags) as Ht by (apply Hknown; by exists n).
    assert (t' ∈ tags) as Ht' by (apply Hknown; by exists n).
    destruct (Hval t Ht) as (V1 & V2 & _), (Hval t' Ht') as (V3 & V4 & _). apply (nodup_image _ _ t t' Huniq); [done..|]. cbn. congruence.
  - lia.
  - lia.
  - split; intros He.
    + destruct tags as [|t tags'] eqn:Htg; [done|]. destruct (section_known d _ t Hc ltac:(left)) as (s & _ & _ & i & _ & _ & _ & _ & Hsi).
      apply section_at_range in Hsi as [_ Hin]. rewrite He in Hin. by apply elem_of_nil in Hin.
    + rewrite He in Hfew. destruct (mSections d); [done|cbn in Hfew; lia].
Qed.

Section travel.
  Context {P : Type} `{ParcelObjectLaws P} (setCapacity : Z → Z).
  Implicit Types p q : P.

(** C20: The descriptor of a library whose tags are distinct and counted, have
    names and sections that are not empty, and of which no two have the same
    section and name, written into a parcel in which all writes succeed, is read
    back as the same descriptor from every parcel that goes on with what was
    written, and the reader stands behind it. *)
Theorem vendor_tags_roundtrip vOps d p :
  proper vOps → createDescriptorFromOps (Some vOps) = Done (OK, Some d) →
  has_space p → (∀ n, 0 < n → 0 < setCapacity n) →
  ∃ p' items, writeToParcel d (Some p) = Some (OK, Some p') ∧ unread p' = unread p ++ items ∧
    ∀ q rest, unread q = items ++ rest →
      ∃ q', createFromParcel setCapacity (Some q) = Done (OK, Some d, Some q') ∧ unread q' = rest.
Proof.
  intros Hp Hd Hspace Hcap. apply proper_portable in Hd; [|done].
  destruct (write_portable d _ p Hd Hspace) as (p' & Hw & Hu). exists p', (descriptor_items d).
  split_and!; [done..|]. intros q rest Hq. by apply (read_portable setCapacity d (get_all_tags vOps)).
Qed.

End travel.

(** ** A library of three tags *)

Definition some_tags : vendor_tag_ops := TagOps 3 [0x80000001; 0x80010000; 0x80000000]
  (λ t, Some (to_chars (if bool_decide (t < 0x80010000) then "nvidia" else "acme")))
  (λ t, Some (to_chars (if bool_decide (t = 0x80000001) then "gain" else "mode"))) (λ _, 1).

Definition descriptor_made (o : outcome (Z * option VendorTagDescriptor)) : option VendorTagDescriptor :=
  match o with Done (_, d) => d | _ => None end.

Definition descriptor_read {P} (o : outcome (Z * option VendorTagDescriptor * option P))
    : option (Z * option VendorTagDescriptor) :=
  match o with Done (res, d, _) => Some (res, d) | _ => None end.

Lemma vendor_tags_roundtrip_witness :
  ∃ d, createDescriptorFromOps (Some some_tags) = Done (OK, Some d) ∧
    mSections d = [to_chars "acme"; to_chars "nvidia"] ∧
    lookupTag d (to_chars "mode") (to_chars "acme") = (OK, Some 0x80010000) ∧
    ∃ p' items, writeToParcel d (Some (new_parcel (P := soft_parcel))) = Some (OK, Some p') ∧
      unread p' = items ∧
      ∃ q', createFromParcel id (Some (SoftParcel (items ++ [PInt32 7]) [])) = Done (OK, Some d, Some q') ∧
        unread q' = [PInt32 7].
Proof.
  assert (Hp : proper some_tags).
  { split.
    - done.
    - apply (bool_decide_unpack (NoDup (get_all_tags some_tags))). by vm_compute.
    - by repeat constructor.
    - apply (bool_decide_unpack (NoDup _)). by vm_compute. }
  destruct (createDescriptorFromOps (Some some_tags)) as [[r [d|]]| |] eqn:Hd; [|by vm_compute in Hd..].
  exists d. assert (r = OK) as -> by (by vm_compute in Hd; injection Hd).
  assert (Hv : d = default (new_descriptor 0) (descriptor_made (createDescriptorFromOps (Some some_tags)))) by (by rewrite Hd).
  split_and!; [done|by rewrite Hv; vm_compute|by rewrite Hv; vm_compute|].
  destruct (vendor_tags_roundtrip id some_tags d (new_parcel (P := soft_parcel)) Hp Hd (proj2 new_parcel_law) (λ n Hn, Hn))
    as (p' & items & Hw & Hu & Hr).
  exists p', items. split_and!; [exact Hw|exact Hu|]. by apply Hr.
Defined.


(** A section index of 2^32 - 1 passes the test, as one more is 0: the name of
    the section is read far outside the vector, or the vector of no sections
    ends the program. *)
Example section_index_wraps :
  let p n := SoftParcel ([PInt32 1; PInt32 (s32 0x80000000); PInt32 0; PString8 (to_chars "a"); PInt32 (-1);
                          PInt32 n] ++ replicate (Z.to_nat n) (PString8 (to_chars "s"))) [] in
  createFromParcel id (Some (p 1)) = OutOfBounds ∧ createFromParcel id (Some (p 0)) = Fatal.
Proof. split; by vm_compute. Qed.

(** Sections that are not in order are renumbered, as they are put into a sorted
    vector: the tag gets another section than the writer gave it; with two of
    the same name the index is outside. *)
Example sections_renumbered :
  let p l i := SoftParcel ([PInt32 1; PInt32 (s32 0x80000000); PInt32 0; PString8 (to_chars "a"); PInt32 i;
                            PInt32 2] ++ (PString8 <$> l)) [] in
  (∃ d p', createFromParcel id (Some (p [to_chars "z"; to_chars "b"] 0)) = Done (OK, Some d, p') ∧
     getSectionName d 0x80000000 = Some (Some (to_chars "b"))) ∧
  createFromParcel id (Some (p [to_chars "b"; to_chars "b"] 1)) = OutOfBounds.
Proof. split; [do 2 eexists; split; by vm_compute|by vm_compute]. Qed.

(** A library that lists a tag twice makes a descriptor whose parcel announces
    more tags than it has. *)
Example tag_listed_twice :
  let twice := TagOps 2 [0x80000000; 0x80000000] (λ _, Some (to_chars "s")) (λ _, Some (to_chars "a")) (λ _, 0) in
  (d ← descriptor_made (createDescriptorFromOps (Some twice));
   p ← writeToParcel d (Some (new_parcel (P := soft_parcel))) ≫= snd;
   descriptor_read (createFromParcel id (Some p))) = Some (BAD_VALUE, None).
Proof. by vm_compute. Qed.

(** A tag that could not be written does not show in the status. *)
Example lost_tag_reports_ok :
  (d ← descriptor_made (createDescriptorFromOps (Some some_tags));
   '(res, p) ← writeToParcel d (Some (SoftParcel [] [true; false])); p ← p;
   Some (res, descriptor_read (createFromParcel id (Some p)))) = Some (OK, Some (BAD_VALUE, None)).
Proof. by vm_compute. Qed.

(** ** The descriptor of the process *)

Section process.
  Context {W : Type} `{TagLibrary W}
    (accepted : ∀ a (w : W), (set_camera_metadata_vendor_ops a w).1 = OK →
       vendor_ops (set_camera_metadata_vendor_ops a w).2 = a).

(** As long as the metadata library takes the tables it is given, it has the
    table of the current descriptor, and none when there is none. *)
Lemma table_is_current desc (g : tag_globals W) :
  let '(res, g') := setAsGlobalVendorTagDescriptor desc g in
  res = OK → vendor_ops (tg_library g') = fst <$> getGlobalVendorTagDescriptor g'.
Proof.
  unfold setAsGlobalVendorTagDescriptor. pose proof (accepted (fst <$> desc) (tg_library g)) as Ha.
  destruct (set_camera_metadata_vendor_ops _ _) as [res w]. cbn in *. done.
Qed.

End process.
