(* ===== verification/CameraRpc.v ===== *)
(** * Calls of a camera device through binder (src/libmocha/camera)

    The objects a client of the camera service sends and receives
    (camera2/CaptureRequest.cpp, camera2/OutputConfiguration.cpp,
    CaptureResult.cpp) and both ends of the interface of a device,
    camera2/ICameraDeviceUser.cpp: the proxy that a client calls and the
    function that the service's end of binder calls.  A graphic buffer producer
    is a number or null; a surface is its producer.  One heap of metadata packets
    stands for those of both processes. *)

From Stdlib Require Import Ascii String.
From S2P Require Import Prelude CStrings CameraH Parcels CameraMeta.

#[global] Open Scope Z_scope.

(** The client's and the service's memory and what else the service keeps. *)
Record rpc (W S : Type) := Rpc { rpc_heap : heap W; rpc_service : S }.
Arguments Rpc {W S}.
Arguments rpc_heap {W S}.
Arguments rpc_service {W S}.

Definition on_heap {W S A} (f : M (heap W) A) : M (rpc W S) A :=
  λ g, let '(a, h) := f (rpc_heap g) in (a, Rpc h (rpc_service g)).

(** ** Parcels, where the status of a call is not looked at *)

Section unchecked.
  Context {P : Type} `{!Parcel P} `{!ParcelObjects P}.

Definition w32 (z : Z) (p : P) : P := (writeInt32 z p).2.
Definition w64 (z : Z) (p : P) : P := (writeInt64 z p).2.
Definition wstring (s : chars) (p : P) : P := (writeString16 s p).2.
Definition wbinder (b : option Z) (p : P) : P := (writeStrongBinder b p).2.
Definition wtoken (i : chars) (p : P) : P := (writeInterfaceToken i p).2.
Definition wno_exception (p : P) : P := (writeNoException p).2.

(** [readInt32()], which gives 0 when there is none. *)
Definition r32 (p : P) : Z * P :=
  let '(r, z, p) := readInt32 p in (if bool_decide (r = OK) then z else 0, p).

(** [readInt32(&x)] and [readInt64(&x)] of a variable that keeps its value when
    there is none. *)
Definition r32_into (old : Z) (p : P) : Z * P :=
  let '(r, z, p) := readInt32 p in (if bool_decide (r = OK) then z else old, p).
Definition r64_into (old : Z) (p : P) : Z * P :=
  let '(r, z, p) := readInt64 p in (if bool_decide (r = OK) then z else old, p).

End unchecked.

(** ** The objects *)

Record CaptureRequest := Request {
  cr_metadata : metadata;
  cr_surfaces : list (option Z);
  cr_reprocess : bool
}.

Definition new_request : CaptureRequest := Request CameraMetadata [] false.

Record OutputConfiguration := Output { mGbp : option Z; mRotation : Z }.

Definition INVALID_ROTATION : Z := -1.

Record CaptureResultExtras := Extras {
  requestId : Z;
  burstId : Z;
  afTriggerId : Z;
  precaptureTriggerId : Z;
  frameNumber : Z;
  partialResultCount : Z
}.

Definition new_extras : CaptureResultExtras := Extras (-1) 0 0 0 0 0.

Definition isValid (e : CaptureResultExtras) : bool := bool_decide (0 <= requestId e).

Record CaptureResult := Result { mMetadata : metadata; mResultExtras : CaptureResultExtras }.

Definition SURFACE_CLASS : chars := to_chars "android.view.Surface".
Definition UNKNOWN_NAME : chars := to_chars "unknown_name".

Section objects.
  Context {W : Type} `{!MetadataLib} `{!MetaPackets W} {P : Type} `{!Parcel P} `{!ParcelObjects P}.

(** The loop of [CaptureRequest::writeToParcel] over the surfaces. *)
Fixpoint write_surfaces (surfaces : list (option Z)) (p : P) : P :=
  match surfaces with
  | [] => p
  | surface :: surfaces =>
      write_surfaces surfaces (wbinder surface (wstring UNKNOWN_NAME (wstring SURFACE_CLASS p)))
  end.

Definition write_request (r : CaptureRequest) (parcel : option P) : M (heap W) (Z * option P) :=
  match parcel with
  | None => mret (BAD_VALUE, None)
  | Some p =>
      '(err, p) ← writeToParcel (mBuffer (cr_metadata r)) p;
      if bool_decide (err ≠ OK) then mret (err, Some p)
      else
        let p := w32 (s32 (Z.of_nat (length (cr_surfaces r)))) p in
        let p := write_surfaces (cr_surfaces r) p in
        mret (OK, Some (w32 (Z.b2z (cr_reprocess r)) p))
  end.

(** The loop of [readFromParcel]; a null class name adds no surface. *)
Fixpoint read_surfaces (n : nat) (surfaces : list (option Z)) (p : P) : list (option Z) * P :=
  match n with
  | O => (surfaces, p)
  | S n =>
      let '(className, p) := readString16Inplace p in
      match className with
      | None => read_surfaces n surfaces p
      | Some _ =>
          let '(_, p) := readString16Inplace p in
          let '(binder, p) := readStrongBinder p in
          read_surfaces n (surfaces ++ [binder]) p
      end
  end.

Definition read_request (r : CaptureRequest) (parcel : option P)
    : M (heap W) (Z * CaptureRequest * option P) :=
  match parcel with
  | None => mret (BAD_VALUE, r, None)
  | Some p =>
      m ← clear (cr_metadata r);
      '(err, m, parcel) ← read_object (Some p) m;
      let r := Request m [] (cr_reprocess r) in
      if bool_decide (err ≠ OK) then mret (err, r, parcel)
      else
        let p := default p parcel in
        let '(err, size, p) := readInt32 p in
        if bool_decide (err ≠ OK) then mret (err, r, Some p)
        else
          let '(surfaces, p) := read_surfaces (Z.to_nat size) [] p in
          let '(err, isReprocess, p) := readInt32 p in
          if bool_decide (err ≠ OK) then mret (err, Request m surfaces (cr_reprocess r), Some p)
          else mret (OK, Request m surfaces (bool_decide (isReprocess ≠ 0)), Some p)
  end.

Definition getGraphicBufferProducer (o : OutputConfiguration) : option Z := mGbp o.
Definition getRotation (o : OutputConfiguration) : Z := mRotation o.

Definition write_output (o : OutputConfiguration) (p : P) : Z * P :=
  (OK, wbinder (mGbp o) (wstring UNKNOWN_NAME (w32 (mRotation o) p))).

(** The constructor from a parcel. *)
Definition read_output (p : P) : OutputConfiguration * P :=
  let '(err, rotation, p) := readInt32 p in
  if bool_decide (err ≠ OK) then (Output None INVALID_ROTATION, p)
  else
    let '(_, p) := readString16Inplace p in
    let '(gbp, p) := readStrongBinder p in (Output gbp rotation, p).

Definition write_extras (e : CaptureResultExtras) (parcel : option P) : Z * option P :=
  match parcel with
  | None => (BAD_VALUE, None)
  | Some p =>
      let p := w32 (requestId e) p in
      let p := w32 (burstId e) p in
      let p := w32 (afTriggerId e) p in
      let p := w32 (precaptureTriggerId e) p in
      let p := w64 (frameNumber e) p in
      (OK, Some (w32 (partialResultCount e) p))
  end.

Definition read_extras (e : CaptureResultExtras) (parcel : option P)
    : Z * CaptureResultExtras * option P :=
  match parcel with
  | None => (BAD_VALUE, e, None)
  | Some p =>
      let '(request, p) := r32_into (requestId e) p in
      let '(burst, p) := r32_into (burstId e) p in
      let '(af, p) := r32_into (afTriggerId e) p in
      let '(precapture, p) := r32_into (precaptureTriggerId e) p in
      let '(frame, p) := r64_into (frameNumber e) p in
      let '(partial, p) := r32_into (partialResultCount e) p in
      (OK, Extras request burst af precapture frame partial, Some p)
  end.

Definition copy_result (other : CaptureResult) : M (heap W) CaptureResult :=
  m ← assign (mBuffer (mMetadata other)) CameraMetadata;
  mret (Result m (mResultExtras other)).

Definition write_result (r : CaptureResult) (parcel : option P) : M (heap W) (Z * option P) :=
  match parcel with
  | None => mret (BAD_VALUE, None)
  | Some p =>
      '(res, parcel) ← write_object (mMetadata r) (Some p);
      if bool_decide (res ≠ OK) then mret (res, parcel)
      else mret (write_extras (mResultExtras r) parcel)
  end.

Definition read_result (r : CaptureResult) (parcel : option P)
    : M (heap W) (Z * CaptureResult * option P) :=
  match parcel with
  | None => mret (BAD_VALUE, r, None)
  | Some p =>
      m ← clear (mMetadata r);
      '(res, m, parcel) ← read_object (Some p) m;
      if bool_decide (res ≠ OK) then mret (res, Result m (mResultExtras r), parcel)
      else
        let '(res, e, parcel) := read_extras (mResultExtras r) parcel in
        mret (res, Result m e, parcel)
  end.

End objects.

(** ** The interface of a device *)

Definition DESCRIPTOR : chars := to_chars "android.hardware.camera2.ICameraDeviceUser".

Definition DISCONNECT : Z := 1.
Definition SUBMIT_REQUEST : Z := 2.
Definition SUBMIT_REQUEST_LIST : Z := 3.
Definition CANCEL_REQUEST : Z := 4.
Definition BEGIN_CONFIGURE : Z := 5.
Definition END_CONFIGURE : Z := 6.
Definition DELETE_STREAM : Z := 7.
Definition CREATE_STREAM : Z := 8.
Definition CREATE_INPUT_STREAM : Z := 9.
Definition GET_INPUT_SURFACE : Z := 10.
Definition CREATE_DEFAULT_REQUEST : Z := 11.
Definition GET_CAMERA_INFO : Z := 12.
Definition WAIT_UNTIL_IDLE : Z := 13.
Definition FLUSH : Z := 14.
Definition PREPARE : Z := 15.
Definition TEAR_DOWN : Z := 16.
Definition PREPARE2 : Z := 17.

Definition DEAD_OBJECT : Z := - EPIPE.

(** The methods, on a world [G].  A method with [lastFrameNumber] takes its value
    before and gives its status and the value behind. *)
Record ICameraDeviceUser (G : Type) := DeviceUser {
  disconnect : M G ();
  submitRequest : option CaptureRequest → bool → Z → M G (Z * Z);
  submitRequestList : list (option CaptureRequest) → bool → Z → M G (Z * Z);
  cancelRequest : Z → Z → M G (Z * Z);
  beginConfigure : M G Z;
  endConfigure : bool → M G Z;
  deleteStream : Z → M G Z;
  createStream : OutputConfiguration → M G Z;
  createInputStream : Z → Z → Z → M G Z;
  getInputBufferProducer : M G (Z * option Z);
  createDefaultRequest : Z → metadata → M G (Z * metadata);
  getCameraInfo : metadata → M G (Z * metadata);
  waitUntilIdle : M G Z;
  flush : Z → M G (Z * Z);
  prepare : Z → M G Z;
  prepare2 : Z → Z → M G Z;
  tearDown : Z → M G Z
}.
Arguments DeviceUser {G}.
Arguments disconnect {G}.
Arguments submitRequest {G}.
Arguments submitRequestList {G}.
Arguments cancelRequest {G}.
Arguments beginConfigure {G}.
Arguments endConfigure {G}.
Arguments deleteStream {G}.
Arguments createStream {G}.
Arguments createInputStream {G}.
Arguments getInputBufferProducer {G}.
Arguments createDefaultRequest {G}.
Arguments getCameraInfo {G}.
Arguments waitUntilIdle {G}.
Arguments flush {G}.
Arguments prepare {G}.
Arguments prepare2 {G}.
Arguments tearDown {G}.

Section device.
  Context {W T : Type} `{!MetadataLib} `{!MetaPackets W} {P : Type} `{!Parcel P} `{!ParcelObjects P}.

Abbreviation G := (rpc W T).

(** ** The proxy

    [transact] sends a code and a parcel and gives a status, which the proxy does
    not look at, and the reply.  A [lastFrameNumber] that is not null is [Some] of
    its value. *)
Section proxy.
  Context (transact : Z → P → P → M G (Z * P)).

Definition request_data : P := wtoken DESCRIPTOR new_parcel.

(** Sends the data and reads the header of the reply. *)
Definition remote (code : Z) (data : P) : M G P :=
  '(_, reply) ← transact code data new_parcel;
  mret (readExceptionCode reply).2.

Definition Bp_disconnect : M G () := remote DISCONNECT request_data;; mret ().

(** [lastFrameNumber] behind its mark. *)
Definition read_frame_number (lastFrameNumber : option Z) (reply : P) : Z * option Z :=
  let '(mark, reply) := r32 reply in
  if bool_decide (mark ≠ 0) then
    match lastFrameNumber with
    | Some n =>
        let '(res, z, _) := readInt64 reply in (res, Some (if bool_decide (res = OK) then z else n))
    | None => (BAD_VALUE, None)
    end
  else (BAD_VALUE, lastFrameNumber).

Definition Bp_submitRequest (request : option CaptureRequest) (repeating : bool) (lastFrameNumber : option Z)
    : M G (Z * option Z) :=
  let data := request_data in
  data ← match request with
         | Some r => '(_, p) ← on_heap (write_request r (Some (w32 1 data))); mret (default data p)
         | None => mret (w32 0 data)
         end;
  reply ← remote SUBMIT_REQUEST (w32 (Z.b2z repeating) data);
  let '(res, reply) := r32 reply in
  let '(resFrameNumber, n) := read_frame_number lastFrameNumber reply in
  mret (if bool_decide (res < 0) || bool_decide (resFrameNumber ≠ NO_ERROR) then FAILED_TRANSACTION else res, n).

(** The loop of [submitRequestList]; [None] is the return with BAD_VALUE. *)
Fixpoint write_requests (requestList : list (option CaptureRequest)) (data : P) : M G (option P) :=
  match requestList with
  | [] => mret (Some data)
  | None :: requestList => write_requests requestList (w32 0 data)
  | Some r :: requestList =>
      '(res, p) ← on_heap (write_request r (Some (w32 1 data)));
      if bool_decide (res ≠ OK) then mret None else write_requests requestList (default data p)
  end.

Definition Bp_submitRequestList (requestList : list (option CaptureRequest)) (repeating : bool)
    (lastFrameNumber : option Z) : M G (Z * option Z) :=
  let data := w32 (s32 (Z.of_nat (length requestList))) request_data in
  data ← write_requests requestList data;
  match data with
  | None => mret (BAD_VALUE, lastFrameNumber)
  | Some data =>
      reply ← remote SUBMIT_REQUEST_LIST (w32 (Z.b2z repeating) data);
      let '(res, reply) := r32 reply in
      let '(resFrameNumber, n) := read_frame_number lastFrameNumber reply in
      mret (if bool_decide (res < 0) || bool_decide (resFrameNumber ≠ NO_ERROR)
            then FAILED_TRANSACTION else res, n)
  end.

(** What [cancelRequest] and [flush] do with the reply. *)
Definition checked_frame_number (lastFrameNumber : option Z) (reply : P) : Z * option Z :=
  let '(res, reply) := r32 reply in
  let '(resFrameNumber, n) := read_frame_number lastFrameNumber reply in
  (if bool_decide (res ≠ NO_ERROR) || bool_decide (resFrameNumber ≠ NO_ERROR)
   then FAILED_TRANSACTION else res, n).

Definition Bp_cancelRequest (requestId : Z) (lastFrameNumber : option Z) : M G (Z * option Z) :=
  reply ← remote CANCEL_REQUEST (w32 requestId request_data);
  mret (checked_frame_number lastFrameNumber reply).

(** A call whose reply is its status. *)
Definition status_call (code : Z) (data : P) : M G Z :=
  reply ← remote code data; mret (r32 reply).1.

Definition Bp_beginConfigure : M G Z := status_call BEGIN_CONFIGURE request_data.
Definition Bp_endConfigure (isConstrainedHighSpeed : bool) : M G Z :=
  status_call END_CONFIGURE (w32 (Z.b2z isConstrainedHighSpeed) request_data).
Definition Bp_deleteStream (streamId : Z) : M G Z := status_call DELETE_STREAM (w32 streamId request_data).

Definition Bp_createStream (o : OutputConfiguration) : M G Z :=
  let data := match getGraphicBufferProducer o with
              | Some _ => (write_output o (w32 1 request_data)).2
              | None => w32 0 request_data
              end in
  status_call CREATE_STREAM data.

Definition Bp_createInputStream (width height format : Z) : M G Z :=
  status_call CREATE_INPUT_STREAM (w32 format (w32 height (w32 width request_data))).

(** [producer]: the pointer is not null. *)
Definition Bp_getInputBufferProducer (producer : bool) : M G (Z * option Z) :=
  if negb producer then mret (BAD_VALUE, None)
  else
    reply ← remote GET_INPUT_SURFACE request_data;
    let '(result, reply) := r32 reply in
    if bool_decide (result ≠ OK) then mret (result, None)
    else
      let '(mark, reply) := r32 reply in
      let bp := if bool_decide (mark ≠ 0)
                then let '(_, reply) := readString16Inplace reply in (readStrongBinder reply).1
                else None in
      mret (match bp with None => INVALID_OPERATION | Some _ => OK end, bp).

(** The object [out] of the two calls below, exchanged with the caller's and
    deleted. *)
Definition read_out (object : option metadata) (reply : P) : M G (option metadata) :=
  let '(mark, reply) := r32 reply in
  out ← (if bool_decide (mark ≠ 0)
         then '(_, m, _) ← on_heap (read_object (Some reply) CameraMetadata); mret m
         else mret CameraMetadata);
  match object with
  | Some m => let '(m, out) := swap m out in on_heap (destroy out);; mret (Some m)
  | None => on_heap (destroy out);; mret None
  end.

Definition Bp_createDefaultRequest (templateId : Z) (request : option metadata) : M G (Z * option metadata) :=
  reply ← remote CREATE_DEFAULT_REQUEST (w32 templateId request_data);
  let '(result, reply) := r32 reply in
  m ← read_out request reply; mret (result, m).

Definition Bp_getCameraInfo (info : option metadata) : M G (Z * option metadata) :=
  reply ← remote GET_CAMERA_INFO request_data;
  let '(result, reply) := r32 reply in
  m ← read_out info reply; mret (result, m).

Definition Bp_waitUntilIdle : M G Z := status_call WAIT_UNTIL_IDLE request_data.

Definition Bp_flush (lastFrameNumber : option Z) : M G (Z * option Z) :=
  reply ← remote FLUSH request_data;
  mret (checked_frame_number lastFrameNumber reply).

Definition Bp_prepare (streamId : Z) : M G Z := status_call PREPARE (w32 streamId request_data).
Definition Bp_prepare2 (maxCount streamId : Z) : M G Z :=
  status_call PREPARE2 (w32 streamId (w32 maxCount request_data)).
Definition Bp_tearDown (streamId : Z) : M G Z := status_call TEAR_DOWN (w32 streamId request_data).

End proxy.

(** ** The service's end *)

Section stub.
  Context (service : ICameraDeviceUser G).

(** The deletion of the requests that were read; a service keeps copies. *)
Fixpoint drop_requests (l : list (option CaptureRequest)) : M G () :=
  match l with
  | [] => mret ()
  | Some r :: l => on_heap (destroy (cr_metadata r));; drop_requests l
  | None :: l => drop_requests l
  end.

(** A status and a frame number behind the header. *)
Definition reply_frame (ret lastFrameNumber : Z) (reply : P) : P :=
  w64 lastFrameNumber (w32 1 (w32 ret reply)).

Definition on_submit (data reply : P) : M G (Z * P) :=
  let '(present, data) := r32 data in
  '(request, data) ←
    (if bool_decide (present ≠ 0) then
       '(_, r, p) ← on_heap (read_request new_request (Some data)); mret (Some r, default data p)
     else mret (None, data));
  let '(repeating, _) := r32 data in
  let reply := wno_exception reply in
  '(ret, n) ← submitRequest service request (bool_decide (repeating ≠ 0)) (-1);
  drop_requests [request];;
  mret (NO_ERROR, reply_frame ret n reply).

(** The loop over the requests; [None] is the return with BAD_VALUE, before
    which those read are deleted. *)
Fixpoint read_requests (n : nat) (l : list (option CaptureRequest)) (data : P)
    : M G (option (list (option CaptureRequest) * P)) :=
  match n with
  | O => mret (Some (l, data))
  | S n =>
      let '(present, data) := r32 data in
      if bool_decide (present ≠ 0) then
        '(res, r, p) ← on_heap (read_request new_request (Some data));
        if bool_decide (res ≠ OK) then drop_requests (l ++ [Some r]);; mret None
        else read_requests n (l ++ [Some r]) (default data p)
      else read_requests n (l ++ [None]) data
  end.

Definition on_submit_list (data reply : P) : M G (Z * P) :=
  let '(size, data) := r32 data in
  read ← read_requests (Z.to_nat size) [] data;
  match read with
  | None => mret (BAD_VALUE, reply)
  | Some (l, data) =>
      let '(repeating, _) := r32 data in
      let reply := wno_exception reply in
      '(ret, n) ← submitRequestList service l (bool_decide (repeating ≠ 0)) (-1);
      drop_requests l;;
      mret (NO_ERROR, reply_frame ret n reply)
  end.

(** A status behind the header. *)
Definition reply_status (reply : P) (f : M G Z) : M G (Z * P) :=
  ret ← f; mret (NO_ERROR, w32 ret (wno_exception reply)).

(** A status and an object, which is deleted. *)
Definition reply_object (reply : P) (f : metadata → M G (Z * metadata)) : M G (Z * P) :=
  '(ret, m) ← f CameraMetadata;
  let reply := w32 1 (w32 ret (wno_exception reply)) in
  '(_, p) ← on_heap (write_object m (Some reply));
  on_heap (destroy m);;
  mret (NO_ERROR, default reply p).

(** The cases of [onTransact] behind the header. *)
Definition dispatch (code : Z) (data reply : P) : option (M G (Z * P)) :=
  if bool_decide (code = DISCONNECT) then
    Some (disconnect service;; mret (NO_ERROR, wno_exception reply))
  else if bool_decide (code = SUBMIT_REQUEST) then Some (on_submit data reply)
  else if bool_decide (code = SUBMIT_REQUEST_LIST) then Some (on_submit_list data reply)
  else if bool_decide (code = CANCEL_REQUEST) then
    let '(requestId, _) := r32 data in
    Some ('(ret, n) ← cancelRequest service requestId (-1);
          mret (NO_ERROR, reply_frame ret n (wno_exception reply)))
  else if bool_decide (code = DELETE_STREAM) then
    let '(streamId, _) := r32 data in Some (reply_status reply (deleteStream service streamId))
  else if bool_decide (code = CREATE_STREAM) then
    let '(present, data) := r32 data in
    Some (reply_status reply
      (if bool_decide (present ≠ 0) then createStream service (read_output data).1 else mret BAD_VALUE))
  else if bool_decide (code = CREATE_INPUT_STREAM) then
    let '(width, data) := r32 data in
    let '(height, data) := r32 data in
    let '(format, _) := r32 data in
    Some (reply_status reply (createInputStream service width height format))
  else if bool_decide (code = GET_INPUT_SURFACE) then
    Some ('(ret, bp) ← getInputBufferProducer service;
          let reply := w32 1 (w32 ret (wno_exception reply)) in
          let b := if bool_decide (ret = OK) then bp else None in
          mret (NO_ERROR, wbinder b (wstring (to_chars "camera input") reply)))
  else if bool_decide (code = CREATE_DEFAULT_REQUEST) then
    let '(templateId, _) := r32 data in
    Some (reply_object reply (createDefaultRequest service templateId))
  else if bool_decide (code = GET_CAMERA_INFO) then Some (reply_object reply (getCameraInfo service))
  else if bool_decide (code = WAIT_UNTIL_IDLE) then Some (reply_status reply (waitUntilIdle service))
  else if bool_decide (code = FLUSH) then
    Some ('(ret, n) ← flush service (-1);
          mret (NO_ERROR, reply_frame ret n (wno_exception reply)))
  else if bool_decide (code = BEGIN_CONFIGURE) then Some (reply_status reply (beginConfigure service))
  else if bool_decide (code = END_CONFIGURE) then
    let '(high, _) := r32 data in
    Some (reply_status reply (endConfigure service (bool_decide (high ≠ 0))))
  else if bool_decide (code = PREPARE) then
    let '(streamId, _) := r32 data in Some (reply_status reply (prepare service streamId))
  else if bool_decide (code = TEAR_DOWN) then
    let '(streamId, _) := r32 data in Some (reply_status reply (tearDown service streamId))
  else if bool_decide (code = PREPARE2) then
    let '(maxCount, data) := r32 data in
    let '(streamId, _) := r32 data in
    Some (reply_status reply (prepare2 service maxCount streamId))
  else None.

(** [onTransact]; [base] is [BBinder::onTransact]. *)
Definition onTransact (base : Z → P → P → M G (Z * P)) (code : Z) (data reply : P) : M G (Z * P) :=
  let '(ok, behind) := checkInterface DESCRIPTOR data in
  match dispatch code behind reply with
  | Some f => if ok then f else mret (PERMISSION_DENIED, reply)
  | None => base code data reply
  end.

End stub.

(** ** The two ends of binder *)

(** A service that is alive, and one that is not: the reply stays empty. *)
Definition alive (service : ICameraDeviceUser G) (base : Z → P → P → M G (Z * P))
    : Z → P → P → M G (Z * P) := onTransact service base.

Definition dead : Z → P → P → M G (Z * P) := λ _ _ reply, mret (DEAD_OBJECT, reply).

End device.
