(* ===== verification/CameraRpcFacts.v ===== *)
(** * Calls through binder are the calls of the service

    The objects go through parcels unharmed; a call of the proxy on a service
    that is alive is the service's own call, and on a dead one some calls report
    success. *)

From Stdlib Require Import Ascii String.
From S2P Require Import Prelude CStrings CameraH Parcels CameraMeta CameraMetaFacts.
From S2P Require Import SoftMeta CameraRpc.

#[global] Open Scope Z_scope.

(** ** Building and reading parcels *)

Section parcels.
  Context {P : Type} `{ParcelObjectLaws P}.
  Implicit Types p q : P.

(** A parcel with room and these contents. *)
Definition builds p (l : list pitem) : Prop := has_space p ∧ unread p = l.

Lemma builds_new : builds new_parcel [].
Proof. destruct new_parcel_law. by split. Qed.

Lemma builds_put f item p l : adds f item → builds p l → builds (f p).2 (l ++ [item]).
Proof. intros Hf [Hs Hl]. destruct (Hf p Hs) as (p' & -> & Hs' & Hu). split; [done|]. cbn. by rewrite Hu, Hl. Qed.

Lemma builds_w32 z p l : builds p l → builds (w32 z p) (l ++ [PInt32 z]).
Proof. apply builds_put, put_int32. Qed.
Lemma builds_w64 z p l : builds p l → builds (w64 z p) (l ++ [PInt64 z]).
Proof. apply builds_put, put_int64. Qed.
Lemma builds_string s p l : builds p l → builds (wstring s p) (l ++ [PString16 s]).
Proof. apply builds_put, put_string16. Qed.
Lemma builds_binder b p l : builds p l → builds (wbinder b p) (l ++ [PBinder b]).
Proof. apply builds_put, put_binder. Qed.
Lemma builds_token i p l : builds p l → builds (wtoken i p) (l ++ [PToken i]).
Proof. apply builds_put, put_token. Qed.
Lemma builds_exception p l : builds p l → builds (wno_exception p) (l ++ [PException]).
Proof. apply builds_put, put_exception. Qed.

Lemma r32_take z q rest : unread q = PInt32 z :: rest → ∃ q', r32 q = (z, q') ∧ unread q' = rest.
Proof. intros Hq. destruct (take_int32 z q rest Hq) as (q' & Hr & ?). exists q'. unfold r32. by rewrite Hr. Qed.

Lemma r32_into_take old z q rest :
  unread q = PInt32 z :: rest → ∃ q', r32_into old q = (z, q') ∧ unread q' = rest.
Proof. intros Hq. destruct (take_int32 z q rest Hq) as (q' & Hr & ?). exists q'. unfold r32_into. by rewrite Hr. Qed.

Lemma r64_into_take old z q rest :
  unread q = PInt64 z :: rest → ∃ q', r64_into old q = (z, q') ∧ unread q' = rest.
Proof.
  intros Hq. destruct (take_one _ _ _ q rest (readInt64_law z) Hq) as (q' & Hr & ?).
  exists q'. unfold r64_into. by rewrite Hr.
Qed.

(** *** The objects without metadata *)

Definition surface_items (surface : option Z) : list pitem :=
  [PString16 SURFACE_CLASS; PString16 UNKNOWN_NAME; PBinder surface].

Lemma builds_surfaces surfaces p l :
  builds p l → builds (write_surfaces surfaces p) (l ++ (surfaces ≫= surface_items)).
Proof.
  revert p l. induction surfaces as [|s surfaces IH]; intros p l Hp; cbn; [by rewrite app_nil_r|].
  assert (Hb : builds (wbinder s (wstring UNKNOWN_NAME (wstring SURFACE_CLASS p))) (l ++ surface_items s)).
  { apply (builds_string SURFACE_CLASS), (builds_string UNKNOWN_NAME), (builds_binder s) in Hp.
    by rewrite <- !(assoc_L (++)) in Hp. }
  apply IH in Hb. by rewrite <- (assoc_L (++)) in Hb.
Qed.

Lemma read_surfaces_items surfaces acc q rest :
  unread q = (surfaces ≫= surface_items) ++ rest →
  ∃ q', read_surfaces (length surfaces) acc q = (acc ++ surfaces, q') ∧ unread q' = rest.
Proof.
  revert acc q. induction surfaces as [|s surfaces IH]; intros acc q Hq; cbn in Hq |- *.
  - exists q. by rewrite app_nil_r.
  - destruct (take_one _ _ _ _ _ (readString16_law SURFACE_CLASS) Hq) as (q1 & -> & Hq1).
    destruct (take_one _ _ _ _ _ (readString16_law UNKNOWN_NAME) Hq1) as (q2 & -> & Hq2).
    destruct (take_one _ _ _ _ _ (readStrongBinder_law s) Hq2) as (q3 & -> & Hq3).
    destruct (IH (acc ++ [s]) q3 Hq3) as (q4 & -> & Hq4). exists q4. by rewrite <- (assoc_L (++)).
Qed.

Definition output_items (o : OutputConfiguration) : list pitem :=
  [PInt32 (mRotation o); PString16 UNKNOWN_NAME; PBinder (mGbp o)].

Lemma builds_output o p l : builds p l → builds (write_output o p).2 (l ++ output_items o).
Proof.
  intros Hp. cbn. apply (builds_w32 (mRotation o)), (builds_string UNKNOWN_NAME), (builds_binder (mGbp o)) in Hp.
  by rewrite <- !(assoc_L (++)) in Hp.
Qed.

Lemma read_output_items o q rest :
  unread q = output_items o ++ rest → ∃ q', read_output q = (o, q') ∧ unread q' = rest.
Proof.
  intros Hq. unfold read_output. destruct (take_int32 _ _ _ Hq) as (q1 & -> & Hq1). rewrite status_ok.
  destruct (take_one _ _ _ _ _ (readString16_law UNKNOWN_NAME) Hq1) as (q2 & -> & Hq2).
  destruct (take_one _ _ _ _ _ (readStrongBinder_law (mGbp o)) Hq2) as (q3 & -> & Hq3).
  exists q3. by destruct o.
Qed.

Definition extras_items (e : CaptureResultExtras) : list pitem :=
  [PInt32 (requestId e); PInt32 (burstId e); PInt32 (afTriggerId e); PInt32 (precaptureTriggerId e);
   PInt64 (frameNumber e); PInt32 (partialResultCount e)].

Lemma builds_extras e p l :
  builds p l → ∃ p', write_extras e (Some p) = (OK, Some p') ∧ builds p' (l ++ extras_items e).
Proof.
  intros Hp. eexists. split; [done|].
  apply (builds_w32 (requestId e)), (builds_w32 (burstId e)), (builds_w32 (afTriggerId e)),
    (builds_w32 (precaptureTriggerId e)), (builds_w64 (frameNumber e)),
    (builds_w32 (partialResultCount e)) in Hp.
  by rewrite <- !(assoc_L (++)) in Hp.
Qed.

Lemma read_extras_items e e0 q rest :
  unread q = extras_items e ++ rest → ∃ q', read_extras e0 (Some q) = (OK, e, Some q') ∧ unread q' = rest.
Proof.
  intros Hq. cbn. destruct (r32_into_take (requestId e0) _ _ _ Hq) as (q1 & -> & Hq1).
  destruct (r32_into_take (burstId e0) _ _ _ Hq1) as (q2 & -> & Hq2).
  destruct (r32_into_take (afTriggerId e0) _ _ _ Hq2) as (q3 & -> & Hq3).
  destruct (r32_into_take (precaptureTriggerId e0) _ _ _ Hq3) as (q4 & -> & Hq4).
  destruct (r64_into_take (frameNumber e0) _ _ _ Hq4) as (q5 & -> & Hq5).
  destruct (r32_into_take (partialResultCount e0) _ _ _ Hq5) as (q6 & -> & Hq6).
  exists q6. by destruct e.
Qed.

End parcels.

(** ** The objects with metadata *)

Section packets.
  Context {W : Type} `{MetaPacketsLaws W} {P : Type} `{ParcelObjectLaws P}.
  Implicit Types (p q : P) (h : heap W).

(** The packet of an object, if any, has a copy of the size of a block. *)
Definition sendable (m : metadata) : Prop := ∀ c, mBuffer m = Some c → compact_ok c.

(** Two objects with the same entries. *)
Definition same_metadata (m m' : metadata) : Prop := cm_entries <$> mBuffer m = cm_entries <$> mBuffer m'.

(** Items that every reader takes for an object with the entries of [m], unless
    there is no memory for them. *)
Definition metadata_items_any (items : list pitem) (m : metadata) : Prop :=
  ∀ q rest h m0, unread q = items ++ rest → mLocked m0 = false → ∃ r m' q' h',
    read_object (W := W) (Some q) m0 h = (r, m', Some q', h') ∧ unread q' = rest ∧
    ((r = OK ∧ mLocked m' = false ∧ same_metadata m m') ∨
     (r = BAD_VALUE ∧ m' = m0 ∧ no_room_for_copy (W := W) (mBuffer m))).

Lemma carries_object items m :
  carries (W := W) (P := P) items (mBuffer m) → metadata_items_any items m.
Proof using All.
  intros Hc q rest h m0 Hq Hl. unfold read_object. rewrite Hl, bind_run. specialize (Hc q rest h Hq).
  destruct (readFromParcel true q h) as [[[r out] q'] h']. cbn [fst snd] in Hc |- *.
  destruct Hc as [Hq' [[-> He]|(-> & _ & Hn)]].
  - change NO_ERROR with OK. rewrite status_ok, bind_run. unfold clear. rewrite Hl.
    do 4 eexists. split; [reflexivity|]. split; [done|]. left. split; [done|].
    destruct (mBuffer m0); cbn; [done|]. rewrite Hl. done.
  - do 4 eexists. split; [reflexivity|]. split; [done|]. by right.
Qed.

Lemma send_packet_any m p l h :
  sendable m → builds p l →
  ∃ p' h' items, writeToParcel (W := W) (mBuffer m) p h = (OK, p', h') ∧
    builds p' (l ++ items) ∧ metadata_items_any items m.
Proof using All.
  intros Hm [Hs Hl].
  assert (Hw : ∀ c, mBuffer m = Some c → compact_ok c ∧ blob_written c p).
  { intros c Hc. specialize (Hm c Hc). split; [done|]. unfold blob_written.
    destruct (blob_size_range c Hm) as [Hr _]. pose proof alignment_range.
    apply space_blob; [by apply space_int32|lia]. }
  pose proof (writeToParcel_carries (mBuffer m) p h Hw) as Hc.
  assert (Hok : (writeToParcel (W := W) (mBuffer m) p h).1.1 = OK ∧
                has_space (writeToParcel (W := W) (mBuffer m) p h).1.2).
  { destruct (mBuffer m) as [c|]; cbn [writeToParcel].
    2: { destruct (space_int32 0 p Hs) as [? ?]. by destruct (writeInt32 0 p). }
    destruct (Hw c eq_refl) as [Hcc _]. destruct (blob_size_range c Hcc) as [Hr Hu]. pose proof alignment_range.
    rewrite bind_run, Hu.
    destruct (space_int32 (s32 (blob_size c)) p Hs) as [E1 S1]. destruct (writeInt32 (s32 (blob_size c)) p) as [r1 p1].
    cbn in E1, S1. subst r1. rewrite status_ok.
    destruct (space_blob (blob_size c) (blob_bytes c) p1 S1) as [E2 S2]; [lia|].
    destruct (writeBlob _ _ p1) as [[r2 a] p2]. cbn in E2, S2. subst r2. rewrite bool_decide_true by done.
    match goal with |- context [writeInt32 ?z p2] => destruct (space_int32 z p2 S2) as [E3 S3];
      destruct (writeInt32 z p2) as [r3 p3] end. cbn in *. by split. }
  destruct (writeToParcel (mBuffer m) p h) as [[r p'] h']. cbn [fst snd] in *. destruct Hok as [-> Hs'].
  destruct (Hc eq_refl) as (items & Ha & Hcar). exists p', h', items. split_and!; [done| |].
  - split; [done|]. unfold appends in Ha. by rewrite Ha, Hl.
  - by apply carries_object.
Qed.

End packets.

Section objects.
  Context {W : Type} `{MetaPacketsLaws W} {P : Type} `{ParcelObjectLaws P}.
  Implicit Types (p q : P) (h : heap W).

(** *** Requests *)

Definition request_ok (r : CaptureRequest) : Prop :=
  sendable (cr_metadata r) ∧ Z.of_nat (length (cr_surfaces r)) < 2 ^ 31.

(** What the service gets for a request: other packets, the same entries. *)
Definition same_request (r r' : CaptureRequest) : Prop :=
  same_metadata (cr_metadata r) (cr_metadata r') ∧ cr_surfaces r' = cr_surfaces r ∧
  cr_reprocess r' = cr_reprocess r.

(** A reader gets the request, or it has no memory for the metadata: then it
    keeps an empty request and the rest of the items is unread. *)
Definition request_items (items : list pitem) (r : CaptureRequest) : Prop :=
  ∀ q rest h, unread q = items ++ rest → ∃ res r' q' h',
    read_request (W := W) new_request (Some q) h = (res, r', Some q', h') ∧
    ((res = OK ∧ unread q' = rest ∧ same_request r r') ∨
     (res = BAD_VALUE ∧ r' = new_request ∧ no_room_for_copy (W := W) (mBuffer (cr_metadata r)) ∧
      ∃ rest', unread q' = PInt32 (Z.of_nat (length (cr_surfaces r))) :: rest')).

Lemma send_request r p l h :
  request_ok r → builds p l →
  ∃ p' h' items, write_request (W := W) r (Some p) h = (OK, Some p', h') ∧
    builds p' (l ++ items) ∧ request_items items r.
Proof using All.
  intros [Hm Hlen] Hp. unfold write_request.
  destruct (send_packet_any (cr_metadata r) p l h Hm Hp) as (p1 & h1 & mi & Hw & Hp1 & Hmi).
  rewrite bind_run, Hw. cbn [fst snd]. rewrite status_ok.
  apply (builds_w32 (s32 (Z.of_nat (length (cr_surfaces r))))) in Hp1.
  apply (builds_surfaces (cr_surfaces r)), (builds_w32 (Z.b2z (cr_reprocess r))) in Hp1.
  rewrite s32_small in * by (unfold is_s32; lia).
  do 2 eexists. exists (mi ++ PInt32 (Z.of_nat (length (cr_surfaces r))) :: (cr_surfaces r ≫= surface_items)
                 ++ [PInt32 (Z.b2z (cr_reprocess r))]). split_and!; [reflexivity| |].
  { by rewrite <- !(assoc_L (++)) in Hp1. }
  clear p p1 h1 h Hp Hp1 Hw. intros q rest h Hq. rewrite <- (assoc_L (++)) in Hq. cbn [app] in Hq.
  unfold read_request. rewrite bind_run. cbn [clear new_request cr_metadata CameraMetadata mLocked mBuffer mret M_ret fst snd].
  destruct (Hmi q _ h CameraMetadata Hq eq_refl) as (res & m & q1 & h1 & Hr & Hq1 & Hread).
  rewrite bind_run. change (Md None false) with CameraMetadata. rewrite Hr. cbn [fst snd].
  destruct Hread as [(-> & _ & Hsame)|(-> & -> & Hn)].
  2:{ rewrite bool_decide_true by done. do 4 eexists. split; [reflexivity|]. right.
      split_and!; [done|done|done|]. by eexists. }
  rewrite status_ok. cbn [from_option]. unfold id.
  destruct (take_int32 _ _ _ Hq1) as (q2 & -> & Hq2). rewrite status_ok, Nat2Z.id.
  rewrite <- (assoc_L (++)) in Hq2. destruct (read_surfaces_items _ [] _ _ Hq2) as (q3 & -> & Hq3).
  destruct (take_int32 _ _ _ Hq3) as (q4 & -> & Hq4). rewrite status_ok.
  do 4 eexists. split; [reflexivity|]. left. split_and!; [done|done|]. split_and!; [done|done|].
  by destruct (cr_reprocess r).
Qed.

End objects.

(** ** Calls *)

Section calls.
  Context {W T : Type} `{MetaPacketsLaws W} {P : Type} `{ParcelObjectLaws P}
    (service : ICameraDeviceUser (rpc W T)) (base : Z → P → P → M (rpc W T) (Z * P)).

Abbreviation G := (rpc W T).
Implicit Types (p q : P) (g : G).

Lemma request_data_builds : builds (request_data (P := P)) [PToken DESCRIPTOR].
Proof. apply (builds_token DESCRIPTOR new_parcel []), builds_new. Qed.

(** A call finds the data behind the header, and its reply. *)
Lemma remote_finds code data l g :
  builds data (PToken DESCRIPTOR :: l) →
  ∃ behind, unread behind = l ∧ ∀ f, dispatch service code behind new_parcel = Some f →
    remote (alive service base) code data g = let '(_, reply, g') := f g in ((readExceptionCode reply).2, g').
Proof.
  intros [_ Hu]. unfold remote, alive, onTransact. rewrite bind_run.
  pose proof (checkInterface_law DESCRIPTOR DESCRIPTOR data l Hu) as Hc.
  destruct (checkInterface DESCRIPTOR data) as [ok behind]. destruct Hc as [-> Hb]. exists behind.
  split; [done|]. intros f ->. rewrite bool_decide_true by done. by destruct (f g) as [[r reply] g'].
Qed.

Lemma remote_alive code data l f g :
  builds data (PToken DESCRIPTOR :: l) →
  (∀ behind, unread behind = l → dispatch service code behind new_parcel = Some f) →
  remote (alive service base) code data g =
    let '(_, reply, g') := f g in ((readExceptionCode reply).2, g').
Proof.
  intros Hb Hd. destruct (remote_finds code data l g Hb) as (behind & Hu & Hr). by apply Hr, Hd.
Qed.

Lemma exception_taken p l :
  builds p (PException :: l) → unread (readExceptionCode p).2 = l.
Proof.
  intros [_ Hu]. destruct (take_one _ _ _ _ _ readExceptionCode_law Hu) as (q & -> & Hq). done.
Qed.

Lemma status_alive code data l f g :
  builds data (PToken DESCRIPTOR :: l) →
  (∀ behind, unread behind = l → dispatch service code behind new_parcel = Some (reply_status new_parcel f)) →
  status_call (alive service base) code data g = f g.
Proof.
  intros Hb Hd. unfold status_call. rewrite bind_run, (remote_alive code data l _ g Hb Hd).
  unfold reply_status. rewrite bind_run. destruct (f g) as [ret g']. cbn [fst snd mret M_ret].
  assert (Hr : builds (w32 ret (wno_exception (P := P) new_parcel)) [PException; PInt32 ret]).
  { apply (builds_w32 ret _ [PException]), (builds_exception _ []), builds_new. }
  apply exception_taken in Hr. by destruct (r32_take _ _ _ Hr) as (q' & -> & _).
Qed.

(** The status and the frame number that a caller gets. *)
Definition frame_answer (fails : Z → bool) (lastFrameNumber : option Z) (ret n : Z) : Z * option Z :=
  (if fails ret || bool_decide (lastFrameNumber = None) then FAILED_TRANSACTION else ret,
   (λ _, n) <$> lastFrameNumber).

Lemma frame_builds ret n :
  builds (reply_frame ret n (wno_exception (P := P) new_parcel))
    [PException; PInt32 ret; PInt32 1; PInt64 n].
Proof.
  apply (builds_w64 n _ [PException; PInt32 ret; PInt32 1]), (builds_w32 1 _ [PException; PInt32 ret]),
    (builds_w32 ret _ [PException]), (builds_exception _ []), builds_new.
Qed.

Lemma frame_read n last reply :
  unread reply = [PInt32 1; PInt64 n] →
  read_frame_number last reply = (if bool_decide (last = None) then BAD_VALUE else OK, (λ _, n) <$> last).
Proof.
  intros Hu. unfold read_frame_number. destruct (r32_take _ _ _ Hu) as (q & -> & Hq).
  rewrite bool_decide_true by done. destruct last as [m|]; [|done].
  destruct (take_one _ _ _ _ _ (readInt64_law n) Hq) as (q' & -> & _). done.
Qed.

(** A reply with a frame number, read by one of the two rules. *)
Lemma frame_taken ret n :
  ∃ q, r32 (readExceptionCode (reply_frame ret n (wno_exception (P := P) new_parcel))).2 = (ret, q) ∧
    ∀ last, read_frame_number last q = (if bool_decide (last = None) then BAD_VALUE else OK, (λ _, n) <$> last).
Proof.
  pose proof (exception_taken _ _ (frame_builds ret n)) as Hu. destruct (r32_take _ _ _ Hu) as (q & -> & Hq).
  exists q. split; [done|]. intros last. by apply frame_read.
Qed.

Lemma checked_taken ret n last :
  checked_frame_number last (readExceptionCode (reply_frame ret n (wno_exception (P := P) new_parcel))).2 =
    frame_answer (λ r, bool_decide (r ≠ 0)) last ret n.
Proof.
  unfold checked_frame_number, frame_answer. destruct (frame_taken ret n) as (q & -> & Hq). rewrite Hq.
  by destruct last.
Qed.

Lemma cancelRequest_alive requestId last g :
  Bp_cancelRequest (alive service base) requestId last g =
    ('(ret, n) ← cancelRequest service requestId (-1);
     mret (frame_answer (λ r, bool_decide (r ≠ 0)) last ret n)) g.
Proof.
  unfold Bp_cancelRequest. rewrite !bind_run.
  rewrite (remote_alive CANCEL_REQUEST _ [PInt32 requestId]
    ('(ret, n) ← cancelRequest service requestId (-1);
     mret (NO_ERROR, reply_frame ret n (wno_exception new_parcel)))).
  - rewrite bind_run. destruct (cancelRequest service requestId (-1) g) as [[ret n] g']. cbn [fst snd mret M_ret].
    by rewrite checked_taken.
  - by apply (builds_w32 _ _ [_]), request_data_builds.
  - intros behind Hb. destruct (r32_take _ _ _ Hb) as (q & Hq & _). unfold dispatch. cbn. by rewrite Hq.
Qed.

Lemma flush_alive last g :
  Bp_flush (alive service base) last g =
    ('(ret, n) ← flush service (-1); mret (frame_answer (λ r, bool_decide (r ≠ 0)) last ret n)) g.
Proof.
  unfold Bp_flush. rewrite !bind_run.
  rewrite (remote_alive FLUSH _ [] ('(ret, n) ← flush service (-1);
     mret (NO_ERROR, reply_frame ret n (wno_exception new_parcel)))).
  - rewrite bind_run. destruct (flush service (-1) g) as [[ret n] g']. cbn [fst snd mret M_ret].
    by rewrite checked_taken.
  - apply request_data_builds.
  - done.
Qed.

Lemma createStream_alive o g :
  Bp_createStream (alive service base) o g =
    match mGbp o with Some _ => createStream service o g | None => (BAD_VALUE, g) end.
Proof.
  unfold Bp_createStream, getGraphicBufferProducer. destruct (mGbp o) as [b|] eqn:Ho.
  - apply (status_alive _ _ (PInt32 1 :: output_items o)).
    + by apply (builds_output o _ [PToken DESCRIPTOR; PInt32 1]), (builds_w32 1 _ [_]), request_data_builds.
    + intros behind Hb. destruct (r32_take _ _ _ Hb) as (q & Hq & Hq'). unfold dispatch. cbn. rewrite Hq.
      rewrite <- (app_nil_r (output_items o)) in Hq'.
      destruct (read_output_items o q [] Hq') as (q2 & Ho2 & _). cbn. by rewrite Ho2.
  - change (BAD_VALUE, g) with (mret (M := M G) BAD_VALUE g). apply (status_alive _ _ [PInt32 0] (mret BAD_VALUE)).
    + by apply (builds_w32 0 _ [_]), request_data_builds.
    + intros behind Hb. destruct (r32_take _ _ _ Hb) as (q & Hq & _). unfold dispatch. cbn. by rewrite Hq.
Qed.

Lemma createInputStream_alive width height format g :
  Bp_createInputStream (alive service base) width height format g = createInputStream service width height format g.
Proof.
  apply (status_alive _ _ [PInt32 width; PInt32 height; PInt32 format]).
  - by apply (builds_w32 _ _ [_; _; _]), (builds_w32 _ _ [_; _]), (builds_w32 _ _ [_]), request_data_builds.
  - intros behind Hb. destruct (r32_take _ _ _ Hb) as (q & Hq & Hb2). destruct (r32_take _ _ _ Hb2) as (q2 & Hq2 & Hb3).
    destruct (r32_take _ _ _ Hb3) as (q3 & Hq3 & _). unfold dispatch. cbn. by rewrite Hq, Hq2, Hq3.
Qed.

(** The calls whose arguments are integers and whose answer is a status. *)
Lemma one_argument code z (f : Z → M G Z) g :
  (∀ data : P, dispatch service code data new_parcel =
     let '(z, _) := r32 data in Some (reply_status new_parcel (f z))) →
  status_call (alive service base) code (w32 z request_data) g = f z g.
Proof.
  intros Hd. apply (status_alive _ _ [PInt32 z]).
  - by apply (builds_w32 _ _ [_]), request_data_builds.
  - intros behind Hb. rewrite Hd. by destruct (r32_take _ _ _ Hb) as (q & -> & _).
Qed.

Lemma no_argument code (f : M G Z) g :
  (∀ data : P, dispatch service code data new_parcel = Some (reply_status new_parcel f)) →
  status_call (alive service base) code request_data g = f g.
Proof. intros Hd. apply (status_alive _ _ []); [apply request_data_builds|done]. Qed.

Lemma endConfigure_alive high g : Bp_endConfigure (alive service base) high g = endConfigure service high g.
Proof.
  unfold Bp_endConfigure.
  rewrite (one_argument END_CONFIGURE _ (λ z, endConfigure service (bool_decide (z ≠ 0)))); [by destruct high|done].
Qed.

Lemma prepare2_alive maxCount streamId g :
  Bp_prepare2 (alive service base) maxCount streamId g = prepare2 service maxCount streamId g.
Proof.
  apply (status_alive _ _ [PInt32 maxCount; PInt32 streamId]).
  - by apply (builds_w32 _ _ [_; _]), (builds_w32 _ _ [_]), request_data_builds.
  - intros behind Hb. destruct (r32_take _ _ _ Hb) as (q & Hq & Hb2). destruct (r32_take _ _ _ Hb2) as (q2 & Hq2 & _).
    unfold dispatch. cbn. by rewrite Hq, Hq2.
Qed.

Lemma disconnect_alive g : Bp_disconnect (alive service base) g = disconnect service g.
Proof.
  unfold Bp_disconnect. rewrite bind_run.
  rewrite (remote_alive DISCONNECT _ [] (disconnect service;; mret (NO_ERROR, wno_exception new_parcel)));
    [|apply request_data_builds|done].
  rewrite bind_run. by destruct (disconnect service g) as [[] g'].
Qed.

Lemma getInputBufferProducer_alive g :
  Bp_getInputBufferProducer (alive service base) true g =
    ('(ret, bp) ← getInputBufferProducer service;
     mret (if bool_decide (ret ≠ OK) then (ret, None)
           else (match bp with None => INVALID_OPERATION | Some _ => OK end, bp))) g.
Proof.
  cbn [Bp_getInputBufferProducer negb]. rewrite !bind_run.
  rewrite (remote_alive GET_INPUT_SURFACE _ [] ('(ret, bp) ← getInputBufferProducer service;
     let reply := w32 1 (w32 ret (wno_exception new_parcel)) in
     let b := if bool_decide (ret = OK) then bp else None in
     mret (NO_ERROR, wbinder b (wstring (to_chars "camera input") reply)))); [|apply request_data_builds|done].
  rewrite bind_run. destruct (getInputBufferProducer service g) as [[ret bp] g']. cbn [fst snd mret M_ret].
  set (b := if bool_decide (ret = OK) then bp else None).
  assert (Hb : builds (wbinder b (wstring (to_chars "camera input") (w32 1 (w32 ret (wno_exception (P := P) new_parcel)))))
                 [PException; PInt32 ret; PInt32 1; PString16 (to_chars "camera input"); PBinder b]).
  { apply (builds_binder b _ [_; _; _; _]), (builds_string _ _ [_; _; _]), (builds_w32 1 _ [_; _]),
      (builds_w32 ret _ [_]), (builds_exception _ []), builds_new. }
  apply exception_taken in Hb. destruct (r32_take _ _ _ Hb) as (q & -> & Hq).
  destruct (decide (ret = OK)) as [->|Hr]; [|by rewrite !(bool_decide_true (ret ≠ OK))].
  rewrite status_ok. destruct (r32_take _ _ _ Hq) as (q2 & -> & Hq2). rewrite bool_decide_true by done.
  destruct (take_one _ _ _ _ _ (readString16_law _) Hq2) as (q3 & -> & Hq3).
  destruct (take_one _ _ _ _ _ (readStrongBinder_law b) Hq3) as (q4 & -> & _). done.
Qed.

Lemma r32_nothing q : unread q = [] → ∃ q', r32 q = (0, q') ∧ unread q' = [].
Proof.
  intros Hq. destruct (nothing_int32 q Hq) as [Hr Hu]. unfold r32. destruct (readInt32 q) as [[r z] q'].
  cbn in *. rewrite bool_decide_false by done. by exists q'.
Qed.

Lemma frame_nothing q last : unread q = [] → read_frame_number last q = (BAD_VALUE, last).
Proof.
  intros Hq. unfold read_frame_number. by destruct (r32_nothing q Hq) as (q' & -> & _).
Qed.

(** ** Calls with requests and metadata *)

Lemma on_heap_run {A} (f : M (heap W) A) g :
  on_heap f g = ((f (rpc_heap g)).1, Rpc (f (rpc_heap g)).2 (rpc_service g)).
Proof. unfold on_heap. by destruct (f (rpc_heap g)). Qed.

(** The items of a request that may be missing. *)
Definition maybe_items (items : list pitem) (request : option CaptureRequest) : Prop :=
  match request with
  | Some r => ∃ l, items = PInt32 1 :: l ∧ request_items (W := W) (P := P) l r
  | None => items = [PInt32 0]
  end.

Definition maybe_ok (request : option CaptureRequest) : Prop :=
  match request with Some r => request_ok r | None => True end.

(** A request of a list that could not be read. *)
Definition unreadable (request : option CaptureRequest) : Prop :=
  ∃ r, request = Some r ∧ no_room_for_copy (W := W) (mBuffer (cr_metadata r)).

Definition same_maybe : option CaptureRequest → option CaptureRequest → Prop := option_Forall2 same_request.

(** What the service gets for a submission: the request and the flag, or, where
    there is no memory for the metadata, an empty request with the count of the
    surfaces as the flag. *)
Definition received (request : option CaptureRequest) (repeating : bool)
    (request' : option CaptureRequest) (repeating' : bool) : Prop :=
  (same_maybe request request' ∧ repeating' = repeating) ∨
  ∃ r, request = Some r ∧ no_room_for_copy (W := W) (mBuffer (cr_metadata r)) ∧
    request' = Some new_request ∧ repeating' = bool_decide (cr_surfaces r ≠ []).

Lemma write_maybe request data items g :
  maybe_ok request → builds data items →
  ∃ data' h l, (match request with
      | Some r => '(_, p) ← on_heap (write_request r (Some (w32 1 data))); mret (default data p)
      | None => mret (w32 0 data) end) g = (data', Rpc h (rpc_service g)) ∧
    builds data' (items ++ l) ∧ maybe_items l request.
Proof using All.
  intros Hok Hb. destruct request as [r|].
  - apply (builds_w32 1) in Hb. destruct (send_request r _ _ (rpc_heap g) Hok Hb) as (p & h & l & Hw & Hp & Hi).
    exists p, h, (PInt32 1 :: l). rewrite bind_run, on_heap_run, Hw. split_and!; [done| |by exists l].
    by rewrite <- (assoc_L (++)) in Hp.
  - exists (w32 0 data), (rpc_heap g), [PInt32 0]. split_and!; [by destruct g|by apply (builds_w32 0)|done].
Qed.

Lemma submitRequest_alive request repeating last g :
  maybe_ok request →
  ∃ request' repeating' h, received request repeating request' repeating' ∧
    Bp_submitRequest (alive service base) request repeating last g =
      ('(ret, n) ← submitRequest service request' repeating' (-1);
       drop_requests [request'];;
       mret (frame_answer (λ r, bool_decide (r < 0)) last ret n)) (Rpc h (rpc_service g)).
Proof using All.
  intros Hok. unfold Bp_submitRequest.
  destruct (write_maybe request _ _ g Hok request_data_builds) as (data & h & items & Hw & Hb & Hi).
  rewrite bind_run, Hw. cbn [fst snd].
  apply (builds_w32 (Z.b2z repeating)) in Hb. rewrite bind_run.
  destruct (remote_finds SUBMIT_REQUEST _ _ (Rpc h (rpc_service g)) Hb) as (behind & Hu & Hr).
  specialize (Hr (on_submit service behind new_parcel) eq_refl). rewrite Hr. clear Hr.
  assert (Hread : ∃ request' h' rest z q,
      (let '(present, d) := r32 behind in
       if bool_decide (present ≠ 0) then
         '(_, r, p) ← on_heap (read_request new_request (Some d)); mret (Some r, default d p)
       else mret (None, d)) (Rpc h (rpc_service g)) = (request', rest, Rpc h' (rpc_service g)) ∧
      r32 rest = (z, q) ∧ received request repeating request' (bool_decide (z ≠ 0))).
  { destruct request as [r|]; cbn in Hi.
    - destruct Hi as (l & -> & Hi). cbn [app] in Hu. destruct (r32_take _ _ _ Hu) as (q & -> & Hq).
      rewrite bool_decide_true by done.
      destruct (Hi q _ h Hq) as (res & r' & q' & h' & Hr & [(_ & Hq' & Hs)|(_ & -> & Hn & rest & Hq')]);
        destruct (r32_take _ _ _ Hq') as (q2 & Hr2 & _); do 5 eexists;
        (split; [rewrite bind_run, on_heap_run; cbn [rpc_heap rpc_service]; by rewrite Hr|]);
        (split; [exact Hr2|]).
      + left. split; [by constructor|by destruct repeating].
      + right. exists r. split_and!; [done..|]. apply bool_decide_ext. by destruct (cr_surfaces r).
    - subst items. cbn [app] in Hu. destruct (r32_take _ _ _ Hu) as (q & -> & Hq).
      destruct (r32_take _ _ _ Hq) as (q2 & Hr2 & _).
      exists None, h, q. do 2 eexists. split_and!; [done|exact Hr2|].
      left. split; [constructor|by destruct repeating]. }
  destruct Hread as (request' & h' & rest & z & q & Hread & Hz & Hs).
  exists request', (bool_decide (z ≠ 0)), h'. split; [done|].
  unfold on_submit. destruct (r32 behind) as [present d]. rewrite bind_run, Hread. cbn [fst snd].
  rewrite Hz, !bind_run. destruct (submitRequest service request' (bool_decide (z ≠ 0)) (-1) _) as [[ret n] g'].
  cbn [fst snd].
  rewrite !bind_run. cbn [fst snd mret M_ret]. destruct (drop_requests [request'] g') as [u g2]. cbn [fst snd].
  destruct (frame_taken ret n) as (q2 & -> & Hq2). rewrite Hq2. unfold frame_answer. by destruct last.
Qed.

Lemma write_requests_ok l data items0 g :
  Forall maybe_ok l → builds data items0 →
  ∃ data' h ls, write_requests l data g = (Some data', Rpc h (rpc_service g)) ∧
    builds data' (items0 ++ concat ls) ∧ Forall2 maybe_items ls l.
Proof using All.
  intros Hl. revert data items0 g. induction Hl as [|[r|] l Hr Hl IH]; intros data items0 g Hb.
  - exists data, (rpc_heap g), []. rewrite app_nil_r. split_and!; [by destruct g|done|constructor].
  - cbn [write_requests]. apply (builds_w32 1) in Hb.
    destruct (send_request r _ _ (rpc_heap g) Hr Hb) as (p & h & items & Hw & Hp & Hi).
    rewrite bind_run, on_heap_run, Hw. cbn [fst snd]. rewrite status_ok. cbn [from_option].
    destruct (IH p _ (Rpc h (rpc_service g)) Hp) as (data' & h' & ls & Hr' & Hb' & Hf).
    exists data', h', ((PInt32 1 :: items) :: ls). split_and!; [exact Hr'| |].
    + cbn. by rewrite <- !(assoc_L (++)) in Hb'.
    + constructor; [by exists items|done].
  - cbn [write_requests]. apply (builds_w32 0) in Hb.
    destruct (IH _ _ g Hb) as (data' & h' & ls & Hr' & Hb' & Hf).
    exists data', h', ([PInt32 0] :: ls). split_and!; [exact Hr'| |by constructor].
    cbn. by rewrite <- !(assoc_L (++)) in Hb'.
Qed.

Lemma drop_requests_heap l g : ∃ h, drop_requests l g = ((), Rpc h (rpc_service g)).
Proof.
  revert g. induction l as [|[r|] l IH]; intros g; cbn [drop_requests].
  - exists (rpc_heap g). by destruct g.
  - rewrite bind_run, on_heap_run. cbn [fst snd]. apply (IH (Rpc _ (rpc_service g))).
  - apply IH.
Qed.

(** The requests of a list are read, or one of them cannot be. *)
Lemma read_requests_ok ls l acc q rest g :
  Forall2 maybe_items ls l → unread q = concat ls ++ rest →
  ∃ res h, read_requests (length l) acc q g = (res, Rpc h (rpc_service g)) ∧
    ((∃ l' q', res = Some (acc ++ l', q') ∧ unread q' = rest ∧ Forall2 same_maybe l l') ∨
     (res = None ∧ Exists unreadable l)).
Proof using All.
  intros Hl. revert acc q g. induction Hl as [|items request ls l Hi Hl IH]; intros acc q g Hq.
  - exists (Some (acc, q)), (rpc_heap g). split; [by destruct g|]. left. exists [], q.
    rewrite app_nil_r. split_and!; [done|done|constructor].
  - cbn [concat length read_requests] in *. rewrite <- (assoc_L (++)) in Hq. destruct request as [r|]; cbn in Hi.
    + destruct Hi as (li & -> & Hi). cbn [app] in Hq. destruct (r32_take _ _ _ Hq) as (q1 & -> & Hq1).
      rewrite bool_decide_true by done.
      destruct (Hi q1 _ (rpc_heap g) Hq1) as (res & r' & q2 & h & Hr & Hcase).
      rewrite bind_run, on_heap_run, Hr. cbn [fst snd].
      destruct Hcase as [(-> & Hq2 & Hs)|(-> & _ & Hn & _)].
      * rewrite status_ok. cbn [from_option]. unfold id.
        destruct (IH (acc ++ [Some r']) q2 (Rpc h (rpc_service g)) Hq2)
          as (res & h' & -> & [(l' & q3 & -> & Hq3 & Hf)|[-> Hex]]); do 2 eexists; (split; [reflexivity|]).
        -- left. exists (Some r' :: l'), q3. rewrite <- (assoc_L (++)).
           split_and!; [done|done|constructor; [by constructor|done]].
        -- right. split; [done|by apply Exists_cons_tl].
      * rewrite bool_decide_true, bind_run by done.
        destruct (drop_requests_heap (acc ++ [Some r']) (Rpc h (rpc_service g))) as (h2 & ->).
        exists None, h2. split; [done|]. right. split; [done|]. apply Exists_cons_hd. by exists r.
    + subst items. cbn [app] in Hq. destruct (r32_take _ _ _ Hq) as (q1 & -> & Hq1). rewrite bool_decide_false by (intros []; done).
      destruct (IH (acc ++ [None]) q1 g Hq1)
        as (res & h' & -> & [(l' & q3 & -> & Hq3 & Hf)|[-> Hex]]); do 2 eexists; (split; [reflexivity|]).
      * left. exists (None :: l'), q3. rewrite <- (assoc_L (++)).
        split_and!; [done|done|constructor; [by constructor|done]].
      * right. split; [done|by apply Exists_cons_tl].
Qed.

Lemma submitRequestList_alive l repeating last g :
  Forall maybe_ok l → Z.of_nat (length l) < 2 ^ 31 →
  (∃ l' h, Forall2 same_maybe l l' ∧
    Bp_submitRequestList (alive service base) l repeating last g =
      ('(ret, n) ← submitRequestList service l' repeating (-1);
       drop_requests l';;
       mret (frame_answer (λ r, bool_decide (r < 0)) last ret n)) (Rpc h (rpc_service g))) ∨
  (Exists unreadable l ∧ ∃ h,
    Bp_submitRequestList (alive service base) l repeating last g =
      (FAILED_TRANSACTION, last, Rpc h (rpc_service g))).
Proof using All.
  intros Hok Hlen. unfold Bp_submitRequestList. rewrite s32_small by (unfold is_s32; lia).
  pose proof (builds_w32 (Z.of_nat (length l)) _ _ request_data_builds) as Hb. cbn [app] in Hb.
  destruct (write_requests_ok l _ _ g Hok Hb) as (data & h & ls & Hw & Hb' & Hf).
  rewrite bind_run, Hw. cbn [fst snd]. apply (builds_w32 (Z.b2z repeating)) in Hb'. rewrite bind_run.
  destruct (remote_finds SUBMIT_REQUEST_LIST _ _ (Rpc h (rpc_service g)) Hb') as (behind & Hu & Hr).
  specialize (Hr (on_submit_list service behind new_parcel) eq_refl). rewrite Hr. clear Hr.
  unfold on_submit_list. cbn [app] in Hu. destruct (r32_take _ _ _ Hu) as (q & -> & Hq).
  rewrite Nat2Z.id. destruct (read_requests_ok ls l [] q _ (Rpc h (rpc_service g)) Hf Hq)
    as (res & h' & Hr & Hcase). rewrite bind_run, Hr. cbn [fst snd rpc_service].
  destruct Hcase as [(l' & q' & -> & Hq' & Hs)|[-> Hex]].
  - left. exists l', h'. split; [done|]. cbn [app].
    destruct (r32_take _ _ _ Hq') as (q2 & -> & _).
    assert (bool_decide (Z.b2z repeating ≠ 0) = repeating) as -> by by destruct repeating.
    rewrite !bind_run. destruct (submitRequestList service l' repeating (-1) _) as [[ret n] g']. cbn [fst snd].
    rewrite !bind_run. cbn [fst snd mret M_ret]. destruct (drop_requests l' g') as [u g2]. cbn [fst snd].
    destruct (frame_taken ret n) as (q3 & -> & Hq3). rewrite Hq3. unfold frame_answer. by destruct last.
  - right. split; [done|]. exists h'. cbn [mret M_ret].
    destruct (nothing_exception new_parcel (proj1 new_parcel_law)) as [_ Hn].
    cbn [fst snd]. destruct (r32_nothing _ Hn) as (q' & -> & Hq'). by rewrite frame_nothing.
Qed.

(** A call that fills an object: the service fills an empty one of its own, the
    caller's, when there is one and it is not locked, has the same entries then
    (or none, if there is no memory for them), and the service's state is what
    the call has left. *)
Definition object_answer (f : metadata → M G (Z * metadata)) (m : option metadata) (g : G)
    (res : Z * option metadata * G) : Prop :=
  let '(ret, out, g1) := f CameraMetadata g in
  let '(r, m', g2) := res in
  sendable out → r = ret ∧ rpc_service g2 = rpc_service g1 ∧
  match m with
  | None => m' = None
  | Some old => ∃ new, m' = Some new ∧
      if mLocked old then new = old
      else mLocked new = false ∧
           (same_metadata out new ∨ mBuffer new = None ∧ no_room_for_copy (W := W) (mBuffer out))
  end.

(** What a reply with an object holds behind the header, and what reading it
    gives. *)
Lemma object_reply (f : metadata → M G (Z * metadata)) m g :
  sendable (f CameraMetadata g).1.2 → ∃ reply items g1,
    reply_object (P := P) new_parcel f g = (NO_ERROR, reply, g1) ∧ unread reply = PException :: items ∧
    ∀ q, unread q = items →
      object_answer f m g ((let '(result, q) := r32 q in m' ← read_out m q; mret (result, m')) g1).
Proof using H1 H4.
  intros Hout. unfold reply_object, object_answer. rewrite !bind_run.
  destruct (f CameraMetadata g) as [[ret out] g1]. cbn [fst snd] in *. rewrite !bind_run. cbn [fst snd mret M_ret].
  rewrite on_heap_run. unfold write_object. rewrite !bind_run.
  assert (Hp : builds (w32 1 (w32 ret (wno_exception (P := P) new_parcel))) [PException; PInt32 ret; PInt32 1]).
  { by apply (builds_w32 1 _ [_; _]), (builds_w32 ret _ [_]), (builds_exception _ []), builds_new. }
  destruct (send_packet_any out _ _ (rpc_heap g1) Hout Hp) as (p & h & items & Hw & [_ Hpb] & Hi).
  rewrite Hw. cbn [fst snd mret M_ret from_option]. unfold id. cbn [app] in Hpb.
  rewrite ?bind_run, ?on_heap_run. cbn [fst snd mret M_ret rpc_heap rpc_service].
  do 3 eexists. split_and!; [reflexivity|exact Hpb|]. intros q Hq.
  match goal with |- let '(_, _) := ?x in _ => destruct x as [[r m'] g2] eqn:Hx end. intros _. revert Hx.
  destruct (r32_take _ _ _ Hq) as (q1 & -> & Hq1). rewrite bind_run. unfold read_out.
  destruct (r32_take _ _ _ Hq1) as (q2 & -> & Hq2). rewrite bool_decide_true by done.
  rewrite !bind_run, on_heap_run. cbn [rpc_heap rpc_service].
  rewrite <- (app_nil_r items) in Hq2.
  match goal with |- context [read_object (Some q2) CameraMetadata ?h0] =>
    destruct (Hi q2 [] h0 CameraMetadata Hq2 eq_refl) as (res & m1 & q3 & h3 & Hr & _ & Hs) end.
  assert (Hm1 : mLocked m1 = false ∧
    (same_metadata out m1 ∨ mBuffer m1 = None ∧ no_room_for_copy (W := W) (mBuffer out))).
  { destruct Hs as [(_ & Hl & Hs)|(_ & -> & Hn)]; (split; [done|]); [by left|by right]. }
  destruct Hm1 as [Hl Hm1].
  rewrite Hr. cbn [fst snd mret M_ret]. destruct m as [old|].
  - unfold swap. rewrite Hl. destruct (mLocked old) eqn:Ho; rewrite !bind_run, !on_heap_run;
      cbn [fst snd mret M_ret rpc_service]; intros [= <- <- <-]; split_and!; try done; eexists; done.
  - rewrite !bind_run, !on_heap_run. cbn [fst snd mret M_ret rpc_service]. by intros [= <- <- <-].
Qed.

(** An answer that cannot be sent is not described. *)
Lemma object_answer_sendable (f : metadata → M G (Z * metadata)) m g res :
  (sendable (f CameraMetadata g).1.2 → object_answer f m g res) → object_answer f m g res.
Proof.
  unfold object_answer. destruct (f CameraMetadata g) as [[ret out] g1]. cbn. destruct res as [[r m'] g2].
  intros Hr Hs. exact (Hr Hs Hs).
Qed.

Lemma object_alive code data l (f : metadata → M G (Z * metadata)) m g :
  builds data (PToken DESCRIPTOR :: l) →
  (∀ behind, unread behind = l → dispatch service code behind new_parcel = Some (reply_object new_parcel f)) →
  object_answer f m g
    ((reply ← remote (alive service base) code data;
      let '(result, reply) := r32 reply in m' ← read_out m reply; mret (result, m')) g).
Proof using All.
  intros Hb Hd. apply object_answer_sendable. intros Hs.
  destruct (object_reply f m g Hs) as (reply & items & g1 & Hf & Hu & Ha).
  rewrite bind_run, (remote_alive code data l _ g Hb Hd), Hf. cbn [fst snd]. apply Ha.
  destruct (take_one _ _ _ _ _ readExceptionCode_law Hu) as (q & -> & Hq). done.
Qed.

Lemma createDefaultRequest_alive templateId m g :
  object_answer (createDefaultRequest service templateId) m g
    (Bp_createDefaultRequest (alive service base) templateId m g).
Proof using All.
  apply (object_alive _ _ [PInt32 templateId]).
  - by apply (builds_w32 _ _ [_]), request_data_builds.
  - intros behind Hb. destruct (r32_take _ _ _ Hb) as (q & Hq & _). unfold dispatch. cbn. by rewrite Hq.
Qed.

Lemma getCameraInfo_alive m g :
  object_answer (getCameraInfo service) m g (Bp_getCameraInfo (alive service base) m g).
Proof using All. apply (object_alive _ _ []); [apply request_data_builds|done]. Qed.

(** C16: A call of the proxy on a service that is alive is the service's own
    call: on the same arguments and in the same state when these are numbers and
    producers, and otherwise on requests with the same entries, surfaces and
    flag, in a state that differs by memory only; its answer comes back as it is,
    but for what the proxy makes an error: a negative status of a submission, a
    status that is not 0 of [cancelRequest] and [flush], and every status when
    there is no place for the frame number.  Where a process has no memory for
    the metadata it is sent, a submitted request arrives empty, and the flag is
    whether it had surfaces; a list of requests is not submitted and the call
    fails; and an object that should be filled is left empty.  Parcels have room
    for what is written, a packet fits a blob, and there are fewer than 2^31
    surfaces and requests. *)
Theorem calls_transparent :
  let A := alive service base in
  (∀ g, Bp_disconnect A g = disconnect service g ∧
     Bp_beginConfigure A g = beginConfigure service g ∧
     Bp_waitUntilIdle A g = waitUntilIdle service g) ∧
  (∀ high g, Bp_endConfigure A high g = endConfigure service high g) ∧
  (∀ z g, Bp_deleteStream A z g = deleteStream service z g ∧ Bp_prepare A z g = prepare service z g ∧
     Bp_tearDown A z g = tearDown service z g) ∧
  (∀ n z g, Bp_prepare2 A n z g = prepare2 service n z g) ∧
  (∀ w h f g, Bp_createInputStream A w h f g = createInputStream service w h f g) ∧
  (∀ o g, Bp_createStream A o g =
     match mGbp o with Some _ => createStream service o g | None => (BAD_VALUE, g) end) ∧
  (∀ g, Bp_getInputBufferProducer A true g =
     ('(ret, bp) ← getInputBufferProducer service;
      mret (if bool_decide (ret ≠ OK) then (ret, None)
            else (match bp with None => INVALID_OPERATION | Some _ => OK end, bp))) g) ∧
  (∀ z last g, Bp_cancelRequest A z last g =
     ('(ret, n) ← cancelRequest service z (-1);
      mret (frame_answer (λ r, bool_decide (r ≠ 0)) last ret n)) g) ∧
  (∀ last g, Bp_flush A last g =
     ('(ret, n) ← flush service (-1); mret (frame_answer (λ r, bool_decide (r ≠ 0)) last ret n)) g) ∧
  (∀ request repeating last g, maybe_ok request → ∃ request' repeating' h,
     received request repeating request' repeating' ∧
     Bp_submitRequest A request repeating last g =
       ('(ret, n) ← submitRequest service request' repeating' (-1);
        drop_requests [request'];;
        mret (frame_answer (λ r, bool_decide (r < 0)) last ret n)) (Rpc h (rpc_service g))) ∧
  (∀ l repeating last g, Forall maybe_ok l → Z.of_nat (length l) < 2 ^ 31 →
     (∃ l' h, Forall2 same_maybe l l' ∧
      Bp_submitRequestList A l repeating last g =
        ('(ret, n) ← submitRequestList service l' repeating (-1);
         drop_requests l';;
         mret (frame_answer (λ r, bool_decide (r < 0)) last ret n)) (Rpc h (rpc_service g))) ∨
     (Exists unreadable l ∧ ∃ h,
      Bp_submitRequestList A l repeating last g = (FAILED_TRANSACTION, last, Rpc h (rpc_service g)))) ∧
  (∀ z m g, object_answer (createDefaultRequest service z) m g (Bp_createDefaultRequest A z m g)) ∧
  (∀ m g, object_answer (getCameraInfo service) m g (Bp_getCameraInfo A m g)).
Proof using All.
  intros A. unfold A. split_and!.
  - intros g. split_and!; [apply disconnect_alive|by apply no_argument|by apply no_argument].
  - apply endConfigure_alive.
  - intros z g. split_and!; by apply one_argument.
  - apply prepare2_alive.
  - apply createInputStream_alive.
  - apply createStream_alive.
  - apply getInputBufferProducer_alive.
  - apply cancelRequest_alive.
  - apply flush_alive.
  - intros request repeating last g. apply submitRequest_alive.
  - intros l repeating last g. apply submitRequestList_alive.
  - intros z m g. apply createDefaultRequest_alive.
  - intros m g. apply getCameraInfo_alive.
Qed.

End calls.

(** ** A dead service *)

Section dead_calls.
  Context {W T : Type} `{MetaPacketsLaws W} {P : Type} `{ParcelObjectLaws P}.
  Implicit Types (q : P) (g : rpc W T).

Abbreviation D := (dead (W := W) (T := T) (P := P)).

Lemma remote_dead code data g : ∃ q, remote D code data g = (q, g) ∧ unread q = [].
Proof.
  destruct (new_parcel_law (P := P)) as [Hn _]. destruct (nothing_exception new_parcel Hn) as [_ Hu].
  eexists. split; [reflexivity|done].
Qed.

Lemma status_dead code data g : status_call D code data g = (OK, g).
Proof.
  unfold status_call. rewrite bind_run. destruct (remote_dead code data g) as (q & -> & Hq). cbn.
  by destruct (r32_nothing q Hq) as (q' & -> & _).
Qed.

Lemma checked_nothing q last : unread q = [] → checked_frame_number last q = (FAILED_TRANSACTION, last).
Proof.
  intros Hq. unfold checked_frame_number. destruct (r32_nothing q Hq) as (q' & -> & Hq').
  by rewrite frame_nothing.
Qed.

(** On a service that has died no call has an effect on the service's state, but
    the calls whose reply is a status only report success; the others report an
    error, apart from those that ask for an object, which report success and
    leave the caller's object empty. *)
Theorem dead_calls_report_success g :
  (Bp_beginConfigure D g = (OK, g) ∧ Bp_waitUntilIdle D g = (OK, g) ∧
   (∀ high, Bp_endConfigure D high g = (OK, g)) ∧
   (∀ z, Bp_deleteStream D z g = (OK, g) ∧ Bp_prepare D z g = (OK, g) ∧ Bp_tearDown D z g = (OK, g)) ∧
   (∀ n z, Bp_prepare2 D n z g = (OK, g)) ∧ (∀ o, Bp_createStream D o g = (OK, g)) ∧
   (∀ w h f, Bp_createInputStream D w h f g = (OK, g))) ∧
  (∀ last z, Bp_cancelRequest D z last g = (FAILED_TRANSACTION, last, g) ∧
     Bp_flush D last g = (FAILED_TRANSACTION, last, g)) ∧
  (∀ request repeating last, (Bp_submitRequest D request repeating last g).1 = (FAILED_TRANSACTION, last) ∧
     rpc_service (Bp_submitRequest D request repeating last g).2 = rpc_service g) ∧
  Bp_getInputBufferProducer D true g = (INVALID_OPERATION, None, g) ∧
  (∀ m z, mLocked m = false →
     (∃ h, Bp_createDefaultRequest D z (Some m) g = (OK, Some CameraMetadata, Rpc h (rpc_service g))) ∧
     (∃ h, Bp_getCameraInfo D (Some m) g = (OK, Some CameraMetadata, Rpc h (rpc_service g)))).
Proof.
  split_and!.
  - apply status_dead.
  - apply status_dead.
  - intros high. apply status_dead.
  - intros z. split_and!; apply status_dead.
  - intros n z. apply status_dead.
  - intros o. apply status_dead.
  - intros w h f. apply status_dead.
  - intros last z. unfold Bp_cancelRequest, Bp_flush. rewrite !bind_run.
    destruct (remote_dead CANCEL_REQUEST (w32 z request_data) g) as (q & -> & Hq).
    destruct (remote_dead FLUSH request_data g) as (q2 & -> & Hq2). cbn.
    by rewrite !checked_nothing.
  - intros request repeating last. unfold Bp_submitRequest. rewrite bind_run.
    assert (Hw : ∃ data h, (match request with
        | Some r => '(_, p) ← on_heap (write_request r (Some (w32 1 request_data))); mret (default request_data p)
        | None => mret (w32 0 request_data) end) g = (data : P, Rpc h (rpc_service g))).
    { destruct request as [r|].
      - rewrite bind_run, on_heap_run.
        destruct (write_request r (Some (w32 1 request_data)) (rpc_heap g)) as [[r0 p] h]. by do 2 eexists.
      - exists (w32 0 request_data), (rpc_heap g). by destruct g. }
    destruct Hw as (data & h & ->). cbn [fst snd]. rewrite bind_run.
    destruct (remote_dead SUBMIT_REQUEST (w32 (Z.b2z repeating) data) (Rpc h (rpc_service g))) as (q & -> & Hq).
    cbn [fst snd]. destruct (r32_nothing q Hq) as (q' & -> & Hq'). rewrite frame_nothing by done. by split.
  - cbn [Bp_getInputBufferProducer negb]. rewrite bind_run.
    destruct (remote_dead GET_INPUT_SURFACE request_data g) as (q & -> & Hq). cbn [fst snd].
    destruct (r32_nothing q Hq) as (q' & -> & Hq'). rewrite bool_decide_false by (intros []; done).
    by destruct (r32_nothing q' Hq') as (q2 & -> & _).
  - intros m z Hl. assert (Ho : ∀ code data, ∃ h, (reply ← remote D code data;
      let '(result, reply) := r32 reply in m' ← read_out (Some m) reply; mret (result, m')) g =
      (OK, Some CameraMetadata, Rpc h (rpc_service g))).
    { intros code data. rewrite bind_run. destruct (remote_dead code data g) as (q & -> & Hq). cbn [fst snd].
      destruct (r32_nothing q Hq) as (q' & -> & Hq'). rewrite bind_run. unfold read_out.
      destruct (r32_nothing q' Hq') as (q2 & -> & _). rewrite bind_run, bool_decide_false by (intros []; done).
      cbn [fst snd mret M_ret]. unfold swap. rewrite Hl. cbn [CameraMetadata mLocked mBuffer].
      rewrite bind_run, on_heap_run. cbn [fst snd mret M_ret]. by eexists. }
    split; apply Ho.
Qed.

End dead_calls.

(** ** A service that counts what it is sent *)

Definition counting : ICameraDeviceUser (rpc unit Z) :=
  let add n : M (rpc unit Z) () := λ g, ((), Rpc (rpc_heap g) (rpc_service g + n)) in
  let weight (r : option CaptureRequest) := match r with
    | Some r => entryCount (cr_metadata r) + Z.of_nat (length (cr_surfaces r))
    | None => 100
    end in
  DeviceUser (mret ()) (λ r _ _, add (weight r);; mret (5, 42)) (λ _ _ _, mret (-22, 7)) (λ _ n, mret (0, n))
    (mret 3) (λ _, mret 0) (λ _, mret (-38)) (λ o, mret (mRotation o)) (λ w h _, mret (w * h)) (mret (0, None))
    (λ _ m, mret (0, m)) (λ m, mret (0, m)) (mret 0) (λ _, mret (0, 9)) (λ _, mret 1) (λ n z, mret (n + z))
    (λ _, mret 2).

Definition no_base : Z → soft_parcel → soft_parcel → M (rpc unit Z) (Z * soft_parcel) :=
  λ _ _ reply, mret (-38, reply).

Definition counted_request : option CaptureRequest :=
  Some (Request (Md (Some shown) false) [Some 11; None; Some 12] true).

Lemma calls_transparent_witness :
  let g := Rpc (Heap {[8192]} false tt) 0 in
  let res := Bp_submitRequest (alive counting no_base) counted_request true (Some (-1)) g in
  res.1 = (5, Some 42) ∧ rpc_service res.2 = 5 ∧
  (Bp_submitRequest (alive counting no_base) None true None g).1 = (FAILED_TRANSACTION, None) ∧
  (Bp_prepare2 (alive counting no_base) 30 4 g).1 = 34.
Proof.
  intros g res. pose proof (calls_transparent counting no_base) as Ht. cbn zeta in Ht.
  destruct Ht as (_ & _ & _ & Hp & _ & _ & _ & _ & _ & Hs & _).
  assert (Hok : maybe_ok (W := unit) counted_request).
  { split; [intros c [= <-]; unfold compact_ok; by_decide|done]. }
  destruct (Hs counted_request true (Some (-1)) g Hok) as (request' & repeating' & h & Hrec & He).
  destruct (Hs None true None g I) as (request2 & repeating2 & h2 & Hrec2 & He2).
  destruct Hrec as [[Hsame ->]|(r & [= <-] & (c & live & w & [= <-] & Hn) & _)];
    [|by destruct (unlimited_copies live shown w (proj1 Hok shown eq_refl) Hn)].
  destruct Hrec2 as [[Hsame2 ->]|(r & [=] & _)].
  assert (Hres : res.1 = (5, Some 42) ∧ rpc_service res.2 = 5).
  { unfold res. rewrite He. inversion Hsame as [r r' (Hm & Hsf & _) E1 E2|]; subst. clear Hsame He.
    unfold same_metadata in Hm. cbn in Hm. rewrite !bind_run.
    cbn [counting submitRequest fst snd drop_requests mret M_ret].
    repeat (rewrite bind_run || rewrite on_heap_run || (progress cbn [fst snd rpc_heap rpc_service mret M_ret])).
    split; [done|]. unfold entryCount, cm_entry_count. rewrite Hsf.
    destruct (mBuffer (cr_metadata r')) as [c|]; [|done]. cbn in Hm. injection Hm as <-. done. }
  destruct Hres as [H1 H2]. split_and!; [exact H1|exact H2| |by rewrite Hp].
  rewrite He2. inversion Hsame2. done.
Defined.

Lemma dead_calls_report_success_witness :
  let g := Rpc (Heap {[8192]} false tt) 0 in
  let D := dead (W := unit) (T := Z) (P := soft_parcel) in
  Bp_beginConfigure D g = (OK, g) ∧
  (Bp_submitRequest D counted_request true (Some 3) g).1 = (FAILED_TRANSACTION, Some 3).
Proof.
  intros g D. destruct (dead_calls_report_success (P := soft_parcel) g) as ((Hb & _) & _ & Hs & _).
  split; [exact Hb|]. exact (proj1 (Hs counted_request true (Some 3))).
Defined.

(** A request that could not be read is submitted as an empty one; in a list it
    is refused. *)
Example broken_request_submitted :
  let g := Rpc (Heap ∅ false tt) 0 in
  let broken := SoftParcel [PToken DESCRIPTOR; PInt32 1; PInt32 (-5)] [] in
  let broken_list := SoftParcel [PToken DESCRIPTOR; PInt32 1; PInt32 1; PInt32 (-5)] [] in
  (onTransact counting no_base SUBMIT_REQUEST broken new_parcel g).1 =
    (NO_ERROR, SoftParcel [PException; PInt32 5; PInt32 1; PInt64 42] []) ∧
  (onTransact counting no_base SUBMIT_REQUEST_LIST broken_list new_parcel g).1 = (BAD_VALUE, new_parcel).
Proof. split; vm_compute; reflexivity. Qed.
