(* ===== verification/CameraService.v ===== *)
(** * The camera service through binder (src/libmocha/camera)

    Both ends of the interface of the camera service, ICameraService.cpp, whose
    calls wait for their reply, and of the interfaces of those it calls back,
    whose calls do not: camera2/ICameraDeviceCallbacks.cpp,
    ICameraServiceListener.cpp and ICameraServiceProxy.cpp.  Binder gives the
    calls without reply to the one they are meant for in the order in which they
    were made.  A camera, a client, a listener and a device are the numbers of
    their binders. *)

From Stdlib Require Import Ascii String.
From stdpp Require Import gmap.
From S2P Require Import Prelude CStrings CameraH Parcels VendorTags.
From S2P Require Import CameraMeta CameraMetaFacts SoftMeta CameraRpc CameraRpcFacts.

#[global] Open Scope Z_scope.

(** The end of binder at which an interface is served: [CHECK_INTERFACE] is the
    first thing each case does; [base] is [BBinder::onTransact]. *)
Section serve.
  Context {G P : Type} `{!Parcel P} `{!ParcelObjects P}.

Definition serve (interface : chars) (dispatch : Z → P → P → option (M G (Z * P)))
    (base : Z → P → P → M G (Z * P)) (code : Z) (data reply : P) : M G (Z * P) :=
  let '(ok, behind) := checkInterface interface data in
  match dispatch code behind reply with
  | Some f => if ok then f else mret (PERMISSION_DENIED, reply)
  | None => base code data reply
  end.

End serve.

(** ** The service *)

Definition EPROTO : Z := 71.

Record CameraInfo := Info { facing : Z; orientation : Z }.

Module Service.

Definition SERVICE_DESCRIPTOR : chars := to_chars "android.hardware.ICameraService".

Definition GET_NUMBER_OF_CAMERAS : Z := 1.
Definition GET_CAMERA_INFO : Z := 2.
Definition CONNECT : Z := 3.
Definition CONNECT_DEVICE : Z := 4.
Definition ADD_LISTENER : Z := 5.
Definition REMOVE_LISTENER : Z := 6.
Definition GET_CAMERA_CHARACTERISTICS : Z := 7.
Definition GET_CAMERA_VENDOR_TAG_DESCRIPTOR : Z := 8.
Definition GET_LEGACY_PARAMETERS : Z := 9.
Definition SUPPORTS_CAMERA_API : Z := 10.
Definition CONNECT_LEGACY : Z := 11.
Definition SET_TORCH_MODE : Z := 12.
Definition NOTIFY_SYSTEM_EVENT : Z := 13.

Definition CAMERA_TYPE_BACKWARD_COMPATIBLE : Z := 0.

(** The methods, on a world [G]; a result that is returned through a pointer is
    behind the status, what it was before is an argument where it matters. *)
Record ICameraService (G : Type) := CameraService {
  getNumberOfCameras : Z → M G Z;
  getCameraInfo : Z → CameraInfo → M G (Z * CameraInfo);
  getCameraCharacteristics : Z → metadata → M G (Z * metadata);
  getCameraVendorTagDescriptor : M G (Z * option VendorTagDescriptor);
  addListener : option Z → M G Z;
  removeListener : option Z → M G Z;
  connect : option Z → Z → chars → Z → M G (Z * option Z);
  connectDevice : option Z → Z → chars → Z → M G (Z * option Z);
  getLegacyParameters : Z → M G (Z * chars);
  supportsCameraApi : Z → Z → M G Z;
  connectLegacy : option Z → Z → Z → chars → Z → M G (Z * option Z);
  setTorchMode : chars → bool → option Z → M G Z;
  notifySystemEvent : Z → list Z → M G ()
}.
Arguments CameraService {G}.
Arguments getNumberOfCameras {G}.
Arguments getCameraInfo {G}.
Arguments getCameraCharacteristics {G}.
Arguments getCameraVendorTagDescriptor {G}.
Arguments addListener {G}.
Arguments removeListener {G}.
Arguments connect {G}.
Arguments connectDevice {G}.
Arguments getLegacyParameters {G}.
Arguments supportsCameraApi {G}.
Arguments connectLegacy {G}.
Arguments setTorchMode {G}.
Arguments notifySystemEvent {G}.

Section service.
  Context {W T : Type} `{!MetadataLib} `{!MetaPackets W}.
  Context {P : Type} `{!Parcel P} `{!ParcelObjects P} `{!ParcelExtras P}.

Abbreviation G := (rpc W T).

(** *** The proxy

    [transact] sends a code and a parcel and gives a status and the reply. *)
Section proxy.
  Context (transact : Z → P → P → M G (Z * P)).

Definition service_data : P := wtoken SERVICE_DESCRIPTOR new_parcel.

(** [readExceptionCode]: an exception was thrown. *)
Definition thrown (reply : P) : bool * P :=
  let '(exceptionCode, reply) := Parcels.readExceptionCode reply in (bool_decide (exceptionCode ≠ 0), reply).

(** A call whose status is not looked at; nothing after an exception. *)
Definition ask (code : Z) (data : P) : M G (option P) :=
  '(_, reply) ← transact code data new_parcel;
  let '(failed, reply) := thrown reply in
  mret (if failed then None else Some reply).

(** A call whose reply is its status. *)
Definition status_call (code : Z) (data : P) : M G Z :=
  reply ← ask code data;
  mret (match reply with Some reply => (r32 reply).1 | None => - EPROTO end).

Definition Bp_getNumberOfCameras (type : Z) : M G Z :=
  reply ← ask GET_NUMBER_OF_CAMERAS (w32 type service_data);
  mret (match reply with Some reply => (r32 reply).1 | None => 0 end).

(** Without a type. *)
Definition Bp_getNumberOfCameras_default : M G Z := Bp_getNumberOfCameras CAMERA_TYPE_BACKWARD_COMPATIBLE.

Definition Bp_getCameraInfo (cameraId : Z) (cameraInfo : CameraInfo) : M G (Z * CameraInfo) :=
  reply ← ask GET_CAMERA_INFO (w32 cameraId service_data);
  match reply with
  | None => mret (- EPROTO, cameraInfo)
  | Some reply =>
      let '(result, reply) := r32 reply in
      let '(present, reply) := r32 reply in
      if bool_decide (present ≠ 0) then
        let '(facing, reply) := r32 reply in
        let '(orientation, _) := r32 reply in mret (result, Info facing orientation)
      else mret (result, cameraInfo)
  end.

Definition Bp_getCameraCharacteristics (cameraId : Z) (cameraInfo : option metadata)
    : M G (Z * option metadata) :=
  reply ← ask GET_CAMERA_CHARACTERISTICS (w32 cameraId service_data);
  match reply with
  | None => mret (- EPROTO, cameraInfo)
  | Some reply =>
      let '(result, reply) := r32 reply in
      m ← read_out cameraInfo reply; mret (result, m)
  end.

(** [setCapacity] is that of VendorTags.v. *)
Definition Bp_getCameraVendorTagDescriptor (setCapacity : Z → Z) (desc : option VendorTagDescriptor)
    : M G (outcome (Z * option VendorTagDescriptor)) :=
  reply ← ask GET_CAMERA_VENDOR_TAG_DESCRIPTOR service_data;
  mret (match reply with
        | None => Done (- EPROTO, desc)
        | Some reply =>
            let '(result, reply) := r32 reply in
            let '(present, reply) := r32 reply in
            if bool_decide (present ≠ 0) then
              match createFromParcel setCapacity (Some reply) with
              | Done (res, d, _) => Done (result, if bool_decide (res = OK) then d else desc)
              | Fatal => Fatal
              | OutOfBounds => OutOfBounds
              end
            else Done (result, desc)
        end).

(** The reply of the calls that connect; [device] is what the caller has. *)
Definition connected (device : option Z) (code : Z) (data : P) : M G (Z * option Z) :=
  '(status, reply) ← transact code data new_parcel;
  if bool_decide (status ≠ OK) then mret (status, device)
  else
    let '(failed, reply) := thrown reply in
    if failed then mret (- EPROTO, device)
    else
      let '(status, reply) := r32 reply in
      let '(present, reply) := r32 reply in
      mret (status, if bool_decide (present ≠ 0) then (readStrongBinder reply).1 else device).

Definition Bp_connect (cameraClient : option Z) (cameraId : Z) (clientPackageName : chars) (clientUid : Z)
    (device : option Z) : M G (Z * option Z) :=
  connected device CONNECT
    (w32 clientUid (wstring clientPackageName (w32 cameraId (wbinder cameraClient service_data)))).

Definition Bp_connectLegacy (cameraClient : option Z) (cameraId halVersion : Z) (clientPackageName : chars)
    (clientUid : Z) (device : option Z) : M G (Z * option Z) :=
  connected device CONNECT_LEGACY
    (w32 clientUid (wstring clientPackageName (w32 halVersion (w32 cameraId (wbinder cameraClient service_data))))).

Definition Bp_connectDevice (cameraCb : option Z) (cameraId : Z) (clientPackageName : chars) (clientUid : Z)
    (device : option Z) : M G (Z * option Z) :=
  connected device CONNECT_DEVICE
    (w32 clientUid (wstring clientPackageName (w32 cameraId (wbinder cameraCb service_data)))).

Definition Bp_setTorchMode (cameraId : chars) (enabled : bool) (clientBinder : option Z) : M G Z :=
  status_call SET_TORCH_MODE (wbinder clientBinder (w32 (Z.b2z enabled) (wstring cameraId service_data))).

Definition Bp_addListener (listener : option Z) : M G Z :=
  status_call ADD_LISTENER (wbinder listener service_data).
Definition Bp_removeListener (listener : option Z) : M G Z :=
  status_call REMOVE_LISTENER (wbinder listener service_data).

(** The answer is looked for in what was sent.  [parameters] is not null with
    [Some]. *)
Definition Bp_getLegacyParameters (cameraId : Z) (parameters : option chars) : M G (Z * option chars) :=
  match parameters with
  | None => mret (BAD_VALUE, None)
  | Some old =>
      let data := w32 cameraId service_data in
      reply ← ask GET_LEGACY_PARAMETERS data;
      mret (match reply with
            | None => (- EPROTO, Some old)
            | Some _ =>
                let '(res, data) := r32 (written data) in
                let '(length, data) := r32 data in
                (res, Some (if bool_decide (0 < length) then (readString16 data).1 else []))
            end)
  end.

Definition Bp_supportsCameraApi (cameraId apiVersion : Z) : M G Z :=
  let data := w32 apiVersion (w32 cameraId service_data) in
  reply ← ask SUPPORTS_CAMERA_API data;
  mret (match reply with None => - EPROTO | Some _ => (r32 (written data)).1 end).

(** Without reply. *)
Definition Bp_notifySystemEvent (post : Z → P → M G ()) (eventId : Z) (args : list Z) : M G () :=
  post NOTIFY_SYSTEM_EVENT (writeInt32Array args (w32 eventId service_data)).2.

End proxy.

(** *** The service's end *)

Section stub.
  Context (service : ICameraService G).

(** A status and the binder of a camera. *)
Definition reply_camera (reply : P) (f : M G (Z * option Z)) : M G (Z * P) :=
  '(status, camera) ← f;
  let reply := w32 status (wno_exception reply) in
  mret (NO_ERROR, match camera with
                  | Some _ => wbinder camera (w32 1 reply)
                  | None => w32 0 reply
                  end).

Definition on_get_info (cameraId : Z) (reply : P) : M G (Z * P) :=
  '(result, info) ← getCameraInfo service cameraId (Info 0 0);
  mret (NO_ERROR, w32 (orientation info) (w32 (facing info) (w32 1 (w32 result (wno_exception reply))))).

(** A descriptor that cannot be written ends the service, which the caller sees
    as a dead object. *)
Definition on_get_tags (reply : P) : M G (Z * P) :=
  '(result, d) ← getCameraVendorTagDescriptor service;
  let reply := w32 result (wno_exception reply) in
  mret (match d with
        | None => (NO_ERROR, w32 0 reply)
        | Some d =>
            match VendorTags.writeToParcel d (Some (w32 1 reply)) with
            | Some (_, p) => (NO_ERROR, default reply p)
            | None => (DEAD_OBJECT, new_parcel)
            end
        end).

Definition on_legacy_parameters (cameraId : Z) (reply : P) : M G (Z * P) :=
  '(ret, parameters) ← getLegacyParameters service cameraId;
  mret (NO_ERROR, wstring parameters (w32 1 (w32 ret (wno_exception reply)))).

(** The checks of an event's length and its arguments. *)
Definition on_system_event (data reply : P) : M G (Z * P) :=
  let '(eventId, data) := r32 data in
  let '(len, data) := r32 data in
  if bool_decide (len < 0) then mret (FAILED_TRANSACTION, reply)
  else if bool_decide (512 < len) then mret (FAILED_TRANSACTION, reply)
  else
    let '(status, events, _) := read_ints len data in
    if bool_decide (status ≠ NO_ERROR) then mret (FAILED_TRANSACTION, reply)
    else notifySystemEvent service eventId events;; mret (NO_ERROR, reply).

(** A client, a camera, a name and a user, read in this order. *)
Definition on_connect (f : option Z → Z → chars → Z → M G (Z * option Z)) (data reply : P) : M G (Z * P) :=
  let '(client, data) := readStrongBinder data in
  let '(cameraId, data) := r32 data in
  let '(clientName, data) := readString16 data in
  let '(clientUid, _) := r32 data in
  reply_camera reply (f client cameraId clientName clientUid).

Definition on_connect_legacy (data reply : P) : M G (Z * P) :=
  let '(client, data) := readStrongBinder data in
  let '(cameraId, data) := r32 data in
  let '(halVersion, data) := r32 data in
  let '(clientName, data) := readString16 data in
  let '(clientUid, _) := r32 data in
  reply_camera reply (connectLegacy service client cameraId halVersion clientName clientUid).

Definition on_torch (data reply : P) : M G (Z * P) :=
  let '(cameraId, data) := readString16 data in
  let '(enabled, data) := r32 data in
  let '(clientBinder, _) := readStrongBinder data in
  reply_status reply (setTorchMode service cameraId (bool_decide (enabled ≠ 0)) clientBinder).

(** The cases of [service_onTransact] behind the header. *)
Definition service_dispatch (code : Z) (data reply : P) : option (M G (Z * P)) :=
  if bool_decide (code = GET_NUMBER_OF_CAMERAS) then
    let '(type, _) := r32 data in Some (reply_status reply (getNumberOfCameras service type))
  else if bool_decide (code = GET_CAMERA_INFO) then
    let '(cameraId, _) := r32 data in Some (on_get_info cameraId reply)
  else if bool_decide (code = GET_CAMERA_CHARACTERISTICS) then
    let '(cameraId, _) := r32 data in Some (reply_object reply (getCameraCharacteristics service cameraId))
  else if bool_decide (code = GET_CAMERA_VENDOR_TAG_DESCRIPTOR) then Some (on_get_tags reply)
  else if bool_decide (code = CONNECT) then Some (on_connect (connect service) data reply)
  else if bool_decide (code = CONNECT_DEVICE) then Some (on_connect (connectDevice service) data reply)
  else if bool_decide (code = ADD_LISTENER) then
    let '(listener, _) := readStrongBinder data in Some (reply_status reply (addListener service listener))
  else if bool_decide (code = REMOVE_LISTENER) then
    let '(listener, _) := readStrongBinder data in Some (reply_status reply (removeListener service listener))
  else if bool_decide (code = GET_LEGACY_PARAMETERS) then
    let '(cameraId, _) := r32 data in Some (on_legacy_parameters cameraId reply)
  else if bool_decide (code = SUPPORTS_CAMERA_API) then
    let '(cameraId, data) := r32 data in
    let '(apiVersion, _) := r32 data in
    Some (reply_status reply (supportsCameraApi service cameraId apiVersion))
  else if bool_decide (code = CONNECT_LEGACY) then Some (on_connect_legacy data reply)
  else if bool_decide (code = SET_TORCH_MODE) then Some (on_torch data reply)
  else if bool_decide (code = NOTIFY_SYSTEM_EVENT) then Some (on_system_event data reply)
  else None.

Definition service_onTransact : (Z → P → P → M G (Z * P)) → Z → P → P → M G (Z * P) := serve SERVICE_DESCRIPTOR service_dispatch.

End stub.

End service.

End Service.

(** ** Calls without reply

    A program that makes such a call goes on at once.  Binder, which is a
    parameter, takes the call or refuses it, as its status says, keeps the calls
    for an object in their order and gives it one after the other. *)

(** [transact] with [FLAG_ONEWAY], which gives the status, and the thread of the
    receiver that takes a call, if there is one. *)
Class Channel (P Q : Type) := {
  transact_oneway : Z → P → Q → Z * Q;
  next_call : Q → option (Z * P) * Q
}.

(** [queued]: the calls that were taken and not given yet. *)
Class ChannelLaws (P Q : Type) `{!Channel P Q} := {
  queued : Q → list (Z * P);
  transact_oneway_law code data q :
    let '(r, q') := transact_oneway code data q in
    queued q' = queued q ++ (if bool_decide (r = OK) then [(code, data)] else []);
  next_call_law q :
    let '(call, q') := next_call q in call = head (queued q) ∧ queued q' = tail (queued q)
}.

(** The channel to an object and the process it is in. *)
Definition line (Q T : Type) : Type := Q * T.

Section mail.
  Context {W P Q T : Type} `{!Channel P Q}.

(** [remote()->transact(code, data, &reply, FLAG_ONEWAY)], whose status no proxy
    looks at. *)
Definition post (code : Z) (data : P) : M (rpc W (line Q T)) () :=
  λ g, let '(q, t) := rpc_service g in
       let '(_, q) := transact_oneway code data q in ((), Rpc (rpc_heap g) (q, t)).

(** Gives the first call to the one it is for. *)
Definition deliver (receive : Z → P → P → M (rpc W T) (Z * P)) (reply : P) : M (rpc W (line Q T)) () :=
  λ g, let '(q, t) := rpc_service g in
       match next_call q with
       | (None, q) => ((), Rpc (rpc_heap g) (q, t))
       | (Some (code, data), q) =>
           let '(_, g') := receive code data reply (Rpc (rpc_heap g) t) in
           ((), Rpc (rpc_heap g') (q, rpc_service g'))
       end.

End mail.

(** *** Callbacks of a device *)

Module Callbacks.

Definition CALLBACKS_DESCRIPTOR : chars := to_chars "android.hardware.camera2.ICameraDeviceCallbacks".

Definition CAMERA_ERROR : Z := 1.
Definition CAMERA_IDLE : Z := 2.
Definition CAPTURE_STARTED : Z := 3.
Definition RESULT_RECEIVED : Z := 4.
Definition PREPARED : Z := 5.

Record ICameraDeviceCallbacks (G : Type) := DeviceCallbacks {
  onDeviceError : Z → CaptureResultExtras → M G ();
  onDeviceIdle : M G ();
  onCaptureStarted : CaptureResultExtras → Z → M G ();
  onResultReceived : metadata → CaptureResultExtras → M G ();
  onPrepared : Z → M G ()
}.
Arguments DeviceCallbacks {G}.
Arguments onDeviceError {G}.
Arguments onDeviceIdle {G}.
Arguments onCaptureStarted {G}.
Arguments onResultReceived {G}.
Arguments onPrepared {G}.

Section callbacks.
  Context {W T : Type} `{!MetadataLib} `{!MetaPackets W} {P : Type} `{!Parcel P} `{!ParcelObjects P}.

Abbreviation G := (rpc W T).

(** The proxy.  What it writes behind the call is not sent. *)
Section proxy.
  Context (transact : Z → P → M G ()).

Definition callbacks_data : P := wtoken CALLBACKS_DESCRIPTOR new_parcel.

(** An object behind the mark that it is there. *)
Definition add_extras (e : CaptureResultExtras) (data : P) : P :=
  let data := w32 1 data in default data (write_extras e (Some data)).2.

Definition Bp_onDeviceError (errorCode : Z) (resultExtras : CaptureResultExtras) : M G () :=
  transact CAMERA_ERROR (add_extras resultExtras (w32 errorCode callbacks_data)).

Definition Bp_onDeviceIdle : M G () := transact CAMERA_IDLE callbacks_data.

Definition Bp_onCaptureStarted (result : CaptureResultExtras) (timestamp : Z) : M G () :=
  transact CAPTURE_STARTED (w64 timestamp (add_extras result callbacks_data)).

Definition Bp_onResultReceived (m : metadata) (resultExtras : CaptureResultExtras) : M G () :=
  let data := w32 1 callbacks_data in
  '(_, p) ← on_heap (write_object m (Some data));
  transact RESULT_RECEIVED (add_extras resultExtras (default data p)).

Definition Bp_onPrepared (streamId : Z) : M G () := transact PREPARED (w32 streamId callbacks_data).

End proxy.

Section stub.
  Context (client : ICameraDeviceCallbacks G).

(** The extras, as new ones where they are not there. *)
Definition take_extras (data : P) : CaptureResultExtras * P :=
  let '(present, data) := r32 data in
  if bool_decide (present ≠ 0) then
    let '(_, e, p) := read_extras new_extras (Some data) in (e, default data p)
  else (new_extras, data).

(** The result's packet is deleted behind the call. *)
Definition on_result (data reply : P) : M G (Z * P) :=
  let '(present, data) := r32 data in
  '(m, data) ←
    (if bool_decide (present ≠ 0) then
       '(_, m, p) ← on_heap (read_object (Some data) CameraMetadata); mret (m, default data p)
     else mret (CameraMetadata, data));
  let '(resultExtras, _) := take_extras data in
  onResultReceived client m resultExtras;;
  on_heap (destroy m);;
  mret (NO_ERROR, reply).

Definition callbacks_dispatch (code : Z) (data reply : P) : option (M G (Z * P)) :=
  if bool_decide (code = CAMERA_ERROR) then
    let '(errorCode, data) := r32 data in
    let '(resultExtras, _) := take_extras data in
    Some (onDeviceError client errorCode resultExtras;; mret (NO_ERROR, reply))
  else if bool_decide (code = CAMERA_IDLE) then Some (onDeviceIdle client;; mret (NO_ERROR, reply))
  else if bool_decide (code = CAPTURE_STARTED) then
    let '(result, data) := take_extras data in
    let '(timestamp, _) := r64_into 0 data in
    Some (onCaptureStarted client result timestamp;; mret (NO_ERROR, reply))
  else if bool_decide (code = RESULT_RECEIVED) then Some (on_result data reply)
  else if bool_decide (code = PREPARED) then
    let '(streamId, _) := r32 data in Some (onPrepared client streamId;; mret (NO_ERROR, reply))
  else None.

Definition callbacks_onTransact : (Z → P → P → M G (Z * P)) → Z → P → P → M G (Z * P) := serve CALLBACKS_DESCRIPTOR callbacks_dispatch.

End stub.

End callbacks.

End Callbacks.

(** *** Listeners of the service *)

Module Listener.

Definition LISTENER_DESCRIPTOR : chars := to_chars "android.hardware.ICameraServiceListener".

Definition STATUS_CHANGED : Z := 1.
Definition TORCH_STATUS_CHANGED : Z := 2.

Record ICameraServiceListener (G : Type) := ServiceListener {
  onStatusChanged : Z → Z → M G ();
  onTorchStatusChanged : Z → chars → M G ()
}.
Arguments ServiceListener {G}.
Arguments onStatusChanged {G}.
Arguments onTorchStatusChanged {G}.

Section listener.
  Context {G P : Type} `{!Parcel P} `{!ParcelObjects P} `{!ParcelExtras P}.

Definition Bp_onStatusChanged (transact : Z → P → M G ()) (status cameraId : Z) : M G () :=
  transact STATUS_CHANGED (w32 cameraId (w32 status (wtoken LISTENER_DESCRIPTOR new_parcel))).

Definition Bp_onTorchStatusChanged (transact : Z → P → M G ()) (status : Z) (cameraId : chars) : M G () :=
  transact TORCH_STATUS_CHANGED (wstring cameraId (w32 status (wtoken LISTENER_DESCRIPTOR new_parcel))).

Definition listener_dispatch (listener : ICameraServiceListener G) (code : Z) (data reply : P) : option (M G (Z * P)) :=
  if bool_decide (code = STATUS_CHANGED) then
    let '(status, data) := r32 data in
    let '(cameraId, _) := r32 data in
    Some (onStatusChanged listener status cameraId;; mret (NO_ERROR, reply))
  else if bool_decide (code = TORCH_STATUS_CHANGED) then
    let '(status, data) := r32 data in
    let '(cameraId, _) := readString16 data in
    Some (onTorchStatusChanged listener status cameraId;; mret (NO_ERROR, reply))
  else None.

Definition listener_onTransact (listener : ICameraServiceListener G) :
    (Z → P → P → M G (Z * P)) → Z → P → P → M G (Z * P) :=
  serve LISTENER_DESCRIPTOR (listener_dispatch listener).

End listener.

End Listener.

(** *** The system server's end of the service *)

Module ServiceProxy.

Definition SERVER_DESCRIPTOR : chars := to_chars "android.hardware.ICameraServiceProxy".

Definition PING_FOR_USER_UPDATE : Z := 1.
Definition NOTIFY_CAMERA_STATE : Z := 2.

Record ICameraServiceProxy (G : Type) := CameraServiceProxy {
  pingForUserUpdate : M G ();
  notifyCameraState : chars → Z → M G ()
}.
Arguments CameraServiceProxy {G}.
Arguments pingForUserUpdate {G}.
Arguments notifyCameraState {G}.

Section proxy.
  Context {G P : Type} `{!Parcel P} `{!ParcelObjects P} `{!ParcelExtras P}.

Definition Bp_pingForUserUpdate (transact : Z → P → M G ()) : M G () :=
  transact PING_FOR_USER_UPDATE (wtoken SERVER_DESCRIPTOR new_parcel).

Definition Bp_notifyCameraState (transact : Z → P → M G ()) (cameraId : chars) (newCameraState : Z) : M G () :=
  transact NOTIFY_CAMERA_STATE (w32 newCameraState (wstring cameraId (wtoken SERVER_DESCRIPTOR new_parcel))).

Definition server_dispatch (server : ICameraServiceProxy G) (code : Z) (data reply : P) : option (M G (Z * P)) :=
  if bool_decide (code = PING_FOR_USER_UPDATE) then Some (pingForUserUpdate server;; mret (NO_ERROR, reply))
  else if bool_decide (code = NOTIFY_CAMERA_STATE) then
    let '(cameraId, data) := readString16 data in
    let '(newCameraState, _) := r32 data in
    Some (notifyCameraState server cameraId newCameraState;; mret (NO_ERROR, reply))
  else None.

Definition server_onTransact (server : ICameraServiceProxy G) : (Z → P → P → M G (Z * P)) → Z → P → P → M G (Z * P) :=
  serve SERVER_DESCRIPTOR (server_dispatch server).

End proxy.

End ServiceProxy.

(** ** What the service's end finds *)

Section served.
  Context {P : Type} `{ParcelObjectLaws P} {G : Type}.
  Implicit Types p q : P.

Lemma serve_finds interface (dispatch : Z → P → P → option (M G (Z * P))) base code data l :
  builds data (PToken interface :: l) →
  ∃ behind, unread behind = l ∧ ∀ reply f, dispatch code behind reply = Some f →
    serve interface dispatch base code data reply = f.
Proof.
  intros [_ Hu]. unfold serve. pose proof (checkInterface_law interface interface data l Hu) as Hc.
  destruct (checkInterface interface data) as [ok behind]. destruct Hc as [-> Hb]. exists behind.
  split; [done|]. intros reply f ->. by rewrite bool_decide_true.
Qed.

Lemma wtoken_builds i : builds (wtoken (P := P) i new_parcel) [PToken i].
Proof. apply (builds_token i new_parcel []), builds_new. Qed.

End served.

Section strings.
  Context {P : Type} `{ParcelExtraLaws P}.
  Implicit Types q : P.

Lemma string_take s q rest :
  unread q = PString16 s :: rest → ∃ q', readString16 q = (s, q') ∧ unread q' = rest.
Proof. apply take_one, readString16_takes. Qed.

Lemma binder_take b q rest :
  unread q = PBinder b :: rest → ∃ q', readStrongBinder q = (b, q') ∧ unread q' = rest.
Proof. apply take_one, readStrongBinder_law. Qed.

End strings.

(** Reads what comes next in a parcel that is known. *)
Ltac take_next :=
  match goal with
  | Hu : unread ?q = PInt32 _ :: _ |- context [r32 ?q] =>
      let q' := fresh "q" in destruct (r32_take _ _ _ Hu) as (q' & -> & ?); clear Hu
  | Hu : unread ?q = PInt64 _ :: _ |- context [r64_into ?old ?q] =>
      let q' := fresh "q" in destruct (r64_into_take old _ _ _ Hu) as (q' & -> & ?); clear Hu
  | Hu : unread ?q = PString16 _ :: _ |- context [readString16 ?q] =>
      let q' := fresh "q" in destruct (string_take _ _ _ Hu) as (q' & -> & ?); clear Hu
  | Hu : unread ?q = PBinder _ :: _ |- context [readStrongBinder ?q] =>
      let q' := fresh "q" in destruct (binder_take _ _ _ Hu) as (q' & -> & ?); clear Hu
  end.

Lemma builds_eq `{ParcelObjectLaws P} (p : P) l l' : builds p l → l = l' → builds p l'.
Proof. by intros ? <-. Qed.

(** The contents of a parcel that is built item by item. *)
Ltac build_parcel :=
  eapply builds_eq;
  [repeat first
     [apply builds_w32 | apply builds_w64 | apply builds_string | apply builds_binder | apply builds_exception
     | apply wtoken_builds | apply builds_new | eassumption]
  |reflexivity].

(** ** Calls of the service *)

Module ServiceFacts.
Import Service.

Section calls.
  Context {W T : Type} `{MetaPacketsLaws W} {P : Type} `{ParcelExtraLaws P}.
  Context (service : ICameraService (rpc W T)) (base : Z → P → P → M (rpc W T) (Z * P)).

Abbreviation G := (rpc W T).
Abbreviation A := (Service.service_onTransact service base).
Implicit Types (p q : P) (g : G).

Lemma thrown_not q l : unread q = PException :: l → ∃ q', thrown q = (false, q') ∧ unread q' = l.
Proof.
  intros Hq. destruct (take_one _ _ _ _ _ readExceptionCode_law Hq) as (q' & Hr & Hq').
  exists q'. unfold thrown. by rewrite Hr.
Qed.

(** A call whose answer the service writes behind no exception. *)
Lemma asked code (data : P) l (f : P → M G (Z * P)) g :
  builds data (PToken SERVICE_DESCRIPTOR :: l) →
  (∀ behind reply, unread behind = l → service_dispatch service code behind reply = Some (f reply)) →
  ask A code data g =
    (let '(_, reply, g') := f new_parcel g in
     ((let '(failed, reply) := thrown reply in if failed then None else Some reply), g')).
Proof.
  intros Hb Hd. destruct (serve_finds SERVICE_DESCRIPTOR (service_dispatch service) base code data l Hb) as (behind & Hu & Hs).
  unfold ask. rewrite bind_run. unfold Service.service_onTransact. rewrite (Hs new_parcel (f new_parcel)) by by apply Hd.
  destruct (f new_parcel g) as [[r reply] g']. cbn [fst snd]. by destruct (thrown reply) as [[] ?].
Qed.

Lemma asked_status code (data : P) l (f : M G Z) g :
  builds data (PToken SERVICE_DESCRIPTOR :: l) →
  (∀ behind reply, unread behind = l → service_dispatch service code behind reply = Some (reply_status reply f)) →
  Service.status_call A code data g = f g.
Proof.
  intros Hb Hd. unfold Service.status_call. rewrite bind_run, (asked code data l _ g Hb Hd).
  unfold reply_status. rewrite bind_run. destruct (f g) as [ret g']. cbn [fst snd mret M_ret].
  assert (Hr : builds (w32 ret (wno_exception (P := P) new_parcel)) [PException; PInt32 ret]) by build_parcel.
  destruct Hr as [_ Hr]. destruct (thrown_not _ _ Hr) as (q & -> & Hq). by take_next.
Qed.

Lemma service_data_builds : builds (service_data (P := P)) [PToken SERVICE_DESCRIPTOR].
Proof. apply wtoken_builds. Qed.

Lemma getNumberOfCameras_alive type g : Bp_getNumberOfCameras A type g = getNumberOfCameras service type g.
Proof.
  unfold Bp_getNumberOfCameras. rewrite bind_run.
  rewrite (asked _ _ [PInt32 type] (λ reply, reply_status reply (getNumberOfCameras service type))).
  - unfold reply_status. rewrite bind_run. destruct (getNumberOfCameras service type g) as [n g']. cbn [fst snd mret M_ret].
    assert (Hr : builds (w32 n (wno_exception (P := P) new_parcel)) [PException; PInt32 n]) by build_parcel.
    destruct Hr as [_ Hr]. destruct (thrown_not _ _ Hr) as (q & -> & Hq). by take_next.
  - build_parcel.
  - intros behind reply Hu. unfold service_dispatch. cbn. by take_next.
Qed.

Lemma camera_info_alive cameraId info g :
  Bp_getCameraInfo A cameraId info g = getCameraInfo service cameraId (Info 0 0) g.
Proof.
  unfold Bp_getCameraInfo. rewrite bind_run, (asked _ _ [PInt32 cameraId] (on_get_info service cameraId)).
  - unfold on_get_info. rewrite bind_run. destruct (getCameraInfo service cameraId (Info 0 0) g) as [[ret i] g'].
    cbn [fst snd mret M_ret].
    assert (Hr : builds (w32 (orientation i) (w32 (facing i) (w32 1 (w32 ret (wno_exception (P := P) new_parcel)))))
      [PException; PInt32 ret; PInt32 1; PInt32 (facing i); PInt32 (orientation i)]) by build_parcel.
    destruct Hr as [_ Hr]. destruct (thrown_not _ _ Hr) as (q & -> & Hq). do 2 take_next.
    rewrite bool_decide_true by done. do 2 take_next. by destruct i.
  - build_parcel.
  - intros behind reply Hu. unfold service_dispatch. cbn. by take_next.
Qed.

(** What a caller that has [device] gets of an answer with a camera. *)
Definition camera_answer (device : option Z) (f : M G (Z * option Z)) : M G (Z * option Z) :=
  '(status, camera) ← f; mret (status, match camera with Some _ => camera | None => device end).

Lemma connected_alive code (data : P) l f device g :
  builds data (PToken SERVICE_DESCRIPTOR :: l) →
  (∀ behind reply, unread behind = l → service_dispatch service code behind reply = Some (reply_camera reply f)) →
  connected A device code data g = camera_answer device f g.
Proof.
  intros Hb Hd. destruct (serve_finds SERVICE_DESCRIPTOR (service_dispatch service) base code data l Hb) as (behind & Hu & Hs).
  unfold connected, camera_answer. rewrite !bind_run. unfold Service.service_onTransact.
  rewrite (Hs new_parcel (reply_camera new_parcel f)) by by apply Hd.
  unfold reply_camera. rewrite bind_run. destruct (f g) as [[status camera] g']. cbn [fst snd mret M_ret].
  change NO_ERROR with OK. rewrite status_ok. destruct camera as [b|].
  - assert (Hr : builds (wbinder (Some b) (w32 1 (w32 status (wno_exception (P := P) new_parcel))))
      [PException; PInt32 status; PInt32 1; PBinder (Some b)]) by build_parcel.
    destruct Hr as [_ Hr]. destruct (thrown_not _ _ Hr) as (q & -> & Hq). do 2 take_next.
    rewrite bool_decide_true by done. by take_next.
  - assert (Hr : builds (w32 0 (w32 status (wno_exception (P := P) new_parcel)))
      [PException; PInt32 status; PInt32 0]) by build_parcel.
    destruct Hr as [_ Hr]. destruct (thrown_not _ _ Hr) as (q & -> & Hq). do 2 take_next. done.
Qed.

Lemma connect_alive client cameraId name uid device g :
  Bp_connect A client cameraId name uid device g =
    camera_answer device (connect service client cameraId name uid) g ∧
  Bp_connectDevice A client cameraId name uid device g =
    camera_answer device (connectDevice service client cameraId name uid) g.
Proof.
  split; apply (connected_alive _ _ [PBinder client; PInt32 cameraId; PString16 name; PInt32 uid]);
    try build_parcel; intros behind reply Hu; unfold service_dispatch; cbn; unfold on_connect; by repeat take_next.
Qed.

Lemma connectLegacy_alive client cameraId version name uid device g :
  Bp_connectLegacy A client cameraId version name uid device g =
    camera_answer device (connectLegacy service client cameraId version name uid) g.
Proof.
  apply (connected_alive _ _ [PBinder client; PInt32 cameraId; PInt32 version; PString16 name; PInt32 uid]);
    [build_parcel|]. intros behind reply Hu. unfold service_dispatch. cbn. unfold on_connect_legacy. by repeat take_next.
Qed.

Lemma setTorchMode_alive cameraId enabled client g :
  Bp_setTorchMode A cameraId enabled client g = setTorchMode service cameraId enabled client g.
Proof.
  apply (asked_status _ _ [PString16 cameraId; PInt32 (Z.b2z enabled); PBinder client]); [build_parcel|].
  intros behind reply Hu. unfold service_dispatch. cbn. unfold on_torch. repeat take_next. by destruct enabled.
Qed.

Lemma listeners_alive listener g :
  Bp_addListener A listener g = addListener service listener g ∧
  Bp_removeListener A listener g = removeListener service listener g.
Proof.
  split; apply (asked_status _ _ [PBinder listener]); try build_parcel;
    intros behind reply Hu; unfold service_dispatch; cbn; by take_next.
Qed.

Lemma getCameraVendorTagDescriptor_alive setCapacity desc g ret d g' :
  (∀ n, 0 < n → 0 < setCapacity n) →
  getCameraVendorTagDescriptor service g = (ret, d, g') →
  (∀ d', d = Some d' → ∃ tags, portable d' tags) →
  Bp_getCameraVendorTagDescriptor A setCapacity desc g =
    (Done (ret, match d with Some _ => d | None => desc end), g').
Proof.
  intros Hcap Hg Hp. unfold Bp_getCameraVendorTagDescriptor. rewrite bind_run.
  rewrite (asked _ _ [] (on_get_tags service)); [|build_parcel|done].
  unfold on_get_tags. rewrite bind_run, Hg. cbn [fst snd mret M_ret]. destruct d as [d|].
  - destruct (Hp d eq_refl) as (tags & Hd).
    assert (Hr : builds (w32 1 (w32 ret (wno_exception (P := P) new_parcel))) [PException; PInt32 ret; PInt32 1])
      by build_parcel.
    destruct Hr as [Hsp Hr]. destruct (write_portable d tags _ Hd Hsp) as (p' & -> & Hu). cbn [from_option].
    unfold id. rewrite Hr in Hu. cbn [app] in Hu. destruct (thrown_not _ _ Hu) as (q & -> & Hq).
    cbn [fst snd mret M_ret]. do 2 take_next.
    rewrite bool_decide_true by done.
    match goal with H : unread ?x = descriptor_items d |- context [?x] => rename H into Hitems end.
    rewrite <- (app_nil_r (descriptor_items d)) in Hitems.
    destruct (read_portable setCapacity d tags _ _ Hd Hcap Hitems) as (q' & -> & _). done.
  - assert (Hr : builds (w32 0 (w32 ret (wno_exception (P := P) new_parcel))) [PException; PInt32 ret; PInt32 0])
      by build_parcel.
    destruct Hr as [_ Hr]. destruct (thrown_not _ _ Hr) as (q & -> & Hq). cbn [fst snd mret M_ret].
    by do 2 take_next.
Qed.

Lemma getCameraCharacteristics_alive cameraId m g :
  object_answer (getCameraCharacteristics service cameraId) m g (Bp_getCameraCharacteristics A cameraId m g).
Proof using All.
  apply object_answer_sendable. intros Hs.
  destruct (object_reply (P := P) (getCameraCharacteristics service cameraId) m g Hs)
    as (reply & items & g1 & Hf & Hu & Ha).
  unfold Bp_getCameraCharacteristics. rewrite bind_run.
  rewrite (asked _ _ [PInt32 cameraId] (λ reply, reply_object reply (getCameraCharacteristics service cameraId))).
  - rewrite Hf. cbn [fst snd]. destruct (thrown_not _ _ Hu) as (q & -> & Hq). by apply Ha.
  - build_parcel.
  - intros behind reply' Hb. unfold service_dispatch. cbn. by take_next.
Qed.

(** *** Answers that are lost *)

Lemma written_nothing p : ∃ q, r32 (written p) = (0, q) ∧ unread q = [].
Proof. apply r32_nothing, written_law. Qed.

(** The service is asked whether it supports an interface of a camera, and for the
    parameters of a camera, but the proxy looks for the answer in what it has
    sent: every camera supports every interface, and no camera has parameters. *)
Lemma answers_lost g :
  (∀ cameraId apiVersion,
     Bp_supportsCameraApi A cameraId apiVersion g = (OK, (supportsCameraApi service cameraId apiVersion g).2)) ∧
  (∀ cameraId parameters, parameters ≠ None →
     Bp_getLegacyParameters A cameraId parameters g = (OK, Some [], (getLegacyParameters service cameraId g).2)).
Proof.
  split.
  - intros cameraId apiVersion. unfold Bp_supportsCameraApi. rewrite bind_run.
    rewrite (asked _ _ [PInt32 cameraId; PInt32 apiVersion]
      (λ reply, reply_status reply (supportsCameraApi service cameraId apiVersion))).
    + unfold reply_status. rewrite bind_run. destruct (supportsCameraApi service cameraId apiVersion g) as [ret g'].
      cbn [fst snd mret M_ret].
      assert (Hr : builds (w32 ret (wno_exception (P := P) new_parcel)) [PException; PInt32 ret]) by build_parcel.
      destruct Hr as [_ Hr]. destruct (thrown_not _ _ Hr) as (q & -> & Hq). cbn [fst snd mret M_ret].
      by destruct (written_nothing (w32 apiVersion (w32 cameraId (service_data (P := P))))) as (q' & -> & _).
    + build_parcel.
    + intros behind reply Hu. unfold service_dispatch. cbn. by do 2 take_next.
  - intros cameraId [old|] Hp; [|done]. unfold Bp_getLegacyParameters. rewrite bind_run.
    rewrite (asked _ _ [PInt32 cameraId] (on_legacy_parameters service cameraId)).
    + unfold on_legacy_parameters. rewrite bind_run. destruct (getLegacyParameters service cameraId g) as [[ret ps] g'].
      cbn [fst snd mret M_ret].
      assert (Hr : builds (wstring ps (w32 1 (w32 ret (wno_exception (P := P) new_parcel))))
        [PException; PInt32 ret; PInt32 1; PString16 ps]) by build_parcel.
      destruct Hr as [_ Hr]. destruct (thrown_not _ _ Hr) as (q & -> & Hq). cbn [fst snd mret M_ret].
      destruct (written_nothing (w32 cameraId (service_data (P := P)))) as (q' & -> & Hq').
      by destruct (r32_nothing q' Hq') as (q'' & -> & _).
    + build_parcel.
    + intros behind reply Hu. unfold service_dispatch. cbn. by take_next.
Qed.


End calls.

(** *** A dead service *)

Section dead_calls.
  Context {W T : Type} `{MetaPacketsLaws W} {P : Type} `{ParcelExtraLaws P}.
  Implicit Types (q : P) (g : rpc W T).

Abbreviation D := (dead (W := W) (T := T) (P := P)).

Lemma ask_dead code data g : ∃ q, ask D code data g = (Some q, g) ∧ unread q = [].
Proof.
  unfold ask. rewrite bind_run. cbn [dead mret M_ret fst snd]. unfold thrown.
  destruct (nothing_exception (P := P) new_parcel (proj1 new_parcel_law)) as [Hc Hu].
  destruct (Parcels.readExceptionCode new_parcel) as [c q]. cbn in Hc, Hu. subst c. by exists q.
Qed.

(** On a service that has died the calls that connect report it; the others
    report success, no cameras, nothing about a camera and no tags. *)
Lemma dead_service g :
  (∀ client cameraId version name uid device,
     Bp_connect D client cameraId name uid device g = (DEAD_OBJECT, device, g) ∧
     Bp_connectLegacy D client cameraId version name uid device g = (DEAD_OBJECT, device, g) ∧
     Bp_connectDevice D client cameraId name uid device g = (DEAD_OBJECT, device, g)) ∧
  (∀ listener, Bp_addListener D listener g = (OK, g) ∧ Bp_removeListener D listener g = (OK, g)) ∧
  (∀ cameraId enabled client, Bp_setTorchMode D cameraId enabled client g = (OK, g)) ∧
  (∀ cameraId version, Bp_supportsCameraApi D cameraId version g = (OK, g)) ∧
  (∀ type, Bp_getNumberOfCameras D type g = (0, g)) ∧
  (∀ cameraId info, Bp_getCameraInfo D cameraId info g = (OK, info, g)) ∧
  (∀ setCapacity desc, Bp_getCameraVendorTagDescriptor D setCapacity desc g = (Done (OK, desc), g)).
Proof.
  assert (Hstatus : ∀ code data, Service.status_call D code data g = (OK, g)).
  { intros code data. unfold Service.status_call. rewrite bind_run. destruct (ask_dead code data g) as (q & -> & Hq).
    cbn [fst snd]. by destruct (r32_nothing q Hq) as (q' & -> & _). }
  split_and!.
  - intros client cameraId version name uid device. by split_and!.
  - intros listener. split; apply Hstatus.
  - intros cameraId enabled client. apply Hstatus.
  - intros cameraId version. unfold Bp_supportsCameraApi. rewrite bind_run.
    destruct (ask_dead SUPPORTS_CAMERA_API (w32 version (w32 cameraId service_data)) g) as (q & -> & _).
    cbn [fst snd]. by destruct (written_nothing (w32 version (w32 cameraId (service_data (P := P))))) as (q' & -> & _).
  - intros type. unfold Bp_getNumberOfCameras. rewrite bind_run.
    destruct (ask_dead GET_NUMBER_OF_CAMERAS (w32 type service_data) g) as (q & -> & Hq). cbn [fst snd].
    by destruct (r32_nothing q Hq) as (q' & -> & _).
  - intros cameraId info. unfold Bp_getCameraInfo. rewrite bind_run.
    destruct (ask_dead GET_CAMERA_INFO (w32 cameraId service_data) g) as (q & -> & Hq). cbn [fst snd].
    destruct (r32_nothing q Hq) as (q1 & -> & Hq1). by destruct (r32_nothing q1 Hq1) as (q2 & -> & _).
  - intros setCapacity desc. unfold Bp_getCameraVendorTagDescriptor. rewrite bind_run.
    destruct (ask_dead GET_CAMERA_VENDOR_TAG_DESCRIPTOR service_data g) as (q & -> & Hq). cbn [fst snd].
    destruct (r32_nothing q Hq) as (q1 & -> & Hq1). by destruct (r32_nothing q1 Hq1) as (q2 & -> & _).
Qed.

End dead_calls.

End ServiceFacts.

(** ** Calls without reply arrive in their order *)

(** An interface of such calls: the proxy's call, the other end, the method
    itself, and which calls are the same for a receiver, as its objects are
    copies. *)
Record oneway (W P Q T E : Type) := OneWay {
  ow_call : E → M (rpc W (line Q T)) ();
  ow_receive : Z → P → P → M (rpc W T) (Z * P);
  ow_perform : E → M (rpc W T) ();
  ow_same : E → E → Prop;
  ow_ok : E → Prop
}.
Arguments OneWay {W P Q T E}.
Arguments ow_call {W P Q T E}.
Arguments ow_receive {W P Q T E}.
Arguments ow_perform {W P Q T E}.
Arguments ow_same {W P Q T E}.
Arguments ow_ok {W P Q T E}.

Section oneway.
  Context {W P Q T E : Type} `{ChannelLaws P Q} (i : oneway W P Q T E).

(** Receiving this data is performing the method, on the same arguments and in
    the same state of the receiver. *)
Definition conveys (code : Z) (data : P) (e : E) : Prop :=
  ∀ reply g, ∃ e' h, ow_same i e e' ∧
    rpc_service (ow_receive i code data reply g).2 = rpc_service (ow_perform i e' (Rpc h (rpc_service g))).2.

(** A call sends one message, which conveys it. *)
Class OneWayLaws : Prop := ow_law e g :
  ow_ok i e → ∃ code data h,
    (ow_call i e g).2 = Rpc h ((transact_oneway code data (rpc_service g).1).2, (rpc_service g).2) ∧
    conveys code data e.

(** Calls and deliveries in any order. *)
Inductive mail_step := Call (e : E) | Deliver (reply : P).

(** With each step the call that the channel has taken. *)
Definition mail_one (s : mail_step) : M (rpc W (line Q T)) (list E) :=
  match s with
  | Call e => λ g,
      let g' := (ow_call i e g).2 in
      (if bool_decide (length (queued (rpc_service g').1) = S (length (queued (rpc_service g).1)))
       then [e] else [], g')
  | Deliver reply => deliver (ow_receive i) reply;; mret []
  end.

Fixpoint mail_run (steps : list mail_step) : M (rpc W (line Q T)) (list E) :=
  match steps with
  | [] => mret []
  | s :: steps => l ← mail_one s; l' ← mail_run steps; mret (l ++ l')
  end.

Definition calls (steps : list mail_step) : list E := omap (λ s, match s with Call e => Some e | Deliver _ => None end) steps.

(** The receiver's state after these calls, one after the other. *)
Inductive performs : list E → T → T → Prop :=
  | performs_none t : performs [] t t
  | performs_one l t t' e e' h :
      performs l t t' → ow_same i e e' → performs (l ++ [e]) t (rpc_service (ow_perform i e' (Rpc h t')).2).

(** What is done and what is still to be delivered are the calls taken. *)
Definition mail_inv (t0 : T) (taken : list E) (g : rpc W (line Q T)) : Prop :=
  ∃ done pending, taken = done ++ pending ∧ performs done t0 (rpc_service g).2 ∧
    Forall2 (λ m e, conveys m.1 m.2 e) (queued (rpc_service g).1) pending.

(** The channel takes every call. *)
Definition takes_all : Prop := ∀ code data (q : Q), (transact_oneway code data q).1 = OK.

Lemma mail_step_inv `{!OneWayLaws} s t0 taken g :
  (∀ e, s = Call e → ow_ok i e) → mail_inv t0 taken g →
  let '(l, g') := mail_one s g in
  mail_inv t0 (taken ++ l) g' ∧ l `sublist_of` calls [s] ∧ (takes_all → l = calls [s]).
Proof.
  intros Hok (don & pending & -> & Hp & Hm). destruct s as [e|reply]; cbn [mail_one].
  - destruct (ow_law e g (Hok e eq_refl)) as (code & data & h & -> & Hc). cbn [rpc_service fst].
    pose proof (transact_oneway_law code data (rpc_service g).1) as Hq.
    assert (Hall : takes_all → (transact_oneway code data (rpc_service g).1).1 = OK) by auto.
    destruct (transact_oneway code data (rpc_service g).1) as [r q']. cbn [fst snd] in Hall |- *.
    rewrite Hq, length_app. case_bool_decide as Hr; cbn [length].
    + rewrite bool_decide_true by lia. split_and!; [|done|done].
      exists don, (pending ++ [e]). split_and!; [by rewrite (assoc_L (++))|done|]. cbn. rewrite Hq.
      apply Forall2_app; [done|by repeat constructor].
    + rewrite bool_decide_false by lia. split_and!; [|apply sublist_nil_l|by intros ?%Hall].
      exists don, pending. split_and!; [by rewrite app_nil_r|done|]. cbn. by rewrite Hq, app_nil_r.
  - rewrite bind_run. unfold deliver. destruct (rpc_service g) as [q t] eqn:Hg.
    pose proof (next_call_law q) as Hn. destruct (next_call q) as [call q']. destruct Hn as [-> Hq'].
    cbn [fst] in Hp, Hm. destruct (queued q) as [|[code data] mail] eqn:Hqu; cbn [head] in *.
    + cbn. inversion Hm; subst. split_and!; [|done|done]. exists don, [].
      rewrite !app_nil_r. split_and!; [done|done|]. cbn. rewrite Hq'. constructor.
    + inversion Hm as [|? e ? pending' Hc Hm']; subst. cbn in Hc.
      destruct (Hc reply (Rpc (rpc_heap g) t)) as (e' & h & Hs & He).
      destruct (ow_receive i code data reply (Rpc (rpc_heap g) t)) as [r g']. cbn in He |- *.
      split_and!; [|done|done]. rewrite app_nil_r.
      exists (don ++ [e]), pending'. split_and!; [by rewrite <- (assoc_L (++))| |].
      * cbn. rewrite He. by apply performs_one.
      * cbn. by rewrite Hq'.
Qed.

Lemma mail_run_inv `{!OneWayLaws} steps t0 taken g :
  Forall (ow_ok i) (calls steps) → mail_inv t0 taken g →
  let '(l, g') := mail_run steps g in
  mail_inv t0 (taken ++ l) g' ∧ l `sublist_of` calls steps ∧ (takes_all → l = calls steps).
Proof.
  revert taken g. induction steps as [|s steps IH]; intros taken g Hok Hi; cbn [mail_run].
  - cbn. rewrite app_nil_r. by split_and!.
  - rewrite bind_run. assert (Hs : calls (s :: steps) = calls [s] ++ calls steps) by (by destruct s).
    rewrite Hs in Hok |- *. apply Forall_app in Hok as [Ho1 Ho2].
    assert (He : ∀ e, s = Call e → ow_ok i e) by (intros e ->; by inversion Ho1).
    pose proof (mail_step_inv s t0 taken g He Hi) as Hi'.
    destruct (mail_one s g) as [l g1]. destruct Hi' as (Hi' & Hl & Ha). cbn [fst snd].
    rewrite bind_run. specialize (IH (taken ++ l) g1 Ho2 Hi'). destruct (mail_run steps g1) as [l' g2].
    destruct IH as (Hi2 & Hl2 & Ha2). cbn. split_and!.
    + by rewrite (assoc_L (++)).
    + by apply sublist_app.
    + intros Hall. by rewrite Ha, Ha2.
Qed.

(** What the channel has taken of the calls has been performed, in its order, or
    is on its way. *)
Definition arrives (steps : list mail_step) (t : T) (run : list E * rpc W (line Q T)) : Prop :=
  let '(taken, g) := run in
  taken `sublist_of` calls steps ∧ (takes_all → taken = calls steps) ∧
  ∃ given pending, taken = given ++ pending ∧ performs given t (rpc_service g).2 ∧
    length (queued (rpc_service g).1) = length pending.

(** In any order of calls and deliveries the receiver has performed the first of
    the calls taken, in their order, and the others are on their way; it has
    performed all when none is on its way. *)
Lemma mail_in_order `{!OneWayLaws} steps h q t :
  queued q = [] → Forall (ow_ok i) (calls steps) → arrives steps t (mail_run steps (Rpc h (q, t))).
Proof.
  intros Hq Hok. pose proof (mail_run_inv steps t [] (Rpc h (q, t)) Hok) as Hi. unfold arrives.
  destruct (mail_run steps (Rpc h (q, t))) as [taken g].
  destruct Hi as ((don & pending & Hc & Hp & Hm) & Hl & Ha).
  { exists [], []. cbn. rewrite Hq. split_and!; [done|constructor|constructor]. }
  split_and!; [done|done|]. exists don, pending. split_and!; [done|done|by apply Forall2_length in Hm].
Qed.

End oneway.
Arguments Call {P E}.
Arguments Deliver {P E}.
Arguments calls {P E}.

(** Where the message carries nothing but values. *)
Section values.
  Context {W P Q T E : Type} `{ParcelObjectLaws P} `{!Channel P Q}.

Lemma post_run code (data : P) (g : rpc W (line Q T)) :
  post code data g = ((), Rpc (rpc_heap g) ((transact_oneway code data (rpc_service g).1).2, (rpc_service g).2)).
Proof. unfold post. destruct (rpc_service g) as [q t]. cbn. by destruct (transact_oneway code data q). Qed.

(** A message that the other end of an interface understands. *)
Lemma served_conveys interface dispatch base call perform same ok code (data : P) l e :
  builds data (PToken interface :: l) → same e e →
  (∀ behind reply, unread behind = l →
     dispatch code behind reply = Some (perform e;; mret (NO_ERROR, reply))) →
  conveys (OneWay (E := E) (W := W) (Q := Q) (T := T) call (serve interface dispatch base) perform same ok) code data e.
Proof.
  intros Hb Hs Hd reply g. exists e, (rpc_heap g). split; [done|]. cbn.
  destruct (serve_finds interface dispatch base code data l Hb) as (behind & Hu & Hf).
  rewrite (Hf reply _ (Hd behind reply Hu)), bind_run. destruct g as [h t]. cbn. by destruct (perform e (Rpc h t)) as [[] ?].
Qed.

End values.

(** *** Callbacks of a device *)

Module CallbacksFacts.
Import Callbacks.

Inductive callback :=
  | DeviceError (errorCode : Z) (resultExtras : CaptureResultExtras)
  | DeviceIdle
  | CaptureStarted (result : CaptureResultExtras) (timestamp : Z)
  | ResultReceived (m : metadata) (resultExtras : CaptureResultExtras)
  | Prepared (streamId : Z).

Section callbacks.
  Context {W Q T : Type} `{MetaPacketsLaws W} {P : Type} `{ParcelObjectLaws P} `{ChannelLaws P Q}.
  Context (client : ICameraDeviceCallbacks (rpc W T)) (base : Z → P → P → M (rpc W T) (Z * P)).
  Implicit Types (p q : P).

Definition call_proxy (transact : Z → P → M (rpc W (line Q T)) ()) (c : callback) : M (rpc W (line Q T)) () :=
  match c with
  | DeviceError errorCode e => Bp_onDeviceError transact errorCode e
  | DeviceIdle => Bp_onDeviceIdle transact
  | CaptureStarted result timestamp => Bp_onCaptureStarted transact result timestamp
  | ResultReceived m e => Bp_onResultReceived transact m e
  | Prepared streamId => Bp_onPrepared transact streamId
  end.

Definition perform (c : callback) : M (rpc W T) () :=
  match c with
  | DeviceError errorCode e => onDeviceError client errorCode e
  | DeviceIdle => onDeviceIdle client
  | CaptureStarted result timestamp => onCaptureStarted client result timestamp
  | ResultReceived m e => onResultReceived client m e;; on_heap (destroy m)
  | Prepared streamId => onPrepared client streamId
  end.

(** The same but for the packet, which has the same entries, or which is not
    there as there was no memory for it. *)
Definition same_callback (c c' : callback) : Prop :=
  match c, c' with
  | ResultReceived m e, ResultReceived m' e' => e' = e ∧
      (same_metadata m m' ∨ m' = CameraMetadata ∧ no_room_for_copy (W := W) (mBuffer m))
  | _, _ => c = c'
  end.

Definition callback_ok (c : callback) : Prop :=
  match c with ResultReceived m _ => sendable m | _ => True end.

Definition callback_line : oneway W P Q T callback :=
  OneWay (call_proxy post) (Callbacks.callbacks_onTransact client base) perform same_callback callback_ok.

Lemma add_extras_builds e p l : builds p l → builds (add_extras e p) (l ++ PInt32 1 :: extras_items e).
Proof.
  intros Hp. unfold add_extras. apply (builds_w32 1) in Hp.
  destruct (builds_extras e _ _ Hp) as (p' & -> & Hp'). cbn. by rewrite <- (assoc_L (++)) in Hp'.
Qed.

Lemma take_extras_items e q rest :
  unread q = PInt32 1 :: extras_items e ++ rest → ∃ q', take_extras q = (e, q') ∧ unread q' = rest.
Proof.
  intros Hq. unfold take_extras. take_next. rewrite bool_decide_true by done.
  match goal with Hu : unread ?q0 = extras_items e ++ rest |- context [?q0] =>
    destruct (read_extras_items e new_extras q0 rest Hu) as (q' & -> & Hq') end.
  by exists q'.
Qed.

Lemma result_conveyed m e (g : rpc W (line Q T)) :
  sendable m → ∃ code data h,
    (Bp_onResultReceived post m e g).2 =
      Rpc h ((transact_oneway code data (rpc_service g).1).2, (rpc_service g).2) ∧
    conveys callback_line code data (ResultReceived m e).
Proof using All.
  intros Hm. unfold Bp_onResultReceived. rewrite bind_run, on_heap_run.
  assert (Hb : builds (w32 1 (callbacks_data (P := P))) [PToken CALLBACKS_DESCRIPTOR; PInt32 1]) by build_parcel.
  unfold write_object. rewrite bind_run.
  destruct (send_packet_any m _ _ (rpc_heap g) Hm Hb) as (p & h & items & -> & Hp & Hi).
  cbn [fst snd mret M_ret from_option]. unfold id. rewrite post_run.
  exists RESULT_RECEIVED, (add_extras e p), h. split; [done|]. apply (add_extras_builds e) in Hp.
  rewrite <- !(assoc_L (++)) in Hp. cbn [app] in Hp.
  intros reply [h0 t]. cbn [ow_receive callback_line]. unfold Callbacks.callbacks_onTransact.
  destruct (serve_finds CALLBACKS_DESCRIPTOR (Callbacks.callbacks_dispatch client) base RESULT_RECEIVED _ _ Hp) as (behind & Hu & Hf).
  rewrite (Hf reply (on_result client behind reply)) by done. unfold on_result. take_next.
  rewrite bool_decide_true, bind_run by done. rewrite bind_run, on_heap_run. cbn [rpc_heap].
  match goal with Hq : unread ?q0 = items ++ _ |- _ =>
    destruct (Hi q0 _ h0 CameraMetadata Hq eq_refl) as (r & m' & q1 & h1 & Hr & Hq1 & Hs) end.
  rewrite Hr. cbn [fst snd mret M_ret from_option rpc_service]. unfold id.
  rewrite <- (app_nil_r (extras_items e)) in Hq1. destruct (take_extras_items e q1 [] Hq1) as (q2 & -> & _).
  exists (ResultReceived m' e), h1. split; [split; [done|]; naive_solver|]. cbn [ow_perform callback_line perform].
  rewrite !bind_run. destruct (onResultReceived client m' e (Rpc h1 t)) as [[] g2]. cbn [fst snd].
  done.
Qed.

#[export] Instance callback_laws : OneWayLaws callback_line.
Proof using All.
  intros c g Hok. destruct c as [errorCode e| |result timestamp|m e|streamId]; cbn [ow_call callback_line call_proxy];
    [| | |by apply result_conveyed|]; do 3 eexists; (split; [unfold Bp_onDeviceError, Bp_onDeviceIdle, Bp_onCaptureStarted,
      Bp_onPrepared; rewrite post_run; reflexivity|]).
  - eapply (served_conveys _ _ _ _ _ _ _ _ _ (PInt32 errorCode :: PInt32 1 :: extras_items e)); [|done|].
    + eapply builds_eq; [apply add_extras_builds, builds_w32, wtoken_builds|done].
    + intros behind reply Hu. unfold Callbacks.callbacks_dispatch. cbn. take_next.
      match goal with Hq : unread ?q0 = PInt32 1 :: extras_items e |- _ =>
        rewrite <- (app_nil_r (extras_items e)) in Hq; by destruct (take_extras_items e q0 [] Hq) as (q2 & -> & _) end.
  - eapply (served_conveys _ _ _ _ _ _ _ _ _ []); [apply wtoken_builds|done|done].
  - eapply (served_conveys _ _ _ _ _ _ _ _ _ (PInt32 1 :: extras_items result ++ [PInt64 timestamp])); [|done|].
    + eapply builds_eq; [apply builds_w64, add_extras_builds, wtoken_builds|]. by rewrite <- (assoc_L (++)).
    + intros behind reply Hu. unfold Callbacks.callbacks_dispatch. rewrite !bool_decide_false, bool_decide_true by done.
      destruct (take_extras_items result behind _ Hu) as (q2 & -> & Hq2). by take_next.
  - eapply (served_conveys _ _ _ _ _ _ _ _ _ [PInt32 streamId]); [build_parcel|done|].
    intros behind reply Hu. unfold Callbacks.callbacks_dispatch. cbn. by take_next.
Qed.

(** C18: In any order of a device's callbacks and of their deliveries, over a
    binder that keeps the calls it takes in their order and may refuse any of
    them (which the proxy does not look at), the client has been given the first
    of the callbacks taken, in the order in which the device made them, each
    once, with the same values, and results with the same entries, or with none
    where its process has no memory for them; the other callbacks taken are on
    their way, and when binder refuses none all of them are taken. *)
Theorem callbacks_in_order steps h (q : Q) t :
  queued q = [] → Forall callback_ok (calls steps) →
  let '(taken, g) := mail_run callback_line steps (Rpc h (q, t)) in
  taken `sublist_of` calls steps ∧
  ((∀ code data (q : Q), (transact_oneway code data q).1 = OK) → taken = calls steps) ∧
  ∃ given pending, taken = given ++ pending ∧ performs callback_line given t (rpc_service g).2 ∧
    length (queued (rpc_service g).1) = length pending.
Proof using All. apply (mail_in_order callback_line). Qed.

End callbacks.

End CallbacksFacts.

(** *** Status changes, camera states and events of the system *)

Section others.
  Context {W Q T : Type} `{MetaPacketsLaws W} {P : Type} `{ParcelExtraLaws P} `{ChannelLaws P Q}
    (base : Z → P → P → M (rpc W T) (Z * P)).

Inductive change := StatusChanged (status cameraId : Z) | TorchStatusChanged (status : Z) (cameraId : chars).

Definition listener_line (listener : Listener.ICameraServiceListener (rpc W T)) : oneway W P Q T change :=
  OneWay (λ c, match c with
               | StatusChanged status cameraId => Listener.Bp_onStatusChanged post status cameraId
               | TorchStatusChanged status cameraId => Listener.Bp_onTorchStatusChanged post status cameraId
               end)
    (Listener.listener_onTransact listener base)
    (λ c, match c with
          | StatusChanged status cameraId => Listener.onStatusChanged listener status cameraId
          | TorchStatusChanged status cameraId => Listener.onTorchStatusChanged listener status cameraId
          end) eq (λ _, True).

#[export] Instance listener_laws listener : OneWayLaws (listener_line listener).
Proof.
  intros [status cameraId|status cameraId] g _; cbn [ow_call listener_line];
    do 3 eexists; (split; [unfold Listener.Bp_onStatusChanged, Listener.Bp_onTorchStatusChanged; rewrite post_run; reflexivity|]).
  - eapply (served_conveys _ _ _ _ _ _ _ _ _ [PInt32 status; PInt32 cameraId]); [build_parcel|done|].
    intros behind reply Hu. unfold Listener.listener_dispatch. cbn. by do 2 take_next.
  - eapply (served_conveys _ _ _ _ _ _ _ _ _ [PInt32 status; PString16 cameraId]); [build_parcel|done|].
    intros behind reply Hu. unfold Listener.listener_dispatch. cbn. by do 2 take_next.
Qed.

Inductive notice := PingForUserUpdate | NotifyCameraState (cameraId : chars) (newCameraState : Z).

Definition server_line (server : ServiceProxy.ICameraServiceProxy (rpc W T)) : oneway W P Q T notice :=
  OneWay (λ n, match n with
               | PingForUserUpdate => ServiceProxy.Bp_pingForUserUpdate post
               | NotifyCameraState cameraId state => ServiceProxy.Bp_notifyCameraState post cameraId state
               end)
    (ServiceProxy.server_onTransact server base)
    (λ n, match n with
          | PingForUserUpdate => ServiceProxy.pingForUserUpdate server
          | NotifyCameraState cameraId state => ServiceProxy.notifyCameraState server cameraId state
          end) eq (λ _, True).

#[export] Instance server_laws server : OneWayLaws (server_line server).
Proof.
  intros [|cameraId state] g _; cbn [ow_call server_line];
    do 3 eexists; (split; [unfold ServiceProxy.Bp_pingForUserUpdate, ServiceProxy.Bp_notifyCameraState; rewrite post_run; reflexivity|]).
  - eapply (served_conveys _ _ _ _ _ _ _ _ _ []); [apply wtoken_builds|done|done].
  - eapply (served_conveys _ _ _ _ _ _ _ _ _ [PString16 cameraId; PInt32 state]); [build_parcel|done|].
    intros behind reply Hu. unfold ServiceProxy.server_dispatch. cbn. by do 2 take_next.
Qed.

(** Events of the system have at most 512 arguments. *)
Definition event_line (service : Service.ICameraService (rpc W T)) : oneway W P Q T (Z * list Z) :=
  OneWay (λ e, Service.Bp_notifySystemEvent post e.1 e.2) (Service.service_onTransact service base)
    (λ e, Service.notifySystemEvent service e.1 e.2) eq (λ e, Z.of_nat (length e.2) <= 512).

Lemma event_data_builds eventId args :
  Z.of_nat (length args) < 2 ^ 31 →
  builds (writeInt32Array args (w32 eventId (Service.service_data (P := P)))).2
    [PToken Service.SERVICE_DESCRIPTOR; PInt32 eventId; PInt32 (Z.of_nat (length args)); PInts args].
Proof.
  intros Hl. assert (Hb : builds (w32 eventId (Service.service_data (P := P))) [PToken Service.SERVICE_DESCRIPTOR; PInt32 eventId])
    by build_parcel.
  destruct Hb as [Hs Hu]. destruct (put_ints args _ Hs) as (p' & -> & Hs' & Hu'). split; [done|]. cbn [snd].
  rewrite Hu', Hu. rewrite s32_small by (unfold is_s32; lia). done.
Qed.

#[export] Instance event_laws service : OneWayLaws (event_line service).
Proof.
  intros [eventId args] g Hok. cbn in Hok. cbn [ow_call event_line fst snd]. unfold Service.Bp_notifySystemEvent.
  do 3 eexists. split; [rewrite post_run; reflexivity|].
  eapply (served_conveys _ _ _ _ _ _ _ _ _ [PInt32 eventId; PInt32 (Z.of_nat (length args)); PInts args]).
  - apply event_data_builds. lia.
  - done.
  - intros behind reply Hu. unfold Service.service_dispatch. cbn. f_equal. unfold Service.on_system_event. do 2 take_next.
    rewrite !bool_decide_false by lia.
    match goal with Hq : unread ?q0 = [PInts args] |- _ =>
      destruct (take_one _ _ _ _ _ (read_ints_takes args) Hq) as (q2 & -> & _) end.
    change NO_ERROR with OK. by rewrite status_ok.
Qed.

(** An event with more arguments is refused, which nobody sees: the call has no
    reply. *)
Lemma long_event_dropped service eventId args reply (g : rpc W (line Q T)) :
  512 < Z.of_nat (length args) < 2 ^ 31 →
  queued (rpc_service g).1 = [] →
  let g' := (Service.Bp_notifySystemEvent post eventId args g).2 in
  rpc_service (deliver (Service.service_onTransact service base) reply g').2 =
    ((next_call (rpc_service g').1).2, (rpc_service g).2).
Proof.
  intros [Hlong Hl] Hq g'. unfold g', Service.Bp_notifySystemEvent. rewrite post_run. cbn [snd].
  set (data := (writeInt32Array args (w32 eventId Service.service_data)).2).
  pose proof (transact_oneway_law Service.NOTIFY_SYSTEM_EVENT data (rpc_service g).1) as Ht.
  rewrite Hq in Ht. unfold deliver. cbn [rpc_service fst snd].
  destruct (transact_oneway _ data _) as [r q1]. cbn [fst snd].
  pose proof (next_call_law q1) as Hn. destruct (next_call q1) as [call q2]. destruct Hn as [-> _].
  rewrite Ht. case_bool_decide; [|done]. cbn [head app]. subst data.
  destruct (serve_finds Service.SERVICE_DESCRIPTOR (Service.service_dispatch service) base Service.NOTIFY_SYSTEM_EVENT _ _
    (event_data_builds eventId args Hl)) as (behind & Hu & Hf).
  unfold Service.service_onTransact. rewrite (Hf reply (Service.on_system_event service behind reply)) by done.
  unfold Service.on_system_event. do 2 take_next. rewrite bool_decide_false, bool_decide_true by lia. done.
Qed.

(** Each of these lines keeps its order. *)
Lemma changes_in_order listener steps h (q : Q) t :
  queued q = [] → arrives (listener_line listener) steps t (mail_run (listener_line listener) steps (Rpc h (q, t))).
Proof. intros Hq. apply mail_in_order; [apply _|done|]. apply Forall_true. by intros ?. Qed.

Lemma notices_in_order server steps h (q : Q) t :
  queued q = [] → arrives (server_line server) steps t (mail_run (server_line server) steps (Rpc h (q, t))).
Proof. intros Hq. apply mail_in_order; [apply _|done|]. apply Forall_true. by intros ?. Qed.

Lemma events_in_order service steps h (q : Q) t :
  queued q = [] → Forall (λ e : Z * list Z, Z.of_nat (length e.2) <= 512) (calls steps) →
  arrives (event_line service) steps t (mail_run (event_line service) steps (Rpc h (q, t))).
Proof. apply (mail_in_order (event_line service)). Qed.

End others.

(** ** A service and a client in software *)

(** A service with two cameras that counts the clients; the second camera is
    taken, and neither supports the second interface. *)
Definition two_cameras : Service.ICameraService (rpc unit Z) :=
  let add : M (rpc unit Z) () := λ g, ((), Rpc (rpc_heap g) (rpc_service g + 1)) in
  let use (cameraId : Z) : M (rpc unit Z) (Z * option Z) :=
    if bool_decide (cameraId = 0) then add;; mret (OK, Some 40) else mret (- EBUSY, None) in
  Service.CameraService (λ _, mret 2) (λ cameraId _, mret (OK, Info cameraId 90)) (λ _ m, mret (OK, m))
    (mret (OK, None)) (λ _, mret OK) (λ _, mret (- EINVAL)) (λ _ cameraId _ _, use cameraId)
    (λ _ cameraId _ _, use cameraId) (λ _, mret (OK, to_chars "zoom=1"))
    (λ _ version, mret (if bool_decide (version = 2) then - ENOTSUP else OK)) (λ _ cameraId _ _ _, use cameraId)
    (λ _ enabled _, mret (if enabled then - EBUSY else OK)) (λ _ _, mret ()).

Definition soft_rpc : rpc unit Z := Rpc (Heap {[8192]} false tt) 0.


Lemma answers_lost_witness :
  let A := Service.service_onTransact two_cameras no_base in
  (Service.supportsCameraApi two_cameras 0 2 soft_rpc).1 = - ENOTSUP ∧
  (Service.Bp_supportsCameraApi A 0 2 soft_rpc).1 = OK ∧
  (Service.getLegacyParameters two_cameras 0 soft_rpc).1 = (OK, to_chars "zoom=1") ∧
  (Service.Bp_getLegacyParameters A 0 (Some (to_chars "old")) soft_rpc).1 = (OK, Some []).
Proof.
  intros A. destruct (ServiceFacts.answers_lost (P := soft_parcel) two_cameras no_base soft_rpc) as [Hs Hp].
  split_and!; [done| |done|].
  - unfold A. by rewrite Hs.
  - unfold A. by rewrite Hp.
Defined.

(** A client that notes the kind of each callback and a number of it. *)
Definition noting : Callbacks.ICameraDeviceCallbacks (rpc unit (list (Z * Z))) :=
  let note kind n : M (rpc unit (list (Z * Z))) () := λ g, ((), Rpc (rpc_heap g) (rpc_service g ++ [(kind, n)])) in
  Callbacks.DeviceCallbacks (λ errorCode e, note 1 (frameNumber e)) (note 2 0) (λ _ timestamp, note 3 timestamp)
    (λ m e, note 4 (entryCount m)) (λ streamId, note 5 streamId).

(** A channel with room for two calls. *)
Definition soft_channel_size : nat := 2.

#[export] Instance soft_channel {P} : Channel P (list (Z * P)) := {|
  transact_oneway code data q :=
    if decide (length q < soft_channel_size)%nat then (OK, q ++ [(code, data)]) else (FAILED_TRANSACTION, q);
  next_call q := (head q, tail q)
|}.

#[export] Instance soft_channel_laws {P} : ChannelLaws P (list (Z * P)).
Proof.
  refine {| queued := id |}; [|done].
  intros code data q. cbn. case_decide; cbn; [done|]. by rewrite app_nil_r.
Defined.

(** The third callback finds the channel full. *)
Definition two_frames : list (mail_step (P := soft_parcel) (E := CallbacksFacts.callback)) :=
  [Call (CallbacksFacts.CaptureStarted new_extras 700); Call (CallbacksFacts.ResultReceived (Md (Some shown) false) new_extras);
   Call (CallbacksFacts.Prepared 3); Deliver new_parcel; Call CallbacksFacts.DeviceIdle; Deliver new_parcel].

Definition two_frames_line : oneway unit soft_parcel (list (Z * soft_parcel)) (list (Z * Z)) CallbacksFacts.callback :=
  CallbacksFacts.callback_line noting (λ _ _ reply, mret (- ENOSYS, reply)).

Definition two_frames_run : list CallbacksFacts.callback * rpc unit (line (list (Z * soft_parcel)) (list (Z * Z))) :=
  mail_run two_frames_line two_frames (Rpc (Heap {[8192]} false tt) ([], [])).

Lemma callbacks_in_order_witness :
  (rpc_service two_frames_run.2).2 = [(3, 700); (4, entryCount (Md (Some shown) false))] ∧
  length two_frames_run.1 = 3%nat ∧
  ∃ given pending, two_frames_run.1 = given ++ pending ∧
    performs two_frames_line given [] (rpc_service two_frames_run.2).2 ∧ length pending = 1%nat.
Proof.
  split; [by vm_compute|]. split; [by vm_compute|].
  assert (Hok : Forall CallbacksFacts.callback_ok (calls two_frames)).
  { repeat constructor. intros c [= <-]. unfold compact_ok. by_decide. }
  pose proof (CallbacksFacts.callbacks_in_order noting (λ _ _ reply, mret (- ENOSYS, reply)) two_frames
    (Heap {[8192]} false tt) ([] : list (Z * soft_parcel)) [] eq_refl Hok) as Hc.
  fold two_frames_line two_frames_run in Hc.
  assert (Hl : length (queued (rpc_service two_frames_run.2).1) = 1%nat) by (by vm_compute).
  destruct two_frames_run as [taken g]. destruct Hc as (_ & _ & given & pending & H1 & H2 & H3).
  exists given, pending. split_and!; [exact H1|exact H2|]. rewrite <- H3. exact Hl.
Defined.
