(* ===== verification/CameraClient.v ===== *)
(** * The client of a camera (src/libmocha/camera)

    Both ends of the interfaces between a camera of the service and its client,
    ICamera.cpp, ICameraClient.cpp, ICameraRecordingProxy.cpp and
    ICameraRecordingProxyListener.cpp; the client's classes over them,
    CameraBase.cpp and Camera.cpp; and CameraUtils.cpp.  Cameras, clients,
    listeners, surfaces and buffers are the numbers of their binders, or null. *)

From Stdlib Require Import Ascii String.
From stdpp Require Import gmap.
From S2P Require Import Prelude CStrings CameraH Parcels.
From S2P Require Import CameraMeta CameraMetaFacts SoftMeta CameraRpc CameraRpcFacts CameraService.

#[global] Open Scope Z_scope.

(** ** A camera of the service *)

Module Remote.

Definition CAMERA_DESCRIPTOR : chars := to_chars "android.hardware.ICamera".

Definition DISCONNECT : Z := 1.
Definition SET_PREVIEW_TARGET : Z := 2.
Definition SET_PREVIEW_CALLBACK_FLAG : Z := 3.
Definition SET_PREVIEW_CALLBACK_TARGET : Z := 4.
Definition START_PREVIEW : Z := 5.
Definition STOP_PREVIEW : Z := 6.
Definition AUTO_FOCUS : Z := 7.
Definition CANCEL_AUTO_FOCUS : Z := 8.
Definition TAKE_PICTURE : Z := 9.
Definition SET_PARAMETERS : Z := 10.
Definition GET_PARAMETERS : Z := 11.
Definition SEND_COMMAND : Z := 12.
Definition CONNECT : Z := 13.
Definition LOCK : Z := 14.
Definition UNLOCK : Z := 15.
Definition PREVIEW_ENABLED : Z := 16.
Definition START_RECORDING : Z := 17.
Definition STOP_RECORDING : Z := 18.
Definition RECORDING_ENABLED : Z := 19.
Definition RELEASE_RECORDING_FRAME : Z := 20.
Definition STORE_META_DATA_IN_BUFFERS : Z := 21.

Record ICamera (G : Type) := RemoteCamera {
  disconnect : M G ();
  connect : option Z → M G Z;
  lock : M G Z;
  unlock : M G Z;
  setPreviewTarget : option Z → M G Z;
  setPreviewCallbackFlag : Z → M G ();
  setPreviewCallbackTarget : option Z → M G Z;
  startPreview : M G Z;
  stopPreview : M G ();
  previewEnabled : M G bool;
  startRecording : M G Z;
  stopRecording : M G ();
  recordingEnabled : M G bool;
  releaseRecordingFrame : option Z → M G ();
  autoFocus : M G Z;
  cancelAutoFocus : M G Z;
  takePicture : Z → M G Z;
  setParameters : chars → M G Z;
  getParameters : M G chars;
  sendCommand : Z → Z → Z → M G Z;
  storeMetaDataInBuffers : bool → M G Z
}.
Arguments RemoteCamera {G}.
Arguments disconnect {G}.
Arguments connect {G}.
Arguments lock {G}.
Arguments unlock {G}.
Arguments setPreviewTarget {G}.
Arguments setPreviewCallbackFlag {G}.
Arguments setPreviewCallbackTarget {G}.
Arguments startPreview {G}.
Arguments stopPreview {G}.
Arguments previewEnabled {G}.
Arguments startRecording {G}.
Arguments stopRecording {G}.
Arguments recordingEnabled {G}.
Arguments releaseRecordingFrame {G}.
Arguments autoFocus {G}.
Arguments cancelAutoFocus {G}.
Arguments takePicture {G}.
Arguments setParameters {G}.
Arguments getParameters {G}.
Arguments sendCommand {G}.
Arguments storeMetaDataInBuffers {G}.

Section camera.
  Context {G P : Type} `{!Parcel P} `{!ParcelObjects P}.

(** The proxy of a camera whose end of binder is [transact]; the statuses of
    binder are not looked at. *)
Section proxy.
  Context (transact : Z → P → P → M G (Z * P)).

Definition camera_data : P := wtoken CAMERA_DESCRIPTOR new_parcel.

(** A call, its reply, and the integer in it. *)
Definition send (code : Z) (data : P) : M G P := '(_, reply) ← transact code data new_parcel; mret reply.
Definition ask_int (code : Z) (data : P) : M G Z := reply ← send code data; mret (r32 reply).1.
Definition tell (code : Z) (data : P) : M G () := send code data;; mret ().
Definition ask_bool (code : Z) (data : P) : M G bool := z ← ask_int code data; mret (bool_decide (z ≠ 0)).

Definition Bp_disconnect : M G () := tell DISCONNECT camera_data.
Definition Bp_setPreviewTarget (bufferProducer : option Z) : M G Z :=
  ask_int SET_PREVIEW_TARGET (wbinder bufferProducer camera_data).
Definition Bp_setPreviewCallbackFlag (flag : Z) : M G () :=
  tell SET_PREVIEW_CALLBACK_FLAG (w32 flag camera_data).
Definition Bp_setPreviewCallbackTarget (callbackProducer : option Z) : M G Z :=
  ask_int SET_PREVIEW_CALLBACK_TARGET (wbinder callbackProducer camera_data).
Definition Bp_startPreview : M G Z := ask_int START_PREVIEW camera_data.
Definition Bp_startRecording : M G Z := ask_int START_RECORDING camera_data.
Definition Bp_stopPreview : M G () := tell STOP_PREVIEW camera_data.
Definition Bp_stopRecording : M G () := tell STOP_RECORDING camera_data.
Definition Bp_releaseRecordingFrame (mem : option Z) : M G () :=
  tell RELEASE_RECORDING_FRAME (wbinder mem camera_data).
Definition Bp_storeMetaDataInBuffers (enabled : bool) : M G Z :=
  ask_int STORE_META_DATA_IN_BUFFERS (w32 (Z.b2z enabled) camera_data).
Definition Bp_previewEnabled : M G bool := ask_bool PREVIEW_ENABLED camera_data.
Definition Bp_recordingEnabled : M G bool := ask_bool RECORDING_ENABLED camera_data.
Definition Bp_autoFocus : M G Z := ask_int AUTO_FOCUS camera_data.
Definition Bp_cancelAutoFocus : M G Z := ask_int CANCEL_AUTO_FOCUS camera_data.
Definition Bp_takePicture (msgType : Z) : M G Z := ask_int TAKE_PICTURE (w32 msgType camera_data).
Definition Bp_setParameters (params : chars) : M G Z :=
  ask_int SET_PARAMETERS (writeString8 params camera_data).2.
Definition Bp_getParameters : M G chars := reply ← send GET_PARAMETERS camera_data; mret (readString8 reply).1.
Definition Bp_sendCommand (cmd arg1 arg2 : Z) : M G Z :=
  ask_int SEND_COMMAND (w32 arg2 (w32 arg1 (w32 cmd camera_data))).
Definition Bp_connect (cameraClient : option Z) : M G Z := ask_int CONNECT (wbinder cameraClient camera_data).
Definition Bp_lock : M G Z := ask_int LOCK camera_data.
Definition Bp_unlock : M G Z := ask_int UNLOCK camera_data.

(** The proxy as a camera. *)
Definition BpCamera : ICamera G := RemoteCamera Bp_disconnect Bp_connect Bp_lock Bp_unlock Bp_setPreviewTarget
  Bp_setPreviewCallbackFlag Bp_setPreviewCallbackTarget Bp_startPreview Bp_stopPreview Bp_previewEnabled
  Bp_startRecording Bp_stopRecording Bp_recordingEnabled Bp_releaseRecordingFrame Bp_autoFocus Bp_cancelAutoFocus
  Bp_takePicture Bp_setParameters Bp_getParameters Bp_sendCommand Bp_storeMetaDataInBuffers.

End proxy.

(** The service's end. *)
Section stub.
  Context (camera : ICamera G).

Definition reply_int (reply : P) (f : M G Z) : M G (Z * P) := z ← f; mret (NO_ERROR, w32 z reply).
Definition reply_none (reply : P) (f : M G ()) : M G (Z * P) := f;; mret (NO_ERROR, reply).
Definition reply_bool (reply : P) (f : M G bool) : M G (Z * P) := b ← f; mret (NO_ERROR, w32 (Z.b2z b) reply).

Definition camera_dispatch (code : Z) (data reply : P) : option (M G (Z * P)) :=
  if bool_decide (code = DISCONNECT) then
    Some (disconnect camera;; mret (NO_ERROR, wno_exception reply))
  else if bool_decide (code = SET_PREVIEW_TARGET) then
    let '(st, _) := readStrongBinder data in Some (reply_int reply (setPreviewTarget camera st))
  else if bool_decide (code = SET_PREVIEW_CALLBACK_FLAG) then
    let '(flag, _) := r32 data in Some (reply_none reply (setPreviewCallbackFlag camera flag))
  else if bool_decide (code = SET_PREVIEW_CALLBACK_TARGET) then
    let '(cp, _) := readStrongBinder data in Some (reply_int reply (setPreviewCallbackTarget camera cp))
  else if bool_decide (code = START_PREVIEW) then Some (reply_int reply (startPreview camera))
  else if bool_decide (code = START_RECORDING) then Some (reply_int reply (startRecording camera))
  else if bool_decide (code = STOP_PREVIEW) then Some (reply_none reply (stopPreview camera))
  else if bool_decide (code = STOP_RECORDING) then Some (reply_none reply (stopRecording camera))
  else if bool_decide (code = RELEASE_RECORDING_FRAME) then
    let '(mem, _) := readStrongBinder data in Some (reply_none reply (releaseRecordingFrame camera mem))
  else if bool_decide (code = STORE_META_DATA_IN_BUFFERS) then
    let '(enabled, _) := r32 data in
    Some (reply_int reply (storeMetaDataInBuffers camera (bool_decide (enabled ≠ 0))))
  else if bool_decide (code = PREVIEW_ENABLED) then Some (reply_bool reply (previewEnabled camera))
  else if bool_decide (code = RECORDING_ENABLED) then Some (reply_bool reply (recordingEnabled camera))
  else if bool_decide (code = AUTO_FOCUS) then Some (reply_int reply (autoFocus camera))
  else if bool_decide (code = CANCEL_AUTO_FOCUS) then Some (reply_int reply (cancelAutoFocus camera))
  else if bool_decide (code = TAKE_PICTURE) then
    let '(msgType, _) := r32 data in Some (reply_int reply (takePicture camera msgType))
  else if bool_decide (code = SET_PARAMETERS) then
    let '(params, _) := readString8 data in Some (reply_int reply (setParameters camera params))
  else if bool_decide (code = GET_PARAMETERS) then
    Some (params ← getParameters camera; mret (NO_ERROR, (writeString8 params reply).2))
  else if bool_decide (code = SEND_COMMAND) then
    let '(command, data) := r32 data in
    let '(arg1, data) := r32 data in
    let '(arg2, _) := r32 data in Some (reply_int reply (sendCommand camera command arg1 arg2))
  else if bool_decide (code = CONNECT) then
    let '(cameraClient, _) := readStrongBinder data in Some (reply_int reply (connect camera cameraClient))
  else if bool_decide (code = LOCK) then Some (reply_int reply (lock camera))
  else if bool_decide (code = UNLOCK) then Some (reply_int reply (unlock camera))
  else None.

Definition camera_onTransact : (Z → P → P → M G (Z * P)) → Z → P → P → M G (Z * P) := serve CAMERA_DESCRIPTOR camera_dispatch.

End stub.

End camera.

End Remote.

(** ** The client of a camera, and those who record *)

(** system/camera.h *)
Class CameraMessages := {
  CAMERA_MSG_ERROR : Z;
  CAMERA_MSG_PREVIEW_FRAME : Z;
  CAMERA_FRAME_DATA_FD : Z;
  CAMERA_ERROR_SERVER_DIED : Z;
  camera_face_size : Z
}.

(** [camera_frame_metadata_t]: the bytes of the faces, or a null pointer. *)
Record camera_frame_metadata := FrameMetadata { number_of_faces : Z; faces : option (list Z) }.

Module Client.

Definition CLIENT_DESCRIPTOR : chars := to_chars "android.hardware.ICameraClient".

Definition NOTIFY_CALLBACK : Z := 1.
Definition DATA_CALLBACK : Z := 2.
Definition DATA_CALLBACK_TIMESTAMP : Z := 3.

Record ICameraClient (G : Type) := CameraClient {
  notifyCallback : Z → Z → Z → M G ();
  dataCallback : Z → option Z → option camera_frame_metadata → M G ();
  dataCallbackTimestamp : Z → Z → option Z → M G ()
}.
Arguments CameraClient {G}.
Arguments notifyCallback {G}.
Arguments dataCallback {G}.
Arguments dataCallbackTimestamp {G}.

Section client.
  Context `{!CameraMessages} {G P : Type} `{!Parcel P} `{!ParcelObjects P} `{!ParcelExtras P}.

Definition client_data : P := wtoken CLIENT_DESCRIPTOR new_parcel.

(** A message whose last number is a file descriptor. *)
Definition has_file (msgType ext1 : Z) : bool :=
  bool_decide (msgType = CAMERA_MSG_PREVIEW_FRAME) && bool_decide (ext1 = CAMERA_FRAME_DATA_FD).

Definition Bp_notifyCallback (transact : Z → P → M G ()) (msgType ext1 ext2 : Z) : M G () :=
  let data := w32 ext1 (w32 msgType client_data) in
  transact NOTIFY_CALLBACK
    (if has_file msgType ext1 then (writeFileDescriptor ext2 data).2 else w32 ext2 data).

Definition Bp_dataCallback (transact : Z → P → M G ()) (msgType : Z) (imageData : option Z)
    (metadata : option camera_frame_metadata) : M G () :=
  let data := wbinder imageData (w32 msgType client_data) in
  transact DATA_CALLBACK
    (match metadata with
     | Some m => (write_raw (default [] (faces m)) (w32 (number_of_faces m) data)).2
     | None => data
     end).

Definition Bp_dataCallbackTimestamp (transact : Z → P → M G ()) (timestamp msgType : Z) (imageData : option Z) : M G () :=
  transact DATA_CALLBACK_TIMESTAMP (wbinder imageData (w32 msgType (w64 timestamp client_data))).

(** The metadata, when there is anything behind the image. *)
Definition read_frame_metadata (data : P) : option camera_frame_metadata :=
  if bool_decide (0 < dataAvail data) then
    let '(number, data) := r32 data in
    Some (FrameMetadata number (readInplace (u32 (camera_face_size * number)) data).1)
  else None.

Definition client_dispatch (client : ICameraClient G) (code : Z) (data reply : P) : option (M G (Z * P)) :=
  if bool_decide (code = NOTIFY_CALLBACK) then
    let '(msgType, data) := r32 data in
    let '(ext1, data) := r32 data in
    let ext2 := if has_file msgType ext1 then (readFileDescriptor data).1 else (r32 data).1 in
    Some (notifyCallback client msgType ext1 ext2;; mret (NO_ERROR, reply))
  else if bool_decide (code = DATA_CALLBACK) then
    let '(msgType, data) := r32 data in
    let '(imageData, data) := readStrongBinder data in
    Some (dataCallback client msgType imageData (read_frame_metadata data);; mret (NO_ERROR, reply))
  else if bool_decide (code = DATA_CALLBACK_TIMESTAMP) then
    let '(timestamp, data) := r64_into 0 data in
    let '(msgType, data) := r32 data in
    let '(imageData, _) := readStrongBinder data in
    Some (dataCallbackTimestamp client timestamp msgType imageData;; mret (NO_ERROR, reply))
  else None.

Definition client_onTransact (client : ICameraClient G) : (Z → P → P → M G (Z * P)) → Z → P → P → M G (Z * P) :=
  serve CLIENT_DESCRIPTOR (client_dispatch client).

End client.

End Client.

Module Recorder.

Definition RECORDER_DESCRIPTOR : chars := to_chars "android.hardware.ICameraRecordingProxyListener".

Definition RECORDER_DATA_CALLBACK_TIMESTAMP : Z := 1.

Section recorder.
  Context {G P : Type} `{!Parcel P} `{!ParcelObjects P}.

(** The interface has one method. *)
Definition Bp_recorder_dataCallbackTimestamp (transact : Z → P → M G ()) (timestamp msgType : Z) (imageData : option Z) : M G () :=
  transact RECORDER_DATA_CALLBACK_TIMESTAMP (wbinder imageData (w32 msgType (w64 timestamp (wtoken RECORDER_DESCRIPTOR new_parcel)))).

Definition recorder_dispatch (dataCallbackTimestamp : Z → Z → option Z → M G ()) (code : Z) (data reply : P)
    : option (M G (Z * P)) :=
  if bool_decide (code = RECORDER_DATA_CALLBACK_TIMESTAMP) then
    let '(timestamp, data) := r64_into 0 data in
    let '(msgType, data) := r32 data in
    let '(imageData, _) := readStrongBinder data in
    Some (dataCallbackTimestamp timestamp msgType imageData;; mret (NO_ERROR, reply))
  else None.

Definition recorder_onTransact (dataCallbackTimestamp : Z → Z → option Z → M G ()) :
    (Z → P → P → M G (Z * P)) → Z → P → P → M G (Z * P) :=
  serve RECORDER_DESCRIPTOR (recorder_dispatch dataCallbackTimestamp).

End recorder.

End Recorder.

Module RecordingProxy.

Definition PROXY_DESCRIPTOR : chars := to_chars "android.hardware.ICameraRecordingProxy".

Definition PROXY_START_RECORDING : Z := 1.
Definition PROXY_STOP_RECORDING : Z := 2.
Definition PROXY_RELEASE_RECORDING_FRAME : Z := 3.

Record ICameraRecordingProxy (G : Type) := CameraRecordingProxy {
  startRecording : option Z → M G Z;
  stopRecording : M G ();
  releaseRecordingFrame : option Z → M G ()
}.
Arguments CameraRecordingProxy {G}.
Arguments startRecording {G}.
Arguments stopRecording {G}.
Arguments releaseRecordingFrame {G}.

Section proxy.
  Context {G P : Type} `{!Parcel P} `{!ParcelObjects P}.

Definition proxy_data : P := wtoken PROXY_DESCRIPTOR new_parcel.

Definition Bp_proxy_startRecording (transact : Z → P → P → M G (Z * P)) (listener : option Z) : M G Z :=
  Remote.ask_int transact PROXY_START_RECORDING (wbinder listener proxy_data).
Definition Bp_proxy_stopRecording (transact : Z → P → P → M G (Z * P)) : M G () :=
  Remote.tell transact PROXY_STOP_RECORDING proxy_data.
Definition Bp_proxy_releaseRecordingFrame (transact : Z → P → P → M G (Z * P)) (mem : option Z) : M G () :=
  Remote.tell transact PROXY_RELEASE_RECORDING_FRAME (wbinder mem proxy_data).

Definition proxy_dispatch (camera : ICameraRecordingProxy G) (code : Z) (data reply : P) : option (M G (Z * P)) :=
  if bool_decide (code = PROXY_START_RECORDING) then
    let '(listener, _) := readStrongBinder data in
    Some (Remote.reply_int reply (startRecording camera listener))
  else if bool_decide (code = PROXY_STOP_RECORDING) then Some (Remote.reply_none reply (stopRecording camera))
  else if bool_decide (code = PROXY_RELEASE_RECORDING_FRAME) then
    let '(mem, _) := readStrongBinder data in
    Some (Remote.reply_none reply (releaseRecordingFrame camera mem))
  else None.

Definition proxy_onTransact (camera : ICameraRecordingProxy G) :
    (Z → P → P → M G (Z * P)) → Z → P → P → M G (Z * P) :=
  serve PROXY_DESCRIPTOR (proxy_dispatch camera).

End proxy.

End RecordingProxy.

(** ** The classes CameraBase and Camera

    A client program's cameras, and what it knows of the service.  Processes may
    die at any time: between the methods, and inside them where it matters,
    which is while the reference that [getCameraService] gives to a variable is
    used, as the death of the service clears the variable, and before
    [linkToDeath], which then fails.  ([gLock] is held from the answer of the
    service manager to the assignment, and the [DeathNotifier] waits for it.) *)

Definition NO_INIT : Z := - ENODEV.
Definition UNKNOWN_ERROR : Z := - 2 ^ 31.

Record Camera := CameraObject {
  mCameraId : Z;
  mStatus : Z;
  mCamera : option Z;
  mListener : option Z;
  mRecordingProxyListener : option Z
}.

Definition new_Camera (cameraId : Z) : Camera := CameraObject cameraId UNKNOWN_ERROR None None None.

Definition put_status (s : Z) (c : Camera) : Camera :=
  CameraObject (mCameraId c) s (mCamera c) (mListener c) (mRecordingProxyListener c).
Definition put_camera (b : option Z) (c : Camera) : Camera :=
  CameraObject (mCameraId c) (mStatus c) b (mListener c) (mRecordingProxyListener c).
Definition put_listener (l : option Z) (c : Camera) : Camera :=
  CameraObject (mCameraId c) (mStatus c) (mCamera c) l (mRecordingProxyListener c).
Definition put_recorder (l : option Z) (c : Camera) : Camera :=
  CameraObject (mCameraId c) (mStatus c) (mCamera c) (mListener c) l.

(** What a program tells a listener, or who records. *)
Inductive output :=
  | Notified (listener msgType ext1 ext2 : Z)
  | PostedData (listener msgType : Z) (dataPtr : option Z) (metadata : option camera_frame_metadata)
  | PostedTimestamp (listener timestamp msgType : Z) (dataPtr : option Z)
  | Recorded (recorder timestamp msgType : Z) (dataPtr : option Z).

(** A program: the service it knows; its objects; who is told of the death of
    which binder ([None] is the [DeathNotifier]); the binders whose process has
    ended; what it has told its listeners; and the world outside. *)
Record process (W : Type) := Process {
  gCameraService : option Z;
  gDeathNotifier : bool;
  objects : gmap Z Camera;
  links : list (Z * option Z);
  died : gset Z;
  p_out : list output;
  p_world : W
}.
Arguments Process {W}.
Arguments gCameraService {W}.
Arguments gDeathNotifier {W}.
Arguments objects {W}.
Arguments links {W}.
Arguments died {W}.
Arguments p_out {W}.
Arguments p_world {W}.

(** The calls of the service that the classes use, with what is in the caller's
    variable before. *)
Record service_api (W : Type) := ServiceApi {
  api_connect : option Z → Z → chars → Z → option Z → M W (Z * option Z);
  api_connectLegacy : option Z → Z → Z → chars → Z → option Z → M W (Z * option Z);
  api_getNumberOfCameras : M W Z;
  api_getCameraInfo : Z → CameraInfo → M W (Z * CameraInfo);
  api_addListener : option Z → M W Z;
  api_removeListener : option Z → M W Z
}.
Arguments ServiceApi {W}.
Arguments api_connect {W}.
Arguments api_connectLegacy {W}.
Arguments api_getNumberOfCameras {W}.
Arguments api_getCameraInfo {W}.
Arguments api_addListener {W}.
Arguments api_removeListener {W}.

(** What there is outside: the service manager, time, and the ends of binder. *)
Record platform (W : Type) := Platform {
  getService : M W (option Z);
  usleep : Z → M W ();
  service_at : Z → service_api W;
  camera_at : Z → Remote.ICamera W
}.
Arguments Platform {W}.
Arguments getService {W}.
Arguments usleep {W}.
Arguments service_at {W}.
Arguments camera_at {W}.

(** How a call ends: with a result, still waiting for the service after the polls
    that were looked at, or with a null pointer followed. *)
Inductive outcome (A : Type) := Done (a : A) | Waiting | Crashed.
Arguments Done {A}.
Arguments Waiting {A}.
Arguments Crashed {A}.

Definition kCameraServicePollDelay : Z := 500000.

Section camera_base.
  Context `{!CameraMessages} {W : Type} (outside : platform W).

Abbreviation G := (process W).
Implicit Types g : G.

Definition on_world {A} (f : M W A) : M G A :=
  λ g, let '(a, w) := f (p_world g) in
       (a, Process (gCameraService g) (gDeathNotifier g) (objects g) (links g) (died g) (p_out g) w).

Definition set_service (s : option Z) : M G () :=
  λ g, ((), Process s (gDeathNotifier g) (objects g) (links g) (died g) (p_out g) (p_world g)).
Definition set_notifier : M G () :=
  λ g, ((), Process (gCameraService g) true (objects g) (links g) (died g) (p_out g) (p_world g)).
Definition set_objects (f : gmap Z Camera → gmap Z Camera) : M G () :=
  λ g, ((), Process (gCameraService g) (gDeathNotifier g) (f (objects g)) (links g) (died g) (p_out g) (p_world g)).
Definition set_links (f : list (Z * option Z) → list (Z * option Z)) : M G () :=
  λ g, ((), Process (gCameraService g) (gDeathNotifier g) (objects g) (f (links g)) (died g) (p_out g) (p_world g)).
Definition set_died (b : Z) : M G () :=
  λ g, ((), Process (gCameraService g) (gDeathNotifier g) (objects g) (links g) ({[b]} ∪ died g) (p_out g) (p_world g)).
Definition put_out (o : output) : M G () :=
  λ g, ((), Process (gCameraService g) (gDeathNotifier g) (objects g) (links g) (died g) (p_out g ++ [o]) (p_world g)).

(** A member of an object. *)
Definition member {A} (o : Z) (f : Camera → option A) : M G (option A) := λ g, (objects g !! o ≫= f, g).
Definition set_member (o : Z) (f : Camera → Camera) : M G () := set_objects (alter f o).

(** [linkToDeath] of a recipient, which fails where the process has ended, and
    [unlinkToDeath]. *)
Definition linkToDeath (b : Z) (r : option Z) : M G () :=
  λ g, if decide (b ∈ died g) then ((), g) else set_links (λ l, l ++ [(b, r)]) g.
Definition unlinkToDeath (b : Z) (r : option Z) : M G () := set_links (filter (λ x, x ≠ (b, r))).

(** The loop of [getCameraService], [n] times; [None] is still waiting. *)
Fixpoint poll (n : nat) : M G (option Z) :=
  match n with
  | O => mret None
  | S n =>
      binder ← on_world (getService outside);
      match binder with
      | Some b => mret (Some b)
      | None => on_world (usleep outside kCameraServicePollDelay);; poll n
      end
  end.

(** [DeathNotifier::binderDied] *)
Definition service_died : M G () := set_service None.

(** What happens in the other threads between the answer of the service manager
    and [linkToDeath], while the reference is used, and between the answer with a
    camera and its [linkToDeath]. *)
Section references.
  Context (published meanwhile answered : M G ()).

(** [getCameraService]: whether it returns; what it refers to is
    [gCameraService]. *)
Definition getCameraService (n : nat) : M G bool :=
  s ← (λ g, (gCameraService g, g));
  match s with
  | Some _ => mret true
  | None =>
      binder ← poll n;
      match binder with
      | None => mret false
      | Some b => published;; set_notifier;; linkToDeath b None;; set_service (Some b);; mret true
      end
  end.

(** A use of the service through the reference: it is tested and then
    followed. *)
Definition with_service {A} (n : nat) (none : A) (f : Z → M G A) : M G (outcome A) :=
  returns ← getCameraService n;
  if negb returns then mret Waiting
  else
    cs ← (λ g, (gCameraService g, g));
    match cs with
    | None => mret (Done none)
    | Some _ =>
        meanwhile;;
        cs ← (λ g, (gCameraService g, g));
        match cs with
        | None => mret Crashed
        | Some b => a ← f b; mret (Done a)
        end
    end.

(** Goes on with a result. *)
Definition and_then {A B} (r : outcome A) (f : A → M G B) : M G (outcome B) :=
  match r with
  | Done a => b ← f a; mret (Done b)
  | Waiting => mret Waiting
  | Crashed => mret Crashed
  end.

(** The end of the calls that connect; [c] is the new object's number. *)
Definition keep_or_clear (c status : Z) : M G bool :=
  b ← member c mCamera;
  match b with
  | Some b =>
      if bool_decide (status = OK) then
        answered;; linkToDeath b (Some c);; set_member c (put_status NO_ERROR);; mret true
      else set_objects (delete c);; mret false
  | None => set_objects (delete c);; mret false
  end.

(** The call of the service, whose camera goes into the object. *)
Definition connect_service (c : Z) (f : option Z → M W (Z * option Z)) : M G Z :=
  old ← member c mCamera;
  '(status, device) ← on_world (f old);
  set_member c (put_camera device);;
  mret status.

(** [CameraBase::connect], which is [Camera::connect] and uses
    [ICameraService::connect]. *)
Definition connect (n : nat) (c cameraId : Z) (clientPackageName : chars) (clientUid : Z)
    : M G (outcome (option Z)) :=
  set_objects (<[c := new_Camera cameraId]>);;
  status ← with_service n NO_ERROR (λ cs,
    connect_service c (api_connect (service_at outside cs) (Some c) cameraId clientPackageName clientUid));
  and_then status (λ status, kept ← keep_or_clear c status; mret (if kept : bool then Some c else None)).

(** The status, and the object if it is set. *)
Definition connectLegacy (n : nat) (c cameraId halVersion : Z) (clientPackageName : chars) (clientUid : Z)
    : M G (outcome (Z * option Z)) :=
  set_objects (<[c := new_Camera cameraId]>);;
  status ← with_service n NO_ERROR (λ cs,
    connect_service c
      (api_connectLegacy (service_at outside cs) (Some c) cameraId halVersion clientPackageName clientUid));
  and_then status (λ status, kept ← keep_or_clear c status; mret (status, if kept : bool then Some c else None)).

(** The reference is copied here, and the copy is tested. *)
Definition getNumberOfCameras (n : nat) : M G (outcome Z) :=
  returns ← getCameraService n;
  if negb returns then mret Waiting
  else
    meanwhile;;
    cs ← (λ g, (gCameraService g, g));
    match cs with
    | None => mret (Done 0)
    | Some b => z ← on_world (api_getNumberOfCameras (service_at outside b)); mret (Done z)
    end.

Definition getCameraInfo (n : nat) (cameraId : Z) (info : CameraInfo) : M G (outcome (Z * CameraInfo)) :=
  with_service n (UNKNOWN_ERROR, info) (λ cs, on_world (api_getCameraInfo (service_at outside cs) cameraId info)).

Definition addServiceListener (n : nat) (listener : option Z) : M G (outcome Z) :=
  with_service n UNKNOWN_ERROR (λ cs, on_world (api_addListener (service_at outside cs) listener)).

Definition removeServiceListener (n : nat) (listener : option Z) : M G (outcome Z) :=
  with_service n UNKNOWN_ERROR (λ cs, on_world (api_removeListener (service_at outside cs) listener)).

(** [Camera::create] from the binder of a camera, which may be null. *)
Definition create (c : Z) (camera : option Z) : M G (option Z) :=
  match camera with
  | None => mret None
  | Some b =>
      set_objects (<[c := new_Camera (-1)]>);;
      status ← on_world (Remote.connect (camera_at outside b) (Some c));
      if bool_decide (status = NO_ERROR) then
        set_member c (put_status NO_ERROR);; set_member c (put_camera (Some b));; answered;; linkToDeath b (Some c);; mret (Some c)
      else set_objects (delete c);; mret None
  end.

End references.

(** A method of an object that is the one of its camera, if it has one. *)
Definition forward {A} (o : Z) (none : A) (f : Remote.ICamera W → M W A) : M G A :=
  b ← member o mCamera;
  match b with None => mret none | Some b => on_world (f (camera_at outside b)) end.

Definition disconnect (o : Z) : M G () :=
  b ← member o mCamera;
  match b with
  | None => mret ()
  | Some b =>
      on_world (Remote.disconnect (camera_at outside b));;
      unlinkToDeath b (Some o);; set_member o (put_camera None)
  end.

Definition getStatus (o : Z) : M G (option Z) := member o (Some ∘ mStatus).

Definition reconnect (o : Z) : M G Z := forward o NO_INIT (λ c, Remote.connect c (Some o)).
Definition lock (o : Z) : M G Z := forward o NO_INIT Remote.lock.
Definition unlock (o : Z) : M G Z := forward o NO_INIT Remote.unlock.
Definition setPreviewTarget (o : Z) (bufferProducer : option Z) : M G Z :=
  forward o NO_INIT (λ c, Remote.setPreviewTarget c bufferProducer).
Definition startPreview (o : Z) : M G Z := forward o NO_INIT Remote.startPreview.
Definition storeMetaDataInBuffers (o : Z) (enabled : bool) : M G Z :=
  forward o NO_INIT (λ c, Remote.storeMetaDataInBuffers c enabled).
Definition startRecording (o : Z) : M G Z := forward o NO_INIT Remote.startRecording.
Definition stopPreview (o : Z) : M G () := forward o () Remote.stopPreview.
Definition stopRecording (o : Z) : M G () :=
  set_member o (put_recorder None);; forward o () Remote.stopRecording.
Definition releaseRecordingFrame (o : Z) (mem : option Z) : M G () :=
  forward o () (λ c, Remote.releaseRecordingFrame c mem).
Definition previewEnabled (o : Z) : M G bool := forward o false Remote.previewEnabled.
Definition recordingEnabled (o : Z) : M G bool := forward o false Remote.recordingEnabled.
Definition autoFocus (o : Z) : M G Z := forward o NO_INIT Remote.autoFocus.
Definition cancelAutoFocus (o : Z) : M G Z := forward o NO_INIT Remote.cancelAutoFocus.
Definition takePicture (o msgType : Z) : M G Z := forward o NO_INIT (λ c, Remote.takePicture c msgType).
Definition setParameters (o : Z) (params : chars) : M G Z :=
  forward o NO_INIT (λ c, Remote.setParameters c params).
Definition getParameters (o : Z) : M G chars := forward o [] Remote.getParameters.
Definition sendCommand (o cmd arg1 arg2 : Z) : M G Z :=
  forward o NO_INIT (λ c, Remote.sendCommand c cmd arg1 arg2).
Definition setPreviewCallbackFlags (o flag : Z) : M G () :=
  forward o () (λ c, Remote.setPreviewCallbackFlag c flag).
Definition setPreviewCallbackTarget (o : Z) (callbackProducer : option Z) : M G Z :=
  forward o NO_INIT (λ c, Remote.setPreviewCallbackTarget c callbackProducer).

Definition setListener (o : Z) (listener : option Z) : M G () := set_member o (put_listener listener).
Definition setRecordingProxyListener (o : Z) (listener : option Z) : M G () :=
  set_member o (put_recorder listener).

(** The messages of the camera. *)
Definition notifyCallback (o msgType ext1 ext2 : Z) : M G () :=
  listener ← member o mListener;
  match listener with Some l => put_out (Notified l msgType ext1 ext2) | None => mret () end.

Definition dataCallback (o msgType : Z) (dataPtr : option Z) (metadata : option camera_frame_metadata) : M G () :=
  listener ← member o mListener;
  match listener with Some l => put_out (PostedData l msgType dataPtr metadata) | None => mret () end.

Definition dataCallbackTimestamp (o timestamp msgType : Z) (dataPtr : option Z) : M G () :=
  proxylistener ← member o mRecordingProxyListener;
  match proxylistener with
  | Some r => put_out (Recorded r timestamp msgType dataPtr)
  | None =>
      listener ← member o mListener;
      match listener with
      | Some l => put_out (PostedTimestamp l timestamp msgType dataPtr)
      | None => releaseRecordingFrame o dataPtr
      end
  end.

(** [CameraBase::binderDied] *)
Definition binderDied (o : Z) : M G () := notifyCallback o CAMERA_MSG_ERROR CAMERA_ERROR_SERVER_DIED 0.

(** The class RecordingProxy of an object. *)
Definition RecordingProxy_startRecording (o : Z) (listener : option Z) : M G Z :=
  setRecordingProxyListener o listener;; reconnect o;; startRecording o.
Definition RecordingProxy_stopRecording (o : Z) : M G () := stopRecording o.
Definition RecordingProxy_releaseRecordingFrame (o : Z) (mem : option Z) : M G () := releaseRecordingFrame o mem.

(** Binder tells those who are linked that a process has ended, once. *)
Fixpoint tell_death (rs : list (option Z)) : M G () :=
  match rs with
  | [] => mret ()
  | None :: rs => service_died;; tell_death rs
  | Some o :: rs => binderDied o;; tell_death rs
  end.

Definition binder_dies (b : Z) : M G () :=
  l ← (λ g, (links g, g));
  set_died b;;
  set_links (filter (λ x, x.1 ≠ b));;
  tell_death (filter (λ x, x.1 = b) l).*2.

End camera_base.

(** A camera's object as the one its messages are for, and a recording proxy as
    the one that recorders call. *)
Definition camera_client `{!CameraMessages} {W U} (outside : platform W) (o : Z)
    : Client.ICameraClient (rpc U (process W)) :=
  let here (f : M (process W) ()) : M (rpc U (process W)) () :=
    λ g, let '(a, p) := f (rpc_service g) in (a, Rpc (rpc_heap g) p) in
  Client.CameraClient (λ msgType ext1 ext2, here (notifyCallback o msgType ext1 ext2))
    (λ msgType dataPtr metadata, here (dataCallback o msgType dataPtr metadata))
    (λ timestamp msgType dataPtr, here (dataCallbackTimestamp outside o timestamp msgType dataPtr)).

Definition recording_proxy {W} (outside : platform W) (o : Z) : RecordingProxy.ICameraRecordingProxy (process W) :=
  RecordingProxy.CameraRecordingProxy (RecordingProxy_startRecording outside o) (RecordingProxy_stopRecording outside o)
    (RecordingProxy_releaseRecordingFrame outside o).

(** ** Calls of a camera *)

Section camera_calls.
  Context {G P : Type} `{ParcelExtraLaws P}.
  Context (camera : Remote.ICamera G) (base : Z → P → P → M G (Z * P)).
  Implicit Types (p q : P) (g : G).
  Import Remote.

Abbreviation A := (Remote.camera_onTransact camera base).

(** A call finds what was sent, and gives its reply. *)
Lemma sent interface (cases : Z → P → P → option (M G (Z * P))) code (data : P) l (f : P → M G (Z * P)) g :
  builds data (PToken interface :: l) →
  (∀ behind reply, unread behind = l → cases code behind reply = Some (f reply)) →
  send (serve interface cases base) code data g = (let '(_, reply, g') := f new_parcel g in (reply, g')).
Proof.
  intros Hb Hd. destruct (serve_finds interface cases base code data l Hb) as (behind & Hu & Hf).
  unfold send. rewrite bind_run, (Hf new_parcel (f new_parcel)) by by apply Hd.
  by destruct (f new_parcel g) as [[r reply] g'].
Qed.

Lemma sent_int interface (cases : Z → P → P → option (M G (Z * P))) code (data : P) l (f : M G Z) g :
  builds data (PToken interface :: l) →
  (∀ behind reply, unread behind = l → cases code behind reply = Some (reply_int reply f)) →
  ask_int (serve interface cases base) code data g = f g.
Proof.
  intros Hb Hd. unfold ask_int. rewrite bind_run, (sent interface cases code data l _ g Hb Hd).
  unfold reply_int. rewrite bind_run. destruct (f g) as [z g']. cbn [fst snd mret M_ret].
  assert (Hr : builds (w32 z (new_parcel (P := P))) [PInt32 z]) by build_parcel.
  destruct Hr as [_ Hr]. by take_next.
Qed.

Lemma sent_none interface (cases : Z → P → P → option (M G (Z * P))) code (data : P) l (f : M G ()) g :
  builds data (PToken interface :: l) →
  (∀ behind reply, unread behind = l → cases code behind reply = Some (reply_none reply f)) →
  tell (serve interface cases base) code data g = f g.
Proof.
  intros Hb Hd. unfold tell. rewrite bind_run, (sent interface cases code data l _ g Hb Hd).
  unfold reply_none. rewrite bind_run. by destruct (f g) as [[] g'].
Qed.

Lemma sent_bool interface (cases : Z → P → P → option (M G (Z * P))) code (data : P) l (f : M G bool) g :
  builds data (PToken interface :: l) →
  (∀ behind reply, unread behind = l → cases code behind reply = Some (reply_bool reply f)) →
  ask_bool (serve interface cases base) code data g = f g.
Proof.
  intros Hb Hd. unfold ask_bool, ask_int. rewrite !bind_run, (sent interface cases code data l _ g Hb Hd).
  unfold reply_bool. rewrite bind_run. destruct (f g) as [b g']. cbn [fst snd mret M_ret].
  assert (Hr : builds (w32 (Z.b2z b) (new_parcel (P := P))) [PInt32 (Z.b2z b)]) by build_parcel.
  destruct Hr as [_ Hr]. take_next. by destruct b.
Qed.

Lemma string8_take s q rest :
  unread q = PString8 s :: rest → ∃ q', readString8 q = (s, q') ∧ unread q' = rest.
Proof. apply take_one, readString8_law. Qed.

(** The calls without arguments. *)
Lemma plain_calls g :
  Bp_disconnect A g = disconnect camera g ∧ Bp_lock A g = lock camera g ∧ Bp_unlock A g = unlock camera g ∧
  Bp_startPreview A g = startPreview camera g ∧ Bp_stopPreview A g = stopPreview camera g ∧
  Bp_previewEnabled A g = previewEnabled camera g ∧ Bp_startRecording A g = startRecording camera g ∧
  Bp_stopRecording A g = stopRecording camera g ∧ Bp_recordingEnabled A g = recordingEnabled camera g ∧
  Bp_autoFocus A g = autoFocus camera g ∧ Bp_cancelAutoFocus A g = cancelAutoFocus camera g ∧
  Bp_getParameters A g = getParameters camera g.
Proof.
  split_and!;
    try (apply (sent_int _ _ _ _ []); [apply wtoken_builds|done]);
    try (apply (sent_none _ _ _ _ []); [apply wtoken_builds|done]);
    try (apply (sent_bool _ _ _ _ []); [apply wtoken_builds|done]).
  - unfold Bp_disconnect, tell, Remote.camera_onTransact. rewrite bind_run.
    rewrite (sent _ _ _ _ [] (λ reply, disconnect camera;; mret (NO_ERROR, wno_exception reply)));
      [|apply wtoken_builds|done].
    rewrite bind_run. by destruct (disconnect camera g) as [[] g'].
  - unfold Bp_getParameters, Remote.camera_onTransact. rewrite bind_run.
    rewrite (sent _ _ _ _ [] (λ reply, params ← getParameters camera; mret (NO_ERROR, (writeString8 params reply).2)));
      [|apply wtoken_builds|done].
    rewrite bind_run. destruct (getParameters camera g) as [params g']. cbn [fst snd mret M_ret].
    destruct (put_string8 params (new_parcel (P := P)) (proj2 new_parcel_law)) as (p' & -> & _ & Hu).
    cbn [fst snd mret M_ret]. rewrite (proj1 new_parcel_law) in Hu. by destruct (string8_take _ _ _ Hu) as (q & -> & _).
Qed.

(** A call of the proxy of a camera is the camera's own call, if the camera's
    process is alive: the arguments arrive and the answer comes back. *)
Theorem camera_calls_transparent g :
  (Bp_disconnect A g = disconnect camera g ∧ Bp_lock A g = lock camera g ∧ Bp_unlock A g = unlock camera g ∧
   Bp_startPreview A g = startPreview camera g ∧ Bp_stopPreview A g = stopPreview camera g ∧
   Bp_previewEnabled A g = previewEnabled camera g ∧ Bp_startRecording A g = startRecording camera g ∧
   Bp_stopRecording A g = stopRecording camera g ∧ Bp_recordingEnabled A g = recordingEnabled camera g ∧
   Bp_autoFocus A g = autoFocus camera g ∧ Bp_cancelAutoFocus A g = cancelAutoFocus camera g ∧
   Bp_getParameters A g = getParameters camera g) ∧
  (∀ b, Bp_connect A b g = connect camera b g ∧ Bp_setPreviewTarget A b g = setPreviewTarget camera b g ∧
     Bp_setPreviewCallbackTarget A b g = setPreviewCallbackTarget camera b g ∧
     Bp_releaseRecordingFrame A b g = releaseRecordingFrame camera b g) ∧
  (∀ z, Bp_setPreviewCallbackFlag A z g = setPreviewCallbackFlag camera z g ∧
     Bp_takePicture A z g = takePicture camera z g) ∧
  (∀ cmd arg1 arg2, Bp_sendCommand A cmd arg1 arg2 g = sendCommand camera cmd arg1 arg2 g) ∧
  (∀ params, Bp_setParameters A params g = setParameters camera params g) ∧
  (∀ enabled, Bp_storeMetaDataInBuffers A enabled g = storeMetaDataInBuffers camera enabled g).
Proof.
  split_and!; [..|intros b; split_and!|intros z; split|intros cmd arg1 arg2|intros params|intros enabled];
    try apply plain_calls.
  - apply (sent_int _ _ _ _ [PBinder b]); [build_parcel|]. intros behind reply Hu. unfold camera_dispatch. cbn. by take_next.
  - apply (sent_int _ _ _ _ [PBinder b]); [build_parcel|]. intros behind reply Hu. unfold camera_dispatch. cbn. by take_next.
  - apply (sent_int _ _ _ _ [PBinder b]); [build_parcel|]. intros behind reply Hu. unfold camera_dispatch. cbn. by take_next.
  - apply (sent_none _ _ _ _ [PBinder b]); [build_parcel|]. intros behind reply Hu. unfold camera_dispatch. cbn. by take_next.
  - apply (sent_none _ _ _ _ [PInt32 z]); [build_parcel|]. intros behind reply Hu. unfold camera_dispatch. cbn. by take_next.
  - apply (sent_int _ _ _ _ [PInt32 z]); [build_parcel|]. intros behind reply Hu. unfold camera_dispatch. cbn. by take_next.
  - apply (sent_int _ _ _ _ [PInt32 cmd; PInt32 arg1; PInt32 arg2]); [build_parcel|].
    intros behind reply Hu. unfold camera_dispatch. cbn. by do 3 take_next.
  - apply (sent_int _ _ _ _ [PString8 params]).
    + eapply builds_eq; [eapply builds_put; [apply put_string8|apply wtoken_builds]|done].
    + intros behind reply Hu. unfold camera_dispatch. cbn. by destruct (string8_take _ _ _ Hu) as (q & -> & _).
  - apply (sent_int _ _ _ _ [PInt32 (Z.b2z enabled)]); [build_parcel|].
    intros behind reply Hu. unfold camera_dispatch. cbn. take_next. by destruct enabled.
Qed.

End camera_calls.
(** ** Messages to the client and to who records *)

Section messages.
  Context `{!CameraMessages} {W Q T P : Type} `{ParcelExtraLaws P} `{ChannelLaws P Q} (base : Z → P → P → M (rpc W T) (Z * P)).
  Implicit Types (p q : P).

Inductive message :=
  | Notify (msgType ext1 ext2 : Z)
  | Data (msgType : Z) (imageData : option Z) (metadata : option camera_frame_metadata)
  | DataTimestamp (timestamp msgType : Z) (imageData : option Z).

(** As many faces as the number says. *)
Definition message_ok (m : message) : Prop :=
  match m with
  | Data _ _ (Some d) =>
      ∃ l, faces d = Some l ∧ Z.of_nat (length l) = camera_face_size * number_of_faces d ∧
           Z.of_nat (length l) < 2 ^ 32
  | _ => True
  end.

Definition client_line (client : Client.ICameraClient (rpc W T)) : oneway W P Q T message :=
  OneWay (λ m, match m with
               | Notify msgType ext1 ext2 => Client.Bp_notifyCallback post msgType ext1 ext2
               | Data msgType imageData d => Client.Bp_dataCallback post msgType imageData d
               | DataTimestamp timestamp msgType imageData => Client.Bp_dataCallbackTimestamp post timestamp msgType imageData
               end)
    (Client.client_onTransact client base)
    (λ m, match m with
          | Notify msgType ext1 ext2 => Client.notifyCallback client msgType ext1 ext2
          | Data msgType imageData d => Client.dataCallback client msgType imageData d
          | DataTimestamp timestamp msgType imageData => Client.dataCallbackTimestamp client timestamp msgType imageData
          end) eq message_ok.

Lemma file_take f q rest :
  unread q = PFile f :: rest → ∃ q', readFileDescriptor q = (f, q') ∧ unread q' = rest.
Proof. apply take_one, readFileDescriptor_takes. Qed.

Lemma notify_conveyed client msgType ext1 ext2 (g : rpc W (line Q T)) :
  ∃ code data h, (Client.Bp_notifyCallback post msgType ext1 ext2 g).2 =
      Rpc h ((transact_oneway code data (rpc_service g).1).2, (rpc_service g).2) ∧
    conveys (client_line client) code data (Notify msgType ext1 ext2).
Proof.
  unfold Client.Bp_notifyCallback. do 3 eexists. split; [rewrite post_run; reflexivity|].
  destruct (Client.has_file msgType ext1) eqn:Hf.
  - eapply (served_conveys _ _ _ _ _ _ _ _ _ [PInt32 msgType; PInt32 ext1; PFile ext2]); [|done|].
    + eapply builds_eq; [eapply builds_put; [apply put_file|apply builds_w32, builds_w32, wtoken_builds]|done].
    + intros behind reply Hu. unfold Client.client_dispatch. cbn. do 2 take_next. rewrite Hf.
      match goal with Hq : unread ?q0 = [PFile ext2] |- _ => by destruct (file_take _ q0 _ Hq) as (q' & -> & _) end.
  - eapply (served_conveys _ _ _ _ _ _ _ _ _ [PInt32 msgType; PInt32 ext1; PInt32 ext2]); [build_parcel|done|].
    intros behind reply Hu. unfold Client.client_dispatch. cbn. do 2 take_next. rewrite Hf. by take_next.
Qed.

Lemma data_conveyed client msgType imageData d (g : rpc W (line Q T)) :
  message_ok (Data msgType imageData d) →
  ∃ code data h, (Client.Bp_dataCallback post msgType imageData d g).2 =
      Rpc h ((transact_oneway code data (rpc_service g).1).2, (rpc_service g).2) ∧
    conveys (client_line client) code data (Data msgType imageData d).
Proof.
  intros Hok. unfold Client.Bp_dataCallback. do 3 eexists. split; [rewrite post_run; reflexivity|].
  destruct d as [d|].
  - destruct Hok as (l & Hl & Hlen & Hmax). rewrite Hl. cbn [from_option default]. unfold id.
    eapply (served_conveys _ _ _ _ _ _ _ _ _ [PInt32 msgType; PBinder imageData; PInt32 (number_of_faces d); PRaw l]);
      [|done|].
    + eapply builds_eq; [eapply builds_put; [apply put_raw|apply builds_w32, builds_binder, builds_w32, wtoken_builds]|done].
    + intros behind reply Hu. unfold Client.client_dispatch. cbn. do 2 take_next. unfold Client.read_frame_metadata.
      match goal with Hq : unread ?q0 = PInt32 _ :: _ |- context [dataAvail ?q0] =>
        rewrite (bool_decide_true (0 < dataAvail q0)) by (apply dataAvail_law; by rewrite Hq) end.
      take_next. rewrite <- Hlen. unfold u32, wrap. rewrite Z.mod_small by lia.
      match goal with Hq : unread ?q0 = [PRaw l] |- _ =>
        destruct (take_one _ _ _ _ _ (readInplace_takes l) Hq) as (q' & -> & _) end.
      cbn [fst]. rewrite <- Hl. by destruct d.
  - eapply (served_conveys _ _ _ _ _ _ _ _ _ [PInt32 msgType; PBinder imageData]); [build_parcel|done|].
    intros behind reply Hu. unfold Client.client_dispatch. cbn. do 2 take_next. unfold Client.read_frame_metadata.
    match goal with Hq : unread ?q0 = [] |- context [dataAvail ?q0] =>
      rewrite (bool_decide_false (0 < dataAvail q0)) by (rewrite dataAvail_law; rewrite Hq; by intros []) end.
    done.
Qed.

#[export] Instance client_laws client : OneWayLaws (client_line client).
Proof.
  intros [msgType ext1 ext2|msgType imageData d|timestamp msgType imageData] g Hok.
  - apply notify_conveyed.
  - by apply data_conveyed.
  - do 3 eexists. split; [cbn [ow_call client_line]; unfold Client.Bp_dataCallbackTimestamp; rewrite post_run; reflexivity|].
    eapply (served_conveys _ _ _ _ _ _ _ _ _ [PInt64 timestamp; PInt32 msgType; PBinder imageData]); [build_parcel|done|].
    intros behind reply Hu. unfold Client.client_dispatch. rewrite !bool_decide_false, bool_decide_true by done. by do 3 take_next.
Qed.

(** The messages of a camera to its client arrive in their order, each once, with
    the numbers, the buffer and the faces they were sent with, a file descriptor
    as one of the same file; those that binder refuses do not arrive. *)
Theorem messages_in_order client steps h (q : Q) t :
  queued q = [] → Forall message_ok (calls steps) →
  arrives (client_line client) steps t (mail_run (client_line client) steps (Rpc h (q, t))).
Proof. apply (mail_in_order (client_line client)). Qed.

(** Frames to who records. *)
Definition recorder_line (dataCallbackTimestamp : Z → Z → option Z → M (rpc W T) ()) :
    oneway W P Q T (Z * Z * option Z) :=
  OneWay (λ '(timestamp, msgType, imageData), Recorder.Bp_recorder_dataCallbackTimestamp post timestamp msgType imageData)
    (Recorder.recorder_onTransact dataCallbackTimestamp base)
    (λ '(timestamp, msgType, imageData), dataCallbackTimestamp timestamp msgType imageData) eq (λ _, True).

#[export] Instance recorder_laws method : OneWayLaws (recorder_line method).
Proof.
  intros [[timestamp msgType] imageData] g _.
  do 3 eexists. split; [cbn [ow_call recorder_line]; unfold Recorder.Bp_recorder_dataCallbackTimestamp; rewrite post_run; reflexivity|].
  eapply (served_conveys _ _ _ _ _ _ _ _ _ [PInt64 timestamp; PInt32 msgType; PBinder imageData]); [build_parcel|done|].
  intros behind reply Hu. unfold Recorder.recorder_dispatch. rewrite bool_decide_true by done. by do 3 take_next.
Qed.

Lemma frames_in_order method steps h (q : Q) t :
  queued q = [] → arrives (recorder_line method) steps t (mail_run (recorder_line method) steps (Rpc h (q, t))).
Proof. intros Hq. apply mail_in_order; [apply _|done|]. apply Forall_true. by intros ?. Qed.

End messages.

(** What a recorder asks of the client is done by it. *)
Section recording_calls.
  Context {G P : Type} `{ParcelExtraLaws P}.
  Context (camera : RecordingProxy.ICameraRecordingProxy G) (base : Z → P → P → M G (Z * P)).
  Import RecordingProxy.

Lemma recording_calls_transparent g :
  let A := RecordingProxy.proxy_onTransact camera base in
  (∀ listener, Bp_proxy_startRecording A listener g = startRecording camera listener g) ∧
  Bp_proxy_stopRecording A g = stopRecording camera g ∧
  (∀ mem, Bp_proxy_releaseRecordingFrame A mem g = releaseRecordingFrame camera mem g).
Proof.
  intros A. split_and!.
  - intros listener. apply (sent_int _ _ _ _ _ [PBinder listener]); [build_parcel|].
    intros behind reply Hu. unfold proxy_dispatch. cbn. by take_next.
  - apply (sent_none _ _ _ _ _ []); [apply wtoken_builds|done].
  - intros mem. apply (sent_none _ _ _ _ _ [PBinder mem]); [build_parcel|].
    intros behind reply Hu. unfold proxy_dispatch. cbn. by take_next.
Qed.

End recording_calls.

(** ** What a client program is told of deaths *)

Section client_program.
  Context `{!CameraMessages} {W : Type} (outside : platform W).

Abbreviation G := (process W).
Implicit Types g : G.

(** An object is linked to its camera and to nothing else, while the camera's
    process lives, and so is the [DeathNotifier] to the service. *)
Record client_inv g : Prop := {
  ci_objects b o : (b, Some o) ∈ links g ↔
    (∃ c, objects g !! o = Some c ∧ mCamera c = Some b) ∧ b ∉ died g;
  ci_service b : (b, None) ∈ links g ↔ gCameraService g = Some b ∧ b ∉ died g;
  ci_nodup : NoDup (links g)
}.

(** States that differ in nothing the links are about. *)
Definition alike g g' : Prop :=
  gCameraService g' = gCameraService g ∧ links g' = links g ∧ died g' = died g ∧
  ∀ o, (objects g' !! o ≫= mCamera) = (objects g !! o ≫= mCamera).

#[export] Instance alike_preorder : PreOrder alike.
Proof.
  split; [by intros g|]. intros g1 g2 g3 (A1 & A2 & A3 & A4) (B1 & B2 & B3 & B4).
  split_and!; congruence.
Qed.

Lemma camera_of (m : gmap Z Camera) o b : (∃ c, m !! o = Some c ∧ mCamera c = Some b) ↔ (m !! o ≫= mCamera) = Some b.
Proof. rewrite bind_Some. naive_solver. Qed.

Lemma alike_inv g g' : alike g g' → client_inv g → client_inv g'.
Proof.
  intros (Hs & Hl & Hd & Ho) [Hobj Hsvc Hnd]. split.
  - intros b o. rewrite Hl, Hd, camera_of, Ho, <- camera_of. apply Hobj.
  - intros b. rewrite Hl, Hd, Hs. apply Hsvc.
  - by rewrite Hl.
Qed.

Lemma alike_world {A} (f : M W A) g : alike g (on_world f g).2.
Proof. unfold on_world. by destruct (f (p_world g)). Qed.

Lemma alike_out o g : alike g (put_out o g).2.
Proof. done. Qed.

Lemma alike_member o f g : (∀ c, mCamera (f c) = mCamera c) → alike g (set_member o f g).2.
Proof.
  intros Hf. split_and!; [done..|]. intros o'. cbn. destruct (decide (o' = o)) as [->|].
  - rewrite lookup_alter_eq. by destruct (objects g !! o); cbn; rewrite ?Hf.
  - by rewrite lookup_alter_ne.
Qed.

Lemma alike_bind {A B} (f : M G A) (k : A → M G B) g :
  alike g (f g).2 → (∀ a g', alike g' (k a g').2) → alike g ((a ← f; k a) g).2.
Proof. intros Hf Hk. rewrite bind_run. destruct (f g) as [a g1]. cbn in *. by etrans; [|apply Hk]. Qed.

Lemma alike_poll n g : alike g (poll outside n g).2.
Proof.
  revert g. induction n as [|n IH]; intros g; [done|]. cbn [poll]. apply alike_bind; [apply alike_world|].
  intros [b|] g'; [done|]. apply alike_bind; [apply alike_world|by intros _].
Qed.

Lemma alike_forward {A} o (none : A) f g : alike g (forward outside o none f g).2.
Proof.
  unfold forward. apply alike_bind; [done|]. intros [b|] g'; [apply alike_world|done].
Qed.

Lemma alike_notify o m e1 e2 g : alike g (notifyCallback o m e1 e2 g).2.
Proof. unfold notifyCallback. apply alike_bind; [done|]. by intros [l|] g'. Qed.

Lemma alike_data o m d md g : alike g (dataCallback o m d md g).2.
Proof. unfold dataCallback. apply alike_bind; [done|]. by intros [l|] g'. Qed.

Lemma alike_timestamp o t m d g : alike g (dataCallbackTimestamp outside o t m d g).2.
Proof.
  unfold dataCallbackTimestamp. apply alike_bind; [done|]. intros [l|] g'; [done|].
  apply alike_bind; [done|]. intros [l|] g''; [done|apply alike_forward].
Qed.

(** *** Links *)

Lemma link_inv g b r :
  NoDup (links g) → (b, r) ∉ links g →
  let g' := (linkToDeath b r g).2 in
  NoDup (links g') ∧ (∀ x, x ∈ links g' ↔ x ∈ links g ∨ x = (b, r) ∧ b ∉ died g) ∧
  gCameraService g' = gCameraService g ∧ objects g' = objects g ∧ died g' = died g.
Proof.
  intros Hnd Hn. cbn. unfold linkToDeath. case_decide as Hd; cbn.
  - split_and!; [done| |done..]. naive_solver.
  - split_and!; [|intros x; rewrite elem_of_app, list_elem_of_singleton; naive_solver|done..].
    apply NoDup_app. split_and!; [done| |apply NoDup_singleton]. intros x Hx ->%list_elem_of_singleton. done.
Qed.

(** An object with a camera, given to the links. *)
Lemma put_and_link_inv g c x b :
  client_inv g → objects g !! c = Some x → mCamera x = None →
  client_inv (linkToDeath b (Some c) (set_member c (put_camera (Some b)) g).2).2.
Proof.
  intros [Hobj Hsvc Hnd] Hx Hn. set (g1 := (set_member c (put_camera (Some b)) g).2).
  assert (Hfree : ∀ b', (b', Some c) ∉ links g).
  { intros b' Hin. apply Hobj in Hin as [(y & Hy & Hb) _]. naive_solver. }
  assert (Hcam : ∀ o, (objects g1 !! o ≫= mCamera) = if decide (o = c) then Some b else (objects g !! o ≫= mCamera)).
  { intros o. cbn. case_decide as Ho; [subst; by rewrite lookup_alter_eq, Hx|by rewrite lookup_alter_ne]. }
  destruct (link_inv g1 b (Some c) Hnd (Hfree b)) as (H1 & H2 & H3 & H4 & H5).
  split; [|intros b'; rewrite H2, H3, H5; cbn; rewrite <- Hsvc; naive_solver|done].
  intros b' o. rewrite H2, H5, camera_of, H4, Hcam. cbn [links died g1 set_member set_objects fst snd]. case_decide as Ho.
  - subst o. split; [|naive_solver]. intros [Hin|[[= ->] ?]]; [by destruct (Hfree b')|done].
  - rewrite <- camera_of, <- Hobj. naive_solver.
Qed.

Lemma fresh_object_inv g c id :
  client_inv g → objects g !! c = None → client_inv (set_objects <[c := new_Camera id]> g).2.
Proof.
  intros Hi Hc. eapply alike_inv; [|exact Hi]. split_and!; [done..|]. intros o. cbn.
  destruct (decide (o = c)) as [->|]; [by rewrite lookup_insert_eq, Hc|by rewrite lookup_insert_ne].
Qed.

(** Deleting an object that is not linked. *)
Lemma delete_inv g c :
  client_inv g → (objects g !! c ≫= mCamera) = None → client_inv (set_objects (delete c) g).2.
Proof.
  intros Hi Hc. eapply alike_inv; [|exact Hi]. split_and!; [done..|]. intros o. cbn.
  destruct (decide (o = c)) as [->|]; [by rewrite lookup_delete_eq, Hc|by rewrite lookup_delete_ne].
Qed.

Lemma disconnect_inv o g : client_inv g → client_inv (disconnect outside o g).2.
Proof.
  intros Hi. unfold disconnect. rewrite bind_run. cbn [member fst snd].
  destruct (objects g !! o ≫= mCamera) as [b|] eqn:Hb; [|done]. rewrite bind_run.
  pose proof (alike_inv _ _ (alike_world (Remote.disconnect (camera_at outside b)) g) Hi) as [Hobj Hsvc Hnd].
  assert (Hb' : (objects (on_world (Remote.disconnect (camera_at outside b)) g).2 !! o ≫= mCamera) = Some b).
  { by rewrite (proj2 (proj2 (proj2 (alike_world _ g)))). }
  destruct (on_world (Remote.disconnect (camera_at outside b)) g) as [[] g1]. cbn [snd fst] in *.
  rewrite bind_run. cbn [fst snd unlinkToDeath set_links].
  split; cbn [links objects died gCameraService set_member set_objects fst snd].
  - intros b' o'. rewrite list_elem_of_filter, camera_of. cbn. destruct (decide (o' = o)) as [->|Ho].
    + rewrite lookup_alter_eq. destruct (objects g1 !! o) as [c|] eqn:Hc; [|done]. cbn. split; [|naive_solver].
      intros [Hne [(y & Hy & Hm) Hd]%Hobj]. exfalso. cbn in Hb'. congruence.
    + rewrite lookup_alter_ne, <- camera_of, <- Hobj by done. naive_solver.
  - intros b'. rewrite list_elem_of_filter, <- Hsvc. naive_solver.
  - by apply NoDup_filter.
Qed.

(** *** Deaths *)

(** What an object tells its listener of a death. *)
Definition notice_of (m : gmap Z Camera) (o : Z) : option output :=
  c ← m !! o; l ← mListener c; Some (Notified l CAMERA_MSG_ERROR CAMERA_ERROR_SERVER_DIED 0).

Lemma binderDied_run o g :
  binderDied o g = ((), Process (gCameraService g) (gDeathNotifier g) (objects g) (links g) (died g)
                          (p_out g ++ option_list (notice_of (objects g) o)) (p_world g)).
Proof.
  unfold binderDied, notifyCallback, notice_of. rewrite bind_run. cbn [member fst snd].
  destruct (objects g !! o) as [c|]; cbn; [|by rewrite app_nil_r; destruct g].
  destruct (mListener c); cbn; [done|by rewrite app_nil_r; destruct g].
Qed.

Lemma tell_death_run rs g :
  tell_death rs g =
    ((), Process (if decide (None ∈ rs) then None else gCameraService g) (gDeathNotifier g) (objects g) (links g)
           (died g) (p_out g ++ omap (λ r, r ≫= notice_of (objects g)) rs) (p_world g)).
Proof.
  revert g. induction rs as [|[o|] rs IH]; intros g; cbn [tell_death].
  - rewrite decide_False by apply not_elem_of_nil. cbn. rewrite app_nil_r. by destruct g.
  - rewrite bind_run, binderDied_run. cbn [fst snd]. rewrite IH. cbn. f_equal. f_equal.
    + by repeat case_decide; set_solver.
    + rewrite <- (assoc_L (++)). f_equal. by destruct (notice_of (objects g) o).
  - rewrite bind_run. cbn [service_died set_service fst snd]. rewrite IH. cbn. f_equal. f_equal.
    rewrite (decide_True (P := None ∈ None :: rs)) by left. by case_decide.
Qed.

Lemma binder_dies_run b g :
  let rs := (filter (λ x, x.1 = b) (links g)).*2 in
  binder_dies b g =
    ((), Process (if decide (None ∈ rs) then None else gCameraService g) (gDeathNotifier g) (objects g)
           (filter (λ x, x.1 ≠ b) (links g)) ({[b]} ∪ died g)
           (p_out g ++ omap (λ r, r ≫= notice_of (objects g)) rs) (p_world g)).
Proof.
  intros rs. unfold binder_dies. rewrite bind_run. cbn [fst snd]. rewrite bind_run. cbn [set_died fst snd].
  rewrite bind_run. cbn [set_links fst snd]. by rewrite tell_death_run.
Qed.

Lemma told m (rs : list (option Z)) : omap (λ r, r ≫= notice_of m) rs = omap (notice_of m) (omap id rs).
Proof. induction rs as [|[o|] rs IH]; cbn; [done| |done]. by destruct (notice_of m o); rewrite IH. Qed.

Lemma linked_recipients b r g : r ∈ (filter (λ x, x.1 = b) (links g)).*2 ↔ (b, r) ∈ links g.
Proof.
  rewrite list_elem_of_fmap. split.
  - intros ([b' r'] & -> & [Hb Hin]%list_elem_of_filter). cbn in *. by subst.
  - intros Hin. exists (b, r). split; [done|]. by apply list_elem_of_filter.
Qed.

Lemma binder_dies_inv b g : client_inv g → client_inv (binder_dies b g).2.
Proof.
  intros [Hobj Hsvc Hnd]. rewrite binder_dies_run. cbn [snd]. split; cbn [links objects died gCameraService].
  - intros b' o. rewrite list_elem_of_filter, Hobj. cbn. set_solver.
  - intros b'. rewrite list_elem_of_filter, Hsvc. cbn. case_decide as Hd.
    + apply linked_recipients, Hsvc in Hd as [Hd _]. split; [|by intros [? _]]. intros (Hne & Hs & _). congruence.
    + split; [|set_solver]. intros (Hne & Hs & Hn). set_solver.
  - by apply NoDup_filter.
Qed.

(** The deaths of some processes, one after the other. *)
Definition deaths (bs : list Z) : M G () := foldr (λ b f, binder_dies b;; f) (mret ()) bs.

Lemma deaths_keep bs g :
  client_inv g → client_inv (deaths bs g).2 ∧ objects (deaths bs g).2 = objects g.
Proof.
  revert g. induction bs as [|b bs IH]; intros g Hi; cbn [deaths foldr]; [done|]. rewrite bind_run.
  pose proof (binder_dies_inv b g Hi) as Hi'.
  assert (Ho : objects (binder_dies b g).2 = objects g) by by rewrite binder_dies_run.
  destruct (binder_dies b g) as [[] g1]. cbn [fst snd] in *. destruct (IH g1 Hi') as [H1 H2].
  split; [exact H1|]. by rewrite <- Ho, <- H2.
Qed.

Lemma deaths_service bs g : gCameraService g = None → gCameraService (deaths bs g).2 = None.
Proof.
  revert g. induction bs as [|b bs IH]; intros g Hg; cbn [deaths foldr]; [done|]. rewrite bind_run.
  apply IH. rewrite binder_dies_run. cbn. by rewrite Hg; case_decide.
Qed.

Lemma getCameraService_inv bs n g : client_inv g → client_inv (getCameraService outside (deaths bs) n g).2.
Proof.
  intros Hi. unfold getCameraService. rewrite bind_run. cbn [fst snd]. destruct (gCameraService g) as [s|] eqn:Hs; [done|].
  rewrite bind_run. pose proof (alike_poll n g) as Ha. destruct (poll outside n g) as [[b|] g1]; cbn [fst snd] in *;
    [|by eapply alike_inv]. pose proof (alike_inv _ _ Ha Hi) as Hi0. destruct Ha as (Hs0 & _). rewrite Hs in Hs0.
  rewrite bind_run. destruct (deaths_keep bs g1 Hi0) as [[Hobj Hsvc Hnd] _].
  pose proof (deaths_service bs g1 Hs0) as Hs1. clear Hi0 Hs0. destruct (deaths bs g1) as [[] g1']. clear g1. rename g1' into g1.
  cbn [fst snd] in *. rewrite bind_run. cbn [fst snd set_notifier]. rewrite bind_run.
  set (g2 := Process (gCameraService g1) true (objects g1) (links g1) (died g1) (p_out g1) (p_world g1)).
  assert (Hn : (b, None) ∉ links g2).
  { change (links g2) with (links g1). rewrite Hsvc, Hs1. by intros [? _]. }
  destruct (link_inv g2 b None Hnd Hn) as (H1 & H2 & H3 & H4 & H5).
  destruct (linkToDeath b None g2) as [[] g3]. cbn [fst snd] in *. rewrite bind_run. cbn [fst snd set_service mret M_ret].
  split; cbn [links objects died gCameraService].
  - intros b' o. rewrite H2, H4, H5. cbn. rewrite <- Hobj. naive_solver.
  - intros b'. rewrite H2, H5. cbn. rewrite Hsvc, Hs1. naive_solver.
  - done.
Qed.

(** *** Connecting *)

(** A new object without a camera, and what a call leaves of it. *)
Definition fresh_object g (c : Z) : Prop := (objects g !! c ≫= mCamera) = None ∧ is_Some (objects g !! c).

Lemma world_objects {A} (f : M W A) g : objects (on_world f g).2 = objects g.
Proof. unfold on_world. by destruct (f (p_world g)). Qed.

Lemma poll_objects n g : objects (poll outside n g).2 = objects g.
Proof.
  revert g. induction n as [|n IH]; intros g; [done|]. cbn [poll]. rewrite bind_run.
  pose proof (world_objects (getService outside) g) as Ho.
  destruct (on_world (getService outside) g) as [[b|] g1]; cbn [fst snd] in *; [done|]. rewrite bind_run, IH.
  by rewrite world_objects.
Qed.

Lemma getCameraService_objects bs n g :
  client_inv g → objects (getCameraService outside (deaths bs) n g).2 = objects g.
Proof.
  intros Hi. unfold getCameraService. rewrite bind_run. cbn [fst snd]. destruct (gCameraService g); [done|].
  rewrite bind_run. pose proof (poll_objects n g) as Ho. pose proof (alike_inv _ _ (alike_poll n g) Hi) as Hi1.
  destruct (poll outside n g) as [[b|] g1]; cbn [fst snd] in *; [|done]. rewrite bind_run.
  destruct (deaths_keep bs g1 Hi1) as [_ Hd]. rewrite <- Ho, <- Hd. clear Ho Hd Hi1.
  destruct (deaths bs g1) as [[] g2]. cbn [fst snd]. rewrite bind_run. cbn [fst snd set_notifier]. rewrite ?bind_run. unfold linkToDeath.
  cbn [died]. by case_decide; cbn; rewrite ?bind_run; cbn.
Qed.

(** A camera put into an object that is not linked yet does not change what the
    deaths do. *)
Lemma notice_put c d m o : notice_of (alter (put_camera d) c m) o = notice_of m o.
Proof.
  unfold notice_of. destruct (decide (o = c)) as [->|]; [|by rewrite lookup_alter_ne].
  rewrite lookup_alter_eq. by destruct (m !! c).
Qed.

Lemma deaths_put bs c d g :
  (deaths bs (set_member c (put_camera d) g).2).2 = (set_member c (put_camera d) (deaths bs g).2).2.
Proof.
  revert g. induction bs as [|b bs IH]; intros g; cbn [deaths foldr]; [done|]. rewrite !bind_run, !binder_dies_run.
  assert (Ho : ∀ l : list (option Z), omap (λ r, r ≫= notice_of (alter (put_camera d) c (objects g))) l =
                    omap (λ r, r ≫= notice_of (objects g)) l).
  { intros l. apply list_omap_ext, Forall_Forall2_diag, Forall_true. intros [o|]; [apply notice_put|done]. }
  cbn [fst snd]. rewrite <- IH. cbn. by rewrite Ho.
Qed.

(** The camera that the service gives goes into the object, which is then linked
    and kept, or cleared. *)
Lemma kept_or_cleared bs c (f : option Z → M W (Z * option Z)) g :
  client_inv g → fresh_object g c →
  client_inv ((status ← connect_service c f; keep_or_clear (deaths bs) c status) g).2.
Proof.
  intros Hi [Hn [x Hx]]. rewrite bind_run. unfold connect_service. rewrite bind_run. cbn [member fst snd].
  rewrite bind_run. pose proof (alike_world (f (objects g !! c ≫= mCamera)) g) as Ha.
  pose proof (alike_inv _ _ Ha Hi) as Hi1.
  assert (Hx1 : objects (on_world (f (objects g !! c ≫= mCamera)) g).2 !! c = Some x).
  { unfold on_world. by destruct (f _ _). }
  rewrite Hx in Hn. cbn in Hn.
  destruct (on_world (f (objects g !! c ≫= mCamera)) g) as [[status device] g1]. cbn [fst snd] in *.
  rewrite !bind_run. cbn [set_member set_objects fst snd mret M_ret]. unfold keep_or_clear. rewrite bind_run.
  cbn [member fst snd objects]. rewrite lookup_alter_eq, Hx1. cbn.
  assert (Hclear : client_inv (set_objects (delete c) (set_member c (put_camera device) g1).2).2).
  { assert (Hd : client_inv (set_objects (delete c) g1).2) by (apply delete_inv; [done|]; by rewrite Hx1).
    eapply alike_inv; [|exact Hd]. split_and!; [done..|]. intros o. cbn. rewrite delete_alter. by rewrite decide_True. }
  destruct device as [b|]; [|by rewrite bind_run].
  case_bool_decide; [|by rewrite bind_run].
  rewrite bind_run. destruct (deaths_keep bs g1 Hi1) as [Hi2 Ho2].
  pose proof (put_and_link_inv (deaths bs g1).2 c x b Hi2 ltac:(by rewrite Ho2) Hn) as Hl.
  rewrite <- deaths_put in Hl. cbn [set_member set_objects snd] in Hl.
  destruct (deaths bs _) as [[] g3]. cbn [fst snd] in *. rewrite bind_run.
  destruct (linkToDeath b (Some c) g3) as [[] g2]. cbn [fst snd] in *. rewrite bind_run. cbn [fst snd].
  eapply alike_inv; [|exact Hl]. by apply alike_member.
Qed.

Lemma clear_inv answered c g status :
  client_inv g → fresh_object g c → client_inv (keep_or_clear answered c status g).2.
Proof.
  intros Hi [Hn _]. unfold keep_or_clear. rewrite bind_run. cbn [member fst snd]. rewrite Hn, bind_run.
  by apply delete_inv.
Qed.

Lemma and_then_run {A B} (r : outcome A) (f : A → M G B) g :
  (and_then r f g).2 = match r with Done a => (f a g).2 | _ => g end.
Proof. destruct r; [|done..]. cbn. rewrite bind_run. by destruct (f a g). Qed.

(** The processes that die inside a method, at the three points. *)
Record deaths_inside := Inside { at_published : list Z; at_use : list Z; at_answered : list Z }.

Lemma connecting_inv {B} n c id (f : Z → option Z → M W (Z * option Z)) (k : Z → bool → B) ds g :
  client_inv g → objects g !! c = None →
  client_inv ((set_objects <[c := new_Camera id]>;;
    status ← with_service outside (deaths (at_published ds)) (deaths (at_use ds)) n NO_ERROR
               (λ cs, connect_service c (f cs));
    and_then status (λ status, kept ← keep_or_clear (deaths (at_answered ds)) c status; mret (k status kept))) g).2.
Proof.
  intros Hi Hc. pose proof (fresh_object_inv g c id Hi Hc) as Hi1. rewrite bind_run.
  assert (Hf1 : fresh_object (set_objects <[c := new_Camera id]> g).2 c).
  { unfold fresh_object. cbn. rewrite lookup_insert_eq. by split. }
  destruct (set_objects _ g) as [[] g1]. cbn [fst snd] in *. rewrite bind_run.
  assert (Hkeep : ∀ status g, client_inv g → fresh_object g c →
    client_inv ((kept ← keep_or_clear (deaths (at_answered ds)) c status; mret (k status kept)) g).2).
  { intros status g' Hi' Hf'. rewrite bind_run. by apply clear_inv. }
  unfold with_service. rewrite bind_run. pose proof (getCameraService_inv (at_published ds) n g1 Hi1) as Hi2.
  pose proof (getCameraService_objects (at_published ds) n g1 Hi1) as Ho2.
  destruct (getCameraService outside (deaths (at_published ds)) n g1) as [[] g2]; cbn [fst snd negb] in *; [|done].
  assert (Hf2 : fresh_object g2 c) by (unfold fresh_object in *; by rewrite Ho2). clear Hi1 Hf1 Hi Hc Ho2.
  rewrite bind_run. cbn [fst snd]. destruct (gCameraService g2) as [s|]; [|rewrite and_then_run; by apply Hkeep].
  rewrite bind_run. destruct (deaths_keep (at_use ds) g2 Hi2) as [Hi3 Ho3].
  destruct (deaths (at_use ds) g2) as [[] g3]. cbn [fst snd] in *.
  assert (Hf3 : fresh_object g3 c) by (unfold fresh_object in *; by rewrite Ho3).
  rewrite bind_run. cbn [fst snd]. destruct (gCameraService g3) as [b|]; [|done].
  rewrite bind_run. pose proof (kept_or_cleared (at_answered ds) c (f b) g3 Hi3 Hf3) as Hk. rewrite bind_run in Hk.
  destruct (connect_service c (f b) g3) as [status g4]. cbn [fst snd mret M_ret] in *.
  rewrite and_then_run, bind_run. done.
Qed.

Lemma asking_inv {A} n ds (none : A) (f : Z → M W A) g :
  client_inv g → client_inv (with_service outside (deaths (at_published ds)) (deaths (at_use ds)) n none
    (λ cs, on_world (f cs)) g).2.
Proof.
  intros Hi. unfold with_service. rewrite bind_run. pose proof (getCameraService_inv (at_published ds) n g Hi) as Hi2.
  destruct (getCameraService outside (deaths (at_published ds)) n g) as [[] g2]; cbn [fst snd negb] in *; [|done].
  rewrite bind_run. cbn [fst snd]. destruct (gCameraService g2) as [s|]; [|done].
  rewrite bind_run. destruct (deaths_keep (at_use ds) g2 Hi2) as [Hi3 _].
  destruct (deaths (at_use ds) g2) as [[] g3]. cbn [fst snd] in *.
  rewrite bind_run. cbn [fst snd]. destruct (gCameraService g3) as [b|]; [|done].
  rewrite bind_run. eapply alike_inv; [|exact Hi3]. apply (alike_world (f b)).
Qed.

Lemma number_inv n ds g :
  client_inv g → client_inv (getNumberOfCameras outside (deaths (at_published ds)) (deaths (at_use ds)) n g).2.
Proof.
  intros Hi. unfold getNumberOfCameras. rewrite bind_run. pose proof (getCameraService_inv (at_published ds) n g Hi) as Hi2.
  destruct (getCameraService outside (deaths (at_published ds)) n g) as [[] g2]; cbn [fst snd negb] in *; [|done].
  rewrite bind_run. destruct (deaths_keep (at_use ds) g2 Hi2) as [Hi3 _].
  destruct (deaths (at_use ds) g2) as [[] g3]. cbn [fst snd] in *.
  rewrite bind_run. cbn [fst snd]. destruct (gCameraService g3) as [b|]; [|done].
  rewrite bind_run. eapply alike_inv; [|exact Hi3]. apply (alike_world (api_getNumberOfCameras (service_at outside b))).
Qed.

Lemma create_inv bs c camera g :
  client_inv g → objects g !! c = None → client_inv (create outside (deaths bs) c camera g).2.
Proof.
  intros Hi Hc. unfold create. destruct camera as [b|]; [|done]. rewrite bind_run.
  pose proof (fresh_object_inv g c (-1) Hi Hc) as Hi1.
  assert (Hx : objects (set_objects <[c := new_Camera (-1)]> g).2 !! c = Some (new_Camera (-1))) by apply lookup_insert_eq.
  destruct (set_objects _ g) as [[] g1]. cbn [fst snd] in *. rewrite bind_run.
  pose proof (alike_inv _ _ (alike_world (Remote.connect (camera_at outside b) (Some c)) g1) Hi1) as Hi2.
  pose proof (world_objects (Remote.connect (camera_at outside b) (Some c)) g1) as Ho2.
  destruct (on_world _ g1) as [status g2]. cbn [fst snd] in *. rewrite <- Ho2 in Hx.
  case_bool_decide.
  - rewrite bind_run. cbn [set_member set_objects fst snd]. rewrite bind_run. cbn [fst snd]. rewrite bind_run.
    pose proof (alike_inv _ _ (alike_member c (put_status NO_ERROR) g2 ltac:(done)) Hi2) as Hi3.
    destruct (deaths_keep bs _ Hi3) as [Hi4 Ho4].
    pose proof (put_and_link_inv _ c (put_status NO_ERROR (new_Camera (-1))) b Hi4) as Hl.
    rewrite <- deaths_put, Ho4 in Hl. cbn [set_member set_objects fst snd objects] in Hl.
    rewrite lookup_alter_eq, Hx in Hl. specialize (Hl eq_refl eq_refl).
    rewrite bind_run. cbn [set_member set_objects fst snd mret M_ret]. exact Hl.
  - rewrite bind_run. apply delete_inv; [done|]. by rewrite Hx.
Qed.

(** *** Runs *)

(** A call of the program with the deaths inside it, a message to it, or a death
    between its calls. *)
Inductive client_step :=
  | SConnect (n : nat) (c cameraId : Z) (name : chars) (uid : Z) (ds : deaths_inside)
  | SConnectLegacy (n : nat) (c cameraId version : Z) (name : chars) (uid : Z) (ds : deaths_inside)
  | SCreate (c : Z) (camera : option Z) (ds : deaths_inside)
  | SNumber (n : nat) (ds : deaths_inside)
  | SInfo (n : nat) (cameraId : Z) (info : CameraInfo) (ds : deaths_inside)
  | SAddListener (n : nat) (listener : option Z) (ds : deaths_inside)
  | SRemoveListener (n : nat) (listener : option Z) (ds : deaths_inside)
  | SDisconnect (o : Z)
  | SForward (o : Z) (f : Remote.ICamera W → M W ())
  | SStopRecording (o : Z)
  | SRecord (o : Z) (listener : option Z)
  | SListen (o : Z) (listener : option Z)
  | SNotify (o msgType ext1 ext2 : Z)
  | SData (o msgType : Z) (dataPtr : option Z) (metadata : option camera_frame_metadata)
  | STimestamp (o timestamp msgType : Z) (dataPtr : option Z)
  | SDeath (b : Z).

(** [None]: the program has followed a null pointer. *)
Definition settle {A} (r : outcome A * G) : option G :=
  match r with (Crashed, _) => None | (_, g) => Some g end.

Definition one_step (s : client_step) (g : G) : option G :=
  match s with
  | SConnect n c cameraId name uid (Inside p u a) =>
      settle (connect outside (deaths p) (deaths u) (deaths a) n c cameraId name uid g)
  | SConnectLegacy n c cameraId version name uid (Inside p u a) =>
      settle (connectLegacy outside (deaths p) (deaths u) (deaths a) n c cameraId version name uid g)
  | SCreate c camera (Inside _ _ a) => Some (create outside (deaths a) c camera g).2
  | SNumber n (Inside p u _) => settle (getNumberOfCameras outside (deaths p) (deaths u) n g)
  | SInfo n cameraId info (Inside p u _) => settle (getCameraInfo outside (deaths p) (deaths u) n cameraId info g)
  | SAddListener n listener (Inside p u _) => settle (addServiceListener outside (deaths p) (deaths u) n listener g)
  | SRemoveListener n listener (Inside p u _) =>
      settle (removeServiceListener outside (deaths p) (deaths u) n listener g)
  | SDisconnect o => Some (disconnect outside o g).2
  | SForward o f => Some (forward outside o () f g).2
  | SStopRecording o => Some (stopRecording outside o g).2
  | SRecord o listener => Some (RecordingProxy_startRecording outside o listener g).2
  | SListen o listener => Some (setListener o listener g).2
  | SNotify o msgType ext1 ext2 => Some (notifyCallback o msgType ext1 ext2 g).2
  | SData o msgType dataPtr metadata => Some (dataCallback o msgType dataPtr metadata g).2
  | STimestamp o timestamp msgType dataPtr => Some (dataCallbackTimestamp outside o timestamp msgType dataPtr g).2
  | SDeath b => Some (binder_dies b g).2
  end.

(** A new object has a number of its own. *)
Definition step_ok (s : client_step) g : Prop :=
  match s with
  | SConnect _ c _ _ _ _ | SConnectLegacy _ c _ _ _ _ _ | SCreate c _ _ => objects g !! c = None
  | _ => True
  end.

(** From a program that has just started. *)
Inductive client_reaches (w : W) : G → Prop :=
  | program_starts : client_reaches w (Process None false ∅ [] ∅ [] w)
  | program_steps s g g' : client_reaches w g → step_ok s g → one_step s g = Some g' → client_reaches w g'.

Lemma settle_inv {A} (r : outcome A * G) g' : client_inv r.2 → settle r = Some g' → client_inv g'.
Proof. destruct r as [[] g]; cbn; by intros ? [= <-]. Qed.

Lemma one_step_inv s g g' : client_inv g → step_ok s g → one_step s g = Some g' → client_inv g'.
Proof.
  intros Hi Hok Hs. assert (Ha : ∀ g1, alike g g1 → Some g1 = Some g' → client_inv g').
  { intros g1 Hg1 [= <-]. by eapply alike_inv. }
  destruct s; try destruct ds as [p u a]; cbn in Hs, Hok.
  - eapply settle_inv; [|exact Hs]. by apply (connecting_inv n c cameraId
      (λ cs, api_connect (service_at outside cs) (Some c) cameraId name uid)
      (λ _ kept, if kept : bool then Some c else None) (Inside p u a)).
  - eapply settle_inv; [|exact Hs]. by apply (connecting_inv n c cameraId
      (λ cs, api_connectLegacy (service_at outside cs) (Some c) cameraId version name uid)
      (λ status kept, (status, if kept : bool then Some c else None)) (Inside p u a)).
  - injection Hs as <-. by apply create_inv.
  - eapply settle_inv; [|exact Hs]. by apply (number_inv n (Inside p u a)).
  - eapply settle_inv; [|exact Hs]. by apply (asking_inv n (Inside p u a)).
  - eapply settle_inv; [|exact Hs]. by apply (asking_inv n (Inside p u a)).
  - eapply settle_inv; [|exact Hs]. by apply (asking_inv n (Inside p u a)).
  - injection Hs as <-. by apply disconnect_inv.
  - eapply Ha, Hs. apply alike_forward.
  - eapply Ha, Hs. apply alike_bind; [by apply alike_member|]. intros [] g1. apply alike_forward.
  - eapply Ha, Hs. apply alike_bind; [by apply alike_member|]. intros [] g1.
    apply alike_bind; [apply alike_forward|]. intros r g2. apply alike_forward.
  - eapply Ha, Hs. by apply alike_member.
  - eapply Ha, Hs. apply alike_notify.
  - eapply Ha, Hs. apply alike_data.
  - eapply Ha, Hs. apply alike_timestamp.
  - injection Hs as <-. by apply binder_dies_inv.
Qed.

Lemma reaches_inv w g : client_reaches w g → client_inv g.
Proof.
  induction 1 as [|s g g' _ IH Hok Hs]; [|by eapply one_step_inv].
  split; cbn; [|intros b|constructor].
  - intros b o. rewrite elem_of_nil. split; [done|]. intros [(c & Hc & _) _]. by rewrite lookup_empty in Hc.
  - rewrite elem_of_nil. split; [done|]. by intros [? _].
Qed.

(** C19: However the calls of a client program, its messages and the deaths of
    processes are interleaved, deaths inside the calls included: when a process
    dies between two calls of the program, each object whose camera was there
    tells its listener, if it has one, of the death, once, and no other object
    tells anything; the program does not keep the service of that process.  The
    same death again is not told.  (A death inside a call, before [linkToDeath],
    is not noticed: see [dead_service_kept].) *)
Theorem deaths_noticed w g b :
  client_reaches w g → b ∉ died g →
  let g' := (binder_dies b g).2 in
  (∃ os, NoDup os ∧ (∀ o, o ∈ os ↔ ∃ c, objects g !! o = Some c ∧ mCamera c = Some b) ∧
     p_out g' = p_out g ++ omap (notice_of (objects g)) os) ∧
  objects g' = objects g ∧ gCameraService g' ≠ Some b ∧
  p_out (binder_dies b g').2 = p_out g'.
Proof.
  intros Hr Hb g'. pose proof (reaches_inv w g Hr) as [Hobj Hsvc Hnd].
  set (rs := (filter (λ x, x.1 = b) (links g)).*2).
  assert (Hg' : g' = (binder_dies b g).2) by done. rewrite binder_dies_run in Hg'. cbn [snd] in Hg'.
  assert (Hrs : NoDup rs).
  { unfold rs. apply NoDup_fmap_2_strong; [|by apply NoDup_filter].
    intros [b1 r1] [b2 r2] [H1 _]%list_elem_of_filter [H2 _]%list_elem_of_filter. cbn in *. by intros ->; subst. }
  split_and!.
  - exists (omap id rs). split_and!.
    + clear -Hrs. induction Hrs as [|[o|] l Hn _ IH]; cbn; [constructor| |done]. constructor; [|done].
      rewrite list_elem_of_omap. intros (r & Hin & Hr). cbn in Hr. by subst r.
    + intros o. rewrite list_elem_of_omap. split.
      * intros (r & Hin & Hr'). cbn in Hr'. subst r. apply linked_recipients, Hobj in Hin as [? _]. done.
      * intros Hc. exists (Some o). split; [|done]. apply linked_recipients, Hobj. by split.
    + rewrite Hg'. cbn [p_out]. by rewrite told.
  - by rewrite Hg'.
  - rewrite Hg'. cbn [gCameraService]. case_decide as Hd; [done|]. intros Hs. destruct Hd.
    apply linked_recipients, Hsvc. by split.
  - rewrite binder_dies_run. cbn [snd p_out]. rewrite Hg' at 2. cbn [links].
    assert ((filter (λ x, x.1 = b) (filter (λ x, x.1 ≠ b) (links g))) = []) as ->.
    { apply elem_of_nil_inv. intros x [H1 [H2 _]%list_elem_of_filter]%list_elem_of_filter. done. }
    cbn. by rewrite app_nil_r.
Qed.

End client_program.

(** *** Waiting for the service *)

Section waiting.
  Context {W : Type} (outside : platform W).

(** The world after [n] polls that found nothing. *)
Fixpoint polled (n : nat) (w : W) : option W :=
  match n with
  | O => Some w
  | S n =>
      let '(binder, w) := getService outside w in
      match binder with
      | None => polled n (usleep outside kCameraServicePollDelay w).2
      | Some _ => None
      end
  end.

Lemma world_split {A} (f : M W A) (g : process W) :
  ∃ g', on_world f g = ((f (p_world g)).1, g') ∧ p_world g' = (f (p_world g)).2.
Proof. unfold on_world. destruct (f (p_world g)) as [a w]. by eexists. Qed.

(** The call that waits for the service returns as soon as it is published, after
    the polls that did not find it, and the program knows the service then. *)
Lemma poll_returns k n w w' b g :
  p_world g = w → polled k w = Some w' → (getService outside w').1 = Some b → (k < n)%nat →
  (poll outside n g).1 = Some b.
Proof.
  revert n w g. induction k as [|k IH]; intros n w g Hw Hk Hb Hn; (destruct n as [|n]; [lia|]); cbn [poll polled] in *.
  - injection Hk as ->. rewrite bind_run.
    destruct (world_split (getService outside) g) as (g1 & -> & _). rewrite Hw. cbn [fst snd]. by rewrite Hb.
  - rewrite bind_run. destruct (world_split (getService outside) g) as (g1 & -> & Hg1). rewrite Hw in *.
    destruct (getService outside w) as [[s|] w2]; [done|]. cbn [fst snd] in *. rewrite bind_run.
    destruct (world_split (usleep outside kCameraServicePollDelay) g1) as (g2 & -> & Hg2). cbn [fst snd].
    apply (IH n (usleep outside kCameraServicePollDelay w2).2); [by rewrite Hg2, Hg1|done|done|lia].
Qed.

Lemma service_found published k n w' b g :
  gCameraService g = None → polled k (p_world g) = Some w' → (getService outside w').1 = Some b → (k < n)%nat →
  let '(returned, g') := getCameraService outside published n g in returned = true ∧ gCameraService g' = Some b.
Proof.
  intros Hs Hk Hb Hn. unfold getCameraService. rewrite bind_run. cbn [fst snd]. rewrite Hs, bind_run.
  pose proof (poll_returns k n _ w' b g eq_refl Hk Hb Hn) as Hp. destruct (poll outside n g) as [r g1].
  cbn in Hp |- *. subst r. rewrite bind_run. destruct (published g1) as [[] g2]. cbn [fst snd].
  rewrite ?bind_run. unfold linkToDeath. cbn. done.
Qed.

End waiting.

(** *** Frames and calls without a camera *)

Section object.
  Context `{!CameraMessages} {W : Type} (outside : platform W).

(** A frame goes to who records, or to the listener, or back to the camera, the
    first there is. *)
Lemma frame_goes_somewhere o timestamp msgType dataPtr g c :
  objects g !! o = Some c →
  let g' := (dataCallbackTimestamp outside o timestamp msgType dataPtr g).2 in
  match mRecordingProxyListener c, mListener c, mCamera c with
  | Some r, _, _ => p_out g' = p_out g ++ [Recorded r timestamp msgType dataPtr] ∧ p_world g' = p_world g
  | None, Some l, _ => p_out g' = p_out g ++ [PostedTimestamp l timestamp msgType dataPtr] ∧ p_world g' = p_world g
  | None, None, Some b =>
      p_out g' = p_out g ∧
      p_world g' = (Remote.releaseRecordingFrame (camera_at outside b) dataPtr (p_world g)).2
  | None, None, None => g' = g
  end.
Proof.
  intros Hc g'. unfold g', dataCallbackTimestamp. rewrite bind_run. cbn [member fst snd]. rewrite Hc. cbn.
  destruct (mRecordingProxyListener c); [done|]. rewrite bind_run. cbn [member fst snd]. rewrite Hc. cbn.
  destruct (mListener c); [done|]. unfold releaseRecordingFrame, forward. rewrite bind_run. cbn [member fst snd].
  rewrite Hc. cbn. destruct (mCamera c) as [b|]; [|done]. unfold on_world.
  by destruct (Remote.releaseRecordingFrame (camera_at outside b) dataPtr (p_world g)).
Qed.

(** An object that is not connected changes nothing outside. *)
Lemma not_connected o g :
  (objects g !! o ≫= mCamera) = None →
  disconnect outside o g = ((), g) ∧
  ∀ A (none : A) f, forward outside o none f g = (none, g).
Proof.
  intros Hn. split; [|intros A none f]; unfold disconnect, forward; rewrite bind_run; cbn [member fst snd];
    by rewrite Hn.
Qed.

(** After [disconnect] it is not connected. *)
Lemma disconnected o g : (objects (disconnect outside o g).2 !! o ≫= mCamera) = None.
Proof.
  unfold disconnect. rewrite bind_run. cbn [member fst snd].
  destruct (objects g !! o ≫= mCamera) as [b|] eqn:Hb; [|done]. rewrite !bind_run.
  cbn [fst snd unlinkToDeath set_links set_member set_objects objects]. rewrite lookup_alter_eq.
  match goal with |- context [put_camera None <$> ?x] => by destruct x end.
Qed.

End object.


(** ** The rotation of a camera's images (CameraUtils.cpp) *)

(** system/camera_metadata.h, system/graphics.h and system/window.h *)
Class CameraRotations := {
  ANDROID_SENSOR_ORIENTATION : Z;
  ANDROID_LENS_FACING : Z;
  ANDROID_LENS_FACING_FRONT : Z;
  NATIVE_WINDOW_TRANSFORM_FLIP_H : Z;
  NATIVE_WINDOW_TRANSFORM_ROT_90 : Z;
  NATIVE_WINDOW_TRANSFORM_ROT_180 : Z;
  NATIVE_WINDOW_TRANSFORM_ROT_270 : Z;
  NATIVE_WINDOW_TRANSFORM_INVERSE_DISPLAY : Z
}.

Section rotation.
  Context `{!MetadataLib} `{!CameraRotations}.

(** The data of an entry, none where [find] finds none. *)
Definition entry_values (staticInfo : metadata) (tag : Z) : list Z :=
  match const_find staticInfo tag with Some e => me_data e | None => [] end.

(** The flags of an orientation; [None] is an invalid one. *)
Definition rotation_flags (mirror : bool) (orientation : Z) : option Z :=
  if negb mirror then
    if bool_decide (orientation = 0) then Some 0
    else if bool_decide (orientation = 90) then Some NATIVE_WINDOW_TRANSFORM_ROT_90
    else if bool_decide (orientation = 180) then Some NATIVE_WINDOW_TRANSFORM_ROT_180
    else if bool_decide (orientation = 270) then Some NATIVE_WINDOW_TRANSFORM_ROT_270
    else None
  else
    if bool_decide (orientation = 0) then Some NATIVE_WINDOW_TRANSFORM_FLIP_H
    else if bool_decide (orientation = 90) then
      Some (Z.lxor NATIVE_WINDOW_TRANSFORM_FLIP_H NATIVE_WINDOW_TRANSFORM_ROT_270)
    else if bool_decide (orientation = 180) then
      Some (Z.lxor NATIVE_WINDOW_TRANSFORM_FLIP_H NATIVE_WINDOW_TRANSFORM_ROT_180)
    else if bool_decide (orientation = 270) then
      Some (Z.lxor NATIVE_WINDOW_TRANSFORM_FLIP_H NATIVE_WINDOW_TRANSFORM_ROT_90)
    else None.

(** [transform] is not null with [Some]; the status and what is there then.
    [None] reads where there is no data: the second test is of the first
    entry. *)
Definition getRotationTransform (staticInfo : metadata) (transform : option Z) : option (Z * option Z) :=
  match transform with
  | None => Some (BAD_VALUE, None)
  | Some _ =>
      match entry_values staticInfo ANDROID_SENSOR_ORIENTATION with
      | [] => Some (INVALID_OPERATION, Some 0)
      | orientation :: _ =>
          facing ← head (entry_values staticInfo ANDROID_LENS_FACING);
          match rotation_flags (bool_decide (facing = ANDROID_LENS_FACING_FRONT)) orientation with
          | None => Some (INVALID_OPERATION, Some 0)
          | Some flags => Some (OK, Some (Z.lor flags NATIVE_WINDOW_TRANSFORM_INVERSE_DISPLAY))
          end
      end
  end.

(** Success is for the four orientations; a camera without a facing ends the
    program where one without an orientation is an error. *)
Lemma rotation_outcomes m t :
  match entry_values m ANDROID_SENSOR_ORIENTATION, entry_values m ANDROID_LENS_FACING with
  | [], _ => getRotationTransform m (Some t) = Some (INVALID_OPERATION, Some 0)
  | _ :: _, [] => getRotationTransform m (Some t) = None
  | orientation :: _, _ :: _ => ∃ res flags, getRotationTransform m (Some t) = Some (res, Some flags) ∧
      (res = OK ↔ orientation ∈ [0; 90; 180; 270])
  end.
Proof.
  unfold getRotationTransform. destruct (entry_values m ANDROID_SENSOR_ORIENTATION) as [|orientation l]; [done|].
  destruct (entry_values m ANDROID_LENS_FACING) as [|facing l']; [done|]. cbn [head mbind option_bind].
  assert (Hf : is_Some (rotation_flags (bool_decide (facing = ANDROID_LENS_FACING_FRONT)) orientation) ↔
               orientation ∈ [0; 90; 180; 270]).
  { unfold rotation_flags. rewrite !elem_of_cons, elem_of_nil, <- not_eq_None_Some.
    destruct (negb _); repeat case_bool_decide; naive_solver. }
  destruct (rotation_flags _ orientation) as [flags|]; do 2 eexists; (split; [reflexivity|]); rewrite <- Hf.
  - split; [by eexists|done].
  - split; [done|by intros [? ?]].
Qed.

End rotation.

(** ** A client program in software *)

(** The service of the proxy at an end of binder. *)
Definition service_proxy {W T P} `{!MetadataLib} `{!MetaPackets W} `{!Parcel P} `{!ParcelObjects P}
    (transact : Z → P → P → M (rpc W T) (Z * P)) : service_api (rpc W T) :=
  ServiceApi (Service.Bp_connect transact) (Service.Bp_connectLegacy transact)
    (Service.Bp_getNumberOfCameras_default transact) (Service.Bp_getCameraInfo transact)
    (Service.Bp_addListener transact) (Service.Bp_removeListener transact).

#[export] Instance soft_messages : CameraMessages := {|
  CAMERA_MSG_ERROR := 1; CAMERA_MSG_PREVIEW_FRAME := 16; CAMERA_FRAME_DATA_FD := 9;
  CAMERA_ERROR_SERVER_DIED := 100; camera_face_size := 2
|}.

(** A camera that counts the frames given back in thousands. *)
Definition soft_remote : Remote.ICamera (rpc unit Z) :=
  let give : M (rpc unit Z) () := λ g, ((), Rpc (rpc_heap g) (rpc_service g + 1000)) in
  Remote.RemoteCamera (mret ()) (λ _, mret OK) (mret OK) (mret (- EBUSY)) (λ _, mret OK) (λ _, mret ()) (λ _, mret OK)
    (mret OK) (mret ()) (mret true) (mret OK) (mret ()) (mret false) (λ _, give) (mret OK) (mret OK) (λ _, mret OK)
    (λ _, mret OK) (mret (to_chars "zoom=1")) (λ _ _ _, mret OK) (λ _, mret OK).

(** The service is the binder 1. *)
Definition soft_platform : platform (rpc unit Z) :=
  Platform (mret (Some 1)) (λ _, mret ()) (λ _, service_proxy (Service.service_onTransact two_cameras no_base))
    (λ _, Remote.BpCamera (Remote.camera_onTransact soft_remote no_base)).

#[export] Instance step_ok_dec {W} (s : client_step (W := W)) (g : process W) : Decision (step_ok s g).
Proof. destruct s; apply _. Defined.

Fixpoint run_steps (steps : list (client_step (W := rpc unit Z))) (g : process (rpc unit Z)) : option (process (rpc unit Z)) :=
  match steps with
  | [] => Some g
  | s :: steps => if decide (step_ok s g) then one_step soft_platform s g ≫= run_steps steps else None
  end.

Lemma run_reaches w steps g g' :
  client_reaches soft_platform w g → run_steps steps g = Some g' → client_reaches soft_platform w g'.
Proof.
  revert g. induction steps as [|s steps IH]; intros g Hr; cbn; [by intros [= <-]|].
  case_decide as Hok; [|done]. intros (g1 & Hs & Hg)%bind_Some. by eapply IH; [eapply program_steps|].
Qed.

Definition client_start : process (rpc unit Z) := Process None false ∅ [] ∅ [] soft_rpc.

Definition no_deaths : deaths_inside := Inside [] [] [].

(** Two objects with the camera 40, whose listeners are 7 and 8, and one without
    a listener; a connection that is refused. *)
Definition client_steps : list (client_step (W := rpc unit Z)) :=
  [SConnect 1 100 0 (to_chars "app") 1000 no_deaths; SListen 100 (Some 7); SCreate 101 (Some 40) no_deaths; SListen 101 (Some 8);
   SCreate 102 (Some 40) no_deaths; SConnect 1 103 1 (to_chars "app") 1000 no_deaths; STimestamp 102 5 2 (Some 60)].

Lemma deaths_noticed_witness :
  ∃ g, run_steps client_steps client_start = Some g ∧ gCameraService g = Some 1 ∧ rpc_service (p_world g) = 1001 ∧
    p_out (binder_dies 40 g).2 = [Notified 7 1 100 0; Notified 8 1 100 0] ∧
    gCameraService (binder_dies 1 g).2 ≠ Some 1.
Proof.
  destruct (run_steps client_steps client_start) as [g|] eqn:Hg; [|by vm_compute in Hg].
  exists g. assert (Hr : client_reaches soft_platform soft_rpc g) by (eapply run_reaches; [apply program_starts|exact Hg]).
  assert (Hv : g = default client_start (run_steps client_steps client_start)) by by rewrite Hg.
  assert (Hd : died g = ∅) by by rewrite Hv; vm_compute.
  destruct (deaths_noticed soft_platform soft_rpc g 1 Hr) as (_ & _ & Hs & _); [by rewrite Hd|].
  split_and!; [done|by rewrite Hv; vm_compute|by rewrite Hv; vm_compute|by rewrite Hv; vm_compute|exact Hs].
Defined.

(** The service dies after the test of the reference: the null pointer is
    followed. *)
Example service_dies_in_connect :
  run_steps [SNumber 1 no_deaths; SConnect 1 100 0 (to_chars "app") 1000 (Inside [] [1] [])] client_start = None ∧
  is_Some (run_steps [SNumber 1 no_deaths; SConnect 1 100 0 (to_chars "app") 1000 no_deaths] client_start).
Proof. split; [by vm_compute|]. by eexists; vm_compute. Qed.

(** A service whose process ends before the [DeathNotifier] is linked is kept for
    good, and a camera whose process ends before its object is linked is not
    heard of. *)
Example dead_service_kept :
  let steps := [SNumber 1 (Inside [1] [] []); SConnect 1 100 0 (to_chars "app") 1000 (Inside [] [] [40]);
                SListen 100 (Some 7); SDeath 1; SDeath 40; SNumber 1 no_deaths] in
  (gCameraService <$> run_steps steps client_start) = Some (Some 1) ∧
  (p_out <$> run_steps steps client_start) = Some [].
Proof. by vm_compute. Qed.

(** Messages through binder to a camera's object and its listener. *)
Definition soft_messages_sent : list (mail_step (P := soft_parcel) (E := message)) :=
  [Call (Notify 16 9 33); Call (Data 2 (Some 61) (Some (FrameMetadata 1 (Some [4; 5])))); Deliver new_parcel;
   Call (DataTimestamp 8 2 (Some 62)); Deliver new_parcel; Deliver new_parcel].

Definition client_object : process (rpc unit Z) :=
  Process None false {[100 := CameraObject 0 OK (Some 40) (Some 7) None]} [(40, Some 100)] ∅ [] soft_rpc.

Definition soft_client_line : oneway unit soft_parcel (list (Z * soft_parcel)) (process (rpc unit Z)) message :=
  client_line (λ _ _ reply, mret (- ENOSYS, reply)) (camera_client soft_platform 100).

Lemma messages_in_order_witness :
  let run := mail_run soft_client_line soft_messages_sent (Rpc (Heap ∅ false tt) ([], client_object)) in
  p_out (rpc_service run.2).2 =
    [Notified 7 16 9 33; PostedData 7 2 (Some 61) (Some (FrameMetadata 1 (Some [4; 5]))); PostedTimestamp 7 8 2 (Some 62)] ∧
  arrives soft_client_line soft_messages_sent client_object run.
Proof.
  intros run. split; [by vm_compute|].
  apply (messages_in_order (W := unit) (λ _ _ reply, mret (- ENOSYS, reply)) (camera_client soft_platform 100)); [done|].
  repeat constructor. exists [4; 5]. by split_and!.
Defined.
